(* ===== verification/_CoqProject ===== *)
-Q . S2P
Prelude.v
RustStr.v
Glob.v
Model.v
TimeRules.v
DangerousSql.v
StateCrypto.v
Ticket.v
TicketSpec.v
TicketTheorems.v
Obligations.v
RowFilter.v
ObligationTheorems.v
ObjectSet.v
Security.v
SqlRewrite.v
Pdp.v
Authorize.v
PdpStore.v
AuthorizeTheorems.v
TransFsm.v
LoadBalance.v
Route.v
Discovery.v
ConnPool.v
Session.v
Plugin.v
AuditEvents.v
AuditIndex.v
AuditPipeline.v
Transport.v
Translation.v
TranslationTheorems.v
GatewayConfig.v
RuntimePlan.v
Cursor.v
Engine.v
EngineTheorems.v
EngineRuns.v
PgProtocol.v
PgText.v
PgFrontend.v
PgFrontendTheorems.v
PgSession.v
PgSessionRuns.v
Vault.v
VaultTheorems.v
AdminAuth.v
AdminAuthTheorems.v
ConfigDiff.v
Runtime.v
AdminApi.v
AdminApiTheorems.v
AdminRuns.v
AdminReload.v
Portal.v
PortalTheorems.v
MyCharset.v
MyProtocol.v
MyProtocolTheorems.v
MyHandshake.v
MyHandshakeTheorems.v
MyFrontend.v
MyFrontendTheorems.v
MySession.v
MySessionRuns.v
MyClient.v
MyBackend.v
MyConn.v
MyConnector.v
MyBackendTheorems.v
MyReadTheorems.v
MyConnectorTheorems.v
ShardingMeta.v
Sharding.v
ShardingTheorems.v
ShardingRuns.v
PgTcp.v
PgBackend.v
PgBackendTheorems.v
