(* ===== verification/Prelude.v ===== *)
(** * Data Nexus: a verification development of the gateway's security core

    Data Nexus ([data-proxy/]) is a database gateway: it speaks the MySQL and
    PostgreSQL protocols to its clients, decides for every command whether the
    client may run it, rewrites it if the policy says so, forwards it to a backend
    and masks what comes back.  This library models the parts of the Rust code
    that take these decisions and of those that carry them out (the connection
    engine, streaming, translation, routing, pools, plugins, audit), and proves
    what makes them correct.

    ** The parts and how they interact

    A command reaches [LocalPdp::authorize_command_with_objects] ([pdp.rs]) with
    the subject of the session and, if the runtime could parse the SQL, the set of
    tables and columns it touches ([object_set.rs]).  The function loads the
    policy snapshot of the store ([LocalPdpStore], replaced as a whole on reload or
    when the shared policy file changes) and runs its gates in order: table rules
    (first match), Cedar, the remote decision point, time rules, high-risk rules
    (which need an approval ticket from [ticket.rs]), column rules (which may
    rewrite the select list).  An allow carries obligations ([obligations.rs]):
    a row filter injected into the SQL, masks, a row limit and a watermark applied
    to the result.

    The engine of a connection ([core_engine.rs] of the runtime crate) takes each
    decoded command through all of this: it refuses classes of statements
    ([dangerous_sql.rs]), plans the endpoint, answers named-cursor statements,
    asks the plugins, translates between the dialects ([translation.rs]), asks the
    decision point, executes on the backend and streams the result through the
    obligations ([transport.rs]), and passes an event to the audit pipeline
    ([audit_pipeline.rs]).  The older MySQL path has its own parts: the session
    machine ([transaction_fsm.rs]) decides which backend connection a session
    uses, the pool hands connections out, the router picks a balancer by the rules
    of read/write splitting, the balancer picks an endpoint, and the discovery
    loop tells the router which endpoints are primaries and replicas.

    ** Files

    All source paths are below [data-proxy/gateway/core/src/] unless given in full.

    - [Prelude]: Rust's [Result], panics ([exec]: [Ret] or [Panic]), machine
      integers as [Z] with their wrapping and saturating operations, the hint
      database [rust], tactics, generic list lemmas.
    - [RustStr]: [str] as the list of its UTF-8 bytes; the standard-library string
      operations the code uses, slicing with its character-boundary panics.
    - [Glob]: [glob_match] of [pdp.rs] and its declarative meaning.
    - [Model]: commands, responses, values, modes ([model.rs]), column types
      ([types.rs]), the heuristic dialect ([dialect.rs]), [StatementAction].
    - [TimeRules]: [time_rules.rs].  [DangerousSql]: [dangerous_sql.rs].
      [StateCrypto]: [state_crypto.rs].
    - [Ticket]: the ticket store of [ticket.rs], every operation and the state
      file; [TicketSpec]: the abstract ticket machine, its invariants and the
      refinement; [TicketTheorems]: the properties.
    - [Obligations], [RowFilter]: [obligations.rs]; [ObligationTheorems]: their
      properties.
    - [ObjectSet]: [object_set.rs].  [Security]: [security.rs], the configuration
      and its validation.
    - [SqlRewrite]: table extraction and column stripping of [pdp.rs].
    - [Pdp]: matching, rule evaluation, row filters, mask collection and column
      rules of [pdp.rs]; the remote client of [remote_pdp.rs].
    - [Authorize]: the gates and [authorize_command_with_objects], written against
      the interface [TicketGate] (with its laws [TicketGateLaws]), which the ticket
      store implements ([store_gate], [store_gate_laws]).
    - [PdpStore]: the snapshot store, hot reload and polling of [pdp.rs], the
      shared file of [policy_file.rs].
    - [AuthorizeTheorems]: the properties of the pipeline.
    - [TransFsm]: [data-proxy/runtime/gateway/src/transaction_fsm.rs] and
      [fsm_trigger] of [server/server.rs].
    - [LoadBalance]: [data-proxy/proxy/loadbalance/src/].
    - [Route]: [data-proxy/proxy/strategy/src/route.rs] and [readwritesplitting/],
      over the balancers of [LoadBalance].
    - [Discovery]: the reconcile loop of
      [data-proxy/proxy/strategy/src/discovery/monitor_reconcile.rs], which feeds
      the dynamic strategy of [Route].
    - [ConnPool]: [data-proxy/proxy/pool/src/conn_pool.rs], with the tasks that
      share the pool as an interleaving of steps.
    - [Session]: the session state of [model.rs] and the route plans of [route.rs].
    - [Plugin]: [plugin.rs] and [data-proxy/plugin/src/] (circuit breaker,
      concurrency control).
    - [AuditEvents], [AuditIndex], [AuditPipeline]: [audit.rs], [audit_index.rs],
      [audit_pipeline.rs].
    - [Transport]: [transport.rs]: row streams, the streaming and windowed
      encoders, the wire relay, over the classes [FrontendProtocolAdapter] and
      [ResponseWriter].
    - [Translation]: [translation.rs]; [TranslationTheorems]: its properties.
    - [GatewayConfig]: [config.rs].  [RuntimePlan], [Cursor], [Engine]:
      [data-proxy/runtime/gateway/src/core_engine.rs] (the plan of a listener and
      its routing; named cursors; the connection, over the class
      [BackendConnector]); [EngineTheorems]: the properties of the engine;
      [EngineRuns]: concrete connections.
    - [PgProtocol]: [data-proxy/protocol/postgresql/src/lib.rs], bytes to messages
      and back.  [PgText], [PgFrontend]: the PostgreSQL frontend
      ([data-proxy/runtime/gateway/src/frontend/postgresql.rs]), an instance of
      [FrontendProtocolAdapter]; [PgFrontendTheorems]: its properties, with the
      machine of statements and portals it refines.
    - [PgSession]: the session loop of [data-proxy/runtime/gateway/src/gateway.rs]
      over the engine and the PostgreSQL frontend; [PgSessionRuns]: concrete
      sessions.
    - [Vault], [VaultTheorems]: the lease store of [vault.rs].
    - [AdminAuth], [AdminAuthTheorems]: [admin_auth.rs] and, below
      [data-proxy/http/src/http/], [admin_auth.rs] and [jwks.rs]: roles, permissions
      of the routes, tokens, the cache of signing keys.
    - [ConfigDiff]: the configuration document
      ([data-proxy/app/config/src/config.rs]) and the difference of two.
      [Runtime]: the stores of the process, the runtime of a listener with its
      registry of sessions and its pool ([gateway.rs], [core_engine.rs]), and the
      factory of [data-proxy/app/server/src/server.rs].
    - [AdminApi]: the state of the process and the handlers of the administration
      interface ([data-proxy/http/src/http/mod.rs]), with [boot] for [main];
      [AdminApiTheorems], [AdminRuns], [AdminReload]: who may do what, the invariant
      of the process, reload, and concrete runs (Module [AdminExamples]).
    - [Portal], [PortalTheorems]: the query portal of the same file, from the request
      to the exported bytes, and concrete requests (Module [PortalExamples]).
    - [MyProtocol], [MyHandshake], [MyCharset]: the server side of
      [data-proxy/protocol/mysql/src/]: integers, strings and columns ([util.rs],
      [column.rs]), packets ([server/codec.rs]), the handshake ([server/auth.rs]),
      the collations ([charset.rs]); [MyProtocolTheorems], [MyHandshakeTheorems]:
      their properties.
    - [MyFrontend], [MyFrontendTheorems]: the MySQL frontend
      ([data-proxy/runtime/gateway/src/frontend/mysql.rs]), the other instance of
      [FrontendProtocolAdapter].  [MySession], [MySessionRuns]: its session loop
      ([gateway.rs]) over the engine, and concrete sessions.
    - [MyClient]: the client side of [data-proxy/protocol/mysql/src/client/] (result
      sets, prepared statements, the connection) over the class [MyServer].
      [MyBackend], [MyConn], [MyConnector]: the MySQL backend
      ([data-proxy/runtime/gateway/src/backend/mysql.rs]): values and statements, a
      connection, and the connector with its pool (an instance of [ConnLike]), the
      connection of a transaction and the tasks that read rows.
      [MyBackendTheorems], [MyReadTheorems], [MyConnectorTheorems]: parameters,
      reading answers, transactions, and concrete runs (Module [MyConnectorRuns]).
    - [ShardingMeta]: the sharding rules of [data-proxy/proxy/strategy/src/config.rs]
      and the metadata of a statement; [Sharding]: the rewriter
      ([sharding_rewrite/mod.rs] there).  [ShardingTheorems]: what the edits of a
      text amount to, where statements and rows go (Modules [ShardingText],
      [ShardingPlans], [ShardingTheorems], [ShardingInserts]); [ShardingRuns]:
      concrete statements.
    - [PgTcp]: the frame relay of PostgreSQL
      ([data-proxy/runtime/gateway/src/backend/pg_tcp_relay.rs]) over the classes
      [PgNet] (the network) and [PgMessages] (the encoders).  [PgBackend]: the
      PostgreSQL backend ([backend/postgresql.rs] there), values and rows (Module
      [PgValues]) and the connector (Module [PgConnector]) over the class
      [PgClient] (the client library).  [PgBackendTheorems]: relayed units, the
      pool of idle sessions, parameters, windows, the end of transactions
      (Modules [PgRelayTheorems], [PgBackendTheorems]), what both backends promise
      to the engine (Module [GatewayBackends]), and concrete runs, among
      them whole sessions with the frontend and the engine (Module
      [PgBackendRuns]).

    ** How the code is modelled

    Pure functions are Gallina functions with the source's names.  Stateful code
    passes its state: the ticket store with its disk ([Ticket.World]), the policy
    store ([PdpStore.LocalPdpStore]), the session machine; the engine is written in
    a small state-and-error monad ([Engine.M]).  [Result] is [result]; a panic is
    the value [Panic].  The counters of the audit pipeline ([AtomicU64]) are integers
    without a bound.  The clock, the outcome of file operations and
    random draws are arguments ([Env], [FsEnv], [Readings], [Rng]).  Third-party
    code is a class of operations with a class of laws where a theorem needs
    them: [Crypto] (AES-GCM, base64), [TicketJson] and [PolicyJson] (serde),
    [Chrono] (the calendar), [RemoteIO] (HTTP), [CedarLoader], [Rng], [RegexLib];
    each law class has a concrete instance, used by the witnesses.

    Every critical section (a store operation under its mutex, a snapshot swap) is
    one step.  Where the code is not atomic, neither is the model: the pool's
    operations are step functions that other tasks' steps may separate, senders
    and worker of the audit pipeline interleave, and
    [authorize_command_with_objects] loads the snapshot again for each gate, so
    the model takes a snapshot per call site ([Authorize.Snapshots]; [steady] is
    the case without a reload in between).

    Loops whose recursion is not structural carry fuel, and the fuel is shown to be
    enough: the glob loop (quadratic in the lengths, [glob_match_spec]), the
    tokenizer (the length of the text, [classify_whole_batch]), the nested
    rewrite (one more than the opening parentheses, [strip_columns_total]), the
    result windows (the number of rows, [windowed_path_equals_full]), Euclid's loop and
    the round-robin loop (two passes, [round_robin_refines]), the streaming loop
    (the polls and rows of the stream, [streaming_delivers]), the rows of a MySQL
    result (the bytes still to be read, [mysql_query_terminates]), a PostgreSQL
    relay (the bytes still to be read, [relay_unit]), the tokenizer of
    placeholders (the length of the statement, [placeholder_roundtrip]).

    ** What the theorems show

    - Tickets: the store refines an abstract machine under any sequence of
      operations ([ticket_store_refines]); use budgets, dual control and
      revocation hold on every run ([ticket_budget], [ticket_four_eyes],
      [ticket_revoked]); [consume] and pruning are characterised exactly; a ticket
      works for the statement it was issued for ([issue_then_use]); a restart
      from the state file loses nothing ([ticket_file_restart]).
    - Authorization: rules are first match; a table deny is final; a high-risk
      statement that is allowed has spent a valid ticket; under [fail_closed] a
      decision on a filtered SELECT that is not a denial is a rewrite with the
      filter in its text ([row_filter_applied]); a validated configuration masks
      every tagged column ([AuthorizeTheorems]).
    - Results: without a watermark, the windowed path of a session writes what the
      full path makes of the whole result ([windowed_path_equals_full]; with one
      they differ, [windowed_watermark_masked]); masks reach every cell of their
      column and nothing else ([masks_enforced]); watermarks are idempotent;
      merging keeps the strictest of both ([ObligationTheorems]).
    - SQL text: the keyword scanner, the row-filter rewrite and column stripping
      are specified on all inputs of their domain; the classifier reads every
      statement and is not misled by case or by leading comments.
    - Policy distribution: a reload reaches the other processes that see the file's
      modification time change ([reload_propagates]); hot reload
      installs everything that changed; the policy file round-trips ([PdpStore]).
    - Sessions and endpoints: a transaction stays on its connection
      ([transaction_affinity]); round robin is exactly weighted
      ([round_robin_fair]) and so is the random choice ([random_share]); the
      router keeps reads and writes apart and transactions on a primary
      ([route_in_role], [generic_routes_by_keyword]); a failed primary is replaced
      by the replica that became the master ([reconcile_failover]).
    - The engine: the backend runs only what the decision point allowed
      ([backend_runs_only_allowed]); a refusal is recorded and, once the client was
      told, gives its permit back ([refusal_is_recorded]); under obligations
      everything reaches the client through an encoder that has them
      ([obligations_enforced], for backends that stream statements when told to,
      which both do: Module [GatewayBackends]), which delivers exactly the rows
      kept, for a stream without failing or empty polls ([streaming_delivers]); a
      validated configuration can be planned ([validated_plan]) and sends writes
      to a primary and the commands of an active transaction to one endpoint
      ([writes_to_primary]).
    - The PostgreSQL session: every message a client can send is decoded as sent
      ([frontend_messages_decoded], [startup_roundtrip]), rows arrive cell by cell
      ([data_row_readable]); the extended protocol refines a machine of statements
      and portals ([extended_protocol_refines]) and cannot be used to pass a
      refused statement ([extended_statements_safe]); the stream is cut into
      messages wherever its bytes come from ([session_handles_messages]); after an
      error the frames that decode are dropped until [Sync]
      ([unit_dropped_after_error], [error_until_sync]), and readiness is told when it is due
      ([ready_when_due]); the handshake ends ([handshake_ends]); dates are those of
      the calendar ([date_days_calendar]).
    - Translation: a statement crosses exactly when the policy allows it
      ([translation_gate]); parameters follow their placeholders
      ([pg_parameters_reordered], [placeholder_roundtrip]).
    - Pool: a request returns in bounded time, under every schedule
      ([acquire_outcome], [acquire_progress]), and never with a connection from
      before a refresh ([no_stale_connection]).
    - Plugins and audit: the concurrency limit ([concurrency_limit]), the breaker
      ([breaker_rejects]); every event sent is taken by the worker (and
      traced), still waits, or is counted as dropped ([audit_conservation]), a
      refusal is not lost to a flood ([deny_recorded]), what is recorded stays
      within the level ([payload_within_level]), and the index answers its queries
      exactly ([index_query_spec]).
    - Leases: the password of a lease is in no answer, list or plain file
      ([vault_hides_passwords]); a revoked lease opens nothing, whatever follows
      ([revoked_lease_is_dead]); a token opens the lease it came with
      ([token_opens_own_lease]); a restart keeps the leases ([vault_restart]).
    - Administration: a route runs only for a token whose roles have its
      permission ([admin_request_granted], [admin_route_guarded]) and a viewer
      changes nothing ([viewer_is_read_only]); a token is checked with a key its
      issuer publishes ([signing_key_published]) and the break-glass token works
      ([break_glass_token_works]); on every run each registered listener
      has its four controls over one runtime that was planned and started for it
      ([process_invariant]); a reload that is applied leaves the listeners of the
      new document running, the kept ones on the runtime they had
      ([reload_keeps_serving]), one with a
      changed listener fails ([changed_listener_fails]); an unchanged document is
      recognised ([unchanged_reload]).
    - The MySQL session: a client that logs in sent the hash of the password
      ([mysql_login_proves_password]), one that sends that of a
      password that is not empty is let in ([mysql_login_works]), and the handshake ends ([mysql_handshake_ends]); the
      commands handled are those sent whole, however the stream is cut
      ([mysql_session_handles_commands]), and responses are framed and numbered
      ([mysql_responses_framed]); columns, text rows and binary rows are read back
      ([column_roundtrip], [mysql_text_row_reads_back],
      [mysql_binary_row_reads_back]); bound numbers and times are the client's
      ([mysql_parameters_decoded], [mysql_temporal_roundtrip]).
    - The MySQL backend: a server that goes by the types and flags of the packet
      ([server_reads]) has the parameters that were bound, booleans as numbers
      ([backend_parameters_arrive]); a result set is read whole, wherever the
      network cuts it and whatever original names its columns have
      ([mysql_result_read_whole]), and reading ends whatever the server sends
      ([mysql_query_terminates]); what the server hears of a transaction, its
      statements and then COMMIT or ROLLBACK, it hears on one connection
      ([transaction_on_one_connection], with [transcript]).
    - The PostgreSQL backend: a simple query relayed in a transaction is answered with
      exactly the frames of the server, however they are cut, and keeps its session
      ([transaction_statement_relayed], [collect_reuse_unit]); the idle pool is
      bounded and hands out fresh sessions ([idle_pool_bounded],
      [idle_take_fresh]); a parameter is bound with its declared type or as text
      ([bound_slots_covered]); windows make up the rows within the limit
      ([produce_rows]); the end of a transaction leaves no connection held
      ([transaction_end_clean]).  When the frontend kept frames, nothing but those
      frames is relayed ([client_frames_relayed]), whatever the command was
      rewritten to.
    - Sharding, for tables sharded by tables and statements in ASCII: a query with
      no condition on the sharding column goes to every shard once, one whose only
      condition is an equality with a number to the shard of that number, and each
      is sent the statement with exactly the planned parts replaced
      ([table_select_routed]); an insert is split so that every row is in the one
      statement of the table of its number ([insert_rows_partitioned]).  Both take
      the conditions and values the walk over the statement collects.
    - The portal: rows come only from a statement the decision point let through,
      masked as it said ([portal_runs_allowed]); windows make up the whole document
      ([portal_windows_whole]); a CSV export can be read back
      ([portal_csv_reads_back]).

    Some theorems record behaviour that is surely not meant, at concrete inputs:
    [glob_star_value], [ticket_comment_panics], [where_in_literal],
    [row_filter_escapes], [strip_columns_gaps], [remote_deny_overruled],
    [torn_snapshot_allows], [ticket_spent_twice], [comment_hides_action],
    [outfile_hidden], [audit_change_is_lost], [close_leaves_transaction],
    [removal_leaves_counters], [route_surprises], [replica_failure_spreads],
    [first_use_race], [window_end_raises_limit], [written_without_write],
    [same_ms_rotation_loses], [windowed_watermark_masked],
    [translation_changes_literals], [zero_weight_writes_to_replica],
    [failed_transaction_moves], [bad_regex_panics], [cursor_bypasses_policy],
    [cursor_reads_denied_table], [translation_reject_leaks_permit],
    [page_cap_multiplies], [negative_count_panics], [frontend_text_surprises],
    [handshake_trusts_name], [held_rows_cross_portals], [session_panics],
    [tokens_collide], [reinstall_forgets], [renewal_revives],
    [admin_auth_surprises], [rotation_unnoticed], [adding_a_listener_forgets],
    [approval_by_body], [viewer_reads_secret], [renewal_without_body],
    [reload_loses_listener], [portal_forgets], [portal_cap_overrides],
    [portal_failure_unseen], [portal_suffix_lost], [portal_cells],
    [portal_dangerous], [handshake_runs], [execute_misread], [binary_misfits],
    [close_silences_next], [execute_leaves_binary], [lookalikes_change],
    [prepare_spins], [cut_result_complete], [error_in_rows_dropped],
    [empty_name_read],
    [refused_begin_forgotten], [lost_transaction_commits], [broken_link_panics],
    [unread_rows_split], [or_loses_rows], [other_column_panics],
    [average_by_database_panics], [ordered_delete_panics],
    [second_table_unsharded], [null_shifts_values], [tail_dropped],
    [insert_set_repeated], [bytes_counted_as_characters], [schema_quoted_twice],
    [database_labelled_zero], [sums_taken_for_equality],
    [prepared_first_not_begun], [split_transaction], [described_first_not_begun],
    [relayed_unit_begins_transaction], [error_in_pg_rows_dropped],
    [numeric_changes_values], [server_numeric_refused],
    [placeholder_in_parameter], [row_filter_lost], [denied_statement_executed].

    ** What is not modelled

    Socket, TLS and HTTP I/O, the SQL parsers and the Cedar library (third-party
    or generated), metrics, start-up.  Lock files between processes: two processes
    sharing a ticket file are outside the ticket theorems.  Routing theorems are
    for rules without node groups.  The engine is written against the class of
    backends; of both backends the commands are modelled, not the opening of a
    connection (TLS, authentication), which is an operation of the network.  The
    older MySQL server (its frontend, its statement cache) is left out but for its
    session machine.  The sharding rewriter takes the walk of the
    parser over a statement as an argument. *)

From Stdlib Require Export Ascii ZArith Lia.
From stdpp Require Export base tactics numbers strings option gmap list_numbers list.

(** ** Rust [Result] and panics *)

(** [Result<A, E>] of the standard library. *)
Inductive result (E A : Type) : Type :=
| Ok (a : A)
| Err (e : E).
Arguments Ok {E A} a.
Arguments Err {E A} e.

(** The outcome of code that may panic (an out-of-range or non-boundary slice,
    an index past the end): the thread unwinds and no value is produced. *)
Inductive exec (A : Type) : Type :=
| Ret (a : A)
| Panic.
Arguments Ret {A} a.
Arguments Panic {A}.

(** The outcome of a computation with a fuel bound: [None] is fuel exhaustion. *)
Abbreviation fueled A := (option (exec A)).

Definition ebind {A B} (m : fueled A) (f : A → fueled B) : fueled B :=
  match m with
  | None => None
  | Some Panic => Some Panic
  | Some (Ret a) => f a
  end.

(** [Option::is_none]. *)
Definition is_none {A} (o : option A) : bool := match o with Some _ => false | None => true end.

#[export] Instance result_ret {E} : MRet (result E) := @Ok E.
#[export] Instance result_bind {E} : MBind (result E) := λ A B f m,
  match m with Ok a => f a | Err e => Err e end.
#[export] Instance result_fmap {E} : FMap (result E) := λ A B f m,
  match m with Ok a => Ok (f a) | Err e => Err e end.

#[export] Instance exec_ret : MRet exec := @Ret.
#[export] Instance exec_bind : MBind exec := λ A B f m,
  match m with Ret a => f a | Panic => Panic end.
#[export] Instance exec_fmap : FMap exec := λ A B f m,
  match m with Ret a => Ret (f a) | Panic => Panic end.

#[export] Instance result_eq_dec {E A} `{EqDecision E, EqDecision A} :
  EqDecision (result E A).
Proof. solve_decision. Defined.
#[export] Instance exec_eq_dec {A} `{EqDecision A} : EqDecision (exec A).
Proof. solve_decision. Defined.

Lemma Ok_inj {E A} (a b : A) : Ok (E := E) a = Ok b → a = b.
Proof. by intros [=]. Qed.
Lemma Err_inj {E A} (a b : E) : Err (A := A) a = Err b → a = b.
Proof. by intros [=]. Qed.

Definition map_err {E F A} (f : E → F) (m : result E A) : result F A :=
  match m with Ok a => Ok a | Err e => Err (f e) end.

(** [Result::map]. *)
Definition map_ok {E A B} (f : A → B) (m : result E A) : result E B :=
  match m with Ok a => Ok (f a) | Err e => Err e end.

Definition ok_or {E A} (e : E) (o : option A) : result E A :=
  match o with Some a => Ok a | None => Err e end.

Definition is_ok {E A} (m : result E A) : bool :=
  match m with Ok _ => true | Err _ => false end.

(** ** Byte strings *)

(** A Rust [String]/[&str] is the list of its UTF-8 bytes, a byte an [ascii]. *)
Abbreviation str := (list ascii).

Declare Scope rust_scope.
Delimit Scope rust_scope with rust.

Notation "$ s" := (String.list_ascii_of_string s%string)
  (at level 1, s at level 0, format "$ s") : rust_scope.
Open Scope rust_scope.

(** ** Machine integers *)

Open Scope Z_scope.

Definition u32_max : Z := 4294967295.
Definition i32_max : Z := 2147483647.
Definition u64_max : Z := 18446744073709551615.
Definition i64_max : Z := 9223372036854775807.

(** [u64::saturating_add], [u64::saturating_mul], [u32::saturating_sub]. *)
Definition u64_sat_add (a b : Z) : Z := Z.min (a + b) u64_max.
Definition u64_sat_mul (a b : Z) : Z := Z.min (a * b) u64_max.
Definition sat_sub (a b : Z) : Z := Z.max (a - b) 0.
Definition u64_wrap (a : Z) : Z := a mod 2 ^ 64.
Lemma u64_wrap_small z : 0 ≤ z < 2 ^ 64 → u64_wrap z = z.
Proof. apply Z.mod_small. Qed.

Definition i64_wrap (a : Z) : Z := (a + 2 ^ 63) mod 2 ^ 64 - 2 ^ 63.
Lemma i64_wrap_small z : - 2 ^ 63 ≤ z < 2 ^ 63 → i64_wrap z = z.
Proof. intros. unfold i64_wrap. rewrite Z.mod_small; lia. Qed.

(** ** Automation *)

(** Case split on every [match]/[if] of the goal and the hypotheses, closing
    the contradictory cases. *)
Ltac split_matches := repeat (case_match; simplify_eq/=; try done).

(** A boolean hypothesis or goal as the proposition it decides. *)
Ltac bool_hyps :=
  repeat match goal with
  | H : (_ && _)%bool = true |- _ => apply andb_true_iff in H as [? ?]
  | H : (_ || _)%bool = false |- _ => apply orb_false_iff in H as [? ?]
  | H : negb _ = true |- _ => apply negb_true_iff in H
  | H : negb _ = false |- _ => apply negb_false_iff in H
  | H : (_ <=? _) = true |- _ => apply Z.leb_le in H
  | H : (_ <=? _) = false |- _ => apply Z.leb_gt in H
  | H : (_ <? _) = true |- _ => apply Z.ltb_lt in H
  | H : (_ <? _) = false |- _ => apply Z.ltb_ge in H
  | H : (_ =? _) = true |- _ => apply Z.eqb_eq in H
  | H : (_ =? _) = false |- _ => apply Z.eqb_neq in H
  end.

(** Invert a monadic success, keeping the equations of the parts. *)
Ltac inv_ok H :=
  let E := fresh "E" in
  cbv [mbind result_bind exec_bind mret result_ret exec_ret] in H;
  repeat match type of H with
  | match ?m with _ => _ end = _ => destruct m eqn:E; simplify_eq/=
  end.

Create HintDb rust discriminated.
Create Rewrite HintDb rust.

(** ** Generic list functions *)

Section Lists.
Context {A : Type}.
Implicit Types (f : A → bool) (l : list A).

Fixpoint drop_while f l : list A :=
  match l with
  | [] => []
  | x :: l' => if f x then drop_while f l' else l
  end.

Fixpoint take_while f l : list A :=
  match l with
  | [] => []
  | x :: l' => if f x then x :: take_while f l' else []
  end.

Definition drop_while_end f l : list A := reverse (drop_while f (reverse l)).

(** [l.iter().position(f)]. *)
Fixpoint position f l : option nat :=
  match l with
  | [] => None
  | x :: l' => if f x then Some 0%nat else S <$> position f l'
  end.

Lemma take_drop_while f l : take_while f l ++ drop_while f l = l.
Proof. induction l as [|x l IH]; simpl; [done|]. destruct (f x); simpl; congruence. Qed.

Lemma take_while_all f l : forallb f (take_while f l) = true.
Proof. induction l as [|x l IH]; simpl; [done|]. destruct (f x) eqn:E; simpl; rewrite ?E; auto. Qed.

Lemma drop_while_head f l x l' : drop_while f l = x :: l' → f x = false.
Proof. induction l as [|y l IH]; simpl; [done|]. destruct (f y) eqn:E; intros; simplify_eq; auto. Qed.

Lemma drop_while_app_all f l k :
  forallb f l = true → drop_while f (l ++ k) = drop_while f k.
Proof. induction l as [|x l IH]; simpl; [done|]. intros [-> ?]%andb_true_iff. auto. Qed.

Lemma drop_while_none f l :
  (∀ x l', l = x :: l' → f x = false) → drop_while f l = l.
Proof. destruct l as [|x l]; simpl; [done|]. intros H. by rewrite (H x l). Qed.

Lemma drop_while_idemp f l : drop_while f (drop_while f l) = drop_while f l.
Proof. apply drop_while_none. apply drop_while_head. Qed.

Lemma drop_while_length f l : (length (drop_while f l) ≤ length l)%nat.
Proof. induction l as [|x l IH]; simpl; [done|]. destruct (f x); simpl; lia. Qed.

Lemma position_spec f l i :
  position f l = Some i ↔
  (∃ x, l !! i = Some x ∧ f x = true) ∧
  ∀ j y, (j < i)%nat → l !! j = Some y → f y = false.
Proof.
  revert i. induction l as [|x l IH]; intros i; simpl.
  { split; [done|]. by intros [(y & ? & ?) _]. }
  destruct (f x) eqn:Ex.
  - split.
    + intros [= <-]. split; [by exists x|]. intros; lia.
    + intros [_ H]. destruct i as [|i]; [done|].
      specialize (H 0%nat x ltac:(lia) eq_refl). congruence.
  - destruct i as [|i]; simpl.
    + split; [by destruct (position f l)|]. intros [(y & ? & ?) _]. congruence.
    + specialize (IH i). destruct (position f l) as [k|] eqn:Ek; simpl.
      * split.
        -- intros [= ->]. destruct IH as [IH _]. destruct (IH eq_refl) as [Hx Hy].
           split; [done|]. intros [|j] y Hj Hl; simplify_eq/=; [done|].
           eapply (Hy j); [lia|done].
        -- intros [Hx Hy]. f_equal. f_equal. symmetry. apply Some_inj. symmetry. apply IH.
           split; [done|]. intros j y Hj Hl. apply (Hy (S j) y); [lia|done].
      * split; [done|]. intros [Hx Hy]. exfalso. enough (None = Some i) by done.
        apply IH. split; [done|]. intros j y Hj Hl. apply (Hy (S j) y); [lia|done].
Qed.

Lemma existsb_elem f l : existsb f l = true ↔ ∃ x, x ∈ l ∧ f x = true.
Proof.
  rewrite existsb_exists. split; intros (x & Hx & ?); exists x; split; try done.
  - by apply list_elem_of_In.
  - by apply list_elem_of_In.
Qed.

Lemma forallb_elem f l : forallb f l = true ↔ ∀ x, x ∈ l → f x = true.
Proof.
  rewrite forallb_forall. split; intros H x Hx; apply H; by apply list_elem_of_In.
Qed.

Lemma fmap_id_on (g : A → A) l : (∀ x, x ∈ l → g x = x) → g <$> l = l.
Proof.
  induction l as [|x l IH]; intros H; simpl; [done|].
  rewrite (H x) by left. f_equal. apply IH. intros y Hy. apply H. by right.
Qed.
End Lists.
