(* ===== verification/RustStr.v ===== *)
(** * The Rust string operations the gateway uses

    [str] is the list of UTF-8 bytes of a Rust string.  ASCII operations
    ([to_ascii_lowercase], [find] of an ASCII pattern, ...) work byte by byte;
    the operations that Rust defines on [char]s ([trim], [split_whitespace],
    [chars]) go through [chars], the decomposition of the byte list at UTF-8
    character boundaries, with the Unicode [White_Space] property spelled out
    on the encoded characters.  Slicing [s[a..b]] is a partial operation that
    panics outside character boundaries, as in Rust. *)

From S2P Require Import Prelude.

Section Bytes.
Local Open Scope N_scope.

Definition byte_in (lo hi : N) (c : ascii) : bool :=
  (lo <=? N_of_ascii c) && (N_of_ascii c <=? hi).

Definition is_ascii_uppercase (c : ascii) : bool := byte_in 65 90 c.
Definition is_ascii_lowercase (c : ascii) : bool := byte_in 97 122 c.
Definition is_ascii_digit (c : ascii) : bool := byte_in 48 57 c.
Definition is_ascii_alphabetic (c : ascii) : bool :=
  is_ascii_uppercase c || is_ascii_lowercase c.
Definition is_ascii_alphanumeric (c : ascii) : bool :=
  is_ascii_alphabetic c || is_ascii_digit c.
Definition is_ascii_hexdigit (c : ascii) : bool :=
  is_ascii_digit c || byte_in 65 70 c || byte_in 97 102 c.
(** [u8::is_ascii_whitespace]: space, \t, \n, form feed, \r (not vertical tab). *)
Definition is_ascii_whitespace (c : ascii) : bool :=
  byte_in 32 32 c || byte_in 9 10 c || byte_in 12 13 c.
Definition is_ascii_control (c : ascii) : bool := byte_in 0 31 c || byte_in 127 127 c.
Definition is_ascii (c : ascii) : bool := byte_in 0 127 c.
(** A UTF-8 continuation byte, [0x80..=0xBF]. *)
Definition is_cont (c : ascii) : bool := byte_in 128 191 c.

Definition to_lower (c : ascii) : ascii :=
  if is_ascii_uppercase c then ascii_of_N (N_of_ascii c + 32) else c.
Definition to_upper (c : ascii) : ascii :=
  if is_ascii_lowercase c then ascii_of_N (N_of_ascii c - 32) else c.
End Bytes.

(** The double quote character. *)
Definition dquote : ascii := "034"%char.

Definition to_ascii_lowercase (s : str) : str := map to_lower s.
Definition to_ascii_uppercase (s : str) : str := map to_upper s.

(** Equality of strings as a computation. *)
Fixpoint str_eqb (s t : str) : bool :=
  match s, t with
  | [], [] => true
  | c :: s', d :: t' => Ascii.eqb c d && str_eqb s' t'
  | _, _ => false
  end.

Definition eq_ignore_ascii_case (s t : str) : bool :=
  str_eqb (to_ascii_lowercase s) (to_ascii_lowercase t).

Definition is_empty {A} (l : list A) : bool :=
  match l with [] => true | _ => false end.

(** [matches!(s, p1 | p2 | ...)]. *)
Definition one_of (ps : list str) (s : str) : bool := existsb (str_eqb s) ps.

Fixpoint starts_with (s p : str) {struct p} : bool :=
  match p, s with
  | [], _ => true
  | d :: p', c :: s' => Ascii.eqb c d && starts_with s' p'
  | _ :: _, [] => false
  end.

Definition ends_with (s p : str) : bool := starts_with (reverse s) (reverse p).

Definition strip_prefix (s p : str) : option str :=
  if starts_with s p then Some (drop (length p) s) else None.

(** [s.find(p)] for a string pattern: the least byte index. *)
Fixpoint find (s p : str) : option nat :=
  if starts_with s p then Some 0%nat
  else match s with
       | [] => None
       | _ :: s' => S <$> find s' p
       end.

Definition contains (s p : str) : bool :=
  match find s p with Some _ => true | None => false end.

Definition contains_char (s : str) (c : ascii) : bool := existsb (Ascii.eqb c) s.

(** ** Characters *)

(** The UTF-8 encoded characters of a string, in order. *)
Fixpoint chars (s : str) : list str :=
  match s with
  | [] => []
  | c :: s' =>
      match chars s' with
      | (d :: ds) :: cs => if is_cont d then (c :: d :: ds) :: cs else [c] :: (d :: ds) :: cs
      | cs => [c] :: cs
      end
  end.

(** [char::is_whitespace], the Unicode [White_Space] property. *)
Definition char_is_whitespace (c : str) : bool :=
  match map N_of_ascii c with
  | [b] => ((9 <=? b) && (b <=? 13))%N || (b =? 32)%N
  | [194%N; b] => (b =? 133)%N || (b =? 160)%N
  | [225%N; 154%N; 128%N] => true
  | [226%N; 128%N; b] =>
      ((128 <=? b) && (b <=? 138))%N || (b =? 168)%N || (b =? 169)%N || (b =? 175)%N
  | [226%N; 129%N; 159%N] => true
  | [227%N; 128%N; 128%N] => true
  | _ => false
  end.

Definition trim_start (s : str) : str := concat (drop_while char_is_whitespace (chars s)).
Definition trim_end (s : str) : str := concat (drop_while_end char_is_whitespace (chars s)).
Definition trim (s : str) : str :=
  concat (drop_while_end char_is_whitespace (drop_while char_is_whitespace (chars s))).

(** [trim_matches(c)], [trim_start_matches], [trim_end_matches] for ASCII
    character predicates. *)
Definition trim_start_matches (p : ascii → bool) (s : str) : str := drop_while p s.
Definition trim_end_matches (p : ascii → bool) (s : str) : str := drop_while_end p s.
Definition trim_matches (c : ascii) (s : str) : str :=
  drop_while_end (Ascii.eqb c) (drop_while (Ascii.eqb c) s).

(** [split_whitespace]: the maximal runs of non-whitespace characters. *)
Fixpoint split_ws_aux (cs : list str) (cur : str) : list str :=
  match cs with
  | [] => if is_empty cur then [] else [cur]
  | c :: cs' =>
      if char_is_whitespace c
      then (if is_empty cur then [] else [cur]) ++ split_ws_aux cs' []
      else split_ws_aux cs' (cur ++ c)
  end.
Definition split_whitespace (s : str) : list str := split_ws_aux (chars s) [].

(** [s.split(c)]: always at least one piece. *)
Fixpoint split (c : ascii) (s : str) : list str :=
  match s with
  | [] => [[]]
  | d :: s' =>
      if Ascii.eqb d c then [] :: split c s'
      else match split c s' with
           | p :: ps => (d :: p) :: ps
           | [] => [[d]]
           end
  end.

(** [s.rsplit(c).next()]: the piece after the last [c] (all of [s] without one). *)
Definition rsplit_next (c : ascii) (s : str) : str := List.last (split c s) [].

(** [s.rsplitn(2, c)]: the piece after the last [c], and what precedes it. *)
Definition rsplitn2 (c : ascii) (s : str) : str * option str :=
  let last := rsplit_next c s in
  (last, if contains_char s c then Some (take (length s - length last - 1) s) else None).

(** ** Slices *)

Definition is_char_boundary (s : str) (i : nat) : bool :=
  match i with
  | O => true
  | _ => match s !! i with
         | Some c => negb (is_cont c)
         | None => (i =? length s)%nat
         end
  end.

(** [&s[a..b]], [&s[a..]], [&s[..b]]. *)
Definition slice (s : str) (a b : nat) : exec str :=
  if (a <=? b)%nat && (b <=? length s)%nat && is_char_boundary s a && is_char_boundary s b
  then Ret (take (b - a) (drop a s)) else Panic.
Definition slice_from (s : str) (a : nat) : exec str := slice s a (length s).
Definition slice_to (s : str) (b : nat) : exec str := slice s 0 b.

(** ** Numbers *)

Definition digit_val (c : ascii) : Z := Z.of_N (N_of_ascii c) - 48.

Fixpoint digits_val (acc : Z) (s : str) : option Z :=
  match s with
  | [] => Some acc
  | c :: s' => if is_ascii_digit c then digits_val (acc * 10 + digit_val c) s' else None
  end.

(** [str::parse::<uN>()]: an optional [+], then at least one digit, the value
    within the type. *)
Definition parse_unsigned (max : Z) (s : str) : option Z :=
  let ds := match s with c :: s' => if Ascii.eqb c "+" then s' else s | [] => [] end in
  if is_empty ds then None
  else match digits_val 0 ds with
       | Some v => if v <=? max then Some v else None
       | None => None
       end.

(** [str::parse::<iN>()]: a sign is [+] or [-]. *)
Definition parse_signed (max : Z) (s : str) : option Z :=
  match s with
  | c :: s' =>
      if Ascii.eqb c "-" then
        if is_empty s' then None
        else match digits_val 0 s' with
             | Some v => if v <=? max + 1 then Some (- v) else None
             | None => None
             end
      else parse_unsigned max s
  | [] => None
  end.

Definition digit_char (d : Z) : ascii := ascii_of_N (Z.to_N (48 + d)).

(** [format!("{n}")] for a non-negative integer. *)
Fixpoint dec_aux (fuel : nat) (n : Z) (acc : str) : str :=
  match fuel with
  | O => acc
  | S fuel' =>
      let acc' := digit_char (n mod 10) :: acc in
      if n <? 10 then acc' else dec_aux fuel' (n / 10) acc'
  end.
Definition dec (n : Z) : str := dec_aux (S (Z.to_nat (Z.log2 n))) n [].

(** [format!("{n}")] for a signed integer. *)
Definition dec_signed (n : Z) : str := if n <? 0 then $"-" ++ dec (- n) else dec n.

Definition hex_char (d : Z) : ascii :=
  ascii_of_N (Z.to_N (if d <? 10 then 48 + d else 87 + d)).

(** The [k] low hexadecimal digits of [n], most significant first. *)
Fixpoint hex_digits (k : nat) (n : Z) (acc : str) : str :=
  match k with
  | O => acc
  | S k' => hex_digits k' (n / 16) (hex_char (n mod 16) :: acc)
  end.

(** [format!("{n:016x}")] of a [u64], and [format!("{n:x}")]. *)
Definition hex016 (n : Z) : str := hex_digits 16 n [].
Definition hex (n : Z) : str := hex_digits (S (Z.to_nat (Z.log2 n / 4))) n [].

(** [out.push(c as char)] of a byte [c]: it is pushed as the code point of the same number. *)
Definition push_byte (c : ascii) : str :=
  let n := N_of_ascii c in
  if (n <? 128)%N then [c]
  else [ascii_of_N (192 + n / 64); ascii_of_N (128 + n mod 64)].

(** [Vec<String>::join(sep)]. *)
Fixpoint join (sep : str) (l : list str) : str :=
  match l with
  | [] => []
  | [x] => x
  | x :: l' => x ++ sep ++ join sep l'
  end.

(** ** Facts *)

(** A statement about all 256 bytes by enumeration. *)
Ltac byte_cases c := destruct c as [[] [] [] [] [] [] [] []]; vm_compute; try done.

Lemma str_eqb_eq s t : str_eqb s t = true ↔ s = t.
Proof.
  revert t. induction s as [|c s IH]; intros [|d t]; simpl; try done.
  rewrite andb_true_iff, Ascii.eqb_eq, IH. naive_solver.
Qed.

Lemma str_eqb_refl s : str_eqb s s = true.
Proof. by apply str_eqb_eq. Qed.

Lemma str_eqb_neq s t : str_eqb s t = false ↔ s ≠ t.
Proof. rewrite <-str_eqb_eq. destruct (str_eqb s t); naive_solver. Qed.

Lemma str_eqb_sym s t : str_eqb s t = str_eqb t s.
Proof. apply eq_bool_prop_intro. rewrite !Is_true_true, !str_eqb_eq. naive_solver. Qed.

#[export] Hint Rewrite str_eqb_refl : rust.

Lemma to_lower_lower c : to_lower (to_lower c) = to_lower c.
Proof. byte_cases c. Qed.
Lemma to_lower_upper c : to_lower (to_upper c) = to_lower c.
Proof. byte_cases c. Qed.
Lemma to_upper_lower c : to_upper (to_lower c) = to_upper c.
Proof. byte_cases c. Qed.
Lemma to_upper_upper c : to_upper (to_upper c) = to_upper c.
Proof. byte_cases c. Qed.

Lemma lowercase_lowercase s : to_ascii_lowercase (to_ascii_lowercase s) = to_ascii_lowercase s.
Proof. unfold to_ascii_lowercase. rewrite map_map. apply map_ext, to_lower_lower. Qed.
Lemma lowercase_uppercase s : to_ascii_lowercase (to_ascii_uppercase s) = to_ascii_lowercase s.
Proof. unfold to_ascii_lowercase, to_ascii_uppercase. rewrite map_map. apply map_ext, to_lower_upper. Qed.
Lemma uppercase_lowercase s : to_ascii_uppercase (to_ascii_lowercase s) = to_ascii_uppercase s.
Proof. unfold to_ascii_lowercase, to_ascii_uppercase. rewrite map_map. apply map_ext, to_upper_lower. Qed.
Lemma uppercase_uppercase s : to_ascii_uppercase (to_ascii_uppercase s) = to_ascii_uppercase s.
Proof. unfold to_ascii_uppercase. rewrite map_map. apply map_ext, to_upper_upper. Qed.
#[export] Hint Rewrite lowercase_lowercase lowercase_uppercase uppercase_lowercase
  uppercase_uppercase : rust.

Lemma drop_uppercase n s : drop n (to_ascii_uppercase s) = to_ascii_uppercase (drop n s).
Proof. unfold to_ascii_uppercase. apply skipn_map. Qed.

Lemma eq_ignore_ascii_case_iff s t :
  eq_ignore_ascii_case s t = true ↔ to_ascii_lowercase s = to_ascii_lowercase t.
Proof. apply str_eqb_eq. Qed.

Lemma eq_ignore_ascii_case_refl s : eq_ignore_ascii_case s s = true.
Proof. by apply eq_ignore_ascii_case_iff. Qed.

Lemma eq_ignore_ascii_case_sym s t : eq_ignore_ascii_case s t = eq_ignore_ascii_case t s.
Proof. apply str_eqb_sym. Qed.

#[export] Hint Rewrite eq_ignore_ascii_case_refl : rust.

Lemma one_of_elem ps s : one_of ps s = true ↔ s ∈ ps.
Proof.
  unfold one_of. rewrite existsb_elem. split.
  - by intros (p & Hp & ->%str_eqb_eq).
  - intros Hs. exists s. split; [done|]. apply str_eqb_refl.
Qed.

Lemma starts_with_spec s p : starts_with s p = true ↔ ∃ k, s = p ++ k.
Proof.
  revert s. induction p as [|d p IH]; intros s; simpl.
  { split; [by exists s|done]. }
  destruct s as [|c s]; [naive_solver|].
  rewrite andb_true_iff, Ascii.eqb_eq, IH. naive_solver.
Qed.

Lemma starts_with_app p k : starts_with (p ++ k) p = true.
Proof. apply starts_with_spec. by exists k. Qed.

Lemma starts_with_length s p : starts_with s p = true → (length p ≤ length s)%nat.
Proof. intros (k & ->)%starts_with_spec. rewrite length_app. lia. Qed.

Lemma starts_with_app_long s p k :
  (length p ≤ length s)%nat → starts_with (s ++ k) p = starts_with s p.
Proof.
  revert s. induction p as [|d p IH]; intros [|c s]; simpl; intros; try lia; try done.
  f_equal. apply IH. lia.
Qed.

Lemma find_starts_with s p i : find s p = Some i → starts_with (drop i s) p = true.
Proof.
  revert i. induction s as [|c s IH]; intros i; simpl.
  - case_match; [|done]. intros [= <-]. done.
  - case_match; [intros [= <-]; done|].
    destruct (find s p) as [j|]; [|done]. intros [= <-]. simpl. auto.
Qed.

Lemma find_le s p i : find s p = Some i → (i + length p ≤ length s)%nat.
Proof.
  intros H. pose proof (find_starts_with _ _ _ H) as Hl%starts_with_length.
  rewrite length_drop in Hl. destruct (decide (i ≤ length s)%nat); [lia|].
  exfalso. revert i H Hl n. induction s as [|c s IH]; intros i; simpl.
  - case_match; [|done]. intros [= <-]. lia.
  - case_match; [intros [= <-]; lia|].
    destruct (find s p) as [j|] eqn:E; [|done]. intros [= <-]. simpl.
    intros. apply (IH j); [done|lia|lia].
Qed.

Lemma find_least s p i :
  find s p = Some i ↔
  starts_with (drop i s) p = true ∧ (i ≤ length s)%nat ∧
  ∀ j, (j < i)%nat → starts_with (drop j s) p = false.
Proof.
  revert i. induction s as [|c s IH]; intros i; simpl.
  - split.
    + case_match; [|done]. intros [= <-]. split; [done|]. split; [done|]. lia.
    + intros (Hi & Hle & _). replace i with 0%nat in * by lia. simpl in Hi. by rewrite Hi.
  - destruct (starts_with (c :: s) p) eqn:E.
    + split.
      * intros [= <-]. split; [done|]. split; [lia|]. lia.
      * intros (_ & _ & H). destruct i; [done|]. specialize (H 0%nat ltac:(lia)). simpl in H. congruence.
    + destruct i as [|i]; simpl.
      * split; [by destruct (find s p)|]. intros (? & _). congruence.
      * specialize (IH i). split.
        -- destruct (find s p) as [j|]; [|done]. intros [= ->].
           destruct (proj1 IH eq_refl) as (? & ? & H). split; [done|]. split; [lia|].
           intros [|j] Hj; simpl; [done|]. apply H. lia.
        -- intros (? & ? & H). rewrite (proj2 IH); [done|]. split; [done|]. split; [lia|].
           intros j Hj. apply (H (S j)). lia.
Qed.

Lemma find_none s p : find s p = None ↔ ∀ j, (j ≤ length s)%nat → starts_with (drop j s) p = false.
Proof.
  induction s as [|c s IH]; simpl.
  - case_match eqn:E; split; try done.
    + intros H. specialize (H 0%nat ltac:(lia)). simpl in H. congruence.
    + intros _ j Hj. by replace j with 0%nat by lia.
  - case_match eqn:E.
    + split; [done|]. intros H'. specialize (H' 0%nat ltac:(lia)). simpl in H'. congruence.
    + destruct (find s p) as [j|]; simpl; split; try done.
      * intros H'. exfalso. enough (Some j = None) by done.
        apply IH. intros k Hk. apply (H' (S k)). lia.
      * intros _ [|k] Hk; [done|]. simpl. apply IH; [done|lia].
Qed.

(** ** Characters and trimming *)

Lemma chars_nonempty s c : c ∈ chars s → c ≠ [].
Proof.
  induction s as [|d s IH]; simpl; [by intros ?%not_elem_of_nil|].
  destruct (chars s) as [|[|e es] cs] eqn:E; rewrite ?elem_of_cons; [set_solver|set_solver|].
  case_match; rewrite !elem_of_cons; set_solver.
Qed.

Lemma concat_chars s : concat (chars s) = s.
Proof.
  induction s as [|c s IH]; simpl; [done|].
  destruct (chars s) as [|[|d ds] cs]; simpl in *; [by subst|by rewrite IH|].
  case_match; simpl; by rewrite IH.
Qed.

(** Characters of an ASCII string are its bytes. *)
Definition ascii_only (s : str) : Prop := Forall (λ c, is_ascii c = true) s.

Lemma is_ascii_not_cont c : is_ascii c = true → is_cont c = false.
Proof. byte_cases c. Qed.

Lemma chars_cons_noncont c s :
  (∀ d s', s = d :: s' → is_cont d = false) → chars (c :: s) = [c] :: chars s.
Proof.
  intros H. simpl. destruct s as [|d s']; [done|]. specialize (H d s' eq_refl).
  destruct (chars (d :: s')) as [|[|e es] cs] eqn:E; try done.
  replace e with d; [by rewrite H|].
  pose proof (concat_chars (d :: s')) as Hc. rewrite E in Hc. by simplify_eq/=.
Qed.

Lemma chars_cons_ascii c s :
  ascii_only s → chars (c :: s) = [c] :: chars s.
Proof.
  intros Hs. apply chars_cons_noncont. intros d s' ->.
  apply is_ascii_not_cont. by apply list.Forall_cons in Hs as [? _].
Qed.

Lemma chars_ascii s : ascii_only s → chars s = map (λ c, [c]) s.
Proof.
  induction s as [|c s IH]; [done|]. intros [Hc Hs]%list.Forall_cons.
  rewrite chars_cons_ascii by done. simpl. by rewrite IH.
Qed.

(** The characters of a string starting with an ASCII prefix. *)
Lemma chars_app_ascii p s :
  ascii_only p → (∀ d s', s = d :: s' → is_cont d = false) →
  chars (p ++ s) = map (λ c, [c]) p ++ chars s.
Proof.
  intros Hp Hs. induction p as [|c p IH]; [done|].
  apply list.Forall_cons in Hp as [Hc Hp]. simpl app.
  rewrite chars_cons_noncont; [simpl; by rewrite IH|].
  intros d s' E. destruct p as [|e p]; simplify_eq/=; [by eapply Hs|].
  apply is_ascii_not_cont. by apply list.Forall_cons in Hp as [? _].
Qed.

Lemma trim_start_ascii_head c s :
  is_ascii c = true → (∀ d s', s = d :: s' → is_cont d = false) →
  char_is_whitespace [c] = false → trim_start (c :: s) = c :: s.
Proof.
  intros Hc Hs Hw. unfold trim_start. rewrite chars_cons_noncont by done. simpl.
  rewrite Hw. simpl. by rewrite concat_chars.
Qed.

Lemma trim_start_nil : trim_start [] = [].
Proof. done. Qed.

(** ** Numbers *)

Lemma digit_val_bound c : is_ascii_digit c = true → 0 <= digit_val c <= 9.
Proof.
  unfold is_ascii_digit, byte_in, digit_val. rewrite andb_true_iff, !N.leb_le. lia.
Qed.

Lemma digits_val_ge acc s v : 0 <= acc → digits_val acc s = Some v → acc <= v.
Proof.
  revert acc. induction s as [|c s IH]; intros acc Hacc; simpl; [by intros [= <-]|].
  case_match eqn:E; [|done]. apply digit_val_bound in E. intros Hv%IH; lia.
Qed.

Lemma parse_unsigned_bound max s v : parse_unsigned max s = Some v → 0 <= v <= max.
Proof.
  unfold parse_unsigned. cbv zeta.
  generalize (match s with c :: s' => if Ascii.eqb c "+" then s' else s | [] => [] end).
  intros ds. destruct (is_empty ds); [done|]. destruct (digits_val 0 ds) as [w|] eqn:E; [|done].
  apply digits_val_ge in E; [|lia]. destruct (w <=? max) eqn:Ev; [|done]. intros [= <-].
  apply Z.leb_le in Ev. lia.
Qed.

Lemma digit_char_digit d : 0 <= d <= 9 → is_ascii_digit (digit_char d) = true.
Proof.
  intros Hd. assert (d ∈ seqZ 0 10) as Hin by (apply elem_of_seqZ; lia). revert d Hd Hin.
  assert (forallb (λ d, is_ascii_digit (digit_char d)) (seqZ 0 10) = true) as H by (by vm_compute).
  intros d _ Hin. by eapply forallb_elem in H.
Qed.

Lemma digit_char_val d : 0 <= d <= 9 → digit_val (digit_char d) = d.
Proof.
  intros Hd. assert (d ∈ seqZ 0 10) as Hin by (apply elem_of_seqZ; lia). revert d Hd Hin.
  assert (forallb (λ d, bool_decide (digit_val (digit_char d) = d)) (seqZ 0 10) = true) as H by (by vm_compute).
  intros d _ Hin. eapply forallb_elem in H; [|done]. by apply bool_decide_eq_true in H.
Qed.

Lemma dec_aux_spec fuel n acc a :
  0 <= n → n < 2 ^ Z.of_nat fuel → forallb is_ascii_digit acc = true →
  forallb is_ascii_digit (dec_aux fuel n acc) = true ∧
  ∃ k, 0 <= k ∧ digits_val a (dec_aux fuel n acc) = digits_val (a * 10 ^ k + n) acc.
Proof.
  revert n acc a. induction fuel as [|fuel IH]; intros n acc a Hn Hf Hacc; simpl.
  { split; [done|]. exists 0. split; [done|]. f_equal. change (Z.of_nat 0) with 0 in Hf. lia. }
  pose proof (Z.mod_pos_bound n 10). pose proof (Z.div_mod n 10).
  assert (is_ascii_digit (digit_char (n mod 10)) = true) as Hd by (apply digit_char_digit; lia).
  case_match eqn:E.
  - bool_hyps. simpl. rewrite Hd. simpl. split; [done|]. exists 1. split; [done|].
    rewrite digit_char_val by lia. f_equal. rewrite Z.mod_small; lia.
  - bool_hyps. destruct (IH (n / 10) (digit_char (n mod 10) :: acc) a) as [H1 (k & Hk & H2)].
    + apply Z.div_pos; lia.
    + apply Z.div_lt_upper_bound; [lia|]. rewrite Nat2Z.inj_succ, Z.pow_succ_r in Hf by lia. lia.
    + simpl. by rewrite Hd.
    + split; [done|]. exists (k + 1). split; [lia|]. rewrite H2. simpl. rewrite Hd.
      rewrite digit_char_val by lia. f_equal. rewrite Z.pow_add_r by lia. lia.
Qed.

Lemma dec_fuel n : 0 <= n → n < 2 ^ Z.of_nat (S (Z.to_nat (Z.log2 n))).
Proof.
  intros Hn. rewrite Nat2Z.inj_succ, Z2Nat.id by apply Z.log2_nonneg.
  destruct (decide (n = 0)) as [->|]; [done|]. apply Z.log2_spec. lia.
Qed.

Lemma dec_digits n : 0 <= n → forallb is_ascii_digit (dec n) = true.
Proof. intros Hn. by apply (dec_aux_spec _ n [] 0 Hn (dec_fuel n Hn)). Qed.

Lemma digits_val_dec n : 0 <= n → digits_val 0 (dec n) = Some n.
Proof.
  intros Hn. destruct (dec_aux_spec _ n [] 0 Hn (dec_fuel n Hn) eq_refl) as [_ (k & _ & H)].
  unfold dec. rewrite H. simpl. by rewrite ?Z.add_0_l.
Qed.

Lemma dec_inj m n : 0 <= m → 0 <= n → dec m = dec n → m = n.
Proof.
  intros Hm Hn E. apply Some_inj.
  by rewrite <-(digits_val_dec m), <-(digits_val_dec n), E.
Qed.

Lemma dec_nonempty n : dec n ≠ [].
Proof.
  unfold dec. generalize (Z.to_nat (Z.log2 n)). intros k. cbn [dec_aux].
  assert (∀ fuel m acc, acc ≠ [] → dec_aux fuel m acc ≠ []) as H.
  { induction fuel as [|fuel IH]; intros m acc Hacc; simpl; [done|].
    case_match; [done|]. by apply IH. }
  case_match; [done|]. by apply H.
Qed.

(** [format!] then [parse] of an unsigned integer. *)
Lemma parse_dec max n : 0 <= n <= max → parse_unsigned max (dec n) = Some n.
Proof.
  intros Hn. unfold parse_unsigned. pose proof (dec_digits n ltac:(lia)) as Hd.
  pose proof (dec_nonempty n). pose proof (digits_val_dec n ltac:(lia)) as Hv.
  destruct (dec n) as [|c s]; [done|]. simpl in Hd. apply andb_true_iff in Hd as [Hc _].
  assert (Ascii.eqb c "+" = false) as -> by (revert Hc; clear; byte_cases c).
  simpl. simpl in Hv. rewrite Hv. by rewrite (proj2 (Z.leb_le _ _)) by lia.
Qed.

(** ** Trimming *)

Lemma chars_head c s : ∃ x cs, chars (c :: s) = (c :: x) :: cs.
Proof.
  simpl. destruct (chars s) as [|[|d ds] cs]; [by eexists _, _..|].
  destruct (is_cont d); by eexists _, _.
Qed.

Lemma chars_app s t :
  (∀ d t', t = d :: t' → is_cont d = false) → chars (s ++ t) = chars s ++ chars t.
Proof.
  intros Ht. induction s as [|c s IH]; [done|].
  destruct s as [|d s]; cbn [app].
  { by rewrite chars_cons_noncont. }
  cbn [app] in IH. cbn [chars]. cbn [chars] in IH. rewrite IH.
  destruct (chars_head d s) as (x & cs & E). cbn [chars] in E. rewrite E. simpl.
  by destruct (is_cont d).
Qed.

Lemma drop_while_end_app {A} f (l : list A) x :
  f x = false → drop_while_end f (l ++ [x]) = l ++ [x].
Proof.
  intros Hx. unfold drop_while_end. rewrite reverse_snoc. simpl. rewrite Hx.
  by rewrite reverse_cons, reverse_involutive.
Qed.

Lemma drop_while_end_nil {A} (f : A → bool) : drop_while_end f [] = [].
Proof. done. Qed.

(** A byte that begins a character and is a non-whitespace ASCII character. *)
Definition solid (c : ascii) : bool := is_ascii c && negb (char_is_whitespace [c]).

Lemma solid_not_cont c : solid c = true → is_cont c = false.
Proof. intros [H _]%andb_true_iff. by apply is_ascii_not_cont. Qed.

Lemma solid_not_ws c : solid c = true → char_is_whitespace [c] = false.
Proof. intros [_ H]%andb_true_iff. by apply negb_true_iff in H. Qed.

Lemma ws_char_ascii_head c x :
  solid c = true → char_is_whitespace (c :: x) = false.
Proof.
  destruct x as [|d x]; [apply solid_not_ws|].
  intros H. unfold char_is_whitespace.
  assert (N_of_ascii c ≠ 194 ∧ N_of_ascii c ≠ 225 ∧ N_of_ascii c ≠ 226 ∧ N_of_ascii c ≠ 227)%N
    as (H1 & H2 & H3 & H4).
  { unfold solid, is_ascii, byte_in in H. rewrite !andb_true_iff, !N.leb_le in H. lia. }
  cbn [map]. generalize (N_of_ascii c), (N_of_ascii d), (map N_of_ascii x), H1, H2, H3, H4.
  clear. intros n m l ? ? ? ?.
  repeat (case_match; try done).
Qed.

Lemma trim_start_solid c s : solid c = true → trim_start (c :: s) = c :: s.
Proof.
  intros Hc. unfold trim_start. destruct (chars_head c s) as (x & cs & E). rewrite E. simpl.
  rewrite ws_char_ascii_head by done. rewrite <-E. apply concat_chars.
Qed.

Lemma chars_snoc s c : is_cont c = false → chars (s ++ [c]) = chars s ++ [[c]].
Proof. intros Hc. apply chars_app. naive_solver. Qed.

Lemma trim_end_solid s c : solid c = true → trim_end (s ++ [c]) = s ++ [c].
Proof.
  intros Hc. unfold trim_end. rewrite chars_snoc by (by apply solid_not_cont).
  rewrite drop_while_end_app by (by apply solid_not_ws).
  rewrite concat_app, concat_chars. simpl. done.
Qed.

Lemma trim_solid c s d : solid c = true → solid d = true → trim (c :: s ++ [d]) = c :: s ++ [d].
Proof.
  intros Hc Hd. unfold trim. destruct (chars_head c (s ++ [d])) as (x & cs & E). rewrite E.
  cbn [drop_while]. rewrite ws_char_ascii_head by done. rewrite <-E.
  rewrite app_comm_cons, chars_snoc by (by apply solid_not_cont).
  rewrite drop_while_end_app by (by apply solid_not_ws).
  rewrite concat_app, concat_chars. simpl. done.
Qed.

Lemma trim_solid_one c : solid c = true → trim [c] = [c].
Proof.
  intros Hc. unfold trim. simpl chars. cbn [drop_while].
  rewrite solid_not_ws by done. change [[c]] with ([] ++ [[c]]).
  rewrite drop_while_end_app by (by apply solid_not_ws). simpl. done.
Qed.

(** A string of non-whitespace ASCII characters is its own trimming. *)
Lemma trim_all_solid s : forallb solid s = true → trim s = s.
Proof.
  intros Hs. destruct s as [|c s]; [done|].
  destruct (decide (s = [])) as [->|Hne].
  { apply trim_solid_one. by apply andb_true_iff in Hs as [? _]. }
  destruct (last s) as [d|] eqn:E; [|by apply last_None in E].
  apply last_Some in E as [k ->]. cbn [forallb] in Hs.
  rewrite forallb_app in Hs. cbn [forallb] in Hs. bool_hyps. by apply trim_solid.
Qed.

Lemma digit_solid c : is_ascii_digit c = true → solid c = true.
Proof. byte_cases c. Qed.

Lemma contains_char_false s c : contains_char s c = false ↔ c ∉ s.
Proof.
  unfold contains_char. rewrite <-not_true_iff_false, existsb_elem. split.
  - intros H Hc. apply H. exists c. split; [done|apply Ascii.eqb_refl].
  - intros H (d & Hd & E). apply Ascii.eqb_eq in E as <-. done.
Qed.

(** [split] at the first separator. *)
Lemma split_app c s t : c ∉ s → split c (s ++ c :: t) = s :: split c t.
Proof.
  induction s as [|d s IH]; cbn [app split]; intros Hs.
  - by rewrite Ascii.eqb_refl.
  - apply not_elem_of_cons in Hs as [Hd Hs]. rewrite IH by done.
    destruct (Ascii.eqb_spec d c); [congruence|done].
Qed.

Lemma split_none c s : c ∉ s → split c s = [s].
Proof.
  induction s as [|d s IH]; cbn [split]; intros Hs; [done|].
  apply not_elem_of_cons in Hs as [Hd Hs]. rewrite IH by done.
  destruct (Ascii.eqb_spec d c); [congruence|done].
Qed.

Lemma chars_tail s x l : chars s = x :: l → chars (concat l) = l.
Proof.
  revert x l. induction s as [|c s IH]; intros x l; [done|]. simpl.
  destruct (chars s) as [|[|d ds] cs] eqn:E.
  - by intros [= <- <-].
  - exfalso. by apply (chars_nonempty s []); [rewrite E; left|].
  - destruct (is_cont d).
    + intros [= <- <-]. by eapply IH.
    + intros [= <- <-]. rewrite <-E at 1. by rewrite concat_chars.
Qed.

Lemma chars_suffix s l k : chars s = l ++ k → chars (concat k) = k.
Proof.
  revert s. induction l as [|x l IH]; intros s E; simpl in E.
  - by rewrite <-E at 1; rewrite concat_chars.
  - apply (IH (concat (l ++ k))). by eapply chars_tail.
Qed.

Lemma chars_head_noncont s x y l :
  chars s = x :: y :: l → ∀ d t, concat (y :: l) = d :: t → is_cont d = false.
Proof.
  revert x y l. induction s as [|c s IH]; intros x y l; [done|]. simpl chars.
  destruct (chars s) as [|[|d ds] cs] eqn:E; [done|..].
  - exfalso. by apply (chars_nonempty s []); [rewrite E; left|].
  - destruct (is_cont d) eqn:Ed.
    + intros [= <- ->]. by eapply IH.
    + intros [= <- <- <-] d' t. simpl. by intros [= <- _].
Qed.

Lemma chars_single s x l : chars s = x :: l → chars x = [x].
Proof.
  revert x l. induction s as [|c s IH]; intros x l; [done|]. simpl chars.
  destruct (chars s) as [|[|d ds] cs] eqn:Es.
  - by intros [= <- <-].
  - exfalso. by apply (chars_nonempty s []); [rewrite Es; left|].
  - destruct (is_cont d) eqn:Ed; intros [= <- <-]; [|done].
    specialize (IH _ _ eq_refl). simpl in IH |- *. rewrite IH. by rewrite Ed.
Qed.

Lemma chars_prefix s l k : chars s = l ++ k → chars (concat l) = l.
Proof.
  revert s. induction l as [|x l IH]; intros s E; [done|]. cbn [app] in E.
  assert (chars (concat (l ++ k)) = l ++ k) as Et by (by eapply chars_tail).
  specialize (IH _ Et). cbn [concat]. rewrite chars_app.
  - by rewrite IH, (chars_single _ _ _ E).
  - intros d t Hd. destruct l as [|y l]; [done|].
    eapply (chars_head_noncont s x y (l ++ k) E d (t ++ concat k)).
    change (y :: l ++ k) with ((y :: l) ++ k). by rewrite concat_app, Hd.
Qed.

Lemma chars_trim_start s : chars (trim_start s) = drop_while char_is_whitespace (chars s).
Proof.
  unfold trim_start. eapply (chars_suffix s (take_while char_is_whitespace (chars s))).
  by rewrite take_drop_while.
Qed.

Lemma solid_ascii_only s : forallb solid s = true → ascii_only s.
Proof.
  intros Hs. apply Forall_forall. intros c Hc. rewrite forallb_elem in Hs.
  by apply Hs, andb_true_iff in Hc as [? _].
Qed.

Lemma split_whitespace_solid s :
  s ≠ [] → forallb solid s = true → split_whitespace s = [s].
Proof.
  intros Hne Hs. unfold split_whitespace. rewrite chars_ascii by by apply solid_ascii_only.
  assert (∀ cur, cur ++ s ≠ [] → split_ws_aux (map (λ c, [c]) s) cur = [cur ++ s]) as Haux.
  { clear Hne. induction s as [|c s IH]; intros cur Hcur; simpl.
    - rewrite app_nil_r in *. by destruct cur.
    - cbn [forallb] in Hs. bool_hyps. rewrite solid_not_ws by done.
      rewrite IH; [by rewrite <-app_assoc|done|]. by destruct cur. }
  by apply Haux.
Qed.

Lemma find_cons c s p : starts_with (c :: s) p = false → find (c :: s) p = S <$> find s p.
Proof. intros E. cbn [find]. by rewrite E. Qed.

Lemma find_skip p c q s : c ∉ p → find (p ++ c :: q ++ s) (c :: q) = Some (length p).
Proof.
  induction p as [|d p IH]; intros Hc; cbn [app find].
  - change (c :: q ++ s) with ((c :: q) ++ s). by rewrite starts_with_app.
  - apply not_elem_of_cons in Hc as [Hd Hc]. cbn [starts_with].
    destruct (Ascii.eqb_spec d c); [congruence|]. cbn [andb]. by rewrite IH.
Qed.

Lemma ascii_boundary s i : ascii_only s → (i ≤ length s)%nat → is_char_boundary s i = true.
Proof.
  intros Hs Hi. unfold is_char_boundary. destruct i as [|i]; [done|].
  destruct (s !! S i) as [c|] eqn:E.
  - rewrite is_ascii_not_cont; [done|]. by eapply Forall_lookup_1 in Hs.
  - apply lookup_ge_None in E. apply Nat.eqb_eq. lia.
Qed.

Lemma slice_ascii s a b :
  ascii_only s → (a ≤ b ≤ length s)%nat → slice s a b = Ret (take (b - a) (drop a s)).
Proof.
  intros Hs Hab. unfold slice. rewrite !ascii_boundary by (done || lia).
  by rewrite (proj2 (Nat.leb_le a b)), (proj2 (Nat.leb_le b _)) by lia.
Qed.

Lemma slice_to_ascii s b : ascii_only s → (b ≤ length s)%nat → slice_to s b = Ret (take b s).
Proof. intros. unfold slice_to. rewrite slice_ascii by (done || lia). by rewrite Nat.sub_0_r. Qed.

Lemma slice_from_ascii s a : ascii_only s → (a ≤ length s)%nat → slice_from s a = Ret (drop a s).
Proof.
  intros. unfold slice_from. rewrite slice_ascii by (done || lia).
  by rewrite take_ge by (rewrite length_drop; lia).
Qed.

Lemma trim_start_suffix s : ∃ w, s = w ++ trim_start s ∧ trim_start w = [].
Proof.
  exists (concat (take_while char_is_whitespace (chars s))). split.
  - unfold trim_start. by rewrite <-concat_app, take_drop_while, concat_chars.
  - unfold trim_start.
    assert (chars (concat (take_while char_is_whitespace (chars s))) =
      take_while char_is_whitespace (chars s)) as ->.
    { eapply chars_prefix. by rewrite take_drop_while. }
    pose proof (take_while_all char_is_whitespace (chars s)) as Ha.
    rewrite <-(app_nil_r (take_while _ _)), drop_while_app_all by done. done.
Qed.

Lemma find_app_some s p t : ∃ i, find (s ++ p ++ t) p = Some i.
Proof.
  destruct (find (s ++ p ++ t) p) as [i|] eqn:E; [by exists i|].
  pose proof (proj1 (find_none (s ++ p ++ t) p) E (length s)) as Hn.
  rewrite drop_app_length, starts_with_app in Hn. rewrite length_app in Hn. discriminate Hn. lia.
Qed.

Lemma contains_app s p t : contains (s ++ p ++ t) p = true.
Proof. unfold contains. by destruct (find_app_some s p t) as [i ->]. Qed.

(** A character that is not the first starts with a leading byte. *)
Lemma chars_later_noncont s l k :
  chars s = l ++ k → l ≠ [] → ∀ d t, concat k = d :: t → is_cont d = false.
Proof.
  revert s. induction l as [|x l IH]; intros s E Hne d t Hd; [done|]. cbn [app] in E.
  destruct l as [|y l].
  - destruct k as [|y k]; [done|]. by eapply (chars_head_noncont s x y k).
  - eapply (IH (concat ((y :: l) ++ k))); [by eapply chars_tail|done|done].
Qed.

Lemma trim_end_prefix s : ∃ w, s = trim_end s ++ w.
Proof.
  exists (concat (reverse (take_while char_is_whitespace (reverse (chars s))))).
  unfold trim_end, drop_while_end.
  by rewrite <-concat_app, <-reverse_app, take_drop_while, reverse_involutive, concat_chars.
Qed.

Lemma drop_while_end_prefix {A} (f : A → bool) l : ∃ k, l = drop_while_end f l ++ k.
Proof.
  exists (reverse (take_while f (reverse l))). unfold drop_while_end.
  by rewrite <-reverse_app, take_drop_while, reverse_involutive.
Qed.

Lemma trim_trim s : trim (trim s) = trim s.
Proof.
  set (m := drop_while char_is_whitespace (chars s)).
  destruct (drop_while_end_prefix char_is_whitespace m) as [k Hk].
  assert (chars (trim s) = drop_while_end char_is_whitespace m) as Hc.
  { unfold trim. fold m. apply (chars_prefix (concat m) _ k). rewrite <-Hk.
    apply (chars_suffix s (take_while char_is_whitespace (chars s))).
    unfold m. by rewrite take_drop_while. }
  unfold trim at 1. rewrite Hc. unfold trim. fold m. f_equal.
  rewrite (drop_while_none _ (drop_while_end _ m)).
  - unfold drop_while_end. by rewrite reverse_involutive, drop_while_idemp.
  - intros x l E. rewrite E in Hk. by eapply drop_while_head.
Qed.
