(* ===== verification/Glob.v ===== *)
(** * Glob matching ([gateway/core/src/pdp.rs], [glob_match], [glob_match_bytes])

    The matcher of subject, table and column patterns: [*] is any run, [?] one
    byte.  The source is an index loop that remembers the last star and
    backtracks to it; [glob] is the declarative meaning, and the two are proved
    equivalent for values that contain no [*] byte.  On a value with a [*] the
    loop takes the star of the pattern for a literal; see [glob_star_value]. *)

From S2P Require Import Prelude RustStr.
Local Open Scope nat_scope.

Module Glob.

(** The loop state of [glob_match_bytes]. *)
Record state := State { pi : nat; vi : nat; star_p : option nat; star_v : nat }.

Section Match.
Context (pattern value : str).

(** One iteration of the [while vi < value.len()] loop: [None] is
    [return false]. *)
Definition glob_step (st : state) (v : ascii) : option state :=
  let c := pattern !! pi st in
  let advance :=
    match c with
    | Some c => Ascii.eqb c "?" || Ascii.eqb c v
    | None => false
    end in
  if advance then Some (State (S (pi st)) (S (vi st)) (star_p st) (star_v st))
  else if match c with Some c => Ascii.eqb c "*" | None => false end
  then Some (State (S (pi st)) (vi st) (Some (pi st)) (vi st))
  else match star_p st with
       | Some sp => Some (State (S sp) (S (star_v st)) (Some sp) (S (star_v st)))
       | None => None
       end.

(** The two loops.  [None] is fuel exhaustion. *)
Fixpoint glob_loop (fuel : nat) (st : state) : option bool :=
  match fuel with
  | O => None
  | S fuel' =>
      match value !! vi st with
      | Some v =>
          match glob_step st v with
          | Some st' => glob_loop fuel' st'
          | None => Some false
          end
      | None => Some (is_empty (drop_while (Ascii.eqb "*") (drop (pi st) pattern)))
      end
  end.

Definition glob_fuel : nat :=
  S (length value * S (length value + length pattern) + length value + length pattern).

Definition glob_match_bytes : bool := default false (glob_loop glob_fuel (State 0 0 None 0)).
End Match.

Definition glob_match (pattern value : str) : bool :=
  glob_match_bytes (to_ascii_lowercase pattern) (to_ascii_lowercase value).

(** ** The declarative meaning *)

Inductive glob : str → str → Prop :=
| glob_nil : glob [] []
| glob_any p c v : glob p v → glob ("?"%char :: p) (c :: v)
| glob_lit c p v : c ≠ "?"%char → c ≠ "*"%char → glob p v → glob (c :: p) (c :: v)
| glob_skip p v : glob p v → glob ("*"%char :: p) v
| glob_more p c v : glob ("*"%char :: p) v → glob ("*"%char :: p) (c :: v).

#[export] Hint Constructors glob : rust.

Definition star_free (s : str) : Prop := Forall (λ c, c ≠ "*"%char) s.

(** ** Termination *)

Section Termination.
Context (pattern value : str).

Definition bounded (st : state) : Prop :=
  pi st ≤ length pattern ∧ vi st ≤ length value ∧ star_v st ≤ vi st ∧
  ∀ sp, star_p st = Some sp → sp < length pattern.

Definition measure (st : state) : nat :=
  (length value - star_v st) * S (length value + length pattern)
  + (length value - vi st) + (length pattern - pi st).

Lemma glob_step_decreases st v st' :
  bounded st → value !! vi st = Some v → glob_step pattern st v = Some st' →
  bounded st' ∧ measure st' < measure st.
Proof.
  intros (Hp & Hv & Hs & Hsp) Hvi%lookup_lt_Some. unfold glob_step, bounded, measure.
  destruct (pattern !! pi st) as [c|] eqn:Hc.
  - apply lookup_lt_Some in Hc.
    repeat case_match; intros; simplify_eq/=.
    + split; [naive_solver lia|]. nia.
    + split; [naive_solver lia|]. nia.
    + pose proof (Hsp _ eq_refl). split; [naive_solver lia|]. nia.
  - repeat case_match; intros; simplify_eq/=.
    pose proof (Hsp _ eq_refl). split; [naive_solver lia|]. nia.
Qed.

Lemma glob_loop_terminates fuel st :
  bounded st → measure st < fuel → is_Some (glob_loop pattern value fuel st).
Proof.
  revert st. induction fuel as [|fuel IH]; intros st Hb Hm; [lia|]. simpl.
  destruct (value !! vi st) as [v|] eqn:Hv; [|by eexists].
  destruct (glob_step pattern st v) as [st'|] eqn:Hst; [|by eexists].
  destruct (glob_step_decreases _ _ _ Hb Hv Hst). apply IH; [done|lia].
Qed.

Lemma glob_match_bytes_total :
  is_Some (glob_loop pattern value (glob_fuel pattern value) (State 0 0 None 0)).
Proof.
  apply glob_loop_terminates.
  - unfold bounded; simpl. naive_solver lia.
  - unfold measure, glob_fuel; simpl. lia.
Qed.
End Termination.

(** ** Soundness and completeness *)

Lemma glob_nil_inv v : glob [] v ↔ v = [].
Proof. split; [by inversion 1|]. intros ->. constructor. Qed.

Lemma glob_cons_inv c p d v :
  c ≠ "*"%char → glob (c :: p) (d :: v) ↔ (c = "?"%char ∨ c = d) ∧ glob p v.
Proof.
  intros Hc. split.
  - inversion 1; simplify_eq/=; try done; auto.
  - intros [[->| ->] H]; [by constructor|].
    destruct (decide (d = "?"%char)) as [->|]; by constructor.
Qed.

Lemma glob_cons_nil c p : glob (c :: p) [] ↔ c = "*"%char ∧ glob p [].
Proof. split; [inversion 1; by simplify_eq/=|]. intros [-> ?]. by constructor. Qed.

Lemma glob_star_inv p v : glob ("*"%char :: p) v ↔ ∃ k, k ≤ length v ∧ glob p (drop k v).
Proof.
  split.
  - remember ("*"%char :: p) as q eqn:Eq. intros H. revert p Eq.
    induction H as [|p' c v H _|c p' v ? ? H _|p' v H _|p' c v H IH]; intros p Eq; simplify_eq/=.
    + exists 0. split; [lia|]. by rewrite drop_0.
    + destruct (IH _ eq_refl) as (k & ? & ?). exists (S k). split; [simpl; lia|done].
  - revert v. intros v (k & Hk & H). revert v Hk H.
    induction k as [|k IH]; intros v Hk H; [constructor; by rewrite drop_0 in H|].
    destruct v as [|c v]; simpl in *; [lia|]. apply glob_more. apply IH; [lia|done].
Qed.

Lemma glob_all_stars p :
  is_empty (drop_while (Ascii.eqb "*") p) = true ↔ glob p [].
Proof.
  induction p as [|c p IH]; [split; [constructor|done]|]. rewrite glob_cons_nil. cbn [drop_while].
  destruct (Ascii.eqb "*" c) eqn:E.
  - apply Ascii.eqb_eq in E as <-. rewrite IH. naive_solver.
  - apply Ascii.eqb_neq in E. simpl. split; [done|]. intros [-> _]. done.
Qed.

(** A star-free segment consumes exactly its length. *)
Lemma glob_segment s p v :
  star_free s → glob (s ++ p) v → length s ≤ length v ∧ glob p (drop (length s) v).
Proof.
  intros Hs. revert v. induction s as [|c s IH]; intros v; simpl; [split; [lia|done]|].
  apply list.Forall_cons in Hs as [Hc Hs]. destruct v as [|d v].
  - intros [? _]%glob_cons_nil. done.
  - rewrite glob_cons_inv by done. intros [_ H]. simpl. destruct (IH Hs _ H). split; [lia|done].
Qed.

Section Correctness.
Context (pattern value : str).
Hypothesis value_star_free : star_free value.

(** The match is reachable from the current alignment or from a later
    backtrack of the remembered star. *)
Definition alive (st : state) : Prop :=
  glob (drop (pi st) pattern) (drop (vi st) value) ∨
  ∃ sp k, star_p st = Some sp ∧ star_v st < k ≤ length value ∧
    glob (drop (S sp) pattern) (drop k value).

(** Since the remembered star the pattern was consumed one byte per value
    byte, none of it a star. *)
Definition aligned (st : state) : Prop :=
  pi st ≤ length pattern ∧ vi st ≤ length value ∧
  ∀ sp, star_p st = Some sp →
    sp < length pattern ∧
    ∃ seg, drop (S sp) pattern = seg ++ drop (pi st) pattern ∧
      star_free seg ∧ vi st = star_v st + length seg.

Lemma value_lookup_not_star i v : value !! i = Some v → v ≠ "*"%char.
Proof. intros H. by eapply Forall_lookup_1 in value_star_free. Qed.

Lemma alive_advance st c v :
  pattern !! pi st = Some c → value !! vi st = Some v → c = "?"%char ∨ c = v →
  aligned st →
  let st' := State (S (pi st)) (S (vi st)) (star_p st) (star_v st) in
  aligned st' ∧ (alive st ↔ alive st').
Proof.
  intros Hc Hv Hcv (Hp & Hvl & Hseg). simpl.
  assert (c ≠ "*"%char) as Hns.
  { destruct Hcv as [->| ->]; [done|]. by eapply value_lookup_not_star. }
  split.
  - apply lookup_lt_Some in Hv as ?. apply lookup_lt_Some in Hc as ?.
    split; [simpl; lia|]. split; [simpl; lia|]. simpl. intros sp Hsp.
    destruct (Hseg sp Hsp) as (? & seg & Hd & Hf & Hl). split; [done|]. exists (seg ++ [c]).
    rewrite (drop_S _ _ _ Hc) in Hd. rewrite <-app_assoc. split; [done|].
    split; [apply Forall_app; split; [done|by constructor]|]. rewrite length_app. simpl. lia.
  - unfold alive. simpl. rewrite (drop_S _ _ _ Hc), (drop_S _ _ _ Hv).
    rewrite glob_cons_inv by done. naive_solver.
Qed.

Lemma alive_star st v :
  pattern !! pi st = Some "*"%char → value !! vi st = Some v → aligned st →
  let st' := State (S (pi st)) (vi st) (Some (pi st)) (vi st) in
  aligned st' ∧ (alive st ↔ alive st').
Proof.
  intros Hc Hv (Hp & Hvl & Hseg). simpl. apply lookup_lt_Some in Hc as Hlt.
  split.
  - split; [simpl; lia|]. split; [done|]. simpl. intros sp [= <-].
    split; [done|]. exists []. split; [done|]. split; [constructor|]. simpl. lia.
  - unfold alive. simpl. rewrite (drop_S _ _ _ Hc). split.
    + intros H. assert (∃ k, vi st ≤ k ≤ length value ∧
        glob (drop (S (pi st)) pattern) (drop k value)) as (k & Hk & Hg).
      { destruct H as [H|(sp & k & Hsp & Hk & Hg)].
        - apply glob_star_inv in H as (k & Hk & Hg). rewrite length_drop in Hk.
          rewrite drop_drop in Hg. exists (vi st + k). split; [lia|done].
        - destruct (Hseg sp Hsp) as (_ & seg & Hd & Hf & Hl).
          rewrite Hd, (drop_S _ _ _ Hc) in Hg. apply glob_segment in Hg as [Hlen Hg]; [|done].
          rewrite length_drop in Hlen. rewrite drop_drop in Hg.
          apply glob_star_inv in Hg as (j & Hj & Hg). rewrite length_drop in Hj.
          rewrite drop_drop in Hg. eexists. split; [|exact Hg]. lia. }
      destruct (decide (k = vi st)) as [->|]; [by left|].
      right. exists (pi st), k. split; [done|]. split; [lia|done].
    + intros H. left. apply glob_star_inv. destruct H as [H|(sp & k & [= <-] & Hk & Hg)].
      * exists 0. rewrite drop_0. split; [lia|done].
      * exists (k - vi st). rewrite length_drop, drop_drop.
        split; [lia|]. by replace (vi st + (k - vi st)) with k by lia.
Qed.

Lemma current_fails st v :
  value !! vi st = Some v →
  match pattern !! pi st with
  | Some c => c ≠ "?"%char ∧ c ≠ v ∧ c ≠ "*"%char
  | None => True
  end → ¬ glob (drop (pi st) pattern) (drop (vi st) value).
Proof.
  intros Hv Hc. rewrite (drop_S _ _ _ Hv). destruct (pattern !! pi st) as [c|] eqn:E.
  - rewrite (drop_S _ _ _ E). destruct Hc as (? & ? & ?). rewrite glob_cons_inv by done. naive_solver.
  - rewrite drop_ge by (by apply lookup_ge_None). rewrite glob_nil_inv. done.
Qed.

Lemma alive_backtrack st v sp :
  value !! vi st = Some v → star_p st = Some sp → aligned st →
  ¬ glob (drop (pi st) pattern) (drop (vi st) value) →
  let st' := State (S sp) (S (star_v st)) (Some sp) (S (star_v st)) in
  aligned st' ∧ (alive st ↔ alive st').
Proof.
  intros Hv Hsp (Hp & Hvl & Hseg) Hf. simpl. apply lookup_lt_Some in Hv.
  destruct (Hseg sp Hsp) as (Hlt & seg & Hd & Hsf & Hl). split.
  - split; simpl; [lia|].
    split; [lia|]. intros sp' [= <-]. split; [done|]. exists []. split; [done|]. split; [constructor|]. simpl. lia.
  - unfold alive. simpl. split.
    + intros [H|(sp' & k & Hsp' & Hk & Hg)]; [done|]. assert (sp' = sp) as -> by congruence.
      destruct (decide (k = S (star_v st))) as [->|]; [by left|].
      right. exists sp, k. split; [done|]. split; [lia|done].
    + intros [H|(sp' & k & [= <-] & Hk & Hg)]; right.
      * exists sp, (S (star_v st)). split; [done|]. split; [lia|done].
      * exists sp, k. split; [done|]. split; [lia|done].
Qed.

Lemma glob_step_alive st v :
  value !! vi st = Some v → aligned st →
  match glob_step pattern st v with
  | Some st' => aligned st' ∧ (alive st ↔ alive st')
  | None => ¬ alive st
  end.
Proof.
  intros Hv Ha. unfold glob_step.
  destruct (pattern !! pi st) as [c|] eqn:Hc; simpl.
  - destruct (Ascii.eqb_spec c "?") as [->|Hq]; simpl; [by eapply alive_advance; eauto|].
    destruct (Ascii.eqb_spec c v) as [->|Hne]; simpl; [by eapply alive_advance; eauto|].
    destruct (Ascii.eqb_spec c "*") as [->|Hs]; simpl; [by eapply alive_star; eauto|].
    assert (¬ glob (drop (pi st) pattern) (drop (vi st) value)) as Hf.
    { eapply current_fails; [done|]. by rewrite Hc. }
    destruct (star_p st) as [sp|] eqn:Hsp; [|unfold alive; naive_solver].
    by apply (alive_backtrack st v sp).
  - assert (¬ glob (drop (pi st) pattern) (drop (vi st) value)) as Hf.
    { eapply current_fails; [done|]. by rewrite Hc. }
    destruct (star_p st) as [sp|] eqn:Hsp; [|unfold alive; naive_solver].
    by apply (alive_backtrack st v sp).
Qed.

Lemma alive_end st :
  value !! vi st = None → aligned st →
  alive st ↔ glob (drop (pi st) pattern) [].
Proof.
  intros Hv%lookup_ge_None (Hp & Hvl & Hseg). unfold alive.
  rewrite (drop_ge value (vi st)) by done. split; [|by left].
  intros [H|(sp & k & Hsp & Hk & Hg)]; [done|]. exfalso.
  destruct (Hseg sp Hsp) as (_ & seg & Hd & Hsf & Hl).
  rewrite Hd in Hg. apply glob_segment in Hg as [Hlen _]; [|done].
  rewrite length_drop in Hlen. lia.
Qed.

Lemma glob_loop_correct fuel st b :
  aligned st → glob_loop pattern value fuel st = Some b → b = true ↔ alive st.
Proof.
  revert st. induction fuel as [|fuel IH]; intros st Ha; simpl; [done|].
  destruct (value !! vi st) as [v|] eqn:Hv.
  - pose proof (glob_step_alive st v Hv Ha) as Hst.
    destruct (glob_step pattern st v) as [st'|].
    + destruct Hst as [Ha' ->]. by apply IH.
    + intros [= <-]. naive_solver.
  - intros [= <-]. rewrite glob_all_stars, alive_end; done.
Qed.
End Correctness.

(** The loop decides the declarative meaning on star-free values. *)
Lemma glob_match_bytes_iff pattern value :
  star_free value → glob_match_bytes pattern value = true ↔ glob pattern value.
Proof.
  intros Hs. unfold glob_match_bytes.
  destruct (glob_match_bytes_total pattern value) as [b Hb]. rewrite Hb. simpl.
  assert (aligned pattern value (State 0 0 None 0)) as Ha.
  { split; [simpl; lia|]. split; [simpl; lia|done]. }
  rewrite (glob_loop_correct _ _ Hs _ _ _ Ha Hb).
  unfold alive. simpl. rewrite !drop_0. naive_solver.
Qed.

Lemma star_free_lowercase v : star_free v → star_free (to_ascii_lowercase v).
Proof.
  unfold star_free, to_ascii_lowercase. rewrite !Forall_forall. intros H c Hc.
  apply list_elem_of_fmap in Hc as (d & -> & Hd). specialize (H d Hd).
  intros E. apply H. revert E. clear. byte_cases d.
Qed.

(** The pattern matcher terminates within its fuel (quadratic in the
    lengths) and, on values without a [*] byte, decides exactly the meaning of
    the pattern: [*] any run, [?] one byte, everything else itself, ignoring
    ASCII case. *)
Theorem glob_match_spec pattern value :
  star_free value →
  is_Some (glob_loop (to_ascii_lowercase pattern) (to_ascii_lowercase value)
    (glob_fuel (to_ascii_lowercase pattern) (to_ascii_lowercase value)) (State 0 0 None 0)) ∧
  (glob_match pattern value = true ↔ glob (to_ascii_lowercase pattern) (to_ascii_lowercase value)).
Proof.
  intros Hv. split; [apply glob_match_bytes_total|].
  apply glob_match_bytes_iff. by apply star_free_lowercase.
Qed.

Lemma glob_match_spec_witness :
  glob_match ($"HR_*_20?4") ($"hr_pay_2024") = true ∧ glob ($"hr_*_20?4") ($"hr_pay_2024").
Proof.
  split; [vm_compute; reflexivity|].
  destruct (glob_match_spec ($"HR_*_20?4") ($"hr_pay_2024")) as [_ H].
  - unfold star_free. repeat constructor; discriminate.
  - apply H. vm_compute. reflexivity.
Defined.

(** A value containing a [*] byte escapes patterns: the loop compares the
    pattern's [*] with the value's [*] as literals first and then cannot
    backtrack, so even the catch-all pattern [*] rejects the value [*x]. *)
Theorem glob_star_value :
  glob ($"*") ($"*x") ∧ glob_match ($"*") ($"*x") = false ∧
  glob_match ($"*secret*") ($"*top secret") = false.
Proof. split; [simpl; auto 6 with rust|]. split; vm_compute; reflexivity. Qed.

End Glob.
