(* ===== verification/Model.v ===== *)
(** * Protocol-neutral gateway data model

    [gateway/core/src/model.rs] (values, commands, responses, execution modes),
    [gateway/core/src/types.rs] (column type mapping between protocols),
    [gateway/core/src/dialect.rs] (statement classification) and the
    [StatementAction] enum of [gateway/core/src/pdp.rs]. *)

From S2P Require Import Prelude RustStr.

(** ** [error.rs] *)

Inductive GatewayError :=
| Configuration (message : str)
| Protocol (message : str)
| Backend (message : str)
| Unsupported (message : str).

Abbreviation GatewayResult A := (result GatewayError A).

(** ** [model.rs] *)

Inductive ProtocolKind := MySql | PostgreSql.

#[export] Instance ProtocolKind_eq_dec : EqDecision ProtocolKind.
Proof. solve_decision. Defined.

Definition protocol_eqb (p q : ProtocolKind) : bool := bool_decide (p = q).

Definition ProtocolKind_as_str (p : ProtocolKind) : str :=
  match p with MySql => $"mysql" | PostgreSql => $"postgresql" end.

(** [f64] is carried by its bit pattern; [value_as_display] takes the standard
    library's rendering of it as an argument. *)
Inductive GatewayValue :=
| Null
| Boolean (b : bool)
| Integer (i : Z)
| UnsignedInteger (u : Z)
| Float (bits : Z)
| Decimal (s : str)
| VString (s : str)
| Bytes (b : str).

#[export] Instance GatewayValue_eq_dec : EqDecision GatewayValue.
Proof. solve_decision. Defined.

Record Column := mkColumn { column_name : str; data_type : str }.

#[export] Instance Column_eq_dec : EqDecision Column.
Proof. solve_decision. Defined.

Inductive GatewayCommand :=
| Query (sql : str)
| QueryParams (sql : str) (parameters : list GatewayValue)
| Prepare (sql : str)
| Execute (statement_id : str) (parameters : list GatewayValue)
| CloseStatement (statement_id : str)
| DescribeSql (sql : str)
| ClientWire (packets : list str)
| PgBackendSync
| UseDatabase (database : str)
| Begin
| Commit
| Rollback
| Ping
| Quit.

Inductive GatewayResponse :=
| ROk (affected_rows : Z) (last_insert_id : option Z)
| CommandComplete (tag : str)
| RError (code message : str)
| ResultSet (columns : list Column) (rows : list (list GatewayValue))
| TaggedResultSet (columns : list Column) (rows : list (list GatewayValue)) (tag : str)
| Wire (packets : list str)
| Prepared (statement_id : str) (parameter_count : Z) (prepared_columns : list Column)
| RowDescription (columns : list Column)
| Pong
| Bye.

(** [ExecuteMode]: how a backend connector returns a large result. *)
Inductive ExecuteMode :=
| Materialized
| Streaming (window_rows : Z) (max_rows : option Z)
| Passthrough.

Definition from_streaming_config (window_rows : Z) (max_rows : option Z) : ExecuteMode :=
  Streaming (Z.max window_rows 1) max_rows.

Definition effective_max_rows (m : ExecuteMode) : option Z :=
  match m with Materialized | Passthrough => None | Streaming _ max_rows => max_rows end.

Definition mode_window_rows (m : ExecuteMode) : option Z :=
  match m with Materialized | Passthrough => None | Streaming w _ => Some w end.

Definition promote_row_stream (m : ExecuteMode) : ExecuteMode :=
  match m with Materialized => from_streaming_config 256 None | other => other end.

(** ** [StatementAction] *)

Inductive StatementAction := Select | Insert | Update | Delete | Ddl | Tcl | Other.

#[export] Instance StatementAction_eq_dec : EqDecision StatementAction.
Proof. solve_decision. Defined.

Definition action_eqb (a b : StatementAction) : bool := bool_decide (a = b).

Definition action_as_str (a : StatementAction) : str :=
  match a with
  | Select => $"select"
  | Insert => $"insert"
  | Update => $"update"
  | Delete => $"delete"
  | Ddl => $"ddl"
  | Tcl => $"tcl"
  | Other => $"other"
  end.

Definition from_keyword (keyword : str) : StatementAction :=
  let k := to_ascii_uppercase (trim keyword) in
  if one_of [$"SELECT"; $"WITH"; $"VALUES"; $"TABLE"; $"SHOW"; $"EXPLAIN"; $"DESCRIBE"; $"DESC"] k
  then Select
  else if one_of [$"INSERT"; $"REPLACE"] k then Insert
  else if str_eqb k ($"UPDATE") then Update
  else if str_eqb k ($"DELETE") then Delete
  else if one_of [$"CREATE"; $"ALTER"; $"DROP"; $"TRUNCATE"; $"RENAME"; $"COMMENT"] k then Ddl
  else if one_of [$"BEGIN"; $"START"; $"COMMIT"; $"ROLLBACK"; $"SAVEPOINT"; $"RELEASE"] k then Tcl
  else Other.

(** ** [dialect.rs] *)

(** [trait DialectParser]: a [&dyn DialectParser] is a record of operations. *)
Record DialectParser := mkDialect {
  dialect : ProtocolKind;
  is_read_only : str → bool;
  leading_keyword : str → option str
}.

(** The provided method [DialectParser::leading_keyword]. *)
Definition default_leading_keyword (sql : str) : option str :=
  let upper := to_ascii_uppercase (trim_start sql) in
  match split_whitespace upper with
  | [] => None
  | token :: _ =>
      let token := trim_end_matches (Ascii.eqb ";") token in
      if is_empty token then None else Some token
  end.

(** [HeuristicDialectParser::is_read_only]. *)
Definition heuristic_is_read_only (d : ProtocolKind) (sql : str) : bool :=
  let upper := to_ascii_uppercase (trim_start sql) in
  let first_token :=
    trim_end_matches (Ascii.eqb ";")
      (match split_whitespace upper with [] => [] | t :: _ => t end) in
  let read_keywords :=
    match d with
    | MySql =>
        one_of [$"SELECT"; $"SHOW"; $"EXPLAIN"; $"DESCRIBE"; $"DESC"; $"WITH"; $"VALUES"] first_token
    | PostgreSql =>
        one_of [$"SELECT"; $"SHOW"; $"EXPLAIN"; $"WITH"; $"VALUES"; $"TABLE"] first_token
    end in
  read_keywords
  && negb (contains upper ($" FOR UPDATE"))
  && negb (contains upper ($" FOR SHARE"))
  && negb (contains upper ($" FOR NO KEY UPDATE"))
  && negb (contains upper ($" FOR KEY SHARE")).

Definition HeuristicDialectParser (d : ProtocolKind) : DialectParser :=
  mkDialect d (heuristic_is_read_only d) default_leading_keyword.

Definition default_dialect_parser (protocol : ProtocolKind) : DialectParser :=
  match protocol with
  | MySql => HeuristicDialectParser MySql
  | PostgreSql => HeuristicDialectParser PostgreSql
  end.

(** ** [types.rs] *)

Inductive CanonicalDataType :=
| TBool | TInt8 | TInt16 | TInt32 | TInt64 | TUInt64 | TFloat32 | TFloat64 | TDecimal
| TString | TBytes | TDate | TTime | TTimestamp | TTimestamptz | TJson | TUnknown.

#[export] Instance CanonicalDataType_eq_dec : EqDecision CanonicalDataType.
Proof. solve_decision. Defined.

Definition canonical_as_str (t : CanonicalDataType) : str :=
  match t with
  | TBool => $"bool" | TInt8 => $"int8" | TInt16 => $"int16" | TInt32 => $"int32"
  | TInt64 => $"int64" | TUInt64 => $"uint64" | TFloat32 => $"float32"
  | TFloat64 => $"float64" | TDecimal => $"decimal" | TString => $"string"
  | TBytes => $"bytes" | TDate => $"date" | TTime => $"time" | TTimestamp => $"timestamp"
  | TTimestamptz => $"timestamptz" | TJson => $"json" | TUnknown => $"unknown"
  end.

Definition to_protocol_type (t : CanonicalDataType) (protocol : ProtocolKind) : str :=
  match t, protocol with
  | TBool, MySql => $"tiny"
  | TBool, PostgreSql => $"bool"
  | TInt8, MySql => $"tiny"
  | TInt8, PostgreSql => $"int2"
  | TInt16, MySql => $"short"
  | TInt16, PostgreSql => $"int2"
  | TInt32, MySql => $"long"
  | TInt32, PostgreSql => $"int4"
  | TInt64, MySql => $"longlong"
  | TInt64, PostgreSql => $"int8"
  | TUInt64, MySql => $"longlong"
  | TUInt64, PostgreSql => $"numeric"
  | TFloat32, MySql => $"float"
  | TFloat32, PostgreSql => $"float4"
  | TFloat64, MySql => $"double"
  | TFloat64, PostgreSql => $"float8"
  | TDecimal, MySql => $"new_decimal"
  | TDecimal, PostgreSql => $"numeric"
  | TString, MySql => $"var_string"
  | TString, PostgreSql => $"text"
  | TBytes, MySql => $"blob"
  | TBytes, PostgreSql => $"bytea"
  | TDate, _ => $"date"
  | TTime, _ => $"time"
  | TTimestamp, MySql => $"datetime"
  | TTimestamp, PostgreSql => $"timestamp"
  | TTimestamptz, MySql => $"timestamp"
  | TTimestamptz, PostgreSql => $"timestamptz"
  | TJson, MySql => $"var_string"
  | TJson, PostgreSql => $"text"
  | TUnknown, MySql => $"var_string"
  | TUnknown, PostgreSql => $"text"
  end.

(** [t.trim_start_matches(p)] for a string pattern: every leading copy goes. *)
Fixpoint trim_start_str_aux (fuel : nat) (p s : str) : str :=
  match fuel with
  | O => s
  | S fuel' => if starts_with s p then trim_start_str_aux fuel' p (drop (length p) s) else s
  end.
Definition trim_start_str (p s : str) : str := trim_start_str_aux (length s) p s.

(** The names shared by the drivers and wire layers: the outer [match] of
    [parse_backend_type], on the trimmed lower-case name. *)
Definition parse_common_type (t : str) : option CanonicalDataType :=
  if one_of [$"bool"; $"boolean"; $"bit"] t then Some TBool
  else if one_of [$"tiny"; $"tinyint"; $"int1"] t then Some TInt8
  else if one_of [$"short"; $"int2"; $"smallint"; $"year"] t then Some TInt16
  else if one_of [$"long"; $"int"; $"int4"; $"integer"; $"mediumint"] t then Some TInt32
  else if one_of [$"longlong"; $"int8"; $"bigint"; $"serial"; $"bigserial"] t then Some TInt64
  else if one_of [$"uint64"; $"ulonglong"] t then Some TUInt64
  else if one_of [$"float"; $"float4"; $"real"] t then Some TFloat32
  else if one_of [$"double"; $"float8"; $"double precision"] t then Some TFloat64
  else if one_of [$"decimal"; $"numeric"; $"new_decimal"; $"newdecimal"] t then Some TDecimal
  else if str_eqb t ($"date") then Some TDate
  else if str_eqb t ($"time") then Some TTime
  else if one_of [$"datetime"; $"timestamp"] t then Some TTimestamp
  else if one_of [$"timestamptz"; $"timestamp with time zone"] t then Some TTimestamptz
  else if one_of [$"blob"; $"bytea"; $"bytes"; $"binary"; $"varbinary"; $"longblob";
                  $"mediumblob"; $"tinyblob"] t then Some TBytes
  else if one_of [$"json"; $"jsonb"] t then Some TJson
  else if one_of [$"text"; $"varchar"; $"char"; $"bpchar"; $"var_string"; $"string"; $"enum";
                  $"set"; $"uuid"; $"name"; $"citext"] t then Some TString
  else None.

(** [parse_backend_type] with its mutual recursion through
    [parse_mysql_specific]; every recursive call is on a shorter name, so the
    length is enough fuel.  [parse_postgresql_specific] is [Unknown] on both of
    its branches. *)
Fixpoint parse_backend_type_aux (fuel : nat) (name : str) (backend : ProtocolKind)
    : CanonicalDataType :=
  match fuel with
  | O => TUnknown
  | S fuel' =>
      let t := trim (to_ascii_lowercase name) in
      match parse_common_type t with
      | Some c => c
      | None =>
          match backend with
          | MySql =>
              if starts_with t ($"mysql_type_")
              then parse_backend_type_aux fuel' (trim_start_str ($"mysql_type_") t) MySql
              else TUnknown
          | PostgreSql => TUnknown
          end
      end
  end.
Definition parse_backend_type (name : str) (backend : ProtocolKind) : CanonicalDataType :=
  parse_backend_type_aux (S (length name)) name backend.

Definition map_column_type (backend_type : str) (backend frontend : ProtocolKind) : str :=
  if protocol_eqb backend frontend then backend_type
  else to_protocol_type (parse_backend_type backend_type backend) frontend.
