(* ===== verification/TimeRules.v ===== *)
(** * Time-window policy rules ([gateway/core/src/time_rules.rs])

    A rule restricts actions to, or outside, a daily window on selected
    weekdays.  The calendar arithmetic itself is the [chrono] crate's; it is a
    parameter of [civil_parts], with [civil_utc] as its documented behaviour. *)

From S2P Require Import Prelude RustStr Model.

Module TimeRules.

(** [chrono::Weekday]. *)
Inductive Weekday := Mon | Tue | Wed | Thu | Fri | Sat | Sun.

#[export] Instance Weekday_eq_dec : EqDecision Weekday.
Proof. solve_decision. Defined.

Record SecurityTimeRuleConfig := mkTimeRule {
  tr_name : str;
  tr_effect : str;
  outside : bool;
  days : list str;
  start : str;
  end_ : str;
  timezone : str;
  tr_actions : list str;
  tr_subjects : list str;
  tr_tables : list str;
  tr_ticket_type : str;
  tr_message : str
}.

(** [impl Default for SecurityTimeRuleConfig]. *)
Definition default_time_rule : SecurityTimeRuleConfig :=
  mkTimeRule [] ($"deny") true [] ($"09:00") ($"18:00") ($"UTC") [] [] [] ($"high_risk") [].

Definition parse_hhmm (s : str) : result str Z :=
  let s := trim s in
  match split ":" s with
  | [p0; p1] =>
      h ← ok_or ($"bad hour in '" ++ s ++ $"'") (parse_unsigned u32_max p0);
      m ← ok_or ($"bad minute in '" ++ s ++ $"'") (parse_unsigned u32_max p1);
      if (23 <? h) || (59 <? m) then Err ($"out of range HH:MM '" ++ s ++ $"'")
      else Ok (h * 60 + m)
  | _ => Err ($"expected HH:MM, got '" ++ s ++ $"'")
  end.

Definition parse_weekday (s : str) : option Weekday :=
  let s := to_ascii_lowercase (trim s) in
  if one_of [$"mon"; $"monday"] s then Some Mon
  else if one_of [$"tue"; $"tues"; $"tuesday"] s then Some Tue
  else if one_of [$"wed"; $"wednesday"] s then Some Wed
  else if one_of [$"thu"; $"thur"; $"thurs"; $"thursday"] s then Some Thu
  else if one_of [$"fri"; $"friday"] s then Some Fri
  else if one_of [$"sat"; $"saturday"] s then Some Sat
  else if one_of [$"sun"; $"sunday"] s then Some Sun
  else None.

(** The half-open daily window, overnight when [start > end]. *)
Definition is_inside_window (minute_of_day start end_ : Z) : bool :=
  if start =? end_ then false
  else if start <? end_ then (start <=? minute_of_day) && (minute_of_day <? end_)
  else (start <=? minute_of_day) || (minute_of_day <? end_).

(** What the code takes from [chrono]: the process local offset in seconds,
    and weekday, hour and minute of an instant at an offset ([None] when the
    timestamp is not representable), with [now_civil] the fallback to
    [Utc::now()]. *)
Class Chrono := {
  local_minus_utc : Z;
  civil : Z → Z → option (Weekday * Z * Z);
  now_civil : Z → Weekday * Z * Z
}.

Section Rules.
Context `{Chrono}.

Definition parse_timezone_offset_minutes (tz : str) : result str Z :=
  let t := trim tz in
  if is_empty t || eq_ignore_ascii_case t ($"utc") || eq_ignore_ascii_case t ($"z") then Ok 0
  else if eq_ignore_ascii_case t ($"local") then Ok (Z.quot local_minus_utc 60)
  else
    '(sign, rest) ←
      (match strip_prefix t ($"+") with
       | Some r => Ok (1, r)
       | None =>
           match strip_prefix t ($"-") with
           | Some r => Ok (-1, r)
           | None => Err ($"expected UTC, local, or ±HH:MM, got '" ++ tz ++ $"'")
           end
       end);
    let rest := trim rest in
    '(h, m) ←
      (if contains_char rest ":" then
         match split ":" rest with
         | [p0; p1] =>
             h ← ok_or ($"bad offset hour '" ++ tz ++ $"'") (parse_signed i32_max p0);
             m ← ok_or ($"bad offset min '" ++ tz ++ $"'") (parse_signed i32_max p1);
             Ok (h, m)
         | _ => Err ($"bad offset '" ++ tz ++ $"'")
         end
       else if (length rest =? 4)%nat && forallb is_ascii_digit rest then
         Ok (default 0 (parse_signed i32_max (take 2 rest)),
             default 0 (parse_signed i32_max (drop 2 rest)))
       else if (length rest =? 2)%nat && forallb is_ascii_digit rest then
         Ok (default 0 (parse_signed i32_max rest), 0)
       else Err ($"bad offset '" ++ tz ++ $"'"));
    if negb ((0 <=? h) && (h <=? 14)) || negb ((0 <=? m) && (m <=? 59))
    then Err ($"offset out of range '" ++ tz ++ $"'")
    else Ok (sign * (h * 60 + m)).

(** [FixedOffset::east_opt] accepts offsets below one day. *)
Definition civil_parts (now_unix_secs offset_minutes : Z) : Weekday * Z :=
  let offset :=
    if (-86400 <? offset_minutes * 60) && (offset_minutes * 60 <? 86400)
    then offset_minutes * 60 else 0 in
  let '(weekday, hour, minute) := default (now_civil offset) (civil offset now_unix_secs) in
  (weekday, hour * 60 + minute).

Definition validate (r : SecurityTimeRuleConfig) (idx : Z) : GatewayResult unit :=
  if is_empty (trim (tr_name r)) then
    Err (Configuration ($"security.time_rules[" ++ dec idx ++ $"].name must not be empty"))
  else if negb (one_of [$"deny"; $"require_ticket"] (to_ascii_lowercase (tr_effect r))) then
    Err (Configuration ($"security.time_rules[" ++ dec idx
      ++ $"].effect must be deny or require_ticket, got '"
      ++ to_ascii_lowercase (tr_effect r) ++ $"'"))
  else if eq_ignore_ascii_case (tr_effect r) ($"require_ticket")
          && is_empty (trim (tr_ticket_type r)) then
    Err (Configuration ($"security.time_rules[" ++ dec idx
      ++ $"].ticket_type must not be empty when effect=require_ticket"))
  else
    _ ← map_err (λ e, Configuration ($"security.time_rules[" ++ dec idx
          ++ $"].start invalid: " ++ e)) (parse_hhmm (start r));
    _ ← map_err (λ e, Configuration ($"security.time_rules[" ++ dec idx
          ++ $"].end invalid: " ++ e)) (parse_hhmm (end_ r));
    match List.find (λ d, negb (bool_decide (is_Some (parse_weekday d)))) (days r) with
    | Some d =>
        Err (Configuration ($"security.time_rules[" ++ dec idx ++ $"].days entry '" ++ d
          ++ $"' must be mon..sun"))
    | None =>
        _ ← map_err (λ e, Configuration ($"security.time_rules[" ++ dec idx
              ++ $"].timezone invalid: " ++ e)) (parse_timezone_offset_minutes (timezone r));
        Ok tt
    end.

(** The decision of [matches_now] on parsed fields. *)
Definition matches_parsed (r : SecurityTimeRuleConfig) (now offset_mins start_m end_m : Z)
    : bool :=
  let '(weekday, minute_of_day) := civil_parts now offset_mins in
  let day_ok :=
    existsb (λ d, match parse_weekday d with
                  | Some w => bool_decide (w = weekday)
                  | None => false
                  end) (days r) in
  if negb (is_empty (days r)) && negb day_ok then outside r
  else
    let inside := is_inside_window minute_of_day start_m end_m in
    if outside r then negb inside else inside.

Definition matches_now (r : SecurityTimeRuleConfig) (now_unix_secs : Z) : bool :=
  match parse_timezone_offset_minutes (timezone r) with
  | Err _ => false
  | Ok offset_mins =>
      match parse_hhmm (start r) with
      | Err _ => false
      | Ok start_m =>
          match parse_hhmm (end_ r) with
          | Err _ => false
          | Ok end_m => matches_parsed r now_unix_secs offset_mins start_m end_m
          end
      end
  end.
End Rules.

(** ** The calendar the code relies on *)

Definition weekday_of_day (d : Z) : Weekday :=
  match (d + 3) mod 7 with
  | 0 => Mon | 1 => Tue | 2 => Wed | 3 => Thu | 4 => Fri | 5 => Sat | _ => Sun
  end.

(** Weekday, hour and minute of a Unix time at an offset from UTC in seconds
    (day 0, 1970-01-01, is a Thursday). *)
Definition civil_utc (offset t : Z) : Weekday * Z * Z :=
  let s := t + offset in
  (weekday_of_day (s / 86400), (s mod 86400) / 3600, (s mod 3600) / 60).

(** The documented behaviour of [chrono]: offsets are below one day, and
    timestamps up to year 9999 are representable and follow the proleptic
    Gregorian day count. *)
Class ChronoLaws `{Chrono} : Prop := {
  local_bound : -86400 < local_minus_utc < 86400;
  civil_law offset t :
    -86400 < offset < 86400 → 0 <= t <= 253402300799 → civil offset t = Some (civil_utc offset t)
}.

(** What a rule is about: the instant is on a listed day (every day when none
    is listed) and inside the daily window. *)
Definition in_window (r : SecurityTimeRuleConfig) (offset_mins start_m end_m t : Z) : bool :=
  let s := t + offset_mins * 60 in
  (is_empty (days r)
   || existsb (λ d, bool_decide (parse_weekday d = Some (weekday_of_day (s / 86400)))) (days r))
  && is_inside_window ((s mod 86400) / 60) start_m end_m.

(** ** Facts *)

(** Minutes since midnight are hours and minutes. *)
Lemma minute_of_day s : (s mod 86400) / 3600 * 60 + (s mod 3600) / 60 = (s mod 86400) / 60.
Proof.
  replace (s mod 3600) with ((s mod 86400) mod 3600)
    by (apply Z.mod_mod_divide; by exists 24).
  generalize (s mod 86400). intros r.
  pose proof (Z.div_mod r 3600). pose proof (Z.div_mod (r mod 3600) 60).
  pose proof (Z.mod_pos_bound r 3600). pose proof (Z.mod_pos_bound (r mod 3600) 60).
  apply (Z.div_unique _ 60 _ ((r mod 3600) mod 60)); lia.
Qed.

Lemma parse_hhmm_bound s m : parse_hhmm s = Ok m → 0 <= m < 1440.
Proof.
  unfold parse_hhmm. destruct (split ":" (trim s)) as [|p0 [|p1 [|]]]; try done.
  cbv [mbind result_bind ok_or].
  destruct (parse_unsigned u32_max p0) as [h|] eqn:Eh; [|done].
  destruct (parse_unsigned u32_max p1) as [n|] eqn:En; [|done].
  apply parse_unsigned_bound in Eh, En. case_match eqn:E; [done|]. intros [= <-].
  bool_hyps. lia.
Qed.

Section Facts.
Context `{ChronoLaws}.

Lemma parse_timezone_bound tz off :
  parse_timezone_offset_minutes tz = Ok off → -86400 < off * 60 < 86400.
Proof.
  unfold parse_timezone_offset_minutes. case_match; [intros [= <-]; lia|].
  case_match.
  { intros [= <-]. pose proof local_bound. Z.to_euclidean_division_equations. lia. }
  set (signed := match strip_prefix _ _ with Some _ => _ | None => _ end).
  destruct signed as [[sign rest]|e] eqn:Es; [|done].
  assert (sign = 1 ∨ sign = -1) as Hs.
  { subst signed. repeat case_match; simplify_eq; auto. }
  cbv [mbind result_bind]. clear Es signed. cbv zeta.
  match goal with |- match ?m with Ok _ => _ | Err _ => _ end = _ → _ =>
    destruct m as [[h n]|e]; [|done] end.
  case_match eqn:E; [done|]. intros [= <-]. bool_hyps. lia.
Qed.

Lemma civil_parts_law off t :
  -86400 < off * 60 < 86400 → 0 <= t <= 253402300799 →
  civil_parts t off =
    (weekday_of_day ((t + off * 60) / 86400), ((t + off * 60) mod 86400) / 60).
Proof.
  intros Ho Ht. unfold civil_parts.
  rewrite (proj2 (Z.ltb_lt _ _)), (proj2 (Z.ltb_lt (off * 60) _)) by lia. simpl andb. cbv iota.
  rewrite civil_law by lia. simpl. f_equal. apply minute_of_day.
Qed.

Lemma matches_parsed_window r t off s e :
  -86400 < off * 60 < 86400 → 0 <= t <= 253402300799 →
  matches_parsed r t off s e = xorb (outside r) (in_window r off s e t).
Proof.
  intros Ho Ht. unfold matches_parsed, in_window. rewrite civil_parts_law by done.
  assert (∀ w, existsb (λ d, match parse_weekday d with
      Some w' => bool_decide (w' = w) | None => false end) (days r) =
    existsb (λ d, bool_decide (parse_weekday d = Some w)) (days r)) as ->.
  { intros w. induction (days r) as [|d l IH]; simpl; [done|]. rewrite IH. f_equal.
    destruct (parse_weekday d); [|done]. apply bool_decide_ext. naive_solver. }
  destruct (is_empty (days r)), (existsb _ _), (outside r); simpl; try done;
    by destruct (is_inside_window _ s e).
Qed.

Lemma validate_parses r idx :
  validate r idx = Ok tt →
  ∃ off s e, parse_timezone_offset_minutes (timezone r) = Ok off ∧
    parse_hhmm (start r) = Ok s ∧ parse_hhmm (end_ r) = Ok e.
Proof.
  unfold validate. repeat (case_match; [done|]).
  cbv [mbind result_bind map_err].
  destruct (parse_hhmm (start r)) as [s|]; [|done].
  destruct (parse_hhmm (end_ r)) as [e|]; [|done].
  case_match; [done|].
  destruct (parse_timezone_offset_minutes (timezone r)) as [off|]; [|done]. eauto 10.
Qed.
End Facts.

(** A validated time rule never misfires: [validate] accepts only rules whose
    times and timezone parse, and for every instant up to year 9999 the rule
    then fires exactly when the local civil time is on a listed day and inside
    the daily window, or exactly when it is not if the rule is an [outside]
    rule. *)
Theorem time_rule_meaning `{ChronoLaws} r idx t :
  validate r idx = Ok tt → 0 <= t <= 253402300799 →
  ∃ off s e, parse_timezone_offset_minutes (timezone r) = Ok off ∧
    parse_hhmm (start r) = Ok s ∧ parse_hhmm (end_ r) = Ok e ∧
    -1440 < off < 1440 ∧ 0 <= s < 1440 ∧ 0 <= e < 1440 ∧
    matches_now r t = xorb (outside r) (in_window r off s e t).
Proof.
  intros Hv Ht. destruct (validate_parses r idx Hv) as (off & s & e & Ho & Hs & He).
  exists off, s, e. pose proof (parse_timezone_bound _ _ Ho).
  pose proof (parse_hhmm_bound _ _ Hs). pose proof (parse_hhmm_bound _ _ He).
  unfold matches_now. rewrite Ho, Hs, He. split_and!; try done; try lia.
  by apply matches_parsed_window.
Qed.

(** A clock that follows the calendar, with local time two hours east. *)
#[export] Instance toy_chrono : Chrono := {
  local_minus_utc := 7200;
  civil offset t := Some (civil_utc offset t);
  now_civil _ := (Mon, 0, 0)
}.

#[export] Instance toy_chrono_laws : ChronoLaws.
Proof. split; [simpl; lia|done]. Qed.

Definition toy_rule : SecurityTimeRuleConfig :=
  mkTimeRule ($"office hours") ($"deny") true [$"mon"; $"Friday"] ($"09:00") ($"18:30") ($"+01:00")
    [] [] [] ($"high_risk") [].

(** 2024-05-17 (a Friday) at 18:00 UTC is 19:00 at the rule's offset. *)
Lemma time_rule_meaning_witness :
  matches_now toy_rule 1715968800 = true ∧
  ∃ off s e, matches_now toy_rule 1715968800 = xorb true (in_window toy_rule off s e 1715968800).
Proof.
  split; [vm_compute; reflexivity|].
  destruct (time_rule_meaning toy_rule 0 1715968800) as (off & s & e & _ & _ & _ & _ & _ & _ & Hm).
  - vm_compute. reflexivity.
  - lia.
  - exists off, s, e. exact Hm.
Defined.

(** The daily window and its complement: for distinct bounds the window
    [start..end] and the window [end..start] partition the day, overnight
    windows included. *)
Theorem windows_partition m s e :
  s ≠ e → is_inside_window m e s = negb (is_inside_window m s e).
Proof.
  intros Hne. unfold is_inside_window.
  rewrite (proj2 (Z.eqb_neq s e)), (proj2 (Z.eqb_neq e s)) by lia.
  destruct (s <? e) eqn:E1, (e <? s) eqn:E2; bool_hyps; try lia;
    destruct (s <=? m) eqn:E3, (e <=? m) eqn:E4, (m <? e) eqn:E5, (m <? s) eqn:E6;
    bool_hyps; try done; lia.
Qed.

Lemma windows_partition_witness :
  is_inside_window 30 1320 360 = true ∧ is_inside_window 30 360 1320 = negb true.
Proof.
  split; [vm_compute; reflexivity|].
  apply (windows_partition 30 1320 360). lia.
Defined.

End TimeRules.
