(* ===== verification/DangerousSql.v ===== *)
(** * Dangerous statement classification ([gateway/core/src/dangerous_sql.rs])

    A tokenizer that skips comments and quoted text, and a classifier of the
    statements the gateway refuses.  The index loop of [sql_tokens] is modelled
    step by step; the inner [while] loops are recursions on the rest of the
    bytes that return how far the index moves. *)

From S2P Require Import Prelude RustStr Model.
Local Open Scope nat_scope.

Module DangerousSql.

Inductive UnsupportedSqlCapability :=
| PostgresCopyProgram
| PostgresCopyFile
| PostgresDo
| StoredProcedureCall
| MysqlLoadData
| MysqlOutfile
| PostgresMaintenance
| CrossDialectStatement
| PrivilegedCatalogSession.

#[export] Instance UnsupportedSqlCapability_eq_dec : EqDecision UnsupportedSqlCapability.
Proof. solve_decision. Defined.

Definition as_str (c : UnsupportedSqlCapability) : str :=
  match c with
  | PostgresCopyProgram => $"postgres.copy_program"
  | PostgresCopyFile => $"postgres.copy_file"
  | PostgresDo => $"postgres.do"
  | StoredProcedureCall => $"stored_procedure.call"
  | MysqlLoadData => $"mysql.load_data"
  | MysqlOutfile => $"mysql.outfile"
  | PostgresMaintenance => $"postgres.maintenance"
  | CrossDialectStatement => $"sql.cross_dialect"
  | PrivilegedCatalogSession => $"sql.privileged_catalog_session"
  end.

Definition from_code (value : str) : option UnsupportedSqlCapability :=
  if str_eqb value ($"postgres.copy_program") then Some PostgresCopyProgram
  else if str_eqb value ($"postgres.copy_file") then Some PostgresCopyFile
  else if str_eqb value ($"postgres.do") then Some PostgresDo
  else if str_eqb value ($"stored_procedure.call") then Some StoredProcedureCall
  else if str_eqb value ($"mysql.load_data") then Some MysqlLoadData
  else if str_eqb value ($"mysql.outfile") then Some MysqlOutfile
  else if str_eqb value ($"postgres.maintenance") then Some PostgresMaintenance
  else if str_eqb value ($"sql.cross_dialect") then Some CrossDialectStatement
  else if str_eqb value ($"sql.privileged_catalog_session") then Some PrivilegedCatalogSession
  else None.

(** ** Tokenizer *)

Definition is_word_byte (c : ascii) : bool :=
  is_ascii_alphanumeric c || Ascii.eqb c "_" || Ascii.eqb c "$".

Definition get_is (bytes : str) (i : nat) (c : ascii) : bool :=
  match bytes !! i with Some d => Ascii.eqb d c | None => false end.

Definition is_line_comment (bytes : str) (index : nat) (d : ProtocolKind) : bool :=
  if negb (get_is bytes (index + 1) "-") then false
  else protocol_eqb d PostgreSql
       || match bytes !! (index + 2) with
          | Some c => is_ascii_whitespace c || is_ascii_control c
          | None => true
          end.

Definition is_postgresql_escape_string (bytes : str) (quote : nat) : bool :=
  match quote with
  | O => false
  | S q1 =>
      (get_is bytes q1 "e" || get_is bytes q1 "E")
      && match q1 with
         | O => true
         | S q2 => match bytes !! q2 with Some c => negb (is_word_byte c) | None => true end
         end
  end.

(** How many bytes [skip_quoted] moves over. *)
Fixpoint skip_quoted_len (quote : ascii) (backslash : bool) (s : str) : nat :=
  match s with
  | [] => 0
  | c :: s' =>
      if backslash && Ascii.eqb c "\" then
        match s' with [] => 1 | _ :: s'' => 2 + skip_quoted_len quote backslash s'' end
      else if Ascii.eqb c quote then
        match s' with
        | d :: s'' => if Ascii.eqb d quote then 2 + skip_quoted_len quote backslash s'' else 1
        | [] => 1
        end
      else 1 + skip_quoted_len quote backslash s'
  end.

Definition skip_quoted (bytes : str) (index : nat) (quote : ascii) (backslash : bool) : nat :=
  index + skip_quoted_len quote backslash (drop index bytes).

(** The [while] of a block comment: the bytes before the closing marker. *)
Fixpoint block_comment_len (s : str) : nat :=
  match s with
  | c :: ((d :: _) as s') =>
      if Ascii.eqb c "*" && Ascii.eqb d "/" then 0 else 1 + block_comment_len s'
  | _ => 0
  end.

Definition line_comment_len (s : str) : nat :=
  length (take_while (λ c, negb (Ascii.eqb c "010")) s).

Definition dollar_quote_tag (bytes : str) (start : nat) : option (nat * str) :=
  let tag :=
    take_while (λ c, is_ascii_alphanumeric c || Ascii.eqb c "_") (drop (start + 1) bytes) in
  let e := start + 1 + length tag in
  if get_is bytes e "$" then Some (e + 1, take (e + 1 - start) (drop start bytes)) else None.

Definition find_bytes (haystack : str) (start : nat) (needle : str) : option nat :=
  (λ offset, start + offset) <$> find (drop start haystack) needle.

(** One iteration of the tokenizer at byte [b]: the pushed token, if any, and
    the next index. *)
Definition token_step (bytes : str) (d : ProtocolKind) (index : nat) (b : ascii)
    : option str * nat :=
  if is_ascii_whitespace b then (None, index + 1)
  else if Ascii.eqb b "-" && is_line_comment bytes index d then
    (None, index + 2 + line_comment_len (drop (index + 2) bytes))
  else if Ascii.eqb b "#" && protocol_eqb d MySql then
    (None, index + 1 + line_comment_len (drop (index + 1) bytes))
  else if Ascii.eqb b "/" && get_is bytes (index + 1) "*" then
    (None, Nat.min (index + 2 + block_comment_len (drop (index + 2) bytes) + 2) (length bytes))
  else if Ascii.eqb b "'" then
    let backslash := protocol_eqb d MySql || is_postgresql_escape_string bytes index in
    (Some ($"<LITERAL>"), skip_quoted bytes (index + 1) "'" backslash)
  else if Ascii.eqb b dquote then (None, skip_quoted bytes (index + 1) dquote false)
  else if Ascii.eqb b "`" then
    (Some ($"<BACKTICK_IDENT>"), skip_quoted bytes (index + 1) "`" false)
  else
    match (if Ascii.eqb b "$" && protocol_eqb d PostgreSql
           then dollar_quote_tag bytes index else None) with
    | Some (body, tag) =>
        (Some ($"<LITERAL>"),
         match find_bytes bytes body tag with
         | Some e => e + length tag
         | None => length bytes
         end)
    | None =>
        if Ascii.eqb b ":" && get_is bytes (index + 1) ":" then (Some ($"::"), index + 2)
        else if Ascii.eqb b ";" then (Some ($";"), index + 1)
        else if is_ascii_alphabetic b || Ascii.eqb b "_" then
          let word := take_while is_word_byte (drop (index + 1) bytes) in
          (Some (to_ascii_uppercase (b :: word)), index + 1 + length word)
        else (None, index + 1)
    end.

(** The [while index < bytes.len()] loop; [None] is fuel exhaustion. *)
Fixpoint sql_tokens_loop (fuel : nat) (bytes : str) (d : ProtocolKind) (index : nat)
    : option (list str) :=
  match bytes !! index with
  | None => Some []
  | Some b =>
      match fuel with
      | O => None
      | S fuel' =>
          let '(token, index') := token_step bytes d index b in
          rest ← sql_tokens_loop fuel' bytes d index';
          Some (match token with Some t => t :: rest | None => rest end)
      end
  end.

Definition sql_tokens (sql : str) (d : ProtocolKind) : list str :=
  default [] (sql_tokens_loop (length sql) sql d 0).

(** ** Classifier *)

Fixpoint split_statements (tokens : list str) : list (list str) :=
  match tokens with
  | [] => [[]]
  | t :: ts =>
      if str_eqb t ($";") then [] :: split_statements ts
      else match split_statements ts with
           | p :: ps => (t :: p) :: ps
           | [] => [[t]]
           end
  end.

Fixpoint tokens_start_with (ts ps : list str) : bool :=
  match ps, ts with
  | [], _ => true
  | p :: ps', t :: ts' => str_eqb t p && tokens_start_with ts' ps'
  | _ :: _, [] => false
  end.

(** [tokens.windows(2).any(|pair| f(pair[0], pair[1]))]. *)
Fixpoint any_pair (f : str → str → bool) (ts : list str) : bool :=
  match ts with
  | a :: ((b :: _) as ts') => f a b || any_pair f ts'
  | _ => false
  end.

Definition any_token (t : str) (ts : list str) : bool := existsb (λ u, str_eqb u t) ts.

Definition is_cross_dialect (tokens : list str) (d : ProtocolKind) : bool :=
  match d with
  | MySql => any_token ($"::") tokens
  | PostgreSql =>
      any_token ($"<BACKTICK_IDENT>") tokens || tokens_start_with tokens [$"SHOW"; $"TABLES"]
  end.

Definition is_privileged_catalog_or_session (tokens : list str) (d : ProtocolKind) : bool :=
  match d with
  | MySql =>
      tokens_start_with tokens [$"SET"; $"GLOBAL"]
      || tokens_start_with tokens [$"SET"; $"PERSIST"]
      || tokens_start_with tokens [$"SET"; $"PERSIST_ONLY"]
      || any_pair (λ a b, str_eqb a ($"MYSQL") && str_eqb b ($"USER")) tokens
  | PostgreSql =>
      tokens_start_with tokens [$"ALTER"; $"SYSTEM"]
      || tokens_start_with tokens [$"SET"; $"SESSION"; $"AUTHORIZATION"]
      || tokens_start_with tokens [$"SET"; $"ROLE"]
      || existsb (one_of [$"PG_AUTHID"; $"PG_SHADOW"]) tokens
  end.

(** The body of the statement loop of [classify_dangerous_sql] on a non-empty
    statement [t0 :: ts]. *)
Definition classify_statement (d : ProtocolKind) (t0 : str) (ts : list str)
    : option UnsupportedSqlCapability :=
  let statement := t0 :: ts in
  let pg := protocol_eqb d PostgreSql in
  let my := protocol_eqb d MySql in
  let copy := str_eqb t0 ($"COPY") && pg in
  if copy && any_token ($"PROGRAM") statement then Some PostgresCopyProgram
  else if copy && any_pair (λ a b, one_of [$"FROM"; $"TO"] a && str_eqb b ($"<LITERAL>")) statement
  then Some PostgresCopyFile
  else if str_eqb t0 ($"DO") && pg then Some PostgresDo
  else if str_eqb t0 ($"CALL") then Some StoredProcedureCall
  else if tokens_start_with statement [$"LOAD"; $"DATA"] && my then Some MysqlLoadData
  else if any_pair (λ a b, str_eqb a ($"INTO") && one_of [$"OUTFILE"; $"DUMPFILE"] b) statement && my
  then Some MysqlOutfile
  else if one_of [$"VACUUM"; $"ANALYZE"] t0 && pg then Some PostgresMaintenance
  else if is_cross_dialect statement d then Some CrossDialectStatement
  else if is_privileged_catalog_or_session statement d then Some PrivilegedCatalogSession
  else None.

Fixpoint classify_statements (d : ProtocolKind) (l : list (list str))
    : option UnsupportedSqlCapability :=
  match l with
  | [] => None
  | [] :: l' => classify_statements d l'
  | (t0 :: ts) :: l' =>
      match classify_statement d t0 ts with
      | Some c => Some c
      | None => classify_statements d l'
      end
  end.

Definition classify_dangerous_sql (sql : str) (d : ProtocolKind)
    : option UnsupportedSqlCapability :=
  classify_statements d (split_statements (sql_tokens sql d)).

(** ** Progress: every iteration moves the index forward *)

Lemma get_is_lt bytes i c : get_is bytes i c = true → i < length bytes.
Proof. unfold get_is. case_match eqn:E; [|done]. intros _. by eapply lookup_lt_Some. Qed.

Lemma dollar_quote_tag_lt bytes start body tag :
  dollar_quote_tag bytes start = Some (body, tag) → start + 1 < body ≤ length bytes.
Proof.
  unfold dollar_quote_tag. case_match eqn:E; [|done]. apply get_is_lt in E.
  intros [= <- _]. lia.
Qed.

Lemma find_bytes_ge bytes start needle e : find_bytes bytes start needle = Some e → start ≤ e.
Proof. unfold find_bytes. destruct (find _ _); [|done]. intros [= <-]. lia. Qed.

Lemma token_step_progress bytes d index b :
  bytes !! index = Some b → index < (token_step bytes d index b).2.
Proof.
  intros Hb%lookup_lt_Some. unfold token_step, skip_quoted.
  repeat match goal with
  | |- context [if ?c then (_, _) else _] => destruct c eqn:?; [simpl; try lia; bool_hyps;
      try match goal with H : get_is _ _ _ = true |- _ => apply get_is_lt in H end; lia|]
  end.
  destruct (if _ && _ then _ else None) as [[body tag]|] eqn:E.
  - assert (dollar_quote_tag bytes index = Some (body, tag)) as Ed by (revert E; by case_match).
    apply dollar_quote_tag_lt in Ed. simpl.
    destruct (find_bytes bytes body tag) eqn:Ef; [apply find_bytes_ge in Ef|]; lia.
  - repeat match goal with
    | |- context [if ?c then (_, _) else _] => destruct c; [simpl; lia|]
    | |- context [if ?c then _ else (_, _)] => destruct c
    end; simpl; lia.
Qed.

Lemma sql_tokens_loop_total fuel bytes d index :
  length bytes - index ≤ fuel → is_Some (sql_tokens_loop fuel bytes d index).
Proof.
  revert index. induction fuel as [|fuel IH]; intros index Hf; simpl.
  - rewrite (proj2 (lookup_ge_None bytes index)) by lia. by eexists.
  - destruct (bytes !! index) as [b|] eqn:Hb; [|by eexists].
    pose proof (token_step_progress bytes d index b Hb) as Hp.
    apply lookup_lt_Some in Hb.
    destruct (token_step bytes d index b) as [t index'] eqn:Et. simpl in Hp.
    destruct (IH index') as [r Hr]; [lia|]. rewrite Hr. simpl. by eexists.
Qed.

Lemma sql_tokens_loop_mono fuel fuel' bytes d index r :
  fuel ≤ fuel' → sql_tokens_loop fuel bytes d index = Some r →
  sql_tokens_loop fuel' bytes d index = Some r.
Proof.
  revert fuel' index r. induction fuel as [|fuel IH]; intros fuel' index r Hle; simpl.
  - destruct (bytes !! index) eqn:Hb; [done|]. intros [= <-].
    destruct fuel'; simpl; by rewrite Hb.
  - destruct fuel' as [|fuel']; [lia|]. simpl.
    destruct (bytes !! index) as [b|]; [|done].
    destruct (token_step bytes d index b) as [t index'].
    destruct (sql_tokens_loop fuel bytes d index') as [rest|] eqn:E; [|done]. simpl.
    intros [= <-]. by rewrite (IH fuel' index' rest) by (done || lia).
Qed.

Lemma sql_tokens_spec bytes d fuel :
  length bytes ≤ fuel → sql_tokens_loop fuel bytes d 0 = Some (sql_tokens bytes d).
Proof.
  intros Hf. destruct (sql_tokens_loop_total (length bytes) bytes d 0) as [r Hr]; [lia|].
  unfold sql_tokens. rewrite Hr. simpl. by eapply sql_tokens_loop_mono.
Qed.

(** ** ASCII case does not matter *)

(** A byte test that gives the same answer on a byte and its upper case. *)
Definition caseless (f : ascii → bool) : Prop := ∀ c, f (to_upper c) = f c.

Ltac caseless := intros c; byte_cases c.

Lemma whitespace_caseless : caseless is_ascii_whitespace. Proof. caseless. Qed.
Lemma word_caseless : caseless is_word_byte. Proof. caseless. Qed.

(** The punctuation bytes the tokenizer tests for. *)
Definition punct : list ascii :=
  ["-"; "#"; "/"; "*"; "'"; dquote; "`"; "$"; ":"; ";"; "_"; "\"]%char.

Lemma punct_caseless q : q ∈ punct → caseless (λ c, Ascii.eqb c q).
Proof.
  intros Hq c. assert (forallb (λ q, Bool.eqb (Ascii.eqb (to_upper c) q) (Ascii.eqb c q)) punct = true)
    as H by byte_cases c.
  eapply forallb_elem in H; [|done]. by apply eqb_prop.
Qed.

Lemma take_while_caseless f s :
  caseless f → take_while f (to_ascii_uppercase s) = to_ascii_uppercase (take_while f s).
Proof.
  intros Hf. induction s as [|c s IH]; simpl; [done|]. rewrite Hf.
  destruct (f c); simpl; [by rewrite IH|done].
Qed.

Lemma length_uppercase s : length (to_ascii_uppercase s) = length s.
Proof. apply length_map. Qed.

Lemma lookup_uppercase s i : to_ascii_uppercase s !! i = to_upper <$> (s !! i).
Proof. unfold to_ascii_uppercase. apply list_lookup_fmap. Qed.

Lemma get_is_uppercase s i q : q ∈ punct → get_is (to_ascii_uppercase s) i q = get_is s i q.
Proof.
  intros Hq. unfold get_is. rewrite lookup_uppercase. destruct (s !! i); [|done].
  by apply punct_caseless.
Qed.

Lemma skip_quoted_len_uppercase q bs s :
  q ∈ punct → skip_quoted_len q bs (to_ascii_uppercase s) = skip_quoted_len q bs s.
Proof.
  intros Hq. remember (length s) as n eqn:Hn. revert s Hn.
  induction n as [n IH] using lt_wf_ind. intros [|c s] Hn; [done|].
  cbn [to_ascii_uppercase map skip_quoted_len]. fold (to_ascii_uppercase s).
  rewrite (punct_caseless "\") by (unfold punct; set_solver).
  rewrite (punct_caseless q) by done. simpl in Hn.
  destruct (bs && _).
  { destruct s as [|e s]; simpl; [done|]. do 2 f_equal. eapply IH; [|done]. simpl in *. lia. }
  destruct (Ascii.eqb c q).
  { destruct s as [|e s]; simpl; [done|]. rewrite (punct_caseless q) by done.
    destruct (Ascii.eqb e q); [|reflexivity]. do 2 f_equal. eapply IH; [|done]. simpl in *. lia. }
  f_equal. eapply IH; [|done]. lia.
Qed.

Lemma block_comment_len_uppercase s :
  block_comment_len (to_ascii_uppercase s) = block_comment_len s.
Proof.
  induction s as [|c s IH]; [done|]. destruct s as [|d s]; [done|].
  cbn [to_ascii_uppercase map block_comment_len] in *.
  rewrite (punct_caseless "*"), (punct_caseless "/") by (unfold punct; set_solver).
  destruct (Ascii.eqb c "*" && Ascii.eqb d "/"); [reflexivity|]. f_equal. exact IH.
Qed.

Lemma line_comment_len_uppercase s :
  line_comment_len (to_ascii_uppercase s) = line_comment_len s.
Proof.
  unfold line_comment_len. rewrite take_while_caseless; [by rewrite length_uppercase|]. caseless.
Qed.

Lemma is_line_comment_uppercase s i d :
  is_line_comment (to_ascii_uppercase s) i d = is_line_comment s i d.
Proof.
  unfold is_line_comment. rewrite get_is_uppercase by (unfold punct; set_solver).
  rewrite lookup_uppercase. destruct (s !! (i + 2)) as [c|]; [|done]. simpl.
  do 2 f_equal. byte_cases c.
Qed.

Lemma is_escape_uppercase s i :
  is_postgresql_escape_string (to_ascii_uppercase s) i = is_postgresql_escape_string s i.
Proof.
  unfold is_postgresql_escape_string, get_is. destruct i as [|i]; [done|].
  rewrite lookup_uppercase. f_equal.
  - destruct (s !! i) as [c|]; [|done]. simpl. byte_cases c.
  - destruct i as [|i]; [done|]. rewrite lookup_uppercase.
    destruct (s !! i); [|done]. simpl. by rewrite word_caseless.
Qed.

Lemma token_step_uppercase s d i b :
  d = MySql ∨ b ≠ "$"%char →
  token_step (to_ascii_uppercase s) d i (to_upper b) = token_step s d i b.
Proof.
  intros Hd. unfold token_step, skip_quoted.
  rewrite whitespace_caseless, is_line_comment_uppercase, is_escape_uppercase.
  rewrite !drop_uppercase, !line_comment_len_uppercase, block_comment_len_uppercase, length_uppercase.
  rewrite !skip_quoted_len_uppercase by (unfold punct; set_solver).
  rewrite !get_is_uppercase by (unfold punct; set_solver).
  rewrite (punct_caseless "-"), (punct_caseless "#"), (punct_caseless "/"), (punct_caseless "'"),
    (punct_caseless dquote), (punct_caseless "`"), (punct_caseless "$"), (punct_caseless ":"),
    (punct_caseless ";"), (punct_caseless "_") by (unfold punct; set_solver).
  assert (Ascii.eqb b "$" && protocol_eqb d PostgreSql = false) as ->.
  { destruct Hd as [->|Hb%Ascii.eqb_neq]; [apply andb_false_r|by rewrite Hb]. }
  rewrite take_while_caseless by apply word_caseless.
  rewrite length_uppercase. change (to_upper b :: to_ascii_uppercase ?w) with (to_ascii_uppercase (b :: w)).
  rewrite uppercase_uppercase.
  assert (is_ascii_alphabetic (to_upper b) = is_ascii_alphabetic b) as -> by byte_cases b.
  done.
Qed.

Lemma sql_tokens_uppercase s d :
  d = MySql ∨ "$"%char ∉ s → sql_tokens (to_ascii_uppercase s) d = sql_tokens s d.
Proof.
  intros Hd. unfold sql_tokens. rewrite length_uppercase. f_equal.
  generalize (length s), 0. intros fuel. induction fuel as [|fuel IH]; intros i; simpl;
    rewrite lookup_uppercase; destruct (s !! i) as [b|] eqn:Hb; simpl; try done.
  rewrite token_step_uppercase.
  - destruct (token_step s d i b). by rewrite IH.
  - destruct Hd as [?|Hd]; [by left|]. right. intros ->. apply Hd. by eapply list_elem_of_lookup_2.
Qed.

(** ** Comments and literals are opaque *)

Definition last_quiet (p : str) : Prop := ∀ c, last p = Some c → is_word_byte c = false.

Lemma is_escape_shift p s i :
  last_quiet p →
  is_postgresql_escape_string (p ++ s) (length p + i) = is_postgresql_escape_string s i.
Proof.
  intros Hq. destruct (decide (p = [])) as [->|Hp]; [done|].
  destruct (last p) as [l|] eqn:El; [|by apply last_None in El].
  specialize (Hq l El). apply last_Some in El as [p' ->]. rewrite length_app. simpl.
  assert (∀ k, ((p' ++ [l]) ++ s) !! (S (length p' + k)) = s !! k) as Hk.
  { intros k. rewrite lookup_app_r by (rewrite length_app; simpl; lia).
    rewrite length_app. f_equal. simpl. lia. }
  assert (((p' ++ [l]) ++ s) !! (length p') = Some l) as Hl.
  { rewrite <-app_assoc. by apply list_lookup_middle. }
  destruct i as [|[|i]].
  - replace (length p' + 1 + 0) with (S (length p')) by lia.
    unfold is_postgresql_escape_string, get_is. rewrite Hl.
    assert (Ascii.eqb l "e" || Ascii.eqb l "E" = false) as -> by (revert Hq; byte_cases l). done.
  - replace (length p' + 1 + 1) with (S (S (length p' + 0))) by lia.
    unfold is_postgresql_escape_string, get_is. rewrite Hk, Nat.add_0_r, Hl, Hq. done.
  - replace (length p' + 1 + S (S i)) with (S (S (S (length p' + i)))) by lia.
    unfold is_postgresql_escape_string, get_is.
    replace (S (S (length p' + i))) with (S (length p' + S i)) by lia. by rewrite !Hk.
Qed.

Lemma drop_shift {A} (p s : list A) i : drop (length p + i) (p ++ s) = drop i s.
Proof. by rewrite <-drop_drop, drop_app_length. Qed.

Lemma lookup_shift {A} (p s : list A) i : (p ++ s) !! (length p + i) = s !! i.
Proof. rewrite lookup_app_r by lia. f_equal. lia. Qed.

Lemma dollar_quote_tag_shift p s i :
  dollar_quote_tag (p ++ s) (length p + i) =
  (λ '(body, tag), (length p + body, tag)) <$> dollar_quote_tag s i.
Proof.
  unfold dollar_quote_tag, get_is. cbv zeta.
  replace (length p + i + 1) with (length p + (i + 1)) by lia. rewrite !drop_shift.
  set (tag := take_while _ (drop (i + 1) s)).
  replace (length p + (i + 1) + length tag) with (length p + (i + 1 + length tag)) by lia.
  rewrite lookup_shift.
  replace (length p + (i + 1 + length tag) + 1 - (length p + i))
    with (i + 1 + length tag + 1 - i) by lia.
  destruct (s !! (i + 1 + length tag)) as [c|]; [|done].
  destruct (Ascii.eqb c "$"); [|done]. simpl. f_equal. f_equal. lia.
Qed.

Lemma find_bytes_shift p s i needle :
  find_bytes (p ++ s) (length p + i) needle = (λ e, length p + e) <$> find_bytes s i needle.
Proof.
  unfold find_bytes. rewrite drop_shift. destruct (find _ _); [|done]. simpl. f_equal. lia.
Qed.

Lemma token_step_shift p s d i b :
  last_quiet p →
  token_step (p ++ s) d (length p + i) b =
  (λ '(t, j), (t, length p + j)) (token_step s d i b).
Proof.
  intros Hq. unfold token_step, skip_quoted.
  rewrite (is_escape_shift p s i Hq).
  assert (is_line_comment (p ++ s) (length p + i) d = is_line_comment s i d) as ->.
  { unfold is_line_comment, get_is. by rewrite <-!(Nat.add_assoc (length p)), !lookup_shift. }
  rewrite <-!(Nat.add_assoc (length p)), !drop_shift, dollar_quote_tag_shift.
  assert (∀ k c, get_is (p ++ s) (length p + k) c = get_is s k c) as Hget.
  { intros k c. unfold get_is. by rewrite lookup_shift. }
  rewrite !Hget, length_app.
  repeat match goal with
  | |- context [if ?c then (_, _) else _] => destruct c; [simpl; f_equal; lia|]
  end.
  destruct (Ascii.eqb b "$" && protocol_eqb d PostgreSql).
  - destruct (dollar_quote_tag s i) as [[body tag]|]; simpl.
    + rewrite find_bytes_shift. destruct (find_bytes s body tag); simpl; f_equal; lia.
    + repeat match goal with |- context [if ?c then _ else _] => destruct c end; simpl; f_equal; lia.
  - repeat match goal with |- context [if ?c then _ else _] => destruct c end; simpl; f_equal; lia.
Qed.

Lemma sql_tokens_loop_shift fuel p s d i :
  last_quiet p → sql_tokens_loop fuel (p ++ s) d (length p + i) = sql_tokens_loop fuel s d i.
Proof.
  intros Hq. revert i. induction fuel as [|fuel IH]; intros i; simpl; rewrite lookup_shift;
    destruct (s !! i) as [b|]; try done.
  rewrite token_step_shift by done. destruct (token_step s d i b) as [t j]. by rewrite IH.
Qed.

(** If the first step skips exactly the prefix [p], tokenizing goes on with
    the rest as if it stood alone. *)
Lemma sql_tokens_skip_prefix p b s d t :
  p = b :: tail p → last_quiet p → token_step (p ++ s) d 0 b = (t, length p) →
  sql_tokens (p ++ s) d = match t with Some t => t :: sql_tokens s d | None => sql_tokens s d end.
Proof.
  intros Hp Hq Hst.
  pose proof (sql_tokens_spec (p ++ s) d (S (length s + length p))) as Hspec.
  rewrite length_app in Hspec. specialize (Hspec ltac:(lia)). apply Some_inj. rewrite <-Hspec.
  cbn [sql_tokens_loop]. assert ((p ++ s) !! 0 = Some b) as -> by (by rewrite Hp).
  rewrite Hst. replace (length p) with (length p + 0) by lia.
  rewrite sql_tokens_loop_shift by done. rewrite sql_tokens_spec by lia. done.
Qed.

Lemma block_comment_len_find c s :
  find (c ++ $"*/") ($"*/") = Some (length c) → block_comment_len (c ++ $"*/" ++ s) = length c.
Proof.
  induction c as [|x c IH]; [done|]. intros Hf. cbn [app] in *.
  cbn [find] in Hf. destruct (starts_with (x :: c ++ $"*/") ($"*/")) eqn:E; [done|].
  destruct (find (c ++ $"*/") ($"*/")) as [k|] eqn:Ek; [|done]. injection Hf as ->.
  specialize (IH eq_refl).
  assert (∃ y r, c ++ $"*/" ++ s = y :: r ∧
    starts_with (x :: c ++ $"*/") ($"*/") = Ascii.eqb x "*" && Ascii.eqb y "/") as (y & r & Er & Es).
  { destruct c as [|y c]; eexists _, _; (split; [reflexivity|]);
      cbn [app starts_with String.list_ascii_of_string]; by rewrite andb_true_r. }
  rewrite E in Es. rewrite Er in *. cbn [block_comment_len]. rewrite <-Es. simpl. by f_equal.
Qed.

Lemma sql_tokens_block_comment c s d :
  find (c ++ $"*/") ($"*/") = Some (length c) →
  sql_tokens ($"/*" ++ c ++ $"*/" ++ s) d = sql_tokens s d.
Proof.
  intros Hc. assert ($"/*" ++ c ++ $"*/" ++ s = ($"/*" ++ c ++ $"*/") ++ s) as E
    by (by rewrite <-!app_assoc).
  rewrite E. rewrite (sql_tokens_skip_prefix ($"/*" ++ c ++ $"*/") "/" s d None); try done.
  - intros x. rewrite app_assoc, last_app. simpl. intros [= <-]. done.
  - rewrite <-E. unfold token_step. simpl andb. cbn [is_ascii_whitespace].
    change (is_ascii_whitespace "/") with false. cbv iota.
    change (drop (0 + 2) ($"/*" ++ c ++ $"*/" ++ s)) with (c ++ $"*/" ++ s).
    rewrite block_comment_len_find by done. simpl. f_equal.
    rewrite !length_app. simpl. lia.
Qed.

Lemma skip_quoted_len_plain q bs body s :
  Ascii.eqb q "\" = false →
  forallb (λ c, negb (Ascii.eqb c q) && negb (Ascii.eqb c "\")) body = true →
  head s ≠ Some q →
  skip_quoted_len q bs (body ++ q :: s) = S (length body).
Proof.
  intros Hq Hb Hs. induction body as [|c body IH]; cbn [app skip_quoted_len length].
  - rewrite Hq, andb_false_r, Ascii.eqb_refl. destruct s as [|d s]; [done|].
    destruct (Ascii.eqb_spec d q) as [->|]; [done|]. done.
  - cbn [forallb] in Hb. bool_hyps. rewrite H, H1, andb_false_r, IH by done. done.
Qed.

Lemma sql_tokens_literal body s d :
  forallb (λ c, negb (Ascii.eqb c "'") && negb (Ascii.eqb c "\")) body = true →
  head s ≠ Some "'"%char →
  sql_tokens ($"'" ++ body ++ $"'" ++ s) d = $"<LITERAL>" :: sql_tokens s d.
Proof.
  intros Hb Hs. assert ($"'" ++ body ++ $"'" ++ s = ($"'" ++ body ++ $"'") ++ s) as E
    by (by rewrite <-!app_assoc).
  rewrite E. rewrite (sql_tokens_skip_prefix ($"'" ++ body ++ $"'") "'" s d (Some ($"<LITERAL>")));
    try done.
  - intros x. rewrite app_assoc, last_app. simpl. intros [= <-]. done.
  - rewrite <-E. unfold token_step, skip_quoted. simpl andb.
    change (is_ascii_whitespace "'") with false. cbv iota.
    change (Ascii.eqb "'" "'") with true. cbv iota.
    change (drop (0 + 1) ($"'" ++ body ++ $"'" ++ s)) with (body ++ "'"%char :: s).
    rewrite skip_quoted_len_plain by done. f_equal.
    rewrite !length_app. simpl. lia.
Qed.


Lemma classify_statements_none d l :
  classify_statements d l = None ↔
  ∀ t0 ts, (t0 :: ts) ∈ l → classify_statement d t0 ts = None.
Proof.
  induction l as [|[|t0 ts] l IH]; cbn [classify_statements].
  - split; [set_solver|done].
  - rewrite IH. set_solver.
  - destruct (classify_statement d t0 ts) eqn:E.
    + split; [done|]. intros Hl. rewrite <-E. apply Hl. left.
    + rewrite IH. split.
      * intros Hl t1 ts1 [[= -> ->]|Hin]%elem_of_cons; [done|]. by apply Hl.
      * intros Hl t1 ts1 Hin. apply Hl. by right.
Qed.

(** The classifier reads every byte and every statement: the tokenizer
    terminates (each turn moves forward, so the length of the text is fuel
    enough), and a text is let through only if each of its statements is. *)
Theorem classify_whole_batch sql d :
  is_Some (sql_tokens_loop (length sql) sql d 0) ∧
  (classify_dangerous_sql sql d = None ↔
   ∀ t0 ts, (t0 :: ts) ∈ split_statements (sql_tokens sql d) → classify_statement d t0 ts = None).
Proof.
  split; [apply sql_tokens_loop_total; lia|]. apply classify_statements_none.
Qed.

(** Writing a statement in another letter case does not change its
    classification.  (PostgreSQL dollar-quote tags are case-sensitive, so there
    the text must not contain a dollar sign.) *)
Theorem classify_ignores_case sql d :
  d = MySql ∨ "$"%char ∉ sql →
  classify_dangerous_sql (to_ascii_uppercase sql) d = classify_dangerous_sql sql d.
Proof. intros Hd. unfold classify_dangerous_sql. by rewrite sql_tokens_uppercase. Qed.

Lemma classify_ignores_case_witness :
  classify_dangerous_sql ($"CALL P()") PostgreSql = classify_dangerous_sql ($"caLL p()") PostgreSql ∧
  classify_dangerous_sql ($"caLL p()") PostgreSql = Some StoredProcedureCall.
Proof.
  split; [|vm_compute; reflexivity].
  apply (classify_ignores_case ($"caLL p()") PostgreSql). right.
  vm_compute. set_solver.
Defined.

(** A block comment before a statement cannot hide it: the classification is
    that of the statement without the comment. *)
Theorem classify_skips_comment c sql d :
  find (c ++ $"*/") ($"*/") = Some (length c) →
  classify_dangerous_sql ($"/*" ++ c ++ $"*/" ++ sql) d = classify_dangerous_sql sql d.
Proof. intros Hc. unfold classify_dangerous_sql. by rewrite sql_tokens_block_comment. Qed.

Lemma classify_skips_comment_witness :
  classify_dangerous_sql ($"/* x; 'y */LOAD DATA INFILE 'f' INTO TABLE t") MySql =
  classify_dangerous_sql ($"LOAD DATA INFILE 'f' INTO TABLE t") MySql ∧
  classify_dangerous_sql ($"LOAD DATA INFILE 'f' INTO TABLE t") MySql = Some MysqlLoadData.
Proof.
  split; [|vm_compute; reflexivity].
  apply (classify_skips_comment ($" x; 'y ") ($"LOAD DATA INFILE 'f' INTO TABLE t") MySql).
  vm_compute. reflexivity.
Defined.

(** A MySQL string in double quotes with an escaped quote, and an executable
    comment: both hide the export from the classifier. *)
Example outfile_hidden :
  classify_dangerous_sql ($"SELECT 1 INTO OUTFILE 'f'") MySql = Some MysqlOutfile ∧
  classify_dangerous_sql ($"SELECT 1 /*! INTO OUTFILE 'f' */") MySql = None ∧
  classify_dangerous_sql
    ($"SELECT " ++ [dquote; "a"%char; "\"%char; dquote; dquote] ++ $" INTO OUTFILE "
     ++ [dquote; "f"%char; dquote]) MySql = None.
Proof. split_and!; vm_compute; reflexivity. Qed.

End DangerousSql.
