(* ===== verification/StateCrypto.v ===== *)
(** * Sealed state files ([gateway/core/src/state_crypto.rs])

    The envelope [MAGIC ++ base64(nonce) ++ ":" ++ base64(ciphertext)] of the
    ticket and vault files.  AES-256-GCM and base64 are third-party crates and
    parameters here. *)

From S2P Require Import Prelude RustStr.

Module StateCrypto.

Class Crypto := {
  aes_encrypt : str → str → str → result str str;  (** key, nonce, plaintext *)
  aes_decrypt : str → str → str → result str str;  (** key, nonce, ciphertext *)
  b64_encode : str → str;
  b64_decode : str → result str str
}.

Definition hex_val (c : ascii) : Z :=
  let n := Z.of_N (N_of_ascii c) in
  if n <=? 57 then n - 48 else if n <=? 70 then n - 55 else n - 87.

Fixpoint hex_bytes (s : str) : str :=
  match s with
  | a :: b :: s' => ascii_of_N (Z.to_N (hex_val a * 16 + hex_val b)) :: hex_bytes s'
  | _ => []
  end.

Definition parse_encrypt_key (hex : str) : result str (option str) :=
  let hex := trim hex in
  if is_empty hex then Ok None
  else if negb (length hex =? 64)%nat || negb (forallb is_ascii_hexdigit hex) then
    Err ($"encrypt key must be empty or 64 hex characters (32-byte AES key)")
  else Ok (Some (hex_bytes hex)).

(** [u64::to_le_bytes], and its first [k] bytes. *)
Fixpoint to_le_bytes (k : nat) (n : Z) : str :=
  match k with
  | O => []
  | S k' => ascii_of_N (Z.to_N (n mod 256)) :: to_le_bytes k' (n / 256)
  end.

Definition simple_nonce (seed : Z) : Z :=
  Z.lxor (u64_wrap (seed * 11400714819323198485)) 3735928559.

(** The two [now_ms()] readings are arguments. *)
Definition nonce_bytes (now1 now2 : Z) : str :=
  to_le_bytes 8 now1 ++ to_le_bytes 4 (simple_nonce now2).

Section Envelope.
Context `{Crypto}.

Definition encrypt_blob (now1 now2 : Z) (magic key plain : str) : result str str :=
  let nonce := nonce_bytes now1 now2 in
  ct ← map_err (λ e, $"state encrypt: " ++ e) (aes_encrypt key nonce plain);
  Ok (magic ++ b64_encode nonce ++ $":" ++ b64_encode ct).

(** [body.split_once(':')]. *)
Definition split_once (c : ascii) (s : str) : option (str * str) :=
  match position (Ascii.eqb c) s with
  | Some i => Some (take i s, drop (S i) s)
  | None => None
  end.

Definition decrypt_blob (key body : str) : result str str :=
  '(n_b64, c_b64) ← ok_or ($"ciphertext missing nonce separator") (split_once ":" body);
  nonce ← map_err (λ e, $"nonce b64: " ++ e) (b64_decode (trim n_b64));
  if negb (length nonce =? 12)%nat then
    Err ($"nonce must be 12 bytes, got " ++ dec (Z.of_nat (length nonce)))
  else
    ct ← map_err (λ e, $"ciphertext b64: " ++ e) (b64_decode (trim c_b64));
    map_err (λ e, $"decrypt failed (wrong key?): " ++ e) (aes_decrypt key nonce ct).

Definition decode_maybe_encrypted (magic raw : str) (key : option str) : result str str :=
  let raw := trim raw in
  match strip_prefix raw magic with
  | Some rest =>
      key ← ok_or ($"file is encrypted (" ++ magic ++ $"…) but encrypt key is not set") key;
      decrypt_blob key rest
  | None => Ok raw
  end.
End Envelope.

(** The documented behaviour of the crates: base64 text is drawn from a
    printable alphabet without [:] and decodes to what was encoded; decryption
    inverts encryption under the same key and nonce. *)
Class CryptoLaws `{Crypto} : Prop := {
  b64_alphabet s : forallb (λ c, solid c && negb (Ascii.eqb c ":")) (b64_encode s) = true;
  b64_roundtrip s : b64_decode (b64_encode s) = Ok s;
  aes_roundtrip key nonce plain ct :
    aes_encrypt key nonce plain = Ok ct → aes_decrypt key nonce ct = Ok plain
}.

(** ** Facts *)

Lemma length_to_le_bytes k n : length (to_le_bytes k n) = k.
Proof. revert n. induction k; intros; simpl; auto. Qed.

Lemma length_nonce_bytes a b : length (nonce_bytes a b) = 12%nat.
Proof. unfold nonce_bytes. by rewrite length_app, !length_to_le_bytes. Qed.

Lemma split_once_app c s t : c ∉ s → split_once c (s ++ c :: t) = Some (s, t).
Proof.
  intros Hs. unfold split_once.
  assert (position (Ascii.eqb c) (s ++ c :: t) = Some (length s)) as ->.
  { induction s as [|d s IH]; simpl; [by rewrite Ascii.eqb_refl|].
    apply not_elem_of_cons in Hs as [Hd Hs]. rewrite IH by done.
    destruct (Ascii.eqb_spec c d); [congruence|done]. }
  rewrite take_app_length, <-Nat.add_1_r, <-drop_drop, drop_app_length. done.
Qed.

Section Facts.
Context `{CryptoLaws}.

Lemma b64_solid s : forallb solid (b64_encode s) = true.
Proof.
  pose proof (b64_alphabet s) as Ha. rewrite forallb_elem in *. intros x Hx.
  by apply Ha, andb_true_iff in Hx as [? _].
Qed.

Lemma b64_no_colon s : ":"%char ∉ b64_encode s.
Proof.
  intros Hx. pose proof (b64_alphabet s) as Ha. rewrite forallb_elem in Ha.
  by apply Ha, andb_true_iff in Hx as [_ ?].
Qed.

Lemma decrypt_encrypt_blob key a b plain ct :
  aes_encrypt key (nonce_bytes a b) plain = Ok ct →
  decrypt_blob key (b64_encode (nonce_bytes a b) ++ $":" ++ b64_encode ct) = Ok plain.
Proof.
  intros Hct. unfold decrypt_blob. cbn [app String.list_ascii_of_string].
  rewrite split_once_app by apply b64_no_colon. cbv [mbind result_bind ok_or map_err].
  rewrite trim_all_solid by apply b64_solid. rewrite b64_roundtrip, length_nonce_bytes.
  cbn [Nat.eqb negb]. rewrite trim_all_solid by apply b64_solid.
  by rewrite b64_roundtrip, (aes_roundtrip _ _ _ _ Hct).
Qed.

Lemma decode_sealed magic a b key plain data :
  forallb solid magic = true →
  encrypt_blob a b magic key plain = Ok data →
  decode_maybe_encrypted magic data (Some key) = Ok plain.
Proof.
  intros Hm. unfold encrypt_blob. cbv [mbind result_bind map_err].
  destruct (aes_encrypt key (nonce_bytes a b) plain) as [ct|] eqn:Hct; [|done].
  intros [= <-]. unfold decode_maybe_encrypted. rewrite trim_all_solid.
  - unfold strip_prefix. rewrite starts_with_app, drop_app_length.
    cbv [mbind result_bind ok_or]. by apply decrypt_encrypt_blob.
  - rewrite !forallb_app, Hm. cbn [forallb]. rewrite ?forallb_app, !b64_solid. by vm_compute.
Qed.

Lemma decode_plain magic data key :
  trim data = data → starts_with data magic = false →
  decode_maybe_encrypted magic data key = Ok data.
Proof.
  intros Ht Hs. unfold decode_maybe_encrypted, strip_prefix. by rewrite Ht, Hs.
Qed.
End Facts.

(** ** A concrete instance: hexadecimal text and no cipher *)

Definition hex_encode (s : str) : str :=
  concat (map (λ c, let n := Z.of_N (N_of_ascii c) in [hex_char (n / 16); hex_char (n mod 16)]) s).

#[export] Instance toy_crypto : Crypto := {
  aes_encrypt _ _ plain := Ok plain;
  aes_decrypt _ _ ct := Ok ct;
  b64_encode := hex_encode;
  b64_decode s := Ok (hex_bytes s)
}.

#[export] Instance toy_crypto_laws : CryptoLaws.
Proof.
  split; simpl.
  - intros s. unfold hex_encode. induction s as [|c s IH]; [done|]. cbn [map concat app].
    cbn [forallb]. rewrite IH, !andb_true_r. clear. byte_cases c.
  - intros s. f_equal. unfold hex_encode. induction s as [|c s IH]; [done|].
    cbn [map concat app hex_bytes]. rewrite IH. f_equal. clear. byte_cases c.
  - by intros ? ? ? ? [= ->].
Qed.

(** Sealed state files: what was sealed under a key (with any clock-derived
    nonce) opens to the same bytes under that key, and is refused when no key
    is configured. *)
Theorem sealed_roundtrip `{CryptoLaws} magic a b key plain data :
  forallb solid magic = true →
  encrypt_blob a b magic key plain = Ok data →
  decode_maybe_encrypted magic data (Some key) = Ok plain ∧
  ∃ e, decode_maybe_encrypted magic data None = Err e.
Proof.
  intros Hm He. split; [by eapply decode_sealed|].
  revert He. unfold encrypt_blob. cbv [mbind result_bind map_err].
  destruct (aes_encrypt key (nonce_bytes a b) plain) as [ct|]; [|done].
  intros [= <-]. unfold decode_maybe_encrypted. rewrite trim_all_solid.
  - unfold strip_prefix. rewrite starts_with_app. by eexists.
  - rewrite !forallb_app, Hm. cbn [forallb]. rewrite ?forallb_app, !b64_solid. by vm_compute.
Qed.

Lemma sealed_roundtrip_witness :
  ∃ data, encrypt_blob 7 8 ($"DNTICKET1:") ($"k") ($"{}") = Ok data ∧
    decode_maybe_encrypted ($"DNTICKET1:") data (Some ($"k")) = Ok ($"{}").
Proof.
  eexists. split; [reflexivity|].
  apply (sealed_roundtrip ($"DNTICKET1:") 7 8 ($"k") ($"{}")); vm_compute; reflexivity.
Defined.

End StateCrypto.
