(* ===== verification/Ticket.v ===== *)
(** * Approval tickets ([gateway/core/src/ticket.rs])

    The ticket store: issue, approve (dual control), reject/revoke, consume,
    prune, list, and the file backend; plus the SQL text functions that bind a
    ticket to a statement.  [now_unix_ms()] and the outcome of the file system
    calls come from an [Env]; [HashMap] is a [gmap], whose [map_to_list] stands
    for the unspecified iteration order.  [serde_json] is a parameter.

    The specification of the store and the theorems about it are in TicketSpec. *)

From S2P Require Import Prelude RustStr StateCrypto.
Import StateCrypto.

Module Ticket.

Inductive TicketStatus := Pending | Active | Rejected.

#[export] Instance TicketStatus_eq_dec : EqDecision TicketStatus.
Proof. solve_decision. Defined.

Definition status_as_str (s : TicketStatus) : str :=
  match s with Pending => $"pending" | Active => $"active" | Rejected => $"rejected" end.

Record Ticket := mkTicket {
  id : str;
  ticket_type : str;
  subject_id : str;
  t_sql_fingerprint : str;
  sql_sample : option str;
  issued_at_unix_ms : Z;
  expires_at_unix_ms : Z;
  max_uses : Z;
  uses : Z;
  issued_by : option str;
  note : option str;
  dual_control : bool;
  status : TicketStatus;
  approved_by : option str;
  approved_at_unix_ms : option Z;
  rejected_by : option str;
  reject_reason : option str
}.

Record IssueTicketRequest := mkIssue {
  req_subject_id : str;
  req_sql : str;
  req_ticket_type : str;
  req_ttl_secs : Z;
  req_max_uses : Z;
  req_note : option str;
  req_issued_by : option str;
  req_dual_control : bool
}.

Definition default_ticket_type : str := $"high_risk".

Definition is_expired (t : Ticket) (now_ms : Z) : bool := expires_at_unix_ms t <? now_ms.

Definition remaining_uses (t : Ticket) : Z := sat_sub (max_uses t) (uses t).

Definition is_consumable (t : Ticket) (now_ms : Z) : result str unit :=
  if is_expired t now_ms then Err ($"ticket '" ++ id t ++ $"' expired")
  else
    _ ← match status t with
        | Active => Ok tt
        | Pending =>
            Err ($"ticket '" ++ id t
              ++ $"' is pending dual-control approval (POST /admin/tickets/" ++ id t ++ $"/approve)")
        | Rejected => Err ($"ticket '" ++ id t ++ $"' was rejected")
        end;
    if remaining_uses t =? 0 then Err ($"ticket '" ++ id t ++ $"' has no remaining uses")
    else Ok tt.

(** ** SQL text functions *)

Definition strip_ticket_comment (sql : str) : exec str :=
  let s := trim_start sql in
  if starts_with s ($"/*") then
    match find s ($"*/") with
    | Some e =>
        body ← slice s 2 e;
        let body := to_ascii_lowercase body in
        if contains body ($"dn_ticket") || contains body ($"data_nexus_ticket")
        then Ret (trim_start (drop (e + 2) s))
        else Ret sql
    | None => Ret sql
    end
  else Ret sql.

(** The loop over [stripped.chars()] with [out] and [prev_space]. *)
Fixpoint collapse (cs : list str) (out : str) (prev_space : bool) : str :=
  match cs with
  | [] => out
  | ch :: cs' =>
      if char_is_whitespace ch then
        if negb prev_space && negb (is_empty out)
        then collapse cs' (out ++ $" ") true
        else collapse cs' out prev_space
      else collapse cs' (out ++ to_ascii_lowercase ch) false
  end.

(** What [sql_fingerprint] does after stripping the ticket comment. *)
Definition normalize_sql (stripped : str) : str :=
  trim (trim_end_matches (Ascii.eqb ";") (trim (collapse (chars stripped) [] false))).

Definition sql_fingerprint (sql : str) : exec str :=
  stripped ← strip_ticket_comment sql;
  Ret (normalize_sql stripped).

(** The loop over the three comment prefixes: [Some r] is a [return] (with
    [None] from the [?] operator), [None] falls through. *)
Fixpoint ticket_prefixes (lower body : str) (prefixes : list str) : option (option str) :=
  match prefixes with
  | [] => None
  | p :: ps =>
      if starts_with lower p then
        match split_whitespace (trim (drop (length p) body)) with
        | [] => Some None
        | tid :: _ => if is_empty tid then ticket_prefixes lower body ps else Some (Some tid)
        end
      else ticket_prefixes lower body ps
  end.

Definition extract_ticket_id (sql : str) : exec (option str) :=
  let s := trim_start sql in
  if negb (starts_with s ($"/*")) then Ret None
  else
    match find s ($"*/") with
    | None => Ret None
    | Some e =>
        body ← slice s 2 e;
        let body := trim (trim_start_matches (Ascii.eqb "+") (trim body)) in
        let lower := to_ascii_lowercase body in
        match ticket_prefixes lower body
                [$"dn_ticket:"; $"data_nexus_ticket:"; $"dn_ticket="] with
        | Some r => Ret r
        | None =>
            match find lower ($"dn_ticket") with
            | None => Ret None
            | Some pos =>
                let after := trim_start (drop (pos + length ($"dn_ticket")) body) in
                let after :=
                  trim_start (trim_start_matches (λ c, Ascii.eqb c ":" || Ascii.eqb c "=") after) in
                match split_whitespace after with
                | [] => Ret None
                | tid :: _ => if is_empty tid then Ret None else Ret (Some tid)
                end
            end
        end
    end.

(** The scan of [contains_top_level_keyword] from a position: [prev] is the
    byte before it. *)
Fixpoint top_level_scan (key s : str) (prev : option ascii) (depth : Z) : bool :=
  match s with
  | [] => false
  | c :: s' =>
      if (length s <? length key)%nat then false
      else if Ascii.eqb c "(" then top_level_scan key s' (Some c) (depth + 1)
      else if Ascii.eqb c ")" then top_level_scan key s' (Some c) (depth - 1)
      else if (depth =? 0) && starts_with s key
              && match prev with Some p => negb (is_ascii_alphanumeric p) | None => true end
              && match drop (length key) s with
                 | a :: _ => negb (is_ascii_alphanumeric a)
                 | [] => true
                 end
      then true
      else top_level_scan key s' (Some c) depth
  end.

Definition contains_top_level_keyword (sql keyword : str) : bool :=
  top_level_scan (to_ascii_uppercase keyword) (to_ascii_uppercase sql) None 0.

Definition is_write_without_where (sql : str) : exec bool :=
  s ← strip_ticket_comment sql;
  let upper := to_ascii_uppercase (trim_start s) in
  Ret (if negb (starts_with upper ($"UPDATE") || starts_with upper ($"DELETE")) then false
       else negb (contains_top_level_keyword s ($"WHERE"))).

(** ** The store *)

Record TicketStore := mkStore {
  inner : gmap str Ticket;
  seq : Z;
  path : option str;
  encrypt_key : option str
}.

Definition new_store : TicketStore := mkStore ∅ 1 None None.

Definition set_inner (m : gmap str Ticket) (s : TicketStore) : TicketStore :=
  mkStore m (seq s) (path s) (encrypt_key s).

(** The readings of one operation: the clock, the two clock readings of the
    nonce, and whether the file system calls succeed. *)
Record Env := mkEnv {
  now_unix_ms : Z;
  nonce_now : Z * Z;
  io : result str unit
}.

(** [serde_json] on the ticket file. *)
Class TicketJson := {
  to_vec_pretty : list Ticket → result str str;
  from_slice : str → result str (list Ticket)
}.

Definition TICKET_ENC_MAGIC : str := $"DNTICKET1:".

(** [sort_by(|a, b| b.issued_at_unix_ms.cmp(&a.issued_at_unix_ms))], stable. *)
Fixpoint insert_desc (t : Ticket) (l : list Ticket) : list Ticket :=
  match l with
  | [] => [t]
  | u :: l' =>
      if issued_at_unix_ms u <=? issued_at_unix_ms t then t :: u :: l' else u :: insert_desc t l'
  end.
Definition sort_desc (l : list Ticket) : list Ticket := foldr insert_desc [] l.

Definition values (m : gmap str Ticket) : list Ticket := (map_to_list m).*2.

(** The store of one process and the state file it shares. *)
Record World := mkWorld { store : TicketStore; disk : option str }.

Section Store.
Context `{Crypto, TicketJson}.

Definition write_file_locked (env : Env) (s : TicketStore) (m : gmap str Ticket)
    : result str str :=
  plain ← to_vec_pretty (sort_desc (values m));
  data ← match encrypt_key s with
         | Some key =>
             encrypt_blob (fst (nonce_now env)) (snd (nonce_now env)) TICKET_ENC_MAGIC key plain
         | None => Ok plain
         end;
  _ ← io env;
  Ok data.

Definition persist (env : Env) (w : World) : result str unit * World :=
  match path (store w) with
  | None => (Ok tt, w)
  | Some _ =>
      match write_file_locked env (store w) (inner (store w)) with
      | Ok data => (Ok tt, mkWorld (store w) (Some data))
      | Err e => (Err e, w)
      end
  end.

(** [let _ = self.persist();] *)
Definition persisted (env : Env) (w : World) : World := snd (persist env w).

(** The loop over the tickets of a loaded file; [n + 1] wraps as in a release
    build. *)
Definition load_step (acc : gmap str Ticket * Z) (t : Ticket) : gmap str Ticket * Z :=
  let '(m, max_seq) := acc in
  (<[id t := t]> m,
   match parse_unsigned u64_max (rsplit_next "-" (id t)) with
   | Some n => Z.max max_seq (u64_wrap (n + 1))
   | None => max_seq
   end).

Definition load_from_disk (env : Env) (w : World) : result str unit * World :=
  let s := store w in
  match path s with
  | None => (Ok tt, w)
  | Some _ =>
      match disk w with
      | None =>
          match write_file_locked env s ∅ with
          | Ok data => (Ok tt, mkWorld s (Some data))
          | Err e => (Err e, w)
          end
      | Some raw =>
          match io env with
          | Err e => (Err e, w)
          | Ok _ =>
              if is_empty (trim raw) then (Ok tt, w)
              else
                match (bytes ← decode_maybe_encrypted TICKET_ENC_MAGIC raw (encrypt_key s);
                       from_slice bytes) with
                | Err e => (Err e, w)
                | Ok tickets =>
                    let '(m, max_seq) := foldl load_step (∅, 1) tickets in
                    (Ok tt, mkWorld (mkStore m max_seq (path s) (encrypt_key s)) (disk w))
                end
          end
      end
  end.

(** [TicketStore::with_file] on the current state file. *)
Definition with_file (env : Env) (p : str) (key : option str) (d : option str)
    : result str World :=
  let '(r, w) := load_from_disk env (mkWorld (mkStore ∅ 1 (Some p) key) d) in
  _ ← r; Ok w.

(** [reconfigure_from] replaces every field of the installed store. *)
Definition reconfigure_from (s other : TicketStore) : TicketStore :=
  mkStore (inner other) (seq other) (path other) (encrypt_key other).

(** [install_ticket_store]: [global] is the [OnceLock]. *)
Definition install_ticket_store (env : Env) (global : option TicketStore)
    (backend p key_hex : str) (d : option str) : result str World :=
  key ← parse_encrypt_key key_hex;
  let backend := to_ascii_lowercase (trim backend) in
  w ← (if one_of [$"memory"; []] backend then Ok (mkWorld new_store d)
       else if str_eqb backend ($"file") then with_file env p key d
       else Err ($"ticket store backend '" ++ backend
              ++ $"' not supported (use memory or file)"));
  Ok (match global with
      | Some existing => mkWorld (reconfigure_from existing (store w)) (disk w)
      | None => w
      end).

Definition ticket_id (now sequence : Z) : str := $"tkt-" ++ dec now ++ $"-" ++ dec sequence.

Definition issue (env : Env) (req : IssueTicketRequest) (w : World) : exec (Ticket * World) :=
  let now := now_unix_ms env in
  let s := store w in
  let tid := ticket_id now (seq s) in
  fp ← sql_fingerprint (req_sql req);
  sample ← strip_ticket_comment (req_sql req);
  let dual := req_dual_control req in
  let ticket := {|
    id := tid;
    ticket_type :=
      if is_empty (trim (req_ticket_type req)) then default_ticket_type else req_ticket_type req;
    subject_id := req_subject_id req;
    t_sql_fingerprint := fp;
    sql_sample := Some sample;
    issued_at_unix_ms := now;
    expires_at_unix_ms := u64_sat_add now (u64_sat_mul (req_ttl_secs req) 1000);
    max_uses := Z.max (req_max_uses req) 1;
    uses := 0;
    issued_by := req_issued_by req;
    note := req_note req;
    dual_control := dual;
    status := if dual then Pending else Active;
    approved_by := None;
    approved_at_unix_ms := None;
    rejected_by := None;
    reject_reason := None
  |} in
  let s' := mkStore (<[tid := ticket]> (inner s)) (u64_wrap (seq s + 1)) (path s) (encrypt_key s) in
  Ret (ticket, persisted env (mkWorld s' (disk w))).

Definition get (w : World) (tid : str) : option Ticket := inner (store w) !! tid.

Definition list_tickets (w : World) (limit : Z) : list Ticket :=
  take (Z.to_nat (Z.min (Z.max limit 1) 500)) (sort_desc (values (inner (store w)))).

(** Write back the mutated ticket and persist. *)
Definition put (env : Env) (w : World) (tid : str) (t : Ticket) : World :=
  persisted env (mkWorld (set_inner (<[tid := t]> (inner (store w))) (store w)) (disk w)).

Definition approved (t : Ticket) (approver : str) (now : Z) : Ticket :=
  mkTicket (id t) (ticket_type t) (subject_id t) (t_sql_fingerprint t) (sql_sample t)
    (issued_at_unix_ms t) (expires_at_unix_ms t) (max_uses t) (uses t) (issued_by t) (note t)
    (dual_control t) Active (Some approver) (Some now) (rejected_by t) (reject_reason t).

Definition rejected (t : Ticket) (rejector : str) (reason : option str) : Ticket :=
  mkTicket (id t) (ticket_type t) (subject_id t) (t_sql_fingerprint t) (sql_sample t)
    (issued_at_unix_ms t) (expires_at_unix_ms t) (max_uses t) (uses t) (issued_by t) (note t)
    (dual_control t) Rejected (approved_by t) (approved_at_unix_ms t) (Some rejector) reason.

Definition used (t : Ticket) : Ticket :=
  mkTicket (id t) (ticket_type t) (subject_id t) (t_sql_fingerprint t) (sql_sample t)
    (issued_at_unix_ms t) (expires_at_unix_ms t) (max_uses t) (uses t + 1) (issued_by t) (note t)
    (dual_control t) (status t) (approved_by t) (approved_at_unix_ms t) (rejected_by t)
    (reject_reason t).

Definition approve (env : Env) (tid approver_raw : str) (w : World)
    : result str Ticket * World :=
  let approver := trim approver_raw in
  if is_empty approver then (Err ($"approved_by is required"), w)
  else
    let now := now_unix_ms env in
    match inner (store w) !! tid with
    | None => (Err ($"ticket '" ++ tid ++ $"' not found"), w)
    | Some t =>
        if is_expired t now then (Err ($"ticket '" ++ tid ++ $"' expired"), w)
        else if negb (dual_control t) then
          (Err ($"ticket '" ++ tid ++ $"' is not dual-control (already active on issue)"), w)
        else
          match status t with
          | Active => (Err ($"ticket '" ++ tid ++ $"' is already active"), w)
          | Rejected => (Err ($"ticket '" ++ tid ++ $"' was rejected"), w)
          | Pending =>
              let same :=
                match issued_by t with
                | Some issuer => eq_ignore_ascii_case issuer approver
                | None => false
                end in
              if same then
                (Err ($"ticket '" ++ tid ++ $"' dual-control: approver must differ from issuer '"
                  ++ default [] (issued_by t) ++ $"'"), w)
              else
                let t' := approved t approver now in
                (Ok t', put env w tid t')
          end
    end.

Definition reject (env : Env) (tid rejector_raw : str) (reason : option str) (w : World)
    : result str Ticket * World :=
  let rejector := trim rejector_raw in
  if is_empty rejector then (Err ($"rejected_by is required"), w)
  else
    match inner (store w) !! tid with
    | None => (Err ($"ticket '" ++ tid ++ $"' not found"), w)
    | Some t =>
        if 0 <? uses t then
          (Err ($"ticket '" ++ tid ++ $"' already consumed and cannot be rejected"), w)
        else
          match status t with
          | Rejected => (Err ($"ticket '" ++ tid ++ $"' already rejected"), w)
          | Pending | Active =>
              let t' := rejected t rejector reason in
              (Ok t', put env w tid t')
          end
    end.

Definition revoke := reject.

Definition prune_expired (env : Env) (w : World) : Z * World :=
  let m := inner (store w) in
  let m' := filter (λ kt, is_expired (snd kt) (now_unix_ms env) = false) m in
  let removed := sat_sub (Z.of_nat (size m)) (Z.of_nat (size m')) in
  let w' := mkWorld (set_inner m' (store w)) (disk w) in
  (removed, if 0 <? removed then persisted env w' else w').

(** The checks of [consume] on a found ticket, in order. *)
Definition check_consume (t : Ticket) (now : Z) (tid subject fp : str)
    (expected_type : option str) : result str unit :=
  _ ← is_consumable t now;
  if negb (eq_ignore_ascii_case (subject_id t) subject) then
    Err ($"ticket '" ++ tid ++ $"' subject mismatch (expected " ++ subject_id t
      ++ $", got " ++ subject ++ $")")
  else if match expected_type with
          | Some ty => negb (is_empty ty) && negb (eq_ignore_ascii_case (ticket_type t) ty)
          | None => false
          end then
    Err ($"ticket '" ++ tid ++ $"' type mismatch (expected " ++ default [] expected_type
      ++ $", got " ++ ticket_type t ++ $")")
  else if negb (str_eqb (t_sql_fingerprint t) fp) then
    Err ($"ticket '" ++ tid ++ $"' SQL fingerprint mismatch (re-issue for this statement)")
  else Ok tt.

Definition consume (env : Env) (tid subject sql : str) (expected_type : option str) (w : World)
    : exec (result str Ticket * World) :=
  fp ← sql_fingerprint sql;
  Ret (match inner (store w) !! tid with
       | None => (Err ($"ticket '" ++ tid ++ $"' not found"), w)
       | Some t =>
           match check_consume t (now_unix_ms env) tid subject fp expected_type with
           | Err e => (Err e, w)
           | Ok _ => (Ok (used t), put env w tid (used t))
           end
       end).
End Store.

End Ticket.
