(* ===== verification/TicketSpec.v ===== *)
(** * Specification of the ticket store

    The operations of [Ticket] as transitions, the abstract machine they refine
    ([ticket_step] on a map of tickets and a counter), and what holds on every
    run of it: the store invariant, the use budget, dual control, revocation;
    then binding of a ticket to a statement and the state file.

    The map is only touched under the store's mutex, one critical section per
    operation, so an interleaving of threads is a sequence of operations.
    ([issue] draws the counter before it takes the lock; the draw is an atomic
    [fetch_add], so the identifiers of two threads differ in either order.) *)

From S2P Require Import Prelude RustStr StateCrypto Ticket.
Import StateCrypto Ticket.

Module TicketSpec.

(** ** Operations as a labelled transition system *)

Inductive op :=
| OIssue (env : Env) (req : IssueTicketRequest)
| OApprove (env : Env) (tid by_ : str)
| OReject (env : Env) (tid by_ : str) (reason : option str)
| OPrune (env : Env)
| OConsume (env : Env) (tid subject sql : str) (ty : option str).

Definition op_env (o : op) : Env :=
  match o with
  | OIssue e _ | OApprove e _ _ | OReject e _ _ _ | OPrune e | OConsume e _ _ _ _ => e
  end.

(** What an operation did to the tickets. *)
Inductive event :=
| Issued (t : Ticket)
| Approved (tid by_ : str)
| Revoked (tid : str)
| Pruned (now : Z)
| Consumed (tid : str) (now : Z)
| Refused
| Crashed.

Section Machine.
Context `{Crypto, TicketJson}.

(** One operation.  A panic happens while the SQL text is read, outside the
    lock: it leaves the map alone, and [issue] has drawn a counter value. *)
Definition run_op (o : op) (w : World) : event * World :=
  match o with
  | OIssue env req =>
      match issue env req w with
      | Ret (t, w') => (Issued t, w')
      | Panic =>
          let s := store w in
          (Crashed, mkWorld (mkStore (inner s) (u64_wrap (seq s + 1)) (path s) (encrypt_key s))
                      (disk w))
      end
  | OApprove env tid by_ =>
      let '(r, w') := approve env tid by_ w in
      (if is_ok r then Approved tid (trim by_) else Refused, w')
  | OReject env tid by_ reason =>
      let '(r, w') := reject env tid by_ reason w in
      (if is_ok r then Revoked tid else Refused, w')
  | OPrune env =>
      let '(_, w') := prune_expired env w in (Pruned (now_unix_ms env), w')
  | OConsume env tid subject sql ty =>
      match consume env tid subject sql ty w with
      | Ret (r, w') => (if is_ok r then Consumed tid (now_unix_ms env) else Refused, w')
      | Panic => (Crashed, w)
      end
  end.

Fixpoint run_ops (os : list op) (w : World) : list event * World :=
  match os with
  | [] => ([], w)
  | o :: os' =>
      let '(ev, w1) := run_op o w in
      let '(evs, w2) := run_ops os' w1 in
      (ev :: evs, w2)
  end.
End Machine.

(** ** Abstract specification *)

(** The tickets and the issue counter; files, errors and text are gone. *)
Definition abs (w : World) : gmap str Ticket * Z := (inner (store w), seq (store w)).

(** A freshly issued ticket: unused, and waiting for a second person exactly
    when it is under dual control. *)
Definition fresh_ticket (tid : str) (t : Ticket) : Prop :=
  id t = tid ∧ uses t = 0 ∧ 1 <= max_uses t ∧ approved_by t = None ∧
  status t = if dual_control t then Pending else Active.

(** [by_] is a different person from the issuer, ignoring ASCII case. *)
Definition second_person (t : Ticket) (by_ : str) : Prop :=
  by_ ≠ [] ∧ ∀ issuer, issued_by t = Some issuer →
    to_ascii_lowercase issuer ≠ to_ascii_lowercase by_.

Inductive ticket_step : event → gmap str Ticket * Z → gmap str Ticket * Z → Prop :=
| ts_issue m n now t :
    fresh_ticket (ticket_id now n) t → 0 <= now →
    ticket_step (Issued t) (m, n) (<[id t := t]> m, n + 1)
| ts_approve m n tid t by_ now :
    m !! tid = Some t → status t = Pending → dual_control t = true → second_person t by_ →
    now <= expires_at_unix_ms t →
    ticket_step (Approved tid by_) (m, n) (<[tid := approved t by_ now]> m, n)
| ts_reject m n tid t by_ reason :
    m !! tid = Some t → uses t <= 0 → status t ≠ Rejected →
    ticket_step (Revoked tid) (m, n) (<[tid := rejected t by_ reason]> m, n)
| ts_prune m n now :
    ticket_step (Pruned now) (m, n)
      (filter (λ kt, is_expired (snd kt) now = false) m, n)
| ts_consume m n tid t now :
    m !! tid = Some t → status t = Active → uses t < max_uses t → now <= expires_at_unix_ms t →
    ticket_step (Consumed tid now) (m, n) (<[tid := used t]> m, n)
| ts_refused m n : ticket_step Refused (m, n) (m, n)
| ts_crashed m n n' : n <= n' → ticket_step Crashed (m, n) (m, n').

(** Runs of the specification from the empty store, with their events. *)
Inductive run : list event → gmap str Ticket * Z → Prop :=
| run_start : run [] (∅, 1)
| run_step evs ev a a' : run evs a → ticket_step ev a a' → run (evs ++ [ev]) a'.

(** The well-formedness of a stored ticket. *)
Definition ticket_ok (tid : str) (t : Ticket) : Prop :=
  id t = tid ∧ 1 <= max_uses t ∧ 0 <= uses t <= max_uses t ∧
  (status t = Pending → dual_control t = true ∧ uses t = 0) ∧
  (status t = Rejected → uses t = 0) ∧
  (dual_control t = true → status t = Active →
   ∃ by_, approved_by t = Some by_ ∧ second_person t by_).

(** Every key was minted by [ticket_id] with an already used counter value. *)
Definition minted (n : Z) (tid : str) : Prop :=
  ∃ now k, tid = ticket_id now k ∧ 0 <= now ∧ 0 <= k < n.

Definition store_ok (a : gmap str Ticket * Z) : Prop :=
  0 <= a.2 ∧ ∀ tid t, a.1 !! tid = Some t → ticket_ok tid t ∧ minted a.2 tid.

(** ** Identifiers are unique *)

Lemma dec_no_dash n : 0 <= n → "-"%char ∉ dec n.
Proof.
  intros Hn Hin. pose proof (dec_digits n Hn) as Hd. rewrite forallb_elem in Hd.
  by apply Hd in Hin.
Qed.

Lemma split_ticket_id now k :
  0 <= now → 0 <= k → split "-" (ticket_id now k) = [$"tkt"; dec now; dec k].
Proof.
  intros Hn Hk. unfold ticket_id.
  change ($"tkt-" ++ dec now ++ $"-" ++ dec k) with ($"tkt" ++ "-"%char :: dec now ++ "-"%char :: dec k).
  rewrite split_app by (vm_compute; set_solver).
  rewrite split_app by (by apply dec_no_dash). by rewrite split_none by (by apply dec_no_dash).
Qed.

Lemma ticket_id_inj a b k l :
  0 <= a → 0 <= b → 0 <= k → 0 <= l → ticket_id a k = ticket_id b l → a = b ∧ k = l.
Proof.
  intros Ha Hb Hk Hl E. apply (f_equal (split "-")) in E.
  rewrite !split_ticket_id in E by done. injection E as E1 E2.
  split; by apply dec_inj.
Qed.

Lemma minted_fresh n tid now : 0 <= now → minted n tid → tid ≠ ticket_id now n.
Proof.
  intros Hnow (now' & k & -> & ? & ?) E. apply ticket_id_inj in E; lia.
Qed.

Lemma minted_mono n n' tid : n <= n' → minted n tid → minted n' tid.
Proof. intros ? (now & k & ? & ? & ?). exists now, k. split; [done|]. split; [done|]. lia. Qed.

(** ** The invariant *)

Lemma store_ok_insert m n n' tid t :
  store_ok (m, n) → n <= n' → ticket_ok tid t → minted n' tid →
  store_ok (<[tid := t]> m, n').
Proof.
  intros [Hn Hok] Hle Ht Hm. split; [simpl in *; lia|].
  intros tid' u. simpl. rewrite lookup_insert. case_decide as Heq.
  - intros [= <-]. by subst tid'.
  - intros [? ?]%Hok. split; [done|]. by eapply minted_mono.
Qed.

Lemma fresh_ticket_ok tid t : fresh_ticket tid t → ticket_ok tid t.
Proof.
  intros (Hid & Hu & Hmu & Ha & Hs). unfold ticket_ok. rewrite Hid, Hu, Hs.
  destruct (dual_control t); naive_solver lia.
Qed.

Lemma ticket_step_ok ev a a' : ticket_step ev a a' → store_ok a → store_ok a'.
Proof.
  intros Hst Ha. pose proof Ha as [Hn Hok].
  destruct Hst as
    [m n now t Hf Hnow|m n tid t by_ now Ht Hs Hd Hp He
    |m n tid t by_ reason Ht Hu Hs|m n now|m n tid t now Ht Hs Hu He|m n|m n n' Hle];
    simpl in *;
    try (destruct (Hok _ _ Ht) as [(? & ? & ? & ? & ? & ?) ?];
         apply store_ok_insert with n; [done|lia| |done]; unfold ticket_ok; simpl;
         rewrite ?Hs in *; naive_solver lia).
  - destruct Hf as [Hid Hf]. rewrite Hid. apply store_ok_insert with n; [done|lia| |].
    + by apply fresh_ticket_ok.
    + exists now, n. split; [done|]. lia.
  - split; [done|]. intros tid u. simpl. rewrite map_lookup_filter_Some. intros [? _]. eauto.
  - done.
  - split; [simpl in *; lia|]. simpl. intros tid t [? ?]%Hok. split; [done|].
    by eapply minted_mono.
Qed.

Lemma run_ok evs a : run evs a → store_ok a.
Proof.
  induction 1 as [|evs ev a a' _ IH Hst]; [split; [simpl; lia|done]|].
  by eapply ticket_step_ok.
Qed.

(** ** Histories *)

Definition is_consumed (tid : str) (ev : event) : bool :=
  match ev with Consumed u _ => str_eqb u tid | _ => false end.

(** How many statements a ticket has let through. *)
Definition spent (tid : str) (evs : list event) : Z :=
  Z.of_nat (length (List.filter (is_consumed tid) evs)).

(** The fields an issued ticket never changes. *)
Definition same_issue (t0 t : Ticket) : Prop :=
  id t = id t0 ∧ ticket_type t = ticket_type t0 ∧ subject_id t = subject_id t0 ∧
  t_sql_fingerprint t = t_sql_fingerprint t0 ∧ expires_at_unix_ms t = expires_at_unix_ms t0 ∧
  max_uses t = max_uses t0 ∧ issued_by t = issued_by t0 ∧ dual_control t = dual_control t0.

(** What the history says of the issued ticket [t0]. *)
Record issue_ok (evs : list event) (m : gmap str Ticket) (t0 : Ticket) : Prop := {
  io_budget : spent (id t0) evs <= max_uses t0;
  io_dual : 0 < spent (id t0) evs → dual_control t0 = true →
    ∃ by_, Approved (id t0) by_ ∈ evs ∧ second_person t0 by_;
  io_revoked : Revoked (id t0) ∈ evs → spent (id t0) evs = 0;
  io_live t : m !! id t0 = Some t →
    same_issue t0 t ∧ uses t = spent (id t0) evs ∧
    (∀ by_, approved_by t = Some by_ → Approved (id t0) by_ ∈ evs) ∧
    (Revoked (id t0) ∈ evs → status t = Rejected)
}.

(** The ticket an event is about. *)
Definition event_tid (ev : event) : option str :=
  match ev with
  | Issued t => Some (id t)
  | Approved tid _ | Revoked tid | Consumed tid _ => Some tid
  | Pruned _ | Refused | Crashed => None
  end.

Record history_ok (evs : list event) (a : gmap str Ticket * Z) : Prop := {
  ho_minted ev tid : ev ∈ evs → event_tid ev = Some tid → minted a.2 tid;
  ho_issued tid t : a.1 !! tid = Some t → ∃ t0, Issued t0 ∈ evs ∧ id t0 = tid;
  ho_unique t0 t1 : Issued t0 ∈ evs → Issued t1 ∈ evs → id t0 = id t1 → t0 = t1;
  ho_ok t0 : Issued t0 ∈ evs → issue_ok evs a.1 t0
}.

Lemma spent_snoc tid evs ev :
  spent tid (evs ++ [ev]) = spent tid evs + (if is_consumed tid ev then 1 else 0).
Proof.
  unfold spent. rewrite List.filter_app, length_app. cbn [List.filter].
  destruct (is_consumed tid ev); simpl; lia.
Qed.

Lemma spent_other tid evs :
  (∀ ev, ev ∈ evs → event_tid ev = Some tid → False) → spent tid evs = 0.
Proof.
  unfold spent. induction evs as [|ev evs IH]; intros Hno; [done|]. cbn [List.filter].
  destruct (is_consumed tid ev) eqn:E.
  - destruct ev; try done. apply str_eqb_eq in E as <-. exfalso.
    apply (Hno (Consumed tid0 now)); [left|done].
  - apply IH. intros ev' ? ?. by apply (Hno ev'); [right|].
Qed.

Lemma is_consumed_other tid ev : event_tid ev ≠ Some tid → is_consumed tid ev = false.
Proof.
  destruct ev; try done. simpl. intros Hne. apply str_eqb_neq. congruence.
Qed.

(** An event about another ticket, with the map unchanged there. *)
Lemma issue_ok_frame evs m m' t0 ev :
  event_tid ev ≠ Some (id t0) →
  (∀ t, m' !! id t0 = Some t → m !! id t0 = Some t) →
  issue_ok evs m t0 → issue_ok (evs ++ [ev]) m' t0.
Proof.
  intros Hev Hm [Hb Hd Hr Hl].
  assert (spent (id t0) (evs ++ [ev]) = spent (id t0) evs) as Hs.
  { rewrite spent_snoc, is_consumed_other by done. lia. }
  assert (Revoked (id t0) ∈ evs ++ [ev] → Revoked (id t0) ∈ evs) as Hrev.
  { rewrite elem_of_app, list_elem_of_singleton. intros [?|<-]; [done|]. by destruct Hev. }
  split; rewrite ?Hs; auto.
  - intros ? ?. destruct Hd as (by_ & ? & ?); [done..|]. exists by_. set_solver.
  - intros t Ht. destruct (Hl t (Hm _ Ht)) as (? & ? & ? & ?). split_and!; auto. set_solver.
Qed.

Lemma history_quiet evs m n m' n' ev :
  event_tid ev = None → n <= n' → m' ⊆ m →
  history_ok evs (m, n) → history_ok (evs ++ [ev]) (m', n').
Proof.
  intros Hev Hn Hm [Hmi Hi Hu Ho]; simpl in *.
  assert (∀ t0, Issued t0 ∈ evs ++ [ev] → Issued t0 ∈ evs) as Hiss.
  { intros t0. rewrite elem_of_app, list_elem_of_singleton. intros [?|<-]; done. }
  split; simpl.
  - intros ev' tid. rewrite elem_of_app, list_elem_of_singleton.
    intros [?| ->] ?; [|congruence]. eapply minted_mono; eauto.
  - intros tid t Ht. destruct (Hi tid t) as (t0 & ? & ?); [by eapply lookup_weaken|]. set_solver.
  - eauto.
  - intros t0 Ht0%Hiss. apply (issue_ok_frame _ m); [congruence| |by apply Ho].
    intros t Ht. by eapply lookup_weaken.
Qed.

Lemma history_update evs m n tid t' ev :
  event_tid ev = Some tid → (∀ t1, ev ≠ Issued t1) → minted n tid → is_Some (m !! tid) →
  history_ok evs (m, n) →
  (∀ t0, id t0 = tid → issue_ok evs m t0 → issue_ok (evs ++ [ev]) (<[tid := t']> m) t0) →
  history_ok (evs ++ [ev]) (<[tid := t']> m, n).
Proof.
  intros Hev Hne Hmt [t Ht] [Hmi Hi Hu Ho] Hstep; simpl in *.
  assert (∀ t0, Issued t0 ∈ evs ++ [ev] → Issued t0 ∈ evs) as Hiss.
  { intros t0. rewrite elem_of_app, list_elem_of_singleton. intros [?|<-]; [done|].
    by destruct (Hne t0). }
  split; simpl.
  - intros ev' tid'. rewrite elem_of_app, list_elem_of_singleton.
    intros [?| ->] ?; [by eauto|congruence].
  - intros tid' u. rewrite lookup_insert. case_decide as Heq; intros Hu'.
    + subst tid'. destruct (Hi _ _ Ht) as (t0 & ? & ?). set_solver.
    + destruct (Hi _ _ Hu') as (t0 & ? & ?). set_solver.
  - eauto.
  - intros t0 Ht0%Hiss. destruct (decide (id t0 = tid)) as [E|E]; [by apply Hstep, Ho|].
    apply (issue_ok_frame _ m); [congruence| |by apply Ho]. intros u.
    by rewrite lookup_insert_ne.
Qed.

Lemma history_issue evs m n now t :
  fresh_ticket (ticket_id now n) t → 0 <= now → 0 <= n →
  history_ok evs (m, n) → history_ok (evs ++ [Issued t]) (<[id t := t]> m, n + 1).
Proof.
  intros (Hid & Hus & Hmu & Ha & Hst) Hnow Hn [Hmi Hi Hu Ho]; simpl in *.
  assert (∀ ev, ev ∈ evs → event_tid ev = Some (id t) → False) as Hnew.
  { intros ev Hev E. destruct (minted_fresh n (id t) now Hnow); [by eapply Hmi|done]. }
  assert (spent (id t) (evs ++ [Issued t]) = 0) as Hsp.
  { rewrite spent_snoc, spent_other by done. done. }
  assert (Revoked (id t) ∈ evs ++ [Issued t] → False) as Hrev.
  { rewrite elem_of_app, list_elem_of_singleton. intros [Hin|?]; [|done]. by eapply Hnew. }
  split; simpl.
  - intros ev tid. rewrite elem_of_app, list_elem_of_singleton. intros [Hev| ->] Htid.
    + eapply minted_mono, Hmi; [lia|done|done].
    + injection Htid as <-. exists now, n. split; [done|]. lia.
  - intros tid u. rewrite lookup_insert. case_decide as Heq; intros Hl.
    + exists t. set_solver.
    + destruct (Hi _ _ Hl) as (t0 & ? & ?). set_solver.
  - intros t0 t1. rewrite !elem_of_app, !list_elem_of_singleton.
    intros [H0|[= ->]] [H1|[= ->]] E; [by auto| | |done];
      exfalso; eapply Hnew; [exact H0|simpl; congruence|exact H1|simpl; congruence].
  - intros t0. rewrite elem_of_app, list_elem_of_singleton. intros [H0|[= ->]].
    + assert (id t0 ≠ id t) by (intros E; eapply Hnew; [exact H0|simpl; congruence]).
      apply (issue_ok_frame _ m); [simpl; congruence| |by apply Ho].
      intros u. by rewrite lookup_insert_ne.
    + split; rewrite ?Hsp; [lia|lia|done|].
      intros u. rewrite lookup_insert_eq. intros [= <-]. split; [done|]. split; [done|].
      split; [by rewrite Ha|done].
Qed.

(** Splits membership in a history extended by one event. *)
Ltac in_snoc := rewrite ?elem_of_app, ?list_elem_of_singleton in *.

Lemma history_step evs ev a a' :
  ticket_step ev a a' → store_ok a → history_ok evs a → history_ok (evs ++ [ev]) a'.
Proof.
  intros Hst [Hn Hok] Hh.
  destruct Hst as
    [m n now t Hf Hnow|m n tid t by_ now Ht Hs Hd Hp He
    |m n tid t by_ reason Ht Hu Hs|m n now|m n tid t now Ht Hs Hu He|m n|m n n' Hle];
    simpl in *.
  - by eapply history_issue.
  - eapply history_update; [done|done|by apply (Hok _ _ Ht)|done|done|].
    intros t0 <- [Hb Hdu Hr Hl]. destruct (Hl t Ht) as (? & Hus & Hap & Hrv).
    split; rewrite ?spent_snoc; simpl; rewrite ?Z.add_0_r; [done| | |].
    + intros ? ?. destruct Hdu as (b & ? & ?); [done..|]. exists b. set_solver.
    + in_snoc. intros [?|?]; [by auto|done].
    + intros u. rewrite lookup_insert_eq. intros [= <-]. simpl. split; [done|]. split; [done|].
      split; [set_solver|]. in_snoc. intros [Hin|?]; [|done]. apply Hrv in Hin. congruence.
  - eapply history_update; [done|done|by apply (Hok _ _ Ht)|done|done|].
    intros t0 <- [Hb Hdu Hr Hl]. destruct (Hl t Ht) as (? & Hus & Hap & Hrv).
    destruct (Hok _ _ Ht) as [(? & ? & ? & _) _].
    split; rewrite ?spent_snoc; simpl; rewrite ?Z.add_0_r; [done| |lia|].
    + intros ? ?. destruct Hdu as (b & ? & ?); [done..|]. exists b. set_solver.
    + intros u. rewrite lookup_insert_eq. intros [= <-]. simpl. split; [done|]. split; [done|].
      split; [set_solver|done].
  - apply (history_quiet _ m n); [done|lia|apply map_filter_subseteq|done].
  - eapply history_update; [done|done|by apply (Hok _ _ Ht)|done|done|].
    intros t0 <- [Hb Hdu Hr Hl]. destruct (Hl t Ht) as (Hsame & Hus & Hap & Hrv).
    destruct (Hok _ _ Ht) as [(? & ? & ? & _ & _ & Hact) _].
    pose proof Hsame as (_ & _ & _ & _ & _ & Hmu & Hib & Hdc).
    split; rewrite ?spent_snoc; simpl; rewrite ?str_eqb_refl; [lia| | |].
    + intros _ Hdual. destruct Hact as (b & Hb' & Hnil & Hsp); [congruence|done|].
      exists b. split; [in_snoc; by auto|]. split; [done|]. intros i Hi. apply Hsp. congruence.
    + in_snoc. intros [Hin|?]; [|done]. apply Hrv in Hin. congruence.
    + intros u. rewrite lookup_insert_eq. intros [= <-]. simpl. split; [done|]. split; [lia|].
      split; [set_solver|]. in_snoc. intros [Hin|?]; [|done]. apply Hrv in Hin. congruence.
  - apply (history_quiet _ m n); [done|lia|done|done].
  - by apply (history_quiet _ m n).
Qed.

Lemma run_history evs a : run evs a → history_ok evs a.
Proof.
  induction 1 as [|evs ev a a' Hr IH Hst].
  - split; simpl; [set_solver|done|set_solver|set_solver].
  - by eapply history_step; [|eapply run_ok|].
Qed.

Lemma spent_pos tid now evs : Consumed tid now ∈ evs → 0 < spent tid evs.
Proof.
  unfold spent. induction evs as [|ev evs IH]; [set_solver|].
  rewrite elem_of_cons. cbn [List.filter]. intros [<-|Hin].
  - simpl. rewrite str_eqb_refl. simpl. lia.
  - destruct (is_consumed tid ev); simpl; [lia|by apply IH].
Qed.

Lemma revoked_was_issued evs a tid :
  run evs a → Revoked tid ∈ evs → ∃ t, Issued t ∈ evs ∧ id t = tid.
Proof.
  induction 1 as [|evs ev a a' Hr IH Hst]; [set_solver|].
  rewrite elem_of_app, list_elem_of_singleton. intros [Hin|<-].
  - destruct (IH Hin) as (t & ? & ?). set_solver.
  - inversion Hst as [| |m n tid' t by_ reason Ht| | | |]; subst.
    destruct (ho_issued _ _ (run_history _ _ Hr) tid t Ht) as (t0 & ? & ?). set_solver.
Qed.

(** ** The operations refine the machine *)

Section Refinement.
Context `{Crypto, TicketJson}.

Lemma persisted_store env w : store (persisted env w) = store w.
Proof.
  unfold persisted, persist. destruct (path (store w)); [|done].
  by destruct (write_file_locked _ _ _).
Qed.

Lemma abs_put env w tid t : abs (put env w tid t) = (<[tid := t]> (abs w).1, (abs w).2).
Proof. unfold abs, put. by rewrite persisted_store. Qed.

Lemma issue_inv env req w t w' :
  issue env req w = Ret (t, w') →
  fresh_ticket (ticket_id (now_unix_ms env) (seq (store w))) t ∧
  abs w' = (<[id t := t]> (inner (store w)), u64_wrap (seq (store w) + 1)) ∧
  subject_id t = req_subject_id req ∧ sql_fingerprint (req_sql req) = Ret (t_sql_fingerprint t) ∧
  dual_control t = req_dual_control req ∧ issued_by t = req_issued_by req ∧
  max_uses t = Z.max (req_max_uses req) 1 ∧
  expires_at_unix_ms t = u64_sat_add (now_unix_ms env) (u64_sat_mul (req_ttl_secs req) 1000).
Proof.
  unfold issue. cbv [mbind exec_bind].
  destruct (sql_fingerprint (req_sql req)) as [fp|] eqn:Hf; [|done].
  destruct (strip_ticket_comment (req_sql req)) as [sm|]; [|done].
  intros [= <- <-]. unfold abs. rewrite !persisted_store. cbn [id].
  split_and!; try done. unfold fresh_ticket. cbn. split_and!; try done. lia.
Qed.

(** [approve] succeeds exactly under the four documented conditions. *)
Lemma approve_inv env tid by_ w r w' :
  approve env tid by_ w = (r, w') →
  match r with
  | Err _ => w' = w
  | Ok t' => ∃ t, inner (store w) !! tid = Some t ∧ t' = approved t (trim by_) (now_unix_ms env) ∧
      w' = put env w tid t' ∧ status t = Pending ∧ dual_control t = true ∧
      second_person t (trim by_) ∧ now_unix_ms env <= expires_at_unix_ms t
  end.
Proof.
  unfold approve. destruct (is_empty (trim by_)) eqn:Eb; [by intros [= <- <-]|].
  destruct (inner (store w) !! tid) as [t|] eqn:Et; [|by intros [= <- <-]].
  destruct (is_expired t (now_unix_ms env)) eqn:Ee; [by intros [= <- <-]|].
  destruct (dual_control t) eqn:Ed; [|by intros [= <- <-]].
  destruct (status t) eqn:Es; try (by intros [= <- <-]). cbn [negb].
  destruct (match issued_by t with Some _ => _ | None => _ end) eqn:Ei; [by intros [= <- <-]|].
  intros [= <- <-]. exists t. unfold is_expired in Ee. bool_hyps.
  split_and!; try done. split; [by intros E; rewrite E in Eb|].
  intros issuer Hi Heq. rewrite Hi in Ei.
  apply eq_ignore_ascii_case_iff in Heq. congruence.
Qed.

Lemma reject_inv env tid by_ reason w r w' :
  reject env tid by_ reason w = (r, w') →
  match r with
  | Err _ => w' = w
  | Ok t' => ∃ t, inner (store w) !! tid = Some t ∧ t' = rejected t (trim by_) reason ∧
      w' = put env w tid t' ∧ trim by_ ≠ [] ∧ uses t <= 0 ∧ status t ≠ Rejected
  end.
Proof.
  unfold reject. destruct (is_empty (trim by_)) eqn:Eb; [by intros [= <- <-]|].
  destruct (inner (store w) !! tid) as [t|] eqn:Et; [|by intros [= <- <-]].
  destruct (0 <? uses t) eqn:Eu; [by intros [= <- <-]|]. bool_hyps.
  assert (trim by_ ≠ []) by (by intros E; rewrite E in Eb).
  destruct (status t) eqn:Es; intros [= <- <-]; [| |done]; exists t; by rewrite Es.
Qed.

(** The condition under which a ticket covers a statement. *)
Definition covers (t : Ticket) (now : Z) (subject fp : str) (ty : option str) : Prop :=
  now <= expires_at_unix_ms t ∧ status t = Active ∧ uses t < max_uses t ∧
  to_ascii_lowercase (subject_id t) = to_ascii_lowercase subject ∧
  (∀ y, ty = Some y → y ≠ [] → to_ascii_lowercase (ticket_type t) = to_ascii_lowercase y) ∧
  t_sql_fingerprint t = fp.

Lemma is_consumable_ok t now :
  is_consumable t now = Ok tt ↔
  now <= expires_at_unix_ms t ∧ status t = Active ∧ uses t < max_uses t.
Proof.
  unfold is_consumable, is_expired, remaining_uses, sat_sub. cbv [mbind result_bind].
  destruct (expires_at_unix_ms t <? now) eqn:Ee; bool_hyps; [naive_solver lia|].
  destruct (status t); try (split; [done|naive_solver]).
  destruct (Z.max (max_uses t - uses t) 0 =? 0) eqn:Eu; bool_hyps; naive_solver lia.
Qed.

Lemma check_consume_ok t now tid subject fp ty :
  check_consume t now tid subject fp ty = Ok tt ↔ covers t now subject fp ty.
Proof.
  unfold check_consume, covers. cbv [mbind result_bind].
  destruct (is_consumable t now) as [[]|e] eqn:Ec.
  2:{ split; [done|]. intros (? & ? & ? & _).
      assert (is_consumable t now = Ok tt) by (apply is_consumable_ok; auto). congruence. }
  apply is_consumable_ok in Ec as (? & ? & ?).
  destruct (eq_ignore_ascii_case (subject_id t) subject) eqn:Es; cbn [negb].
  2:{ split; [done|]. intros (_ & _ & _ & Hs & _).
      apply eq_ignore_ascii_case_iff in Hs. congruence. }
  apply eq_ignore_ascii_case_iff in Es.
  destruct (match ty with Some _ => _ | None => _ end) eqn:Et.
  { split; [done|]. intros (_ & _ & _ & _ & Ht & _). destruct ty as [y|]; [|done].
    bool_hyps. assert (y ≠ []) as Hne by (by intros ->).
    specialize (Ht y eq_refl Hne). apply eq_ignore_ascii_case_iff in Ht. congruence. }
  destruct (str_eqb (t_sql_fingerprint t) fp) eqn:Ef; cbn [negb].
  2:{ apply str_eqb_neq in Ef. naive_solver. }
  apply str_eqb_eq in Ef. split; [intros _|done]. split_and!; try done.
  intros y -> Hy. destruct y; [done|]. cbn [is_empty negb andb] in Et. bool_hyps.
  by apply eq_ignore_ascii_case_iff.
Qed.

Lemma run_op_refines_lemma o w ev w' :
  0 <= now_unix_ms (op_env o) → 0 <= seq (store w) < u64_max →
  run_op o w = (ev, w') → ticket_step ev (abs w) (abs w').
Proof.
  intros Hnow Hseq.
  assert (u64_wrap (seq (store w) + 1) = seq (store w) + 1) as Hw.
  { apply u64_wrap_small. unfold u64_max in *. lia. }
  destruct o as [env req|env tid by_|env tid by_ reason|env|env tid subj sql ty]; simpl in *.
  - destruct (issue env req w) as [[t w1]|] eqn:E; intros [= <- <-].
    + apply issue_inv in E as (Hf & -> & _). rewrite Hw. by eapply ts_issue.
    + unfold abs; simpl. rewrite Hw. constructor. lia.
  - destruct (approve env tid by_ w) as [r w1] eqn:E; intros [= <- <-].
    apply approve_inv in E. destruct r as [t'|e]; [|subst; constructor].
    destruct E as (t & Ht & -> & -> & ? & ? & ? & ?). rewrite abs_put. by econstructor.
  - destruct (reject env tid by_ reason w) as [r w1] eqn:E; intros [= <- <-].
    apply reject_inv in E. destruct r as [t'|e]; [|subst; constructor].
    destruct E as (t & Ht & -> & -> & ? & ? & ?). rewrite abs_put. by econstructor.
  - intros [= <- <-]. unfold abs. case_match; rewrite ?persisted_store; constructor.
  - unfold consume. cbv [mbind exec_bind].
    destruct (sql_fingerprint sql) as [fp|]; [|intros [= <- <-]; constructor; lia].
    destruct (inner (store w) !! tid) as [t|] eqn:Et; [|intros [= <- <-]; constructor].
    destruct (check_consume _ _ _ _ _ _) as [[]|e] eqn:Ec; intros [= <- <-]; [|constructor].
    apply check_consume_ok in Ec as (? & ? & ? & _). rewrite abs_put. by econstructor.
Qed.
End Refinement.

(** ** Binding a ticket to a statement *)

(** The statement a client sends to use a ticket. *)
Definition bind_ticket (tid sql : str) : str := $"/*dn_ticket:" ++ tid ++ $"*/" ++ sql.

Lemma collapse_skip cs :
  collapse (drop_while char_is_whitespace cs) [] false = collapse cs [] false.
Proof. induction cs as [|c cs IH]; simpl; [done|]. by destruct (char_is_whitespace c) eqn:E; simpl; rewrite ?E. Qed.

Lemma normalize_trim_start s : normalize_sql (trim_start s) = normalize_sql s.
Proof. unfold normalize_sql. by rewrite chars_trim_start, collapse_skip. Qed.

Lemma ticket_id_chars (f : ascii → bool) now k :
  0 <= now → 0 <= k → (∀ c, is_ascii_digit c = true → f c = true) →
  forallb f ($"tkt-") = true → forallb f (ticket_id now k) = true.
Proof.
  intros Hn Hk Hd Hp. unfold ticket_id.
  assert (∀ n, 0 <= n → forallb f (dec n) = true) as Hdec.
  { intros n Hn'. pose proof (dec_digits n Hn') as Hdd. rewrite forallb_elem in *. auto. }
  rewrite !forallb_app, Hp, !Hdec by done. cbn in Hp |- *. bool_hyps. by rewrite H2.
Qed.

Section Bind.
Context (tid sql : str) (Hne : tid ≠ []) (Hsolid : forallb solid tid = true)
  (Hstar : "*"%char ∉ tid).

Lemma bind_find : find (bind_ticket tid sql) ($"*/") = Some (12 + length tid)%nat.
Proof.
  pose proof (find_skip ($"dn_ticket:" ++ tid) "*" ["/"%char] sql) as Hf.
  change (bind_ticket tid sql) with ("/"%char :: "*"%char :: $"dn_ticket:" ++ tid ++ $"*/" ++ sql).
  rewrite <-app_assoc in Hf. rewrite !find_cons by done.
  change ("*"%char :: ["/"%char] ++ sql) with ($"*/" ++ sql) in Hf.
  change ["*"%char; "/"%char] with ($"*/") in Hf. rewrite Hf; [done|].
  cbn [String.list_ascii_of_string app]. rewrite !not_elem_of_cons. split_and!; done.
Qed.

Lemma bind_trim_start : trim_start (bind_ticket tid sql) = bind_ticket tid sql.
Proof. apply trim_start_solid. by vm_compute. Qed.

Lemma bind_body : slice (bind_ticket tid sql) 2 (12 + length tid) = Ret ($"dn_ticket:" ++ tid).
Proof.
  unfold slice, bind_ticket.
  assert (length ($"/*dn_ticket:" ++ tid ++ $"*/" ++ sql) = 14 + length tid + length sql)%nat as Hl
    by (rewrite !length_app; simpl; lia).
  assert ((12 + length tid <=? length ($"/*dn_ticket:" ++ tid ++ $"*/" ++ sql))%nat = true) as ->
    by (apply Nat.leb_le; lia).
  assert (is_char_boundary ($"/*dn_ticket:" ++ tid ++ $"*/" ++ sql) (12 + length tid) = true) as ->.
  { cbn [is_char_boundary Nat.add]. rewrite lookup_app_r by (simpl; lia).
    rewrite lookup_app_r by (simpl; lia).
    replace (_ - _ - _)%nat with 0%nat by (simpl; lia). done. }
  cbn -[app length]. f_equal. cbn [length app String.list_ascii_of_string drop Nat.sub take].
  do 10 f_equal. apply take_app_length.
Qed.

Lemma bind_extract : extract_ticket_id (bind_ticket tid sql) = Ret (Some tid).
Proof.
  unfold extract_ticket_id. rewrite bind_trim_start, bind_find.
  replace (starts_with (bind_ticket tid sql) ($"/*")) with true by done. cbn [negb].
  cbv [mbind exec_bind]. rewrite bind_body.
  assert (forallb solid ($"dn_ticket:" ++ tid) = true) as Hs
    by (rewrite forallb_app, Hsolid; by vm_compute).
  rewrite (trim_all_solid _ Hs). unfold trim_start_matches.
  rewrite (drop_while_none _ ($"dn_ticket:" ++ tid)) by (by intros ? ? [= <- _]).
  rewrite (trim_all_solid _ Hs). unfold to_ascii_lowercase. rewrite map_app.
  change (map to_lower ($"dn_ticket:")) with ($"dn_ticket:"). cbn [ticket_prefixes]. rewrite (starts_with_app ($"dn_ticket:") (map to_lower tid)).
  rewrite drop_app_length, trim_all_solid, split_whitespace_solid by done.
  by destruct tid.
Qed.

Lemma bind_strip : strip_ticket_comment (bind_ticket tid sql) = Ret (trim_start sql).
Proof.
  unfold strip_ticket_comment. rewrite bind_trim_start, bind_find.
  replace (starts_with (bind_ticket tid sql) ($"/*")) with true by done.
  cbv [mbind exec_bind]. rewrite bind_body.
  replace (contains _ ($"dn_ticket")) with true by done. cbn [orb]. do 2 f_equal.
  unfold bind_ticket. rewrite !app_assoc.
  rewrite (drop_app_length' (($"/*dn_ticket:" ++ tid) ++ $"*/")); [done|].
  rewrite !length_app. simpl. lia.
Qed.

Lemma bind_fingerprint :
  strip_ticket_comment sql = Ret sql →
  sql_fingerprint (bind_ticket tid sql) = sql_fingerprint sql.
Proof.
  intros Hs. unfold sql_fingerprint. cbv [mbind exec_bind].
  by rewrite bind_strip, Hs, normalize_trim_start.
Qed.
End Bind.

(** ** The state file *)

(** [serde_json] documents: a struct is written as an object, and reading what
    was written gives the value back. *)
Class TicketJsonLaws `{TicketJson} : Prop := {
  json_object l b : to_vec_pretty l = Ok b → ∃ mid, b = "{"%char :: mid ++ ["}"%char];
  json_roundtrip l b : to_vec_pretty l = Ok b → from_slice b = Ok l
}.

Lemma insert_desc_perm t l : insert_desc t l ≡ₚ t :: l.
Proof.
  induction l as [|u l IH]; simpl; [done|].
  destruct (issued_at_unix_ms u <=? issued_at_unix_ms t); [done|]. rewrite IH. constructor.
Qed.

Lemma sort_desc_perm l : sort_desc l ≡ₚ l.
Proof.
  unfold sort_desc. induction l as [|t l IH]; simpl; [done|]. by rewrite insert_desc_perm, IH.
Qed.

(** Every key of the map is the identifier of its ticket. *)
Definition keyed (m : gmap str Ticket) : Prop := ∀ tid t, m !! tid = Some t → id t = tid.

Lemma keyed_values m : keyed m → (λ t, (id t, t)) <$> values m = map_to_list m.
Proof.
  intros Hk. unfold values. rewrite <-list_fmap_compose. apply fmap_id_on.
  intros [tid t] Ht%elem_of_map_to_list. simpl. by rewrite (Hk _ _ Ht).
Qed.

Lemma load_map l m k :
  NoDup (id <$> l) → (foldl load_step (m, k) l).1 =
    (list_to_map ((λ t, (id t, t)) <$> l) : gmap str Ticket) ∪ m.
Proof.
  revert m k. induction l as [|t l IH]; intros m k Hnd; simpl; [by rewrite (left_id_L ∅ (∪))|].
  apply NoDup_cons in Hnd as [Hin Hnd]. rewrite IH by done.
  rewrite <-insert_union_r, insert_union_l; [done|].
  apply not_elem_of_list_to_map_1. by rewrite <-list_fmap_compose.
Qed.

Lemma load_keyed m l : keyed m → l ≡ₚ values m → ∀ k, (foldl load_step (∅, k) l).1 = m.
Proof.
  intros Hk Hp k.
  assert ((λ t, (id t, t)) <$> l ≡ₚ map_to_list m) as Hp'
    by (by rewrite <-keyed_values, Hp).
  assert (NoDup (id <$> l)) as Hnd.
  { assert (id <$> l = ((λ t, (id t, t)) <$> l).*1) as -> by (by rewrite <-list_fmap_compose).
    rewrite Hp'. apply NoDup_fst_map_to_list. }
  rewrite load_map by done. rewrite (right_id_L ∅ (∪)). rewrite <-(list_to_map_to_list m).
  apply list_to_map_proper; [|done]. by rewrite <-list_fmap_compose.
Qed.

(** The counter read back is above every counter value in the file. *)
Lemma load_seq l n acc :
  n <= u64_max → (∀ t, t ∈ l → minted n (id t)) →
  acc.2 <= (foldl load_step acc l).2 ∧
  ∀ t, t ∈ l → minted (foldl load_step acc l).2 (id t).
Proof.
  intros Hn. revert acc. induction l as [|t l IH]; intros [m k] Hl; simpl.
  { split; [done|]. set_solver. }
  destruct (Hl t) as (now & s & Hid & ? & ?); [left|].
  assert (parse_unsigned u64_max (rsplit_next "-" (id t)) = Some s) as ->.
  { rewrite Hid. unfold rsplit_next. rewrite split_ticket_id by lia. simpl.
    apply parse_dec. lia. }
  rewrite u64_wrap_small by (unfold u64_max in *; lia).
  edestruct (IH (<[id t := t]> m, Z.max k (s + 1))) as [Hge Hmi].
  { intros u Hu. apply Hl. by right. }
  simpl in Hge. split; [lia|]. intros u [->|Hu]%elem_of_cons; [|by apply Hmi].
  exists now, s. split; [done|]. lia.
Qed.

Section File.
Context `{CryptoLaws, TicketJsonLaws}.

(** What was written decodes to the tickets of the map. *)
Lemma write_read env s m data :
  write_file_locked env s m = Ok data →
  is_empty (trim data) = false ∧
  (bytes ← decode_maybe_encrypted TICKET_ENC_MAGIC data (encrypt_key s); from_slice bytes) =
    Ok (sort_desc (values m)).
Proof.
  unfold write_file_locked. cbv [mbind result_bind].
  destruct (to_vec_pretty (sort_desc (values m))) as [plain|] eqn:Ej; [|done].
  pose proof (json_roundtrip _ _ Ej) as Hr. pose proof (json_object _ _ Ej) as [mid Hmid].
  destruct (encrypt_key s) as [key|] eqn:Ek.
  - destruct (encrypt_blob _ _ _ _ _) as [d|] eqn:Eb; [|done].
    destruct (io env) as [[]|]; [|done]. intros [= ->].
    pose proof (decode_sealed TICKET_ENC_MAGIC _ _ _ _ _ eq_refl Eb) as Hd. rewrite Hd. split; [|done].
    destruct (trim data) as [|c rest] eqn:Et; [|done]. exfalso.
    unfold decode_maybe_encrypted in Hd. rewrite Et in Hd. cbn in Hd. injection Hd as <-.
    discriminate Hmid.
  - destruct (io env) as [[]|]; [|done]. intros [= <-].
    assert (trim plain = plain) as Ht by (rewrite Hmid; apply trim_solid; by vm_compute).
    rewrite decode_plain by (rewrite ?Hmid, ?trim_solid; by vm_compute).
    rewrite Ht, Hr, Hmid. done.
Qed.

Lemma persist_reload_lemma env env' w w' p :
  path (store w) = Some p → store_ok (abs w) → seq (store w) <= u64_max → io env' = Ok tt →
  persist env w = (Ok tt, w') →
  ∃ w2, with_file env' p (encrypt_key (store w)) (disk w') = Ok w2 ∧
    inner (store w2) = inner (store w) ∧ store_ok (abs w2).
Proof.
  intros Hp [_ Hok] Hseq Hio. unfold persist. rewrite Hp.
  destruct (write_file_locked env _ _) as [data|] eqn:Ew; [|done]. intros [= <-].
  apply write_read in Ew as [Hne Hdec]. unfold with_file, load_from_disk.
  cbn [store path disk encrypt_key]. rewrite Hio, Hne, Hdec.
  assert (keyed (inner (store w))) as Hk.
  { intros tid t Ht. by apply Hok in Ht as [(? & _) _]. }
  pose proof (load_keyed _ _ Hk (sort_desc_perm _) 1) as Hm.
  destruct (load_seq (sort_desc (values (inner (store w)))) (seq (store w)) (∅, 1))
    as [Hge Hmi]; [done| |].
  { intros t Ht. rewrite sort_desc_perm in Ht. apply list_elem_of_fmap in Ht as ([tid u] & -> & Ht).
    apply elem_of_map_to_list in Ht. simpl. rewrite (Hk _ _ Ht). by apply (Hok tid u). }
  destruct (foldl _ _ _) as [m2 s2]; simpl in *. subst m2.
  eexists. split; [done|]. split; [done|]. split; [simpl; lia|]. simpl.
  intros tid t Ht. split; [by apply Hok|]. rewrite <-(Hk _ _ Ht). apply Hmi.
  rewrite sort_desc_perm. apply list_elem_of_fmap. exists (tid, t).
  split; [done|]. by apply elem_of_map_to_list.
Qed.
End File.

End TicketSpec.
