(* ===== verification/TicketTheorems.v ===== *)
(** * Theorems about approval tickets

    The properties of the ticket store of [gateway/core/src/ticket.rs], each
    with an instance at concrete inputs.  The instances use a toy cipher and a
    toy serializer that satisfy the laws assumed of the real crates. *)

From S2P Require Import Prelude RustStr StateCrypto Ticket TicketSpec.
Import StateCrypto Ticket TicketSpec.

Module TicketTheorems.

(** ** Concrete instances *)

#[export] Instance Ticket_eq_dec : EqDecision Ticket.
Proof. solve_decision. Defined.

Definition toy_env (now : Z) : Env := mkEnv now (now, now) (Ok tt).

(** Drop a table, asked for by alice, under dual control. *)
Definition toy_request : IssueTicketRequest :=
  mkIssue ($"bob") ($"DROP TABLE t;") [] 60 1 None (Some ($"Alice")) true.

Definition toy_ticket : Ticket :=
  mkTicket ($"tkt-1000-1") ($"high_risk") ($"bob") ($"drop table t") (Some ($"DROP TABLE t;"))
    1000 61000 1 0 (Some ($"Alice")) None true Pending None None None None.

(** A serializer for two files. *)
#[export] Instance toy_json : TicketJson := {
  to_vec_pretty l :=
    if decide (l = []) then Ok ($"{}")
    else if decide (l = [toy_ticket]) then Ok ($"{1}")
    else Err ($"unsupported");
  from_slice b :=
    if str_eqb b ($"{}") then Ok [] else if str_eqb b ($"{1}") then Ok [toy_ticket]
    else Err ($"unsupported")
}.

#[export] Instance toy_json_laws : TicketJsonLaws.
Proof.
  split; intros l b; simpl.
  - destruct (decide _); [intros [= <-]; by exists []|].
    destruct (decide _); [|done]. intros [= <-]. by exists ["1"%char].
  - destruct (decide _) as [->|]; [by intros [= <-]|].
    destruct (decide _) as [->|]; [by intros [= <-]|done].
Qed.

Definition toy_world : World := mkWorld (mkStore ∅ 1 (Some ($"tickets.json")) (Some ($"k"))) None.

Definition toy_ops : list op :=
  [OIssue (toy_env 1000) toy_request;
   OApprove (toy_env 1001) ($"tkt-1000-1") ($"ALICE ");
   OConsume (toy_env 1002) ($"tkt-1000-1") ($"bob") ($"drop table T") None;
   OApprove (toy_env 1003) ($"tkt-1000-1") ($" carol ");
   OConsume (toy_env 1004) ($"tkt-1000-1") ($"BOB") ($"drop  table T") (Some ($"high_risk"));
   OConsume (toy_env 1005) ($"tkt-1000-1") ($"bob") ($"drop table t") None;
   OReject (toy_env 1006) ($"tkt-1000-1") ($"dave") None;
   OPrune (toy_env 70000)].

Example toy_events :
  (run_ops toy_ops toy_world).1 =
  [Issued toy_ticket; Refused; Refused; Approved ($"tkt-1000-1") ($"carol");
   Consumed ($"tkt-1000-1") 1004; Refused; Refused; Pruned 70000].
Proof. vm_compute. reflexivity. Qed.

(** ** Runs *)

Section Runs.
Context `{Crypto, TicketJson}.

(** Operations whose clock readings are [u64] values and that are fewer than
    the counter can number. *)
Definition ops_ok (os : list op) : Prop :=
  Forall (λ o, 0 <= now_unix_ms (op_env o)) os ∧ Z.of_nat (length os) < u64_max - 1.

Lemma run_op_seq o w ev w' :
  0 <= seq (store w) < u64_max → run_op o w = (ev, w') →
  seq (store w) <= seq (store w') <= seq (store w) + 1.
Proof.
  intros Hs.
  assert (u64_wrap (seq (store w) + 1) = seq (store w) + 1) as Hw.
  { apply u64_wrap_small. unfold u64_max in *. lia. }
  destruct o as [env req|env tid by_|env tid by_ reason|env|env tid subj sql ty]; simpl in *.
  - destruct (issue env req w) as [[t w1]|] eqn:E; intros [= <- <-]; simpl; [|lia].
    apply issue_inv in E as (_ & Ha & _). apply (f_equal snd) in Ha. simpl in Ha. lia.
  - destruct (approve env tid by_ w) as [r w1] eqn:E; intros [= <- <-].
    apply approve_inv in E. destruct r as [t'|e]; [|subst; lia].
    destruct E as (t & _ & -> & -> & _). unfold put. rewrite persisted_store. simpl. lia.
  - destruct (reject env tid by_ reason w) as [r w1] eqn:E; intros [= <- <-].
    apply reject_inv in E. destruct r as [t'|e]; [|subst; lia].
    destruct E as (t & _ & -> & -> & _). unfold put. rewrite persisted_store. simpl. lia.
  - intros [= <- <-]. case_match; rewrite ?persisted_store; simpl; lia.
  - unfold consume. cbv [mbind exec_bind].
    destruct (sql_fingerprint sql) as [fp|]; [|intros [= <- <-]; lia].
    destruct (inner (store w) !! tid) as [t|]; [|intros [= <- <-]; lia].
    destruct (check_consume _ _ _ _ _ _) as [[]|e]; intros [= <- <-]; [|lia].
    unfold put. rewrite persisted_store. simpl. lia.
Qed.

Lemma run_ops_from os w evs0 evs w' :
  run evs0 (abs w) → 0 <= seq (store w) →
  Forall (λ o, 0 <= now_unix_ms (op_env o)) os →
  seq (store w) + Z.of_nat (length os) < u64_max →
  run_ops os w = (evs, w') → run (evs0 ++ evs) (abs w').
Proof.
  revert w evs0 evs. induction os as [|o os IH]; intros w evs0 evs Hr Hs Hos Hlen; simpl.
  - intros [= <- <-]. by rewrite app_nil_r.
  - destruct (run_op o w) as [ev w1] eqn:E1. destruct (run_ops os w1) as [evs2 w2] eqn:E2.
    intros [= <- <-]. apply Forall_cons in Hos as [Ho Hos].
    change (ev :: evs2) with ([ev] ++ evs2). rewrite app_assoc. simpl length in Hlen.
    apply run_op_seq in E1 as Hseq; [|lia].
    apply (IH w1); [|lia|done|lia|exact E2].
    econstructor; [done|]. eapply run_op_refines_lemma; [done|lia|done].
Qed.

Lemma run_ops_run os w evs w' :
  abs w = (∅, 1) → ops_ok os → run_ops os w = (evs, w') → run evs (abs w').
Proof.
  intros Hw [Hos Hlen] Hr. assert (seq (store w) = 1) as Hs by (by apply (f_equal snd) in Hw).
  apply (run_ops_from os w [] evs w'); [rewrite Hw; constructor|lia|done|lia|done].
Qed.

(** C1 Refinement: whatever operations run on a fresh store, in whatever
    order, with whatever clock readings, file errors and panics, the events
    they report are a run of the abstract ticket machine ending in the
    tickets and counter of the store.  (Fewer than [2^64 - 2] operations: the
    identifier counter is a [u64].) *)
Theorem ticket_store_refines os w evs w' :
  abs w = (∅, 1) → ops_ok os → run_ops os w = (evs, w') → run evs (abs w') ∧ store_ok (abs w').
Proof. intros ? ? ?. assert (run evs (abs w')) by (by eapply run_ops_run). eauto using run_ok. Qed.

(** C13 Use budget: over any run, the number of statements a ticket lets
    through never exceeds the [max_uses] it was issued with, also after it
    was pruned. *)
Theorem ticket_budget os w evs w' t :
  abs w = (∅, 1) → ops_ok os → run_ops os w = (evs, w') → Issued t ∈ evs →
  spent (id t) evs <= max_uses t.
Proof.
  intros Hw Hos Hr Ht. eapply run_ops_run, run_history in Hr; [|done..].
  by apply (io_budget _ _ _ (ho_ok _ _ Hr t Ht)).
Qed.

(** C14 Dual control: if a ticket issued under dual control lets a statement
    through, somebody other than its issuer (compared ignoring ASCII case)
    approved it in the same run. *)
Theorem ticket_four_eyes os w evs w' t :
  abs w = (∅, 1) → ops_ok os → run_ops os w = (evs, w') → Issued t ∈ evs →
  dual_control t = true → 0 < spent (id t) evs →
  ∃ by_, Approved (id t) by_ ∈ evs ∧ by_ ≠ [] ∧
    ∀ issuer, issued_by t = Some issuer → to_ascii_lowercase issuer ≠ to_ascii_lowercase by_.
Proof.
  intros Hw Hos Hr Ht Hd Hs. eapply run_ops_run, run_history in Hr; [|done..].
  by apply (io_dual _ _ _ (ho_ok _ _ Hr t Ht)).
Qed.

(** Revocation: a ticket that was rejected or revoked in a run lets no
    statement through in that run, before or after. *)
Theorem ticket_revoked os w evs w' tid now :
  abs w = (∅, 1) → ops_ok os → run_ops os w = (evs, w') →
  Revoked tid ∈ evs → Consumed tid now ∉ evs.
Proof.
  intros Hw Hos Hr Hrev Hcon. eapply run_ops_run in Hr as Hrun; [|done..].
  apply run_history in Hrun as Hh.
  destruct (revoked_was_issued evs (abs w') tid Hrun Hrev) as (t & Ht & <-).
  apply (io_revoked _ _ _ (ho_ok _ _ Hh t Ht)) in Hrev.
  apply spent_pos in Hcon. lia.
Qed.
End Runs.

Lemma toy_ops_ok : ops_ok toy_ops.
Proof. split; [repeat constructor; simpl; lia|vm_compute; reflexivity]. Qed.

Definition toy_run := run_ops toy_ops toy_world.

Lemma ticket_store_refines_witness : run toy_run.1 (abs toy_run.2) ∧ store_ok (abs toy_run.2).
Proof.
  apply (ticket_store_refines toy_ops toy_world); [reflexivity|apply toy_ops_ok|].
  apply surjective_pairing.
Defined.

Lemma ticket_budget_witness :
  spent (id toy_ticket) toy_run.1 = 1 ∧ spent (id toy_ticket) toy_run.1 <= max_uses toy_ticket.
Proof.
  split; [vm_compute; reflexivity|].
  apply (ticket_budget toy_ops toy_world toy_run.1 toy_run.2);
    [reflexivity|apply toy_ops_ok|apply surjective_pairing|].
  vm_compute. left.
Defined.

Lemma ticket_four_eyes_witness : ∃ by_, Approved (id toy_ticket) by_ ∈ toy_run.1.
Proof.
  destruct (ticket_four_eyes toy_ops toy_world toy_run.1 toy_run.2 toy_ticket)
    as (by_ & Hby & _);
    [reflexivity|apply toy_ops_ok|apply surjective_pairing|vm_compute; left|reflexivity
    |vm_compute; reflexivity|].
  exists by_. exact Hby.
Defined.

(** The same ticket, revoked while it waits for approval. *)
Definition toy_revoke_ops : list op :=
  [OIssue (toy_env 1000) toy_request;
   OReject (toy_env 1001) ($"tkt-1000-1") ($"dave") (Some ($"not today"));
   OApprove (toy_env 1003) ($"tkt-1000-1") ($"carol");
   OConsume (toy_env 1004) ($"tkt-1000-1") ($"bob") ($"drop table t") None].

Lemma ticket_revoked_witness :
  Consumed ($"tkt-1000-1") 1004 ∉ (run_ops toy_revoke_ops toy_world).1.
Proof.
  apply (ticket_revoked toy_revoke_ops toy_world _ (run_ops toy_revoke_ops toy_world).2);
    [reflexivity| |apply surjective_pairing|].
  - split; [repeat constructor; simpl; lia|vm_compute; reflexivity].
  - vm_compute. right. left.
Defined.

(** ** Single operations *)

Section Operations.
Context `{Crypto, TicketJson}.

(** [consume] on a stored ticket: it succeeds exactly when the ticket is
    active, unexpired, has a use left, was issued to this subject (ignoring
    case), is of the expected type (if one is given) and is bound to the
    fingerprint of this statement; then it counts one use and touches no
    other ticket.  Otherwise it reports an error and changes nothing. *)
Theorem consume_spec env tid subject sql ty w t fp :
  inner (store w) !! tid = Some t → sql_fingerprint sql = Ret fp →
  (covers t (now_unix_ms env) subject fp ty →
   ∃ w', consume env tid subject sql ty w = Ret (Ok (used t), w') ∧
     inner (store w') = <[tid := used t]> (inner (store w)) ∧
     seq (store w') = seq (store w)) ∧
  (¬ covers t (now_unix_ms env) subject fp ty →
   ∃ e, consume env tid subject sql ty w = Ret (Err e, w)).
Proof.
  intros Ht Hfp. unfold consume. cbv [mbind exec_bind]. rewrite Hfp, Ht.
  pose proof (check_consume_ok t (now_unix_ms env) tid subject fp ty) as Hc.
  destruct (check_consume _ _ _ _ _ _) as [[]|e]; split; intros Hcov.
  - eexists. split; [done|]. unfold put. by rewrite persisted_store.
  - by destruct Hcov; apply Hc.
  - by apply Hc in Hcov.
  - by eexists.
Qed.

(** A ticket works for the statement it was issued for: issue one without
    dual control, send the same statement prefixed by the comment
    [/*dn_ticket:ID*/] before it expires, and the gateway finds the ticket's
    identifier in the text and consumes one use. *)
Theorem issue_then_use env env' req w t w' :
  issue env req w = Ret (t, w') →
  strip_ticket_comment (req_sql req) = Ret (req_sql req) →
  0 <= now_unix_ms env → 0 <= seq (store w) → req_dual_control req = false →
  now_unix_ms env' <= expires_at_unix_ms t →
  extract_ticket_id (bind_ticket (id t) (req_sql req)) = Ret (Some (id t)) ∧
  ∃ w2, consume env' (id t) (req_subject_id req) (bind_ticket (id t) (req_sql req)) None w' =
          Ret (Ok (used t), w2).
Proof.
  intros Hi Hstrip Hnow Hseq Hdual Hexp.
  apply issue_inv in Hi as ((Hid & Hu & Hmu & _ & Hst) & Ha & Hsub & Hfp & Hd & _).
  apply (f_equal fst) in Ha. simpl in Ha.
  assert (id t ≠ []) as Hne by (by rewrite Hid).
  assert (forallb solid (id t) = true) as Hsolid.
  { rewrite Hid. apply ticket_id_chars; [done..|apply digit_solid|by vm_compute]. }
  assert ("*"%char ∉ id t) as Hstar.
  { intros Hin. assert (forallb (λ c, negb (Ascii.eqb c "*")) (id t) = true) as Hf.
    - rewrite Hid. apply ticket_id_chars; [done..| |by vm_compute]. intros c. byte_cases c.
    - rewrite forallb_elem in Hf. by apply Hf in Hin. }
  split; [by apply bind_extract|].
  unfold consume. cbv [mbind exec_bind]. rewrite bind_fingerprint, Hfp, Ha, lookup_insert_eq by done.
  assert (check_consume t (now_unix_ms env') (id t) (req_subject_id req) (t_sql_fingerprint t) None
    = Ok tt) as ->; [|by eexists].
  apply check_consume_ok. unfold covers. rewrite Hst, Hd, Hdual, Hu, Hsub. split_and!; try done. lia.
Qed.

(** Pruning drops exactly the expired tickets and reports how many; none
    of them could have been consumed at that moment or later, so pruning
    takes no authorization away. *)
Theorem prune_spec env w n w' :
  prune_expired env w = (n, w') →
  Z.of_nat (size (inner (store w))) = n + Z.of_nat (size (inner (store w'))) ∧
  (∀ tid t, inner (store w') !! tid = Some t ↔
     inner (store w) !! tid = Some t ∧ now_unix_ms env <= expires_at_unix_ms t) ∧
  (∀ tid t later, inner (store w) !! tid = Some t → inner (store w') !! tid = None →
     now_unix_ms env <= later → is_consumable t later ≠ Ok tt).
Proof.
  unfold prune_expired. set (m' := filter _ (inner (store w))). intros [= Hn Hw].
  assert (inner (store w') = m') as ->.
  { rewrite <-Hw. case_match; by rewrite ?persisted_store. }
  assert (size m' ≤ size (inner (store w)))%nat.
  { apply map_subseteq_size. apply map_filter_subseteq. }
  assert (∀ tid t, m' !! tid = Some t ↔
     inner (store w) !! tid = Some t ∧ now_unix_ms env <= expires_at_unix_ms t) as Hl.
  { intros tid t. unfold m'. rewrite map_lookup_filter_Some. unfold is_expired. simpl.
    rewrite Z.ltb_ge. done. }
  split; [unfold sat_sub in Hn; lia|]. split; [done|].
  intros tid t later Ht Hnone Hlater Hc. apply is_consumable_ok in Hc as (? & _).
  assert (m' !! tid = Some t) by (apply Hl; split; [done|lia]). congruence.
Qed.
End Operations.

(** Restart: when the state file was written, a new process reading it (with
    the same encryption key) gets exactly the same tickets back, and a counter
    that is above every identifier in them, so the store invariant holds again
    and later identifiers are fresh. *)
Theorem ticket_file_restart `{CryptoLaws, TicketJsonLaws} env env' w w' p :
  path (store w) = Some p → store_ok (abs w) → seq (store w) <= u64_max → io env' = Ok tt →
  persist env w = (Ok tt, w') →
  ∃ w2, with_file env' p (encrypt_key (store w)) (disk w') = Ok w2 ∧
    inner (store w2) = inner (store w) ∧ store_ok (abs w2).
Proof. apply persist_reload_lemma. Qed.

(** A plain ticket for [SELECT 1], and the store after issuing it. *)
Definition toy_plain_request : IssueTicketRequest :=
  mkIssue ($"bob") ($" SELECT  1;") [] 60 2 None (Some ($"alice")) false.

Definition toy_plain : Ticket :=
  mkTicket ($"tkt-5-1") ($"high_risk") ($"bob") ($"select 1") (Some ($" SELECT  1;"))
    5 60005 2 0 (Some ($"alice")) None false Active None None None None.

Definition toy_plain_world : World := mkWorld (mkStore {[ $"tkt-5-1" := toy_plain ]} 2 None None) None.

Lemma consume_spec_witness :
  (∃ w', consume (toy_env 7) ($"tkt-5-1") ($"BOB") ($"select 1") None toy_plain_world =
     Ret (Ok (used toy_plain), w')) ∧
  (∃ e, consume (toy_env 7) ($"tkt-5-1") ($"eve") ($"select 1") None toy_plain_world =
     Ret (Err e, toy_plain_world)).
Proof.
  split.
  - destruct (consume_spec (toy_env 7) ($"tkt-5-1") ($"BOB") ($"select 1") None toy_plain_world
      toy_plain ($"select 1")) as [Hok _]; [reflexivity|vm_compute; reflexivity|].
    destruct Hok as (w' & Hw & _); [|exists w'; exact Hw].
    unfold covers. simpl. split_and!; try done; try lia.
  - destruct (consume_spec (toy_env 7) ($"tkt-5-1") ($"eve") ($"select 1") None toy_plain_world
      toy_plain ($"select 1")) as [_ Herr]; [reflexivity|vm_compute; reflexivity|].
    apply Herr. intros (_ & _ & _ & Hs & _). discriminate Hs.
Defined.

Lemma issue_then_use_witness :
  extract_ticket_id ($"/*dn_ticket:tkt-5-1*/ SELECT  1;") = Ret (Some ($"tkt-5-1")) ∧
  ∃ w2, consume (toy_env 9) ($"tkt-5-1") ($"bob") ($"/*dn_ticket:tkt-5-1*/ SELECT  1;") None
          toy_plain_world = Ret (Ok (used toy_plain), w2).
Proof.
  apply (issue_then_use (toy_env 5) (toy_env 9) toy_plain_request
           (mkWorld new_store None) toy_plain toy_plain_world);
    [vm_compute; reflexivity|vm_compute; reflexivity|vm_compute; congruence..].
Defined.

Lemma prune_spec_witness :
  (prune_expired (toy_env 60006) toy_plain_world).1 = 1 ∧ is_consumable toy_plain 60006 ≠ Ok tt.
Proof.
  split; [vm_compute; reflexivity|].
  destruct (prune_spec (toy_env 60006) toy_plain_world 1
    (prune_expired (toy_env 60006) toy_plain_world).2) as (_ & _ & Hgone);
    [vm_compute; reflexivity|].
  apply (Hgone ($"tkt-5-1") toy_plain 60006); [reflexivity|vm_compute; reflexivity|simpl; lia].
Defined.

Definition toy_issued : World := (run_op (OIssue (toy_env 1000) toy_request) toy_world).2.

Lemma ticket_file_restart_witness :
  ∃ w2, with_file (toy_env 2000) ($"tickets.json") (Some ($"k")) (disk toy_issued) = Ok w2 ∧
    inner (store w2) !! ($"tkt-1000-1") = Some toy_ticket.
Proof.
  destruct (ticket_file_restart (toy_env 1000) (toy_env 2000) toy_issued toy_issued
    ($"tickets.json")) as (w2 & Hw2 & Hin & _).
  - reflexivity.
  - apply (run_ok [Issued toy_ticket]). apply (run_step [] _ (∅, 1)); [constructor|].
    eapply run_op_refines_lemma with (o := OIssue (toy_env 1000) toy_request) (w := toy_world);
      [simpl; lia|simpl; unfold u64_max; lia|vm_compute; reflexivity].
  - vm_compute. congruence.
  - reflexivity.
  - vm_compute. reflexivity.
  - exists w2. split; [exact Hw2|]. rewrite Hin. vm_compute. reflexivity.
Defined.

(** ** Text functions *)

(** A statement that starts with the three bytes [/*/] panics in
    [strip_ticket_comment] (the slice [2..1]), hence in [sql_fingerprint] and
    [is_write_without_where], whatever follows. *)
Theorem ticket_comment_panics s :
  strip_ticket_comment ($"/*/" ++ s) = Panic ∧ sql_fingerprint ($"/*/" ++ s) = Panic ∧
  is_write_without_where ($"/*/" ++ s) = Panic ∧
  extract_ticket_id ($"/*/" ++ s) = Panic.
Proof.
  assert (trim_start ($"/*/" ++ s) = $"/*/" ++ s) as Ht by (apply trim_start_solid; by vm_compute).
  assert (find ($"/*/" ++ s) ($"*/") = Some 1%nat) as Hf by done.
  assert (strip_ticket_comment ($"/*/" ++ s) = Panic) as Hs.
  { unfold strip_ticket_comment. by rewrite Ht, Hf. }
  split; [done|]. unfold sql_fingerprint, is_write_without_where, extract_ticket_id.
  cbv [mbind exec_bind]. rewrite Hs, Ht, Hf. done.
Qed.

(** A [WHERE] inside a string literal hides a write without a [WHERE] clause. *)
Example where_in_literal :
  is_write_without_where ($"DELETE FROM t") = Ret true ∧
  is_write_without_where ($"UPDATE t SET c = ' WHERE '") = Ret false.
Proof. split; vm_compute; reflexivity. Qed.

End TicketTheorems.
