(* ===== verification/Obligations.v ===== *)
(** * Obligations ([gateway/core/src/obligations.rs])

    What an allow decision makes the gateway do: mask result columns, add a row
    filter to the statement, cut the result, watermark it.  The rendering of an
    [f64] is an argument ([f64_to_string]).  [usize] is 64 bits wide. *)

From S2P Require Import Prelude RustStr Model.

Module Obligations.

Inductive MaskAlgorithm := Nullify | Partial | Hash | Replace | KeepPrefix.

#[export] Instance MaskAlgorithm_eq_dec : EqDecision MaskAlgorithm.
Proof. solve_decision. Defined.

Definition mask_parse (raw : str) : option MaskAlgorithm :=
  let s := to_ascii_lowercase (trim raw) in
  if is_empty s then None
  else if one_of [$"nullify"; $"null"] s then Some Nullify
  else if one_of [$"partial"; $"mask"] s then Some Partial
  else if str_eqb s ($"hash") then Some Hash
  else if str_eqb s ($"replace") then Some Replace
  else if one_of [$"keep_prefix"; $"prefix"] s then Some KeepPrefix
  else None.

Definition mask_as_str (m : MaskAlgorithm) : str :=
  match m with
  | Nullify => $"nullify"
  | Partial => $"partial"
  | Hash => $"hash"
  | Replace => $"replace"
  | KeepPrefix => $"keep_prefix"
  end.

Record MaskSpec := mkMask {
  column : str;
  algorithm : MaskAlgorithm;
  replace_with : str;
  prefix_len : Z;
  suffix_len : Z;
  mask_rule : str
}.

Definition default_prefix_len : Z := 3.
Definition default_suffix_len : Z := 2.

(** [MaskSpec::new]. *)
Definition new_mask (column : str) (algorithm : MaskAlgorithm) (rule : str) : MaskSpec :=
  mkMask column algorithm ($"***") default_prefix_len default_suffix_len rule.

Inductive WatermarkMode := WmColumn | WmSuffix.

Definition watermark_parse (raw : str) : WatermarkMode :=
  if str_eqb (to_ascii_lowercase (trim raw)) ($"suffix") then WmSuffix else WmColumn.

Definition watermark_as_str (m : WatermarkMode) : str :=
  match m with WmColumn => $"column" | WmSuffix => $"suffix" end.

Record WatermarkSpec := mkWatermark { wm_mode : WatermarkMode; wm_column : str; wm_token : str }.

Definition column_token (column token : str) : WatermarkSpec := mkWatermark WmColumn column token.

Record Obligations := mkObligations {
  column_masks : list MaskSpec;
  row_filter : option str;
  max_rows : option Z;
  audit_level : option str;
  watermark : option WatermarkSpec
}.

Definition default_obligations : Obligations := mkObligations [] None None None None.

Definition obligations_is_empty (o : Obligations) : bool :=
  is_empty (column_masks o) && is_none (row_filter o) && is_none (max_rows o)
  && is_none (audit_level o) && is_none (watermark o).

(** [for m in other { if !self.iter().any(same column) { self.push(m) } }]. *)
Definition push_mask (masks : list MaskSpec) (m : MaskSpec) : list MaskSpec :=
  if existsb (λ x, eq_ignore_ascii_case (column x) (column m)) masks then masks
  else masks ++ [m].

Definition merge (self other : Obligations) : Obligations := {|
  column_masks := foldl push_mask (column_masks self) (column_masks other);
  row_filter :=
    match row_filter self, row_filter other with
    | None, f => f
    | Some existing, Some extra => Some ($"(" ++ existing ++ $") AND (" ++ extra ++ $")")
    | Some existing, None => Some existing
    end;
  max_rows :=
    match max_rows self, max_rows other with
    | Some a, Some b => Some (Z.min a b)
    | None, Some b => Some b
    | a, None => a
    end;
  audit_level := match audit_level self with None => audit_level other | l => l end;
  watermark := match watermark self with None => watermark other | w => w end
|}.

Definition has_result_obligations (o : Obligations) : bool :=
  negb (is_empty (column_masks o)) || negb (is_none (max_rows o)) || negb (is_none (watermark o)).

(** ** Masking a value *)

(** [String::from_utf8_lossy]: each maximal ill-formed part becomes U+FFFD. *)
Definition replacement : str := ["239"%char; "191"%char; "189"%char].

Fixpoint from_utf8_lossy (s : str) : str :=
  match s with
  | [] => []
  | b0 :: s1 =>
      if byte_in 0 127 b0 then b0 :: from_utf8_lossy s1
      else if byte_in 194 223 b0 then
        match s1 with
        | b1 :: s2 =>
            if is_cont b1 then b0 :: b1 :: from_utf8_lossy s2
            else replacement ++ from_utf8_lossy s1
        | [] => replacement
        end
      else if byte_in 224 239 b0 then
        match s1 with
        | b1 :: s2 =>
            if (if Ascii.eqb b0 "224" then byte_in 160 191 b1
                else if Ascii.eqb b0 "237" then byte_in 128 159 b1
                else is_cont b1) then
              match s2 with
              | b2 :: s3 =>
                  if is_cont b2 then b0 :: b1 :: b2 :: from_utf8_lossy s3
                  else replacement ++ from_utf8_lossy s2
              | [] => replacement
              end
            else replacement ++ from_utf8_lossy s1
        | [] => replacement
        end
      else if byte_in 240 244 b0 then
        match s1 with
        | b1 :: s2 =>
            if (if Ascii.eqb b0 "240" then byte_in 144 191 b1
                else if Ascii.eqb b0 "244" then byte_in 128 143 b1
                else is_cont b1) then
              match s2 with
              | b2 :: s3 =>
                  if is_cont b2 then
                    match s3 with
                    | b3 :: s4 =>
                        if is_cont b3 then b0 :: b1 :: b2 :: b3 :: from_utf8_lossy s4
                        else replacement ++ from_utf8_lossy s3
                    | [] => replacement
                    end
                  else replacement ++ from_utf8_lossy s2
              | [] => replacement
              end
            else replacement ++ from_utf8_lossy s1
        | [] => replacement
        end
      else replacement ++ from_utf8_lossy s1
  end.

(** FNV-1a, 64 bits. *)
Definition fnv_step (hash : Z) (byte : ascii) : Z :=
  u64_wrap (Z.lxor hash (Z.of_N (N_of_ascii byte)) * 1099511628211).

Definition simple_fingerprint (input : str) : str :=
  hex016 (foldl fnv_step 14695981039346656037 input).

(** The additions and subtractions wrap as in a release build. *)
Definition partial_mask (s : str) (prefix suffix : Z) : str :=
  let cs := chars s in
  let n := Z.of_nat (length cs) in
  if n =? 0 then []
  else if n <=? u64_wrap (prefix + suffix) then replicate (Z.to_nat (Z.max n 1)) "*"%char
  else
    concat (take (Z.to_nat prefix) cs)
    ++ replicate (Z.to_nat (u64_wrap (u64_wrap (n - prefix) - suffix))) "*"%char
    ++ concat (drop (Z.to_nat (u64_wrap (n - suffix))) cs).

Definition keep_prefix_mask (s : str) (prefix : Z) : str :=
  let cs := chars s in
  if is_empty cs then []
  else
    let keep := Z.min prefix (Z.of_nat (length cs)) in
    concat (take (Z.to_nat keep) cs)
    ++ (if keep <? Z.of_nat (length cs) then $"***" else []).

Section Values.
(** [f64]'s [Display], by bit pattern. *)
Context (f64_to_string : Z → str).

Definition value_as_display (v : GatewayValue) : str :=
  match v with
  | Null => []
  | Boolean b => if b then $"true" else $"false"
  | Integer i => dec_signed i
  | UnsignedInteger u => dec u
  | Float f => f64_to_string f
  | Decimal s | VString s => s
  | Bytes b => from_utf8_lossy b
  end.

Definition mask_gateway_value (value : GatewayValue) (spec : MaskSpec) : GatewayValue :=
  match algorithm spec with
  | Nullify => Null
  | Replace => VString (if is_empty (replace_with spec) then $"***" else replace_with spec)
  | Hash => VString ($"hash:" ++ simple_fingerprint (value_as_display value))
  | Partial => VString (partial_mask (value_as_display value) (prefix_len spec) (suffix_len spec))
  | KeepPrefix => VString (keep_prefix_mask (value_as_display value) (prefix_len spec))
  end.

(** ** The result path *)

(** [if let Some(cell) = row.get_mut(i) { *cell = mask(cell, spec) }]. *)
Definition mask_cell (row : list GatewayValue) (e : nat * MaskSpec) : list GatewayValue :=
  match row !! e.1 with
  | Some cell => <[e.1 := mask_gateway_value cell e.2]> row
  | None => row
  end.

Definition apply_masks_to_rows (rows : list (list GatewayValue)) (mask_idx : list (nat * MaskSpec))
    : list (list GatewayValue) :=
  if is_empty mask_idx then rows else map (λ row, foldl mask_cell row mask_idx) rows.

(** The name a result column is looked up by. *)
Definition bare_name (name : str) : str :=
  to_ascii_lowercase (trim_matches dquote (trim_matches "`" (rsplit_next "." name))).

Definition by_name (masks : list MaskSpec) : gmap str MaskSpec :=
  foldl (λ m spec, <[to_ascii_lowercase (column spec) := spec]> m) ∅ masks.

Definition build_mask_index (columns : list Column) (masks : list MaskSpec)
    : list (nat * MaskSpec) :=
  let names := by_name masks in
  concat (imap (λ i col,
    match names !! bare_name (column_name col) with
    | Some spec => [(i, spec)]
    | None => []
    end) columns).

(** The inner loop of the suffix watermark: [Some row'] when a string cell was
    found ([applied]). *)
Fixpoint mark_first_string (marker : str) (row : list GatewayValue) : option (list GatewayValue) :=
  match row with
  | [] => None
  | VString s :: row' =>
      Some (VString (if contains s ($" |wm=") then s else s ++ marker) :: row')
  | cell :: row' => cons cell <$> mark_first_string marker row'
  end.

Definition mark_row (marker : str) (row : list GatewayValue) : list GatewayValue :=
  match mark_first_string marker row with
  | Some row' => row'
  | None =>
      match last row with
      | Some l => removelast row ++ [VString (value_as_display l ++ marker)]
      | None => row
      end
  end.

Definition apply_watermark_to_resultset (columns : list Column) (rows : list (list GatewayValue))
    (wm : WatermarkSpec) : list Column * list (list GatewayValue) :=
  match wm_mode wm with
  | WmColumn =>
      let name := if is_empty (trim (wm_column wm)) then $"_dn_wm" else wm_column wm in
      if existsb (λ c, eq_ignore_ascii_case (column_name c) name) columns then (columns, rows)
      else (columns ++ [mkColumn name ($"varchar")], map (λ row, row ++ [VString (wm_token wm)]) rows)
  | WmSuffix => (columns, map (mark_row ($" |wm=" ++ wm_token wm)) rows)
  end.

Definition truncate_rows (max_rows : option Z) (rows : list (list GatewayValue))
    : list (list GatewayValue) :=
  match max_rows with
  | Some max => if max <? Z.of_nat (length rows) then take (Z.to_nat max) rows else rows
  | None => rows
  end.

Definition watermarked (o : Obligations) (columns : list Column) (rows : list (list GatewayValue))
    : list Column * list (list GatewayValue) :=
  match watermark o with
  | Some wm => apply_watermark_to_resultset columns rows wm
  | None => (columns, rows)
  end.

(** The [ResultSet] arm. *)
Definition apply_to_resultset (columns : list Column) (rows : list (list GatewayValue))
    (o : Obligations) : list Column * list (list GatewayValue) :=
  let mask_idx := build_mask_index columns (column_masks o) in
  let rows := apply_masks_to_rows rows mask_idx in
  let rows := truncate_rows (max_rows o) rows in
  watermarked o columns rows.

Definition apply_obligations_to_response (response : GatewayResponse) (o : Obligations)
    : GatewayResponse :=
  if negb (has_result_obligations o) then response
  else
    match response with
    | ResultSet columns rows =>
        let '(columns, rows) := apply_to_resultset columns rows o in ResultSet columns rows
    | TaggedResultSet columns rows tag =>
        let '(columns, rows) := apply_to_resultset columns rows o in
        TaggedResultSet columns rows tag
    | other => other
    end.

(** The [while !rows.is_empty()] loop; each turn takes at least one row, so
    the number of rows is fuel enough. *)
Fixpoint window_loop (fuel window : nat) (mask_idx : list (nat * MaskSpec))
    (rows out : list (list GatewayValue)) : list (list GatewayValue) :=
  match fuel, rows with
  | _, [] => out
  | O, _ => out
  | S fuel', _ =>
      let n := Nat.min window (length rows) in
      window_loop fuel' window mask_idx (drop n rows)
        (out ++ apply_masks_to_rows (take n rows) mask_idx)
  end.

Definition apply_obligations_windowed (columns : list Column) (rows : list (list GatewayValue))
    (o : Obligations) (window_rows : Z) : GatewayResponse :=
  if negb (has_result_obligations o) then ResultSet columns rows
  else
    let rows := truncate_rows (max_rows o) rows in
    let mask_idx := build_mask_index columns (column_masks o) in
    let rows :=
      if is_empty mask_idx then rows
      else window_loop (length rows) (Z.to_nat (Z.max window_rows 1)) mask_idx rows [] in
    let '(columns, rows) := watermarked o columns rows in
    ResultSet columns rows.
End Values.

End Obligations.
