(* ===== verification/RowFilter.v ===== *)
(** * Row filters ([inject_row_filter] of [gateway/core/src/obligations.rs])

    The rewrite that adds a predicate to a [SELECT], and the keyword scanner it
    rests on.  [depth] is unbounded here (the [i32] of the source would need
    [2^31] nested parentheses). *)

From S2P Require Import Prelude RustStr.

Module RowFilter.

(** The scanner's [in_single], [in_double], [in_back]: at most one is set. *)
Inductive quoting := Plain | InSingle | InDouble | InBack.

Definition closing (q : quoting) : option ascii :=
  match q with
  | Plain => None
  | InSingle => Some "'"%char
  | InDouble => Some dquote
  | InBack => Some "`"%char
  end.

(** The scanner's state after one byte. *)
Definition lex_step (st : quoting * Z) (c : ascii) : quoting * Z :=
  let '(q, depth) := st in
  match closing q with
  | Some e => (if Ascii.eqb c e then Plain else q, depth)
  | None =>
      if Ascii.eqb c "'" then (InSingle, depth)
      else if Ascii.eqb c dquote then (InDouble, depth)
      else if Ascii.eqb c "`" then (InBack, depth)
      else if Ascii.eqb c "(" then (Plain, depth + 1)
      else if Ascii.eqb c ")" then (Plain, depth - 1)
      else (Plain, depth)
  end.

(** The byte falls in the [_] arm of the [match]. *)
Definition ordinary (c : ascii) : bool :=
  negb (existsb (Ascii.eqb c) ["'"%char; dquote; "`"%char; "("%char; ")"%char]).

Definition quoting_eqb (p q : quoting) : bool :=
  match p, q with
  | Plain, Plain | InSingle, InSingle | InDouble, InDouble | InBack, InBack => true
  | _, _ => false
  end.

(** The test of the [_] arm (and that the [_] arm is reached) where [s] is
    [bytes[i..]] and [prev] is [bytes[i - 1]]. *)
Definition hit (key s : str) (c : ascii) (prev : option ascii) (st : quoting * Z) : bool :=
  quoting_eqb st.1 Plain && ordinary c && (st.2 =? 0) && starts_with s key
  && match prev with Some p => negb (is_ascii_alphanumeric p) | None => true end
  && match drop (length key) s with a :: _ => negb (is_ascii_alphanumeric a) | [] => true end.

(** The loop at index [i]. *)
Fixpoint keyword_scan (key s : str) (prev : option ascii) (st : quoting * Z) (i : nat)
    : option nat :=
  match s with
  | [] => None
  | c :: s' =>
      if (length s <? length key)%nat then None
      else if hit key s c prev st then Some i
      else keyword_scan key s' (Some c) (lex_step st c) (S i)
  end.

Definition find_top_level_keyword (sql keyword : str) : option nat :=
  keyword_scan (to_ascii_uppercase keyword) (to_ascii_uppercase sql) None (Plain, 0) 0.

(** [best.map_or(idx, |b| b.min(idx))] over the keywords. *)
Definition first_keyword (keys : list str) (sql : str) : option nat :=
  foldl (λ best key,
    match find_top_level_keyword sql key with
    | Some idx => Some (match best with Some b => Nat.min b idx | None => idx end)
    | None => best
    end) None keys.

Definition find_post_where_boundary (sql : str) : option nat :=
  first_keyword [$"GROUP"; $"HAVING"; $"ORDER"; $"LIMIT"; $"FOR"; $"WINDOW"; $"FETCH"; $"OFFSET"] sql.

Definition find_post_from_boundary (sql : str) : option nat :=
  first_keyword
    [$"WHERE"; $"GROUP"; $"HAVING"; $"ORDER"; $"LIMIT"; $"FOR"; $"WINDOW"; $"FETCH"; $"OFFSET"] sql.

(** [if !tail.is_empty() { out.push(' '); out.push_str(tail) }]. *)
Definition with_tail (tail : str) : str := if is_empty tail then [] else $" " ++ tail.

Definition inject_row_filter (sql predicate : str) : exec (option str) :=
  let pred := trim predicate in
  if is_empty pred then Ret (Some sql)
  else
    let trimmed := trim_start sql in
    let upper := to_ascii_uppercase trimmed in
    if negb (starts_with upper ($"SELECT") || starts_with upper ($"WITH")) then Ret None
    else if contains upper ($" UNION ") then Ret None
    else
      match find_top_level_keyword trimmed ($"FROM") with
      | None => Ret None
      | Some _ =>
          let prefix_ws := (length sql - length trimmed)%nat in
          lead ← slice_to sql prefix_ws;
          match find_top_level_keyword trimmed ($"WHERE") with
          | Some where_idx =>
              let after_where_kw := (where_idx + 5)%nat in
              after ← slice_from trimmed after_where_kw;
              let where_body_start :=
                (after_where_kw + length (take_while char_is_whitespace (chars after)))%nat in
              rest ← slice_from trimmed where_body_start;
              let boundary := default (length rest) (find_post_where_boundary rest) in
              body ← slice_to rest boundary;
              tail ← slice_from rest boundary;
              head ← slice_to trimmed where_body_start;
              Ret (Some (lead ++ head ++ $"(" ++ trim_end body ++ $") AND (" ++ pred ++ $")"
                         ++ with_tail (trim_start tail)))
          | None =>
              let insert_at := default (length trimmed) (find_post_from_boundary trimmed) in
              head ← slice_to trimmed insert_at;
              tail ← slice_from trimmed insert_at;
              Ret (Some (lead ++ trim_end head ++ $" WHERE (" ++ pred ++ $")"
                         ++ with_tail (trim_start tail)))
          end
      end.

Example inject_plain :
  inject_row_filter ($"SELECT id, name FROM employees") ($"tenant_id = 1") =
  Ret (Some ($"SELECT id, name FROM employees WHERE (tenant_id = 1)")).
Proof. vm_compute. reflexivity. Qed.

Example inject_where :
  inject_row_filter ($"SELECT id FROM employees WHERE a = 1 OR b = 2 ORDER BY id") ($"tenant_id = 1") =
  Ret (Some ($"SELECT id FROM employees WHERE (a = 1 OR b = 2) AND (tenant_id = 1) ORDER BY id")).
Proof. vm_compute. reflexivity. Qed.

Example inject_no_from : inject_row_filter ($"SELECT 'a FROM b'") ($"x = 1") = Ret None.
Proof. vm_compute. reflexivity. Qed.

(** ** Specification of the scanner *)

(** The lexical state before position [i]. *)
Definition lex_at (s : str) (i : nat) : quoting * Z := foldl lex_step (Plain, 0) (take i s).

(** [key] occurs at [i] outside quotes and parentheses, between non-word bytes. *)
Definition top_level_at (s key : str) (i : nat) : Prop :=
  lex_at s i = (Plain, 0) ∧ starts_with (drop i s) key = true ∧
  (∀ j p, i = S j → s !! j = Some p → is_ascii_alphanumeric p = false) ∧
  (∀ a, s !! (i + length key)%nat = Some a → is_ascii_alphanumeric a = false).

(** The condition the loop tests at the end of [pre]. *)
Lemma top_level_at_app pre s key :
  top_level_at (pre ++ s) key (length pre) ↔
  foldl lex_step (Plain, 0) pre = (Plain, 0) ∧ starts_with s key = true ∧
  (∀ p, last pre = Some p → is_ascii_alphanumeric p = false) ∧
  (∀ a, s !! length key = Some a → is_ascii_alphanumeric a = false).
Proof.
  unfold top_level_at, lex_at. rewrite take_app_length, drop_app_length.
  setoid_rewrite (lookup_app_r pre s (length pre + length key)); [|lia].
  replace (length pre + length key - length pre)%nat with (length key) by lia.
  enough ((∀ j p, length pre = S j → (pre ++ s) !! j = Some p → is_ascii_alphanumeric p = false) ↔
    (∀ p, last pre = Some p → is_ascii_alphanumeric p = false)) as -> by done.
  rewrite last_lookup. split.
  - intros Hj p Hp. apply (Hj (pred (length pre)) p).
    + apply lookup_lt_Some in Hp. lia.
    + by apply lookup_app_l_Some.
  - intros Hp j p Hl Hj. apply Hp. rewrite Hl. simpl. by rewrite lookup_app_l in Hj by lia.
Qed.

(** A keyword starts with a byte that is neither a quote nor a parenthesis. *)
Definition keyword (key : str) : Prop := ∃ c k, key = c :: k ∧ ordinary c = true.

Lemma hit_iff key pre c s :
  keyword key →
  hit key (c :: s) c (last pre) (foldl lex_step (Plain, 0) pre) = true ↔
  top_level_at (pre ++ c :: s) key (length pre).
Proof.
  intros (c0 & k & Hkey & Hord). rewrite top_level_at_app. unfold hit.
  rewrite !andb_true_iff, Z.eqb_eq.
  destruct (foldl lex_step (Plain, 0) pre) as [q d]. simpl fst. simpl snd.
  assert (quoting_eqb q Plain = true ↔ q = Plain) as -> by (by destruct q).
  assert (starts_with (c :: s) key = true → ordinary c = true) as Ho.
  { rewrite Hkey. cbn [starts_with]. intros [E _]%andb_true_iff.
    by apply Ascii.eqb_eq in E as ->. }
  assert (match last pre with Some p => negb (is_ascii_alphanumeric p) | None => true end = true ↔
    ∀ p, last pre = Some p → is_ascii_alphanumeric p = false) as ->.
  { destruct (last pre); rewrite ?negb_true_iff; naive_solver. }
  assert (match drop (length key) (c :: s) with
          | a :: _ => negb (is_ascii_alphanumeric a) | [] => true end = true ↔
    ∀ a, (c :: s) !! length key = Some a → is_ascii_alphanumeric a = false) as ->.
  { pose proof (lookup_drop (c :: s) (length key) 0) as Hd. rewrite Nat.add_0_r in Hd.
    rewrite <-Hd. destruct (drop (length key) (c :: s)); simpl; rewrite ?negb_true_iff; naive_solver. }
  naive_solver.
Qed.

Lemma keyword_scan_spec key s pre i :
  keyword key →
  keyword_scan key s (last pre) (foldl lex_step (Plain, 0) pre) (length pre) = Some i ↔
  (length pre ≤ i)%nat ∧ top_level_at (pre ++ s) key i ∧
  ∀ j, (length pre ≤ j < i)%nat → ¬ top_level_at (pre ++ s) key j.
Proof.
  intros Hk. revert pre. induction s as [|c s IH]; intros pre; cbn [keyword_scan].
  { split; [done|]. intros (Hle & (_ & Hst & _) & _). exfalso.
    destruct Hk as (c0 & k & Hkey & _). rewrite app_nil_r, drop_ge in Hst by done.
    by rewrite Hkey in Hst. }
  specialize (IH (pre ++ [c])). rewrite foldl_snoc, last_snoc, length_app, <-app_assoc in IH.
  cbn [app length] in IH. rewrite Nat.add_1_r in IH.
  destruct (length (c :: s) <? length key)%nat eqn:Elen.
  { split; [done|]. intros (Hle & (_ & Hst & _) & _). exfalso. apply starts_with_length in Hst.
    apply Nat.ltb_lt in Elen. rewrite length_drop, length_app in Hst. simpl in *. lia. }
  pose proof (hit_iff key pre c s Hk) as Hb. destruct (hit _ _ _ _ _).
  - split.
    + intros [= <-]. split; [done|]. split; [by apply Hb|]. intros; lia.
    + intros (Hle & Hi & Hleast). f_equal.
      destruct (decide (length pre = i)); [done|]. exfalso.
      apply (Hleast (length pre)); [lia|]. by apply Hb.
  - rewrite IH. assert (¬ top_level_at (pre ++ c :: s) key (length pre)) as Hno by (by intros ?%Hb).
    split; intros (Hle & Hi & Hleast).
    + split; [lia|]. split; [done|]. intros j Hj.
      destruct (decide (j = length pre)) as [->|]; [done|]. apply Hleast. lia.
    + assert (i ≠ length pre) by (by intros ->). split; [lia|]. split; [done|].
      intros j Hj. apply Hleast. lia.
Qed.

(** [i] is the first top-level occurrence. *)
Definition first_top_level (s key : str) (i : nat) : Prop :=
  top_level_at s key i ∧ ∀ j, (j < i)%nat → ¬ top_level_at s key j.

Lemma find_keyword_iff sql kw i :
  keyword (to_ascii_uppercase kw) →
  find_top_level_keyword sql kw = Some i ↔
  first_top_level (to_ascii_uppercase sql) (to_ascii_uppercase kw) i.
Proof.
  intros Hk. pose proof (keyword_scan_spec _ (to_ascii_uppercase sql) [] i Hk) as Hs.
  simpl in Hs. unfold find_top_level_keyword, first_top_level. rewrite Hs.
  split; [intros (_ & ? & Hl)|intros (? & Hl)]; split_and!; try done; try lia.
  - intros j Hj. apply Hl. lia.
  - intros j Hj. apply Hl. lia.
Qed.

(** ** The shape of a rewritten statement *)

Lemma find_keyword_bound sql kw i :
  keyword (to_ascii_uppercase kw) → find_top_level_keyword sql kw = Some i →
  (i + length kw ≤ length sql)%nat ∧
  starts_with (to_ascii_uppercase (drop i sql)) (to_ascii_uppercase kw) = true.
Proof.
  intros Hk Hi. apply find_keyword_iff in Hi as [(_ & Hs & _) _]; [|done].
  unfold to_ascii_uppercase in *. rewrite <-fmap_drop in Hs. split; [|done].
  destruct Hk as (c & k & Hc & _).
  apply starts_with_length in Hs. rewrite !length_fmap, length_drop in Hs.
  assert (length kw ≠ 0)%nat by (destruct kw; simpl in *; [done|lia]). lia.
Qed.

Definition best_of (keys : list str) (sql : str) (b0 : option nat) : option nat :=
  foldl (λ best key,
    match find_top_level_keyword sql key with
    | Some idx => Some (match best with Some b => Nat.min b idx | None => idx end)
    | None => best
    end) b0 keys.

Lemma best_of_spec keys sql b0 i :
  best_of keys sql b0 = Some i →
  b0 = Some i ∨ ∃ k, k ∈ keys ∧ find_top_level_keyword sql k = Some i.
Proof.
  revert b0. induction keys as [|k keys IH]; intros b0; simpl; [by left|].
  intros [Hb|(k' & ? & ?)]%IH; [|right; exists k'; set_solver].
  destruct (find_top_level_keyword sql k) as [idx|] eqn:E; [|by left].
  injection Hb as Hb. destruct b0 as [b|].
  - destruct (Nat.min_spec b idx) as [[_ Hm]|[_ Hm]]; rewrite Hm in Hb; subst; [by left|].
    right. exists k. split; [left|done].
  - subst. right. exists k. split; [left|done].
Qed.

(** A tail is empty or starts a clause that follows [WHERE]. *)
Definition clause_keywords : list str :=
  [$"WHERE"; $"GROUP"; $"HAVING"; $"ORDER"; $"LIMIT"; $"FOR"; $"WINDOW"; $"FETCH"; $"OFFSET"].

Definition clause_tail (tail : str) : Prop :=
  tail = [] ∨ ∃ k, k ∈ clause_keywords ∧ starts_with (to_ascii_uppercase tail) k = true.

Lemma clause_keyword k : k ∈ clause_keywords → keyword (to_ascii_uppercase k) ∧ to_ascii_uppercase k = k.
Proof.
  unfold clause_keywords. rewrite !elem_of_cons, elem_of_nil.
  intros Hk; repeat destruct Hk as [->|Hk]; try done; by split; [eexists _, _|].
Qed.

Lemma first_keyword_tail keys sql :
  keys ⊆ clause_keywords →
  let i := default (length sql) (first_keyword keys sql) in
  (i ≤ length sql)%nat ∧ clause_tail (drop i sql).
Proof.
  intros Hsub. simpl. destruct (first_keyword keys sql) as [i|] eqn:E; simpl.
  - apply (best_of_spec keys sql None) in E as [?|(k & Hk & Hi)]; [done|].
    apply Hsub in Hk. destruct (clause_keyword k Hk) as [Hkw Hup].
    apply find_keyword_bound in Hi as [Hle Hst]; [|done]. split; [lia|].
    right. exists k. split; [done|]. by rewrite Hup in Hst.
  - split; [done|]. left. by apply drop_ge.
Qed.

(** The statement is a [SELECT] the rewrite accepts. *)
Definition rewriteable (sql : str) : bool :=
  let upper := to_ascii_uppercase (trim_start sql) in
  (starts_with upper ($"SELECT") || starts_with upper ($"WITH"))
  && negb (contains upper ($" UNION "))
  && match find_top_level_keyword (trim_start sql) ($"FROM") with Some _ => true | None => false end.

(** The three results: refused, an existing condition conjoined with the
    predicate, or a new [WHERE] clause. *)
Inductive filtered (sql pred : str) : option str → Prop :=
| filtered_refused : rewriteable sql = false → filtered sql pred None
| filtered_and lead w ws body tail :
    sql = lead ++ w ++ ws ++ body ++ tail → to_ascii_uppercase w = $"WHERE" →
    trim_start ws = [] → clause_tail tail →
    filtered sql pred (Some (lead ++ w ++ ws ++ $"(" ++ trim_end body ++ $") AND (" ++ pred ++ $")"
                             ++ with_tail (trim_start tail)))
| filtered_new lead head tail :
    sql = lead ++ head ++ tail → clause_tail tail →
    find_top_level_keyword (trim_start sql) ($"WHERE") = None →
    filtered sql pred (Some (lead ++ trim_end head ++ $" WHERE (" ++ pred ++ $")"
                             ++ with_tail (trim_start tail))).

Lemma starts_with_take p s : starts_with s p = true → take (length p) s = p.
Proof. intros [k ->]%starts_with_spec. apply take_app_length. Qed.

Lemma take_while_ascii s :
  ascii_only s →
  let n := length (take_while char_is_whitespace (chars s)) in
  (n ≤ length s)%nat ∧ trim_start (take n s) = [].
Proof.
  intros Hs. rewrite chars_ascii by done. induction s as [|c s IH]; [done|].
  apply Forall_cons in Hs as [Hc Hs]. specialize (IH Hs). destruct IH as [IH1 IH2].
  cbn [map take_while]. destruct (char_is_whitespace [c]) eqn:E; simpl; [|split; [lia|done]].
  split; [lia|]. unfold trim_start in *.
  rewrite chars_cons_ascii by (by apply Forall_take).
  cbn [drop_while]. by rewrite E.
Qed.

Lemma take_add_drop {A} n m (l : list A) : take (n + m) l = take n l ++ take m (drop n l).
Proof.
  revert l. induction n as [|n IH]; intros l; [done|]. destruct l as [|x l]; simpl.
  - by rewrite take_nil.
  - by rewrite IH.
Qed.

(** The text up to the condition after [WHERE]. *)
Lemma where_head tr w :
  ascii_only tr → find_top_level_keyword tr ($"WHERE") = Some w →
  let n := length (take_while char_is_whitespace (chars (drop (w + 5) tr))) in
  (w + 5 + n ≤ length tr)%nat ∧
  ∃ lead kw ws, take (w + 5 + n) tr = lead ++ kw ++ ws ∧ to_ascii_uppercase kw = $"WHERE" ∧
    trim_start ws = [].
Proof.
  intros Ha Hw. apply find_keyword_bound in Hw as [Hle Hst]; [|by eexists _, _].
  simpl length in Hle.
  destruct (take_while_ascii (drop (w + 5) tr)) as [Hn Hws]; [by apply Forall_drop|].
  rewrite length_drop in Hn. split; [lia|].
  exists (take w tr), (take 5 (drop w tr)), (take (length (take_while char_is_whitespace
    (chars (drop (w + 5) tr)))) (drop (w + 5) tr)).
  split; [by rewrite app_assoc, <-!take_add_drop|]. split; [|done].
  apply starts_with_take in Hst. unfold to_ascii_uppercase in *.
  etransitivity; [apply fmap_take|]. exact Hst.
Qed.

(** The rest of a slice split at a clause. *)
Lemma boundary_split keys rest :
  ascii_only rest → keys ⊆ clause_keywords →
  let i := default (length rest) (first_keyword keys rest) in
  slice_to rest i = Ret (take i rest) ∧ slice_from rest i = Ret (drop i rest) ∧
  clause_tail (drop i rest).
Proof.
  intros Ha Hk. simpl. pose proof (first_keyword_tail keys rest Hk) as [Hi Ht]. simpl in *.
  by rewrite slice_to_ascii, slice_from_ascii.
Qed.

Lemma inject_filtered sql predicate :
  ascii_only sql → trim predicate ≠ [] →
  ∃ r, inject_row_filter sql predicate = Ret r ∧ filtered sql (trim predicate) r.
Proof.
  intros Ha Hp. unfold inject_row_filter.
  destruct (is_empty (trim predicate)) eqn:Ep; [by destruct (trim predicate)|].
  pose proof (filtered_refused sql (trim predicate)) as Hnone. unfold rewriteable in Hnone.
  destruct (starts_with _ _ || starts_with _ _) eqn:Es; cbn [negb]; [|by eauto].
  destruct (contains _ _) eqn:Eu; [by eauto|].
  destruct (find_top_level_keyword (trim_start sql) ($"FROM")) as [f|] eqn:Ef; [|by eauto].
  clear Hnone Es Eu Ef Ep. destruct (trim_start_suffix sql) as (lead & Hsql & _).
  pose proof (filtered_new sql (trim predicate)) as Hnew.
  set (tr := trim_start sql) in *. clearbody tr.
  assert (ascii_only tr) as Htr by (rewrite Hsql in Ha; by apply Forall_app in Ha as [_ ?]).
  assert (length sql - length tr = length lead)%nat as -> by (rewrite Hsql, length_app; lia).
  rewrite (slice_to_ascii sql); [|done|rewrite Hsql, length_app; lia].
  assert (take (length lead) sql = lead) as -> by (rewrite Hsql; apply take_app_length).
  cbv [mbind exec_bind].
  destruct (find_top_level_keyword tr ($"WHERE")) as [w|] eqn:Ew.
  - destruct (where_head tr w Htr Ew) as [Hle (l & kw & ws & Hhead & Hkw & Hws)].
    rewrite slice_from_ascii by (done || lia). cbv beta iota zeta.
    set (n := length (take_while _ _)) in *. rewrite slice_from_ascii by done.
    set (rest := drop (w + 5 + n) tr).
    destruct (boundary_split [$"GROUP"; $"HAVING"; $"ORDER"; $"LIMIT"; $"FOR"; $"WINDOW";
      $"FETCH"; $"OFFSET"] rest) as (H1 & H2 & H3); [by apply Forall_drop|set_solver|].
    unfold find_post_where_boundary. rewrite H1, H2, slice_to_ascii, Hhead by done.
    eexists. split; [done|].
    rewrite <-!(app_assoc l), <-!(app_assoc kw), !(app_assoc lead l).
    apply filtered_and; [|done..].
    rewrite Hsql. rewrite <-(take_drop (w + 5 + n) tr), Hhead. fold rest.
    by rewrite take_drop, <-!app_assoc.
  - destruct (boundary_split clause_keywords tr) as (H1 & H2 & H3); [done..|].
    unfold find_post_from_boundary. unfold clause_keywords in *. rewrite H1, H2.
    eexists. split; [done|]. apply Hnew; [|done..]. by rewrite take_drop.
Qed.

End RowFilter.
