(* ===== verification/ObligationTheorems.v ===== *)
(** * Theorems about obligations

    Masking, truncation and watermarks on the result path, merging of
    obligations, and the row-filter rewrite. *)

From S2P Require Import Prelude RustStr Model DangerousSql Obligations RowFilter.
Import Obligations RowFilter.

Module ObligationTheorems.

(** ** The mask index *)

(** The mask that applies to a (lower-case, unqualified) column name: the last
    one listed for it. *)
Definition mask_for (masks : list MaskSpec) (name : str) : option MaskSpec :=
  last (filter (λ m, to_ascii_lowercase (column m) = name) masks).

Lemma by_name_lookup masks name : by_name masks !! name = mask_for masks name.
Proof.
  unfold by_name, mask_for. induction masks as [|m masks IH] using rev_ind; [done|].
  rewrite foldl_snoc, filter_app, lookup_insert. simpl.
  rewrite filter_cons, filter_nil. case_decide as E.
  - by rewrite last_snoc.
  - by rewrite app_nil_r.
Qed.

(** The mask of the [i]-th result column. *)
Definition column_mask (columns : list Column) (masks : list MaskSpec) (i : nat) : option MaskSpec :=
  columns !! i ≫= λ c, mask_for masks (bare_name (column_name c)).

Lemma mask_index_aux (g : Column → option MaskSpec) columns (k : nat) :
  let idx := concat (imap (λ i c, match g c with Some spec => [((k + i)%nat, spec)] | None => [] end) columns) in
  NoDup idx.*1 ∧ ∀ i spec, (i, spec) ∈ idx ↔
    ∃ j, i = (k + j)%nat ∧ columns !! j ≫= g = Some spec.
Proof.
  revert k. induction columns as [|c columns IH]; intros k; simpl.
  { split; [constructor|]. intros i spec. rewrite elem_of_nil. naive_solver. }
  destruct (IH (S k)) as [Hnd Hel].
  assert (imap ((λ i c, match g c with Some spec => [((k + i)%nat, spec)] | None => [] end) ∘ S) columns =
          imap (λ i c, match g c with Some spec => [((S k + i)%nat, spec)] | None => [] end) columns) as ->.
  { apply imap_ext. intros i x _. simpl. by replace (k + S i)%nat with (S (k + i)) by lia. }
  set (rest := concat _) in *.
  assert (∀ i spec, (i, spec) ∈ rest → k < i)%nat as Hgt.
  { intros i spec (j & -> & _)%Hel. lia. }
  assert (∀ i spec, (∃ j, i = (k + j)%nat ∧ (c :: columns) !! j ≫= g = Some spec) ↔
    (i = k ∧ g c = Some spec) ∨ (i, spec) ∈ rest) as Hsplit.
  { intros i spec. rewrite Hel. split.
    - intros ([|j] & -> & Hj); [left; split; [lia|done]|right; exists j; split; [lia|done]].
    - intros [[-> ?]|(j & -> & ?)]; [exists 0%nat|exists (S j)]; (split; [lia|done]). }
  destruct (g c) as [sp|] eqn:Eg; simpl.
  - split.
    + constructor; [|done]. rewrite Nat.add_0_r. intros ([i spec] & Hk & Hin)%list_elem_of_fmap.
      simpl in Hk. apply Hgt in Hin. lia.
    + intros i spec. rewrite elem_of_cons, Hsplit, Nat.add_0_r. naive_solver.
  - split; [done|]. intros i spec. rewrite Hsplit. naive_solver.
Qed.

Lemma mask_index_spec columns masks :
  NoDup (build_mask_index columns masks).*1 ∧
  ∀ i spec, (i, spec) ∈ build_mask_index columns masks ↔ column_mask columns masks i = Some spec.
Proof.
  pose proof (mask_index_aux (λ c, by_name masks !! bare_name (column_name c)) columns 0) as [Hnd Hel].
  simpl in *. split; [done|]. intros i spec. unfold build_mask_index, column_mask. rewrite Hel.
  assert (∀ j, columns !! j ≫= (λ c, by_name masks !! bare_name (column_name c)) =
    columns !! j ≫= (λ c, mask_for masks (bare_name (column_name c)))) as Hj.
  { intros j. destruct (columns !! j); simpl; [apply by_name_lookup|done]. }
  rewrite <-Hj. split; [by intros (j & -> & ?)|]. intros ?. by exists i.
Qed.

Section Masking.
Context (f64_to_string : Z → str).
Abbreviation mask_value := (mask_gateway_value f64_to_string).

Lemma mask_cells_lookup idx row j :
  NoDup idx.*1 →
  foldl (mask_cell f64_to_string) row idx !! j =
  match list_find (λ e, e.1 = j) idx with
  | Some (_, (_, spec)) => (λ v, mask_value v spec) <$> row !! j
  | None => row !! j
  end.
Proof.
  revert row. induction idx as [|[i spec] idx IH]; intros row Hnd; [done|].
  apply NoDup_cons in Hnd as [Hi Hnd]. cbn [foldl]. rewrite IH by done. cbn [list_find].
  assert (mask_cell f64_to_string row (i, spec) !! j =
    if decide (i = j) then (λ v, mask_value v spec) <$> row !! j else row !! j) as ->.
  { unfold mask_cell. simpl. destruct (row !! i) as [v|] eqn:E; case_decide as Hij.
    - subst. rewrite list_lookup_insert_eq by (by eapply lookup_lt_Some). by rewrite E.
    - by rewrite list_lookup_insert_ne.
    - subst. by rewrite E.
    - done. }
  simpl fst. destruct (decide (i = j)) as [->|Hij]; simpl.
  - destruct (list_find _ idx) as [[k [i' spec']]|] eqn:E; [|done].
    apply list_find_Some in E as (Hk & Hij & _). simpl in Hij. subst. exfalso. apply Hi.
    apply list_elem_of_fmap. exists (j, spec'). split; [done|]. by eapply list_elem_of_lookup_2.
  - by destruct (list_find _ idx) as [[k [i' spec']]|].
Qed.

(** A row after masking, cell by cell. *)
Lemma mask_row_lookup columns masks row j :
  foldl (mask_cell f64_to_string) row (build_mask_index columns masks) !! j =
  match column_mask columns masks j with
  | Some spec => (λ v, mask_value v spec) <$> row !! j
  | None => row !! j
  end.
Proof.
  destruct (mask_index_spec columns masks) as [Hnd Hel]. rewrite mask_cells_lookup by done.
  destruct (list_find _ _) as [[k [i spec]]|] eqn:E.
  - apply list_find_Some in E as (Hk & Hij & _). simpl in Hij. subst.
    apply list_elem_of_lookup_2, Hel in Hk. by rewrite Hk.
  - destruct (column_mask columns masks j) as [spec|] eqn:Ec; [|done]. exfalso.
    apply Hel in Ec. apply list_find_None in E. rewrite Forall_forall in E. by apply (E _ Ec).
Qed.

Lemma apply_masks_map rows idx :
  apply_masks_to_rows f64_to_string rows idx = map (λ row, foldl (mask_cell f64_to_string) row idx) rows.
Proof.
  unfold apply_masks_to_rows. destruct idx; simpl; [|done].
  induction rows; simpl; congruence.
Qed.

Lemma window_loop_map fuel window idx rows out :
  (0 < window)%nat → (length rows ≤ fuel)%nat →
  window_loop f64_to_string fuel window idx rows out =
  out ++ apply_masks_to_rows f64_to_string rows idx.
Proof.
  intros Hw. revert rows out. induction fuel as [|fuel IH]; intros rows out Hf.
  { destruct rows; [|simpl in Hf; lia]. rewrite apply_masks_map. by rewrite app_nil_r. }
  destruct rows as [|row rows]; [rewrite apply_masks_map; by rewrite app_nil_r|].
  cbn [window_loop]. set (l := row :: rows) in *. rewrite IH.
  - rewrite !apply_masks_map, <-app_assoc, <-map_app. by rewrite take_drop.
  - rewrite length_drop. simpl in *. lia.
Qed.

Lemma truncate_map max (g : list GatewayValue → list GatewayValue) rows :
  truncate_rows max (map g rows) = map g (truncate_rows max rows).
Proof.
  unfold truncate_rows. destruct max as [m|]; [|done]. rewrite length_map.
  destruct (m <? _); [|done]. symmetry. apply fmap_take.
Qed.
End Masking.

(** ** Partial masks *)

Lemma concat_replicate_chars n : chars (replicate n "*"%char) = replicate n ["*"%char].
Proof.
  rewrite chars_ascii; [|by apply Forall_replicate].
  induction n; simpl; congruence.
Qed.

(** The characters of a partially masked text. *)
Lemma partial_mask_chars s p q :
  0 <= p → 0 <= q → p + q < 2 ^ 64 → Z.of_nat (length (chars s)) < 2 ^ 64 →
  chars (partial_mask s p q) =
  if Z.of_nat (length (chars s)) <=? p + q then replicate (length (chars s)) ["*"%char]
  else take (Z.to_nat p) (chars s)
       ++ replicate (length (chars s) - Z.to_nat p - Z.to_nat q) ["*"%char]
       ++ drop (length (chars s) - Z.to_nat q) (chars s).
Proof.
  intros Hp Hq Hpq Hn. unfold partial_mask. set (cs := chars s) in *.
  set (n := Z.of_nat (length cs)) in *.
  assert (∀ a, 0 <= a < 2 ^ 64 → u64_wrap a = a) as Hw by (intros; by apply Z.mod_small).
  rewrite (Hw (p + q)) by lia. destruct (n =? 0) eqn:E0; bool_hyps.
  { assert (length cs = 0)%nat as Hl by lia. rewrite Hl.
    destruct (n <=? p + q) eqn:E; [done|]. bool_hyps. lia. }
  destruct (n <=? p + q) eqn:E; bool_hyps.
  { rewrite concat_replicate_chars. f_equal. lia. }
  rewrite (Hw (n - p)), (Hw (n - p - q)), (Hw (n - q)) by lia.
  replace (Z.to_nat (n - p - q)) with (length cs - Z.to_nat p - Z.to_nat q)%nat by lia.
  replace (Z.to_nat (n - q)) with (length cs - Z.to_nat q)%nat by lia.
  destruct (length cs - Z.to_nat p - Z.to_nat q)%nat as [|k] eqn:Ek; [lia|].
  rewrite chars_app by (by intros d t [= <- _]).
  rewrite (chars_app (replicate _ _)).
  - rewrite concat_replicate_chars. f_equal; [|f_equal].
    + eapply (chars_prefix s _ (drop (Z.to_nat p) cs)). by rewrite take_drop.
    + eapply (chars_suffix s (take (length cs - Z.to_nat q) cs)). by rewrite take_drop.
  - intros d t Hd. eapply (chars_later_noncont s (take (length cs - Z.to_nat q) cs));
      [|intros Hnil|exact Hd].
    + by rewrite take_drop.
    + apply (f_equal length) in Hnil. rewrite length_take in Hnil. simpl in Hnil. lia.
Qed.

(** ** Merging *)

(** The first mask listed for a column (ignoring case). *)
Definition first_mask (name : str) (masks : list MaskSpec) : option MaskSpec :=
  head (filter (λ m, to_ascii_lowercase (column m) = to_ascii_lowercase name) masks).

Lemma push_mask_first name masks m :
  first_mask name (push_mask masks m) =
  match first_mask name masks with
  | Some x => Some x
  | None => if decide (to_ascii_lowercase (column m) = to_ascii_lowercase name) then Some m else None
  end.
Proof.
  unfold push_mask, first_mask. destruct (existsb _ masks) eqn:E.
  - apply existsb_elem in E as (x & Hx & Hm). apply eq_ignore_ascii_case_iff in Hm.
    destruct (head _) as [y|] eqn:Eh; [done|]. case_decide as Hd; [|done]. exfalso.
    destruct (filter _ masks) as [|z l] eqn:Ef; [|done].
    assert (x ∈ filter (λ m0, to_ascii_lowercase (column m0) = to_ascii_lowercase name) masks) as Hin.
    { apply list_elem_of_filter. split; [congruence|done]. }
    rewrite Ef in Hin. by apply elem_of_nil in Hin.
  - rewrite filter_app. destruct (filter _ masks) as [|z l]; [|done]. simpl.
    rewrite filter_cons, filter_nil. by case_decide.
Qed.

Lemma push_masks_first name masks others :
  first_mask name (foldl push_mask masks others) =
  match first_mask name masks with Some x => Some x | None => first_mask name others end.
Proof.
  revert masks. induction others as [|m others IH]; intros masks; simpl.
  { by destruct (first_mask name masks). }
  rewrite IH, push_mask_first. destruct (first_mask name masks); [done|].
  unfold first_mask. rewrite filter_cons. by case_decide.
Qed.

(** ** Watermarks *)

Section Watermark.
Context (f64_to_string : Z → str).

Lemma mark_first_string_idem tok row row' :
  mark_first_string ($" |wm=" ++ tok) row = Some row' →
  mark_first_string ($" |wm=" ++ tok) row' = Some row'.
Proof.
  revert row'. induction row as [|v row IH]; intros row' Hm; [done|].
  destruct v; cbn [mark_first_string] in Hm;
    try (destruct (mark_first_string _ row) as [r|] eqn:E; [|done]; injection Hm as <-;
         cbn [mark_first_string]; by rewrite (IH r eq_refl)).
  apply (inj Some) in Hm as <-. cbn [mark_first_string].
  destruct (contains s ($" |wm=")) eqn:E; [by rewrite E|by rewrite contains_app].
Qed.

Lemma mark_row_idem tok row :
  mark_row f64_to_string ($" |wm=" ++ tok) (mark_row f64_to_string ($" |wm=" ++ tok) row) =
  mark_row f64_to_string ($" |wm=" ++ tok) row.
Proof.
  unfold mark_row at 2 3. destruct (mark_first_string _ row) as [r|] eqn:E.
  { unfold mark_row. by rewrite (mark_first_string_idem _ _ _ E). }
  destruct (last row) as [v|] eqn:El; [|apply last_None in El as ->; done].
  apply last_Some in El as [k ->]. rewrite removelast_last.
  unfold mark_row. set (w := VString _).
  enough (mark_first_string ($" |wm=" ++ tok) (k ++ [w]) = Some (k ++ [w])) as -> by done.
  induction k as [|x k IH]; cbn [app].
  - unfold w. cbn [mark_first_string]. by rewrite contains_app.
  - destruct x; cbn [mark_first_string app] in E |- *;
      try (destruct (mark_first_string _ (k ++ [v])); [done|]; by rewrite IH).
    done.
Qed.

Lemma watermark_idem columns rows wm :
  let '(c1, r1) := apply_watermark_to_resultset f64_to_string columns rows wm in
  apply_watermark_to_resultset f64_to_string c1 r1 wm = (c1, r1).
Proof.
  unfold apply_watermark_to_resultset. destruct (wm_mode wm).
  - set (name := if is_empty _ then _ else _). destruct (existsb _ columns) eqn:E; [by rewrite E|].
    rewrite existsb_app. simpl. by rewrite eq_ignore_ascii_case_refl, orb_true_r.
  - f_equal. rewrite map_map. apply map_ext. intros row. apply mark_row_idem.
Qed.
End Watermark.

(** ** Properties *)

Section Properties.
Context (f64_to_string : Z → str).

(** [apply_obligations_windowed] (which only the tests call) returns what the
    full-response path returns, for every window size and all obligations. *)
Theorem windowed_equals_full columns rows o window :
  apply_obligations_windowed f64_to_string columns rows o window =
  apply_obligations_to_response f64_to_string (ResultSet columns rows) o.
Proof.
  unfold apply_obligations_windowed, apply_obligations_to_response, apply_to_resultset.
  destruct (negb (has_result_obligations o)); [done|].
  set (idx := build_mask_index columns (column_masks o)).
  enough ((if is_empty idx then truncate_rows (max_rows o) rows
           else window_loop f64_to_string (length (truncate_rows (max_rows o) rows))
                  (Z.to_nat (Z.max window 1)) idx (truncate_rows (max_rows o) rows) []) =
          truncate_rows (max_rows o) (apply_masks_to_rows f64_to_string rows idx)) as -> by done.
  rewrite apply_masks_map, truncate_map, <-apply_masks_map.
  destruct idx as [|e idx]; [done|]. cbn [is_empty]. by rewrite window_loop_map by lia.
Qed.

Lemma no_masks_index columns : build_mask_index columns [] = [].
Proof.
  unfold build_mask_index. cbn [by_name foldl]. generalize 0%nat as k. unfold imap.
  induction columns as [|c cs IH]; [done|]. apply IH.
Qed.

(** The response to a query, without a watermark. *)
Lemma full_response columns rows o :
  watermark o = None →
  apply_obligations_to_response f64_to_string (ResultSet columns rows) o =
  ResultSet columns (apply_masks_to_rows f64_to_string (truncate_rows (max_rows o) rows)
                       (build_mask_index columns (column_masks o))).
Proof.
  intros Hw. unfold apply_obligations_to_response, apply_to_resultset, watermarked. rewrite Hw.
  destruct (negb (has_result_obligations o)) eqn:Eh.
  - unfold has_result_obligations in Eh. bool_hyps. destruct (max_rows o); [done|]. destruct (column_masks o); [by rewrite no_masks_index|done].
  - by rewrite !apply_masks_map, truncate_map.
Qed.

(** C15 Masks are enforced on every row: in the response of an allowed query, before the
    watermark (if there is one) is stamped on it, a cell of a column that has a mask (matched
    on its bare name, ignoring case) is the masked value, every other cell is untouched, no
    row beyond [max_rows] is returned, and the columns stay as they were. *)
Theorem masks_enforced columns rows o :
  ∃ rows', apply_obligations_to_response f64_to_string (ResultSet columns rows) o =
             (let '(cs, rs) := watermarked f64_to_string o columns rows' in ResultSet cs rs) ∧
    (∀ m, max_rows o = Some m → 0 <= m → Z.of_nat (length rows') <= m) ∧
    ∀ r row', rows' !! r = Some row' → ∃ row, rows !! r = Some row ∧
      ∀ j, row' !! j =
        match column_mask columns (column_masks o) j with
        | Some spec => (λ v, mask_gateway_value f64_to_string v spec) <$> row !! j
        | None => row !! j
        end.
Proof.
  unfold apply_obligations_to_response, apply_to_resultset.
  destruct (negb (has_result_obligations o)) eqn:Eh.
  - exists rows. unfold has_result_obligations in Eh. bool_hyps. unfold watermarked.
    destruct (watermark o); [done|]. split; [done|].
    destruct (max_rows o); [done|]. split; [done|]. intros r row Hr. exists row. split; [done|].
    intros j. unfold column_mask. destruct (column_masks o); [|done].
    by destruct (columns !! j).
  - eexists. split; [done|]. split.
    + intros m Hm Hpos. rewrite Hm. unfold truncate_rows. destruct (m <? _) eqn:E; bool_hyps; [|done].
      rewrite length_take. lia.
    + intros r row' Hr. rewrite apply_masks_map, truncate_map in Hr.
      apply list_lookup_fmap_Some in Hr as (row & -> & Hr). exists row. split.
      * unfold truncate_rows in Hr. destruct (max_rows o) as [m|]; [|done].
        destruct (m <? _); [|done]. by apply lookup_take_Some in Hr as [? _].
      * intros j. apply mask_row_lookup.
Qed.

(** Applying the same watermark twice is applying it once. *)
Theorem watermark_idempotent columns rows wm :
  let '(c1, r1) := apply_watermark_to_resultset f64_to_string columns rows wm in
  apply_watermark_to_resultset f64_to_string c1 r1 wm = (c1, r1).
Proof. apply watermark_idem. Qed.
End Properties.

Definition toy_columns : list Column := [mkColumn ($"t.id") ($"int"); mkColumn ($"Salary") ($"int")].
Definition toy_obligations : Obligations :=
  mkObligations [new_mask ($"SALARY") Nullify ($"m")] None (Some 1) None None.

Lemma masks_enforced_witness :
  ∃ rows', apply_obligations_to_response (λ _, []) (ResultSet toy_columns
             [[Integer 1; Integer 90000]; [Integer 2; Integer 80000]]) toy_obligations =
             ResultSet toy_columns rows' ∧ Z.of_nat (length rows') <= 1.
Proof.
  destruct (masks_enforced (λ _, []) toy_columns
    [[Integer 1; Integer 90000]; [Integer 2; Integer 80000]] toy_obligations)
    as (rows' & Hr & Hm & _).
  exists rows'. split; [exact Hr|]. apply (Hm 1); [reflexivity|lia].
Defined.

Example masks_enforced_run :
  apply_obligations_to_response (λ _, []) (ResultSet toy_columns
    [[Integer 1; Integer 90000]; [Integer 2; Integer 80000]]) toy_obligations =
  ResultSet toy_columns [[Integer 1; Null]].
Proof. vm_compute. reflexivity. Qed.

(** A partial mask shows only the first [p] and last [q] characters: a text
    of at most [p + q] characters becomes as many stars, a longer one keeps its
    length and has stars at every position in between.  (No overflow of
    [p + q]; the source adds them as [usize].) *)
Theorem partial_mask_hides s p q :
  0 <= p → 0 <= q → p + q < 2 ^ 64 → Z.of_nat (length (chars s)) < 2 ^ 64 →
  length (chars (partial_mask s p q)) = length (chars s) ∧
  ∀ i c, chars s !! i = Some c →
    chars (partial_mask s p q) !! i = Some
      (if (p + q <? Z.of_nat (length (chars s)))
          && ((Z.of_nat i <? p) || (Z.of_nat (length (chars s)) - q <=? Z.of_nat i))
       then c else ["*"%char]).
Proof.
  intros Hp Hq Hpq Hn. rewrite partial_mask_chars by done. set (cs := chars s) in *.
  rewrite Z.leb_antisym. destruct (p + q <? Z.of_nat (length cs)) eqn:E; bool_hyps; cbn [negb andb].
  - split; [rewrite !length_app, length_take, length_replicate, length_drop; lia|].
    intros i c Hc. apply lookup_lt_Some in Hc as Hlt.
    destruct (Z.of_nat i <? p) eqn:Ei; bool_hyps; cbn [orb].
    { rewrite lookup_app_l by (rewrite length_take; lia). by rewrite lookup_take_lt by lia. }
    rewrite lookup_app_r by (rewrite length_take; lia). rewrite length_take.
    destruct (Z.of_nat (length cs) - q <=? Z.of_nat i) eqn:Eq; bool_hyps.
    + rewrite lookup_app_r by (rewrite length_replicate; lia).
      rewrite length_replicate, lookup_drop. rewrite <-Hc. f_equal. lia.
    + rewrite lookup_app_l by (rewrite length_replicate; lia). apply lookup_replicate_2. lia.
  - split; [by rewrite length_replicate|]. intros i c Hc. apply lookup_replicate_2.
    by eapply lookup_lt_Some.
Qed.

Lemma partial_mask_hides_witness :
  partial_mask ($"13812345678") 3 2 = $"138******78" ∧
  length (chars (partial_mask ($"13812345678") 3 2)) = 11%nat.
Proof.
  split; [vm_compute; reflexivity|].
  destruct (partial_mask_hides ($"13812345678") 3 2) as [Hl _]; [lia|lia|lia| |exact Hl].
  vm_compute. reflexivity.
Defined.

(** Merging obligations keeps the strictest of both: the row limit is the
    smaller one, each column masked by either side stays masked (the first
    mask given wins), both row filters are conjoined, and an audit level or
    watermark of either side survives; no obligation is dropped. *)
Theorem merge_keeps_both a b :
  (∀ m, max_rows a = Some m ∨ max_rows b = Some m →
     ∃ k, max_rows (merge a b) = Some k ∧ k <= m) ∧
  (∀ name, first_mask name (column_masks (merge a b)) =
     match first_mask name (column_masks a) with
     | Some m => Some m
     | None => first_mask name (column_masks b)
     end) ∧
  (∀ f g, row_filter a = Some f → row_filter b = Some g →
     row_filter (merge a b) = Some ($"(" ++ f ++ $") AND (" ++ g ++ $")")) ∧
  (row_filter (merge a b) = None ↔ row_filter a = None ∧ row_filter b = None) ∧
  (watermark (merge a b) = None ↔ watermark a = None ∧ watermark b = None) ∧
  (audit_level (merge a b) = None ↔ audit_level a = None ∧ audit_level b = None).
Proof.
  split_and!; simpl.
  - intros m Hm. destruct (max_rows a) as [x|], (max_rows b) as [y|]; naive_solver (eauto; lia).
  - intros name. apply push_masks_first.
  - by intros f g -> ->.
  - destruct (row_filter a), (row_filter b); naive_solver.
  - destruct (watermark a), (watermark b); naive_solver.
  - destruct (audit_level a), (audit_level b); naive_solver.
Qed.

(** ** Row filters *)

(** On ASCII SQL the row-filter rewrite never panics, and its result is the
    statement with its whole existing top-level condition parenthesised and
    conjoined with the predicate, or with a new [WHERE (predicate)] before the
    first following clause, or a refusal when the statement is not a plain
    [SELECT] with a top-level [FROM]. *)
Theorem row_filter_shape sql predicate :
  ascii_only sql → trim predicate ≠ [] →
  ∃ r, inject_row_filter sql predicate = Ret r ∧ filtered sql (trim predicate) r.
Proof. apply inject_filtered. Qed.

Lemma row_filter_shape_witness :
  ∃ r, inject_row_filter ($"SELECT a FROM t WHERE x = 1 OR y = 2 LIMIT 3") ($" z = 3 ") = Ret r ∧
    filtered ($"SELECT a FROM t WHERE x = 1 OR y = 2 LIMIT 3") ($"z = 3") r.
Proof.
  apply (row_filter_shape ($"SELECT a FROM t WHERE x = 1 OR y = 2 LIMIT 3") ($" z = 3 ")).
  - repeat constructor.
  - vm_compute. congruence.
Defined.

(** The keyword scanner returns the first position at which the keyword
    stands outside quotes and parentheses with no letter or digit next to it,
    and nothing when there is none. *)
Theorem find_keyword_spec sql kw i :
  keyword (to_ascii_uppercase kw) →
  find_top_level_keyword sql kw = Some i ↔
  first_top_level (to_ascii_uppercase sql) (to_ascii_uppercase kw) i.
Proof. apply find_keyword_iff. Qed.

Lemma find_keyword_spec_witness :
  first_top_level (to_ascii_uppercase ($"select (select 1 from u) from t")) ($"FROM") 25.
Proof.
  apply (find_keyword_spec ($"select (select 1 from u) from t") ($"from") 25).
  - exists "F"%char, ($"ROM"). split; vm_compute; reflexivity.
  - vm_compute. reflexivity.
Defined.

(** Three statements the rewrite gets wrong: a trailing line comment
    swallows the added [WHERE] clause (the server reads the same tokens as
    before the rewrite); a [UNION] after a line break is not recognised, so only
    the last branch is filtered; two-byte white space after [WHERE] makes it
    panic. *)
Theorem row_filter_escapes :
  (∃ out, inject_row_filter ($"SELECT id FROM employees -- ") ($"tenant_id = 1") = Ret (Some out) ∧
     DangerousSql.sql_tokens out MySql =
     DangerousSql.sql_tokens ($"SELECT id FROM employees -- ") MySql) ∧
  inject_row_filter ($"SELECT a FROM t" ++ ["010"%char] ++ $"UNION SELECT b FROM t") ($"x = 1") =
    Ret (Some ($"SELECT a FROM t" ++ ["010"%char] ++ $"UNION SELECT b FROM t WHERE (x = 1)")) ∧
  inject_row_filter ($"SELECT a FROM t WHERE" ++ ["194"%char; "160"%char] ++ $"b = 1") ($"x = 1") = Panic.
Proof. split_and!; [eexists; split|..]; vm_compute; reflexivity. Qed.

End ObligationTheorems.
