(* ===== verification/ObjectSet.v ===== *)
(** * Object sets ([gateway/core/src/object_set.rs])

    The tables and columns a statement touches, as the extractor of the runtime
    crate reports them to the policy decision point. *)

From S2P Require Import Prelude RustStr Model.

Module ObjectSet.

Inductive StarPolicy := StarDeny | StarAllow.

#[export] Instance StarPolicy_eq_dec : EqDecision StarPolicy.
Proof. solve_decision. Defined.

Definition star_from_config (raw : str) : StarPolicy :=
  if str_eqb (to_ascii_lowercase (trim raw)) ($"allow") then StarAllow else StarDeny.

Definition star_as_str (p : StarPolicy) : str :=
  match p with StarDeny => $"deny" | StarAllow => $"allow" end.

Record ObjectAccess := mkObject {
  schema : option str;
  table : str;
  obj_columns : list str;
  op : StatementAction;
  obj_has_wildcard : bool
}.

(** [ObjectAccess::new] and [with_schema]. *)
Definition new_object (table : str) (op : StatementAction) : ObjectAccess :=
  mkObject None table [] op false.
Definition with_schema (schema : option str) (o : ObjectAccess) : ObjectAccess :=
  mkObject schema (table o) (obj_columns o) (op o) (obj_has_wildcard o).

Definition qualified_table (o : ObjectAccess) : str :=
  match schema o with
  | Some s => if negb (is_empty s) then s ++ $"." ++ table o else table o
  | None => table o
  end.

Definition bare_columns (o : ObjectAccess) : list str :=
  map (λ c, to_ascii_lowercase (trim_matches dquote (trim_matches "`" (rsplit_next "." c))))
    (obj_columns o).

Record ObjectSet := mkObjectSet {
  objects : list ObjectAccess;
  parse_failed : bool;
  heuristic : bool
}.

Definition empty_objects : ObjectSet := mkObjectSet [] false false.
Definition parse_failed_objects : ObjectSet := mkObjectSet [] true false.

(** [if !out.iter().any(|t| t.eq_ignore_ascii_case(&q)) { out.push(q) }]. *)
Definition push_unique (out : list str) (name : str) : list str :=
  if existsb (λ t, eq_ignore_ascii_case t name) out then out else out ++ [name].

Definition tables (s : ObjectSet) : list str :=
  foldl (λ out o, push_unique (push_unique out (qualified_table o)) (table o)) [] (objects s).

Definition has_wildcard (s : ObjectSet) : bool := existsb obj_has_wildcard (objects s).

Definition primary_action (s : ObjectSet) : option StatementAction := op <$> head (objects s).

Inductive ColumnAclOutcome :=
| Unchanged
| Rewrite (sql : str)
| AclDeny (rule message : str).

(** ** Facts *)

Definition mem_ci (name : str) (l : list str) : Prop :=
  ∃ x, x ∈ l ∧ to_ascii_lowercase x = to_ascii_lowercase name.

Lemma push_unique_mem out name n :
  mem_ci n (push_unique out name) ↔ mem_ci n out ∨ to_ascii_lowercase n = to_ascii_lowercase name.
Proof.
  unfold push_unique, mem_ci. destruct (existsb _ out) eqn:E.
  - apply existsb_elem in E as (x & Hx & He%eq_ignore_ascii_case_iff).
    split; [by left|]. intros [?|Hn]; [done|]. exists x. split; [done|congruence].
  - setoid_rewrite elem_of_app. setoid_rewrite list_elem_of_singleton. naive_solver.
Qed.

(** The table list holds every object's bare and qualified name. *)
Lemma tables_mem s o : o ∈ objects s → mem_ci (qualified_table o) (tables s) ∧ mem_ci (table o) (tables s).
Proof.
  unfold tables. generalize (@nil str) as acc. induction (objects s) as [|o' l IH]; intros acc Ho;
    [by apply elem_of_nil in Ho|]. simpl.
  assert (∀ n acc', mem_ci n acc' →
    mem_ci n (foldl (λ out o, push_unique (push_unique out (qualified_table o)) (table o)) acc' l)) as Hkeep.
  { clear. induction l as [|o l IH]; intros n acc' Hn; [done|]. simpl. apply IH.
    rewrite !push_unique_mem. by left; left. }
  apply elem_of_cons in Ho as [->|Ho]; [|by apply IH].
  split; apply Hkeep; rewrite !push_unique_mem; auto.
Qed.

End ObjectSet.
