(* ===== verification/Security.v ===== *)
(** * Security configuration ([gateway/core/src/security.rs])

    The policy configuration, its defaults and its validation.  Whether the
    build has the [security-cedar] feature is the argument [cedar_feature]. *)

From S2P Require Import Prelude RustStr Model TimeRules Obligations.
Import TimeRules Obligations.

Module Security.

#[export] Instance SecurityTimeRuleConfig_eq_dec : EqDecision SecurityTimeRuleConfig.
Proof. solve_decision. Defined.

Record SecurityStateConfig := mkState {
  state_backend : str;
  ticket_path : str;
  vault_path : str;
  vault_encrypt_key : str;
  ticket_encrypt_key : str;
  policy_path : str;
  policy_poll_ms : Z
}.

Definition default_state : SecurityStateConfig := mkState ($"memory") [] [] [] [] [] 1000.

Record SecuritySubjectConfig := mkSubjectConfig { sources : list str }.

Definition default_subject : SecuritySubjectConfig := mkSubjectConfig [$"protocol_user"].

Record SecuritySubjectAttrConfig := mkSubjectAttr {
  sa_subject_id : str;
  sa_tenant : str;
  sa_clearance : str;
  sa_roles : list str
}.

Record SecurityTableAttrConfig := mkTableAttr {
  ta_table : str;
  ta_tenant : str;
  ta_clearance : str;
  ta_classification : str
}.

Record SecurityPdpConfig := mkPdpConfig {
  pdp_backend : str;
  policy_dir : str;
  cache_epoch_reload : bool;
  subject_attrs : list SecuritySubjectAttrConfig;
  table_attrs : list SecurityTableAttrConfig;
  remote_url : str;
  remote_timeout_ms : Z;
  remote_token : str;
  remote_fail_closed : bool
}.

Definition default_pdp : SecurityPdpConfig := mkPdpConfig ($"local") [] true [] [] [] 50 [] true.

Record SecurityStreamingConfig := mkStreaming {
  window_rows : Z;
  streaming_max_rows : option Z;
  max_bytes : option Z;
  passthrough : bool;
  backend_sql_with_hold : bool
}.

Definition default_streaming : SecurityStreamingConfig := mkStreaming 256 None None true false.

Record SecurityAuditConfig := mkAudit {
  queue_capacity : Z;
  priority_queue_capacity : Z;
  overflow : str;
  sinks : list str;
  file_path : str;
  max_file_bytes : Z;
  retain_days : Z;
  rotate_keep : Z;
  archive_dir : str;
  opendal_scheme : str;
  opendal_root : str;
  opendal_prefix : str;
  opendal_bucket : str;
  opendal_endpoint : str;
  opendal_region : str;
  opendal_access_key_id : str;
  opendal_secret_access_key : str;
  opendal_session_token : str;
  index_path : str;
  sql_text_max_chars : Z;
  sample_enabled : bool;
  sample_max_rows : Z;
  sample_max_bytes : Z;
  sample_prefix : str;
  sample_inline : bool
}.

Definition default_audit : SecurityAuditConfig :=
  mkAudit 65536 1024 ($"drop_new") [$"tracing"] [] 0 7 32 [] [] [] [] [] [] [] [] [] [] [] 2048
    false 5 4096 ($"samples") true.

Record SecurityRuleConfig := mkRule {
  rule_name : str;
  rule_effect : str;
  rule_actions : list str;
  rule_tables : list str;
  rule_columns : list str;
  rule_subjects : list str;
  rule_row_filter : option str
}.

Record SecurityMaskRuleConfig := mkMaskRule {
  mr_name : str;
  mr_algorithm : str;
  mr_replace_with : str;
  mr_prefix_len : Z;
  mr_suffix_len : Z
}.

Record SecurityColumnTagConfig := mkTag {
  tag_column : str;
  tag_tables : list str;
  tag_subjects : list str;
  tag_mask_rule : str;
  tag_label : str
}.

Record SecurityWatermarkConfig := mkWatermarkConfig {
  wm_enabled : bool;
  wm_cfg_mode : str;
  wm_cfg_column : str;
  wm_cfg_token : str
}.

Definition default_watermark : SecurityWatermarkConfig :=
  mkWatermarkConfig false ($"column") ($"_dn_wm") [].

Record SecurityHighRiskRuleConfig := mkHighRisk {
  hr_name : str;
  hr_kind : str;
  hr_ticket_type : str;
  hr_actions : list str;
  hr_tables : list str;
  hr_subjects : list str;
  hr_message : str
}.

Record SecurityPolicyConfig := mkPolicy {
  enabled : bool;
  cfg_fail_closed : bool;
  cfg_star_policy : str;
  default_audit_level : str;
  subject : SecuritySubjectConfig;
  pdp : SecurityPdpConfig;
  streaming : SecurityStreamingConfig;
  audit : SecurityAuditConfig;
  cfg_rules : list SecurityRuleConfig;
  cfg_mask_rules : list SecurityMaskRuleConfig;
  cfg_column_tags : list SecurityColumnTagConfig;
  cfg_high_risk_rules : list SecurityHighRiskRuleConfig;
  cfg_time_rules : list SecurityTimeRuleConfig;
  cfg_watermark : SecurityWatermarkConfig;
  state : SecurityStateConfig
}.

Definition default_policy : SecurityPolicyConfig :=
  mkPolicy false true ($"deny") ($"L0") default_subject default_pdp default_streaming default_audit
    [] [] [] [] [] default_watermark default_state.

#[export] Instance SecurityStateConfig_eq_dec : EqDecision SecurityStateConfig.
Proof. solve_decision. Defined.
#[export] Instance SecuritySubjectConfig_eq_dec : EqDecision SecuritySubjectConfig.
Proof. solve_decision. Defined.
#[export] Instance SecuritySubjectAttrConfig_eq_dec : EqDecision SecuritySubjectAttrConfig.
Proof. solve_decision. Defined.
#[export] Instance SecurityTableAttrConfig_eq_dec : EqDecision SecurityTableAttrConfig.
Proof. solve_decision. Defined.
#[export] Instance SecurityPdpConfig_eq_dec : EqDecision SecurityPdpConfig.
Proof. solve_decision. Defined.
#[export] Instance SecurityStreamingConfig_eq_dec : EqDecision SecurityStreamingConfig.
Proof. solve_decision. Defined.
#[export] Instance SecurityAuditConfig_eq_dec : EqDecision SecurityAuditConfig.
Proof. solve_decision. Defined.
#[export] Instance SecurityRuleConfig_eq_dec : EqDecision SecurityRuleConfig.
Proof. solve_decision. Defined.
#[export] Instance SecurityMaskRuleConfig_eq_dec : EqDecision SecurityMaskRuleConfig.
Proof. solve_decision. Defined.
#[export] Instance SecurityColumnTagConfig_eq_dec : EqDecision SecurityColumnTagConfig.
Proof. solve_decision. Defined.
#[export] Instance SecurityWatermarkConfig_eq_dec : EqDecision SecurityWatermarkConfig.
Proof. solve_decision. Defined.
#[export] Instance SecurityHighRiskRuleConfig_eq_dec : EqDecision SecurityHighRiskRuleConfig.
Proof. solve_decision. Defined.
#[export] Instance SecurityPolicyConfig_eq_dec : EqDecision SecurityPolicyConfig.
Proof. solve_decision. Defined.

(** ** Validation *)

(** [if cond { return Err(Configuration(message)) }]. *)
Definition reject_if (cond : bool) (message : str) : GatewayResult unit :=
  if cond then Err (Configuration message) else Ok tt.

(** [for (idx, x) in l.iter().enumerate() { check(idx, x)? }]. *)
Fixpoint check_each {A} (check : Z → A → GatewayResult unit) (idx : Z) (l : list A)
    : GatewayResult unit :=
  match l with
  | [] => Ok tt
  | x :: l' => _ ← check idx x; check_each check (idx + 1) l'
  end.

Section Validate.
Context (cedar_feature : bool).
Context `{Chrono}.

Definition validate_pdp (p : SecurityPdpConfig) : GatewayResult unit :=
  if str_eqb (pdp_backend p) ($"local") then Ok tt
  else if str_eqb (pdp_backend p) ($"cedar") then
    if negb cedar_feature then
      Err (Configuration ($"security.pdp.backend=cedar requires building with --features security-cedar (and rustc ≥1.88)"))
    else reject_if (is_empty (trim (policy_dir p)))
           ($"security.pdp.backend=cedar requires non-empty security.pdp.policy_dir")
  else if str_eqb (pdp_backend p) ($"remote") then
    _ ← reject_if (is_empty (trim (remote_url p)))
          ($"security.pdp.backend=remote requires non-empty security.pdp.remote_url");
    let url := trim (remote_url p) in
    _ ← reject_if (negb (starts_with url ($"http://") || starts_with url ($"https://")))
          ($"security.pdp.remote_url must be http(s) URL, got '" ++ url ++ $"'");
    reject_if ((remote_timeout_ms p =? 0) || (30000 <? remote_timeout_ms p))
      ($"security.pdp.remote_timeout_ms must be 1..=30000")
  else Err (Configuration ($"security.pdp.backend must be local, cedar, or remote, got '"
              ++ pdp_backend p ++ $"'")).

Definition validate_sample (c : SecurityPolicyConfig) : GatewayResult unit :=
  let a := audit c in
  if sample_enabled a then
    _ ← reject_if (negb (eq_ignore_ascii_case (default_audit_level c) ($"L2")))
          ($"security.audit.sample_enabled=true requires security.default_audit_level=L2 (samples never attach at L0/L1)");
    _ ← reject_if (sample_max_rows a =? 0)
          ($"security.audit.sample_max_rows must be >= 1 when sample_enabled=true");
    _ ← reject_if (sample_max_bytes a =? 0)
          ($"security.audit.sample_max_bytes must be >= 1 when sample_enabled=true");
    _ ← reject_if (1048576 <? sample_max_bytes a)
          ($"security.audit.sample_max_bytes must be <= 1048576 (1 MiB hard cap)");
    reject_if (10000 <? sample_max_rows a) ($"security.audit.sample_max_rows must be <= 10000")
  else Ok tt.

Definition validate_rule (idx : Z) (r : SecurityRuleConfig) : GatewayResult unit :=
  _ ← reject_if (is_empty (trim (rule_name r)))
        ($"security.rules[" ++ dec idx ++ $"].name must not be empty");
  reject_if (negb (one_of [$"allow"; $"deny"] (rule_effect r)))
    ($"security.rules[" ++ dec idx ++ $"].effect must be allow or deny, got '"
     ++ rule_effect r ++ $"'").

Definition validate_mask_rule (idx : Z) (m : SecurityMaskRuleConfig) : GatewayResult unit :=
  _ ← reject_if (is_empty (trim (mr_name m)))
        ($"security.mask_rules[" ++ dec idx ++ $"].name must not be empty");
  reject_if (is_none (mask_parse (mr_algorithm m)))
    ($"security.mask_rules[" ++ dec idx
     ++ $"].algorithm must be nullify|partial|hash|replace|keep_prefix, got '"
     ++ mr_algorithm m ++ $"'").

Definition validate_tag (masks : list SecurityMaskRuleConfig) (idx : Z)
    (t : SecurityColumnTagConfig) : GatewayResult unit :=
  _ ← reject_if (is_empty (trim (tag_column t)))
        ($"security.column_tags[" ++ dec idx ++ $"].column must not be empty");
  _ ← reject_if (is_empty (trim (tag_mask_rule t)))
        ($"security.column_tags[" ++ dec idx ++ $"].mask_rule must not be empty");
  reject_if (negb (existsb (λ m, eq_ignore_ascii_case (mr_name m) (tag_mask_rule t)) masks))
    ($"security.column_tags[" ++ dec idx ++ $"].mask_rule '" ++ tag_mask_rule t
     ++ $"' not found in mask_rules").

Definition validate_high_risk (idx : Z) (h : SecurityHighRiskRuleConfig) : GatewayResult unit :=
  _ ← reject_if (is_empty (trim (hr_name h)))
        ($"security.high_risk_rules[" ++ dec idx ++ $"].name must not be empty");
  _ ← reject_if (is_empty (trim (hr_ticket_type h)))
        ($"security.high_risk_rules[" ++ dec idx ++ $"].ticket_type must not be empty");
  reject_if
    (negb (one_of [$"ddl"; $"write_no_where"; $"action"; $"table_write"; $"export"]
             (to_ascii_lowercase (hr_kind h))))
    ($"security.high_risk_rules[" ++ dec idx
     ++ $"].kind must be ddl|write_no_where|action|table_write|export, got '"
     ++ to_ascii_lowercase (hr_kind h) ++ $"'").

Definition validate_state (s : SecurityStateConfig) : GatewayResult unit :=
  let backend := to_ascii_lowercase (trim (state_backend s)) in
  if one_of [$"memory"; []] backend then Ok tt
  else if str_eqb backend ($"file") then
    _ ← reject_if (is_empty (trim (ticket_path s)))
          ($"security.state.backend=file requires non-empty security.state.ticket_path");
    reject_if (is_empty (trim (vault_path s)))
      ($"security.state.backend=file requires non-empty security.state.vault_path")
  else if one_of [$"redis"; $"remote"] backend then
    Err (Configuration ($"security.state.backend='" ++ state_backend s
           ++ $"' is not implemented yet (H05); use memory or file"))
  else Err (Configuration ($"security.state.backend must be memory or file, got '"
              ++ backend ++ $"'")).

Definition validate_key (name key : str) : GatewayResult unit :=
  let key := trim key in
  reject_if (negb (is_empty key)
             && (negb (length key =? 64)%nat || negb (forallb is_ascii_hexdigit key)))
    ($"security.state." ++ name ++ $" must be empty or 64 hex characters (AES-256 key)").

(** [SecurityPolicyConfig::validate]. *)
Definition validate_policy (c : SecurityPolicyConfig) : GatewayResult unit :=
  _ ← reject_if (negb (one_of [$"deny"; $"allow"] (to_ascii_lowercase (cfg_star_policy c))))
        ($"security.star_policy must be deny or allow, got '"
         ++ to_ascii_lowercase (cfg_star_policy c) ++ $"'");
  _ ← reject_if (negb (one_of [$"L0"; $"L1"; $"L2"; $"l0"; $"l1"; $"l2"] (default_audit_level c)))
        ($"security.default_audit_level must be L0, L1, or L2, got '"
         ++ default_audit_level c ++ $"'");
  _ ← validate_pdp (pdp c);
  _ ← reject_if (negb (one_of [$"drop_new"; $"drop_old"; $"sample"; $"block"] (overflow (audit c))))
        ($"security.audit.overflow must be drop_new, drop_old, sample, or block, got '"
         ++ overflow (audit c) ++ $"'");
  _ ← reject_if (window_rows (streaming c) =? 0)
        ($"security.streaming.window_rows must be >= 1");
  _ ← reject_if (backend_sql_with_hold (streaming c))
        ($"security.streaming.backend_sql_with_hold=true is not implemented (process-local DECLARE/FETCH/CLOSE only; Admin remainders.backend_sql_with_hold=false). Leave false or see docs/a10-backend-sql-with-hold-design.md");
  _ ← reject_if (queue_capacity (audit c) =? 0) ($"security.audit.queue_capacity must be >= 1");
  _ ← validate_sample c;
  _ ← check_each validate_rule 0 (cfg_rules c);
  _ ← check_each validate_mask_rule 0 (cfg_mask_rules c);
  _ ← check_each (validate_tag (cfg_mask_rules c)) 0 (cfg_column_tags c);
  _ ← check_each validate_high_risk 0 (cfg_high_risk_rules c);
  _ ← check_each (λ idx r, validate r idx) 0 (cfg_time_rules c);
  _ ← reject_if (negb (one_of [$"column"; $"suffix"; []]
                         (to_ascii_lowercase (wm_cfg_mode (cfg_watermark c)))))
        ($"security.watermark.mode must be column or suffix, got '"
         ++ to_ascii_lowercase (wm_cfg_mode (cfg_watermark c)) ++ $"'");
  _ ← validate_state (state c);
  _ ← validate_key ($"vault_encrypt_key") (vault_encrypt_key (state c));
  validate_key ($"ticket_encrypt_key") (ticket_encrypt_key (state c)).
End Validate.

End Security.
