(* ===== verification/SqlRewrite.v ===== *)
(** * SQL text heuristics of the policy decision point
      ([gateway/core/src/pdp.rs], [extract_table_names] to [select_item_bare_name])

    Table-name extraction and the removal of denied columns from select lists.
    [find_top_level_keyword] of [pdp.rs] is the same function as the one of
    [obligations.rs] and is taken from [RowFilter].  A [&str] slice next to an
    ASCII byte just matched is on a character boundary and is written [take] or
    [drop]; the one slice that is not, [trimmed[..6]], goes through [slice_to]. *)

From S2P Require Import Prelude RustStr RowFilter ObjectSet.
Import RowFilter ObjectSet.

Module SqlRewrite.

(** ** Table names *)

Definition is_ident_start (c : ascii) : bool :=
  is_ascii_alphanumeric c || Ascii.eqb c "_" || Ascii.eqb c "$".
Definition is_ident_byte (c : ascii) : bool := is_ident_start c || Ascii.eqb c ".".

Definition not_a_table : list str :=
  [$"SELECT"; $"WHERE"; $"SET"; $"VALUES"; $"ON"; $"AS"; $"LEFT"; $"RIGHT"; $"INNER"; $"OUTER";
   $"CROSS"; $"ONLY"].

Definition next_sql_ident (input : str) : option str :=
  let s := trim_start input in
  out ← match s with
        | [] => None
        | c :: s' =>
            if existsb (Ascii.eqb c) ["`"%char; dquote; "'"%char]
            then Some (take_while (λ d, negb (Ascii.eqb d c)) s')
            else if is_ident_start c then Some (c :: take_while is_ident_byte s')
            else None
        end;
  let name := trim_matches "." (trim out) in
  if is_empty name || one_of not_a_table (to_ascii_uppercase name) then None else Some name.

Definition push_ident (tables : list str) (input : str) : list str :=
  match next_sql_ident input with
  | Some name => push_unique tables name
  | None => tables
  end.

(** The [while let Some(rel) = find_slice(..)] loop of one keyword; the start
    moves past the keyword each turn, so the length of the text is fuel enough. *)
Fixpoint table_scan (fuel : nat) (key sql upper : str) (start : nat) (tables : list str)
    : list str :=
  match fuel, find (drop start upper) key with
  | S fuel', Some rel =>
      let after := (start + rel + length key)%nat in
      table_scan fuel' key sql upper after (push_ident tables (drop after sql))
  | _, _ => tables
  end.

Definition nl (s : str) : str := "010"%char :: s.

Definition table_keywords : list str :=
  [$" FROM "; $" JOIN "; $" INTO "; $" UPDATE "; $" TABLE ";
   nl ($"FROM "); nl ($"JOIN "); nl ($"INTO "); nl ($"UPDATE "); nl ($"TABLE ")].

Definition extract_table_names (sql : str) : list str :=
  let upper := to_ascii_uppercase sql in
  let tables := foldl (λ ts key, table_scan (length sql) key sql upper 0 ts) [] table_keywords in
  let trimmed := trim_start sql in
  let trimmed_upper := to_ascii_uppercase trimmed in
  foldl (λ ts prefix,
    match strip_prefix trimmed_upper prefix with
    | Some _ => push_ident ts (drop (length prefix) trimmed)
    | None => ts
    end) tables
    [$"UPDATE "; $"INSERT INTO "; $"DELETE FROM "; $"TRUNCATE TABLE "; $"TRUNCATE "].

(** ** Select lists *)

(** The pieces between top-level commas, trimmed, the empty ones dropped; [cur]
    is the text since the last comma. *)
Definition push_part (parts : list str) (part : str) : list str :=
  let part := trim part in if is_empty part then parts else parts ++ [part].

Fixpoint split_list (s cur : str) (st : quoting * Z) (parts : list str) : list str :=
  match s with
  | [] => push_part parts cur
  | c :: s' =>
      if quoting_eqb st.1 Plain && Ascii.eqb c "," && (st.2 =? 0)
      then split_list s' [] st (push_part parts cur)
      else split_list s' (cur ++ [c]) (lex_step st c) parts
  end.

Definition split_select_list (l : str) : list str := split_list l [] (Plain, 0) [].

Definition select_item_bare_name (item : str) : str :=
  let expr :=
    match find_top_level_keyword item ($"AS") with
    | Some idx => trim (take idx item)
    | None =>
        match split_whitespace item with
        | t0 :: _ :: _ => if negb (contains_char t0 "(") then t0 else trim item
        | _ => trim item
        end
    end in
  to_ascii_lowercase
    (trim_matches "'" (trim_matches dquote (trim_matches "`" (rsplit_next "." expr)))).

Definition keep_item (denied : list (str * str)) (part : str) : bool :=
  negb (existsb (λ d, str_eqb (to_ascii_lowercase d.2) (select_item_bare_name part)) denied).

Definition rewrite_one_select_list (sql : str) (denied : list (str * str)) : option str :=
  if is_empty denied then Some sql
  else
    let trimmed := trim_start sql in
    let upper := to_ascii_uppercase trimmed in
    if negb (starts_with upper ($"SELECT")) then None
    else
      let after_select := trim_start (drop 6 trimmed) in
      let after_select :=
        if starts_with (to_ascii_uppercase after_select) ($"DISTINCT")
        then trim_start (drop 8 after_select) else after_select in
      from_idx ← find_top_level_keyword after_select ($"FROM");
      let select_list := trim (take from_idx after_select) in
      let rest := drop from_idx after_select in
      if str_eqb select_list ($"*") || ends_with select_list ($".*") then None
      else
        let parts := split_select_list select_list in
        if is_empty parts then None
        else
          let kept := List.filter (keep_item denied) parts in
          if is_empty kept then Some ($"SELECT " ++ rest)
          else
            let prefix_end := (length sql - length trimmed)%nat in
            Some (take prefix_end sql ++ $"SELECT "
              ++ (if starts_with (trim_start (drop 6 upper)) ($"DISTINCT") then $"DISTINCT " else [])
              ++ join ($", ") kept ++ $" " ++ trim_start rest).

(** ** Subqueries *)

(** The loop of [find_matching_paren]. *)
Fixpoint matching_paren (s : str) (st : quoting * Z) (i : nat) : option nat :=
  match s with
  | [] => None
  | c :: s' =>
      if quoting_eqb st.1 Plain && Ascii.eqb c ")" && (st.2 =? 1) then Some i
      else matching_paren s' (lex_step st c) (S i)
  end.

Definition find_matching_paren (s : str) : option nat := matching_paren s (Plain, 1) 0.

Section Nested.
Context (denied : list (str * str)).

(** The [while i < bytes.len()] loop: [s] is [bytes[i..]], [rec] the recursive
    call; [n] bounds the number of turns. *)
Fixpoint nested_loop (rec : str → fueled str) (n : nat) (s : str) (q : quoting) (out : str)
    : fueled str :=
  match n, s with
  | _, [] => Some (Ret out)
  | O, _ => None
  | S n', c :: after =>
      match closing q with
      | Some e =>
          nested_loop rec n' after (if Ascii.eqb c e then Plain else q) (out ++ push_byte c)
      | None =>
          if Ascii.eqb c "'" then nested_loop rec n' after InSingle (out ++ [c])
          else if Ascii.eqb c dquote then nested_loop rec n' after InDouble (out ++ [c])
          else if Ascii.eqb c "`" then nested_loop rec n' after InBack (out ++ [c])
          else if Ascii.eqb c "(" then
            let trimmed := trim_start after in
            let trim_off := (length after - length trimmed)%nat in
            ebind (if (6 <=? length trimmed)%nat
                   then Some (head ← slice_to trimmed 6; Ret (eq_ignore_ascii_case head ($"SELECT")))
                   else Some (Ret false)) (λ is_select,
            match (if is_select : bool then find_matching_paren after else None) with
            | Some close_rel =>
                let inner := take close_rel after in
                ebind (rec (match rewrite_one_select_list inner denied with
                            | Some s => s
                            | None => inner
                            end)) (λ rewritten,
                nested_loop rec n' (drop (close_rel + 1) after) Plain
                  (out ++ $"(" ++ take trim_off after ++ trim_start rewritten ++ $")"))
            | None => nested_loop rec n' after Plain (out ++ $"(")
            end)
          else nested_loop rec n' after Plain (out ++ push_byte c)
      end
  end.

Fixpoint nested (fuel : nat) (sql : str) : fueled str :=
  match fuel with
  | O => None
  | S fuel' =>
      if is_empty denied then Some (Ret sql)
      else nested_loop (nested fuel') (length sql) sql Plain []
  end.

Definition parens (s : str) : nat := length (List.filter (Ascii.eqb "(") s).

(** A recursive call drops a parenthesis and adds none, so their number is
    fuel enough. *)
Definition rewrite_nested_select_lists (sql : str) : exec str :=
  default Panic (nested (S (parens sql)) sql).

Definition rewrite_select_strip_columns (sql : str) : exec (option str) :=
  if is_empty denied then Ret (Some sql)
  else
    match rewrite_one_select_list sql denied with
    | None => Ret None
    | Some outer => Some <$> rewrite_nested_select_lists outer
    end.
End Nested.

Definition deny_salary : list (str * str) := [($"r", $"salary")].

Example strip_plain :
  rewrite_select_strip_columns deny_salary ($"SELECT id, t.Salary AS s, name FROM t WHERE x = 1") =
  Ret (Some ($"SELECT id, name FROM t WHERE x = 1")).
Proof. vm_compute. reflexivity. Qed.

Example strip_nested :
  rewrite_select_strip_columns deny_salary
    ($"SELECT id FROM (SELECT id, salary FROM (select salary, x from v) w) u") =
  Ret (Some ($"SELECT id FROM (SELECT id FROM (SELECT x from v) w) u")).
Proof. vm_compute. reflexivity. Qed.

Example tables_of :
  extract_table_names ($"SELECT * FROM a.b JOIN `c d` ON x WHERE y IN (SELECT 1 FROM A.B)") =
  [$"a.b"; $"c d"].
Proof. vm_compute. reflexivity. Qed.

(** ** Bytes of a rewritten statement *)

(** [t] adds no parenthesis to [s], and no byte outside ASCII. *)
Definition tame (s t : str) : Prop := (parens t ≤ parens s)%nat ∧ (ascii_only s → ascii_only t).

#[export] Instance tame_refl : Reflexive tame.
Proof. split; auto. Qed.

#[export] Instance tame_trans : Transitive tame.
Proof. intros a b c [? ?] [? ?]. split; [lia|auto]. Qed.

Lemma parens_app s t : parens (s ++ t) = (parens s + parens t)%nat.
Proof. unfold parens. by rewrite List.filter_app, length_app. Qed.

Lemma ascii_app s t : ascii_only (s ++ t) ↔ ascii_only s ∧ ascii_only t.
Proof. apply Forall_app. Qed.

Lemma tame_app_l s t : tame (s ++ t) s.
Proof. split; [rewrite parens_app; lia|]. by intros [? ?]%ascii_app. Qed.

Lemma tame_app_r s t : tame (s ++ t) t.
Proof. split; [rewrite parens_app; lia|]. by intros [? ?]%ascii_app. Qed.

Lemma tame_take n s : tame s (take n s).
Proof. rewrite <-(take_drop n s) at 1. apply tame_app_l. Qed.

Lemma tame_drop n s : tame s (drop n s).
Proof. rewrite <-(take_drop n s) at 1. apply tame_app_r. Qed.

Lemma tame_trim_start s : tame s (trim_start s).
Proof. destruct (trim_start_suffix s) as (w & E & _). rewrite E at 1. apply tame_app_r. Qed.

Lemma tame_trim s : tame s (trim s).
Proof.
  assert (trim s = trim_end (trim_start s)) as ->
    by (unfold trim, trim_end; by rewrite chars_trim_start).
  transitivity (trim_start s); [apply tame_trim_start|].
  destruct (trim_end_prefix (trim_start s)) as [w E]. rewrite E at 1. apply tame_app_l.
Qed.

#[export] Hint Resolve tame_take tame_drop tame_trim_start tame_trim : rust.

(** The same for a list of pieces cut from a text. *)
Definition tame_parts (s : str) (parts : list str) : Prop :=
  (parens (concat parts) ≤ parens s)%nat ∧ (ascii_only s → ascii_only (concat parts)).

Lemma push_part_bytes parts cur :
  (parens (concat (push_part parts cur)) ≤ parens (concat parts) + parens cur)%nat ∧
  (ascii_only (concat parts) → ascii_only cur → ascii_only (concat (push_part parts cur))).
Proof.
  unfold push_part. destruct (tame_trim cur) as [Hp Ha]. destruct (is_empty (trim cur)).
  - split; [lia|done].
  - rewrite concat_app. cbn [concat]. rewrite app_nil_r, parens_app, ascii_app. split; [lia|auto].
Qed.

Lemma parens_cons c s : parens (c :: s) = (parens [c] + parens s)%nat.
Proof. apply (parens_app [c]). Qed.

Lemma split_list_bytes s cur st parts :
  (parens (concat (split_list s cur st parts)) ≤ parens (concat parts) + parens cur + parens s)%nat ∧
  (ascii_only (concat parts) → ascii_only cur → ascii_only s →
   ascii_only (concat (split_list s cur st parts))).
Proof.
  revert cur st parts. induction s as [|c s IH]; intros cur st parts; cbn [split_list].
  { destruct (push_part_bytes parts cur) as [Hp Ha]. split; [lia|auto]. }
  assert (ascii_only (c :: s) ↔ ascii_only [c] ∧ ascii_only s) as Hc by apply (ascii_app [c]).
  rewrite Hc, (parens_cons c s). destruct (push_part_bytes parts cur) as [Hp Ha].
  destruct (quoting_eqb st.1 Plain && Ascii.eqb c "," && (st.2 =? 0)).
  - destruct (IH [] st (push_part parts cur)) as [H1 H2]. split.
    + change (parens []) with 0%nat in H1. lia.
    + intros ? ? [? ?]. apply H2; [auto|constructor|done].
  - destruct (IH (cur ++ [c]) (lex_step st c) parts) as [H1 H2]. rewrite parens_app in H1.
    split; [lia|]. intros ? ? [? ?]. apply H2; [done|by apply ascii_app|done].
Qed.

Lemma split_select_list_tame s : tame_parts s (split_select_list s).
Proof.
  destruct (split_list_bytes s [] (Plain, 0) []) as [Hp Ha]. split; [exact Hp|].
  intros Hs. apply Ha; [constructor|constructor|done].
Qed.

Lemma join_tame s sep parts :
  tame_parts s parts → parens sep = 0%nat → ascii_only sep → tame s (join sep parts).
Proof.
  intros [Hp Ha] Hs0 Hs1. enough (parens (join sep parts) = parens (concat parts) ∧
    (ascii_only (concat parts) → ascii_only (join sep parts))) as [H1 H2]
    by (split; [by rewrite H1|auto]).
  clear Hp Ha. induction parts as [|x [|y parts] IH]; [done|simpl; by rewrite app_nil_r|].
  cbn [join concat] in *. destruct IH as [IH1 IH2]. rewrite !parens_app in *. rewrite Hs0. split; [lia|].
  rewrite !ascii_app in *. naive_solver.
Qed.

Lemma filter_tame s f parts : tame_parts s parts → tame_parts s (List.filter f parts).
Proof.
  intros [Hp Ha].
  enough (parens (concat (List.filter f parts)) ≤ parens (concat parts) ∧
    (ascii_only (concat parts) → ascii_only (concat (List.filter f parts))))%nat as [H1 H2]
    by (split; [lia|auto]).
  clear. induction parts as [|x parts [IH1 IH2]]; [done|]. simpl. rewrite parens_app, ascii_app.
  destruct (f x); simpl; rewrite ?parens_app, ?ascii_app; split; try lia; naive_solver.
Qed.

Lemma tame_parts_trans s t parts : tame s t → tame_parts t parts → tame_parts s parts.
Proof. intros [? ?] [? ?]. split; [lia|auto]. Qed.

(** Pieces put together are tame when their parts are. *)
Lemma tame_glue s a b : tame s (a ++ b) ↔ (parens a + parens b ≤ parens s)%nat ∧
  (ascii_only s → ascii_only a ∧ ascii_only b).
Proof. unfold tame. by rewrite parens_app, ascii_app. Qed.

Lemma rewrite_one_tame sql denied out :
  rewrite_one_select_list sql denied = Some out → tame sql out.
Proof.
  unfold rewrite_one_select_list. destruct (is_empty denied); [by intros [= <-]|].
  destruct (negb _); [done|]. set (lead := (length sql - length (trim_start sql))%nat).
  assert (sql = take lead sql ++ trim_start sql) as Hsql.
  { destruct (trim_start_suffix sql) as (w & E & _).
    assert (lead = length w) as ->
      by (unfold lead; pose proof (f_equal length E) as El; rewrite length_app in El; lia).
    rewrite E at 2. by rewrite take_app_length. }
  set (as1 := trim_start (drop 6 (trim_start sql))).
  set (as2 := if starts_with (to_ascii_uppercase as1) _ then _ else as1).
  assert (tame (trim_start sql) as2) as Has.
  { transitivity as1; [transitivity (drop 6 (trim_start sql)); auto with rust|].
    unfold as2. destruct (starts_with (to_ascii_uppercase as1) _); [|reflexivity].
    transitivity (drop 8 as1); auto with rust. }
  cbv [mbind option_bind]. destruct (find_top_level_keyword as2 ($"FROM")) as [f|]; [|done].
  destruct (str_eqb _ _ || ends_with _ _); [done|]. set (sl := trim (take f as2)).
  destruct (is_empty (split_select_list sl)); [done|].
  set (kept := List.filter (keep_item denied) (split_select_list sl)).
  assert (tame (take f as2) (join ($", ") kept)) as [Hk1 Hk2].
  { apply join_tame; [|done|by repeat constructor]. apply filter_tame.
    apply (tame_parts_trans _ sl); [apply tame_trim|apply split_select_list_tame]. }
  destruct Has as [Hp Ha]. rewrite <-(take_drop f as2) in Hp, Ha.
  rewrite parens_app in Hp. rewrite ascii_app in Ha.
  assert (tame sql (trim_start sql)) as [Ht1 Ht2] by apply tame_trim_start.
  destruct (is_empty kept).
  - intros E%(inj Some). rewrite <-E. apply (tame_glue sql ($"SELECT ")). change (parens ($"SELECT ")) with 0%nat.
    split; [lia|]. intros Hs. split; [by repeat constructor|]. naive_solver.
  - destruct (tame_trim_start (drop f as2)) as [Hr1 Hr2].
    assert (parens sql = parens (take lead sql) + parens (trim_start sql))%nat as Hsum
      by (rewrite Hsql at 1; apply parens_app).
    intros E%(inj Some). rewrite <-E. clear E. fold lead. rewrite !tame_glue, !parens_app, !ascii_app.
    set (d := if starts_with _ _ then _ else _).
    assert (parens d = 0%nat ∧ ascii_only d) as [-> Hd].
    { clearbody as2. unfold d. destruct (starts_with _ _); (split; [done|by repeat constructor]). }
    change (parens ($"SELECT ")) with 0%nat. change (parens ($" ")) with 0%nat.
    split; [lia|]. intros Hs. destruct (tame_take lead sql) as [_ Hl].
    split_and!; auto; [by repeat constructor|naive_solver|by repeat constructor|naive_solver].
Qed.

(** ** The nested rewrite terminates *)

(** A computation that stays within its fuel and, from ASCII text, returns. *)
Definition settles {A} (s : str) (m : fueled A) : Prop :=
  is_Some m ∧ (ascii_only s → m ≠ Some Panic).

Section NestedTotal.
Context (denied : list (str * str)).

Lemma nested_loop_settles rec n s q out k :
  (length s ≤ n)%nat → (parens s ≤ k)%nat →
  (∀ t, (parens t < k)%nat → settles t (rec t)) →
  settles s (nested_loop denied rec n s q out).
Proof.
  revert s q out. induction n as [|n IH]; intros s q out Hn Hk Hrec.
  { destruct s; [|simpl in Hn; lia]. by split; [eexists|]. }
  destruct s as [|c after]; [by split; [eexists|]|]. cbn [nested_loop].
  simpl in Hn. rewrite parens_cons in Hk.
  assert (∀ q' out', settles (c :: after) (nested_loop denied rec n after q' out')) as Hnext.
  { intros q' out'. destruct (IH after q' out' ltac:(lia) ltac:(lia) Hrec) as [H1 H2].
    split; [done|]. intros [_ Ha]%(ascii_app [c]). auto. }
  destruct (closing q); [done|]. destruct (Ascii.eqb c "'"); [done|].
  destruct (Ascii.eqb c dquote); [done|]. destruct (Ascii.eqb c "`"); [done|].
  destruct (Ascii.eqb c "(") eqn:Ec; [|done].
  apply Ascii.eqb_eq in Ec as ->. change (parens ["("%char]) with 1%nat in Hk. cbv zeta.
  set (test := if (6 <=? _)%nat then _ else _).
  assert (settles ("("%char :: after) test) as [[[b|] Ht] Hta].
  { unfold test. destruct (6 <=? length (trim_start after))%nat eqn:E6; [|by split; [eexists|]].
    split; [by eexists|]. intros [_ Ha]%(ascii_app ["("%char]).
    rewrite slice_to_ascii; [done| |by apply Nat.leb_le].
    by apply (tame_trim_start after). }
  2:{ rewrite Ht. split; [by eexists|]. intros Ha. by destruct (Hta Ha). }
  rewrite Ht. cbn [ebind]. destruct (if b then find_matching_paren after else None) as [cl|]; [|done].
  set (inner := match rewrite_one_select_list _ _ with Some s => s | None => _ end).
  assert (tame after inner) as [Hp Ha].
  { transitivity (take cl after); [apply tame_take|]. unfold inner.
    destruct (rewrite_one_select_list (take cl after) denied) eqn:E; [|done].
    by eapply rewrite_one_tame. }
  destruct (Hrec inner ltac:(lia)) as [[[r|] Hr] Hra]; rewrite Hr; cbn [ebind].
  - destruct (tame_drop (cl + 1) after) as [Hdp Hda].
    edestruct (IH (drop (cl + 1) after)) as [H1 H2]; [rewrite length_drop; lia|lia|done|].
    split; [exact H1|]. intros [_ Haf]%(ascii_app ["("%char]). auto.
  - split; [by eexists|]. intros [_ Haf]%(ascii_app ["("%char]). by destruct (Hra (Ha Haf)).
Qed.

Lemma nested_settles fuel sql : (parens sql < fuel)%nat → settles sql (nested denied fuel sql).
Proof.
  revert sql. induction fuel as [|fuel IH]; intros sql Hf; [lia|]. cbn [nested].
  destruct (is_empty denied); [by split; [eexists|]|].
  apply nested_loop_settles with (parens sql); [done|done|]. intros t Ht. apply IH. lia.
Qed.

Lemma rewrite_nested_ascii sql :
  ascii_only sql → ∃ out, rewrite_nested_select_lists denied sql = Ret out.
Proof.
  intros Ha. unfold rewrite_nested_select_lists.
  destruct (nested_settles (S (parens sql)) sql) as [[[out|] H] Hp]; [lia|..]; rewrite H.
  - by exists out.
  - by destruct (Hp Ha).
Qed.
End NestedTotal.

(** C37 Stripping denied columns always terminates: the fuel of the nested
    rewrite (one more than the number of opening parentheses) is never used up,
    and on ASCII statements the rewrite returns a result without panicking. *)
Theorem strip_columns_total denied sql :
  (∀ fuel, (parens sql < fuel)%nat → is_Some (nested denied fuel sql)) ∧
  (ascii_only sql → ∃ r, rewrite_select_strip_columns denied sql = Ret r).
Proof.
  split; [intros fuel Hf; by apply nested_settles|]. intros Ha.
  unfold rewrite_select_strip_columns. destruct (is_empty denied); [by eexists|].
  destruct (rewrite_one_select_list sql denied) as [outer|] eqn:E; [|by eexists].
  destruct (rewrite_nested_ascii denied outer) as [out ->]; [|by eexists].
  by apply (rewrite_one_tame _ _ _ E).
Qed.

(** ** Where the select list is *)

(** Letter case is neither white space nor a character boundary. *)
Lemma wide_whitespace a b l :
  char_is_whitespace (a :: b :: l) = true → Forall (λ c, (128 ≤ N_of_ascii c)%N) (a :: b :: l).
Proof.
  unfold char_is_whitespace. cbn [map]. intros H. repeat case_match; simplify_eq.
  all: destruct l as [|c [|d l]]; simplify_eq/=; repeat constructor; try lia.
  all: rewrite ?orb_true_iff, ?andb_true_iff, ?N.eqb_eq, ?N.leb_le in H; lia.
Qed.

Lemma upper_wide c : (128 ≤ N_of_ascii (to_upper c))%N ∨ (128 ≤ N_of_ascii c)%N → to_upper c = c.
Proof. byte_cases c; intros [H|H]; by destruct H. Qed.

Lemma whitespace_uppercase x : char_is_whitespace (to_ascii_uppercase x) = char_is_whitespace x.
Proof.
  destruct x as [|a [|b l]]; [done|byte_cases a|].
  assert (∀ y, Forall (λ c, (128 ≤ N_of_ascii (to_upper c))%N ∨ (128 ≤ N_of_ascii c)%N) y →
    to_ascii_uppercase y = y) as Hfix.
  { intros y Hy. unfold to_ascii_uppercase. induction Hy as [|c y Hc _ IH]; [done|].
    cbn [map]. by rewrite IH, (upper_wide c Hc). }
  apply eq_true_iff_eq. split; intros H.
  - rewrite Hfix in H; [done|]. apply (wide_whitespace (to_upper a) (to_upper b)) in H.
    change (Forall (λ c, (128 ≤ N_of_ascii c)%N) (to_upper <$> (a :: b :: l))) in H.
    rewrite Forall_fmap in H. eapply Forall_impl; [exact H|]. by left.
  - rewrite Hfix; [done|]. eapply Forall_impl; [apply wide_whitespace, H|]. by right.
Qed.

Lemma chars_uppercase s : chars (to_ascii_uppercase s) = map to_ascii_uppercase (chars s).
Proof.
  induction s as [|c s IH]; [done|]. cbn [to_ascii_uppercase map chars].
  fold (to_ascii_uppercase s). rewrite IH. destruct (chars s) as [|[|d ds] cs]; [done|done|].
  cbn [map to_ascii_uppercase]. assert (is_cont (to_upper d) = is_cont d) as -> by byte_cases d.
  by destruct (is_cont d).
Qed.

Lemma trim_start_uppercase s :
  trim_start (to_ascii_uppercase s) = to_ascii_uppercase (trim_start s).
Proof.
  unfold trim_start. rewrite chars_uppercase.
  induction (chars s) as [|x l IH]; [done|]. cbn [map drop_while].
  rewrite whitespace_uppercase. destruct (char_is_whitespace x); [exact IH|].
  unfold to_ascii_uppercase. by rewrite concat_map.
Qed.

(** White space only. *)
Definition blank (w : str) : Prop := trim_start w = [].

Lemma trim_start_split s : ∃ w, s = w ++ trim_start s ∧ blank w ∧
  w = take (length s - length (trim_start s)) s.
Proof.
  destruct (trim_start_suffix s) as (w & E & Hw). exists w. split; [done|]. split; [done|].
  rewrite E at 1 3. rewrite length_app, Nat.add_sub. by rewrite take_app_length.
Qed.

Lemma keyword_split s k :
  starts_with (to_ascii_uppercase s) k = true →
  ∃ kw, s = kw ++ drop (length k) s ∧ to_ascii_uppercase kw = k.
Proof.
  intros (r & E)%starts_with_spec. exists (take (length k) s). split; [by rewrite take_drop|].
  unfold to_ascii_uppercase in *. rewrite <-firstn_map, E. apply take_app_length.
Qed.

(** A statement read as indentation, [SELECT], an optional [DISTINCT], the select
    list, and the text from its first top-level [FROM] on. *)
Definition select_shape (sql lead : str) (distinct : bool) (l rest : str) : Prop :=
  ∃ kw w2 dis w3, sql = lead ++ kw ++ w2 ++ dis ++ w3 ++ l ++ rest ∧
    blank lead ∧ blank w2 ∧ blank w3 ∧ to_ascii_uppercase kw = $"SELECT" ∧
    to_ascii_uppercase dis = (if distinct then $"DISTINCT" else []) ∧
    find_top_level_keyword (l ++ rest) ($"FROM") = Some (length l).

Lemma select_shape_found sql from_idx :
  let trimmed := trim_start sql in
  let after := trim_start (drop 6 trimmed) in
  let distinct := starts_with (to_ascii_uppercase after) ($"DISTINCT") in
  let after' := if distinct then trim_start (drop 8 after) else after in
  starts_with (to_ascii_uppercase trimmed) ($"SELECT") = true →
  find_top_level_keyword after' ($"FROM") = Some from_idx →
  select_shape sql (take (length sql - length trimmed) sql) distinct
    (take from_idx after') (drop from_idx after').
Proof.
  intros trimmed after distinct after' Hsel Hfrom.
  destruct (trim_start_split sql) as (w1 & E1 & Hb1 & Ew1). fold trimmed in E1, Ew1. rewrite <-Ew1.
  destruct (keyword_split _ _ Hsel) as (kw & Ekw & Hkw).
  destruct (trim_start_split (drop 6 trimmed)) as (w2 & E2 & Hb2 & _).
  assert (∃ dis w3, after = dis ++ w3 ++ after' ∧ blank w3 ∧
    to_ascii_uppercase dis = if distinct then $"DISTINCT" else []) as (dis & w3 & E3 & Hb3 & Hdis).
  { subst after'. destruct distinct eqn:Ed; [|by exists [], []].
    destruct (keyword_split _ _ Ed) as (dis & Edis & Hdis).
    destruct (trim_start_split (drop 8 after)) as (w3 & E3 & Hb3 & _).
    exists dis, w3. split; [|done]. rewrite Edis at 1. f_equal. exact E3. }
  exists kw, w2, dis, w3. rewrite take_drop. split_and!; try done.
  - rewrite E1 at 1. f_equal. rewrite Ekw at 1. f_equal. change (drop (length ($"SELECT")) trimmed) with (drop 6 trimmed).
    rewrite E2. f_equal. exact E3.
  - rewrite Hfrom. f_equal. apply find_keyword_bound in Hfrom as [Hle _]; [|by eexists _, _].
    rewrite length_take. lia.
Qed.

Lemma keep_item_spec denied item :
  keep_item denied item = true ↔
  ∀ rule col, (rule, col) ∈ denied → select_item_bare_name item ≠ to_ascii_lowercase col.
Proof.
  unfold keep_item. rewrite negb_true_iff, <-not_true_iff_false, existsb_elem. split.
  - intros H rule col Hin E. apply H. exists (rule, col). split; [done|]. by apply str_eqb_eq.
  - intros H ([rule col] & Hin & E%str_eqb_eq). by eapply H.
Qed.

(** The text from [FROM] on begins with a letter. *)
Lemma from_solid rest :
  starts_with (to_ascii_uppercase rest) ($"FROM") = true → trim_start rest = rest.
Proof.
  destruct rest as [|c r]; [done|]. intros H. apply trim_start_solid.
  cbn [to_ascii_uppercase map] in H. apply andb_true_iff in H as [Hc _].
  revert Hc. clear. byte_cases c.
Qed.

Lemma filter_sublist {A} (f : A → bool) l : sublist (List.filter f l) l.
Proof. induction l as [|x l IH]; simpl; [constructor|]. destruct (f x); by constructor. Qed.

(** Column stripping removes exactly the denied items: when a [SELECT] list is
    rewritten, the statement reads as [SELECT [DISTINCT] list FROM ...] with the
    first top-level [FROM], and the result is the same statement with the list
    reduced to the items whose name is not denied, in their original order (or
    [SELECT FROM ...] when every item is denied). *)
Theorem strip_removes_denied sql denied out :
  denied ≠ [] → rewrite_one_select_list sql denied = Some out →
  ∃ lead distinct l rest kept, select_shape sql lead distinct l rest ∧
    sublist kept (split_select_list (trim l)) ∧
    (∀ item, item ∈ kept ↔ item ∈ split_select_list (trim l) ∧
       ∀ rule col, (rule, col) ∈ denied → select_item_bare_name item ≠ to_ascii_lowercase col) ∧
    out = if is_empty kept then $"SELECT " ++ rest
          else lead ++ $"SELECT " ++ (if distinct : bool then $"DISTINCT " else [])
                 ++ join ($", ") kept ++ $" " ++ rest.
Proof.
  intros Hd. unfold rewrite_one_select_list. destruct denied as [|d0 denied]; [done|].
  cbn [is_empty]. destruct (negb _) eqn:Hsel; [done|]. apply negb_false_iff in Hsel.
  pose proof (select_shape_found sql) as Hshape. cbn zeta in Hshape.
  rewrite drop_uppercase, trim_start_uppercase.
  set (distinct := starts_with (to_ascii_uppercase (trim_start (drop 6 (trim_start sql)))) ($"DISTINCT")) in *.
  set (after := if distinct then _ else _) in *.
  cbv [mbind option_bind]. destruct (find_top_level_keyword after ($"FROM")) as [f|] eqn:Ef; [|done].
  specialize (Hshape f Hsel eq_refl).
  apply find_keyword_bound in Ef as [_ Hfrom]; [|by eexists _, _].
  destruct (str_eqb _ _ || ends_with _ _); [done|].
  destruct (is_empty (split_select_list _)); [done|]. rewrite (from_solid _ Hfrom). intros E.
  eexists _, distinct, _, _, (List.filter (keep_item (d0 :: denied)) _). split; [exact Hshape|].
  split; [apply filter_sublist|]. split.
  - intros item. rewrite !list_elem_of_In, filter_In, keep_item_spec. done.
  - destruct (is_empty _); apply (inj Some) in E; by rewrite <-E.
Qed.

Lemma strip_removes_denied_witness :
  ∃ lead distinct l rest kept,
    select_shape ($"SELECT id, t.Salary AS s, name FROM t") lead distinct l rest ∧
    sublist kept (split_select_list (trim l)) ∧
    $"SELECT id, name FROM t" =
      if is_empty kept then $"SELECT " ++ rest
      else lead ++ $"SELECT " ++ (if distinct : bool then $"DISTINCT " else [])
             ++ join ($", ") kept ++ $" " ++ rest.
Proof.
  destruct (strip_removes_denied ($"SELECT id, t.Salary AS s, name FROM t") deny_salary
    ($"SELECT id, name FROM t")) as (lead & distinct & l & rest & kept & H1 & H2 & _ & H3).
  - discriminate.
  - vm_compute. reflexivity.
  - exists lead, distinct, l, rest, kept. split; [exact H1|]. split; [exact H2|exact H3].
Defined.

(** What the strip misses: a denied column inside an expression is kept; when
    every item is denied the result is [SELECT FROM ...], which differs from the
    statement, so the caller does not see an empty projection; a multi-byte
    character across byte 6 after a parenthesis panics; text outside ASCII is
    re-encoded byte by byte. *)
Theorem strip_columns_gaps :
  rewrite_select_strip_columns deny_salary ($"SELECT id,upper(salary) FROM t") =
    Ret (Some ($"SELECT id, upper(salary) FROM t")) ∧
  rewrite_select_strip_columns deny_salary ($"SELECT salary FROM t") = Ret (Some ($"SELECT FROM t")) ∧
  rewrite_select_strip_columns deny_salary ($"SELECT id FROM t WHERE n IN ('abcdé')") = Panic ∧
  rewrite_select_strip_columns deny_salary ($"SELECT id FROM t WHERE n = 'é'") =
    Ret (Some ($"SELECT id FROM t WHERE n = 'Ã©'")).
Proof. split_and!; vm_compute; reflexivity. Qed.

End SqlRewrite.
