(* ===== verification/Pdp.v ===== *)
(** * The policy decision point ([gateway/core/src/pdp.rs], [remote_pdp.rs])

    Matching of subjects, actions, tables and columns; rule evaluation; the row
    filter, masks and watermark of an allow; the column rules; the remote client.
    The gates that call them are in [Authorize].

    The snapshot [LocalPdpInner] is an argument of each function here (the
    [self.inner()] of the source); the Cedar engine, the HTTP transport and the
    clock are arguments too. *)

From S2P Require Import Prelude RustStr Glob Model TimeRules Ticket Obligations RowFilter ObjectSet Security SqlRewrite.
Import Glob TimeRules Obligations ObjectSet Security SqlRewrite.

Module Pdp.

Record Subject := mkSubject {
  subject_id : str;
  db_user : option str;
  database : option str
}.

Definition from_protocol_user (user db : option str) : Subject :=
  mkSubject
    (match user with
     | Some u => if negb (is_empty u) then u else $"anonymous"
     | None => $"anonymous"
     end) user db.

Record AccessRequest := mkRequest {
  req_subject : Subject;
  req_service : str;
  req_action : StatementAction;
  req_tables : list str;
  req_columns : list str;
  req_sql : option str
}.

Inductive SecurityDecision :=
| Allow (obligations : Obligations)
| AllowRewrite (sql : str) (obligations : Obligations)
| RequireTicket (rule ticket_type message : str)
| Deny (rule message : str).

Definition is_deny (d : SecurityDecision) : bool :=
  match d with Deny _ _ | RequireTicket _ _ _ => true | _ => false end.

Definition decision_obligations (d : SecurityDecision) : Obligations :=
  match d with
  | Allow o | AllowRewrite _ o => o
  | Deny _ _ | RequireTicket _ _ _ => default_obligations
  end.

Definition allow_empty : SecurityDecision := Allow default_obligations.

(** ** Matching *)

Definition any_glob (patterns : list str) (value : str) : bool :=
  existsb (λ p, glob_match p value) patterns.

(** An empty subject list matches everybody. *)
Definition subjects_match (patterns : list str) (s : Subject) : bool :=
  is_empty patterns || any_glob patterns (subject_id s).

Definition subject_matches (rule : SecurityRuleConfig) (s : Subject) : bool :=
  subjects_match (rule_subjects rule) s.

Definition is_write (a : StatementAction) : bool :=
  match a with Insert | Update | Delete | Ddl => true | _ => false end.

Definition is_dml (a : StatementAction) : bool :=
  match a with Insert | Update | Delete => true | _ => false end.

Definition action_matches_actions (actions : list str) (action : StatementAction) : bool :=
  is_empty actions ||
  existsb (λ a,
    let a := to_ascii_lowercase a in
    str_eqb a (action_as_str action) || str_eqb a ($"*")
    || (str_eqb a ($"write") && is_write action)
    || (str_eqb a ($"read") && action_eqb action Select)
    || (str_eqb a ($"dml") && is_dml action)) actions.

Definition action_matches (rule : SecurityRuleConfig) (action : StatementAction) : bool :=
  action_matches_actions (rule_actions rule) action.

Definition table_glob_match (pattern table : str) : bool :=
  let table := trim_matches "'" (trim_matches dquote (trim_matches "`" table)) in
  if glob_match pattern table then true
  else
    let base := rsplit_next "." table in
    if negb (str_eqb base table) && glob_match pattern base then true
    else if glob_match pattern table then true
    else
      let leaf := rsplit_next "." pattern in
      if negb (str_eqb leaf pattern) then glob_match leaf base else false.

(** Some pattern matches the object's qualified or bare table name. *)
Definition object_hit (patterns : list str) (o : ObjectAccess) : bool :=
  existsb (λ p, table_glob_match p (qualified_table o) || table_glob_match p (table o)) patterns.

Definition tables_hit (patterns tables : list str) : bool :=
  existsb (λ t, existsb (λ p, table_glob_match p t) patterns) tables.

(** [if let Some(set) = objects { .. } else { .. }] of the table conditions. *)
Definition statement_hit (patterns : list str) (objs : option ObjectSet) (tables : list str) : bool :=
  match objs with
  | Some set => existsb (object_hit patterns) (objects set)
  | None => tables_hit patterns tables
  end.

Definition table_matches_rule (rule : SecurityRuleConfig) (o : ObjectAccess) : bool :=
  is_empty (rule_tables rule) || object_hit (rule_tables rule) o.

(** One column pattern, [col] or [table.col]. *)
Definition column_pattern_matches (pattern bare_col table : str) : bool :=
  let p := trim pattern in
  if contains_char p "." then
    let '(col_pat, tbl) := rsplitn2 "." p in
    let tbl_pat := default ($"*") tbl in
    glob_match col_pat bare_col && (str_eqb tbl_pat ($"*") || glob_match tbl_pat table)
  else glob_match p bare_col.

Definition column_matches_rule (rule : SecurityRuleConfig) (bare_col table : str) : bool :=
  existsb (λ p, column_pattern_matches p bare_col table) (rule_columns rule).

Definition column_tag_matches (tag : SecurityColumnTagConfig) (bare_col table : str) : bool :=
  column_pattern_matches (tag_column tag) bare_col table.

Definition rule_matches (rule : SecurityRuleConfig) (r : AccessRequest) : bool :=
  if negb (subject_matches rule (req_subject r)) then false
  else if negb (action_matches rule (req_action r)) then false
  else if negb (is_empty (rule_tables rule)) then
    if is_empty (req_tables r) then false else tables_hit (rule_tables rule) (req_tables r)
  else true.

Definition collect_bare_columns (set : ObjectSet) : list str :=
  foldl (λ out o,
    foldl (λ out c, if existsb (λ x, str_eqb x c) out then out else out ++ [c])
      out (bare_columns o)) [] (objects set).

(** ** Remote decision point ([remote_pdp.rs]) *)

Record RemotePdpRequest := mkRemoteRequest {
  rr_subject_id : str;
  rr_service : str;
  rr_action : str;
  rr_tables : list str;
  rr_sql_fingerprint : option str
}.

Record RemotePdpResponse := mkRemoteResponse {
  allow : bool;
  rsp_rule : option str;
  rsp_message : option str
}.

Inductive RemoteTransport := Http | Fixed (r : result str RemotePdpResponse).

Record RemotePdpClient := mkRemote {
  url : str;
  timeout : Z;
  token : option str;
  remote_client_fail_closed : bool;
  transport : RemoteTransport
}.

Definition remote_from_config (p : SecurityPdpConfig) : GatewayResult RemotePdpClient :=
  let url := trim (remote_url p) in
  if is_empty url then
    Err (Configuration ($"security.pdp.remote_url is required for backend=remote"))
  else
    Ok (mkRemote url (Z.min (Z.max (remote_timeout_ms p) 1) 30000)
          (let t := trim (remote_token p) in if is_empty t then None else Some t)
          (remote_fail_closed p) Http).

Definition transport_error_for_test (msg : str) (fail_closed : bool) : RemotePdpClient :=
  mkRemote ($"http://test.local/pdp") 50 None fail_closed (Fixed (Err msg)).

(** The HTTP exchange and the [Debug] rendering of a string list. *)
Class RemoteIO := {
  post_authorize_http : RemotePdpClient → RemotePdpRequest → result str RemotePdpResponse;
  debug_strs : list str → str
}.

Section Remote.
Context `{RemoteIO}.

Definition post_authorize (c : RemotePdpClient) (req : RemotePdpRequest)
    : result str RemotePdpResponse :=
  match transport c with
  | Fixed r => r
  | Http => post_authorize_http c req
  end.

Definition authorize_tables (c : RemotePdpClient) (subject service : str)
    (action : StatementAction) (tables : list str) (sql_fingerprint : option str)
    : result str unit :=
  resp ← post_authorize c
           (mkRemoteRequest subject service (action_as_str action) tables sql_fingerprint);
  if allow resp then Ok tt
  else
    let rule := default ($"remote") (rsp_rule resp) in
    let message :=
      default ($"remote PDP deny: subject '" ++ subject ++ $"' action '" ++ action_as_str action
               ++ $"' tables=" ++ debug_strs tables) (rsp_message resp) in
    Err (rule ++ $": " ++ message).
End Remote.

(** ** Policy snapshots *)

(** The Cedar engine as the function the gate calls. *)
Definition CedarEngine := str → StatementAction → list str → result str unit.

Record LocalPdpInner := mkInner {
  fail_closed : bool;
  star_policy : StarPolicy;
  rules : list SecurityRuleConfig;
  mask_rules : list SecurityMaskRuleConfig;
  column_tags : list SecurityColumnTagConfig;
  high_risk_rules : list SecurityHighRiskRuleConfig;
  time_rules : list SecurityTimeRuleConfig;
  default_max_rows : option Z;
  inner_watermark : SecurityWatermarkConfig;
  cedar : option CedarEngine;
  cedar_required : bool;
  remote : option RemotePdpClient
}.

Definition empty_inner : LocalPdpInner :=
  mkInner true StarDeny [] [] [] [] [] None default_watermark None false None.

Definition has_column_rules (p : LocalPdpInner) : bool :=
  existsb (λ r, negb (is_empty (rule_columns r))) (rules p).

Definition has_mask_config (p : LocalPdpInner) : bool :=
  negb (is_empty (column_tags p)) && negb (is_empty (mask_rules p)).

(** ** Table rules *)

Fixpoint evaluate_rules (rs : list SecurityRuleConfig) (r : AccessRequest) : SecurityDecision :=
  match rs with
  | [] => allow_empty
  | rule :: rs' =>
      if negb (is_empty (rule_columns rule)) then evaluate_rules rs' r
      else if negb (rule_matches rule r) then evaluate_rules rs' r
      else
        let effect := to_ascii_lowercase (rule_effect rule) in
        if str_eqb effect ($"deny") then
          Deny (rule_name rule)
            ($"security policy '" ++ rule_name rule ++ $"' denied " ++ action_as_str (req_action r)
             ++ $" on service '" ++ req_service r ++ $"'")
        else if str_eqb effect ($"allow") then allow_empty
        else evaluate_rules rs' r
  end.

Definition evaluate (p : LocalPdpInner) (r : AccessRequest) : SecurityDecision :=
  evaluate_rules (rules p) r.

(** ** Row filters, masks and watermark *)

(** The rule's filter applies to this statement. *)
Definition filter_applies (s : Subject) (action : StatementAction) (objs : option ObjectSet)
    (tables : list str) (rule : SecurityRuleConfig) : option str :=
  match rule_row_filter rule with
  | None => None
  | Some filter =>
      if is_empty (trim filter) then None
      else if negb (is_empty (rule_columns rule)) && eq_ignore_ascii_case (rule_effect rule) ($"deny")
      then None
      else if negb (subject_matches rule s) then None
      else if negb (action_matches rule action) then None
      else if negb (is_empty (rule_tables rule)) &&
              negb (match objs with
                    | Some set => existsb (table_matches_rule rule) (objects set)
                    | None => tables_hit (rule_tables rule) tables
                    end)
      then None
      else Some filter
  end.

Definition collect_row_filter (p : LocalPdpInner) (s : Subject) (action : StatementAction)
    (objs : option ObjectSet) (tables : list str) : option str :=
  let filters :=
    foldl (λ fs rule,
      match filter_applies s action objs tables rule with
      | Some f => if existsb (λ g, str_eqb g f) fs then fs else fs ++ [f]
      | None => fs
      end) [] (rules p) in
  match filters with
  | [] => None
  | [f] => Some f
  | _ => Some (join ($" AND ") (map (λ f, $"(" ++ f ++ $")") filters))
  end.

Definition tag_bare (tag : SecurityColumnTagConfig) : str :=
  to_ascii_lowercase (rsplit_next "." (tag_column tag)).

(** The (table, column) pairs a mask may be needed for. *)
Definition candidate_columns (p : LocalPdpInner) (objs : option ObjectSet)
    (tables columns : list str) : list (str * str) :=
  let first := default [] (head tables) in
  match objs with
  | Some set =>
      let pairs :=
        concat (map (λ o,
          map (λ c, (table o, c)) (bare_columns o)
          ++ (if obj_has_wildcard o then map (λ tag, (table o, tag_bare tag)) (column_tags p) else []))
          (objects set)) in
      if is_empty pairs then map (λ tag, (first, tag_bare tag)) (column_tags p) else pairs
  | None => map (λ c, (first, to_ascii_lowercase c)) columns
  end.

Definition mask_by_name (ms : list SecurityMaskRuleConfig) : gmap str SecurityMaskRuleConfig :=
  foldl (λ acc m, <[to_ascii_lowercase (mr_name m) := m]> acc) ∅ ms.

(** The body of the double loop for one column and one tag. *)
Definition tag_step (names : gmap str SecurityMaskRuleConfig) (s : Subject) (table col : str)
    (out : list MaskSpec) (tag : SecurityColumnTagConfig) : list MaskSpec :=
  if negb (subjects_match (tag_subjects tag) s) then out
  else if negb (is_empty (tag_tables tag))
          && negb (existsb (λ p, table_glob_match p table || is_empty table) (tag_tables tag))
  then out
  else if negb (column_tag_matches tag col table) then out
  else
    match names !! to_ascii_lowercase (tag_mask_rule tag) with
    | None => out
    | Some cfg =>
        match mask_parse (mr_algorithm cfg) with
        | None => out
        | Some algo =>
            if existsb (λ m, eq_ignore_ascii_case (column m) col) out then out
            else
              out ++ [mkMask col algo
                        (if negb (is_empty (mr_replace_with cfg)) then mr_replace_with cfg
                         else $"***")
                        (mr_prefix_len cfg) (mr_suffix_len cfg) (tag_mask_rule tag)]
        end
    end.

Definition collect_mask_specs (p : LocalPdpInner) (s : Subject) (objs : option ObjectSet)
    (tables columns : list str) : list MaskSpec :=
  if is_empty (column_tags p) || is_empty (mask_rules p) then []
  else
    let names := mask_by_name (mask_rules p) in
    foldl (λ out tc, foldl (tag_step names s tc.1 tc.2) out (column_tags p)) []
      (candidate_columns p objs tables columns).

(** [ms] is the clock reading of the generated token. *)
Definition build_watermark (p : LocalPdpInner) (s : Subject) (service : str) (ms : Z)
    : option WatermarkSpec :=
  let w := inner_watermark p in
  if negb (wm_enabled w) then None
  else
    let token :=
      if is_empty (trim (wm_cfg_token w))
      then subject_id s ++ $"|" ++ service ++ $"|" ++ hex ms
      else wm_cfg_token w in
    Some (mkWatermark (watermark_parse (wm_cfg_mode w))
            (if is_empty (trim (wm_cfg_column w)) then $"_dn_wm" else wm_cfg_column w) token).

(** ** Column rules *)

(** One object under one column rule: [Err] is an early return. *)
Definition acl_object (p : LocalPdpInner) (rule : SecurityRuleConfig) (o : ObjectAccess)
    : result ColumnAclOutcome (list (str * str)) :=
  if negb (table_matches_rule rule o) then Ok []
  else if obj_has_wildcard o && bool_decide (star_policy p = StarDeny)
          && eq_ignore_ascii_case (rule_effect rule) ($"deny")
  then
    Err (AclDeny (rule_name rule)
      ($"security policy '" ++ rule_name rule ++ $"' denies wildcard projection on table '"
       ++ qualified_table o ++ $"' (star_policy=deny); list columns explicitly"))
  else
    Ok (if str_eqb (to_ascii_lowercase (rule_effect rule)) ($"deny")
        then map (λ c, (rule_name rule, c))
               (List.filter (λ c, column_matches_rule rule c (table o)) (bare_columns o))
        else []).

Fixpoint acl_collect {A E} (f : A → result E (list (str * str))) (l : list A)
    : result E (list (str * str)) :=
  match l with
  | [] => Ok []
  | x :: l' => a ← f x; b ← acl_collect f l'; Ok (a ++ b)
  end.

Definition acl_rule (p : LocalPdpInner) (s : Subject) (action : StatementAction) (set : ObjectSet)
    (rule : SecurityRuleConfig) : result ColumnAclOutcome (list (str * str)) :=
  if is_empty (rule_columns rule) || negb (subject_matches rule s) || negb (action_matches rule action)
  then Ok []
  else acl_collect (acl_object p rule) (objects set).

Definition evaluate_column_acl (p : LocalPdpInner) (s : Subject) (service : str)
    (action : StatementAction) (set : ObjectSet) (sql : str) : exec ColumnAclOutcome :=
  match acl_collect (acl_rule p s action set) (rules p) with
  | Err outcome => Ret outcome
  | Ok [] => Ret Unchanged
  | Ok (((rule, col) :: _) as denied) =>
      if action_eqb action Select && negb (has_wildcard set) then
        r ← rewrite_select_strip_columns denied sql;
        Ret (match r with
             | Some rewritten =>
                 if negb (str_eqb rewritten sql) then Rewrite rewritten
                 else AclDeny rule ($"security policy '" ++ rule ++ $"' denied column '" ++ col
                        ++ $"' on service '" ++ service ++ $"' (empty projection after strip)")
             | None =>
                 AclDeny rule ($"security policy '" ++ rule ++ $"' denied column '" ++ col
                   ++ $"' on service '" ++ service ++ $"' (rewrite not possible)")
             end)
      else
        Ret (AclDeny rule ($"security policy '" ++ rule ++ $"' denied column '" ++ col
               ++ $"' for " ++ action_as_str action ++ $" on service '" ++ service ++ $"'"))
  end.

End Pdp.
