(* ===== verification/Authorize.v ===== *)
(** * Authorization of a command ([gateway/core/src/pdp.rs])

    The gates in order: table rules, Cedar, the remote decision point, time
    rules, high-risk rules with their tickets, column rules; then the
    obligations.  Ticket consumption changes the ticket store [W], threaded
    through [TicketGate]. *)

From S2P Require Import Prelude RustStr Glob Model TimeRules StateCrypto Ticket TicketSpec Obligations RowFilter ObjectSet Security SqlRewrite Pdp.
Import Glob TimeRules StateCrypto Obligations RowFilter ObjectSet Security SqlRewrite Pdp.

Module Authorize.

(** ** The ticket store as the gates use it *)

Class TicketGate (W : Type) := {
  gate_consume : Ticket.Env → str → str → str → option str → W → exec (result str str * W)
}.

(** What the gates rely on: [gate_covers] says that the store holds a ticket
    that covers the statement, [gate_spent] counts its uses; a successful
    consumption needs the first and advances the second by one, a failed one
    changes nothing. *)
Class TicketGateLaws (W : Type) `{TicketGate W} := {
  gate_covers : Ticket.Env → str → str → str → option str → W → Prop;
  gate_spent : W → str → Z;
  gate_ok env tid subject sql ty w t w' :
    gate_consume env tid subject sql ty w = Ret (Ok t, w') →
    gate_covers env tid subject sql ty w ∧
    ∀ u, gate_spent w' u = gate_spent w u + (if str_eqb u tid then 1 else 0);
  gate_err env tid subject sql ty w e w' :
    gate_consume env tid subject sql ty w = Ret (Err e, w') → w' = w
}.

(** [self.inner()] at each call site. *)
Record Snapshots := mkSnapshots {
  at_authorize : LocalPdpInner;
  at_evaluate : LocalPdpInner;
  at_cedar : LocalPdpInner;
  at_remote : LocalPdpInner;
  at_time : LocalPdpInner;
  at_risk : LocalPdpInner;
  at_has_columns : LocalPdpInner;
  at_columns : LocalPdpInner;
  at_filter : LocalPdpInner;
  at_masks : LocalPdpInner;
  at_watermark : LocalPdpInner
}.

(** No reload during the call. *)
Definition steady (p : LocalPdpInner) : Snapshots := mkSnapshots p p p p p p p p p p p.

(** The clock readings of one call. *)
Record Readings := mkReadings {
  now_secs : Z;
  time_env : Ticket.Env;
  risk_env : Ticket.Env;
  token_ms : Z
}.

Section Gates.
Context {W : Type} `{TicketGate W} `{RemoteIO} `{Chrono}.

(** The [security-cedar] build; without the feature [cedar_required] is never
    set. *)
Definition evaluate_cedar (p : LocalPdpInner) (s : Subject) (action : StatementAction)
    (tables : list str) : option SecurityDecision :=
  if negb (cedar_required p) then None
  else
    match cedar p with
    | None => Some (Deny ($"cedar") ($"cedar PDP failed to load; deny (fail closed)"))
    | Some engine =>
        match engine (subject_id s) action tables with
        | Ok _ => None
        | Err message => Some (Deny ($"cedar") message)
        end
    end.

Definition evaluate_remote (p : LocalPdpInner) (s : Subject) (service : str)
    (action : StatementAction) (tables : list str) (sql : str) : exec (option SecurityDecision) :=
  match remote p with
  | None => Ret None
  | Some client =>
      fp ← Ticket.sql_fingerprint sql;
      Ret (match authorize_tables client (subject_id s) service action tables (Some fp) with
           | Ok _ => None
           | Err message =>
               if remote_client_fail_closed client then Some (Deny ($"remote") message) else None
           end)
  end.

(** [extract_ticket_id] and [consume], with the message when there is no
    ticket and the prefix of a refusal. *)
Definition use_ticket (env : Ticket.Env) (s : Subject) (sql ticket_type missing refused : str)
    (w : W) : exec (result str str * W) :=
  tid ← Ticket.extract_ticket_id sql;
  match tid with
  | None => Ret (Err missing, w)
  | Some tid =>
      '(r, w') ← gate_consume env tid (subject_id s) sql (Some ticket_type) w;
      Ret (map_err (λ e, refused ++ e) r, w')
  end.

Definition try_consume_time_ticket (env : Ticket.Env) (s : Subject) (sql : str)
    (tr : SecurityTimeRuleConfig) (w : W) : exec (result str str * W) :=
  use_ticket env s sql (tr_ticket_type tr)
    ($"security time policy '" ++ tr_name tr ++ $"': "
     ++ (if is_empty (trim (tr_message tr)) then $"outside allowed time window; ticket required"
         else tr_message tr)
     ++ $" (ticket type '" ++ tr_ticket_type tr ++ $"'; prefix SQL with /*dn_ticket:<id>*/)")
    ($"security time policy '" ++ tr_name tr ++ $"' ticket rejected: ") w.

(** The rule is active for this statement at this time. *)
Definition time_rule_applies (now : Z) (s : Subject) (action : StatementAction)
    (objs : option ObjectSet) (tables : list str) (tr : SecurityTimeRuleConfig) : bool :=
  subjects_match (tr_subjects tr) s
  && action_matches_actions
       (if is_empty (tr_actions tr) then [$"insert"; $"update"; $"delete"; $"ddl"]
        else tr_actions tr) action
  && (is_empty (tr_tables tr) || statement_hit (tr_tables tr) objs tables)
  && matches_now tr now.

Definition time_message (action : StatementAction) (tr : SecurityTimeRuleConfig) : str :=
  if is_empty (trim (tr_message tr)) then
    $"security time policy '" ++ tr_name tr ++ $"' blocked " ++ action_as_str action
    ++ $" outside allowed window (" ++ start tr ++ $"–" ++ end_ tr ++ $" " ++ timezone tr ++ $")"
  else $"security time policy '" ++ tr_name tr ++ $"': " ++ tr_message tr.

(** The loop of [evaluate_time_rules]: the first active rule decides. *)
Definition evaluate_time_rules (p : LocalPdpInner) (rd : Readings) (s : Subject)
    (action : StatementAction) (sql : str) (objs : option ObjectSet) (tables : list str) (w : W)
    : exec (option SecurityDecision * W) :=
  match List.find (time_rule_applies (now_secs rd) s action objs tables) (time_rules p) with
  | None => Ret (None, w)
  | Some tr =>
      if str_eqb (to_ascii_lowercase (tr_effect tr)) ($"require_ticket") then
        '(r, w') ← try_consume_time_ticket (time_env rd) s sql tr w;
        Ret (match r with
             | Ok _ => None
             | Err message => Some (RequireTicket (tr_name tr) (tr_ticket_type tr) message)
             end, w')
      else Ret (Some (Deny (tr_name tr) (time_message action tr)), w)
  end.

Definition high_risk_hit (action : StatementAction) (sql : str) (objs : option ObjectSet)
    (tables : list str) (hr : SecurityHighRiskRuleConfig) : exec bool :=
  let kind := to_ascii_lowercase (hr_kind hr) in
  if str_eqb kind ($"ddl") then Ret (action_eqb action Ddl)
  else if str_eqb kind ($"write_no_where") then Ticket.is_write_without_where sql
  else if str_eqb kind ($"export") then
    stripped ← Ticket.strip_ticket_comment sql;
    let u := to_ascii_uppercase stripped in
    Ret (contains u ($" INTO OUTFILE") || contains u ($"DUMPFILE") || starts_with u ($"COPY ")
         || contains u ($" COPY "))
  else if str_eqb kind ($"action") then
    Ret (if is_empty (hr_actions hr) then false
         else action_matches_actions (hr_actions hr) action)
  else if str_eqb kind ($"table_write") then
    Ret (if negb (is_write action) then false
         else if is_empty (hr_tables hr) then true
         else statement_hit (hr_tables hr) objs tables)
  else Ret false.

Fixpoint high_risk_scan (s : Subject) (action : StatementAction) (sql : str)
    (objs : option ObjectSet) (tables : list str) (hrs : list SecurityHighRiskRuleConfig)
    : exec (option SecurityHighRiskRuleConfig) :=
  match hrs with
  | [] => Ret None
  | hr :: hrs' =>
      if negb (subjects_match (hr_subjects hr) s) then high_risk_scan s action sql objs tables hrs'
      else
        hit ← high_risk_hit action sql objs tables hr;
        if hit : bool then Ret (Some hr) else high_risk_scan s action sql objs tables hrs'
  end.

Definition match_high_risk (p : LocalPdpInner) (s : Subject) (action : StatementAction) (sql : str)
    (objs : option ObjectSet) (tables : list str) : exec (option SecurityHighRiskRuleConfig) :=
  high_risk_scan s action sql objs tables (high_risk_rules p).

Definition try_consume_ticket (env : Ticket.Env) (s : Subject) (sql : str)
    (hr : SecurityHighRiskRuleConfig) (w : W) : exec (result str str * W) :=
  use_ticket env s sql (hr_ticket_type hr)
    (if is_empty (trim (hr_message hr)) then
       $"security policy '" ++ hr_name hr ++ $"' requires ticket type '" ++ hr_ticket_type hr
       ++ $"'; re-issue via POST /admin/tickets and prefix SQL with /*dn_ticket:<id>*/"
     else
       $"security policy '" ++ hr_name hr ++ $"': " ++ hr_message hr ++ $" (ticket type '"
       ++ hr_ticket_type hr ++ $"'; prefix SQL with /*dn_ticket:<id>*/)")
    ($"security policy '" ++ hr_name hr ++ $"' ticket rejected: ") w.

(** [Some decision] refuses, [None] goes on. *)
Definition high_risk_gate (p : LocalPdpInner) (rd : Readings) (s : Subject)
    (action : StatementAction) (sql : str) (objs : option ObjectSet) (tables : list str) (w : W)
    : exec (option SecurityDecision * W) :=
  hr ← match_high_risk p s action sql objs tables;
  match hr with
  | None => Ret (None, w)
  | Some hr =>
      '(r, w') ← try_consume_ticket (risk_env rd) s sql hr w;
      Ret (match r with
           | Ok _ => None
           | Err message => Some (RequireTicket (hr_name hr) (hr_ticket_type hr) message)
           end, w')
  end.

(** The column-rule stage: the outcome for a statement that may go on. *)
Definition column_gate (sn : Snapshots) (s : Subject) (service : str) (action : StatementAction)
    (objs : option ObjectSet) (sql : str) : exec ColumnAclOutcome :=
  if has_column_rules (at_has_columns sn) then
    match objs with
    | Some set =>
        if negb (parse_failed set) || negb (is_empty (objects set)) then
          evaluate_column_acl (at_columns sn) s service action set sql
        else if fail_closed (at_authorize sn) then
          Ret (AclDeny ($"fail_closed")
            ($"security policy deny: column ACL requires parseable SQL (fail_closed)"))
        else Ret Unchanged
    | None => Ret Unchanged
    end
  else Ret Unchanged.

(** The obligations stage: [rewritten] is the text after the column stage, if
    it changed. *)
Definition attach_obligations (sn : Snapshots) (rd : Readings) (s : Subject) (service : str)
    (action : StatementAction) (objs : option ObjectSet) (tables columns : list str)
    (sql : str) (rewritten : option str) : exec SecurityDecision :=
  let p := at_authorize sn in
  let working := default sql rewritten in
  let select := action_eqb action Select in
  let filter := if select then collect_row_filter (at_filter sn) s action objs tables else None in
  next ← match filter with
         | Some f => inject_row_filter working f
         | None => Ret None
         end;
  let masks := if select then collect_mask_specs (at_masks sn) s objs tables columns else [] in
  let wm := if select then build_watermark (at_watermark sn) s service (token_ms rd) else None in
  Ret (match filter, next with
       | Some f, None =>
           if fail_closed p then
             Deny ($"row_filter") ($"security policy deny: cannot inject row_filter '" ++ f
               ++ $"' into SQL")
           else
             let o := mkObligations masks None (default_max_rows p) None wm in
             match rewritten with Some t => AllowRewrite t o | None => Allow o end
       | Some f, Some t =>
           AllowRewrite t (mkObligations masks (Some f) (default_max_rows p) None wm)
       | None, _ =>
           let o := mkObligations masks None (default_max_rows p) None wm in
           match rewritten with Some t => AllowRewrite t o | None => Allow o end
       end).

(** The tables and columns of the request. *)
Definition statement_objects (objs : option ObjectSet) (sql : str) : list str * list str :=
  match objs with
  | Some set =>
      if parse_failed set && is_empty (objects set) then (extract_table_names sql, [])
      else (ObjectSet.tables set, collect_bare_columns set)
  | None => (extract_table_names sql, [])
  end.

(** The gates for a classified statement. *)
Definition authorize_action (sn : Snapshots) (rd : Readings) (s : Subject) (service sql : str)
    (objs : option ObjectSet) (action : StatementAction) (w : W) : exec (SecurityDecision * W) :=
  let '(tables, columns) := statement_objects objs sql in
  let request := mkRequest s service action tables columns (Some sql) in
  let table_decision := evaluate (at_evaluate sn) request in
  if is_deny table_decision then Ret (table_decision, w)
  else
    match evaluate_cedar (at_cedar sn) s action tables with
    | Some deny => Ret (deny, w)
    | None =>
        rem ← evaluate_remote (at_remote sn) s service action tables sql;
        match rem with
        | Some deny => Ret (deny, w)
        | None =>
            '(t, w1) ← evaluate_time_rules (at_time sn) rd s action sql objs tables w;
            match t with
            | Some decision => Ret (decision, w1)
            | None =>
                '(h, w2) ← high_risk_gate (at_risk sn) rd s action sql objs tables w1;
                match h with
                | Some decision => Ret (decision, w2)
                | None =>
                    acl ← column_gate sn s service action objs sql;
                    match acl with
                    | AclDeny rule message => Ret (Deny rule message, w2)
                    | Unchanged =>
                        d ← attach_obligations sn rd s service action objs tables columns sql None;
                        Ret (d, w2)
                    | Rewrite t =>
                        d ← attach_obligations sn rd s service action objs tables columns sql (Some t);
                        Ret (d, w2)
                    end
                end
            end
        end
    end.

(** The SQL arm of [authorize_command_with_objects]. *)
Definition authorize_sql (sn : Snapshots) (rd : Readings) (s : Subject) (service sql : str)
    (dialect : DialectParser) (objs : option ObjectSet) (w : W) : exec (SecurityDecision * W) :=
  let p := at_authorize sn in
  if match objs with
     | Some set => parse_failed set && is_empty (objects set) && fail_closed p
     | None => false
     end
  then Ret (Deny ($"fail_closed")
              ($"security policy deny: SQL object extraction failed (fail_closed)"), w)
  else
    match leading_keyword dialect sql with
    | None =>
        if fail_closed p then
          Ret (Deny ($"fail_closed")
                 ($"security policy deny: empty or unparseable SQL (fail_closed)"), w)
        else authorize_action sn rd s service sql objs Other w
    | Some k => authorize_action sn rd s service sql objs (from_keyword k) w
    end.

Definition authorize_command_with_objects (sn : Snapshots) (rd : Readings) (s : Subject)
    (service : str) (command : GatewayCommand) (dialect : DialectParser) (objs : option ObjectSet)
    (w : W) : exec (SecurityDecision * W) :=
  let p := at_authorize sn in
  match command with
  | Ping | Quit | CloseStatement _ | ClientWire _ | PgBackendSync => Ret (allow_empty, w)
  | Begin | Commit | Rollback =>
      Ret (evaluate (at_evaluate sn) (mkRequest s service Tcl [] [] None), w)
  | UseDatabase database =>
      Ret (evaluate (at_evaluate sn) (mkRequest s service Other [database] [] None), w)
  | Execute _ _ =>
      Ret (if fail_closed p then
             Deny ($"fail_closed")
               ($"security policy deny: prepared EXECUTE not classified (fail_closed)")
           else Allow (mkObligations [] None (default_max_rows p) None None), w)
  | Query sql | QueryParams sql _ | Prepare sql | DescribeSql sql =>
      authorize_sql sn rd s service sql dialect objs w
  end.

Definition authorize_command (sn : Snapshots) (rd : Readings) (s : Subject) (service : str)
    (command : GatewayCommand) (dialect : DialectParser) (w : W) : exec (SecurityDecision * W) :=
  authorize_command_with_objects sn rd s service command dialect None w.
End Gates.

(** ** Helpers of [pdp.rs] for callers *)

Definition sql_from_command (c : GatewayCommand) : option str :=
  match c with Query sql | QueryParams sql _ | Prepare sql => Some sql | _ => None end.

Definition action_from_command (c : GatewayCommand) (dialect : DialectParser) : StatementAction :=
  match c with
  | Begin | Commit | Rollback => Tcl
  | Query sql | QueryParams sql _ | Prepare sql =>
      match leading_keyword dialect sql with Some k => from_keyword k | None => Other end
  | _ => Other
  end.

(** ** The store of [ticket.rs] is such a gate *)

Section StoreGate.
Context `{Crypto, Ticket.TicketJson}.

#[export] Instance store_gate : TicketGate Ticket.World := {
  gate_consume env tid subject sql ty w :=
    match Ticket.consume env tid subject sql ty w with
    | Ret (r, w') => Ret (fmap (M:=result str) Ticket.id r, w')
    | Panic => Panic
    end
}.

#[export] Instance store_gate_laws : TicketGateLaws Ticket.World.
Proof.
  refine {|
    gate_covers env tid subject sql ty w := ∃ t fp, Ticket.inner (Ticket.store w) !! tid = Some t ∧
      Ticket.sql_fingerprint sql = Ret fp ∧
      TicketSpec.covers t (Ticket.now_unix_ms env) subject fp ty;
    gate_spent w tid :=
      match Ticket.inner (Ticket.store w) !! tid with Some t => Ticket.uses t | None => 0 end
  |}.
  - intros env tid subject sql ty w t w'. simpl. unfold Ticket.consume. cbv [mbind exec_bind].
    destruct (Ticket.sql_fingerprint sql) as [fp|]; [|done].
    destruct (Ticket.inner (Ticket.store w) !! tid) as [t0|] eqn:Et; [|done].
    destruct (Ticket.check_consume _ _ _ _ _ _) as [[]|e] eqn:Ec; [|done]. intros [= _ <-].
    apply TicketSpec.check_consume_ok in Ec. split; [by exists t0, fp|].
    intros u. unfold Ticket.put. rewrite TicketSpec.persisted_store. simpl. rewrite lookup_insert.
    destruct (str_eqb u tid) eqn:Eu; case_decide as Hd.
    + subst. by rewrite Et.
    + apply str_eqb_eq in Eu. congruence.
    + subst. by rewrite str_eqb_refl in Eu.
    + by rewrite Z.add_0_r.
  - intros env tid subject sql ty w e w'. simpl. unfold Ticket.consume. cbv [mbind exec_bind].
    destruct (Ticket.sql_fingerprint sql) as [fp|]; [|done].
    destruct (Ticket.inner (Ticket.store w) !! tid) as [t0|]; [|by intros [= _ <-]].
    destruct (Ticket.check_consume _ _ _ _ _ _) as [[]|e']; [done|]. by intros [= _ <-].
Defined.
End StoreGate.

End Authorize.
