(* ===== verification/PdpStore.v ===== *)
(** * The policy store ([gateway/core/src/pdp.rs], [policy_file.rs])

    The process-wide snapshot with its epoch, hot reload, and the shared policy
    file with its modification-time poll.  The file system is a map from paths
    to files; [serde_json] and the Cedar loader are parameters.  The
    compare-exchange of the poll is taken to succeed (one caller at a time). *)

From S2P Require Import Prelude RustStr Model TimeRules Obligations ObjectSet Security Pdp.
Import TimeRules Obligations ObjectSet Security Pdp.

Module PdpStore.

(** ** The shared part of the configuration *)

Record LocalPdpPolicyFile := mkPolicyFile {
  pf_fail_closed : bool;
  pf_star_policy : str;
  pf_rules : list SecurityRuleConfig;
  pf_mask_rules : list SecurityMaskRuleConfig;
  pf_column_tags : list SecurityColumnTagConfig;
  pf_high_risk_rules : list SecurityHighRiskRuleConfig;
  pf_time_rules : list SecurityTimeRuleConfig;
  pf_watermark : SecurityWatermarkConfig;
  pf_default_max_rows : option Z
}.

#[export] Instance LocalPdpPolicyFile_eq_dec : EqDecision LocalPdpPolicyFile.
Proof. solve_decision. Defined.

Definition from_security (c : SecurityPolicyConfig) : LocalPdpPolicyFile :=
  mkPolicyFile (cfg_fail_closed c) (cfg_star_policy c) (cfg_rules c) (cfg_mask_rules c)
    (cfg_column_tags c) (cfg_high_risk_rules c) (cfg_time_rules c) (cfg_watermark c)
    (streaming_max_rows (streaming c)).

Definition apply_to (f : LocalPdpPolicyFile) (c : SecurityPolicyConfig) : SecurityPolicyConfig :=
  mkPolicy (enabled c) (pf_fail_closed f) (pf_star_policy f) (default_audit_level c) (subject c) (pdp c)
    (mkStreaming (window_rows (streaming c)) (pf_default_max_rows f) (max_bytes (streaming c))
       (passthrough (streaming c)) (backend_sql_with_hold (streaming c)))
    (audit c) (pf_rules f) (pf_mask_rules f) (pf_column_tags f) (pf_high_risk_rules f)
    (pf_time_rules f) (pf_watermark f) (state c).

(** ** Snapshots *)

Definition apply_policy_file (p : LocalPdpInner) (f : LocalPdpPolicyFile) : LocalPdpInner :=
  mkInner (pf_fail_closed f) (star_from_config (pf_star_policy f)) (pf_rules f) (pf_mask_rules f)
    (pf_column_tags f) (pf_high_risk_rules f) (pf_time_rules f) (pf_default_max_rows f)
    (pf_watermark f) (cedar p) (cedar_required p) (remote p).

(** [GatewayError]'s [Display]. *)
Definition error_to_string (e : GatewayError) : str :=
  match e with
  | Configuration m => $"configuration error: " ++ m
  | Protocol m => $"protocol error: " ++ m
  | Backend m => $"backend error: " ++ m
  | Unsupported m => $"unsupported operation: " ++ m
  end.

(** [cedar_pdp::try_load_from_pdp_config], and whether the feature is built. *)
Class CedarLoader := {
  cedar_feature : bool;
  try_load_from_pdp_config : SecurityPdpConfig → GatewayResult (option CedarEngine)
}.

(** [serde_json] on the policy file. *)
Class PolicyJson := {
  policy_to_vec : LocalPdpPolicyFile → result str str;
  policy_from_str : str → result str LocalPdpPolicyFile
}.

(** Path to modification time (ns) and contents. *)
Abbreviation Disk := (gmap str (Z * str)).

(** The readings of one operation: the clock, whether file calls succeed, the
    modification time a write would get. *)
Record FsEnv := mkFsEnv { fs_now_ms : Z; fs_io : result str unit; fs_mtime : Z }.

Record LocalPdpStore := mkPdpStore {
  epoch : Z;
  current : LocalPdpInner;
  store_policy_path : str;
  policy_mtime_ns : Z;
  policy_last_check_ms : Z;
  store_policy_poll_ms : Z
}.

Definition new_pdp_store : LocalPdpStore := mkPdpStore 0 empty_inner [] 0 0 1000.

Record LocalPdpReloadInfo := mkReloadInfo {
  info_epoch : Z;
  swapped : bool;
  previous_rule_count : nat;
  rule_count : nat
}.

Definition swap (next : LocalPdpInner) (st : LocalPdpStore) : LocalPdpReloadInfo * LocalPdpStore :=
  let e := u64_wrap (epoch st + 1) in
  (mkReloadInfo e true (length (rules (current st))) (length (rules next)),
   mkPdpStore e next (store_policy_path st) (policy_mtime_ns st) (policy_last_check_ms st)
     (store_policy_poll_ms st)).

Definition configure_policy_poll (env : FsEnv) (path : str) (poll_ms mtime_ns : Z)
    (st : LocalPdpStore) : LocalPdpStore :=
  mkPdpStore (epoch st) (current st) (trim path) mtime_ns (fs_now_ms env) poll_ms.

Definition policy_file_mtime_ns (d : Disk) (path : str) : option Z :=
  let path := trim path in
  if is_empty path then None else fst <$> d !! path.

Section Store.
Context `{CedarLoader, PolicyJson}.

Definition from_config (c : SecurityPolicyConfig) : LocalPdpInner :=
  let '(ced, req) :=
    if cedar_feature && eq_ignore_ascii_case (pdp_backend (pdp c)) ($"cedar") then
      match try_load_from_pdp_config (pdp c) with
      | Ok eng => (eng, true)
      | Err _ => (None, true)
      end
    else (None, false) in
  let rem :=
    if eq_ignore_ascii_case (pdp_backend (pdp c)) ($"remote") then
      match remote_from_config (pdp c) with
      | Ok client => Some client
      | Err e => Some (transport_error_for_test (error_to_string e) (remote_fail_closed (pdp c)))
      end
    else None in
  mkInner (cfg_fail_closed c) (star_from_config (cfg_star_policy c)) (cfg_rules c)
    (cfg_mask_rules c) (cfg_column_tags c) (cfg_high_risk_rules c) (cfg_time_rules c)
    (streaming_max_rows (streaming c)) (cfg_watermark c) ced req rem.

Definition from_config_preserving_cedar (c : SecurityPolicyConfig) (previous : LocalPdpInner)
    : LocalPdpInner :=
  let next := from_config c in
  if cedar_required next && cedar_required previous && is_none (cedar next) then
    mkInner (fail_closed next) (star_policy next) (rules next) (mask_rules next)
      (column_tags next) (high_risk_rules next) (time_rules next) (default_max_rows next)
      (inner_watermark next) (cedar previous) (cedar_required next) (remote next)
  else next.

Definition load_local_pdp_policy_file (env : FsEnv) (d : Disk) (path : str)
    : result str (option LocalPdpPolicyFile) :=
  let path := trim path in
  if is_empty path then Ok None
  else
    match d !! path with
    | None => Ok None
    | Some (_, raw) =>
        _ ← fs_io env;
        if is_empty (trim raw) then Ok None else Some <$> policy_from_str raw
    end.

Definition save_local_pdp_policy_file (env : FsEnv) (path : str) (snapshot : LocalPdpPolicyFile)
    (d : Disk) : result str Disk :=
  let path := trim path in
  if is_empty path then Ok d
  else
    _ ← fs_io env;
    data ← policy_to_vec snapshot;
    Ok (<[path := (fs_mtime env, data)]> d).

(** The configuration with the shared file applied; seeds the file when there
    is none. *)
Definition merge_local_pdp_from_file (env : FsEnv) (c : SecurityPolicyConfig) (d : Disk)
    : result str (SecurityPolicyConfig * Disk) :=
  let path := trim (policy_path (state c)) in
  if is_empty path then Ok (c, d)
  else
    found ← load_local_pdp_policy_file env d path;
    match found with
    | Some snap => Ok (apply_to snap c, d)
    | None =>
        d' ← save_local_pdp_policy_file env path (from_security c) d;
        Ok (c, d')
    end.

Definition persist_local_pdp_to_file (env : FsEnv) (c : SecurityPolicyConfig) (d : Disk)
    : result str Disk :=
  let path := trim (policy_path (state c)) in
  if is_empty path then Ok d else save_local_pdp_policy_file env path (from_security c) d.

Definition maybe_refresh_from_policy_file (env : FsEnv) (d : Disk) (st : LocalPdpStore)
    : LocalPdpStore :=
  if store_policy_poll_ms st =? 0 then st
  else if is_empty (store_policy_path st) then st
  else if sat_sub (fs_now_ms env) (policy_last_check_ms st) <? store_policy_poll_ms st then st
  else
    let st := mkPdpStore (epoch st) (current st) (store_policy_path st) (policy_mtime_ns st)
                (fs_now_ms env) (store_policy_poll_ms st) in
    match policy_file_mtime_ns d (store_policy_path st) with
    | None => st
    | Some mtime =>
        if mtime =? policy_mtime_ns st then st
        else
          match load_local_pdp_policy_file env d (store_policy_path st) with
          | Ok (Some file) =>
              let st' := snd (swap (apply_policy_file (current st) file) st) in
              mkPdpStore (epoch st') (current st') (store_policy_path st') mtime
                (policy_last_check_ms st') (store_policy_poll_ms st')
          | Ok None | Err _ => st
          end
    end.

(** [LocalPdpStore::load]. *)
Definition load (env : FsEnv) (d : Disk) (st : LocalPdpStore) : LocalPdpInner * LocalPdpStore :=
  let st' := maybe_refresh_from_policy_file env d st in (current st', st').

Definition install_local_pdp (env : FsEnv) (c : SecurityPolicyConfig) (d : Disk)
    (st : LocalPdpStore) : option (LocalPdpStore * Disk) :=
  if negb (enabled c) then None
  else
    let '(effective, d') :=
      match merge_local_pdp_from_file env c d with Ok r => r | Err _ => (c, d) end in
    let st' := snd (swap (from_config effective) st) in
    let mtime := default 0 (policy_file_mtime_ns d' (policy_path (state effective))) in
    Some (configure_policy_poll env (policy_path (state effective))
            (policy_poll_ms (state effective)) mtime st', d').

Definition reload_global_local_pdp (env : FsEnv) (c : SecurityPolicyConfig) (d : Disk)
    (st : LocalPdpStore) : option (LocalPdpReloadInfo * LocalPdpStore * Disk) :=
  if negb (enabled c) then None
  else
    let '(info, st') := swap (from_config_preserving_cedar c (current st)) st in
    let d' := match persist_local_pdp_to_file env c d with Ok d' => d' | Err _ => d end in
    let mtime := default 0 (policy_file_mtime_ns d' (policy_path (state c))) in
    Some (info, configure_policy_poll env (policy_path (state c)) (policy_poll_ms (state c)) mtime st',
          d').
End Store.

Definition security_requires_listener_rebuild (cur next : SecurityPolicyConfig) : bool :=
  if decide (cur = next) then false
  else
    negb (eqb (enabled cur) (enabled next))
    || negb (bool_decide (subject cur = subject next))
    || negb (bool_decide (pdp cur = pdp next))
    || negb (window_rows (streaming cur) =? window_rows (streaming next))
    || negb (eqb (passthrough (streaming cur)) (passthrough (streaming next)))
    || negb (bool_decide (max_bytes (streaming cur) = max_bytes (streaming next))).

Definition security_local_pdp_hot_reloadable_only (cur next : SecurityPolicyConfig) : bool :=
  negb (bool_decide (cur = next)) && negb (security_requires_listener_rebuild cur next).

(** ** Properties *)

(** The fields two snapshots must agree on to decide alike under the file. *)
Definition shared_of (p : LocalPdpInner) :=
  (fail_closed p, star_policy p, rules p, mask_rules p, column_tags p, high_risk_rules p,
   time_rules p, default_max_rows p, inner_watermark p).

Section Properties.
Context `{CedarLoader, PolicyJson}.

(** The policy file carries exactly the shared part of the configuration:
    writing it out and applying it back changes nothing, what is applied is
    what is read again, and the snapshot built from the merged configuration
    is the snapshot with the file applied. *)
Theorem policy_file_roundtrip c f :
  apply_to (from_security c) c = c ∧ from_security (apply_to f c) = f ∧
  from_config (apply_to f c) = apply_policy_file (from_config c) f.
Proof.
  split; [by destruct c as [? ? ? ? ? ? []]|]. split; [by destruct f|].
  unfold from_config, apply_policy_file. simpl.
  destruct (if cedar_feature && _ then _ else _) as [ced req]. by destruct f.
Qed.

(** Hot reload is sound: when a change is classified as hot-reloadable only,
    the snapshot that the reload installs is the one the shared fields alone
    produce on the running configuration; nothing the snapshot depends on is
    left behind. *)
Theorem hot_reload_complete cur next :
  security_local_pdp_hot_reloadable_only cur next = true →
  from_config next = apply_policy_file (from_config cur) (from_security next) ∧
  enabled next = enabled cur ∧ subject next = subject cur ∧ pdp next = pdp cur.
Proof.
  unfold security_local_pdp_hot_reloadable_only, security_requires_listener_rebuild.
  destruct (decide (cur = next)) as [->|Hne].
  { by rewrite bool_decide_eq_true_2. }
  intros [_ Hr]%andb_true_iff. bool_hyps.
  repeat match goal with
  | H : bool_decide _ = true |- _ => apply bool_decide_eq_true_1 in H
  | H : eqb _ _ = true |- _ => apply eqb_prop in H
  end.
  assert (pdp cur = pdp next) as Hpdp by done. split_and!; try congruence.
  unfold from_config, apply_policy_file. simpl. rewrite Hpdp.
  destruct (if cedar_feature && _ then _ else _) as [ced req]. done.
Qed.
End Properties.

(** [serde_json] documents: a struct is written as an object, and reading what
    was written gives the value back. *)
Class PolicyJsonLaws `{PolicyJson} : Prop := {
  policy_object f b : policy_to_vec f = Ok b → ∃ mid, b = "{"%char :: mid ++ ["}"%char];
  policy_roundtrip f b : policy_to_vec f = Ok b → policy_from_str b = Ok f
}.

Section Shared.
Context `{CedarLoader, PolicyJsonLaws}.

Lemma load_saved env env' path f d d' :
  trim path ≠ [] → save_local_pdp_policy_file env path f d = Ok d' → fs_io env' = Ok tt →
  load_local_pdp_policy_file env' d' path = Ok (Some f) ∧
  policy_file_mtime_ns d' path = Some (fs_mtime env).
Proof.
  intros Hp. unfold save_local_pdp_policy_file, load_local_pdp_policy_file, policy_file_mtime_ns.
  assert (is_empty (trim path) = false) as -> by (by destruct (trim path)).
  cbv [mbind result_bind]. destruct (fs_io env) as [[]|]; [|done].
  destruct (policy_to_vec f) as [data|] eqn:Ej; [|done]. intros [= <-] ->.
  rewrite lookup_insert_eq. pose proof (policy_roundtrip _ _ Ej) as Hr.
  destruct (policy_object _ _ Ej) as [mid Hmid].
  assert (trim data = data) as -> by (rewrite Hmid; apply trim_solid; by vm_compute).
  split; [|done]. rewrite Hr. by rewrite Hmid.
Qed.

(** A due poll on a changed file installs it. *)
Lemma refresh_installs env d st mtime f :
  store_policy_path st ≠ [] → 0 < store_policy_poll_ms st →
  store_policy_poll_ms st <= fs_now_ms env - policy_last_check_ms st →
  policy_file_mtime_ns d (store_policy_path st) = Some mtime → mtime ≠ policy_mtime_ns st →
  load_local_pdp_policy_file env d (store_policy_path st) = Ok (Some f) →
  load env d st =
    (apply_policy_file (current st) f,
     mkPdpStore (u64_wrap (epoch st + 1)) (apply_policy_file (current st) f) (store_policy_path st)
       mtime (fs_now_ms env) (store_policy_poll_ms st)).
Proof.
  intros Hp Hpoll Hdue Hm Hne Hl. unfold load, maybe_refresh_from_policy_file.
  rewrite (proj2 (Z.eqb_neq _ 0)) by lia.
  assert (is_empty (store_policy_path st) = false) as -> by (by destruct (store_policy_path st)).
  unfold sat_sub. rewrite (proj2 (Z.ltb_ge _ _)) by lia. cbn [store_policy_path policy_mtime_ns].
  rewrite Hm, (proj2 (Z.eqb_neq _ _)), Hl by done. done.
Qed.

(** C23 A reload reaches the other processes: when an administrator's reload in one process
    wrote the shared policy file (a path that is not blank, no error of the file system or of
    the encoding), then the next poll of another process on the same path that is due,
    that reads the file without error, and that finds a modification time other than the one it
    remembers, installs a snapshot with the same shared policy as the first process,
    and one more epoch.  (A change that leaves the modification time as it was is not seen.) *)
Theorem reload_propagates envA envB c d d' stA stA' stB info :
  reload_global_local_pdp envA c d stA = Some (info, stA', d') →
  fs_io envA = Ok tt → is_ok (policy_to_vec (from_security c)) = true → fs_io envB = Ok tt →
  trim (policy_path (state c)) ≠ [] → store_policy_path stB = trim (policy_path (state c)) →
  0 < store_policy_poll_ms stB →
  store_policy_poll_ms stB <= fs_now_ms envB - policy_last_check_ms stB →
  fs_mtime envA ≠ policy_mtime_ns stB →
  shared_of (current stA') = shared_of (from_config c) ∧
  shared_of (load envB d' stB).1 = shared_of (from_config c) ∧
  epoch (load envB d' stB).2 = u64_wrap (epoch stB + 1).
Proof.
  intros Hr HioA Hj HioB Hpath HpB Hpoll Hdue Hm. unfold reload_global_local_pdp in Hr.
  destruct (enabled c); [|done]. cbn [negb swap] in Hr.
  set (path := trim (policy_path (state c))) in *.
  assert (persist_local_pdp_to_file envA c d = save_local_pdp_policy_file envA path (from_security c) d)
    as Epers.
  { unfold persist_local_pdp_to_file. fold path. by destruct path. }
  rewrite Epers in Hr.
  destruct (save_local_pdp_policy_file envA path (from_security c) d) as [d1|e] eqn:Es.
  2:{ unfold save_local_pdp_policy_file in Es. cbv [mbind result_bind] in Es.
      rewrite HioA in Es. unfold path in Es. rewrite trim_trim in Es. fold path in Es.
      destruct path; [done|]. cbn [is_empty] in Es. by destruct (policy_to_vec _). }
  injection Hr as _ <- <-.
  assert (trim path ≠ []) as Htp by (unfold path; by rewrite trim_trim).
  destruct (load_saved envA envB path _ d d1 Htp Es HioB) as [Hl Hmt].
  assert (shared_of (from_config c) = shared_of (apply_policy_file (current stB) (from_security c)))
    as Hsh.
  { unfold from_config. by destruct (if cedar_feature && _ then _ else _) as [ced req]. }
  split.
  { unfold from_config_preserving_cedar. simpl. by destruct (_ && _ && _). }
  rewrite (refresh_installs envB d1 stB (fs_mtime envA) (from_security c)) by (rewrite ?HpB; done).
  done.
Qed.
End Shared.

(** The classification of changes is coarser than its description: a change of
    the audit configuration alone counts as hot-reloadable only, although a
    reload neither installs nor stores it. *)
Theorem audit_change_is_lost :
  ∃ cur next, security_local_pdp_hot_reloadable_only cur next = true ∧
    queue_capacity (audit cur) ≠ queue_capacity (audit next) ∧
    from_security cur = from_security next ∧
    ∀ (Hc : CedarLoader), from_config cur = from_config next.
Proof.
  exists default_policy, (mkPolicy false true ($"deny") ($"L0") default_subject default_pdp
    default_streaming (mkAudit 1 1024 ($"drop_new") [$"tracing"] [] 0 7 32 [] [] [] [] [] [] [] [] []
      [] [] 2048 false 5 4096 ($"samples") true) [] [] [] [] [] default_watermark default_state).
  split; [vm_compute; reflexivity|]. split; [vm_compute; congruence|]. split; [done|]. done.
Qed.

(** ** Instances at concrete inputs *)

#[export] Instance toy_loader : CedarLoader := {
  cedar_feature := false;
  try_load_from_pdp_config _ := Ok None
}.

(** A new rule set for the default configuration with a shared file. *)
Definition toy_config (rs : list SecurityRuleConfig) : SecurityPolicyConfig :=
  mkPolicy true true ($"deny") ($"L0") default_subject default_pdp default_streaming default_audit
    rs [] [] [] [] default_watermark (mkState ($"memory") [] [] [] [] ($"p.json ") 1000).

Definition toy_deny : SecurityRuleConfig :=
  mkRule ($"no secrets") ($"deny") [] [$"secret*"] [] [] None.

Lemma hot_reload_complete_witness :
  from_config (toy_config [toy_deny]) =
  apply_policy_file (from_config (toy_config [])) (from_security (toy_config [toy_deny])).
Proof.
  apply (hot_reload_complete (toy_config []) (toy_config [toy_deny])). vm_compute. reflexivity.
Defined.

#[export] Instance toy_policy_json : PolicyJson := {
  policy_to_vec f :=
    if decide (f = from_security (toy_config [toy_deny])) then Ok ($"{1}") else Err ($"unsupported");
  policy_from_str b :=
    if str_eqb b ($"{1}") then Ok (from_security (toy_config [toy_deny])) else Err ($"unsupported")
}.

#[export] Instance toy_policy_json_laws : PolicyJsonLaws.
Proof.
  split; intros f b; simpl; destruct (decide _) as [->|]; try done; intros [= <-].
  - by exists ["1"%char].
  - done.
Qed.

Definition toy_fs : FsEnv := mkFsEnv 5000 (Ok tt) 77.
Definition toy_peer : LocalPdpStore := mkPdpStore 4 empty_inner ($"p.json") 12 1000 1000.

Lemma reload_propagates_witness :
  ∃ info st d', reload_global_local_pdp toy_fs (toy_config [toy_deny]) ∅ new_pdp_store = Some (info, st, d') ∧
    rules (load toy_fs d' toy_peer).1 = [toy_deny] ∧
    shared_of (load toy_fs d' toy_peer).1 = shared_of (from_config (toy_config [toy_deny])).
Proof.
  eexists _, _, _. split; [reflexivity|]. split; [vm_compute; reflexivity|].
  refine (proj1 (proj2 (reload_propagates toy_fs toy_fs (toy_config [toy_deny]) ∅ _ new_pdp_store _
    toy_peer _ eq_refl _ _ _ _ _ _ _ _)));
    first [reflexivity|vm_compute; reflexivity|vm_compute; congruence].
Defined.

End PdpStore.
