(* ===== verification/AuthorizeTheorems.v ===== *)
(** * Theorems about authorization

    First-match table rules, the order of the gates, tickets for high-risk
    statements, row filters and masks; validated configurations; and what goes
    wrong when a reload happens in the middle of a call. *)

From S2P Require Import Prelude RustStr Glob Model TimeRules StateCrypto Ticket TicketSpec TicketTheorems Obligations RowFilter ObjectSet Security SqlRewrite Pdp Authorize PdpStore.
Import Glob TimeRules StateCrypto TicketTheorems Obligations RowFilter ObjectSet Security SqlRewrite Pdp
  Authorize PdpStore.

Module AuthorizeTheorems.

(** ** Table rules *)

(** The rule settles the request. *)
Definition decides (rule : SecurityRuleConfig) (r : AccessRequest) : bool :=
  is_empty (rule_columns rule) && rule_matches rule r
  && one_of [$"deny"; $"allow"] (to_ascii_lowercase (rule_effect rule)).

Lemma one_of_two a b s : one_of [a; b] s = str_eqb s a || str_eqb s b.
Proof. unfold one_of. simpl. by rewrite orb_false_r. Qed.

Lemma evaluate_rules_deny rs r :
  is_deny (evaluate_rules rs r) = true ↔
  ∃ pre rule post, rs = pre ++ rule :: post ∧ Forall (λ x, decides x r = false) pre ∧
    decides rule r = true ∧ to_ascii_lowercase (rule_effect rule) = $"deny".
Proof.
  induction rs as [|rule rs IH].
  { split; [done|]. intros (pre & ? & ? & E & _). by destruct pre. }
  assert (decides rule r = false → is_deny (evaluate_rules rs r) = true ↔
    ∃ pre rule0 post, rule :: rs = pre ++ rule0 :: post ∧ Forall (λ x, decides x r = false) pre ∧
      decides rule0 r = true ∧ to_ascii_lowercase (rule_effect rule0) = $"deny") as Hskip.
  { intros Hno. rewrite IH. split.
    - intros (pre & x & post & -> & ? & ? & ?). exists (rule :: pre), x, post. auto.
    - intros ([|y pre] & x & post & [= -> ->] & Hall & ? & ?); [congruence|].
      apply Forall_cons in Hall as [_ ?]. by exists pre, x, post. }
  cbn [evaluate_rules]. unfold decides at 1 in Hskip. rewrite one_of_two in Hskip.
  destruct (is_empty (rule_columns rule)) eqn:Ec; cbn [negb andb] in *; [|by apply Hskip].
  destruct (rule_matches rule r) eqn:Em; cbn [negb andb] in *; [|by apply Hskip].
  destruct (str_eqb _ ($"deny")) eqn:Ed; cbn [orb] in *.
  { split; [intros _|done]. exists [], rule, rs. split; [done|]. split; [done|].
    unfold decides. rewrite Ec, Em, one_of_two, Ed. by apply str_eqb_eq in Ed. }
  destruct (str_eqb _ ($"allow")) eqn:Ea; [|by apply Hskip].
  split; [done|]. intros ([|y pre] & x & post & [= -> ->] & Hall & _ & Hx).
  - apply str_eqb_eq in Ea. rewrite Hx in Ea. discriminate Ea.
  - apply Forall_cons in Hall as [Hy _]. unfold decides in Hy.
    by rewrite Ec, Em, one_of_two, Ed, Ea in Hy.
Qed.

(** Table rules are first match: a request is refused by the rules exactly
    when the first rule that applies to its subject, action and tables (rules
    on columns aside) is a deny rule; with no such rule it is allowed. *)
Theorem evaluate_first_match p r :
  is_deny (evaluate p r) = true ↔
  ∃ pre rule post, rules p = pre ++ rule :: post ∧ Forall (λ x, decides x r = false) pre ∧
    decides rule r = true ∧ to_ascii_lowercase (rule_effect rule) = $"deny".
Proof. apply evaluate_rules_deny. Qed.

(** ** The gates *)

Section Gates.
Context {W : Type} `{TicketGateLaws W} `{RemoteIO} `{Chrono}.

(** The request the table rules see. *)
Definition request_of (s : Subject) (service sql : str) (objs : option ObjectSet)
    (action : StatementAction) : AccessRequest :=
  let '(tables, columns) := statement_objects objs sql in
  mkRequest s service action tables columns (Some sql).

(** The action of a statement that is classified. *)
Definition classified (dialect : DialectParser) (sql : str) (action : StatementAction) : Prop :=
  ∃ k, leading_keyword dialect sql = Some k ∧ action = from_keyword k.

(** C20 Deny rules have the last word: when a table rule refuses a classified
    statement, the statement is refused, whatever the other gates say, and no
    ticket is used. *)
Theorem table_deny_wins sn rd s service sql dialect objs action w :
  classified dialect sql action →
  is_deny (evaluate (at_evaluate sn) (request_of s service sql objs action)) = true →
  ∃ d, authorize_sql sn rd s service sql dialect objs w = Ret (d, w) ∧ is_deny d = true.
Proof.
  intros (k & Hk & ->) Hd. unfold authorize_sql. rewrite Hk.
  destruct (match objs with Some _ => _ | None => _ end); [by eexists|].
  unfold authorize_action, request_of in *.
  destruct (statement_objects objs sql) as [tables columns]. rewrite Hd. by eexists.
Qed.

Lemma use_ticket_ok env s sql ty missing refused w t w' :
  use_ticket env s sql ty missing refused w = Ret (Ok t, w') →
  ∃ tid, Ticket.extract_ticket_id sql = Ret (Some tid) ∧
    gate_covers env tid (subject_id s) sql (Some ty) w ∧
    ∀ u, gate_spent w' u = gate_spent w u + (if str_eqb u tid then 1 else 0).
Proof.
  unfold use_ticket. cbv [mbind exec_bind].
  destruct (Ticket.extract_ticket_id sql) as [[tid|]|]; [|done..].
  destruct (gate_consume env tid (subject_id s) sql (Some ty) w) as [[[t0|e] w0]|] eqn:E; [|done..].
  intros [= _ <-]. exists tid. split; [done|]. by apply gate_ok in E.
Qed.

Lemma use_ticket_err env s sql ty missing refused w e w' :
  use_ticket env s sql ty missing refused w = Ret (Err e, w') → w' = w.
Proof.
  unfold use_ticket. cbv [mbind exec_bind].
  destruct (Ticket.extract_ticket_id sql) as [[tid|]|]; [|by intros [= _ <-]|done].
  destruct (gate_consume env tid (subject_id s) sql (Some ty) w) as [[[t0|e0] w0]|] eqn:E; [done| |done].
  intros [= _ <-]. by apply gate_err in E.
Qed.

(** Uses never go down. *)
Lemma time_rules_spent p rd s action sql objs tables w t w' :
  evaluate_time_rules p rd s action sql objs tables w = Ret (t, w') →
  ∀ u, gate_spent w u <= gate_spent w' u.
Proof.
  unfold evaluate_time_rules. destruct (List.find _ _) as [tr|]; [|intros [= _ <-] u; lia].
  destruct (str_eqb _ _); [|intros [= _ <-] u; lia]. cbv [mbind exec_bind].
  destruct (try_consume_time_ticket (time_env rd) s sql tr w) as [[[t0|e] w0]|] eqn:E; [..|done];
    intros [= _ <-] u; unfold try_consume_time_ticket in E.
  - apply use_ticket_ok in E as (tid & _ & _ & ->). case_match; lia.
  - apply use_ticket_err in E as ->. lia.
Qed.

(** An allowed statement went through every gate. *)
Lemma allowed_passed sn rd s service sql dialect objs action w d w' :
  classified dialect sql action →
  authorize_sql sn rd s service sql dialect objs w = Ret (d, w') → is_deny d = false →
  let '(tables, columns) := statement_objects objs sql in
  is_deny (evaluate (at_evaluate sn) (request_of s service sql objs action)) = false ∧
  evaluate_cedar (at_cedar sn) s action tables = None ∧
  evaluate_remote (at_remote sn) s service action tables sql = Ret None ∧
  ∃ w1 acl,
    evaluate_time_rules (at_time sn) rd s action sql objs tables w = Ret (None, w1) ∧
    high_risk_gate (at_risk sn) rd s action sql objs tables w1 = Ret (None, w') ∧
    column_gate sn s service action objs sql = Ret acl ∧
    (acl = Unchanged ∧
       attach_obligations sn rd s service action objs tables columns sql None = Ret d ∨
     ∃ t, acl = Rewrite t ∧
       attach_obligations sn rd s service action objs tables columns sql (Some t) = Ret d).
Proof.
  intros (k & Hk & ->). unfold authorize_sql. rewrite Hk.
  destruct (match objs with Some _ => _ | None => _ end); [by intros [= <- _]|].
  unfold authorize_action, request_of.
  destruct (statement_objects objs sql) as [tables columns].
  destruct (is_deny (evaluate _ _)) eqn:Ev; [intros [= <- _]; congruence|].
  destruct (evaluate_cedar _ _ _ _) as [c|] eqn:Ec.
  { intros [= <- _] Hd. exfalso. unfold evaluate_cedar in Ec. by split_matches. }
  cbv [mbind exec_bind].
  destruct (evaluate_remote _ _ _ _ _ _) as [[r|]|] eqn:Er; [|..|done].
  { intros [= <- _] Hd. exfalso. unfold evaluate_remote in Er. cbv [mbind exec_bind] in Er.
    by split_matches. }
  destruct (evaluate_time_rules _ _ _ _ _ _ _ _) as [[[t|] w1]|] eqn:Et; [|..|done].
  { intros [= <- _] Hd. exfalso. unfold evaluate_time_rules in Et. cbv [mbind exec_bind] in Et.
    by split_matches. }
  destruct (high_risk_gate _ _ _ _ _ _ _ _) as [[[h|] w2]|] eqn:Eh; [|..|done].
  { intros [= <- _] Hd. exfalso. unfold high_risk_gate in Eh. cbv [mbind exec_bind] in Eh.
    by split_matches. }
  destruct (column_gate _ _ _ _ _ _) as [acl|] eqn:Ea; [|done]. intros Hr Hd.
  split; [done|]. split; [done|]. split; [done|]. exists w1, acl.
  destruct acl as [|t|rule m]; [..|by injection Hr as <- _];
    (destruct (attach_obligations _ _ _ _ _ _ _ _ _ _) as [o|] eqn:Eo; [|done]); injection Hr as <- <-;
    split_and!; try done; [by left|right; by exists t].
Qed.

(** C2 High-risk statements need a ticket: if a classified statement that
    matches a high-risk rule is allowed (rewritten or not), its text names a
    ticket that covers this subject, this statement and the rule's ticket
    type at that moment, and a use of that ticket has been spent. *)
Theorem high_risk_needs_ticket sn rd s service sql dialect objs action hr w d w' :
  classified dialect sql action →
  authorize_sql sn rd s service sql dialect objs w = Ret (d, w') → is_deny d = false →
  match_high_risk (at_risk sn) s action sql objs (statement_objects objs sql).1 = Ret (Some hr) →
  ∃ tid w1, Ticket.extract_ticket_id sql = Ret (Some tid) ∧
    gate_covers (risk_env rd) tid (subject_id s) sql (Some (hr_ticket_type hr)) w1 ∧
    gate_spent w1 tid < gate_spent w' tid ∧ ∀ u, gate_spent w u <= gate_spent w1 u.
Proof.
  intros Hc Ha Hd Hm. pose proof (allowed_passed _ _ _ _ _ _ _ _ _ _ _ Hc Ha Hd) as Hp.
  destruct (statement_objects objs sql) as [tables columns]; simpl in Hm.
  destruct Hp as (_ & _ & _ & w1 & acl & Ht & Hg & _).
  unfold high_risk_gate in Hg. cbv [mbind exec_bind] in Hg. rewrite Hm in Hg.
  destruct (try_consume_ticket (risk_env rd) s sql hr w1) as [[[t|e] w2]|] eqn:Eu; [|done..].
  injection Hg as ->. apply use_ticket_ok in Eu as (tid & Hx & Hcov & Hs).
  exists tid, w1. split; [done|]. split; [done|].
  split; [rewrite Hs, str_eqb_refl; lia|]. by eapply time_rules_spent.
Qed.

End Gates.

(** ** Validated configurations *)

Lemma check_each_ok {A} (check : Z → A → GatewayResult unit) i l :
  check_each check i l = Ok tt ↔ ∀ k x, l !! k = Some x → check (i + Z.of_nat k) x = Ok tt.
Proof.
  revert i. induction l as [|x l IH]; intros i; simpl.
  - split; [done|done].
  - cbv [mbind result_bind]. destruct (check i x) as [[]|e] eqn:E.
    + rewrite IH. split.
      * intros Hl [|k] y Hy; simpl in Hy; [injection Hy as <-; by rewrite Z.add_0_r|].
        replace (i + Z.of_nat (S k)) with (i + 1 + Z.of_nat k) by lia. by apply Hl.
      * intros Hl k y Hy. replace (i + 1 + Z.of_nat k) with (i + Z.of_nat (S k)) by lia. by apply Hl.
    + split; [done|]. intros Hl. specialize (Hl 0%nat x eq_refl). rewrite Z.add_0_r in Hl. congruence.
Qed.

Lemma reject_if_ok b m : reject_if b m = Ok tt ↔ b = false.
Proof. unfold reject_if. destruct b; naive_solver. Qed.

Lemma result_bind_ok {E A} (m : result E unit) (f : unit → result E A) a :
  m ≫= f = Ok a ↔ m = Ok tt ∧ f tt = Ok a.
Proof. destruct m as [[]|]; simpl; naive_solver. Qed.

(** A mask rule whose name and algorithm are usable. *)
Definition usable (m : SecurityMaskRuleConfig) : Prop := is_Some (mask_parse (mr_algorithm m)).

Lemma validate_policy_ok `{Chrono} cedar c :
  validate_policy cedar c = Ok tt →
  (∀ r, r ∈ cfg_rules c → rule_effect r = $"allow" ∨ rule_effect r = $"deny") ∧
  (∀ m, m ∈ cfg_mask_rules c → usable m) ∧
  (∀ t, t ∈ cfg_column_tags c → ∃ m, m ∈ cfg_mask_rules c ∧
     to_ascii_lowercase (mr_name m) = to_ascii_lowercase (tag_mask_rule t)) ∧
  (∀ r, r ∈ cfg_time_rules c → ∃ off s e, parse_timezone_offset_minutes (timezone r) = Ok off ∧
     parse_hhmm (start r) = Ok s ∧ parse_hhmm (end_ r) = Ok e) ∧
  (∀ h, h ∈ cfg_high_risk_rules c → to_ascii_lowercase (hr_kind h) ∈
     [$"ddl"; $"write_no_where"; $"action"; $"table_write"; $"export"]).
Proof.
  unfold validate_policy. rewrite !result_bind_ok, !check_each_ok.
  intros (_ & _ & _ & _ & _ & _ & _ & _ & Hr & Hm & Ht & Hh & Htr & _). split_and!.
  - intros r (k & Hk)%list_elem_of_lookup. specialize (Hr k r Hk). unfold validate_rule in Hr.
    rewrite result_bind_ok, !reject_if_ok, negb_false_iff, one_of_elem in Hr. set_solver.
  - intros m (k & Hk)%list_elem_of_lookup. specialize (Hm k m Hk). unfold validate_mask_rule in Hm.
    rewrite result_bind_ok, !reject_if_ok in Hm. destruct Hm as [_ Hm]. unfold usable.
    destruct (mask_parse _); [by eexists|done].
  - intros t (k & Hk)%list_elem_of_lookup. specialize (Ht k t Hk). unfold validate_tag in Ht.
    rewrite !result_bind_ok, !reject_if_ok in Ht. destruct Ht as (_ & _ & Hx).
    apply negb_false_iff, existsb_elem in Hx as (m & ? & ?%eq_ignore_ascii_case_iff). by exists m.
  - intros r (k & Hk)%list_elem_of_lookup. specialize (Htr k r Hk). by eapply validate_parses.
  - intros h (k & Hk)%list_elem_of_lookup. specialize (Hh k h Hk). unfold validate_high_risk in Hh.
    rewrite !result_bind_ok, !reject_if_ok in Hh. destruct Hh as (_ & _ & Hx).
    by apply negb_false_iff, one_of_elem in Hx.
Qed.

(** C38 A configuration that passes validation has only rules the gates can act
    on: every rule effect is [allow] or [deny], every column tag names an
    existing mask rule, every mask rule has a known algorithm, every time rule
    parses, and every high-risk rule has a known kind. *)
Theorem validated_policy `{Chrono} cedar c :
  validate_policy cedar c = Ok tt →
  (∀ r, r ∈ cfg_rules c → rule_effect r = $"allow" ∨ rule_effect r = $"deny") ∧
  (∀ m, m ∈ cfg_mask_rules c → usable m) ∧
  (∀ t, t ∈ cfg_column_tags c → ∃ m, m ∈ cfg_mask_rules c ∧
     to_ascii_lowercase (mr_name m) = to_ascii_lowercase (tag_mask_rule t)) ∧
  (∀ r, r ∈ cfg_time_rules c → ∃ off s e, parse_timezone_offset_minutes (timezone r) = Ok off ∧
     parse_hhmm (start r) = Ok s ∧ parse_hhmm (end_ r) = Ok e) ∧
  (∀ h, h ∈ cfg_high_risk_rules c → to_ascii_lowercase (hr_kind h) ∈
     [$"ddl"; $"write_no_where"; $"action"; $"table_write"; $"export"]).
Proof. apply validate_policy_ok. Qed.

(** ** Masks *)

(** The tag applies to a column of a table for a subject. *)
Definition tag_applies (s : Subject) (table col : str) (tag : SecurityColumnTagConfig) : bool :=
  subjects_match (tag_subjects tag) s
  && (is_empty (tag_tables tag) || existsb (λ p, table_glob_match p table || is_empty table) (tag_tables tag))
  && column_tag_matches tag col table.

(** The column has a mask. *)
Definition masked (col : str) (out : list MaskSpec) : Prop :=
  ∃ m, m ∈ out ∧ to_ascii_lowercase (column m) = to_ascii_lowercase col.

Lemma tag_step_keeps names s table col col' out tag :
  masked col' out → masked col' (tag_step names s table col out tag).
Proof.
  intros (m & Hm & Hc). unfold tag_step.
  repeat (case_match; [by exists m|]).
  destruct (names !! _); [|by exists m]. destruct (mask_parse _); [|by exists m].
  case_match; [by exists m|]. exists m. split; [by apply elem_of_app; left|done].
Qed.

Lemma tag_step_masks names s table col out tag m :
  tag_applies s table col tag = true →
  names !! to_ascii_lowercase (tag_mask_rule tag) = Some m → usable m →
  masked col (tag_step names s table col out tag).
Proof.
  intros Ha Hn [algo Hal]. unfold tag_applies in Ha. unfold tag_step. bool_hyps.
  assert (negb (subjects_match (tag_subjects tag) s) = false) as -> by (by apply negb_false_iff).
  assert (negb (is_empty (tag_tables tag)) && negb (existsb (λ p, table_glob_match p table || is_empty table)
    (tag_tables tag)) = false) as -> by (rewrite <-negb_orb; by apply negb_false_iff).
  assert (negb (column_tag_matches tag col table) = false) as -> by (by apply negb_false_iff).
  rewrite Hn, Hal. destruct (existsb _ out) eqn:E.
  - apply existsb_elem in E as (x & Hx & He%eq_ignore_ascii_case_iff). by exists x.
  - eexists. split; [apply elem_of_app; right; left|done].
Qed.

Lemma foldl_masked {A} (f : list MaskSpec → A → list MaskSpec) l col out :
  (∀ out x, masked col out → masked col (f out x)) →
  (masked col out ∨ ∃ x, x ∈ l ∧ ∀ out, masked col (f out x)) → masked col (foldl f out l).
Proof.
  intros Hk. revert out. induction l as [|y l IH]; intros out; simpl.
  - intros [?|(x & Hx & _)]; [done|]. by apply elem_of_nil in Hx.
  - intros [?|(x & [->|Hx]%elem_of_cons & Hm)]; apply IH; eauto.
Qed.

Lemma mask_by_name_lookup ms name :
  (∃ m, m ∈ ms ∧ to_ascii_lowercase (mr_name m) = name) →
  ∃ m, m ∈ ms ∧ mask_by_name ms !! name = Some m.
Proof.
  unfold mask_by_name. induction ms as [|m ms IH] using rev_ind.
  { intros (m & Hm & _). by apply elem_of_nil in Hm. }
  intros (x & Hx & Hn). rewrite foldl_snoc, lookup_insert. case_decide as E.
  - exists m. split; [apply elem_of_app; right; left|done].
  - apply elem_of_app in Hx as [Hx|Hx]; [|apply list_elem_of_singleton in Hx; congruence].
    destruct IH as (y & Hy & Hl); [by exists x|]. exists y. split; [by apply elem_of_app; left|done].
Qed.

(** C22 Masking is complete: under a validated configuration, every column of the
    statement's objects that a tag covers for this subject gets a mask
    obligation, whatever the order of tags and columns. *)
Theorem tagged_columns_masked `{Chrono} cedar_built c `{PdpStore.CedarLoader} s set tables columns o col tag :
  validate_policy cedar_built c = Ok tt →
  o ∈ objects set → col ∈ bare_columns o → tag ∈ cfg_column_tags c →
  tag_applies s (table o) col tag = true →
  masked col (collect_mask_specs (PdpStore.from_config c) s (Some set) tables columns).
Proof.
  intros Hv Ho Hcol Htag Happ. apply validate_policy_ok in Hv as (_ & Husable & Htags & _).
  destruct (Htags _ Htag) as (m0 & Hm0 & Hn0).
  destruct (mask_by_name_lookup (cfg_mask_rules c) (to_ascii_lowercase (tag_mask_rule tag)))
    as (m & Hm & Hlook); [by exists m0|]. specialize (Husable _ Hm).
  set (p := PdpStore.from_config c).
  assert (column_tags p = cfg_column_tags c ∧ mask_rules p = cfg_mask_rules c) as [Ect Emr].
  { unfold p, PdpStore.from_config. by destruct (if PdpStore.cedar_feature && _ then _ else _). }
  unfold collect_mask_specs. rewrite Ect, Emr.
  destruct (is_empty (cfg_column_tags c)) eqn:E1; [destruct (cfg_column_tags c); [by apply elem_of_nil in Htag|done]|].
  destruct (is_empty (cfg_mask_rules c)) eqn:E2; [destruct (cfg_mask_rules c); [by apply elem_of_nil in Hm|done]|].
  cbn [orb]. apply foldl_masked.
  { intros out tc Hmk. apply foldl_masked; [|by left]. intros. by apply tag_step_keeps. }
  right. exists (table o, col). split.
  - unfold candidate_columns. set (pairs := concat _).
    assert ((table o, col) ∈ pairs) as Hin.
    { unfold pairs. apply list_elem_of_In, in_concat. eexists. split.
      - apply in_map, list_elem_of_In, Ho.
      - apply list_elem_of_In, elem_of_app. left. apply list_elem_of_fmap. by exists col. }
    destruct pairs; [by apply elem_of_nil in Hin|done].
  - intros out. apply foldl_masked; [intros; by apply tag_step_keeps|].
    right. exists tag. split; [done|]. intros out'. by eapply tag_step_masks.
Qed.

(** ** Instances at concrete inputs *)

#[export] Instance toy_remote : RemoteIO := {
  post_authorize_http _ _ := Err ($"down");
  debug_strs _ := []
}.

Definition bob : Subject := from_protocol_user (Some ($"bob")) None.
Definition mysql : DialectParser := HeuristicDialectParser MySql.

(** A parser that looks behind a ticket comment, as one on syntax trees does. *)
Definition seeing : DialectParser :=
  mkDialect MySql (heuristic_is_read_only MySql)
    (λ sql, match Ticket.strip_ticket_comment sql with
            | Ret t => default_leading_keyword t
            | Panic => None
            end).

Definition toy_readings : Readings :=
  mkReadings 1715968800 (TicketTheorems.toy_env 7) (TicketTheorems.toy_env 8) 9.

Definition no_tickets : Ticket.World := Ticket.mkWorld Ticket.new_store None.

Definition with_rules (rs : list SecurityRuleConfig) : LocalPdpInner :=
  mkInner true StarDeny rs [] [] [] [] None default_watermark None false None.

Definition deny_secrets : SecurityRuleConfig :=
  mkRule ($"no secrets") ($"deny") [$"read"] [$"secret*"] [] [] None.

Lemma table_deny_wins_witness :
  ∃ d, authorize_sql (steady (with_rules [deny_secrets])) toy_readings bob ($"svc")
         ($"SELECT * FROM Secret_keys") mysql None no_tickets = Ret (d, no_tickets) ∧ is_deny d = true.
Proof.
  apply (table_deny_wins (steady (with_rules [deny_secrets])) toy_readings bob ($"svc")
    ($"SELECT * FROM Secret_keys") mysql None Select).
  - exists ($"SELECT"). split; vm_compute; reflexivity.
  - vm_compute. reflexivity.
Defined.

(** [DROP] needs a ticket of type [ddl]. *)
Definition ddl_rule : SecurityHighRiskRuleConfig :=
  mkHighRisk ($"ddl gate") ($"ddl") ($"ddl") [] [] [] [].

Definition with_high_risk (hrs : list SecurityHighRiskRuleConfig) (trs : list SecurityTimeRuleConfig)
    : LocalPdpInner :=
  mkInner true StarDeny [] [] [] hrs trs None default_watermark None false None.

Definition ddl_ticket : Ticket.Ticket :=
  Ticket.mkTicket ($"tkt-5-1") ($"ddl") ($"bob") ($"drop table t") None
    5 60005 1 0 None None false Ticket.Active None None None None.

Definition ddl_store : Ticket.World :=
  Ticket.mkWorld (Ticket.mkStore {[ $"tkt-5-1" := ddl_ticket ]} 2 None None) None.

Definition drop_sql : str := $"/*dn_ticket:tkt-5-1*/ DROP TABLE t".

Definition drop_result : exec (SecurityDecision * Ticket.World) :=
  authorize_sql (steady (with_high_risk [ddl_rule] [])) toy_readings bob ($"svc") drop_sql seeing None
    ddl_store.

Lemma high_risk_needs_ticket_witness :
  ∃ d w', drop_result = Ret (d, w') ∧ is_deny d = false ∧
    ∃ tid w1, Ticket.extract_ticket_id drop_sql = Ret (Some tid) ∧
      gate_spent w1 tid < gate_spent w' tid.
Proof.
  eexists _, _. split; [vm_compute; reflexivity|]. split; [vm_compute; reflexivity|].
  edestruct (high_risk_needs_ticket (steady (with_high_risk [ddl_rule] [])) toy_readings bob ($"svc")
    drop_sql seeing None Ddl ddl_rule ddl_store) as (tid & w1 & Hx & _ & Hs & _);
    [..|exists tid, w1; split; [exact Hx|exact Hs]].
  - exists ($"DROP"). split; vm_compute; reflexivity.
  - vm_compute. reflexivity.
  - vm_compute. reflexivity.
  - vm_compute. reflexivity.
Defined.

Definition tenant_rule : SecurityRuleConfig :=
  mkRule ($"tenant") ($"allow") [$"read"] [$"orders"] [] [] (Some ($"tenant_id = 1")).

Definition orders_result : exec (SecurityDecision * Ticket.World) :=
  authorize_sql (steady (with_rules [tenant_rule])) toy_readings bob ($"svc")
    ($"SELECT id FROM orders ORDER BY id") mysql None no_tickets.


Definition phone_config : SecurityPolicyConfig :=
  mkPolicy true true ($"deny") ($"L0") default_subject default_pdp default_streaming default_audit []
    [mkMaskRule ($"Phone") ($"partial") [] 3 2] [mkTag ($"*.phone") [] [$"b*"] ($"phone") []] [] []
    default_watermark default_state.

Definition phone_object : ObjectAccess := mkObject None ($"users") [$"u.Phone"; $"id"] Select false.

Lemma validated_policy_witness :
  validate_policy false phone_config = Ok tt ∧ ∀ m, m ∈ cfg_mask_rules phone_config → usable m.
Proof.
  split; [vm_compute; reflexivity|].
  apply (validated_policy false phone_config). vm_compute. reflexivity.
Defined.

Lemma tagged_columns_masked_witness :
  masked ($"phone") (collect_mask_specs (PdpStore.from_config phone_config) bob
    (Some (mkObjectSet [phone_object] false false)) [] []).
Proof.
  apply (tagged_columns_masked false phone_config bob (mkObjectSet [phone_object] false false) [] []
    phone_object ($"phone") (mkTag ($"*.phone") [] [$"b*"] ($"phone") [])).
  - vm_compute. reflexivity.
  - left.
  - vm_compute. left.
  - left.
  - vm_compute. reflexivity.
Defined.

(** ** Where authorization falls short *)

Definition remote_says_no (failing_closed : bool) : LocalPdpInner :=
  mkInner true StarDeny [] [] [] [] [] None default_watermark None false
    (Some (mkRemote ($"http://pdp") 50 None failing_closed (Fixed (Ok (mkRemoteResponse false None None))))).

(** An explicit refusal of the remote decision point is overruled when
    [remote_fail_closed] is off, although the option is documented for
    transport, timeout and parse errors only. *)
Theorem remote_deny_overruled :
  (∃ d, authorize_sql (steady (remote_says_no true)) toy_readings bob ($"svc") ($"DELETE FROM t WHERE a = 1")
          mysql None no_tickets = Ret (d, no_tickets) ∧ is_deny d = true) ∧
  (∃ d, authorize_sql (steady (remote_says_no false)) toy_readings bob ($"svc") ($"DELETE FROM t WHERE a = 1")
          mysql None no_tickets = Ret (d, no_tickets) ∧ is_deny d = false).
Proof. split; eexists; split; vm_compute; reflexivity. Qed.

Definition freeze : SecurityTimeRuleConfig :=
  mkTimeRule ($"freeze") ($"deny") false [] ($"00:00") ($"23:59") ($"UTC") [$"read"] [] [] ($"x") [].

(** A reload in the middle of a call can let through what both policies
    refuse: one policy refuses the statement by a table rule, the other by a
    time rule, and a call that loads the second for the table rules and the
    first from then on allows it. *)
Theorem torn_snapshot_allows :
  ∃ p q sql, let run sn := authorize_sql sn toy_readings bob ($"svc") sql mysql None no_tickets in
    (∃ d, run (steady p) = Ret (d, no_tickets) ∧ is_deny d = true) ∧
    (∃ d, run (steady q) = Ret (d, no_tickets) ∧ is_deny d = true) ∧
    (∃ d, run (mkSnapshots q q p p p p p p p p p) = Ret (d, no_tickets) ∧ is_deny d = false).
Proof.
  exists (with_rules [deny_secrets]), (with_high_risk [] [freeze]), ($"SELECT * FROM secrets").
  cbv zeta. split_and!; eexists; split; vm_compute; reflexivity.
Qed.

Definition after_hours : SecurityTimeRuleConfig :=
  mkTimeRule ($"after hours") ($"require_ticket") false [] ($"00:00") ($"23:59") ($"UTC") [] [] [] ($"ddl") [].

(** A comment in front hides the action from the keyword parser that serves as
    the fallback when a statement does not parse. *)
Example comment_hides_action :
  action_from_command (Query ($"DROP TABLE t")) mysql = Ddl ∧
  action_from_command (Query ($"/**/DROP TABLE t")) mysql = Other.
Proof. split; vm_compute; reflexivity. Qed.

(** One statement can use up two tickets' worth: when a time rule and a
    high-risk rule both ask for a ticket, the same ticket is consumed twice, so
    a valid single-use ticket is spent and the statement is refused. *)
Theorem ticket_spent_twice :
  ∃ d w', authorize_sql (steady (with_high_risk [ddl_rule] [after_hours])) toy_readings bob ($"svc") drop_sql
            seeing None ddl_store = Ret (d, w') ∧
    is_deny d = true ∧ gate_spent ddl_store ($"tkt-5-1") = 0 ∧ gate_spent w' ($"tkt-5-1") = 1.
Proof. eexists _, _. split_and!; vm_compute; reflexivity. Qed.

End AuthorizeTheorems.
