(* ===== verification/TransFsm.v ===== *)
(** * The transaction state machine ([runtime/gateway/src/transaction_fsm.rs],
      [fsm_trigger] of [server/server.rs])

    Which backend connection serves a command of a MySQL session: the machine
    says when a new one is taken from the pool and when the session keeps the
    one it holds.  Connections and endpoints are abstract; the router and the
    pool are arguments. *)

From S2P Require Import Prelude RustStr.

Module TransFsm.

Inductive TransState :=
| TransDummyState | TransUseState | TransSetSessionState | TransStartState | TransPrepareState.

Inductive TransEventName :=
| DummyEvent | UseEvent | SetSessionEvent | QueryEvent | StartEvent | PrepareEvent
| SendLongDataEvent | ExecuteEvent | CloseEvent | ResetEvent | CommitRollBackEvent | DropEvent.

#[export] Instance TransState_eq_dec : EqDecision TransState.
Proof. solve_decision. Defined.
#[export] Instance TransEventName_eq_dec : EqDecision TransEventName.
Proof. solve_decision. Defined.

Record TransEvent := mkEvent { name : TransEventName; src_state : TransState; dst_state : TransState }.

Definition init_trans_events : list TransEvent := [
  mkEvent UseEvent TransDummyState TransUseState;
  mkEvent UseEvent TransUseState TransUseState;
  mkEvent SetSessionEvent TransDummyState TransSetSessionState;
  mkEvent SetSessionEvent TransUseState TransSetSessionState;
  mkEvent SetSessionEvent TransSetSessionState TransSetSessionState;
  mkEvent QueryEvent TransSetSessionState TransSetSessionState;
  mkEvent QueryEvent TransUseState TransUseState;
  mkEvent QueryEvent TransDummyState TransDummyState;
  mkEvent StartEvent TransDummyState TransStartState;
  mkEvent StartEvent TransUseState TransStartState;
  mkEvent StartEvent TransSetSessionState TransStartState;
  mkEvent PrepareEvent TransDummyState TransPrepareState;
  mkEvent PrepareEvent TransUseState TransPrepareState;
  mkEvent PrepareEvent TransStartState TransPrepareState;
  mkEvent SendLongDataEvent TransPrepareState TransPrepareState;
  mkEvent ExecuteEvent TransPrepareState TransPrepareState;
  mkEvent CloseEvent TransPrepareState TransDummyState;
  mkEvent ResetEvent TransPrepareState TransDummyState;
  mkEvent DropEvent TransPrepareState TransDummyState;
  mkEvent CommitRollBackEvent TransPrepareState TransDummyState;
  mkEvent CommitRollBackEvent TransDummyState TransDummyState;
  mkEvent CommitRollBackEvent TransStartState TransDummyState;
  mkEvent QueryEvent TransSetSessionState TransDummyState
].

Section Fsm.
Context {Conn Endpoint : Type}.

Record TransFsm := mkFsm {
  events : list TransEvent;
  current_state : TransState;
  current_event : TransEventName;
  client_conn : option Conn;
  shard_cache_conn : list Conn;
  db : option str;
  charset : str;
  autocommit : option str
}.

Definition new_fsm : TransFsm :=
  mkFsm init_trans_events TransDummyState DummyEvent None [] None ($"utf8mb4") None.

Definition set_state (st : TransState) (ev : TransEventName) (f : TransFsm) : TransFsm :=
  mkFsm (events f) st ev (client_conn f) (shard_cache_conn f) (db f) (charset f) (autocommit f).

(** [true]: take a new connection. *)
Definition trigger (state_name : TransEventName) (f : TransFsm) : bool * TransFsm :=
  match List.find (λ e, bool_decide (name e = state_name) && bool_decide (src_state e = current_state f))
          (events f) with
  | Some e => (bool_decide (src_state e = TransDummyState), set_state (dst_state e) (name e) f)
  | None => (false, f)
  end.

Definition reset_fsm_state (f : TransFsm) : TransFsm :=
  snd (trigger QueryEvent (set_state TransDummyState DummyEvent f)).

Definition set_conn (c : option Conn) (f : TransFsm) : TransFsm :=
  mkFsm (events f) (current_state f) (current_event f) c (shard_cache_conn f) (db f) (charset f)
    (autocommit f).

Definition set_db (d : option str) (f : TransFsm) : TransFsm :=
  mkFsm (events f) (current_state f) (current_event f) (client_conn f) (shard_cache_conn f) d
    (charset f) (autocommit f).
Definition set_charset (c : str) (f : TransFsm) : TransFsm :=
  mkFsm (events f) (current_state f) (current_event f) (client_conn f) (shard_cache_conn f) (db f)
    c (autocommit f).
Definition set_autocommit (a : str) (f : TransFsm) : TransFsm :=
  mkFsm (events f) (current_state f) (current_event f) (client_conn f) (shard_cache_conn f) (db f)
    (charset f) (Some a).

(** The session fields of the handshake: database, character set if it was
    sent, autocommit. *)
Definition apply_handshake_session (sess : option str * option str * option str) (f : TransFsm)
    : TransFsm :=
  let '(d, c, a) := sess in
  mkFsm (events f) (current_state f) (current_event f) (client_conn f) (shard_cache_conn f) d
    (default (charset f) c) a.

Definition get_conn (f : TransFsm) : result str Conn * TransFsm :=
  (ok_or ($"transaction fsm has no bound backend connection") (client_conn f), set_conn None f).

Definition put_conn (c : Conn) (f : TransFsm) : TransFsm := set_conn (Some c) f.

Definition get_shard_conns (f : TransFsm) : list Conn * TransFsm :=
  (shard_cache_conn f,
   mkFsm (events f) (current_state f) (current_event f) (client_conn f) [] (db f) (charset f)
     (autocommit f)).
Definition put_shard_conns (cs : list Conn) (f : TransFsm) : TransFsm :=
  mkFsm (events f) (current_state f) (current_event f) (client_conn f) cs (db f) (charset f)
    (autocommit f).

(** The session attributes given to the pool. *)
Definition mysql_pool_attrs (f : TransFsm) : option str * str * option str :=
  (db f, charset f, autocommit f).

(** [check_get_conn] and [get_conn_with_endpoint_session] of the pool, and the
    router, as one call sees them. *)
Record Backend := mkBackend {
  checked_conn : Endpoint → option str * str * option str → result str Conn;
  pooled_conn : Endpoint → option str * str * option str → result str Conn;
  routed : result str Endpoint
}.

Definition get_conn_with_endpoint (b : Backend) (e : Endpoint) (f : TransFsm)
    : result str Conn * TransFsm :=
  match client_conn f with
  | Some c => (Ok c, set_conn None f)
  | None => (pooled_conn b e (mysql_pool_attrs f), set_conn None f)
  end.

(** [fsm_trigger] of the server. *)
Definition fsm_trigger (b : Backend) (sess : option str * option str * option str)
    (ev : TransEventName) (f : TransFsm) : result str Conn * TransFsm :=
  let f := apply_handshake_session sess f in
  let '(is_get_conn, f) := trigger ev f in
  match routed b with
  | Err e => (Err e, f)
  | Ok ep =>
      if is_get_conn : bool then (checked_conn b ep (mysql_pool_attrs f), f)
      else get_conn_with_endpoint b ep f
  end.

(** One command: [fsm_trigger], the exchange, [put_conn]. *)
Definition command (b : Backend) (sess : option str * option str * option str)
    (ev : TransEventName) (f : TransFsm) : result str Conn * TransFsm :=
  match fsm_trigger b sess ev f with
  | (Ok c, f') => (Ok c, put_conn c f')
  | (Err e, f') => (Err e, f')
  end.
End Fsm.
Arguments TransFsm : clear implicits.
Arguments Backend : clear implicits.

(** ** The transition function *)

(** What the table means. *)
Definition next_state (st : TransState) (ev : TransEventName) : option TransState :=
  match ev, st with
  | UseEvent, (TransDummyState | TransUseState) => Some TransUseState
  | SetSessionEvent, (TransDummyState | TransUseState | TransSetSessionState) => Some TransSetSessionState
  | QueryEvent, (TransDummyState | TransUseState | TransSetSessionState) => Some st
  | StartEvent, (TransDummyState | TransUseState | TransSetSessionState) => Some TransStartState
  | PrepareEvent, (TransDummyState | TransUseState | TransStartState) => Some TransPrepareState
  | (SendLongDataEvent | ExecuteEvent), TransPrepareState => Some TransPrepareState
  | (CloseEvent | ResetEvent | DropEvent), TransPrepareState => Some TransDummyState
  | CommitRollBackEvent, (TransDummyState | TransStartState | TransPrepareState) => Some TransDummyState
  | _, _ => None
  end.

(** In a transaction, or holding a prepared statement. *)
Definition pinned (st : TransState) : Prop := st = TransStartState ∨ st = TransPrepareState.

(** Events that end a transaction or a prepared statement. *)
Definition releasing (ev : TransEventName) : bool :=
  match ev with CloseEvent | ResetEvent | DropEvent | CommitRollBackEvent => true | _ => false end.

Section Facts.
Context {Conn Endpoint : Type}.
Implicit Types (f : TransFsm Conn) (b : Backend Conn Endpoint).

Lemma trigger_meaning f ev :
  events f = init_trans_events →
  trigger ev f =
    match next_state (current_state f) ev with
    | Some st => (bool_decide (current_state f = TransDummyState), set_state st ev f)
    | None => (false, f)
    end.
Proof.
  intros He. unfold trigger. rewrite He. destruct f as [evs st ? ? ? ? ? ?]. simpl in *. subst.
  by destruct st, ev.
Qed.

Lemma pinned_next st ev :
  pinned st → releasing ev = false → pinned (default st (next_state st ev)).
Proof. unfold pinned. intros [-> | ->]; destruct ev; naive_solver. Qed.

Lemma command_pinned b sess ev f c ep :
  events f = init_trans_events → pinned (current_state f) → releasing ev = false →
  client_conn f = Some c → routed b = Ok ep →
  ∃ f', command b sess ev f = (Ok c, f') ∧ events f' = init_trans_events ∧
    pinned (current_state f') ∧ client_conn f' = Some c.
Proof.
  intros He Hp Hr Hc Hep. pose proof (pinned_next _ _ Hp Hr) as Hn.
  unfold command, fsm_trigger. destruct sess as [[d cs] a]. cbn [apply_handshake_session].
  rewrite trigger_meaning by done. cbn [current_state].
  assert (bool_decide (current_state f = TransDummyState) = false) as ->.
  { apply bool_decide_eq_false_2. by destruct Hp as [-> | ->]. }
  destruct (next_state (current_state f) ev) as [st|]; simpl in Hn; rewrite Hep;
    unfold get_conn_with_endpoint; cbn [client_conn set_state]; rewrite Hc;
    eexists; (split; [reflexivity|]); done.
Qed.

(** Commands in sequence, with the connection each got. *)
Fixpoint commands (l : list (Backend Conn Endpoint * (option str * option str * option str) * TransEventName))
    (f : TransFsm Conn) : list (result str Conn) * TransFsm Conn :=
  match l with
  | [] => ([], f)
  | (b, sess, ev) :: l' =>
      let '(r, f1) := command b sess ev f in
      let '(rs, f2) := commands l' f1 in
      (r :: rs, f2)
  end.
End Facts.

(** The table is the transition function: each command moves the machine as
    [next_state] says (a command the table does not list leaves it alone), and
    a new connection is requested exactly on a listed move out of the idle
    state. *)
Theorem trigger_table {Conn} (f : TransFsm Conn) ev :
  events f = init_trans_events →
  current_state (trigger ev f).2 = default (current_state f) (next_state (current_state f) ev) ∧
  ((trigger ev f).1 = true ↔ current_state f = TransDummyState ∧ is_Some (next_state (current_state f) ev)).
Proof.
  intros He. rewrite trigger_meaning by done.
  destruct (next_state (current_state f) ev) as [st|]; simpl.
  - rewrite bool_decide_eq_true. split; [done|]. split; [intros ->; by split; [|eexists]|by intros [? _]].
  - split; [done|]. split; [done|]. by intros [_ [? ?]].
Qed.

Lemma trigger_table_witness :
  current_state (trigger StartEvent (new_fsm (Conn := nat))).2 = TransStartState ∧
  (trigger StartEvent (new_fsm (Conn := nat))).1 = true.
Proof.
  destruct (trigger_table (new_fsm (Conn := nat)) StartEvent) as [Hs Hb]; [reflexivity|].
  split; [exact Hs|]. apply Hb. split; [reflexivity|]. exists TransStartState. reflexivity.
Defined.

(** Transaction affinity: once a session is in a transaction (or holds a
    prepared statement) on a connection, every following command gets that same
    connection until a commit, rollback, close, reset or drop, whatever the
    router and the pool would offer. *)
Theorem transaction_affinity {Conn Endpoint} (l : list (Backend Conn Endpoint * _ * _)) (f : TransFsm Conn) c :
  events f = init_trans_events → pinned (current_state f) → client_conn f = Some c →
  Forall (λ x, releasing x.2 = false ∧ is_ok (routed x.1.1) = true) l →
  (commands l f).1 = replicate (length l) (Ok c) ∧ client_conn (commands l f).2 = Some c ∧
  pinned (current_state (commands l f).2).
Proof.
  intros He Hp Hc Hl. revert f He Hp Hc. induction Hl as [|[[b sess] ev] l [Hr Hok] Hl IH]; intros f He Hp Hc;
    [done|]. simpl in Hr, Hok. destruct (routed b) as [ep|] eqn:Hep; [|done].
  destruct (command_pinned b sess ev f c ep He Hp Hr Hc Hep) as (f' & Hcmd & He' & Hp' & Hc').
  destruct (IH f' He' Hp' Hc') as (H1 & H2 & H3). simpl. rewrite Hcmd.
  destruct (commands l f') as [rs f2]. simpl in *. by rewrite H1.
Qed.

Definition toy_backend : Backend nat nat := mkBackend (λ _ _, Ok 7%nat) (λ _ _, Ok 8%nat) (Ok 0%nat).

(** A session in a transaction on connection 1. *)
Definition toy_fsm : TransFsm nat := set_state TransStartState StartEvent (put_conn 1%nat new_fsm).

Lemma transaction_affinity_witness :
  (commands [(toy_backend, (None, None, None), QueryEvent); (toy_backend, (None, None, None), PrepareEvent);
             (toy_backend, (None, None, None), ExecuteEvent)] toy_fsm).1 = [Ok 1%nat; Ok 1%nat; Ok 1%nat].
Proof.
  apply (transaction_affinity [(toy_backend, (None, None, None), QueryEvent);
    (toy_backend, (None, None, None), PrepareEvent); (toy_backend, (None, None, None), ExecuteEvent)]
    toy_fsm 1%nat).
  - reflexivity.
  - left. reflexivity.
  - reflexivity.
  - repeat constructor.
Defined.

(** Closing a statement that was prepared inside a transaction returns the
    machine to the idle state: the next query of the still open transaction gets
    a new connection.  The last row of the table can never fire. *)
Theorem close_leaves_transaction :
  (commands [(toy_backend, (None, None, None), PrepareEvent); (toy_backend, (None, None, None), CloseEvent);
             (toy_backend, (None, None, None), QueryEvent)] toy_fsm).1 = [Ok 1%nat; Ok 1%nat; Ok 7%nat] ∧
  next_state TransSetSessionState QueryEvent = Some TransSetSessionState ∧
  mkEvent QueryEvent TransSetSessionState TransDummyState ∈ init_trans_events.
Proof. split; [vm_compute; reflexivity|]. split; [done|]. unfold init_trans_events. set_solver. Qed.

End TransFsm.
