(* ===== verification/LoadBalance.v ===== *)
(** * Load balancing of backend endpoints

    [proxy/loadbalance/src/balance.rs] (the trait [LoadBalance], its two
    implementations behind [BalanceType]), [roundrobin_weighted.rs] and
    [random_weighted.rs], with [Endpoint] of [proxy/endpoint].

    The [i64] counters stay in range: weights are [i64] values, [cw] lies between
    zero and the largest weight and [n] counts the endpoints in memory.  The
    random generator is a parameter ([rand]'s [StdRng]).

    Theorems: the round-robin loop terminates and refines the list of passes
    over the endpoints with falling weight levels ([round_robin_refines]); over
    whole cycles every endpoint is served in exact proportion to its weight
    ([round_robin_fair]); the random balancer gives each endpoint exactly its
    weight of the draws ([random_share]). *)

From S2P Require Import Prelude RustStr.

Module LoadBalance.

Record Endpoint := mkEndpoint {
  node_type : str; weight : Z; name : str; db : str; user : str; password : str; addr : str }.

#[export] Instance Endpoint_eq_dec : EqDecision Endpoint.
Proof. solve_decision. Defined.

Inductive AlgorithmName := Random | RoundRobin.

(** [x.name == endpoint.name] over the items. *)
Definition item_exists (items : list Endpoint) (e : Endpoint) : bool :=
  existsb (λ x, str_eqb (name x) (name e)) items.

(** [items.iter().position(..).unwrap()], then [items.remove(index)]. *)
Fixpoint remove_named (items : list Endpoint) (n : str) : exec (list Endpoint) :=
  match items with
  | [] => Panic
  | x :: items' =>
      if str_eqb (name x) n then Ret items'
      else match remove_named items' n with Ret l => Ret (x :: l) | Panic => Panic end
  end.

(** ** Weighted round robin *)

Record RoundRobinWeighted := mkRoundRobin {
  rr_items : list Endpoint; rr_n : Z; rr_gcd : Z; rr_max_weight : Z; rr_i : Z; rr_cw : Z }.

Definition default_round_robin : RoundRobinWeighted := mkRoundRobin [] 0 0 0 0 0.

(** The loop of [fn gcd]; [y] falls each turn, so it is its own fuel. *)
Fixpoint gcd_loop (fuel : nat) (x y : Z) : option Z :=
  match fuel with
  | O => None
  | S fuel' => let t := Z.rem x y in if 0 <? t then gcd_loop fuel' y t else Some y
  end.

Definition gcd (x y : Z) : option Z := gcd_loop (Z.to_nat y) x y.

Definition rr_add (e : Endpoint) (lb : RoundRobinWeighted) : RoundRobinWeighted :=
  if item_exists (rr_items lb) e then lb
  else
    let w := weight e in
    let items := rr_items lb ++ [e] in
    let n := rr_n lb + 1 in
    if 0 <? w then
      if rr_gcd lb =? 0 then mkRoundRobin items n w w (-1) 0
      else
        mkRoundRobin items n (default w (gcd (rr_gcd lb) w))
          (if rr_max_weight lb <? w then w else rr_max_weight lb) (rr_i lb) (rr_cw lb)
    else mkRoundRobin items n (rr_gcd lb) (rr_max_weight lb) (rr_i lb) (rr_cw lb).

Definition at_ (lb : RoundRobinWeighted) (i cw : Z) : RoundRobinWeighted :=
  mkRoundRobin (rr_items lb) (rr_n lb) (rr_gcd lb) (rr_max_weight lb) i cw.

(** [self.items[self.i as usize]]: a negative [i] becomes a huge index. *)
Definition rr_index (lb : RoundRobinWeighted) (i : Z) : option Endpoint :=
  if i <? 0 then None else rr_items lb !! Z.to_nat i.

(** One turn per unit of fuel of the [loop] of [next]; [None] is a loop that has
    not ended yet. *)
Fixpoint rr_loop (fuel : nat) (lb : RoundRobinWeighted)
    : option (exec (option Endpoint * RoundRobinWeighted)) :=
  match fuel with
  | O => None
  | S fuel' =>
      let i := Z.rem (rr_i lb + 1) (rr_n lb) in
      let cw := if i =? 0 then rr_cw lb - rr_gcd lb else rr_cw lb in
      let cw := if (i =? 0) && (cw <=? 0) then rr_max_weight lb else cw in
      let lb := at_ lb i cw in
      if (i =? 0) && (cw =? 0) then Some (Ret (None, lb))
      else
        match rr_index lb i with
        | None => Some Panic
        | Some e => if cw <=? weight e then Some (Ret (Some e, lb)) else rr_loop fuel' lb
        end
  end.

(** Two passes over the items are enough (shown below). *)
Definition rr_next (lb : RoundRobinWeighted)
    : option (exec (option Endpoint * RoundRobinWeighted)) :=
  if rr_n lb =? 0 then Some (Ret (None, lb))
  else if rr_n lb =? 1 then Some (Ret (rr_items lb !! 0%nat, lb))
  else rr_loop (2 * length (rr_items lb) + 1) lb.

Definition rr_remove_item (e : Endpoint) (lb : RoundRobinWeighted) : exec RoundRobinWeighted :=
  match remove_named (rr_items lb) (name e) with
  | Ret items =>
      Ret (mkRoundRobin items (rr_n lb) (rr_gcd lb) (rr_max_weight lb) (rr_i lb) (rr_cw lb))
  | Panic => Panic
  end.

Definition rr_remove_all (lb : RoundRobinWeighted) : RoundRobinWeighted :=
  mkRoundRobin [] 0 0 0 (-1) 0.

(** ** Weighted random choice *)

(** [rand::Rng]: [gen_range(0..hi)] and [StdRng::seed_from_u64]. *)
Class Rng (R : Type) := { gen_range : R → Z → Z * R; seed_from_u64 : Z → R }.

Class RngLaws (R : Type) `{Rng R} : Prop := {
  (** A value of the half-open range. *)
  gen_range_bounds (r : R) hi : 0 < hi → 0 <= (gen_range r hi).1 < hi }.

Record RandomWeighted (R : Type) := mkRandom {
  rw_items : list Endpoint; rw_n : Z; sum_of_weights : Z; rw_r : R }.
Arguments mkRandom {R}.
Arguments rw_items {R}.
Arguments rw_n {R}.
Arguments sum_of_weights {R}.
Arguments rw_r {R}.

(** The [for] loop of [next]; the fallback after it is the last item ([len() - 1]
    wraps on an empty list, and [get] then finds nothing). *)
Fixpoint pick (random_weight : Z) (items : list Endpoint) : option Endpoint :=
  match items with
  | [] => None
  | e :: items' =>
      let random_weight := random_weight - weight e in
      if random_weight <=? 0 then Some e else pick random_weight items'
  end.

Section RandomBalancer.
Context {R : Type} `{Rng R}.

Definition default_random (nanos : Z) : RandomWeighted R := mkRandom [] 0 0 (seed_from_u64 nanos).

Definition rw_next (lb : RandomWeighted R) : option Endpoint * RandomWeighted R :=
  if rw_n lb =? 0 then (None, lb)
  else if sum_of_weights lb <=? 0 then (None, lb)
  else
    let '(v, r) := gen_range (rw_r lb) (sum_of_weights lb) in
    let lb' := mkRandom (rw_items lb) (rw_n lb) (sum_of_weights lb) r in
    match pick (v + 1) (rw_items lb) with
    | Some e => (Some e, lb')
    | None => (last (rw_items lb), lb')
    end.

Definition rw_add (e : Endpoint) (lb : RandomWeighted R) : RandomWeighted R :=
  if item_exists (rw_items lb) e then lb
  else mkRandom (rw_items lb ++ [e]) (rw_n lb + 1) (sum_of_weights lb + weight e) (rw_r lb).

Definition rw_remove_item (e : Endpoint) (lb : RandomWeighted R) : exec (RandomWeighted R) :=
  match remove_named (rw_items lb) (name e) with
  | Ret items => Ret (mkRandom items (rw_n lb) (sum_of_weights lb) (rw_r lb))
  | Panic => Panic
  end.

Definition rw_remove_all (nanos : Z) (lb : RandomWeighted R) : RandomWeighted R :=
  mkRandom [] (rw_n lb) (sum_of_weights lb) (seed_from_u64 nanos).

(** *** Dispatch *)
Inductive BalanceType :=
| BRandom (inner : RandomWeighted R)
| BRoundRobin (inner : RoundRobinWeighted).

Definition build_balance (nanos : Z) (a : AlgorithmName) : BalanceType :=
  match a with
  | Random => BRandom (default_random nanos)
  | RoundRobin => BRoundRobin default_round_robin
  end.

Definition balance_next (b : BalanceType) : option (exec (option Endpoint * BalanceType)) :=
  match b with
  | BRandom r => let '(o, r') := rw_next r in Some (Ret (o, BRandom r'))
  | BRoundRobin rr =>
      match rr_next rr with
      | Some (Ret (o, rr')) => Some (Ret (o, BRoundRobin rr'))
      | Some Panic => Some Panic
      | None => None
      end
  end.

Definition balance_add (e : Endpoint) (b : BalanceType) : BalanceType :=
  match b with
  | BRandom r => BRandom (rw_add e r)
  | BRoundRobin rr => BRoundRobin (rr_add e rr)
  end.

Definition get_all (b : BalanceType) : list Endpoint :=
  match b with BRandom r => rw_items r | BRoundRobin rr => rr_items rr end.

Definition balance_item_exists (b : BalanceType) (e : Endpoint) : bool :=
  item_exists (get_all b) e.

Definition balance_remove_item (e : Endpoint) (b : BalanceType) : exec BalanceType :=
  match b with
  | BRandom r =>
      match rw_remove_item e r with Ret r' => Ret (BRandom r') | Panic => Panic end
  | BRoundRobin rr =>
      match rr_remove_item e rr with Ret rr' => Ret (BRoundRobin rr') | Panic => Panic end
  end.

Definition balance_remove_all (nanos : Z) (b : BalanceType) : BalanceType :=
  match b with
  | BRandom r => BRandom (rw_remove_all nanos r)
  | BRoundRobin rr => BRoundRobin (rr_remove_all rr)
  end.
End RandomBalancer.
Arguments BalanceType R : clear implicits.

(** ** The balancer's bookkeeping *)

Definition weights_gcd (l : list Endpoint) : Z :=
  foldr (λ e g, if 0 <? weight e then Z.gcd (weight e) g else g) 0 l.
Definition weights_max (l : list Endpoint) : Z := foldr (λ e m, Z.max (weight e) m) 0 l.

Lemma gcd_loop_spec fuel x y :
  0 < x → 0 < y → (Z.to_nat y ≤ fuel)%nat → gcd_loop fuel x y = Some (Z.gcd x y).
Proof.
  revert x y. induction fuel as [|fuel IH]; intros x y Hx Hy Hf; [lia|]. cbn [gcd_loop].
  rewrite Z.rem_mod_nonneg by lia. pose proof (Z.mod_pos_bound x y Hy) as Hr.
  assert (Z.gcd x y = Z.gcd y (x mod y)) as ->
    by (rewrite (Z.gcd_comm y), Z.gcd_mod by lia; apply Z.gcd_comm).
  destruct (Z.ltb_spec 0 (x mod y)); [apply IH; lia|].
  replace (x mod y) with 0 by lia. rewrite Z.gcd_0_r, Z.abs_eq by lia. done.
Qed.

Lemma weights_gcd_nonneg l : 0 <= weights_gcd l.
Proof.
  induction l as [|e l IH]; simpl; [done|]. destruct (0 <? weight e); [apply Z.gcd_nonneg|done].
Qed.

Lemma weights_gcd_divide l e : e ∈ l → 0 < weight e → (weights_gcd l | weight e).
Proof.
  intros He Hw. induction l as [|x l IH]; [by apply not_elem_of_nil in He|]. simpl.
  apply elem_of_cons in He as [<-|He].
  - destruct (Z.ltb_spec 0 (weight e)); [|lia]. apply Z.gcd_divide_l.
  - specialize (IH He). destruct (0 <? weight x); [|done].
    etrans; [apply Z.gcd_divide_r|exact IH].
Qed.

Lemma weights_gcd_snoc l e :
  weights_gcd (l ++ [e]) = if 0 <? weight e then Z.gcd (weights_gcd l) (weight e) else weights_gcd l.
Proof.
  induction l as [|x l IH]; simpl.
  - destruct (Z.ltb_spec 0 (weight e)); [|done]. apply Z.gcd_0_r.
  - rewrite IH. destruct (0 <? weight x), (0 <? weight e); try done. apply Z.gcd_assoc.
Qed.

Lemma weights_max_snoc l e : weights_max (l ++ [e]) = Z.max (weights_max l) (weight e).
Proof. induction l as [|x l IH]; simpl; [lia|]. unfold weights_max in *. rewrite IH. lia. Qed.

Lemma weights_max_ge l e : e ∈ l → weight e <= weights_max l.
Proof.
  unfold weights_max. induction 1 as [e l|e x l _ IH]; simpl; lia.
Qed.

Lemma weights_max_attained l : 0 < weights_max l → ∃ e, e ∈ l ∧ weight e = weights_max l.
Proof.
  induction l as [|x l IH]; simpl; [lia|]. fold (weights_max l). intros H.
  destruct (Z.max_spec (weight x) (weights_max l)) as [[? E]|[? E]]; rewrite E in *.
  - destruct IH as (e & He & Ew); [lia|]. exists e. split; [by right|done].
  - exists x. split; [left|done].
Qed.

Lemma weights_max_nonneg l : 0 <= weights_max l.
Proof. induction l as [|x l IH]; simpl; [lia|]. fold (weights_max l). lia. Qed.

(** No positive weight, no divisor; otherwise both are positive. *)
Lemma weights_gcd_zero l : weights_gcd l = 0 ↔ weights_max l = 0.
Proof.
  induction l as [|x l IH]; [done|]. simpl. fold (weights_gcd l) (weights_max l).
  pose proof (weights_max_nonneg l). destruct (Z.ltb_spec 0 (weight x)) as [Hw|Hw].
  - rewrite Z.gcd_eq_0. lia.
  - rewrite IH. lia.
Qed.

(** The invariant of a round-robin balancer that only [add], [next] and
    [remove_all] have touched. *)
Record rr_ok (lb : RoundRobinWeighted) : Prop := {
  ok_n : rr_n lb = Z.of_nat (length (rr_items lb));
  ok_names : NoDup (name <$> rr_items lb);
  ok_gcd : rr_gcd lb = weights_gcd (rr_items lb);
  ok_max : rr_max_weight lb = weights_max (rr_items lb);
  ok_i : -1 <= rr_i lb <= Z.max 0 (rr_n lb - 1);
  ok_cw : 0 <= rr_cw lb <= rr_max_weight lb }.

Lemma item_exists_spec l e : item_exists l e = true ↔ name e ∈ (name <$> l).
Proof.
  unfold item_exists. rewrite existsb_elem, list_elem_of_fmap. split.
  - intros (x & Hx & E%str_eqb_eq). by exists x.
  - intros (x & E & Hx). exists x. split; [done|]. by apply str_eqb_eq.
Qed.

Lemma NoDup_snoc {A} (l : list A) x : NoDup l → x ∉ l → NoDup (l ++ [x]).
Proof.
  intros Hl Hx. apply NoDup_app. split; [done|]. split; [set_solver|apply NoDup_singleton].
Qed.

Lemma default_round_robin_ok : rr_ok default_round_robin.
Proof. split; simpl; try done; try lia. constructor. Qed.

Lemma rr_remove_all_ok lb : rr_ok (rr_remove_all lb).
Proof. split; simpl; try done; try lia. constructor. Qed.

Lemma rr_add_ok e lb : rr_ok lb → rr_ok (rr_add e lb).
Proof.
  intros [Hn Hnames Hg Hm Hi Hc]. unfold rr_add.
  destruct (item_exists (rr_items lb) e) eqn:Hex; [by split|].
  assert (NoDup (name <$> (rr_items lb ++ [e]))) as Hnames'.
  { rewrite fmap_app. apply NoDup_snoc; [done|]. rewrite <-item_exists_spec. by rewrite Hex. }
  pose proof (weights_gcd_snoc (rr_items lb) e) as Hg'.
  pose proof (weights_max_snoc (rr_items lb) e) as Hm'.
  pose proof (weights_gcd_nonneg (rr_items lb)). pose proof (weights_gcd_zero (rr_items lb)).
  pose proof (weights_max_nonneg (rr_items lb)).
  destruct (Z.ltb_spec 0 (weight e)) as [Hw|Hw]; [destruct (Z.eqb_spec (rr_gcd lb) 0) as [Hz|Hz]|];
    split; simpl; rewrite ?length_app; simpl; try done; try lia.
  - rewrite Hg', <-Hg, Hz. by rewrite Z.gcd_0_l, Z.abs_eq by lia.
  - unfold gcd. rewrite gcd_loop_spec by lia. simpl. by rewrite Hg', Hg.
  - destruct (Z.ltb_spec (rr_max_weight lb) (weight e)); lia.
  - destruct (Z.ltb_spec (rr_max_weight lb) (weight e)); lia.
Qed.

(** ** Passes *)

(** The endpoints one pass serves at level [c], in order. *)
Definition pass (l : list Endpoint) (c : Z) : list Endpoint :=
  List.filter (λ e, c <=? weight e) l.

(** The level of the following pass. *)
Definition lower (lb : RoundRobinWeighted) : Z :=
  if rr_cw lb - rr_gcd lb <=? 0 then rr_max_weight lb else rr_cw lb - rr_gcd lb.

(** What is left of the present pass. *)
Definition remaining (lb : RoundRobinWeighted) : list Endpoint :=
  if rr_i lb <? 0 then [] else pass (drop (S (Z.to_nat (rr_i lb))) (rr_items lb)) (rr_cw lb).

Lemma at_ok lb i c :
  rr_ok lb → -1 <= i <= Z.max 0 (rr_n lb - 1) → 0 <= c <= rr_max_weight lb → rr_ok (at_ lb i c).
Proof. intros []. by split. Qed.

(** Inside a pass the loop moves to the next endpoint of the level, or to the end
    of the list. *)
Lemma rr_walk lb pre l c fuel :
  rr_items lb = pre ++ l → rr_n lb = Z.of_nat (length (rr_items lb)) → pre ≠ [] →
  (length l < fuel)%nat →
  let here := at_ lb (Z.of_nat (length pre) - 1) c in
  match pass l c with
  | e :: r => ∃ i, rr_loop fuel here = Some (Ret (Some e, at_ lb i c)) ∧
      0 <= i < rr_n lb ∧ remaining (at_ lb i c) = r
  | [] => rr_loop fuel here = rr_loop (fuel - length l) (at_ lb (rr_n lb - 1) c)
  end.
Proof.
  revert pre fuel. induction l as [|e l IH]; intros pre fuel Hit Hn Hpre Hf; cbn [pass List.filter].
  { rewrite Nat.sub_0_r. simpl. rewrite Hn, Hit, app_nil_r. done. }
  assert (0 < Z.of_nat (length pre)) by (destruct pre; [done|simpl; lia]).
  rewrite Hit, length_app in Hn. simpl in Hn.
  destruct fuel as [|fuel]; [simpl in Hf; lia|]. simpl in Hf.
  assert (rr_loop (S fuel) (at_ lb (Z.of_nat (length pre) - 1) c) =
    if c <=? weight e then Some (Ret (Some e, at_ lb (Z.of_nat (length pre)) c))
    else rr_loop fuel (at_ lb (Z.of_nat (length pre)) c)) as Hstep.
  { cbn [rr_loop]. simpl. replace (_ - 1 + 1) with (Z.of_nat (length pre)) by lia.
    rewrite Z.rem_small by lia. destruct (Z.eqb_spec (Z.of_nat (length pre)) 0); [lia|]. simpl.
    unfold rr_index. simpl. destruct (Z.ltb_spec (Z.of_nat (length pre)) 0); [lia|].
    by rewrite Nat2Z.id, Hit, list_lookup_middle. }
  cbn zeta. rewrite Hstep. destruct (Z.leb_spec c (weight e)) as [Hc|Hc].
  - exists (Z.of_nat (length pre)). split; [done|]. split; [lia|]. unfold remaining. simpl.
    destruct (Z.ltb_spec (Z.of_nat (length pre)) 0); [lia|]. rewrite Nat2Z.id, Hit.
    rewrite cons_middle, app_assoc, drop_app_length' by (rewrite length_app; simpl; lia). done.
  - specialize (IH (pre ++ [e]) fuel). rewrite <-app_assoc, Hit, !length_app in IH. simpl in IH.
    rewrite Hn in IH. replace (Z.of_nat (length pre + 1) - 1) with (Z.of_nat (length pre)) in IH by lia.
    simpl. rewrite Hn. apply IH; [done|lia|by destruct pre|lia].
Qed.

(** At the end of the list the loop goes down one level and starts over. *)
Lemma rr_wrap lb fuel :
  rr_ok lb → 2 <= rr_n lb → rr_i lb = -1 ∨ rr_i lb = rr_n lb - 1 → (length (rr_items lb) < fuel)%nat →
  match pass (rr_items lb) (lower lb) with
  | e :: r => lower lb ≠ 0 →
      ∃ i, rr_loop fuel lb = Some (Ret (Some e, at_ lb i (lower lb))) ∧
        0 <= i < rr_n lb ∧ remaining (at_ lb i (lower lb)) = r
  | [] => True
  end ∧
  (lower lb = 0 → rr_loop fuel lb = Some (Ret (None, at_ lb 0 0))).
Proof.
  intros [Hn _ _ _ _ _] H2 Hi Hf. destruct (rr_items lb) as [|e l] eqn:Hit; [simpl in Hn; lia|].
  destruct fuel as [|fuel]; [lia|]. simpl in Hf, Hn.
  assert (Z.rem (rr_i lb + 1) (rr_n lb) = 0) as Hrem.
  { destruct Hi as [->| ->]; [apply Z.rem_0_l; lia|].
    replace (rr_n lb - 1 + 1) with (rr_n lb) by lia. apply Z.rem_same. lia. }
  assert (rr_loop (S fuel) lb =
    if lower lb =? 0 then Some (Ret (None, at_ lb 0 (lower lb)))
    else if lower lb <=? weight e then Some (Ret (Some e, at_ lb 0 (lower lb)))
    else rr_loop fuel (at_ lb 0 (lower lb))) as Hstep.
  { cbn [rr_loop]. rewrite Hrem. simpl. fold (lower lb). unfold rr_index. simpl.
    by rewrite Hit. }
  rewrite Hstep. split; [|by intros ->]. cbn [pass List.filter].
  pose proof (rr_walk lb [e] l (lower lb) fuel) as Hw. simpl in Hw. rewrite Hit in Hw.
  destruct (Z.leb_spec (lower lb) (weight e)) as [Hc|Hc].
  - intros Hz. destruct (Z.eqb_spec (lower lb) 0); [done|]. exists 0. split; [done|].
    split; [lia|]. unfold remaining. simpl. by rewrite Hit.
  - fold (pass l (lower lb)). destruct (pass l (lower lb)) as [|x r]; [done|]. intros Hz.
    destruct (Z.eqb_spec (lower lb) 0); [done|]. apply Hw; [done|simpl; lia|done|lia].
Qed.

Lemma pass_nonempty l c : c <= weights_max l → 0 < weights_max l → pass l c ≠ [].
Proof.
  intros Hc (e & He & Hw)%weights_max_attained E. unfold pass in E.
  assert (e ∈ List.filter (λ e, c <=? weight e) l) as H; [|rewrite E in H; by apply not_elem_of_nil in H].
  apply list_elem_of_In, filter_In. split; [by apply list_elem_of_In|]. apply Z.leb_le. lia.
Qed.

Lemma lower_bounds lb : rr_ok lb → 0 <= lower lb <= rr_max_weight lb ∧
  (0 < rr_max_weight lb → lower lb ≠ 0).
Proof.
  intros [_ _ Hg Hm _ Hc]. unfold lower.
  pose proof (weights_gcd_nonneg (rr_items lb)). pose proof (weights_max_nonneg (rr_items lb)).
  destruct (Z.leb_spec (rr_cw lb - rr_gcd lb) 0); lia.
Qed.

(** One [next] on two or more endpoints. *)
Lemma rr_next_spec lb : rr_ok lb → 2 <= rr_n lb →
  match remaining lb with
  | e :: r => ∃ i, rr_next lb = Some (Ret (Some e, at_ lb i (rr_cw lb))) ∧
      0 <= i < rr_n lb ∧ remaining (at_ lb i (rr_cw lb)) = r
  | [] =>
      match pass (rr_items lb) (lower lb) with
      | e :: r => lower lb ≠ 0 →
          ∃ i, rr_next lb = Some (Ret (Some e, at_ lb i (lower lb))) ∧
            0 <= i < rr_n lb ∧ remaining (at_ lb i (lower lb)) = r
      | [] => True
      end ∧ (lower lb = 0 → rr_next lb = Some (Ret (None, at_ lb 0 0)))
  end.
Proof.
  intros Hok H2. pose proof Hok as [Hn _ _ _ Hi Hc].
  assert (rr_next lb = rr_loop (2 * length (rr_items lb) + 1) lb) as ->.
  { unfold rr_next. destruct (Z.eqb_spec (rr_n lb) 0); [lia|].
    destruct (Z.eqb_spec (rr_n lb) 1); [lia|done]. }
  unfold remaining at 1. destruct (Z.ltb_spec (rr_i lb) 0) as [Hneg|Hpos].
  { apply rr_wrap; [done|done|lia|lia]. }
  set (k := S (Z.to_nat (rr_i lb))). set (l := drop k (rr_items lb)).
  assert (1 ≤ k ≤ length (rr_items lb))%nat as Hk by (unfold k; lia).
  assert (take k (rr_items lb) ≠ []) as Hne
    by (intros E%(f_equal length); rewrite length_take in E; cbn [length] in E; lia).
  assert (length l = (length (rr_items lb) - k)%nat) as Hl by apply length_drop.
  assert (lb = at_ lb (Z.of_nat (length (take k (rr_items lb))) - 1) (rr_cw lb)) as Hhere.
  { rewrite length_take, Nat.min_l by lia. unfold k. destruct lb as [items n g m i c]. simpl in *.
    unfold at_. simpl. f_equal. lia. }
  pose proof (rr_walk lb (take k (rr_items lb)) l (rr_cw lb) (2 * length (rr_items lb) + 1)) as Hw.
  cbn zeta in Hw. rewrite <-Hhere in Hw.
  specialize (Hw (eq_sym (take_drop k _)) Hn Hne).
  destruct (pass l (rr_cw lb)) as [|e r].
  - rewrite Hw by lia.
    apply (rr_wrap (at_ lb (rr_n lb - 1) (rr_cw lb))); [apply at_ok; [done|lia|lia]|done|by right|].
    simpl. lia.
  - apply Hw. lia.
Qed.

(** The same as a step of the pass machine. *)
Definition pass_step (lb : RoundRobinWeighted) (e : Endpoint) (lb' : RoundRobinWeighted) : Prop :=
  match remaining lb with
  | x :: r => e = x ∧ remaining lb' = r ∧ rr_cw lb' = rr_cw lb
  | [] => pass (rr_items lb) (lower lb) = e :: remaining lb' ∧ rr_cw lb' = lower lb
  end.

Lemma rr_next_step lb :
  rr_ok lb → 2 <= rr_n lb → 0 < rr_max_weight lb →
  ∃ e i c, rr_next lb = Some (Ret (Some e, at_ lb i c)) ∧ rr_ok (at_ lb i c) ∧
    pass_step lb e (at_ lb i c).
Proof.
  intros Hok H2 Hm. pose proof (rr_next_spec lb Hok H2) as Hs. unfold pass_step.
  pose proof (lower_bounds lb Hok) as [Hl1 Hl2]. pose proof Hok as [_ _ _ Hmax _ Hc].
  destruct (remaining lb) as [|x r].
  - destruct Hs as [Hs _]. pose proof (pass_nonempty (rr_items lb) (lower lb)) as Hne.
    destruct (pass (rr_items lb) (lower lb)) as [|x r]; [by destruct Hne; try lia|].
    destruct Hs as (i & Hnx & Hi & Hr); [auto|]. exists x, i, (lower lb).
    split; [done|]. split; [apply at_ok; [done|lia|done]|]. by rewrite Hr.
  - destruct Hs as (i & Hnx & Hi & Hr). exists x, i, (rr_cw lb).
    split; [done|]. split; [apply at_ok; [done|lia|done]|]. done.
Qed.

(** Refinement of the round-robin loop: on two or more endpoints, one of them
    with a positive weight, [next] returns an endpoint (the loop ends within two
    passes and never indexes out of range), namely the next one of the present
    pass, or the first one of the pass at the next lower level; the invariant
    and the set of endpoints are kept. *)
Theorem round_robin_refines lb :
  rr_ok lb → 2 <= rr_n lb → 0 < rr_max_weight lb →
  ∃ e lb', rr_next lb = Some (Ret (Some e, lb')) ∧ rr_ok lb' ∧ rr_items lb' = rr_items lb ∧
    pass_step lb e lb'.
Proof.
  intros Hok H2 Hm. destruct (rr_next_step lb Hok H2 Hm) as (e & i & c & Hnx & Hok' & Hp).
  by exists e, (at_ lb i c).
Qed.

(** ** Fairness *)

(** A run of calls of [next], with the endpoints they returned. *)
Inductive serves (lb : RoundRobinWeighted) : list Endpoint → RoundRobinWeighted → Prop :=
| serves_nil : serves lb [] lb
| serves_cons e lb1 es lb2 :
    rr_next lb = Some (Ret (Some e, lb1)) → serves lb1 es lb2 → serves lb (e :: es) lb2.

Lemma serves_app lb1 es lb2 fs lb3 :
  serves lb1 es lb2 → serves lb2 fs lb3 → serves lb1 (es ++ fs) lb3.
Proof. induction 1; simpl; [done|]. econstructor; eauto. Qed.

(** Between two passes. *)
Definition between (lb : RoundRobinWeighted) : Prop :=
  rr_ok lb ∧ 2 <= rr_n lb ∧ 0 < rr_max_weight lb ∧ remaining lb = [].

Lemma finish_pass r lb :
  rr_ok lb → 2 <= rr_n lb → 0 < rr_max_weight lb → remaining lb = r →
  ∃ i, serves lb r (at_ lb i (rr_cw lb)) ∧ between (at_ lb i (rr_cw lb)).
Proof.
  revert lb. induction r as [|x r IH]; intros lb Hok H2 Hm Hr.
  { exists (rr_i lb). assert (at_ lb (rr_i lb) (rr_cw lb) = lb) as -> by by destruct lb.
    by split; [constructor|]. }
  destruct (rr_next_step lb Hok H2 Hm) as (e & i & c & Hnx & Hok' & Hp).
  unfold pass_step in Hp. rewrite Hr in Hp. destruct Hp as (-> & Hr' & Hc). simpl in Hc. subst c.
  destruct (IH (at_ lb i (rr_cw lb))) as (j & Hs & Hb); try done.
  exists j. split; [|exact Hb]. by econstructor.
Qed.

Lemma whole_pass lb :
  between lb → ∃ i, serves lb (pass (rr_items lb) (lower lb)) (at_ lb i (lower lb)) ∧
    between (at_ lb i (lower lb)).
Proof.
  intros (Hok & H2 & Hm & Hr).
  destruct (rr_next_step lb Hok H2 Hm) as (e & i & c & Hnx & Hok' & Hp).
  unfold pass_step in Hp. rewrite Hr in Hp. destruct Hp as [Hp Hc]. simpl in Hc. subst c.
  destruct (finish_pass _ (at_ lb i (lower lb)) Hok' H2 Hm eq_refl) as (j & Hs & Hb).
  exists j. split; [|exact Hb]. rewrite Hp. by econstructor.
Qed.

(** The passes at the levels [k * g], ..., [2 * g], [g]. *)
Fixpoint cycle (l : list Endpoint) (g : Z) (k : nat) : list Endpoint :=
  match k with O => [] | S k' => pass l (Z.of_nat k * g) ++ cycle l g k' end.

Lemma whole_cycle k lb :
  between lb → lower lb = Z.of_nat (S k) * rr_gcd lb →
  ∃ i, serves lb (cycle (rr_items lb) (rr_gcd lb) (S k)) (at_ lb i (rr_gcd lb)) ∧
    between (at_ lb i (rr_gcd lb)).
Proof.
  revert lb. induction k as [|k IH]; intros lb Hb Hl;
    destruct (whole_pass lb Hb) as (i & Hs & Hb'); rewrite Hl in *.
  { rewrite Z.mul_1_l in *. exists i. cbn [cycle]. rewrite app_nil_r, Z.mul_1_l. done. }
  destruct (IH (at_ lb i (Z.of_nat (S (S k)) * rr_gcd lb)) Hb') as (j & Hs' & Hb'').
  { unfold lower. simpl rr_cw. simpl rr_gcd. destruct Hb as ([_ _ Hg Hmx _ _] & _ & Hm & _).
    pose proof (weights_gcd_nonneg (rr_items lb)). pose proof (weights_gcd_zero (rr_items lb)).
    destruct (Z.leb_spec (Z.of_nat (S (S k)) * rr_gcd lb - rr_gcd lb) 0); nia. }
  exists j. split; [|exact Hb'']. change (cycle _ _ (S (S k))) with
    (pass (rr_items lb) (Z.of_nat (S (S k)) * rr_gcd lb) ++ cycle (rr_items lb) (rr_gcd lb) (S k)).
  by eapply serves_app.
Qed.

(** How often an endpoint is served. *)
Definition times (e : Endpoint) (l : list Endpoint) : Z :=
  Z.of_nat (count_occ Endpoint_eq_dec l e).

Lemma times_app e l k : times e (l ++ k) = times e l + times e k.
Proof. unfold times. rewrite count_occ_app. lia. Qed.

Lemma times_pass l c e :
  NoDup l → e ∈ l → times e (pass l c) = if c <=? weight e then 1 else 0.
Proof.
  intros Hl He. unfold times, pass. induction Hl as [|x l Hx Hl IH]; [by apply not_elem_of_nil in He|].
  assert (∀ y, y ∉ l → count_occ Endpoint_eq_dec (List.filter (λ e, c <=? weight e) l) y = 0%nat) as Hz.
  { intros y Hy. apply count_occ_not_In. intros Hin%filter_In. destruct Hin as [Hin _].
    by apply Hy, list_elem_of_In. }
  cbn [List.filter]. apply elem_of_cons in He as [<-|He].
  - destruct (c <=? weight e); [|by rewrite Hz]. rewrite count_occ_cons_eq by done. by rewrite Hz.
  - rewrite <-(IH He). destruct (c <=? weight x); [|done].
    rewrite count_occ_cons_neq; [done|]. by intros ->.
Qed.

Lemma times_cycle l g k e :
  NoDup l → e ∈ l → 0 < g → 0 <= weight e →
  times e (cycle l g k) = Z.min (Z.of_nat k) (weight e / g).
Proof.
  intros Hl He Hg Hw. pose proof (Z.div_pos (weight e) g Hw Hg) as Hd.
  induction k as [|k IH]; [unfold times; simpl; lia|].
  cbn [cycle]. rewrite times_app, times_pass, IH by done.
  pose proof (Z.mul_div_le (weight e) g Hg). pose proof (Z.mul_succ_div_gt (weight e) g Hg).
  destruct (Z.leb_spec (Z.of_nat (S k) * g) (weight e)).
  - assert (Z.of_nat (S k) <= weight e / g) by (apply Z.div_le_lower_bound; lia). lia.
  - assert (weight e / g < Z.of_nat (S k)) by (apply Z.div_lt_upper_bound; lia). lia.
Qed.

Lemma cycle_subset l g k e : e ∈ cycle l g k → e ∈ l.
Proof.
  induction k as [|k IH]; simpl; [by intros ?%not_elem_of_nil|].
  intros [H|H]%elem_of_app; [|auto]. unfold pass in H.
  apply list_elem_of_In, filter_In in H as [H _]. by apply list_elem_of_In.
Qed.

(** A balancer with the given endpoints, added in this order. *)
Definition balancer (eps : list Endpoint) : RoundRobinWeighted :=
  foldl (λ lb e, rr_add e lb) default_round_robin eps.

Lemma balancer_spec eps :
  NoDup (name <$> eps) →
  rr_ok (balancer eps) ∧ rr_items (balancer eps) = eps ∧ rr_cw (balancer eps) = 0 ∧
  (rr_gcd (balancer eps) ≠ 0 → rr_i (balancer eps) = -1).
Proof.
  induction eps as [|e eps IH] using rev_ind; intros Hn.
  { split; [apply default_round_robin_ok|done]. }
  rewrite fmap_app in Hn. apply NoDup_app in Hn as (Hn & Hnot & _).
  destruct (IH Hn) as (Hok & Hit & Hc & Hi).
  assert (balancer (eps ++ [e]) = rr_add e (balancer eps)) as -> by (unfold balancer; by rewrite foldl_app).
  split; [by apply rr_add_ok|]. unfold rr_add. rewrite Hit.
  destruct (item_exists eps e) eqn:Hex.
  - apply item_exists_spec in Hex. destruct (Hnot _ Hex). by left.
  - destruct (0 <? weight e); [destruct (Z.eqb_spec (rr_gcd (balancer eps)) 0)|]; simpl; auto.
Qed.

Lemma weights_gcd_max_divide l : (weights_gcd l | weights_max l).
Proof.
  destruct (decide (0 < weights_max l)) as [H|H].
  - destruct (weights_max_attained l H) as (e & He & E). rewrite <-E. apply weights_gcd_divide; [done|lia].
  - pose proof (weights_max_nonneg l). replace (weights_max l) with 0 by lia. apply Z.divide_0_r.
Qed.

Lemma NoDup_of_names (eps : list Endpoint) : NoDup (name <$> eps) → NoDup eps.
Proof. apply NoDup_fmap_1. Qed.

(** Whole cycles repeat. *)
Lemma cycles m lb k :
  between lb → lower lb = rr_max_weight lb → rr_max_weight lb = Z.of_nat (S k) * rr_gcd lb →
  ∃ lb', serves lb (concat (replicate m (cycle (rr_items lb) (rr_gcd lb) (S k)))) lb'.
Proof.
  revert lb. induction m as [|m IH]; intros lb Hb Hl Hk; [by exists lb; constructor|].
  destruct (whole_cycle k lb Hb) as (i & Hs & Hb'); [congruence|].
  destruct (IH (at_ lb i (rr_gcd lb)) Hb') as (lb' & Hs'); [|done|].
  - unfold lower. simpl. by rewrite Z.sub_diag.
  - exists lb'. cbn [replicate concat]. by eapply serves_app.
Qed.

(** C4 Weighted fairness: with two or more endpoints of distinct names and
    non-negative weights, not all zero, a new balancer serves every endpoint in
    exact proportion to its weight: there are runs of [next] of any number [m]
    of whole cycles, in which the endpoint [e] is returned [m * weight e / g]
    times, [g] being the greatest common divisor of the weights. *)
Theorem round_robin_fair eps m :
  NoDup (name <$> eps) → (2 ≤ length eps)%nat → Forall (λ e, 0 <= weight e) eps →
  0 < weights_max eps →
  ∃ outs lb', serves (balancer eps) outs lb' ∧ (∀ e, e ∈ outs → e ∈ eps) ∧
    ∀ e, e ∈ eps → times e outs = Z.of_nat m * (weight e / weights_gcd eps).
Proof.
  intros Hnames H2 Hw Hm. destruct (balancer_spec eps Hnames) as (Hok & Hit & Hc & Hi).
  pose proof Hok as [Hn _ Hg Hmx _ _]. rewrite Hit in Hn, Hg, Hmx.
  pose proof (weights_gcd_nonneg eps). pose proof (weights_gcd_zero eps).
  destruct (weights_gcd_max_divide eps) as [q Hq]. assert (0 < q) by nia.
  assert (Z.of_nat (S (Z.to_nat (q - 1))) = q) as HK by lia.
  destruct (cycles m (balancer eps) (Z.to_nat (q - 1))) as (lb' & Hs).
  - split; [done|]. split; [lia|]. split; [lia|]. unfold remaining. rewrite Hi by lia. done.
  - unfold lower. rewrite Hc, Hg. destruct (Z.leb_spec (0 - weights_gcd eps) 0); [done|lia].
  - rewrite HK. by rewrite Hmx, Hg.
  - rewrite Hit, Hg in Hs. eexists _, lb'. split; [exact Hs|]. split.
    + intros e He. clear Hs. induction m as [|m IH]; cbn [replicate concat] in He;
        [by apply not_elem_of_nil in He|]. apply elem_of_app in He as [He|He]; [|auto].
      by eapply cycle_subset.
    + intros e He. clear Hs. pose proof (proj1 (Forall_forall _ _) Hw e He) as Hwe. simpl in Hwe.
      assert (weight e / weights_gcd eps <= q).
      { apply Z.div_le_upper_bound; [lia|]. pose proof (weights_max_ge eps e He). lia. }
      induction m as [|m IH]; [done|]. cbn [replicate concat]. rewrite times_app, IH.
      rewrite times_cycle by (done || lia || by apply NoDup_of_names). rewrite HK. lia.
Qed.

Definition ep (n : string) (w : Z) : Endpoint := mkEndpoint [] w ($n) [] [] [] [].
Definition trio : list Endpoint := [ep "a" 4; ep "b" 2; ep "c" 0].

Lemma trio_names : NoDup (name <$> trio).
Proof. repeat constructor; set_solver. Qed.

Lemma round_robin_fair_witness :
  ∃ outs lb', serves (balancer trio) outs lb' ∧ times (ep "a" 4) outs = 20 ∧
    times (ep "b" 2) outs = 10 ∧ times (ep "c" 0) outs = 0.
Proof.
  destruct (round_robin_fair trio 10) as (outs & lb' & Hs & _ & Ht).
  - apply trio_names.
  - vm_compute. lia.
  - repeat constructor; vm_compute; congruence.
  - vm_compute. reflexivity.
  - exists outs, lb'. split; [exact Hs|].
    rewrite !Ht by (unfold trio; set_solver). vm_compute. repeat split.
Defined.

Lemma round_robin_refines_witness :
  ∃ e lb', rr_next (balancer trio) = Some (Ret (Some e, lb')) ∧ rr_ok lb'.
Proof.
  destruct (round_robin_refines (balancer trio)) as (e & lb' & H1 & H2 & _).
  - apply balancer_spec, trio_names.
  - vm_compute. congruence.
  - vm_compute. reflexivity.
  - exists e, lb'. split; [exact H1|exact H2].
Defined.

(** ** The random balancer *)

Section RandomTheorems.
Context {R : Type} `{RngLaws R}.

Definition random_balancer (nanos : Z) (eps : list Endpoint) : RandomWeighted R :=
  foldl (λ lb e, rw_add e lb) (default_random nanos) eps.

Definition total (eps : list Endpoint) : Z := foldr (λ e s, weight e + s) 0 eps.

Lemma total_snoc eps e : total (eps ++ [e]) = total eps + weight e.
Proof. unfold total. induction eps as [|x eps IH]; simpl; [lia|]. rewrite IH. lia. Qed.

Lemma random_balancer_spec nanos eps :
  NoDup (name <$> eps) →
  rw_items (random_balancer nanos eps) = eps ∧
  rw_n (random_balancer nanos eps) = Z.of_nat (length eps) ∧
  sum_of_weights (random_balancer nanos eps) = total eps.
Proof.
  induction eps as [|e eps IH] using rev_ind; intros Hn; [done|].
  rewrite fmap_app in Hn. apply NoDup_app in Hn as (Hn & Hnot & _).
  destruct (IH Hn) as (Hit & Hl & Hs).
  assert (random_balancer nanos (eps ++ [e]) = rw_add e (random_balancer nanos eps)) as ->
    by (unfold random_balancer; by rewrite foldl_app).
  unfold rw_add. rewrite Hit. destruct (item_exists eps e) eqn:Hex.
  - apply item_exists_spec in Hex. destruct (Hnot _ Hex). by left.
  - simpl. rewrite Hl, Hs, length_app, total_snoc. simpl. split_and!; [done|lia|done].
Qed.

(** The draws that pick an endpoint: with non-negative weights they are the
    half-open interval of its weight's length after the weights before it. *)
Lemma pick_interval pre e post v :
  Forall (λ x, 0 <= weight x) (pre ++ e :: post) →
  total pre < v <= total pre + weight e → pick v (pre ++ e :: post) = Some e.
Proof.
  revert v. induction pre as [|x pre IH]; intros v Hw Hv; simpl in *.
  - destruct (Z.leb_spec (v - weight e) 0); [done|lia].
  - apply Forall_cons in Hw as [Hx Hw]. fold (total pre) in Hv.
    assert (0 <= total pre).
    { clear -Hw. apply Forall_app in Hw as [Hw _]. unfold total.
      induction Hw; simpl; lia. }
    destruct (Z.leb_spec (v - weight x) 0); [lia|]. apply IH; [done|lia].
Qed.

(** Every draw falls in one such interval. *)
Lemma draw_in_interval eps v :
  0 < v <= total eps →
  ∃ pre e post, eps = pre ++ e :: post ∧ total pre < v <= total pre + weight e.
Proof.
  induction eps as [|x eps IH] in v |- *; simpl; [lia|]. fold (total eps). intros Hv.
  destruct (decide (v <= weight x)) as [Hx|Hx]; [exists [], x, eps; simpl; split; [done|lia]|].
  destruct (IH (v - weight x)) as (pre & e & post & -> & Hi); [lia|].
  exists (x :: pre), e, post. split; [done|]. simpl. fold (total pre). lia.
Qed.

Lemma split_unique {A} (l1 l2 k1 k2 : list A) x :
  NoDup (l1 ++ x :: l2) → l1 ++ x :: l2 = k1 ++ x :: k2 → l1 = k1.
Proof.
  revert k1. induction l1 as [|y l1 IH]; intros [|z k1] Hd E; simplify_eq/=; [done|..].
  - apply NoDup_cons in Hd as [Hx _]. set_solver.
  - apply NoDup_cons in Hd as [Hx _]. set_solver.
  - apply NoDup_cons in Hd as [_ Hd]. f_equal. eauto.
Qed.

Record rw_ok (lb : RandomWeighted R) : Prop := {
  rw_ok_n : rw_n lb = Z.of_nat (length (rw_items lb));
  rw_ok_sum : sum_of_weights lb = total (rw_items lb);
  rw_ok_names : NoDup (name <$> rw_items lb) }.

Lemma random_balancer_ok nanos eps : NoDup (name <$> eps) → rw_ok (random_balancer nanos eps).
Proof.
  intros Hn. destruct (random_balancer_spec nanos eps Hn) as (Hit & Hl & Hs).
  split; by rewrite Hit.
Qed.

(** The random balancer is weighted: with non-negative weights, not all zero,
    an endpoint is chosen exactly when the draw, a number below the sum of the
    weights, falls into the interval of its weight's length that starts after
    the weights before it; so under a uniform draw its share is its weight.
    The bookkeeping is kept. *)
Theorem random_share lb pre e post :
  rw_ok lb → rw_items lb = pre ++ e :: post → Forall (λ x, 0 <= weight x) (rw_items lb) →
  0 < sum_of_weights lb →
  let v := (gen_range (rw_r lb) (sum_of_weights lb)).1 in
  ((rw_next lb).1 = Some e ↔ total pre <= v < total pre + weight e) ∧ rw_ok (rw_next lb).2.
Proof.
  intros [Hn Hs Hd] Hit Hw Hpos v. pose proof (gen_range_bounds (rw_r lb) _ Hpos) as Hv.
  unfold rw_next. destruct (Z.eqb_spec (rw_n lb) 0) as [Hz|_].
  { rewrite Hn, Hit, length_app in Hz. simpl in Hz. lia. }
  destruct (Z.leb_spec (sum_of_weights lb) 0); [lia|]. unfold v in *.
  destruct (gen_range (rw_r lb) (sum_of_weights lb)) as [u r]. simpl in Hv. clear v.
  destruct (draw_in_interval (rw_items lb) (u + 1)) as (pre' & x & post' & Hsp & Hi); [lia|].
  assert (pick (u + 1) (rw_items lb) = Some x) as ->.
  { rewrite Hsp. apply pick_interval; [by rewrite <-Hsp|done]. }
  split; [|by split]. simpl. split.
  - intros [= ->]. assert (pre = pre') as ->; [|lia].
    apply (split_unique _ post _ post' e); [|congruence].
    rewrite <-Hit. by apply NoDup_of_names.
  - intros Hu. f_equal. assert (pick (u + 1) (rw_items lb) = Some e) as E1.
    { rewrite Hit. apply pick_interval; [by rewrite <-Hit|lia]. }
    assert (pick (u + 1) (rw_items lb) = Some x) as E2.
    { rewrite Hsp. apply pick_interval; [by rewrite <-Hsp|done]. }
    congruence.
Qed.
End RandomTheorems.

(** ** What the router relies on *)

Lemma pass_subset l c e : e ∈ pass l c → e ∈ l.
Proof. unfold pass. rewrite !list_elem_of_In, filter_In. by intros [? _]. Qed.

Lemma rr_next_total lb : rr_ok lb →
  ∃ o lb', rr_next lb = Some (Ret (o, lb')) ∧ rr_ok lb' ∧ rr_items lb' = rr_items lb ∧
    ∀ e, o = Some e → e ∈ rr_items lb.
Proof.
  intros Hok. pose proof Hok as [Hn _ _ Hm _ Hc].
  destruct (decide (rr_n lb < 2)) as [Hs|Hs].
  { unfold rr_next. destruct (Z.eqb_spec (rr_n lb) 0); [by eexists _, _|].
    destruct (Z.eqb_spec (rr_n lb) 1); [|lia]. eexists _, _. split; [done|]. split; [done|].
    split; [done|]. intros x. apply list_elem_of_lookup_2. }
  pose proof (rr_next_spec lb Hok ltac:(lia)) as Hx. pose proof (lower_bounds lb Hok) as [Hl1 _].
  destruct (remaining lb) as [|x r] eqn:Hr.
  - destruct Hx as [Hx Hnone]. destruct (decide (lower lb = 0)) as [Hz|Hz].
    { eexists _, _. split; [by apply Hnone|]. split; [apply at_ok; [done|lia|lia]|done]. }
    pose proof (pass_nonempty (rr_items lb) (lower lb) ltac:(lia) ltac:(lia)) as Hne.
    destruct (pass (rr_items lb) (lower lb)) as [|x r] eqn:Hp; [done|].
    destruct (Hx Hz) as (i & Hnx & Hi & _). eexists _, _. split; [exact Hnx|].
    split; [apply at_ok; [done|lia|lia]|]. split; [done|]. intros e [= <-].
    apply (pass_subset _ (lower lb)). rewrite Hp. left.
  - destruct Hx as (i & Hnx & Hi & _). eexists _, _. split; [exact Hnx|].
    split; [apply at_ok; [done|lia|lia]|]. split; [done|]. intros e [= <-].
    unfold remaining in Hr. destruct (rr_i lb <? 0); [done|].
    assert (x ∈ pass (drop (S (Z.to_nat (rr_i lb))) (rr_items lb)) (rr_cw lb)) as Hin%pass_subset
      by (rewrite Hr; left).
    eapply sublist_subseteq; [apply sublist_drop|exact Hin].
Qed.

Section Interface.
Context {R : Type} `{Rng R}.

Definition bal_ok (b : BalanceType R) : Prop :=
  match b with BRandom _ => True | BRoundRobin rr => rr_ok rr end.

Lemma build_balance_ok nanos a :
  bal_ok (build_balance nanos a) ∧ get_all (build_balance nanos a) = [].
Proof. destruct a; [done|]. split; [apply default_round_robin_ok|done]. Qed.

Lemma balance_add_ok e b :
  bal_ok b → bal_ok (balance_add e b) ∧
  ∀ x, x ∈ get_all (balance_add e b) → x ∈ get_all b ∨ x = e.
Proof.
  destruct b as [r|rr]; simpl; intros Hb.
  - split; [done|]. unfold rw_add. destruct (item_exists _ _); [auto|]. simpl. set_solver.
  - split; [by apply rr_add_ok|]. unfold rr_add. destruct (item_exists _ _); [auto|].
    repeat case_match; simpl; set_solver.
Qed.

Lemma pick_elem v l e : pick v l = Some e → e ∈ l.
Proof.
  revert v. induction l as [|x l IH]; intros v; simpl; [done|].
  destruct (_ <=? 0); [intros [= ->]; left|]. intros Hp. right. by eapply IH.
Qed.

(** [next] on a well-formed balancer returns, keeps its endpoints, and what it
    returns is one of them. *)
Lemma balance_next_total b :
  bal_ok b → ∃ o b', balance_next b = Some (Ret (o, b')) ∧ bal_ok b' ∧ get_all b' = get_all b ∧
    ∀ e, o = Some e → e ∈ get_all b.
Proof.
  destruct b as [r|rr]; simpl; intros Hb.
  - destruct (rw_next r) as [o r'] eqn:E. eexists _, _. split; [done|]. split; [done|].
    unfold rw_next in E. repeat case_match; simplify_eq/=; try done.
    + split; [done|]. intros x [= <-]. by eapply pick_elem.
    + split; [done|]. intros x Hx. by apply last_Some_elem_of.
  - destruct (rr_next_total rr Hb) as (o & rr' & -> & ? & ? & ?). by eexists _, _.
Qed.
End Interface.

(** A generator for concrete runs: it counts upwards. *)
#[export] Instance counter_rng : Rng Z :=
  { gen_range := λ r hi, (Z.modulo r hi, r + 1); seed_from_u64 := λ s, s }.
#[export] Instance counter_rng_laws : RngLaws Z.
Proof. split. intros r hi Hhi. by apply Z.mod_pos_bound. Qed.

Lemma random_share_witness :
  (rw_next (random_balancer (R := Z) 11 trio)).1 = Some (ep "b" 2).
Proof.
  apply (random_share (random_balancer (R := Z) 11 trio) [ep "a" 4] (ep "b" 2) [ep "c" 0]).
  - apply random_balancer_ok, trio_names.
  - vm_compute. reflexivity.
  - vm_compute. repeat constructor; congruence.
  - vm_compute. reflexivity.
  - vm_compute. split; congruence.
Defined.

(** Removing endpoints leaves the counters behind: after one of two endpoints is
    removed, the round-robin balancer indexes past the end of the list; after
    [remove_all] the random balancer still draws from the old weights, so an
    endpoint added then is chosen whatever its share. *)
Theorem removal_leaves_counters :
  (∃ lb, rr_remove_item (ep "b" 1) (balancer [ep "a" 1; ep "b" 1]) = Ret lb ∧
     ∃ lb1, rr_next lb = Some (Ret (Some (ep "a" 1), lb1)) ∧ rr_next lb1 = Some Panic) ∧
  sum_of_weights (rw_add (ep "z" 1) (rw_remove_all 0 (random_balancer (R := Z) 11 trio))) = 7 ∧
  (rw_next (rw_remove_all 0 (random_balancer (R := Z) 11 trio))).1 = None.
Proof. split; [|split; vm_compute; reflexivity]. eexists. split; [reflexivity|]. eexists. split; reflexivity. Qed.

End LoadBalance.
