(* ===== verification/Route.v ===== *)
(** * Routing: read/write splitting over the load balancers

    [proxy/strategy/src/route.rs], [readwritesplitting/] ([rule_match.rs],
    [static_rw.rs], [dynamic_rw.rs]) and the rule types of [config.rs], with
    [route] of [runtime/gateway/src/transaction_fsm.rs].

    A mutable borrow of a balancer ([get]) is its value together with the function
    that writes it back ([borrow]).  The regular-expression library is a parameter;
    [clock] gives the reading each new balancer seeds its generator with.  An
    [IndexMap] that is only searched is a [gmap]; the channel of a dynamic
    strategy is the list of the updates it holds.  [unreachable!()] and [unwrap()]
    on nothing are [Panic]. *)

From S2P Require Import Prelude RustStr LoadBalance.
Import LoadBalance.

Module Route.

(** ** Configuration *)

Inductive TargetRole := Read | ReadWrite.

Record Member := mkMember { member_name : str; member_readwrite : str; member_reads : list str }.
Record NodeGroup := mkNodeGroup { members : list Member }.

Record RegexRule := mkRegexRule {
  regex_name : str; regex_rule_type : str; regex : list str; target : TargetRole;
  regex_algorithm : AlgorithmName; node_group_name : list str }.

Record GenericRule := mkGenericRule {
  generic_name : str; generic_rule_type : str; generic_algorithm : AlgorithmName;
  generic_node_group_name : list str }.

Inductive ReadWriteSplittingRule :=
| Regex (r : RegexRule)
| Generic (r : GenericRule).

(** [ReadWriteSplittingStatic] and [ReadWriteSplittingDynamic] (whose discovery
    settings go to the monitors). *)
Record SplittingRules := mkSplitting { cfg_default_target : TargetRole; cfg_rules : list ReadWriteSplittingRule }.
Record ReadWriteSplittingConfig := mkSplittingConfig {
  statics : option SplittingRules; dynamic : option SplittingRules }.

Record ReadWriteEndpoint := mkRw { read : list Endpoint; readwrite : list Endpoint }.

#[export] Instance ReadWriteEndpoint_eq_dec : EqDecision ReadWriteEndpoint.
Proof. solve_decision. Defined.

Inductive StragegyError := EndpointNotFound (n : str) | NodeGroupNotFound (n : str).

Inductive RouteInput :=
| Statement (sql : str)
| Transaction (sql : str)
| ShardingTo (e : Endpoint)
| ShardingStatement (sql group : str)
| ShardingTransaction (sql group : str)
| NoInput.

Inductive RouteInputTyp := TypStatement | TypTransaction | TypNone.

Inductive DispatchPlan :=
| Single (e : Endpoint) (role : TargetRole)
| Reject (reason : str).

Definition plan_endpoint (p : DispatchPlan) : option Endpoint :=
  match p with Single e _ => Some e | Reject _ => None end.

Definition plan_role (p : DispatchPlan) : option TargetRole :=
  match p with Single _ role => Some role | Reject _ => None end.

Definition plan_from_endpoint_role (e : option Endpoint) (role : TargetRole) : DispatchPlan :=
  match e with Some e => Single e role | None => Reject ($"route strategy produced no endpoint") end.

(** ** Node groups *)

(** The distinct names of the read endpoints, in order (an [IndexSet]). *)
Definition distinct_names (l : list Endpoint) : list str :=
  foldl (λ acc e, if one_of acc (name e) then acc else acc ++ [name e]) [] l.

Definition find_named (n : str) (l : list Endpoint) : option Endpoint :=
  List.find (λ e, str_eqb (name e) n) l.

Definition member_endpoint (rw : ReadWriteEndpoint) (m : Member)
    : result StragegyError ReadWriteEndpoint :=
  let intersec := List.filter (one_of (member_reads m)) (distinct_names (read rw)) in
  let reads := omap (λ n, find_named n (read rw)) intersec in
  match find_named (member_readwrite m) (readwrite rw) with
  | Some e => Ok (mkRw reads [e])
  | None => Err (EndpointNotFound (member_readwrite m))
  end.

Fixpoint group_members (rw : ReadWriteEndpoint) (ms : list Member)
    (acc : gmap str ReadWriteEndpoint) : result StragegyError (gmap str ReadWriteEndpoint) :=
  match ms with
  | [] => Ok acc
  | m :: ms' =>
      e ← member_endpoint rw m; group_members rw ms' (<[member_name m := e]> acc)
  end.

Definition get_endpoint_group (g : option NodeGroup) (rw : ReadWriteEndpoint)
    : result StragegyError (gmap str ReadWriteEndpoint) :=
  match g with Some g => group_members rw (members g) ∅ | None => Ok ∅ end.

(** ** Keywords *)

(** [char::to_uppercase] as far as it yields ASCII text; every other character
    has an uppercase form with a character outside ASCII, so comparing with the
    keywords below comes out the same. *)
Definition char_to_uppercase (c : str) : str :=
  match map N_of_ascii c with
  | [196%N; 177%N] => $"I"
  | [197%N; 191%N] => $"S"
  | [195%N; 159%N] => $"SS"
  | [239%N; 172%N; 128%N] => $"FF"
  | [239%N; 172%N; 129%N] => $"FI"
  | [239%N; 172%N; 130%N] => $"FL"
  | [239%N; 172%N; 131%N] => $"FFI"
  | [239%N; 172%N; 132%N] => $"FFL"
  | [239%N; 172%N; 133%N] => $"ST"
  | [239%N; 172%N; 134%N] => $"ST"
  | [_] => to_ascii_uppercase c
  | _ => c
  end.

Definition to_uppercase (s : str) : str := concat (map char_to_uppercase (chars s)).

Definition GENERIC_RULE_TOKEN : list str :=
  [$"SELECT"; $"UPDATE"; $"INSERT"; $"DELETE"; $"SET"; $"START"].

(** ** Rules *)

(** The [regex] crate: compiling a pattern may fail. *)
Class RegexLib := {
  Re : Type;
  regex_new : str → option Re;
  regex_is_match : Re → str → bool }.

(** The places at which a new balancer reads the clock. *)
Inductive place := PDefault | PTrans | PGlobal (rule : nat) | PGroup (rule group : nat)
| PRead (rule : nat) | PReadWrite (rule : nat) | PGenericDefault (rule : nat).

Section Rules.
Context {R : Type} `{Rng R} `{RegexLib}.

Definition balance_add_endpoint (b : BalanceType R) (l : list Endpoint) : BalanceType R :=
  foldl (λ b e, balance_add e b) b l.

Record RegexRuleMatchInner := mkRegexInner {
  inner_rule : RegexRule; regexs : list Re; inner_balance : gmap str (BalanceType R) }.

Record GenericRuleMatchInner := mkGenericInner {
  r_balance : BalanceType R; rw_balance : BalanceType R; generic_default : BalanceType R;
  default_target_role : TargetRole }.

Inductive RulesMatchInner :=
| RegexInner (r : RegexRuleMatchInner)
| GenericInner (g : GenericRuleMatchInner).

Record RulesMatch := mkRulesMatch {
  default_target : TargetRole; default_balance : BalanceType R;
  default_trans_balance : BalanceType R; inner : list RulesMatchInner }.

(** [RegexRuleMatchInner::build_balance_inner]. *)
Definition build_balance_inner (b : BalanceType R) (role : TargetRole) (rw : ReadWriteEndpoint)
    : BalanceType R :=
  match role with
  | Read => balance_add_endpoint b (if is_empty (read rw) then readwrite rw else read rw)
  | ReadWrite => balance_add_endpoint b (readwrite rw)
  end.

Fixpoint build_groups (clock : place → Z) (idx gidx : nat) (r : RegexRule) (groups : list str)
    (eg : gmap str ReadWriteEndpoint) (acc : gmap str (BalanceType R))
    : result StragegyError (gmap str (BalanceType R)) :=
  match groups with
  | [] => Ok acc
  | g :: groups' =>
      match eg !! g with
      | None => Err (NodeGroupNotFound g)
      | Some rw =>
          let b := build_balance_inner
                     (build_balance (clock (PGroup idx gidx)) (regex_algorithm r)) (target r) rw in
          build_groups clock idx (S gidx) r groups' eg (<[g := b]> acc)
      end
  end.

Definition regex_build_balance (clock : place → Z) (idx : nat) (r : RegexRule)
    (eg : gmap str ReadWriteEndpoint) (rw : ReadWriteEndpoint)
    : result StragegyError (gmap str (BalanceType R)) :=
  if bool_decide (eg = ∅) || is_empty (node_group_name r) then
    Ok {[ $"GLOBAL" := build_balance_inner
            (build_balance (clock (PGlobal idx)) (regex_algorithm r)) (target r) rw ]}
  else build_groups clock idx 0 r (node_group_name r) eg ∅.

(** [RegexRuleMatchInner::new(..).unwrap()]: [None] is any of its errors. *)
Definition regex_inner_new (clock : place → Z) (idx : nat) (r : RegexRule)
    (eg : gmap str ReadWriteEndpoint) (rw : ReadWriteEndpoint) : option RegexRuleMatchInner :=
  match regex_build_balance clock idx r eg rw with
  | Err _ => None
  | Ok balance => rs ← mapM regex_new (regex r); Some (mkRegexInner r rs balance)
  end.

Definition generic_build_balance (nanos : Z) (role : TargetRole) (a : AlgorithmName)
    (rw : ReadWriteEndpoint) : BalanceType R :=
  let b := build_balance nanos a in
  match role with
  | Read =>
      let b := if is_empty (read rw) then balance_add_endpoint b (readwrite rw) else b in
      balance_add_endpoint b (read rw)
  | ReadWrite => balance_add_endpoint b (readwrite rw)
  end.

Definition generic_inner_new (clock : place → Z) (idx : nat) (r : GenericRule)
    (role : TargetRole) (rw : ReadWriteEndpoint) : GenericRuleMatchInner :=
  mkGenericInner
    (generic_build_balance (clock (PRead idx)) Read (generic_algorithm r) rw)
    (generic_build_balance (clock (PReadWrite idx)) ReadWrite (generic_algorithm r) rw)
    (generic_build_balance (clock (PGenericDefault idx)) role (generic_algorithm r) rw) role.

(** [build_rules]: the regex rules first, then the generic ones. *)
Fixpoint build_rules_loop (clock : place → Z) (idx : nat) (rules : list ReadWriteSplittingRule)
    (eg : gmap str ReadWriteEndpoint) (rw : ReadWriteEndpoint) (role : TargetRole)
    (instances generics : list RulesMatchInner) : exec (list RulesMatchInner) :=
  match rules with
  | [] => Ret (instances ++ generics)
  | Regex r :: rules' =>
      match regex_inner_new clock idx r eg rw with
      | None => Panic
      | Some i =>
          build_rules_loop clock (S idx) rules' eg rw role (instances ++ [RegexInner i]) generics
      end
  | Generic r :: rules' =>
      build_rules_loop clock (S idx) rules' eg rw role instances
        (generics ++ [GenericInner (generic_inner_new clock idx r role rw)])
  end.

Definition build_rules clock rules eg rw role : exec (list RulesMatchInner) :=
  build_rules_loop clock 0 rules eg rw role [] [].

Definition build_default_balance (nanos : Z) (role : TargetRole) (rw : ReadWriteEndpoint)
    : BalanceType R :=
  balance_add_endpoint (build_balance nanos Random)
    (match role with Read => read rw | ReadWrite => readwrite rw end).

Definition build_rules_match (clock : place → Z) (rules : list ReadWriteSplittingRule)
    (role : TargetRole) (eg : gmap str ReadWriteEndpoint) (rw : ReadWriteEndpoint)
    : exec RulesMatch :=
  inner ← build_rules clock rules eg rw role;
  Ret (mkRulesMatch role (build_default_balance (clock PDefault) role rw)
         (build_default_balance (clock PTrans) ReadWrite rw) inner).

(** *** Matching *)

Definition regex_match (r : RegexRuleMatchInner) (input : RouteInput) : exec bool :=
  match input with
  | Statement s | Transaction s | ShardingStatement s _ | ShardingTransaction s _ =>
      Ret (existsb (λ re, regex_is_match re s) (regexs r))
  | NoInput => Ret false
  | ShardingTo _ => Panic
  end.

Definition generic_match (input : RouteInput) : exec bool :=
  match input with
  | Statement s | Transaction s =>
      Ret (one_of GENERIC_RULE_TOKEN (to_uppercase (default [] (head (split " " s)))))
  | NoInput => Ret false
  | _ => Panic
  end.

(** A mutable borrow of a balancer inside [S], with the role it serves. *)
Record borrow (S : Type) := mkBorrow {
  borrowed : BalanceType R; borrow_role : TargetRole; write_back : BalanceType R → S }.
Arguments mkBorrow {S}.
Arguments borrowed {S}.
Arguments borrow_role {S}.
Arguments write_back {S}.

Definition regex_get (r : RegexRuleMatchInner) (input : RouteInput) : exec (borrow RulesMatchInner) :=
  let key := match input with
             | ShardingStatement _ g | ShardingTransaction _ g => g
             | _ => $"GLOBAL"
             end in
  match inner_balance r !! key with
  | None => Panic
  | Some b =>
      Ret (mkBorrow b (target (inner_rule r))
             (λ b', RegexInner (mkRegexInner (inner_rule r) (regexs r)
                                  (<[key := b']> (inner_balance r)))))
  end.

Definition generic_get (g : GenericRuleMatchInner) (input : RouteInput)
    : exec (borrow RulesMatchInner) :=
  let r := mkBorrow (r_balance g) Read
    (λ b, GenericInner (mkGenericInner b (rw_balance g) (generic_default g) (default_target_role g))) in
  let rw := mkBorrow (rw_balance g) ReadWrite
    (λ b, GenericInner (mkGenericInner (r_balance g) b (generic_default g) (default_target_role g))) in
  let d := mkBorrow (generic_default g) (default_target_role g)
    (λ b, GenericInner (mkGenericInner (r_balance g) (rw_balance g) b (default_target_role g))) in
  match input with
  | Statement s =>
      Ret (match find s ($" ") with
           | None => d
           | Some i =>
               let token := trim (to_uppercase (take i s)) in
               if str_eqb token ($"SELECT") then r
               else if one_of [$"INSERT"; $"UPDATE"; $"DELETE"; $"SET"; $"START"] token then rw
               else d
           end)
  | Transaction _ => Ret rw
  | NoInput => Ret d
  | _ => Panic
  end.

Definition inner_match (r : RulesMatchInner) (input : RouteInput) : exec bool :=
  match r with RegexInner r => regex_match r input | GenericInner _ => generic_match input end.

Definition inner_get (r : RulesMatchInner) (input : RouteInput) : exec (borrow RulesMatchInner) :=
  match r with RegexInner r => regex_get r input | GenericInner g => generic_get g input end.

(** The loop over the rules; [seen] are the rules before. *)
Fixpoint get_loop (seen rules : list RulesMatchInner) (input : RouteInput)
    : exec (option (borrow (list RulesMatchInner))) :=
  match rules with
  | [] => Ret None
  | r :: rules' =>
      m ← inner_match r input;
      if m : bool then
        b ← inner_get r input;
        Ret (Some (mkBorrow (borrowed b) (borrow_role b) (λ b', seen ++ write_back b b' :: rules')))
      else get_loop (seen ++ [r]) rules' input
  end.

Definition rules_get (m : RulesMatch) (input : RouteInput) : exec (borrow RulesMatch) :=
  match input with
  | Transaction _ =>
      Ret (mkBorrow (default_trans_balance m) ReadWrite
             (λ b, mkRulesMatch (default_target m) (default_balance m) b (inner m)))
  | _ =>
      found ← get_loop [] (inner m) input;
      Ret (match found with
           | Some b =>
               mkBorrow (borrowed b) (borrow_role b) (λ b', mkRulesMatch (default_target m)
                 (default_balance m) (default_trans_balance m) (write_back b b'))
           | None =>
               mkBorrow (default_balance m) (default_target m)
                 (λ b, mkRulesMatch (default_target m) b (default_trans_balance m) (inner m))
           end)
  end.

(** ** Strategies *)

(** [b.0.next()] and the plan made of it. *)
Definition next_plan {S} (reason : str) (b : exec (borrow S)) : fueled (DispatchPlan * S) :=
  ebind (Some b) (λ b,
  ebind (balance_next (borrowed b)) (λ '(o, b'),
  Some (Ret (match o with Some e => Single e (borrow_role b) | None => Reject reason end,
             write_back b b')))).

Definition static_dispatch (m : RulesMatch) (input : RouteInput) : fueled (DispatchPlan * RulesMatch) :=
  next_plan ($"read write splitting static route produced no endpoint") (rules_get m input).

Record ReadWriteSplittingDynamic := mkDynamic {
  rx : list ReadWriteEndpoint; dyn_rules : list ReadWriteSplittingRule;
  node_group_config : option NodeGroup; rules_match : RulesMatch }.

(** The rebuild on the last update of the channel. *)
Definition rebuild (clock : place → Z) (d : ReadWriteSplittingDynamic) (rw : ReadWriteEndpoint)
    : exec RulesMatch :=
  let role := default_target (rules_match d) in
  match get_endpoint_group (node_group_config d) rw with
  | Err _ => Panic
  | Ok eg => build_rules_match clock (dyn_rules d) role eg rw
  end.

Definition dynamic_dispatch (clock : place → Z) (d : ReadWriteSplittingDynamic) (input : RouteInput)
    : fueled (DispatchPlan * ReadWriteSplittingDynamic) :=
  ebind (Some (match last (rx d) with
               | Some rw => rebuild clock d rw
               | None => Ret (rules_match d)
               end)) (λ m,
  ebind (next_plan ($"read write splitting dynamic route produced no endpoint") (rules_get m input))
    (λ '(p, m'), Some (Ret (p, mkDynamic [] (dyn_rules d) (node_group_config d) m')))).

Inductive ReadWriteSplittingRouteStrategy :=
| Static (m : RulesMatch)
| Dynamic (d : ReadWriteSplittingDynamic)
| NoSplitting.

Inductive RouteStrategy :=
| ReadWriteSplitting (s : ReadWriteSplittingRouteStrategy)
| ShardingReadWriteSplitting (s : ReadWriteSplittingRouteStrategy)
| Sharding (b : BalanceType R)
| Simple (b : BalanceType R)
| NoStrategy.

Definition readwritesplitting_dispatch (clock : place → Z) (s : ReadWriteSplittingRouteStrategy)
    (input : RouteInput) : fueled (DispatchPlan * ReadWriteSplittingRouteStrategy) :=
  match s with
  | Static m => ebind (static_dispatch m input) (λ '(p, m'), Some (Ret (p, Static m')))
  | Dynamic d => ebind (dynamic_dispatch clock d input) (λ '(p, d'), Some (Ret (p, Dynamic d')))
  | NoSplitting => Some Panic
  end.

Definition dispatch (clock : place → Z) (s : RouteStrategy) (input : RouteInput)
    : fueled (DispatchPlan * RouteStrategy) :=
  match s with
  | ReadWriteSplitting s =>
      ebind (readwritesplitting_dispatch clock s input)
        (λ '(p, s'), Some (Ret (p, ReadWriteSplitting s')))
  | ShardingReadWriteSplitting s =>
      ebind (readwritesplitting_dispatch clock s input)
        (λ '(p, s'), Some (Ret (p, ShardingReadWriteSplitting s')))
  | Sharding b =>
      match input with
      | ShardingTo e => Some (Ret (Single e ReadWrite, Sharding b))
      | _ => ebind (balance_next b)
               (λ '(o, b'), Some (Ret (plan_from_endpoint_role o ReadWrite, Sharding b')))
      end
  | Simple b =>
      ebind (balance_next b)
        (λ '(o, b'), Some (Ret (plan_from_endpoint_role o ReadWrite, Simple b')))
  | NoStrategy => Some Panic
  end.

(** *** Construction *)

Definition splitting_new (clock : place → Z) (c : ReadWriteSplittingConfig) (g : option NodeGroup)
    (eg : gmap str ReadWriteEndpoint) (rw : ReadWriteEndpoint)
    : exec ReadWriteSplittingRouteStrategy :=
  match statics c, dynamic c with
  | Some s, _ =>
      m ← build_rules_match clock (cfg_rules s) (cfg_default_target s) eg rw; Ret (Static m)
  | None, Some d =>
      m ← build_rules_match clock (cfg_rules d) (cfg_default_target d) eg rw;
      Ret (Dynamic (mkDynamic [] (cfg_rules d) g m))
  | None, None => Ret NoSplitting
  end.

Definition strategy_new (clock : place → Z) (c : ReadWriteSplittingConfig) (g : option NodeGroup)
    (rw : ReadWriteEndpoint) (has_sharding : bool) : exec (result StragegyError RouteStrategy) :=
  match get_endpoint_group g rw with
  | Err e => Ret (Err e)
  | Ok eg =>
      s ← splitting_new clock c g eg rw;
      Ret (Ok (if has_sharding then ShardingReadWriteSplitting s else ReadWriteSplitting s))
  end.

(** [route] of the session machine: the endpoint of the plan, or an error. *)
Definition route (clock : place → Z) (typ : RouteInputTyp) (raw_sql : str) (s : RouteStrategy)
    : fueled (result str Endpoint * RouteStrategy) :=
  let input := match typ with
               | TypStatement => Statement raw_sql
               | TypTransaction => Transaction raw_sql
               | TypNone => NoInput
               end in
  ebind (dispatch clock s input) (λ '(p, s'),
  Some (Ret (match plan_endpoint p with
             | Some e => Ok e
             | None => Err ($"route strategy produced no endpoint")
             end, s'))).
End Rules.
Arguments borrow R S : clear implicits.
Arguments mkBorrow {R S}.
Arguments borrowed {R S}.
Arguments borrow_role {R S}.
Arguments write_back {R S}.

(** ** Roles *)

(** The endpoints that may serve a role: the primaries, or for reads the
    replicas if there are any. *)
Definition pool (role : TargetRole) (rw : ReadWriteEndpoint) : list Endpoint :=
  match role with
  | Read => if is_empty (read rw) then readwrite rw else read rw
  | ReadWrite => readwrite rw
  end.

Definition plan_ok (rw : ReadWriteEndpoint) (input : RouteInput) (p : DispatchPlan) : Prop :=
  match p with
  | Single e role => e ∈ pool role rw ∧ ∀ sql, input = Transaction sql → role = ReadWrite
  | Reject _ => True
  end.

(** Rules without node groups whose patterns compile. *)
Definition plain `{RegexLib} (r : ReadWriteSplittingRule) : bool :=
  match r with
  | Regex r => is_empty (node_group_name r) && forallb (λ s, negb (is_none (regex_new s))) (regex r)
  | Generic _ => true
  end.

Definition unsharded (input : RouteInput) : bool :=
  match input with Statement _ | Transaction _ | NoInput => true | _ => false end.

Section RouteFacts.
Context {R : Type} `{Rng R} `{RegexLib}.
Implicit Types (b : BalanceType R) (rw : ReadWriteEndpoint).

(** A balancer that serves a role. *)
Definition serving rw (role : TargetRole) b : Prop :=
  bal_ok b ∧ ∀ e, e ∈ get_all b → e ∈ pool role rw.

Lemma balance_add_endpoint_serving rw role b l :
  serving rw role b → (∀ e, e ∈ l → e ∈ pool role rw) → serving rw role (balance_add_endpoint b l).
Proof.
  revert b. induction l as [|x l IH]; intros b [Hok Hin] Hl; [done|].
  unfold balance_add_endpoint. simpl. apply IH; [|set_solver].
  destruct (balance_add_ok x b Hok) as [Hok' Hin']. split; [done|].
  intros e [He| ->]%Hin'; [auto|]. apply Hl. left.
Qed.

Lemma fresh_serving rw role nanos a l :
  (∀ e, e ∈ l → e ∈ pool role rw) →
  serving rw role (balance_add_endpoint (build_balance nanos a) l).
Proof.
  intros Hl. apply balance_add_endpoint_serving; [|done].
  destruct (build_balance_ok nanos a) as [Hok E]. split; [exact Hok|]. rewrite E.
  intros e He. by apply not_elem_of_nil in He.
Qed.

Lemma build_default_serving rw role nanos : serving rw role (build_default_balance nanos role rw).
Proof.
  apply fresh_serving. intros e. unfold pool. destruct role; [|done].
  destruct (is_empty (read rw)) eqn:E; [|done]. destruct (read rw); [|done].
  intros He. by apply not_elem_of_nil in He.
Qed.

Lemma build_inner_serving rw role nanos a :
  serving rw role (build_balance_inner (build_balance nanos a) role rw).
Proof. destruct role; by apply fresh_serving. Qed.

Lemma generic_build_serving rw role nanos a :
  serving rw role (generic_build_balance nanos role a rw).
Proof.
  destruct role; cbn [generic_build_balance]; [|by apply fresh_serving].
  destruct (is_empty (read rw)) eqn:E.
  - apply balance_add_endpoint_serving; [apply fresh_serving|]; intros e; cbn [pool]; rewrite E; [done|].
    destruct (read rw); [|done]. intros He. by apply not_elem_of_nil in He.
  - apply fresh_serving. intros e. cbn [pool]. by rewrite E.
Qed.

Definition inner_ok rw (r : RulesMatchInner (R := R)) : Prop :=
  match r with
  | RegexInner i => ∃ b, inner_balance i !! ($"GLOBAL") = Some b ∧
      serving rw (target (inner_rule i)) b
  | GenericInner g => serving rw Read (r_balance g) ∧ serving rw ReadWrite (rw_balance g) ∧
      serving rw (default_target_role g) (generic_default g)
  end.

Record rules_ok rw (m : RulesMatch (R := R)) : Prop := {
  ok_inner : Forall (inner_ok rw) (inner m);
  ok_default : serving rw (default_target m) (default_balance m);
  ok_trans : serving rw ReadWrite (default_trans_balance m) }.

Lemma mapM_some (rs : list str) :
  forallb (λ s, negb (is_none (regex_new s))) rs = true → ∃ l, mapM regex_new rs = Some l.
Proof.
  induction rs as [|s rs IH]; simpl; [by exists []|]. intros [Hs Hrs]%andb_true_iff.
  destruct (regex_new s) as [re|]; [|done]. destruct (IH Hrs) as [l ->]. by exists (re :: l).
Qed.

Lemma build_rules_ok clock idx rules rw role insts gs :
  forallb plain rules = true → Forall (inner_ok rw) insts → Forall (inner_ok rw) gs →
  ∃ l, build_rules_loop clock idx rules ∅ rw role insts gs = Ret l ∧ Forall (inner_ok rw) l.
Proof.
  revert idx insts gs. induction rules as [|[r|r] rules IH]; intros idx insts gs Hp Hi Hg; simpl in *.
  - eexists. split; [done|]. by apply Forall_app.
  - apply andb_true_iff in Hp as [[Hr1 Hr2]%andb_true_iff Hp].
    unfold regex_inner_new, regex_build_balance. rewrite Hr1, orb_true_r.
    destruct (mapM_some _ Hr2) as [res ->]. cbn [mbind option_bind]. apply IH; [done| |done].
    apply Forall_app. split; [done|]. constructor; [|constructor]. simpl. eexists.
    split; [apply lookup_singleton_eq|apply build_inner_serving].
  - apply IH; [done|done|]. apply Forall_app. split; [done|]. constructor; [|constructor].
    exact (conj (generic_build_serving _ _ _ _)
      (conj (generic_build_serving _ _ _ _) (generic_build_serving _ _ _ _))).
Qed.

Lemma build_rules_match_ok clock rules role rw :
  forallb plain rules = true →
  ∃ m, build_rules_match clock rules role ∅ rw = Ret m ∧ rules_ok rw m ∧ default_target m = role.
Proof.
  intros Hp. destruct (build_rules_ok clock 0 rules rw role [] []) as (l & E & Hl); try done.
  unfold build_rules_match, build_rules. rewrite E. cbn [mbind exec_bind]. eexists. split; [done|].
  split; [|done]. split; [done| |]; apply build_default_serving.
Qed.

(** *** Borrowing *)

(** A borrow out of [S] of a balancer for a role, which can be given back. *)
Definition lent {S} rw (P : S → Prop) (b : borrow R S) : Prop :=
  serving rw (borrow_role b) (borrowed b) ∧
  ∀ b', serving rw (borrow_role b) b' → P (write_back b b').

Lemma inner_get_ok rw r input :
  inner_ok rw r → unsharded input = true → ∃ b : borrow R _, inner_get r input = Ret b ∧ lent rw (inner_ok rw) b.
Proof.
  intros Hr Hu. destruct r as [i|g].
  - destruct Hr as (b & Hb & Hs).
    assert (inner_get (RegexInner i) input =
      Ret (mkBorrow b (target (inner_rule i)) (λ b', RegexInner (mkRegexInner (inner_rule i) (regexs i)
             (<[ $"GLOBAL" := b']> (inner_balance i)))))) as ->.
    { simpl. unfold regex_get. destruct input; try done; by rewrite Hb. }
    eexists. split; [done|]. split; [exact Hs|]. intros b' Hb'. eexists.
    split; [apply lookup_insert_eq|exact Hb'].
  - destruct Hr as (H1 & H2 & H3). destruct input as [s|s| | | |]; try done; simpl; eexists;
      (split; [done|]); repeat case_match; (split; [done|]); intros b' Hb'; simpl; auto.
Qed.

Lemma inner_match_total r input : unsharded input = true → ∃ m, inner_match (R := R) r input = Ret m.
Proof. intros Hu. destruct r, input; try done; by eexists. Qed.

Lemma get_loop_ok rw seen rules input :
  Forall (inner_ok rw) seen → Forall (inner_ok rw) rules → unsharded input = true →
  ∃ o, get_loop seen rules input = Ret o ∧
    ∀ b : borrow R _, o = Some b → lent rw (Forall (inner_ok rw)) b.
Proof.
  intros Hs Hr Hu. revert seen Hs. induction Hr as [|r rules Hr Hrs IH]; intros seen Hs.
  { by eexists. }
  cbn [get_loop]. destruct (inner_match_total r input Hu) as [m ->]. cbn [mbind exec_bind].
  destruct m.
  - destruct (inner_get_ok rw r input Hr Hu) as (b & -> & [Hb1 Hb2]). cbn [mbind exec_bind].
    eexists. split; [done|]. intros b0 [= <-]. split; [exact Hb1|]. intros b' Hb'. simpl.
    apply Forall_app. split; [done|]. constructor; [by apply Hb2|done].
  - apply IH. apply Forall_app. by split; [|constructor].
Qed.

Lemma rules_get_ok rw m input :
  rules_ok rw m → unsharded input = true →
  ∃ b : borrow R _, rules_get m input = Ret b ∧
    lent rw (λ m', rules_ok rw m' ∧ default_target m' = default_target m) b ∧
    ∀ sql, input = Transaction sql → borrow_role b = ReadWrite.
Proof.
  intros [Hi Hd Ht] Hu.
  destruct (get_loop_ok rw [] (inner m) input (Forall_nil_2 _) Hi Hu) as (o & Ho & Hl).
  destruct input as [s|s| | | |]; try done; cbn [rules_get];
    try (rewrite Ho; cbn [mbind exec_bind]; eexists; split; [done|]; split; [|done];
         destruct o as [b|]; [destruct (Hl b eq_refl) as [Hb1 Hb2]|]; (split; [done|]);
         intros b' Hb'; (split; [|done]); split; simpl; auto; by apply Hb2).
  eexists. split; [done|]. split; [|done]. split; [done|]. intros b' Hb'. split; [|done]. by split.
Qed.

Lemma next_plan_ok rw m input reason :
  rules_ok rw m → unsharded input = true →
  ∃ p m', next_plan reason (rules_get m input) = Some (Ret (p, m')) ∧ plan_ok rw input p ∧
    rules_ok rw m' ∧ default_target m' = default_target m.
Proof.
  intros Hm Hu. destruct (rules_get_ok rw m input Hm Hu) as (b & -> & [[Hb1 Hb2] Hback] & Ht).
  destruct (balance_next_total _ Hb1) as (o & b' & Hn & Hok & Hall & Ho).
  unfold next_plan. cbn [ebind]. rewrite Hn. cbn [ebind]. eexists _, _. split; [done|].
  split; [|apply Hback; split; [done|]; by rewrite Hall].
  destruct o as [e|]; [|done]. split; [|exact Ht]. apply Hb2. by apply Ho.
Qed.

(** *** Runs *)

(** What happens to a strategy: the monitors report new endpoints, or a command
    is routed. *)
Inductive route_event :=
| Update (rw : ReadWriteEndpoint)
| Ask (clock : place → Z) (input : RouteInput).

(** The routed commands with their plans and the endpoints known at that time (a
    static strategy gets no reports). *)
Fixpoint routed (evs : list route_event) (s : ReadWriteSplittingRouteStrategy (R := R))
    (cur : ReadWriteEndpoint) : fueled (list (ReadWriteEndpoint * RouteInput * DispatchPlan)) :=
  match evs with
  | [] => Some (Ret [])
  | Update rw :: evs' =>
      match s with
      | Dynamic d =>
          routed evs' (Dynamic (mkDynamic (rx d ++ [rw]) (dyn_rules d) (node_group_config d)
            (rules_match d))) rw
      | _ => routed evs' s cur
      end
  | Ask clock input :: evs' =>
      ebind (readwritesplitting_dispatch clock s input) (λ '(p, s'),
      ebind (routed evs' s' cur) (λ l, Some (Ret ((cur, input, p) :: l))))
  end.

Definition asked (evs : list route_event) : list RouteInput :=
  omap (λ ev, match ev with Ask _ i => Some i | Update _ => None end) evs.

Definition strategy_ok (cur : ReadWriteEndpoint) (s : ReadWriteSplittingRouteStrategy (R := R)) : Prop :=
  match s with
  | Static m => rules_ok cur m
  | Dynamic d => forallb plain (dyn_rules d) = true ∧ node_group_config d = None ∧
      match last (rx d) with Some rw => rw = cur | None => rules_ok cur (rules_match d) end
  | NoSplitting => False
  end.

Lemma dispatch_ok clock cur s input :
  strategy_ok cur s → unsharded input = true →
  ∃ p s', readwritesplitting_dispatch clock s input = Some (Ret (p, s')) ∧ plan_ok cur input p ∧
    strategy_ok cur s'.
Proof.
  intros Hs Hu. destruct s as [m|d|]; [| |done].
  - unfold readwritesplitting_dispatch, static_dispatch.
    destruct (next_plan_ok cur m input ($"read write splitting static route produced no endpoint") Hs Hu)
      as (p & m' & -> & Hp & Hm' & _). cbn [ebind]. by eexists _, _.
  - destruct Hs as (Hp & Hg & Hl). cbn [readwritesplitting_dispatch]. unfold dynamic_dispatch.
    assert (∃ m, match last (rx d) with Some rw => rebuild clock d rw | None => Ret (rules_match d) end
      = Ret m ∧ rules_ok cur m) as (m & -> & Hm).
    { destruct (last (rx d)) as [rw|]; [subst rw|by eexists]. unfold rebuild. rewrite Hg. simpl.
      destruct (build_rules_match_ok clock (dyn_rules d) (default_target (rules_match d)) cur Hp)
        as (m & ? & ? & _). by exists m. }
    cbn [ebind].
    destruct (next_plan_ok cur m input ($"read write splitting dynamic route produced no endpoint") Hm Hu)
      as (p & m' & -> & Hpl & Hm' & _). cbn [ebind]. eexists _, _. split; [done|]. by split.
Qed.

Lemma routed_ok evs s cur :
  strategy_ok cur s → forallb unsharded (asked evs) = true →
  ∃ l, routed evs s cur = Some (Ret l) ∧ map (λ x, x.1.2) l = asked evs ∧
    Forall (λ x, plan_ok x.1.1 x.1.2 x.2) l.
Proof.
  revert s cur. induction evs as [|[rw|clock input] evs IH]; intros s cur Hs Hu.
  - by exists [].
  - cbn [routed]. destruct s as [m|d|]; [by apply IH| |done]. apply IH; [|done].
    destruct Hs as (? & ? & _). split; [done|]. split; [done|]. simpl. by rewrite last_snoc.
  - cbn [asked omap list_omap] in Hu. cbn [forallb] in Hu. apply andb_true_iff in Hu as [Hu1 Hu2].
    cbn [routed]. destruct (dispatch_ok clock cur s input Hs Hu1) as (p & s' & -> & Hp & Hs').
    cbn [ebind]. destruct (IH s' cur Hs' Hu2) as (l & -> & Hl1 & Hl2). cbn [ebind].
    eexists. split; [done|]. split; [simpl; by f_equal|]. by constructor.
Qed.

(** Read/write splitting keeps roles apart: for rules without node groups whose
    patterns compile, every command is routed without a panic, to an endpoint of
    the role it is given among the endpoints known at that time (the primaries,
    or the replicas for reads if there are any), and a command of a transaction
    always to a primary; this holds for static and dynamic strategies, over any
    sequence of commands and of reports of the monitors. *)
Theorem route_in_role clock rules role rw evs dynamic :
  forallb plain rules = true → forallb unsharded (asked evs) = true →
  ∃ m l, build_rules_match clock rules role ∅ rw = Ret m ∧
    routed evs (if dynamic : bool then Dynamic (mkDynamic [] rules None m) else Static m) rw =
      Some (Ret l) ∧
    map (λ x, x.1.2) l = asked evs ∧ Forall (λ x, plan_ok x.1.1 x.1.2 x.2) l.
Proof.
  intros Hp Hu. destruct (build_rules_match_ok clock rules role rw Hp) as (m & Hm & Hok & _).
  destruct (routed_ok evs (if dynamic then Dynamic (mkDynamic [] rules None m) else Static m) rw)
    as (l & Hl & H1 & H2); [by destruct dynamic|done|]. by exists m, l.
Qed.

(** *** Generic rules *)

Definition is_generic (r : ReadWriteSplittingRule) : bool :=
  match r with Generic _ => true | Regex _ => false end.

Lemma build_generic clock idx rules eg rw role gs :
  forallb is_generic rules = true →
  ∃ l, build_rules_loop (R := R) clock idx rules eg rw role [] gs = Ret (gs ++ l) ∧
    length l = length rules ∧ Forall (λ i, ∃ g, i = GenericInner g) l.
Proof.
  revert idx gs. induction rules as [|[r|r] rules IH]; intros idx gs Hg; simpl in *; [|done|].
  - exists []. by rewrite app_nil_r.
  - edestruct IH as (l & -> & Hl & Hf); [done|]. rewrite <-app_assoc. eexists. split; [done|].
    split; [simpl; by rewrite Hl|]. constructor; [by eexists|done].
Qed.

(** The role a keyword asks for. *)
Definition keyword_role (kw : str) : TargetRole :=
  if str_eqb (to_ascii_uppercase kw) ($"SELECT") then Read else ReadWrite.

Lemma keyword_solid kw :
  to_ascii_uppercase kw ∈ GENERIC_RULE_TOKEN →
  forallb solid (to_ascii_uppercase kw) = true ∧ ascii_only kw ∧ (" "%char ∉ kw) ∧ kw ≠ [].
Proof.
  intros Hk. assert (forallb is_ascii_uppercase (to_ascii_uppercase kw) = true ∧ kw ≠ []) as [Hu Hne].
  { assert (forallb (λ k, forallb is_ascii_uppercase k && negb (is_empty k)) GENERIC_RULE_TOKEN = true)
      as Hall by done. rewrite forallb_elem in Hall. apply Hall, andb_true_iff in Hk as [Hu Hne].
    split; [done|]. by destruct kw. }
  clear Hk. assert (∀ c, c ∈ kw → is_ascii_uppercase (to_upper c) = true) as Hc.
  { intros c Hc. rewrite forallb_elem in Hu. apply Hu. unfold to_ascii_uppercase.
    apply list_elem_of_In, in_map. by apply list_elem_of_In. }
  split; [|split; [|split; [|done]]].
  - apply forallb_elem. intros d Hd. rewrite forallb_elem in Hu. specialize (Hu d Hd).
    revert Hu. clear. byte_cases d.
  - apply Forall_forall. intros c Hin. specialize (Hc c Hin). revert Hc. clear. byte_cases c.
  - intros Hin. by apply Hc in Hin.
Qed.

Lemma to_uppercase_ascii s : ascii_only s → to_uppercase s = to_ascii_uppercase s.
Proof.
  intros Hs. unfold to_uppercase. rewrite chars_ascii by done. clear Hs.
  induction s as [|c s IH]; [done|]. cbn [map concat]. rewrite IH.
  assert (char_to_uppercase [c] = [to_upper c]) as -> by byte_cases c. done.
Qed.

Lemma generic_first_rule g rules kw rest :
  to_ascii_uppercase kw ∈ GENERIC_RULE_TOKEN →
  ∃ b : borrow R _, get_loop (R := R) [] (GenericInner g :: rules) (Statement (kw ++ " "%char :: rest)) = Ret (Some b) ∧
    borrow_role b = keyword_role kw.
Proof.
  intros Hk. pose proof (keyword_solid kw Hk) as (Hs & Ha & Hsp & Hne).
  cbn [get_loop inner_match generic_match].
  assert (default [] (head (split " " (kw ++ " "%char :: rest))) = kw) as ->
    by (rewrite split_app by done; reflexivity).
  rewrite to_uppercase_ascii by done.
  assert (one_of GENERIC_RULE_TOKEN (to_ascii_uppercase kw) = true) as -> by by apply one_of_elem.
  cbn [mbind exec_bind inner_get generic_get].
  assert (find (kw ++ " "%char :: rest) ($" ") = Some (length kw)) as ->
    by (apply (find_skip kw " "%char [] rest); exact Hsp).
  rewrite take_app_length, to_uppercase_ascii, trim_all_solid by done. unfold keyword_role.
  eexists. split; [done|]. cbn [borrow_role].
  destruct (str_eqb (to_ascii_uppercase kw) ($"SELECT")) eqn:E; [done|].
  assert (one_of [$"INSERT"; $"UPDATE"; $"DELETE"; $"SET"; $"START"] (to_ascii_uppercase kw) = true) as ->;
    [|done].
  apply one_of_elem. apply str_eqb_neq in E. unfold GENERIC_RULE_TOKEN in Hk. set_solver.
Qed.

(** Generic rules send reads to the replicas and writes to the primaries: with
    generic rules only, a statement that starts with one of the six keywords (in
    any letter case) and a space is routed to a replica (a primary if there is
    none) for [SELECT] and to a primary for [INSERT], [UPDATE], [DELETE], [SET]
    and [START]; without such an endpoint it is rejected. *)
Theorem generic_routes_by_keyword clock rules role rw kw rest :
  forallb is_generic rules = true → rules ≠ [] → to_ascii_uppercase kw ∈ GENERIC_RULE_TOKEN →
  ∃ m p m', build_rules_match (R := R) clock rules role ∅ rw = Ret m ∧
    static_dispatch m (Statement (kw ++ " "%char :: rest)) = Some (Ret (p, m')) ∧
    match p with
    | Single e r => r = keyword_role kw ∧ e ∈ pool (keyword_role kw) rw
    | Reject _ => True
    end.
Proof.
  intros Hg Hne Hk.
  assert (forallb plain rules = true) as Hp.
  { apply forallb_elem. intros r Hr. rewrite forallb_elem in Hg. specialize (Hg r Hr). by destruct r. }
  destruct (build_rules_match_ok clock rules role rw Hp) as (m & Hm & Hok & _).
  destruct (build_generic clock 0 rules ∅ rw role [] Hg) as (l & Hl & Hlen & Hf).
  assert (inner m = l) as Hin.
  { unfold build_rules_match, build_rules in Hm. rewrite Hl in Hm. cbn [mbind exec_bind] in Hm. by simplify_eq. }
  destruct Hf as [|i l [g ->] _]; [by destruct rules|].
  destruct (generic_first_rule g l kw rest Hk) as (b & Hget & Hrole).
  destruct (next_plan_ok rw m (Statement (kw ++ " "%char :: rest))
    ($"read write splitting static route produced no endpoint") Hok eq_refl)
    as (p & m' & Hnext & Hplan & _ & _).
  exists m, p, m'. split; [done|]. split; [exact Hnext|].
  destruct p as [e r|]; [|done]. destruct Hplan as [He _].
  assert (r = keyword_role kw) as ->; [|done]. revert Hnext. unfold next_plan. cbn [rules_get].
  rewrite Hin, Hget. cbn [mbind exec_bind ebind borrowed borrow_role].
  destruct (balance_next (borrowed b)) as [[[[e'|] b']|]|]; cbn [ebind]; intros E; simplify_eq. exact Hrole.
Qed.
End RouteFacts.

(** ** Concrete runs *)

(** Patterns that are a literal prefix. *)
#[export] Instance prefix_regex : RegexLib :=
  { Re := str; regex_new := λ s, if is_empty s then None else Some s;
    regex_is_match := λ re s, starts_with s re }.

Definition primary : Endpoint := ep "primary" 1.
Definition replica : Endpoint := ep "replica" 1.
Definition toy_rw : ReadWriteEndpoint := mkRw [replica] [primary].
Definition selects : ReadWriteSplittingRule :=
  Regex (mkRegexRule ($"r") ($"regex") [$"select"] Read RoundRobin []).
Definition generic : ReadWriteSplittingRule :=
  Generic (mkGenericRule ($"g") ($"generic") RoundRobin []).
Definition no_clock (p : place) : Z := 0.

Definition toy_events : list route_event :=
  [Ask no_clock (Statement ($"select 1")); Update (mkRw [] [replica]);
   Ask no_clock (Transaction ($"begin")); Ask no_clock (Statement ($"UPDATE t SET a = 1"))].

Lemma route_in_role_witness :
  ∃ m l, build_rules_match (R := Z) no_clock [selects; generic] Read ∅ toy_rw = Ret m ∧
    routed toy_events (Dynamic (mkDynamic [] [selects; generic] None m)) toy_rw = Some (Ret l) ∧
    Forall (λ x, plan_ok x.1.1 x.1.2 x.2) l.
Proof.
  destruct (route_in_role (R := Z) no_clock [selects; generic] Read toy_rw toy_events true)
    as (m & l & Hm & Hl & _ & Hf).
  - vm_compute. reflexivity.
  - vm_compute. reflexivity.
  - exists m, l. split; [exact Hm|]. split; [exact Hl|exact Hf].
Defined.

Lemma generic_routes_by_keyword_witness :
  ∃ m p m', build_rules_match (R := Z) no_clock [generic] Read ∅ toy_rw = Ret m ∧
    static_dispatch m (Statement ($"Insert" ++ " "%char :: $"into t values (1)")) = Some (Ret (p, m')) ∧
    match p with
    | Single e r => r = ReadWrite ∧ e ∈ [primary]
    | Reject _ => True
    end.
Proof.
  apply (generic_routes_by_keyword (R := Z) no_clock [generic] Read toy_rw ($"Insert")
    ($"into t values (1)")).
  - vm_compute. reflexivity.
  - discriminate.
  - apply one_of_elem. vm_compute. reflexivity.
Defined.

(** What the router gets wrong: a write whose keyword is followed by a line break
    goes to the default role, here a replica; a command for a shard panics on a
    generic rule; after a failover the rebuild panics, because the node group
    still names the old primary. *)
Theorem route_surprises :
  (∃ m m', build_rules_match (R := Z) no_clock [generic] Read ∅ toy_rw = Ret m ∧
     static_dispatch m (Statement ($"DELETE" ++ "010"%char :: $"FROM t")) =
       Some (Ret (Single replica Read, m')) ∧
     static_dispatch m (ShardingStatement ($"DELETE FROM t") ($"g")) = Some Panic) ∧
  (∃ m, build_rules_match (R := Z) no_clock [generic] Read ∅ toy_rw = Ret m ∧
     dynamic_dispatch no_clock
       (mkDynamic [mkRw [replica] [replica]] [generic]
          (Some (mkNodeGroup [mkMember ($"g") ($"primary") [$"replica"]])) m)
       (Statement ($"SELECT 1")) = Some Panic).
Proof.
  split.
  - eexists _, _. split; [vm_compute; reflexivity|]. split; vm_compute; reflexivity.
  - eexists. split; vm_compute; reflexivity.
Qed.

End Route.
