(* ===== verification/Discovery.v ===== *)
(** * Discovery: endpoints from monitor responses
      ([proxy/strategy/src/discovery/monitor_reconcile.rs])

    The reconcile loop of master high availability: from the latest responses of
    the connect, ping, read-only and lag monitors it computes which endpoint is the
    primary and which replicas may serve reads, and sends the result to the router
    when it changed.  The monitors themselves are I/O; a [HashMap] they fill is
    the list of its entries in iteration order (any order).  [Vec::remove] out of
    range and [unwrap()] on nothing are [Panic]. *)

From S2P Require Import Prelude RustStr LoadBalance Route.
Import LoadBalance Route.

Module Discovery.

Record MasterHighAvailability := mkMha {
  mha_user : str; mha_password : str; monitor_period : Z; connect_period : Z; connect_timeout : Z;
  connect_failure_threshold : Z; ping_period : Z; ping_timeout : Z; ping_failure_threshold : Z;
  replication_lag_period : Z; replication_lag_timeout : Z; replication_lag_failure_threshold : Z;
  max_replication_lag : Z; read_only_period : Z; read_only_timeout : Z;
  read_only_failure_threshold : Z; read_only_enabled : bool; replication_lag_enabled : bool }.

Inductive ConnectStatus := Connected | Disconnected.
Inductive PingStatus := PingOk | PingNotOk.
Inductive NodeRole := Master | Slave.

Record ConnectMonitorResponse := mkConnect {
  connect_read : list (str * ConnectStatus); connect_readwrite : list (str * ConnectStatus) }.
Record PingMonitorResponse := mkPing {
  ping_read : list (str * PingStatus); ping_readwrite : list (str * PingStatus) }.
Record ReadOnlyMonitorResponse := mkReadOnly { roles : list (str * NodeRole) }.
Record ReplicationLagResponseInner := mkLag { lag : Z; is_latency : bool }.
Record ReplicationLagMonitorResponse := mkLagResponse {
  latency : list (str * ReplicationLagResponseInner) }.

Inductive MonitorResponse :=
| ConnectResponse (r : ConnectMonitorResponse)
| PingResponse (r : PingMonitorResponse)
| ReadOnlyResponse (r : ReadOnlyMonitorResponse)
| LagResponse (r : ReplicationLagMonitorResponse).

(** The four [Option]s the loop keeps between rounds. *)
Record Responses := mkResponses {
  connect_response : option ConnectMonitorResponse;
  ping_response : option PingMonitorResponse;
  read_only_response : option ReadOnlyMonitorResponse;
  lag_response : option ReplicationLagMonitorResponse }.

Definition no_responses : Responses := mkResponses None None None None.

(** [HashMap::get]. *)
Definition assoc {A} (k : str) (l : list (str * A)) : option A :=
  snd <$> List.find (λ kv, str_eqb kv.1 k) l.

(** [for x in l { body }] over a state, stopping at a panic. *)
Fixpoint for_each {A S} (l : list A) (body : A → S → exec S) (s : S) : exec S :=
  match l with
  | [] => Ret s
  | x :: l' => s' ← body x s; for_each l' body s'
  end.

(** [curr.read.remove(rw.read.iter().position(|r| r.addr.eq(a)).unwrap())]: the
    position in the configured list is the index in the current one. *)
Definition remove_read (rw : ReadWriteEndpoint) (a : str) (curr : ReadWriteEndpoint)
    : exec ReadWriteEndpoint :=
  match position (λ r, str_eqb (addr r) a) (read rw) with
  | None => Panic
  | Some i =>
      if (i <? length (read curr))%nat
      then Ret (mkRw (take i (read curr) ++ drop (S i) (read curr)) (readwrite curr))
      else Panic
  end.

Definition change_slave_to_master_by_read_only (mha : MasterHighAvailability)
    (ro : option ReadOnlyMonitorResponse) (curr : ReadWriteEndpoint) : exec ReadWriteEndpoint :=
  for_each (read curr) (λ e curr,
    if read_only_enabled mha then
      match ro with
      | None => Ret curr
      | Some ro =>
          match assoc (addr e) (roles ro) with
          | None => Panic
          | Some Master => Ret (mkRw (read curr) [e])
          | Some Slave => Ret curr
          end
      end
    else Ret curr) curr.

Definition change_read_write_if_necessary (mha : MasterHighAvailability) (rs : Responses)
    (curr : ReadWriteEndpoint) : exec ReadWriteEndpoint :=
  match connect_response rs with
  | None => Panic
  | Some c =>
      for_each (connect_readwrite c) (λ '(_, st) curr,
        match st with
        | Connected =>
            match ping_response rs with
            | None => Panic
            | Some p =>
                for_each (ping_readwrite p) (λ '(_, ps) curr,
                  match ps with
                  | PingOk => Ret curr
                  | PingNotOk =>
                      if is_empty (read curr) then Ret curr
                      else change_slave_to_master_by_read_only mha (read_only_response rs) curr
                  end) curr
            end
        | Disconnected => change_slave_to_master_by_read_only mha (read_only_response rs) curr
        end) curr
  end.

Definition change_read_by_lag (mha : MasterHighAvailability) (rw : ReadWriteEndpoint)
    (lag : option ReplicationLagMonitorResponse) (curr : ReadWriteEndpoint)
    : exec ReadWriteEndpoint :=
  if replication_lag_enabled mha then
    match lag with
    | None => Ret curr
    | Some r =>
        for_each (latency r) (λ '(a, st) curr,
          if negb (is_latency st) then
            if existsb (λ e, str_eqb (addr e) a) (read curr) then Ret curr
            else Ret (mkRw (read curr ++ read curr) (readwrite curr))
          else remove_read rw a curr) curr
    end
  else Ret curr.

Definition change_read_if_necessary (mha : MasterHighAvailability) (rw : ReadWriteEndpoint)
    (rs : Responses) (curr : ReadWriteEndpoint) : exec ReadWriteEndpoint :=
  match connect_response rs with
  | None => Panic
  | Some c =>
      for_each (connect_read c) (λ '(a, st) curr,
        match st with
        | Connected =>
            match ping_response rs with
            | None => Ret curr
            | Some p =>
                for_each (ping_read p) (λ '(pa, ps) curr,
                  match ps with
                  | PingOk => change_read_by_lag mha rw (lag_response rs) curr
                  | PingNotOk => remove_read rw pa curr
                  end) curr
            end
        | Disconnected => remove_read rw a curr
        end) curr
  end.

Definition receive (rs : Responses) (r : MonitorResponse) : Responses :=
  match r with
  | ConnectResponse c => mkResponses (Some c) (ping_response rs) (read_only_response rs) (lag_response rs)
  | PingResponse p => mkResponses (connect_response rs) (Some p) (read_only_response rs) (lag_response rs)
  | ReadOnlyResponse o => mkResponses (connect_response rs) (ping_response rs) (Some o) (lag_response rs)
  | LagResponse l => mkResponses (connect_response rs) (ping_response rs) (read_only_response rs) (Some l)
  end.

(** One round of the loop of [report]: [monitors_len] responses come in, and the
    new endpoints are sent when they differ from the previous round's. *)
Definition report_round (mha : MasterHighAvailability) (rw : ReadWriteEndpoint)
    (received : list MonitorResponse) (st : Responses * ReadWriteEndpoint)
    : exec (option ReadWriteEndpoint * (Responses * ReadWriteEndpoint)) :=
  let '(rs, pre) := st in
  let rs := foldl receive rs received in
  curr ← change_read_write_if_necessary mha rs rw;
  curr ← change_read_if_necessary mha rw rs curr;
  Ret (if bool_decide (pre = curr) then None else Some curr, (rs, curr)).

(** ** Rounds in which the replicas are healthy *)

(** Every replica connected, answering and not lagging; the responses cover the
    configured replicas. *)
Record replicas_healthy (rw : ReadWriteEndpoint) (rs : Responses) : Prop := {
  h_connect : ∃ c, connect_response rs = Some c ∧ Forall (λ kv, kv.2 = Connected) (connect_read c);
  h_ping : ∃ p, ping_response rs = Some p ∧ Forall (λ kv, kv.2 = PingOk) (ping_read p);
  h_lag : ∀ l, lag_response rs = Some l →
    Forall (λ kv, is_latency kv.2 = false ∧ ∃ e, e ∈ read rw ∧ addr e = kv.1) (latency l) }.

(** The primaries a promotion leads to: the last replica that reports to be a
    master, or the old ones. *)
Definition promoted (reads : list Endpoint) (ro : list (str * NodeRole)) (old : list Endpoint)
    : list Endpoint :=
  match last (List.filter (λ e, match assoc (addr e) ro with Some Master => true | _ => false end) reads) with
  | Some e => [e]
  | None => old
  end.

Lemma for_each_const {A S} (l : list A) body (s : S) :
  Forall (λ x, body x s = Ret s) l → for_each l body s = Ret s.
Proof. induction 1 as [|x l Hx _ IH]; simpl; [done|]. by rewrite Hx. Qed.

Lemma promote_spec mha ro curr :
  read_only_enabled mha = true →
  Forall (λ e, is_none (assoc (addr e) (roles ro)) = false) (read curr) →
  change_slave_to_master_by_read_only mha (Some ro) curr =
    Ret (mkRw (read curr) (promoted (read curr) (roles ro) (readwrite curr))).
Proof.
  intros He Hr. unfold change_slave_to_master_by_read_only. rewrite He.
  enough (∀ l pre c, Forall (λ e, is_none (assoc (addr e) (roles ro)) = false) l →
    read c = read curr → readwrite c = promoted pre (roles ro) (readwrite curr) →
    for_each l (λ e curr, match assoc (addr e) (roles ro) with
      | None => Panic | Some Master => Ret (mkRw (read curr) [e]) | Some Slave => Ret curr end) c =
    Ret (mkRw (read curr) (promoted (pre ++ l) (roles ro) (readwrite curr)))) as Hgen
    by (by apply (Hgen (read curr) [])).
  clear Hr. induction l as [|e l IH]; intros pre c Hl Hc Hw.
  { rewrite app_nil_r. simpl. destruct c. simpl in *. by subst. }
  apply Forall_cons in Hl as [Hx Hl]. cbn [for_each].
  rewrite cons_middle, app_assoc. unfold promoted in Hw |- *.
  destruct (assoc (addr e) (roles ro)) as [[]|] eqn:Ea; [| |done]; cbn [mbind exec_bind];
    apply IH; try done; unfold promoted; rewrite List.filter_app; simpl; rewrite Ea.
  - by rewrite last_snoc.
  - by rewrite app_nil_r.
Qed.

Lemma healthy_reads mha rw rs curr :
  replicas_healthy rw rs → read curr = read rw → change_read_if_necessary mha rw rs curr = Ret curr.
Proof.
  intros [(c & Hc & Hall) (p & Hp & Hping) Hlag] Hr. unfold change_read_if_necessary. rewrite Hc.
  apply for_each_const. eapply Forall_impl; [exact Hall|]. intros [a st]. simpl. intros ->.
  rewrite Hp. apply for_each_const. eapply Forall_impl; [exact Hping|]. intros [pa ps]. simpl.
  intros ->. unfold change_read_by_lag. destruct (replication_lag_enabled mha); [|done].
  destruct (lag_response rs) as [l|]; [|done]. apply for_each_const.
  eapply Forall_impl; [by apply Hlag|]. intros [la st']. simpl. intros [-> (e & He & <-)]. simpl.
  assert (existsb (λ x, str_eqb (addr x) (addr e)) (read curr) = true) as ->; [|done].
  apply existsb_elem. exists e. rewrite Hr. split; [done|apply str_eqb_refl].
Qed.

(** High availability: in a round in which every replica is healthy, the
    endpoints become the configured ones when the primary answers; when the
    primary is disconnected and the read-only monitor knows every replica, the
    replica that reports to be the master becomes the only primary (nothing
    changes if there is none), the replicas stay, and the router is told exactly
    when the result differs from the last one. *)
Theorem reconcile_failover mha rw rs pre received c p ro :
  let rs' := foldl receive rs received in
  replicas_healthy rw rs' → connect_response rs' = Some c → ping_response rs' = Some p →
  read_only_response rs' = Some ro → read_only_enabled mha = true →
  Forall (λ e, is_none (assoc (addr e) (roles ro)) = false) (read rw) →
  (Forall (λ kv, kv.2 = Connected) (connect_readwrite c) → Forall (λ kv, kv.2 = PingOk) (ping_readwrite p) →
   report_round mha rw received (rs, pre) =
     Ret (if bool_decide (pre = rw) then None else Some rw, (rs', rw))) ∧
  (∀ a, connect_readwrite c = [(a, Disconnected)] →
   let rw' := mkRw (read rw) (promoted (read rw) (roles ro) (readwrite rw)) in
   report_round mha rw received (rs, pre) =
     Ret (if bool_decide (pre = rw') then None else Some rw', (rs', rw'))).
Proof.
  intros rs' Hh Hc Hp Hro He Hr. unfold report_round. fold rs'. split.
  - intros Hcon Hping. unfold change_read_write_if_necessary. rewrite Hc.
    rewrite for_each_const.
    + cbn [mbind exec_bind]. by rewrite healthy_reads.
    + eapply Forall_impl; [exact Hcon|]. intros [a st]. simpl. intros ->. rewrite Hp.
      apply for_each_const. eapply Forall_impl; [exact Hping|]. intros [pa ps]. simpl. by intros ->.
  - intros a Ha. unfold change_read_write_if_necessary. rewrite Hc, Ha, Hro. cbn [for_each].
    rewrite promote_spec by done. cbn [mbind exec_bind]. by rewrite healthy_reads.
Qed.

Definition toy_mha : MasterHighAvailability :=
  mkMha [] [] 1000 1000 6000 1 1000 6000 1 1000 6000 1 10000 1000 6000 1 true false.
Definition ha (n : string) : Endpoint := mkEndpoint [] 1 ($n) [] [] [] ($n).
Definition toy_cluster : ReadWriteEndpoint := mkRw [ha "a"; ha "b"] [ha "p"].

Definition failed_primary : list MonitorResponse :=
  [ConnectResponse (mkConnect [($"a", Connected); ($"b", Connected)] [($"p", Disconnected)]);
   PingResponse (mkPing [($"b", PingOk); ($"a", PingOk)] [($"p", PingNotOk)]);
   ReadOnlyResponse (mkReadOnly [($"p", Master); ($"b", Master); ($"a", Slave)])].

Lemma reconcile_failover_witness :
  report_round toy_mha toy_cluster failed_primary (no_responses, toy_cluster) =
    Ret (Some (mkRw [ha "a"; ha "b"] [ha "b"]),
         (foldl receive no_responses failed_primary, mkRw [ha "a"; ha "b"] [ha "b"])).
Proof.
  apply (proj2 (reconcile_failover toy_mha toy_cluster no_responses toy_cluster failed_primary
    (mkConnect [($"a", Connected); ($"b", Connected)] [($"p", Disconnected)])
    (mkPing [($"b", PingOk); ($"a", PingOk)] [($"p", PingNotOk)])
    (mkReadOnly [($"p", Master); ($"b", Master); ($"a", Slave)])
    ltac:(split; [eexists; split; [reflexivity|repeat constructor]
                 |eexists; split; [reflexivity|repeat constructor]|discriminate])
    eq_refl eq_refl eq_refl eq_refl ltac:(repeat constructor)) ($"p") eq_refl).
Defined.

(** One failed replica takes a healthy one with it: the position in the configured
    list is used as an index into the shrunken list, and the failed ping is
    handled once per connected replica.  With the first of two replicas down no
    replica is left; with the second one down the loop panics. *)
Theorem replica_failure_spreads :
  change_read_if_necessary toy_mha toy_cluster
    (mkResponses (Some (mkConnect [($"a", Disconnected); ($"b", Connected)] [($"p", Connected)]))
       (Some (mkPing [($"a", PingNotOk); ($"b", PingOk)] [($"p", PingOk)])) None None) toy_cluster =
    Ret (mkRw [] [ha "p"]) ∧
  change_read_if_necessary toy_mha toy_cluster
    (mkResponses (Some (mkConnect [($"a", Connected); ($"b", Disconnected)] [($"p", Connected)]))
       (Some (mkPing [($"a", PingOk); ($"b", PingNotOk)] [($"p", PingOk)])) None None) toy_cluster =
    Panic.
Proof. split; vm_compute; reflexivity. Qed.

End Discovery.
