(* ===== verification/ConnPool.v ===== *)
(** * The backend connection pool

    [data-proxy/proxy/pool/src/conn_pool.rs]: a bounded queue of idle connections
    per endpoint, each with a generation that [refresh] advances so that neither
    idle nor checked-out connections survive it.

    The connection type and its asynchronous operations are the class [ConnLike]
    over a state [W] of the outside world.  Two views of [get]: the function as it
    is written ([get_conn_with_endpoint_with_generation]), and the same code cut at
    its awaits and at its accesses to the shared maps ([get_step]), so that other
    tasks can run in between ([sys_step]).  [get_step_run] relates them. *)

From S2P Require Import Prelude RustStr.

(** ** Connections *)

(** The traits [ConnLike], [ConnAttr] and [ConnAttrMut]. *)
Class ConnLike (T E Item W : Type) := {
  build_conn : T → W → result E T * W;
  ping : T → W → result E unit * T * W;
  init_conn : T → list Item → W → T * W;
  get_endpoint : T → str
}.

(** What the pool relies on: a connection keeps the endpoint of its factory, and
    time does not run backwards ([born] is when the connection was built). *)
Class ConnLaws {T E Item W} (C : ConnLike T E Item W) := {
  now : W → Z;
  born : T → Z;
  build_endpoint : ∀ f w c w', build_conn f w = (Ok c, w') →
    get_endpoint c = get_endpoint f;
  build_born : ∀ f w c w', build_conn f w = (Ok c, w') → now w ≤ born c;
  build_now : ∀ f w, now w ≤ now (build_conn f w).2;
  ping_same : ∀ c w, get_endpoint (ping c w).1.2 = get_endpoint c ∧
    born (ping c w).1.2 = born c ∧ now w ≤ now (ping c w).2;
  init_same : ∀ c l w, get_endpoint (init_conn c l w).1 = get_endpoint c ∧
    born (init_conn c l w).1 = born c ∧ now w ≤ now (init_conn c l w).2
}.

Section Pool.
Context {T E Item W : Type} {C : ConnLike T E Item W}.

(** [inner] is the [ArrayQueue], oldest connection first, with its capacity. *)
Record PoolInner := mk_pool_inner {
  inner_queue : list T;
  inner_cap : nat;
  generation : Z
}.

(** [ArrayQueue::new] panics on a capacity of zero. *)
Definition new_pool_inner (size : nat) : exec PoolInner :=
  if decide (size = 0%nat) then Panic else Ret (mk_pool_inner [] size 0).

Definition inner_get_conn (p : PoolInner) : option T * PoolInner :=
  match inner_queue p with
  | [] => (None, p)
  | c :: q => (Some c, mk_pool_inner q (inner_cap p) (generation p))
  end.

Definition inner_put_conn (c : T) (p : PoolInner) : PoolInner :=
  if decide (length (inner_queue p) < inner_cap p)%nat
  then mk_pool_inner (inner_queue p ++ [c]) (inner_cap p) (generation p)
  else p.

(** The [while pop] loop: the number of connections popped and the rest. *)
Fixpoint drain (q : list T) (cleared : nat) : nat * list T :=
  match q with [] => (cleared, []) | _ :: q' => drain q' (S cleared) end.

Definition refresh (p : PoolInner) : nat * PoolInner :=
  let '(cleared, q) := drain (inner_queue p) 0 in
  (cleared, mk_pool_inner q (inner_cap p) (u64_wrap (generation p + 1))).

Record PoolConn := mk_pool_conn { pc_conn : option T; pc_generation : Z }.

Record Pool := mk_pool {
  factory : gmap str T;
  size : nat;
  pool : gmap str PoolInner
}.

Definition new_pool (n : nat) : Pool := mk_pool ∅ n ∅.

Definition set_factory (ep : str) (f : T) (p : Pool) : Pool :=
  match factory p !! ep with
  | None => mk_pool (<[ep := f]> (factory p)) (size p) (pool p)
  | Some _ => p
  end.

Definition set_inner (ep : str) (i : PoolInner) (p : Pool) : Pool :=
  mk_pool (factory p) (size p) (<[ep := i]> (pool p)).

(** The entry is inserted if it is missing, and its generation read. *)
Definition insert_missing (ep : str) (p : Pool) : exec Pool :=
  match pool p !! ep with
  | Some _ => Ret p
  | None => i ← new_pool_inner (size p); Ret (set_inner ep i p)
  end.

Definition ensure_pool_inner (ep : str) (p : Pool) : exec (Z * Pool) :=
  p' ← insert_missing ep p;
  Ret (match pool p' !! ep with Some i => generation i | None => 0 end, p').

(** [factory.get(endpoint).as_ref().unwrap().build_conn()]. *)
Definition build_from (ep : str) (p : Pool) (w : W) : exec (result E T * W) :=
  match factory p !! ep with
  | Some f => Ret (build_conn f w)
  | None => Panic
  end.

Definition rebuild_conn (ep : str) (p : Pool) (w : W) : exec (result E PoolConn * Pool * W) :=
  '(g, p) ← ensure_pool_inner ep p;
  '(r, w) ← build_from ep p w;
  Ret (map_ok (λ c, mk_pool_conn (Some c) g) r, p, w).

Definition reinit_session (c : T) (attrs : list Item) (w : W) : T * W := init_conn c attrs w.

Definition rebuild_conn_with_session (ep : str) (attrs : list Item) (p : Pool) (w : W)
    : exec (result E PoolConn * Pool * W) :=
  '(g, p) ← ensure_pool_inner ep p;
  '(r, w) ← build_from ep p w;
  match r with
  | Err e => Ret (Err e, p, w)
  | Ok c => let '(c, w) := reinit_session c attrs w in Ret (Ok (mk_pool_conn (Some c) g), p, w)
  end.

(** The idle connection of [ep] that has waited longest, if there is one. *)
Definition pop_idle (ep : str) (p : Pool) : option T * Pool :=
  match pool p !! ep with
  | None => (None, p)
  | Some i => let '(c, i) := inner_get_conn i in (c, set_inner ep i p)
  end.

Definition RETRIES : nat := 10.

(** The retry loop, [n] attempts to go; the sleeps between attempts add up in the
    last component (in seconds). *)
Fixpoint retry_loop (n : nat) (ep : str) (g interval slept : Z) (p : Pool) (w : W)
    : exec (result E (T * Z) * W * Z) :=
  match n with
  | O => Panic
  | S n =>
      '(r, w) ← build_from ep p w;
      match r with
      | Ok c => Ret (Ok (c, g), w, slept)
      | Err e =>
          match n with
          | O => Ret (Err e, w, slept)
          | S _ => retry_loop n ep g (interval * 2) (slept + interval) p w
          end
      end
  end.


(** The function from the pop on, the generation having been read. *)
Definition acquire (ep : str) (g : Z) (p : Pool) (w : W)
    : exec (result E (T * Z) * Pool * W * Z) :=
  let retry p w := '(r, w, slept) ← retry_loop RETRIES ep g 3 0 p w; Ret (r, p, w, slept) in
  let '(c, p) := pop_idle ep p in
  match c with
  | None =>
      p ← insert_missing ep p;
      '(r, w) ← build_from ep p w;
      match r with
      | Ok c => Ret (Ok (c, g), p, w, 0)
      | Err _ => retry p w
      end
  | Some c =>
      let '(r, c, w) := ping c w in
      if is_ok r then Ret (Ok (c, g), p, w, 0) else retry p w
  end.

Definition get_conn_with_endpoint_with_generation (ep : str) (p : Pool) (w : W)
    : exec (result E (T * Z) * Pool * W * Z) :=
  '(g, p) ← ensure_pool_inner ep p;
  acquire ep g p w.

Definition get_conn_with_endpoint (ep : str) (p : Pool) (w : W)
    : exec (result E T * Pool * W * Z) :=
  '(r, p, w, s) ← get_conn_with_endpoint_with_generation ep p w; Ret (map_ok fst r, p, w, s).

Definition get_conn_with_endpoint_session (ep : str) (attrs : list Item) (p : Pool) (w : W)
    : exec (result E PoolConn * Pool * W * Z) :=
  '(r, p, w, s) ← get_conn_with_endpoint_with_generation ep p w;
  match r with
  | Err e => Ret (Err e, p, w, s)
  | Ok (c, g) =>
      let '(c, w) := reinit_session c attrs w in
      Ret (Ok (mk_pool_conn (Some c) g), p, w, s)
  end.

Definition len (ep : str) (p : Pool) : nat :=
  match pool p !! ep with Some i => length (inner_queue i) | None => 0%nat end.

Definition refresh_endpoint (ep : str) (p : Pool) : nat * Pool :=
  match pool p !! ep with
  | Some i => let '(n, i) := refresh i in (n, set_inner ep i p)
  | None => (0%nat, p)
  end.

Definition capacity (p : Pool) : nat := size p.
Definition factory_endpoints (p : Pool) : list str := (map_to_list (factory p)).*1.
Definition pooled_endpoints (p : Pool) : list str := (map_to_list (pool p)).*1.
Definition has_factory (ep : str) (p : Pool) : bool := negb (is_none (factory p !! ep)).

(** [impl Drop for PoolConn]. *)
Definition drop_conn (pc : PoolConn) (p : Pool) : Pool :=
  match pc_conn pc with
  | None => p
  | Some c =>
      let ep := get_endpoint c in
      match pool p !! ep with
      | Some i => if generation i =? pc_generation pc then set_inner ep (inner_put_conn c i) p else p
      | None => p
      end
  end.

(** ** The same code, one access at a time *)

(** [get_conn_with_endpoint_with_generation] or [rebuild_conn]. *)
Inductive Mode := Get | Rebuild.

(** Where a task stands: before the [contains_key], the [insert] and the
    [generation()] of [ensure_pool_inner]; before the pop, the second
    [contains_key], the first build, the ping, a retry; or finished. *)
Inductive Task :=
| TCheck (m : Mode) (ep : str)
| TInsert (m : Mode) (ep : str)
| TGen (m : Mode) (ep : str)
| TPop (ep : str) (g : Z)
| TMissing (ep : str) (g : Z)
| TBuild (m : Mode) (ep : str) (g : Z)
| TPing (ep : str) (g : Z) (c : T)
| TRetry (n : nat) (ep : str) (g : Z)
| THeld (pc : PoolConn)
| TFailed (e : E)
| TPanicked.

Definition or_panic {A} (m : exec A) (p : Pool) (w : W) (k : A → Task * Pool * W)
    : Task * Pool * W :=
  match m with Ret a => k a | Panic => (TPanicked, p, w) end.

Definition held (c : T) (g : Z) : Task := THeld (mk_pool_conn (Some c) g).

Definition get_step (t : Task) (p : Pool) (w : W) : Task * Pool * W :=
  match t with
  | TCheck m ep =>
      match pool p !! ep with Some _ => (TGen m ep, p, w) | None => (TInsert m ep, p, w) end
  | TInsert m ep =>
      or_panic (new_pool_inner (size p)) p w (λ i, (TGen m ep, set_inner ep i p, w))
  | TGen m ep =>
      let g := match pool p !! ep with Some i => generation i | None => 0 end in
      (match m with Get => TPop ep g | Rebuild => TBuild Rebuild ep g end, p, w)
  | TPop ep g =>
      let '(c, p) := pop_idle ep p in
      (match c with Some c => TPing ep g c | None => TMissing ep g end, p, w)
  | TMissing ep g => or_panic (insert_missing ep p) p w (λ p, (TBuild Get ep g, p, w))
  | TBuild m ep g =>
      or_panic (build_from ep p w) p w (λ '(r, w),
        match r, m with
        | Ok c, _ => (held c g, p, w)
        | Err _, Get => (TRetry RETRIES ep g, p, w)
        | Err e, Rebuild => (TFailed e, p, w)
        end)
  | TPing ep g c =>
      let '(r, c, w) := ping c w in
      (if is_ok r then held c g else TRetry RETRIES ep g, p, w)
  | TRetry n ep g =>
      match n with
      | O => (TPanicked, p, w)
      | S n =>
          or_panic (build_from ep p w) p w (λ '(r, w),
            match r with
            | Ok c => (held c g, p, w)
            | Err e => (match n with O => TFailed e | S _ => TRetry n ep g end, p, w)
            end)
      end
  | THeld _ | TFailed _ | TPanicked => (t, p, w)
  end.

Definition finished (t : Task) : bool :=
  match t with THeld _ | TFailed _ | TPanicked => true | _ => false end.

(** *** Many tasks *)

Record Sys := mk_sys { sys_pool : Pool; sys_world : W; tasks : gmap nat Task }.

Inductive Action :=
| AStart (k : nat) (m : Mode) (ep : str)
| AStep (k : nat)
| AReinit (k : nat) (attrs : list Item)
| ADrop (k : nat)
| ARefresh (ep : str)
| ASetFactory (ep : str) (f : T).

Definition act (s : Sys) (a : Action) : Sys :=
  let '(mk_sys p w ts) := s in
  match a with
  | AStart k m ep =>
      match ts !! k with Some _ => s | None => mk_sys p w (<[k := TCheck m ep]> ts) end
  | AStep k =>
      match ts !! k with
      | Some t => let '(t, p, w) := get_step t p w in mk_sys p w (<[k := t]> ts)
      | None => s
      end
  | AReinit k attrs =>
      match ts !! k with
      | Some (THeld (mk_pool_conn (Some c) g)) =>
          let '(c, w) := reinit_session c attrs w in mk_sys p w (<[k := held c g]> ts)
      | _ => s
      end
  | ADrop k =>
      match ts !! k with
      | Some (THeld pc) => mk_sys (drop_conn pc p) w (delete k ts)
      | _ => s
      end
  | ARefresh ep => mk_sys (refresh_endpoint ep p).2 w ts
  | ASetFactory ep f => mk_sys (set_factory ep f p) w ts
  end.

Definition acts (s : Sys) (l : list Action) : Sys := foldl act s l.

(** ** Lemmas *)

Lemma drain_all q n : drain q n = (n + length q, [])%nat.
Proof. revert n. induction q as [|c q IH]; intros n; simpl; [f_equal; lia|]. rewrite IH. f_equal. lia. Qed.

Lemma insert_missing_ret ep p : (0 < size p)%nat →
  ∃ p', insert_missing ep p = Ret p' ∧ is_Some (pool p' !! ep) ∧
    factory p' = factory p ∧ size p' = size p.
Proof.
  intros Hs. unfold insert_missing, new_pool_inner. destruct (pool p !! ep) eqn:Ep.
  { exists p. rewrite Ep. eauto. }
  rewrite decide_False by lia. simpl. eexists. split; [done|].
  split; [|done]. simpl. rewrite lookup_insert_eq. eauto.
Qed.

Lemma insert_missing_present ep p : is_Some (pool p !! ep) → insert_missing ep p = Ret p.
Proof. intros [i Hi]. unfold insert_missing. by rewrite Hi. Qed.

Lemma pop_idle_keeps ep p : is_Some (pool p !! ep) →
  is_Some (pool (pop_idle ep p).2 !! ep) ∧ factory (pop_idle ep p).2 = factory p ∧
  size (pop_idle ep p).2 = size p.
Proof.
  intros [i Hi]. unfold pop_idle. rewrite Hi. unfold inner_get_conn.
  destruct (inner_queue i); simpl; rewrite lookup_insert_eq; eauto.
Qed.

(** *** Attempts *)

(** Up to [S n] builds, stopping at the first that succeeds; otherwise the last
    error. *)
Fixpoint first_build (n : nat) (f : T) (w : W) : result E T * W :=
  match build_conn f w with
  | (Ok c, w) => (Ok c, w)
  | (Err e, w) => match n with O => (Err e, w) | S n => first_build n f w end
  end.

(** Seconds slept after [k] failed retries that each had a successor. *)
Definition backoff (k : nat) : Z := 3 * (2 ^ Z.of_nat k - 1).

Lemma retry_first n ep g p w f k :
  factory p !! ep = Some f →
  ∃ j, (j ≤ n)%nat ∧
  retry_loop (S n) ep g (3 * 2 ^ Z.of_nat k) (backoff k) p w =
    Ret (map_ok (λ c, (c, g)) (first_build n f w).1, (first_build n f w).2, backoff (k + j)) ∧
  (is_ok (first_build n f w).1 = false → j = n).
Proof.
  intros Hf. revert w k. induction n as [|n IH]; intros w k.
  - exists 0%nat. rewrite Nat.add_0_r. cbn [retry_loop first_build]. unfold build_from. rewrite Hf.
    cbv [mbind exec_bind]. destruct (build_conn f w) as [[c|e] w1]; split; auto.
  - cbn [first_build]. change (retry_loop (S (S n))) with
      (λ ep g interval slept p w, '(r, w) ← build_from ep p w; match r with Ok c => Ret (Ok (c, g), w, slept)
       | Err e => retry_loop (S n) ep g (interval * 2) (slept + interval) p w end).
    cbv beta. unfold build_from. rewrite Hf. cbv [mbind exec_bind].
    destruct (build_conn f w) as [[c|e] w1].
    + exists 0%nat. rewrite Nat.add_0_r. split; [lia|]. done.
    + replace (3 * 2 ^ Z.of_nat k * 2) with (3 * 2 ^ Z.of_nat (S k))
        by (rewrite Nat2Z.inj_succ, Z.pow_succ_r by lia; lia).
      replace (backoff k + 3 * 2 ^ Z.of_nat k) with (backoff (S k))
        by (unfold backoff; rewrite Nat2Z.inj_succ, Z.pow_succ_r by lia; lia).
      destruct (IH w1 (S k)) as (j & Hj & -> & Hl). exists (S j). split; [lia|].
      rewrite Nat.add_succ_comm. split; [done|]. intros Hn. f_equal. auto.
Qed.

Lemma first_build_S n f w :
  first_build (S n) f w =
    match build_conn f w with (Ok c, w) => (Ok c, w) | (Err _, w) => first_build n f w end.
Proof. done. Qed.

Lemma backoff_bound k : (k ≤ 9)%nat → 0 ≤ backoff k ≤ 1533.
Proof. intros H. do 10 (destruct k as [|k]; [vm_compute; split; congruence|]). lia. Qed.

(** *** Acquiring a connection *)

#[local] Arguments retry_loop : simpl never.
#[local] Arguments first_build : simpl never.

Definition idle (ep : str) (p : Pool) : list T :=
  match pool p !! ep with Some i => inner_queue i | None => [] end.

Lemma idle_len ep p : len ep p = length (idle ep p).
Proof. unfold len, idle. by destruct (pool p !! ep). Qed.

Lemma pop_idle_spec ep p : is_Some (pool p !! ep) →
  (pop_idle ep p).1 = head (idle ep p) ∧ idle ep (pop_idle ep p).2 = tail (idle ep p).
Proof.
  intros [i Hi]. unfold pop_idle, idle. rewrite Hi. unfold inner_get_conn.
  destruct (inner_queue i) eqn:Eq; simpl; rewrite lookup_insert_eq; simpl; by rewrite ?Eq.
Qed.

Lemma ensure_spec ep p : (0 < size p)%nat →
  ∃ g p', ensure_pool_inner ep p = Ret (g, p') ∧ is_Some (pool p' !! ep) ∧
    factory p' = factory p ∧ size p' = size p ∧ idle ep p' = idle ep p ∧
    (∀ i, pool p' !! ep = Some i → generation i = g).
Proof.
  intros Hs. unfold ensure_pool_inner, insert_missing, new_pool_inner, idle.
  destruct (pool p !! ep) as [i|] eqn:Ep.
  - simpl. rewrite Ep. eexists _, p. split; [done|]. rewrite Ep. naive_solver.
  - rewrite decide_False by lia. simpl. rewrite lookup_insert_eq. eexists _, _. split; [done|].
    simpl. rewrite lookup_insert_eq. naive_solver.
Qed.

Lemma retry_spec ep g p w f :
  factory p !! ep = Some f →
  ∃ s, retry_loop RETRIES ep g 3 0 p w =
    Ret (map_ok (λ c, (c, g)) (first_build 9 f w).1, (first_build 9 f w).2, s) ∧
  0 ≤ s ≤ 1533 ∧ (is_ok (first_build 9 f w).1 = false → s = 1533).
Proof.
  intros Hf. destruct (retry_first 9 ep g p w f 0 Hf) as (j & Hj & Hr & Hl).
  exists (backoff j). split; [exact Hr|]. split; [by apply backoff_bound|].
  intros Hn. by rewrite (Hl Hn).
Qed.

(** What [get] returns: the longest-idle connection if it answers a ping, and
    otherwise the first success of ten further builds (eleven if none was idle),
    or their last error, after a bounded wait; [len] drops by the one popped. *)
Definition acquire_spec (ep : str) (p : Pool) (w : W) (f : T)
    (r : result E (T * Z)) (w' : W) : Prop :=
  match idle ep p with
  | c :: _ =>
      let '(rp, c', w1) := ping c w in
      if is_ok rp then map_ok fst r = Ok c' ∧ w' = w1
      else (map_ok fst r, w') = first_build 9 f w1
  | [] => (map_ok fst r, w') = first_build 10 f w
  end.

Lemma map_ok_pair {B} (r : result E T) (g : B) : map_ok fst (map_ok (λ c, (c, g)) r) = r.
Proof. by destruct r. Qed.

(** A request for a connection always returns (it does not reach the
    [unreachable!()] and does not unwrap a missing factory): with the oldest idle
    connection if that answers, else with the first of at most eleven builds that
    succeeds, and with an error only when all of them failed; it waits at most
    1533 seconds. *)
Theorem acquire_outcome ep p w f :
  (0 < size p)%nat → factory p !! ep = Some f →
  ∃ r p' w' s, get_conn_with_endpoint_with_generation ep p w = Ret (r, p', w', s) ∧
    acquire_spec ep p w f r w' ∧ 0 ≤ s ≤ 1533 ∧ (is_ok r = false → s = 1533) ∧
    idle ep p' = tail (idle ep p).
Proof.
  intros Hs Hf. destruct (ensure_spec ep p Hs) as (g & p1 & He & Hi & Hf1 & Hs1 & Hq & _).
  destruct (pop_idle_spec ep p1 Hi) as [Hc Ht]. destruct (pop_idle_keeps ep p1 Hi) as (Hi2 & Hf2 & _).
  unfold get_conn_with_endpoint_with_generation, acquire, acquire_spec. rewrite He. cbv [mbind exec_bind].
  destruct (pop_idle ep p1) as [c p2]. simpl in *. subst c. rewrite Hq in *.
  rewrite <- Hf1, <- Hf2 in Hf. destruct (idle ep p) as [|c q]; cbn [head tail].
  - rewrite first_build_S, (insert_missing_present _ _ Hi2). unfold build_from. rewrite Hf.
    destruct (build_conn f w) as [[c|e] w1].
    + eexists _, _, _, _. split; [done|]. by split_and!.
    + destruct (retry_spec ep g p2 w1 f Hf) as (s & -> & Hb & Hl).
      eexists _, _, _, _. split; [done|]. rewrite map_ok_pair. split; [by destruct (first_build 9 f w1)|].
      split; [done|]. split; [|done]. destruct (first_build 9 f w1) as [[]]; simpl in *; auto.
  - destruct (ping c w) as [[rp c'] w1]. destruct (is_ok rp).
    + eexists _, _, _, _. split; [done|]. by split_and!.
    + destruct (retry_spec ep g p2 w1 f Hf) as (s & -> & Hb & Hl).
      eexists _, _, _, _. split; [done|]. rewrite map_ok_pair. split; [by destruct (first_build 9 f w1)|].
      split; [done|]. split; [|done]. destruct (first_build 9 f w1) as [[]]; simpl in *; auto.
Qed.

(** *** The steps of one task make up the function *)

Definition steps (n : nat) (x : Task * Pool * W) : Task * Pool * W :=
  Nat.iter n (λ '(t, p, w), get_step t p w) x.

Definition task_of (r : result E (T * Z)) : Task :=
  match r with Ok (c, g) => held c g | Err e => TFailed e end.

(** The task ends with the outcome [m] of the function. *)
Definition ends_with (x : Task * Pool * W) (m : exec (result E (T * Z) * Pool * W * Z)) : Prop :=
  ∃ n, match m with
       | Ret (r, p, w, _) => steps n x = (task_of r, p, w)
       | Panic => (steps n x).1.1 = TPanicked
       end.

Lemma ends_step t p w m : ends_with (get_step t p w) m → ends_with (t, p, w) m.
Proof.
  intros [n H]. exists (S n). unfold steps in *. rewrite Nat.iter_succ_r. destruct m as [[[[r p'] w'] z]|]; exact H.
Qed.

Lemma ends_now t p w r z : t = task_of r → ends_with (t, p, w) (Ret (r, p, w, z)).
Proof. intros ->. by exists 0%nat. Qed.

Lemma ends_panic p w : ends_with (TPanicked, p, w) Panic.
Proof. by exists 0%nat. Qed.

Lemma retry_ends n ep g i s p w :
  ends_with (TRetry n ep g, p, w) ('(r, w, z) ← retry_loop n ep g i s p w; Ret (r, p, w, z)).
Proof.
  revert i s w. induction n as [|n IH]; intros i s w.
  { apply ends_step, ends_panic. }
  apply ends_step. change (retry_loop (S n)) with
    (λ ep g interval slept p w, '(r, w) ← build_from ep p w; match r with Ok c => Ret (Ok (c, g), w, slept)
     | Err e => match n with O => Ret (Err e, w, slept)
       | S _ => retry_loop n ep g (interval * 2) (slept + interval) p w end end).
  cbv beta. simpl. unfold or_panic. cbv [mbind exec_bind] in *.
  destruct (build_from ep p w) as [[[c|e] w1]|]; [by apply ends_now| |apply ends_panic].
  destruct n as [|n]; [by apply ends_now|]. apply IH.
Qed.

Lemma acquire_ends ep g p w : ends_with (TPop ep g, p, w) (acquire ep g p w).
Proof.
  apply ends_step. unfold acquire. simpl. destruct (pop_idle ep p) as [[c|] p2].
  - apply ends_step. simpl. destruct (ping c w) as [[r c'] w1].
    destruct (is_ok r); [by apply ends_now|apply retry_ends].
  - apply ends_step. simpl. unfold or_panic. cbv [mbind exec_bind].
    destruct (insert_missing ep p2) as [p3|]; [|apply ends_panic].
    apply ends_step. simpl. unfold or_panic.
    destruct (build_from ep p3 w) as [[[c|e] w1]|];
      [by apply ends_now|apply retry_ends|apply ends_panic].
Qed.

(** Cutting [get] at its awaits and at its accesses to the shared maps does not
    change what a task does that runs alone: it ends with the function's result,
    pool and world, or panics when the function does. *)
Theorem get_step_run ep p w :
  ends_with (TCheck Get ep, p, w) (get_conn_with_endpoint_with_generation ep p w).
Proof.
  apply ends_step. unfold get_conn_with_endpoint_with_generation, ensure_pool_inner, insert_missing.
  cbn [get_step]. cbv [mbind exec_bind]. destruct (pool p !! ep) as [i|] eqn:Ep.
  - apply ends_step. cbn [get_step]. rewrite Ep. apply acquire_ends.
  - apply ends_step. cbn [get_step]. unfold or_panic.
    destruct (new_pool_inner (size p)) as [i|]; [|apply ends_panic].
    apply ends_step. cbn [get_step]. apply acquire_ends.
Qed.

(** ** Progress under any interleaving *)

(** An upper bound on the number of steps a task has left. *)
Definition rank (t : Task) : nat :=
  match t with
  | TCheck _ _ => 17 | TInsert _ _ => 16 | TGen _ _ => 15 | TPop _ _ => 14 | TMissing _ _ => 13
  | TBuild _ _ _ | TPing _ _ _ => 12 | TRetry n _ _ => S n
  | THeld _ | TFailed _ | TPanicked => 0
  end.

Lemma get_step_rank t p w : finished t = false → (rank (get_step t p w).1.1 < rank t)%nat.
Proof. destruct t as [| | | |ep g|[] ep g| |[]| | |]; simpl; unfold or_panic; split_matches; simpl; unfold RETRIES; lia. Qed.

(** The task can take its next step: no [unwrap] of a missing factory, no queue of
    capacity zero, no [unreachable!()]. *)
Definition safe_task (p : Pool) (t : Task) : Prop :=
  match t with
  | TCheck _ ep | TInsert _ ep | TGen _ ep | TPop ep _ | TMissing ep _
  | TBuild _ ep _ | TPing ep _ _ => is_Some (factory p !! ep)
  | TRetry n ep _ => n ≠ 0%nat ∧ is_Some (factory p !! ep)
  | TPanicked => False
  | _ => True
  end.

Lemma new_inner_ret n : (0 < n)%nat → new_pool_inner n = Ret (mk_pool_inner [] n 0).
Proof. intros. unfold new_pool_inner. by rewrite decide_False by lia. Qed.

Lemma get_step_frame t p w :
  factory (get_step t p w).1.2 = factory p ∧ size (get_step t p w).1.2 = size p.
Proof.
  destruct t as [| | | |ep g|[] ep g| |[]| | |]; simpl;
    unfold or_panic, pop_idle, insert_missing, set_inner; cbv [mbind exec_bind]; by split_matches.
Qed.

Lemma get_step_safe t p w :
  (0 < size p)%nat → safe_task p t → safe_task (get_step t p w).1.2 (get_step t p w).1.1.
Proof.
  intros Hs Ht. destruct (get_step_frame t p w) as [Hf _]. unfold safe_task at 1. rewrite Hf. clear Hf.
  destruct t as [| | |ep g|ep g|m ep g|ep g c|[|n] ep g| | |]; simpl in *; unfold or_panic;
    rewrite ?new_inner_ret by done; try by split_matches.
  - destruct (insert_missing_ret ep p Hs) as (p' & -> & _). done.
  - destruct Ht as [f Hf]. unfold build_from. rewrite Hf. destruct m; split_matches; eauto.
  - by destruct Ht.
  - destruct Ht as [_ [f Hf]]. unfold build_from. rewrite Hf. split_matches; eauto.
Qed.

Definition safe_sys (s : Sys) (k : nat) : Prop :=
  (0 < size (sys_pool s))%nat ∧ ∀ t, tasks s !! k = Some t → safe_task (sys_pool s) t.

Lemma set_factory_mono ep f p ep' : is_Some (factory p !! ep') → is_Some (factory (set_factory ep f p) !! ep').
Proof.
  intros H. unfold set_factory. destruct (factory p !! ep) eqn:E1; [done|]. simpl.
  destruct (decide (ep = ep')) as [->|]; [by rewrite lookup_insert_eq|by rewrite lookup_insert_ne].
Qed.

Lemma safe_task_mono p p' t :
  (∀ ep, is_Some (factory p !! ep) → is_Some (factory p' !! ep)) → safe_task p t → safe_task p' t.
Proof. intros Hm. destruct t; simpl; naive_solver. Qed.

Lemma drop_frame pc p : factory (drop_conn pc p) = factory p ∧ size (drop_conn pc p) = size p.
Proof. unfold drop_conn, set_inner. by split_matches. Qed.

Lemma refresh_frame ep p :
  factory (refresh_endpoint ep p).2 = factory p ∧ size (refresh_endpoint ep p).2 = size p.
Proof. unfold refresh_endpoint, set_inner. by split_matches. Qed.

Lemma set_factory_size ep f p : size (set_factory ep f p) = size p.
Proof. unfold set_factory. by split_matches. Qed.

(** Nobody else moves an unfinished task, removes a factory or changes the size. *)
Lemma act_other s a k t :
  tasks s !! k = Some t → finished t = false → a ≠ AStep k →
  tasks (act s a) !! k = Some t.
Proof.
  intros Hk Hf Ha. destruct s as [p w ts]; simpl in *.
  destruct a as [k' m ep|k'|k' l|k'|ep|ep f]; simpl; try done.
  - destruct (ts !! k') eqn:E'; [done|]. simpl. rewrite lookup_insert_ne; [done|]. naive_solver.
  - destruct (ts !! k') as [t'|] eqn:E'; [|done]. destruct (get_step t' p w) as [[? ?] ?]. simpl.
    rewrite lookup_insert_ne; [done|]. naive_solver.
  - destruct (ts !! k') as [[]|] eqn:E'; try done. split_matches.
    rewrite lookup_insert_ne; [done|]. naive_solver.
  - destruct (ts !! k') as [[]|] eqn:E'; try done. simpl. rewrite lookup_delete_ne; [done|]. naive_solver.
Qed.

Lemma act_frame s a :
  size (sys_pool (act s a)) = size (sys_pool s) ∧
  ∀ ep, is_Some (factory (sys_pool s) !! ep) → is_Some (factory (sys_pool (act s a)) !! ep).
Proof.
  destruct s as [p w ts], a as [k' m ep|k'|k' l|k'|ep|ep f]; simpl.
  - by destruct (ts !! k').
  - destruct (ts !! k') as [t'|]; [|done]. destruct (get_step_frame t' p w) as [Hf Hs].
    destruct (get_step t' p w) as [[? ?] ?]. simpl in *. by rewrite Hf.
  - split_matches.
  - destruct (ts !! k') as [[]|]; try done. simpl. destruct (drop_frame pc p) as [-> ->]. done.
  - destruct (refresh_frame ep p) as [-> ->]. done.
  - rewrite set_factory_size. split; [done|]. intros ep'. apply set_factory_mono.
Qed.

(** The number of steps the schedule gives to task [k]. *)
Fixpoint turns (k : nat) (l : list Action) : nat :=
  match l with
  | [] => 0
  | AStep k' :: l => (if decide (k' = k) then 1 else 0) + turns k l
  | _ :: l => turns k l
  end.

Lemma turns_other k a l : a ≠ AStep k → turns k (a :: l) = turns k l.
Proof. destruct a; simpl; try done. intros. by rewrite decide_False by congruence. Qed.

Lemma act_step s k t p w t' :
  tasks s !! k = Some t → get_step t (sys_pool s) (sys_world s) = (t', p, w) →
  act s (AStep k) = mk_sys p w (<[k := t']> (tasks s)).
Proof. destruct s as [p0 w0 ts]. simpl. by intros -> ->. Qed.

(** Whatever the other tasks do, a request for a connection to a registered
    endpoint finishes: in any schedule that gives it seventeen turns there is a
    point where it has its connection or the error of its last attempt, and it
    has not panicked. *)
Theorem acquire_progress s k m ep l :
  (0 < size (sys_pool s))%nat → is_Some (factory (sys_pool s) !! ep) →
  tasks s !! k = Some (TCheck m ep) → (17 ≤ turns k l)%nat →
  ∃ l1 l2 t, l = l1 ++ l2 ∧ tasks (acts s l1) !! k = Some t ∧
    finished t = true ∧ t ≠ TPanicked.
Proof.
  intros Hs Hf Hk Hl.
  assert (safe_task (sys_pool s) (TCheck m ep)) as Ht by done.
  change 17%nat with (rank (TCheck m ep)) in Hl. clear Hf.
  revert Hk Hl Ht. generalize (TCheck m ep). intros t. revert s t Hs.
  induction l as [|a l IH]; intros s t Hs Hk Hl Ht.
  - exists [], [], t. split_and!; try done; destruct t; simpl in *; try done; lia.
  - destruct (finished t) eqn:Ef.
    { exists [], (a :: l), t. split_and!; try done. by intros ->. }
    destruct (act_frame s a) as [Hs' Hf'].
    enough (∃ t', tasks (act s a) !! k = Some t' ∧ (rank t' ≤ turns k l)%nat ∧
      safe_task (sys_pool (act s a)) t') as (t' & Hk' & Hl' & Ht').
    { destruct (IH (act s a) t' ltac:(lia) Hk' Hl' Ht') as (l1 & l2 & t2 & -> & H2).
      exists (a :: l1), l2, t2. done. }
    assert (a = AStep k ∨ a ≠ AStep k) as [->|Hn].
    { destruct a as [|k'| | | |]; try by right. destruct (decide (k' = k)) as [->|]; [by left|right; congruence]. }
    + pose proof (get_step_rank t (sys_pool s) (sys_world s) Ef) as Hr.
      pose proof (get_step_safe t (sys_pool s) (sys_world s) Hs Ht) as Hsf.
      destruct (get_step t (sys_pool s) (sys_world s)) as [[t' p'] w'] eqn:Eg.
      rewrite (act_step s k t p' w' t' Hk Eg). simpl in *. rewrite decide_True in Hl by done.
      exists t'. rewrite lookup_insert_eq. split_and!; [done|lia|done].
    + exists t. rewrite turns_other in Hl by done. split_and!; [by apply act_other|done|].
      by eapply safe_task_mono.
Qed.

(** ** No stale connection *)

Context {L : ConnLaws C}.

(** The endpoint and the generation a task has read, and its connection. *)
Definition tag_of (t : Task) : option (str * Z) :=
  match t with
  | TPop ep g | TMissing ep g | TBuild _ ep g | TPing ep g _ | TRetry _ ep g => Some (ep, g)
  | THeld (mk_pool_conn (Some c) g) => Some (get_endpoint c, g)
  | _ => None
  end.

Definition conn_of (t : Task) : option T :=
  match t with TPing _ _ c => Some c | THeld pc => pc_conn pc | _ => None end.

(** No task is about to replace the queue of [ep], and what tasks have read of
    the generation is not from the future. *)
Definition tag_ok (ep : str) (gen : Z) (t : Task) : Prop :=
  (∀ m, t ≠ TInsert m ep) ∧ (∀ g, tag_of t = Some (ep, g) → g ≤ gen) ∧
  (∀ ep' g c, t = TPing ep' g c → get_endpoint c = ep').

(** Connections are kept under the endpoint they belong to. *)
Definition keyed (p : Pool) : Prop :=
  (∀ ep f, factory p !! ep = Some f → get_endpoint f = ep) ∧
  (∀ ep i c, pool p !! ep = Some i → c ∈ inner_queue i → get_endpoint c = ep).

Definition keyed_action (a : Action) : Prop :=
  match a with ASetFactory ep f => get_endpoint f = ep | _ => True end.

(** The queue of [ep] exists and no first use of [ep] is still in progress. *)
Definition settled (ep : str) (s : Sys) : Prop :=
  keyed (sys_pool s) ∧
  ∃ i, pool (sys_pool s) !! ep = Some i ∧ 0 ≤ generation i ∧
    ∀ k t, tasks s !! k = Some t → tag_ok ep (generation i) t.

(** Relative to a refresh of [ep] at time [t0] that began generation [G]: idle
    connections are younger than the refresh, and so is the connection of every
    task that has read a generation from [G] on. *)
Definition young_queue (ep : str) (t0 G gen : Z) (p : Pool) : Prop :=
  keyed p ∧ ∃ i, pool p !! ep = Some i ∧ generation i = gen ∧ G ≤ gen ∧
    ∀ c, c ∈ inner_queue i → t0 ≤ born c.

Definition young_task (ep : str) (t0 G : Z) (late : Prop) (t : Task) : Prop :=
  ∀ g, tag_of t = Some (ep, g) → (late → G ≤ g) ∧
    (G ≤ g → ∀ c, conn_of t = Some c → t0 ≤ born c).

Definition young (ep : str) (t0 G gen : Z) (late : nat → Prop) (s : Sys) : Prop :=
  young_queue ep t0 G gen (sys_pool s) ∧ t0 ≤ now (sys_world s) ∧
  ∀ k t, tasks s !! k = Some t → tag_ok ep gen t ∧ young_task ep t0 G (late k) t.

Lemma set_inner_keyed ep i p :
  keyed p → (∀ c, c ∈ inner_queue i → get_endpoint c = ep) → keyed (set_inner ep i p).
Proof.
  intros [Hf Hq] Hi. split; [done|]. intros ep' i' c. simpl.
  destruct (decide (ep = ep')) as [->|]; [rewrite lookup_insert_eq; naive_solver|].
  rewrite lookup_insert_ne by done. apply Hq.
Qed.

(** Replacing the queue of [ep] by a part of it, or of another endpoint by anything
    well keyed, keeps it young. *)
Lemma set_inner_young ep t0 G gen p ep' i :
  young_queue ep t0 G gen p →
  (∀ c, c ∈ inner_queue i → get_endpoint c = ep') →
  (ep' = ep → generation i = gen ∧ ∀ c, c ∈ inner_queue i → t0 ≤ born c) →
  young_queue ep t0 G gen (set_inner ep' i p).
Proof.
  intros (Hk & i0 & Hi0 & Hg & HG & Hq) Hi Hy. split; [by apply set_inner_keyed|]. simpl.
  destruct (decide (ep' = ep)) as [->|].
  - rewrite lookup_insert_eq. destruct (Hy eq_refl). eauto.
  - rewrite lookup_insert_ne by done. eauto.
Qed.

Definition good_task (ep : str) (t0 G gen : Z) (late : Prop) (t : Task) : Prop :=
  tag_ok ep gen t ∧ young_task ep t0 G late t.

Section StepYoung.
Variables (ep : str) (t0 G gen : Z) (late : Prop).
Implicit Types (p : Pool) (w : W) (t : Task) (c : T).

Lemma no_tag_good t : tag_of t = None → (∀ m, t ≠ TInsert m ep) → good_task ep t0 G gen late t.
Proof. intros Ht Hi. split; [split_and!|intros ?]; try congruence. intros ep' g c ->. done. Qed.

(** What a task that has read generation [g] of [ep'] must know. *)
Definition tag_good (ep' : str) (g : Z) : Prop := ep' = ep → g ≤ gen ∧ (late → G ≤ g).

Lemma waiting_good t ep' g :
  tag_of t = Some (ep', g) → conn_of t = None → (∀ m, t ≠ TInsert m ep) →
  tag_good ep' g → good_task ep t0 G gen late t.
Proof.
  intros Ht Hc Hi Hg. split; [split_and!|].
  - done.
  - intros g' Hg'. assert (ep' = ep ∧ g = g') as [-> ->] by (split; congruence); by apply Hg.
  - intros ? ? ? ->. done.
  - intros g' Hg'. rewrite Ht in Hg'. simplify_eq. destruct (Hg eq_refl). split; [done|]. congruence.
Qed.

Lemma good_tag t ep' g : good_task ep t0 G gen late t → tag_of t = Some (ep', g) → tag_good ep' g.
Proof. intros [(_ & Ht & _) Hy] E1 ->. split; [by apply Ht|by apply Hy]. Qed.

Lemma held_good c g ep' :
  get_endpoint c = ep' → tag_good ep' g → (ep' = ep → G ≤ g → t0 ≤ born c) →
  good_task ep t0 G gen late (held c g).
Proof.
  intros <- Hg Hb. split; [split_and!|]; try done; simpl.
  - intros g' [= E1 ->]. by apply Hg.
  - intros g' [= E1 ->]. split; [by apply Hg|]. intros HG c' [= <-]. auto.
Qed.

Lemma build_good p w ep' g c w' :
  young_queue ep t0 G gen p → t0 ≤ now w → tag_good ep' g →
  build_from ep' p w = Ret (Ok c, w') →
  t0 ≤ now w' ∧ good_task ep t0 G gen late (held c g).
Proof.
  intros [[Hf _] _] Hw Hg. unfold build_from. destruct (factory p !! ep') as [f|] eqn:Ef; [|done].
  intros [= Hb]. pose proof (build_now f w) as Hn. rewrite Hb in Hn. split; [simpl in Hn; lia|].
  apply (held_good c g ep'); [|done|].
  - rewrite (build_endpoint _ _ _ _ Hb). by apply Hf.
  - intros _ _. pose proof (build_born _ _ _ _ Hb). lia.
Qed.

Lemma build_now_le p w ep' r w' :
  t0 ≤ now w → build_from ep' p w = Ret (r, w') → t0 ≤ now w'.
Proof.
  unfold build_from. destruct (factory p !! ep') as [f|]; [|done]. intros Hw [= Hb].
  pose proof (build_now f w) as Hn. rewrite Hb in Hn. simpl in Hn. lia.
Qed.

Lemma panicked_good : good_task ep t0 G gen late TPanicked.
Proof. by apply no_tag_good. Qed.

Lemma pop_good p ep' g :
  young_queue ep t0 G gen p → tag_good ep' g →
  young_queue ep t0 G gen (pop_idle ep' p).2 ∧
  ∀ c, (pop_idle ep' p).1 = Some c → good_task ep t0 G gen late (TPing ep' g c).
Proof.
  intros Hy Hg. pose proof Hy as ((_ & Hk) & i0 & Hi0 & Hgen & _ & Hq). unfold pop_idle.
  destruct (pool p !! ep') as [i|] eqn:Ei; [|done]. unfold inner_get_conn.
  assert (ep' = ep → i = i0) as Hsame by (intros ->; congruence).
  destruct (inner_queue i) as [|c0 q] eqn:Eq; simpl.
  - split; [|done]. apply set_inner_young; [done|by rewrite Eq; intros c ?%elem_of_nil|].
    intros He. rewrite (Hsame He), Hgen. split; [done|]. rewrite <- (Hsame He), Eq. by intros c ?%elem_of_nil.
  - assert (∀ c, c ∈ c0 :: q → get_endpoint c = ep') as Hke by (intros c Hc; eapply Hk; [done|by rewrite Eq]).
    split.
    + apply set_inner_young; [done|intros c Hc; apply Hke; by right|].
      intros He. simpl. rewrite (Hsame He), Hgen. split; [done|].
      intros c Hc. apply Hq. rewrite <- (Hsame He), Eq. by right.
    + intros c [= <-]. split; [split_and!|]; simpl; try done.
      * intros g' [= He ->]. by apply Hg.
      * intros ep2 g2 c2 [= <- <- <-]. apply Hke. by left.
      * intros g' [= He ->]. split; [by apply Hg|]. intros _ c [= <-].
        apply Hq. rewrite <- (Hsame He), Eq. by left.
Qed.

(** The task of a step that ends without a connection. *)
Ltac finish_step :=
  split_and!; try done; try lia; try apply panicked_good;
  try (by eapply waiting_good); try (by apply no_tag_good).

Lemma get_step_young t p w t' p' w' :
  young_queue ep t0 G gen p → t0 ≤ now w → good_task ep t0 G gen late t →
  get_step t p w = (t', p', w') →
  young_queue ep t0 G gen p' ∧ t0 ≤ now w' ∧ good_task ep t0 G gen late t'.
Proof.
  intros Hy Hw Ht. pose proof Hy as (Hk & i0 & Hi0 & Hgen & HG & _).
  destruct t as [m ep'|m ep'|m ep'|ep' g|ep' g|m ep' g|ep' g c|[|n] ep' g|pc|e|];
    simpl; unfold or_panic.
  - destruct (pool p !! ep') eqn:Ep; intros [= <- <- <-]; split_and!; try done; apply no_tag_good; try done.
    intros m' [= -> ->]. congruence.
  - assert (ep' ≠ ep) as Hne by (destruct Ht as [(Hn & _) _]; intros ->; by apply (Hn m)).
    unfold new_pool_inner. destruct (decide _); simpl; intros [= <- <- <-];
      (split_and!; [|done|]; [done || idtac|by apply no_tag_good]).
    apply set_inner_young; [done| |done]. by intros c ?%elem_of_nil.
  - intros [= <- <- <-]. split_and!; try done.
    destruct m; (eapply waiting_good; [done|done|done|]; intros ->; rewrite Hi0; split; [lia|]; intros; lia).
  - pose proof (good_tag _ _ _ Ht eq_refl) as Hg. destruct (pop_good p ep' g Hy Hg) as [Hy' Hc].
    destruct (pop_idle ep' p) as [[c|] p2]; intros [= <- <- <-]; split_and!; try done.
    + by apply Hc.
    + by eapply waiting_good.
  - pose proof (good_tag _ _ _ Ht eq_refl) as Hg. unfold insert_missing.
    destruct (pool p !! ep') eqn:Ep; cbv [mbind exec_bind].
    { intros [= <- <- <-]. split_and!; try done. by eapply waiting_good. }
    unfold new_pool_inner. destruct (decide _); simpl; intros [= <- <- <-]; finish_step.
    apply set_inner_young; [done| |intros ->; congruence]. by intros c ?%elem_of_nil.
  - pose proof (good_tag _ _ _ Ht eq_refl) as Hg.
    destruct (build_from ep' p w) as [[[c|e] w1]|] eqn:Eb.
    + destruct (build_good _ _ _ _ _ _ Hy Hw Hg Eb). by intros [= <- <- <-].
    + pose proof (build_now_le _ _ _ _ _ Hw Eb). destruct m; intros [= <- <- <-]; finish_step.
    + intros [= <- <- <-]. finish_step.
  - pose proof (good_tag _ _ _ Ht eq_refl) as Hg. destruct (ping_same c w) as (He & Hb & Hn).
    destruct (ping c w) as [[r c'] w1]. simpl in *. destruct Ht as [(_ & _ & Hc) Hyt].
    destruct (is_ok r); intros [= <- <- <-]; finish_step.
    apply (held_good c' g ep'); [rewrite He; by eapply Hc|done|].
    intros -> HG'. rewrite Hb. by apply (Hyt g).
  - intros [= <- <- <-]. finish_step.
  - pose proof (good_tag _ _ _ Ht eq_refl) as Hg.
    destruct (build_from ep' p w) as [[[c|e] w1]|] eqn:Eb.
    + destruct (build_good _ _ _ _ _ _ Hy Hw Hg Eb). by intros [= <- <- <-].
    + pose proof (build_now_le _ _ _ _ _ Hw Eb). destruct n; intros [= <- <- <-]; finish_step.
    + intros [= <- <- <-]. finish_step.
  - by intros [= <- <- <-].
  - by intros [= <- <- <-].
  - by intros [= <- <- <-].
Qed.
End StepYoung.

Lemma young_insert ep t0 G gen late p w k t ts w0 p0 :
  young ep t0 G gen late (mk_sys p0 w0 ts) → young_queue ep t0 G gen p → t0 ≤ now w →
  good_task ep t0 G gen (late k) t → young ep t0 G gen late (mk_sys p w (<[k := t]> ts)).
Proof.
  intros (_ & _ & Ht) Hy Hw Hg. split_and!; try done. simpl. intros k' t'.
  destruct (decide (k = k')) as [->|]; [rewrite lookup_insert_eq; by intros [= <-]|].
  rewrite lookup_insert_ne by done. apply Ht.
Qed.

Lemma good_task_later ep t0 G gen gen' late t :
  gen ≤ gen' → good_task ep t0 G gen late t → good_task ep t0 G gen' late t.
Proof.
  intros Hle [(Hi & Hg & Hc) Hy]. split; [|done]. split_and!; try done.
  intros g E1. specialize (Hg g E1). lia.
Qed.

Lemma drop_young ep t0 G gen late pc p :
  young_queue ep t0 G gen p → good_task ep t0 G gen late (THeld pc) →
  young_queue ep t0 G gen (drop_conn pc p).
Proof.
  intros Hy [_ Ht]. unfold drop_conn. destruct pc as [[c|] g]; simpl; [|done].
  destruct (pool p !! get_endpoint c) as [i|] eqn:Ei; [|done].
  destruct (generation i =? g) eqn:Eg; [|done]. apply Z.eqb_eq in Eg.
  pose proof Hy as ((_ & Hk) & i0 & Hi0 & Hgen & HG & Hq).
  assert (∀ c', c' ∈ inner_queue (inner_put_conn c i) → c' = c ∨ c' ∈ inner_queue i) as Hin.
  { intros c'. unfold inner_put_conn. destruct (decide _); simpl; [|by right].
    rewrite elem_of_app, list_elem_of_singleton. tauto. }
  apply set_inner_young; [done| |].
  - intros c' [->|Hc]%Hin; [done|by eapply Hk].
  - intros He. rewrite He in Ei. assert (i0 = i) as -> by congruence. rewrite <- Hgen. split.
    + unfold inner_put_conn. by destruct (decide _).
    + intros c' [->|Hc]%Hin; [|by apply Hq].
      apply (Ht (generation i)); simpl; [by rewrite He, Eg|lia|done].
Qed.

Lemma refresh_young ep t0 G gen ep' p :
  young_queue ep t0 G gen p → 0 ≤ gen < 2 ^ 64 - 1 →
  ∃ gen', gen ≤ gen' ≤ gen + 1 ∧ young_queue ep t0 G gen' (refresh_endpoint ep' p).2.
Proof.
  intros Hy Hb. pose proof Hy as ((_ & Hk) & i0 & Hi0 & Hgen & HG & Hq).
  unfold refresh_endpoint. destruct (pool p !! ep') as [i|] eqn:Ei; [|exists gen; split; [lia|done]].
  unfold refresh. rewrite drain_all. simpl. destruct (decide (ep' = ep)) as [->|].
  - exists (gen + 1). split; [lia|]. rewrite Hi0 in Ei. simplify_eq.
    split; [apply set_inner_keyed; [apply Hy|]; by intros c ?%elem_of_nil|].
    simpl. rewrite lookup_insert_eq. eexists. split_and!; [done| | |].
    + simpl. rewrite u64_wrap_small; lia.
    + lia.
    + by intros c ?%elem_of_nil.
  - exists gen. split; [lia|]. apply set_inner_young; try done. by intros c ?%elem_of_nil.
Qed.

Lemma set_factory_young ep t0 G gen ep' f p :
  get_endpoint f = ep' → young_queue ep t0 G gen p → young_queue ep t0 G gen (set_factory ep' f p).
Proof.
  intros Hf ([Hk1 Hk2] & Hi). unfold set_factory. destruct (factory p !! ep') eqn:Ef; [done|].
  split; [|done]. split; [|done]. simpl. intros ep2 f2.
  destruct (decide (ep' = ep2)) as [->|]; [rewrite lookup_insert_eq; naive_solver|].
  rewrite lookup_insert_ne by done. apply Hk1.
Qed.

Lemma act_young ep t0 G gen late s a :
  young ep t0 G gen late s → keyed_action a → 0 ≤ gen < 2 ^ 64 - 1 →
  ∃ gen', gen ≤ gen' ≤ gen + 1 ∧ young ep t0 G gen' late (act s a).
Proof.
  intros Hy Ha Hb. pose proof Hy as (Hq & Hw & Ht). destruct s as [p w ts]; simpl in *.
  destruct a as [k m ep'|k|k l|k|ep'|ep' f]; simpl.
  - exists gen. split; [lia|]. destruct (ts !! k) eqn:Ek; [done|].
    by eapply young_insert; [| | |apply no_tag_good].
  - exists gen. split; [lia|]. destruct (ts !! k) as [t|] eqn:Ek; [|done].
    destruct (get_step t p w) as [[t' p'] w'] eqn:Eg.
    destruct (get_step_young _ _ _ _ _ _ _ _ _ _ _ Hq Hw (Ht _ _ Ek) Eg) as (? & ? & ?).
    by eapply young_insert.
  - exists gen. split; [lia|]. destruct (ts !! k) as [[| | | | | | | |[[c|] g]| |]|] eqn:Ek; try done.
    unfold reinit_session. destruct (init_same c l w) as (He & Hbn & Hn).
    destruct (init_conn c l w) as [c' w']. simpl in *.
    eapply young_insert; [done|done|lia|]. eapply held_good; [exact He|by apply (good_tag _ _ _ _ _ _ _ _ (Ht _ _ Ek))|].
    intros E1 HG. rewrite Hbn. destruct (Ht _ _ Ek) as [_ Hyt]. apply (Hyt g); simpl; [by rewrite E1|done|done].
  - exists gen. split; [lia|]. destruct (ts !! k) as [[| | | | | | | |pc| |]|] eqn:Ek; try done.
    split_and!; [by eapply drop_young, (Ht k)|done|]. simpl. intros k' t'.
    destruct (decide (k = k')) as [->|]; [by rewrite lookup_delete_eq|].
    rewrite lookup_delete_ne by done. apply Ht.
  - destruct (refresh_young _ _ _ _ ep' _ Hq Hb) as (gen' & Hle & Hq'). exists gen'. split; [done|].
    split_and!; try done. intros k t Hk. eapply good_task_later; [|by apply Ht]. lia.
  - exists gen. split; [lia|]. split_and!; [by apply set_factory_young|done|done].
Qed.

Lemma acts_young ep t0 G gen late l s :
  young ep t0 G gen late s → Forall keyed_action l → 0 ≤ gen →
  gen + Z.of_nat (length l) < 2 ^ 64 → ∃ gen', young ep t0 G gen' late (acts s l).
Proof.
  revert s gen. induction l as [|a l IH]; intros s gen Hy Hl H0 Hb; [by exists gen|].
  apply Forall_cons in Hl as [Ha Hl]. simpl in Hb.
  destruct (act_young ep t0 G gen late s a Hy Ha ltac:(lia)) as (gen' & Hle & Hy').
  apply (IH (act s a) gen'); try done; lia.
Qed.

Lemma refresh_starts ep s i :
  keyed (sys_pool s) → pool (sys_pool s) !! ep = Some i → 0 ≤ generation i < 2 ^ 64 - 1 →
  (∀ k t, tasks s !! k = Some t → tag_ok ep (generation i) t) →
  young ep (now (sys_world s)) (generation i + 1) (generation i + 1)
    (λ k, tasks s !! k = None) (act s (ARefresh ep)).
Proof.
  intros Hk Hi Hb Ht. destruct s as [p w ts]; simpl in *. unfold young, young_queue. simpl.
  unfold refresh_endpoint, refresh. rewrite Hi, drain_all. simpl. split; [|split; [done|]].
  - split; [apply set_inner_keyed; [done|]; by intros c ?%elem_of_nil|]. simpl. rewrite lookup_insert_eq.
    eexists. split_and!; [done|simpl; rewrite u64_wrap_small; lia|lia|]. by intros c ?%elem_of_nil.
  - intros k t Hkt. destruct (Ht k t Hkt) as (H1 & H2 & H3). split; [split_and!; try done|].
    + intros g E1. specialize (H2 g E1). lia.
    + intros g E1. specialize (H2 g E1). split; [congruence|lia].
Qed.

(** C19 After [refresh_endpoint] no connection built before it is handed out again:
    whatever the tasks do afterwards, in any interleaving and with connections
    checked out across the refresh, a request that starts after the refresh
    holds a connection built after it (as long as the generation counter does not
    wrap, and no first use of the endpoint is still in progress). *)
Theorem no_stale_connection ep s l k c g :
  settled ep s → Forall keyed_action l →
  (∀ i, pool (sys_pool s) !! ep = Some i → generation i + Z.of_nat (length l) + 1 < 2 ^ 64) →
  tasks s !! k = None →
  tasks (acts (act s (ARefresh ep)) l) !! k = Some (THeld (mk_pool_conn (Some c) g)) →
  get_endpoint c = ep → now (sys_world s) ≤ born c.
Proof.
  intros (Hk & i & Hi & H0 & Ht) Hl Hb Hn Hh He. specialize (Hb i Hi).
  pose proof (refresh_starts ep s i Hk Hi ltac:(lia) Ht) as Hy.
  destruct (acts_young _ _ _ _ _ l _ Hy Hl ltac:(lia) ltac:(lia)) as (gen' & _ & _ & Hts).
  destruct (Hts k _ Hh) as [_ Hyt]. destruct (Hyt g) as [Hg Hc]; [simpl; by rewrite He|].
  apply Hc; [by apply Hg|done].
Qed.

(** *** Capacity *)

Definition bounded (p : Pool) : Prop :=
  ∀ ep i, pool p !! ep = Some i → inner_cap i = size p ∧ (length (inner_queue i) ≤ size p)%nat.

Lemma set_inner_bounded ep i p :
  bounded p → inner_cap i = size p ∧ (length (inner_queue i) ≤ size p)%nat → bounded (set_inner ep i p).
Proof.
  intros Hb Hi ep' i'. simpl. destruct (decide (ep = ep')) as [->|].
  - rewrite lookup_insert_eq. by intros [= <-].
  - rewrite lookup_insert_ne by done. apply Hb.
Qed.

Lemma get_step_bounded t p w : bounded p → bounded (get_step t p w).1.2.
Proof.
  intros Hb. destruct t as [| | |ep g|ep g|[] ep g| |[]| | |]; simpl; unfold or_panic; try by split_matches.
  - unfold new_pool_inner. destruct (decide _); simpl; [done|]. apply set_inner_bounded; [done|]. simpl. lia.
  - assert (bounded (pop_idle ep p).2) as H; [|by destruct (pop_idle ep p)].
    unfold pop_idle. destruct (pool p !! ep) as [i|] eqn:Ei; [|done]. specialize (Hb ep i Ei) as Hi.
    unfold inner_get_conn. destruct (inner_queue i) eqn:Eq; simpl in *; apply set_inner_bounded; rewrite ?Eq; try done.
    simpl. lia.
  - unfold insert_missing. destruct (pool p !! ep) eqn:Ei; [done|]. unfold new_pool_inner.
    destruct (decide _); simpl; [done|]. apply set_inner_bounded; [done|]. simpl. lia.
Qed.

(** No schedule makes the pool keep more idle connections of an endpoint than its
    size. *)
Theorem idle_bounded s l : bounded (sys_pool s) → bounded (sys_pool (acts s l)).
Proof.
  revert s. induction l as [|a l IH]; intros s Hb; [done|]. apply IH. destruct s as [p w ts]; simpl in *.
  destruct a as [k m ep'|k|k l'|k|ep'|ep' f]; simpl.
  - by destruct (ts !! k).
  - destruct (ts !! k) as [t|]; [|done]. pose proof (get_step_bounded t p w Hb).
    by destruct (get_step t p w) as [[? ?] ?].
  - split_matches.
  - destruct (ts !! k) as [[| | | | | | | |[[c|] g]| |]|]; try done. simpl. unfold drop_conn; simpl.
    destruct (pool p !! get_endpoint c) as [i|] eqn:Ei; [|done]. destruct (generation i =? g); [|done].
    apply set_inner_bounded; [done|]. specialize (Hb _ _ Ei). unfold inner_put_conn.
    destruct (decide _); simpl; [rewrite length_app; simpl; lia|done].
  - unfold refresh_endpoint. destruct (pool p !! ep') as [i|] eqn:Ei; [|done]. unfold refresh. rewrite drain_all.
    apply set_inner_bounded; [done|]. specialize (Hb _ _ Ei). simpl. lia.
  - unfold set_factory. by destruct (factory p !! ep').
Qed.
End Pool.

Arguments PoolInner : clear implicits.
Arguments PoolConn : clear implicits.
Arguments Pool : clear implicits.
Arguments Task : clear implicits.
Arguments Sys : clear implicits.
Arguments Action : clear implicits.

(** ** A concrete network *)

(** The world is a clock and the scripted outcomes of the next builds and pings. *)
Record TestConn := mk_test_conn { tc_endpoint : str; tc_born : Z }.
Record TestWorld := mk_test_world { clock : Z; script : list bool }.

Definition next_outcome (w : TestWorld) : bool * TestWorld :=
  match script w with
  | [] => (true, mk_test_world (clock w + 1) [])
  | b :: l => (b, mk_test_world (clock w + 1) l)
  end.

#[export] Instance test_conn_like : ConnLike TestConn str str TestWorld := {
  build_conn f w := let '(b, w') := next_outcome w in
    (if b then Ok (mk_test_conn (tc_endpoint f) (clock w)) else Err $"refused", w');
  ping c w := let '(b, w') := next_outcome w in
    (if b then Ok tt else Err $"closed", c, w');
  init_conn c _ w := (c, w);
  get_endpoint := tc_endpoint
}.

#[export] Instance test_conn_laws : ConnLaws test_conn_like.
Proof.
  refine {| now := clock; born := tc_born |}; simpl; unfold next_outcome; intros;
    destruct (script w) as [|[] ?]; simplify_eq/=; split_and?; try done; lia.
Defined.

Definition db1 : str := $"db1:3306".
Definition one_pool : Pool TestConn :=
  mk_pool {[ db1 := mk_test_conn db1 0 ]} 2 {[ db1 := mk_pool_inner [] 2 0 ]}.
Definition one_sys (w : TestWorld) : Sys TestConn str TestWorld := mk_sys one_pool w ∅.

(** Four failed builds: the pool retries and returns the fifth. *)
Lemma acquire_outcome_witness :
  ∃ r p' w' s,
    get_conn_with_endpoint_with_generation db1 one_pool
      (mk_test_world 7 [false; false; false; false]) = Ret (r, p', w', s) ∧
    acquire_spec db1 one_pool (mk_test_world 7 [false; false; false; false]) (mk_test_conn db1 0) r w' ∧
    0 ≤ s ≤ 1533 ∧ (is_ok r = false → s = 1533) ∧ idle db1 p' = tail (idle db1 one_pool).
Proof. apply (acquire_outcome db1 one_pool _ (mk_test_conn db1 0)); vm_compute; [lia|done]. Defined.

Lemma acquire_progress_witness :
  ∃ l1 l2 t, replicate 17 (AStep 1) = l1 ++ l2 ∧
    tasks (acts (mk_sys one_pool (mk_test_world 0 []) {[ 1%nat := TCheck Get db1 ]}) l1) !! 1%nat = Some t ∧
    finished t = true ∧ t ≠ TPanicked.
Proof. eapply (acquire_progress (C := test_conn_like) _ 1 Get db1); vm_compute; [lia|by eexists|done|lia]. Defined.

(** A connection checked out across the refresh is dropped, and the next request
    gets one that was built after it. *)
Definition refresh_run : list (Action TestConn str) :=
  [ADrop 1; AStart 2 Get db1; AStep 2; AStep 2; AStep 2; AStep 2; AStep 2; AStep 2].
Definition held_sys : Sys TestConn str TestWorld :=
  mk_sys one_pool (mk_test_world 9 []) {[ 1%nat := held (mk_test_conn db1 3) 0 ]}.
Lemma no_stale_connection_witness :
  tasks (acts (act held_sys (ARefresh db1)) refresh_run) !! 2%nat = Some (held (mk_test_conn db1 9) 1) ∧
  now (sys_world held_sys) ≤ born (mk_test_conn db1 9).
Proof.
  split; [vm_compute; reflexivity|].
  apply (no_stale_connection db1 held_sys refresh_run 2 (mk_test_conn db1 9) 1).
  - split.
    + split.
      * intros ep f. simpl. rewrite lookup_singleton_Some. by intros [<- <-].
      * intros ep i c. simpl. rewrite lookup_singleton_Some. intros [<- <-]. by intros ?%elem_of_nil.
    + eexists. split_and!; [vm_compute; reflexivity|done|].
      intros k t. simpl. rewrite lookup_singleton_Some. intros [<- <-]. split_and!; try done.
      by intros g [= <-].
  - by repeat constructor.
  - intros i Hi. assert (i = mk_pool_inner [] 2 0) as -> by (vm_compute in Hi; congruence).
    vm_compute. reflexivity.
  - vm_compute. reflexivity.
  - vm_compute. reflexivity.
  - reflexivity.
Defined.

(** The [contains_key]/[insert] pair of [ensure_pool_inner] is not atomic.  Two
    first requests both find the endpoint missing; the second replaces the queue
    after a refresh and so takes the generation back to zero: the connection the
    first request had checked out before the refresh is accepted again, and a
    request that starts after the refresh is given it. *)
Definition race_run : list (Action TestConn str) :=
  [AStart 1 Get db1; AStart 2 Get db1; AStep 1; AStep 2; AStep 1; AStep 1; AStep 1; AStep 1; AStep 1;
   ARefresh db1; AStep 2; ADrop 1;
   AStart 3 Get db1; AStep 3; AStep 3; AStep 3; AStep 3].
Theorem first_use_race :
  let s0 := mk_sys (mk_pool {[ db1 := mk_test_conn db1 0 ]} 2 ∅) (mk_test_world 5 []) ∅ in
  let s1 := acts s0 (take 9 race_run) in
  tasks s1 !! 3%nat = None ∧ race_run !! 9%nat = Some (ARefresh db1) ∧
  sys_world s1 = mk_test_world 6 [] ∧
  tasks (acts s0 race_run) !! 3%nat = Some (held (mk_test_conn db1 5) 0).
Proof. vm_compute. done. Qed.
