(* ===== verification/Session.v ===== *)
(** * Session state and route plans

    [TransactionState] and [SessionState] of [gateway/core/src/model.rs],
    [ProtocolKind::parse], and [gateway/core/src/route.rs]. *)

From S2P Require Import Prelude RustStr Model.

Inductive TransactionState := Idle | Active | Failed.

#[export] Instance TransactionState_eq_dec : EqDecision TransactionState.
Proof. solve_decision. Defined.

Record SessionState := mkSession {
  user : option str;
  database : option str;
  charset : option str;
  autocommit : option bool;
  backend_endpoint : option str;
  transaction_state : TransactionState;
  prefer_binary_result : bool;
  pg_extended_query : bool;
  pg_extended_error : bool;
  pg_execute_max_rows : option Z;
  result_truncated : bool;
  pg_portal_name : option str;
  pg_portal_skip_rows : Z;
  pg_drop_portal_hold : bool;
  pg_client_extended_frames : list str;
  pg_ext_tcp_hold : bool
}.

Definition default_session : SessionState :=
  mkSession None None None None None Idle false false false None false None 0 false [] false.

(** ** Assignments to one field *)

Definition with_endpoint (e : option str) (s : SessionState) : SessionState :=
  mkSession (user s) (database s) (charset s) (autocommit s) e (transaction_state s)
    (prefer_binary_result s) (pg_extended_query s) (pg_extended_error s) (pg_execute_max_rows s)
    (result_truncated s) (pg_portal_name s) (pg_portal_skip_rows s) (pg_drop_portal_hold s)
    (pg_client_extended_frames s) (pg_ext_tcp_hold s).

Definition with_transaction (t : TransactionState) (s : SessionState) : SessionState :=
  mkSession (user s) (database s) (charset s) (autocommit s) (backend_endpoint s) t
    (prefer_binary_result s) (pg_extended_query s) (pg_extended_error s) (pg_execute_max_rows s)
    (result_truncated s) (pg_portal_name s) (pg_portal_skip_rows s) (pg_drop_portal_hold s)
    (pg_client_extended_frames s) (pg_ext_tcp_hold s).

Definition with_binary (b : bool) (s : SessionState) : SessionState :=
  mkSession (user s) (database s) (charset s) (autocommit s) (backend_endpoint s)
    (transaction_state s) b (pg_extended_query s) (pg_extended_error s) (pg_execute_max_rows s)
    (result_truncated s) (pg_portal_name s) (pg_portal_skip_rows s) (pg_drop_portal_hold s)
    (pg_client_extended_frames s) (pg_ext_tcp_hold s).

(** [pg_extended_query] and [pg_extended_error]. *)
Definition with_extended (q e : bool) (s : SessionState) : SessionState :=
  mkSession (user s) (database s) (charset s) (autocommit s) (backend_endpoint s)
    (transaction_state s) (prefer_binary_result s) q e (pg_execute_max_rows s)
    (result_truncated s) (pg_portal_name s) (pg_portal_skip_rows s) (pg_drop_portal_hold s)
    (pg_client_extended_frames s) (pg_ext_tcp_hold s).

(** [pg_execute_max_rows] and [result_truncated]. *)
Definition with_page (m : option Z) (t : bool) (s : SessionState) : SessionState :=
  mkSession (user s) (database s) (charset s) (autocommit s) (backend_endpoint s)
    (transaction_state s) (prefer_binary_result s) (pg_extended_query s) (pg_extended_error s) m t
    (pg_portal_name s) (pg_portal_skip_rows s) (pg_drop_portal_hold s)
    (pg_client_extended_frames s) (pg_ext_tcp_hold s).

(** [pg_portal_name], [pg_portal_skip_rows] and [pg_drop_portal_hold]. *)
Definition with_portal (n : option str) (skip : Z) (drop : bool) (s : SessionState) : SessionState :=
  mkSession (user s) (database s) (charset s) (autocommit s) (backend_endpoint s)
    (transaction_state s) (prefer_binary_result s) (pg_extended_query s) (pg_extended_error s)
    (pg_execute_max_rows s) (result_truncated s) n skip drop
    (pg_client_extended_frames s) (pg_ext_tcp_hold s).

(** [pg_client_extended_frames] and [pg_ext_tcp_hold]. *)
Definition with_frames (l : list str) (h : bool) (s : SessionState) : SessionState :=
  mkSession (user s) (database s) (charset s) (autocommit s) (backend_endpoint s)
    (transaction_state s) (prefer_binary_result s) (pg_extended_query s) (pg_extended_error s)
    (pg_execute_max_rows s) (result_truncated s) (pg_portal_name s) (pg_portal_skip_rows s)
    (pg_drop_portal_hold s) l h.

(** [if transaction_state == Active { transaction_state = Failed }]. *)
Definition fail_transaction (s : SessionState) : SessionState :=
  match transaction_state s with Active => with_transaction Failed s | _ => s end.

(** ** [ProtocolKind::parse] (ASCII letters; other characters pass unchanged) *)

Definition protocol_parse (value : str) : result str ProtocolKind :=
  let normalized := map to_lower (List.filter (λ c, negb (Ascii.eqb c "_") && negb (Ascii.eqb c "-")
                                              && negb (Ascii.eqb c " ")) value) in
  if one_of [$"mysql"; $"mariadb"] normalized then Ok MySql
  else if one_of [$"postgresql"; $"postgres"; $"pgsql"; $"pg"] normalized then Ok PostgreSql
  else Err ($"unknown protocol '" ++ normalized
    ++ $"'; expected mysql or postgresql (aliases: my_sql, postgres, postgre_sql, pg)").

(** ** [route.rs] *)

Record EndpointRef := mkEndpointRef { ref_name : str; ref_address : str }.
Record ShardTarget := mkShard { shard_endpoint : EndpointRef; rewritten_shard_sql : option str }.

Inductive RoutePlan :=
| Single (endpoint : EndpointRef)
| Broadcast (endpoints : list EndpointRef)
| Sharded (shards : list ShardTarget)
| Reject (reason : str).

Definition as_single_endpoint (p : RoutePlan) : option EndpointRef :=
  match p with Single e => Some e | _ => None end.

Definition is_reject (p : RoutePlan) : bool := match p with Reject _ => true | _ => false end.
