(* ===== verification/Plugin.v ===== *)
(** * Governance plugins

    [gateway/core/src/plugin.rs] (what a plugin sees and answers) and the plugin
    crate [data-proxy/plugin/src/]: the circuit breaker, the concurrency limiter
    and the phase that runs both.

    A regular expression is a parameter ([RegexLib] of [Route], with the builder
    flag of [RegexFlags]).  A [tokio::sync::Semaphore] is its number of permits;
    [Instant::now()] is an argument, in nanoseconds. *)

From S2P Require Import Prelude RustStr Model Session Route.

(** ** [gateway/core/src/plugin.rs] *)

Inductive CommandSummary :=
| SQuery (sql : str)
| SQueryParams (sql : str)
| SPrepare (sql : str)
| SExecute (statement_id : str)
| SCloseStatement (statement_id : str)
| SDescribeSql (sql : str)
| SClientWire
| SPgBackendSync
| SUseDatabase (database : str)
| SBegin
| SCommit
| SRollback
| SPing
| SQuit.

Definition from_command (command : GatewayCommand) : CommandSummary :=
  match command with
  | Query sql => SQuery sql
  | QueryParams sql _ => SQueryParams sql
  | Prepare sql => SPrepare sql
  | Execute id _ => SExecute id
  | CloseStatement id => SCloseStatement id
  | DescribeSql sql => SDescribeSql sql
  | ClientWire _ => SClientWire
  | PgBackendSync => SPgBackendSync
  | UseDatabase db => SUseDatabase db
  | Begin => SBegin
  | Commit => SCommit
  | Rollback => SRollback
  | Ping => SPing
  | Quit => SQuit
  end.

Definition summary_match_text (c : CommandSummary) : str :=
  match c with
  | SQuery sql | SQueryParams sql | SPrepare sql | SDescribeSql sql => sql
  | SExecute id | SCloseStatement id => id
  | SUseDatabase db => db
  | SClientWire => $"CLIENT_WIRE"
  | SPgBackendSync => $"PG_BACKEND_SYNC"
  | SBegin => $"BEGIN"
  | SCommit => $"COMMIT"
  | SRollback => $"ROLLBACK"
  | SPing => $"PING"
  | SQuit => $"QUIT"
  end.

Definition rewritten_sql (c : CommandSummary) (sql : str) : option GatewayCommand :=
  match c with
  | SQuery _ => Some (Query sql)
  | SQueryParams _ => Some (QueryParams sql [])
  | SPrepare _ => Some (Prepare sql)
  | _ => None
  end.

Record PluginContext := mkPluginContext {
  ctx_service : str;
  client_protocol : ProtocolKind;
  ctx_user : option str;
  ctx_database : option str;
  ctx_command : CommandSummary;
  ctx_route_plan : option RoutePlan
}.

Definition match_text (c : PluginContext) : str := summary_match_text (ctx_command c).

Inductive PluginDecision :=
| PContinue (concurrency_rule_idx : option nat)
| PReject (code message : str)
| PRewrite (sql : str).

Definition continue_default : PluginDecision := PContinue None.
Definition continue_with_permit (idx : nat) : PluginDecision := PContinue (Some idx).

(** ** [plugin/src/] *)

Inductive PluginError := ConcurrencyControlPluginReject | CircuitBreakPluginReject | UnknownPluginError.

(** [Display], as [thiserror] derives it. *)
Definition plugin_error_to_string (e : PluginError) : str :=
  match e with
  | ConcurrencyControlPluginReject => $"concurrency control plugin rejected"
  | CircuitBreakPluginReject => $"audit plugin rejected"
  | UnknownPluginError => $"unknown error"
  end.

(** [config.rs]; durations in nanoseconds. *)
Record ConcurrencyControlConfig := mkCcConfig {
  cc_regex : list str; cc_max_concurrency : Z; cc_duration : Z }.
Record CircuitBreakConfig := mkCbConfig { cb_regex : list str; cb_case_insensitive : bool }.
Record PluginConfig := mkPluginConfig {
  concurrency_control_config : option (list ConcurrencyControlConfig);
  circuit_break_config : option (list CircuitBreakConfig) }.

(** [RegexBuilder::new(r).case_insensitive(b).build()]. *)
Class RegexFlags `{Route.RegexLib} := { regex_build : bool → str → option Route.Re }.

Section Plugins.
Context `{RegexFlags}.

Definition any_match (l : list Route.Re) (input : str) : bool :=
  existsb (λ r, Route.regex_is_match r input) l.

(** [.map(|r| ... .unwrap()).collect()]. *)
Fixpoint compile_all (f : str → option Route.Re) (l : list str) : exec (list Route.Re) :=
  match l with
  | [] => Ret []
  | p :: l =>
      match f p with
      | None => Panic
      | Some r => rs ← compile_all f l; Ret (r :: rs)
      end
  end.

(** *** The circuit breaker *)

Abbreviation CircuitBreakInstance := (list Route.Re).

Fixpoint create_breakers (l : list CircuitBreakConfig) : exec (list CircuitBreakInstance) :=
  match l with
  | [] => Ret []
  | c :: l =>
      r ← compile_all (regex_build (cb_case_insensitive c)) (cb_regex c);
      rs ← create_breakers l;
      Ret (r :: rs)
  end.

Definition breaker_is_allow (instances : option (list CircuitBreakInstance)) (input : str) : bool :=
  match instances with
  | Some l => negb (existsb (λ c, any_match c input) l)
  | None => true
  end.

Definition breaker_handle (instances : option (list CircuitBreakInstance)) (input : str)
    : result PluginError unit :=
  if breaker_is_allow instances input then Ok tt else Err CircuitBreakPluginReject.

(** *** The concurrency limiter *)

Record ConcurrencyControlInstance := mkCc {
  cc_regexes : list Route.Re;
  max_concurrency : Z;
  permits : Z;
  duration : Z;
  start_at : option Z
}.

Definition new_limiter (c : ConcurrencyControlConfig) (r : list Route.Re) : ConcurrencyControlInstance :=
  mkCc r (cc_max_concurrency c) (cc_max_concurrency c) (cc_duration c) None.

Fixpoint create_limiters (l : list ConcurrencyControlConfig) : exec (list ConcurrencyControlInstance) :=
  match l with
  | [] => Ret []
  | c :: l =>
      r ← compile_all Route.regex_new (cc_regex c);
      rs ← create_limiters l;
      Ret (new_limiter c r :: rs)
  end.

(** [try_acquire_owned] and [forget]. *)
Definition try_acquire (c : ConcurrencyControlInstance) : bool * ConcurrencyControlInstance :=
  if 1 <=? permits c
  then (true, mkCc (cc_regexes c) (max_concurrency c) (permits c - 1) (duration c) (start_at c))
  else (false, c).

(** A matching rule: the first match starts the window, a match after its end
    resets the rule and passes without a permit. *)
Definition limiter_hit (now : Z) (idx : nat) (c : ConcurrencyControlInstance)
    : option nat * bool * ConcurrencyControlInstance :=
  match start_at c with
  | None =>
      let '(ok, c) := try_acquire (mkCc (cc_regexes c) (max_concurrency c) (permits c) (duration c) (Some now)) in
      (Some idx, ok, c)
  | Some t =>
      if duration c <? now - t then
        (None, true, mkCc (cc_regexes c) (max_concurrency c) (max_concurrency c) (duration c) None)
      else let '(ok, c) := try_acquire c in (Some idx, ok, c)
  end.

(** The loop over the rules from index [idx] on: the first rule that matches
    decides. *)
Fixpoint limiter_loop (now : Z) (input : str) (idx : nat) (l : list ConcurrencyControlInstance)
    : option nat * bool * list ConcurrencyControlInstance :=
  match l with
  | [] => (None, true, [])
  | c :: l =>
      if any_match (cc_regexes c) input then
        let '(i, ok, c) := limiter_hit now idx c in (i, ok, c :: l)
      else let '(i, ok, l) := limiter_loop now input (S idx) l in (i, ok, c :: l)
  end.

Definition limiter_is_allow (now : Z) (input : str) (instances : option (list ConcurrencyControlInstance))
    : option nat * bool * option (list ConcurrencyControlInstance) :=
  match instances with
  | Some l => let '(i, ok, l) := limiter_loop now input 0 l in (i, ok, Some l)
  | None => (None, true, None)
  end.

Definition limiter_handle (now : Z) (input : str) (instances : option (list ConcurrencyControlInstance))
    : result PluginError (option nat) * option (list ConcurrencyControlInstance) :=
  let '(idx, ok, instances) := limiter_is_allow now input instances in
  (if ok then Ok idx else Err ConcurrencyControlPluginReject, instances).

(** [tokio]'s bound on the permits of a semaphore: [usize::MAX >> 3]. *)
Definition MAX_PERMITS : Z := 2 ^ 61 - 1.

(** [Semaphore::add_permits(1)], which panics past the bound. *)
Definition add_permit (c : ConcurrencyControlInstance) : exec ConcurrencyControlInstance :=
  if MAX_PERMITS <? permits c + 1 then Panic
  else Ret (mkCc (cc_regexes c) (max_concurrency c) (permits c + 1) (duration c) (start_at c)).

Definition add_permits (idx : nat) (instances : option (list ConcurrencyControlInstance))
    : exec (option (list ConcurrencyControlInstance)) :=
  match instances with
  | None => Panic
  | Some l =>
      match l !! idx with
      | None => Panic
      | Some c => c ← add_permit c; Ret (Some (<[idx := c]> l))
      end
  end.

(** *** The phase *)

Record PluginPhase := mkPhase {
  concurrency_control : option (list ConcurrencyControlInstance);
  circuit_break : option (list CircuitBreakInstance)
}.

Definition opt_create {A B} (f : list A → exec (list B)) (o : option (list A)) : exec (option (list B)) :=
  match o with None => Ret None | Some l => r ← f l; Ret (Some r) end.

Definition new_phase (config : PluginConfig) : exec PluginPhase :=
  cc ← opt_create create_limiters (concurrency_control_config config);
  cb ← opt_create create_breakers (circuit_break_config config);
  Ret (mkPhase cc cb).

Definition plugin_evaluate (now : Z) (ctx : PluginContext) (p : PluginPhase)
    : PluginDecision * PluginPhase :=
  let input := match_text ctx in
  match breaker_handle (circuit_break p) input with
  | Err e => (PReject ($"circuit_break") (plugin_error_to_string e), p)
  | Ok _ =>
      let '(r, cc) := limiter_handle now input (concurrency_control p) in
      (match r with
       | Ok (Some idx) => continue_with_permit idx
       | Ok None => continue_default
       | Err e => PReject ($"concurrency_control") (plugin_error_to_string e)
       end, mkPhase cc (circuit_break p))
  end.

Definition release_concurrency (idx : nat) (p : PluginPhase) : exec PluginPhase :=
  cc ← add_permits idx (concurrency_control p);
  Ret (mkPhase cc (circuit_break p)).

(** ** What the phase promises *)

Definition breaks (p : PluginPhase) (input : str) : Prop :=
  ∃ l c r, circuit_break p = Some l ∧ c ∈ l ∧ r ∈ c ∧ Route.regex_is_match r input = true.

Lemma breaker_spec p input : breaker_is_allow (circuit_break p) input = false ↔ breaks p input.
Proof.
  unfold breaker_is_allow, breaks. destruct (circuit_break p) as [l|]; [|naive_solver].
  rewrite negb_false_iff, existsb_elem. unfold any_match. setoid_rewrite existsb_elem. naive_solver.
Qed.

(** A command whose text matches a circuit-breaker rule is rejected with the
    code [circuit_break] whatever the limiter holds, takes no permit and changes
    nothing; no other command is rejected with that code. *)
Theorem breaker_rejects now ctx p :
  (breaks p (match_text ctx) →
   plugin_evaluate now ctx p =
     (PReject ($"circuit_break") ($"audit plugin rejected"), p)) ∧
  (∀ m, (plugin_evaluate now ctx p).1 = PReject ($"circuit_break") m → breaks p (match_text ctx)).
Proof.
  unfold plugin_evaluate, breaker_handle. split.
  - intros H1%breaker_spec. by rewrite H1.
  - intros m. destruct (breaker_is_allow _ _) eqn:E1; [|by intros; apply breaker_spec].
    unfold limiter_handle. destruct (limiter_is_allow _ _ _) as [[[i|] []] cc]; by simpl.
Qed.

(** *** Accounting of the permits of one rule *)

Inductive PEvent := EEvaluate (now : Z) (ctx : PluginContext) | ERelease (idx : nat).

(** Permits handed out for the rule and not yet released, and how often the
    rule's window ended. *)
Record Ledger := mkLedger { phase : PluginPhase; outstanding : Z; resets : Z }.

Definition rule_at (i : nat) (p : PluginPhase) : option ConcurrencyControlInstance :=
  l ← concurrency_control p; l !! i.

(** The window of rule [i] ended in this step. *)
Definition was_reset (i : nat) (p p' : PluginPhase) : bool :=
  match rule_at i p, rule_at i p' with
  | Some c, Some c' => negb (is_none (start_at c)) && is_none (start_at c')
  | _, _ => false
  end.

(** One event; [None] if it panics or if it releases a permit of rule [i] that
    nobody holds. *)
Definition ledger_step (i : nat) (s : Ledger) (e : PEvent) : option Ledger :=
  match e with
  | EEvaluate now ctx =>
      let '(d, p') := plugin_evaluate now ctx (phase s) in
      Some (mkLedger p'
        (match d with PContinue (Some j) => if decide (j = i) then outstanding s + 1 else outstanding s
         | _ => outstanding s end)
        (if was_reset i (phase s) p' then resets s + 1 else resets s))
  | ERelease j =>
      if decide (j = i ∧ outstanding s ≤ 0) then None
      else
        match release_concurrency j (phase s) with
        | Ret p' => Some (mkLedger p' (if decide (j = i) then outstanding s - 1 else outstanding s) (resets s))
        | Panic => None
        end
  end.

Fixpoint ledger_run (i : nat) (s : Ledger) (l : list PEvent) : option Ledger :=
  match l with [] => Some s | e :: l => s' ← ledger_step i s e; ledger_run i s' l end.

(** The first rule that matches decides, and only it changes. *)
Lemma limiter_loop_spec now input idx l :
  limiter_loop now input idx l =
    match position (λ c, any_match (cc_regexes c) input) l with
    | None => (None, true, l)
    | Some k =>
        match l !! k with
        | None => (None, true, l)
        | Some c => let '(r, ok, c') := limiter_hit now (idx + k) c in (r, ok, <[k := c']> l)
        end
    end.
Proof.
  revert idx. induction l as [|c l IH]; intros idx; simpl; [done|].
  destruct (any_match _ _); simpl.
  { rewrite Nat.add_0_r. by destruct (limiter_hit now idx c) as [[? ?] ?]. }
  rewrite IH. destruct (position _ l) as [k|]; simpl; [|done].
  destruct (l !! k) as [c'|]; [|done]. rewrite <- Nat.add_succ_comm. simpl.
  by destruct (limiter_hit now _ c') as [[? ?] ?].
Qed.

Lemma limiter_hit_spec now idx c r ok c' :
  limiter_hit now idx c = (r, ok, c') →
  max_concurrency c' = max_concurrency c ∧
  (r = Some idx ∧ ok = true ∧ 1 ≤ permits c ∧ permits c' = permits c - 1 ∨
   r = Some idx ∧ ok = false ∧ permits c' = permits c ∨
   r = None ∧ ok = true ∧ permits c' = max_concurrency c ∧ is_none (start_at c) = false ∧ start_at c' = None).
Proof.
  unfold limiter_hit, try_acquire. intros E1. destruct (start_at c) as [t|]; simpl in E1.
  - destruct (duration c <? now - t); simpl in E1; [by simplify_eq/=; eauto 10|].
    destruct (1 <=? permits c) eqn:Ep; simplify_eq/=; bool_hyps; eauto 10.
  - destruct (1 <=? permits c) eqn:Ep; simplify_eq/=; bool_hyps; eauto 10.
Qed.

Section Limit.
Variables (i : nat) (m : Z).
Hypothesis m_pos : 0 ≤ m.

(** The rule's permits and those outstanding never exceed its bound by more than
    one bound per window that has ended. *)
Definition within (s : Ledger) : Prop :=
  0 ≤ outstanding s ∧ 0 ≤ resets s ∧
  ∀ c, rule_at i (phase s) = Some c →
    max_concurrency c = m ∧ 0 ≤ permits c ∧ permits c + outstanding s ≤ m * (1 + resets s).

Lemma within_raise p out n n' :
  within (mkLedger p out n) → n ≤ n' → within (mkLedger p out n').
Proof.
  intros (Ho & Hn & Hc) Hle. split_and!; simpl in *; [done|lia|].
  intros c Hr. destruct (Hc c Hr) as (? & ? & ?). split_and!; try done. nia.
Qed.

Lemma evaluate_within now ctx s s' :
  within s → ledger_step i s (EEvaluate now ctx) = Some s' → within s'.
Proof.
  destruct s as [p out n]. unfold ledger_step, plugin_evaluate. simpl. intros Hw.
  destruct (breaker_handle _ _) as [[]|e].
  2:{ intros [= <-]. eapply within_raise; [done|]. destruct (was_reset _ _ _); lia. }
  unfold limiter_handle, limiter_is_allow. destruct (concurrency_control p) as [l|] eqn:Ecc.
  2:{ intros [= <-]. split_and!; simpl; try apply Hw. 1: destruct (was_reset _ _ _); destruct Hw as (?&?&?); simpl in *; lia.
      by intros c. }
  rewrite limiter_loop_spec. destruct (position _ l) as [k|] eqn:Epos.
  2:{ intros [= <-]. assert (mkPhase (Some l) (circuit_break p) = p) as -> by (destruct p; simpl in *; congruence).
      eapply within_raise; [done|]. destruct (was_reset _ _ _); lia. }
  destruct (l !! k) as [c|] eqn:Ek.
  2:{ apply position_spec in Epos as [(x & ? & ?) _]. congruence. }
  simpl. destruct (limiter_hit now k c) as [[r ok] c'] eqn:Eh.
  pose proof (limiter_hit_spec _ _ _ _ _ _ Eh) as [Hm Hcase]. intros [= <-].
  destruct (decide (k = i)) as [->|Hne].
  - destruct Hw as (Ho & Hn & Hc). unfold rule_at in Hc. simpl in Hc. rewrite Ecc in Hc. destruct (Hc c Ek) as (H1 & H2 & H3). simpl in *.
    assert (rule_at i (mkPhase (Some (<[i := c']> l)) (circuit_break p)) = Some c') as Hr.
    { unfold rule_at. simpl. apply list_lookup_insert_eq. by eapply lookup_lt_Some. }
    assert (rule_at i p = Some c) as Hr0 by (unfold rule_at; by rewrite Ecc).
    unfold was_reset. rewrite Hr0, Hr. unfold within. simpl. rewrite Hr.
    destruct Hcase as [(-> & -> & Hp & Hp')|[(-> & -> & Hp')|(-> & -> & Hp' & Hs & Hs')]]; simpl.
    + rewrite decide_True by done. destruct (negb _ && _)%bool; split_and!; try lia; intros c0 [= <-]; split_and!; nia.
    + destruct (negb _ && _)%bool; split_and!; try lia; intros c0 [= <-]; split_and!; nia.
    + rewrite Hs, Hs'. simpl. split_and!; try lia. intros c0 [= <-]. split_and!; nia.
  - assert (rule_at i (mkPhase (Some (<[k := c']> l)) (circuit_break p)) = rule_at i p) as Hr.
    { unfold rule_at. simpl. rewrite Ecc. by apply list_lookup_insert_ne. }
    eapply within_raise with (n := n); [|destruct (was_reset _ _ _); lia].
    replace (match _ with PContinue (Some j) => _ | _ => out end) with out.
    2:{ destruct Hcase as [(-> & -> & _)|[(-> & -> & _)|(-> & -> & _)]]; simpl; try done. by rewrite decide_False. }
    unfold within. simpl. rewrite Hr. apply Hw.
Qed.

Lemma release_within j s s' :
  within s → ledger_step i s (ERelease j) = Some s' → within s'.
Proof.
  destruct s as [p out n]. unfold ledger_step, release_concurrency, add_permits. simpl. intros (Ho & Hn & Hc).
  destruct (decide _) as [|Hd]; [done|]. unfold rule_at in Hc. simpl in *.
  destruct (concurrency_control p) as [l|] eqn:Ecc; [|done].
  destruct (l !! j) as [c|] eqn:Ej; [|done]. unfold add_permit. cbv [mbind exec_bind].
  destruct (MAX_PERMITS <? permits c + 1); [done|]. intros [= <-]. unfold within, rule_at. simpl.
  destruct (decide (j = i)) as [->|].
  - assert (0 < out) by (destruct (decide (out ≤ 0)); [tauto|lia]). split_and!; [lia|lia|].
    intros c0. simpl. rewrite list_lookup_insert_eq by (by eapply lookup_lt_Some). intros [= <-].
    destruct (Hc c Ej) as (? & ? & ?). simpl. split_and!; lia.
  - split_and!; [lia|lia|]. intros c0. simpl. rewrite list_lookup_insert_ne by done. apply Hc.
Qed.

Lemma ledger_run_within l s s' : within s → ledger_run i s l = Some s' → within s'.
Proof.
  revert s. induction l as [|e l IH]; simpl; intros s Hw; [by intros [= <-]|].
  destruct (ledger_step i s e) as [s1|] eqn:E1; [|done]. simpl. apply IH.
  destruct e; [by eapply evaluate_within|by eapply release_within].
Qed.

Lemma create_limiters_at l ls c :
  create_limiters l = Ret ls → ls !! i = Some c →
  ∃ cfg, l !! i = Some cfg ∧ max_concurrency c = cc_max_concurrency cfg ∧ permits c = cc_max_concurrency cfg.
Proof.
  clear m m_pos. revert ls. generalize i. induction l as [|cfg l IH]; intros j ls; simpl; [by intros [= <-]|].
  cbv [mbind exec_bind]. destruct (compile_all _ _); [|done].
  destruct (create_limiters l) as [ls'|]; [|done]. intros [= <-]. destruct j as [|j]; simpl.
  - intros [= <-]. eauto.
  - by apply IH.
Qed.
End Limit.

(** C33 The number of commands that hold a permit of a rule at the same time is at
    most the rule's [max_concurrency] as long as its window has not ended; every
    end of the window (which resets the semaphore without waiting for those that
    hold permits) can add as many again. *)
Theorem concurrency_limit i cfgs cfg breakers p l s :
  cfgs !! i = Some cfg → 0 ≤ cc_max_concurrency cfg →
  new_phase (mkPluginConfig (Some cfgs) breakers) = Ret p →
  ledger_run i (mkLedger p 0 0) l = Some s → is_Some (rule_at i (phase s)) →
  0 ≤ outstanding s ≤ cc_max_concurrency cfg * (1 + resets s).
Proof.
  intros Hi Hm Hp Hrun [c Hc].
  assert (within i (cc_max_concurrency cfg) (mkLedger p 0 0)) as Hw.
  { split_and!; simpl; [done|done|]. intros c0. unfold new_phase, opt_create in Hp. simpl in Hp.
    cbv [mbind exec_bind] in Hp. destruct (create_limiters cfgs) as [ls|] eqn:El; [|done].
    unfold rule_at. destruct breakers; [destruct (create_breakers _); [|done]|]; simplify_eq/=;
      intros Hc0; destruct (create_limiters_at i _ _ _ El Hc0) as (cfg' & ? & ? & ?); simplify_eq; split_and!; lia. }
  destruct (ledger_run_within _ _ Hm _ _ _ Hw Hrun) as (Ho & Hn & Hall).
  destruct (Hall c Hc) as (? & ? & ?). lia.
Qed.
End Plugins.

(** ** A concrete engine: a pattern is a prefix *)

#[local] Existing Instance Route.prefix_regex.
#[local] Instance prefix_flags : RegexFlags := { regex_build := λ _ p, Some p }.

Definition limit_one : ConcurrencyControlConfig := mkCcConfig [$"select"] 1 10.
Definition one_phase : PluginPhase :=
  mkPhase (Some [new_limiter limit_one [$"select" : Route.Re]]) None.
Definition select_ctx : PluginContext :=
  mkPluginContext ($"orders") MySql None None (SQuery ($"select 1")) None.

(** A second command inside the window is refused, and admitted once the first has
    finished. *)
Lemma concurrency_limit_witness :
  ledger_run 0 (mkLedger one_phase 0 0)
    [EEvaluate 0 select_ctx; EEvaluate 1 select_ctx; ERelease 0; EEvaluate 2 select_ctx] =
    Some (mkLedger (mkPhase (Some [mkCc [$"select" : Route.Re] 1 0 10 (Some 0)]) None) 1 0) ∧
  0 ≤ 1 ≤ cc_max_concurrency limit_one * (1 + 0).
Proof.
  assert (ledger_run 0 (mkLedger one_phase 0 0)
    [EEvaluate 0 select_ctx; EEvaluate 1 select_ctx; ERelease 0; EEvaluate 2 select_ctx] =
    Some (mkLedger (mkPhase (Some [mkCc [$"select" : Route.Re] 1 0 10 (Some 0)]) None) 1 0)) as Hr
    by (vm_compute; reflexivity).
  split; [exact Hr|].
  apply (concurrency_limit 0 [limit_one] limit_one None one_phase _ _ eq_refl ltac:(done) eq_refl Hr).
  by eexists.
Defined.

(** With [max_concurrency] 1, three statements run at once after the window has
    ended (the one that ends it passes without a permit), and when both permits
    come back the rule admits two at a time for the rest of its window. *)
Theorem window_end_raises_limit :
  let run := ledger_run 0 (mkLedger one_phase 0 0) in
  (∃ p, run [EEvaluate 0 select_ctx; EEvaluate 11 select_ctx; EEvaluate 12 select_ctx] =
     Some (mkLedger p 2 1)) ∧
  (∃ p, run [EEvaluate 0 select_ctx; EEvaluate 11 select_ctx; EEvaluate 12 select_ctx;
             ERelease 0; ERelease 0; EEvaluate 13 select_ctx; EEvaluate 13 select_ctx] =
     Some (mkLedger p 2 1)).
Proof. split; eexists; vm_compute; reflexivity. Qed.
