(* ===== verification/AuditEvents.v ===== *)
(** * Audit events

    [gateway/core/src/audit.rs]: the event schema, the payload policy that strips
    what an audit level must not store, and result samples.  [serde_json] is the
    parameter [sample_json], the text of a sample document. *)

From S2P Require Import Prelude RustStr Model.

Inductive AuditAction := AQuery | AdminWrite | AdminLogin | ConfigChange | AOther.

Definition audit_action_as_str (a : AuditAction) : str :=
  match a with
  | AQuery => $"query"
  | AdminWrite => $"admin_write"
  | AdminLogin => $"admin_login"
  | ConfigChange => $"config_change"
  | AOther => $"other"
  end.

Inductive AuditDecision := DExecute | DReject | DTranslationReject | DAllow | DDeny | DRequireApproval.

Definition audit_decision_as_str (d : AuditDecision) : str :=
  match d with
  | DExecute => $"execute"
  | DReject => $"reject"
  | DTranslationReject => $"translation_reject"
  | DAllow => $"allow"
  | DDeny => $"deny"
  | DRequireApproval => $"require_approval"
  end.

Inductive AuditLevel := L0 | L1 | L2.

#[export] Instance AuditLevel_eq_dec : EqDecision AuditLevel.
Proof. solve_decision. Defined.

Definition level_as_str (l : AuditLevel) : str :=
  match l with L0 => $"L0" | L1 => $"L1" | L2 => $"L2" end.

Definition level_parse (value : str) : option AuditLevel :=
  let v := trim value in
  if one_of [$"L0"; $"l0"] v then Some L0
  else if one_of [$"L1"; $"l1"] v then Some L1
  else if one_of [$"L2"; $"l2"] v then Some L2
  else None.

Definition DEFAULT_SQL_TEXT_MAX_CHARS : Z := 2048.

Record AuditEvent := mkEvent {
  ev_event_id : option str;
  ev_ts_unix_ms : option Z;
  ev_action : option str;
  ev_decision : option str;
  ev_subject_id : option str;
  ev_db_user : option str;
  ev_auth_method : option str;
  ev_listener : option str;
  ev_service : option str;
  ev_frontend_protocol : option str;
  ev_backend_protocol : option str;
  ev_command_type : option str;
  ev_endpoint : option str;
  ev_database : option str;
  ev_outcome : option str;
  ev_latency_ms : option Z;
  ev_code : option str;
  ev_message : option str;
  ev_method : option str;
  ev_path : option str;
  ev_audit_level : option str;
  ev_sql_fingerprint : option str;
  ev_sql_text : option str;
  ev_rule : option str;
  ev_tables : list str;
  ev_sample_body : option str;
  ev_sample_ref : option str;
  ev_sample_row_count : option Z;
  ev_sample_bytes : option Z;
  ev_sample_truncated : bool
}.

Definition default_event : AuditEvent :=
  mkEvent None None None None None None None None None None None None None None None None None None
    None None None None None None [] None None None None false.

(** *** Assignments *)

Definition set_identity (id : option str) (ts : option Z) (e : AuditEvent) : AuditEvent :=
  mkEvent id ts (ev_action e) (ev_decision e) (ev_subject_id e) (ev_db_user e) (ev_auth_method e)
    (ev_listener e) (ev_service e) (ev_frontend_protocol e) (ev_backend_protocol e) (ev_command_type e)
    (ev_endpoint e) (ev_database e) (ev_outcome e) (ev_latency_ms e) (ev_code e) (ev_message e)
    (ev_method e) (ev_path e) (ev_audit_level e) (ev_sql_fingerprint e) (ev_sql_text e) (ev_rule e)
    (ev_tables e) (ev_sample_body e) (ev_sample_ref e) (ev_sample_row_count e) (ev_sample_bytes e)
    (ev_sample_truncated e).

(** The level and the SQL text. *)
Definition set_payload (level text : option str) (e : AuditEvent) : AuditEvent :=
  mkEvent (ev_event_id e) (ev_ts_unix_ms e) (ev_action e) (ev_decision e) (ev_subject_id e)
    (ev_db_user e) (ev_auth_method e) (ev_listener e) (ev_service e) (ev_frontend_protocol e)
    (ev_backend_protocol e) (ev_command_type e) (ev_endpoint e) (ev_database e) (ev_outcome e)
    (ev_latency_ms e) (ev_code e) (ev_message e) (ev_method e) (ev_path e) level
    (ev_sql_fingerprint e) text (ev_rule e) (ev_tables e) (ev_sample_body e) (ev_sample_ref e)
    (ev_sample_row_count e) (ev_sample_bytes e) (ev_sample_truncated e).

Definition set_sample (body ref : option str) (n bytes : option Z) (t : bool) (e : AuditEvent)
    : AuditEvent :=
  mkEvent (ev_event_id e) (ev_ts_unix_ms e) (ev_action e) (ev_decision e) (ev_subject_id e)
    (ev_db_user e) (ev_auth_method e) (ev_listener e) (ev_service e) (ev_frontend_protocol e)
    (ev_backend_protocol e) (ev_command_type e) (ev_endpoint e) (ev_database e) (ev_outcome e)
    (ev_latency_ms e) (ev_code e) (ev_message e) (ev_method e) (ev_path e) (ev_audit_level e)
    (ev_sql_fingerprint e) (ev_sql_text e) (ev_rule e) (ev_tables e) body ref n bytes t.

(** ** The payload policy *)

Record AuditSamplePolicy := mkSamplePolicy {
  policy_enabled : bool; policy_max_rows : Z; policy_max_bytes : Z; policy_inline : bool }.

Definition default_sample_policy : AuditSamplePolicy := mkSamplePolicy false 5 4096 true.

(** U+2026, the ellipsis. *)
Definition ellipsis : str := ["226"%char; "128"%char; "166"%char].

Definition min_audit_level (a b : AuditLevel) : AuditLevel :=
  match a, b with
  | L0, _ | _, L0 => L0
  | L1, _ | _, L1 => L1
  | L2, L2 => L2
  end.

Definition truncate_sql_text (sql : str) (max_chars : Z) : str :=
  if max_chars =? 0 then []
  else
    let count := Z.of_nat (length (chars sql)) in
    if count <=? max_chars then sql
    else concat (take (Z.to_nat max_chars) (chars sql)) ++ ellipsis.

(** The [while end > 0 && !is_char_boundary(end)] loop. *)
Fixpoint boundary_at (s : str) (i : nat) : nat :=
  match i with
  | O => O
  | S j => if is_char_boundary s i then i else boundary_at s j
  end.

Definition truncate_sample_body (body : str) (max_bytes : Z) : str * bool :=
  if max_bytes =? 0 then ([], negb (is_empty body))
  else if Z.of_nat (length body) <=? max_bytes then (body, false)
  else (take (boundary_at body (Z.to_nat max_bytes)) body ++ ellipsis, true).

Definition strip_sample_fields (e : AuditEvent) : AuditEvent := set_sample None None None None false e.

Definition trimmed_sql (e : AuditEvent) (max_sql_chars : Z) : option str :=
  (λ sql, truncate_sql_text sql max_sql_chars) <$> ev_sql_text e.

Definition apply_audit_level_payload_with_sample (e : AuditEvent) (configured_level : AuditLevel)
    (max_sql_chars : Z) (sample : AuditSamplePolicy) : AuditEvent :=
  let event_level := default configured_level (ev_audit_level e ≫= level_parse) in
  let effective := min_audit_level event_level configured_level in
  let level := Some (level_as_str effective) in
  match effective with
  | L0 => strip_sample_fields (set_payload level None e)
  | L1 => strip_sample_fields (set_payload level (trimmed_sql e max_sql_chars) e)
  | L2 =>
      let e := set_payload level (trimmed_sql e max_sql_chars) e in
      if negb (policy_enabled sample) then strip_sample_fields e
      else
        match ev_sample_body e with
        | None => e
        | Some body =>
            let '(kept, truncated) := truncate_sample_body body (policy_max_bytes sample) in
            set_sample (Some kept) (ev_sample_ref e) (ev_sample_row_count e)
              (Some (Z.min (Z.of_nat (length body)) u32_max)) (ev_sample_truncated e || truncated) e
        end
  end.

Definition apply_audit_level_payload (e : AuditEvent) (configured_level : AuditLevel)
    (max_sql_chars : Z) : AuditEvent :=
  apply_audit_level_payload_with_sample e configured_level max_sql_chars default_sample_policy.

(** ** Result samples *)

(** The [serde_json::Value]s a cell becomes; a finite [f64] is carried by its bits. *)
Inductive JsonValue :=
| JNull
| JBool (b : bool)
| JInt (z : Z)
| JFloat (bits : Z)
| JString (s : str).

Section Samples.
(** [serde_json::to_string] of the document, and [f64]'s [is_finite] and [Display]. *)
Context (sample_json : list str → list (list JsonValue) → bool → str).
Context (f64_is_finite : Z → bool) (f64_to_string : Z → str).

Definition hex_byte (c : ascii) : str :=
  let b := Z.of_N (N_of_ascii c) in [hex_char (b / 16); hex_char (b mod 16)].

Definition gateway_value_to_json (v : GatewayValue) : JsonValue :=
  match v with
  | Null => JNull
  | Boolean b => JBool b
  | Integer i => JInt i
  | UnsignedInteger u => JInt u
  | Float f => if f64_is_finite f then JFloat f else JString (f64_to_string f)
  | Decimal s | VString s => JString s
  | Bytes b =>
      JString (concat (map hex_byte (take 64 b)) ++ (if (64 <? length b)%nat then ellipsis else []))
  end.

Definition json_rows (rows : list (list GatewayValue)) : list (list JsonValue) :=
  map (map gateway_value_to_json) rows.

(** The loop that drops rows from the end until the document fits. *)
Fixpoint fewer_rows (n : nat) (columns : list str) (rows : list (list GatewayValue)) (max_bytes : Z)
    (body : str) : nat * str :=
  match n with
  | O => (O, body)
  | S n' =>
      if max_bytes <? Z.of_nat (length body) then
        fewer_rows n' columns rows max_bytes (sample_json columns (json_rows (take n' rows)) true)
      else (n, body)
  end.

Definition build_result_sample (columns : list str) (rows : list (list GatewayValue))
    (max_rows max_bytes : Z) : option (str * Z * Z * bool) :=
  if (max_rows =? 0) || (max_bytes =? 0) then None
  else
    let n := Nat.min (length rows) (Z.to_nat max_rows) in
    let truncated := (n <? length rows)%nat in
    let body := sample_json columns (json_rows (take n rows)) truncated in
    let '(n', body, truncated) :=
      if max_bytes <? Z.of_nat (length body) then
        let '(n', body) := fewer_rows n columns rows max_bytes body in
        if max_bytes <? Z.of_nat (length body)
        then (n', (truncate_sample_body body max_bytes).1, true)
        else (n', body, if decide (n' = n) then truncated else true)
      else (n, body, truncated) in
    Some (body, Z.min (Z.of_nat n') u32_max, Z.min (Z.of_nat (length body)) u32_max, truncated).
End Samples.

(** ** What may be stored *)

Lemma boundary_le s i : (boundary_at s i ≤ i)%nat.
Proof. induction i as [|i IH]; cbn [boundary_at]; [done|]. destruct (is_char_boundary s (S i)); lia. Qed.

Lemma truncate_sample_length body max : 0 ≤ max →
  Z.of_nat (length (truncate_sample_body body max).1) ≤ max + 3.
Proof.
  intros Hm. unfold truncate_sample_body. destruct (max =? 0) eqn:E0; simpl; [lia|].
  destruct (Z.of_nat (length body) <=? max) eqn:El; bool_hyps; simpl; [lia|].
  rewrite length_app, length_take. simpl. pose proof (boundary_le body (Z.to_nat max)). lia.
Qed.

(** The text kept of a statement: at most [max] of its characters, from its start. *)
Definition sql_prefix (sql text : str) (max : Z) : Prop :=
  text = [] ∨ (text = sql ∧ Z.of_nat (length (chars sql)) ≤ max) ∨
  text = concat (take (Z.to_nat max) (chars sql)) ++ ellipsis.

Lemma truncate_sql_prefix sql max : sql_prefix sql (truncate_sql_text sql max) max.
Proof.
  unfold truncate_sql_text, sql_prefix. destruct (max =? 0); [by left|].
  destruct (_ <=? max) eqn:El; bool_hyps; auto.
Qed.

Definition level_rank (l : AuditLevel) : nat := match l with L0 => 0 | L1 => 1 | L2 => 2 end.

(** Whatever the event asks for, what the queue, the files and the index see is
    what the deployment's level allows: no SQL text at L0, at most the configured
    number of characters of it above; no result sample below L2 or when samples
    are disabled, and a bounded one otherwise.  The rest of the event is kept. *)
Theorem payload_within_level e configured max_sql sample :
  0 ≤ policy_max_bytes sample →
  let e' := apply_audit_level_payload_with_sample e configured max_sql sample in
  (∃ l, ev_audit_level e' = Some (level_as_str l) ∧ (level_rank l ≤ level_rank configured)%nat) ∧
  (configured = L0 → ev_sql_text e' = None) ∧
  (∀ text, ev_sql_text e' = Some text →
     ∃ sql, ev_sql_text e = Some sql ∧ sql_prefix sql text max_sql) ∧
  (configured ≠ L2 ∨ policy_enabled sample = false → ev_sample_body e' = None) ∧
  (∀ body, ev_sample_body e' = Some body → Z.of_nat (length body) ≤ policy_max_bytes sample + 3) ∧
  ev_sql_fingerprint e' = ev_sql_fingerprint e ∧ ev_tables e' = ev_tables e ∧
  ev_decision e' = ev_decision e ∧ ev_subject_id e' = ev_subject_id e ∧ ev_rule e' = ev_rule e.
Proof.
  intros Hb e'. unfold e', apply_audit_level_payload_with_sample. clear e'.
  set (lv := default configured _).
  assert (level_rank (min_audit_level lv configured) ≤ level_rank configured)%nat as Hle
    by (destruct lv, configured; simpl; lia).
  assert (∀ text, trimmed_sql e max_sql = Some text →
    ∃ sql, ev_sql_text e = Some sql ∧ sql_prefix sql text max_sql) as Ht.
  { intros text. unfold trimmed_sql. destruct (ev_sql_text e) as [sql|]; simpl; [|done].
    intros [= <-]. exists sql. split; [done|apply truncate_sql_prefix]. }
  destruct (min_audit_level lv configured) eqn:Em; cbn [negb] in *.
  - split; [by exists L0|]. split_and!; done.
  - split; [by exists L1|]. split_and!; try done. intros ->. by destruct lv.
  - assert (configured = L2) as -> by (destruct configured; simpl in Hle; try lia; done).
    destruct (policy_enabled sample) eqn:Ee; simpl.
    2:{ split; [by exists L2|]. split_and!; done. }
    destruct (ev_sample_body e) as [body|] eqn:Es; simpl.
    + pose proof (truncate_sample_length body _ Hb) as Hlen.
      destruct (truncate_sample_body body _) as [kept t]. simpl in *.
      split; [by exists L2|]. split_and!; try done; [intros [?|?]; done|]. by intros ? [= <-].
    + split; [by exists L2|]. split_and!; try done; rewrite Es; done.
Qed.

Lemma payload_within_level_witness :
  let e' := apply_audit_level_payload_with_sample
    (set_payload (Some ($"L2")) (Some ($"select 1")) default_event) L1 3 default_sample_policy in
  ev_sql_text e' = Some ($"sel" ++ ellipsis) ∧
  (∃ l, ev_audit_level e' = Some (level_as_str l) ∧ (level_rank l ≤ level_rank L1)%nat).
Proof.
  split; [vm_compute; reflexivity|].
  apply (payload_within_level (set_payload (Some ($"L2")) (Some ($"select 1")) default_event) L1 3
    default_sample_policy). vm_compute. discriminate.
Defined.

Section SampleBounds.
Context (sample_json : list str → list (list JsonValue) → bool → str).
Context (f64_is_finite : Z → bool) (f64_to_string : Z → str).

Lemma fewer_rows_le n columns rows max body n' body' :
  fewer_rows sample_json f64_is_finite f64_to_string n columns rows max body = (n', body') → (n' ≤ n)%nat.
Proof.
  revert body. induction n as [|n IH]; intros body; simpl; [by intros [= <- _]|].
  destruct (_ <? _); [intros H%IH; lia|by intros [= <- _]].
Qed.

(** A sample has at most [max_rows] rows and, with the ellipsis of a cut document,
    at most [max_bytes + 3] bytes. *)
Theorem sample_bounded columns rows max_rows max_bytes body n bytes t :
  0 ≤ max_rows → 0 ≤ max_bytes →
  build_result_sample sample_json f64_is_finite f64_to_string columns rows max_rows max_bytes =
    Some (body, n, bytes, t) →
  n ≤ max_rows ∧ Z.of_nat (length body) ≤ max_bytes + 3.
Proof.
  intros Hr Hb. unfold build_result_sample. destruct (_ || _); [done|].
  set (k := Nat.min (length rows) (Z.to_nat max_rows)).
  set (b0 := sample_json _ _ _). destruct (max_bytes <? Z.of_nat (length b0)) eqn:E0; bool_hyps.
  - destruct (fewer_rows _ _ _ k columns rows max_bytes b0) as [n' b1] eqn:Ef.
    apply fewer_rows_le in Ef. destruct (max_bytes <? Z.of_nat (length b1)) eqn:E1; bool_hyps; intros [= <- <- _ _].
    + pose proof (truncate_sample_length b1 max_bytes Hb). lia.
    + lia.
  - intros [= <- <- _ _]. lia.
Qed.
End SampleBounds.
