(* ===== verification/AuditIndex.v ===== *)
(** * The audit index

    [gateway/core/src/audit_index.rs]: a table of audit events keyed by their id,
    with the filter of the administration interface.  The table is what SQLite
    holds; [INSERT .. ON CONFLICT DO UPDATE], [SELECT .. WHERE .. ORDER BY .. LIMIT]
    and [DELETE] are modelled by what they mean on it.  Whether a statement fails
    (busy, I/O) is an argument.  The payload column is the event itself: that
    [serde_json] reads back what it wrote is taken for granted. *)

From Stdlib Require Import Sorted.
From S2P Require Import Prelude RustStr AuditEvents.

Definition BUSY_RETRIES : nat := 8.

Record AuditQueryFilter := mkFilter {
  q_decision : option str;
  q_subject_id : option str;
  q_service : option str;
  q_event_id : option str;
  q_audit_level : option str;
  q_outcome : option str;
  q_listener : option str;
  q_rule : option str;
  q_action : option str;
  q_from_ms : option Z;
  q_to_ms : option Z;
  q_limit : Z
}.

Definition default_filter : AuditQueryFilter :=
  mkFilter None None None None None None None None None None None 0.

Definition limit_clamped (f : AuditQueryFilter) : Z := Z.min (Z.max (q_limit f) 1) 1000.

(** A row: the columns of the schema. *)
Record IndexRow := mkRow {
  row_id : str; row_ts : Z;
  row_decision : option str; row_subject_id : option str; row_service : option str;
  row_action : option str; row_listener : option str; row_rule : option str;
  row_outcome : option str; row_payload : AuditEvent }.

Record AuditIndex := mkIndex {
  index_file : str;
  rows_table : gmap str IndexRow;
  idx_inserted : Z;
  idx_errors : Z;
  idx_pruned : Z;
  idx_rows : Z
}.

(** [u64 as i64]. *)
Definition as_i64 (z : Z) : Z := if z <=? i64_max then z else z - 2 ^ 64.

Definition index_open (path : str) (existing : gmap str IndexRow) : AuditIndex :=
  mkIndex path existing 0 0 0 (Z.of_nat (base.size existing)).

(** [with_busy_retry]: outcomes of successive attempts; [Err true] is busy. *)
Fixpoint with_busy_retry (attempts_left : nat) (outcomes : list (result bool unit)) : bool :=
  match outcomes with
  | [] => true
  | Ok _ :: _ => true
  | Err busy :: rest =>
      match busy, attempts_left with
      | true, S n => with_busy_retry n rest
      | _, _ => false
      end
  end.

Definition row_of (now : Z) (e : AuditEvent) : IndexRow :=
  let id := match ev_event_id e with
            | Some s => if is_empty s then $"ae-missing-" ++ dec now else s
            | None => $"ae-missing-" ++ dec now
            end in
  mkRow id (as_i64 (default now (ev_ts_unix_ms e))) (ev_decision e) (ev_subject_id e)
    (ev_service e) (ev_action e) (ev_listener e) (ev_rule e) (ev_outcome e) e.

(** [probe] and [store] are the outcomes of the two statements. *)
Definition index_insert (now : Z) (probe store : list (result bool unit)) (e : AuditEvent)
    (i : AuditIndex) : bool * AuditIndex :=
  let r := row_of now e in
  if negb (with_busy_retry BUSY_RETRIES probe) then (false, i)
  else if negb (with_busy_retry BUSY_RETRIES store) then (false, i)
  else
    let existed := negb (is_none (rows_table i !! row_id r)) in
    (true, mkIndex (index_file i) (<[row_id r := r]> (rows_table i)) (idx_inserted i + 1)
             (idx_errors i) (idx_pruned i) (if existed then idx_rows i else idx_rows i + 1)).

Definition record_error (i : AuditIndex) : AuditIndex :=
  mkIndex (index_file i) (rows_table i) (idx_inserted i) (idx_errors i + 1) (idx_pruned i) (idx_rows i).

(** [AND col = ?], absent from the query when the filter has no value; a [NULL]
    column equals nothing. *)
Definition eq_clause (want col : option str) : bool :=
  match want with
  | None => true
  | Some w => match col with Some c => str_eqb c w | None => false end
  end.

Definition row_matches (f : AuditQueryFilter) (r : IndexRow) : bool :=
  eq_clause (q_event_id f) (Some (row_id r)) && eq_clause (q_decision f) (row_decision r) &&
  eq_clause (q_subject_id f) (row_subject_id r) && eq_clause (q_service f) (row_service r) &&
  eq_clause (q_outcome f) (row_outcome r) && eq_clause (q_listener f) (row_listener r) &&
  eq_clause (q_rule f) (row_rule r) && eq_clause (q_action f) (row_action r) &&
  match q_from_ms f with Some from => as_i64 from <=? row_ts r | None => true end &&
  match q_to_ms f with Some to => row_ts r <=? as_i64 to | None => true end &&
  match q_audit_level f with
  | Some l => eq_ignore_ascii_case (default [] (ev_audit_level (row_payload r))) l
  | None => true
  end.

(** [ORDER BY ts_unix_ms DESC]; rows with the same time come in table order. *)
Fixpoint insert_row (r : IndexRow) (l : list IndexRow) : list IndexRow :=
  match l with
  | [] => [r]
  | x :: l' => if row_ts x <? row_ts r then r :: l else x :: insert_row r l'
  end.
Definition newest_first (l : list IndexRow) : list IndexRow := foldr insert_row [] l.

Definition select_rows (f : AuditQueryFilter) (i : AuditIndex) : list IndexRow :=
  take (Z.to_nat (limit_clamped f))
    (newest_first (List.filter (row_matches f) (map snd (map_to_list (rows_table i))))).

Definition index_query (f : AuditQueryFilter) (i : AuditIndex) : list AuditEvent :=
  map row_payload (select_rows f i).

Definition get_by_id (event_id : str) (i : AuditIndex) : option AuditEvent :=
  row_payload <$> rows_table i !! event_id.

(** [ok] is false when the [DELETE] fails. *)
Definition prune_older_than_days (now : Z) (ok : bool) (retain_days : Z) (i : AuditIndex)
    : Z * AuditIndex :=
  if retain_days =? 0 then (0, i)
  else if negb ok then (0, i)
  else
    let cutoff := as_i64 (sat_sub now (retain_days * 86400000)) in
    let kept := filter (λ kr : str * IndexRow, cutoff ≤ row_ts kr.2) (rows_table i) in
    let n := Z.of_nat (base.size (rows_table i)) - Z.of_nat (base.size kept) in
    (n, mkIndex (index_file i) kept (idx_inserted i) (idx_errors i) (idx_pruned i + n)
          (sat_sub (idx_rows i) n)).

(** ** Properties *)

(** The counter the statistics show is the number of rows. *)
Definition rows_exact (i : AuditIndex) : Prop := idx_rows i = Z.of_nat (base.size (rows_table i)).

Inductive IndexOp :=
| IInsert (now : Z) (probe store : list (result bool unit)) (e : AuditEvent)
| IError
| IPrune (now : Z) (ok : bool) (days : Z).

Definition index_step (i : AuditIndex) (o : IndexOp) : AuditIndex :=
  match o with
  | IInsert now probe store e => (index_insert now probe store e i).2
  | IError => record_error i
  | IPrune now ok days => (prune_older_than_days now ok days i).2
  end.

Lemma index_step_exact i o : rows_exact i → rows_exact (index_step i o).
Proof.
  unfold rows_exact. intros H. destruct o as [now probe store e| |now ok days]; cbn [index_step]; [| done|].
  - unfold index_insert. generalize (row_of now e). intros r.
    destruct (negb _); [done|]. destruct (negb _); [done|].
    destruct (rows_table i !! row_id r) as [r'|] eqn:Er; simpl.
    + rewrite map_size_insert_Some by eauto. done.
    + rewrite map_size_insert_None by done. lia.
  - unfold prune_older_than_days. destruct (days =? 0); [done|]. destruct ok; simpl; [|done].
    rewrite H. unfold sat_sub.
    match goal with |- context[filter ?P (rows_table i)] => pose proof (map_size_filter P (rows_table i)) as Hle end.
    lia.
Qed.

(** The row counter stays exact under any sequence of inserts (new or replacing,
    failing or not), errors and prunes. *)
Theorem index_rows_exact i l : rows_exact i → rows_exact (foldl index_step i l).
Proof. revert i. induction l as [|o l IH]; intros i H; [done|]. apply IH. by apply index_step_exact. Qed.

Definition row_desc : relation IndexRow := λ a b, row_ts b ≤ row_ts a.

Lemma insert_row_perm r l : insert_row r l ≡ₚ r :: l.
Proof.
  induction l as [|x l IH]; simpl; [done|]. destruct (_ <? _); [done|]. rewrite IH. apply Permutation_swap.
Qed.

Lemma newest_first_perm l : newest_first l ≡ₚ l.
Proof. induction l as [|x l IH]; simpl; [done|]. by rewrite insert_row_perm, IH. Qed.

Lemma insert_row_sorted r l : StronglySorted row_desc l → StronglySorted row_desc (insert_row r l).
Proof.
  induction l as [|x l IH]; simpl; intros Hl; [by repeat constructor|].
  apply StronglySorted_inv in Hl as [Hl Hx]. destruct (row_ts x <? row_ts r) eqn:E1; bool_hyps.
  - constructor; [by constructor|]. constructor; [unfold row_desc; lia|].
    eapply Forall_impl; [exact Hx|]. unfold row_desc. intros; lia.
  - constructor; [by apply IH|]. rewrite insert_row_perm. constructor; [unfold row_desc; lia|done].
Qed.

Lemma newest_first_sorted l : StronglySorted row_desc (newest_first l).
Proof. induction l as [|x l IH]; simpl; [constructor|]. by apply insert_row_sorted. Qed.

Lemma StronglySorted_take {A} (R : relation A) n l : StronglySorted R l → StronglySorted R (take n l).
Proof.
  revert n. induction l as [|x l IH]; intros [|n] H; simpl; try constructor.
  - apply IH. by apply StronglySorted_inv in H as [].
  - apply StronglySorted_inv in H as [_ H]. apply Forall_forall. intros y Hy.
    rewrite Forall_forall in H. apply H. rewrite <- (take_drop n l). apply elem_of_app. by left.
Qed.

Lemma matching_rows f i r :
  r ∈ List.filter (row_matches f) (map snd (map_to_list (rows_table i))) ↔
  (∃ k, rows_table i !! k = Some r) ∧ row_matches f r = true.
Proof.
  rewrite list_elem_of_In, filter_In, in_map_iff. split.
  - intros [([k r'] & <- & Hin) Hm]. split; [|done]. exists k. apply elem_of_map_to_list. by apply list_elem_of_In.
  - intros [[k Hk] Hm]. split; [|done]. exists (k, r). split; [done|]. apply list_elem_of_In. by apply elem_of_map_to_list.
Qed.

(** A query returns rows of the table that satisfy every clause of the filter,
    newest first and at most [limit] of them (between 1 and 1000), and it leaves a
    matching row out only when that many newer or equally old ones were returned. *)
Theorem index_query_spec f i :
  let l := select_rows f i in
  (∀ r, r ∈ l → (∃ k, rows_table i !! k = Some r) ∧ row_matches f r = true) ∧
  StronglySorted row_desc l ∧ (length l ≤ 1000)%nat ∧
  (∀ k r, rows_table i !! k = Some r → row_matches f r = true → r ∉ l →
     length l = Z.to_nat (limit_clamped f) ∧ ∀ r', r' ∈ l → row_ts r ≤ row_ts r').
Proof.
  intros l. unfold l, select_rows. set (m := List.filter _ _).
  set (n := Z.to_nat (limit_clamped f)).
  assert (n ≤ 1000)%nat as Hn by (unfold n, limit_clamped; lia).
  split_and!.
  - intros r Hr. apply matching_rows. fold m. rewrite <- (newest_first_perm m).
    rewrite <- (take_drop n (newest_first m)). apply elem_of_app. by left.
  - apply StronglySorted_take, newest_first_sorted.
  - rewrite length_take. lia.
  - intros k r Hk Hm Hnot. assert (r ∈ newest_first m) as Hin.
    { rewrite newest_first_perm. apply matching_rows. eauto. }
    rewrite <- (take_drop n (newest_first m)) in Hin. apply elem_of_app in Hin as [|Hin]; [done|].
    assert (n < length (newest_first m))%nat as Hlt.
    { destruct (decide (n < length (newest_first m))%nat) as [|Hge]; [done|].
      rewrite drop_ge in Hin by lia. by apply elem_of_nil in Hin. }
    split; [rewrite length_take; lia|]. intros r' Hr'.
    pose proof (newest_first_sorted m) as Hs. rewrite <- (take_drop n (newest_first m)) in Hs.
    clear -Hs Hr' Hin. revert Hs Hr'. generalize (take n (newest_first m)).
    intros l. induction l as [|x l IH]; simpl; [by intros _ ?%elem_of_nil|].
    intros [Hs Hx]%StronglySorted_inv [->|Hr']%elem_of_cons; [|by apply IH].
    rewrite Forall_forall in Hx. apply Hx. apply elem_of_app. by right.
Qed.
