(* ===== verification/AuditPipeline.v ===== *)
(** * The audit pipeline

    [gateway/core/src/audit_pipeline.rs]: two bounded queues, a ring of recent
    events, the worker, the JSONL sink with its rotation and retention.

    A call of [try_send] and one turn of the worker are the steps.  Clock readings
    and the outcomes of file and index operations are arguments.  A file is the
    list of its lines; a path is its directory and its name.  The counters, [AtomicU64]
    in the code, are integers without a bound. *)

From S2P Require Import Prelude RustStr Security AuditEvents AuditIndex.

Inductive OverflowPolicy := DropNew | DropOld | Sample | Block.

Definition overflow_parse (raw : str) : OverflowPolicy :=
  let v := to_ascii_lowercase (trim raw) in
  if str_eqb v ($"drop_old") then DropOld
  else if str_eqb v ($"sample") then Sample
  else if str_eqb v ($"block") then Block
  else DropNew.

Definition is_priority_decision (decision : option str) : bool :=
  match decision with
  | Some d => one_of [$"deny"; $"require_approval"; $"require_ticket"] (to_ascii_lowercase (trim d))
  | None => false
  end.

Record FileSinkPolicy := mkFilePolicy {
  fp_max_file_bytes : Z; fp_retain_days : Z; fp_rotate_keep : Z; fp_archive_dir : option str }.

Definition file_policy_from_config (c : Security.SecurityAuditConfig) : FileSinkPolicy :=
  mkFilePolicy (Security.max_file_bytes c) (Security.retain_days c) (Security.rotate_keep c)
    (let d := trim (Security.archive_dir c) in if is_empty d then None else Some d).

Definition sample_policy_from_config (c : Security.SecurityAuditConfig) : AuditSamplePolicy :=
  mkSamplePolicy (Security.sample_enabled c) (Z.max (Security.sample_max_rows c) 1)
    (Z.max (Security.sample_max_bytes c) 1) (Security.sample_inline c).

(** [Path::new(s)] as its [parent()] and [file_name()], for paths that end in a
    name; the parent of a bare name is empty. *)
Record FPath := mkPath { dir : str; base_name : str }.

#[export] Instance FPath_eq_dec : EqDecision FPath.
Proof. solve_decision. Defined.

Definition path_of (s : str) : FPath :=
  match rsplitn2 "/" s with
  | (name, Some d) => mkPath d name
  | (name, None) => mkPath [] name
  end.

(** ** State *)

Record SharedState := mkShared {
  queue : list AuditEvent;
  priority_queue : list AuditEvent;
  recent : list AuditEvent;
  closed : bool
}.

Record AuditPipeline := mkPipeline {
  capacity : Z;
  priority_capacity : Z;
  recent_capacity : Z;
  pipe_overflow : OverflowPolicy;
  payload_level : AuditLevel;
  pipe_sql_max : Z;
  pipe_sample_policy : AuditSamplePolicy;
  pipe_sample_prefix : str;
  pipe_file_path : option FPath;
  file_policy : FileSinkPolicy;
  write_file : bool;
  write_tracing : bool;
  pipe_index : option AuditIndex;
  state : SharedState;
  dropped : Z;
  priority_dropped : Z;
  accepted : Z;
  priority_accepted : Z;
  written : Z;
  rotated : Z;
  pruned : Z
}.

Definition sinks_of (c : Security.SecurityAuditConfig) : bool * bool :=
  let sinks := map to_ascii_lowercase (Security.sinks c) in
  (existsb (λ s, str_eqb s ($"file") || str_eqb s ($"jsonl")) sinks,
   is_empty sinks || existsb (str_eqb ($"tracing")) sinks).

Definition sql_max_of (c : Security.SecurityAuditConfig) : Z :=
  if Security.sql_text_max_chars c =? 0 then DEFAULT_SQL_TEXT_MAX_CHARS
  else Security.sql_text_max_chars c.

Definition sample_prefix_of (c : Security.SecurityAuditConfig) : str :=
  if is_empty (trim (Security.sample_prefix c)) then $"samples"
  else trim_matches "/" (trim (Security.sample_prefix c)).

Definition file_path_of (c : Security.SecurityAuditConfig) : option FPath :=
  if is_empty (trim (Security.file_path c)) then None
  else Some (path_of (trim (Security.file_path c))).

(** [open_path] is what [AuditIndex::open] finds at a path, if it can be opened. *)
Definition open_index (open_path : str → option AuditIndex) (path : str) : option AuditIndex :=
  let path := trim path in if is_empty path then None else open_path path.

Definition new_pipeline (open_path : str → option AuditIndex) (c : Security.SecurityAuditConfig)
    (default_audit_level : str) : AuditPipeline :=
  let capacity := Z.max (Security.queue_capacity c) 1 in
  {| capacity := capacity;
     priority_capacity := Security.priority_queue_capacity c;
     recent_capacity := Z.max (Z.min capacity 4096) 64;
     pipe_overflow := overflow_parse (Security.overflow c);
     payload_level := default L0 (level_parse default_audit_level);
     pipe_sql_max := sql_max_of c;
     pipe_sample_policy := sample_policy_from_config c;
     pipe_sample_prefix := sample_prefix_of c;
     pipe_file_path := file_path_of c;
     file_policy := file_policy_from_config c;
     write_file := (sinks_of c).1;
     write_tracing := (sinks_of c).2;
     pipe_index := open_index open_path (trim (Security.index_path c));
     state := mkShared [] [] [] false;
     dropped := 0; priority_dropped := 0; accepted := 0; priority_accepted := 0; written := 0;
     rotated := 0; pruned := 0 |}.

(** The queues, their capacities, the ring and the overflow policy stay as they
    were at the start. *)
Definition reconfigure (open_path : str → option AuditIndex) (c : Security.SecurityAuditConfig)
    (default_audit_level : str) (p : AuditPipeline) : AuditPipeline :=
  let want := trim (Security.index_path c) in
  let need_reopen :=
    match pipe_index p with
    | None => negb (is_empty want)
    | Some i => is_empty want || negb (str_eqb (index_file i) want)
    end in
  {| capacity := capacity p;
     priority_capacity := priority_capacity p;
     recent_capacity := recent_capacity p;
     pipe_overflow := pipe_overflow p;
     payload_level := default L0 (level_parse default_audit_level);
     pipe_sql_max := sql_max_of c;
     pipe_sample_policy := sample_policy_from_config c;
     pipe_sample_prefix := sample_prefix_of c;
     pipe_file_path := match file_path_of c with Some f => Some f | None => pipe_file_path p end;
     file_policy := file_policy_from_config c;
     write_file := (sinks_of c).1;
     write_tracing := (sinks_of c).2;
     pipe_index := if need_reopen then open_index open_path want else pipe_index p;
     state := state p;
     dropped := dropped p; priority_dropped := priority_dropped p; accepted := accepted p;
     priority_accepted := priority_accepted p; written := written p; rotated := rotated p;
     pruned := pruned p |}.

(** Assignments: the shared state and the counters of sending; the rest. *)
Definition set_queues (s : SharedState) (d pd a pa : Z) (p : AuditPipeline) : AuditPipeline :=
  mkPipeline (capacity p) (priority_capacity p) (recent_capacity p) (pipe_overflow p) (payload_level p)
    (pipe_sql_max p) (pipe_sample_policy p) (pipe_sample_prefix p) (pipe_file_path p) (file_policy p)
    (write_file p) (write_tracing p) (pipe_index p) s d pd a pa (written p) (rotated p) (pruned p).

Definition set_written (i : option AuditIndex) (w r pr : Z) (p : AuditPipeline) : AuditPipeline :=
  mkPipeline (capacity p) (priority_capacity p) (recent_capacity p) (pipe_overflow p) (payload_level p)
    (pipe_sql_max p) (pipe_sample_policy p) (pipe_sample_prefix p) (pipe_file_path p) (file_policy p)
    (write_file p) (write_tracing p) i (state p) (dropped p) (priority_dropped p)
    (accepted p) (priority_accepted p) w r pr.

(** ** Sending *)

(** [simple_nonce]: the next value of the thread's counter. *)
Definition audit_nonce (v now : Z) : Z := Z.lxor (u64_wrap (v * 1099511628211)) now.

Definition new_event_id (now nonce : Z) : str := $"ae-" ++ dec now ++ $"-" ++ hex nonce.

(** The clock at each reading and the nonce. *)
Record SendEnv := mkSendEnv { id_ms : Z; id_nonce : Z; ts_ms : Z; overflow_ms : Z }.

(** What a full queue does: the event to push and the queue to push it to, or
    [None] if the event is dropped; the number of drops recorded. *)
Definition enqueue (now : Z) (policy : OverflowPolicy) (q : list AuditEvent) (cap : Z)
    (e : AuditEvent) : option (list AuditEvent) * Z :=
  if cap <=? Z.of_nat (length q) then
    match policy with
    | DropOld => (Some (tail q ++ [e]), 1)
    | Sample => if Z.even now then (None, 1) else (Some (tail q ++ [e]), 1)
    | DropNew | Block => (None, 1)
    end
  else (Some (q ++ [e]), 0).

Definition stamped (env : SendEnv) (e : AuditEvent) : AuditEvent :=
  set_identity
    (Some (default (new_event_id (id_ms env) (id_nonce env)) (ev_event_id e)))
    (Some (default (ts_ms env) (ev_ts_unix_ms e))) e.

(** The event as it is queued. *)
Definition queued_event (env : SendEnv) (p : AuditPipeline) (e : AuditEvent) : AuditEvent :=
  apply_audit_level_payload_with_sample (stamped env e) (payload_level p) (pipe_sql_max p)
    (pipe_sample_policy p).

Definition push_recent (cap : Z) (e : AuditEvent) (l : list AuditEvent) : list AuditEvent :=
  (if cap <=? Z.of_nat (length l) then tail l else l) ++ [e].

Definition goes_first (p : AuditPipeline) (e : AuditEvent) : bool :=
  (0 <? priority_capacity p) && is_priority_decision (ev_decision e).

Definition try_send (env : SendEnv) (event : AuditEvent) (p : AuditPipeline) : AuditPipeline :=
  let e := queued_event env p event in
  let s := state p in
  let s := mkShared (queue s) (priority_queue s) (push_recent (recent_capacity p) e (recent s)) (closed s) in
  if closed s then set_queues s (dropped p) (priority_dropped p) (accepted p) (priority_accepted p) p
  else if goes_first p e then
    match enqueue (overflow_ms env) (pipe_overflow p) (priority_queue s) (priority_capacity p) e with
    | (None, d) => set_queues s (dropped p + d) (priority_dropped p + d) (accepted p) (priority_accepted p) p
    | (Some q, d) =>
        set_queues (mkShared (queue s) q (recent s) (closed s)) (dropped p + d)
          (priority_dropped p + d) (accepted p + 1) (priority_accepted p + 1) p
    end
  else
    match enqueue (overflow_ms env) (pipe_overflow p) (queue s) (capacity p) e with
    | (None, d) => set_queues s (dropped p + d) (priority_dropped p) (accepted p) (priority_accepted p) p
    | (Some q, d) =>
        set_queues (mkShared q (priority_queue s) (recent s) (closed s)) (dropped p + d)
          (priority_dropped p) (accepted p + 1) (priority_accepted p) p
    end.

(** ** The worker *)

#[export] Instance FPath_countable : Countable FPath :=
  inj_countable' (λ p, (dir p, base_name p)) (λ x, mkPath x.1 x.2) (λ p, match p with mkPath _ _ => eq_refl end).

Record File := mkFile { lines : list str; modified : Z }.
Abbreviation Disk := (gmap FPath File).

(** Bytes, a newline after each line. *)
Definition file_len (f : File) : Z := foldr (λ l n, Z.of_nat (length l) + 1 + n) 0 (lines f).

(** What the operating system answers during one turn, and the JSON of the event. *)
Record SinkEnv := mkSinkEnv {
  event_json : result str str;
  mkdir_ok : bool; rename_ok : bool; copy_ok : bool; unlink_ok : bool;
  open_ok : bool; write_ok : bool;
  sink_now_ms : Z;
  upload : option (result str str);
  index_probe : list (result bool unit);
  index_store : list (result bool unit);
  index_prune_ok : bool;
  removable : FPath → bool
}.

Inductive RotateOutcome := Appended | Rotated.

Definition rotated_path (env : SinkEnv) (path : FPath) (policy : FileSinkPolicy) : FPath :=
  mkPath (default (dir path) (fp_archive_dir policy))
    (base_name path ++ $"." ++ dec (sink_now_ms env)).

(** [Err] is an I/O error that ends the append. *)
Definition rotate_active_file (env : SinkEnv) (path : FPath) (policy : FileSinkPolicy) (d : Disk)
    : result unit Disk :=
  match d !! path with
  | None => Ok d
  | Some f =>
      if negb (mkdir_ok env) then Err tt
      else
        let dest := rotated_path env path policy in
        if rename_ok env then Ok (<[dest := f]> (delete path d))
        else if copy_ok env then
          let d := <[dest := mkFile (lines f) (sink_now_ms env)]> d in
          Ok (if unlink_ok env then delete path d else d)
        else Err tt
  end.

Definition append_line (env : SinkEnv) (path : FPath) (d : Disk) : result unit Disk :=
  if negb (open_ok env) then Err tt
  else
    match event_json env with
    | Err _ => Err tt
    | Ok line =>
        if negb (write_ok env) then Err tt
        else
          let old := match d !! path with Some f => lines f | None => [] end in
          Ok (<[path := mkFile (old ++ [line]) (sink_now_ms env)]> d)
    end.

(** The disk changes by a rotation even when the append then fails. *)
Definition append_jsonl_with_rotate (env : SinkEnv) (path : FPath) (policy : FileSinkPolicy) (d : Disk)
    : result unit RotateOutcome * Disk :=
  if negb (is_empty (dir path)) && negb (mkdir_ok env) then (Err tt, d)
  else
    let full :=
      (0 <? fp_max_file_bytes policy) &&
      match d !! path with Some f => fp_max_file_bytes policy <=? file_len f | None => false end in
    match (if full then rotate_active_file env path policy d else Ok d) with
    | Err _ => (Err tt, d)
    | Ok d1 =>
        match append_line env path d1 with
        | Err _ => (Err tt, d1)
        | Ok d2 => (Ok (if full then Rotated else Appended), d2)
        end
    end.

Definition append_jsonl (env : SinkEnv) (path : FPath) (d : Disk) : result unit unit * Disk :=
  let '(r, d) := append_jsonl_with_rotate env path (mkFilePolicy 0 0 0 None) d in
  (map_ok (λ _, tt) r, d).

(** A sibling [name.digits] of the active file. *)
Definition is_rotated (active : FPath) (d : str) (p : FPath) : bool :=
  str_eqb (dir p) d && negb (bool_decide (p = active)) &&
  match strip_prefix (base_name p) (base_name active) with
  | Some ("."%char :: suffix) => negb (is_empty suffix) && forallb is_ascii_digit suffix
  | _ => false
  end.

(** Oldest first. *)
Fixpoint insert_old (x : FPath * Z) (l : list (FPath * Z)) : list (FPath * Z) :=
  match l with
  | [] => [x]
  | y :: l' => if x.2 <=? y.2 then x :: l else y :: insert_old x l'
  end.
Definition oldest_first (l : list (FPath * Z)) : list (FPath * Z) := foldr insert_old [] l.

Definition prune_dir (active : FPath) (policy : FileSinkPolicy) : str :=
  default (dir active) (fp_archive_dir policy).

Definition prune_candidates (active : FPath) (policy : FileSinkPolicy) (d : Disk) : list (FPath * Z) :=
  oldest_first (List.filter (λ x, is_rotated active (prune_dir active policy) x.1)
    (map (λ pf : FPath * File, (pf.1, modified pf.2)) (map_to_list d))).

(** Remove what can be removed; the number removed. *)
Fixpoint remove_files (env : SinkEnv) (l : list (FPath * Z)) (d : Disk) : Z * Disk :=
  match l with
  | [] => (0, d)
  | x :: l =>
      let '(n, d) := remove_files env l d in
      if removable env x.1 then (n + 1, delete x.1 d) else (n, d)
  end.

(** Ages are in milliseconds; a file from the future has age zero. *)
Definition too_old (env : SinkEnv) (policy : FileSinkPolicy) (x : FPath * Z) : bool :=
  (0 <? fp_retain_days policy) &&
  (fp_retain_days policy * 86400000 <? Z.max (sink_now_ms env - x.2) 0).

Definition prune_rotated_files (env : SinkEnv) (active : FPath) (policy : FileSinkPolicy) (d : Disk)
    : Z * Disk :=
  let candidates := prune_candidates active policy d in
  let '(n1, d) := remove_files env (List.filter (too_old env policy) candidates) d in
  let kept := List.filter (λ x, negb (too_old env policy x)) candidates in
  let excess :=
    if 0 <? fp_rotate_keep policy then (length kept - Z.to_nat (fp_rotate_keep policy))%nat else 0%nat in
  let '(n2, d) := remove_files env (take excess kept) d in
  (n1 + n2, d).

(** The outside: files, trace records, and the worker's retention counter. *)
Record Sinks := mkSinks { disk : Disk; traced : list AuditEvent; since_prune : Z }.

Definition run_retention_now (env : SinkEnv) (p : AuditPipeline) (w : Sinks) : AuditPipeline * Sinks :=
  let '(n, d) :=
    match pipe_file_path p with
    | Some active => prune_rotated_files env active (file_policy p) (disk w)
    | None => (0, disk w)
    end in
  let idx := (λ i, (prune_older_than_days (sink_now_ms env) (index_prune_ok env)
                      (fp_retain_days (file_policy p)) i).2) <$> pipe_index p in
  (set_written idx (written p) (rotated p) (pruned p + n) p, mkSinks d (traced w) (since_prune w)).

Definition maybe_upload_sample (env : SinkEnv) (inline : bool) (e : AuditEvent) : AuditEvent :=
  match ev_sample_body e with
  | None => e
  | Some body =>
      if is_empty body then e
      else
        match upload env with
        | Some (Ok key) =>
            set_sample (if inline then Some body else None) (Some ($"opendal:" ++ key))
              (ev_sample_row_count e) (ev_sample_bytes e) (ev_sample_truncated e) e
        | _ =>
            if inline then e
            else
              set_sample None
                (Some (default ($"dropped:no_archive") (ev_sample_ref e)))
                (ev_sample_row_count e) (ev_sample_bytes e) (ev_sample_truncated e) e
        end
  end.

Definition dispatch (env : SinkEnv) (event : AuditEvent) (p : AuditPipeline) (w : Sinks)
    : AuditPipeline * Sinks :=
  let e := maybe_upload_sample env (policy_inline (pipe_sample_policy p)) event in
  let traced := if write_tracing p then traced w ++ [e] else traced w in
  let '(rotations, d) :=
    match pipe_file_path p with
    | Some path =>
        if write_file p then
          match append_jsonl_with_rotate env path (file_policy p) (disk w) with
          | (Ok Rotated, d) => (1, d)
          | (_, d) => (0, d)
          end
        else (0, disk w)
    | None => (0, disk w)
    end in
  let idx :=
    (λ i, let '(ok, i) := index_insert (sink_now_ms env) (index_probe env) (index_store env) e i in
          if ok then i else record_error i) <$> pipe_index p in
  (set_written idx (written p) (rotated p + rotations) (pruned p) p, mkSinks d traced (since_prune w)).

(** One turn of [worker_loop]: the event taken, if there was one. *)
Definition next_event (s : SharedState) : option (AuditEvent * SharedState) :=
  match priority_queue s with
  | e :: q => Some (e, mkShared (queue s) q (recent s) (closed s))
  | [] =>
      match queue s with
      | e :: q => Some (e, mkShared q [] (recent s) (closed s))
      | [] => None
      end
  end.

Definition worker_turn (env : SinkEnv) (p : AuditPipeline) (w : Sinks)
    : option AuditEvent * AuditPipeline * Sinks :=
  match next_event (state p) with
  | None => (None, p, w)
  | Some (e, s) =>
      let p := set_queues s (dropped p) (priority_dropped p) (accepted p) (priority_accepted p) p in
      let '(p, w) := dispatch env e p w in
      let p := set_written (pipe_index p) (written p + 1) (rotated p) (pruned p) p in
      let w := mkSinks (disk w) (traced w) (since_prune w + 1) in
      if 256 <=? since_prune w then
        let '(p, w) := run_retention_now env p (mkSinks (disk w) (traced w) 0) in (Some e, p, w)
      else (Some e, p, w)
  end.

(** ** Queries *)

Definition ring_matches (f : AuditQueryFilter) (e : AuditEvent) : bool :=
  eq_clause (q_event_id f) (ev_event_id e) && eq_clause (q_decision f) (ev_decision e) &&
  eq_clause (q_subject_id f) (ev_subject_id e) && eq_clause (q_service f) (ev_service e) &&
  eq_clause (q_outcome f) (ev_outcome e) && eq_clause (q_listener f) (ev_listener e) &&
  eq_clause (q_rule f) (ev_rule e) && eq_clause (q_action f) (ev_action e) &&
  match q_from_ms f with Some from => from <=? default 0 (ev_ts_unix_ms e) | None => true end &&
  match q_to_ms f with Some to => default u64_max (ev_ts_unix_ms e) <=? to | None => true end &&
  match q_audit_level f with
  | Some l => match ev_audit_level e with Some el => eq_ignore_ascii_case el l | None => false end
  | None => true
  end.

Definition query_recent (f : AuditQueryFilter) (limit : Z) (p : AuditPipeline) : list AuditEvent :=
  take (Z.to_nat limit) (List.filter (ring_matches f) (reverse (recent (state p)))).

(** [idx_ok] is false when the index query fails. *)
Definition query_filter (idx_ok : bool) (f : AuditQueryFilter) (p : AuditPipeline) : list AuditEvent :=
  match pipe_index p with
  | Some i => if idx_ok then index_query f i else query_recent f (limit_clamped f) p
  | None => query_recent f (limit_clamped f) p
  end.

(** ** Properties of the queues *)

Inductive Move := MSend (env : SendEnv) (e : AuditEvent) | MTurn (env : SinkEnv).

(** A schedule of senders and the worker: the events the worker took, in order. *)
Fixpoint moves (l : list Move) (p : AuditPipeline) (w : Sinks) : list AuditEvent * AuditPipeline * Sinks :=
  match l with
  | [] => ([], p, w)
  | MSend env e :: l => moves l (try_send env e p) w
  | MTurn env :: l =>
      let '(o, p, w) := worker_turn env p w in
      let '(taken, p, w) := moves l p w in
      (match o with Some e => e :: taken | None => taken end, p, w)
  end.

(** The events sent, as they are queued. *)
Fixpoint sent_events (l : list Move) (p : AuditPipeline) : list AuditEvent :=
  match l with
  | [] => []
  | MSend env e :: l => queued_event env p e :: sent_events l p
  | MTurn _ :: l => sent_events l p
  end.

(** What no move changes. *)
Definition same_config (p q : AuditPipeline) : Prop :=
  capacity p = capacity q ∧ priority_capacity p = priority_capacity q ∧
  pipe_overflow p = pipe_overflow q ∧ payload_level p = payload_level q ∧
  pipe_sql_max p = pipe_sql_max q ∧ pipe_sample_policy p = pipe_sample_policy q.

Lemma same_config_refl p : same_config p p.
Proof. done. Qed.

Lemma try_send_config env e p : same_config (try_send env e p) p.
Proof.
  unfold try_send, same_config, set_queues. simpl. destruct (closed _); [done|].
  destruct (goes_first _ _); destruct (enqueue _ _ _ _ _) as [[]]; done.
Qed.

Lemma dispatch_frame env e p w :
  same_config (dispatch env e p w).1 p ∧ state (dispatch env e p w).1 = state p ∧
  written (dispatch env e p w).1 = written p ∧ dropped (dispatch env e p w).1 = dropped p ∧
  priority_dropped (dispatch env e p w).1 = priority_dropped p.
Proof. unfold dispatch. destruct (match pipe_file_path p with Some _ => _ | None => _ end). done. Qed.

Lemma retention_frame env p w :
  same_config (run_retention_now env p w).1 p ∧ state (run_retention_now env p w).1 = state p ∧
  written (run_retention_now env p w).1 = written p ∧ dropped (run_retention_now env p w).1 = dropped p ∧
  priority_dropped (run_retention_now env p w).1 = priority_dropped p.
Proof. unfold run_retention_now. destruct (match pipe_file_path p with Some _ => _ | None => _ end). done. Qed.

(** A turn takes the next event, counts it and leaves the rest of the queues. *)
Lemma worker_turn_spec env p w :
  match next_event (state p) with
  | None => worker_turn env p w = (None, p, w)
  | Some (e, s) =>
      ∃ p' w', worker_turn env p w = (Some e, p', w') ∧ same_config p' p ∧ state p' = s ∧
        written p' = written p + 1 ∧ dropped p' = dropped p ∧ priority_dropped p' = priority_dropped p
  end.
Proof.
  unfold worker_turn. destruct (next_event (state p)) as [[e s]|]; [|done].
  set (p1 := set_queues _ _ _ _ _ p). pose proof (dispatch_frame env e p1 w) as (Hc & Hs & Hw & Hd & Hp).
  destruct (dispatch env e p1 w) as [p2 w2]. simpl in *.
  set (p3 := set_written _ _ _ _ p2).
  assert (same_config p3 p) as Hc3 by (destruct Hc as (? & ? & ? & ? & ? & ?); by split_and!).
  destruct (256 <=? _).
  - pose proof (retention_frame env p3 (mkSinks (disk w2) (traced w2) 0)) as (Hc' & Hs' & Hw' & Hd' & Hp').
    destruct (run_retention_now env p3 _) as [p4 w4]. simpl in *. exists p4, w4. split; [done|].
    split_and!; try congruence.
    destruct Hc' as (? & ? & ? & ? & ? & ?), Hc3 as (? & ? & ? & ? & ? & ?). split_and!; congruence.
  - eexists p3, _. split; [done|]. split_and!; try done; simpl; congruence.
Qed.

(** What an enqueue keeps and what it loses. *)
Lemma enqueue_keeps now pol q cap e r d :
  1 ≤ cap → Z.of_nat (length q) ≤ cap → enqueue now pol q cap e = (r, d) →
  Z.of_nat (length (default q r)) ≤ cap ∧ ∃ lost, q ++ [e] ≡ₚ default q r ++ lost ∧ d = Z.of_nat (length lost).
Proof.
  intros Hc Hq. unfold enqueue. destruct (cap <=? _) eqn:E1; bool_hyps.
  - assert (∃ x q', q = x :: q') as (x & q' & ->) by (destruct q; [simpl in *; lia|eauto]).
    assert ((x :: q') ++ [e] ≡ₚ (q' ++ [e]) ++ [x]) as Hold by (simpl; by rewrite (Permutation_app_comm _ [x])).
    destruct pol; [| |destruct (Z.even now)|]; intros [= <- <-]; simpl in *; (split; [rewrite ?length_app; simpl; lia|]); first [by exists [e]|by exists [x]].
  - intros [= <- <-]. simpl. split; [rewrite length_app; simpl; lia|]. exists []. by rewrite app_nil_r.
Qed.

(** The queues are within their capacities and the pipeline is open. *)
Definition pipe_ok (p : AuditPipeline) : Prop :=
  1 ≤ capacity p ∧ closed (state p) = false ∧ Z.of_nat (length (queue (state p))) ≤ capacity p ∧
  (priority_queue (state p) = [] ∨
   1 ≤ priority_capacity p ∧ Z.of_nat (length (priority_queue (state p))) ≤ priority_capacity p).

(** The events that wait. *)
Definition waiting (p : AuditPipeline) : list AuditEvent := priority_queue (state p) ++ queue (state p).

Lemma try_send_keeps env e p :
  pipe_ok p →
  pipe_ok (try_send env e p) ∧ written (try_send env e p) = written p ∧ write_tracing (try_send env e p) = write_tracing p ∧
  ∃ lost, waiting p ++ [queued_event env p e] ≡ₚ waiting (try_send env e p) ++ lost ∧ dropped (try_send env e p) = dropped p + Z.of_nat (length lost).
Proof.
  intros (Hc & Ho & Hq & Hp). unfold try_send, pipe_ok, waiting. simpl. rewrite Ho.
  destruct (goes_first p _) eqn:Eg.
  - unfold goes_first in Eg. bool_hyps.
    assert (Z.of_nat (length (priority_queue (state p))) ≤ priority_capacity p) as Hpq
      by (destruct Hp as [->|[? ?]]; [simpl; lia|done]).
    assert (∀ q' lost, priority_queue (state p) ++ [queued_event env p e] ≡ₚ q' ++ lost →
      (priority_queue (state p) ++ queue (state p)) ++ [queued_event env p e] ≡ₚ (q' ++ queue (state p)) ++ lost) as Hperm.
    { intros q' lost Hl. rewrite <-!(assoc_L (++)), (Permutation_app_comm (queue (state p)) [_]), (Permutation_app_comm (queue (state p)) lost), !(assoc_L (++)). by rewrite Hl. }
    destruct (enqueue _ _ (priority_queue (state p)) _ _) as [[q|] d] eqn:Ee;
      apply enqueue_keeps in Ee as (H1 & lost & H2 & H3); try done; try lia; simpl in *;
      split_and!; try done; try (right; lia); exists lost; (split; [by apply Hperm|lia]).
  - destruct (enqueue _ _ (queue (state p)) _ _) as [[q|] d] eqn:Ee;
      apply enqueue_keeps in Ee as (H1 & lost & H2 & H3); try done; simpl in *; split_and!; try done;
      exists lost; (split; [|lia]); rewrite <-!(assoc_L (++)); by f_equiv.
Qed.

(** An event without what is known of its sample, which may be moved to an archive. *)
Definition unsampled : AuditEvent → AuditEvent := set_sample None None None None false.

Lemma upload_unsampled env inline e : unsampled (maybe_upload_sample env inline e) = unsampled e.
Proof. unfold maybe_upload_sample. repeat case_match; done. Qed.

(** A turn hands the event it took to the sinks. *)
Lemma worker_turn_traces env p w o p' w' :
  worker_turn env p w = (o, p', w') →
  write_tracing p' = write_tracing p ∧
  ∃ out, traced w' = traced w ++ out ∧ unsampled <$> out = (if write_tracing p then unsampled <$> option_list o else []).
Proof.
  unfold worker_turn. destruct (next_event (state p)) as [[e s]|]; [|intros [= <- <- <-]; split; [done|]; exists []; rewrite app_nil_r; by destruct (write_tracing p)].
  set (p1 := set_queues _ _ _ _ _ p). unfold dispatch. set (e' := maybe_upload_sample _ _ _).
  destruct (match pipe_file_path p1 with Some _ => _ | None => _ end) as [n d]. change (write_tracing p1) with (write_tracing p). cbv zeta. cbn [since_prune traced disk].
  assert (∃ out, (if write_tracing p then traced w ++ [e'] else traced w) = traced w ++ out ∧
    unsampled <$> out = (if write_tracing p then unsampled <$> option_list (Some e) else [])) as Hout.
  { destruct (write_tracing p); [exists [e']; split; [done|]; cbn; by rewrite <-(upload_unsampled env (policy_inline (pipe_sample_policy p1)) e)|exists []; by rewrite app_nil_r]. }
  destruct (256 <=? _); [|by intros [= <- <- <-]]. unfold run_retention_now. destruct (match pipe_file_path _ with Some _ => _ | None => _ end) as [n2 d2]. by intros [= <- <- <-].
Qed.

Lemma worker_turn_keeps env p w o p' w' :
  pipe_ok p → worker_turn env p w = (o, p', w') →
  pipe_ok p' ∧ same_config p' p ∧ waiting p = option_list o ++ waiting p' ∧
  written p' = written p + Z.of_nat (length (option_list o)) ∧ dropped p' = dropped p.
Proof.
  intros (Hc & Ho & Hq & Hp) Ht. pose proof (worker_turn_spec env p w) as Hs.
  unfold pipe_ok, waiting. unfold next_event in Hs.
  destruct (priority_queue (state p)) as [|e pq] eqn:Epq.
  - destruct (queue (state p)) as [|e q] eqn:Eq.
    + rewrite Hs in Ht. simplify_eq. rewrite Epq, Eq. split_and!; try done; try (by left); simpl; lia.
    + destruct Hs as (p1 & w1 & Hr & Hcfg & Hst & Hw & Hd & _). rewrite Hr in Ht. simplify_eq.
      destruct Hcfg as (C1 & C2 & Hcfg). rewrite Hst, C1, C2. simpl in *. split_and!; try done; try lia; by left.
  - destruct Hs as (p1 & w1 & Hr & Hcfg & Hst & Hw & Hd & _). rewrite Hr in Ht. simplify_eq.
    destruct Hcfg as (C1 & C2 & Hcfg). rewrite Hst, C1, C2. simpl in *. split_and!; try done; try lia. right. destruct Hp as [|[? ?]]; [done|]. lia.
Qed.

Lemma sent_config l p q : same_config p q → sent_events l p = sent_events l q.
Proof.
  intros (? & ? & ? & E1 & E2 & E3). induction l as [|[]]; simpl; [done| |done]. unfold queued_event. by rewrite E1, E2, E3, IHl.
Qed.

(** C17 No event disappears uncounted.  While the pipeline is open, whatever the overflow
    policy and however senders and worker interleave: the events that waited and those that were
    sent are, each as often as it was sent, the events that the worker took, those that still
    wait, and as many more as the counter of dropped events has grown by; the
    counter of written events grows by the number taken; with the trace sink on, exactly
    the events taken are traced, in that order (their sample aside, which may be
    archived); and the queues never outgrow their capacities.  (The file and the index
    may fail on an event that counts as written: [written_without_write].) *)
Theorem audit_conservation l p w taken p' w' :
  pipe_ok p → moves l p w = (taken, p', w') →
  pipe_ok p' ∧
  (∃ lost, waiting p ++ sent_events l p ≡ₚ taken ++ waiting p' ++ lost ∧ dropped p' = dropped p + Z.of_nat (length lost)) ∧
  written p' = written p + Z.of_nat (length taken) ∧
  ∃ out, traced w' = traced w ++ out ∧ unsampled <$> out = (if write_tracing p then unsampled <$> taken else []).
Proof.
  revert p w taken. induction l as [|[env e|env] l IH]; simpl; intros p w taken Hok Hm.
  - simplify_eq. split; [done|]. split; [exists []; rewrite !app_nil_r; simpl; split; [done|lia]|]. split; [simpl; lia|].
    exists []. rewrite app_nil_r. by destruct (write_tracing p').
  - destruct (try_send_keeps env e p Hok) as (Hok' & Hw & Ht & lost1 & Hl1 & Hd1).
    destruct (IH _ _ _ Hok' Hm) as (Hok2 & (lost & Hl & Hd) & Hw2 & Hout). rewrite Ht in Hout. split; [done|]. split; [|split; [lia|done]].
    rewrite (sent_config l _ p (try_send_config env e p)) in Hl. exists (lost ++ lost1). split; [|rewrite length_app; lia].
    rewrite cons_middle, (assoc_L (++) (waiting p)), Hl1, <-(assoc_L (++)), (Permutation_app_comm lost1), (assoc_L (++)), Hl. by rewrite !(assoc_L (++)).
  - destruct (worker_turn env p w) as [[o p1] w1] eqn:Et.
    destruct (moves l p1 w1) as [[taken1 p2] w2] eqn:Em. simplify_eq.
    destruct (worker_turn_keeps _ _ _ _ _ _ Hok Et) as (Hok' & Hcfg & Hq & Hw & Hd).
    destruct (worker_turn_traces _ _ _ _ _ _ Et) as (Ht & out1 & Ho1 & Hu1).
    destruct (IH _ _ _ Hok' Em) as (Hok2 & (lost & Hl & Hdl) & Hw2 & out & Hout & Hu). rewrite Ht in Hu.
    assert (match o with Some e => e :: taken1 | None => taken1 end = option_list o ++ taken1) as -> by (by destruct o).
    split; [done|]. split; [|split; [rewrite length_app; lia|]].
    + exists lost. split; [|lia]. rewrite Hq, <-(sent_config l _ p Hcfg), <-!(assoc_L (++)). by rewrite Hl.
    + exists (out1 ++ out). rewrite Hout, Ho1, (assoc_L (++)). split; [done|]. rewrite fmap_app, Hu1, Hu. destruct (write_tracing p); [by rewrite fmap_app|done].
Qed.

Lemma sent_decision env p e : ev_decision (queued_event env p e) = ev_decision e.
Proof.
  unfold queued_event, apply_audit_level_payload_with_sample.
  destruct (min_audit_level _ _); [done|done|]. destruct (negb _); [done|].
  destruct (ev_sample_body _); [|done]. by destruct (truncate_sample_body _ _).
Qed.

Definition refuses_new (pol : OverflowPolicy) : Prop := pol = DropNew ∨ pol = Block.

Lemma enqueue_appends now pol q cap e : refuses_new pol →
  ∃ r, default q (enqueue now pol q cap e).1 = q ++ r.
Proof.
  intros Hp. unfold enqueue. destruct (cap <=? _); [|by exists [e]].
  exists []. rewrite app_nil_r. by destruct Hp as [-> | ->].
Qed.

Lemma try_send_appends env e p : refuses_new (pipe_overflow p) →
  ∃ r, priority_queue (state (try_send env e p)) = priority_queue (state p) ++ r.
Proof.
  intros Hp. unfold try_send. simpl. destruct (closed (state p)); [by exists []; rewrite app_nil_r|].
  destruct (goes_first _ _).
  - pose proof (enqueue_appends (overflow_ms env) _ (priority_queue (state p)) (priority_capacity p)
      (queued_event env p e) Hp) as [r Hr].
    destruct (enqueue _ _ _ _ _) as [[q|] d]; simpl in *; eauto.
  - exists []. rewrite app_nil_r. by destruct (enqueue _ _ _ _ _) as [[q|] d].
Qed.

Definition worker_turns (l : list Move) : nat :=
  length (List.filter (λ m, match m with MTurn _ => true | _ => false end) l).

(** What waits in the priority queue is what the worker takes next, whatever is
    sent meanwhile. *)
Lemma priority_taken l p w taken p' w' ahead rest :
  moves l p w = (taken, p', w') → refuses_new (pipe_overflow p) →
  priority_queue (state p) = ahead ++ rest → (length ahead ≤ worker_turns l)%nat →
  take (length ahead) taken = ahead.
Proof.
  revert p w taken ahead rest. induction l as [|[env e|env] l IH]; intros p w taken ahead rest; simpl.
  - intros _ _ _ Hl. by destruct ahead; [|unfold worker_turns in Hl; simpl in Hl; lia].
  - intros Hm Hp Hq Hl. destruct (try_send_appends env e p Hp) as [r Hr].
    eapply (IH _ _ _ ahead (rest ++ r)); [exact Hm| |by rewrite Hr, Hq, app_assoc|done].
    destruct (try_send_config env e p) as (_ & _ & -> & _). done.
  - intros Hm Hp Hq Hl. destruct ahead as [|x ahead]; [done|].
    pose proof (worker_turn_spec env p w) as Hs. unfold next_event in Hs. rewrite Hq in Hs. simpl in Hs.
    destruct Hs as (p1 & w1 & Hr & (_ & _ & Hpol & _) & Hst & _). rewrite Hr in Hm.
    destruct (moves l p1 w1) as [[taken1 p2] w2] eqn:Em. simplify_eq. simpl. f_equal.
    eapply (IH _ _ _ ahead rest); [exact Em|by rewrite Hpol|by rewrite Hst|].
    unfold worker_turns in *. simpl in Hl. lia.
Qed.

(** The event of a refused statement is not lost to a flood of others: if the
    priority queue has room when it is sent, it is the event the worker takes
    right after those already waiting there, however many events of either kind
    are sent meanwhile and however full the main queue is. *)
Theorem deny_recorded env e l p w taken p' w' :
  closed (state p) = false → refuses_new (pipe_overflow p) →
  is_priority_decision (ev_decision e) = true →
  Z.of_nat (length (priority_queue (state p))) < priority_capacity p →
  (length (priority_queue (state p)) < worker_turns l)%nat →
  moves (MSend env e :: l) p w = (taken, p', w') →
  taken !! length (priority_queue (state p)) = Some (queued_event env p e).
Proof.
  intros Ho Hp He Hc Hl Hm. simpl in Hm. set (q := priority_queue (state p)) in *.
  assert (priority_queue (state (try_send env e p)) = (q ++ [queued_event env p e]) ++ []) as Hq.
  { unfold try_send. simpl. rewrite Ho. unfold goes_first. rewrite sent_decision, He.
    rewrite (proj2 (Z.ltb_lt 0 (priority_capacity p))) by lia. simpl. unfold enqueue. fold q.
    destruct (priority_capacity p <=? Z.of_nat (length q)) eqn:E1; bool_hyps; [lia|].
    by rewrite app_nil_r. }
  pose proof (priority_taken _ _ _ _ _ _ _ _ Hm
    ltac:(destruct (try_send_config env e p) as (_ & _ & -> & _); done) Hq
    ltac:(rewrite length_app; simpl; lia)) as Ht.
  rewrite length_app in Ht. simpl in Ht.
  assert (take (length q + 1) taken !! length q = Some (queued_event env p e)) as H1.
  { rewrite Ht. by apply list_lookup_middle. }
  rewrite lookup_take_Some in H1. by destruct H1.
Qed.

(** *** A run with a main queue of one and a flood of allowed statements *)

Definition quiet_sinks : SinkEnv :=
  mkSinkEnv (Ok ($"{}")) true true true true true true 0 None [] [] true (λ _, true).
Definition small_config : Security.SecurityAuditConfig :=
  {| Security.queue_capacity := 1; Security.priority_queue_capacity := 2;
     Security.overflow := $"drop_new"; Security.sinks := [$"tracing"]; Security.file_path := [];
     Security.max_file_bytes := 0; Security.retain_days := 0; Security.rotate_keep := 0;
     Security.archive_dir := []; Security.opendal_scheme := []; Security.opendal_root := [];
     Security.opendal_prefix := []; Security.opendal_bucket := []; Security.opendal_endpoint := [];
     Security.opendal_region := []; Security.opendal_access_key_id := [];
     Security.opendal_secret_access_key := []; Security.opendal_session_token := [];
     Security.index_path := []; Security.sql_text_max_chars := 0; Security.sample_enabled := false;
     Security.sample_max_rows := 0; Security.sample_max_bytes := 0; Security.sample_prefix := [];
     Security.sample_inline := true |}.
Definition small_pipe : AuditPipeline := new_pipeline (λ _, None) small_config ($"L0").
Definition event_of (d : AuditDecision) : AuditEvent :=
  mkEvent (Some (audit_decision_as_str d)) (Some 0) None (Some (audit_decision_as_str d)) None None None
    None None None None None None None None None None None None None None None None None [] None None
    None None false.
Definition send_env : SendEnv := mkSendEnv 0 0 0 0.
Definition flood : list Move :=
  replicate 5 (MSend send_env (event_of DExecute)) ++ [MTurn quiet_sinks; MTurn quiet_sinks].
Definition no_sinks : Sinks := mkSinks ∅ [] 0.

Lemma deny_recorded_witness :
  (moves (MSend send_env (event_of DDeny) :: flood) small_pipe no_sinks).1.1 !! 0%nat
    = Some (queued_event send_env small_pipe (event_of DDeny)).
Proof.
  destruct (moves (MSend send_env (event_of DDeny) :: flood) small_pipe no_sinks) as [[taken p'] w'] eqn:Em.
  apply (deny_recorded send_env (event_of DDeny) flood small_pipe no_sinks taken p' w');
    [reflexivity|by left|vm_compute; reflexivity|vm_compute; reflexivity|vm_compute; lia|exact Em].
Defined.

Lemma audit_conservation_witness :
  let '(taken, p', w') := moves (MSend send_env (event_of DDeny) :: flood) small_pipe no_sinks in
  written p' = 2 ∧ dropped p' = 4 ∧ length taken = 2%nat ∧ unsampled <$> traced w' = unsampled <$> taken ∧
  ∃ lost, sent_events (MSend send_env (event_of DDeny) :: flood) small_pipe ≡ₚ taken ++ waiting p' ++ lost ∧ length lost = 4%nat.
Proof.
  destruct (moves (MSend send_env (event_of DDeny) :: flood) small_pipe no_sinks) as [[taken p'] w'] eqn:Em.
  assert (written p' = 2 ∧ dropped p' = 4 ∧ length taken = 2%nat) as (Hw & Hd & Hl) by (vm_compute in Em; by simplify_eq).
  destruct (audit_conservation (MSend send_env (event_of DDeny) :: flood) small_pipe no_sinks taken p' w') as (_ & (lost & Hp & Hdl) & _ & out & Hout & Hu);
    [split_and!; try (vm_compute; congruence); by left|exact Em|].
  split_and!; [done..|rewrite Hout; exact Hu|]. exists lost. split; [exact Hp|]. rewrite Hd in Hdl. change (dropped small_pipe) with 0 in Hdl. lia.
Defined.

(** The worker counts an event as written whatever the sinks did with it: here the
    only sink is a file that cannot be opened. *)
Theorem written_without_write :
  let p := reconfigure (λ _, None)
    {| Security.queue_capacity := 1; Security.priority_queue_capacity := 2;
       Security.overflow := $"drop_new"; Security.sinks := [$"file"]; Security.file_path := $"a.jsonl";
       Security.max_file_bytes := 0; Security.retain_days := 0; Security.rotate_keep := 0;
       Security.archive_dir := []; Security.opendal_scheme := []; Security.opendal_root := [];
       Security.opendal_prefix := []; Security.opendal_bucket := []; Security.opendal_endpoint := [];
       Security.opendal_region := []; Security.opendal_access_key_id := [];
       Security.opendal_secret_access_key := []; Security.opendal_session_token := [];
       Security.index_path := []; Security.sql_text_max_chars := 0; Security.sample_enabled := false;
       Security.sample_max_rows := 0; Security.sample_max_bytes := 0; Security.sample_prefix := [];
       Security.sample_inline := true |} ($"L0") small_pipe in
  let '(taken, p', w') :=
    moves [MSend send_env (event_of DDeny);
           MTurn (mkSinkEnv (Ok ($"{}")) true true true true false true 0 None [] [] true (λ _, true))] p no_sinks in
  taken = [queued_event send_env p (event_of DDeny)] ∧ written p' = 1 ∧ disk w' = ∅ ∧ traced w' = [] ∧ dropped p' = 0.
Proof. vm_compute. done. Qed.

(** ** Properties of the file sink *)

Definition lines_at (p : FPath) (d : Disk) : list str :=
  match d !! p with Some f => lines f | None => [] end.

(** An append that succeeds adds the line to the active file; if that was full
    its old lines are in the rotated file (provided that name was free) and the
    active file starts again.  No other file changes. *)
Theorem append_keeps_lines env path policy d out d' line :
  append_jsonl_with_rotate env path policy d = (Ok out, d') → event_json env = Ok line →
  rename_ok env = true → d !! rotated_path env path policy = None →
  match out with
  | Appended => lines_at path d' = lines_at path d ++ [line]
  | Rotated =>
      lines_at path d' = [line] ∧ lines_at (rotated_path env path policy) d' = lines_at path d
  end ∧
  (∀ q, q ≠ path → q ≠ rotated_path env path policy → d' !! q = d !! q).
Proof.
  intros Ha Hj Hr Hfree. unfold append_jsonl_with_rotate in Ha.
  destruct (_ && negb (mkdir_ok env))%bool; [done|].
  destruct ((0 <? _) && _)%bool eqn:Efull.
  - bool_hyps. unfold rotate_active_file in Ha. destruct (d !! path) as [f|] eqn:Ef; [|done].
    destruct (negb (mkdir_ok env)); [done|]. rewrite Hr in Ha. unfold append_line in Ha.
    destruct (negb (open_ok env)); [done|]. rewrite Hj in Ha. destruct (negb (write_ok env)); [done|].
    assert (rotated_path env path policy ≠ path) as Hne by congruence.
    rewrite lookup_insert_ne, lookup_delete_eq in Ha by done. simplify_eq. unfold lines_at. rewrite Ef.
    split.
    + rewrite lookup_insert_eq, lookup_insert_ne, lookup_insert_eq by done. done.
    + intros q H1 H2. by rewrite lookup_insert_ne, lookup_insert_ne, lookup_delete_ne by done.
  - unfold append_line in Ha. destruct (negb (open_ok env)); [done|]. rewrite Hj in Ha.
    destruct (negb (write_ok env)); [done|]. simplify_eq. unfold lines_at. split.
    + by rewrite lookup_insert_eq.
    + intros q H1 H2. by rewrite lookup_insert_ne.
Qed.

(** The rotated name has the resolution of a millisecond: a second rotation in the
    same one replaces the file of the first, and its lines are gone. *)
Theorem same_ms_rotation_loses :
  let env := quiet_sinks in
  let active := mkPath ($"log") ($"a.jsonl") in
  let policy := mkFilePolicy 1 0 0 None in
  let d0 := {[ active := mkFile [$"first"] 0 ]} in
  let d1 := (append_jsonl_with_rotate env active policy d0).2 in
  let d2 := (append_jsonl_with_rotate env active policy d1).2 in
  let holds (d : Disk) := existsb (λ pf : FPath * File, one_of (lines pf.2) ($"first")) (map_to_list d) in
  holds d1 = true ∧ holds d2 = false.
Proof. vm_compute. done. Qed.

Lemma remove_files_lookup env l d q :
  (remove_files env l d).2 !! q =
    if decide (q ∈ map fst l ∧ removable env q = true) then None else d !! q.
Proof.
  induction l as [|x l IH]; cbn [remove_files map].
  { rewrite decide_False; [done|]. intros [H%elem_of_nil _]. done. }
  destruct (remove_files env l d) as [n d1]. cbn [snd] in IH.
  destruct (removable env x.1) eqn:Er; cbn [snd]; [destruct (decide (q = x.1)) as [->|Hne]|].
  - rewrite lookup_delete_eq, decide_True; [done|]. split; [by left|done].
  - rewrite lookup_delete_ne, IH by done. apply decide_ext. rewrite elem_of_cons. tauto.
  - rewrite IH. apply decide_ext. rewrite elem_of_cons. intuition congruence.
Qed.

Lemma insert_old_perm x l : insert_old x l ≡ₚ x :: l.
Proof. induction l as [|y l IH]; simpl; [done|]. destruct (_ <=? _); [done|]. rewrite IH. apply Permutation_swap. Qed.

Lemma oldest_first_perm l : oldest_first l ≡ₚ l.
Proof. induction l as [|x l IH]; simpl; [done|]. by rewrite insert_old_perm, IH. Qed.

Lemma candidate_rotated active policy d x :
  x ∈ prune_candidates active policy d → is_rotated active (prune_dir active policy) x.1 = true.
Proof.
  unfold prune_candidates. rewrite oldest_first_perm. rewrite list_elem_of_In, filter_In. tauto.
Qed.

Lemma in_filter_map {A B} (g : A → B) (f : A → bool) l y :
  y ∈ map g (List.filter f l) → ∃ x, y = g x ∧ x ∈ l ∧ f x = true.
Proof. rewrite list_elem_of_In, in_map_iff. setoid_rewrite filter_In. intros (x & <- & H1 & H2). exists x. by rewrite list_elem_of_In. Qed.

(** Retention removes only rotated siblings of the active file: never the active
    file itself, and no other file of the directory. *)
Theorem prune_only_rotated env active policy d q :
  is_rotated active (prune_dir active policy) q = false →
  (prune_rotated_files env active policy d).2 !! q = d !! q.
Proof.
  intros Hq. unfold prune_rotated_files. set (cs := prune_candidates active policy d).
  pose proof (remove_files_lookup env (List.filter (too_old env policy) cs) d q) as H1.
  destruct (remove_files env (List.filter (too_old env policy) cs) d) as [n1 d1]. simpl in H1.
  set (ks := List.filter _ cs). match goal with |- context [take ?n ks] => set (k := n) end.
  pose proof (remove_files_lookup env (take k ks) d1 q) as H2.
  destruct (remove_files env (take k ks) d1) as [n2 d2]. simpl in *. rewrite H2, H1.
  assert (∀ x, x ∈ cs → x.1 ≠ q) as Hcs.
  { intros x Hx <-. apply candidate_rotated in Hx. congruence. }
  rewrite decide_False, decide_False; [done|..].
  - intros [(x & E1 & Hx & _)%in_filter_map _]. by apply (Hcs x).
  - intros [Hin _]. apply list_elem_of_In, in_map_iff in Hin as (x & <- & Hx).
    apply list_elem_of_In in Hx. assert (x ∈ ks) as Hk.
    { rewrite <- (take_drop k ks). apply elem_of_app. by left. }
    apply list_elem_of_In, filter_In in Hk as [Hk _]. apply list_elem_of_In in Hk. by apply (Hcs x).
Qed.
