(* ===== verification/Transport.v ===== *)
(** * Result transport

    [gateway/core/src/transport.rs]: the traits between a frontend, a backend and
    the writer, row streams, and the loops that mask, watermark, cap and encode a
    result window by window.

    A frontend adapter and a response writer are classes; code that uses them is
    in the monad [io] over their states.  The backend's row stream is the list of
    the results of its polls (whatever sizes the backend chooses), so it ends; a
    loop over it has the number of polls left as fuel. *)

From S2P Require Import Prelude RustStr Model Session Obligations ObligationTheorems AuditEvents.

Abbreviation Row := (list GatewayValue).

(** ** Traits *)

Class FrontendProtocolAdapter (F : Type) := {
  fe_protocol : F → ProtocolKind;
  fe_decode : str → SessionState → F → exec (GatewayResult (list GatewayCommand) * SessionState * F);
  fe_encode : GatewayResponse → SessionState → F → GatewayResult (list str) * F;
  fe_header : list Column → SessionState → F → GatewayResult (list str) * F;
  fe_rows : list Column → list Row → SessionState → F → GatewayResult (list str) * F;
  fe_footer : list Column → Z → SessionState → bool → F → GatewayResult (list str) * F
}.

Class ResponseWriter (Wr : Type) := { write_packets : list str → Wr → GatewayResult unit * Wr }.

Record CollectingWriter := mkCollecting { packets : list str }.

#[export] Instance collecting_writer : ResponseWriter CollectingWriter :=
  { write_packets ps w := (Ok tt, mkCollecting (packets w ++ ps)) }.

(** ** Row streams *)

Inductive RowStream :=
| BackendRows (polls : list (GatewayResult (list Row)))
| VecRowStream (rows : list Row)
| PrefixedRowStream (prefix : option (list Row)) (inner : RowStream).

Definition new_prefixed (prefix : list Row) (inner : RowStream) : RowStream :=
  PrefixedRowStream (if is_empty prefix then None else Some prefix) inner.

Fixpoint poll_window (max_rows : Z) (s : RowStream) : GatewayResult (option (list Row)) * RowStream :=
  match s with
  | BackendRows [] => (Ok None, s)
  | BackendRows (Ok chunk :: r) => (Ok (Some chunk), BackendRows r)
  | BackendRows (Err e :: r) => (Err e, BackendRows r)
  | VecRowStream rows =>
      let out := take (Z.to_nat (Z.max max_rows 1)) rows in
      (Ok (if is_empty out then None else Some out), VecRowStream (drop (Z.to_nat (Z.max max_rows 1)) rows))
  | PrefixedRowStream (Some prefix) inner =>
      let n := Z.to_nat (Z.max max_rows 1) in
      if (n <? length prefix)%nat then
        (Ok (Some (take n prefix)), PrefixedRowStream (Some (drop n prefix)) inner)
      else if (length prefix =? n)%nat then (Ok (Some prefix), PrefixedRowStream None inner)
      else
        match poll_window (Z.of_nat (n - length prefix)) inner with
        | (Err e, inner) => (Err e, PrefixedRowStream None inner)
        | (Ok (Some more), inner) => (Ok (Some (prefix ++ more)), PrefixedRowStream None inner)
        | (Ok None, inner) => (Ok (Some prefix), PrefixedRowStream None inner)
        end
  | PrefixedRowStream None inner =>
      let '(r, inner) := poll_window (Z.max max_rows 1) inner in (r, PrefixedRowStream None inner)
  end.

Record StreamingQuery := mkStreaming { q_columns : list Column; q_stream : RowStream }.

(** The results of the polls of a [WireRelay], batch by batch. *)
Abbreviation WireRelay := (list (GatewayResult (list str))).

Inductive ExecuteOutcome :=
| OComplete (response : GatewayResponse)
| OStreaming (query : StreamingQuery)
| OWireRelay (relay : WireRelay).

(** ** The monad of frontend and writer *)

Section Transport.
Context {F Wr : Type} `{FrontendProtocolAdapter F} `{ResponseWriter Wr}.

Definition io (A : Type) : Type := F * Wr → GatewayResult A * (F * Wr).
Definition io_ret {A} (a : A) : io A := λ s, (Ok a, s).
Definition io_err {A} (e : GatewayError) : io A := λ s, (Err e, s).
Definition io_bind {A B} (m : io A) (k : A → io B) : io B := λ s,
  match m s with
  | (Ok a, s) => k a s
  | (Err e, s) => (Err e, s)
  end.
Declare Scope io_scope.
Delimit Scope io_scope with io.
Notation "x ⇐ m ; k" := (io_bind m (λ x, k)) (at level 20, m at level 100, k at level 200, right associativity) : io_scope.
Notation "' x ⇐ m ; k" := (io_bind m (λ 'x, k)) (at level 20, x pattern, m at level 100, k at level 200, right associativity) : io_scope.
Local Open Scope io_scope.

Lemma io_bind_run {A B} (m : io A) (k : A → io B) s :
  io_bind m k s = match m s with (Ok a, s) => k a s | (Err e, s) => (Err e, s) end.
Proof. done. Qed.

(** Encode with the frontend, then write; the packets written. *)
Definition encode_write (enc : F → GatewayResult (list str) * F) : io (list str) := λ '(f, w),
  match enc f with
  | (Err e, f) => (Err e, (f, w))
  | (Ok ps, f) =>
      match write_packets ps w with
      | (Err e, w) => (Err e, (f, w))
      | (Ok _, w) => (Ok ps, (f, w))
      end
  end.

Definition raw_write (ps : list str) : io unit := λ '(f, w),
  let '(r, w) := write_packets ps w in (r, (f, w)).

(** ** Wire relays *)

Record WireRelayObservation := mkObservation {
  relay_bytes : Z; error_response : bool; ready_status : option ascii }.

Definition observe_packet (o : WireRelayObservation) (p : str) : WireRelayObservation :=
  match p with
  | c :: _ =>
      if Ascii.eqb c "E" then mkObservation (relay_bytes o) true (ready_status o)
      else if Ascii.eqb c "Z" && (6 <=? length p)%nat
           then mkObservation (relay_bytes o) (error_response o) (p !! 5%nat)
           else o
  | [] => o
  end.

(** Neither ReadyForQuery nor ParseComplete nor BindComplete. *)
Definition not_boundary (p : str) : bool :=
  match p with
  | c :: _ => negb (Ascii.eqb c "Z" || Ascii.eqb c "1" || Ascii.eqb c "2")
  | [] => true
  end.

Definition payload_bytes (ps : list str) : Z := foldr (λ p n, Z.of_nat (length p) + n) 0 ps.

Fixpoint relay_loop (relay : WireRelay) (skip : bool) (o : WireRelayObservation) : io WireRelayObservation :=
  match relay with
  | [] => io_ret o
  | Err e :: _ => io_err e
  | Ok batch :: relay =>
      if is_empty batch then relay_loop relay skip o
      else
        let o := foldl observe_packet o batch in
        let batch := if skip then List.filter not_boundary batch else batch in
        if is_empty batch then relay_loop relay skip o
        else
          _ ⇐ raw_write batch;
          relay_loop relay skip
            (mkObservation (u64_sat_add (relay_bytes o) (payload_bytes batch)) (error_response o) (ready_status o))
  end.

Definition write_wire_relay_observed (relay : WireRelay) (skip_ready_for_query : bool)
    : io WireRelayObservation :=
  relay_loop relay skip_ready_for_query (mkObservation 0 false None).

Definition write_wire_relay_opts (relay : WireRelay) (skip : bool) : io Z :=
  o ⇐ write_wire_relay_observed relay skip; io_ret (relay_bytes o).

Definition write_wire_relay (relay : WireRelay) : io Z := write_wire_relay_opts relay false.

(** ** Windowed encoding *)

(** The counters that encoding a window changes. *)
Record EncodeStats := mkEncode {
  total_rows : Z; windows : Z; encoded_bytes : Z; peak_window_rows : Z; peak_window_bytes : Z }.

Definition no_encode : EncodeStats := mkEncode 0 0 0 0 0.

Record StreamingEncodeStats := mkStats {
  encode_stats : EncodeStats;
  masked_rows : Z;
  stats_truncated : bool;
  stats_sample : option (str * Z * Z * bool);
  hold_remainder : bool
}.

Definition encode_chunk (session : SessionState) (columns : list Column) (counted : bool)
    (chunk : list Row) (st : EncodeStats) : io EncodeStats :=
  let n := Z.of_nat (length chunk) in
  ps ⇐ encode_write (fe_rows columns chunk session);
  let bytes := Z.min (payload_bytes ps) u64_max in
  io_ret (mkEncode (if counted then total_rows st + n else total_rows st)
            (u64_sat_add (windows st) 1) (u64_sat_add (encoded_bytes st) bytes)
            (Z.max (peak_window_rows st) n) (Z.max (peak_window_bytes st) bytes)).

Section Values.
Context (f64_to_string : Z → str) (f64_is_finite : Z → bool)
  (sample_json : list str → list (list JsonValue) → bool → str).

Abbreviation apply_masks := (Obligations.apply_masks_to_rows f64_to_string).

(** [while !rows.is_empty()]: the fuel is the number of rows. *)
Fixpoint windowed_loop (fuel window : nat) (session : SessionState) (columns : list Column)
    (mask_idx : list (nat * Obligations.MaskSpec)) (rows : list Row) (masked : Z) (st : EncodeStats)
    : io (Z * EncodeStats) :=
  match fuel, rows with
  | _, [] => io_ret (masked, st)
  | O, _ => io_ret (masked, st)
  | S fuel, _ =>
      let n := Nat.min window (length rows) in
      let chunk := apply_masks (take n rows) mask_idx in
      let masked := if is_empty mask_idx then masked else masked + Z.of_nat (length chunk) in
      st ⇐ encode_chunk session columns false chunk st;
      windowed_loop fuel window session columns mask_idx (drop n rows) masked st
  end.

(** The columns and rows that are encoded: capped and watermarked, before masks. *)
Definition prepared_result (columns : list Column) (rows : list Row) (obl : option Obligations.Obligations)
    : bool * list Column * list Row :=
  match obl with
  | None => (false, columns, rows)
  | Some o =>
      let cut := match Obligations.max_rows o with
                 | Some max => max <? Z.of_nat (length rows) | None => false end in
      let '(columns, rows) := Obligations.watermarked f64_to_string o columns
                                (Obligations.truncate_rows (Obligations.max_rows o) rows) in
      (cut, columns, rows)
  end.

Definition prepared_masks (columns : list Column) (obl : option Obligations.Obligations) :=
  match obl with
  | Some o => Obligations.build_mask_index columns (Obligations.column_masks o)
  | None => []
  end.

Definition write_resultset_windowed_with_obligations (session : SessionState) (columns : list Column)
    (rows : list Row) (window_rows : Z) (obl : option Obligations.Obligations)
    : io StreamingEncodeStats :=
  let window := Z.to_nat (Z.max window_rows 1) in
  let '(truncated, columns, rows) := prepared_result columns rows obl in
  let total := Z.of_nat (length rows) in
  _ ⇐ encode_write (fe_header columns session);
  '(masked, st) ⇐ windowed_loop (length rows) window session columns (prepared_masks columns obl) rows 0
                    (mkEncode total 0 0 0 0);
  _ ⇐ encode_write (fe_footer columns total session truncated);
  io_ret (mkStats st masked truncated None false).

Definition write_resultset_windowed (session : SessionState) (columns : list Column) (rows : list Row)
    (window_rows : Z) : io unit :=
  _ ⇐ write_resultset_windowed_with_obligations session columns rows window_rows None; io_ret tt.

(** ** Streaming *)

(** An upper bound on the polls that still return rows. *)
Fixpoint polls_left (s : RowStream) : nat :=
  match s with
  | BackendRows l => length l
  | VecRowStream rows => length rows
  | PrefixedRowStream p inner => match p with Some l => S (length l) | None => 0 end + polls_left inner
  end.

(** The row loop of the watermark: pad to the header's width, the token last; in
    suffix mode mark the first string. *)
Fixpoint pad_row (fuel width : nat) (token : str) (row : Row) : Row :=
  match fuel with
  | O => row
  | S fuel =>
      if (length row <? width)%nat then
        pad_row fuel width token (row ++ [if (length row + 1 =? width)%nat then VString token else Null])
      else row
  end.

Definition stamp_row (wm : Obligations.WatermarkSpec) (width : nat) (row : Row) : Row :=
  let row := pad_row width width (Obligations.wm_token wm) row in
  match Obligations.wm_mode wm with
  | Obligations.WmSuffix =>
      default row (Obligations.mark_first_string ($" |wm=" ++ Obligations.wm_token wm) row)
  | Obligations.WmColumn => row
  end.

(** [while let Some(chunk) = poll_window(window)]: whether any row was left. *)
Fixpoint drain_stream (fuel : nat) (window : Z) (s : RowStream) (saw_more : bool)
    : GatewayResult (bool * RowStream) :=
  match fuel with
  | O => Ok (saw_more, s)
  | S fuel =>
      match poll_window window s with
      | (Err e, _) => Err e
      | (Ok None, s) => Ok (saw_more, s)
      | (Ok (Some chunk), s) => drain_stream fuel window s (saw_more || negb (is_empty chunk))
      end
  end.

(** What the loop keeps; [ls_hold] is [should_hold] (and [stats.hold_remainder]). *)
Record LoopState := mkLoop {
  ls_stream : RowStream;
  ls_enc : EncodeStats;
  ls_masked : Z;
  ls_truncated : bool;
  ls_hold : bool;
  ls_skip : Z;
  ls_prefix : option (list Row);
  ls_sample : list Row
}.

(** The parameters of one call. *)
Record StreamCfg := mkCfg {
  cfg_session : SessionState;
  cfg_columns : list Column;
  cfg_window : Z;
  cfg_masks : list (nat * Obligations.MaskSpec);
  cfg_watermark : option Obligations.WatermarkSpec;
  cfg_max : option Z;
  cfg_budget : nat;
  cfg_hold : bool
}.

(** A row as it is encoded. *)
Definition finish_rows (c : StreamCfg) (chunk : list Row) : list Row :=
  let chunk := apply_masks chunk (cfg_masks c) in
  match cfg_watermark c with
  | Some wm => map (stamp_row wm (length (cfg_columns c))) chunk
  | None => chunk
  end.

Definition at_cap (c : StreamCfg) (st : LoopState) : bool :=
  match cfg_max c with Some max => max <=? total_rows (ls_enc st) | None => false end.

(** The row cap is reached: hold the rest, or drain it. *)
Definition stop_at_cap (c : StreamCfg) (st : LoopState) : GatewayResult LoopState :=
  let '(mkLoop s enc masked trunc hold skip prefix sample) := st in
  if cfg_hold c then
    match prefix with
    | Some _ => Ok (mkLoop s enc masked true true skip prefix sample)
    | None =>
        match poll_window (cfg_window c) s with
        | (Err e, _) => Err e
        | (Ok (Some chunk), s) =>
            if is_empty chunk then Ok (mkLoop s enc masked trunc hold skip prefix sample)
            else Ok (mkLoop s enc masked true true skip (Some chunk) sample)
        | (Ok None, s) => Ok (mkLoop s enc masked trunc hold skip prefix sample)
        end
    end
  else
    match drain_stream (S (polls_left s)) (cfg_window c) s false with
    | Err e => Err e
    | Ok (more, s) => Ok (mkLoop s enc masked (more || trunc) hold skip prefix sample)
    end.

Definition want_rows (c : StreamCfg) (st : LoopState) : Z :=
  if 0 <? ls_skip st then Z.max (Z.min (Z.max (cfg_window c) (ls_skip st)) 4096) 1
  else
    match cfg_max c with
    | Some max => Z.max (Z.min (max - total_rows (ls_enc st)) (cfg_window c)) 1
    | None => cfg_window c
    end.

(** Split at the cap: the rows to encode, and those past it. *)
Definition trim_chunk (c : StreamCfg) (st : LoopState) (chunk : list Row) : list Row * list Row :=
  match cfg_max c with
  | Some max =>
      let remain := Z.to_nat (sat_sub max (total_rows (ls_enc st))) in
      if (remain <? length chunk)%nat then (take remain chunk, drop remain chunk) else (chunk, [])
  | None => (chunk, [])
  end.

Definition sample_more (c : StreamCfg) (chunk : list Row) (sample : list Row) : list Row :=
  if (length sample <? cfg_budget c)%nat then sample ++ take (cfg_budget c - length sample) chunk else sample.

(** The loop; [None] is fuel exhaustion. *)
Fixpoint stream_loop (fuel : nat) (c : StreamCfg) (st : LoopState) : io (option LoopState) :=
  match fuel with
  | O => io_ret None
  | S fuel =>
      if at_cap c st then
        match stop_at_cap c st with Err e => io_err e | Ok st => io_ret (Some st) end
      else
        let '(mkLoop s enc masked trunc hold skip prefix sample) := st in
        match poll_window (want_rows c st) s with
        | (Err e, _) => io_err e
        | (Ok None, s) => io_ret (Some (mkLoop s enc masked trunc hold skip prefix sample))
        | (Ok (Some chunk), s) =>
            let skip_n := Nat.min (Z.to_nat skip) (length chunk) in
            let rest := drop skip_n chunk in
            let skip' := skip - Z.of_nat skip_n in
            if (0 <? skip) && is_empty rest
            then stream_loop fuel c (mkLoop s enc masked trunc hold skip' prefix sample)
            else
              let '(chunk, leftover) := trim_chunk c st rest in
              let trunc := trunc || negb (is_empty leftover) in
              let prefix := if cfg_hold c && negb (is_empty leftover) then Some leftover else prefix in
              let masked := if is_empty (cfg_masks c) then masked else masked + Z.of_nat (length chunk) in
              let out := finish_rows c chunk in
              enc ⇐ encode_chunk (cfg_session c) (cfg_columns c) true out enc;
              stream_loop fuel c (mkLoop s enc masked trunc hold skip' prefix (sample_more c out sample))
        end
  end.

Record StreamingSampleOpts := mkSampleOpts { so_enabled : bool; so_max_rows : Z; so_max_bytes : Z }.
Definition default_sample_opts : StreamingSampleOpts := mkSampleOpts false 0 0.

Definition stream_cfg (session : SessionState) (columns : list Column) (window_rows : Z)
    (obl : option Obligations.Obligations) (opts : StreamingSampleOpts) (hold : bool) : StreamCfg :=
  let wm := obl ≫= Obligations.watermark in
  let columns := match wm with
                 | Some wm => (Obligations.apply_watermark_to_resultset f64_to_string columns [] wm).1
                 | None => columns end in
  mkCfg session columns (Z.max window_rows 1)
    (match obl with Some o => Obligations.build_mask_index columns (Obligations.column_masks o) | None => [] end)
    wm (obl ≫= Obligations.max_rows)
    (if so_enabled opts then Z.to_nat (Z.max (so_max_rows opts) 1) else 0%nat) hold.

Definition start_state (session : SessionState) (s : RowStream) : LoopState :=
  mkLoop s no_encode 0 false false (pg_portal_skip_rows session) None [].

Definition sample_of (c : StreamCfg) (opts : StreamingSampleOpts) (st : LoopState)
    : option (str * Z * Z * bool) :=
  if (0 <? cfg_budget c)%nat && negb (is_empty (ls_sample st)) then
    match build_result_sample sample_json f64_is_finite f64_to_string (map column_name (cfg_columns c))
            (ls_sample st) (Z.max (so_max_rows opts) 1) (Z.max (so_max_bytes opts) 1) with
    | Some (body, n, bytes, t) =>
        Some (body, n, bytes, (Z.of_nat (length (ls_sample st)) <? total_rows (ls_enc st)) || t)
    | None => None
    end
  else None.

Definition held_query (c : StreamCfg) (st : LoopState) : option StreamingQuery :=
  if ls_hold st then
    Some (mkStreaming (cfg_columns c)
      (match ls_prefix st with Some p => new_prefixed p (ls_stream st) | None => ls_stream st end))
  else None.

(** [None] is fuel exhaustion. *)
Definition write_streaming_query_with_obligations_sample (session : SessionState)
    (query : StreamingQuery) (window_rows : Z) (obl : option Obligations.Obligations)
    (opts : StreamingSampleOpts) (hold : bool)
    : io (option (StreamingEncodeStats * option StreamingQuery)) :=
  let c := stream_cfg session (q_columns query) window_rows obl opts hold in
  _ ⇐ encode_write (fe_header (cfg_columns c) session);
  o ⇐ stream_loop (S (polls_left (q_stream query))) c (start_state session (q_stream query));
  match o with
  | None => io_ret None
  | Some st =>
      _ ⇐ encode_write (fe_footer (cfg_columns c) (total_rows (ls_enc st)) session (ls_truncated st));
      io_ret (Some (mkStats (ls_enc st) (ls_masked st) (ls_truncated st) (sample_of c opts st) (ls_hold st),
                    held_query c st))
  end.

Definition write_streaming_query_with_obligations (session : SessionState) (query : StreamingQuery)
    (window_rows : Z) (obl : option Obligations.Obligations) : io (option StreamingEncodeStats) :=
  o ⇐ write_streaming_query_with_obligations_sample session query window_rows obl default_sample_opts false;
  io_ret (fst <$> o).

(** ** What a stream delivers *)

(** The rows still to come. *)
Fixpoint content (s : RowStream) : list Row :=
  match s with
  | BackendRows l => concat (map (λ r, match r with Ok c => c | Err _ => [] end) l)
  | VecRowStream rows => rows
  | PrefixedRowStream p inner => default [] p ++ content inner
  end.

(** No poll fails, and none returns an empty window. *)
Fixpoint clean (s : RowStream) : Prop :=
  match s with
  | BackendRows l => Forall (λ r, match r with Ok c => c ≠ [] | Err _ => False end) l
  | VecRowStream _ => True
  | PrefixedRowStream p inner => (∀ l, p = Some l → l ≠ []) ∧ clean inner
  end.

Lemma take_nonempty {A} n (l : list A) : (1 ≤ n)%nat → l ≠ [] → take n l ≠ [].
Proof. destruct n, l; simpl; try done; lia. Qed.

Lemma is_empty_false {A} (l : list A) : is_empty l = false ↔ l ≠ [].
Proof. destruct l; simpl; naive_solver. Qed.

Lemma poll_clean n s : clean s →
  (∃ chunk s', poll_window n s = (Ok (Some chunk), s') ∧ chunk ≠ [] ∧ content s = chunk ++ content s' ∧
     clean s' ∧ (polls_left s' < polls_left s)%nat) ∨
  (∃ s', poll_window n s = (Ok None, s') ∧ content s = [] ∧ content s' = [] ∧ clean s' ∧
     (polls_left s' ≤ polls_left s)%nat).
Proof.
  revert n. induction s as [l|rows|p s IH]; intros n Hc; simpl.
  - destruct l as [|[c|e] l]; simpl in *.
    + right. by eexists.
    + apply Forall_cons in Hc as [Hc Hl]. left. exists c, (BackendRows l). by split_and!; simpl; try lia.
    + by apply Forall_cons in Hc as [].
  - set (k := Z.to_nat (Z.max n 1)). assert (1 ≤ k)%nat by lia. clearbody k. destruct rows as [|r rows].
    + right. rewrite take_nil, drop_nil. by eexists.
    + left. rewrite (proj2 (is_empty_false _)) by (apply take_nonempty; [done|congruence]).
      eexists _, _. split; [done|]. split_and!; [by apply take_nonempty|by cbn [content]; rewrite take_drop|done|].
      simpl polls_left. rewrite length_drop. simpl. lia.
  - destruct Hc as [Hp Hc]. set (k := Z.to_nat (Z.max n 1)). assert (1 ≤ k)%nat by lia. clearbody k.
    destruct p as [l|]; simpl.
    + specialize (Hp l eq_refl). left. destruct (k <? length l)%nat eqn:E1.
      { apply Nat.ltb_lt in E1. eexists _, _. split; [done|]. simpl.
        split_and!; [by apply take_nonempty|by rewrite <- (take_drop k l) at 1; rewrite app_assoc| |done|rewrite length_drop; lia].
        intros ? [= <-] E2. apply (f_equal length) in E2. rewrite length_drop in E2. simpl in E2. lia. }
      destruct (length l =? k)%nat eqn:E2.
      { eexists _, _. split; [done|]. simpl. split_and!; try done; lia. }
      destruct (IH (Z.of_nat (k - length l)) Hc) as [(c & s' & -> & Hc1 & Hc2 & Hc3 & Hc4)|(s' & -> & Hc1 & Hc2 & Hc3 & Hc4)].
      * eexists _, _. split; [done|]. simpl. rewrite Hc2, app_assoc. split_and!; try done; try lia.
        by destruct l.
      * eexists _, _. split; [done|]. simpl. rewrite Hc1, Hc2. split_and!; try done; lia.
    + destruct (IH (Z.max n 1) Hc) as [(c & s' & -> & Hc1 & Hc2 & Hc3 & Hc4)|(s' & -> & Hc1 & Hc2 & Hc3 & Hc4)].
      * left. eexists _, _. split; [done|]. simpl. by split_and!.
      * right. eexists. split; [done|]. simpl. by split_and!.
Qed.

Fixpoint emit_chunks (counted : bool) (session : SessionState) (columns : list Column)
    (chunks : list (list Row)) (st : EncodeStats) : io EncodeStats :=
  match chunks with
  | [] => io_ret st
  | chunk :: chunks =>
      st ⇐ encode_chunk session columns counted chunk st;
      emit_chunks counted session columns chunks st
  end.

Lemma finish_rows_app c a b : finish_rows c (a ++ b) = finish_rows c a ++ finish_rows c b.
Proof.
  unfold finish_rows, Obligations.apply_masks_to_rows. destruct (is_empty (cfg_masks c)), (cfg_watermark c);
    by rewrite ?map_app.
Qed.

Lemma finish_rows_length c a : length (finish_rows c a) = length a.
Proof.
  unfold finish_rows, Obligations.apply_masks_to_rows. destruct (is_empty (cfg_masks c)), (cfg_watermark c);
    by rewrite ?length_map.
Qed.

Lemma drain_clean fuel n s saw : clean s → (polls_left s < fuel)%nat →
  ∃ s', drain_stream fuel n s saw = Ok (saw || negb (is_empty (content s)), s').
Proof.
  revert s saw. induction fuel as [|fuel IH]; intros s saw Hc Hf; [lia|]. simpl.
  destruct (poll_clean n s Hc) as [(ch & s' & -> & Hne & Hct & Hc' & Hp)|(s' & -> & Hct & _)].
  - destruct (IH s' (saw || negb (is_empty ch))%bool Hc' ltac:(lia)) as [s2 ->]. exists s2. do 2 f_equal.
    rewrite Hct. destruct ch; [done|]. simpl. by rewrite !orb_true_r.
  - exists s'. by rewrite Hct, orb_false_r.
Qed.

Lemma encode_chunk_total session columns chunk st env st' env' :
  encode_chunk session columns true chunk st env = (Ok st', env') →
  total_rows st' = total_rows st + Z.of_nat (length chunk).
Proof.
  unfold encode_chunk, io_bind. destruct (encode_write _ env) as [[ps|e] env1]; [|done].
  by intros [= <- _].
Qed.

(** The rows a call encodes out of those that are left after the skip. *)
Definition kept_rows (c : StreamCfg) (total : Z) (rows : list Row) : list Row :=
  match cfg_max c with Some m => take (Z.to_nat (m - total)) rows | None => rows end.

(** How the loop ends, given the rows [rows] that were left after the skip. *)
Definition ended (c : StreamCfg) (total : Z) (rows : list Row) (st : LoopState) : Prop :=
  let n := length (kept_rows c total rows) in
  total_rows (ls_enc st) = total + Z.of_nat n ∧
  ls_truncated st = (n <? length rows)%nat ∧
  ls_hold st = cfg_hold c && (n <? length rows)%nat ∧
  (ls_hold st = true → ∃ p, ls_prefix st = Some p ∧ p ≠ [] ∧ clean (ls_stream st) ∧
     p ++ content (ls_stream st) = drop n rows).

(** Running [m] encodes [chunks], and ends as [ended] says if no encode or write
    failed. *)
Definition delivers (c : StreamCfg) (total : Z) (enc : EncodeStats) (rows : list Row) (env : F * Wr)
    (r : GatewayResult (option LoopState) * (F * Wr)) : Prop :=
  ∃ chunks, concat chunks = finish_rows c (kept_rows c total rows) ∧
  match emit_chunks true (cfg_session c) (cfg_columns c) chunks enc env with
  | (Err e, env') => r = (Err e, env')
  | (Ok enc', env') => ∃ st, r = (Ok (Some st), env') ∧ ls_enc st = enc' ∧ ended c total rows st
  end.

Lemma concat_nil_chunks c total rows env r enc st :
  kept_rows c total rows = [] → r = (Ok (Some st), env) → ls_enc st = enc → ended c total rows st →
  delivers c total enc rows env r.
Proof.
  intros Hk -> He Hd. exists []. rewrite Hk. split.
  { simpl. unfold finish_rows, Obligations.apply_masks_to_rows.
    by destruct (is_empty (cfg_masks c)), (cfg_watermark c). }
  simpl. unfold io_ret. eauto.
Qed.

(** At the cap with nothing trimmed. *)
Lemma stop_delivers c enc masked s sample m env :
  cfg_max c = Some m → total_rows enc = m → clean s →
  delivers c (total_rows enc) enc (content s) env
    (match stop_at_cap c (mkLoop s enc masked false false 0 None sample) with
     | Err e => io_err e | Ok st => io_ret (Some st) end env).
Proof.
  intros Hm Ht Hc. assert (kept_rows c (total_rows enc) (content s) = []) as Hk.
  { unfold kept_rows. rewrite Hm, Ht, Z.sub_diag. done. }
  unfold stop_at_cap. destruct (cfg_hold c) eqn:Eh.
  - destruct (poll_clean (cfg_window c) s Hc) as [(ch & s' & -> & Hne & Hct & Hc' & Hp)|(s' & -> & Hct & Hct' & Hc' & _)].
    + rewrite (proj2 (is_empty_false ch) Hne). eapply concat_nil_chunks; [done|done|done|].
      unfold ended. rewrite Hk, Eh. simpl. split_and!; [lia| | |].
      * rewrite Hct. by destruct ch.
      * rewrite Hct. by destruct ch.
      * intros _. exists ch. by rewrite Hct.
    + eapply concat_nil_chunks; [done|done|done|]. unfold ended. rewrite Hk, Eh, Hct. simpl. split_and!; [lia|done..].
  - destruct (drain_clean (S (polls_left s)) (cfg_window c) s false Hc ltac:(lia)) as [s' ->].
    eapply concat_nil_chunks; [done|done|done|]. unfold ended. rewrite Hk, Eh. simpl. split_and!; [lia| |done|done].
    rewrite orb_false_r. by destruct (content s).
Qed.

(** At the cap after a window was cut. *)
Lemma cut_delivers c enc masked s sample leftover m env :
  cfg_max c = Some m → total_rows enc = m → clean s → leftover ≠ [] →
  delivers c (total_rows enc) enc (leftover ++ content s) env
    (match stop_at_cap c (mkLoop s enc masked true false 0
             (if cfg_hold c then Some leftover else None) sample) with
     | Err e => io_err e | Ok st => io_ret (Some st) end env).
Proof.
  intros Hm Ht Hc Hl. assert (kept_rows c (total_rows enc) (leftover ++ content s) = []) as Hk.
  { unfold kept_rows. rewrite Hm, Ht, Z.sub_diag. done. }
  assert ((0 <? length (leftover ++ content s))%nat = true) as Hlen by (by destruct leftover).
  unfold stop_at_cap. destruct (cfg_hold c) eqn:Eh.
  - eapply concat_nil_chunks; [done|done|done|]. unfold ended. rewrite Hk, Eh. cbn [length ls_enc ls_truncated ls_hold].
    rewrite Hlen. split_and!; [lia|done|done|]. intros _. by exists leftover.
  - destruct (drain_clean (S (polls_left s)) (cfg_window c) s false Hc ltac:(lia)) as [s' ->].
    eapply concat_nil_chunks; [done|done|done|]. unfold ended. rewrite Hk, Eh. cbn [length ls_enc ls_truncated ls_hold].
    rewrite Hlen, orb_true_r. split_and!; [lia|done|done|done].
Qed.

(** Encoding one more window in front. *)
Lemma delivers_chunk c enc rows1 rows2 env r (k : EncodeStats → io (option LoopState)) :
  kept_rows c (total_rows enc) (rows1 ++ rows2) =
    rows1 ++ kept_rows c (total_rows enc + Z.of_nat (length rows1)) rows2 →
  r = (io_bind (encode_chunk (cfg_session c) (cfg_columns c) true (finish_rows c rows1) enc) k) env →
  (∀ enc' env', total_rows enc' = total_rows enc + Z.of_nat (length rows1) →
     delivers c (total_rows enc') enc' rows2 env' (k enc' env')) →
  delivers c (total_rows enc) enc (rows1 ++ rows2) env r.
Proof.
  intros Hk -> IH. unfold io_bind at 1.
  destruct (encode_chunk (cfg_session c) (cfg_columns c) true (finish_rows c rows1) enc env) as [[enc'|e] env'] eqn:Ee.
  - pose proof (encode_chunk_total _ _ _ _ _ _ _ Ee) as Ht. rewrite finish_rows_length in Ht.
    destruct (IH enc' env' Ht) as (chunks & Hc & Hr). exists (finish_rows c rows1 :: chunks). split.
    { simpl. by rewrite Hk, finish_rows_app, Hc, Ht. }
    simpl. unfold io_bind at 1. rewrite Ee.
    destruct (emit_chunks _ _ _ chunks enc' env') as [[enc2|e2] env2]; [|done].
    destruct Hr as (st & -> & He & (H1 & H2 & H3 & H4)). exists st. split; [done|]. split; [done|].
    unfold ended. rewrite Hk, <- Ht, length_app. rewrite Ht in *. unfold ended in *.
    set (n2 := length (kept_rows c (total_rows enc + Z.of_nat (length rows1)) rows2)) in *.
    assert ((length rows1 + n2 <? length (rows1 ++ rows2))%nat = (n2 <? length rows2)%nat) as Hlt.
    { rewrite length_app. apply eq_true_iff_eq. rewrite !Nat.ltb_lt. lia. }
    rewrite Hlt. split_and!; [rewrite H1; lia|done|done|]. intros Hh. destruct (H4 Hh) as (p & Hp1 & Hp2 & Hp3 & Hp4).
    exists p. split_and!; try done. rewrite Hp4. by rewrite drop_app_add.
  - exists [finish_rows c rows1; finish_rows c (kept_rows c (total_rows enc + Z.of_nat (length rows1)) rows2)].
    split; [simpl; by rewrite app_nil_r, Hk, finish_rows_app|]. simpl. unfold io_bind at 1. by rewrite Ee.
Qed.

Lemma at_cap_total c s enc masked trunc hold skip prefix sample m :
  cfg_max c = Some m → total_rows enc = m →
  at_cap c (mkLoop s enc masked trunc hold skip prefix sample) = true.
Proof. intros Hm Ht. unfold at_cap. rewrite Hm. simpl. apply Z.leb_le. lia. Qed.

(** Skipping within a window: what is left of the window and of the stream. *)
Lemma skip_split skip (chunk rest : list Row) :
  0 ≤ skip →
  let n := Nat.min (Z.to_nat skip) (length chunk) in
  drop (Z.to_nat skip) (chunk ++ rest) = drop n chunk ++ drop (Z.to_nat (skip - Z.of_nat n)) rest ∧
  (drop n chunk ≠ [] → skip - Z.of_nat n = 0).
Proof.
  intros Hs n. split.
  - rewrite drop_app. f_equal; [|f_equal; lia].
    destruct (decide (Z.to_nat skip ≤ length chunk)%nat); [by replace n with (Z.to_nat skip) by lia|].
    rewrite !drop_ge by lia. done.
  - intros Hne. destruct (decide (Z.to_nat skip ≤ length chunk)%nat); [lia|].
    destruct Hne. apply drop_ge. lia.
Qed.

Lemma stream_loop_delivers fuel c s enc masked skip sample env :
  clean s → (polls_left s < fuel)%nat → 0 ≤ skip → 0 ≤ total_rows enc →
  (∀ m, cfg_max c = Some m → total_rows enc ≤ m ∧ (0 < skip → total_rows enc < m)) →
  delivers c (total_rows enc) enc (drop (Z.to_nat skip) (content s)) env
    (stream_loop fuel c (mkLoop s enc masked false false skip None sample) env).
Proof.
  revert s enc masked skip sample env.
  induction fuel as [|fuel IH]; intros s enc masked skip sample env Hc Hf Hs Hnn Hm; [lia|].
  cbn [stream_loop]. destruct (at_cap c _) eqn:Ecap.
  { unfold at_cap in Ecap. destruct (cfg_max c) as [m|] eqn:Em; [|done]. simpl in Ecap. bool_hyps.
    destruct (Hm m eq_refl) as [H1 H2]. assert (skip = 0) as -> by lia.
    simpl Z.to_nat. rewrite drop_0. apply (stop_delivers c enc masked s sample m env); [done|lia|done]. }
  destruct (poll_clean (want_rows c (mkLoop s enc masked false false skip None sample)) s Hc)
    as [(ch & s' & -> & Hne & Hct & Hc' & Hp)|(s' & -> & Hct & Hct' & Hc' & _)].
  2:{ rewrite Hct, drop_nil. eapply concat_nil_chunks; [|done|done|].
      - unfold kept_rows. by destruct (cfg_max c); rewrite ?take_nil.
      - assert (kept_rows c (total_rows enc) [] = []) as Hk by (unfold kept_rows; by destruct (cfg_max c); rewrite ?take_nil).
        unfold ended. rewrite Hk. simpl. rewrite andb_false_r. split_and!; [lia|done..]. }
  destruct (skip_split skip ch (content s') Hs) as [Hd Hz]. rewrite Hct, Hd.
  set (n := Nat.min (Z.to_nat skip) (length ch)) in *. set (rest := drop n ch) in *.
  destruct ((0 <? skip) && is_empty rest)%bool eqn:Eskip.
  { bool_hyps. assert (rest = []) as -> by (by destruct rest). simpl app.
    apply IH; [done|lia|lia|done|]. intros m Em. destruct (Hm m Em) as [? ?]. split; [done|lia]. }
  assert (rest ≠ []) as Hrest.
  { destruct (decide (0 < skip)); [|intros E1; apply (f_equal length) in E1; unfold rest in E1; rewrite length_drop in E1;
      assert (n = 0%nat) as Hn0 by lia; rewrite Hn0 in E1; simpl in E1; destruct ch; simpl in *; [done|lia]].
    rewrite (proj2 (Z.ltb_lt 0 skip)) in Eskip by done. by apply is_empty_false. }
  rewrite (Hz Hrest). simpl Z.to_nat. rewrite drop_0. unfold trim_chunk. cbn [ls_enc].
  destruct (cfg_max c) as [m|] eqn:Em.
  - destruct (Hm m eq_refl) as [Hle _]. unfold at_cap in Ecap. rewrite Em in Ecap. cbn [ls_enc] in Ecap. bool_hyps.
    set (remain := Z.to_nat (sat_sub m (total_rows enc))).
    assert (Z.of_nat remain = m - total_rows enc) as Hrem by (unfold remain, sat_sub; lia).
    destruct (remain <? length rest)%nat eqn:Elt.
    + apply Nat.ltb_lt in Elt. assert (drop remain rest ≠ []) as Hleft.
      { intros E1. apply (f_equal length) in E1. rewrite length_drop in E1. simpl in E1. lia. }
      rewrite (proj2 (is_empty_false _) Hleft). rewrite <- (take_drop remain rest) at 1. rewrite <- app_assoc.
      eapply delivers_chunk; [|done|].
      * unfold kept_rows. rewrite Em. rewrite length_take. 
        replace (m - (total_rows enc + Z.of_nat (remain `min` length rest))) with 0 by lia.
        replace (Z.to_nat (m - total_rows enc)) with (length (take remain rest)) by (rewrite length_take; lia).
        rewrite take_app_length. simpl Z.to_nat. by rewrite take_0, app_nil_r.
      * intros enc' env' Ht. rewrite length_take in Ht. destruct fuel as [|fuel]; [lia|]. cbn [stream_loop].
        rewrite (at_cap_total _ _ _ _ _ _ _ _ _ m Em) by lia. rewrite andb_true_r. simpl orb.
        apply (cut_delivers c enc' _ s' _ _ m); try done. lia.
    + apply Nat.ltb_ge in Elt. cbn [is_empty negb]. rewrite andb_false_r. simpl orb.
      eapply delivers_chunk; [|done|].
      * unfold kept_rows. rewrite Em. rewrite take_app_ge by lia. do 2 f_equal. lia.
      * intros enc' env' Ht. rewrite <- (drop_0 (content s')). change 0%nat with (Z.to_nat 0).
        apply IH; [done|lia|lia|lia|]. intros m' [= <-]. split; lia.
  - cbn [is_empty negb]. rewrite andb_false_r. simpl orb. eapply delivers_chunk; [|done|].
    + unfold kept_rows. by rewrite Em.
    + intros enc' env' Ht. rewrite <- (drop_0 (content s')). change 0%nat with (Z.to_nat 0).
      apply IH; [done|lia|lia|lia|done].
Qed.

(** The packets of a whole result: header, windows, footer. *)
Definition emit_result (counted : bool) (session : SessionState) (columns : list Column)
    (chunks : list (list Row)) (enc : EncodeStats) (total : Z) (truncated : bool) : io EncodeStats :=
  _ ⇐ encode_write (fe_header columns session);
  enc ⇐ emit_chunks counted session columns chunks enc;
  _ ⇐ encode_write (fe_footer columns total session truncated);
  io_ret enc.

(** C16 What a streamed result is, on every frontend and writer (their failures included), for
    a row stream of which no poll fails or is empty, however the rows are spread over the
    polls: the header, then exactly the rows the obligations keep (after the skip of a
    resumed portal and up to the row cap), each masked and watermarked, then a footer with
    their number that says truthfully whether rows are left; if the rest is held, the held
    stream is exactly the rest.  Nothing is lost, repeated or sent unmasked, and the loop
    ends.  Skip and cap are not negative, and the cap of a resumed portal is positive. *)
Theorem streaming_delivers session query window obl opts hold env :
  let c := stream_cfg session (q_columns query) window obl opts hold in
  let rows := drop (Z.to_nat (pg_portal_skip_rows session)) (content (q_stream query)) in
  let kept := kept_rows c 0 rows in
  let cut := (length kept <? length rows)%nat in
  clean (q_stream query) → 0 ≤ pg_portal_skip_rows session →
  (∀ m, cfg_max c = Some m → 0 ≤ m ∧ (0 < pg_portal_skip_rows session → 0 < m)) →
  ∃ chunks, concat chunks = finish_rows c kept ∧
  match emit_result true session (cfg_columns c) chunks no_encode (Z.of_nat (length kept)) cut env with
  | (Err e, env') =>
      write_streaming_query_with_obligations_sample session query window obl opts hold env = (Err e, env')
  | (Ok enc, env') => ∃ stats held,
      write_streaming_query_with_obligations_sample session query window obl opts hold env =
        (Ok (Some (stats, held)), env') ∧
      encode_stats stats = enc ∧ stats_truncated stats = cut ∧ hold_remainder stats = hold && cut ∧
      match held with
      | None => hold && cut = false
      | Some q => hold && cut = true ∧ q_columns q = cfg_columns c ∧ clean (q_stream q) ∧
          content (q_stream q) = drop (length kept) rows
      end
  end.
Proof.
  intros c rows kept cut Hc Hs Hm. unfold write_streaming_query_with_obligations_sample, emit_result.
  fold c. rewrite !io_bind_run.
  destruct (encode_write (fe_header (cfg_columns c) session) env) as [[ps|e] env1] eqn:Eh.
  2:{ exists [finish_rows c kept]. split; [simpl; by rewrite app_nil_r|]. by rewrite io_bind_run, Eh. }
  destruct (stream_loop_delivers (S (polls_left (q_stream query))) c (q_stream query) no_encode 0
    (pg_portal_skip_rows session) [] env1 Hc ltac:(lia) Hs ltac:(done) Hm) as (chunks & Hcat & Hr).
  exists chunks. split; [exact Hcat|]. change (cfg_session c) with session in Hr.
  unfold start_state. rewrite !io_bind_run, Eh, io_bind_run.
  destruct (emit_chunks true session (cfg_columns c) chunks no_encode env1) as [[enc|e] env2].
  2:{ by rewrite Hr. }
  destruct Hr as (st & -> & He & Hend). change (ended c 0 rows st) in Hend.
  destruct Hend as (Ht & Htr & Hh & Hrest). fold kept in Ht, Htr, Hh, Hrest. fold cut in Htr, Hh.
  rewrite Ht, Htr, Z.add_0_l.
  rewrite !io_bind_run. destruct (encode_write (fe_footer _ _ _ _) env2) as [[ps2|e2] env3]; [|done].
  simpl. eexists _, _. split; [done|]. simpl. split_and!; try done. unfold held_query.
  destruct (ls_hold st) eqn:El; [|done]. destruct (Hrest eq_refl) as (p & -> & Hp & Hcl & Hct).
  split_and!; try done.
  - unfold new_prefixed. rewrite (proj2 (is_empty_false p) Hp). simpl. split; [by intros ? [= <-]|done].
  - unfold new_prefixed. rewrite (proj2 (is_empty_false p) Hp). simpl. exact Hct.
Qed.

(** ** The windowed path *)

Lemma masks_app idx a b : apply_masks (a ++ b) idx = apply_masks a idx ++ apply_masks b idx.
Proof. unfold Obligations.apply_masks_to_rows. destruct (is_empty idx); by rewrite ?map_app. Qed.

Lemma masks_length idx a : length (apply_masks a idx) = length a.
Proof. unfold Obligations.apply_masks_to_rows. destruct (is_empty idx); by rewrite ?length_map. Qed.

Lemma windowed_loop_delivers fuel window session columns idx rows masked st env :
  (length rows ≤ fuel)%nat → (1 ≤ window)%nat →
  ∃ chunks, concat chunks = apply_masks rows idx ∧ Forall (λ ch, (length ch ≤ window)%nat) chunks ∧
  match emit_chunks false session columns chunks st env with
  | (Err e, env') => windowed_loop fuel window session columns idx rows masked st env = (Err e, env')
  | (Ok enc, env') => ∃ k, windowed_loop fuel window session columns idx rows masked st env = (Ok (k, enc), env')
  end.
Proof.
  revert rows masked st env. induction fuel as [|fuel IH]; intros rows masked st env Hf Hw.
  - destruct rows; [|simpl in Hf; lia]. exists []. split; [|split; [done|simpl; unfold io_ret; eauto]].
    unfold Obligations.apply_masks_to_rows. by destruct (is_empty idx).
  - destruct rows as [|r rows].
    { exists []. split; [|split; [done|simpl; unfold io_ret; eauto]].
      unfold Obligations.apply_masks_to_rows. by destruct (is_empty idx). }
    cbn [windowed_loop]. set (all := r :: rows) in *. set (n := Nat.min window (length all)).
    assert (1 ≤ n)%nat as Hn by (unfold n, all; simpl; lia).
    set (ch := apply_masks (take n all) idx). set (mk := if is_empty idx then masked else _).
    assert (length (drop n all) ≤ fuel)%nat as Hd by (rewrite length_drop; unfold all in *; simpl in *; lia).
    assert (length ch ≤ window)%nat as Hch by (unfold ch; rewrite masks_length, length_take; lia).
    destruct (encode_chunk session columns false ch st env) as [[st'|e] env'] eqn:Ee.
    + destruct (IH (drop n all) mk st' env' Hd Hw) as (chunks & Hc & Hl & Hr). exists (ch :: chunks).
      split; [simpl; rewrite Hc; unfold ch; by rewrite <- masks_app, take_drop|].
      split; [by constructor|]. cbn [emit_chunks]. rewrite !io_bind_run, Ee. exact Hr.
    + exists (ch :: map (λ row, apply_masks [row] idx) (drop n all)). split; [|split].
      * simpl. unfold ch. rewrite <- (take_drop n all) at 3. rewrite masks_app. f_equal.
        generalize (drop n all). intros l. induction l as [|x l IHl]; simpl;
          [unfold Obligations.apply_masks_to_rows; by destruct (is_empty idx)|].
        rewrite IHl. by rewrite <- masks_app.
      * constructor; [done|]. apply Forall_forall. intros x Hx.
        apply list_elem_of_In, in_map_iff in Hx as (y & <- & _). rewrite masks_length. simpl. lia.
      * cbn [emit_chunks]. rewrite !io_bind_run, Ee. done.
Qed.

(** The windowed encoding of a complete result, on every frontend and writer:
    header, the capped and watermarked rows with every mask applied, in windows
    of at most [window_rows] rows, then the footer; an error of the frontend or
    the writer ends it where it occurred. *)
Theorem windowed_delivers session columns rows window obl env :
  let '(cut, columns', rows') := prepared_result columns rows obl in
  let total := Z.of_nat (length rows') in
  ∃ chunks, concat chunks = apply_masks rows' (prepared_masks columns' obl) ∧
  Forall (λ ch, Z.of_nat (length ch) ≤ Z.max window 1) chunks ∧
  match emit_result false session columns' chunks (mkEncode total 0 0 0 0) total cut env with
  | (Err e, env') =>
      write_resultset_windowed_with_obligations session columns rows window obl env = (Err e, env')
  | (Ok enc, env') => ∃ masked,
      write_resultset_windowed_with_obligations session columns rows window obl env =
        (Ok (mkStats enc masked cut None false), env')
  end.
Proof.
  unfold write_resultset_windowed_with_obligations.
  destruct (prepared_result columns rows obl) as [[cut columns'] rows'].
  set (total := Z.of_nat (length rows')).
  unfold emit_result. destruct (encode_write (fe_header columns' session) env) as [[ps|e] env1] eqn:Eh.
  2:{ destruct (windowed_loop_delivers (length rows') (Z.to_nat (Z.max window 1)) session columns'
        (prepared_masks columns' obl) rows' 0 (mkEncode total 0 0 0 0) env ltac:(lia) ltac:(lia)) as (chunks & Hc & Hl & _).
      exists chunks. split; [done|]. split; [eapply Forall_impl; [exact Hl|]; simpl; intros; lia|].
      by rewrite !io_bind_run, Eh. }
  destruct (windowed_loop_delivers (length rows') (Z.to_nat (Z.max window 1)) session columns'
    (prepared_masks columns' obl) rows' 0 (mkEncode total 0 0 0 0) env1 ltac:(lia) ltac:(lia)) as (chunks & Hc & Hl & Hr).
  exists chunks. split; [done|]. split; [eapply Forall_impl; [exact Hl|]; simpl; intros; lia|].
  rewrite !io_bind_run, Eh, !io_bind_run.
  destruct (emit_chunks false session columns' chunks _ env1) as [[enc|e] env2]; [|by rewrite Hr].
  destruct Hr as (k & ->). rewrite !io_bind_run.
  destruct (encode_write (fe_footer _ _ _ _) env2) as [[ps2|e2] env3]; [|done]. simpl. eauto.
Qed.
(** C3 The windowed path of a session, which encodes a complete result window by window,
    writes what [apply_obligations_to_response] makes of the whole result: the header, the
    rows of that response in order, in windows of at most [window] rows, and a footer with
    their number that tells whether rows were cut off; an error of the frontend or the writer
    ends it where it occurred.  For obligations without a watermark, and a row cap that is
    not negative.  (With a watermark both paths differ: see [windowed_watermark_masked].) *)
Theorem windowed_path_equals_full session columns rows window o env :
  Obligations.watermark o = None → (∀ m, Obligations.max_rows o = Some m → 0 ≤ m) →
  ∃ rows' chunks,
    Obligations.apply_obligations_to_response f64_to_string (ResultSet columns rows) o = ResultSet columns rows' ∧
    concat chunks = rows' ∧ Forall (λ ch, Z.of_nat (length ch) ≤ Z.max window 1) chunks ∧
    let total := Z.of_nat (length rows') in
    let cut := (length rows' <? length rows)%nat in
    match emit_result false session columns chunks (mkEncode total 0 0 0 0) total cut env with
    | (Err e, env') =>
        write_resultset_windowed_with_obligations session columns rows window (Some o) env = (Err e, env')
    | (Ok enc, env') => ∃ masked,
        write_resultset_windowed_with_obligations session columns rows window (Some o) env =
          (Ok (mkStats enc masked cut None false), env')
    end.
Proof.
  intros Hw Hm. pose proof (windowed_delivers session columns rows window (Some o) env) as W.
  unfold prepared_result, prepared_masks, Obligations.watermarked in W. rewrite Hw in W.
  set (kept := Obligations.truncate_rows (Obligations.max_rows o) rows) in *.
  set (idx := Obligations.build_mask_index columns (Obligations.column_masks o)) in *.
  destruct W as (chunks & Hc & Hl & Hr).
  assert (length (apply_masks kept idx) = length kept) as Hlen by apply masks_length.
  assert (match Obligations.max_rows o with Some max => max <? Z.of_nat (length rows) | None => false end
          = (length kept <? length rows)%nat) as Hcut.
  { unfold kept, Obligations.truncate_rows. destruct (Obligations.max_rows o) as [m|]; [|symmetry; apply Nat.ltb_irrefl].
    specialize (Hm m eq_refl). destruct (Z.ltb_spec m (Z.of_nat (length rows))); [|symmetry; apply Nat.ltb_irrefl].
    symmetry. apply Nat.ltb_lt. rewrite length_take. lia. }
  exists (apply_masks kept idx), chunks. rewrite Hcut in Hr. cbv zeta. rewrite Hlen. split; [|done].
  by apply ObligationTheorems.full_response.
Qed.
End Values.
End Transport.

(** ** Concrete runs *)

(** A frontend that shows what it is given: one packet per row. *)
Definition show_row (r : Row) : str := concat (map (Obligations.value_as_display (λ _, [])) r).

#[export] Instance plain_frontend : FrontendProtocolAdapter unit := {
  fe_protocol _ := MySql;
  fe_decode _ s f := Ret (Ok [], s, f);
  fe_encode _ _ f := (Ok [$"response"], f);
  fe_header _ _ f := (Ok [$"header"], f);
  fe_rows _ rows _ f := (Ok (map show_row rows), f);
  fe_footer _ n _ t f := (Ok [$"footer " ++ dec n ++ (if t then $" more" else [])], f)
}.

Definition name_column : list Column := [mkColumn ($"name") ($"varchar")].
Definition row_of_str (s : str) : Row := [VString s].
Definition two_polls : RowStream :=
  BackendRows [Ok [row_of_str ($"ann"); row_of_str ($"bob")]; Ok [row_of_str ($"cyd")]].
Definition cap (n : Z) : Obligations.Obligations := Obligations.mkObligations [] None (Some n) None None.

(** A page of one row: the rest is held and comes with the next page. *)
Lemma streaming_delivers_witness :
  let q := mkStreaming name_column two_polls in
  let run := write_streaming_query_with_obligations_sample (Wr := CollectingWriter) (λ _, []) (λ _, true)
    (λ _ _ _, []) default_session q 2 (Some (cap 1)) default_sample_opts true (tt, mkCollecting []) in
  run.2.2 = mkCollecting [$"header"; $"ann"; $"footer 1 more"] ∧
  ∃ stats held, run.1 = Ok (Some (stats, Some held)) ∧ stats_truncated stats = true ∧
    content (q_stream held) = [row_of_str ($"bob"); row_of_str ($"cyd")].
Proof.
  destruct (streaming_delivers (Wr := CollectingWriter) (λ _, []) (λ _, true) (λ _ _ _, [])
    default_session (mkStreaming name_column two_polls) 2 (Some (cap 1)) default_sample_opts true (tt, mkCollecting []))
    as (chunks & _ & _).
  - repeat constructor; congruence.
  - done.
  - intros m [= <-]. done.
  - split; [vm_compute; reflexivity|]. eexists _, _. split; [vm_compute; reflexivity|]. vm_compute. done.
Defined.

(** Two windows of one row each; the third row is cut off. *)
Definition mask_name : Obligations.Obligations :=
  Obligations.mkObligations [Obligations.new_mask ($"name") Obligations.Replace ($"m")] None (Some 2) None None.
Definition three_rows : list Row := [row_of_str ($"ann"); row_of_str ($"bob"); row_of_str ($"cyd")].
Lemma windowed_path_equals_full_witness :
  (∃ rows', Obligations.apply_obligations_to_response (λ _, []) (ResultSet name_column three_rows) mask_name = ResultSet name_column rows') ∧
  (write_resultset_windowed_with_obligations (Wr := CollectingWriter) (λ _, []) default_session name_column three_rows 1
     (Some mask_name) (tt, mkCollecting [])).2.2 = mkCollecting [$"header"; $"***"; $"***"; $"footer 2 more"].
Proof.
  destruct (windowed_path_equals_full (Wr := CollectingWriter) (λ _, []) default_session name_column three_rows 1 mask_name (tt, mkCollecting []))
    as (rows' & chunks & Hr & _).
  - reflexivity.
  - intros m [= <-]. done.
  - split; [exists rows'; exact Hr|]. vm_compute. reflexivity.
Defined.

(** The windowed path stamps before it masks: a suffix watermark in a masked column
    is masked away with the value, while [apply_obligations_to_response] masks first
    and keeps it. *)
Theorem windowed_watermark_masked :
  let mask := Obligations.new_mask ($"name") Obligations.Replace ($"m") in
  let wm := Obligations.mkWatermark Obligations.WmSuffix [] ($"t1") in
  let o := Obligations.mkObligations [mask] None None None (Some wm) in
  (write_resultset_windowed_with_obligations (Wr := CollectingWriter) (λ _, []) default_session name_column
     [row_of_str ($"ann")] 10 (Some o) (tt, mkCollecting [])).2.2
    = mkCollecting [$"header"; $"***"; $"footer 1"] ∧
  Obligations.apply_obligations_to_response (λ _, []) (ResultSet name_column [row_of_str ($"ann")]) o
    = ResultSet name_column [row_of_str ($"*** |wm=t1")].
Proof. vm_compute. done. Qed.
