(* ===== verification/Translation.v ===== *)
(** * Cross-protocol translation

    [gateway/core/src/translation.rs]: the check of a statement against a
    translation policy, the rewriting of its placeholders, identifier quotes,
    [IFNULL] and [LIMIT], the reordering of its parameters, and the mapping of
    result columns.

    The scanners of the source walk an index over the bytes of the statement;
    here they walk the rest of the statement and return lengths, and the byte
    before the current one is an argument where the source looks back.  Fuel is
    the number of bytes left plus one: every step consumes a byte. *)

From S2P Require Import Prelude RustStr Model.

(** ** Policies *)

Inductive TranslationStatementKind := KSelect | KInsert | KUpdate | KDelete.

#[export] Instance TranslationStatementKind_eq_dec : EqDecision TranslationStatementKind.
Proof. solve_decision. Defined.

Definition kind_as_str (k : TranslationStatementKind) : str :=
  match k with KSelect => $"select" | KInsert => $"insert" | KUpdate => $"update" | KDelete => $"delete" end.

Definition kind_from_keyword (keyword : str) : option TranslationStatementKind :=
  if one_of [$"SELECT"; $"WITH"; $"VALUES"; $"TABLE"; $"SHOW"; $"EXPLAIN"; $"DESCRIBE"; $"DESC"] keyword
  then Some KSelect
  else if str_eqb keyword ($"INSERT") then Some KInsert
  else if str_eqb keyword ($"UPDATE") then Some KUpdate
  else if str_eqb keyword ($"DELETE") then Some KDelete
  else None.

Record TranslationPolicyConfig := mkTranslation {
  tp_name : str;
  tp_enabled : bool;
  tp_frontend : ProtocolKind;
  tp_backend : ProtocolKind;
  tp_allowed : list TranslationStatementKind
}.

Definition default_allowed_statements : list TranslationStatementKind :=
  [KSelect; KInsert; KUpdate; KDelete].

Definition default_translation : TranslationPolicyConfig :=
  mkTranslation [] false MySql PostgreSql default_allowed_statements.

Definition effective_allowed (p : TranslationPolicyConfig) : list TranslationStatementKind :=
  if is_empty (tp_allowed p) then default_allowed_statements else tp_allowed p.

Definition format_allowed (p : TranslationPolicyConfig) : str :=
  join ($", ") (map kind_as_str (effective_allowed p)).

(** [{:?}] of a protocol. *)
Definition protocol_debug (p : ProtocolKind) : str :=
  match p with MySql => $"MySql" | PostgreSql => $"PostgreSql" end.

Definition validate_translation_policy (p : TranslationPolicyConfig) (d : DialectParser) : GatewayResult unit :=
  if negb (tp_enabled p) then
    Err (Configuration ($"translation policy '" ++ tp_name p ++ $"' is disabled; cross-protocol access is not allowed"))
  else if protocol_eqb (tp_frontend p) (tp_backend p) then
    Err (Configuration ($"translation policy '" ++ tp_name p ++ $"' has identical frontend/backend protocol '"
      ++ ProtocolKind_as_str (tp_frontend p) ++ $"'"))
  else if negb (protocol_eqb (dialect d) (tp_frontend p)) then
    Err (Configuration ($"translation policy '" ++ tp_name p ++ $"' expects frontend protocol '"
      ++ ProtocolKind_as_str (tp_frontend p) ++ $"', got '" ++ protocol_debug (dialect d) ++ $"'"))
  else Ok tt.

Definition forbidden : list (str * str) :=
  [($"CREATE ", $"DDL CREATE"); ($"ALTER ", $"DDL ALTER"); ($"DROP ", $"DDL DROP");
   ($"TRUNCATE ", $"DDL TRUNCATE"); ($"RENAME ", $"DDL RENAME"); ($"CALL ", $"stored procedure CALL");
   ($"EXECUTE ", $"EXECUTE/procedure"); ($"COPY ", $"PostgreSQL COPY"); ($"LOAD DATA", $"MySQL LOAD DATA");
   ($"LOAD XML", $"MySQL LOAD XML"); ($"HANDLER ", $"MySQL HANDLER"); ($"LOCK TABLES", $"LOCK TABLES");
   ($"UNLOCK TABLES", $"UNLOCK TABLES"); ($"REPLACE INTO", $"MySQL REPLACE");
   ($"ON DUPLICATE KEY", $"MySQL ON DUPLICATE KEY");
   ($"RETURNING ", $"PostgreSQL RETURNING (not mapped yet)"); ($"::", $"PostgreSQL cast operator ::");
   ($"ILIKE ", $"PostgreSQL ILIKE"); ($"REGEXP ", $"MySQL REGEXP"); ($"RLIKE ", $"MySQL RLIKE")].

Definition direction (p : TranslationPolicyConfig) : str :=
  ProtocolKind_as_str (tp_frontend p) ++ $" -> " ++ ProtocolKind_as_str (tp_backend p).

Definition reject_unsupported_constructs (p : TranslationPolicyConfig) (upper_sql : str) : GatewayResult unit :=
  match List.find (λ nl, contains upper_sql nl.1) forbidden with
  | Some (_, label) =>
      Err (Unsupported ($"translation policy '" ++ tp_name p ++ $"': " ++ label
        ++ $" is not supported for " ++ direction p))
  | None => Ok tt
  end.

Definition check_translation_sql (p : TranslationPolicyConfig) (sql : str) (d : DialectParser)
    : GatewayResult TranslationStatementKind :=
  match validate_translation_policy p d with
  | Err e => Err e
  | Ok _ =>
  match reject_unsupported_constructs p (to_ascii_uppercase (trim_start sql)) with
  | Err e => Err e
  | Ok _ =>
  match leading_keyword d sql with
  | None =>
      Err (Unsupported ($"translation policy '" ++ tp_name p
        ++ $"': empty or unparseable SQL is not supported for " ++ direction p))
  | Some keyword =>
  match kind_from_keyword keyword with
  | None =>
      Err (Unsupported ($"translation policy '" ++ tp_name p ++ $"': statement kind '" ++ keyword
        ++ $"' is not in the supported subset for " ++ direction p
        ++ $" (allowed: " ++ format_allowed p ++ $")"))
  | Some kind =>
      if bool_decide (kind ∈ effective_allowed p) then Ok kind
      else Err (Unsupported ($"translation policy '" ++ tp_name p ++ $"': '" ++ kind_as_str kind
        ++ $"' is not allowed (allowed: " ++ format_allowed p ++ $")"))
  end end end end.

(** ** Scanning *)

Definition placeholder_error (message : str) : GatewayError :=
  Protocol ($"cross-protocol placeholder rewrite: " ++ message).

Definition is_ident_byte (b : ascii) : bool := is_ascii_alphanumeric b || Ascii.eqb b "_".

(** [s.chars().next().len_utf8()]. *)
Definition char_len (s : str) : nat :=
  match s with [] => 0 | _ :: r => S (length (take_while is_cont r)) end.

(** [quoted_end], on the text after the opening quote: the bytes up to and with
    the closing quote. *)
Fixpoint quoted_len (fuel : nat) (quote : ascii) (s : str) : option nat :=
  match fuel, s with
  | O, _ | _, [] => None
  | S fuel, c :: r =>
      if Ascii.eqb c "\" && negb (is_empty r) then
        Nat.add (S (char_len r)) <$> quoted_len fuel quote (drop (char_len r) r)
      else if Ascii.eqb c quote then
        match r with
        | d :: r' => if Ascii.eqb d quote then Nat.add 2 <$> quoted_len fuel quote r' else Some 1%nat
        | [] => Some 1%nat
        end
      else Nat.add (char_len s) <$> quoted_len fuel quote (drop (char_len s) s)
  end.

(** The length of a quoted token, [s] at its opening quote. *)
Definition quoted_end (s : str) (quote : ascii) : GatewayResult nat :=
  match quoted_len (length s) quote (tail s) with
  | Some n => Ok (S n)
  | None => Err (placeholder_error ($"unterminated " ++ [quote] ++ $" quote"))
  end.

Definition newline : ascii := "010"%char.

(** The length of a line comment, [start] bytes of which are its marker. *)
Definition line_comment_end (s : str) (start : nat) : nat :=
  match find (drop start s) [newline] with Some offset => start + offset + 1 | None => length s end.

Fixpoint block_len (fuel depth : nat) (s : str) : option nat :=
  match fuel, s with
  | S fuel, c :: d :: r =>
      if Ascii.eqb c "/" && Ascii.eqb d "*" then Nat.add 2 <$> block_len fuel (S depth) r
      else if Ascii.eqb c "*" && Ascii.eqb d "/" then
        if (depth - 1 =? 0)%nat then Some 2%nat else Nat.add 2 <$> block_len fuel (depth - 1) r
      else Nat.add (char_len s) <$> block_len fuel depth (drop (char_len s) s)
  | _, _ => None
  end.

(** The length of a block comment, [s] at its [/*]. *)
Definition block_comment_end (s : str) : GatewayResult nat :=
  match block_len (length s) 1 (drop 2 s) with
  | Some n => Ok (2 + n)%nat
  | None => Err (placeholder_error ($"unterminated block comment"))
  end.

Definition dollar_quote_delimiter_end (s : str) : option nat :=
  match s with
  | _ :: first :: r =>
      if Ascii.eqb first "$" then Some 2%nat
      else if negb (is_ascii_alphabetic first || Ascii.eqb first "_") then None
      else
        let k := length (take_while is_ident_byte r) in
        match r !! k with
        | Some c => if Ascii.eqb c "$" then Some (k + 3)%nat else None
        | None => None
        end
  | _ => None
  end.

Inductive PlaceholderKind := MySqlQuestion | PostgreSqlNumbered.

Definition u16_max : Z := 65535.

(** The digits of [$n]: [checked_mul] and [checked_add] on [usize]. *)
Fixpoint index_value (acc : Z) (s : str) : option Z :=
  match s with
  | [] => Some acc
  | c :: s =>
      let v := acc * 10 + digit_val c in
      if v <=? u64_max then index_value v s else None
  end.

(** A numbered placeholder, [s] at its [$]: its length and index. *)
Definition numbered_placeholder (prev : option ascii) (s : str) : GatewayResult (nat * Z) :=
  let undelimited := placeholder_error ($"PostgreSQL placeholder must be token-delimited") in
  let ds := take_while is_ascii_digit (tail s) in
  if match prev with Some c => is_ident_byte c | None => false end then Err undelimited
  else
    match index_value 0 ds with
    | None => Err (placeholder_error ($"PostgreSQL placeholder index overflow"))
    | Some index =>
        if (index =? 0) || (u16_max <? index) then
          Err (placeholder_error ($"PostgreSQL placeholder index $" ++ dec index ++ $" is outside 1..=" ++ dec u16_max))
        else
          match s !! S (length ds) with
          | Some c => if is_ident_byte c then Err undelimited else Ok (S (length ds), index)
          | None => Ok (S (length ds), index)
          end
    end.

(** The dollar quote at [s], if there is one. *)
Definition dollar_quoted (s : str) : option (GatewayResult nat) :=
  match dollar_quote_delimiter_end s with
  | None => None
  | Some d =>
      Some (match find (drop d s) (take d s) with
            | None => Err (placeholder_error ($"unterminated dollar quote " ++ take d s))
            | Some close => Ok (d + close + d)%nat
            end)
  end.

Definition at_byte (c : ascii) (s : str) : bool := match s with d :: _ => Ascii.eqb d c | [] => false end.
Definition digit_next (s : str) : bool := match s with d :: _ => is_ascii_digit d | [] => false end.
Definition is_quote (c : ascii) : bool := Ascii.eqb c "'" || Ascii.eqb c dquote || Ascii.eqb c "`".

(** The text at [s] that is copied as one token, if it is one. *)
Definition opaque_token (s : str) : option (GatewayResult nat) :=
  match s with
  | [] => None
  | c :: r =>
      if is_quote c then Some (quoted_end s c)
      else if Ascii.eqb c "-" && at_byte "-" r then Some (Ok (line_comment_end s 2))
      else if Ascii.eqb c "#" then Some (Ok (line_comment_end s 1))
      else if Ascii.eqb c "/" && at_byte "*" r then Some (block_comment_end s)
      else if Ascii.eqb c "$" then dollar_quoted s
      else None
  end.

(** One turn of the loop: the bytes consumed, and the placeholder's index. *)
Definition next_token (kind : PlaceholderKind) (prev : option ascii) (count : Z) (s : str)
    : GatewayResult (nat * option Z) :=
  match opaque_token s with
  | Some r => map_ok (λ n, (n, None)) r
  | None =>
      match kind with
      | MySqlQuestion =>
          if at_byte "?" s then
            if u16_max <? count + 1 then
              Err (placeholder_error ($"MySQL placeholder count exceeds " ++ dec u16_max))
            else Ok (1%nat, Some (count + 1))
          else Ok (char_len s, None)
      | PostgreSqlNumbered =>
          if at_byte "$" s && digit_next (tail s)
          then map_ok (λ '(n, i), (n, Some i)) (numbered_placeholder prev s)
          else Ok (char_len s, None)
      end
  end.

Definition placeholder_text (kind : PlaceholderKind) (index : Z) : str :=
  match kind with MySqlQuestion => $"$" ++ dec index | PostgreSqlNumbered => $"?" end.

(** The loop of [rewrite_placeholder_tokens]. *)
Fixpoint rewrite_loop (fuel : nat) (kind : PlaceholderKind) (prev : option ascii) (count : Z) (s : str)
    : GatewayResult (str * list Z) :=
  match fuel, s with
  | _, [] | O, _ => Ok ([], [])
  | S fuel, _ =>
      match next_token kind prev count s with
      | Err e => Err e
      | Ok (n, None) =>
          map_ok (λ '(out, refs), (take n s ++ out, refs))
            (rewrite_loop fuel kind (last (take n s)) count (drop n s))
      | Ok (n, Some index) =>
          map_ok (λ '(out, refs), (placeholder_text kind index ++ out, index :: refs))
            (rewrite_loop fuel kind (last (take n s)) (count + 1) (drop n s))
      end
  end.

Definition rewrite_placeholder_tokens (sql : str) (kind : PlaceholderKind) : GatewayResult (str * list Z) :=
  rewrite_loop (length sql) kind None 0 sql.

Definition rewrite_mysql_placeholders (sql : str) : GatewayResult (str * list Z) :=
  rewrite_placeholder_tokens sql MySqlQuestion.

Definition max_reference (refs : list Z) : Z := foldr Z.max 0 refs.

(** [(1..=max).find(|index| !seen[*index])]. *)
Definition missing_reference (refs : list Z) : option Z :=
  List.find (λ i, negb (existsb (Z.eqb i) refs)) (map Z.of_nat (seq 1 (Z.to_nat (max_reference refs)))).

Definition rewrite_pg_placeholders (sql : str) : GatewayResult (str * list Z) :=
  match rewrite_placeholder_tokens sql PostgreSqlNumbered with
  | Err e => Err e
  | Ok (out, refs) =>
      match missing_reference refs with
      | Some missing =>
          Err (placeholder_error ($"PostgreSQL placeholder index gap: $" ++ dec missing ++ $" is not referenced"))
      | None => Ok (out, refs)
      end
  end.

Definition rewrite_placeholders_mysql_to_pg (sql : str) : GatewayResult str :=
  map_ok fst (rewrite_mysql_placeholders sql).

(** [parameters[index - 1]] panics outside the vector. *)
Fixpoint select_parameters (parameters : list GatewayValue) (refs : list Z) : exec (list GatewayValue) :=
  match refs with
  | [] => Ret []
  | i :: refs =>
      match parameters !! Z.to_nat (i - 1), select_parameters parameters refs with
      | Some v, Ret vs => Ret (v :: vs)
      | _, _ => Panic
      end
  end.

Definition rewrite_placeholders_pg_to_mysql (sql : str) (parameters : list GatewayValue)
    : exec (GatewayResult (str * list GatewayValue)) :=
  match rewrite_pg_placeholders sql with
  | Err e => Ret (Err e)
  | Ok (out, refs) =>
      let expected := max_reference refs in
      if negb (expected =? Z.of_nat (length parameters)) then
        Ret (Err (placeholder_error ($"PostgreSQL query expects " ++ dec expected ++ $" parameters, got "
          ++ dec (Z.of_nat (length parameters)))))
      else
        match select_parameters parameters refs with
        | Ret vs => Ret (Ok (out, vs))
        | Panic => Panic
        end
  end.

(** ** Identifier quotes *)

(** Where the loop is: outside quotes, in a string, in a double-quoted
    identifier that is copied (only in [convert_backticks_to_double_quotes]), in an
    identifier whose quotes change. *)
Inductive QuoteMode := Plain | InSingle | InDouble | InIdent.

Fixpoint convert_double_loop (mode : QuoteMode) (s : str) : str :=
  match s with
  | [] => match mode with InIdent => $"`" | _ => [] end
  | c :: r =>
      match mode with
      | InIdent =>
          if Ascii.eqb c dquote then
            match r with
            | d :: r' => if Ascii.eqb d dquote then dquote :: convert_double_loop InIdent r'
                         else $"`" ++ convert_double_loop Plain r
            | [] => $"`"
            end
          else (if Ascii.eqb c "`" then $"``" else push_byte c) ++ convert_double_loop InIdent r
      | InSingle | InDouble =>
          if Ascii.eqb c "'" then
            match r with
            | d :: r' => if Ascii.eqb d "'" then $"''" ++ convert_double_loop InSingle r'
                         else $"'" ++ convert_double_loop Plain r
            | [] => $"'"
            end
          else push_byte c ++ convert_double_loop InSingle r
      | Plain =>
          if Ascii.eqb c "'" then $"'" ++ convert_double_loop InSingle r
          else if Ascii.eqb c dquote then $"`" ++ convert_double_loop InIdent r
          else push_byte c ++ convert_double_loop Plain r
      end
  end.

Definition convert_double_quotes_to_backticks (sql : str) : str := convert_double_loop Plain sql.

Fixpoint convert_backtick_loop (mode : QuoteMode) (s : str) : str :=
  match s with
  | [] => match mode with InIdent => [dquote] | _ => [] end
  | c :: r =>
      match mode with
      | InIdent =>
          if Ascii.eqb c "`" then
            match r with
            | d :: r' => if Ascii.eqb d "`" then $"`" ++ convert_backtick_loop InIdent r'
                         else dquote :: convert_backtick_loop Plain r
            | [] => [dquote]
            end
          else (if Ascii.eqb c dquote then [dquote; dquote] else push_byte c) ++ convert_backtick_loop InIdent r
      | InSingle =>
          if Ascii.eqb c "'" then
            match r with
            | d :: r' => if Ascii.eqb d "'" then $"''" ++ convert_backtick_loop InSingle r'
                         else $"'" ++ convert_backtick_loop Plain r
            | [] => $"'"
            end
          else push_byte c ++ convert_backtick_loop InSingle r
      | InDouble =>
          if Ascii.eqb c dquote then
            match r with
            | d :: r' => if Ascii.eqb d dquote then [dquote; dquote] ++ convert_backtick_loop InDouble r'
                         else dquote :: convert_backtick_loop Plain r
            | [] => [dquote]
            end
          else push_byte c ++ convert_backtick_loop InDouble r
      | Plain =>
          if Ascii.eqb c "'" then $"'" ++ convert_backtick_loop InSingle r
          else if Ascii.eqb c dquote then dquote :: convert_backtick_loop InDouble r
          else if Ascii.eqb c "`" then dquote :: convert_backtick_loop InIdent r
          else push_byte c ++ convert_backtick_loop Plain r
      end
  end.

Definition convert_backticks_to_double_quotes (sql : str) : str := convert_backtick_loop Plain sql.

(** ** [IFNULL] and [LIMIT] *)

(** [IFNULL] at [s], not glued to an identifier, and then [(]: the bytes to
    consume and the blanks between. *)
Definition ifnull_call (prev : option ascii) (s : str) : option (nat * str) :=
  if (6 <? length s)%nat && starts_with (to_ascii_uppercase s) ($"IFNULL")
     && negb (match prev with Some c => is_ident_byte (to_upper c) | None => false end)
     && negb (match s !! 6%nat with Some c => is_ident_byte (to_upper c) | None => false end)
  then
    let blanks := take_while is_ascii_whitespace (drop 6 s) in
    if at_byte "(" (drop (6 + length blanks) s) then Some (7 + length blanks, blanks)%nat else None
  else None.

Fixpoint ifnull_loop (fuel : nat) (prev : option ascii) (s : str) : str :=
  match fuel, s with
  | S fuel, c :: r =>
      match ifnull_call prev s with
      | Some (n, blanks) => $"COALESCE" ++ blanks ++ $"(" ++ ifnull_loop fuel (Some "("%char) (drop n s)
      | None => push_byte c ++ ifnull_loop fuel (Some c) r
      end
  | _, _ => []
  end.

Definition replace_ifnull_with_coalesce (sql : str) : str := ifnull_loop (length sql) None sql.

Fixpoint find_keyword_from (prev : option ascii) (upper_sql keyword : str) : option nat :=
  if starts_with upper_sql keyword
     && negb (match prev with Some c => is_ident_byte c | None => false end)
     && negb (match upper_sql !! length keyword with Some c => is_ident_byte c | None => false end)
  then Some 0%nat
  else match upper_sql with
       | [] => None
       | c :: r => S <$> find_keyword_from (Some c) r keyword
       end.

Definition find_keyword (upper_sql keyword : str) : option nat := find_keyword_from None upper_sql keyword.

(** [number , number] at the start of [rest]: offset, count and the tail. *)
Definition limit_pair (rest : str) : option (str * str * str) :=
  let offset := take_while is_ascii_digit rest in
  let rest := drop_while is_ascii_whitespace (drop_while is_ascii_digit rest) in
  if is_empty offset || negb (at_byte "," rest) then None
  else
    let rest := drop_while is_ascii_whitespace (tail rest) in
    let count := take_while is_ascii_digit rest in
    if is_empty count then None else Some (offset, count, drop_while is_ascii_digit rest).

Definition rewrite_mysql_limit_offset (sql : str) : str :=
  match find_keyword (to_ascii_uppercase sql) ($"LIMIT") with
  | None => sql
  | Some limit_pos =>
      let rest := trim_start (drop (limit_pos + 5) sql) in
      if contains (to_ascii_uppercase rest) ($"OFFSET") then sql
      else
        match limit_pair rest with
        | None => sql
        | Some (offset, count, rest) =>
            take limit_pos sql ++ $"LIMIT " ++ count ++ $" OFFSET " ++ offset ++ rest
        end
  end.

(** ** Whole statements and commands *)

Definition mysql_text_to_postgresql (sql : str) : str :=
  rewrite_mysql_limit_offset (replace_ifnull_with_coalesce (convert_backticks_to_double_quotes sql)).

Definition rewrite_mysql_to_postgresql (sql : str) : GatewayResult str :=
  map_ok mysql_text_to_postgresql (rewrite_placeholders_mysql_to_pg sql).

Definition rewrite_postgresql_to_mysql (sql : str) : GatewayResult str :=
  map_ok (λ r, convert_double_quotes_to_backticks r.1) (rewrite_pg_placeholders sql).

Definition rewrite_sql_for_backend (sql : str) (frontend backend : ProtocolKind) : GatewayResult str :=
  match frontend, backend with
  | MySql, PostgreSql => rewrite_mysql_to_postgresql sql
  | PostgreSql, MySql => rewrite_postgresql_to_mysql sql
  | _, _ => Ok sql
  end.

Definition rewrite_sql_and_parameters_for_backend (sql : str) (parameters : list GatewayValue)
    (frontend backend : ProtocolKind) : exec (GatewayResult (str * list GatewayValue)) :=
  match frontend, backend with
  | MySql, PostgreSql =>
      match rewrite_mysql_placeholders sql with
      | Err e => Ret (Err e)
      | Ok (out, refs) =>
          if negb (length refs =? length parameters)%nat then
            Ret (Err (placeholder_error ($"MySQL query expects " ++ dec (Z.of_nat (length refs))
              ++ $" parameters, got " ++ dec (Z.of_nat (length parameters)))))
          else Ret (Ok (mysql_text_to_postgresql out, parameters))
      end
  | PostgreSql, MySql =>
      match rewrite_placeholders_pg_to_mysql sql parameters with
      | Ret (Ok (out, vs)) => Ret (Ok (convert_double_quotes_to_backticks out, vs))
      | other => other
      end
  | _, _ => Ret (Ok (sql, parameters))
  end.

(** The SQL of a checked command, rewritten. *)
Definition checked_rewrite (p : TranslationPolicyConfig) (sql : str) (d : DialectParser) : GatewayResult str :=
  match check_translation_sql p sql d with
  | Err e => Err e
  | Ok _ => rewrite_sql_for_backend sql (tp_frontend p) (tp_backend p)
  end.

Definition prepare_cross_protocol_command (p : TranslationPolicyConfig) (command : GatewayCommand)
    (d : DialectParser) : exec (GatewayResult GatewayCommand) :=
  match command with
  | Prepare sql => Ret (map_ok Prepare (checked_rewrite p sql d))
  | DescribeSql sql => Ret (map_ok DescribeSql (checked_rewrite p sql d))
  | Query sql => Ret (map_ok Query (checked_rewrite p sql d))
  | Execute _ _ | CloseStatement _ => Ret (map_ok (λ _, command) (validate_translation_policy p d))
  | QueryParams sql parameters =>
      match check_translation_sql p sql d with
      | Err e => Ret (Err e)
      | Ok _ =>
          match rewrite_sql_and_parameters_for_backend sql parameters (tp_frontend p) (tp_backend p) with
          | Ret r => Ret (map_ok (λ '(sql, parameters), QueryParams sql parameters) r)
          | Panic => Panic
          end
      end
  | UseDatabase _ | Begin | Commit | Rollback | Ping | Quit | ClientWire _ | PgBackendSync => Ret (Ok command)
  end.

(** ** Result columns *)

Definition map_columns (columns : list Column) (backend frontend : ProtocolKind) : list Column :=
  map (λ c, mkColumn (column_name c) (map_column_type (data_type c) backend frontend)) columns.

Definition map_response_types (response : GatewayResponse) (backend frontend : ProtocolKind) : GatewayResponse :=
  if protocol_eqb backend frontend then response
  else
    match response with
    | ResultSet columns rows => ResultSet (map_columns columns backend frontend) rows
    | TaggedResultSet columns rows tag => TaggedResultSet (map_columns columns backend frontend) rows tag
    | Prepared id n columns => Prepared id n (map_columns columns backend frontend)
    | RowDescription columns => RowDescription (map_columns columns backend frontend)
    | other => other
    end.
