(* ===== verification/TranslationTheorems.v ===== *)
(** * Theorems on cross-protocol translation

    Over [Translation]: what a translation policy lets through, the order of the
    parameters after PostgreSQL placeholders are rewritten, the round trip of the
    placeholders between the two dialects, and what the text rewrites do to
    characters outside ASCII. *)

From S2P Require Import Prelude RustStr Model Translation.

(** ** Lengths of tokens *)

Lemma take_while_cut {A} (f : A → bool) l m t :
  (length (take_while f l) + S m ≤ length l)%nat →
  take_while f (take (length (take_while f l) + S m) l ++ t) = take_while f l.
Proof.
  induction l as [|x l IH]; simpl; [lia|]. destruct (f x) eqn:E; simpl.
  - intros. rewrite E. f_equal. apply IH. lia.
  - by rewrite E.
Qed.

Lemma take_while_len {A} (f : A → bool) l : (length (take_while f l) ≤ length l)%nat.
Proof. induction l; simpl; [done|]. case_match; simpl; lia. Qed.

Lemma char_len_bound s : s ≠ [] → (1 ≤ char_len s ≤ length s)%nat.
Proof. destruct s as [|c r]; [done|]. simpl. pose proof (take_while_len is_cont r). lia. Qed.

Lemma char_len_cut s m t :
  s ≠ [] → (1 ≤ m)%nat → (char_len s + m ≤ length s)%nat →
  char_len (take (char_len s + m) s ++ t) = char_len s.
Proof.
  destruct s as [|c r], m as [|m]; simpl; [done..|lia|]. intros. f_equal. f_equal.
  apply take_while_cut. lia.
Qed.

Lemma drop_cut {A} k m (l t : list A) :
  (k + m ≤ length l)%nat → drop k (take (k + m) l ++ t) = take m (drop k l) ++ t.
Proof.
  intros. rewrite drop_app_le by (rewrite length_take; lia). by rewrite skipn_firstn_comm, Nat.add_comm, Nat.add_sub.
Qed.

Lemma quoted_len_bound f q s n : quoted_len f q s = Some n → (1 ≤ n ≤ length s)%nat.
Proof.
  revert s n. induction f as [|f IH]; intros [|c r] n; cbn [quoted_len]; [done..|].
  assert (∀ k (l : str), (k ≤ length l)%nat → Nat.add (S k) <$> quoted_len f q (drop k l) = Some n →
    (1 ≤ n ≤ S (length l))%nat) as step.
  { intros k l Hk. destruct (quoted_len f q (drop k l)) as [m|] eqn:E; [|done]. intros [= <-].
    apply IH in E. rewrite length_drop in E. simpl. lia. }
  destruct (Ascii.eqb c "\" && negb (is_empty r)) eqn:Ec.
  { apply step. destruct r; [by rewrite andb_false_r in Ec|]. apply char_len_bound. done. }
  destruct (Ascii.eqb c q).
  - destruct r as [|d r]; [intros [= <-]; simpl; lia|]. destruct (Ascii.eqb d q); [|intros [= <-]; simpl; lia].
    destruct (quoted_len f q r) as [m|] eqn:E; [|done]. intros [= <-]. apply IH in E. simpl. lia.
  - pose proof (take_while_len is_cont r). intros H'. apply (step (length (take_while is_cont r)) r); [lia|].
    exact H'.
Qed.

Lemma quoted_len_fuel f q s n f' : quoted_len f q s = Some n → (n ≤ f')%nat → quoted_len f' q s = Some n.
Proof.
  revert s n f'. induction f as [|f IH]; intros [|c r] n [|f']; cbn [quoted_len]; try done.
  { intros H ?. apply (quoted_len_bound (S f) q (c :: r)) in H. lia. }
  destruct (Ascii.eqb c "\" && negb (is_empty r)).
  { destruct (quoted_len f q _) as [m|] eqn:E; [|done]. intros [= <-] ?.
    rewrite (IH _ _ f' E) by lia. done. }
  destruct (Ascii.eqb c q).
  - destruct r as [|d r]; [done|]. destruct (Ascii.eqb d q); [|done].
    destruct (quoted_len f q r) as [m|] eqn:E; [|done]. intros [= <-] ?. by rewrite (IH _ _ f' E) by lia.
  - destruct (quoted_len f q _) as [m|] eqn:E; [|done]. intros [= <-] ?.
    rewrite (IH _ _ f' E) by (simpl; lia). done.
Qed.

(** What follows a quoted token does not matter, unless it is another quote. *)
Lemma quoted_len_cut f q s n t :
  Ascii.eqb q "\" = false → quoted_len f q s = Some n → at_byte q t = false →
  quoted_len f q (take n s ++ t) = Some n.
Proof.
  intros Hq. revert s n. induction f as [|f IH]; intros [|c r] n; cbn [quoted_len]; [done..|].
  intros H Ht. pose proof H as Hn. apply (quoted_len_bound (S f) q (c :: r)) in Hn.
  destruct n as [|n]; [lia|]. cbn [take app quoted_len].
  destruct (Ascii.eqb c "\" && negb (is_empty r)) eqn:Ec.
  { destruct (quoted_len f q (drop (char_len r) r)) as [m|] eqn:E; [|done].
    pose proof E as Hm%quoted_len_bound. rewrite length_drop in Hm.
    apply (inj Some) in H. apply (inj S) in H. change (char_len r + m = n)%nat in H. subst n.
    assert (r ≠ []) as Hr by (destruct r; [by rewrite andb_false_r in Ec|done]).
    pose proof (char_len_bound r Hr).
    assert (is_empty (take (char_len r + m) r ++ t) = false) as ->.
    { destruct r; [done|]. destruct (char_len (a :: r) + m)%nat eqn:?; [lia|done]. }
    apply andb_true_iff in Ec as [-> _]. cbn [andb negb].
    rewrite char_len_cut, drop_cut by (done || lia). by rewrite (IH _ _ E Ht). }
  destruct (Ascii.eqb c q) eqn:Eq.
  - apply Ascii.eqb_eq in Eq as ->. rewrite Hq. cbn [andb].
    destruct r as [|d r].
    { apply (inj Some) in H. apply (inj S) in H. subst n. simpl. destruct t; [done|]. simpl in Ht. by rewrite Ht. }
    destruct (Ascii.eqb d q) eqn:Ed.
    + destruct (quoted_len f q r) as [m|] eqn:E; [|done]. apply (inj Some) in H.
      destruct n as [|n]; [done|]. apply (inj S), (inj S) in H. change (m = n) in H. subst n.
      cbn [take app]. rewrite Ed. by rewrite (IH _ _ E Ht).
    + apply (inj Some) in H. apply (inj S) in H. subst n. simpl. destruct t; [done|]. simpl in Ht. by rewrite Ht.
  - destruct (quoted_len f q _) as [m|] eqn:E; [|done]. apply (inj Some) in H.
    pose proof E as Hm%quoted_len_bound. rewrite length_drop in Hm.
    assert (Ascii.eqb c "\" && negb (is_empty (take n r ++ t)) = false) as ->.
    { destruct (Ascii.eqb c "\") eqn:E1; [|done]. destruct r; [|done]. exfalso. simpl in Hn.
      assert (n = 0)%nat as -> by lia. simpl in E. by destruct f. }
    change (c :: take n r ++ t) with (take (S n) (c :: r) ++ t). rewrite <-H.
    rewrite char_len_cut, drop_cut by (done || lia). by rewrite (IH _ _ E Ht).
Qed.

Lemma block_len_bound f d s n : block_len f d s = Some n → (2 ≤ n ≤ length s)%nat.
Proof.
  revert d s n. induction f as [|f IH]; intros dp s n; [done|]. destruct s as [|c [|d r]]; [done..|].
  cbn [block_len].
  destruct (Ascii.eqb c "/" && Ascii.eqb d "*").
  { destruct (block_len f _ r) as [m|] eqn:E; [|done]. intros [= <-]. apply IH in E. simpl. lia. }
  destruct (Ascii.eqb c "*" && Ascii.eqb d "/").
  { destruct (dp - 1 =? 0)%nat; [intros [= <-]; simpl; lia|].
    destruct (block_len f _ r) as [m|] eqn:E; [|done]. intros [= <-]. apply IH in E. simpl. lia. }
  destruct (block_len f dp _) as [m|] eqn:E; [|done]. intros H%(inj Some). apply IH in E.
  pose proof (char_len_bound (c :: d :: r) ltac:(done)). rewrite length_drop in E. lia.
Qed.

Lemma block_len_fuel f d s n f' : block_len f d s = Some n → (n ≤ f')%nat → block_len f' d s = Some n.
Proof.
  revert d s n f'. induction f as [|f IH]; intros dp s n f'; [done|]. destruct s as [|c [|d r]]; [done..|].
  intros H Hn. pose proof H as Hb%block_len_bound. destruct f' as [|f']; [lia|]. revert H Hn. cbn [block_len].
  destruct (Ascii.eqb c "/" && Ascii.eqb d "*").
  { destruct (block_len f _ r) as [m|] eqn:E; [|done]. intros [= <-] ?. by rewrite (IH _ _ _ f' E) by lia. }
  destruct (Ascii.eqb c "*" && Ascii.eqb d "/").
  { destruct (dp - 1 =? 0)%nat; [done|].
    destruct (block_len f _ r) as [m|] eqn:E; [|done]. intros [= <-] ?. by rewrite (IH _ _ _ f' E) by lia. }
  destruct (block_len f dp _) as [m|] eqn:E; [|done]. intros H ?. pose proof H as H'%(inj Some).
  rewrite (IH _ _ _ f' E); [done|]. pose proof (char_len_bound (c :: d :: r) ltac:(done)). lia.
Qed.

Lemma block_len_cut f d s n t : block_len f d s = Some n → block_len f d (take n s ++ t) = Some n.
Proof.
  revert d s n. induction f as [|f IH]; intros dp s n; [done|]. destruct s as [|c [|d r]]; [done..|].
  intros H. pose proof H as Hb%block_len_bound. destruct n as [|[|n]]; [lia..|]. revert H.
  cbn [block_len take app].
  destruct (Ascii.eqb c "/" && Ascii.eqb d "*").
  { destruct (block_len f _ r) as [m|] eqn:E; [|done]. intros [= <-]. by rewrite (IH _ _ _ E). }
  destruct (Ascii.eqb c "*" && Ascii.eqb d "/").
  { destruct (dp - 1 =? 0)%nat; [by intros [= <-]|].
    destruct (block_len f _ r) as [m|] eqn:E; [|done]. intros [= <-]. by rewrite (IH _ _ _ E). }
  destruct (block_len f dp _) as [m|] eqn:E; [|done]. intros H. pose proof E as Hm%block_len_bound.
  rewrite length_drop in Hm. apply (inj Some) in H.
  change (c :: d :: take n r ++ t) with (take (S (S n)) (c :: d :: r) ++ t). rewrite <-H.
  rewrite char_len_cut, drop_cut by (done || lia). by rewrite (IH _ _ _ E).
Qed.

Lemma find_one_cut c s o t : find s [c] = Some o → find (take (o + 1) s ++ t) [c] = Some o.
Proof.
  revert o. induction s as [|d s IH]; intros o; cbn [find starts_with]; [done|].
  destruct (Ascii.eqb d c && true) eqn:E.
  - intros [= <-]. cbn. by rewrite E.
  - destruct (find s [c]) as [o'|]; [|done]. intros [= <-]. cbn [Nat.add take app find starts_with].
    rewrite E, (IH o'); done.
Qed.

Lemma line_comment_bound s k : (k ≤ length s)%nat → (k ≤ line_comment_end s k ≤ length s)%nat.
Proof.
  intros. unfold line_comment_end. destruct (find _ _) eqn:E; [|lia].
  apply find_le in E. rewrite length_drop in E. simpl in E. lia.
Qed.

(** A line comment ends with its line, or with the statement. *)
Lemma line_comment_cut s k t :
  (k ≤ length s)%nat → (drop (line_comment_end s k) s = [] → t = []) →
  line_comment_end (take (line_comment_end s k) s ++ t) k = line_comment_end s k.
Proof.
  intros Hk Ht. unfold line_comment_end in *. destruct (find (drop k s) _) as [o|] eqn:E.
  - pose proof E as E'%find_le. rewrite length_drop in E'. simpl in E'.
    replace (k + o + 1)%nat with (k + (o + 1))%nat by lia.
    rewrite drop_cut by lia. rewrite (find_one_cut _ _ _ _ E). lia.
  - rewrite Ht by apply drop_all. rewrite app_nil_r, take_ge by lia. by rewrite E.
Qed.

Lemma quoted_end_ok s q n :
  quoted_end s q = Ok n → ∃ m, n = S m ∧ quoted_len (length s) q (tail s) = Some m ∧ (1 ≤ m < length s)%nat.
Proof.
  unfold quoted_end. destruct (quoted_len _ _ _) as [m|] eqn:E; [|done]. intros [= <-].
  exists m. split; [done|]. split; [done|]. pose proof E as E'%quoted_len_bound. destruct s; simpl in *; lia.
Qed.

Lemma quoted_end_cut c r q n t :
  Ascii.eqb q "\" = false → quoted_end (c :: r) q = Ok n → at_byte q t = false →
  quoted_end (take n (c :: r) ++ t) q = Ok n.
Proof.
  intros Hq (m & -> & E & Hm)%quoted_end_ok Ht. unfold quoted_end. cbn [take app tail].
  rewrite (quoted_len_fuel _ _ _ _ _ (quoted_len_cut _ _ _ _ t Hq E Ht)); [done|].
  simpl in Hm |- *. rewrite length_app, length_take. lia.
Qed.

Lemma block_comment_ok s n :
  block_comment_end s = Ok n →
  ∃ m, n = (2 + m)%nat ∧ block_len (length s) 1 (drop 2 s) = Some m ∧ (2 ≤ m ∧ m + 2 ≤ length s)%nat.
Proof.
  unfold block_comment_end. destruct (block_len _ _ _) as [m|] eqn:E; [|done]. intros [= <-].
  exists m. split; [done|]. split; [done|]. pose proof E as E'%block_len_bound. rewrite length_drop in E'. lia.
Qed.

Lemma block_comment_cut s n t : block_comment_end s = Ok n → block_comment_end (take n s ++ t) = Ok n.
Proof.
  intros (m & -> & E & Hm)%block_comment_ok. unfold block_comment_end. rewrite drop_cut by lia.
  rewrite (block_len_fuel _ _ _ _ _ (block_len_cut _ _ _ _ t E)); [done|].
  rewrite length_app, length_take. lia.
Qed.

Lemma dollar_quoted_bound s n :
  dollar_quoted s = Some (Ok n) → (1 ≤ n ≤ length s)%nat.
Proof.
  unfold dollar_quoted. destruct (dollar_quote_delimiter_end s) as [d|] eqn:E; [|done].
  destruct (find _ _) as [o|] eqn:Ef; [|done]. intros [= <-]. apply find_le in Ef.
  rewrite length_drop, length_take in Ef.
  assert (2 ≤ d ≤ length s)%nat; [|lia].
  unfold dollar_quote_delimiter_end in E. destruct s as [|a [|b r]]; [done..|].
  destruct (Ascii.eqb b "$"); [simplify_eq; simpl; lia|]. destruct (negb _); [done|].
  destruct (r !! _) as [x|] eqn:El; [|done]. destruct (Ascii.eqb x "$"); [|done]. simplify_eq.
  apply lookup_lt_Some in El. simpl. lia.
Qed.

Lemma opaque_bound s n : opaque_token s = Some (Ok n) → (1 ≤ n ≤ length s)%nat.
Proof.
  destruct s as [|c r]; [done|]. unfold opaque_token.
  destruct (is_quote c).
  { intros H. assert (quoted_end (c :: r) c = Ok n) as (m & -> & _ & ?)%quoted_end_ok by congruence. lia. }
  destruct (Ascii.eqb c "-" && at_byte "-" r) eqn:Ed.
  { intros [= <-]. apply andb_true_iff in Ed as [_ Ed]. destruct r as [|x r]; [done|].
    pose proof (line_comment_bound (c :: x :: r) 2 ltac:(simpl; lia)). simpl in *. lia. }
  destruct (Ascii.eqb c "#").
  { intros [= <-]. pose proof (line_comment_bound (c :: r) 1 ltac:(simpl; lia)). lia. }
  destruct (Ascii.eqb c "/" && at_byte "*" r).
  { intros H. assert (block_comment_end (c :: r) = Ok n) as (m & -> & _ & ?)%block_comment_ok by congruence. lia. }
  destruct (Ascii.eqb c "$"); [|done]. apply dollar_quoted_bound.
Qed.

Lemma next_token_bound kind prev count s n i :
  s ≠ [] → next_token kind prev count s = Ok (n, i) → (1 ≤ n ≤ length s)%nat.
Proof.
  intros Hs. unfold next_token. destruct (opaque_token s) as [[m|]|] eqn:E; cbn [map_ok]; [|done|].
  { intros [= <- _]. by apply opaque_bound. }
  pose proof (char_len_bound s Hs). destruct kind.
  - destruct (at_byte "?" s); [|by intros [= <- _]]. case_match; [done|]. intros [= <- _].
    destruct s; simpl; [done|lia].
  - destruct (at_byte "$" s && digit_next (tail s)) eqn:Ed; [|by intros [= <- _]].
    unfold numbered_placeholder. destruct (match prev with Some _ => _ | None => _ end); [done|].
    destruct (index_value _ _); [|done]. destruct (_ || _); [done|].
    destruct s as [|c r]; [done|]. cbn [tail]. pose proof (take_while_len is_ascii_digit r).
    destruct (_ !! _); [destruct (is_ident_byte _); [done|]|]; cbn [map_ok]; intros [= <- _]; simpl; lia.
Qed.

(** The length of the statement is enough fuel, and more changes nothing. *)
Lemma rewrite_loop_fuel f f' kind prev count s :
  (length s ≤ f)%nat → (length s ≤ f')%nat →
  rewrite_loop f kind prev count s = rewrite_loop f' kind prev count s.
Proof.
  revert f' prev count s. induction f as [|f IH]; intros f' prev count s ??.
  { destruct s; simpl in *; [by destruct f'|lia]. }
  destruct f' as [|f'], s as [|c r]; simpl in *; try done; try lia.
  destruct (next_token kind prev count (c :: r)) as [[n i]|e] eqn:E; [|done].
  apply next_token_bound in E; [|done]. simpl in E.
  assert (length (drop n (c :: r)) ≤ f ∧ length (drop n (c :: r)) ≤ f')%nat as [??]
    by (rewrite length_drop; simpl; lia).
  destruct i; by rewrite (IH f').
Qed.

(** ** Parameters of a rewritten PostgreSQL statement *)

Lemma index_value_spec acc s v :
  0 <= acc → index_value acc s = Some v → forallb is_ascii_digit s = true → 0 <= v.
Proof.
  revert acc. induction s as [|c s IH]; intros acc ?; cbn [index_value forallb]; [by intros [= <-]|].
  case_match; [|done]. intros Hv [Hc Hs]%andb_true_iff. apply digit_val_bound in Hc.
  eapply IH; [|exact Hv|exact Hs]. lia.
Qed.

Lemma index_value_of_digits acc s v :
  0 <= acc → digits_val acc s = Some v → v <= u64_max → index_value acc s = Some v.
Proof.
  revert acc. induction s as [|c s IH]; intros acc ?; cbn [index_value digits_val]; [done|].
  destruct (is_ascii_digit c) eqn:Hc; [|done]. apply digit_val_bound in Hc. intros Hv ?.
  assert (acc * 10 + digit_val c <= v) by (eapply digits_val_ge; [|exact Hv]; lia). rewrite (proj2 (Z.leb_le _ _)) by lia. apply IH; [lia|done..].
Qed.

Lemma rewrite_loop_refs f prev count s out refs :
  rewrite_loop f PostgreSqlNumbered prev count s = Ok (out, refs) → Forall (λ i, 1 <= i <= u16_max) refs.
Proof.
  revert prev count s out refs. induction f as [|f IH]; intros prev count [|c r] out refs; cbn [rewrite_loop];
    [by intros [= _ <-]..|].
  destruct (next_token _ prev count (c :: r)) as [[n [i|]]|e] eqn:E; [| |done];
    (destruct (rewrite_loop f _ _ _ _) as [[o l]|e] eqn:El; [|done]); cbn [map_ok]; intros [= _ <-];
    apply IH in El; [|done].
  constructor; [|done]. unfold next_token in E.
  destruct (opaque_token _) as [[]|]; cbn [map_ok] in E; [congruence..|].
  case_match; [|congruence]. unfold numbered_placeholder in E.
  destruct (match prev with Some _ => _ | None => _ end); [done|].
  destruct (index_value _ _) as [j|] eqn:Ej; [|done]. destruct (_ || _) eqn:Eb; [done|].
  apply orb_false_iff in Eb as [Ea Eb]. apply Z.eqb_neq in Ea. apply Z.ltb_ge in Eb.
  apply index_value_spec in Ej; [|lia|apply take_while_all].
  assert (i = j) as ->; [|lia].
  destruct (_ !! _); [destruct (is_ident_byte _)|]; cbn [map_ok] in E; congruence.
Qed.

Lemma max_reference_spec refs i : i ∈ refs → i <= max_reference refs.
Proof. induction 1; simpl; lia. Qed.

Lemma max_reference_in refs : Forall (λ i, 1 <= i) refs → refs ≠ [] → max_reference refs ∈ refs.
Proof.
  induction 1 as [|i refs Hi Hr IH]; [done|]. intros _. simpl.
  destruct (decide (refs = [])) as [->|Hn]; [simpl; rewrite Z.max_l by lia; left|].
  destruct (Z.max_spec i (max_reference refs)) as [[_ ->]|[_ ->]]; [right; auto|left].
Qed.

Lemma missing_none refs :
  missing_reference refs = None ↔ ∀ i, 1 <= i <= max_reference refs → i ∈ refs.
Proof.
  unfold missing_reference. split.
  - intros H i Hi. eapply List.find_none in H.
    + apply negb_false_iff, existsb_elem in H as (j & Hj & ->%Z.eqb_eq). exact Hj.
    + apply in_map_iff. exists (Z.to_nat i). split; [lia|]. apply in_seq. lia.
  - intros H. destruct (List.find _ _) as [j|] eqn:E; [|done]. exfalso.
    apply List.find_some in E as [(k & <- & Hk%in_seq)%in_map_iff E%negb_true_iff].
    assert (existsb (Z.eqb (Z.of_nat k)) refs = true); [|congruence].
    apply existsb_elem. exists (Z.of_nat k). split; [apply H; lia|apply Z.eqb_refl].
Qed.

Lemma select_parameters_spec ps refs :
  Forall (λ i, 1 <= i <= Z.of_nat (length ps)) refs →
  ∃ vs, select_parameters ps refs = Ret vs ∧ Forall2 (λ i v, ps !! Z.to_nat (i - 1) = Some v) refs vs.
Proof.
  induction 1 as [|i refs Hi _ (vs & E & H)]; [by exists []|]. cbn [select_parameters].
  destruct (lookup_lt_is_Some_2 ps (Z.to_nat (i - 1))) as [v Hv]; [lia|].
  rewrite Hv, E. exists (v :: vs). split; [done|]. by constructor.
Qed.

(** The placeholders of a statement use exactly the parameters given. *)
Definition complete_references (refs : list Z) (n : nat) : Prop := ∀ i, i ∈ refs ↔ 1 <= i <= Z.of_nat n.

Lemma rewrite_placeholders_spec sql ps :
  match rewrite_placeholder_tokens sql PostgreSqlNumbered with
  | Err e => rewrite_placeholders_pg_to_mysql sql ps = Ret (Err e)
  | Ok (out, refs) =>
      (complete_references refs (length ps) ∧
       ∃ vs, rewrite_placeholders_pg_to_mysql sql ps = Ret (Ok (out, vs)) ∧
         Forall2 (λ i v, ps !! Z.to_nat (i - 1) = Some v) refs vs)
      ∨ (¬ complete_references refs (length ps) ∧
         ∃ e, rewrite_placeholders_pg_to_mysql sql ps = Ret (Err (placeholder_error e)))
  end.
Proof.
  unfold rewrite_placeholders_pg_to_mysql, rewrite_pg_placeholders.
  destruct (rewrite_placeholder_tokens sql _) as [[out refs]|e] eqn:E; [|done].
  apply rewrite_loop_refs in E as Hr.
  assert (Forall (λ i, 1 <= i) refs) as H1 by (eapply Forall_impl; [exact Hr|]; intros; simpl in *; lia).
  destruct (missing_reference refs) as [j|] eqn:Em.
  { right. split; [|eauto]. intros Hc. assert (missing_reference refs = None); [|congruence].
    apply missing_none. intros i Hi. apply Hc. destruct (decide (refs = [])) as [->|Hn]; [simpl in Hi; lia|].
    apply max_reference_in, Hc in Hn; [lia|done]. }
  pose proof (proj1 (missing_none refs) Em) as Hall.
  destruct (max_reference refs =? Z.of_nat (length ps)) eqn:El; simpl.
  - apply Z.eqb_eq in El. left.
    assert (complete_references refs (length ps)) as Hc.
    { intros i. split; [|rewrite <-El; apply Hall]. intros Hi. pose proof (max_reference_spec _ _ Hi).
      rewrite Forall_forall in H1. specialize (H1 i Hi). lia. }
    split; [done|]. destruct (select_parameters_spec ps refs) as (vs & -> & H2); [|eauto].
    apply Forall_forall. intros i Hi. by apply Hc.
  - apply Z.eqb_neq in El. right. split; [|eauto]. intros Hc. apply El.
    destruct (decide (refs = [])) as [->|Hn].
    + simpl. destruct ps as [|v ps]; [done|]. exfalso. eapply not_elem_of_nil, (Hc 1). simpl. lia.
    + pose proof (max_reference_in _ H1 Hn) as Hm%Hc.
      destruct ps as [|v ps]; [simpl in Hm; lia|].
      assert (Z.of_nat (length (v :: ps)) ∈ refs) as Hi by (apply Hc; simpl; lia).
      apply max_reference_spec in Hi. lia.
Qed.

(** PostgreSQL to MySQL: never a panic; the statement is refused unless its
    numbered placeholders refer to exactly the parameters [1..n] that came with
    it, and then the [k]-th positional placeholder gets the parameter the [k]-th
    numbered one named, repetitions and permutations included. *)
Theorem pg_parameters_reordered sql ps :
  match rewrite_placeholder_tokens sql PostgreSqlNumbered with
  | Err e => rewrite_placeholders_pg_to_mysql sql ps = Ret (Err e)
  | Ok (out, refs) =>
      (complete_references refs (length ps) ∧
       ∃ vs, rewrite_placeholders_pg_to_mysql sql ps = Ret (Ok (out, vs)) ∧
         Forall2 (λ i v, ps !! Z.to_nat (i - 1) = Some v) refs vs)
      ∨ (¬ complete_references refs (length ps) ∧
         ∃ e, rewrite_placeholders_pg_to_mysql sql ps = Ret (Err (placeholder_error e)))
  end.
Proof. exact (rewrite_placeholders_spec sql ps). Qed.

(** ** Round trip of the placeholders *)

Definition dollar : ascii := "$"%char.
Definition question : ascii := "?"%char.

(** No [?] touches an identifier, a number or another [?]. *)
Fixpoint spaced (prev : option ascii) (s : str) : bool :=
  match s with
  | [] => true
  | c :: r =>
      (negb (Ascii.eqb c question)
       || (negb (match prev with Some p => is_ident_byte p || Ascii.eqb p question | None => false end)
           && negb (match r with d :: _ => is_ident_byte d | [] => false end)))
      && spaced (Some c) r
  end.

Lemma spaced_drop prev s n : (n ≤ length s)%nat →
  spaced prev s = true → spaced (match last (take n s) with Some c => Some c | None => prev end) (drop n s) = true.
Proof.
  revert prev n. induction s as [|c s IH]; intros prev [|n]; try done; simpl.
  intros ? [_ H]%andb_true_iff. specialize (IH (Some c) n ltac:(lia) H).
  rewrite last_cons. destruct (last (take n s)); done.
Qed.

Lemma last_take_some {A} n (l : list A) : (1 ≤ n)%nat → l ≠ [] → ∃ x, last (take n l) = Some x.
Proof.
  intros. destruct (last (take n l)) eqn:E; [eauto|]. apply last_None in E.
  destruct n, l; simpl in *; try done; lia.
Qed.

Lemma spaced_next prev s n : (1 ≤ n ≤ length s)%nat → s ≠ [] →
  spaced prev s = true → spaced (last (take n s)) (drop n s) = true.
Proof.
  intros Hn Hs H%(spaced_drop prev s n); [|lia].
  destruct (last_take_some n s) as [x Hx]; [lia|done|]. by rewrite Hx in *.
Qed.

(** The first byte of the output. *)
Definition head_map (c : ascii) : ascii := if Ascii.eqb c question then dollar else c.

Lemma question_opaque r : opaque_token (question :: r) = None.
Proof. done. Qed.

Lemma take_head {A} n (c : A) r : (1 ≤ n)%nat → ∃ k, take n (c :: r) = c :: k.
Proof. destruct n; [lia|]. simpl. eauto. Qed.

Lemma mysql_token prev count s n i :
  next_token MySqlQuestion prev count s = Ok (n, i) →
  (i = Some (count + 1) ∧ n = 1%nat ∧ count + 1 <= u16_max ∧ ∃ r, s = question :: r)
  ∨ (i = None ∧ ∀ c r, s = c :: r → c ≠ question).
Proof.
  unfold next_token. destruct (opaque_token s) as [[m|]|] eqn:E; cbn [map_ok]; [|done|].
  { intros [= <- <-]. right. split; [done|]. intros c r -> ->. by rewrite question_opaque in E. }
  destruct (at_byte "?" s) eqn:Ea.
  - destruct (u16_max <? count + 1) eqn:Eu; [done|]. intros [= <- <-]. left. apply Z.ltb_ge in Eu.
    split; [done|]. split; [done|]. split; [done|].
    destruct s as [|c r]; [done|]. apply Ascii.eqb_eq in Ea as ->. by exists r.
  - intros [= <- <-]. right. split; [done|]. intros c r -> ->. done.
Qed.

Lemma rewrite_head f prev count s out refs :
  (length s ≤ f)%nat → rewrite_loop f MySqlQuestion prev count s = Ok (out, refs) →
  match s with [] => out = [] | c :: _ => ∃ k, out = head_map c :: k end.
Proof.
  destruct f as [|f], s as [|c r]; simpl; try lia; [by intros _ [= <- _]..|]. intros _.
  destruct (next_token _ prev count (c :: r)) as [[n i]|e] eqn:E; [|done].
  assert (1 ≤ n ≤ length (c :: r))%nat as Hn by (by eapply next_token_bound).
  apply mysql_token in E as [(-> & -> & _ & r' & [= -> ->])|[-> Hc]].
  - destruct (rewrite_loop _ _ _ _ _) as [[o l]|]; [|done]. cbn [map_ok placeholder_text]. intros [= <- _]. eauto.
  - destruct (rewrite_loop _ _ _ _ _) as [[o l]|]; [|done]. cbn [map_ok]. intros [= <- _].
    destruct (take_head n c r ltac:(lia)) as [k ->]. unfold head_map.
    destruct (Ascii.eqb_spec c question) as [->|_]; [by destruct (Hc question r)|]. simpl. eauto.
Qed.

Lemma head_map_at b c : Ascii.eqb b dollar = false → Ascii.eqb b question = false →
  Ascii.eqb (head_map c) b = Ascii.eqb c b.
Proof.
  intros Hd Hq. unfold head_map. destruct (Ascii.eqb_spec c question) as [->|]; [|done].
  rewrite (Ascii.eqb_sym dollar b), (Ascii.eqb_sym question b). congruence.
Qed.

(** [out] starts like [s], up to a placeholder. *)
Definition starts_alike (s out : str) : Prop :=
  match s with [] => out = [] | c :: _ => ∃ k, out = head_map c :: k end.

Lemma alike_at b s out : Ascii.eqb b dollar = false → Ascii.eqb b question = false →
  starts_alike s out → at_byte b out = at_byte b s.
Proof. destruct s as [|c r]; [by intros ?? ->|]. intros ?? [k ->]. by apply head_map_at. Qed.

Lemma alike_cont s out : starts_alike s out →
  match s with c :: _ => is_cont c = false | [] => True end →
  match out with c :: _ => is_cont c = false | [] => True end.
Proof.
  destruct s as [|c r]; [by intros -> _|]. intros [k ->]. unfold head_map.
  destruct (Ascii.eqb c question); done.
Qed.

Lemma is_quote_not c : is_quote c = true →
  Ascii.eqb c "\" = false ∧ Ascii.eqb c dollar = false ∧ Ascii.eqb c question = false.
Proof. byte_cases c. Qed.

Lemma take_cons {A} n (c : A) r : (1 ≤ n)%nat → take n (c :: r) = c :: take (n - 1) r.
Proof. destruct n; [lia|]. simpl. by rewrite Nat.sub_0_r. Qed.

(** The byte after a quoted token is not its quote. *)
Lemma quoted_len_stop f q s n :
  quoted_len f q s = Some n → Ascii.eqb q "\" = false → at_byte q (drop n s) = false.
Proof.
  intros H Hq. revert s n H. induction f as [|f IH]; intros [|c r] n; cbn [quoted_len]; [done..|].
  destruct (Ascii.eqb c "\" && negb (is_empty r)) eqn:Ec.
  { destruct (quoted_len f q _) as [m|] eqn:E; [|done]. intros <-%(inj Some). apply IH in E.
    rewrite drop_drop in E. simpl. done. }
  destruct (Ascii.eqb c q).
  - destruct r as [|d r]; [by intros [= <-]|]. destruct (Ascii.eqb d q) eqn:Ed; [|by intros [= <-]].
    destruct (quoted_len f q r) as [m|] eqn:E; [|done]. intros <-%(inj Some). by apply IH in E.
  - destruct (quoted_len f q _) as [m|] eqn:E; [|done]. intros <-%(inj Some). apply IH in E.
    by rewrite drop_drop in E.
Qed.

(** A token that is copied is the same token in the output. *)
Lemma opaque_cut s n out :
  dollar ∉ s → opaque_token s = Some (Ok n) → starts_alike (drop n s) out →
  opaque_token (take n s ++ out) = Some (Ok n).
Proof.
  intros Hd Ho Ha. pose proof (opaque_bound _ _ Ho) as Hn. destruct s as [|c r]; [done|].
  assert (Ascii.eqb c "$" = false) as Hc.
  { apply Ascii.eqb_neq. intros ->. apply Hd. left. }
  revert Ho Ha. rewrite take_cons by lia. cbn [opaque_token app]. rewrite Hc.
  assert (∀ x, (2 ≤ n)%nat → at_byte x r = at_byte x (take (n - 1) r ++ out)) as Hr.
  { intros x ?. destruct r as [|d r]; [simpl in Hn; lia|]. by rewrite take_cons by lia. }
  rewrite app_comm_cons, <-take_cons by lia.
  destruct (is_quote c) eqn:Eq.
  { destruct (is_quote_not c Eq) as (H1 & H2 & H3). intros E%(inj Some) Ha. f_equal.
    apply quoted_end_cut; [done|done|]. erewrite alike_at; [|done..].
    apply quoted_end_ok in E as (m & -> & E & _). by apply quoted_len_stop in E. }
  destruct (Ascii.eqb c "-" && at_byte "-" r) eqn:Em.
  { intros E' Ha. assert (line_comment_end (c :: r) 2 = n) as E by congruence. apply andb_true_iff in Em as [E1 E2].
    assert (2 ≤ length (c :: r))%nat by (destruct r; [done|simpl; lia]).
    pose proof (line_comment_bound (c :: r) 2 ltac:(done)).
    rewrite E1, <-Hr, E2 by lia. cbn [andb]. do 2 f_equal. rewrite <-E at 2. rewrite <-E at 1.
    apply line_comment_cut; [done|]. rewrite E. intros Hz. rewrite Hz in Ha. exact Ha. }
  assert (Ascii.eqb c "-" && at_byte "-" (take (n - 1) r ++ out) = true → n = 1%nat) as Em'.
  { intros H'. destruct (decide (2 ≤ n)%nat); [|lia]. rewrite <-Hr in H' by done. congruence. }
  destruct (Ascii.eqb c "#") eqn:Eh.
  { apply Ascii.eqb_eq in Eh as ->. intros E' Ha.
    assert (line_comment_end ("#"%char :: r) 1 = n) as E by congruence.
    change (Some (Ok (line_comment_end (take n ("#"%char :: r) ++ out) 1)) = Some (@Ok GatewayError nat n)).
    do 2 f_equal. rewrite <-E at 2. rewrite <-E at 1. apply line_comment_cut; [simpl; lia|].
    rewrite E. intros Hz. rewrite Hz in Ha. exact Ha. }
  destruct (Ascii.eqb c "/" && at_byte "*" r) eqn:Eb; [|done].
  intros E%(inj Some) _. apply andb_true_iff in Eb as [E1 E2].
  apply Ascii.eqb_eq in E1 as ->. pose proof (block_comment_ok _ _ E) as (m & -> & _ & ?).
  rewrite <-(Hr "*"%char), E2 by lia.
  change (Some (block_comment_end (take (2 + m) ("/"%char :: r) ++ out)) = Some (@Ok GatewayError nat (2 + m)%nat)).
  f_equal. by apply block_comment_cut.
Qed.

(** A byte that is copied alone is copied alone in the output. *)
Lemma plain_cut s out :
  s ≠ [] → dollar ∉ s → opaque_token s = None → starts_alike (drop (char_len s) s) out →
  opaque_token (take (char_len s) s ++ out) = None ∧ char_len (take (char_len s) s ++ out) = char_len s ∧
  at_byte dollar (take (char_len s) s ++ out) = false.
Proof.
  intros Hs Hd Ho Ha. destruct s as [|c r]; [done|].
  assert (Ascii.eqb c "$" = false) as Hc by (apply Ascii.eqb_neq; intros ->; apply Hd; left).
  cbn [char_len] in *. set (k := length (take_while is_cont r)) in *. cbn [take app].
  assert (∀ x, Ascii.eqb x dollar = false → Ascii.eqb x question = false →
               at_byte x (take k r ++ out) = at_byte x r) as Hr.
  { intros x H1 H2. destruct k as [|k'] eqn:Ek; [by apply alike_at|]. by destruct r. }
  cbn [opaque_token at_byte drop] in *. rewrite !Hr by done. rewrite Hc in *.
  destruct (is_quote c); [done|]. destruct (Ascii.eqb c "-" && _); [done|].
  destruct (Ascii.eqb c "#"); [done|]. destruct (Ascii.eqb c "/" && _); [done|].
  split; [done|]. split; [|exact Hc]. f_equal.
  assert (match drop k r with c :: _ => is_cont c = false | [] => True end) as Hk.
  { unfold k. clear. induction r as [|d r IH]; simpl; [done|]. destruct (is_cont d) eqn:E; simpl; done. }
  apply (alike_cont _ _ Ha) in Hk.
  assert (take k r = take_while is_cont r) as Ht.
  { unfold k. clear. induction r as [|d r IH]; simpl; [done|]. destruct (is_cont d); simpl; congruence. }
  rewrite Ht. clear -Hk. assert (forallb is_cont (take_while is_cont r) = true) as Hf by apply take_while_all.
  unfold k. revert Hf. generalize (take_while is_cont r) as l. induction l as [|d l IH]; simpl.
  - destruct out; [done|]. simpl. by rewrite Hk.
  - intros [-> ?]%andb_true_iff. simpl. f_equal. by apply IH.
Qed.

Lemma take_while_digits ds out :
  forallb is_ascii_digit ds = true → digit_next out = false → take_while is_ascii_digit (ds ++ out) = ds.
Proof.
  intros Hd Ho. induction ds as [|d ds IH]; simpl in *.
  - destruct out; [done|]. simpl in *. by rewrite Ho.
  - apply andb_true_iff in Hd as [-> Hd]. f_equal. by apply IH.
Qed.

Lemma digit_ident c : is_ident_byte c = false → is_ascii_digit c = false.
Proof. byte_cases c. Qed.

Lemma digit_no_delimiter d : is_ascii_digit d = true →
  Ascii.eqb d "$" = false ∧ is_ascii_alphabetic d || Ascii.eqb d "_" = false.
Proof. byte_cases d. Qed.

(** The token [$n] that stands for a [?]. *)
Lemma numbered_back prev count i out :
  match prev with Some c => is_ident_byte c | None => false end = false →
  1 <= i <= u16_max → match out with c :: _ => is_ident_byte c = false | [] => True end →
  next_token PostgreSqlNumbered prev count (dollar :: dec i ++ out) = Ok (S (length (dec i)), Some i).
Proof.
  intros Hp Hi Ho. unfold next_token. pose proof (dec_nonempty i) as Hne.
  assert (forallb is_ascii_digit (dec i) = true) as Hds by (apply dec_digits; lia).
  assert (digit_next (dec i ++ out) = true) as Hdn.
  { destruct (dec i); [done|]. simpl in *. by apply andb_true_iff in Hds as [-> _]. }
  assert (opaque_token (dollar :: dec i ++ out) = None) as ->.
  { change (dollar_quoted (dollar :: dec i ++ out) = None). unfold dollar_quoted, dollar_quote_delimiter_end.
    destruct (dec i ++ out) as [|d l]; [done|]. by destruct (digit_no_delimiter d Hdn) as [-> ->]. }
  change (at_byte "$" (dollar :: dec i ++ out)) with true. cbn [andb tail]. rewrite Hdn.
  unfold numbered_placeholder. rewrite Hp. cbn [tail].
  rewrite take_while_digits; [|done|destruct out; [done|by apply digit_ident]].
  rewrite (index_value_of_digits 0 (dec i) i); [|lia|apply digits_val_dec; lia|unfold u16_max, u64_max in *; lia].
  rewrite (proj2 (Z.eqb_neq i 0)), (proj2 (Z.ltb_ge u16_max i)) by lia. cbn [orb].
  assert ((dollar :: dec i ++ out) !! S (length (dec i)) = out !! 0%nat) as ->.
  { change ((dec i ++ out) !! length (dec i) = out !! 0%nat). by rewrite lookup_app_r, Nat.sub_diag by lia. }
  destruct out; [done|]. change ((a :: out) !! 0%nat) with (Some a). cbn [map_ok]. by rewrite Ho.
Qed.

Lemma rewrite_step kind prev count s n i :
  s ≠ [] → next_token kind prev count s = Ok (n, i) →
  rewrite_loop (length s) kind prev count s =
  map_ok (λ '(out, refs), match i with
                          | None => (take n s ++ out, refs)
                          | Some i => (placeholder_text kind i ++ out, i :: refs) end)
    (rewrite_loop (length (drop n s)) kind (last (take n s))
       (match i with None => count | Some _ => count + 1 end) (drop n s)).
Proof.
  intros Hs E. assert (1 ≤ n ≤ length s)%nat as Hn by (by eapply next_token_bound).
  destruct s as [|c r]; [done|]. change (length (c :: r)) with (S (length r)). cbn [rewrite_loop]. rewrite E.
  assert (length (drop n (c :: r)) ≤ length r)%nat by (rewrite length_drop; simpl; lia).
  destruct i; by rewrite (rewrite_loop_fuel (length r) (length (drop n (c :: r)))).
Qed.

Lemma copy_token prev count n' prev' s n out :
  s ≠ [] → dollar ∉ s → next_token MySqlQuestion prev count s = Ok (n, None) →
  starts_alike (drop n s) out →
  next_token PostgreSqlNumbered prev' n' (take n s ++ out) = Ok (n, None).
Proof.
  intros Hs Hd. unfold next_token. destruct (opaque_token s) as [[m|]|] eqn:Eo; cbn [map_ok]; [|done|].
  { intros [= ->] Ha. by rewrite (opaque_cut s n out). }
  intros E Ha. assert (n = char_len s) as -> by (destruct (at_byte _ _); [destruct (_ <? _)|]; congruence).
  destruct (plain_cut s out) as (-> & -> & Hz); [done..|]. change (at_byte "$") with (at_byte dollar). by rewrite Hz.
Qed.

Lemma spaced_question prev r : spaced prev (question :: r) = true →
  prev ≠ Some question ∧ match prev with Some c => is_ident_byte c | None => false end = false ∧
  match r with c :: _ => is_ident_byte c = false | [] => True end.
Proof.
  cbn [spaced]. rewrite Ascii.eqb_refl. cbn [negb orb]. intros [[H1 H2]%andb_true_iff _]%andb_true_iff.
  apply negb_true_iff in H1, H2. split_and!.
  - intros ->. rewrite Ascii.eqb_refl, orb_true_r in H1. done.
  - destruct prev; [|done]. by apply orb_false_iff in H1 as [? _].
  - by destruct r.
Qed.

(** The placeholders read back. *)
Lemma rewrite_back f prev prev' count s out refs :
  (length s ≤ f)%nat → 0 <= count → dollar ∉ s → spaced prev s = true →
  (prev ≠ Some question → prev' = prev) →
  rewrite_loop f MySqlQuestion prev count s = Ok (out, refs) →
  ∀ n, rewrite_loop (length out) PostgreSqlNumbered prev' n out = Ok (s, refs).
Proof.
  revert prev prev' count s out refs. induction f as [|f IH]; intros prev prev' count s out refs Hf Hc Hd Hsp Hp.
  { destruct s; [|simpl in Hf; lia]. intros [= <- <-] n. done. }
  destruct s as [|c r]; [by intros [= <- <-] n|]. cbn [rewrite_loop].
  destruct (next_token _ prev count (c :: r)) as [[n i]|e] eqn:E; [|done].
  assert (1 ≤ n ≤ length (c :: r))%nat as Hn by (by eapply next_token_bound).
  assert (dollar ∉ drop n (c :: r)) as Hd'.
  { intros Hin. apply Hd. rewrite <-(take_drop n (c :: r)). apply elem_of_app. by right. }
  assert (length (drop n (c :: r)) ≤ f)%nat as Hl by (rewrite length_drop; simpl in *; lia).
  pose proof (spaced_next prev _ n Hn ltac:(done) Hsp) as Hsp'.
  pose proof E as [(-> & -> & Hu & r' & [= -> ->])|[-> _]]%mysql_token.
  - apply spaced_question in Hsp as (Hq & Hi & Hr). specialize (Hp Hq). subst prev'.
    destruct (rewrite_loop f _ _ _ (drop 1 _)) as [[o l]|] eqn:El; [|done].
    pose proof (rewrite_head _ _ _ _ _ _ Hl El) as Ha.
    intros [= <- <-] n. simpl in Hd', Hsp'.
    change (placeholder_text MySqlQuestion (count + 1) ++ o) with (dollar :: dec (count + 1) ++ o).
    rewrite (rewrite_step _ _ _ _ (S (length (dec (count + 1)))) (Some (count + 1)));
      [|done|apply numbered_back; [done|lia|]].
    { cbn [drop]. rewrite drop_app_length. cbn [placeholder_text].
      rewrite (IH (Some question) _ (count + 1) r' o l) by (done || lia). done. }
    destruct r' as [|d r']; simpl in Ha; [by subst o|]. destruct Ha as [k ->]. unfold head_map.
    by destruct (Ascii.eqb d question).
  - destruct (rewrite_loop f _ _ _ (drop n _)) as [[o l]|] eqn:El; [|done].
    pose proof (rewrite_head _ _ _ _ _ _ Hl El) as Ha. intros [= <- <-] n'.
    pose proof (copy_token prev count n' prev' (c :: r) n o ltac:(done) Hd E Ha) as E'.
    rewrite (rewrite_step _ _ _ _ n None); [|by rewrite take_cons by lia|done].
    assert (take n (take n (c :: r) ++ o) = take n (c :: r)) as Ht
      by (rewrite take_app_le by (rewrite length_take; lia); rewrite take_take; f_equal; lia).
    assert (drop n (take n (c :: r) ++ o) = o) as ->
      by (rewrite drop_app_ge, length_take_le, Nat.sub_diag by (rewrite ?length_take; lia); done).
    rewrite Ht.
    rewrite (IH (last (take n (c :: r))) _ count (drop n (c :: r)) o l) by done. cbn [map_ok].
    by rewrite take_drop.
Qed.

Lemma mysql_numbering f prev count s out refs :
  rewrite_loop f MySqlQuestion prev count s = Ok (out, refs) →
  refs = map (λ k, count + 1 + Z.of_nat k) (seq 0 (length refs)).
Proof.
  revert prev count s out refs. induction f as [|f IH]; intros prev count [|c r] out refs; cbn [rewrite_loop];
    [by intros [= _ <-]..|].
  destruct (next_token _ prev count (c :: r)) as [[n i]|e] eqn:E; [|done].
  apply mysql_token in E as [(-> & -> & _)|[-> _]].
  - destruct (rewrite_loop f _ _ _ _) as [[o l]|] eqn:El; [|done]. intros [= _ <-]. cbn [length seq map].
    f_equal; [lia|]. rewrite (IH _ _ _ _ _ El) at 1. rewrite <-seq_shift, map_map. apply map_ext. intros. lia.
  - destruct (rewrite_loop f _ _ _ _) as [[o l]|] eqn:El; [|done]. intros [= _ <-]. eauto.
Qed.

(** MySQL to PostgreSQL and back: a statement without [$] whose [?] touch no
    identifier, number or other [?] comes back byte for byte, with its parameters
    in the same order, whatever it quotes or comments out. *)
Theorem placeholder_roundtrip sql out refs ps :
  dollar ∉ sql → spaced None sql = true → rewrite_mysql_placeholders sql = Ok (out, refs) →
  length ps = length refs → rewrite_placeholders_pg_to_mysql out ps = Ret (Ok (sql, ps)).
Proof.
  intros Hd Hs E Hl. pose proof (mysql_numbering _ _ _ _ _ _ E) as Hn.
  pose proof (rewrite_back _ None None 0 sql out refs ltac:(done) ltac:(done) Hd Hs ltac:(done) E 0) as Hb.
  pose proof (rewrite_placeholders_spec out ps) as Hp. unfold rewrite_placeholder_tokens in Hp.
  rewrite Hb in Hp. destruct Hp as [(_ & vs & -> & Hf)|[Hc _]].
  - do 2 f_equal. f_equal. apply list_eq. intros k.
    destruct (vs !! k) as [v|] eqn:Ev.
    + destruct (Forall2_lookup_r _ _ _ k v Hf Ev) as (i & Hi & Hv).
      rewrite Hn, list_lookup_fmap in Hi. apply fmap_Some in Hi as (j & Hj & ->).
      apply lookup_seq in Hj as [-> _]. rewrite <-Hv. f_equal. lia.
    + apply Forall2_length in Hf.
      symmetry. apply lookup_ge_None. apply lookup_ge_None in Ev. lia.
  - exfalso. apply Hc. intros i. rewrite Hn, list_elem_of_In, in_map_iff. split.
    + intros (k & <- & Hk%in_seq). lia.
    + intros Hi. exists (Z.to_nat (i - 1)). split; [lia|]. apply in_seq. lia.
Qed.

Lemma placeholder_roundtrip_witness :
  rewrite_placeholders_pg_to_mysql ($"select '?' from t where x = $1 and y=$2 -- ?") [Integer 7; VString ($"b")]
  = Ret (Ok ($"select '?' from t where x = ? and y=? -- ?", [Integer 7; VString ($"b")])).
Proof.
  apply (placeholder_roundtrip _ _ [1; 2]); [|by vm_compute..].
  apply contains_char_false. by vm_compute.
Defined.

(** ** The check of a policy *)

(** A statement crosses protocols exactly when the policy is enabled, joins two
    different protocols, is for the dialect of the frontend, and the statement has
    no unsupported construct and starts with a keyword of an allowed kind. *)
Theorem translation_gate p sql d kind :
  check_translation_sql p sql d = Ok kind ↔
  tp_enabled p = true ∧ tp_frontend p ≠ tp_backend p ∧ dialect d = tp_frontend p ∧
  (∀ needle label, (needle, label) ∈ forbidden →
     contains (to_ascii_uppercase (trim_start sql)) needle = false) ∧
  (∃ keyword, leading_keyword d sql = Some keyword ∧ kind_from_keyword keyword = Some kind) ∧
  kind ∈ effective_allowed p.
Proof.
  unfold check_translation_sql, validate_translation_policy, reject_unsupported_constructs, protocol_eqb.
  destruct (tp_enabled p); cbn [negb]; [|naive_solver].
  destruct (decide (tp_frontend p = tp_backend p)) as [E1|E1];
    [rewrite bool_decide_true by done; naive_solver|rewrite bool_decide_false by done].
  destruct (decide (dialect d = tp_frontend p)) as [E2|E2];
    [rewrite bool_decide_true by done|rewrite bool_decide_false by done; naive_solver]. cbn [negb].
  destruct (List.find _ forbidden) as [[needle label]|] eqn:Ef.
  { apply List.find_some in Ef as [Hin Hc]. split; [done|]. intros (_ & _ & _ & Hf & _).
    apply list_elem_of_In in Hin. specialize (Hf _ _ Hin). simpl in Hc. congruence. }
  assert (∀ needle label, (needle, label) ∈ forbidden →
     contains (to_ascii_uppercase (trim_start sql)) needle = false) as Hf.
  { intros n l Hin%list_elem_of_In. exact (List.find_none _ _ Ef _ Hin). }
  destruct (leading_keyword d sql) as [k|]; [|naive_solver].
  destruct (kind_from_keyword k) as [kd|] eqn:Ek; [|naive_solver].
  destruct (decide (kd ∈ effective_allowed p));
    [rewrite bool_decide_true by done|rewrite bool_decide_false by done]; naive_solver.
Qed.

(** ** Text outside ASCII *)

Lemma push_byte_ascii c : is_ascii c = true → push_byte c = [c].
Proof. byte_cases c. Qed.

Lemma push_byte_length c : length (push_byte c) = if is_ascii c then 1%nat else 2%nat.
Proof. byte_cases c. Qed.

(** Text without quotes. *)
Definition unquoted (s : str) : bool := forallb (λ c, negb (is_quote c)) s.

Lemma convert_unquoted s :
  unquoted s = true → convert_backticks_to_double_quotes s = concat (map push_byte s).
Proof.
  unfold convert_backticks_to_double_quotes. induction s as [|c s IH]; [done|].
  unfold unquoted in *. cbn [forallb]. intros [Hq Hs]%andb_true_iff. cbn [convert_backtick_loop map concat].
  unfold is_quote in Hq. apply negb_true_iff in Hq. apply orb_false_iff in Hq as [[H1 H2]%orb_false_iff H3].
  rewrite H1, H2, H3. by rewrite IH.
Qed.

Lemma pushed_length s : (length s ≤ length (concat (map push_byte s)))%nat ∧
  (length s = length (concat (map push_byte s)) → ascii_only s).
Proof.
  induction s as [|c s [IH1 IH2]]; [split; [done|by constructor]|]. cbn [map concat length].
  rewrite length_app, push_byte_length. destruct (is_ascii c) eqn:Ec; split; intros; try lia.
  constructor; [done|]. apply IH2. lia.
Qed.

(** The rewrite of identifier quotes keeps a text without quotes if and only if it
    is all ASCII: every other character is encoded twice. *)
Theorem translation_keeps_ascii_only s :
  unquoted s = true → convert_backticks_to_double_quotes s = s ↔ ascii_only s.
Proof.
  intros Hq. rewrite convert_unquoted by done. split.
  - intros E. apply pushed_length. by rewrite E.
  - induction 1 as [|c s Hc Hs IH]; [done|]. cbn [map concat]. rewrite push_byte_ascii by done. simpl.
    f_equal. apply IH. unfold unquoted in *. simpl in Hq. by apply andb_true_iff in Hq as [_ ?].
Qed.

(** The two bytes of [é] in a literal, and [IFNULL(] or [LIMIT] in a literal, reach
    the backend changed. *)
Theorem translation_changes_literals :
  rewrite_sql_for_backend ($"SELECT '" ++ ["195"; "169"]%char ++ $"'") MySql PostgreSql
  = Ok ($"SELECT '" ++ ["195"; "131"; "194"; "131"; "195"; "130"; "194"; "169"]%char ++ $"'") ∧
  rewrite_sql_for_backend ($"SELECT 'IFNULL(x' FROM t WHERE n = 'LIMIT 1,2'") MySql PostgreSql
  = Ok ($"SELECT 'COALESCE(x' FROM t WHERE n = 'LIMIT 2 OFFSET 1'").
Proof. split; by vm_compute. Qed.
