(* ===== verification/GatewayConfig.v ===== *)
(** * Gateway configuration and its validation

    [gateway/core/src/config.rs]: listeners, services, endpoints, named policies,
    and [GatewayConfig::validate].  Maps from names are looked up in the lists
    they were collected from: names are unique by the time they are used. *)

From S2P Require Import Prelude RustStr Model TimeRules Security Translation.

Inductive EndpointSslMode := SslDisable | SslPrefer | SslRequire.
Inductive EndpointRole := RoleRead | RoleReadWrite.

#[export] Instance EndpointSslMode_eq_dec : EqDecision EndpointSslMode.
Proof. solve_decision. Defined.
#[export] Instance EndpointRole_eq_dec : EqDecision EndpointRole.
Proof. solve_decision. Defined.

Definition ssl_mode_as_str (m : EndpointSslMode) : str :=
  match m with SslDisable => $"disable" | SslPrefer => $"prefer" | SslRequire => $"require" end.
Definition wants_tls (m : EndpointSslMode) : bool := match m with SslDisable => false | _ => true end.
Definition requires_tls (m : EndpointSslMode) : bool := match m with SslRequire => true | _ => false end.

Record ListenerConfig := mkListener {
  l_name : str; listen_addr : str; l_protocol : ProtocolKind; l_service : str; auth_policy : option str }.

Record ServiceConfig := mkService {
  s_name : str;
  backend_protocol : ProtocolKind;
  s_endpoints : list str;
  route_policy_name : option str;
  s_plugin_policies : list str;
  s_translation_policy : option str
}.

Record EndpointConfig := mkEndpointConfig {
  e_name : str;
  e_protocol : ProtocolKind;
  e_address : str;
  e_database : option str;
  e_role : EndpointRole;
  e_username : str;
  e_password : str;
  e_weight : Z;
  ssl_mode : EndpointSslMode;
  ssl_ca_file : option str;
  ssl_accept_invalid_certs : bool
}.

Definition default_endpoint : EndpointConfig :=
  mkEndpointConfig [] MySql [] None RoleReadWrite [] [] 1 SslDisable None false.

Record RoutePolicyConfig := mkRoutePolicy { rp_name : str; rp_kind : str }.
Record AuthUserConfig := mkAuthUser { au_username : str; au_password : str }.
Record AuthPolicyConfig := mkAuthPolicy {
  ap_name : str; ap_kind : str; ap_username : str; ap_password : str; ap_users : list AuthUserConfig }.

Definition primary_static_user (p : AuthPolicyConfig) : option (str * str) :=
  match ap_users p with
  | u :: _ => Some (au_username u, au_password u)
  | [] => if is_empty (ap_username p) then None else Some (ap_username p, ap_password p)
  end.

Record PluginPolicyConfig := mkPluginPolicy {
  pp_name : str;
  pp_kind : str;
  pp_regex : list str;
  pp_case_insensitive : bool;
  pp_max_concurrency : option Z;
  pp_duration_secs : option Z
}.

Record GatewayConfig := mkGateway {
  listeners : list ListenerConfig;
  services : list ServiceConfig;
  endpoints : list EndpointConfig;
  route_policies : list RoutePolicyConfig;
  auth_policies : list AuthPolicyConfig;
  plugin_policies : list PluginPolicyConfig;
  translation_policies : list TranslationPolicyConfig;
  security : Security.SecurityPolicyConfig
}.

(** ** Validation *)

(** [for x in l { check(x)? }]. *)
Fixpoint each {A} (check : A → GatewayResult unit) (l : list A) : GatewayResult unit :=
  match l with
  | [] => Ok tt
  | x :: l => _ ← check x; each check l
  end.

(** [l.iter().find(|x| x.name == n)]. *)
Definition named {A} (name : A → str) (n : str) (l : list A) : option A :=
  List.find (λ x, str_eqb (name x) n) l.
Definition has_name {A} (name : A → str) (n : str) (l : list A) : bool :=
  existsb (λ x, str_eqb (name x) n) l.

Definition require (cond : bool) (message : str) : GatewayResult unit := Security.reject_if (negb cond) message.

Definition require_non_empty (field value : str) : GatewayResult unit :=
  require (negb (is_empty (trim value))) (field ++ $" must not be empty").

Fixpoint unique_loop (kind : str) (seen names : list str) : GatewayResult unit :=
  match names with
  | [] => Ok tt
  | n :: names =>
      _ ← require_non_empty (kind ++ $" name") n;
      _ ← require (negb (existsb (str_eqb n) seen)) ($"duplicate " ++ kind ++ $" '" ++ n ++ $"'");
      unique_loop kind (n :: seen) names
  end.

Definition validate_unique (kind : str) (names : list str) : GatewayResult unit := unique_loop kind [] names.

(** The TLS settings of one endpoint. *)
Definition validate_tls (e : EndpointConfig) : GatewayResult unit :=
  _ ← require (match ssl_ca_file e with Some ca => negb (is_empty (trim ca)) | None => true end)
        ($"endpoint '" ++ e_name e ++ $"' ssl_ca_file must be a non-empty path when set");
  _ ← require (negb (bool_decide (ssl_mode e = SslDisable) && negb (is_none (ssl_ca_file e))))
        ($"endpoint '" ++ e_name e ++ $"' sets ssl_ca_file but ssl_mode=disable (TLS not used)");
  require (negb (bool_decide (ssl_mode e = SslRequire) && negb (ssl_accept_invalid_certs e)
                 && match ssl_ca_file e with Some ca => is_empty (trim ca) | None => true end))
    ($"endpoint '" ++ e_name e
     ++ $"' ssl_mode=require with ssl_accept_invalid_certs=false requires ssl_ca_file (production pin)").

(** A listener whose protocol differs from its service's backend. *)
Definition validate_cross (c : GatewayConfig) (l : ListenerConfig) (s : ServiceConfig) : GatewayResult unit :=
  if protocol_eqb (l_protocol l) (backend_protocol s) then Ok tt
  else
    match s_translation_policy s with
    | None =>
        Err (Configuration ($"listener '" ++ l_name l ++ $"' protocol '" ++ ProtocolKind_as_str (l_protocol l)
          ++ $"' does not match service '" ++ s_name s ++ $"' backend protocol '"
          ++ ProtocolKind_as_str (backend_protocol s)
          ++ $"' (set service.translation_policy and enable it)"))
    | Some n =>
        match named tp_name n (translation_policies c) with
        | None =>
            Err (Configuration ($"service '" ++ s_name s ++ $"' references missing translation policy '" ++ n ++ $"'"))
        | Some p =>
            _ ← require (tp_enabled p) ($"listener '" ++ l_name l ++ $"' requires enabled translation policy '"
                  ++ n ++ $"', but it is disabled");
            require (protocol_eqb (tp_frontend p) (l_protocol l) && protocol_eqb (tp_backend p) (backend_protocol s))
              ($"translation policy '" ++ tp_name p ++ $"' is for " ++ direction p
               ++ $", but listener/service need " ++ ProtocolKind_as_str (l_protocol l) ++ $" -> "
               ++ ProtocolKind_as_str (backend_protocol s))
        end
    end.

Definition validate_listener (c : GatewayConfig) (l : ListenerConfig) : GatewayResult unit :=
  _ ← require_non_empty ($"listener name") (l_name l);
  _ ← require_non_empty ($"listener address") (listen_addr l);
  _ ← require (has_name s_name (l_service l) (services c))
        ($"listener '" ++ l_name l ++ $"' references missing service '" ++ l_service l ++ $"'");
  _ ← match auth_policy l with
      | Some p => require (has_name ap_name p (auth_policies c))
                    ($"listener '" ++ l_name l ++ $"' references missing auth policy '" ++ p ++ $"'")
      | None => Ok tt
      end;
  match named s_name (l_service l) (services c) with
  | Some s => validate_cross c l s
  | None => Ok tt
  end.

Definition validate_member (c : GatewayConfig) (s : ServiceConfig) (n : str) : GatewayResult unit :=
  match named e_name n (endpoints c) with
  | None => Err (Configuration ($"service '" ++ s_name s ++ $"' references missing endpoint '" ++ n ++ $"'"))
  | Some e =>
      require (protocol_eqb (e_protocol e) (backend_protocol s))
        ($"service '" ++ s_name s ++ $"' backend protocol '" ++ ProtocolKind_as_str (backend_protocol s)
         ++ $"' does not match endpoint '" ++ n ++ $"' protocol '" ++ ProtocolKind_as_str (e_protocol e) ++ $"'")
  end.

Definition validate_service (c : GatewayConfig) (s : ServiceConfig) : GatewayResult unit :=
  let missing (what n : str) := $"service '" ++ s_name s ++ $"' references missing " ++ what ++ $" '" ++ n ++ $"'" in
  _ ← require_non_empty ($"service name") (s_name s);
  _ ← require (negb (is_empty (s_endpoints s))) ($"service '" ++ s_name s ++ $"' has no endpoints");
  _ ← each (validate_member c s) (s_endpoints s);
  _ ← match route_policy_name s with
      | Some p => require (has_name rp_name p (route_policies c)) (missing ($"route policy") p)
      | None => Ok tt
      end;
  _ ← each (λ p, require (has_name pp_name p (plugin_policies c)) (missing ($"plugin policy") p)) (s_plugin_policies s);
  match s_translation_policy s with
  | Some p => require (has_name tp_name p (translation_policies c)) (missing ($"translation policy") p)
  | None => Ok tt
  end.

Definition validate_endpoint (e : EndpointConfig) : GatewayResult unit :=
  _ ← require_non_empty ($"endpoint name") (e_name e);
  require_non_empty ($"endpoint address") (e_address e).

(** [GatewayConfig::validate]. *)
Definition validate_gateway `{TimeRules.Chrono} (cedar_feature : bool) (c : GatewayConfig) : GatewayResult unit :=
  _ ← require (negb (is_empty (listeners c))) ($"gateway config must define at least one listener");
  _ ← require (negb (is_empty (services c))) ($"gateway config must define at least one service");
  _ ← require (negb (is_empty (endpoints c))) ($"gateway config must define at least one endpoint");
  _ ← validate_unique ($"listener") (map l_name (listeners c));
  _ ← validate_unique ($"service") (map s_name (services c));
  _ ← validate_unique ($"endpoint") (map e_name (endpoints c));
  _ ← validate_unique ($"route policy") (map rp_name (route_policies c));
  _ ← validate_unique ($"auth policy") (map ap_name (auth_policies c));
  _ ← validate_unique ($"plugin policy") (map pp_name (plugin_policies c));
  _ ← validate_unique ($"translation policy") (map tp_name (translation_policies c));
  _ ← each validate_tls (endpoints c);
  _ ← each (validate_listener c) (listeners c);
  _ ← each (validate_service c) (services c);
  _ ← each validate_endpoint (endpoints c);
  Security.validate_policy cedar_feature (security c).

(** ** Facts *)

Lemma require_ok cond message : require cond message = Ok tt ↔ cond = true.
Proof. unfold require, Security.reject_if. by destruct cond. Qed.

Lemma seq_ok {A} (m : GatewayResult unit) (k : GatewayResult A) r :
  (m ≫= λ _, k) = Ok r ↔ m = Ok tt ∧ k = Ok r.
Proof. destruct m as [[]|]; [|naive_solver]. simpl. naive_solver. Qed.

Lemma each_ok {A} (check : A → GatewayResult unit) l :
  each check l = Ok tt ↔ ∀ x, x ∈ l → check x = Ok tt.
Proof.
  induction l as [|x l IH]; cbn [each].
  - split; [|done]. intros _ x Hx. by apply not_elem_of_nil in Hx.
  - rewrite seq_ok, IH. split.
    + intros [? ?] y [->|?]%elem_of_cons; auto.
    + intros H'. split; [apply H'; left|]. intros y ?. apply H'. by right.
Qed.

Lemma named_some {A} (name : A → str) n l x : named name n l = Some x → x ∈ l ∧ name x = n.
Proof. intros [Hin E%str_eqb_eq]%List.find_some. split; [by apply list_elem_of_In|done]. Qed.

Lemma has_name_named {A} (name : A → str) n l : has_name name n l = true → ∃ x, named name n l = Some x.
Proof.
  intros (x & Hx%list_elem_of_In & E)%existsb_elem. unfold named.
  destruct (List.find _ l) eqn:Ef; [eauto|]. eapply List.find_none in Ef; [|exact Hx]. simpl in Ef. congruence.
Qed.

(** What validation promises of one listener. *)
Record listener_sound (c : GatewayConfig) (l : ListenerConfig) (s : ServiceConfig) : Prop := {
  sound_service : named s_name (l_service l) (services c) = Some s;
  sound_endpoints : s_endpoints s ≠ [] ∧
    ∀ n, n ∈ s_endpoints s → ∃ e, named e_name n (endpoints c) = Some e ∧ e_protocol e = backend_protocol s;
  sound_route : ∀ n, route_policy_name s = Some n → ∃ p, named rp_name n (route_policies c) = Some p;
  sound_plugins : ∀ n, n ∈ s_plugin_policies s → ∃ p, named pp_name n (plugin_policies c) = Some p;
  sound_auth : ∀ n, auth_policy l = Some n → ∃ p, named ap_name n (auth_policies c) = Some p;
  sound_translation : l_protocol l ≠ backend_protocol s →
    ∃ n p, s_translation_policy s = Some n ∧ named tp_name n (translation_policies c) = Some p ∧
      tp_enabled p = true ∧ tp_frontend p = l_protocol l ∧ tp_backend p = backend_protocol s
}.

Lemma validated_listener `{TimeRules.Chrono} cedar c l :
  validate_gateway cedar c = Ok tt → l ∈ listeners c → ∃ s, s ∈ services c ∧ listener_sound c l s.
Proof.
  unfold validate_gateway. rewrite !seq_ok, !each_ok.
  intros (_ & _ & _ & _ & _ & _ & _ & _ & _ & _ & _ & Hl & Hs & _) Hin.
  specialize (Hl l Hin). unfold validate_listener in Hl. rewrite !seq_ok, require_ok in Hl.
  destruct Hl as (_ & _ & (s & E)%has_name_named & Ha & Hc). rewrite E in Hc.
  pose proof (named_some _ _ _ _ E) as [Hsin _]. exists s. split; [done|].
  specialize (Hs s Hsin). unfold validate_service in Hs. rewrite !seq_ok, !each_ok, require_ok in Hs.
  destruct Hs as (_ & Hne & Hm & Hr & Hp & _). split; [done|..].
  - split; [by destruct (s_endpoints s)|]. intros n Hn. specialize (Hm n Hn). unfold validate_member in Hm.
    destruct (named e_name n _) as [e|]; [|done]. apply require_ok, bool_decide_eq_true in Hm. eauto.
  - intros n Hn. rewrite Hn, require_ok in Hr. by apply has_name_named.
  - intros n Hn. specialize (Hp n Hn). apply require_ok in Hp. by apply has_name_named.
  - intros n Hn. rewrite Hn, require_ok in Ha. by apply has_name_named.
  - intros Hd. unfold validate_cross, protocol_eqb in Hc. rewrite bool_decide_false in Hc by done.
    destruct (s_translation_policy s) as [n|]; [|done].
    destruct (named tp_name n _) as [p|] eqn:Et; [|done]. rewrite seq_ok, !require_ok in Hc.
    destruct Hc as [? [?%bool_decide_eq_true ?%bool_decide_eq_true]%andb_true_iff]. exists n, p. done.
Qed.
