(* ===== verification/RuntimePlan.v ===== *)
(** * Runtime plan and route policy

    [runtime/gateway/src/core_engine.rs]: the plan of a listener
    ([CoreGatewayListenerPlan::from_config] and what it resolves), the start of a
    connection, and [CoreRoutePolicy], which picks the endpoint of each command.

    The dialect parsers of the runtime are a parameter ([dialect_of]), as are the
    regular expressions and the random generator.  A balancer is shared by all
    connections of a listener behind a mutex: it is part of the policy, which every
    selection returns updated. *)

From S2P Require Import Prelude RustStr Model Session TimeRules Security Translation GatewayConfig LoadBalance Plugin.

(** ** Names of kinds *)

(** [char::to_lowercase] of ASCII letters and of the two other characters whose
    lower case begins with an ASCII letter. *)
Definition char_to_lowercase (c : str) : str :=
  match map N_of_ascii c with
  | [226%N; 132%N; 170%N] => $"k"
  | [196%N; 176%N] => $"i" ++ ["204"%char; "135"%char]
  | _ => map to_lower c
  end.

Definition normalize_policy_kind (kind : str) : str :=
  concat (map char_to_lowercase
    (List.filter (λ c, negb (str_eqb c ($"_")) && negb (str_eqb c ($"-"))) (chars kind))).

Definition is_read_write_splitting_policy (kind : option str) : bool :=
  match kind with Some k => str_eqb (normalize_policy_kind k) ($"readwritesplitting") | None => false end.

Definition simple_load_balance_algorithm (kind : str) : option LoadBalance.AlgorithmName :=
  let k := to_ascii_lowercase kind in
  if one_of [$"simple_load_balance"; $"random"] k then Some LoadBalance.Random
  else if one_of [$"round_robin"; $"round-robin"; $"roundrobin"] k then Some LoadBalance.RoundRobin
  else None.

Definition endpoint_protocol_name (p : ProtocolKind) : str :=
  match p with MySql => $"mysql" | PostgreSql => $"postgresql" end.

Definition load_balance_endpoint (e : EndpointConfig) : LoadBalance.Endpoint :=
  LoadBalance.mkEndpoint (endpoint_protocol_name (e_protocol e)) (e_weight e) (e_name e)
    (default [] (e_database e)) (e_username e) (e_password e) (e_address e).

(** ** The route policy *)

Inductive RouteTargetRole := TargetRead | TargetReadWrite.

#[export] Instance RouteTargetRole_eq_dec : EqDecision RouteTargetRole.
Proof. solve_decision. Defined.

Definition command_target_role (command : GatewayCommand) (session : SessionState) (d : DialectParser)
    : RouteTargetRole :=
  match transaction_state session with
  | Active => TargetReadWrite
  | _ =>
      match command with
      | Query sql | QueryParams sql _ => if is_read_only d sql then TargetRead else TargetReadWrite
      | _ => TargetReadWrite
      end
  end.

Definition endpoint_to_route_plan (e : EndpointConfig) : RoutePlan :=
  Single (mkEndpointRef (e_name e) (e_address e)).

Definition apply_route_plan (plan : RoutePlan) (session : SessionState) : GatewayResult SessionState :=
  match plan with
  | Single e => Ok (with_endpoint (Some (ref_name e)) session)
  | Reject reason => Err (Configuration reason)
  | Broadcast _ | Sharded _ =>
      Err (Unsupported ($"broadcast/sharded route plans are not executed by core runtime yet"))
  end.

Section RoutePolicy.
Context {R : Type} `{LoadBalance.Rng R} (dialect_of : ProtocolKind → DialectParser).

Inductive CoreRoutePolicyKind :=
| RFirst
| RSimple (balancer : LoadBalance.BalanceType R)
| RReadWrite (read_balancer readwrite_balancer : LoadBalance.BalanceType R).

Record CoreRoutePolicy := mkRoute {
  cr_endpoints : list EndpointConfig; cr_kind : CoreRoutePolicyKind; cr_dialect : DialectParser }.

Definition build_balancer (nanos : Z) (a : LoadBalance.AlgorithmName) (l : list EndpointConfig)
    : LoadBalance.BalanceType R :=
  foldl (λ b e, LoadBalance.balance_add (load_balance_endpoint e) b) (LoadBalance.build_balance nanos a) l.

Definition of_role (r : EndpointRole) (l : list EndpointConfig) : list EndpointConfig :=
  List.filter (λ e, bool_decide (e_role e = r)) l.

(** The clock seeds the random generators: [n1] and [n2] in order of creation. *)
Definition build_read_write (n1 n2 : Z) (l : list EndpointConfig) : GatewayResult CoreRoutePolicyKind :=
  let reads := of_role RoleRead l in
  let writes := of_role RoleReadWrite l in
  if is_empty writes then
    Err (Configuration ($"read_write_splitting route policy requires at least one readwrite endpoint"))
  else
    Ok (RReadWrite (build_balancer n1 LoadBalance.Random (if is_empty reads then writes else reads))
          (build_balancer n2 LoadBalance.Random writes)).

Definition build_route_policy (n1 n2 : Z) (kind : option str) (l : list EndpointConfig) (p : ProtocolKind)
    : GatewayResult CoreRoutePolicy :=
  map_ok (λ k, mkRoute l k (dialect_of p))
    (if is_read_write_splitting_policy kind then build_read_write n1 n2 l
     else match kind ≫= simple_load_balance_algorithm with
          | Some a => Ok (RSimple (build_balancer n1 a l))
          | None => Ok RFirst
          end).

Definition first_endpoint (p : CoreRoutePolicy) : GatewayResult EndpointConfig :=
  ok_or (Configuration ($"service has no endpoints")) (head (cr_endpoints p)).

Definition endpoint_by_name (p : CoreRoutePolicy) (n : str) : GatewayResult EndpointConfig :=
  ok_or (Configuration ($"route policy references missing endpoint '" ++ n ++ $"'"))
    (named e_name n (cr_endpoints p)).

Definition select_from_balancer (p : CoreRoutePolicy) (b : LoadBalance.BalanceType R)
    : fueled (GatewayResult EndpointConfig * LoadBalance.BalanceType R) :=
  ebind (LoadBalance.balance_next b) (λ '(selected, b),
    Some (Ret (match selected with
               | Some e => endpoint_by_name p (LoadBalance.name e)
               | None => first_endpoint p
               end, b))).

Definition with_kind (k : CoreRoutePolicyKind) (p : CoreRoutePolicy) : CoreRoutePolicy :=
  mkRoute (cr_endpoints p) k (cr_dialect p).

Definition plan_for_role (role : RouteTargetRole) (p : CoreRoutePolicy)
    : fueled (GatewayResult RoutePlan * CoreRoutePolicy) :=
  match cr_kind p with
  | RFirst => Some (Ret (map_ok endpoint_to_route_plan (first_endpoint p), p))
  | RSimple b =>
      ebind (select_from_balancer p b) (λ '(r, b),
        Some (Ret (map_ok endpoint_to_route_plan r, with_kind (RSimple b) p)))
  | RReadWrite rb wb =>
      match role with
      | TargetRead =>
          ebind (select_from_balancer p rb) (λ '(r, rb),
            Some (Ret (map_ok endpoint_to_route_plan r, with_kind (RReadWrite rb wb) p)))
      | TargetReadWrite =>
          ebind (select_from_balancer p wb) (λ '(r, wb),
            Some (Ret (map_ok endpoint_to_route_plan r, with_kind (RReadWrite rb wb) p)))
      end
  end.

Definition is_sticky (k : CoreRoutePolicyKind) : bool := match k with RReadWrite _ _ => false | _ => true end.

Definition plan_command (command : GatewayCommand) (session : SessionState) (p : CoreRoutePolicy)
    : fueled (GatewayResult RoutePlan * CoreRoutePolicy) :=
  match (if is_sticky (cr_kind p) || bool_decide (transaction_state session = Active)
         then backend_endpoint session else None) with
  | Some n => Some (Ret (map_ok endpoint_to_route_plan (endpoint_by_name p n), p))
  | None => plan_for_role (command_target_role command session (cr_dialect p)) p
  end.

Definition select_initial_endpoint (p : CoreRoutePolicy) : fueled (GatewayResult EndpointConfig * CoreRoutePolicy) :=
  ebind (plan_for_role TargetReadWrite p) (λ '(r, p),
    Some (Ret (match r with
               | Ok (Single e) => endpoint_by_name p (ref_name e)
               | Ok (Reject reason) => Err (Configuration reason)
               | Ok _ => Err (Unsupported ($"initial endpoint selection only supports Single route plans"))
               | Err e => Err e
               end, p))).

(** ** Listener plans *)

Definition resolve_translation_policy (c : GatewayConfig) (l : ListenerConfig) (s : ServiceConfig)
    : GatewayResult (option TranslationPolicyConfig) :=
  if protocol_eqb (l_protocol l) (backend_protocol s) then Ok None
  else
    match s_translation_policy s with
    | None =>
        Err (Configuration ($"listener '" ++ l_name l ++ $"' protocol '" ++ ProtocolKind_as_str (l_protocol l)
          ++ $"' does not match service '" ++ s_name s ++ $"' backend protocol '"
          ++ ProtocolKind_as_str (backend_protocol s) ++ $"' (set service.translation_policy)"))
    | Some n =>
        match named tp_name n (translation_policies c) with
        | None =>
            Err (Configuration ($"service '" ++ s_name s ++ $"' references missing translation policy '" ++ n ++ $"'"))
        | Some p =>
            if tp_enabled p then Ok (Some p)
            else Err (Configuration ($"translation policy '" ++ tp_name p ++ $"' is disabled"))
        end
    end.

Definition resolve_auth_user (c : GatewayConfig) (name : option str) : GatewayResult (option (str * str)) :=
  match name with
  | None => Ok None
  | Some n =>
      match named ap_name n (auth_policies c) with
      | None => Err (Configuration ($"listener references missing auth policy '" ++ n ++ $"'"))
      | Some p =>
          if str_eqb (to_ascii_lowercase (ap_kind p)) ($"static") then Ok (primary_static_user p)
          else Err (Configuration ($"unsupported auth policy kind '" ++ ap_kind p ++ $"' for policy '"
                 ++ ap_name p ++ $"'"))
      end
  end.

Definition second : Z := 1000000000.

(** The loop of [build_plugin_config]. *)
Fixpoint plugin_rules (c : GatewayConfig) (names : list str)
    : GatewayResult (list ConcurrencyControlConfig * list CircuitBreakConfig) :=
  match names with
  | [] => Ok ([], [])
  | n :: names =>
      match named pp_name n (plugin_policies c) with
      | None => Err (Configuration ($"service references missing plugin policy '" ++ n ++ $"'"))
      | Some p =>
          let kind := normalize_policy_kind (pp_kind p) in
          if one_of [$"circuitbreak"; $"audit"] kind then
            map_ok (λ '(cc, cb),
              (cc, if is_empty (pp_regex p) then cb else mkCbConfig (pp_regex p) (pp_case_insensitive p) :: cb))
              (plugin_rules c names)
          else if str_eqb kind ($"concurrencycontrol") then
            map_ok (λ '(cc, cb),
              (if is_empty (pp_regex p) then cc
               else mkCcConfig (pp_regex p) (default 1 (pp_max_concurrency p))
                      (default 60 (pp_duration_secs p) * second) :: cc, cb))
              (plugin_rules c names)
          else Err (Configuration ($"unsupported plugin policy kind '" ++ kind ++ $"' for policy '"
                 ++ pp_name p ++ $"'"))
      end
  end.

Definition build_plugin_config (c : GatewayConfig) (names : list str) : GatewayResult (option PluginConfig) :=
  if is_empty names then Ok None
  else
    map_ok (λ '(cc, cb),
      if is_empty cc && is_empty cb then None
      else Some (mkPluginConfig (if is_empty cc then None else Some cc) (if is_empty cb then None else Some cb)))
      (plugin_rules c names).

Record CoreGatewayListenerPlan := mkPlan {
  pl_listener : ListenerConfig;
  pl_service : ServiceConfig;
  pl_endpoints : list EndpointConfig;
  pl_route_kind : option str;
  pl_route : CoreRoutePolicy;
  pl_plugins : option PluginConfig;
  pl_auth : option (str * str);
  pl_translation : option TranslationPolicyConfig;
  pl_secured : bool;
  pl_stream_mode : ExecuteMode;
  pl_passthrough : bool;
  pl_audit_level : str;
  pl_sample : bool * Z * Z
}.

(** The endpoints a service names. *)
Fixpoint resolve_endpoints (c : GatewayConfig) (s : ServiceConfig) (names : list str)
    : GatewayResult (list EndpointConfig) :=
  match names with
  | [] => Ok []
  | n :: names =>
      match named e_name n (endpoints c) with
      | None => Err (Configuration ($"service '" ++ s_name s ++ $"' references missing endpoint '" ++ n ++ $"'"))
      | Some e => map_ok (cons e) (resolve_endpoints c s names)
      end
  end.

Definition resolve_route_kind (c : GatewayConfig) (s : ServiceConfig) : GatewayResult (option str) :=
  match route_policy_name s with
  | None => Ok None
  | Some n =>
      match named rp_name n (route_policies c) with
      | None => Err (Configuration ($"service '" ++ s_name s ++ $"' references missing route policy '" ++ n ++ $"'"))
      | Some p => Ok (Some (rp_kind p))
      end
  end.

Definition plan_stream_mode (c : GatewayConfig) (s : ServiceConfig) : ExecuteMode :=
  let st := Security.streaming (security c) in
  let m := from_streaming_config (Security.window_rows st) (Security.streaming_max_rows st) in
  match s_translation_policy s, m with
  | Some _, Materialized | Some _, Passthrough =>
      from_streaming_config (Z.max (Security.window_rows st) 1) (Security.streaming_max_rows st)
  | _, _ => m
  end.

Definition listener_from_config (n1 n2 : Z) (c : GatewayConfig) (l : ListenerConfig)
    : GatewayResult CoreGatewayListenerPlan :=
  match named s_name (l_service l) (services c) with
  | None =>
      Err (Configuration ($"listener '" ++ l_name l ++ $"' references missing service '" ++ l_service l ++ $"'"))
  | Some s =>
  match resolve_endpoints c s (s_endpoints s) with Err e => Err e | Ok eps =>
  match resolve_route_kind c s with Err e => Err e | Ok kind =>
  match build_route_policy n1 n2 kind eps (l_protocol l) with Err e => Err e | Ok route =>
  match build_plugin_config c (s_plugin_policies s) with Err e => Err e | Ok plugins =>
  match resolve_auth_user c (auth_policy l) with Err e => Err e | Ok auth =>
  match resolve_translation_policy c l s with Err e => Err e | Ok translation =>
      let sec := security c in
      Ok (mkPlan l s eps kind route plugins auth translation (Security.enabled sec) (plan_stream_mode c s)
            (Security.passthrough (Security.streaming sec)) (Security.default_audit_level sec)
            (Security.sample_enabled (Security.audit sec), Security.sample_max_rows (Security.audit sec),
             Security.sample_max_bytes (Security.audit sec)))
  end end end end end end
  end.

(** ** The start of a connection *)

Context `{RegexFlags}.

Record ConnectionStart := mkStart {
  cs_session : SessionState; cs_plugins : option PluginPhase }.

Definition build_connection (plan : CoreGatewayListenerPlan)
    : fueled (GatewayResult ConnectionStart * CoreRoutePolicy) :=
  ebind (select_initial_endpoint (pl_route plan)) (λ '(r, route),
    match r with
    | Err e => Some (Ret (Err e, route))
    | Ok e =>
        let session := mkSession None (e_database e) None None (Some (e_name e)) Idle false false false None false
                         None 0 false [] false in
        match pl_plugins plan with
        | None => Some (Ret (Ok (mkStart session None), route))
        | Some config =>
            match new_phase config with
            | Panic => Some Panic
            | Ret phase => Some (Ret (Ok (mkStart session (Some phase)), route))
            end
        end
    end).
End RoutePolicy.
Arguments CoreRoutePolicy R : clear implicits.
Arguments CoreRoutePolicyKind R : clear implicits.
Arguments CoreGatewayListenerPlan R : clear implicits.

(** ** A validated configuration has a plan *)

Definition known_plugin_kind (p : PluginPolicyConfig) : bool :=
  one_of [$"circuitbreak"; $"audit"; $"concurrencycontrol"] (normalize_policy_kind (pp_kind p)).

(** What [validate] leaves to the plan: kinds it knows, and a primary to split to. *)
Record supported (c : GatewayConfig) (l : ListenerConfig) (s : ServiceConfig) : Prop := {
  supported_auth : ∀ n p, auth_policy l = Some n → named ap_name n (auth_policies c) = Some p →
    to_ascii_lowercase (ap_kind p) = $"static";
  supported_plugins : ∀ n p, n ∈ s_plugin_policies s → named pp_name n (plugin_policies c) = Some p →
    known_plugin_kind p = true;
  supported_route : ∀ n p, route_policy_name s = Some n → named rp_name n (route_policies c) = Some p →
    is_read_write_splitting_policy (Some (rp_kind p)) = true →
    ∃ m e, m ∈ s_endpoints s ∧ named e_name m (endpoints c) = Some e ∧ e_role e = RoleReadWrite
}.

Section Plans.
Context {R : Type} `{LoadBalance.Rng R} (dialect_of : ProtocolKind → DialectParser).

(** What a plan that was built promises the engine. *)
Record plan_sound (c : GatewayConfig) (l : ListenerConfig) (s : ServiceConfig)
    (plan : CoreGatewayListenerPlan R) : Prop := {
  plan_service : pl_service plan = s;
  plan_endpoints : pl_endpoints plan ≠ [] ∧ Forall (λ e, e_protocol e = backend_protocol s) (pl_endpoints plan);
  plan_translation : match pl_translation plan with
                     | None => l_protocol l = backend_protocol s
                     | Some p => tp_enabled p = true ∧ tp_frontend p = l_protocol l ∧
                                 tp_backend p = backend_protocol s ∧ l_protocol l ≠ backend_protocol s
                     end;
  plan_streams : ∃ w m, pl_stream_mode plan = Streaming w m ∧ 1 <= w
}.

Lemma resolve_endpoints_ok c s names :
  (∀ n, n ∈ names → ∃ e, named e_name n (endpoints c) = Some e ∧ e_protocol e = backend_protocol s) →
  ∃ l, resolve_endpoints c s names = Ok l ∧ length l = length names ∧
    Forall (λ e, e_protocol e = backend_protocol s) l ∧
    ∀ e, e ∈ l ↔ ∃ n, n ∈ names ∧ named e_name n (endpoints c) = Some e.
Proof.
  induction names as [|n names IH]; intros Hn; cbn [resolve_endpoints].
  { exists []. split; [done|]. split; [done|]. split; [by constructor|]. intros e. split; [by intros ?%not_elem_of_nil|].
    intros (n & Hin & _). by apply not_elem_of_nil in Hin. }
  destruct (Hn n) as (e & E & He); [left|]. rewrite E.
  destruct IH as (l & -> & Hl & Hf & Hm); [intros m ?; apply Hn; by right|]. cbn [map_ok].
  exists (e :: l). split; [done|]. split; [simpl; lia|]. split; [by constructor|].
  intros x. rewrite elem_of_cons, Hm. split.
  - intros [->|(m & ? & ?)]; [exists n|exists m]; (split; [by (left || right)|done]).
  - intros (m & [->|Hin]%elem_of_cons & E'); [left; congruence|right; eauto].
Qed.

Lemma plugin_rules_ok c names :
  (∀ n, n ∈ names → ∃ p, named pp_name n (plugin_policies c) = Some p) →
  (∀ n p, n ∈ names → named pp_name n (plugin_policies c) = Some p → known_plugin_kind p = true) ↔
  ∃ r, plugin_rules c names = Ok r.
Proof.
  induction names as [|n names IH]; intros Hn; cbn [plugin_rules].
  { split; [eauto|]. intros _ n p Hin. by apply not_elem_of_nil in Hin. }
  destruct (Hn n) as (p & E); [left|]. rewrite E.
  assert ((∃ r, plugin_rules c names = Ok r) ↔
    ∀ n p, n ∈ names → named pp_name n (plugin_policies c) = Some p → known_plugin_kind p = true) as IH'
    by (symmetry; apply IH; intros; apply Hn; by right).
  assert ((∀ m q, m ∈ n :: names → named pp_name m (plugin_policies c) = Some q → known_plugin_kind q = true) ↔
    known_plugin_kind p = true ∧ ∃ r, plugin_rules c names = Ok r) as ->.
  { rewrite IH'. split.
    - intros Ha. split; [by apply (Ha n p); [left|]|]. intros m q Hm. apply Ha. by right.
    - intros [Hp Ha] m q [->|Hm]%elem_of_cons Hq; [congruence|by eapply Ha]. }
  unfold known_plugin_kind, one_of. cbn [existsb].
  destruct (str_eqb _ ($"circuitbreak")), (str_eqb _ ($"audit")), (str_eqb _ ($"concurrencycontrol")) eqn:?;
    cbn [orb]; destruct (plugin_rules c names) as [[cc cb]|e]; cbn [map_ok]; naive_solver.
Qed.

Lemma build_route_ok n1 n2 kind l p :
  (∃ r, build_route_policy (R := R) dialect_of n1 n2 kind l p = Ok r) ↔
  (is_read_write_splitting_policy kind = true → ∃ e, e ∈ l ∧ e_role e = RoleReadWrite).
Proof.
  unfold build_route_policy, build_read_write. destruct (is_read_write_splitting_policy kind) eqn:Ek.
  - assert ((∃ e, e ∈ l ∧ e_role e = RoleReadWrite) ↔ of_role RoleReadWrite l ≠ []) as He.
    { unfold of_role. split.
      - intros (e & Hin%list_elem_of_In & Hr) Hz.
        assert (In e []) as []. rewrite <-Hz. apply filter_In. split; [done|]. by apply bool_decide_eq_true.
      - intros Hz. destruct (List.filter _ l) as [|e k] eqn:E; [done|].
        assert (In e (e :: k)) as Hin by (by left). rewrite <-E in Hin.
        apply filter_In in Hin as [Hin Hr%bool_decide_eq_true]. exists e. by rewrite list_elem_of_In. }
    destruct (of_role RoleReadWrite l) eqn:E; cbn [is_empty map_ok].
    + split; [intros [? ?]; done|]. intros Hr. by apply He in Hr.
    + split; [|eauto]. intros _ _. by apply He.
  - split; [done|]. intros _. destruct (kind ≫= _); eauto.
Qed.

Lemma plan_mode_streams c s : ∃ w m, plan_stream_mode c s = Streaming w m ∧ 1 <= w.
Proof.
  unfold plan_stream_mode, from_streaming_config. destruct (s_translation_policy s); eexists _, _; (split; [done|lia]).
Qed.

Lemma resolve_translation_ok c l s :
  listener_sound c l s →
  ∃ t, resolve_translation_policy c l s = Ok t ∧
    match t with
    | None => l_protocol l = backend_protocol s
    | Some p => tp_enabled p = true ∧ tp_frontend p = l_protocol l ∧ tp_backend p = backend_protocol s ∧
                l_protocol l ≠ backend_protocol s
    end.
Proof.
  intros Hs. unfold resolve_translation_policy, protocol_eqb.
  destruct (decide (l_protocol l = backend_protocol s)) as [E|E];
    [rewrite bool_decide_true by done; eauto|rewrite bool_decide_false by done].
  destruct (sound_translation _ _ _ Hs E) as (n & p & -> & -> & He & ? & ?). rewrite He. exists (Some p). done.
Qed.

Lemma resolve_auth_ok c l s :
  listener_sound c l s →
  (∃ a, resolve_auth_user c (auth_policy l) = Ok a) ↔
  ∀ n p, auth_policy l = Some n → named ap_name n (auth_policies c) = Some p →
    to_ascii_lowercase (ap_kind p) = $"static".
Proof.
  intros Hs. unfold resolve_auth_user. pose proof (sound_auth _ _ _ Hs) as Ha.
  destruct (auth_policy l) as [n|]; [|split; [done|eauto]].
  destruct (Ha n eq_refl) as (p & E). rewrite E.
  destruct (str_eqb (to_ascii_lowercase (ap_kind p)) ($"static")) eqn:Ek.
  - apply str_eqb_eq in Ek. split; [|eauto]. intros _ m q [= <-] Hq. congruence.
  - apply str_eqb_neq in Ek. split; [by intros [? ?]|]. intros Hk. by destruct (Ek (Hk n p eq_refl E)).
Qed.

Lemma build_plugin_ok c l s :
  listener_sound c l s →
  (∃ o, build_plugin_config c (s_plugin_policies s) = Ok o) ↔
  ∀ n p, n ∈ s_plugin_policies s → named pp_name n (plugin_policies c) = Some p → known_plugin_kind p = true.
Proof.
  intros Hs. rewrite (plugin_rules_ok c _ (sound_plugins _ _ _ Hs)). unfold build_plugin_config.
  destruct (s_plugin_policies s) as [|n names]; cbn [is_empty]; [naive_solver|].
  destruct (plugin_rules c (n :: names)) as [[cc cb]|e]; cbn [map_ok]; naive_solver.
Qed.

(** The route kind of a service. *)
Lemma resolve_route_ok c l s :
  listener_sound c l s →
  ∃ kind, resolve_route_kind c s = Ok kind ∧
    (is_read_write_splitting_policy kind = true ↔
     ∃ n p, route_policy_name s = Some n ∧ named rp_name n (route_policies c) = Some p ∧
       is_read_write_splitting_policy (Some (rp_kind p)) = true).
Proof.
  intros Hs. unfold resolve_route_kind. destruct (route_policy_name s) as [n|] eqn:En.
  - destruct (sound_route _ _ _ Hs n En) as (p & E). rewrite E. exists (Some (rp_kind p)). split; [done|].
    split; [intros; exists n, p; done|]. intros (m & q & [= <-] & ? & ?). congruence.
  - exists None. split; [done|]. split; [done|]. by intros (? & ? & ? & _).
Qed.

(** A validated configuration is one every listener of which the runtime can
    plan, provided the policies it names are of kinds the runtime knows and a
    read/write splitting service has a primary: exactly then the plan is built,
    with endpoints of the service's protocol only, a translation policy exactly
    when the protocols differ (enabled, and for that direction), and results
    streamed in windows of at least one row. *)
Theorem validated_plan `{TimeRules.Chrono} cedar n1 n2 c l :
  validate_gateway cedar c = Ok tt → l ∈ listeners c →
  ∃ s, named s_name (l_service l) (services c) = Some s ∧
    (supported c l s ↔ ∃ plan, listener_from_config (R := R) dialect_of n1 n2 c l = Ok plan) ∧
    ∀ plan, listener_from_config (R := R) dialect_of n1 n2 c l = Ok plan → plan_sound c l s plan.
Proof.
  intros Hv Hin. destruct (validated_listener _ _ _ Hv Hin) as (s & _ & Hs). exists s.
  split; [apply Hs|]. unfold listener_from_config. rewrite (sound_service _ _ _ Hs).
  destruct (sound_endpoints _ _ _ Hs) as [Hne He].
  destruct (resolve_endpoints_ok c s (s_endpoints s) He) as (eps & -> & Hlen & Hf & Hm).
  destruct (resolve_route_ok c l s Hs) as (kind & -> & Hkind).
  destruct (resolve_translation_ok c l s Hs) as (t & -> & Ht).
  pose proof (build_route_ok n1 n2 kind eps (l_protocol l)) as Hr.
  pose proof (build_plugin_ok c l s Hs) as Hp. pose proof (resolve_auth_ok c l s Hs) as Ha.
  assert (supported c l s ↔
    (∃ r, build_route_policy (R := R) dialect_of n1 n2 kind eps (l_protocol l) = Ok r) ∧
    (∃ o, build_plugin_config c (s_plugin_policies s) = Ok o) ∧
    (∃ a, resolve_auth_user c (auth_policy l) = Ok a)) as ->.
  { rewrite Hr, Hp, Ha, Hkind. split.
    - intros [H1 H2 H3]. split; [|done]. intros (n & p & E1 & E2 & E3).
      destruct (H3 n p E1 E2 E3) as (m & e & ? & ? & ?). exists e. rewrite Hm. eauto.
    - intros (H1 & H2 & H3). split; [done..|]. intros n p E1 E2 E3.
      destruct H1 as (e & (m & ? & ?)%Hm & ?); [eauto|]. eauto. }
  destruct (build_route_policy _ _ _ _ _ _) as [r|]; [|naive_solver].
  destruct (build_plugin_config _ _) as [o|]; [|naive_solver].
  destruct (resolve_auth_user _ _) as [a|]; [|naive_solver].
  split; [naive_solver|]. intros plan [= <-]. split; cbn; [done| |done|apply plan_mode_streams].
  split; [|done]. intros ->. destruct (s_endpoints s); done.
Qed.
End Plans.

(** ** Writes go to a primary *)

(** A command that is not a read-only query. *)
Definition writes (d : DialectParser) (command : GatewayCommand) : bool :=
  match command with
  | Query sql | QueryParams sql _ => negb (is_read_only d sql)
  | _ => true
  end.

(** The transaction states a backend may leave: a read-only query outside a
    transaction opens none. *)
Fixpoint honest (d : DialectParser) (t : TransactionState) (evs : list (GatewayCommand * TransactionState)) : Prop :=
  match evs with
  | [] => True
  | (command, t') :: evs => (t' = Active → t = Active ∨ writes d command = true) ∧ honest d t' evs
  end.

Section Routing.
Context {R : Type} `{LoadBalance.RngLaws R} (dialect_of : ProtocolKind → DialectParser).

(** The commands of a connection with the transaction state after each; the names
    of the endpoints they go to. *)
Fixpoint route_run (evs : list (GatewayCommand * TransactionState)) (p : CoreRoutePolicy R)
    (session : SessionState) : fueled (GatewayResult (list str)) :=
  match evs with
  | [] => Some (Ret (Ok []))
  | (command, t) :: evs =>
      ebind (plan_command command session p) (λ '(r, p),
        match r ≫= λ plan, apply_route_plan plan session with
        | Err e => Some (Ret (Err e))
        | Ok session =>
            ebind (route_run evs p (with_transaction t session)) (λ r,
              Some (Ret (map_ok (cons (default [] (backend_endpoint session))) r)))
        end)
  end.

Definition weighted (l : list EndpointConfig) : Prop :=
  NoDup (map e_name l) ∧ Forall (λ e, 0 <= e_weight e) l ∧ ∃ e, e ∈ l ∧ e_role e = RoleReadWrite ∧ 0 < e_weight e.

(** The state of a read/write splitting policy over [l]. *)
Definition splits (l : list EndpointConfig) (p : CoreRoutePolicy R) : Prop :=
  cr_endpoints p = l ∧
  ∃ reads r, cr_kind p = RReadWrite (LoadBalance.BRandom reads) (LoadBalance.BRandom r) ∧
    (∀ x, x ∈ LoadBalance.rw_items reads → ∃ e, e ∈ l ∧ LoadBalance.name x = e_name e) ∧
    LoadBalance.rw_items r = map load_balance_endpoint (of_role RoleReadWrite l) ∧
    0 < LoadBalance.sum_of_weights r ∧ LoadBalance.rw_n r ≠ 0.

Lemma named_unique (l : list EndpointConfig) e :
  NoDup (map e_name l) → e ∈ l → named e_name (e_name e) l = Some e.
Proof.
  unfold named. induction l as [|x l IH]; [by intros _ ?%not_elem_of_nil|]. cbn [map List.find].
  intros [Hx Hd]%NoDup_cons [->|He]%elem_of_cons; [by rewrite str_eqb_refl|].
  destruct (str_eqb (e_name x) (e_name e)) eqn:E; [|auto]. apply str_eqb_eq in E. exfalso. apply Hx.
  rewrite E. apply list_elem_of_In, in_map. by apply list_elem_of_In.
Qed.

Lemma build_random n l :
  build_balancer (R := R) n LoadBalance.Random l
  = LoadBalance.BRandom (LoadBalance.random_balancer n (map load_balance_endpoint l)).
Proof.
  unfold build_balancer, LoadBalance.random_balancer. cbn [LoadBalance.build_balance].
  generalize (LoadBalance.default_random (R := R) n). induction l as [|e l IH]; intros r; [done|]. cbn. apply IH.
Qed.

Lemma of_role_elem r l e : e ∈ of_role r l ↔ e ∈ l ∧ e_role e = r.
Proof. unfold of_role. by rewrite list_elem_of_In, filter_In, bool_decide_eq_true, <-list_elem_of_In. Qed.

Lemma of_role_nodup r l : NoDup (map e_name l) → NoDup (map e_name (of_role r l)).
Proof.
  induction l as [|e l IH]; [done|]. cbn [map]. intros [He Hd]%NoDup_cons. unfold of_role in *. cbn [List.filter].
  case_bool_decide; [|auto]. cbn [map]. apply NoDup_cons. split; [|auto].
  intros Hin. apply He. apply list_elem_of_In, in_map_iff in Hin as (x & Hx & Hin%filter_In).
  apply list_elem_of_In, in_map_iff. exists x. naive_solver.
Qed.

Lemma loaded_names l : LoadBalance.name <$> map load_balance_endpoint l = map e_name l.
Proof. induction l as [|e l IH]; [done|]. cbn. f_equal. apply IH. Qed.

Lemma total_pos l : Forall (λ e, 0 <= e_weight e) l → (∃ e, e ∈ l ∧ 0 < e_weight e) →
  0 < LoadBalance.total (map load_balance_endpoint l).
Proof.
  intros Hf (e & He & Hw). induction Hf as [|x l Hx Hl IH]; [by apply not_elem_of_nil in He|].
  assert (0 <= LoadBalance.total (map load_balance_endpoint l)) as Hz.
  { clear -Hl. induction Hl; cbn; unfold LoadBalance.total in *; lia. }
  apply elem_of_cons in He as [->|He]; cbn; unfold LoadBalance.total in *; [lia|]. specialize (IH He). lia.
Qed.

Lemma built_splits n1 n2 kind l proto p :
  weighted l → is_read_write_splitting_policy kind = true →
  build_route_policy (R := R) dialect_of n1 n2 kind l proto = Ok p → splits l p ∧ cr_dialect p = dialect_of proto.
Proof.
  intros (Hd & Hw & e & He & Hr & Hp) Hk. unfold build_route_policy, build_read_write. rewrite Hk.
  destruct (of_role RoleReadWrite l) as [|x k] eqn:E; cbn [is_empty map_ok]; [done|]. rewrite <-E.
  intros [= <-]. split; [|done]. split; [done|]. rewrite !build_random. eexists _, _. split; [done|].
  assert (∀ k, NoDup (map e_name k) → LoadBalance.rw_items (LoadBalance.random_balancer (R := R) n1 (map load_balance_endpoint k))
    = map load_balance_endpoint k) as Hi
    by (intros k' Hk'; apply LoadBalance.random_balancer_spec; by rewrite loaded_names).
  destruct (LoadBalance.random_balancer_spec (R := R) n2 (map load_balance_endpoint (of_role RoleReadWrite l)))
    as (-> & -> & ->); [rewrite loaded_names; by apply of_role_nodup|].
  split_and!; [|done| |rewrite length_map, E; simpl; lia].
  - intros y Hy.
    assert (∀ k, NoDup (map e_name k) → (∀ a, a ∈ k → a ∈ l) →
      y ∈ LoadBalance.rw_items (LoadBalance.random_balancer (R := R) n1 (map load_balance_endpoint k)) →
      ∃ e, e ∈ l ∧ LoadBalance.name y = e_name e) as Hsub.
    { intros k' Hk' Hs. rewrite Hi by done. intros (a & <- & Ha)%list_elem_of_In%in_map_iff.
      exists a. split; [|done]. apply Hs. by apply list_elem_of_In. }
    destruct (is_empty (of_role RoleRead l)); eapply Hsub; [..|exact Hy| | |exact Hy];
      try (by apply of_role_nodup); intros a Ha; by apply of_role_elem in Ha as [? _].
  - apply total_pos.
    + apply Forall_forall. intros a [Ha _]%of_role_elem. rewrite Forall_forall in Hw. by apply Hw.
    + exists e. by rewrite of_role_elem.
Qed.

Lemma rw_next_keeps (r : LoadBalance.RandomWeighted R) o r' :
  LoadBalance.rw_next r = (o, r') →
  LoadBalance.rw_items r' = LoadBalance.rw_items r ∧ LoadBalance.sum_of_weights r' = LoadBalance.sum_of_weights r ∧
  LoadBalance.rw_n r' = LoadBalance.rw_n r ∧ (∀ x, o = Some x → x ∈ LoadBalance.rw_items r) ∧
  (0 < LoadBalance.sum_of_weights r → LoadBalance.rw_n r ≠ 0 → LoadBalance.rw_items r ≠ [] → o ≠ None).
Proof.
  unfold LoadBalance.rw_next. destruct (Z.eqb_spec (LoadBalance.rw_n r) 0); [intros [= <- <-]; naive_solver|].
  destruct (Z.leb_spec (LoadBalance.sum_of_weights r) 0); [intros [= <- <-]; split_and!; (done || lia)|].
  destruct (LoadBalance.gen_range _ _) as [v g].
  destruct (LoadBalance.pick _ _) as [x|] eqn:E; intros [= <- <-]; cbn; split_and!; try done.
  - intros y [= <-]. by eapply LoadBalance.pick_elem.
  - intros y Hy. by apply last_Some_elem_of.
  - intros _ _ Hne Hl. by apply last_None in Hl.
Qed.

(** An endpoint of the policy, found by its name. *)
Lemma splits_by_name l p e : weighted l → splits l p → e ∈ l → endpoint_by_name p (e_name e) = Ok e.
Proof.
  intros (Hd & _) [He _] Hin. unfold endpoint_by_name. rewrite He, (named_unique l e) by done. done.
Qed.

Lemma plan_write l p : weighted l → splits l p →
  ∃ e p', plan_for_role TargetReadWrite p = Some (Ret (Ok (endpoint_to_route_plan e), p')) ∧ e ∈ l ∧
    e_role e = RoleReadWrite ∧ splits l p' ∧ cr_dialect p' = cr_dialect p.
Proof.
  intros Hw Hs. pose proof Hs as (He & reads & r & Hk & Hr & Hi & Hsum & Hn).
  unfold plan_for_role, select_from_balancer. rewrite Hk. cbn [LoadBalance.balance_next].
  destruct (LoadBalance.rw_next r) as [o r'] eqn:E. apply rw_next_keeps in E as (Ei & Es & En & Hx & Ho).
  destruct o as [x|]; [|exfalso; apply Ho; [done..| |done]].
  - specialize (Hx x eq_refl). rewrite Hi in Hx. apply list_elem_of_In, in_map_iff in Hx as (e & <- & He').
    apply list_elem_of_In, of_role_elem in He' as [Hin Hrole].
    exists e, (with_kind (RReadWrite (LoadBalance.BRandom reads) (LoadBalance.BRandom r')) p). cbn [ebind].
    change (LoadBalance.name (load_balance_endpoint e)) with (e_name e). rewrite (splits_by_name l p e) by done. cbn [map_ok]. do 3 (split; [done|]). split; [|done].
    split; [done|]. exists reads, r'. rewrite Ei, Es, En. done.
  - rewrite Hi. destruct Hw as (_ & _ & e & Hin & Hrole & _).
    assert (e ∈ of_role RoleReadWrite l) as Hm by (by apply of_role_elem).
    destruct (of_role RoleReadWrite l); [by apply not_elem_of_nil in Hm|done].
Qed.

Lemma plan_read l p : weighted l → splits l p →
  ∃ e p', plan_for_role TargetRead p = Some (Ret (Ok (endpoint_to_route_plan e), p')) ∧ e ∈ l ∧
    splits l p' ∧ cr_dialect p' = cr_dialect p.
Proof.
  intros Hw Hs. pose proof Hs as (He & reads & r & Hk & Hr & Hi & Hsum & Hn).
  unfold plan_for_role, select_from_balancer. rewrite Hk. cbn [LoadBalance.balance_next].
  destruct (LoadBalance.rw_next reads) as [o r'] eqn:E. apply rw_next_keeps in E as (Ei & Es & En & Hx & _).
  assert (splits l (with_kind (RReadWrite (LoadBalance.BRandom r') (LoadBalance.BRandom r)) p)) as Hs'.
  { split; [done|]. exists r', r. rewrite Ei. done. }
  destruct o as [x|]; cbn [ebind].
  - destruct (Hr x) as (e & Hin & Hx'); [by apply Hx|]. rewrite Hx'.
    rewrite (splits_by_name l p e) by done. by eexists e, _.
  - unfold first_endpoint. rewrite He. destruct Hw as (_ & _ & e & Hin & _).
    destruct l as [|x l]; [by apply not_elem_of_nil in Hin|]. eexists x, _. split; [done|]. split; [left|done].
Qed.

(** One command: it has an endpoint; a write a primary; in a transaction the
    endpoint of the session. *)
Lemma plan_command_splits l p command session :
  weighted l → splits l p →
  (transaction_state session = Active → ∃ e, e ∈ l ∧ e_role e = RoleReadWrite ∧ backend_endpoint session = Some (e_name e)) →
  ∃ e p', plan_command command session p = Some (Ret (Ok (endpoint_to_route_plan e), p')) ∧ e ∈ l ∧
    (writes (cr_dialect p) command = true → e_role e = RoleReadWrite) ∧
    (transaction_state session = Active → backend_endpoint session = Some (e_name e) ∧ e_role e = RoleReadWrite) ∧
    splits l p' ∧ cr_dialect p' = cr_dialect p.
Proof.
  intros Hw Hs Ha. pose proof Hs as (He & reads & r & Hk & _). unfold plan_command. rewrite Hk. cbn [is_sticky orb].
  destruct (decide (transaction_state session = Active)) as [E|E].
  { destruct (Ha E) as (e & Hin & Hrole & Hn). rewrite bool_decide_true, Hn by done.
    rewrite (splits_by_name l p e) by done. exists e, p. cbn [map_ok]. done. }
  rewrite bool_decide_false by done. destruct (command_target_role command session (cr_dialect p)) eqn:Er.
  - destruct (plan_read l p Hw Hs) as (e & p' & Hp & Hin & Hs' & Hd). exists e, p'. split_and!; try done.
    intros Hwr. exfalso. unfold command_target_role, writes in *.
    destruct (transaction_state session), command; try done; by destruct (is_read_only _ _).
  - destruct (plan_write l p Hw Hs) as (e & p' & Hp & Hin & Hrole & Hs' & Hd). exists e, p'. done.
Qed.

Lemma route_run_ok l evs p session :
  weighted l → splits l p → honest (cr_dialect p) (transaction_state session) evs →
  (transaction_state session = Active → ∃ e, e ∈ l ∧ e_role e = RoleReadWrite ∧ backend_endpoint session = Some (e_name e)) →
  ∃ names, route_run evs p session = Some (Ret (Ok names)) ∧
    Forall2 (λ '(command, _) n, ∃ e, e ∈ l ∧ n = e_name e ∧
      (writes (cr_dialect p) command = true → e_role e = RoleReadWrite)) evs names ∧
    (transaction_state session = Active → names ≠ [] → head names = backend_endpoint session) ∧
    ∀ i command n, evs !! i = Some (command, Active) → names !! S i = Some n → names !! i = Some n.
Proof.
  intros Hw. revert p session. induction evs as [|[command t] evs IH]; intros p session Hs Hh Ha.
  { exists []. split; [done|]. split; [constructor|]. split; [done|]. done. }
  destruct Hh as [Ht Hh].
  destruct (plan_command_splits l p command session Hw Hs Ha) as (e & p' & Hp & Hin & Hwr & Hact & Hs' & Hd).
  cbn [route_run]. rewrite Hp. cbn [ebind].
  change (Ok (endpoint_to_route_plan e) ≫= λ plan, apply_route_plan plan session)
    with (@Ok GatewayError _ (with_endpoint (Some (e_name e)) session)). cbn iota beta.
  destruct (IH p' (with_transaction t (with_endpoint (Some (e_name e)) session))) as (names & Hr & Hf & Hhd & Hst);
    [done|by rewrite Hd| |].
  { intros Hta. exists e. split; [done|]. split; [|done]. simpl in Hta.
    destruct (Ht Hta) as [Hx|Hx]; [by apply Hact|auto]. }
  rewrite Hr. cbn [ebind map_ok]. exists (e_name e :: names). rewrite Hd in Hf. split; [done|].
  split; [constructor; [by exists e|done]|]. split; [by intros [? _]%Hact _|].
  intros [|i] cmd n; [|apply Hst]. intros [= <- ->] Hn. destruct names as [|m names]; [done|].
  specialize (Hhd eq_refl ltac:(done)). simpl in Hhd, Hn |- *. congruence.
Qed.

(** C35 Read/write splitting: with distinct endpoint names, weights that are not
    negative and a primary of positive weight, every command of a connection is
    given an endpoint of the service, every command that is not a read-only query
    a primary, and a command that is sent while the transaction is active the endpoint of the
    command before it.  The backend reports the transaction state after each command, whatever
    it is, except that it does not report a transaction that a read-only query would have
    opened ([honest]).  (A failed transaction is not active: its [ROLLBACK] may go to another
    endpoint, [failed_transaction_moves].) *)
Theorem writes_to_primary n1 n2 kind l proto p evs session :
  weighted l → is_read_write_splitting_policy kind = true →
  build_route_policy (R := R) dialect_of n1 n2 kind l proto = Ok p →
  transaction_state session = Idle → honest (dialect_of proto) Idle evs →
  ∃ names, route_run evs p session = Some (Ret (Ok names)) ∧
    Forall2 (λ '(command, _) n, ∃ e, e ∈ l ∧ n = e_name e ∧
      (writes (dialect_of proto) command = true → e_role e = RoleReadWrite)) evs names ∧
    ∀ i command n, evs !! i = Some (command, Active) → names !! S i = Some n → names !! i = Some n.
Proof.
  intros Hw Hk Hb Hi Hh. destruct (built_splits _ _ _ _ _ _ Hw Hk Hb) as [Hs Hd].
  destruct (route_run_ok l evs p session Hw Hs) as (names & ? & Hf & _ & ?); [by rewrite Hd, Hi|by rewrite Hi|].
  exists names. rewrite Hd in Hf. done.
Qed.
End Routing.

(** ** Concrete runs *)

#[local] Existing Instance LoadBalance.counter_rng.
#[local] Existing Instance LoadBalance.counter_rng_laws.
#[local] Existing Instance TimeRules.toy_chrono.

Definition node (n : string) (r : EndpointRole) (w : Z) : EndpointConfig :=
  mkEndpointConfig ($n) MySql ($"127.0.0.1:3306") None r [] [] w SslDisable None false.
Definition splitting : option str := Some ($"read_write_splitting").
Definition shop_pair : list EndpointConfig := [node "replica" RoleRead 1; node "primary" RoleReadWrite 2].
Definition shop_day : list (GatewayCommand * TransactionState) :=
  [(Query ($"select 1"), Idle); (Begin, Active); (Query ($"select 1"), Active);
   (Query ($"delete from t"), Active); (Commit, Idle)].
Definition routed_names (evs : list (GatewayCommand * TransactionState)) (l : list EndpointConfig)
    (session : SessionState) : fueled (GatewayResult (list str)) :=
  match build_route_policy (R := Z) default_dialect_parser 0 0 splitting l MySql with
  | Ok p => route_run evs p session
  | Err e => Some (Ret (Err e))
  end.

Lemma writes_to_primary_witness :
  routed_names shop_day shop_pair default_session
  = Some (Ret (Ok [$"replica"; $"primary"; $"primary"; $"primary"; $"primary"])) ∧
  ∃ names, routed_names shop_day shop_pair default_session = Some (Ret (Ok names)) ∧
    ∀ i command n, shop_day !! i = Some (command, Active) → names !! S i = Some n → names !! i = Some n.
Proof.
  split; [by vm_compute|].
  assert (is_ok (build_route_policy (R := Z) default_dialect_parser 0 0 splitting shop_pair MySql) = true) as Hok
    by (by vm_compute).
  destruct (build_route_policy (R := Z) default_dialect_parser 0 0 splitting shop_pair MySql) as [p|e] eqn:E;
    [|discriminate Hok].
  destruct (writes_to_primary default_dialect_parser 0 0 splitting shop_pair MySql p shop_day default_session)
    as (names & Hr & _ & Hs).
  - split; [|split].
    + apply (bool_decide_unpack _). by vm_compute.
    + repeat constructor; vm_compute; congruence.
    + exists (node "primary" RoleReadWrite 2). split; [right; left|]. split; [done|]. by vm_compute.
  - by vm_compute.
  - done.
  - done.
  - cbn [honest shop_day]. split_and!; auto; try congruence; intros _; right; by vm_compute.
  - exists names. unfold routed_names. by rewrite E.
Defined.

(** A primary of weight 0 is never drawn, and the fallback is the first endpoint of
    the service: a write goes to a replica. *)
Theorem zero_weight_writes_to_replica :
  routed_names [(Query ($"delete from t"), Idle)]
    [node "replica" RoleRead 1; node "primary" RoleReadWrite 0] default_session
  = Some (Ret (Ok [$"replica"])).
Proof. by vm_compute. Qed.

(** A failed transaction no longer sticks to its endpoint: the [ROLLBACK] of a
    transaction open on [b] goes to [a]. *)
Theorem failed_transaction_moves :
  routed_names [(Rollback, Idle)] [node "a" RoleReadWrite 1; node "b" RoleReadWrite 1]
    (with_transaction Failed (with_endpoint (Some ($"b")) default_session))
  = Some (Ret (Ok [$"a"])).
Proof. by vm_compute. Qed.

Definition shop_listener : ListenerConfig :=
  mkListener ($"public") ($"0.0.0.0:3306") MySql ($"orders") (Some ($"local")).
Definition shop_service : ServiceConfig :=
  mkService ($"orders") MySql [$"replica"; $"primary"] (Some ($"split")) [$"limit"] None.
(** A shop with one plugin rule over [regex]. *)
Definition shop (regex : str) : GatewayConfig :=
  mkGateway [shop_listener] [shop_service] shop_pair [mkRoutePolicy ($"split") ($"read_write_splitting")]
    [mkAuthPolicy ($"local") ($"static") ($"app") ($"secret") []]
    [mkPluginPolicy ($"limit") ($"circuit_break") [regex] false None None] [] Security.default_policy.

Lemma validated_plan_witness :
  ∃ plan, listener_from_config (R := Z) default_dialect_parser 0 0 (shop ($"drop")) shop_listener = Ok plan ∧
    plan_sound (shop ($"drop")) shop_listener shop_service plan.
Proof.
  destruct (validated_plan (R := Z) default_dialect_parser false 0 0 (shop ($"drop")) shop_listener)
    as (s & E & Hb & Hp); [by vm_compute|left|].
  assert (Some s = Some shop_service) as [= ->] by (rewrite <-E; by vm_compute).
  destruct (proj1 Hb) as (plan & Hl); [|exists plan; split; [done|by apply Hp]].
  split.
  - intros n p [= <-] Hn. apply named_some in Hn as [Hin _].
    apply list_elem_of_singleton in Hin as ->. by vm_compute.
  - intros n p [= ->]%list_elem_of_singleton Hn. apply named_some in Hn as [Hin _].
    apply list_elem_of_singleton in Hin as ->. by vm_compute.
  - intros n p _ _ _. exists ($"primary"), (node "primary" RoleReadWrite 2).
    split; [right; left|]. split; [by vm_compute|done].
Defined.

(** Validation does not look at the regular expressions of plugin policies: one
    that does not compile passes, and every connection of the listener panics. *)
Theorem bad_regex_panics (lib : Route.Route.RegexLib) (flags : @RegexFlags lib) regex :
  @regex_build lib flags false regex = None →
  ∃ plan, listener_from_config (R := Z) default_dialect_parser 0 0 (shop regex) shop_listener = Ok plan ∧
    validate_gateway false (shop regex) = Ok tt ∧ @build_connection Z _ lib flags plan = Some Panic.
Proof.
  intros Hr. eexists. split; [|split].
  - reflexivity.
  - reflexivity.
  - match goal with |- @build_connection _ _ _ _ ?plan = _ => set (pl := plan) end.
    assert (@new_phase lib flags (mkPluginConfig None (Some [mkCbConfig [regex] false])) = Panic) as Hp
      by (unfold new_phase, opt_create; cbn; by rewrite Hr).
    assert (∃ e r, select_initial_endpoint (pl_route pl) = Some (Ret (Ok e, r))) as (e & r & Es)
      by (eexists _, _; reflexivity).
    unfold build_connection. rewrite Es. cbn [ebind].
    change (pl_plugins pl) with (Some (mkPluginConfig None (Some [mkCbConfig [regex] false]))). cbn beta iota zeta. by rewrite Hp.
Qed.
