(* ===== verification/Cursor.v ===== *)
(** * Named cursors

    [parse_named_cursor_sql] and the [FETCH] loop of
    [runtime/gateway/src/core_engine.rs]: the simple-query [DECLARE], [FETCH] and
    [CLOSE] that the gateway answers from a row stream it holds.

    The byte offsets of the source are into the trimmed statement and fall on ASCII
    letters, so slicing there never panics. *)

From S2P Require Import Prelude RustStr Model Session Transport Translation.

Inductive NamedCursorSql :=
| CDeclare (name select_sql : str) (with_hold : bool)
| CFetch (name : str) (count : Z)
| CClose (name : str)
| CUnsupported (verb : str).

Record NamedCursorHeld := mkCursor { with_hold : bool; cur_query : StreamingQuery; exhausted : bool }.

Definition find_ascii_keyword (sql keyword : str) (start : nat) : option nat :=
  Nat.add start <$>
    find_keyword_from (match start with O => None | S i => sql !! i end) (drop start sql) keyword.

Definition strip_quotes (s : str) : str := trim_matches dquote s.

Definition declare_modifier (t : str) : bool :=
  one_of [$"BINARY"; $"INSENSITIVE"; $"NO"; $"SCROLL"; $"ASENSITIVE"] (to_ascii_uppercase t).

Definition parse_declare (trimmed upper : str) : option NamedCursorSql :=
  match find_ascii_keyword upper ($"CURSOR") 8 with
  | None => None
  | Some cursor_pos =>
  match find_ascii_keyword upper ($"FOR") (cursor_pos + 6) with
  | None => None
  | Some for_pos =>
      let name_part := trim (take (cursor_pos - 8) (drop 8 trimmed)) in
      match List.find (λ t, negb (declare_modifier t)) (split_whitespace name_part) with
      | None => None
      | Some t =>
          let name := strip_quotes t in
          let select_sql := trim (drop (for_pos + 3) trimmed) in
          if is_empty name || is_empty select_sql then None
          else Some (CDeclare name select_sql
                       (contains (take (for_pos - cursor_pos) (drop cursor_pos upper)) ($" WITH HOLD")))
      end
  end end.

Definition is_from (t : str) : bool := eq_ignore_ascii_case t ($"FROM") || eq_ignore_ascii_case t ($"IN").

(** [\[FORWARD|NEXT\] \[n|ALL\] \[FROM|IN\] name]. *)
Definition parse_fetch_forward (tokens : list str) : option NamedCursorSql :=
  let tokens :=
    match tokens with
    | t :: ts => if eq_ignore_ascii_case t ($"FORWARD") || eq_ignore_ascii_case t ($"NEXT") then ts else tokens
    | [] => []
    end in
  match tokens with
  | [] => None
  | t :: ts =>
      let '(count, tokens) :=
        if eq_ignore_ascii_case t ($"ALL") then (u64_max / 4, ts)
        else match parse_unsigned u64_max t with
             | Some n => (Z.max n 1, ts)
             | None => (1, tokens)
             end in
      let tokens := match tokens with t :: ts => if is_from t then ts else tokens | [] => [] end in
      match tokens with
      | [] => None
      | t :: _ => if is_empty (strip_quotes t) then None else Some (CFetch (strip_quotes t) count)
      end
  end.

Definition parse_fetch (tokens : list str) : option NamedCursorSql :=
  match tokens with
  | [] => None
  | t :: ts =>
      let first := to_ascii_uppercase t in
      if one_of [$"ABSOLUTE"; $"RELATIVE"; $"BACKWARD"; $"PRIOR"; $"FIRST"; $"LAST"] first
      then Some (CUnsupported ($"FETCH " ++ first))
      else if str_eqb first ($"NEXT") && negb (match ts with t2 :: _ => is_from t2 | [] => false end)
      then Some (CUnsupported ($"FETCH NEXT (unsupported form)"))
      else parse_fetch_forward tokens
  end.

Definition parse_named_cursor_sql (sql : str) : option NamedCursorSql :=
  let trimmed := trim (trim_end_matches (Ascii.eqb ";") (trim sql)) in
  let upper := to_ascii_uppercase trimmed in
  if starts_with upper ($"DECLARE ") then parse_declare trimmed upper
  else if starts_with upper ($"MOVE ") then Some (CUnsupported ($"MOVE"))
  else if starts_with upper ($"FETCH ") then parse_fetch (split_whitespace (trim (drop 6 trimmed)))
  else if starts_with upper ($"CLOSE ") then
    let name := strip_quotes (trim (drop 6 trimmed)) in
    if is_empty name then None else Some (CClose name)
  else None.

(** ** The [FETCH] loop *)

(** [while remaining > 0 && !held.exhausted]: the rows fetched, and the cursor.  A
    poll that returns rows uses one up, so the polls left plus one are fuel enough;
    [None] is fuel exhaustion. *)
Fixpoint fetch_loop (fuel : nat) (remaining : Z) (s : RowStream) (exhausted : bool) (rows : list Row)
    : option (GatewayResult (list Row * RowStream * bool)) :=
  if (remaining <=? 0) || exhausted then Some (Ok (rows, s, exhausted))
  else
    match fuel with
    | O => None
    | S fuel =>
        match poll_window (Z.min remaining 256) s with
        | (Err e, _) => Some (Err e)
        | (Ok (Some (r :: chunk)), s) =>
            let chunk := r :: chunk in
            if remaining <? Z.of_nat (length chunk) then
              let n := Z.to_nat remaining in
              fetch_loop fuel 0 (new_prefixed (drop n chunk) s) exhausted (rows ++ take n chunk)
            else fetch_loop fuel (remaining - Z.of_nat (length chunk)) s exhausted (rows ++ chunk)
        | (Ok _, s) => fetch_loop fuel remaining s true rows
        end
    end.

Definition fetch (count : Z) (held : NamedCursorHeld) : option (GatewayResult (list Row * NamedCursorHeld)) :=
  match fetch_loop (S (S (polls_left (q_stream (cur_query held))))) count (q_stream (cur_query held))
          (exhausted held) [] with
  | None => None
  | Some (Err e) => Some (Err e)
  | Some (Ok (rows, s, x)) =>
      Some (Ok (rows, mkCursor (with_hold held) (mkStreaming (q_columns (cur_query held)) s) x))
  end.

Lemma poll_window_clean n s : clean s →
  (∃ r chunk s', poll_window n s = (Ok (Some (r :: chunk)), s') ∧ content s = r :: chunk ++ content s' ∧
     clean s' ∧ (polls_left s' < polls_left s)%nat) ∨
  (∃ s', poll_window n s = (Ok None, s') ∧ content s = [] ∧ content s' = [] ∧ clean s').
Proof.
  intros [(chunk & s' & E & Hn & Hc & Hs & Hp)|(s' & E & ? & ? & ? & _)]%(poll_clean n); [|right; eauto].
  left. destruct chunk as [|r chunk]; [done|]. by exists r, chunk, s'.
Qed.

Lemma fetch_loop_spec fuel remaining s rows :
  clean s → (polls_left s + 2 ≤ fuel)%nat → 0 ≤ remaining →
  ∃ s' x, fetch_loop fuel remaining s false rows
          = Some (Ok (rows ++ take (Z.to_nat remaining) (content s), s', x)) ∧
    content s' = drop (Z.to_nat remaining) (content s) ∧ clean s' ∧ (x = true → content s' = []).
Proof.
  revert remaining s rows. induction fuel as [|fuel IH]; intros remaining s rows Hc Hf Hr; [lia|]. cbn [fetch_loop].
  destruct (Z.leb_spec remaining 0) as [H0|H0].
  { replace (Z.to_nat remaining) with 0%nat by lia. cbn [orb take drop]. rewrite app_nil_r. by exists s, false. }
  cbn [orb]. destruct (poll_window_clean (Z.min remaining 256) s Hc)
    as [(r & chunk & s' & -> & Hct & Hc' & Hp)|(s' & -> & H1 & H2 & H3)].
  2:{ exists s', true. destruct fuel as [|fuel]; [lia|]. cbn [fetch_loop]. rewrite orb_true_r, H1, H2.
      rewrite take_nil, drop_nil, app_nil_r. done. }
  change (r :: chunk ++ content s') with ((r :: chunk) ++ content s') in Hct.
  generalize dependent (r :: chunk). intros ch Hct. cbn zeta. rewrite Hct.
  destruct (Z.ltb_spec remaining (Z.of_nat (length ch))) as [Hl|Hl].
  - exists (new_prefixed (drop (Z.to_nat remaining) ch) s'), false.
    assert (drop (Z.to_nat remaining) ch ≠ []) as Hd.
    { intros Hz. apply (f_equal length) in Hz. rewrite length_drop in Hz. simpl in Hz. lia. }
    destruct fuel as [|fuel]; [lia|]. cbn [fetch_loop Z.leb orb].
    rewrite take_app_le, drop_app_le by lia. split; [done|]. unfold new_prefixed.
    rewrite (proj2 (is_empty_false _) Hd). split; [done|]. split; [|done]. split; [by intros ? [= <-]|done].
  - destruct (IH (remaining - Z.of_nat (length ch)) s' (rows ++ ch) Hc' ltac:(lia) ltac:(lia))
      as (s'' & x & -> & Hs & Hc2 & Hx). exists s'', x.
    rewrite take_app_ge, drop_app_ge by lia. rewrite <-app_assoc.
    replace (Z.to_nat (remaining - Z.of_nat (length ch))) with (Z.to_nat remaining - length ch)%nat in * by lia.
    done.
Qed.

(** A cursor over a clean stream: [FETCH n] returns the next [n] rows, and leaves
    the rest, whatever the sizes of the backend's windows. *)
Lemma fetch_pages count held :
  clean (q_stream (cur_query held)) → 0 ≤ count → exhausted held = false →
  ∃ held', fetch count held = Some (Ok (take (Z.to_nat count) (content (q_stream (cur_query held))), held')) ∧
    content (q_stream (cur_query held')) = drop (Z.to_nat count) (content (q_stream (cur_query held))) ∧
    clean (q_stream (cur_query held')) ∧ q_columns (cur_query held') = q_columns (cur_query held) ∧
    (exhausted held' = true → content (q_stream (cur_query held')) = []).
Proof.
  intros Hc Hn Hx. unfold fetch. rewrite Hx.
  destruct (fetch_loop_spec (S (S (polls_left (q_stream (cur_query held))))) count (q_stream (cur_query held)) [])
    as (s' & x & -> & ? & ? & ?); [done|lia|done|]. eexists. by split.
Qed.
