(* ===== verification/Engine.v ===== *)
(** * The connection engine

    [runtime/gateway/src/core_engine.rs]: [CoreGatewayConnection], which takes the
    commands of one frontend frame through the gates in order (dangerous SQL,
    routing, named cursors, plugins, translation, the policy decision point),
    executes them and encodes the response.

    One definition per stage, composed in [handle_command]; the loop body's
    [continue] is [Done], an error that leaves the frame an [Err].  The state [Conn]
    holds what the connection changes: frontend and writer, backend, session, route
    policy, plugins, deferred obligations, held streams, the ticket store and the
    events passed to [try_audit], in order.  The backend is a class; object
    extraction ([object_extract.rs]) and the readings of clocks and policy snapshots
    are arguments.  Tracing and metrics are left out. *)

From S2P Require Import Prelude RustStr Model Session DangerousSql TimeRules Ticket Obligations ObjectSet Pdp Authorize LoadBalance Route Plugin AuditEvents Transport Translation GatewayConfig RuntimePlan Cursor PdpStore.

Abbreviation Obl := Obligations.Obligations.

Class BackendConnector (B : Type) := {
  be_protocol : B → ProtocolKind;
  check_session_health : B → GatewayResult unit * B;
  execute_outcome : GatewayCommand → SessionState → ExecuteMode → B →
    GatewayResult ExecuteOutcome * SessionState * B
}.

(** What a connection is configured with. *)
Record ConnConfig := mkConnConfig {
  listener_name : str;
  service_name : str;
  translation_policy : option TranslationPolicyConfig;
  frontend_dialect : DialectParser;
  secured : bool;
  cn_audit_level : str;
  audit_sample_enabled : bool;
  audit_sample_max_rows : Z;
  audit_sample_max_bytes : Z;
  stream_mode : ExecuteMode;
  passthrough_enabled : bool
}.

(** What one command reads: the clock of the plugins, the policy snapshots and
    clocks of the decision point, the latency. *)
Record CommandReadings := mkCommandReadings {
  plugin_now : Z;
  snapshots : Authorize.Snapshots;
  auth_readings : Authorize.Readings;
  latency_ms : Z
}.

(** The next stage, or [continue]. *)
Inductive flow (A : Type) := Go (a : A) | Done.
Arguments Go {A}.
Arguments Done {A}.

(** ** Labels *)

Definition protocol_metric_name (p : ProtocolKind) : str :=
  match p with MySql => $"mysql" | PostgreSql => $"postgresql" end.

Definition command_metric_type (c : GatewayCommand) : str :=
  match c with
  | Query _ => $"QUERY"
  | QueryParams _ _ => $"QUERY_PARAMS"
  | Prepare _ => $"PREPARE"
  | Execute _ _ => $"EXECUTE"
  | CloseStatement _ => $"CLOSE"
  | DescribeSql _ => $"DESCRIBE_SQL"
  | ClientWire _ => $"CLIENT_WIRE"
  | PgBackendSync => $"PG_BACKEND_SYNC"
  | UseDatabase _ => $"USE"
  | Begin => $"BEGIN"
  | Commit => $"COMMIT"
  | Rollback => $"ROLLBACK"
  | Ping => $"PING"
  | Quit => $"QUIT"
  end.

Definition route_endpoint_label (plan : option RoutePlan) (session : SessionState) : str :=
  match plan ≫= as_single_endpoint with
  | Some e => ref_address e
  | None => default [] (backend_endpoint session)
  end.

Definition command_sql (c : GatewayCommand) : option str :=
  match c with
  | Query sql | QueryParams sql _ | Prepare sql | DescribeSql sql => Some sql
  | _ => None
  end.

Definition dangerous_command_capability (c : GatewayCommand) (d : ProtocolKind)
    : option DangerousSql.UnsupportedSqlCapability :=
  command_sql c ≫= λ sql, DangerousSql.classify_dangerous_sql sql d.

Section Engine.
Context {F Wr B W R : Type} `{FrontendProtocolAdapter F} `{ResponseWriter Wr} `{BackendConnector B}.
Context `{Authorize.TicketGate W} `{Pdp.RemoteIO} `{TimeRules.Chrono} `{LoadBalance.Rng R} `{RegexFlags}.
Context (f64_to_string : Z → str) (f64_is_finite : Z → bool)
  (sample_json : list str → list (list JsonValue) → bool → str)
  (extract_object_set : str → str → ObjectSet.ObjectSet).

Record Conn := mkConn {
  c_frontend : F;
  c_writer : Wr;
  c_backend : B;
  c_session : SessionState;
  c_route : option (CoreRoutePolicy R);
  c_plugins : option PluginPhase;
  c_pending : option Obl;
  c_held : option StreamingQuery;
  c_cursors : gmap str NamedCursorHeld;
  c_tickets : W;
  c_audit : list AuditEvent
}.

(** *** Assignments *)

Definition set_io (f : F) (w : Wr) (c : Conn) : Conn :=
  mkConn f w (c_backend c) (c_session c) (c_route c) (c_plugins c) (c_pending c) (c_held c) (c_cursors c)
    (c_tickets c) (c_audit c).
Definition set_backend (b : B) (s : SessionState) (c : Conn) : Conn :=
  mkConn (c_frontend c) (c_writer c) b s (c_route c) (c_plugins c) (c_pending c) (c_held c) (c_cursors c)
    (c_tickets c) (c_audit c).
Definition set_session (s : SessionState) (c : Conn) : Conn := set_backend (c_backend c) s c.
Definition set_route (r : option (CoreRoutePolicy R)) (c : Conn) : Conn :=
  mkConn (c_frontend c) (c_writer c) (c_backend c) (c_session c) r (c_plugins c) (c_pending c) (c_held c)
    (c_cursors c) (c_tickets c) (c_audit c).
Definition set_plugins (p : option PluginPhase) (c : Conn) : Conn :=
  mkConn (c_frontend c) (c_writer c) (c_backend c) (c_session c) (c_route c) p (c_pending c) (c_held c)
    (c_cursors c) (c_tickets c) (c_audit c).
Definition set_pending (o : option Obl) (c : Conn) : Conn :=
  mkConn (c_frontend c) (c_writer c) (c_backend c) (c_session c) (c_route c) (c_plugins c) o (c_held c)
    (c_cursors c) (c_tickets c) (c_audit c).
Definition set_held (q : option StreamingQuery) (c : Conn) : Conn :=
  mkConn (c_frontend c) (c_writer c) (c_backend c) (c_session c) (c_route c) (c_plugins c) (c_pending c) q
    (c_cursors c) (c_tickets c) (c_audit c).
Definition set_cursors (m : gmap str NamedCursorHeld) (c : Conn) : Conn :=
  mkConn (c_frontend c) (c_writer c) (c_backend c) (c_session c) (c_route c) (c_plugins c) (c_pending c) (c_held c)
    m (c_tickets c) (c_audit c).
Definition set_tickets (w : W) (c : Conn) : Conn :=
  mkConn (c_frontend c) (c_writer c) (c_backend c) (c_session c) (c_route c) (c_plugins c) (c_pending c) (c_held c)
    (c_cursors c) w (c_audit c).
Definition log_event (e : AuditEvent) (c : Conn) : Conn :=
  mkConn (c_frontend c) (c_writer c) (c_backend c) (c_session c) (c_route c) (c_plugins c) (c_pending c) (c_held c)
    (c_cursors c) (c_tickets c) (c_audit c ++ [e]).

(** *** The monad: [None] is a loop that has not ended, [Panic] a panic *)

Definition M (A : Type) : Type := Conn → fueled (GatewayResult A * Conn).
Definition ret {A} (a : A) : M A := λ c, Some (Ret (Ok a, c)).
Definition fail {A} (e : GatewayError) : M A := λ c, Some (Ret (Err e, c)).
Definition bind {A A'} (m : M A) (k : A → M A') : M A' := λ c,
  match m c with
  | Some (Ret (Ok a, c)) => k a c
  | Some (Ret (Err e, c)) => Some (Ret (Err e, c))
  | Some Panic => Some Panic
  | None => None
  end.
Notation "x ⇐ m ; k" := (bind m (λ x, k)) (at level 20, m at level 100, k at level 200, right associativity).
Notation "' x ⇐ m ; k" := (bind m (λ 'x, k)) (at level 20, x pattern, m at level 100, k at level 200, right associativity).

Definition gets {A} (f : Conn → A) : M A := λ c, Some (Ret (Ok (f c), c)).
Definition modify (f : Conn → Conn) : M unit := λ c, Some (Ret (Ok tt, f c)).
Definition modify_session (f : SessionState → SessionState) : M unit := modify (λ c, set_session (f (c_session c)) c).
Definition lift {A} (e : exec A) : M A := λ c,
  match e with Ret a => Some (Ret (Ok a, c)) | Panic => Some Panic end.
Definition of_result {A} (r : GatewayResult A) : M A := λ c, Some (Ret (r, c)).
Definition run_io {A} (m : io A) : M A := λ c,
  let '(r, (f, w)) := m (c_frontend c, c_writer c) in Some (Ret (r, set_io f w c)).
Definition try_audit (e : AuditEvent) : M unit := modify (log_event e).

(** [match m { Err(e) => ..., Ok(a) => ... }]. *)
Definition attempt {A} (m : M A) : M (GatewayResult A) := λ c,
  match m c with
  | Some (Ret (r, c)) => Some (Ret (Ok r, c))
  | Some Panic => Some Panic
  | None => None
  end.

Definition frontend_protocol : M ProtocolKind := gets (λ c, fe_protocol (c_frontend c)).
Definition backend_protocol_of : M ProtocolKind := gets (λ c, be_protocol (c_backend c)).
Definition session : M SessionState := gets c_session.

(** ** Encoding a response *)

(** [frontend.encode(response)?], then [writer.write_packets(packets)]: the result
    of the write is kept for after the reset of the binary flag. *)
Definition encode_then_write (response : GatewayResponse) : M (GatewayResult unit) :=
  s ⇐ session;
  packets ⇐ run_io (λ '(f, w), let '(r, f) := fe_encode response s f in (r, (f, w)));
  attempt (run_io (raw_write packets)).

Definition result_window (cfg : ConnConfig) (has_obl : bool) : Z :=
  let cross := negb (is_none (translation_policy cfg)) in
  Z.max 1 (match mode_window_rows (stream_mode cfg) with
           | Some w => w
           | None => if cross || has_obl then 256 else u64_max
           end).

Definition is_streaming (m : ExecuteMode) : bool := match m with Streaming _ _ => true | _ => false end.

Definition encode_response_to_writer (cfg : ConnConfig) (response : GatewayResponse) : M unit :=
  deferred ⇐ gets c_pending;
  _ ⇐ modify (set_pending None);
  let has_obl := match deferred with Some o => Obligations.has_result_obligations o | None => false end in
  let apply r := match deferred with
                 | Some o => Obligations.apply_obligations_to_response f64_to_string r o
                 | None => r end in
  result ⇐ match response with
           | ResultSet columns rows =>
               if negb (is_none (translation_policy cfg)) || has_obl || is_streaming (stream_mode cfg) then
                 s ⇐ session;
                 _ ⇐ run_io (write_resultset_windowed_with_obligations f64_to_string s columns rows
                               (result_window cfg has_obl) deferred);
                 ret (Ok tt)
               else encode_then_write (apply response)
           | Wire packets => attempt (run_io (raw_write packets))
           | other => encode_then_write (apply other)
           end;
  _ ⇐ modify_session (with_binary false);
  of_result result.

(** ** Audit events *)

(** The fields every event of the engine fills in the same way. *)
Definition engine_event (cfg : ConnConfig) (s : SessionState) (fe be : ProtocolKind) (decision : AuditDecision)
    (subject : option str) (ctype : str) (endpoint outcome : option str) (latency : option Z)
    (code message rule fp sql : option str) (tables : list str) (sample : option (str * Z * Z * bool)) : AuditEvent :=
  mkEvent None None (Some (audit_action_as_str AQuery)) (Some (audit_decision_as_str decision)) subject (user s) None
    (Some (listener_name cfg)) (Some (service_name cfg)) (Some (protocol_metric_name fe))
    (Some (protocol_metric_name be)) (Some ctype) endpoint (database s) outcome latency code message None None
    (Some (cn_audit_level cfg)) fp sql rule tables
    ((λ x, x.1.1.1) <$> sample) None ((λ x, x.1.1.2) <$> sample) ((λ x, x.1.2) <$> sample)
    (match sample with Some x => x.2 | None => false end).

Definition emit (cfg : ConnConfig) (decision : AuditDecision) (subject : option str) (ctype : str)
    (endpoint outcome : option str) (latency : option Z) (code message rule sql : option str) (tables : list str)
    (sample : option (str * Z * Z * bool)) : M unit :=
  s ⇐ session;
  fe ⇐ frontend_protocol;
  be ⇐ backend_protocol_of;
  fp ⇐ match sql with Some t => f ⇐ lift (Ticket.sql_fingerprint t); ret (Some f) | None => ret None end;
  try_audit (engine_event cfg s fe be decision subject ctype endpoint outcome latency code message rule fp sql
               tables sample).

(** The state of a PostgreSQL extended unit after a refusal. *)
Definition fail_extended (s : SessionState) : SessionState :=
  fail_transaction (with_extended (pg_extended_query s) true s).

Definition refuse_extended : M unit :=
  fe ⇐ frontend_protocol;
  modify_session (λ s, if protocol_eqb fe PostgreSql && pg_extended_query s then fail_extended s else s).

Definition reject_unsupported_capability (cfg : ConnConfig) (cap : DangerousSql.UnsupportedSqlCapability) (ctype : str)
    : M unit :=
  let name := DangerousSql.as_str cap in
  _ ⇐ refuse_extended;
  s ⇐ session;
  _ ⇐ emit cfg DReject (user s) ctype None (Some ($"unsupported_operation")) None
        (Some ($"unsupported_operation")) (Some name) (Some name) None [] None;
  encode_response_to_writer cfg (RError ($"0A000") ($"unsupported capability: " ++ name)).

(** ** Named cursors *)

Definition cursor_missing (name : str) : GatewayResponse :=
  RError ($"34000") ($"cursor " ++ [dquote] ++ name ++ [dquote] ++ $" does not exist (process-local; not SQL WITH HOLD)").

Definition hold_cursor (cfg : ConnConfig) (name : str) (hold : bool) (query : StreamingQuery) : M unit :=
  _ ⇐ modify (λ c, set_cursors (<[name := mkCursor hold query false]> (c_cursors c)) c);
  encode_response_to_writer cfg (CommandComplete ($"DECLARE CURSOR")).

(** [self.backend.execute_outcome(command, &mut self.session, mode)]. *)
Definition backend_execute (command : GatewayCommand) (mode : ExecuteMode) : M ExecuteOutcome := λ c,
  let '(r, s, b) := execute_outcome command (c_session c) mode (c_backend c) in
  Some (Ret (r, set_backend b s c)).

Definition backend_health : M unit := λ c,
  let '(r, b) := check_session_health (c_backend c) in Some (Ret (r, set_backend b (c_session c) c)).

Definition declare_cursor (cfg : ConnConfig) (name select_sql : str) (hold : bool) : M unit :=
  known ⇐ gets (λ c, c_cursors c !! name);
  match known with
  | Some _ =>
      _ ⇐ modify_session fail_transaction;
      encode_response_to_writer cfg
        (RError ($"42P03") ($"cursor " ++ [dquote] ++ name ++ [dquote] ++ $" already exists (process-local; not SQL WITH HOLD)"))
  | None =>
      let window := Z.max 1 (default 256 (mode_window_rows (stream_mode cfg))) in
      outcome ⇐ backend_execute (Query select_sql) (from_streaming_config window None);
      match outcome with
      | OStreaming query => hold_cursor cfg name hold query
      | OComplete (ResultSet columns rows) => hold_cursor cfg name hold (mkStreaming columns (VecRowStream rows))
      | OComplete other => encode_response_to_writer cfg other
      | OWireRelay _ =>
          encode_response_to_writer cfg
            (RError ($"0A000") ($"DECLARE cursor cannot use wire passthrough (process-local hold only)"))
      end
  end.

Definition fetch_cursor (cfg : ConnConfig) (name : str) (count : Z) : M unit :=
  held ⇐ gets (λ c, c_cursors c !! name);
  match held with
  | None =>
      _ ⇐ modify_session fail_transaction;
      encode_response_to_writer cfg (cursor_missing name)
  | Some held =>
      _ ⇐ modify (λ c, set_cursors (delete name (c_cursors c)) c);
      health ⇐ attempt backend_health;
      match health with
      | Err e =>
          _ ⇐ modify_session (with_transaction Failed);
          encode_response_to_writer cfg
            (RError ($"08006") ($"cursor backend connection failed: " ++ PdpStore.error_to_string e))
      | Ok _ =>
          '(rows, held) ⇐ (λ c, match fetch count held with
                                | None => None
                                | Some r => Some (Ret (r, c))
                                end);
          _ ⇐ modify (λ c, set_cursors (<[name := held]> (c_cursors c)) c);
          encode_response_to_writer cfg
            (TaggedResultSet (q_columns (cur_query held)) rows ($"FETCH " ++ dec (Z.of_nat (length rows))))
      end
  end.

Definition close_cursor (cfg : ConnConfig) (name : str) : M unit :=
  held ⇐ gets (λ c, c_cursors c !! name);
  match held with
  | None =>
      _ ⇐ modify_session fail_transaction;
      encode_response_to_writer cfg (cursor_missing name)
  | Some _ =>
      _ ⇐ modify (λ c, set_cursors (delete name (c_cursors c)) c);
      encode_response_to_writer cfg (CommandComplete ($"CLOSE CURSOR"))
  end.

Definition handle_named_cursor_sql (cfg : ConnConfig) (kind : NamedCursorSql) : M unit :=
  match kind with
  | CDeclare name select_sql hold => declare_cursor cfg name select_sql hold
  | CFetch name count => fetch_cursor cfg name count
  | CClose name => close_cursor cfg name
  | CUnsupported verb =>
      encode_response_to_writer cfg
        (RError ($"0A000") (verb ++ $" is not supported on process-local cursors (forward FETCH only; not backend SQL cursor)"))
  end.

Definition drop_non_hold_named_cursors (c : Conn) : Conn :=
  set_cursors (filter (λ kv, with_hold kv.2 = true) (c_cursors c)) c.

Definition drop_all_named_cursors (c : Conn) : Conn := set_cursors ∅ c.

(** ** The gates *)

Definition route_command (command : GatewayCommand) : M (option RoutePlan) :=
  route ⇐ gets c_route;
  match route with
  | None => ret None
  | Some p =>
      s ⇐ session;
      plan ⇐ (λ c, match plan_command command s p with
                   | Some (Ret (r, p)) => Some (Ret (r, set_route (Some p) c))
                   | Some Panic => Some Panic
                   | None => None
                   end);
      s ⇐ of_result (apply_route_plan plan s);
      _ ⇐ modify (set_session s);
      ret (Some plan)
  end.

(** The plugins: the command, perhaps rewritten, and the permit it holds. *)
Definition run_plugins (cfg : ConnConfig) (rd : CommandReadings) (command : GatewayCommand) (plan : option RoutePlan)
    : M (flow (GatewayCommand * option nat)) :=
  plugins ⇐ gets c_plugins;
  match plugins with
  | None => ret (Go (command, None))
  | Some p =>
      fe ⇐ frontend_protocol;
      s ⇐ session;
      let ctx := mkPluginContext (service_name cfg) fe (user s) (database s) (from_command command) plan in
      let '(decision, p) := plugin_evaluate (plugin_now rd) ctx p in
      _ ⇐ modify (set_plugins (Some p));
      match decision with
      | PContinue idx => ret (Go (command, idx))
      | PReject code message =>
          _ ⇐ encode_response_to_writer cfg (RError code message);
          ret Done
      | PRewrite sql => ret (Go (default command (rewritten_sql (from_command command) sql), None))
      end
  end.

Definition run_translation (cfg : ConnConfig) (command : GatewayCommand) : M (flow GatewayCommand) :=
  match translation_policy cfg with
  | None => ret (Go command)
  | Some policy =>
      r ⇐ lift (prepare_cross_protocol_command policy command (frontend_dialect cfg));
      match r with
      | Ok command => ret (Go command)
      | Err e =>
          _ ⇐ refuse_extended;
          _ ⇐ encode_response_to_writer cfg (RError ($"translation_error") (PdpStore.error_to_string e));
          ret Done
      end
  end.

(** [if let (Some(plugins), Some(idx)) = ... { plugins.release_concurrency(idx) }]. *)
Definition release_permit (idx : option nat) : M unit :=
  plugins ⇐ gets c_plugins;
  match plugins, idx with
  | Some p, Some i => p ⇐ lift (release_concurrency i p); modify (set_plugins (Some p))
  | _, _ => ret tt
  end.

Definition audit_objects (fe : ProtocolKind) (command : GatewayCommand) : option str * list str :=
  match command_sql command with
  | Some sql =>
      (Some sql, map ObjectSet.table (ObjectSet.objects (extract_object_set sql (ProtocolKind_as_str fe))))
  | None => (None, [])
  end.

(** A decision that refuses: the event, the error response, the permit back. *)
Definition refuse (cfg : ConnConfig) (decision : AuditDecision) (subject ctype endpoint outcome code message rule : str)
    (sql : option str) (tables : list str) (idx : option nat) : M unit :=
  _ ⇐ emit cfg decision (Some subject) ctype (Some endpoint) (Some outcome) None (Some code) (Some message) (Some rule)
        sql tables None;
  _ ⇐ encode_response_to_writer cfg (RError code message);
  release_permit idx.

Definition set_sql (sql : str) (command : GatewayCommand) : GatewayCommand :=
  match command with
  | Query _ => Query sql
  | QueryParams _ ps => QueryParams sql ps
  | Prepare _ => Prepare sql
  | other => other
  end.

(** The decision point: the command, perhaps rewritten, and its obligations. *)
Definition run_security (cfg : ConnConfig) (rd : CommandReadings) (ctype endpoint : str) (command : GatewayCommand)
    (sql : option str) (tables : list str) (idx : option nat) : M (flow (GatewayCommand * Obl)) :=
  if negb (secured cfg) then ret (Go (command, Obligations.default_obligations))
  else
    s ⇐ session;
    fe ⇐ frontend_protocol;
    let subject := Pdp.from_protocol_user (user s) (database s) in
    let objects := (λ q, extract_object_set q (ProtocolKind_as_str fe)) <$> command_sql command in
    w ⇐ gets c_tickets;
    '(decision, w) ⇐ lift (Authorize.authorize_command_with_objects (snapshots rd) (auth_readings rd) subject
                             (service_name cfg) command (frontend_dialect cfg) objects w);
    _ ⇐ modify (set_tickets w);
    match decision with
    | Pdp.Allow o => ret (Go (command, o))
    | Pdp.AllowRewrite t o => ret (Go (set_sql t command, o))
    | Pdp.RequireTicket rule _ message =>
        _ ⇐ refuse cfg DRequireApproval (Pdp.subject_id subject) ctype endpoint ($"require_ticket")
              ($"security_require_ticket") message rule sql tables idx;
        ret Done
    | Pdp.Deny rule message =>
        _ ⇐ refuse cfg DDeny (Pdp.subject_id subject) ctype endpoint ($"security_deny") ($"security_deny")
              message rule sql tables idx;
        ret Done
    end.

(** ** Execution *)

Definition is_row_command (c : GatewayCommand) : bool :=
  match c with Query _ | QueryParams _ _ | Execute _ _ => true | _ => false end.

Definition want_passthrough (cfg : ConnConfig) (same_protocol : bool) (o : Obl) (command : GatewayCommand) : bool :=
  passthrough_enabled cfg && same_protocol && negb (Obligations.has_result_obligations o)
  && (is_row_command command || match command with PgBackendSync => true | _ => false end)
  && is_none (translation_policy cfg).

Definition min_cap (a b : option Z) : option Z :=
  match a, b with
  | Some a, Some b => Some (Z.min a b)
  | None, Some b => Some b
  | Some a, None => Some a
  | None, None => None
  end.

Definition select_mode (cfg : ConnConfig) (same_protocol : bool) (o : Obl) (command : GatewayCommand) : ExecuteMode :=
  if want_passthrough cfg same_protocol o command then Passthrough
  else if negb (is_none (translation_policy cfg)) || Obligations.has_result_obligations o then
    match stream_mode cfg with
    | Streaming _ _ => stream_mode cfg
    | _ => from_streaming_config 256 (Obligations.max_rows o)
    end
  else
    match stream_mode cfg with
    | Streaming w m => Streaming w (min_cap m (Obligations.max_rows o))
    | Materialized =>
        if is_row_command command then from_streaming_config 256 (Obligations.max_rows o) else Materialized
    | Passthrough => Passthrough
    end.

Definition resumes (held : option StreamingQuery) (s : SessionState) (command : GatewayCommand) : bool :=
  negb (is_none held) && negb (is_none (pg_portal_name s)) && negb (is_none (pg_execute_max_rows s))
  && pg_extended_query s && is_row_command command.

(** The held portal resumed, or the backend. *)
Definition run_command (command : GatewayCommand) (mode : ExecuteMode) : M ExecuteOutcome :=
  _ ⇐ modify (λ c, let s := c_session c in
         if pg_drop_portal_hold s
         then set_session (with_portal (pg_portal_name s) (pg_portal_skip_rows s) false s) (set_held None c) else c);
  held ⇐ gets c_held;
  s ⇐ session;
  match held with
  | Some q =>
      _ ⇐ modify (set_held None);
      if resumes held s command then ret (OStreaming q) else backend_execute command mode
  | None => backend_execute command mode
  end.

Definition ready_state (status : ascii) : TransactionState :=
  if Ascii.eqb status "T" then Active else if Ascii.eqb status "E" then Failed else Idle.

(** [ExecuteOutcome::WireRelay]. *)
Definition relay_outcome (cfg : ConnConfig) (rd : CommandReadings) (ctype endpoint : str) (sql : option str)
    (tables : list str) (idx : option nat) (relay : WireRelay) : M unit :=
  let sync := str_eqb ctype ($"PG_BACKEND_SYNC") in
  s ⇐ session;
  wire ⇐ run_io (write_wire_relay_observed relay (pg_extended_query s && negb sync));
  _ ⇐ modify_session (λ s, if error_response wire && pg_extended_query s then fail_extended s else s);
  _ ⇐ modify_session (λ s, match ready_status wire with
                           | Some st => with_transaction (ready_state st) s
                           | None => s end);
  s ⇐ session;
  let extended := negb sync && (str_eqb ctype ($"QUERY_PARAMS") || str_eqb ctype ($"EXECUTE")
                                || (str_eqb ctype ($"QUERY") && pg_extended_query s)) in
  let reframed := extended && negb (is_empty (pg_client_extended_frames s)) in
  let path := if sync then $"passthrough_client"
              else if extended then (if reframed then $"passthrough_extended" else $"passthrough_client")
              else $"passthrough" in
  _ ⇐ modify_session (λ s, if reframed then with_frames [] (pg_ext_tcp_hold s) s else s);
  _ ⇐ modify_session (λ s, if sync then with_frames (pg_client_extended_frames s) false
                                          (with_extended false (pg_extended_error s) s) else s);
  s ⇐ session;
  _ ⇐ emit cfg DExecute (user s) ctype (Some endpoint) (Some path) (Some (latency_ms rd)) None None None sql tables None;
  release_permit idx.

(** The obligations of a page: the client's page size joins the row cap. *)
Definition page_obligations (o : Obl) (page : option Z) : Obl :=
  match page with
  | None => o
  | Some n =>
      Obligations.mkObligations (Obligations.column_masks o) (Obligations.row_filter o)
        (Some (match Obligations.max_rows o with Some m => Z.min m n | None => n end))
        (Obligations.audit_level o) (Obligations.watermark o)
  end.

Definition wants_hold (s : SessionState) : bool :=
  negb (is_none (pg_execute_max_rows s)) && negb (is_none (pg_portal_name s)) && pg_extended_query s.

(** The portal after a page. *)
Definition after_page (stats : StreamingEncodeStats) (held : option StreamingQuery) (c : Conn) : Conn :=
  let s := c_session c in
  if hold_remainder stats then set_session (with_portal (pg_portal_name s) 0 (pg_drop_portal_hold s) s) (set_held held c)
  else if stats_truncated stats && negb (is_none (pg_execute_max_rows s)) && negb (is_none (pg_portal_name s)) then
    set_session (with_portal (pg_portal_name s)
      (u64_sat_add (pg_portal_skip_rows s) (total_rows (encode_stats stats))) (pg_drop_portal_hold s) s) (set_held None c)
  else if negb (is_none (pg_portal_name s)) then
    set_session (with_portal None 0 (pg_drop_portal_hold s) s) (set_held None c)
  else c.

Definition sample_opts (cfg : ConnConfig) : StreamingSampleOpts :=
  if audit_sample_enabled cfg && eq_ignore_ascii_case (cn_audit_level cfg) ($"L2") then
    mkSampleOpts true (Z.max (audit_sample_max_rows cfg) 1) (Z.max (audit_sample_max_bytes cfg) 1)
  else default_sample_opts.

(** [ExecuteOutcome::Streaming]. *)
Definition stream_outcome (cfg : ConnConfig) (rd : CommandReadings) (ctype endpoint : str) (sql : option str)
    (tables : list str) (idx : option nat) (o : Obl) (mode : ExecuteMode) (query : StreamingQuery) : M unit :=
  be ⇐ backend_protocol_of;
  fe ⇐ frontend_protocol;
  let query := if negb (is_none (translation_policy cfg)) && negb (protocol_eqb be fe)
               then mkStreaming (map_columns (q_columns query) be fe) (q_stream query) else query in
  s ⇐ session;
  let o := page_obligations o (pg_execute_max_rows s) in
  let hold := wants_hold s in
  _ ⇐ modify_session (λ s, if hold then with_portal (pg_portal_name s) 0 (pg_drop_portal_hold s) s else s);
  s ⇐ session;
  r ⇐ run_io (write_streaming_query_with_obligations_sample f64_to_string f64_is_finite sample_json s query
                (Z.max (default 256 (mode_window_rows mode)) 1)
                (if Obligations.has_result_obligations o then Some o else None) (sample_opts cfg) hold);
  '(stats, held) ⇐ (λ c, match r with Some x => Some (Ret (Ok x, c)) | None => None end);
  _ ⇐ modify (after_page stats held);
  _ ⇐ modify_session (λ s, with_page None false (with_binary false s));
  s ⇐ session;
  _ ⇐ emit cfg DExecute (user s) ctype (Some endpoint) (Some ($"resultset")) (Some (latency_ms rd)) None None None
        sql tables (stats_sample stats);
  release_permit idx.

Definition is_error (r : GatewayResponse) : bool := match r with RError _ _ => true | _ => false end.

(** A logical error inside a PostgreSQL unit. *)
Definition note_error (response : GatewayResponse) : M unit :=
  fe ⇐ frontend_protocol;
  modify_session (λ s, if is_error response && protocol_eqb fe PostgreSql
                       then fail_transaction (if pg_extended_query s then with_extended true true s else s) else s).

Definition outcome_label (cfg : ConnConfig) (response : GatewayResponse) : str :=
  match response with
  | RError code _ => $"error:" ++ code
  | ResultSet _ _ => if is_none (translation_policy cfg) then $"resultset" else $"xproto_stream"
  | TaggedResultSet _ _ _ => $"resultset"
  | Wire _ => $"passthrough"
  | ROk _ _ | CommandComplete _ => $"ok"
  | Pong => $"pong"
  | Bye => $"bye"
  | Prepared _ _ _ => $"prepared"
  | RowDescription _ => $"row_description"
  end.

Definition build_audit_sample (cfg : ConnConfig) (response : GatewayResponse) (o : Obl)
    : option (str * Z * Z * bool) :=
  if negb (audit_sample_enabled cfg) || negb (eq_ignore_ascii_case (cn_audit_level cfg) ($"L2")) then None
  else
    match response with
    | ResultSet columns rows =>
        let rows :=
          if Obligations.has_result_obligations o then
            match Obligations.apply_obligations_to_response f64_to_string (ResultSet columns rows) o with
            | ResultSet _ r => r
            | _ => rows
            end
          else rows in
        build_result_sample sample_json f64_is_finite f64_to_string (map column_name columns) rows
          (Z.max (audit_sample_max_rows cfg) 1) (Z.max (audit_sample_max_bytes cfg) 1)
    | _ => None
    end.

(** [ExecuteOutcome::Complete], and an error of the backend. *)
Definition complete_outcome (cfg : ConnConfig) (rd : CommandReadings) (ctype endpoint : str) (sql : option str)
    (tables : list str) (idx : option nat) (o : Obl) (original : GatewayCommand) (r : GatewayResult GatewayResponse)
    : M unit :=
  be ⇐ backend_protocol_of;
  fe ⇐ frontend_protocol;
  response ⇐ match r with
             | Ok response =>
                 _ ⇐ modify (λ c, if Obligations.has_result_obligations o then set_pending (Some o) c else c);
                 ret (match response with Wire _ => response | other => map_response_types other be fe end)
             | Err e => ret (RError ($"gateway_error") (PdpStore.error_to_string e))
             end;
  _ ⇐ note_error response;
  s ⇐ session;
  _ ⇐ emit cfg DExecute (user s) ctype (Some endpoint) (Some (outcome_label cfg response)) (Some (latency_ms rd))
        None None None sql tables (build_audit_sample cfg response o);
  _ ⇐ release_permit idx;
  _ ⇐ encode_response_to_writer cfg response;
  modify (match original with
          | Quit => drop_all_named_cursors
          | Commit | Rollback => drop_non_hold_named_cursors
          | _ => λ c, c
          end).

Definition execute_command (cfg : ConnConfig) (rd : CommandReadings) (ctype endpoint : str) (sql : option str)
    (tables : list str) (idx : option nat) (original command : GatewayCommand) (o : Obl) : M unit :=
  be ⇐ backend_protocol_of;
  fe ⇐ frontend_protocol;
  let mode := select_mode cfg (protocol_eqb fe be) o command in
  outcome ⇐ attempt (run_command command mode);
  match outcome with
  | Ok (OWireRelay relay) => relay_outcome cfg rd ctype endpoint sql tables idx relay
  | Ok (OStreaming query) => stream_outcome cfg rd ctype endpoint sql tables idx o mode query
  | Ok (OComplete response) => complete_outcome cfg rd ctype endpoint sql tables idx o original (Ok response)
  | Err e => complete_outcome cfg rd ctype endpoint sql tables idx o original (Err e)
  end.

(** ** One command, one frame *)

Definition handle_command (cfg : ConnConfig) (rd : CommandReadings) (command : GatewayCommand) : M unit :=
  let ctype := command_metric_type command in
  fe ⇐ frontend_protocol;
  match dangerous_command_capability command fe with
  | Some cap => reject_unsupported_capability cfg cap ctype
  | None =>
      plan ⇐ route_command command;
      s ⇐ session;
      let endpoint := route_endpoint_label plan s in
      match (match command with Query sql => parse_named_cursor_sql sql | _ => None end) with
      | Some kind => handle_named_cursor_sql cfg kind
      | None =>
          p ⇐ run_plugins cfg rd command plan;
          match p with
          | Done => ret tt
          | Go (command1, idx) =>
              t ⇐ run_translation cfg command1;
              match t with
              | Done => ret tt
              | Go command2 =>
                  let '(sql, tables) := audit_objects fe command2 in
                  d ⇐ run_security cfg rd ctype endpoint command2 sql tables idx;
                  match d with
                  | Done => ret tt
                  | Go (command3, o) => execute_command cfg rd ctype endpoint sql tables idx command command3 o
                  end
              end
          end
      end
  end.

(** The commands of a frame in order, each with its readings. *)
Fixpoint handle_commands (cfg : ConnConfig) (rd : nat → CommandReadings) (i : nat) (commands : list GatewayCommand)
    : M unit :=
  match commands with
  | [] => ret tt
  | command :: commands => _ ⇐ handle_command cfg (rd i) command; handle_commands cfg rd (S i) commands
  end.

Definition decode_frame (frame : str) : M (list GatewayCommand) := λ c,
  match fe_decode frame (c_session c) (c_frontend c) with
  | Ret (r, s, f) => Some (Ret (r, set_session s (set_io f (c_writer c) c)))
  | Panic => Some Panic
  end.

Definition handle_frame_inner (cfg : ConnConfig) (rd : nat → CommandReadings) (frame : str) : M unit :=
  _ ⇐ modify (set_pending None);
  r ⇐ attempt (decode_frame frame);
  match r with
  | Ok commands => handle_commands cfg rd 0 commands
  | Err (Unsupported code) =>
      match DangerousSql.from_code code with
      | None => fail (Unsupported code)
      | Some cap => reject_unsupported_capability cfg cap ($"QUERY")
      end
  | Err e => fail e
  end.
End Engine.
