(* ===== verification/EngineTheorems.v ===== *)
(** * Theorems on the connection engine

    Over [Engine]: the backend runs only what the decision point allowed, rewritten
    as it said; a refused command leaves the backend alone, is recorded and gives
    its permit back; the obligations of a command reach the encoder; and what the
    named-cursor branch, the translation refusal and paging do instead. *)

From S2P Require Import Prelude RustStr Model Session DangerousSql TimeRules Ticket Obligations ObjectSet Pdp Authorize LoadBalance Route Plugin AuditEvents Transport Translation GatewayConfig RuntimePlan Cursor PdpStore Engine.

Create HintDb engine.

Section Engine.
Context {F Wr B W R : Type} `{FrontendProtocolAdapter F} `{ResponseWriter Wr} `{BackendConnector B}.
Context `{Authorize.TicketGate W} `{Pdp.RemoteIO} `{TimeRules.Chrono} `{LoadBalance.Rng R} `{RegexFlags}.
Context (f64_to_string : Z → str) (f64_is_finite : Z → bool)
  (sample_json : list str → list (list JsonValue) → bool → str)
  (extract_object_set : str → str → ObjectSet.ObjectSet).

Abbreviation C := (Conn (F := F) (Wr := Wr) (B := B) (W := W) (R := R)).
Abbreviation encode_response := (encode_response_to_writer f64_to_string).

(** ** Runs *)

Lemma bind_inv {A A'} (m : M A) (k : A → M A') (c : C) r c' :
  bind m k c = Some (Ret (r, c')) →
  (∃ a c1, m c = Some (Ret (Ok a, c1)) ∧ k a c1 = Some (Ret (r, c'))) ∨
  (∃ e, m c = Some (Ret (Err e, c')) ∧ r = Err e).
Proof.
  unfold bind. destruct (m c) as [[[[a|e] c1]|]|]; try done; [eauto|]. intros [= <- <-]. eauto.
Qed.

(** A part of the state that a computation leaves alone. *)
Definition keeps {X A} (f : C → X) (m : M A) : Prop := ∀ c r c', m c = Some (Ret (r, c')) → f c' = f c.

Lemma keeps_bind {X A A'} (f : C → X) (m : M A) (k : A → M A') :
  keeps f m → (∀ a, keeps f (k a)) → keeps f (bind m k).
Proof.
  intros Hm Hk c r c' [(a & c1 & E1 & E2)|(e & E & _)]%bind_inv; [|by eapply Hm].
  rewrite (Hk _ _ _ _ E2). by eapply Hm.
Qed.
Lemma keeps_ret {X A} (f : C → X) (a : A) : keeps f (ret a).
Proof. by intros c r c' [= <- <-]. Qed.
Lemma keeps_fail {X A} (f : C → X) e : keeps f (fail (A := A) e).
Proof. by intros c r c' [= <- <-]. Qed.
Lemma keeps_gets {X A} (f : C → X) (g : C → A) : keeps f (gets g).
Proof. by intros c r c' [= <- <-]. Qed.
Lemma keeps_of_result {X A} (f : C → X) (r : GatewayResult A) : keeps f (of_result r).
Proof. by intros c r' c' [= <- <-]. Qed.
Lemma keeps_lift {X A} (f : C → X) (e : exec A) : keeps f (lift e).
Proof. intros c r c'. unfold lift. destruct e; [|done]. by intros [= <- <-]. Qed.
Lemma keeps_modify {X} (f : C → X) g : (∀ c, f (g c) = f c) → keeps f (modify g).
Proof. intros Hg c r c' [= <- <-]. apply Hg. Qed.
Lemma keeps_attempt {X A} (f : C → X) (m : M A) : keeps f m → keeps f (attempt m).
Proof.
  intros Hm c r c'. unfold attempt. destruct (m c) as [[[r1 c1]|]|] eqn:E; try done. intros [= <- <-]. by eapply Hm.
Qed.
Lemma keeps_io {X A} (f : C → X) (m : io A) : (∀ g w c, f (set_io g w c) = f c) → keeps f (run_io m).
Proof.
  intros Hf c r c'. unfold run_io. destruct (m _) as [r1 [g w]]. intros [= <- <-]. apply Hf.
Qed.
Lemma keeps_try_audit {X} (f : C → X) e : (∀ c, f (log_event e c) = f c) → keeps f (try_audit e).
Proof. apply keeps_modify. Qed.
End Engine.

#[export] Hint Resolve keeps_bind keeps_ret keeps_fail keeps_gets keeps_of_result keeps_lift keeps_modify
  keeps_attempt keeps_io keeps_try_audit : engine.

(** Prove that a stage keeps a field: open the definitions, split the cases, and
    leave what changes the state to the hints. *)
Ltac keep_field :=
  repeat first
    [ match goal with
      | |- forall _, _ => intro
      | |- keeps _ (bind _ _) => apply keeps_bind
      | |- keeps _ (ret _) => apply keeps_ret
      | |- keeps _ (fail _) => apply keeps_fail
      | |- keeps _ (gets _) => apply keeps_gets
      | |- keeps _ (of_result _) => apply keeps_of_result
      | |- keeps _ (lift _) => apply keeps_lift
      | |- keeps _ (attempt _) => apply keeps_attempt
      | |- keeps _ (run_io _) => apply keeps_io
      | |- keeps _ (try_audit _) => apply keeps_try_audit
      | |- keeps _ (modify _) => apply keeps_modify
      | |- keeps _ (modify_session _) => apply keeps_modify
      | |- keeps _ session => apply keeps_gets
      | |- keeps _ frontend_protocol => apply keeps_gets
      | |- keeps _ backend_protocol_of => apply keeps_gets
      | |- keeps _ (match ?x with _ => _ end) => destruct x
      | |- keeps _ (let '(_, _) := ?x in _) => destruct x
      end
    | done
    | solve [eauto with engine] ].

(** ** What the stages leave alone *)

Section Stages.
Context {F Wr B W R : Type} `{FrontendProtocolAdapter F} `{ResponseWriter Wr} `{BackendConnector B}.
Context `{Authorize.TicketGate W} `{Pdp.RemoteIO} `{TimeRules.Chrono} `{LoadBalance.Rng R} `{RegexFlags}.
Context (f64_to_string : Z → str) (f64_is_finite : Z → bool)
  (sample_json : list str → list (list JsonValue) → bool → str)
  (extract_object_set : str → str → ObjectSet.ObjectSet).

Abbreviation C := (Conn (F := F) (Wr := Wr) (B := B) (W := W) (R := R)).
Abbreviation encode_response := (encode_response_to_writer f64_to_string).

(** A field that answering the client does not touch. *)
Record deaf {X} (f : C → X) : Prop := {
  deaf_io : ∀ g w c, f (set_io g w c) = f c;
  deaf_session : ∀ s c, f (set_session s c) = f c;
  deaf_pending : ∀ o c, f (set_pending o c) = f c
}.

Lemma encode_keeps {X} (f : C → X) cfg response : deaf f → keeps f (encode_response cfg response).
Proof.
  intros [Hio Hs Hp]. unfold encode_response_to_writer, encode_then_write. keep_field; intros; simpl; auto.
Qed.

Lemma refuse_extended_keeps {X} (f : C → X) : deaf f → keeps f refuse_extended.
Proof. intros [Hio Hs Hp]. unfold refuse_extended. keep_field; auto. Qed.

Lemma emit_keeps {X} (f : C → X) cfg d sub ct ep out lat code msg rule sql tables smp :
  (∀ e c, f (log_event e c) = f c) → keeps f (emit cfg d sub ct ep out lat code msg rule sql tables smp).
Proof. intros Hl. unfold emit. keep_field; auto. Qed.

Lemma release_keeps {X} (f : C → X) idx : (∀ p c, f (set_plugins p c) = f c) → keeps f (release_permit idx).
Proof. intros Hp. unfold release_permit. keep_field; auto. Qed.

Lemma refuse_keeps {X} (f : C → X) cfg d sub ct ep out code msg rule sql tables idx :
  deaf f → (∀ e c, f (log_event e c) = f c) → (∀ p c, f (set_plugins p c) = f c) →
  keeps f (refuse f64_to_string cfg d sub ct ep out code msg rule sql tables idx).
Proof.
  intros. unfold refuse. keep_field; [by apply emit_keeps|by apply encode_keeps|by apply release_keeps].
Qed.

Lemma backend_deaf : deaf (c_backend : C → B).
Proof. by split. Qed.
Lemma audit_deaf : deaf (c_audit : C → list AuditEvent).
Proof. by split. Qed.
Lemma plugins_deaf : deaf (c_plugins : C → option PluginPhase).
Proof. by split. Qed.
Lemma tickets_deaf : deaf (c_tickets : C → W).
Proof. by split. Qed.
Lemma cursors_deaf : deaf (c_cursors : C → gmap str NamedCursorHeld).
Proof. by split. Qed.
Hint Resolve backend_deaf audit_deaf plugins_deaf tickets_deaf cursors_deaf encode_keeps refuse_extended_keeps
  emit_keeps release_keeps refuse_keeps : engine.

Lemma reject_keeps_backend cfg cap ct : keeps (c_backend : C → B) (reject_unsupported_capability f64_to_string cfg cap ct).
Proof. unfold reject_unsupported_capability. keep_field. Qed.

Lemma route_keeps {X} (f : C → X) command :
  deaf f → (∀ r c, f (set_route r c) = f c) → keeps f (route_command command).
Proof.
  intros [Hio Hs Hp] Hr. unfold route_command. keep_field.
  intros d r d'. destruct (plan_command _ _ _) as [[[r1 p]|]|]; try done. intros [= <- <-]. apply Hr.
Qed.

Lemma plugins_keep {X} (f : C → X) cfg rd command plan :
  deaf f → (∀ p c, f (set_plugins p c) = f c) → keeps f (run_plugins f64_to_string cfg rd command plan).
Proof.
  intros Hd Hp. unfold run_plugins. keep_field; auto with engine.
Qed.

Lemma translation_keeps {X} (f : C → X) cfg command : deaf f → keeps f (run_translation f64_to_string cfg command).
Proof. intros Hd. unfold run_translation. keep_field; auto with engine. Qed.

Lemma security_keeps {X} (f : C → X) cfg rd ct ep command sql tables idx :
  deaf f → (∀ e c, f (log_event e c) = f c) → (∀ p c, f (set_plugins p c) = f c) →
  (∀ w c, f (set_tickets w c) = f c) →
  keeps f (run_security f64_to_string extract_object_set cfg rd ct ep command sql tables idx).
Proof. intros. unfold run_security. keep_field; auto with engine. Qed.

Lemma relay_keeps_backend cfg rd ct ep sql tables idx relay :
  keeps (c_backend : C → B) (relay_outcome cfg rd ct ep sql tables idx relay).
Proof. unfold relay_outcome. keep_field. Qed.

Lemma stream_keeps_backend cfg rd ct ep sql tables idx o mode q :
  keeps (c_backend : C → B) (stream_outcome f64_to_string f64_is_finite sample_json cfg rd ct ep sql tables idx o mode q).
Proof.
  unfold stream_outcome. keep_field.
  - intros d r' d'. by case_match; [intros [= <- <-]|].
  - unfold after_page. by repeat case_match.
Qed.

Lemma complete_keeps_backend cfg rd ct ep sql tables idx o original r :
  keeps (c_backend : C → B) (complete_outcome f64_to_string f64_is_finite sample_json cfg rd ct ep sql tables idx o original r).
Proof.
  unfold complete_outcome, note_error. keep_field; auto with engine; try (by repeat case_match).
Qed.

(** ** What a stage that lets a command pass did *)

Ltac run_inv H' :=
  repeat match type of H' with
  | bind _ _ _ = _ => apply bind_inv in H' as [(? & ? & ? & H')|(? & ? & ?)]
  end.

Lemma route_ok command (c : C) plan c' :
  route_command command c = Some (Ret (Ok plan, c')) →
  ∃ r s, c' = set_session s (set_route r c) ∧ user s = user (c_session c) ∧ database s = database (c_session c).
Proof.
  unfold route_command, session, bind, gets, of_result, modify, ret. destruct (c_route c) as [p|] eqn:Er.
  - destruct (plan_command command (c_session c) p) as [[[[pl|e] p']|]|]; try done. cbn.
    destruct (apply_route_plan pl (c_session c)) as [s|e] eqn:Ea; [|done]. cbn. intros [= <- <-].
    exists (Some p'), s. split; [done|]. unfold apply_route_plan in Ea. destruct pl; simplify_eq/=. done.
  - intros [= <- <-]. exists (c_route c), (c_session c). by destruct c.
Qed.

Lemma plugins_go cfg rd command plan (c : C) command1 idx c' :
  run_plugins f64_to_string cfg rd command plan c = Some (Ret (Ok (Go (command1, idx)), c')) →
  (c_plugins c = None ∧ c' = c ∧ idx = None) ∨
  ∃ p p' d, c_plugins c = Some p ∧ c' = set_plugins (Some p') c ∧
    plugin_evaluate (plugin_now rd)
      (mkPluginContext (service_name cfg) (fe_protocol (c_frontend c)) (user (c_session c)) (database (c_session c))
         (from_command command) plan) p = (d, p') ∧ (d = PContinue idx ∨ idx = None).
Proof.
  unfold run_plugins, bind at 1, gets at 1. destruct (c_plugins c) as [p|] eqn:Ep.
  - unfold frontend_protocol, session, bind at 1 2, gets at 1 2.
    destruct (plugin_evaluate _ _ p) as [d p'] eqn:E. unfold bind at 1, modify.
    destruct d as [i|code msg|sql]; cbn.
    + intros [= <- <- <-]. right. exists p, p', (PContinue i). by repeat split; auto.
    + intros H'. run_inv H'; unfold ret in *; congruence.
    + intros [= <- <- <-]. right. exists p, p', (PRewrite sql). by repeat split; auto.
  - intros [= _ <- <-]. by left.
Qed.

Lemma translation_go cfg command (c : C) command2 c' :
  run_translation f64_to_string cfg command c = Some (Ret (Ok (Go command2), c')) →
  c' = c ∧ match translation_policy cfg with
           | None => command2 = command
           | Some p => prepare_cross_protocol_command p command (frontend_dialect cfg) = Ret (Ok command2)
           end.
Proof.
  unfold run_translation. destruct (translation_policy cfg) as [p|]; [|by intros [= <- <-]].
  unfold bind at 1, lift. destruct (prepare_cross_protocol_command _ _ _) as [[c2|e]|]; [|..|done].
  - by intros [= <- <-].
  - intros H'. run_inv H'; unfold ret in *; congruence.
Qed.

(** The decision on a command, in a state of the connection. *)
Definition decision (cfg : ConnConfig) (rd : CommandReadings) (c : C) (command : GatewayCommand) :=
  Authorize.authorize_command_with_objects (snapshots rd) (auth_readings rd)
    (Pdp.from_protocol_user (user (c_session c)) (database (c_session c))) (service_name cfg) command
    (frontend_dialect cfg)
    ((λ q, extract_object_set q (ProtocolKind_as_str (fe_protocol (c_frontend c)))) <$> command_sql command)
    (c_tickets c).

(** The decision lets [command] run as [command'] under [o]. *)
Definition allows (d : Pdp.SecurityDecision) (command command' : GatewayCommand) (o : Obl) : Prop :=
  (d = Pdp.Allow o ∧ command' = command) ∨ ∃ t, d = Pdp.AllowRewrite t o ∧ command' = set_sql t command.

Lemma security_go cfg rd ct ep command sql tables idx (c : C) command' o c' :
  secured cfg = true →
  run_security f64_to_string extract_object_set cfg rd ct ep command sql tables idx c
  = Some (Ret (Ok (Go (command', o)), c')) →
  ∃ d w, decision cfg rd c command = Ret (d, w) ∧ allows d command command' o ∧ c' = set_tickets w c.
Proof.
  intros Hs. unfold run_security. rewrite Hs. cbn [negb].
  unfold session, frontend_protocol, bind at 1 2 3 4, gets, lift. fold (decision cfg rd c command).
  destruct (decision cfg rd c command) as [[d w]|]; [|done]. unfold bind at 1, modify.
  destruct d as [o'|t o'|rule ty msg|rule msg].
  - intros [= <- <- <-]. exists (Pdp.Allow o'), w. split; [done|]. split; [by left|done].
  - intros [= <- <- <-]. exists (Pdp.AllowRewrite t o'), w. split; [done|]. split; [right; eauto|done].
  - intros H'. run_inv H'; unfold ret in *; congruence.
  - intros H'. run_inv H'; unfold ret in *; congruence.
Qed.

Abbreviation handle := (handle_command f64_to_string f64_is_finite sample_json extract_object_set).

(** Before the backend: routing, plugins and translation, for a command that is
    neither dangerous nor a cursor statement. *)
Inductive admitted (cfg : ConnConfig) (rd : CommandReadings) (command : GatewayCommand) (c : C)
  : GatewayCommand → option nat → C → Prop :=
| admitted_intro plan c1 command1 idx c2 command2 :
    dangerous_command_capability command (fe_protocol (c_frontend c)) = None →
    route_command command c = Some (Ret (Ok plan, c1)) →
    run_plugins f64_to_string cfg rd command plan c1 = Some (Ret (Ok (Go (command1, idx)), c2)) →
    run_translation f64_to_string cfg command1 c2 = Some (Ret (Ok (Go command2), c2)) →
    admitted cfg rd command c command2 idx c2.

Lemma admitted_keeps cfg rd command c command2 idx c2 :
  admitted cfg rd command c command2 idx c2 →
  c_backend c2 = c_backend c ∧ c_tickets c2 = c_tickets c ∧ c_audit c2 = c_audit c ∧
  c_cursors c2 = c_cursors c ∧ c_frontend c2 = c_frontend c ∧ c_writer c2 = c_writer c ∧
  user (c_session c2) = user (c_session c) ∧ database (c_session c2) = database (c_session c).
Proof.
  intros [plan c1 command1 idx' c2' command2' _ Hr Hp _].
  apply route_ok in Hr as (r & s & -> & Hu & Hd).
  apply plugins_go in Hp as [(_ & -> & _)|(p & p' & d & _ & -> & _)]; done.
Qed.

(** A run of [handle_command] that is no cursor statement: it stopped before the
    backend, or went through the decision point and the backend. *)
Lemma handle_inv cfg rd command (c : C) r c' :
  handle cfg rd command c = Some (Ret (r, c')) →
  (∀ sql, command = Query sql → parse_named_cursor_sql sql = None) →
  c_backend c' = c_backend c ∨
  ∃ command2 idx c2 sql tables c3 command3 o ep,
    admitted cfg rd command c command2 idx c2 ∧
    run_security f64_to_string extract_object_set cfg rd (command_metric_type command) ep command2 sql tables idx c2
      = Some (Ret (Ok (Go (command3, o)), c3)) ∧
    execute_command f64_to_string f64_is_finite sample_json cfg rd (command_metric_type command) ep sql tables idx
      command command3 o c3 = Some (Ret (r, c')).
Proof.
  intros H' Hcur. unfold handle_command in H'. unfold frontend_protocol, bind at 1, gets at 1 in H'.
  destruct (dangerous_command_capability command _) eqn:Ed; [left; by apply reject_keeps_backend in H'|].
  assert (match command with Query sql => parse_named_cursor_sql sql | _ => None end = None) as Hc
    by (destruct command; auto).
  rewrite Hc in H'. apply bind_inv in H' as [(plan & c1 & Er & H')|(e & Er & ->)].
  2:{ left. apply (route_keeps c_backend) in Er; [done|by split|done]. }
  unfold session, bind at 1, gets at 1 in H'.
  apply bind_inv in H' as [(g & c2 & Ep & H')|(e & Ep & ->)].
  2:{ left. apply (plugins_keep c_backend) in Ep; [|by split|done].
      apply (route_keeps c_backend) in Er; [congruence|by split|done]. }
  pose proof (plugins_keep c_backend _ _ _ _ ltac:(by split) ltac:(done) _ _ _ Ep) as Hb2.
  pose proof (route_keeps c_backend _ ltac:(by split) ltac:(done) _ _ _ Er) as Hb1.
  destruct g as [[command1 idx]|]; [|injection H' as <- <-; left; congruence].
  apply bind_inv in H' as [(g & c3 & Et & H')|(e & Et & ->)].
  2:{ left. apply (translation_keeps c_backend) in Et; [congruence|by split]. }
  pose proof (translation_keeps c_backend _ _ ltac:(by split) _ _ _ Et) as Hb3.
  destruct g as [command2|]; [|injection H' as <- <-; left; congruence].
  pose proof (translation_go _ _ _ _ _ Et) as [-> _].
  destruct (audit_objects extract_object_set _ command2) as [sql tables].
  apply bind_inv in H' as [(g & c4 & Es & H')|(e & Es & ->)].
  2:{ left. apply (security_keeps c_backend) in Es; [congruence|by split|done..]. }
  pose proof (security_keeps c_backend _ _ _ _ _ _ _ _ ltac:(by split) ltac:(done) ltac:(done) ltac:(done) _ _ _ Es) as Hb4.
  destruct g as [[command3 o]|]; [|injection H' as <- <-; left; congruence].
  right. eexists command2, idx, c2, sql, tables, c4, command3, o, _. split; [|done].
  by apply (admitted_intro _ _ _ _ plan c1 command1).
Qed.

(** What the client sees of a connection: the frontend and the writer. *)
Definition wire (c : C) : F * Wr := (c_frontend c, c_writer c).

(** A run of a command resumes the held stream, or calls the backend once. *)
Lemma run_command_cases command mode (c : C) r c' :
  run_command command mode c = Some (Ret (r, c')) →
  ∃ c1, wire c1 = wire c ∧ c_pending c1 = c_pending c ∧ c_backend c1 = c_backend c ∧
    ((∃ q, r = Ok (OStreaming q) ∧ c' = c1) ∨ backend_execute command mode c1 = Some (Ret (r, c'))).
Proof.
  unfold run_command, session, bind, gets, modify, ret.
  set (c1 := if pg_drop_portal_hold (c_session c) then _ else c).
  assert (wire c1 = wire c ∧ c_pending c1 = c_pending c ∧ c_backend c1 = c_backend c) as (Hw & Hp & Hb)
    by (unfold c1; by destruct (pg_drop_portal_hold _)).
  destruct (c_held c1) as [q|]; [|intros E; exists c1; by eauto].
  destruct (resumes _ _ _); intros E; exists (set_held None c1); (split; [done|]); (split; [done|]); (split; [done|]).
  - injection E as <- <-. eauto.
  - by right.
Qed.

Lemma backend_execute_spec command mode (c : C) r c' :
  backend_execute command mode c = Some (Ret (r, c')) →
  ∃ s' b, execute_outcome command (c_session c) mode (c_backend c) = (r, s', b) ∧ c' = set_backend b s' c.
Proof. unfold backend_execute. destruct (execute_outcome _ _ _ _) as [[out s'] b]. intros [= <- <-]. eauto. Qed.

Lemma run_command_backend command mode (c : C) r c' :
  run_command command mode c = Some (Ret (r, c')) →
  c_backend c' = c_backend c ∨
  ∃ s out s', execute_outcome command s mode (c_backend c) = (out, s', c_backend c').
Proof.
  intros (c1 & _ & _ & Hb & [(q & _ & ->)|(s' & b & E & ->)%backend_execute_spec])%run_command_cases; [by left|].
  right. rewrite Hb in E. eauto.
Qed.

(** With result obligations the backend is never asked for a raw relay. *)
Lemma select_mode_streams cfg same o command :
  Obligations.has_result_obligations o = true → ∃ w m, select_mode cfg same o command = Streaming w m.
Proof.
  intros Ho. unfold select_mode, want_passthrough. rewrite Ho. cbn [negb]. rewrite andb_false_r. cbn [andb].
  rewrite orb_true_r. unfold from_streaming_config. destruct (stream_mode cfg); eauto.
Qed.

(** C5 With the decision point on, and for every backend, frontend, policy and
    plugin: a command that is not a named-cursor statement changes the backend only
    through one execution, of the command the decision point allowed (translated
    before, rewritten as it said), decided for the connection's own user on the
    ticket store as it was; under result obligations that execution is asked for
    rows, never for a raw relay. *)
Theorem backend_runs_only_allowed cfg rd command (c : C) r c' :
  secured cfg = true → handle cfg rd command c = Some (Ret (r, c')) →
  (∀ sql, command = Query sql → parse_named_cursor_sql sql = None) →
  c_backend c' = c_backend c ∨
  ∃ command2 idx c2 d w command3 o mode s out s',
    admitted cfg rd command c command2 idx c2 ∧
    c_tickets c2 = c_tickets c ∧ user (c_session c2) = user (c_session c) ∧
    decision cfg rd c2 command2 = Ret (d, w) ∧ allows d command2 command3 o ∧
    (Obligations.has_result_obligations o = true → ∃ n m, mode = Streaming n m) ∧
    execute_outcome command3 s mode (c_backend c) = (out, s', c_backend c').
Proof.
  intros Hs Hh Hcur.
  destruct (handle_inv _ _ _ _ _ _ Hh Hcur) as [?|(command2 & idx & c2 & sql & tables & c3 & command3 & o & ep & Ha & Es & Ee)];
    [by left|].
  pose proof (admitted_keeps _ _ _ _ _ _ _ Ha) as (Hb & Ht & _ & _ & _ & _ & Hu & _).
  apply security_go in Es as (d & w & Hd & Hal & ->); [|done].
  unfold execute_command in Ee. unfold backend_protocol_of, frontend_protocol, bind at 1 2, gets at 1 2 in Ee.
  apply bind_inv in Ee as [(out & c4 & Er & Ee)|(e & Er & ->)].
  2:{ unfold attempt in Er. by destruct (run_command _ _ _) as [[[]|]|]. }
  assert (c_backend c' = c_backend c4) as Hb4.
  { destruct out as [[resp|q|relay]|e];
      [eapply complete_keeps_backend|eapply stream_keeps_backend|eapply relay_keeps_backend|eapply complete_keeps_backend];
      exact Ee. }
  unfold attempt in Er. destruct (run_command _ _ _) as [[[r1 c5]|]|] eqn:Erun; try done. injection Er as <- <-.
  apply run_command_backend in Erun as [Hsame|(s & out & s' & Hx)].
  - left. rewrite Hb4, Hsame. done.
  - right. eexists command2, idx, c2, d, w, command3, o, _, s, out, s'. do 3 (split; [done|]). split; [done|].
    split; [done|]. split; [intros Ho; by apply select_mode_streams|]. rewrite Hb4.
    change (c_backend (set_tickets w c2)) with (c_backend c2) in Hx. by rewrite Hb in Hx.
Qed.

(** ** Refusals *)

Lemma handle_admitted cfg rd command (c : C) command2 idx c2 :
  (∀ sql, command = Query sql → parse_named_cursor_sql sql = None) →
  admitted cfg rd command c command2 idx c2 →
  ∃ ep, handle cfg rd command c =
    (let '(sql, tables) := audit_objects extract_object_set (fe_protocol (c_frontend c)) command2 in
     bind (run_security f64_to_string extract_object_set cfg rd (command_metric_type command) ep command2 sql tables idx)
       (λ d, match d with
             | Done => ret tt
             | Go (command3, o) =>
                 execute_command f64_to_string f64_is_finite sample_json cfg rd (command_metric_type command) ep sql
                   tables idx command command3 o
             end)) c2.
Proof.
  intros Hcur [plan c1 command1 idx' c2' command2' Hd Hr Hp Ht].
  exists (route_endpoint_label plan (c_session c1)).
  unfold handle_command, frontend_protocol, bind at 1, gets at 1. rewrite Hd.
  assert (match command with Query sql => parse_named_cursor_sql sql | _ => None end = None) as Hc
    by (destruct command; auto).
  rewrite Hc. unfold bind at 1. rewrite Hr. unfold session, bind at 1, gets at 1.
  unfold bind at 1. rewrite Hp. unfold bind at 1. rewrite Ht. by destruct (audit_objects _ _ _).
Qed.

(** The permit of a command was given back. *)
Definition given_back (idx : option nat) (before after : option PluginPhase) : Prop :=
  match before, idx with
  | Some p, Some i => ∃ p', release_concurrency i p = Ret p' ∧ after = Some p'
  | _, _ => after = before
  end.

Lemma release_given_back idx (c : C) r c' :
  release_permit idx c = Some (Ret (r, c')) → given_back idx (c_plugins c) (c_plugins c').
Proof.
  unfold release_permit, bind, gets, lift, modify, ret, given_back.
  destruct (c_plugins c) as [p|] eqn:Ep, idx as [i|]; try (by intros [= <- <-]).
  destruct (release_concurrency i p) as [p'|]; [|done]. intros [= <- <-]. by exists p'.
Qed.

Lemma emit_spec cfg d sub ct ep out lat code msg rule sql tables smp (c : C) r c' :
  emit cfg d sub ct ep out lat code msg rule sql tables smp c = Some (Ret (r, c')) →
  r = Ok tt ∧ ∃ fp, c' = log_event (engine_event cfg (c_session c) (fe_protocol (c_frontend c))
    (be_protocol (c_backend c)) d sub ct ep out lat code msg rule fp sql tables smp) c.
Proof.
  unfold emit, session, frontend_protocol, backend_protocol_of, bind, gets, lift, ret, try_audit, modify.
  destruct sql as [t|]; [destruct (Ticket.sql_fingerprint t) as [f|]; [|done]|]; intros [= <- <-]; eauto.
Qed.

(** The event a refusal leaves. *)
Definition refusal_event (d : Pdp.SecurityDecision) (subject : str) (sql : option str) (e : AuditEvent) : Prop :=
  ev_subject_id e = Some subject ∧ ev_sql_text e = sql ∧
  match d with
  | Pdp.Deny rule message =>
      ev_decision e = Some ($"deny") ∧ ev_rule e = Some rule ∧ ev_message e = Some message
  | Pdp.RequireTicket rule _ message =>
      ev_decision e = Some ($"require_approval") ∧ ev_rule e = Some rule ∧ ev_message e = Some message
  | _ => False
  end.

Lemma refuse_spec cfg d sub ct ep out code msg rule sql tables idx (c : C) r c' :
  refuse f64_to_string cfg d sub ct ep out code msg rule sql tables idx c = Some (Ret (r, c')) →
  ∃ e, c_audit c' = c_audit c ++ [e] ∧ ev_subject_id e = Some sub ∧ ev_sql_text e = sql ∧
    ev_decision e = Some (audit_decision_as_str d) ∧ ev_rule e = Some rule ∧ ev_message e = Some msg ∧
    (r = Ok tt → given_back idx (c_plugins c) (c_plugins c')).
Proof.
  unfold refuse. intros [(u & c1 & Ee & H')|(e & Ee & ->)]%bind_inv; apply emit_spec in Ee as [Hr (fp & ->)]; [|done].
  eexists. apply bind_inv in H' as [(u2 & c2 & Een & H')|(e & Een & ->)].
  - pose proof (release_keeps (c_audit : C → list AuditEvent) idx ltac:(done) _ _ _ H') as Ha.
    pose proof (encode_keeps (c_audit : C → list AuditEvent) cfg _ ltac:(by split) _ _ _ Een) as Ha2.
    pose proof (encode_keeps (c_plugins : C → option PluginPhase) cfg _ ltac:(by split) _ _ _ Een) as Hp.
    rewrite Ha, Ha2. do 6 (split; [done|]). intros _. apply release_given_back in H'. rewrite Hp in H'. exact H'.
  - pose proof (encode_keeps (c_audit : C → list AuditEvent) cfg _ ltac:(by split) _ _ _ Een) as Ha2.
    rewrite Ha2. do 6 (split; [done|]). done.
Qed.

Lemma security_refused cfg rd ct ep command sql tables idx (c : C) d w r c' :
  secured cfg = true → decision cfg rd c command = Ret (d, w) → Pdp.is_deny d = true →
  run_security f64_to_string extract_object_set cfg rd ct ep command sql tables idx c = Some (Ret (r, c')) →
  (r = Ok Done ∨ ∃ e, r = Err e) ∧ c_backend c' = c_backend c ∧
  (∃ e, c_audit c' = c_audit c ++ [e] ∧
    refusal_event d (Pdp.subject_id (Pdp.from_protocol_user (user (c_session c)) (database (c_session c)))) sql e) ∧
  (r = Ok Done → given_back idx (c_plugins c) (c_plugins c')).
Proof.
  intros Hs Hd Hden. unfold run_security. rewrite Hs. cbn [negb].
  unfold session, frontend_protocol, bind at 1 2 3 4, gets, lift.
  fold (decision cfg rd c command). rewrite Hd. unfold bind at 1, modify. intros Es.
  destruct d as [o|t o|rule ty msg|rule msg]; try done;
    (apply bind_inv in Es as [([] & c4 & Er & Es)|(e & Er & ->)]; [injection Es as <- <-|]);
    pose proof (refuse_keeps (c_backend : C → B) cfg _ _ _ _ _ _ _ _ _ _ _ ltac:(by split) ltac:(done) ltac:(done) _ _ _ Er) as Hb;
    apply refuse_spec in Er as (ev & Hev & ? & ? & ? & ? & ? & Hg);
    (split; [eauto|]); (split; [done|]); (split; [by exists ev|]); intros; by try apply Hg.
Qed.

(** C6 A command (other than a named-cursor statement) that got past the plugins and the
    translation and that the decision point refuses (denied, or an approval is missing) never
    reaches the backend and leaves exactly one audit event with the subject, the statement,
    the rule and the reason; when the error response could be written to the client, the
    concurrency permit the command took is given back.  (When it could not, the handling fails
    before the release and the permit is kept.) *)
Theorem refusal_is_recorded cfg rd command (c : C) command2 idx c2 d w r c' :
  secured cfg = true → (∀ sql, command = Query sql → parse_named_cursor_sql sql = None) →
  admitted cfg rd command c command2 idx c2 → decision cfg rd c2 command2 = Ret (d, w) → Pdp.is_deny d = true →
  handle cfg rd command c = Some (Ret (r, c')) →
  c_backend c' = c_backend c ∧
  (∃ e, c_audit c' = c_audit c ++ [e] ∧
    refusal_event d (Pdp.subject_id (Pdp.from_protocol_user (user (c_session c)) (database (c_session c))))
      (command_sql command2) e) ∧
  (r = Ok tt → given_back idx (c_plugins c2) (c_plugins c')).
Proof.
  intros Hs Hcur Ha Hd Hden Hh.
  pose proof (admitted_keeps _ _ _ _ _ _ _ Ha) as (Hb & _ & Hau & _ & _ & _ & Hu & Hdb).
  destruct (handle_admitted _ _ _ _ _ _ _ Hcur Ha) as (ep & E). rewrite E in Hh. clear E.
  assert ((audit_objects extract_object_set (fe_protocol (c_frontend c)) command2).1 = command_sql command2) as Hsql
    by (unfold audit_objects; by destruct (command_sql command2)).
  destruct (audit_objects _ _ _) as [sql tables]. simpl in Hsql. subst sql. rewrite <-Hu, <-Hdb, <-Hb, <-Hau.
  apply bind_inv in Hh as [(g & c3 & Es & Hh)|(e & Es & ->)];
    destruct (security_refused _ _ _ _ _ _ _ _ _ _ _ _ _ Hs Hd Hden Es) as (Hg & ? & ? & Hp).
  - destruct Hg as [[= ->]|(e & [=])]. injection Hh as <- <-. auto.
  - split; [done|]. split; [done|]. done.
Qed.

(** ** Obligations reach the encoder *)

(** A query, a prepared statement that is executed, a statement to prepare or to describe. *)
Definition is_statement (command : GatewayCommand) : bool := is_row_command command || negb (is_none (command_sql command)).

(** Frames of the server, not rows. *)
Definition raw_outcome (out : ExecuteOutcome) : bool := match out with OWireRelay _ | OComplete (Wire _) => true | _ => false end.

(** A backend that is told to stream the rows of a statement does not answer it with raw
    frames.  Both backends are shown to behave so ([my_streams_statements],
    [pg_streams_statements]). *)
Definition streams_statements : Prop := ∀ command s n m b out s' b',
  is_statement command = true → execute_outcome command s (Streaming n m) b = (Ok out, s', b') → raw_outcome out = false.

(** The client's side went from [before] to [after] through one encoder that was
    given the obligations [o]. *)
Inductive served (o : Obl) (before after : F * Wr) : Prop :=
| served_stream s query window page opts hold st :
    write_streaming_query_with_obligations_sample f64_to_string f64_is_finite sample_json s query window
      (Some (page_obligations o page)) opts hold before = (Ok st, after) → served o before after
| served_windowed s columns rows window st :
    write_resultset_windowed_with_obligations f64_to_string s columns rows window (Some o) before = (Ok st, after) →
    served o before after
| served_response s response packets :
    match response with ResultSet _ _ | Wire _ => False | _ => True end →
    fe_encode (Obligations.apply_obligations_to_response f64_to_string response o) s before.1 = (Ok packets, after.1) →
    write_packets packets before.2 = (Ok tt, after.2) → served o before after.

Lemma wire_keeps_emit cfg d sub ct ep out lat code msg rule sql tables smp :
  keeps wire (emit cfg d sub ct ep out lat code msg rule sql tables smp).
Proof. by apply emit_keeps. Qed.
Lemma wire_keeps_release idx : keeps wire (release_permit idx).
Proof. by apply release_keeps. Qed.

Lemma run_io_ok {A} (m : io A) (c : C) r c' :
  run_io m c = Some (Ret (r, c')) → m (wire c) = (r, wire c').
Proof. unfold run_io, wire. destruct (m _) as [r1 [f w]]. by intros [= <- <-]. Qed.

Lemma run_command_lawful command n m (c : C) r c' :
  streams_statements → is_statement command = true → run_command command (Streaming n m) c = Some (Ret (r, c')) →
  wire c' = wire c ∧ c_pending c' = c_pending c ∧ match r with Ok out => raw_outcome out = false | Err _ => True end.
Proof.
  intros Hl Hst (c1 & Hw & Hp & _ & [(q & -> & ->)|(s' & b & E & ->)%backend_execute_spec])%run_command_cases; [done|].
  split; [done|]. split; [done|]. destruct r as [out|]; [|done]. by apply Hl in E.
Qed.

Lemma page_has_obligations o page :
  Obligations.has_result_obligations o = true → Obligations.has_result_obligations (page_obligations o page) = true.
Proof.
  destruct page as [n|]; [|done]. intros _. unfold Obligations.has_result_obligations. cbn. by rewrite orb_true_r.
Qed.

Lemma stream_served cfg rd ct ep sql tables idx o mode q (c c' : C) :
  Obligations.has_result_obligations o = true →
  stream_outcome f64_to_string f64_is_finite sample_json cfg rd ct ep sql tables idx o mode q c = Some (Ret (Ok tt, c')) →
  served o (wire c) (wire c').
Proof.
  intros Ho. unfold stream_outcome, backend_protocol_of, frontend_protocol, session, modify_session.
  unfold bind at 1 2 3 4 5, gets, modify at 1.
  set (q' := if negb _ && negb _ then _ else q). set (s1 := c_session (set_session _ c)).
  intros H'. apply bind_inv in H' as [(r & c1 & Er & H')|(e & _ & [=])].
  rewrite page_has_obligations in Er by done. apply run_io_ok in Er.
  change (wire (set_session _ c)) with (wire c) in Er.
  apply bind_inv in H' as [([stats held] & c2 & Ex & H')|(e & _ & [=])].
  destruct r as [x|]; [|done]. injection Ex as -> <-.
  unfold bind at 1 2 3, modify in H'.
  apply bind_inv in H' as [(u & c3 & Ee & H')|(e & _ & [=])].
  apply wire_keeps_release in H'. apply wire_keeps_emit in Ee.
  rewrite H', Ee. eapply served_stream.
  assert (wire (after_page stats held c1) = wire c1) as Hw by (unfold after_page; by repeat case_match).
  change (wire (set_session _ (after_page stats held c1))) with (wire (after_page stats held c1)).
  rewrite Hw. exact Er.
Qed.

Lemma encode_then_write_ok response (c : C) c' :
  encode_then_write response c = Some (Ret (Ok (Ok tt), c')) →
  ∃ packets, fe_encode response (c_session c) (c_frontend c) = (Ok packets, c_frontend c') ∧
    write_packets packets (c_writer c) = (Ok tt, c_writer c') ∧ c_session c' = c_session c.
Proof.
  unfold encode_then_write, session, bind at 1, gets. intros H'.
  apply bind_inv in H' as [(ps & c1 & E1 & H')|(e & _ & [=])].
  unfold run_io in E1. destruct (fe_encode response (c_session c) (c_frontend c)) as [r f] eqn:Ef.
  injection E1 as -> <-. unfold attempt, run_io, raw_write in H'. cbn in H'.
  destruct (write_packets ps (c_writer c)) as [r w] eqn:Ew. injection H' as -> <-. by exists ps.
Qed.

Lemma encode_served cfg response o (c c' : C) :
  Obligations.has_result_obligations o = true →
  (c_pending c = Some o ∧ match response with Wire _ => False | _ => True end ∨
   c_pending c = None ∧ is_error response = true) →
  encode_response cfg response c = Some (Ret (Ok tt, c')) → served o (wire c) (wire c').
Proof.
  intros Ho Hp. unfold encode_response_to_writer, bind at 1 2, gets at 1, modify at 1.
  intros H'. apply bind_inv in H' as [(res & c1 & E1 & H')|(e & _ & [=])].
  unfold bind at 1, modify_session, modify, of_result in H'. injection H' as -> <-.
  change (wire (set_session _ c1)) with (wire c1). change (wire c) with (wire (set_pending None c)).
  assert (∀ resp, match resp with ResultSet _ _ | Wire _ => False | _ => True end →
    encode_then_write (Obligations.apply_obligations_to_response f64_to_string resp o) (set_pending None c)
      = Some (Ret (Ok (Ok tt), c1)) → served o (wire (set_pending None c)) (wire c1)) as Hresp.
  { intros resp Hn (ps & Ef & Ew & _)%encode_then_write_ok. by eapply served_response. }
  destruct Hp as [[Hp Hn]|[Hp Hn]]; rewrite Hp in E1.
  - destruct response as [| | |columns rows| | | | | |]; try (by eapply Hresp; [|exact E1]); [|done].
    rewrite Ho, orb_true_r in E1. cbn [orb] in E1. unfold session, bind at 1, gets in E1.
    apply bind_inv in E1 as [(st & c2 & E2 & E1)|(e & _ & [=])]. injection E1 as <-.
    apply run_io_ok in E2. by eapply served_windowed.
  - destruct response; try done. eapply (Hresp (RError code message)); [done|].
    unfold Obligations.apply_obligations_to_response. rewrite Ho. exact E1.
Qed.

Lemma note_error_wire response (c : C) r c' :
  note_error response c = Some (Ret (r, c')) → wire c' = wire c ∧ c_pending c' = c_pending c.
Proof. unfold note_error, frontend_protocol, bind, gets, modify_session, modify. by intros [= <- <-]. Qed.

Lemma keeps_pending_emit cfg d sub ct ep out lat code msg rule sql tables smp :
  keeps (c_pending : C → option Obl) (emit cfg d sub ct ep out lat code msg rule sql tables smp).
Proof. by apply emit_keeps. Qed.
Lemma keeps_pending_release idx : keeps (c_pending : C → option Obl) (release_permit idx).
Proof. by apply release_keeps. Qed.

Lemma map_response_wire response be fe :
  match map_response_types response be fe with Wire _ => match response with Wire _ => True | _ => False end | _ => True end.
Proof. unfold map_response_types. by destruct (protocol_eqb be fe), response. Qed.

Lemma complete_served cfg rd ct ep sql tables idx o original r (c c' : C) :
  Obligations.has_result_obligations o = true → c_pending c = None →
  match r with Ok (Wire _) => False | _ => True end →
  complete_outcome f64_to_string f64_is_finite sample_json cfg rd ct ep sql tables idx o original r c
    = Some (Ret (Ok tt, c')) → served o (wire c) (wire c').
Proof.
  intros Ho Hpn Hr. unfold complete_outcome, backend_protocol_of, frontend_protocol.
  unfold bind at 1 2, gets at 1 2. intros H'.
  apply bind_inv in H' as [(response & c1 & E1 & H')|(e & _ & [=])].
  assert (wire c1 = wire c ∧
    (c_pending c1 = Some o ∧ match response with Wire _ => False | _ => True end ∨
     c_pending c1 = None ∧ is_error response = true)) as [Hw Hc1].
  { destruct r as [resp|e]; unfold bind, modify, ret in E1.
    - rewrite Ho in E1. injection E1 as <- <-. split; [done|]. left. split; [done|].
      pose proof (map_response_wire resp (be_protocol (c_backend c)) (fe_protocol (c_frontend c))) as Hm.
      destruct resp; try done; destruct (map_response_types _ _ _); done.
    - injection E1 as <- <-. split; [done|]. by right. }
  apply bind_inv in H' as [(u & c2 & E2 & H')|(e & _ & [=])]. apply note_error_wire in E2 as [Hw2 Hp2].
  unfold session, bind at 1, gets in H'.
  apply bind_inv in H' as [(u3 & c3 & E3 & H')|(e & _ & [=])].
  pose proof (wire_keeps_emit _ _ _ _ _ _ _ _ _ _ _ _ _ _ _ _ E3) as Hw3. apply keeps_pending_emit in E3 as Hp3.
  apply bind_inv in H' as [(u4 & c4 & E4 & H')|(e & _ & [=])].
  pose proof (wire_keeps_release _ _ _ _ E4) as Hw4. apply keeps_pending_release in E4 as Hp4.
  apply bind_inv in H' as [([] & c5 & E5 & H')|(e & _ & [=])].
  assert (wire c' = wire c5) as Hw6 by (unfold modify in H'; injection H' as <-; by destruct original).
  rewrite Hw6, <-Hw, <-Hw2, <-Hw3, <-Hw4. eapply (encode_served cfg response); [done| |exact E5].
  rewrite Hp4, Hp3, Hp2. exact Hc1.
Qed.


(** ** The named-cursor branch *)

Lemma declare_runs cfg name select_sql hold (c : C) r c' :
  c_cursors c !! name = None →
  declare_cursor f64_to_string cfg name select_sql hold c = Some (Ret (r, c')) →
  c_audit c' = c_audit c ∧ c_tickets c' = c_tickets c ∧ c_plugins c' = c_plugins c ∧
  ∃ window out s', execute_outcome (Query select_sql) (c_session c) (Streaming window None) (c_backend c)
    = (out, s', c_backend c').
Proof.
  intros Hn. unfold declare_cursor. unfold bind at 1, gets at 1. rewrite Hn. intros H'.
  apply bind_inv in H' as [(out & c1 & E1 & H')|(e & E1 & ->)]; apply backend_execute_spec in E1 as (s' & b & E & ->).
  - assert (∀ X (f : C → X), deaf f → (∀ m c, f (set_cursors m c) = f c) → f c' = f (set_backend b s' c)) as Hkeep.
    { intros X f Hf Hm. match type of H' with ?m _ = _ => assert (keeps f m) as Hk end; [|by apply Hk in H'].
      destruct out as [[]| |]; unfold hold_cursor; keep_field; by (apply encode_keeps || auto). }
    rewrite !Hkeep by (by split). do 3 (split; [done|]). eauto.
  - do 3 (split; [done|]). eauto.
Qed.

(** A [DECLARE ... CURSOR FOR select] runs [select] on the backend whatever the
    policy, the tickets and the plugins say: none of them is consulted, the rows
    carry no obligation, and no event is recorded. *)
Theorem cursor_bypasses_policy cfg rd sql name select_sql hold (c : C) r c' :
  dangerous_command_capability (Query sql) (fe_protocol (c_frontend c)) = None →
  parse_named_cursor_sql sql = Some (CDeclare name select_sql hold) →
  c_route c = None → c_cursors c !! name = None →
  handle cfg rd (Query sql) c = Some (Ret (r, c')) →
  c_audit c' = c_audit c ∧ c_tickets c' = c_tickets c ∧ c_plugins c' = c_plugins c ∧
  ∃ window out s', execute_outcome (Query select_sql) (c_session c) (Streaming window None) (c_backend c)
    = (out, s', c_backend c').
Proof.
  intros Hd Hp Hr Hn. unfold handle_command, frontend_protocol, bind at 1, gets at 1. rewrite Hd.
  unfold bind at 1, route_command, bind at 1, gets at 1. rewrite Hr. unfold ret at 1, session, bind at 1, gets at 1.
  rewrite Hp. by apply declare_runs.
Qed.
End Stages.
