(* ===== verification/EngineRuns.v ===== *)
(** * Runs of the connection engine

    [Engine] and [EngineTheorems] at concrete connections: a backend that records
    what it is asked, a frontend that prints what it is given, and the policies of
    [AuthorizeTheorems].  The theorems on the engine are applied to them, and the
    runs show what the named-cursor branch, a refused translation and the paging of
    a portal do. *)

From S2P Require Import Prelude RustStr Model Session DangerousSql TimeRules StateCrypto Ticket TicketTheorems Obligations ObjectSet Security Pdp Authorize AuthorizeTheorems LoadBalance Route Plugin AuditEvents Transport Translation GatewayConfig RuntimePlan Cursor PdpStore Engine EngineTheorems.

#[local] Existing Instance AuthorizeTheorems.toy_remote.
#[local] Existing Instance TimeRules.toy_chrono.
#[local] Existing Instance StateCrypto.toy_crypto.
#[local] Existing Instance TicketTheorems.toy_json.
#[local] Existing Instance Authorize.store_gate.
#[local] Existing Instance LoadBalance.counter_rng.
#[local] Existing Instance Route.prefix_regex.
#[local] Instance run_flags : RegexFlags := { regex_build := λ _ p, Some p }.

(** Prints rows, error codes and completion tags. *)
Inductive Printer := mkPrinter (kind : ProtocolKind).

Definition print_response (r : GatewayResponse) : list str :=
  match r with
  | RError code _ => [$"error " ++ code]
  | TaggedResultSet _ rows tag => map show_row rows ++ [tag]
  | ResultSet _ rows => map show_row rows
  | CommandComplete tag => [tag]
  | _ => [$"other"]
  end.

#[local] Instance printer : FrontendProtocolAdapter Printer := {
  fe_protocol '(mkPrinter k) := k;
  fe_decode sql s f := Ret (Ok [Query sql], s, f);
  fe_encode r _ f := (Ok (print_response r), f);
  fe_header _ _ f := (Ok [], f);
  fe_rows _ rows _ f := (Ok (map show_row rows), f);
  fe_footer _ n _ _ f := (Ok [$"footer " ++ dec n], f)
}.

(** A table of three names; every execution is recorded. *)
Definition Recorder : Type := list (GatewayCommand * ExecuteMode).
Definition three_names : list Row := [row_of_str ($"ann"); row_of_str ($"bob"); row_of_str ($"cyd")].

#[local] Instance recorder : BackendConnector Recorder := {
  be_protocol _ := MySql;
  check_session_health b := (Ok tt, b);
  execute_outcome command s mode b :=
    (Ok (match mode with
         | Passthrough => OComplete (Wire [])
         | _ => OStreaming (mkStreaming name_column (VecRowStream three_names))
         end), s, b ++ [(command, mode)])
}.

Definition run_config : ConnConfig :=
  mkConnConfig ($"l1") ($"svc") None AuthorizeTheorems.mysql true ($"L1") false 0 0 Materialized false.

Definition bob_session : SessionState :=
  mkSession (Some ($"bob")) None None None None Idle false false false None false None 0 false [] false.

Definition start (s : SessionState) (kind : ProtocolKind) (plugins : option PluginPhase)
    : Conn (F := Printer) (Wr := CollectingWriter) (B := Recorder) (W := Ticket.World) (R := Z) :=
  mkConn (mkPrinter kind) (mkCollecting []) [] s None plugins None None ∅ AuthorizeTheorems.no_tickets [].

Definition readings (p : Pdp.LocalPdpInner) : CommandReadings :=
  mkCommandReadings 0 (Authorize.steady p) AuthorizeTheorems.toy_readings 1.

(** The statements of the runs end with their table. *)
Definition last_table (sql kind : str) : ObjectSet.ObjectSet :=
  ObjectSet.mkObjectSet (map (λ t, ObjectSet.new_object t Select) (match List.rev (split_whitespace sql) with t :: _ => [t] | [] => [] end)) false false.

Abbreviation run := (handle_command (λ _, []) (λ _, true) (λ _ _ _, []) last_table).

(** The packets the client got, the statements the backend ran, the events. *)
Definition seen {A} (r : fueled (GatewayResult A * Conn (F := Printer) (Wr := CollectingWriter) (B := Recorder) (W := Ticket.World) (R := Z)))
    : option (list str * list (GatewayCommand * ExecuteMode) * nat) :=
  match r with
  | Some (Ret (Ok _, c)) => Some (packets (c_writer c), c_backend c, length (c_audit c))
  | _ => None
  end.

(** ** The theorems at concrete inputs *)

Definition secret_select : GatewayCommand := Query ($"SELECT * FROM secret_keys").
Definition names_select : GatewayCommand := Query ($"SELECT name FROM people").
Definition guarded : CommandReadings := readings (AuthorizeTheorems.with_rules [AuthorizeTheorems.deny_secrets]).
Definition ready : Conn (F := Printer) (Wr := CollectingWriter) (B := Recorder) (W := Ticket.World) (R := Z) :=
  start bob_session MySql None.

Lemma plain_admitted rd command (c : Conn (F := Printer) (Wr := CollectingWriter) (B := Recorder) (W := Ticket.World) (R := Z)) :
  dangerous_command_capability command (fe_protocol (c_frontend c)) = None → c_route c = None → c_plugins c = None →
  admitted (λ _, []) run_config rd command c command None c.
Proof.
  intros Hd Hr Hp. apply (admitted_intro _ _ _ _ _ None c command None c); [done|..|done].
  - unfold route_command, bind, gets. by rewrite Hr.
  - unfold run_plugins, bind, gets. by rewrite Hp.
Qed.

Lemma recorder_lawful : streams_statements (B := Recorder).
Proof. intros command s n m b out s' b' _ [= <- _ _]. done. Qed.

(** The connection after a run. *)
Definition final {A} (r : fueled (GatewayResult A * Conn (F := Printer) (Wr := CollectingWriter) (B := Recorder) (W := Ticket.World) (R := Z)))
    : Conn (F := Printer) (Wr := CollectingWriter) (B := Recorder) (W := Ticket.World) (R := Z) :=
  match r with Some (Ret (_, c)) => c | _ => ready end.

Lemma backend_runs_only_allowed_witness :
  ∃ r c' o mode s out s',
    run run_config guarded names_select ready = Some (Ret (r, c')) ∧
    c_backend c' ≠ c_backend ready ∧
    decision last_table run_config guarded ready names_select = Ret (Pdp.Allow o, c_tickets ready) ∧
    execute_outcome names_select s mode (c_backend ready) = (out, s', c_backend c').
Proof.
  set (c' := final (run run_config guarded names_select ready)).
  assert (run run_config guarded names_select ready = Some (Ret (Ok tt, c'))) as E by (vm_compute; reflexivity).
  assert (length (c_backend c') = 1%nat) as Hl by (vm_compute; reflexivity).
  clearbody c'.
  assert (c_backend c' ≠ c_backend ready) as Hb by (intros Hb; by rewrite Hb in Hl).
  destruct (backend_runs_only_allowed (λ _, []) (λ _, true) (λ _ _ _, []) last_table run_config guarded names_select
    ready (Ok tt) c' eq_refl E) as [?|(command2 & idx & c2 & d & w & command3 & o & mode & s & out & s' & Ha & _ & _ & Hd & Hal & _ & Hx)];
    [intros sql [= <-]; by vm_compute|done|].
  inversion Ha as [plan c1 command1 idx' c2' command2' _ Hr Hp Ht]; subst.
  injection Hr as <- <-. injection Hp as <- <- <-. injection Ht as <-.
  assert (decision last_table run_config guarded ready names_select
    = Ret (Pdp.Allow Obligations.default_obligations, c_tickets ready)) as Hd' by (by vm_compute).
  rewrite Hd in Hd'. injection Hd' as -> ->. destruct Hal as [[[= <-] ->]|(t & [=] & _)].
  exists (Ok tt), c', Obligations.default_obligations, mode, s, out, s'. split; [exact E|]. split; [exact Hb|]. split; [exact Hd|exact Hx].
Defined.

Lemma refusal_is_recorded_witness :
  ∃ r c' e, run run_config guarded secret_select ready = Some (Ret (r, c')) ∧
    c_backend c' = [] ∧ c_audit c' = [e] ∧ ev_decision e = Some ($"deny") ∧
    ev_sql_text e = Some ($"SELECT * FROM secret_keys").
Proof.
  set (c' := final (run run_config guarded secret_select ready)).
  assert (run run_config guarded secret_select ready = Some (Ret (Ok tt, c'))) as E by (vm_compute; reflexivity).
  assert (∃ rule message w, decision last_table run_config guarded ready secret_select = Ret (Pdp.Deny rule message, w))
    as (rule & message & w & Ed) by (eexists _, _, _; vm_compute; reflexivity).
  clearbody c'.
  edestruct (refusal_is_recorded (λ _, []) (λ _, true) (λ _ _ _, []) last_table run_config guarded secret_select
    ready secret_select None ready (Pdp.Deny rule message) w (Ok tt) c') as (Hb & (e & He & Hr) & _);
    [done|intros sql [= <-]; by vm_compute|by apply plain_admitted; vm_compute|exact Ed|done|exact E|].
  destruct Hr as (_ & Hq & Hdec & _). exists (Ok tt), c', e. split; [exact E|]. split; [exact Hb|]. split; [exact He|]. split; [exact Hdec|exact Hq].
Defined.

Definition masked_names : Obl :=
  Obligations.mkObligations [Obligations.new_mask ($"name") Obligations.Replace ($"m")] None (Some 2) None None.


(** ** Runs that go around the policy *)

Abbreviation run_frame := (handle_commands (λ _, []) (λ _, true) (λ _ _ _, []) last_table).

(** The rows of a table that the policy denies ([refusal_is_recorded_witness]), read
    through a cursor: no error, no mask, no audit event. *)
Theorem cursor_reads_denied_table :
  seen (run_frame run_config (λ _, guarded) 0
          [Query ($"DECLARE c CURSOR FOR SELECT * FROM secret_keys"); Query ($"FETCH ALL FROM c")] ready) =
  Some ([$"DECLARE CURSOR"; $"ann"; $"bob"; $"cyd"; $"FETCH 3"],
        [(Query ($"SELECT * FROM secret_keys"), Streaming 256 None)], 0%nat).
Proof. vm_compute. reflexivity. Qed.

Definition one_at_a_time : option PluginPhase :=
  match new_phase (mkPluginConfig (Some [mkCcConfig [$"SELECT"] 1 60]) None) with Ret p => Some p | Panic => None end.

Definition no_translation : ConnConfig :=
  mkConnConfig ($"l1") ($"svc") (Some (mkTranslation ($"t") true PostgreSql MySql [])) AuthorizeTheorems.mysql true
    ($"L1") false 0 0 Materialized false.

(** A command that the translation refuses keeps its concurrency permit: with a limit
    of one, the next command is refused although nothing is running. *)
Theorem translation_reject_leaks_permit :
  seen (run_frame no_translation (λ _, guarded) 0 [names_select; names_select] (start bob_session PostgreSql one_at_a_time)) =
  Some ([$"error translation_error"; $"error concurrency_control"], [], 0%nat).
Proof. vm_compute. reflexivity. Qed.

(** The policy's row cap of two, and a client that asks for pages of two. *)
Definition capped : CommandReadings :=
  readings (Pdp.mkInner true ObjectSet.StarDeny [] [] [] [] [] (Some 2) Security.default_watermark None false None).

Definition paging : SessionState :=
  with_extended true false (with_page (Some 2) false (with_portal (Some ($"p")) 0 false bob_session)).

(** The cap holds within a page, not within a result: the portal resumes with a
    fresh cap, and the client reads all three rows. *)
Theorem page_cap_multiplies :
  let first := run run_config capped names_select (start paging PostgreSql None) in
  seen first = Some ([$"ann"; $"bob"; $"footer 2"], [(names_select, Streaming 256 (Some 2))], 1%nat) ∧
  seen (run run_config capped names_select (set_session paging (final first))) =
  Some ([$"ann"; $"bob"; $"footer 2"; $"cyd"; $"footer 1"], [(names_select, Streaming 256 (Some 2))], 2%nat).
Proof. vm_compute. done. Qed.
