(* ===== verification/PgProtocol.v ===== *)
(** * The PostgreSQL wire protocol

    [protocol/postgresql/src/lib.rs]: the messages a client sends, the start-up
    packets, and the encoders of the messages the gateway answers with.

    A byte string is a [str]; integers are read and written in network order.  The
    counts of [Parse] and [Bind] are read as [i16] and cast to [usize], so the
    decoder can panic ([Vec::with_capacity]) and is in the monad [pr]: a panic, an
    error or a value. *)

From S2P Require Import Prelude RustStr.

(** ** Bytes *)

Definition nul : ascii := "000"%char.
Definition is_nul (c : ascii) : bool := Ascii.eqb c nul.
Definition byte_val (c : ascii) : Z := Z.of_N (N_of_ascii c).

Definition be_unsigned (l : str) : Z := foldl (λ a c, a * 256 + byte_val c) 0 l.
Definition to_signed (bits v : Z) : Z := if v <? 2 ^ (bits - 1) then v else v - 2 ^ bits.

(** [BigEndian::read_i16], [read_i32], [read_i64]: of the first bytes of the slice. *)
Definition read_i16 (l : str) : Z := to_signed 16 (be_unsigned (take 2 l)).
Definition read_i32 (l : str) : Z := to_signed 32 (be_unsigned (take 4 l)).
Definition read_i64 (l : str) : Z := to_signed 64 (be_unsigned (take 8 l)).

(** [v.to_be_bytes()] of an integer of [k] bytes. *)
Fixpoint be_bytes (k : nat) (v : Z) (acc : str) : str :=
  match k with
  | O => acc
  | S k => be_bytes k (v / 256) (ascii_of_N (Z.to_N (v mod 256)) :: acc)
  end.
Definition i16_bytes (v : Z) : str := be_bytes 2 v [].
Definition i32_bytes (v : Z) : str := be_bytes 4 v [].
Definition i64_bytes (v : Z) : str := be_bytes 8 v [].

(** A signed integer [as usize]. *)
Definition as_usize (v : Z) : Z := v mod 2 ^ 64.

(** [Vec::with_capacity(n)] of elements of [size] bytes. *)
Definition with_capacity (size n : Z) : exec unit := if n * size <=? i64_max then Ret tt else Panic.

(** ** [std::str::from_utf8] *)

(** The first error: [valid_up_to], and [error_len] unless the text ends early. *)
Fixpoint utf8_error (i : nat) (s : str) : option (nat * option nat) :=
  match s with
  | [] => None
  | b0 :: s1 =>
      if byte_in 0 127 b0 then utf8_error (S i) s1
      else if byte_in 194 223 b0 then
        match s1 with
        | [] => Some (i, None)
        | b1 :: s2 => if is_cont b1 then utf8_error (i + 2) s2 else Some (i, Some 1%nat)
        end
      else if byte_in 224 239 b0 then
        match s1 with
        | [] => Some (i, None)
        | b1 :: s2 =>
            if (if Ascii.eqb b0 "224" then byte_in 160 191 b1
                else if Ascii.eqb b0 "237" then byte_in 128 159 b1 else is_cont b1) then
              match s2 with
              | [] => Some (i, None)
              | b2 :: s3 => if is_cont b2 then utf8_error (i + 3) s3 else Some (i, Some 2%nat)
              end
            else Some (i, Some 1%nat)
        end
      else if byte_in 240 244 b0 then
        match s1 with
        | [] => Some (i, None)
        | b1 :: s2 =>
            if (if Ascii.eqb b0 "240" then byte_in 144 191 b1
                else if Ascii.eqb b0 "244" then byte_in 128 143 b1 else is_cont b1) then
              match s2 with
              | [] => Some (i, None)
              | b2 :: s3 =>
                  if is_cont b2 then
                    match s3 with
                    | [] => Some (i, None)
                    | b3 :: s4 => if is_cont b3 then utf8_error (i + 4) s4 else Some (i, Some 3%nat)
                    end
                  else Some (i, Some 2%nat)
              end
            else Some (i, Some 1%nat)
        end
      else Some (i, Some 1%nat)
  end.

Definition utf8_error_to_string (e : nat * option nat) : str :=
  let index := $" from index " ++ dec (Z.of_nat e.1) in
  match e.2 with
  | Some n => $"invalid utf-8 sequence of " ++ dec (Z.of_nat n) ++ $" bytes" ++ index
  | None => $"incomplete utf-8 byte sequence" ++ index
  end.

(** The bytes are a Rust [str]. *)
Definition is_utf8 (s : str) : bool := is_none (utf8_error 0 s).

(** ** Messages *)

Definition PROTOCOL_VERSION_3 : Z := 196608.
Definition SSL_REQUEST_CODE : Z := 80877103.
Definition CANCEL_REQUEST_CODE : Z := 80877102.
Definition MAX_STARTUP_PACKET_LEN : Z := 1024 * 1024.

Inductive ProtocolError :=
| InvalidLength (expected : option Z) (actual : Z)
| InvalidProtocolVersion (version : Z)
| UnsupportedFrontendMessage (tag : ascii)
| InvalidUtf8 (error : str)
| MissingTerminator
| MalformedStartupParameters
| MalformedCString.

Definition pg_error_to_string (e : ProtocolError) : str :=
  match e with
  | InvalidLength (Some n) a => $"invalid postgresql packet length: expected " ++ dec n ++ $", got " ++ dec a
  | InvalidLength None a => $"invalid postgresql packet length: " ++ dec a
  | InvalidProtocolVersion v => $"unsupported postgresql protocol version " ++ dec_signed v
  | UnsupportedFrontendMessage t => $"unsupported postgresql frontend message '" ++ push_byte t ++ $"'"
  | InvalidUtf8 m => $"invalid postgresql utf8: " ++ m
  | MissingTerminator => $"postgresql startup parameters are missing a null terminator"
  | MalformedStartupParameters => $"malformed postgresql startup parameters"
  | MalformedCString => $"malformed postgresql cstring"
  end.

Record StartupMessage := mkStartup { protocol_version : Z; parameters : gmap str str }.

Definition startup_get (m : StartupMessage) (name : str) : option str := parameters m !! name.

Inductive StartupPacket :=
| Startup (m : StartupMessage)
| SslRequest
| CancelRequest (process_id secret_key : Z).

Inductive FrontendMessage :=
| FQuery (sql : str)
| FTerminate
| FSync
| FParse (statement query : str) (param_types : list Z)
| FBind (portal statement : str) (params : list (option str)) (result_formats : list Z)
| FDescribe (target : ascii) (name : str)
| FExecute (portal : str) (max_rows : Z)
| FClose (target : ascii) (name : str)
| FFlush.

Record FieldDescription := mkField {
  field_name : str;
  type_oid : Z;
  type_size : Z;
  type_modifier : Z;
  format_code : Z
}.

Inductive TransactionStatus := StIdle | StInTransaction | StFailed.

Definition status_as_byte (s : TransactionStatus) : ascii :=
  match s with StIdle => "I"%char | StInTransaction => "T"%char | StFailed => "E"%char end.

(** ** Decoding *)

Abbreviation pr A := (exec (result ProtocolError A)).
Definition pr_bind {A B} (m : pr A) (k : A → pr B) : pr B :=
  match m with
  | Ret (Ok a) => k a
  | Ret (Err e) => Ret (Err e)
  | Panic => Panic
  end.
Notation "x ⇐ m ; k" := (pr_bind m (λ x, k)) (at level 20, m at level 100, k at level 200, right associativity).
Notation "' x ⇐ m ; k" := (pr_bind m (λ 'x, k)) (at level 20, x pattern, m at level 100, k at level 200, right associativity).

Abbreviation len s := (Z.of_nat (length s)).

Definition decode_utf8 (bytes : str) : result ProtocolError str :=
  match utf8_error 0 bytes with
  | None => Ok bytes
  | Some e => Err (InvalidUtf8 (utf8_error_to_string e))
  end.

(** [find_null(payload, offset)], with the payload dropped up to the offset. *)
Definition find_null (payload : str) : option nat := position is_nul payload.

Definition require_empty_body (body : str) : result ProtocolError unit :=
  if is_empty body then Ok tt else Err (InvalidLength (Some 5) (len body + 5)).

Definition split_cstring (input : str) : result ProtocolError (str * str) :=
  match find_null input with
  | None => Err MalformedCString
  | Some n => s ← decode_utf8 (take n input); Ok (s, drop (S n) input)
  end.

Definition decode_single_cstring (payload : str) : result ProtocolError str :=
  match find_null payload with
  | None => Err MissingTerminator
  | Some n => if negb (S n =? length payload)%nat then Err MalformedCString else decode_utf8 (take n payload)
  end.

(** A slice of [size] bytes at [offset], or the error of the length check. *)
Definition need (rest : str) (offset size : nat) : result ProtocolError str :=
  if (length rest <? offset + size)%nat then Err (InvalidLength (Some (Z.of_nat (offset + size))) (len rest))
  else Ok (drop offset rest).

Fixpoint read_types (n : nat) (rest : str) (offset : nat) : result ProtocolError (list Z * nat) :=
  match n with
  | O => Ok ([], offset)
  | S n =>
      raw ← need rest offset 4;
      '(types, offset) ← read_types n rest (offset + 4);
      Ok (read_i32 raw :: types, offset)
  end.

Fixpoint read_formats (n : nat) (rest : str) (offset : nat) : result ProtocolError (list Z * nat) :=
  match n with
  | O => Ok ([], offset)
  | S n =>
      raw ← need rest offset 2;
      let fmt := read_i16 raw in
      if negb (fmt =? 0) && negb (fmt =? 1) then Err (UnsupportedFrontendMessage "B")
      else
        '(formats, offset) ← read_formats n rest (offset + 2);
        Ok (fmt :: formats, offset)
  end.

Definition decode_pg_binary_param_to_text (raw : str) : result ProtocolError str :=
  match raw with
  | [] => Ok []
  | [b] => Ok (if is_nul b then $"false" else $"true")
  | _ =>
      if (length raw =? 2)%nat then Ok (dec_signed (read_i16 raw))
      else if (length raw =? 4)%nat then Ok (dec_signed (read_i32 raw))
      else if (length raw =? 8)%nat then Ok (dec_signed (read_i64 raw))
      else if is_utf8 raw then Ok raw
      else Err (UnsupportedFrontendMessage "B")
  end.

Definition param_format (formats : list Z) (i : nat) : Z :=
  match formats with
  | [] => 0
  | [f] => f
  | _ => default 0 (formats !! i)
  end.

Definition decode_param (fmt : Z) (raw : str) : result ProtocolError str :=
  if fmt =? 0 then
    if existsb is_nul raw && ((length raw =? 2)%nat || (length raw =? 4)%nat || (length raw =? 8)%nat)
    then decode_pg_binary_param_to_text raw
    else decode_utf8 raw
  else decode_pg_binary_param_to_text raw.

Fixpoint read_params (formats : list Z) (n i : nat) (rest : str) (offset : nat)
    : result ProtocolError (list (option str) * nat) :=
  match n with
  | O => Ok ([], offset)
  | S n =>
      raw ← need rest offset 4;
      let size := read_i32 raw in
      let offset := (offset + 4)%nat in
      '(value, offset) ←
        (if size <? 0 then Ok (None, offset)
         else
           raw ← need rest offset (Z.to_nat size);
           value ← decode_param (param_format formats i) (take (Z.to_nat size) raw);
           Ok (Some value, (offset + Z.to_nat size)%nat));
      '(values, offset) ← read_params formats n (S i) rest offset;
      Ok (value :: values, offset)
  end.

Definition end_of_body (rest : str) (offset : nat) : result ProtocolError unit :=
  if negb (offset =? length rest)%nat then Err (InvalidLength (Some (Z.of_nat offset)) (len rest)) else Ok tt.

(** The count at [offset]: the check, the cast, the allocation of [size] bytes per
    element. *)
Definition read_count (size : Z) (rest : str) (offset : nat) : pr nat :=
  raw ⇐ Ret (need rest offset 2);
  let n := as_usize (read_i16 raw) in
  match with_capacity size n with Ret _ => Ret (Ok (Z.to_nat n)) | Panic => Panic end.

Definition decode_parse_body (body : str) : pr FrontendMessage :=
  '(statement, rest) ⇐ Ret (split_cstring body);
  '(query, rest) ⇐ Ret (split_cstring rest);
  n ⇐ read_count 4 rest 0;
  '(param_types, offset) ⇐ Ret (read_types n rest 2);
  _ ⇐ Ret (end_of_body rest offset);
  Ret (Ok (FParse statement query param_types)).

Definition decode_bind_body (body : str) : pr FrontendMessage :=
  '(portal, rest) ⇐ Ret (split_cstring body);
  '(statement, rest) ⇐ Ret (split_cstring rest);
  n ⇐ read_count 2 rest 0;
  '(param_formats, offset) ⇐ Ret (read_formats n rest 2);
  n ⇐ read_count 24 rest offset;
  '(params, offset) ⇐ Ret (read_params param_formats n 0 rest (offset + 2));
  n ⇐ read_count 2 rest offset;
  '(result_formats, offset) ⇐ Ret (read_formats n rest (offset + 2));
  _ ⇐ Ret (end_of_body rest offset);
  Ret (Ok (FBind portal statement params result_formats)).

Definition decode_describe_or_close_body (body : str) (is_describe : bool) : result ProtocolError FrontendMessage :=
  match body with
  | [] => Err (InvalidLength (Some 1) 0)
  | target :: body =>
      '(name, rest) ← split_cstring body;
      if negb (is_empty rest) then Err (InvalidLength (Some 0) (len rest))
      else Ok (if is_describe then FDescribe target name else FClose target name)
  end.

Definition decode_execute_body (body : str) : result ProtocolError FrontendMessage :=
  '(portal, rest) ← split_cstring body;
  if negb (length rest =? 4)%nat then Err (InvalidLength (Some 4) (len rest))
  else Ok (FExecute portal (read_i32 rest)).

Definition decode_frontend_message (frame : str) : pr FrontendMessage :=
  match frame with
  | tag :: rest =>
      if (length frame <? 5)%nat then Ret (Err (InvalidLength None (len frame)))
      else
        let declared := read_i32 rest in
        if declared <? 4 then Ret (Err (InvalidLength None (Z.max declared 0)))
        else if negb (declared + 1 =? len frame) then Ret (Err (InvalidLength (Some (declared + 1)) (len frame)))
        else
          let body := drop 4 rest in
          if Ascii.eqb tag "Q" then Ret (sql ← decode_single_cstring body; Ok (FQuery sql))
          else if Ascii.eqb tag "X" then Ret (_ ← require_empty_body body; Ok FTerminate)
          else if Ascii.eqb tag "S" then Ret (_ ← require_empty_body body; Ok FSync)
          else if Ascii.eqb tag "H" then Ret (_ ← require_empty_body body; Ok FFlush)
          else if Ascii.eqb tag "P" then decode_parse_body body
          else if Ascii.eqb tag "B" then decode_bind_body body
          else if Ascii.eqb tag "D" then Ret (decode_describe_or_close_body body true)
          else if Ascii.eqb tag "E" then Ret (decode_execute_body body)
          else if Ascii.eqb tag "C" then Ret (decode_describe_or_close_body body false)
          else Ret (Err (UnsupportedFrontendMessage tag))
  | [] => Ret (Err (InvalidLength None 0))
  end.

(** The loop from an offset on, with the payload dropped up to it. *)
Fixpoint startup_loop (fuel : nat) (payload : str) (ps : gmap str str) : result ProtocolError (gmap str str) :=
  match fuel with
  | O => Err MissingTerminator
  | S fuel =>
      match find_null payload with
      | None => Err MissingTerminator
      | Some O => if negb (length payload =? 1)%nat then Err MalformedStartupParameters else Ok ps
      | Some k =>
          let value := drop (S k) payload in
          match find_null value with
          | None => Err MissingTerminator
          | Some j =>
              key ← decode_utf8 (take k payload);
              text ← decode_utf8 (take j value);
              startup_loop fuel (drop (S j) value) (<[key := text]> ps)
          end
      end
  end.

Definition decode_startup_parameters (payload : str) : result ProtocolError (gmap str str) :=
  match last payload with
  | Some c => if is_nul c then startup_loop (S (length payload)) payload ∅ else Err MissingTerminator
  | None => Err MissingTerminator
  end.

Definition decode_startup_packet (frame : str) : result ProtocolError StartupPacket :=
  if (len frame <? 8) || (MAX_STARTUP_PACKET_LEN <? len frame) then Err (InvalidLength None (len frame))
  else
    let declared := read_i32 frame in
    if declared <? 8 then Err (InvalidLength None (Z.max declared 0))
    else if negb (declared =? len frame) then Err (InvalidLength (Some declared) (len frame))
    else
      let code := read_i32 (drop 4 frame) in
      if code =? SSL_REQUEST_CODE then
        if negb (declared =? 8) then Err (InvalidLength (Some 8) declared) else Ok SslRequest
      else if code =? CANCEL_REQUEST_CODE then
        if negb (declared =? 16) then Err (InvalidLength (Some 16) declared)
        else Ok (CancelRequest (read_i32 (drop 8 frame)) (read_i32 (drop 12 frame)))
      else if code =? PROTOCOL_VERSION_3 then
        ps ← decode_startup_parameters (drop 8 frame);
        Ok (Startup (mkStartup PROTOCOL_VERSION_3 ps))
      else Err (InvalidProtocolVersion code).

(** ** Encoding *)

(** [(body.len() + 4) as i32] wraps as its four bytes do. *)
Definition encode_message (tag : ascii) (body : str) : str := tag :: i32_bytes (len body + 4) ++ body.
Definition encode_untagged_packet (body : str) : str := i32_bytes (len body + 4) ++ body.

Definition cstring (s : str) : str := s ++ [nul].

Definition encode_parse_complete : str := encode_message "1" [].
Definition encode_bind_complete : str := encode_message "2" [].
Definition encode_close_complete : str := encode_message "3" [].
Definition encode_no_data : str := encode_message "n" [].
Definition encode_portal_suspended : str := encode_message "s" [].
Definition encode_terminate_message : str := encode_message "X" [].
Definition encode_sync_message : str := encode_message "S" [].
Definition encode_authentication_ok : str := encode_message "R" (i32_bytes 0).
Definition encode_query_message (sql : str) : str := encode_message "Q" (cstring sql).
Definition encode_command_complete (tag : str) : str := encode_message "C" (cstring tag).
Definition encode_ready_for_query (s : TransactionStatus) : str := encode_message "Z" [status_as_byte s].
Definition encode_parameter_status (name value : str) : str := encode_message "S" (cstring name ++ cstring value).
Definition encode_backend_key_data (process_id secret_key : Z) : str :=
  encode_message "K" (i32_bytes process_id ++ i32_bytes secret_key).
Definition encode_parameter_description (type_oids : list Z) : str :=
  encode_message "t" (i16_bytes (Z.of_nat (length type_oids)) ++ concat (map i32_bytes type_oids)).

Definition error_field (tag : ascii) (value : str) : str := tag :: cstring value.
Definition encode_error_response (severity code message : str) : str :=
  encode_message "E" (error_field "S" severity ++ error_field "C" code ++ error_field "M" message ++ [nul]).

Definition encode_startup_message (ps : list (str * str)) : str :=
  encode_untagged_packet
    (i32_bytes PROTOCOL_VERSION_3 ++ concat (map (λ p, cstring p.1 ++ cstring p.2) ps) ++ [nul]).
Definition encode_ssl_request : str := encode_untagged_packet (i32_bytes SSL_REQUEST_CODE).
Definition encode_cancel_request (process_id secret_key : Z) : str :=
  encode_untagged_packet (i32_bytes CANCEL_REQUEST_CODE ++ i32_bytes process_id ++ i32_bytes secret_key).

Definition checked (max n : Z) : result ProtocolError Z :=
  if n <=? max then Ok n else Err (InvalidLength None n).
Definition checked_i16 (n : nat) : result ProtocolError Z := checked 32767 (Z.of_nat n).
Definition checked_i32 (n : nat) : result ProtocolError Z := checked i32_max (Z.of_nat n).

Definition field_bytes (f : FieldDescription) : str :=
  cstring (field_name f) ++ i32_bytes 0 ++ i16_bytes 0 ++ i32_bytes (type_oid f) ++ i16_bytes (type_size f)
  ++ i32_bytes (type_modifier f) ++ i16_bytes (format_code f).

Definition encode_row_description (fields : list FieldDescription) : result ProtocolError str :=
  n ← checked_i16 (length fields);
  Ok (encode_message "T" (i16_bytes n ++ concat (map field_bytes fields))).

Definition cell_bytes (value : option str) : result ProtocolError str :=
  match value with
  | Some v => n ← checked_i32 (length v); Ok (i32_bytes n ++ v)
  | None => Ok (i32_bytes (-1))
  end.

Fixpoint cells_bytes (values : list (option str)) : result ProtocolError str :=
  match values with
  | [] => Ok []
  | v :: values => a ← cell_bytes v; b ← cells_bytes values; Ok (a ++ b)
  end.

Definition encode_data_row (values : list (option str)) : result ProtocolError str :=
  n ← checked_i16 (length values);
  body ← cells_bytes values;
  Ok (encode_message "D" (i16_bytes n ++ body)).

(** ** Integers on the wire *)

Lemma be_bytes_app k v acc : be_bytes k v acc = be_bytes k v [] ++ acc.
Proof.
  revert v acc. induction k as [|k IH]; intros v acc; [done|]. cbn [be_bytes].
  rewrite IH, (IH _ [_]). by rewrite <-app_assoc.
Qed.

Lemma be_bytes_length k v : length (be_bytes k v []) = k.
Proof.
  revert v. induction k as [|k IH]; intros v; [done|]. cbn [be_bytes].
  rewrite be_bytes_app, length_app, IH. simpl. lia.
Qed.

Lemma byte_val_mod v : byte_val (ascii_of_N (Z.to_N (v mod 256))) = v mod 256.
Proof.
  pose proof (Z.mod_pos_bound v 256 ltac:(lia)). unfold byte_val. rewrite N_ascii_embedding by lia. lia.
Qed.

Lemma be_unsigned_snoc l c : be_unsigned (l ++ [c]) = be_unsigned l * 256 + byte_val c.
Proof. unfold be_unsigned. by rewrite foldl_app. Qed.

Lemma be_unsigned_bytes k v : be_unsigned (be_bytes k v []) = v mod 256 ^ Z.of_nat k.
Proof.
  revert v. induction k as [|k IH]; intros v; [by rewrite Z.mod_1_r|]. cbn [be_bytes].
  rewrite be_bytes_app, be_unsigned_snoc, IH, byte_val_mod, Nat2Z.inj_succ, Z.pow_succ_r by lia.
  rewrite (Z.rem_mul_r v 256 (256 ^ Z.of_nat k)) by (pose proof (Z.pow_pos_nonneg 256 (Z.of_nat k)); lia). lia.
Qed.

Lemma to_signed_mod bits v : 0 < bits → - 2 ^ (bits - 1) ≤ v < 2 ^ (bits - 1) → to_signed bits (v mod 2 ^ bits) = v.
Proof.
  intros Hb Hv. assert (2 ^ bits = 2 * 2 ^ (bits - 1)) as E by (rewrite <-Z.pow_succ_r by lia; f_equal; lia).
  unfold to_signed. destruct (Z_lt_dec v 0) as [Hn|Hn].
  - rewrite <-(Z_mod_plus_full v 1 (2 ^ bits)), Z.mod_small by lia. case_match eqn:Hc; lia.
  - rewrite Z.mod_small by lia. case_match eqn:Hc; lia.
Qed.

Lemma read_i16_bytes v rest : -32768 ≤ v < 32768 → read_i16 (i16_bytes v ++ rest) = v.
Proof.
  intros Hv. unfold read_i16, i16_bytes. rewrite take_app_length' by (by rewrite be_bytes_length).
  rewrite be_unsigned_bytes. by apply (to_signed_mod 16).
Qed.

Lemma read_i32_bytes v rest : -2147483648 ≤ v < 2147483648 → read_i32 (i32_bytes v ++ rest) = v.
Proof.
  intros Hv. unfold read_i32, i32_bytes. rewrite take_app_length' by (by rewrite be_bytes_length).
  rewrite be_unsigned_bytes. by apply (to_signed_mod 32).
Qed.

Lemma i16_length v : length (i16_bytes v) = 2%nat.
Proof. apply be_bytes_length. Qed.
Lemma i32_length v : length (i32_bytes v) = 4%nat.
Proof. apply be_bytes_length. Qed.

(** ** What a client sends *)

(** A text that can be sent as a zero-terminated string. *)
Definition sendable_text (s : str) : Prop := (nul ∉ s) ∧ is_utf8 s = true.

Definition param_bytes (p : option str) : str :=
  match p with Some v => i32_bytes (len v) ++ v | None => i32_bytes (-1) end.

(** The layouts of the protocol's documentation; parameters in text format. *)
Definition client_body (m : FrontendMessage) : str :=
  match m with
  | FQuery sql => cstring sql
  | FTerminate | FSync | FFlush => []
  | FParse statement query types =>
      cstring statement ++ cstring query ++ i16_bytes (Z.of_nat (length types)) ++ concat (map i32_bytes types)
  | FBind portal statement params formats =>
      cstring portal ++ cstring statement ++ i16_bytes 0 ++ i16_bytes (Z.of_nat (length params))
      ++ concat (map param_bytes params) ++ i16_bytes (Z.of_nat (length formats)) ++ concat (map i16_bytes formats)
  | FDescribe target name | FClose target name => target :: cstring name
  | FExecute portal max_rows => cstring portal ++ i32_bytes max_rows
  end.

Definition client_tag (m : FrontendMessage) : ascii :=
  match m with
  | FQuery _ => "Q" | FTerminate => "X" | FSync => "S" | FFlush => "H" | FParse _ _ _ => "P" | FBind _ _ _ _ => "B"
  | FDescribe _ _ => "D" | FExecute _ _ => "E" | FClose _ _ => "C"
  end%char.

Definition client_message (m : FrontendMessage) : str := encode_message (client_tag m) (client_body m).

Definition sendable (m : FrontendMessage) : Prop :=
  len (client_body m) < 2147483643 ∧
  match m with
  | FQuery sql => sendable_text sql
  | FTerminate | FSync | FFlush => True
  | FParse statement query types =>
      sendable_text statement ∧ sendable_text query ∧ Z.of_nat (length types) ≤ 32767 ∧
      Forall (λ t, -2147483648 ≤ t < 2147483648) types
  | FBind portal statement params formats =>
      sendable_text portal ∧ sendable_text statement ∧ Z.of_nat (length params) ≤ 32767 ∧
      Forall (λ p, ∀ v, p = Some v → sendable_text v) params ∧
      Z.of_nat (length formats) ≤ 32767 ∧ Forall (λ f, f = 0 ∨ f = 1) formats
  | FDescribe _ name | FClose _ name => sendable_text name
  | FExecute portal max_rows => sendable_text portal ∧ -2147483648 ≤ max_rows < 2147483648
  end.

Lemma find_null_app s rest : nul ∉ s → find_null (s ++ nul :: rest) = Some (length s).
Proof.
  intros Hs. apply position_spec. split.
  - exists nul. by rewrite lookup_app_r, Nat.sub_diag by lia.
  - intros j y Hj Hy. rewrite lookup_app_l in Hy by lia. apply Ascii.eqb_neq. intros ->.
    apply Hs. by eapply list_elem_of_lookup_2.
Qed.

Lemma decode_utf8_ok s : is_utf8 s = true → decode_utf8 s = Ok s.
Proof. unfold is_utf8, decode_utf8. by destruct (utf8_error 0 s). Qed.

Lemma cstring_app s rest : cstring s ++ rest = s ++ nul :: rest.
Proof. unfold cstring. by rewrite <-app_assoc. Qed.

Lemma find_cstring s rest : nul ∉ s → find_null (cstring s ++ rest) = Some (length s).
Proof. intros. rewrite cstring_app. by apply find_null_app. Qed.
Lemma take_cstring s rest : take (length s) (cstring s ++ rest) = s.
Proof. rewrite cstring_app. apply take_app_length. Qed.
Lemma drop_cstring s rest : drop (S (length s)) (cstring s ++ rest) = rest.
Proof. apply drop_app_length'. unfold cstring. rewrite length_app. simpl. lia. Qed.

Lemma split_cstring_ok s rest : sendable_text s → split_cstring (cstring s ++ rest) = Ok (s, rest).
Proof.
  intros [Hn Hu]. unfold split_cstring. rewrite find_cstring, take_cstring, drop_cstring by done.
  by rewrite decode_utf8_ok.
Qed.

(** Reading at the end of a prefix. *)
Lemma need_app pre mid post n :
  n = length pre → need (pre ++ mid ++ post) n (length mid) = Ok (mid ++ post).
Proof.
  intros ->. unfold need. rewrite !length_app. case_match eqn:E; [apply Nat.ltb_lt in E; lia|].
  by rewrite drop_app_length.
Qed.

Lemma need_start mid post : need (mid ++ post) 0 (length mid) = Ok (mid ++ post).
Proof. by apply (need_app []). Qed.

Lemma read_count_ok size pre post n k :
  0 < size ≤ 24 → Z.of_nat n ≤ 32767 → k = length pre →
  read_count size (pre ++ i16_bytes (Z.of_nat n) ++ post) k = Ret (Ok n).
Proof.
  intros Hs Hn Hk. unfold read_count. rewrite <-(i16_length (Z.of_nat n)) at 1. rewrite need_app by done.
  cbn [pr_bind]. rewrite read_i16_bytes by lia. unfold as_usize. rewrite Z.mod_small by lia.
  unfold with_capacity, i64_max. rewrite (proj2 (Z.leb_le _ _)) by nia. by rewrite Nat2Z.id.
Qed.

Lemma read_count_start size post n :
  0 < size ≤ 24 → Z.of_nat n ≤ 32767 → read_count size (i16_bytes (Z.of_nat n) ++ post) 0 = Ret (Ok n).
Proof. intros. by apply (read_count_ok size []). Qed.

Lemma read_types_ok types pre post k :
  Forall (λ t, -2147483648 ≤ t < 2147483648) types → k = length pre →
  read_types (length types) (pre ++ concat (map i32_bytes types) ++ post) k
  = Ok (types, (k + length (concat (map i32_bytes types)))%nat).
Proof.
  intros Ht. revert pre k. induction types as [|t types IH]; intros pre k ->; [by rewrite Nat.add_0_r|].
  apply Forall_cons in Ht as [Ht Hts]. cbn [length read_types map concat].
  rewrite <-app_assoc, <-(i32_length t), need_app by done. cbn [mbind result_bind].
  rewrite read_i32_bytes by done.
  rewrite (app_assoc pre), i32_length, IH by (done || rewrite length_app, i32_length; lia).
  cbn [mbind result_bind]. rewrite length_app, i32_length. do 2 f_equal. lia.
Qed.

Lemma read_formats_ok formats pre post k :
  Forall (λ f, f = 0 ∨ f = 1) formats → k = length pre →
  read_formats (length formats) (pre ++ concat (map i16_bytes formats) ++ post) k
  = Ok (formats, (k + length (concat (map i16_bytes formats)))%nat).
Proof.
  intros Hf. revert pre k. induction formats as [|f formats IH]; intros pre k ->; [by rewrite Nat.add_0_r|].
  apply Forall_cons in Hf as [Hf Hfs]. cbn [length read_formats map concat].
  rewrite <-app_assoc, <-(i16_length f), need_app by done. cbn [mbind result_bind].
  rewrite read_i16_bytes by (destruct Hf; lia).
  assert (negb (f =? 0) && negb (f =? 1) = false) as -> by (destruct Hf as [-> | ->]; done).
  rewrite (app_assoc pre), i16_length, IH by (done || rewrite length_app, i16_length; lia).
  cbn [mbind result_bind]. rewrite length_app, i16_length. do 2 f_equal. lia.
Qed.

Lemma existsb_nul_false s : nul ∉ s → existsb is_nul s = false.
Proof.
  intros Hs. destruct (existsb is_nul s) eqn:E; [|done].
  apply existsb_elem in E as (c & Hc & ->%Ascii.eqb_eq). done.
Qed.

Lemma read_params_ok params pre post i k :
  Forall (λ p, ∀ v, p = Some v → sendable_text v ∧ len v < 2147483648) params → k = length pre →
  read_params [] (length params) i (pre ++ concat (map param_bytes params) ++ post) k
  = Ok (params, (k + length (concat (map param_bytes params)))%nat).
Proof.
  intros Hp. revert pre k i. induction params as [|p params IH]; intros pre k i ->; [by rewrite Nat.add_0_r|].
  apply Forall_cons in Hp as [Hp Hps]. cbn [length read_params map concat].
  destruct p as [v|]; cbn [param_bytes]; rewrite <-!app_assoc.
  - destruct (Hp v eq_refl) as [[Hn Hu] Hl]. rewrite <-(i32_length (len v)) at 1. rewrite need_app by done.
    cbn [mbind result_bind]. rewrite read_i32_bytes by lia. rewrite (proj2 (Z.ltb_ge _ _)) by lia. rewrite Nat2Z.id.
    rewrite (app_assoc pre), need_app by (rewrite length_app, i32_length; lia). cbn [mbind result_bind].
    rewrite take_app_length. unfold decode_param, param_format. cbn [Z.eqb].
    rewrite existsb_nul_false by done. cbn [andb]. rewrite decode_utf8_ok by done. cbn [mbind result_bind].
    rewrite (app_assoc (pre ++ _)), IH by (done || rewrite !length_app, i32_length; lia).
    cbn [mbind result_bind]. do 2 f_equal. rewrite !length_app, i32_length. lia.
  - rewrite <-(i32_length (-1)) at 1. rewrite need_app by done. cbn [mbind result_bind].
    rewrite read_i32_bytes by lia. cbn [Z.ltb Z.compare mbind result_bind].
    rewrite (app_assoc pre), IH by (done || rewrite length_app, i32_length; lia).
    cbn [mbind result_bind]. do 2 f_equal. rewrite length_app, i32_length. lia.
Qed.

(** A well-framed message is decoded by its tag from its body. *)
Lemma decode_framed tag body :
  len body < 2147483643 →
  decode_frontend_message (encode_message tag body) =
  (if Ascii.eqb tag "Q" then Ret (sql ← decode_single_cstring body; Ok (FQuery sql))
   else if Ascii.eqb tag "X" then Ret (_ ← require_empty_body body; Ok FTerminate)
   else if Ascii.eqb tag "S" then Ret (_ ← require_empty_body body; Ok FSync)
   else if Ascii.eqb tag "H" then Ret (_ ← require_empty_body body; Ok FFlush)
   else if Ascii.eqb tag "P" then decode_parse_body body
   else if Ascii.eqb tag "B" then decode_bind_body body
   else if Ascii.eqb tag "D" then Ret (decode_describe_or_close_body body true)
   else if Ascii.eqb tag "E" then Ret (decode_execute_body body)
   else if Ascii.eqb tag "C" then Ret (decode_describe_or_close_body body false)
   else Ret (Err (UnsupportedFrontendMessage tag))).
Proof.
  intros Hl. unfold encode_message. cbn [decode_frontend_message].
  assert (length (tag :: i32_bytes (len body + 4) ++ body) = 5 + length body)%nat as El
    by (cbn [length]; rewrite length_app, i32_length; lia).
  rewrite El, read_i32_bytes by lia.
  rewrite (proj2 (Nat.ltb_ge _ _)), (proj2 (Z.ltb_ge _ _)) by lia.
  rewrite (proj2 (Z.eqb_eq _ _)) by lia. cbn [negb].
  by rewrite drop_app_length' by (by rewrite i32_length).
Qed.

Lemma decode_parse_ok statement query types :
  sendable (FParse statement query types) →
  decode_parse_body (client_body (FParse statement query types)) = Ret (Ok (FParse statement query types)).
Proof.
  intros (_ & Hs & Hq & Hn & Ht). unfold decode_parse_body, client_body.
  rewrite split_cstring_ok by done. cbn [pr_bind]. rewrite split_cstring_ok by done. cbn [pr_bind].
  rewrite read_count_start by (done || lia). cbn [pr_bind].
  rewrite <-(app_nil_r (concat _)) at 1. rewrite read_types_ok by (done || by rewrite i16_length). cbn [pr_bind].
  unfold end_of_body. rewrite length_app, i16_length, Nat.eqb_refl. done.
Qed.

Lemma params_fit params n :
  len (concat (map param_bytes params)) ≤ n →
  Forall (λ p, ∀ v, p = Some v → sendable_text v) params →
  Forall (λ p, ∀ v, p = Some v → sendable_text v ∧ len v < n) params.
Proof.
  induction params as [|p params IH]; [done|]. cbn [map concat]. rewrite length_app, !Forall_cons.
  intros Hl [Hp Hps]. split; [|apply IH; [lia|done]].
  intros v ->. split; [by apply Hp|]. cbn [param_bytes] in Hl. rewrite length_app, i32_length in Hl. lia.
Qed.

Lemma decode_bind_ok portal statement params formats :
  sendable (FBind portal statement params formats) →
  decode_bind_body (client_body (FBind portal statement params formats))
  = Ret (Ok (FBind portal statement params formats)).
Proof.
  intros (Hl & Hp & Hs & Hn & Hv & Hm & Hf). unfold decode_bind_body, client_body.
  rewrite split_cstring_ok by done. cbn [pr_bind]. rewrite split_cstring_ok by done. cbn [pr_bind].
  rewrite (read_count_start 2 _ 0) by (done || lia). cbn [pr_bind read_formats].
  rewrite (read_count_ok 24 (i16_bytes 0)) by (done || lia || by rewrite i16_length). cbn [pr_bind].
  set (cnt := i16_bytes (Z.of_nat (length params))). rewrite (app_assoc (i16_bytes 0) cnt).
  assert (length (i16_bytes 0 ++ cnt) = 4%nat) as E4 by (by rewrite length_app, !i16_length).
  rewrite read_params_ok; [|eapply params_fit; [|done]|by rewrite E4]; cycle 1.
  { cbn [client_body] in Hl. rewrite !length_app in Hl. lia. }
  cbn [pr_bind]. rewrite (app_assoc (i16_bytes 0 ++ cnt)).
  rewrite read_count_ok by (done || lia || rewrite length_app, E4; lia). cbn [pr_bind].
  set (pre := (i16_bytes 0 ++ cnt) ++ concat (map param_bytes params)).
  rewrite (app_assoc pre). rewrite <-(app_nil_r (concat (map i16_bytes formats))) at 1.
  rewrite read_formats_ok; [|done|unfold pre; rewrite !length_app, !i16_length; unfold cnt; rewrite i16_length; lia].
  cbn [pr_bind]. unfold end_of_body, pre, cnt. rewrite !length_app, !i16_length.
  rewrite (proj2 (Nat.eqb_eq _ _)) by lia. done.
Qed.

(** Every message a client can send, laid out as the protocol documents it (texts
    without zero bytes, counts within an [i16], parameters in text format), is
    decoded to that message: nothing is lost, cut or confused between the kinds, and
    the decoder does not panic. *)
Theorem frontend_messages_decoded m : sendable m → decode_frontend_message (client_message m) = Ret (Ok m).
Proof.
  intros Hm. pose proof Hm as [Hl Hs]. unfold client_message. rewrite decode_framed by done.
  destruct m as [sql| | |st q types|portal st ps fs|target name|portal n|target name|]; cbn [client_tag Ascii.eqb Bool.eqb];
    try done.
  - cbn [client_body]. unfold decode_single_cstring, cstring. destruct Hs as [Hn Hu].
    rewrite find_null_app, length_app, (proj2 (Nat.eqb_eq _ _)), take_app_length by (done || simpl; lia).
    cbn [negb]. by rewrite decode_utf8_ok.
  - by apply decode_parse_ok.
  - by apply decode_bind_ok.
  - cbn [client_body decode_describe_or_close_body]. rewrite <-(app_nil_r (cstring name)).
    by rewrite split_cstring_ok.
  - cbn [client_body]. unfold decode_execute_body. destruct Hs as [Hp Hn]. rewrite split_cstring_ok by done.
    cbn [mbind result_bind]. rewrite i32_length. cbn [Nat.eqb negb].
    rewrite <-(app_nil_r (i32_bytes n)), read_i32_bytes by done. done.
  - cbn [client_body decode_describe_or_close_body]. rewrite <-(app_nil_r (cstring name)).
    by rewrite split_cstring_ok.
Qed.

(** ** Start-up *)

Definition sendable_pair (p : str * str) : Prop := p.1 ≠ [] ∧ sendable_text p.1 ∧ sendable_text p.2.

Definition pair_bytes (p : str * str) : str := cstring p.1 ++ cstring p.2.

Lemma startup_loop_ok fuel ps m :
  (length ps < fuel)%nat → Forall sendable_pair ps →
  startup_loop fuel (concat (map pair_bytes ps) ++ [nul]) m = Ok (foldl (λ m p, <[p.1 := p.2]> m) m ps).
Proof.
  revert fuel m. induction ps as [|[k v] ps IH]; intros [|fuel] m Hf Hps; [simpl in Hf; lia|done|simpl in Hf; lia|].
  apply Forall_cons in Hps as [(Hne & [Hkn Hku] & [Hvn Hvu]) Hps]. cbn [fst snd] in *.
  replace (concat (map pair_bytes ((k, v) :: ps)) ++ [nul])
    with (cstring k ++ cstring v ++ concat (map pair_bytes ps) ++ [nul])
    by (cbn [map concat]; change (pair_bytes (k, v)) with (cstring k ++ cstring v); by rewrite <-!app_assoc).
  cbn [startup_loop foldl fst snd]. rewrite find_cstring by done.
  destruct (length k) as [|n] eqn:En; [by destruct k|]. rewrite <-En.
  rewrite drop_cstring, take_cstring, find_cstring, take_cstring, drop_cstring by done.
  rewrite !decode_utf8_ok by done. cbn [mbind result_bind]. apply IH; [simpl in Hf; lia|done].
Qed.

Lemma pairs_length ps : Forall sendable_pair ps → (length ps ≤ length (concat (map pair_bytes ps)))%nat.
Proof.
  induction 1 as [|[k v] ps (Hne & _) _ IH]; [done|]. cbn [map concat length]. rewrite length_app.
  change (pair_bytes (k, v)) with (cstring k ++ cstring v). unfold cstring. rewrite !length_app. cbn [length]. lia.
Qed.

Lemma read_untagged body :
  len (encode_untagged_packet body) < 2147483648 →
  read_i32 (encode_untagged_packet body) = len (encode_untagged_packet body).
Proof.
  unfold encode_untagged_packet. remember (len body + 4) as n eqn:En. intros Hl.
  rewrite length_app, i32_length in *. rewrite read_i32_bytes; lia.
Qed.

Lemma startup_decoded ps :
  Forall sendable_pair ps → len (encode_startup_message ps) ≤ MAX_STARTUP_PACKET_LEN →
  decode_startup_packet (encode_startup_message ps) =
    Ok (Startup (mkStartup PROTOCOL_VERSION_3 (foldl (λ m p, <[p.1 := p.2]> m) ∅ ps))).
Proof.
  intros Hps Hl.
  unfold encode_startup_message, encode_untagged_packet in *.
  change (map (λ p : str * str, cstring p.1 ++ cstring p.2)) with (map pair_bytes) in *.
  set (pairs := concat (map pair_bytes ps)) in *.
  assert (len (i32_bytes PROTOCOL_VERSION_3 ++ pairs ++ [nul]) = len pairs + 5) as E5
    by (rewrite !length_app, i32_length; simpl; lia).
  rewrite E5 in *. set (n := len pairs + 5 + 4) in *.
  assert (len (i32_bytes n ++ i32_bytes PROTOCOL_VERSION_3 ++ pairs ++ [nul]) = n) as En
    by (rewrite length_app, i32_length; unfold n; lia).
  rewrite En in Hl. unfold decode_startup_packet. rewrite En. unfold MAX_STARTUP_PACKET_LEN in *.
  rewrite (proj2 (Z.ltb_ge _ _)), (proj2 (Z.ltb_ge _ _)) by lia. cbn [orb].
  rewrite read_i32_bytes by lia. rewrite (proj2 (Z.ltb_ge _ _)), Z.eqb_refl by lia. cbn [negb].
  rewrite drop_app_length' by (by rewrite i32_length).
  rewrite read_i32_bytes by (unfold PROTOCOL_VERSION_3; lia). cbn [Z.eqb PROTOCOL_VERSION_3 SSL_REQUEST_CODE Pos.eqb].
  change (drop 8 (i32_bytes n ++ i32_bytes PROTOCOL_VERSION_3 ++ pairs ++ [nul]))
    with (drop (4 + 4) (i32_bytes n ++ i32_bytes PROTOCOL_VERSION_3 ++ pairs ++ [nul])).
  rewrite <-drop_drop, !drop_app_length' by (by rewrite i32_length).
  unfold decode_startup_parameters. rewrite last_snoc. cbn [is_nul Ascii.eqb nul Bool.eqb].
  unfold pairs. rewrite startup_loop_ok; [done| |done].
  pose proof (pairs_length ps Hps). rewrite length_app. lia.
Qed.

(** Start-up packets survive the wire: what [encode_startup_message],
  [encode_ssl_request] and [encode_cancel_request] produce is read back as the
  same request, the parameters as a map in which a repeated name has its last
  value. *)
Theorem startup_roundtrip ps pid key :
  Forall sendable_pair ps → len (encode_startup_message ps) ≤ MAX_STARTUP_PACKET_LEN →
  -2147483648 ≤ pid < 2147483648 → -2147483648 ≤ key < 2147483648 →
  decode_startup_packet (encode_startup_message ps) =
  Ok (Startup (mkStartup PROTOCOL_VERSION_3 (foldl (λ m p, <[p.1 := p.2]> m) ∅ ps))) ∧
  decode_startup_packet encode_ssl_request = Ok SslRequest ∧
  decode_startup_packet (encode_cancel_request pid key) = Ok (CancelRequest pid key).
Proof.
  intros Hps Hl Hpid Hkey. split; [by apply startup_decoded|split; [by vm_compute|]].
  unfold encode_cancel_request, encode_untagged_packet.
  rewrite !length_app, !i32_length. unfold decode_startup_packet. rewrite !length_app, !i32_length.
  cbn -[read_i32 i32_bytes drop app]. rewrite read_i32_bytes by lia. cbn -[read_i32 i32_bytes drop app].
  rewrite drop_app_length' by (by rewrite i32_length). rewrite read_i32_bytes by (unfold CANCEL_REQUEST_CODE; lia).
  cbn -[read_i32 i32_bytes drop app]. rewrite (app_assoc (i32_bytes 16)).
  rewrite drop_app_length' by (by rewrite length_app, !i32_length).
  rewrite (app_assoc (_ ++ _) (i32_bytes pid)). rewrite drop_app_length' by (by rewrite !length_app, !i32_length).
  rewrite read_i32_bytes by done. rewrite <-(app_nil_r (i32_bytes key)), read_i32_bytes by done. done.
Qed.

(** ** Rows *)

(** How a client reads the cells of a [DataRow]. *)
Fixpoint client_cells (n : nat) (body : str) : option (list (option str)) :=
  match n with
  | O => if is_empty body then Some [] else None
  | S n =>
      if (length body <? 4)%nat then None
      else
        let size := read_i32 body in
        let rest := drop 4 body in
        if size <? 0 then (None ::.) <$> client_cells n rest
        else if (length rest <? Z.to_nat size)%nat then None
        else (Some (take (Z.to_nat size) rest) ::.) <$> client_cells n (drop (Z.to_nat size) rest)
  end.

Definition client_data_row (frame : str) : option (list (option str)) :=
  match frame with
  | tag :: rest =>
      if Ascii.eqb tag "D" && (read_i32 rest =? len rest) && (6 <=? length rest)%nat
      then client_cells (Z.to_nat (read_i16 (drop 4 rest))) (drop 6 rest) else None
  | [] => None
  end.

Lemma client_cells_some n v rest :
  len v ≤ i32_max →
  client_cells (S n) (i32_bytes (len v) ++ v ++ rest) = (Some v ::.) <$> client_cells n rest.
Proof.
  unfold i32_max. intros Hv. cbn [client_cells]. rewrite read_i32_bytes by lia.
  rewrite drop_app_length' by (by rewrite i32_length). rewrite Nat2Z.id, !length_app, i32_length.
  rewrite (proj2 (Nat.ltb_ge _ 4)), (proj2 (Z.ltb_ge _ _)), (proj2 (Nat.ltb_ge _ _)) by lia.
  by rewrite take_app_length, drop_app_length.
Qed.

Lemma client_cells_none n rest : client_cells (S n) (i32_bytes (-1) ++ rest) = (None ::.) <$> client_cells n rest.
Proof.
  cbn [client_cells]. rewrite read_i32_bytes by lia. rewrite drop_app_length' by (by rewrite i32_length).
  rewrite length_app, i32_length. rewrite (proj2 (Nat.ltb_ge _ 4)) by lia. done.
Qed.

Lemma client_cells_ok values body : cells_bytes values = Ok body → client_cells (length values) body = Some values.
Proof.
  revert body. induction values as [|v values IH]; intros body; cbn [cells_bytes length].
  { by intros [= <-]. }
  destruct (cells_bytes values) as [b|]; [|by destruct (cell_bytes v)].
  destruct v as [v|]; cbn [cell_bytes].
  - unfold checked_i32, checked. destruct (Z.leb_spec (len v) i32_max); [|done].
    cbn [mbind result_bind]. intros <-%Ok_inj. rewrite <-app_assoc, client_cells_some by done. by rewrite IH.
  - cbn [mbind result_bind]. intros <-%Ok_inj. rewrite client_cells_none. by rewrite IH.
Qed.

Lemma cells_bytes_err values e :
  cells_bytes values = Err e → ∃ v, Some v ∈ values ∧ i32_max < len v.
Proof.
  induction values as [|v values IH]; cbn [cells_bytes]; [done|].
  destruct (cell_bytes v) as [a|] eqn:Ea; cbn [mbind result_bind].
  - destruct (cells_bytes values); cbn [mbind result_bind]; [done|]. intros E.
    destruct (IH E) as (w & Hw & ?). exists w. split; [by right|done].
  - intros _. destruct v as [v|]; [|done]. exists v. split; [left|].
    cbn [cell_bytes] in Ea. unfold checked_i32, checked in Ea. destruct (Z.leb_spec (len v) i32_max); [done|lia].
Qed.

(** A row of a result reaches the client cell by cell: read as the protocol lays
    rows out, the encoded row is the list of its values with NULL told from the
    empty text; the encoder refuses only a row of more than 32767 columns or with a
    cell whose length is no [i32]. *)
Theorem data_row_readable values :
  match encode_data_row values with
  | Ok frame => len frame ≤ i32_max → client_data_row frame = Some values
  | Err _ => 32767 < Z.of_nat (length values) ∨ ∃ v, Some v ∈ values ∧ i32_max < len v
  end.
Proof.
  unfold encode_data_row, checked_i16, checked. destruct (Z.leb_spec (Z.of_nat (length values)) 32767); [|by left].
  cbn [mbind result_bind]. destruct (cells_bytes values) as [body|e] eqn:Eb; cbn [mbind result_bind];
    [|right; by eapply cells_bytes_err].
  unfold encode_message, i32_max. cbn [length]. rewrite length_app, i32_length. intros Hl.
  unfold client_data_row. cbn [Ascii.eqb Bool.eqb andb]. rewrite read_i32_bytes by lia.
  rewrite !length_app, i32_length, i16_length in *. rewrite (proj2 (Z.eqb_eq _ _)), (proj2 (Nat.leb_le _ _)) by lia.
  cbn [andb]. rewrite drop_app_length' by (by rewrite i32_length). rewrite read_i16_bytes by lia. rewrite Nat2Z.id.
  rewrite (app_assoc (i32_bytes _)), drop_app_length' by (by rewrite length_app, i32_length, i16_length).
  by apply client_cells_ok.
Qed.

(** ** A count that is negative as an [i16] *)

(** A [Parse] that announces more than 32767 parameter types panics: the count is
    cast to a [usize] of almost [2^64] for [Vec::with_capacity]. *)
Theorem negative_count_panics statement query n rest :
  sendable_text statement → sendable_text query → 32768 ≤ n < 65536 →
  let body := cstring statement ++ cstring query ++ i16_bytes n ++ rest in
  len body < 2147483643 → decode_frontend_message (encode_message "P" body) = Panic.
Proof.
  intros Hs Hq Hn body Hl. rewrite decode_framed by done. cbn [Ascii.eqb Bool.eqb].
  unfold decode_parse_body, body. rewrite split_cstring_ok by done. cbn [pr_bind].
  rewrite split_cstring_ok by done. cbn [pr_bind].
  assert (i16_bytes n = i16_bytes (n - 65536)) as ->.
  { unfold i16_bytes. cbn [be_bytes]. replace (n - 65536) with (n + (-256) * 256) by lia.
    rewrite Z_mod_plus_full, Z.div_add by lia. replace (n / 256 + -256) with (n / 256 + (-1) * 256) by lia.
    by rewrite Z_mod_plus_full. }
  unfold read_count. rewrite <-(i16_length (n - 65536)) at 1. rewrite need_start. cbn [pr_bind].
  rewrite read_i16_bytes by lia. unfold as_usize, with_capacity, i64_max.
  rewrite <-(Z_mod_plus_full (n - 65536) 1), Z.mod_small by lia. rewrite (proj2 (Z.leb_gt _ _)) by lia. done.
Qed.

(** ** At concrete inputs *)

Definition a_bind : FrontendMessage := FBind ($"p") ($"s") [Some ($"ann"); None; Some []] [0].

Lemma frontend_messages_decoded_witness :
  decode_frontend_message (client_message a_bind) = Ret (Ok a_bind) ∧
  client_message (FQuery ($"x")) = "Q"%char :: "000"%char :: "000"%char :: "000"%char :: "006"%char :: "x"%char :: [nul].
Proof.
  split; [|by vm_compute]. apply (frontend_messages_decoded a_bind). split; [by vm_compute|].
  assert (sendable_text ($"p") ∧ sendable_text ($"s") ∧ sendable_text ($"ann") ∧ sendable_text []) as (Hp & Hs & Ha & He).
  { split_and!; split; try (by vm_compute); intros Hin; repeat (apply elem_of_cons in Hin as [Hin|Hin]; [done|]);
      by apply elem_of_nil in Hin. }
  split; [done|]. split; [done|]. split; [simpl; lia|]. split; [|split; [simpl; lia|by repeat constructor; left]].
  repeat (apply Forall_cons; split; [by intros v [= <-]|]). by apply Forall_nil.
Defined.

Lemma startup_roundtrip_witness :
  decode_startup_packet (encode_startup_message [($"user", $"ann")]) =
    Ok (Startup (mkStartup PROTOCOL_VERSION_3 {[ $"user" := $"ann" ]})).
Proof.
  edestruct (startup_roundtrip [($"user", $"ann")] 7 8) as [E _]; [..|exact E].
  - constructor; [|done]. split; [done|]. split; split; try (by vm_compute);
      intros Hin; repeat (apply elem_of_cons in Hin as [Hin|Hin]; [done|]); by apply elem_of_nil in Hin.
  - by vm_compute.
  - lia.
  - lia.
Defined.
