(* ===== verification/PgText.v ===== *)
(** * SQL and date text in the PostgreSQL frontend

    The pure helpers of [runtime/gateway/src/frontend/postgresql.rs]: placeholders,
    the inference of result columns from a select list, [SET client_encoding], and
    the binary formats of dates, times and numbers.

    Offsets returned by the scanners fall on ASCII bytes, where a slice of a valid
    string cannot panic; [looks_like_select] slices at a fixed offset and can.
    Arithmetic that Rust does in [i32] wraps (release builds). *)

From S2P Require Import Prelude RustStr Model PgProtocol.

(** ** Placeholders *)

(** A run of digits in a saturating integer with maximum [top]. *)
Definition sat_digits (top : Z) (ds : str) : Z :=
  foldl (λ n c, Z.min (Z.min (n * 10) top + digit_val c) top) 0 ds.

(** The largest [$n].  (The loop jumps behind the digits; none of them is a [$].) *)
Fixpoint max_placeholder (top : Z) (s : str) (m : Z) : Z :=
  match s with
  | [] => m
  | c :: s =>
      let ds := take_while is_ascii_digit s in
      max_placeholder top s (if Ascii.eqb c "$" && negb (is_empty ds) then Z.max m (sat_digits top ds) else m)
  end.

Definition count_pg_placeholders_frontend (sql : str) : Z := max_placeholder 65535 sql 0.

(** The arity check of [bind_pg_text_params]; the text it substitutes is not used. *)
Definition bind_arity (sql : str) (ps : list GatewayValue) : GatewayResult unit :=
  let max := max_placeholder u64_max sql 0 in
  if negb (max =? Z.of_nat (length ps)) then
    Err (Protocol ($"postgresql Bind expects " ++ dec max ++ $" parameters, got " ++ dec (Z.of_nat (length ps))))
  else Ok tt.

Definition looks_like_select (sql : str) : exec bool :=
  let t := trim_start sql in
  if (6 <=? length t)%nat then head ← slice_to t 6; Ret (eq_ignore_ascii_case head ($"select")) else Ret false.

(** ** Scanning outside quotes and parentheses *)

Inductive quote_state := QPlain | QSingle | QDouble.

Definition scan_step (st : quote_state * Z) (c : ascii) : quote_state * Z :=
  let '(q, depth) := st in
  match q with
  | QSingle => (if Ascii.eqb c "'" then QPlain else QSingle, depth)
  | QDouble => (if Ascii.eqb c dquote then QPlain else QDouble, depth)
  | QPlain =>
      if Ascii.eqb c "'" then (QSingle, depth)
      else if Ascii.eqb c dquote then (QDouble, depth)
      else if Ascii.eqb c "(" then (QPlain, depth + 1)
      else if Ascii.eqb c ")" then (QPlain, depth - 1)
      else (QPlain, depth)
  end.

Definition plain (st : quote_state * Z) : bool := match st.1 with QPlain => st.2 =? 0 | _ => false end.

Definition not_word (c : option ascii) : bool := match c with Some c => negb (is_ascii_alphanumeric c) | None => true end.

Fixpoint keyword_loop (key s : str) (prev : option ascii) (st : quote_state * Z) (i : nat) : option nat :=
  match s with
  | [] => None
  | c :: s' =>
      if (length s <? length key)%nat then None
      else if plain st && negb (existsb (Ascii.eqb c) ["'"%char; dquote; "("%char; ")"%char]) && starts_with s key
           && not_word prev && not_word (head (drop (length key) s)) then Some i
      else keyword_loop key s' (Some c) (scan_step st c) (S i)
  end.

Definition find_top_level_keyword_frontend (sql keyword : str) : option nat :=
  keyword_loop (to_ascii_uppercase keyword) (to_ascii_uppercase sql) None (QPlain, 0) 0.

Definition push_trimmed (part : str) (parts : list str) : list str :=
  let part := trim part in if is_empty part then parts else parts ++ [part].

Fixpoint split_list_loop (s cur : str) (st : quote_state * Z) (parts : list str) : list str :=
  match s with
  | [] => push_trimmed cur parts
  | c :: s =>
      if plain st && Ascii.eqb c "," then split_list_loop s [] st (push_trimmed cur parts)
      else split_list_loop s (cur ++ [c]) (scan_step st c) parts
  end.

Definition split_select_list_frontend (l : str) : list str := split_list_loop l [] (QPlain, 0) [].

(** ** Result columns of a select list *)

Definition unquote_ident (s : str) : option str :=
  let s := trim s in
  if (2 <=? length s)%nat && starts_with s [dquote] && ends_with s [dquote]
  then Some (take (length s - 2) (drop 1 s)) else None.

Definition is_blank (c : ascii) : bool :=
  Ascii.eqb c " " || Ascii.eqb c "009" || Ascii.eqb c "010" || Ascii.eqb c "013".

Fixpoint last_blank (s : str) (st : quote_state * Z) (i : nat) (found : option nat) : option nat :=
  match s with
  | [] => found
  | c :: s => last_blank s (scan_step st c) (S i) (if plain st && is_blank c then Some i else found)
  end.

Definition ident_char (c : ascii) : bool := is_ascii_alphanumeric c || Ascii.eqb c "_".

Definition trailing_bare_alias (item : str) : option str :=
  last_ws ← last_blank item (QPlain, 0) 0 None;
  let start := S last_ws in
  let alias := trim (drop start item) in
  if is_empty alias then None
  else
    let alias_u := default alias (unquote_ident alias) in
    if existsb (eq_ignore_ascii_case alias_u) [$"ASC"; $"DESC"; $"NULLS"] then None
    else if forallb ident_char alias_u
            && match alias_u with c :: _ => is_ascii_alphabetic c || Ascii.eqb c "_" | [] => false end then
      if is_empty (trim (take start item)) then None else Some alias_u
    else None.

(** [item.rsplit(|c| c == '.' || c == '(').next()]. *)
Definition after_last_dot (item : str) : str :=
  reverse (take_while (λ c, negb (Ascii.eqb c "." || Ascii.eqb c "(")) (reverse item)).

Definition fallback_name (index : nat) : str := $"column" ++ dec (Z.of_nat index + 1).

Definition bare_name (item : str) (index : nat) : str :=
  match trailing_bare_alias item with
  | Some alias => alias
  | None =>
      let bare := trim (after_last_dot item) in
      let bare := default bare (unquote_ident bare) in
      if is_empty bare || str_eqb bare ($"*") then fallback_name index
      else if forallb (λ c, ident_char c || Ascii.eqb c "$") bare then bare
      else fallback_name index
  end.

Definition select_item_output_name (item : str) (index : nat) : str :=
  let item := trim item in
  match find_top_level_keyword_frontend item ($"AS") with
  | Some as_idx =>
      let alias := trim (drop (as_idx + 2) item) in
      let alias := default alias (unquote_ident alias) in
      if negb (is_empty alias) && negb (existsb char_is_whitespace (chars alias)) then alias else bare_name item index
  | None => bare_name item index
  end.

Fixpoint first_clause (keys : list str) (sql : str) : option nat :=
  match keys with
  | [] => None
  | key :: keys =>
      match find_top_level_keyword_frontend sql key with Some i => Some i | None => first_clause keys sql end
  end.

Definition clause_order : list str :=
  [$"FROM"; $"WHERE"; $"GROUP"; $"ORDER"; $"LIMIT"; $"OFFSET"; $"UNION"; $"EXCEPT"; $"INTERSECT"; $"FETCH"; $"FOR"].

Definition is_wildcard (t : str) : bool := str_eqb t ($"*") || ends_with t ($".*").

Definition infer_select_result_columns (sql : str) : option (list Column) :=
  let trimmed := trim_start sql in
  if negb (starts_with (to_ascii_uppercase trimmed) ($"SELECT")) then None
  else
    let after := trim_start (drop 6 trimmed) in
    let after :=
      if starts_with (to_ascii_uppercase after) ($"DISTINCT") then trim_start (drop 8 after)
      else if starts_with (to_ascii_uppercase after) ($"ALL") then trim_start (drop 3 after)
      else after in
    let items := trim (match first_clause clause_order after with Some i => take i after | None => after end) in
    if is_empty items then None
    else if is_wildcard items then None
    else
      let parts := split_select_list_frontend items in
      if is_empty parts then None
      else if existsb (λ p, is_wildcard (trim p)) parts then None
      else Some (imap (λ i part, mkColumn (select_item_output_name part i) ($"text")) parts).

(** ** [SET client_encoding] *)

Definition strip_ascii_prefix (value prefix : str) : option str :=
  match slice_to value (length prefix) with
  | Panic => None
  | Ret head =>
      if negb (eq_ignore_ascii_case head prefix) then None
      else
        let rest := drop (length prefix) value in
        match chars rest with
        | c :: _ => if char_is_whitespace c then Some rest else None
        | [] => Some rest
        end
  end.

Definition unquote (value : str) (quote : ascii) : option str :=
  match value with
  | c :: value =>
      if Ascii.eqb c quote then (λ n, take n value) <$> position (Ascii.eqb quote) value else None
  | [] => None
  end.

(** [value.replace(qq, q)] for a quote [q]. *)
Fixpoint undouble (q : ascii) (s : str) : str :=
  match s with
  | c :: s1 =>
      if Ascii.eqb c q then match s1 with d :: s2 => if Ascii.eqb d q then q :: undouble q s2 else c :: undouble q s1
                            | [] => [c] end
      else c :: undouble q s1
  | [] => []
  end.

Definition semicolon (c : ascii) : bool := Ascii.eqb c ";".

Definition parse_set_value (value : str) : option str :=
  let value := trim value in
  let value :=
    match strip_ascii_prefix value ($"to") with
    | Some rest => trim rest
    | None => match strip_prefix value ($"=") with Some rest => trim rest | None => value end
    end in
  let value := trim (trim_end_matches semicolon value) in
  if is_empty value then None
  else if starts_with value ($"'") then undouble "'" <$> unquote value "'"
  else if starts_with value [dquote] then undouble dquote <$> unquote value dquote
  else trim_matches ";" <$> head (split_whitespace value).

Definition client_encoding_from_set_query (sql : str) : option str :=
  let sql := trim (trim_end_matches semicolon (trim sql)) in
  value ← match strip_ascii_prefix sql ($"set client_encoding") with
          | Some v => Some v
          | None => strip_ascii_prefix sql ($"set names")
          end;
  parse_set_value value.

(** ** Dates and times *)

(** An [i64] as [i32]. *)
Definition wrap_i32 (v : Z) : Z := to_signed 32 (v mod 2 ^ 32).

Definition parse_u32 (s : str) : option Z := parse_unsigned u32_max s.

Definition parse_ymd (s : str) : option (Z * Z * Z) :=
  match split "-" s with
  | [y; m; d] =>
      y ← parse_signed i32_max y; m ← parse_u32 m; d ← parse_u32 d;
      if negb ((1 <=? m) && (m <=? 12)) || negb ((1 <=? d) && (d <=? 31)) then None else Some (y, m, d)
  | _ => None
  end.

(** The fraction, as microseconds. *)
Definition parse_fraction (f : str) : option Z :=
  let f := trim f in
  if is_empty f || (6 <? length f)%nat || negb (forallb is_ascii_digit f) then None
  else v ← parse_u32 f; Some (v * 10 ^ Z.of_nat (6 - length f)).

Definition split_once (c : ascii) (s : str) : option (str * str) :=
  (λ n, (take n s, drop (S n) s)) <$> position (Ascii.eqb c) s.

Definition parse_hms_micro_pg (s : str) : option (Z * Z * Z * Z) :=
  let s := trim s in
  let '(hms, frac) := match split_once "." s with Some (a, b) => (a, Some b) | None => (s, None) end in
  match split ":" hms with
  | [h; mi; sec] =>
      h ← parse_u32 h; mi ← parse_u32 mi; sec ← parse_u32 sec;
      if (24 <? h) || (59 <? mi) || (60 <? sec) then None
      else
        micro ← match frac with None => Some 0 | Some f => parse_fraction f end;
        Some (h, mi, sec, micro)
  | _ => None
  end.

(** Hinnant's algorithm; [/] on [i64] truncates. *)
Definition days_since_unix_epoch (year month day : Z) : Z :=
  let y := year - (if month <=? 2 then 1 else 0) in
  let era := Z.quot (if 0 <=? y then y else y - 399) 400 in
  let yoe := y - era * 400 in
  let doy := (153 * (if 2 <? month then month - 3 else month + 9) + 2) / 5 + day - 1 in
  let doe := yoe * 365 + yoe / 4 - yoe / 100 + doy in
  wrap_i32 (era * 146097 + doe - 719468).

Definition days_from_pg_epoch (year month day : Z) : Z := wrap_i32 (days_since_unix_epoch year month day - 10957).

Definition parse_pg_date_days (s : str) : option Z :=
  '(y, m, d) ← parse_ymd (trim s); Some (days_from_pg_epoch y m d).

(** [i64::checked_add] and the like: of the mathematical result. *)
Definition checked_i64 (v : Z) : option Z :=
  if (- i64_max - 1 <=? v) && (v <=? i64_max) then Some v else None.

(** The last offset sign that follows a digit. *)
Fixpoint last_sign (i : nat) (prev : option ascii) (s : str) (found : option nat) : option nat :=
  match s with
  | [] => found
  | c :: s =>
      let here := (Ascii.eqb c "+" || Ascii.eqb c "-")
                  && match prev with Some p => is_ascii_digit p | None => false end in
      last_sign (S i) (Some c) s (if here then Some i else found)
  end.

Definition rfind_space (s : str) : option nat :=
  match position (Ascii.eqb " ") (reverse s) with Some k => Some (length s - 1 - k)%nat | None => None end.

Definition parse_offset (rest : str) : option (Z * Z) :=
  match split_once ":" rest with
  | Some (h, m) => h ← parse_signed i64_max h; m ← parse_signed i64_max m; Some (h, m)
  | None =>
      if (length rest =? 4)%nat && forallb is_ascii_digit rest then
        h ← parse_signed i64_max (take 2 rest); m ← parse_signed i64_max (drop 2 rest); Some (h, m)
      else if (length rest <=? 2)%nat then h ← parse_signed i64_max rest; Some (h, 0)
      else None
  end.

(** The part of the text that may carry an offset; [None] for a bare date. *)
Definition time_token (s : str) : option (str * str) :=
  match rfind_space s with
  | Some sp => Some (take sp s, drop (S sp) s)
  | None => if contains_char s ":" then Some ([], s) else None
  end.

Definition strip_zulu (s : str) : option str :=
  match last s with
  | Some c => if Ascii.eqb c "Z" || Ascii.eqb c "z" then Some (take (length s - 1) s) else None
  | None => None
  end.

Definition split_tz_offset (s : str) (allow_tz : bool) : option (str * Z) :=
  let s := trim s in
  match strip_zulu s with
  | Some body => if allow_tz then Some (trim body, 0) else None
  | None =>
  match time_token s with
  | None => Some (s, 0)
  | Some (prefix, time) =>
  match last_sign 0 None time None with
  | None => Some (s, 0)
  | Some i =>
      if negb allow_tz then None
      else
        let sign := if starts_with (drop i time) ($"+") then 1 else -1 in
        '(hh, mm) ← parse_offset (drop (S i) time);
        if negb ((0 <=? hh) && (hh <=? 14)) || negb ((0 <=? mm) && (mm <=? 59)) then None
        else
          let time := trim (take i time) in
          Some (if is_empty prefix then time else trim prefix ++ $" " ++ time, sign * (hh * 3600 + mm * 60))
  end end end.

Definition time_us (t : Z * Z * Z * Z) : Z :=
  let '(h, mi, sec, micro) := t in h * 3600000000 + mi * 60000000 + sec * 1000000 + micro.

Definition parse_pg_timestamp_us (s : str) (allow_tz : bool) : option Z :=
  let s := map (λ c, if Ascii.eqb c "T" then " "%char else c) (trim s) in
  '(body, offset_secs) ← split_tz_offset s allow_tz;
  let '(date, time) := match split_once " " body with Some p => p | None => (body, $"00:00:00") end in
  '(y, mo, d) ← parse_ymd date;
  '(h, mi, sec, micro) ← parse_hms_micro_pg time;
  us ← checked_i64 (days_from_pg_epoch y mo d * 86400000000);
  us ← checked_i64 (us + h * 3600000000);
  us ← checked_i64 (us + mi * 60000000);
  us ← checked_i64 (us + sec * 1000000);
  us ← checked_i64 (us + micro);
  offset ← checked_i64 (offset_secs * 1000000);
  checked_i64 (us - offset).

Definition parse_pg_time_us (s : str) : option Z :=
  let s := trim s in
  let body := match position (λ c, Ascii.eqb c "+" || Ascii.eqb c "-") s with Some n => trim (take n s) | None => s end in
  time_us <$> parse_hms_micro_pg body.

(** ** Values *)

Definition encode_pg_int_binary (i : Z) (data_type : str) : str :=
  if one_of [$"int2"; $"smallint"] data_type then i16_bytes i
  else if one_of [$"int8"; $"bigint"] data_type then i64_bytes i
  else i32_bytes i.

Definition postgresql_type_info (data_type : str) : Z * Z :=
  let t := to_ascii_lowercase data_type in
  if one_of [$"bool"; $"boolean"] t then (16, 1)
  else if one_of [$"int2"; $"smallint"] t then (21, 2)
  else if one_of [$"int"; $"int4"; $"integer"] t then (23, 4)
  else if one_of [$"int8"; $"bigint"] t then (20, 8)
  else if one_of [$"float4"; $"real"] t then (700, 4)
  else if one_of [$"float8"; $"double"; $"double precision"] t then (701, 8)
  else if one_of [$"numeric"; $"decimal"] t then (1700, -1)
  else if str_eqb t ($"date") then (1082, 4)
  else if str_eqb t ($"time") then (1083, 8)
  else if str_eqb t ($"timestamp") then (1114, 8)
  else if str_eqb t ($"timestamptz") then (1184, 8)
  else if one_of [$"bytea"; $"bytes"; $"binary"; $"varbinary"] t then (17, -1)
  else if one_of [$"varchar"; $"char"; $"bpchar"] t then (1043, -1)
  else (25, -1).

Definition gateway_column_to_postgresql_field (c : Column) : FieldDescription :=
  let '(oid, size) := postgresql_type_info (data_type c) in mkField (column_name c) oid size (-1) 0.

Definition postgresql_sqlstate (code : str) : str :=
  if (length code =? 5)%nat && forallb is_ascii_alphanumeric code then code else $"XX000".

Section Values.
Context (f64_to_string : Z → str) (f64_to_f32_bits : Z → Z).

Definition gateway_value_to_text (v : GatewayValue) : option str :=
  match v with
  | Null => None
  | Boolean b => Some (if b then $"t" else $"f")
  | Integer i => Some (dec_signed i)
  | UnsignedInteger u => Some (dec u)
  | Float f => Some (f64_to_string f)
  | Decimal s | VString s => Some s
  | Bytes b => Some b
  end.

Definition date_or_error (kind s : str) (bytes : Z → str) (v : option Z) : GatewayResult (option str) :=
  match v with
  | Some v => Ok (Some (bytes v))
  | None => Err (Protocol ($"invalid postgresql " ++ kind ++ $" value '" ++ s ++ $"'"))
  end.

Definition gateway_value_to_pg_binary (v : GatewayValue) (data_type : str) : GatewayResult (option str) :=
  let dt := to_ascii_lowercase data_type in
  match v with
  | Null => Ok None
  | Boolean b => Ok (Some [if b then "001"%char else "000"%char])
  | Integer i =>
      Ok (Some (if str_eqb dt ($"date") then i32_bytes i
                else if one_of [$"timestamp"; $"timestamptz"] dt then i64_bytes i
                else encode_pg_int_binary i dt))
  | UnsignedInteger u =>
      if i64_max <? u then Err (Protocol ($"postgresql binary: unsigned value " ++ dec u ++ $" exceeds i64"))
      else Ok (Some (encode_pg_int_binary u dt))
  | Float f =>
      Ok (Some (if one_of [$"float4"; $"real"] dt then i32_bytes (f64_to_f32_bits f) else i64_bytes f))
  | Decimal s | VString s =>
      if str_eqb dt ($"date") then date_or_error ($"DATE") s i32_bytes (parse_pg_date_days s)
      else if str_eqb dt ($"timestamp") then date_or_error ($"TIMESTAMP") s i64_bytes (parse_pg_timestamp_us s false)
      else if str_eqb dt ($"timestamptz") then
        date_or_error ($"TIMESTAMPTZ") s i64_bytes (parse_pg_timestamp_us s true)
      else if one_of [$"time"; $"timetz"] dt then date_or_error ($"TIME") s i64_bytes (parse_pg_time_us s)
      else Ok (Some s)
  | Bytes b => Ok (Some b)
  end.
End Values.

(** ** The calendar *)

Definition leap (y : Z) : bool := (y mod 4 =? 0) && (negb (y mod 100 =? 0) || (y mod 400 =? 0)).

(** The days of the year before a month. *)
Definition days_before_month (y m : Z) : Z :=
  nth (Z.to_nat (m - 1)) [0; 31; 59; 90; 120; 151; 181; 212; 243; 273; 304; 334] 0
  + (if (2 <? m) && leap y then 1 else 0).

(** The days of the proleptic Gregorian calendar from 0001-01-01 to a date. *)
Definition calendar_days (y m d : Z) : Z :=
  365 * (y - 1) + (y - 1) / 4 - (y - 1) / 100 + (y - 1) / 400 + days_before_month y m + (d - 1).

Lemma wrap_i32_small v : -2147483648 ≤ v < 2147483648 → wrap_i32 v = v.
Proof. intros. by apply (to_signed_mod 32). Qed.

Lemma era_floor y : Z.quot (if 0 <=? y then y else y - 399) 400 = y / 400.
Proof.
  destruct (Z.leb_spec 0 y); [apply Z.quot_div_nonneg; lia|].
  Z.to_euclidean_division_equations. lia.
Qed.

Lemma year_days y :
  y / 400 * 146097 + ((y - y / 400 * 400) * 365 + (y - y / 400 * 400) / 4 - (y - y / 400 * 400) / 100)
  = 365 * y + y / 4 - y / 100 + y / 400.
Proof. Z.to_euclidean_division_equations. lia. Qed.

Lemma leap_step y : (if leap y then 1 else 0) = (y / 4 - y / 100 + y / 400) - ((y - 1) / 4 - (y - 1) / 100 + (y - 1) / 400).
Proof.
  unfold leap. destruct (Z.eqb_spec (y mod 4) 0), (Z.eqb_spec (y mod 100) 0), (Z.eqb_spec (y mod 400) 0); cbn [andb orb negb];
    Z.to_euclidean_division_equations; lia.
Qed.

Lemma month_days m :
  1 ≤ m ≤ 12 →
  (153 * (if 2 <? m then m - 3 else m + 9) + 2) / 5 =
  nth (Z.to_nat (m - 1)) [0; 31; 59; 90; 120; 151; 181; 212; 243; 273; 304; 334] 0 + (if 2 <? m then -59 else 306).
Proof.
  intros Hm. assert (m ∈ (Z.of_nat <$> seq 1 12)) as Hin.
  { apply list_elem_of_fmap. exists (Z.to_nat m). split; [lia|]. apply elem_of_seq. lia. }
  repeat (apply elem_of_cons in Hin as [->|Hin]; [done|]). by apply elem_of_nil in Hin.
Qed.

(** The binary [DATE] and [TIMESTAMP] formats count days right: for every date of
    the proleptic Gregorian calendar in the years from -5000000 to 5000000 the
    number of days is that of the calendar (leap years every 4 years, not every 100,
    but every 400), with day 0 at 2000-01-01. *)
Theorem date_days_calendar y m d :
  -5000000 ≤ y ≤ 5000000 → 1 ≤ m ≤ 12 → 1 ≤ d ≤ 31 →
  days_from_pg_epoch y m d = calendar_days y m d - calendar_days 2000 1 1.
Proof.
  intros Hy Hm Hd. unfold days_from_pg_epoch, days_since_unix_epoch, calendar_days, days_before_month.
  rewrite era_floor, month_days by done. pose proof (leap_step y) as Hl.
  pose proof (year_days (y - (if m <=? 2 then 1 else 0))) as Hys.
  set (table := nth (Z.to_nat (m - 1)) _ 0).
  assert (0 ≤ table ≤ 334) as Ht.
  { unfold table. clear -Hm. assert (m ∈ (Z.of_nat <$> seq 1 12)) as Hin.
    { apply list_elem_of_fmap. exists (Z.to_nat m). split; [lia|]. apply elem_of_seq. lia. }
    repeat (apply elem_of_cons in Hin as [->|Hin]; [simpl; lia|]). by apply elem_of_nil in Hin. }
  clearbody table. change (365 * (2000 - 1) + (2000 - 1) / 4 - (2000 - 1) / 100 + (2000 - 1) / 400 +
    (nth (Z.to_nat (1 - 1)) [0; 31; 59; 90; 120; 151; 181; 212; 243; 273; 304; 334] 0 +
     (if (2 <? 1) && leap 2000 then 1 else 0)) + (1 - 1)) with 730119.
  set (l := if leap y then 1 else 0) in *.
  assert (0 ≤ l ≤ 1) as Hlb by (unfold l; destruct (leap y); lia).
  assert (-2000000000 ≤ 365 * (y - 1) + (y - 1) / 4 - (y - 1) / 100 + (y - 1) / 400 ≤ 2000000000) as Hb
    by (clear -Hy; Z.to_euclidean_division_equations; lia).
  set (y' := y - (if m <=? 2 then 1 else 0)) in *.
  assert (365 * y' + y' / 4 - y' / 100 + y' / 400 =
    365 * (y - 1) + (y - 1) / 4 - (y - 1) / 100 + (y - 1) / 400 + (if 2 <? m then 365 + l else 0)) as Hy'.
  { unfold y'. destruct (Z.leb_spec m 2), (Z.ltb_spec 2 m); try lia. rewrite Z.sub_0_r. lia. }
  assert ((if (2 <? m) && leap y then 1 else 0) = if 2 <? m then l else 0) as -> by (unfold l; by destruct (2 <? m)).
  rewrite Hy' in Hys. clearbody l y'. destruct (2 <? m);
    rewrite (wrap_i32_small (_ - 719468)) by lia; rewrite wrap_i32_small by lia; lia.
Qed.

Lemma date_days_calendar_witness :
  days_from_pg_epoch 2024 2 29 = calendar_days 2024 2 29 - calendar_days 2000 1 1 ∧ days_from_pg_epoch 2024 2 29 = 8825.
Proof. split; [apply (date_days_calendar 2024 2 29); lia|by vm_compute]. Defined.

(** ** Surprises *)

(** The slice at byte 6 falls into a character: [Describe] of such a statement
    panics.  Dates that do not exist are accepted and moved. *)
Theorem frontend_text_surprises :
  looks_like_select ($"abcde" ++ ["195"%char; "169"%char]) = Panic ∧
  parse_pg_date_days ($"2023-02-31") = parse_pg_date_days ($"2023-03-03") ∧
  gateway_value_to_pg_binary (λ x, x) (Integer 4294967297) ($"numeric") = Ok (Some (i32_bytes 1)).
Proof. vm_compute. done. Qed.
