(* ===== verification/PgFrontend.v ===== *)
(** * The PostgreSQL frontend

    [runtime/gateway/src/frontend/postgresql.rs]: the simple and the extended query
    protocol of one connection as a [FrontendProtocolAdapter], and the start-up
    handshake.

    The state is [PostgreSqlFrontendProtocol] with the source's maps.  An error
    returned with [?] leaves what was assigned before it, and so does the model.
    [f64]'s formatting and narrowing are parameters; the sockets of the handshake are
    the bytes read and written. *)

From S2P Require Import Prelude RustStr Model Session DangerousSql Transport PgProtocol PgText.

Record PendingDescribe := mkPendingDescribe {
  pd_target : ascii;
  pd_name : str;
  pd_param_desc : option str;
  pd_format_code : Z
}.

Record PgFrontend := mkPgFrontend {
  server_version : str;
  process_id : Z;
  secret_key : Z;
  prepared : gmap str str;
  prepared_params : gmap str Z;
  portals : gmap str str;
  portal_args : gmap str (list GatewayValue);
  portal_params : gmap str Z;
  portal_result_formats : gmap str (list Z);
  pg_prepared_columns : gmap str (list Column);
  portal_columns : gmap str (list Column);
  portal_row_described : gmap str bool;
  prepared_row_described : gmap str bool;
  suppress_next_row_description : bool;
  pending_describe : option PendingDescribe
}.

Definition with_backend_key (version : str) (pid key : Z) : PgFrontend :=
  mkPgFrontend version pid key ∅ ∅ ∅ ∅ ∅ ∅ ∅ ∅ ∅ ∅ false None.
Definition new_pg_frontend (version : str) : PgFrontend := with_backend_key version 0 0.

(** *** Assignments *)

(** The maps of statements. *)
Definition set_statements (sql : gmap str str) (params : gmap str Z) (columns : gmap str (list Column))
    (described : gmap str bool) (f : PgFrontend) : PgFrontend :=
  mkPgFrontend (server_version f) (process_id f) (secret_key f) sql params (portals f) (portal_args f) (portal_params f)
    (portal_result_formats f) columns (portal_columns f) (portal_row_described f) described
    (suppress_next_row_description f) (pending_describe f).

(** The maps of portals. *)
Definition set_portals (sql : gmap str str) (args : gmap str (list GatewayValue)) (params : gmap str Z)
    (formats : gmap str (list Z)) (columns : gmap str (list Column)) (described : gmap str bool) (f : PgFrontend)
    : PgFrontend :=
  mkPgFrontend (server_version f) (process_id f) (secret_key f) (prepared f) (prepared_params f) sql args params formats
    (pg_prepared_columns f) columns described (prepared_row_described f) (suppress_next_row_description f)
    (pending_describe f).

Definition set_portal_described (described : gmap str bool) (f : PgFrontend) : PgFrontend :=
  set_portals (portals f) (portal_args f) (portal_params f) (portal_result_formats f) (portal_columns f) described f.

Definition set_describe (suppress : bool) (pending : option PendingDescribe) (f : PgFrontend) : PgFrontend :=
  mkPgFrontend (server_version f) (process_id f) (secret_key f) (prepared f) (prepared_params f) (portals f)
    (portal_args f) (portal_params f) (portal_result_formats f) (pg_prepared_columns f) (portal_columns f)
    (portal_row_described f) (prepared_row_described f) suppress pending.

Definition set_suppress (b : bool) (f : PgFrontend) : PgFrontend := set_describe b (pending_describe f) f.

Definition with_charset (c : option str) (s : SessionState) : SessionState :=
  mkSession (user s) (database s) c (autocommit s) (backend_endpoint s) (transaction_state s)
    (prefer_binary_result s) (pg_extended_query s) (pg_extended_error s) (pg_execute_max_rows s)
    (result_truncated s) (pg_portal_name s) (pg_portal_skip_rows s) (pg_drop_portal_hold s)
    (pg_client_extended_frames s) (pg_ext_tcp_hold s).

Definition extended (b : bool) (s : SessionState) : SessionState := with_extended b (pg_extended_error s) s.
Definition push_frame (frame : str) (s : SessionState) : SessionState :=
  with_frames (pg_client_extended_frames s ++ [frame]) (pg_ext_tcp_hold s) s.

Definition postgresql_protocol_error (e : ProtocolError) : GatewayError := Protocol (pg_error_to_string e).

Definition transaction_status (s : SessionState) : TransactionStatus :=
  match transaction_state s with Idle => StIdle | Active => StInTransaction | Failed => StFailed end.

(** ** Decoding *)

Definition decode_query_command (sql : str) (s : SessionState) : GatewayCommand * SessionState :=
  let s := match client_encoding_from_set_query sql with Some e => with_charset (Some e) s | None => s end in
  let keyword := to_ascii_lowercase (trim (trim_end_matches semicolon (trim sql))) in
  if one_of [$"begin"; $"start transaction"] keyword then (Begin, with_transaction Active s)
  else if str_eqb keyword ($"commit") then (Commit, with_transaction Idle s)
  else if str_eqb keyword ($"rollback") then (Rollback, with_transaction Idle s)
  else (Query sql, s).

Abbreviation Decoded := (GatewayResult (list GatewayCommand) * SessionState * PgFrontend)%type.
Definition reply (packets : list str) (s : SessionState) (f : PgFrontend) : Decoded := (Ok [ClientWire packets], s, f).

Definition on_sync (s : SessionState) (f : PgFrontend) : Decoded :=
  let f := set_portal_described ∅ (set_describe false None f) in
  let s := with_extended (pg_extended_query s) false
             (with_frames [] (pg_ext_tcp_hold s) (with_portal None 0 true (with_page None false (with_binary false s)))) in
  if pg_ext_tcp_hold s then (Ok [PgBackendSync], extended true s, f)
  else
    let s := extended false s in
    reply [encode_ready_for_query (transaction_status s)] s f.

Definition on_parse (frame statement query : str) (s : SessionState) (f : PgFrontend) : Decoded :=
  let s := extended true s in
  match DangerousSql.classify_dangerous_sql query PostgreSql with
  | Some cap => (Err (Unsupported (DangerousSql.as_str cap)), with_extended true true s, f)
  | None =>
      let s := push_frame frame s in
      let columns := match infer_select_result_columns query with
                     | Some cols => <[statement := cols]> (pg_prepared_columns f)
                     | None => delete statement (pg_prepared_columns f)
                     end in
      let f := set_statements (<[statement := query]> (prepared f))
                 (<[statement := count_pg_placeholders_frontend query]> (prepared_params f)) columns
                 (prepared_row_described f) f in
      reply [encode_parse_complete] s f
  end.

Definition bound_value (p : option str) : GatewayValue := match p with None => Null | Some s => VString s end.

Definition on_bind (frame portal statement : str) (params : list (option str)) (formats : list Z) (s : SessionState)
    (f : PgFrontend) : Decoded :=
  let s := push_frame frame (extended true s) in
  match prepared f !! statement with
  | None => (Err (Protocol ($"postgresql Bind: unknown statement '" ++ statement ++ $"'")), s, f)
  | Some sql =>
      let nparams := default (count_pg_placeholders_frontend sql) (prepared_params f !! statement) in
      let params := map bound_value params in
      match bind_arity sql params with
      | Err e => (Err e, s, f)
      | Ok _ =>
          let columns := match pg_prepared_columns f !! statement with
                         | Some cols => <[portal := cols]> (portal_columns f)
                         | None => delete portal (portal_columns f)
                         end in
          let skip := if bool_decide (pg_portal_name s = Some portal) then 0 else pg_portal_skip_rows s in
          let s := with_portal (Some portal) skip true s in
          let f := set_suppress false
                     (set_portals (<[portal := sql]> (portals f)) (<[portal := params]> (portal_args f))
                        (<[portal := nparams]> (portal_params f)) (<[portal := formats]> (portal_result_formats f))
                        columns (delete portal (portal_row_described f)) f) in
          reply [encode_bind_complete] s f
      end
  end.

(** A binary result was asked for. *)
Definition wants_binary (f : PgFrontend) (portal : str) : bool :=
  match portal_result_formats f !! portal with Some fmts => existsb (Z.eqb 1) fmts | None => false end.

Definition field_of (format : Z) (c : Column) : FieldDescription :=
  let f := gateway_column_to_postgresql_field c in
  mkField (field_name f) (type_oid f) (type_size f) (type_modifier f) format.

Definition describe_rows (param_desc : option str) (format : Z) (columns : list Column) : GatewayResult (list str) :=
  match encode_row_description (map (field_of format) columns) with
  | Ok packet => Ok (match param_desc with Some pd => [pd; packet] | None => [packet] end)
  | Err e => Err (postgresql_protocol_error e)
  end.

Definition mark_described (target : ascii) (name : str) (f : PgFrontend) : PgFrontend :=
  if Ascii.eqb target "P" then set_portal_described (<[name := true]> (portal_row_described f)) f
  else if Ascii.eqb target "S" then
    set_statements (prepared f) (prepared_params f) (pg_prepared_columns f) (<[name := true]> (prepared_row_described f)) f
  else f.

Definition unmark_portal (target : ascii) (name : str) (f : PgFrontend) : PgFrontend :=
  if Ascii.eqb target "P" then set_portal_described (delete name (portal_row_described f)) f else f.

Definition describe_params (f : PgFrontend) (statement : bool) (name : str) : Z :=
  default 0
    (if statement then
       match prepared_params f !! name with
       | Some n => Some n
       | None => count_pg_placeholders_frontend <$> (prepared f !! name)
       end
     else portal_params f !! name).

(** No columns are known: the backend's catalog for a select, no data otherwise. *)
Definition describe_catalog (target : ascii) (name : str) (param_desc : option str) (format : Z) (sql : option str)
    (s : SessionState) (f : PgFrontend) : exec Decoded :=
  let nothing := reply (match param_desc with Some pd => [pd; encode_no_data] | None => [encode_no_data] end) s
                   (unmark_portal target name f) in
  match sql with
  | Some sql =>
      select ← looks_like_select sql;
      Ret (if (select : bool) then
             (Ok [DescribeSql sql], s,
              set_describe (suppress_next_row_description f) (Some (mkPendingDescribe target name param_desc format)) f)
           else nothing)
  | None => Ret nothing
  end.

Definition on_describe (frame : str) (target : ascii) (name : str) (s : SessionState) (f : PgFrontend) : exec Decoded :=
  let s := push_frame frame s in
  let statement := Ascii.eqb target "S" in
  let oids := replicate (Z.to_nat (describe_params f statement name)) 25 in
  let columns := if statement then pg_prepared_columns f !! name else portal_columns f !! name in
  let format := if Ascii.eqb target "P" then if wants_binary f name then 1 else 0 else 0 in
  let param_desc := if statement then Some (encode_parameter_description oids) else None in
  match columns with
  | Some ((_ :: _) as cols) =>
      Ret (match describe_rows param_desc format cols with
           | Ok packets => reply packets s (mark_described target name f)
           | Err e => (Err e, s, f)
           end)
  | _ => describe_catalog target name param_desc format (if statement then prepared f !! name else portals f !! name) s f
  end.

(** [max_rows as u32] of a positive [i32]. *)
Definition on_execute (frame portal : str) (max_rows : Z) (s : SessionState) (f : PgFrontend) : Decoded :=
  let s := extended true s in
  let s := if pg_ext_tcp_hold s then with_frames [] (pg_ext_tcp_hold s) s else s in
  let s := with_page (if 0 <? max_rows then Some max_rows else None) false (push_frame frame s) in
  let skip := if bool_decide (pg_portal_name s = Some portal) then pg_portal_skip_rows s else 0 in
  let s := with_portal (Some portal) skip (pg_drop_portal_hold s) s in
  match portals f !! portal with
  | None => (Err (Protocol ($"postgresql Execute: unknown portal '" ++ portal ++ $"'")), s, f)
  | Some sql =>
      let args := default [] (portal_args f !! portal) in
      let s := with_binary (wants_binary f portal) s in
      let f := set_suppress true (set_portal_described (delete portal (portal_row_described f)) f) in
      (Ok [if is_empty args then Query sql else QueryParams sql args], s, f)
  end.

Definition on_close (target : ascii) (name : str) (s : SessionState) (f : PgFrontend) : Decoded :=
  if Ascii.eqb target "S" then
    reply [encode_close_complete] s
      (set_statements (delete name (prepared f)) (delete name (prepared_params f)) (delete name (pg_prepared_columns f))
         (delete name (prepared_row_described f)) f)
  else
    let f := set_portals (delete name (portals f)) (delete name (portal_args f)) (delete name (portal_params f))
               (delete name (portal_result_formats f)) (delete name (portal_columns f))
               (delete name (portal_row_described f)) f in
    reply [encode_close_complete]
      (if bool_decide (pg_portal_name s = Some name) then with_portal None 0 true s else s) f.

Definition pg_decode (frame : str) (s : SessionState) (f : PgFrontend) : exec Decoded :=
  m ← decode_frontend_message frame;
  match m with
  | Err e => Ret (Err (postgresql_protocol_error e), s, f)
  | Ok m =>
      if pg_extended_error s && match m with FSync | FTerminate => false | _ => true end then Ret (Ok [], s, f)
      else
        match m with
        | FQuery sql =>
            let '(c, s) := decode_query_command sql (extended false s) in Ret (Ok [c], s, set_suppress false f)
        | FTerminate => Ret (Ok [Quit], s, f)
        | FSync => Ret (on_sync s f)
        | FFlush => Ret (Ok [], s, f)
        | FParse statement query _ => Ret (on_parse frame statement query s f)
        | FBind portal statement params formats => Ret (on_bind frame portal statement params formats s f)
        | FDescribe target name => on_describe frame target name s f
        | FExecute portal max_rows => Ret (on_execute frame portal max_rows s f)
        | FClose target name => Ret (on_close target name s f)
        end
  end.

(** ** Encoding *)

Section Encode.
Context (f64_to_string : Z → str) (f64_to_f32_bits : Z → Z).

Definition of_pg {A} (r : result ProtocolError A) : GatewayResult A := map_err postgresql_protocol_error r.

Definition encode_pg_resultset_header_formats (columns : list Column) (format : Z) : GatewayResult (list str) :=
  packet ← of_pg (encode_row_description (map (field_of format) columns)); Ok [packet].
Definition encode_pg_resultset_header (columns : list Column) : GatewayResult (list str) :=
  encode_pg_resultset_header_formats columns 0.

Definition row_arity_error (what : str) (row : list GatewayValue) (columns : list Column) : GatewayError :=
  Protocol (what ++ $" row has " ++ dec (Z.of_nat (length row)) ++ $" values for " ++ dec (Z.of_nat (length columns))
    ++ $" columns").

Fixpoint encode_pg_resultset_rows (columns : list Column) (rows : list (list GatewayValue)) : GatewayResult (list str) :=
  match rows with
  | [] => Ok []
  | row :: rows =>
      if negb (length row =? length columns)%nat then
        Err (row_arity_error ($"postgresql resultset") row columns)
      else
        packet ← of_pg (encode_data_row (map (gateway_value_to_text f64_to_string) row));
        packets ← encode_pg_resultset_rows columns rows;
        Ok (packet :: packets)
  end.

Fixpoint binary_cells (row : list GatewayValue) (columns : list Column) : GatewayResult (list (option str)) :=
  match row, columns with
  | v :: row, c :: columns =>
      cell ← gateway_value_to_pg_binary f64_to_f32_bits v (data_type c);
      cells ← binary_cells row columns;
      Ok (cell :: cells)
  | _, _ => Ok []
  end.

Fixpoint encode_pg_resultset_rows_binary (columns : list Column) (rows : list (list GatewayValue))
    : GatewayResult (list str) :=
  match rows with
  | [] => Ok []
  | row :: rows =>
      if negb (length row =? length columns)%nat then
        Err (row_arity_error ($"postgresql binary resultset") row columns)
      else
        cells ← binary_cells row columns;
        packet ← of_pg (encode_data_row cells);
        packets ← encode_pg_resultset_rows_binary columns rows;
        Ok (packet :: packets)
  end.

Definition select_tag (n : Z) : str := encode_command_complete ($"SELECT " ++ dec n).
Definition opt_packet (p : option str) : list str := match p with Some p => [p] | None => [] end.

(** [encode_resultset_opts] and [encode_resultset_binary_opts]. *)
Definition encode_resultset_opts (binary : bool) (columns : list Column) (rows : list (list GatewayValue))
    (ready : option str) (skip_header : bool) : GatewayResult (list str) :=
  header ← (if skip_header then Ok [] else encode_pg_resultset_header_formats columns (if binary then 1 else 0));
  body ← (if binary then encode_pg_resultset_rows_binary columns rows else encode_pg_resultset_rows columns rows);
  Ok (header ++ body ++ [select_tag (Z.of_nat (length rows))] ++ opt_packet ready).

Definition encode_resultset_with_tag (columns : list Column) (rows : list (list GatewayValue)) (ready : option str)
    (tag : str) : GatewayResult (list str) :=
  header ← encode_pg_resultset_header columns;
  body ← encode_pg_resultset_rows columns rows;
  Ok (header ++ body ++ [encode_command_complete tag] ++ opt_packet ready).

(** [ReadyForQuery], which [Sync] alone sends in the extended protocol. *)
Definition ready_packet (s : SessionState) : option str :=
  if pg_extended_query s then None else Some (encode_ready_for_query (transaction_status s)).

(** The answer to [DescribeSql]. *)
Definition encode_described (columns : list Column) (f : PgFrontend) : GatewayResult (list str) * PgFrontend :=
  let p := default (mkPendingDescribe "S" [] None 0) (pending_describe f) in
  let f := set_describe (suppress_next_row_description f) None f in
  if is_empty columns then
    (Ok (opt_packet (pd_param_desc p) ++ [encode_no_data]), unmark_portal (pd_target p) (pd_name p) f)
  else
    let f :=
      if Ascii.eqb (pd_target p) "S" then
        set_statements (prepared f) (prepared_params f) (<[pd_name p := columns]> (pg_prepared_columns f))
          (prepared_row_described f) f
      else if Ascii.eqb (pd_target p) "P" then
        set_portals (portals f) (portal_args f) (portal_params f) (portal_result_formats f)
          (<[pd_name p := columns]> (portal_columns f)) (portal_row_described f) f
      else f in
    (describe_rows (pd_param_desc p) (pd_format_code p) columns, mark_described (pd_target p) (pd_name p) f).

Definition pg_encode (response : GatewayResponse) (s : SessionState) (f : PgFrontend)
    : GatewayResult (list str) * PgFrontend :=
  let ready := ready_packet s in
  let done packet := (Ok (packet :: opt_packet ready), f) in
  match response with
  | ROk affected _ => done (encode_command_complete ($"OK " ++ dec affected))
  | CommandComplete tag => done (encode_command_complete tag)
  | Pong => done (encode_command_complete ($"SELECT 1"))
  | Bye => (Ok [], f)
  | RError code message => done (encode_error_response ($"ERROR") (postgresql_sqlstate code) message)
  | ResultSet columns rows =>
      (encode_resultset_opts (prefer_binary_result s) columns rows ready (suppress_next_row_description f),
       set_suppress false f)
  | TaggedResultSet columns rows tag => (encode_resultset_with_tag columns rows ready tag, f)
  | Wire packets => (Ok packets, f)
  | Prepared id n _ => done (encode_command_complete ($"PREPARE " ++ id ++ $" params=" ++ dec n))
  | RowDescription columns => encode_described columns f
  end.

Definition pg_header (columns : list Column) (s : SessionState) (f : PgFrontend) : GatewayResult (list str) * PgFrontend :=
  if suppress_next_row_description f then (Ok [], set_suppress false f)
  else (encode_pg_resultset_header_formats columns (if prefer_binary_result s then 1 else 0), f).

Definition pg_rows (columns : list Column) (rows : list (list GatewayValue)) (s : SessionState) (f : PgFrontend)
    : GatewayResult (list str) * PgFrontend :=
  (if prefer_binary_result s then encode_pg_resultset_rows_binary columns rows else encode_pg_resultset_rows columns rows, f).

Definition portal_suspended (total_rows : Z) (s : SessionState) (truncated : bool) : bool :=
  pg_extended_query s && truncated
  && match pg_execute_max_rows s with Some m => (0 <? m) && (m <=? total_rows) | None => false end.

Definition pg_footer (columns : list Column) (total_rows : Z) (s : SessionState) (truncated : bool) (f : PgFrontend)
    : GatewayResult (list str) * PgFrontend :=
  (Ok (if portal_suspended total_rows s truncated then [encode_portal_suspended]
       else select_tag total_rows :: opt_packet (ready_packet s)), f).

#[export] Instance pg_frontend : FrontendProtocolAdapter PgFrontend := {
  fe_protocol _ := PostgreSql;
  fe_decode := pg_decode;
  fe_encode := pg_encode;
  fe_header := pg_header;
  fe_rows := pg_rows;
  fe_footer := pg_footer
}.
End Encode.

(** ** The handshake *)

Definition DEFAULT_CLIENT_ENCODING : str := $"UTF8".

Definition session_from_startup (m : StartupMessage) : SessionState :=
  mkSession (startup_get m ($"user")) (startup_get m ($"database"))
    (Some (default DEFAULT_CLIENT_ENCODING (startup_get m ($"client_encoding")))) None None Idle false false false None
    false None 0 false [] false.

Definition handshake_response (version : str) (pid key : Z) (client_encoding : str) : str :=
  encode_authentication_ok ++ encode_parameter_status ($"server_version") version
  ++ encode_parameter_status ($"server_encoding") ($"UTF8")
  ++ encode_parameter_status ($"client_encoding") client_encoding
  ++ encode_parameter_status ($"DateStyle") ($"ISO, MDY") ++ encode_parameter_status ($"integer_datetimes") ($"on")
  ++ encode_backend_key_data pid key ++ encode_ready_for_query StIdle.

Section Handshake.
(** The text of the [UnexpectedEof] of [read_exact]. *)
Context (eof_text : str).

Definition postgresql_io_error (context : str) : GatewayError :=
  Protocol ($"postgresql handshake " ++ context ++ $" failed: " ++ eof_text).

(** A frame, and the bytes not read yet. *)
Definition read_startup_frame (input : str) : GatewayResult (str * str) :=
  if (length input <? 4)%nat then Err (postgresql_io_error ($"read startup length"))
  else
    let n := read_i32 input in
    if (n <? 8) || (MAX_STARTUP_PACKET_LEN <? n) then
      Err (Protocol ($"invalid postgresql startup packet length " ++ dec_signed n))
    else if (length input <? Z.to_nat n)%nat then Err (postgresql_io_error ($"read startup body"))
    else Ok (take (Z.to_nat n) input, drop (Z.to_nat n) input).

(** The loop: what is left to read, what was written, and the session or the error. *)
Fixpoint handshake_loop (fuel : nat) (f : PgFrontend) (input out : str) : option (str * str * GatewayResult SessionState) :=
  match fuel with
  | O => None
  | S fuel =>
      match read_startup_frame input with
      | Err e => Some (input, out, Err e)
      | Ok (frame, rest) =>
          match decode_startup_packet frame with
          | Err e => Some (rest, out, Err (postgresql_protocol_error e))
          | Ok SslRequest => handshake_loop fuel f rest (out ++ $"N")
          | Ok (CancelRequest _ _) =>
              Some (rest, out, Err (Unsupported ($"postgresql cancel request during startup is not supported")))
          | Ok (Startup m) =>
              let s := session_from_startup m in
              Some (rest, out ++ handshake_response (server_version f) (process_id f) (secret_key f)
                              (default DEFAULT_CLIENT_ENCODING (charset s)), Ok s)
          end
      end
  end.

Definition handshake (f : PgFrontend) (input : str) : option (str * str * GatewayResult SessionState) :=
  handshake_loop (S (length input)) f input [].
End Handshake.
