(* ===== verification/PgFrontendTheorems.v ===== *)
(** * Theorems on the PostgreSQL frontend

    The extended query protocol refines a machine of statements and portals; a
    statement the classifier refuses never gets into it; after an error the client
    is ignored up to its [Sync]; [ReadyForQuery] is sent where the protocol wants it;
    the handshake ends. *)

From S2P Require Import Prelude RustStr Model Session DangerousSql Transport PgProtocol PgText PgFrontend.

Create HintDb pg.

Section Frontend.
Context (f64_to_string : Z → str) (f64_to_f32_bits : Z → Z).

(** ** The abstract machine *)

(** Statements by name, and portals: the text and the parameters they were bound
    to. *)
Record Extended := mkExtended { statements : gmap str str; bound : gmap str (str * list GatewayValue) }.

(** What the gateway does on a message. *)
Inductive answer :=
| Run (sql : str) (args : list GatewayValue)
| Acknowledge
| Refuse.

(** [Parse] and [Bind] define, [Execute] runs the text and the parameters its portal
    was bound to, [Close] forgets; other messages leave the machine alone. *)
Definition extended_step (m : FrontendMessage) (x : Extended) : answer * Extended :=
  match m with
  | FParse name query _ =>
      match DangerousSql.classify_dangerous_sql query PostgreSql with
      | Some _ => (Refuse, x)
      | None => (Acknowledge, mkExtended (<[name := query]> (statements x)) (bound x))
      end
  | FBind portal name params _ =>
      match statements x !! name with
      | Some sql =>
          if is_ok (bind_arity sql (map bound_value params))
          then (Acknowledge, mkExtended (statements x) (<[portal := (sql, map bound_value params)]> (bound x)))
          else (Refuse, x)
      | None => (Refuse, x)
      end
  | FExecute portal _ =>
      match bound x !! portal with
      | Some (sql, args) => (Run sql args, x)
      | None => (Refuse, x)
      end
  | FClose target name =>
      (Acknowledge,
       if Ascii.eqb target "S" then mkExtended (delete name (statements x)) (bound x)
       else mkExtended (statements x) (delete name (bound x)))
  | _ => (Acknowledge, x)
  end.

(** The frontend's maps are those of the machine. *)
Definition represents (f : PgFrontend) (x : Extended) : Prop :=
  prepared f = statements x ∧ portals f = fst <$> bound x ∧ portal_args f = snd <$> bound x.

(** The commands that carry an answer out. *)
Definition carries (a : answer) (r : GatewayResult (list GatewayCommand)) : Prop :=
  match a with
  | Run sql args => r = Ok [if is_empty args then Query sql else QueryParams sql args]
  | Acknowledge => ∃ cs, r = Ok cs ∧ ∀ c, c ∈ cs → match c with Query _ | QueryParams _ _ => False | _ => True end
  | Refuse => ∃ e, r = Err e
  end.

Lemma acknowledge_reply packets s (f : PgFrontend) : carries Acknowledge (reply packets s f).1.1.
Proof. eexists. split; [done|]. intros c Hc. by apply list_elem_of_singleton in Hc as ->. Qed.

Lemma acknowledge_one c : match c with Query _ | QueryParams _ _ => False | _ => True end → carries Acknowledge (Ok [c]).
Proof. intros Hc. eexists. split; [done|]. intros d Hd. by apply list_elem_of_singleton in Hd as ->. Qed.

Lemma acknowledge_none : carries Acknowledge (Ok []).
Proof. eexists. split; [done|]. intros c Hc. by apply elem_of_nil in Hc. Qed.

Lemma parse_refines frame name query types s f x :
  represents f x →
  let r := on_parse frame name query s f in
  let a := extended_step (FParse name query types) x in carries a.1 r.1.1 ∧ represents r.2 a.2.
Proof.
  intros (Hp & Hq & Ha). unfold on_parse, extended_step.
  destruct (DangerousSql.classify_dangerous_sql query PostgreSql); [split; [by eexists|done]|].
  split; [apply acknowledge_reply|]. split; [|done]. cbn. by rewrite Hp.
Qed.

Lemma bind_refines frame portal name params formats s f x :
  represents f x →
  let r := on_bind frame portal name params formats s f in
  let a := extended_step (FBind portal name params formats) x in carries a.1 r.1.1 ∧ represents r.2 a.2.
Proof.
  intros (Hp & Hq & Ha). unfold on_bind, extended_step. rewrite Hp.
  destruct (statements x !! name) as [sql|]; [|split; [by eexists|done]].
  destruct (bind_arity sql (map bound_value params)) eqn:E; cbn [is_ok]; [|split; [by eexists|done]].
  split; [apply acknowledge_reply|]. split; [done|]. cbn. by rewrite Hq, Ha, !fmap_insert.
Qed.

Lemma execute_refines frame portal n s f x :
  represents f x →
  let r := on_execute frame portal n s f in
  let a := extended_step (FExecute portal n) x in carries a.1 r.1.1 ∧ represents r.2 a.2.
Proof.
  intros (Hp & Hq & Ha). unfold on_execute, extended_step. rewrite Hq, lookup_fmap.
  destruct (bound x !! portal) as [[sql args]|] eqn:E; cbn; [|split; [by eexists|done]].
  rewrite Ha, lookup_fmap, E. done.
Qed.

Lemma close_refines target name s f x :
  represents f x →
  let r := on_close target name s f in
  let a := extended_step (FClose target name) x in carries a.1 r.1.1 ∧ represents r.2 a.2.
Proof.
  intros (Hp & Hq & Ha). unfold on_close, extended_step. destruct (Ascii.eqb target "S").
  - split; [apply acknowledge_reply|]. split; [cbn; by rewrite Hp|done].
  - split; [apply acknowledge_reply|]. split; [done|]. cbn. by rewrite Hq, Ha, !fmap_delete.
Qed.

Lemma marks_represent target name f x :
  represents f x → represents (mark_described target name f) x ∧ represents (unmark_portal target name f) x.
Proof. intros Hx. unfold mark_described, unmark_portal. split; repeat case_match; exact Hx. Qed.

Lemma catalog_refines target name pd format sql s f x r :
  represents f x → describe_catalog target name pd format sql s f = Ret r →
  carries Acknowledge r.1.1 ∧ represents r.2 x.
Proof.
  intros Hx. unfold describe_catalog. destruct (marks_represent target name f x Hx) as [_ Hu].
  destruct sql as [sql|]; [destruct (looks_like_select sql) as [[]|]; cbn; [| |done]|]; intros [= <-].
  - split; [by apply acknowledge_one|exact Hx].
  - split; [apply acknowledge_reply|exact Hu].
  - split; [apply acknowledge_reply|exact Hu].
Qed.

Lemma describe_refines frame target name s f x r :
  represents f x → on_describe frame target name s f = Ret r →
  (carries Acknowledge r.1.1 ∨ ∃ e, r.1.1 = Err e) ∧ represents r.2 x.
Proof.
  intros Hx. unfold on_describe.
  destruct (if Ascii.eqb target "S" then pg_prepared_columns f !! name else _) as [[|c cols]|];
    try (intros [??]%(catalog_refines _ _ _ _ _ _ _ x); [by auto|done]).
  intros [= <-]. destruct (describe_rows _ _ _); [|split; [right; by eexists|done]].
  split; [left; apply acknowledge_reply|by apply marks_represent].
Qed.

(** C24 The extended query protocol refines the machine of statements and portals:
    whatever the client sends and whatever the engine did to the session in between,
    outside an error the frontend moves its maps as the machine does, and
    [Execute] hands the engine exactly the text that was parsed under the name its
    portal was bound to, at the time of the [Bind], with the parameters of that
    [Bind]; no other message runs a statement. *)
Theorem extended_protocol_refines frame m s f x r s' f' :
  represents f x → decode_frontend_message frame = Ret (Ok m) →
  pg_extended_error s = false → (∀ sql, m ≠ FQuery sql) →
  pg_decode frame s f = Ret (r, s', f') →
  let a := extended_step m x in
  (carries a.1 r ∨ ∃ target name e, m = FDescribe target name ∧ r = Err e) ∧ represents f' a.2.
Proof.
  intros Hx Hm He Hq. unfold pg_decode. rewrite Hm, He. cbn [mbind exec_bind andb].
  destruct m as [sql| | |name query types|portal name params formats|target name|portal n|target name|].
  - by destruct (Hq sql).
  - intros [= <- <- <-]. split; [left; by apply acknowledge_one|done].
  - unfold on_sync. destruct (pg_ext_tcp_hold _); intros [= <- <- <-];
      (split; [left; by apply acknowledge_one|exact Hx]).
  - intros [= E]. destruct (parse_refines frame name query types s f x Hx) as [Hc Hr]. rewrite E in Hc, Hr. by split; [left|].
  - intros [= E]. destruct (bind_refines frame portal name params formats s f x Hx) as [Hc Hr]. rewrite E in Hc, Hr.
    by split; [left|].
  - intros E. destruct (describe_refines _ _ _ _ _ x _ Hx E) as [[Hc|[e Hc]] Hr]; (split; [|exact Hr]); [by left|].
    right. cbn in Hc. eauto.
  - intros [= E]. destruct (execute_refines frame portal n s f x Hx) as [Hc Hr]. rewrite E in Hc, Hr. by split; [left|].
  - intros [= E]. destruct (close_refines target name s f x Hx) as [Hc Hr]. rewrite E in Hc, Hr. by split; [left|].
  - intros [= <- <- <-]. split; [left; apply acknowledge_none|done].
Qed.

(** ** Dangerous statements stay out *)

Abbreviation safe sql := (DangerousSql.classify_dangerous_sql sql PostgreSql = None).

(** The states of a connection's frontend, whatever the session was at each call. *)
Inductive reachable : PgFrontend → Prop :=
| reach_new version pid key : reachable (with_backend_key version pid key)
| reach_decode frame s f r s' f' : reachable f → pg_decode frame s f = Ret (r, s', f') → reachable f'
| reach_encode response s f r f' :
    reachable f → pg_encode f64_to_string f64_to_f32_bits response s f = (r, f') → reachable f'
| reach_header columns s f r f' : reachable f → pg_header columns s f = (r, f') → reachable f'.

Definition all_safe (f : PgFrontend) : Prop :=
  map_Forall (λ _ sql, safe sql) (prepared f) ∧ map_Forall (λ _ sql, safe sql) (portals f).

Lemma marks_safe target name f : all_safe f → all_safe (mark_described target name f) ∧ all_safe (unmark_portal target name f).
Proof. intros Hf. unfold mark_described, unmark_portal. split; repeat case_match; exact Hf. Qed.

(** The commands of a decoded message other than [Query]. *)
Definition safe_commands (r : GatewayResult (list GatewayCommand)) : Prop :=
  ∀ cs c, r = Ok cs → c ∈ cs →
    match c with Query sql | QueryParams sql _ | DescribeSql sql => safe sql | _ => True end.

Lemma safe_one c : match c with Query sql | QueryParams sql _ | DescribeSql sql => safe sql | _ => True end → safe_commands (Ok [c]).
Proof. intros Hc cs d [= <-] Hd. by apply list_elem_of_singleton in Hd as ->. Qed.
Lemma safe_err e : safe_commands (Err e).
Proof. done. Qed.
Hint Resolve safe_one safe_err : pg.

Lemma describe_safe frame target name s f r :
  all_safe f → on_describe frame target name s f = Ret r → safe_commands r.1.1 ∧ all_safe r.2.
Proof.
  intros Hf. destruct (marks_safe target name f Hf) as [Hm Hu]. unfold on_describe.
  assert (∀ sql, (if Ascii.eqb target "S" then prepared f !! name else portals f !! name) = Some sql → safe sql) as Hs
    by (destruct Hf as [Hp Hq], (Ascii.eqb target "S"); intros sql E; [apply (Hp _ _ E)|apply (Hq _ _ E)]).
  destruct (if Ascii.eqb target "S" then pg_prepared_columns f !! name else _) as [[|c cols]|].
  2:{ intros [= <-]. by destruct (describe_rows _ _ _); cbn; (split; [apply safe_one || apply safe_err|]). }
  all: unfold describe_catalog; destruct (if Ascii.eqb target "S" then prepared f !! name else portals f !! name) as [sql|];
    [destruct (looks_like_select sql) as [[]|]; cbn; [| |done]|]; intros [= <-]; cbn; (split; [|done]);
    apply safe_one; by try apply Hs.
Qed.

Lemma decode_keeps_safe frame s f r s' f' :
  all_safe f → pg_decode frame s f = Ret (r, s', f') →
  all_safe f' ∧ ((∀ sql, decode_frontend_message frame ≠ Ret (Ok (FQuery sql))) → safe_commands r).
Proof.
  intros Hf. pose proof Hf as [Hp Hq]. unfold pg_decode.
  destruct (decode_frontend_message frame) as [[m|e]|] eqn:Em; cbn [mbind exec_bind]; [| |done].
  2:{ intros [= <- <- <-]. auto with pg. }
  destruct (pg_extended_error s && _).
  { intros [= <- <- <-]. split; [done|]. by intros _ cs c [= <-] Hc%elem_of_nil. }
  destruct m as [sql| | |name query types|portal name params formats|target name|portal n|target name|].
  - destruct (decode_query_command sql _) as [c s1]. intros [= <- <- <-]. split; [done|]. intros H. by destruct (H sql).
  - intros [= <- <- <-]. auto with pg.
  - unfold on_sync. destruct (pg_ext_tcp_hold _); intros [= <- <- <-]; split; auto with pg.
  - unfold on_parse. destruct (DangerousSql.classify_dangerous_sql query PostgreSql) eqn:Ed; intros [= <- <- <-]; [auto with pg|].
    split; [|intros _; by apply safe_one]. split; [|done]. cbn. by apply map_Forall_insert_2.
  - unfold on_bind. destruct (prepared f !! name) as [sql|] eqn:Es; [|intros [= <- <- <-]; auto with pg].
    destruct (bind_arity sql _); intros [= <- <- <-]; [|auto with pg].
    split; [|intros _; by apply safe_one]. split; [done|]. cbn. apply map_Forall_insert_2; [by eapply Hp|done].
  - intros E. by apply describe_safe in E as [Hc Hr].
  - unfold on_execute. destruct (portals f !! portal) as [sql|] eqn:Es; intros [= <- <- <-]; [|auto with pg].
    split; [done|]. intros _. apply safe_one. pose proof (Hq _ _ Es). by destruct (is_empty _).
  - unfold on_close. destruct (Ascii.eqb target "S"); intros [= <- <- <-]; (split; [|intros _; by apply safe_one]);
      (split; [|try done]); try done; cbn; by apply map_Forall_delete.
  - intros [= <- <- <-]. split; [done|]. by intros _ cs c [= <-] Hc%elem_of_nil.
Qed.

Lemma encode_keeps_safe response s f r f' :
  all_safe f → pg_encode f64_to_string f64_to_f32_bits response s f = (r, f') → all_safe f'.
Proof.
  intros Hf. unfold pg_encode. destruct response; try (by intros [= <- <-]).
  unfold encode_described. destruct (is_empty columns); intros [= <- <-].
  - by apply marks_safe.
  - apply marks_safe. by repeat case_match.
Qed.

(** C25 The refusals of the classifier cannot be bypassed by the extended protocol: in
    every state a connection can reach, whatever is sent in which order, a statement
    handed to the engine by [Execute] or [Describe] is one the classifier lets
    through, however its name and its portal were defined and redefined. *)
Theorem extended_statements_safe f frame s r s' f' :
  reachable f → pg_decode frame s f = Ret (r, s', f') →
  (∀ sql, decode_frontend_message frame ≠ Ret (Ok (FQuery sql))) → safe_commands r.
Proof.
  intros Hf. assert (all_safe f) as Hs; [|intros E; by eapply decode_keeps_safe].
  clear frame s r s' f'.
  induction Hf as [version pid key|frame s f r s' f' _ IH E|response s f r f' _ IH E|columns s f r f' _ IH E].
  - split; apply map_Forall_empty.
  - by eapply decode_keeps_safe.
  - by eapply encode_keeps_safe.
  - revert E. unfold pg_header. by destruct (suppress_next_row_description f); intros [= _ <-].
Qed.

(** ** The error boundary *)

Fixpoint decode_all (frames : list str) (s : SessionState) (f : PgFrontend)
    : exec (list (GatewayResult (list GatewayCommand)) * SessionState * PgFrontend) :=
  match frames with
  | [] => Ret ([], s, f)
  | frame :: frames =>
      '(r, s, f) ← pg_decode frame s f; '(rs, s, f) ← decode_all frames s f; Ret (r :: rs, s, f)
  end.

(** A frame that is not the end of the unit. *)
Definition inner_frame (frame : str) : Prop :=
  ∃ m, decode_frontend_message frame = Ret (Ok m) ∧ m ≠ FSync ∧ m ≠ FTerminate.

Lemma ignored_frame frame s f :
  pg_extended_error s = true → inner_frame frame → pg_decode frame s f = Ret (Ok [], s, f).
Proof. intros He (m & Hm & Hs & Ht). unfold pg_decode. rewrite Hm, He. by destruct m. Qed.

(** After an error in an extended unit every message up to the client's [Sync] is
    dropped without any effect, on the session or on the statements and portals, and
    the [Sync] ends the error: it is answered by one [ReadyForQuery] with the state
    of the transaction (or passed on to a backend that still has the unit open), with
    the portal and its held rows given up. *)
Theorem error_until_sync frames s f :
  pg_extended_error s = true → Forall inner_frame frames →
  ∃ s' f', decode_all (frames ++ [encode_sync_message]) s f =
    Ret (replicate (length frames) (Ok []) ++
         [Ok [if pg_ext_tcp_hold s then PgBackendSync
              else ClientWire [encode_ready_for_query (transaction_status s)]]], s', f') ∧
    pg_extended_error s' = false ∧ transaction_state s' = transaction_state s ∧
    pg_portal_name s' = None ∧ pg_drop_portal_hold s' = true ∧
    prepared f' = prepared f ∧ portals f' = portals f ∧ portal_args f' = portal_args f.
Proof.
  intros He Hf. induction Hf as [|frame frames Hfr _ IH].
  - assert (decode_frontend_message encode_sync_message = Ret (Ok FSync)) as Hm by (by vm_compute).
    destruct (pg_ext_tcp_hold s) eqn:Eh; eexists _, _; cbn [app decode_all]; unfold pg_decode; rewrite Hm, He;
      cbn [mbind exec_bind andb]; unfold on_sync; rewrite Eh; (split; [reflexivity|done]).
  - destruct IH as (s' & f' & E & Hrest). exists s', f'. split; [|exact Hrest].
    cbn [app decode_all]. rewrite ignored_frame by done. cbn [mbind exec_bind]. by rewrite E.
Qed.

(** ** [ReadyForQuery] *)

Definition not_ready (packet : str) : Prop := head packet ≠ Some ("Z"%char).

Lemma rows_not_ready (binary : bool) columns rows packets :
  (if binary then encode_pg_resultset_rows_binary f64_to_f32_bits columns rows
   else encode_pg_resultset_rows f64_to_string columns rows) = Ok packets → Forall not_ready packets.
Proof.
  assert (∀ values packet, of_pg (encode_data_row values) = Ok packet → not_ready packet) as Hrow.
  { intros values packet. unfold encode_data_row, checked_i16, checked. case_match; [|done]. cbn [mbind result_bind].
    destruct (cells_bytes values); [|done]. by intros [= <-]. }
  revert packets. induction rows as [|row rows IH]; intros packets;
    destruct binary; cbn [encode_pg_resultset_rows encode_pg_resultset_rows_binary]; try (by intros [= <-]).
  - destruct (negb _); [done|]. destruct (binary_cells _ row columns) as [cells|]; [|done]. cbn [mbind result_bind].
    destruct (of_pg _) as [packet|] eqn:Ep; [|done]. cbn [mbind result_bind].
    destruct (encode_pg_resultset_rows_binary _ columns rows) as [ps|]; [|done]. cbn [mbind result_bind].
    intros <-%Ok_inj. constructor; [by eapply Hrow|by apply IH].
  - destruct (negb _); [done|]. destruct (of_pg _) as [packet|] eqn:Ep; [|done]. cbn [mbind result_bind].
    destruct (encode_pg_resultset_rows _ columns rows) as [ps|]; [|done]. cbn [mbind result_bind].
    intros <-%Ok_inj. constructor; [by eapply Hrow|by apply IH].
Qed.

Lemma header_not_ready columns format packets :
  encode_pg_resultset_header_formats columns format = Ok packets → Forall not_ready packets.
Proof.
  unfold encode_pg_resultset_header_formats, encode_row_description, checked_i16, checked. case_match; [|done].
  cbn [mbind result_bind of_pg map_err]. intros <-%Ok_inj. by repeat constructor.
Qed.

(** The packets end with the session's [ReadyForQuery], or have none in the extended
    protocol. *)
Definition well_ended (s : SessionState) (packets : list str) : Prop :=
  ∃ body, packets = body ++ opt_packet (ready_packet s) ∧ Forall not_ready body.

Lemma well_ended_one s packet : not_ready packet → well_ended s (packet :: opt_packet (ready_packet s)).
Proof. intros Hp. exists [packet]. split; [done|by repeat constructor]. Qed.

Lemma resultset_well_ended s (binary : bool) columns rows skip packets :
  encode_resultset_opts f64_to_string f64_to_f32_bits binary columns rows (ready_packet s) skip = Ok packets →
  well_ended s packets.
Proof.
  unfold encode_resultset_opts.
  destruct (if skip then Ok [] else encode_pg_resultset_header_formats columns (if binary then 1 else 0)) as [h|] eqn:Eh;
    [|done].
  cbn [mbind result_bind].
  destruct (if binary then encode_pg_resultset_rows_binary f64_to_f32_bits columns rows
            else encode_pg_resultset_rows f64_to_string columns rows) as [b|] eqn:Eb; [|done]. cbn [mbind result_bind]. intros <-%Ok_inj.
  exists (h ++ b ++ [select_tag (Z.of_nat (length rows))]). split; [by rewrite <-!app_assoc|].
  apply Forall_app. split; [destruct skip; [by injection Eh as <-|by eapply header_not_ready]|].
  apply Forall_app. split; [by eapply rows_not_ready|by repeat constructor].
Qed.

(** The client is told that the gateway is ready exactly when it is: every complete
    answer to a simple query ends with one [ReadyForQuery] that carries the
    transaction state, and no answer inside an extended unit has one (its [Sync]
    sends it, [error_until_sync]); relayed frames aside. *)
Theorem ready_when_due response s f packets f' :
  match response with Wire _ | RowDescription _ | Bye => False | _ => True end →
  pg_encode f64_to_string f64_to_f32_bits response s f = (Ok packets, f') → well_ended s packets.
Proof.
  intros Hr. unfold pg_encode. destruct response; try done; try (intros [= <- <-]; by apply well_ended_one).
  - intros [= E _]. by eapply resultset_well_ended.
  - unfold encode_resultset_with_tag, encode_pg_resultset_header.
    destruct (encode_pg_resultset_header_formats columns 0) as [h|] eqn:Eh; [|done]. cbn [mbind result_bind].
    destruct (encode_pg_resultset_rows f64_to_string columns rows) as [b|] eqn:Eb; [|done]. cbn [mbind result_bind].
    intros E. apply (f_equal fst) in E. cbn in E. apply Ok_inj in E as <-.
    exists (h ++ b ++ [encode_command_complete tag]). split; [by rewrite <-!app_assoc|].
    apply Forall_app. split; [by eapply header_not_ready|]. apply Forall_app.
    split; [by apply (rows_not_ready false) in Eb|by repeat constructor].
Qed.
End Frontend.

(** ** The handshake *)

Lemma startup_frame_shorter eof input frame rest :
  read_startup_frame eof input = Ok (frame, rest) → input = frame ++ rest ∧ (length rest < length input)%nat.
Proof.
  unfold read_startup_frame. destruct (length input <? 4)%nat; [done|]. destruct ((read_i32 input <? 8) || _) eqn:En; [done|].
  apply orb_false_iff in En as [En%Z.ltb_ge _]. destruct (length input <? _)%nat eqn:El; [done|]. apply Nat.ltb_ge in El.
  intros E. apply Ok_inj in E. injection E as <- <-. split; [by rewrite take_drop|]. rewrite length_drop. lia.
Qed.

Lemma handshake_loop_ends eof fuel f input out :
  (length input < fuel)%nat → ∃ rest sent r, handshake_loop eof fuel f input out = Some (rest, out ++ sent, r).
Proof.
  revert input out. induction fuel as [|fuel IH]; intros input out Hf; [lia|]. cbn [handshake_loop].
  destruct (read_startup_frame eof input) as [[frame rest]|e] eqn:Er; [|exists input, [], (Err e); by rewrite app_nil_r].
  apply startup_frame_shorter in Er as [_ Hlt].
  destruct (decode_startup_packet frame) as [[m| |pid key]|e]; try (eexists _, [], _; by rewrite app_nil_r).
  - by eexists _, _, _.
  - destruct (IH rest (out ++ $"N") ltac:(lia)) as (rest' & sent & r & ->). exists rest', ($"N" ++ sent), r.
    by rewrite app_assoc.
Qed.

(** The handshake always ends, on every input: with a session, or with an error as
    soon as the input ends, announces a length out of range, or is no start-up
    packet; requests for TLS before it are declined one by one. *)
Theorem handshake_ends eof f input : is_Some (handshake eof f input).
Proof.
  destruct (handshake_loop_ends eof (S (length input)) f input []) as (rest & sent & r & E); [lia|].
  unfold handshake. rewrite E. by eexists.
Qed.

(** Anyone is whom they say they are: a start-up packet with a name is answered with
    [AuthenticationOk], and the session, whose user the policy decides on, has that
    name. *)
Theorem handshake_trusts_name eof f name :
  sendable_text name → len name ≤ 1000 →
  ∃ sent s, handshake eof f (encode_startup_message [($"user", name)]) = Some ([], encode_authentication_ok ++ sent, Ok s) ∧
    user s = Some name.
Proof.
  intros Hn Hl.
  assert (len (encode_startup_message [($"user", name)]) = len name + 15) as El.
  { unfold encode_startup_message, encode_untagged_packet, cstring.
    cbn [map concat fst snd]. rewrite app_nil_r, !length_app, !i32_length. change (length ($"user")) with 4%nat.
    cbn [length]. lia. }
  assert (Forall sendable_pair [($"user", name)]) as Hps.
  { constructor; [|done]. split; [done|]. split; [|done]. split; [|by vm_compute].
    intros Hin. repeat (apply elem_of_cons in Hin as [Hin|Hin]; [done|]). by apply elem_of_nil in Hin. }
  pose proof (startup_decoded _ Hps ltac:(unfold MAX_STARTUP_PACKET_LEN; lia)) as Hd.
  unfold handshake. set (input := encode_startup_message _) in *.
  assert (read_startup_frame eof input = Ok (input, [])) as Hr.
  { unfold read_startup_frame. rewrite (proj2 (Nat.ltb_ge _ _)) by lia.
    assert (read_i32 input = len input) as ->.
    { unfold input. apply read_untagged. change (len input < 2147483648). lia. }
    unfold MAX_STARTUP_PACKET_LEN. rewrite !(proj2 (Z.ltb_ge _ _)) by lia. cbn [orb]. rewrite Nat2Z.id.
    rewrite (proj2 (Nat.ltb_ge _ _)) by lia. by rewrite firstn_all, skipn_all. }
  cbn [handshake_loop]. rewrite Hr, Hd. unfold handshake_response.
  eexists _, _. split; [reflexivity|]. cbn. unfold startup_get. cbn. by rewrite lookup_insert_eq.
Qed.

(** ** At concrete inputs *)

Definition parse_names : str := client_message (FParse ($"s") ($"SELECT name FROM people WHERE id = $1") []).
Definition bind_names : str := client_message (FBind ($"p") ($"s") [Some ($"7")] []).
Definition run_names : str := client_message (FExecute ($"p") 0).

Definition bound_names : Extended :=
  mkExtended {[ $"s" := $"SELECT name FROM people WHERE id = $1" ]}
    {[ $"p" := ($"SELECT name FROM people WHERE id = $1", [VString ($"7")]) ]}.

Definition after_bind : SessionState * PgFrontend :=
  match decode_all [parse_names; bind_names] default_session (new_pg_frontend ($"14")) with
  | Ret (_, s, f) => (s, f)
  | Panic => (default_session, new_pg_frontend [])
  end.

Lemma extended_protocol_refines_witness :
  ∃ s f, pg_decode run_names after_bind.1 after_bind.2 =
      Ret (Ok [QueryParams ($"SELECT name FROM people WHERE id = $1") [VString ($"7")]], s, f) ∧
    represents f bound_names.
Proof.
  eexists _, _. split; [vm_compute; reflexivity|].
  eapply (extended_protocol_refines run_names (FExecute ($"p") 0) after_bind.1 after_bind.2 bound_names
    (Ok [QueryParams ($"SELECT name FROM people WHERE id = $1") [VString ($"7")]]) _ _).
  - split; [vm_compute; reflexivity|]. split; vm_compute; reflexivity.
  - vm_compute. reflexivity.
  - vm_compute. reflexivity.
  - done.
  - vm_compute. reflexivity.
Defined.

Lemma extended_statements_safe_witness :
  ∃ s f r, pg_decode run_names after_bind.1 after_bind.2 = Ret (r, s, f) ∧ safe_commands r.
Proof.
  eexists _, _, _. split; [vm_compute; reflexivity|].
  assert (reachable (λ _, []) (λ x, x) (after_bind.2)) as Hr.
  { assert (∃ r1 s1 f1 r2, pg_decode parse_names default_session (new_pg_frontend ($"14")) = Ret (r1, s1, f1) ∧
      pg_decode bind_names s1 f1 = Ret (r2, after_bind.1, after_bind.2)) as (r1 & s1 & f1 & r2 & E1 & E2)
      by (eexists _, _, _, _; split; [vm_compute; reflexivity|vm_compute; reflexivity]).
    eapply reach_decode; [|exact E2]. eapply reach_decode; [|exact E1]. apply reach_new. }
  eapply (extended_statements_safe (λ _, []) (λ x, x) after_bind.2 run_names after_bind.1 _ _ _ Hr).
  - vm_compute. reflexivity.
  - intros sql. vm_compute. done.
Defined.

Lemma error_until_sync_witness :
  ∃ s' f', decode_all [run_names; bind_names; encode_sync_message]
      (with_extended true true default_session) (new_pg_frontend ($"14")) =
    Ret ([Ok []; Ok []; Ok [ClientWire [encode_ready_for_query StIdle]]], s', f') ∧ pg_extended_error s' = false.
Proof.
  edestruct (error_until_sync [run_names; bind_names] (with_extended true true default_session) (new_pg_frontend ($"14")))
    as (s' & f' & E & He & _); [done| |].
  - repeat (apply Forall_cons; split; [eexists; split; [vm_compute; reflexivity|done]|]). done.
  - exists s', f'. split; [exact E|exact He].
Defined.

Lemma ready_when_due_witness :
  ∃ packets, pg_encode (λ _, []) (λ x, x) (CommandComplete ($"BEGIN")) (with_transaction Active default_session)
      (new_pg_frontend ($"14")) = (Ok packets, new_pg_frontend ($"14")) ∧
    well_ended (with_transaction Active default_session) packets.
Proof.
  eexists. split; [reflexivity|].
  apply (ready_when_due (λ _, []) (λ x, x) (CommandComplete ($"BEGIN")) (with_transaction Active default_session)
    (new_pg_frontend ($"14")) _ (new_pg_frontend ($"14")) I eq_refl).
Defined.
