(* ===== verification/PgSession.v ===== *)
(** * A PostgreSQL session

    [run_postgresql_core_session] of [runtime/gateway/src/gateway.rs] with its frame
    reader and its recovery from errors: the bytes of a client, cut into frames and
    passed to the connection engine with the frontend of [PgFrontend].

    The input is the whole byte stream of the client; a write may fail ([Wr]).  The
    text of the end-of-file error of [read_exact] is a parameter. *)

From S2P Require Import Prelude RustStr Model Session TimeRules Pdp Authorize LoadBalance Route Plugin Transport Obligations ObjectSet AuditEvents PdpStore PgProtocol PgText PgFrontend PgFrontendTheorems Engine EngineTheorems.

Definition MAX_POSTGRESQL_FRONTEND_MESSAGE_LEN : Z := 16 * 1024 * 1024.

(** What a read returns: the end of the stream, an error, or a frame and the rest. *)
Inductive frame_read := ReadEnd | ReadError (e : GatewayError) | ReadFrame (frame rest : str).

Definition read_postgresql_frontend_frame (eof_text input : str) : frame_read :=
  if (length input <? 5)%nat then ReadEnd
  else
    let n := read_i32 (drop 1 input) in
    if n <? 4 then ReadError (Protocol ($"invalid postgresql frontend message length " ++ dec_signed n))
    else if MAX_POSTGRESQL_FRONTEND_MESSAGE_LEN <? n + 1 then
      ReadError (Protocol ($"postgresql frontend message length " ++ dec (n + 1) ++ $" exceeds limit "
        ++ dec MAX_POSTGRESQL_FRONTEND_MESSAGE_LEN))
    else
      let size := Z.to_nat (n + 1) in
      if (length input <? size)%nat then
        ReadError (Protocol ($"postgresql read frontend frame body failed: " ++ eof_text))
      else ReadFrame (take size input) (drop size input).

Definition extended_tag (frame : str) : bool :=
  match frame with
  | c :: _ => existsb (Ascii.eqb c) ["P"; "B"; "D"; "E"; "C"; "H"; "S"]%char
  | [] => false
  end.

Definition postgresql_extended_error_packet (frame : str) (s : SessionState) (e : GatewayError)
    : option (str * SessionState) :=
  sqlstate ← match e with
             | Protocol _ => Some ($"08P01")
             | Unsupported _ => Some ($"0A000")
             | _ => None
             end;
  if negb (pg_extended_query s) && negb (extended_tag frame) then None
  else
    Some (encode_error_response ($"ERROR") sqlstate (PdpStore.error_to_string e),
          fail_transaction (with_extended true true s)).

Section PgSession.
Context {Wr B W R : Type} `{ResponseWriter Wr} `{BackendConnector B}.
Context `{Authorize.TicketGate W} `{Pdp.RemoteIO} `{TimeRules.Chrono} `{LoadBalance.Rng R} `{RegexFlags}.
Context (f64_to_string : Z → str) (f64_to_f32_bits : Z → Z) (f64_is_finite : Z → bool)
  (sample_json : list str → list (list JsonValue) → bool → str)
  (extract_object_set : str → str → ObjectSet.ObjectSet) (eof_text : str).

#[local] Instance session_frontend : FrontendProtocolAdapter PgFrontend := pg_frontend f64_to_string f64_to_f32_bits.

Abbreviation C := (Conn (F := PgFrontend) (Wr := Wr) (B := B) (W := W) (R := R)).
Abbreviation handle_frame := (handle_frame_inner f64_to_string f64_is_finite sample_json extract_object_set).

(** The body of the loop on a frame: the connection, and whether to go on. *)
Definition session_turn (cfg : ConnConfig) (rd : nat → CommandReadings) (frame : str) (c : C) : fueled (C * bool) :=
  match handle_frame cfg rd frame c with
  | None => None
  | Some Panic => Some Panic
  | Some (Ret (Ok _, c)) => Some (Ret (c, negb (bool_decide (head frame = Some "X"%char))))
  | Some (Ret (Err e, c)) =>
      match postgresql_extended_error_packet frame (c_session c) e with
      | None => Some (Ret (c, false))
      | Some (packet, s) =>
          let '(r, w) := write_packets [packet] (c_writer c) in
          Some (Ret (set_io (c_frontend c) w (set_session s c), is_ok r))
      end
  end.

Fixpoint session_loop (fuel : nat) (cfg : ConnConfig) (rd : nat → nat → CommandReadings) (i : nat) (input : str) (c : C)
    : fueled C :=
  match fuel with
  | O => None
  | S fuel =>
      match read_postgresql_frontend_frame eof_text input with
      | ReadEnd | ReadError _ => Some (Ret c)
      | ReadFrame frame rest =>
          match session_turn cfg (rd i) frame c with
          | None => None
          | Some Panic => Some Panic
          | Some (Ret (c, true)) => session_loop fuel cfg rd (S i) rest c
          | Some (Ret (c, false)) => Some (Ret c)
          end
      end
  end.

(** The session after the handshake: its database and endpoint default to those of
    the listener's connection. *)
Definition start_session (handshaken : SessionState) (c : C) : C :=
  let s := c_session c in
  set_session
    (mkSession (user handshaken) (match database handshaken with Some d => Some d | None => database s end)
       (charset handshaken) (autocommit handshaken)
       (match backend_endpoint handshaken with Some e => Some e | None => backend_endpoint s end)
       (transaction_state handshaken) (prefer_binary_result handshaken) (pg_extended_query handshaken)
       (pg_extended_error handshaken) (pg_execute_max_rows handshaken) (result_truncated handshaken)
       (pg_portal_name handshaken) (pg_portal_skip_rows handshaken) (pg_drop_portal_hold handshaken)
       (pg_client_extended_frames handshaken) (pg_ext_tcp_hold handshaken)) c.

Definition run_postgresql_core_session (cfg : ConnConfig) (rd : nat → nat → CommandReadings) (handshaken : SessionState)
    (input : str) (c : C) : fueled C :=
  session_loop (S (length input)) cfg rd 0 input (start_session handshaken c).

(** ** Framing *)

(** The loop on frames that were cut already. *)
Fixpoint session_frames (cfg : ConnConfig) (rd : nat → nat → CommandReadings) (i : nat) (frames : list str) (c : C)
    : fueled C :=
  match frames with
  | [] => Some (Ret c)
  | frame :: frames =>
      match session_turn cfg (rd i) frame c with
      | None => None
      | Some Panic => Some Panic
      | Some (Ret (c, true)) => session_frames cfg rd (S i) frames c
      | Some (Ret (c, false)) => Some (Ret c)
      end
  end.

Definition fits (frame : str) : Prop :=
  ∃ tag body, frame = encode_message tag body ∧ len body + 5 ≤ MAX_POSTGRESQL_FRONTEND_MESSAGE_LEN.

Lemma read_frame_app frame rest :
  fits frame → read_postgresql_frontend_frame eof_text (frame ++ rest) = ReadFrame frame rest.
Proof.
  intros (tag & body & -> & Hl). unfold MAX_POSTGRESQL_FRONTEND_MESSAGE_LEN in Hl.
  unfold read_postgresql_frontend_frame.
  assert (length (encode_message tag body) = 5 + length body)%nat as El
    by (unfold encode_message; cbn [length]; rewrite length_app, i32_length; lia).
  rewrite !length_app, !El, (proj2 (Nat.ltb_ge _ 5)) by lia.
  assert (read_i32 (drop 1 (encode_message tag body ++ rest)) = len body + 4) as ->
    by (change (drop 1 (encode_message tag body ++ rest)) with ((i32_bytes (len body + 4) ++ body) ++ rest);
        rewrite <-app_assoc; by apply read_i32_bytes; lia).
  unfold MAX_POSTGRESQL_FRONTEND_MESSAGE_LEN.
  rewrite !(proj2 (Z.ltb_ge _ _)) by lia.
  replace (Z.to_nat (len body + 4 + 1)) with (length (encode_message tag body)) by lia.
  rewrite (proj2 (Nat.ltb_ge _ _)) by lia. by rewrite take_app_length, drop_app_length.
Qed.

Lemma read_frame_short rest :
  (length rest < 5)%nat → read_postgresql_frontend_frame eof_text rest = ReadEnd.
Proof. intros. unfold read_postgresql_frontend_frame. by rewrite (proj2 (Nat.ltb_lt _ _)). Qed.

Lemma session_loop_frames fuel cfg rd i frames rest c :
  Forall fits frames → (length rest < 5)%nat → (length frames < fuel)%nat →
  session_loop fuel cfg rd i (concat frames ++ rest) c = session_frames cfg rd i frames c.
Proof.
  intros Hf Hr. revert fuel i c. induction Hf as [|frame frames Hfr _ IH]; intros [|fuel] i c Hlen; try (simpl in Hlen; lia).
  - cbn [session_loop concat app]. by rewrite read_frame_short.
  - cbn [session_loop concat session_frames]. rewrite <-app_assoc, read_frame_app by done.
    destruct (session_turn cfg (rd i) frame c) as [[[c1 []]|]|]; try done. apply IH. simpl in Hlen. lia.
Qed.

Lemma frames_length frames : Forall fits frames → (length frames ≤ length (concat frames))%nat.
Proof.
  induction 1 as [|frame frames (tag & body & -> & _) _ IH]; [done|]. cbn [concat length]. rewrite length_app.
  unfold encode_message. cbn [length]. lia.
Qed.

(** A session handles exactly the messages its client sent: whatever their bodies
    contain, the stream of the client is cut at the boundaries of its messages, which
    are handled in order, one after the other, until the client terminates, an error
    ends the session or the stream ends (a message cut short at the end is not
    handled); the loop ends. *)
Theorem session_handles_messages cfg rd handshaken frames rest c :
  Forall fits frames → (length rest < 5)%nat →
  run_postgresql_core_session cfg rd handshaken (concat frames ++ rest) c =
  session_frames cfg rd 0 frames (start_session handshaken c).
Proof.
  intros Hf Hr. unfold run_postgresql_core_session. apply session_loop_frames; [done..|].
  pose proof (frames_length frames Hf). rewrite length_app. lia.
Qed.

(** ** Recovery *)

Lemma ignored_turn cfg rd frame (c : C) :
  pg_extended_error (c_session c) = true → inner_frame frame →
  session_turn cfg rd frame c = Some (Ret (set_pending None c, true)).
Proof.
  intros He Hfr. unfold session_turn, handle_frame_inner. unfold bind at 1, modify. unfold bind at 1, attempt, decode_frame.
  cbn [fe_decode session_frontend pg_frontend]. rewrite ignored_frame by done.
  cbn. destruct Hfr as (m & Hm & _ & Ht). rewrite bool_decide_false; [by destruct c as [? ? ? []]|].
  intros Hh. destruct frame as [|tag rest]; [done|]. cbn in Hh. injection Hh as ->.
  revert Hm. cbn [decode_frontend_message Ascii.eqb Bool.eqb]. repeat case_match; try done.
  unfold require_empty_body. case_match; cbn; congruence.
Qed.

(** C26 After an error in an extended unit the session answers nothing and runs nothing
    until the client's [Sync]: the backend, the session state, the statements, the
    audit trail and what was written stay as they are, whatever messages the client sends, as
    long as their frames decode and are neither [Sync] nor [Terminate].  (A frame that does not
    decode is answered with an error.) *)
Theorem unit_dropped_after_error cfg rd i frames (c : C) :
  pg_extended_error (c_session c) = true → Forall inner_frame frames → frames ≠ [] →
  session_frames cfg rd i frames c = Some (Ret (set_pending None c)).
Proof.
  intros He Hf. revert i c He. induction Hf as [|frame frames Hfr Hfs IH]; intros i c He; [done|]. intros _.
  cbn [session_frames]. rewrite ignored_turn by done.
  destruct frames as [|frame2 frames]; [done|]. by rewrite IH.
Qed.

(** An error of the protocol inside an extended unit does not end the session: the
    client gets one error response with the SQLSTATE of the error, an open
    transaction is failed, and the rest of the unit is dropped
    ([unit_dropped_after_error]). *)
Theorem extended_error_recovers cfg rd frame (c c1 : C) e :
  handle_frame cfg rd frame c = Some (Ret (Err e, c1)) →
  match e with Protocol _ | Unsupported _ => True | _ => False end →
  pg_extended_query (c_session c1) = true ∨ extended_tag frame = true →
  ∃ packet r w, write_packets [packet] (c_writer c1) = (r, w) ∧
    packet = encode_error_response ($"ERROR")
      (match e with Protocol _ => $"08P01" | _ => $"0A000" end) (PdpStore.error_to_string e) ∧
    session_turn cfg rd frame c =
      Some (Ret (set_io (c_frontend c1) w (set_session (fail_transaction (with_extended true true (c_session c1))) c1),
                 is_ok r)).
Proof.
  intros Hh He Hx. unfold session_turn. rewrite Hh. unfold postgresql_extended_error_packet.
  assert (negb (pg_extended_query (c_session c1)) && negb (extended_tag frame) = false) as ->
    by (destruct Hx as [-> | ->]; [done|by rewrite andb_false_r]).
  destruct e; try done; cbn [mbind option_bind];
    (destruct (write_packets _ (c_writer c1)) as [r w] eqn:Ew; eexists _, r, w; split; [exact Ew|done]).
Qed.
End PgSession.
