(* ===== verification/PgSessionRuns.v ===== *)
(** * Runs of PostgreSQL sessions

    [PgSession] at concrete clients and policies: the theorems on sessions are applied
    to them, and a run shows that the rows held for one portal are sent to whoever
    executes another. *)

From S2P Require Import Prelude RustStr Model Session DangerousSql TimeRules StateCrypto Ticket TicketTheorems Obligations ObjectSet Security Pdp Authorize AuthorizeTheorems LoadBalance Route Plugin AuditEvents Transport PgProtocol PgText PgFrontend PgFrontendTheorems RuntimePlan Cursor PdpStore Engine EngineTheorems EngineRuns PgSession.

#[local] Existing Instance AuthorizeTheorems.toy_remote.
#[local] Existing Instance TimeRules.toy_chrono.
#[local] Existing Instance StateCrypto.toy_crypto.
#[local] Existing Instance TicketTheorems.toy_json.
#[local] Existing Instance Authorize.store_gate.
#[local] Existing Instance LoadBalance.counter_rng.
#[local] Existing Instance Route.prefix_regex.
#[local] Instance run_flags2 : RegexFlags := { regex_build := λ _ p, Some p }.

(** A backend with the tables [people] and [numbers]; it records what it runs. *)
Definition PgRecorder : Type := list str.
Definition number_rows : list Row := [row_of_str ($"1"); row_of_str ($"2")].

#[local] Instance pg_recorder : BackendConnector PgRecorder := {
  be_protocol _ := PostgreSql;
  check_session_health b := (Ok tt, b);
  execute_outcome command s mode b :=
    match command with
    | ClientWire packets => (Ok (OComplete (Wire packets)), s, b)
    | Query sql =>
        (Ok (OStreaming (mkStreaming name_column
               (VecRowStream (if contains sql ($"people") then three_names else number_rows)))), s, b ++ [sql])
    | _ => (Ok (OComplete (ROk 0 None)), s, b)
    end
}.

(** [select COLUMN from TABLE]. *)
Definition words_objects (sql kind : str) : ObjectSet.ObjectSet :=
  match split_whitespace sql with
  | [_; column; _; table] => ObjectSet.mkObjectSet [ObjectSet.mkObject None table [column] Select false] false false
  | _ => ObjectSet.empty_objects
  end.

(** Names are masked. *)
Definition mask_names : Pdp.LocalPdpInner :=
  Pdp.mkInner true ObjectSet.StarDeny [] [Security.mkMaskRule ($"hide") ($"replace") [] 0 0]
    [Security.mkTag ($"*.name") [] [] ($"hide") []] [] [] None Security.default_watermark None false None.

Definition pg_config : ConnConfig :=
  mkConnConfig ($"l1") ($"svc") None (HeuristicDialectParser PostgreSql) true ($"L1") false 0 0 Materialized false.

Definition pg_start : Conn (F := PgFrontend) (Wr := CollectingWriter) (B := PgRecorder) (W := Ticket.World) (R := Z) :=
  mkConn (new_pg_frontend ($"14")) (mkCollecting []) [] default_session None None None None ∅
    AuthorizeTheorems.no_tickets [].

Abbreviation pg_run :=
  (run_postgresql_core_session (λ _, []) (λ x, x) (λ _, true) (λ _ _ _, []) words_objects ($"early eof") pg_config
     (λ _ _, readings mask_names) bob_session).

(** The packets written, and what the backend ran. *)
Definition pg_seen (r : fueled (Conn (F := PgFrontend) (Wr := CollectingWriter) (B := PgRecorder) (W := Ticket.World) (R := Z)))
    : option (list str * list str) :=
  match r with Some (Ret c) => Some (packets (c_writer c), c_backend c) | _ => None end.

Definition data (s : str) : str := match encode_data_row [Some s] with Ok p => p | Err _ => [] end.

Definition two_portals : list FrontendMessage :=
  [FParse ($"a") ($"select name from people") []; FBind ($"pa") ($"a") [] [];
   FParse ($"b") ($"select id from numbers") []; FBind ($"pb") ($"b") [] [];
   FExecute ($"pa") 1; FExecute ($"pb") 1; FSync].

(** The rows of one portal reach another.  The first page of [pa] is masked; the
    second [Execute] names [pb], is authorized as a query on [numbers], and gets the
    next row of [people], unmasked; [numbers] is never queried. *)
Theorem held_rows_cross_portals :
  pg_seen (pg_run (concat (map client_message two_portals)) pg_start) =
  Some ([encode_parse_complete; encode_bind_complete; encode_parse_complete; encode_bind_complete;
         data ($"***"); encode_portal_suspended; data ($"bob"); encode_portal_suspended;
         encode_ready_for_query StIdle], [$"select name from people"]).
Proof. vm_compute. reflexivity. Qed.

(** A [Parse] that announces 65535 parameter types panics the task of the session. *)
Theorem session_panics :
  pg_run (encode_message "P" (cstring [] ++ cstring ($"select 1") ++ i16_bytes 65535)) pg_start = Some Panic.
Proof. vm_compute. reflexivity. Qed.

(** ** The theorems at concrete inputs *)

Definition a_query : str := client_message (FQuery ($"select id from numbers")).

Lemma session_handles_messages_witness :
  pg_seen (pg_run (concat [a_query; encode_terminate_message] ++ $"ab") pg_start) =
  pg_seen (session_frames (λ _, []) (λ x, x) (λ _, true) (λ _ _ _, []) words_objects pg_config
    (λ _ _, readings mask_names) 0 [a_query; encode_terminate_message] (start_session bob_session pg_start)).
Proof.
  rewrite (session_handles_messages (λ _, []) (λ x, x) (λ _, true) (λ _ _ _, []) words_objects ($"early eof") pg_config
    (λ _ _, readings mask_names) bob_session [a_query; encode_terminate_message] ($"ab") pg_start); [reflexivity| |].
  - repeat (apply Forall_cons; split; [eexists _, _; split; [reflexivity|by vm_compute]|]). by apply Forall_nil.
  - apply Nat.ltb_lt. vm_compute. reflexivity.
Defined.

(** In an extended unit with an error. *)
Definition in_error : Conn (F := PgFrontend) (Wr := CollectingWriter) (B := PgRecorder) (W := Ticket.World) (R := Z) :=
  set_session (with_extended true true bob_session) pg_start.

Lemma unit_dropped_after_error_witness :
  session_frames (λ _, []) (λ x, x) (λ _, true) (λ _ _ _, []) words_objects pg_config
    (λ _ _, readings mask_names) 0 [a_query] in_error = Some (Ret (set_pending None in_error)).
Proof.
  apply (unit_dropped_after_error (λ _, []) (λ x, x) (λ _, true) (λ _ _ _, []) words_objects pg_config
    (λ _ _, readings mask_names) 0 [a_query] in_error); [reflexivity| |done].
  apply Forall_cons. split; [|by apply Forall_nil]. eexists. split; [vm_compute; reflexivity|done].
Defined.

(** [Bind] of a statement that was never parsed. *)
Definition stray_bind : str := client_message (FBind ($"p") ($"s") [] []).

Lemma extended_error_recovers_witness :
  ∃ c, session_turn (λ _, []) (λ x, x) (λ _, true) (λ _ _ _, []) words_objects pg_config
      (λ _, readings mask_names) stray_bind pg_start = Some (Ret (c, true)) ∧
    pg_extended_error (c_session c) = true.
Proof.
  edestruct (extended_error_recovers (λ _, []) (λ x, x) (λ _, true) (λ _ _ _, []) words_objects pg_config
    (λ _, readings mask_names) stray_bind pg_start) as (packet & r & w & Ew & _ & E);
    [vm_compute; reflexivity|exact I|right; reflexivity|].
  eexists. split; [rewrite E; injection Ew as <- <-; reflexivity|reflexivity].
Defined.
