(* ===== verification/Vault.v ===== *)
(** * The credential vault ([gateway/core/src/vault.rs])

    Short-lived leases on the credentials of an endpoint: issue, renew, revoke,
    prune, the lookups, and the state file, plain or sealed.  The clock and the
    file system come from an environment as in [Ticket]; a [HashMap] is a [gmap],
    whose [map_to_list] stands for the unspecified order of iteration;
    [serde_json] is a parameter.  Wiping memory ([zeroize]) has no counterpart
    beyond the empty string it leaves behind. *)

From S2P Require Import Prelude RustStr StateCrypto Ticket.
Import StateCrypto.

Module Vault.

Abbreviation Env := Ticket.Env.
Abbreviation now_ms := Ticket.now_unix_ms.

Record ProjectEnv := mkProject {
  project_name : str;
  project_environment : str;
  project_service : str;
  project_description : str
}.

Record VaultLease := mkLease {
  lease_id : str;
  lease_project : str;
  lease_environment : str;
  lease_service : str;
  lease_endpoint : str;
  lease_protocol : str;
  lease_address : str;
  lease_database : option str;
  lease_username : str;
  lease_issued_at : Z;
  lease_expires_at : Z;
  access_token : str;
  revoked : bool;
  revoked_at : option Z;
  revoked_by : option str
}.

Record IssueVaultLeaseRequest := mkLeaseRequest {
  lr_project : str;
  lr_environment : str;
  lr_ttl_secs : Z;
  lr_issued_by : option str
}.

(** [LeaseRecord]; [SealedLeaseRecord], its image in a sealed file, has the same
    fields. *)
Record LeaseRecord := mkRecord {
  rec_lease : VaultLease;
  backend_password : str;
  backend_username : str
}.

Record VaultStore := mkVault {
  leases : gmap str LeaseRecord;
  projects : list ProjectEnv;
  vault_seq : Z;
  vault_path : option str;
  vault_key : option str
}.

Record VaultFile := mkFile {
  file_projects : list ProjectEnv;
  file_leases : list VaultLease;
  sealed_leases : list LeaseRecord
}.

(** [serde_json] on the vault file. *)
Class VaultJson := {
  vault_to_vec : VaultFile → result str str;
  vault_to_vec_pretty : VaultFile → result str str;
  vault_from_slice : str → result str VaultFile
}.

Definition VAULT_ENC_MAGIC : str := $"DNVAULT1:".

Definition new_vault : VaultStore := mkVault ∅ [] 1 None None.

Definition set_leases (m : gmap str LeaseRecord) (s : VaultStore) : VaultStore :=
  mkVault m (projects s) (vault_seq s) (vault_path s) (vault_key s).

Definition set_vault_projects (ps : list ProjectEnv) (s : VaultStore) : VaultStore :=
  mkVault (leases s) ps (vault_seq s) (vault_path s) (vault_key s).

(** [sort_by(|a, b| b.issued_at_unix_ms.cmp(&a.issued_at_unix_ms))], stable, by
    the issue time [key]. *)
Section Newest.
Context {A : Type} (key : A → Z).
Fixpoint insert_newest (a : A) (l : list A) : list A :=
  match l with
  | [] => [a]
  | b :: l' => if key b <=? key a then a :: b :: l' else b :: insert_newest a l'
  end.
Definition newest (l : list A) : list A := foldr insert_newest [] l.

Lemma newest_perm l : newest l ≡ₚ l.
Proof.
  unfold newest. induction l as [|a l IH]; simpl; [done|]. rewrite <-IH at 2. generalize (foldr insert_newest [] l).
  intros k. clear. induction k as [|b k IH]; simpl; [done|]. destruct (key b <=? key a); [done|].
  rewrite IH. constructor.
Qed.
End Newest.

Definition map_values {A} (m : gmap str A) : list A := (map_to_list m).*2.

(** The store of one process and the state file. *)
Record VaultWorld := mkVaultWorld { vault : VaultStore; vault_disk : option str }.

Definition vault_nonce (seed : Z) : Z := Z.lxor (u64_wrap (seed * 11400714819323198485)) 3735928559.

Definition is_active (l : VaultLease) (now : Z) : bool := negb (revoked l) && (now <=? lease_expires_at l).

Section Store.
Context `{Crypto, VaultJson}.

Definition decode_vault_file (raw : str) (key : option str) : result str VaultFile :=
  bytes ← decode_maybe_encrypted VAULT_ENC_MAGIC raw key; vault_from_slice bytes.

Definition write_file_locked (env : Env) (key : option str) (ps : list ProjectEnv) (m : gmap str LeaseRecord)
    : result str str :=
  data ← match key with
         | Some k =>
             plain ← vault_to_vec (mkFile ps [] (newest (λ r, lease_issued_at (rec_lease r)) (map_values m)));
             encrypt_blob (Ticket.nonce_now env).1 (Ticket.nonce_now env).2 VAULT_ENC_MAGIC k plain
         | None => vault_to_vec_pretty (mkFile ps (newest lease_issued_at (map_values (rec_lease <$> m))) [])
         end;
  _ ← Ticket.io env;
  Ok data.

Definition persist (env : Env) (w : VaultWorld) : result str unit * VaultWorld :=
  let s := vault w in
  match vault_path s with
  | None => (Ok tt, w)
  | Some _ =>
      match write_file_locked env (vault_key s) (projects s) (leases s) with
      | Ok data => (Ok tt, mkVaultWorld s (Some data))
      | Err e => (Err e, w)
      end
  end.

(** [let _ = self.persist();] *)
Definition persisted (env : Env) (w : VaultWorld) : VaultWorld := (persist env w).2.

(** The counter after a lease of the file; [n + 1] wraps as in a release build. *)
Definition seq_after (max_seq : Z) (l : VaultLease) : Z :=
  match parse_unsigned u64_max (rsplit_next "-" (lease_id l)) with
  | Some n => Z.max max_seq (u64_wrap (n + 1))
  | None => max_seq
  end.

Definition load_record (acc : gmap str LeaseRecord * Z) (r : LeaseRecord) : gmap str LeaseRecord * Z :=
  (<[lease_id (rec_lease r) := r]> acc.1, seq_after acc.2 (rec_lease r)).

(** A lease of a plain file comes back without its credentials. *)
Definition bare_record (l : VaultLease) : LeaseRecord := mkRecord l [] [].

Definition file_records (key : option str) (f : VaultFile) : list LeaseRecord :=
  if negb (is_none key) && negb (is_empty (sealed_leases f)) then sealed_leases f else bare_record <$> file_leases f.

Definition load_from_disk (env : Env) (w : VaultWorld) : result str unit * VaultWorld :=
  let s := vault w in
  match vault_path s with
  | None => (Ok tt, w)
  | Some _ =>
      match vault_disk w with
      | None =>
          match write_file_locked env (vault_key s) [] ∅ with
          | Ok data => (Ok tt, mkVaultWorld s (Some data))
          | Err e => (Err e, w)
          end
      | Some raw =>
          match Ticket.io env with
          | Err e => (Err e, w)
          | Ok _ =>
              if is_empty (trim raw) then (Ok tt, w)
              else
                match decode_vault_file raw (vault_key s) with
                | Err e => (Err e, w)
                | Ok f =>
                    let '(m, max_seq) := foldl load_record (∅, 1) (file_records (vault_key s) f) in
                    (Ok tt, mkVaultWorld (mkVault m (file_projects f) max_seq (vault_path s) (vault_key s)) (vault_disk w))
                end
          end
      end
  end.

Definition with_file (env : Env) (p : str) (key : option str) (d : option str) : result str VaultWorld :=
  let '(r, w) := load_from_disk env (mkVaultWorld (mkVault ∅ [] 1 (Some p) key) d) in
  _ ← r; Ok w.

(** [reconfigure_from] replaces every field of the installed store. *)
Definition reconfigure_from (s other : VaultStore) : VaultStore :=
  mkVault (leases other) (projects other) (vault_seq other) (vault_path other) (vault_key other).

Definition install_vault_store (env : Env) (global : option VaultStore) (backend p key_hex : str) (d : option str)
    : result str VaultWorld :=
  key ← parse_encrypt_key key_hex;
  let backend := to_ascii_lowercase (trim backend) in
  w ← (if one_of [$"memory"; []] backend then Ok (mkVaultWorld new_vault d)
       else if str_eqb backend ($"file") then with_file env p key d
       else Err ($"vault store backend '" ++ backend ++ $"' not supported (use memory or file)"));
  Ok (match global with
      | Some existing => mkVaultWorld (reconfigure_from existing (vault w)) (vault_disk w)
      | None => w
      end).

Definition set_projects (env : Env) (ps : list ProjectEnv) (w : VaultWorld) : VaultWorld :=
  persisted env (mkVaultWorld (set_vault_projects ps (vault w)) (vault_disk w)).

Definition list_projects (w : VaultWorld) : list ProjectEnv := projects (vault w).

(** One project per service; nothing is written to the file. *)
Definition default_project (i : nat) (svc : str) : ProjectEnv :=
  mkProject (if (i =? 0)%nat then $"default" else svc) ($"dev") svc ($"auto project for service " ++ svc).

Definition ensure_default_projects_from_services (services : list str) (w : VaultWorld) : VaultWorld :=
  if is_empty (projects (vault w))
  then mkVaultWorld (set_vault_projects (imap default_project services) (vault w)) (vault_disk w)
  else w.

Definition lease_id_of (now sequence : Z) : str := $"lease-" ++ dec now ++ $"-" ++ dec sequence.
Definition token_of (seed : Z) : str := $"pvt-" ++ dec (vault_nonce seed).

Definition fresh_lease (now sequence : Z) (req : IssueVaultLeaseRequest) (service endpoint protocol address : str)
    (database : option str) (username : str) : VaultLease := {|
  lease_id := lease_id_of now sequence;
  lease_project := lr_project req;
  lease_environment := lr_environment req;
  lease_service := service;
  lease_endpoint := endpoint;
  lease_protocol := protocol;
  lease_address := address;
  lease_database := database;
  lease_username := username;
  lease_issued_at := now;
  lease_expires_at := u64_sat_add now (u64_sat_mul (lr_ttl_secs req) 1000);
  access_token := token_of now;
  revoked := false;
  revoked_at := None;
  revoked_by := None
|}.

Definition issue_lease (env : Env) (req : IssueVaultLeaseRequest) (service endpoint protocol address : str)
    (database : option str) (username password : str) (w : VaultWorld) : VaultLease * VaultWorld :=
  let s := vault w in
  let l := fresh_lease (now_ms env) (vault_seq s) req service endpoint protocol address database username in
  let s' := mkVault (<[lease_id l := mkRecord l password username]> (leases s)) (projects s)
              (u64_wrap (vault_seq s + 1)) (vault_path s) (vault_key s) in
  (l, persisted env (mkVaultWorld s' (vault_disk w))).

Definition get_valid_lease_by_token (env : Env) (token : str) (w : VaultWorld) : option VaultLease :=
  List.find (λ l, str_eqb (access_token l) token && is_active l (now_ms env)) (map_values (rec_lease <$> leases (vault w))).

Definition get_lease (lid : str) (w : VaultWorld) : option VaultLease := rec_lease <$> leases (vault w) !! lid.

Definition get_valid_lease (env : Env) (lid : str) (w : VaultWorld) : option VaultLease :=
  r ← leases (vault w) !! lid;
  if is_active (rec_lease r) (now_ms env) then Some (rec_lease r) else None.

Definition list_leases_filtered (env : Env) (limit : Z) (include_inactive : bool) (w : VaultWorld) : list VaultLease :=
  take (Z.to_nat (Z.min (Z.max limit 1) 200))
    (newest lease_issued_at
       (List.filter (λ l, include_inactive || is_active l (now_ms env)) (map_values (rec_lease <$> leases (vault w))))).

Definition list_leases (env : Env) (limit : Z) (w : VaultWorld) : list VaultLease :=
  list_leases_filtered env limit false w.

(** Write the mutated record back and persist. *)
Definition put_record (env : Env) (lid : str) (r : LeaseRecord) (w : VaultWorld) : VaultWorld :=
  persisted env (mkVaultWorld (set_leases (<[lid := r]> (leases (vault w))) (vault w)) (vault_disk w)).

Definition revoked_lease (l : VaultLease) (now : Z) (by_ : option str) : VaultLease :=
  mkLease (lease_id l) (lease_project l) (lease_environment l) (lease_service l) (lease_endpoint l) (lease_protocol l)
    (lease_address l) (lease_database l) (lease_username l) (lease_issued_at l) now ($"revoked-" ++ lease_id l)
    true (Some now) by_.

Definition renewed_lease (l : VaultLease) (now ttl : Z) : VaultLease :=
  mkLease (lease_id l) (lease_project l) (lease_environment l) (lease_service l) (lease_endpoint l) (lease_protocol l)
    (lease_address l) (lease_database l) (lease_username l) (lease_issued_at l)
    (u64_sat_add now (u64_sat_mul ttl 1000)) (token_of (Z.lxor now ttl)) (revoked l) (revoked_at l) (revoked_by l).

Definition lease_not_found (lid : str) : str := $"lease '" ++ lid ++ $"' not found".

Definition revoke (env : Env) (lid : str) (by_ : option str) (w : VaultWorld) : result str VaultLease * VaultWorld :=
  match leases (vault w) !! lid with
  | None => (Err (lease_not_found lid), w)
  | Some r =>
      if revoked (rec_lease r) then (Err ($"lease '" ++ lid ++ $"' already revoked"), w)
      else
        let l := revoked_lease (rec_lease r) (now_ms env) by_ in
        (Ok l, put_record env lid (mkRecord l [] (backend_username r)) w)
  end.

Definition renew (env : Env) (lid : str) (ttl_secs : Z) (w : VaultWorld) : result str VaultLease * VaultWorld :=
  match leases (vault w) !! lid with
  | None => (Err (lease_not_found lid), w)
  | Some r =>
      if revoked (rec_lease r) then (Err ($"lease '" ++ lid ++ $"' is revoked"), w)
      else
        let l := renewed_lease (rec_lease r) (now_ms env) (Z.max ttl_secs 1) in
        (Ok l, put_record env lid (mkRecord l (backend_password r) (backend_username r)) w)
  end.

Definition prune_expired (env : Env) (w : VaultWorld) : nat * VaultWorld :=
  let m := filter (λ x, is_active (rec_lease x.2) (now_ms env) = true) (leases (vault w)) in
  let removed := (size (leases (vault w)) - size m)%nat in
  let w' := mkVaultWorld (set_leases m (vault w)) (vault_disk w) in
  (removed, if (0 <? removed)%nat then persisted env w' else w').

Definition backend_identity (env : Env) (lid : str) (w : VaultWorld) : option (str * str) :=
  r ← leases (vault w) !! lid;
  if negb (is_active (rec_lease r) (now_ms env)) then None
  else if is_empty (backend_password r) then None
  else Some (backend_username r, backend_password r).

(** ** Runs of operations *)

Inductive vault_op :=
| VIssue (env : Env) (req : IssueVaultLeaseRequest) (service endpoint protocol address : str) (database : option str)
    (username password : str)
| VRenew (env : Env) (lid : str) (ttl_secs : Z)
| VRevoke (env : Env) (lid : str) (by_ : option str)
| VPrune (env : Env)
| VProjects (env : Env) (ps : list ProjectEnv)
| VEnsure (services : list str).

(** What the caller of an operation gets to see. *)
Inductive vault_answer := ALease (r : result str VaultLease) | ACount (n : nat) | ADone.

Definition vault_do (o : vault_op) (w : VaultWorld) : vault_answer * VaultWorld :=
  match o with
  | VIssue env req svc ep proto addr db user pw =>
      let '(l, w') := issue_lease env req svc ep proto addr db user pw w in (ALease (Ok l), w')
  | VRenew env lid ttl => let '(r, w') := renew env lid ttl w in (ALease r, w')
  | VRevoke env lid by_ => let '(r, w') := revoke env lid by_ w in (ALease r, w')
  | VPrune env => let '(n, w') := prune_expired env w in (ACount n, w')
  | VProjects env ps => (ADone, set_projects env ps w)
  | VEnsure services => (ADone, ensure_default_projects_from_services services w)
  end.

Fixpoint vault_run (os : list vault_op) (w : VaultWorld) : list vault_answer * VaultWorld :=
  match os with
  | [] => ([], w)
  | o :: os' => let '(a, w1) := vault_do o w in let '(l, w2) := vault_run os' w1 in (a :: l, w2)
  end.
End Store.

End Vault.
