(* ===== verification/VaultTheorems.v ===== *)
(** * Theorems about the credential vault

    What leaves the vault does not depend on the passwords in it; a revoked lease
    is never valid again; a token opens its own lease; the state file brings a
    store back.  The model is in [Vault]. *)

From S2P Require Import Prelude RustStr StateCrypto Ticket TicketSpec TicketTheorems Vault.
Import StateCrypto Vault.

Module VaultTheorems.

(** ** Secrets *)

(** Two runs that differ in the passwords alone. *)
Definition same_request (o1 o2 : vault_op) : Prop :=
  match o1, o2 with
  | VIssue env req svc ep proto addr db user _, VIssue env' req' svc' ep' proto' addr' db' user' _ =>
      (env, req, svc, ep, proto, addr, db, user) = (env', req', svc', ep', proto', addr', db', user')
  | _, _ => o1 = o2
  end.

(** Two stores with the same leases, whatever their credentials; their files agree
    when they are not sealed. *)
Record agree (w1 w2 : VaultWorld) : Prop := {
  agree_leases : rec_lease <$> leases (vault w1) = rec_lease <$> leases (vault w2);
  agree_projects : projects (vault w1) = projects (vault w2);
  agree_seq : vault_seq (vault w1) = vault_seq (vault w2);
  agree_path : vault_path (vault w1) = vault_path (vault w2);
  agree_key : vault_key (vault w1) = vault_key (vault w2);
  agree_disk : vault_key (vault w1) = None → vault_disk w1 = vault_disk w2
}.

Section Secrets.
Context `{Crypto, VaultJson}.

Lemma persisted_vault env w : vault (persisted env w) = vault w.
Proof.
  unfold persisted, persist. destruct (vault_path _); [|done]. by destruct (write_file_locked _ _ _ _).
Qed.

Lemma agree_persisted env w1 w2 : agree w1 w2 → agree (persisted env w1) (persisted env w2).
Proof.
  intros [Hl Hp Hs Hpa Hk Hd]. split; rewrite ?persisted_vault; try done. intros E.
  unfold persisted, persist. rewrite <-Hpa. destruct (vault_path _); [|by apply Hd].
  unfold write_file_locked. rewrite <-Hk, E, <-Hl, <-Hp. destruct (vault_to_vec_pretty _) as [d|]; [|by apply Hd].
  simpl. destruct (Ticket.io env); [done|by apply Hd].
Qed.

Lemma agree_lookup w1 w2 lid : agree w1 w2 →
  rec_lease <$> leases (vault w1) !! lid = rec_lease <$> leases (vault w2) !! lid.
Proof. intros Ha. by rewrite <-!lookup_fmap, (agree_leases _ _ Ha). Qed.

Lemma agree_put env w1 w2 lid r1 r2 : agree w1 w2 → rec_lease r1 = rec_lease r2 →
  agree (put_record env lid r1 w1) (put_record env lid r2 w2).
Proof.
  intros Ha Hr. apply agree_persisted. destruct Ha. split; simpl; try done. rewrite !fmap_insert. by f_equal.
Qed.

Lemma agree_do o1 o2 w1 w2 : agree w1 w2 → same_request o1 o2 →
  (vault_do o1 w1).1 = (vault_do o2 w2).1 ∧ agree (vault_do o1 w1).2 (vault_do o2 w2).2.
Proof.
  intros Ha Ho. destruct o1 as [env req svc ep proto addr db user pw|env lid ttl|env lid by_|env|env ps|services];
    destruct o2; try done; simpl in Ho; simplify_eq; simpl.
  - pose proof Ha as []. rewrite <-agree_seq0. split; [done|]. apply agree_persisted. split; simpl; try done; try congruence.
    rewrite !fmap_insert. by f_equal.
  - unfold renew. pose proof (agree_lookup _ _ lid0 Ha) as Hl.
    destruct (leases (vault w1) !! lid0) as [r1|], (leases (vault w2) !! lid0) as [r2|]; simplify_eq/=; [|done].
    rewrite <-Hl. destruct (revoked _); [done|]. split; [done|]. by apply agree_put.
  - unfold revoke. pose proof (agree_lookup _ _ lid0 Ha) as Hl.
    destruct (leases (vault w1) !! lid0) as [r1|], (leases (vault w2) !! lid0) as [r2|]; simplify_eq/=; [|done].
    rewrite <-Hl. destruct (revoked _); [done|]. split; [done|]. by apply agree_put.
  - pose proof Ha as []. set (f := λ (m : gmap str LeaseRecord), filter (λ x, is_active (rec_lease x.2) (now_ms env0) = true) m).
    assert (∀ m, rec_lease <$> f m = filter (λ x : str * VaultLease, is_active x.2 (now_ms env0) = true) (rec_lease <$> m)) as Hf.
    { intros m. unfold f. by rewrite map_filter_fmap. }
    assert (size (leases (vault w1)) = size (leases (vault w2))) as Hs1
      by (by rewrite <-(map_size_fmap rec_lease), agree_leases0, map_size_fmap).
    assert (size (f (leases (vault w1))) = size (f (leases (vault w2)))) as Hs2
      by (by rewrite <-(map_size_fmap rec_lease), Hf, agree_leases0, <-Hf, map_size_fmap).
    unfold prune_expired. fold (f (leases (vault w1))) (f (leases (vault w2))). rewrite Hs1, Hs2. split; [done|].
    destruct (0 <? _)%nat; [apply agree_persisted|]; (split; simpl; try done; by rewrite !Hf, agree_leases0).
  - split; [done|]. destruct Ha. by apply agree_persisted.
  - split; [done|]. unfold ensure_default_projects_from_services. destruct Ha as [Hl Hp Hs Hpa Hk Hd]. rewrite <-Hp.
    by destruct (is_empty _).
Qed.

Lemma agree_run os1 os2 w1 w2 : Forall2 same_request os1 os2 → agree w1 w2 →
  (vault_run os1 w1).1 = (vault_run os2 w2).1 ∧ agree (vault_run os1 w1).2 (vault_run os2 w2).2.
Proof.
  intros Ho. revert w1 w2. induction Ho as [|o1 o2 os1 os2 Ho _ IH]; intros w1 w2 Ha; [done|]. cbn [vault_run].
  destruct (agree_do _ _ _ _ Ha Ho) as [E Ha'].
  destruct (vault_do o1 w1) as [a1 u1], (vault_do o2 w2) as [a2 u2]. cbn [fst snd] in *.
  destruct (IH _ _ Ha') as [El Hu]. destruct (vault_run os1 u1), (vault_run os2 u2). cbn [fst snd] in *.
  split; [congruence|done].
Qed.

Lemma do_key o w : vault_key (vault (vault_do o w).2) = vault_key (vault w).
Proof.
  destruct o; simpl; unfold renew, revoke, put_record, prune_expired, set_projects, ensure_default_projects_from_services;
    repeat case_match; simplify_eq/=; by rewrite ?persisted_vault.
Qed.

Lemma run_key os w : vault_key (vault (vault_run os w).2) = vault_key (vault w).
Proof.
  revert w. induction os as [|o os IH]; intros w; [done|]. cbn [vault_run]. pose proof (do_key o w) as Hk.
  destruct (vault_do o w) as [a w1]. specialize (IH w1). destruct (vault_run os w1). cbn in *. congruence.
Qed.

(** C12 Nothing the vault gives out reveals a password: two runs of the same operations
    with different passwords give the same answers, the same leases to every lookup
    and listing, and, without an encryption key, the same state file. *)
Theorem vault_hides_passwords os1 os2 s d :
  Forall2 same_request os1 os2 →
  let r1 := vault_run os1 (mkVaultWorld s d) in
  let r2 := vault_run os2 (mkVaultWorld s d) in
  r1.1 = r2.1 ∧
  (∀ env lid, get_valid_lease env lid r1.2 = get_valid_lease env lid r2.2) ∧
  (∀ env token, get_valid_lease_by_token env token r1.2 = get_valid_lease_by_token env token r2.2) ∧
  (∀ env limit all, list_leases_filtered env limit all r1.2 = list_leases_filtered env limit all r2.2) ∧
  (vault_key s = None → vault_disk r1.2 = vault_disk r2.2).
Proof.
  intros Ho. simpl.
  destruct (agree_run os1 os2 (mkVaultWorld s d) (mkVaultWorld s d) Ho) as [Ea Hag]; [done|].
  split; [done|]. pose proof Hag as [Hl _ _ _ _ Hd]. rewrite run_key in Hd.
  unfold get_valid_lease_by_token, list_leases_filtered. rewrite Hl. split_and!; [|done..].
  intros env lid. pose proof (agree_lookup _ _ lid Hag) as E. unfold get_valid_lease.
  destruct (leases _ !! lid) as [x|], (leases _ !! lid) as [y|]; simplify_eq/=; [by rewrite E|done].
Qed.
End Secrets.

(** ** Identifiers and revocation *)

Lemma split_lease_id now k :
  0 <= now → 0 <= k → split "-" (lease_id_of now k) = [$"lease"; dec now; dec k].
Proof.
  intros Hn Hk. unfold lease_id_of.
  change ($"lease-" ++ dec now ++ $"-" ++ dec k) with ($"lease" ++ "-"%char :: dec now ++ "-"%char :: dec k).
  rewrite split_app by (vm_compute; set_solver).
  rewrite split_app by (by apply TicketSpec.dec_no_dash). by rewrite split_none by (by apply TicketSpec.dec_no_dash).
Qed.

(** An identifier made with an already used value of the counter. *)
Definition lease_minted (n : Z) (lid : str) : Prop := ∃ now k, lid = lease_id_of now k ∧ 0 <= now ∧ 0 <= k < n.

Lemma lease_id_fresh n lid now : 0 <= now → lease_minted n lid → lid ≠ lease_id_of now n.
Proof.
  intros Hnow (now' & k & -> & ? & ?) E. apply (f_equal (split "-")) in E.
  rewrite !split_lease_id in E by lia. injection E as _ E. apply dec_inj in E; lia.
Qed.

Lemma lease_minted_mono n n' lid : n <= n' → lease_minted n lid → lease_minted n' lid.
Proof. intros ? (now & k & ? & ? & ?). exists now, k. split; [done|]. split; [done|]. lia. Qed.

(** The invariant of the store: every lease is filed under its own identifier,
    which the counter has passed, and a revoked lease has no password. *)
Definition record_ok (n : Z) (lid : str) (r : LeaseRecord) : Prop :=
  lease_id (rec_lease r) = lid ∧ lease_minted n lid ∧ (revoked (rec_lease r) = true → backend_password r = []).

Definition vault_ok (s : VaultStore) : Prop :=
  0 <= vault_seq s ∧ ∀ lid r, leases s !! lid = Some r → record_ok (vault_seq s) lid r.

(** A lease that is over: its identifier is used up, and what is filed under it is
    revoked. *)
Definition dead (s : VaultStore) (lid : str) : Prop :=
  lease_minted (vault_seq s) lid ∧ ∀ r, leases s !! lid = Some r → revoked (rec_lease r) = true.

Definition op_now (o : vault_op) : Z :=
  match o with
  | VIssue env _ _ _ _ _ _ _ _ | VRenew env _ _ | VRevoke env _ _ | VPrune env | VProjects env _ => now_ms env
  | VEnsure _ => 0
  end.

Definition clocks_ok (os : list vault_op) : Prop := Forall (λ o, 0 <= op_now o <= u64_max) os.

Section Revoke.
Context `{Crypto, VaultJson}.

(** One step: the counter grows by at most one; every record is new, old, or a
    renewed or revoked old one. *)
Inductive touches (o : vault_op) (s : VaultStore) : str → LeaseRecord → Prop :=
| touch_old lid r : leases s !! lid = Some r → touches o s lid r
| touch_renew env lid ttl r : o = VRenew env lid ttl → leases s !! lid = Some r → revoked (rec_lease r) = false →
    touches o s lid (mkRecord (renewed_lease (rec_lease r) (now_ms env) (Z.max ttl 1)) (backend_password r) (backend_username r))
| touch_revoke env lid by_ r : o = VRevoke env lid by_ → leases s !! lid = Some r →
    touches o s lid (mkRecord (revoked_lease (rec_lease r) (now_ms env) by_) [] (backend_username r))
| touch_new env req svc ep proto addr db user pw : o = VIssue env req svc ep proto addr db user pw →
    let l := fresh_lease (now_ms env) (vault_seq s) req svc ep proto addr db user in
    touches o s (lease_id l) (mkRecord l pw user).

Lemma do_touches o w :
  let s := vault w in let s' := vault (vault_do o w).2 in
  (vault_seq s' = vault_seq s ∨ vault_seq s' = u64_wrap (vault_seq s + 1)) ∧
  (∀ lid r, leases s' !! lid = Some r → touches o s lid r) ∧
  (∀ env req svc ep proto addr db user pw, o = VIssue env req svc ep proto addr db user pw →
     vault_seq s' = u64_wrap (vault_seq s + 1)).
Proof.
  destruct o as [env req svc ep proto addr db user pw|env lid ttl|env lid by_|env|env ps|services]; simpl.
  - rewrite persisted_vault. simpl. split_and!; [by right| |done]. intros lid r.
    rewrite lookup_insert. case_decide as E; [subst; intros [= <-]; by eapply touch_new|by constructor].
  - unfold renew. destruct (leases (vault w) !! lid) as [r0|] eqn:El; [|split_and!; [by left|by constructor|done]].
    destruct (revoked _) eqn:Er; [split_and!; [by left|by constructor|done]|]. simpl. unfold put_record. rewrite persisted_vault. simpl.
    split_and!; [by left| |done]. intros lid' r. rewrite lookup_insert. case_decide as E; [|by constructor].
    subst. intros [= <-]. by eapply touch_renew.
  - unfold revoke. destruct (leases (vault w) !! lid) as [r0|] eqn:El; [|split_and!; [by left|by constructor|done]].
    destruct (revoked _) eqn:Er; [split_and!; [by left|by constructor|done]|]. simpl. unfold put_record. rewrite persisted_vault. simpl.
    split_and!; [by left| |done]. intros lid' r. rewrite lookup_insert. case_decide as E; [|by constructor].
    subst. intros [= <-]. by eapply touch_revoke.
  - split_and!; [left; by destruct (0 <? _)%nat; simpl; rewrite ?persisted_vault| |done].
    intros lid r Hr. constructor. destruct (0 <? _)%nat; simpl in Hr; rewrite ?persisted_vault in Hr; simpl in Hr;
      by apply map_lookup_filter_Some in Hr as [? _].
  - unfold set_projects. rewrite persisted_vault. simpl. split_and!; [by left|by constructor|done].
  - unfold ensure_default_projects_from_services. destruct (is_empty _); simpl; (split_and!; [by left|by constructor|done]).
Qed.

Lemma do_seq o w : 0 <= vault_seq (vault w) < u64_max →
  vault_seq (vault w) <= vault_seq (vault (vault_do o w).2) <= vault_seq (vault w) + 1.
Proof.
  intros Hn. destruct (do_touches o w) as ([->| ->] & _); [lia|]. rewrite u64_wrap_small by (unfold u64_max in *; lia). lia.
Qed.

Lemma do_ok o w : 0 <= op_now o → vault_seq (vault w) < u64_max → vault_ok (vault w) → vault_ok (vault (vault_do o w).2).
Proof.
  intros Ho Hn [Hz Hok]. pose proof (do_seq o w ltac:(lia)) as Hs. destruct (do_touches o w) as (_ & Ht & Hi).
  split; [lia|]. intros lid r Hr. apply Ht in Hr.
  destruct Hr as [lid r Hl|env lid ttl r -> Hl Hr|env lid by_ r -> Hl|env req svc ep proto addr db user pw E].
  - destruct (Hok _ _ Hl) as (? & ? & ?). split_and!; [done|by eapply lease_minted_mono; [|done]; lia|done].
  - destruct (Hok _ _ Hl) as (? & ? & ?). split_and!; [done|by eapply lease_minted_mono; [|done]; lia|]. simpl. congruence.
  - destruct (Hok _ _ Hl) as (? & ? & ?). split_and!; [done|by eapply lease_minted_mono; [|done]; lia|done].
  - rewrite (Hi _ _ _ _ _ _ _ _ _ E), u64_wrap_small by (unfold u64_max in *; lia). split_and!; [done| |done].
    exists (now_ms env), (vault_seq (vault w)). subst o. simpl in Ho. split; [done|]. lia.
Qed.

Lemma do_dead o w lid : 0 <= op_now o → 0 <= vault_seq (vault w) < u64_max →
  dead (vault w) lid → dead (vault (vault_do o w).2) lid.
Proof.
  intros Ho Hn [Hm Hd]. pose proof (do_seq o w Hn) as Hs. destruct (do_touches o w) as (_ & Ht & _).
  split; [by eapply lease_minted_mono; [|done]; lia|]. intros r Hr. apply Ht in Hr. remember lid as lid0 eqn:Elid.
  destruct Hr as [lid1 r Hl|env lid1 ttl r -> Hl Hr|env lid1 by_ r -> Hl|env req svc ep proto addr db user pw ->]; subst.
  - by apply Hd.
  - apply Hd in Hl. congruence.
  - done.
  - exfalso. by eapply (lease_id_fresh _ _ (now_ms env)).
Qed.

Lemma run_keeps (P : VaultStore → Prop) os w :
  (∀ o w, 0 <= op_now o → 0 <= vault_seq (vault w) < u64_max → P (vault w) → P (vault (vault_do o w).2)) →
  clocks_ok os → 0 <= vault_seq (vault w) → vault_seq (vault w) + Z.of_nat (length os) <= u64_max →
  P (vault w) → P (vault (vault_run os w).2) ∧
    0 <= vault_seq (vault (vault_run os w).2) <= vault_seq (vault w) + Z.of_nat (length os).
Proof.
  intros Hstep Hc. revert w. induction Hc as [|o os Ho _ IH]; intros w Hz Hn Hp; [split; [done|simpl; lia]|].
  cbn [vault_run length] in *. pose proof (do_seq o w ltac:(lia)) as Hs. pose proof (Hstep o w ltac:(lia) ltac:(lia) Hp) as Hp'.
  destruct (vault_do o w) as [a w1]. cbn [snd] in *. destruct (IH w1) as [? ?]; [lia|lia|done|].
  destruct (vault_run os w1). cbn [snd] in *. split; [done|lia].
Qed.

Lemma dead_invalid w lid : dead (vault w) lid → vault_ok (vault w) →
  ∀ env, get_valid_lease env lid w = None ∧ backend_identity env lid w = None ∧
    ∀ token l, get_valid_lease_by_token env token w = Some l → lease_id l ≠ lid.
Proof.
  intros [_ Hd] [_ Hok] env. unfold get_valid_lease, backend_identity, is_active. split_and!.
  - destruct (leases _ !! lid) as [r|] eqn:El; [|done]. simpl. by rewrite Hd.
  - destruct (leases _ !! lid) as [r|] eqn:El; [|done]. simpl. by rewrite Hd.
  - intros token l Hf%List.find_some E. destruct Hf as [Hin Ha]. apply andb_prop in Ha as [_ Ha]. unfold is_active in Ha.
    apply list_elem_of_In, list_elem_of_fmap in Hin as ([lid' l'] & -> & Hin). apply elem_of_map_to_list in Hin.
    rewrite lookup_fmap in Hin. destruct (leases _ !! lid') as [r|] eqn:El; [|done]. simplify_eq/=.
    destruct (Hok _ _ El) as [E' _]. rewrite E' in *. by rewrite (Hd _ El) in Ha.
Qed.

(** C11 Revocation is final: once a lease was revoked, no lookup by identifier or by
    token finds it and no credentials are handed out for it, whatever is issued,
    renewed, revoked or pruned afterwards and whatever the clock shows. *)
Theorem revoked_lease_is_dead os1 os2 env lid by_ l s d :
  leases s = ∅ → vault_seq s = 1 → clocks_ok (os1 ++ VRevoke env lid by_ :: os2) →
  Z.of_nat (length (os1 ++ os2)) < u64_max - 1 →
  let w1 := (vault_run os1 (mkVaultWorld s d)).2 in
  (revoke env lid by_ w1).1 = Ok l →
  let w2 := (vault_run os2 (revoke env lid by_ w1).2).2 in
  ∀ env', get_valid_lease env' lid w2 = None ∧ backend_identity env' lid w2 = None ∧
    ∀ token l', get_valid_lease_by_token env' token w2 = Some l' → lease_id l' ≠ lid.
Proof.
  intros Hs H1 Hc Hn w1 Hr w2. apply Forall_app in Hc as [Hc1 Hc2]. apply Forall_cons in Hc2 as [Ho Hc2].
  rewrite length_app in Hn.
  destruct (run_keeps vault_ok os1 (mkVaultWorld s d)) as [Hok1 Hs1]; try (simpl; lia); [|done|..].
  { intros; by apply do_ok; [..|lia|]. }
  { split; [simpl; lia|]. intros ? ?. simpl. by rewrite Hs. }
  fold w1 in Hok1, Hs1. simpl in Hs1. set (w1' := (revoke env lid by_ w1).2) in *.
  assert (w1' = (vault_do (VRevoke env lid by_) w1).2) as Ew by (unfold w1'; simpl; by destruct (revoke _ _ _ _)).
  pose proof (do_seq (VRevoke env lid by_) w1 ltac:(lia)) as Hs2.
  pose proof (do_ok (VRevoke env lid by_) w1 ltac:(simpl in *; lia) ltac:(lia) Hok1) as Hok2. rewrite <-Ew in Hs2, Hok2.
  assert (dead (vault w1') lid) as Hd.
  { unfold w1'. unfold revoke in *. destruct (leases (vault w1) !! lid) as [r|] eqn:El; [|done].
    destruct (revoked _); [done|]. simpl. unfold put_record. rewrite persisted_vault. destruct Hok1 as [_ Hok1].
    split; simpl; [by apply Hok1 in El as (_ & ? & _)|]. intros r'. rewrite lookup_insert_eq. by intros [= <-]. }
  destruct (run_keeps (λ s, dead s lid ∧ vault_ok s) os2 w1') as [[? ?] _]; [| |lia|lia|done|by apply dead_invalid].
  - intros o w ? ? [? ?]. split; [by apply do_dead|by apply do_ok; [..|lia|]].
  - done.
Qed.
End Revoke.

(** ** Tokens *)

Lemma vault_nonce_inj a b : 0 <= a < 2 ^ 64 → 0 <= b < 2 ^ 64 → vault_nonce a = vault_nonce b → a = b.
Proof.
  intros Ha Hb E. unfold vault_nonce in E.
  apply (f_equal (λ x, Z.lxor x 3735928559)) in E. rewrite !Z.lxor_assoc, Z.lxor_nilpotent, !Z.lxor_0_r in E.
  unfold u64_wrap in E. apply (f_equal (λ x, (x * 17428512612931826493) mod 2 ^ 64)) in E.
  rewrite !Z.mul_mod_idemp_l, <-!Z.mul_assoc in E by lia.
  assert (∀ x, 0 <= x < 2 ^ 64 → (x * (11400714819323198485 * 17428512612931826493)) mod 2 ^ 64 = x) as Hinv.
  { intros x Hx. rewrite <-Z.mul_mod_idemp_r by lia.
    replace ((11400714819323198485 * 17428512612931826493) mod 2 ^ 64) with 1 by (by vm_compute).
    rewrite Z.mul_1_r. by apply Z.mod_small. }
  change (2 ^ 64) with 18446744073709551616 in *. by rewrite !Hinv in E.
Qed.

Lemma token_of_inj a b : 0 <= a < 2 ^ 64 → 0 <= b < 2 ^ 64 → token_of a = token_of b → a = b.
Proof.
  intros Ha Hb E. unfold token_of in E. apply (inj (app ($"pvt-"))) in E.
  apply dec_inj in E; [by apply vault_nonce_inj| |];
    (apply Z.lxor_nonneg; split; [lia|]; intros _; apply Z.mod_pos_bound; lia).
Qed.

(** The clock reading (mixed with the lifetime, for a renewal) a token is made of. *)
Definition token_seed (o : vault_op) : option Z :=
  match o with
  | VIssue env _ _ _ _ _ _ _ _ => Some (now_ms env)
  | VRenew env _ ttl => Some (Z.lxor (now_ms env) (Z.max ttl 1))
  | _ => None
  end.

Definition seeds_ok (os : list vault_op) : Prop :=
  NoDup (omap token_seed os) ∧ Forall (λ s, 0 <= s < 2 ^ 64) (omap token_seed os).

(** Every token of a lease that is not revoked comes from a seed of the past, and
    no two leases share one. *)
Definition tokens_ok (used : list Z) (s : VaultStore) : Prop :=
  (∀ lid r, leases s !! lid = Some r → revoked (rec_lease r) = false →
     ∃ x, x ∈ used ∧ access_token (rec_lease r) = token_of x) ∧
  (∀ lid1 lid2 r1 r2, leases s !! lid1 = Some r1 → leases s !! lid2 = Some r2 →
     revoked (rec_lease r1) = false → revoked (rec_lease r2) = false →
     access_token (rec_lease r1) = access_token (rec_lease r2) → lid1 = lid2).

Section Tokens.
Context `{Crypto, VaultJson}.

Lemma insert_tokens (used : list Z) (x : Z) (lid : str) (r : LeaseRecord) (s s' : VaultStore) :
  tokens_ok used s → x ∉ used → Forall (λ y, 0 <= y < 2 ^ 64) (x :: used) →
  (revoked (rec_lease r) = false → access_token (rec_lease r) = token_of x) →
  leases s' = <[lid := r]> (leases s) → tokens_ok (x :: used) s'.
Proof.
  intros [Hu Hd] Hx Hr Ht Hs'. apply Forall_cons in Hr as [Hxr Hr].
  assert (∀ lid' r', leases s !! lid' = Some r' → revoked (rec_lease r') = false →
          access_token (rec_lease r') ≠ token_of x) as Hne.
  { intros lid' r' Hl Hv E. destruct (Hu _ _ Hl Hv) as (y & Hy & Ey). rewrite E in Ey.
    rewrite Forall_forall in Hr. apply token_of_inj in Ey; [by subst|done|by apply Hr]. }
  split.
  - intros lid' r'. rewrite Hs', lookup_insert. case_decide; [intros [= <-] Hv; exists x; split; [left|by apply Ht]|].
    intros Hl Hv. destruct (Hu _ _ Hl Hv) as (y & ? & ?). exists y. split; [by right|done].
  - intros l1 l2 r1 r2. rewrite Hs', !lookup_insert. repeat case_decide; subst; try done.
    + intros [= <-] Hl2 Hv1 Hv2 E. destruct (Hne _ _ Hl2 Hv2). by rewrite <-E, Ht.
    + intros Hl1 [= <-] Hv1 Hv2 E. destruct (Hne _ _ Hl1 Hv1). by rewrite E, Ht.
    + apply Hd.
Qed.

Lemma same_tokens used x (s s' : VaultStore) :
  tokens_ok used s →
  (∀ lid r, leases s' !! lid = Some r → revoked (rec_lease r) = false → leases s !! lid = Some r) →
  tokens_ok (x ++ used) s'.
Proof.
  intros [Hu Hd] Hs. split.
  - intros lid r Hl Hv. destruct (Hu lid r (Hs _ _ Hl Hv) Hv) as (y & ? & ?). exists y. split; [apply elem_of_app; by right|done].
  - intros l1 l2 r1 r2 H1 H2 Hv1 Hv2. by apply Hd; [apply Hs..| |].
Qed.

Lemma do_tokens o w used :
  tokens_ok used (vault w) → Forall (λ s, 0 <= s < 2 ^ 64) used →
  (∀ x, token_seed o = Some x → (x ∉ used) ∧ 0 <= x < 2 ^ 64) →
  tokens_ok (option_list (token_seed o) ++ used) (vault (vault_do o w).2).
Proof.
  intros Ht Hr Hx. destruct o as [env req svc ep proto addr db user pw|env lid ttl|env lid by_|env|env ps|services]; simpl.
  - destruct (Hx _ eq_refl) as [Hn Hb]. rewrite persisted_vault.
    eapply insert_tokens; [exact Ht|done|by constructor| |reflexivity]; done.
  - destruct (Hx _ eq_refl) as [Hn Hb]. unfold renew. destruct (leases (vault w) !! lid) as [r0|] eqn:El;
      [|by apply (same_tokens _ [_] (vault w))].
    destruct (revoked _) eqn:Er; [by apply (same_tokens _ [_] (vault w))|]. simpl. unfold put_record.
    rewrite persisted_vault. eapply insert_tokens; [exact Ht|done|by constructor| |reflexivity]; done.
  - unfold revoke. destruct (leases (vault w) !! lid) as [r0|] eqn:El; [|done]. destruct (revoked _) eqn:Er; [done|]. simpl.
    unfold put_record. rewrite persisted_vault. apply (same_tokens _ [] (vault w)); [done|]. simpl.
    intros lid' r'. rewrite lookup_insert. case_decide; [by intros [= <-]|done].
  - apply (same_tokens _ [] (vault w)); [done|]. intros lid r Hl _.
    destruct (0 <? _)%nat; simpl in Hl; rewrite ?persisted_vault in Hl; by apply map_lookup_filter_Some in Hl as [? _].
  - unfold set_projects. by rewrite persisted_vault.
  - unfold ensure_default_projects_from_services. by destruct (is_empty _).
Qed.

Lemma run_tokens os w used :
  tokens_ok used (vault w) → NoDup (omap token_seed os ++ used) →
  Forall (λ s, 0 <= s < 2 ^ 64) (omap token_seed os ++ used) →
  tokens_ok (reverse (omap token_seed os) ++ used) (vault (vault_run os w).2).
Proof.
  revert w used. induction os as [|o os IH]; intros w used Ht Hnd Hr; [done|]. cbn [vault_run omap list_omap] in *.
  assert (tokens_ok (option_list (token_seed o) ++ used) (vault (vault_do o w).2)) as Ht'.
  { apply do_tokens; [done| |].
    - destruct (token_seed o); [apply Forall_cons in Hr as [_ Hr]|]; by apply Forall_app in Hr as [_ ?].
    - intros x Ex. rewrite Ex in *. apply NoDup_cons in Hnd as [Hn _]. apply Forall_cons in Hr as [? _].
      split; [set_solver|done]. }
  destruct (vault_do o w) as [a w1]. cbn [snd] in *.
  destruct (token_seed o) as [x|] eqn:Ex; simpl in Ht'.
  - specialize (IH w1 (x :: used) Ht'). destruct (vault_run os w1) as [l w2]. cbn [snd] in *.
    rewrite reverse_cons, <-app_assoc. apply IH; simpl in *; by rewrite <-Permutation_middle.
  - specialize (IH w1 used Ht' Hnd Hr). by destruct (vault_run os w1) as [l w2].
Qed.

(** A token opens the lease it was given out for and no other: as long as no two
    tokens are made in the same millisecond (more exactly, of the same mix of the
    clock and the lifetime), looking a lease up by its token is looking it up by its
    identifier. *)
Theorem token_opens_own_lease os s d lid r env :
  leases s = ∅ → vault_seq s = 1 → clocks_ok os → Z.of_nat (length os) < u64_max - 1 → seeds_ok os →
  let w := (vault_run os (mkVaultWorld s d)).2 in
  leases (vault w) !! lid = Some r → revoked (rec_lease r) = false →
  get_valid_lease_by_token env (access_token (rec_lease r)) w = get_valid_lease env lid w.
Proof.
  intros Hs H1 Hc Hn [Hnd Hr] w Hl Hv.
  destruct (run_keeps vault_ok os (mkVaultWorld s d)) as [[_ Hok] _]; try (simpl; lia); [|done|..].
  { intros; by apply do_ok; [..|lia|]. }
  { split; [simpl; lia|]. intros ? ?. simpl. by rewrite Hs. }
  destruct (run_tokens os (mkVaultWorld s d) []) as [_ Hd]; try by rewrite app_nil_r.
  { split; simpl; intros *; by rewrite Hs. }
  fold w in Hok, Hd. unfold get_valid_lease. rewrite Hl. simpl. unfold get_valid_lease_by_token.
  destruct (List.find _ _) as [l|] eqn:Ef.
  - apply List.find_some in Ef as [Hin Ha]. apply andb_prop in Ha as [Et Ha]. apply str_eqb_eq in Et.
    apply list_elem_of_In, list_elem_of_fmap in Hin as ([lid' l'] & -> & Hin). apply elem_of_map_to_list in Hin.
    rewrite lookup_fmap in Hin. destruct (leases _ !! lid') as [r'|] eqn:El'; [|done]. simplify_eq/=.
    assert (revoked (rec_lease r') = false) as Hv' by (unfold is_active in Ha; by destruct (revoked (rec_lease r'))).
    pose proof (Hd _ _ _ _ El' Hl Hv' Hv Et) as ->. rewrite Hl in El'. injection El' as ->. by rewrite Ha.
  - destruct (is_active (rec_lease r) (now_ms env)) eqn:Ea; [|done].
    eapply List.find_none in Ef; [|apply list_elem_of_In, list_elem_of_fmap; exists (lid, rec_lease r); split; [done|];
      apply elem_of_map_to_list; by rewrite lookup_fmap, Hl].
    simpl in Ef. rewrite Ea in Ef. by rewrite (proj2 (str_eqb_eq _ _) eq_refl) in Ef.
Qed.
End Tokens.

(** ** The state file *)

(** [serde_json] documents: a struct is written as an object, and reading what was
    written gives the value back. *)
Class VaultJsonLaws `{VaultJson} : Prop := {
  vault_json_object f b : vault_to_vec f = Ok b ∨ vault_to_vec_pretty f = Ok b → ∃ mid, b = "{"%char :: mid ++ ["}"%char];
  vault_json_roundtrip f b : vault_to_vec f = Ok b ∨ vault_to_vec_pretty f = Ok b → vault_from_slice b = Ok f
}.

(** What a process without the key gets of a record. *)
Definition without_secret (r : LeaseRecord) : LeaseRecord := bare_record (rec_lease r).

Definition restored (key : option str) (m : gmap str LeaseRecord) : gmap str LeaseRecord :=
  match key with Some _ => m | None => without_secret <$> m end.

Definition filed (m : gmap str LeaseRecord) : Prop := ∀ lid r, m !! lid = Some r → lease_id (rec_lease r) = lid.

Lemma load_records l m k :
  NoDup ((λ r, lease_id (rec_lease r)) <$> l) → (foldl load_record (m, k) l).1 =
    (list_to_map ((λ r, (lease_id (rec_lease r), r)) <$> l) : gmap str LeaseRecord) ∪ m.
Proof.
  revert m k. induction l as [|r l IH]; intros m k Hnd; simpl; [by rewrite (left_id_L ∅ (∪))|].
  apply NoDup_cons in Hnd as [Hin Hnd]. rewrite (surjective_pairing (load_record (m, k) r)), IH by done. cbn [load_record fst].
  rewrite <-insert_union_r, insert_union_l; [done|].
  apply not_elem_of_list_to_map_1. by rewrite <-list_fmap_compose.
Qed.

Lemma load_filed m l k : filed m → l ≡ₚ map_values m → (foldl load_record (∅, k) l).1 = m.
Proof.
  intros Hf Hp.
  assert ((λ r, (lease_id (rec_lease r), r)) <$> l ≡ₚ map_to_list m) as Hp'.
  { rewrite Hp. unfold map_values. rewrite <-list_fmap_compose. rewrite fmap_id_on; [done|].
    intros [lid r] Hr%elem_of_map_to_list. simpl. by rewrite (Hf _ _ Hr). }
  assert (NoDup ((λ r, lease_id (rec_lease r)) <$> l)) as Hnd.
  { assert ((λ r, lease_id (rec_lease r)) <$> l = ((λ r, (lease_id (rec_lease r), r)) <$> l).*1) as ->
      by (by rewrite <-list_fmap_compose).
    rewrite Hp'. apply NoDup_fst_map_to_list. }
  rewrite load_records by done. rewrite (right_id_L ∅ (∪)). rewrite <-(list_to_map_to_list m).
  apply list_to_map_proper; [|done]. by rewrite <-list_fmap_compose.
Qed.

Lemma load_counter l n acc :
  n <= u64_max → (∀ r, r ∈ l → lease_minted n (lease_id (rec_lease r))) →
  acc.2 <= (foldl load_record acc l).2 ∧ ∀ r, r ∈ l → lease_minted (foldl load_record acc l).2 (lease_id (rec_lease r)).
Proof.
  intros Hn. revert acc. induction l as [|r l IH]; intros acc Hl; simpl.
  { split; [done|]. set_solver. }
  destruct (Hl r) as (now & s & Hid & ? & ?); [left|].
  assert ((load_record acc r).2 = Z.max acc.2 (s + 1)) as Hseq.
  { unfold load_record, seq_after, rsplit_next. cbn [snd]. rewrite Hid, split_lease_id by lia. simpl.
    rewrite parse_dec by lia. by rewrite u64_wrap_small by (unfold u64_max in *; lia). }
  destruct (IH (load_record acc r)) as [Hge Hmi]; [intros u Hu; apply Hl; by right|].
  rewrite Hseq in Hge. split; [lia|]. intros u [->|Hu]%elem_of_cons; [|by apply Hmi].
  exists now, s. split; [done|]. lia.
Qed.

Section File.
Context `{CryptoLaws, VaultJsonLaws}.

Lemma wrote env key ps m data :
  write_file_locked env key ps m = Ok data →
  is_empty (trim data) = false ∧ ∃ f, decode_vault_file data key = Ok f ∧ file_projects f = ps ∧
    file_records key f ≡ₚ map_values (restored key m).
Proof.
  unfold write_file_locked, decode_vault_file. destruct key as [k|]; cbv [mbind result_bind].
  - destruct (vault_to_vec _) as [plain|] eqn:Ej; [|done].
    destruct (encrypt_blob _ _ _ _ _) as [d|] eqn:Eb; [|done]. destruct (Ticket.io env) as [[]|]; [|done]. intros [= ->].
    pose proof (decode_sealed VAULT_ENC_MAGIC _ _ _ _ _ eq_refl Eb) as Hd. rewrite Hd. split.
    + destruct (trim data) as [|c rest] eqn:Et; [|done]. exfalso. unfold decode_maybe_encrypted in Hd. rewrite Et in Hd.
      cbn in Hd. injection Hd as <-. destruct (vault_json_object _ _ (or_introl Ej)) as [mid Hm]. discriminate Hm.
    + rewrite (vault_json_roundtrip _ _ (or_introl Ej)). eexists. split; [done|]. split; [done|].
      unfold file_records. simpl. destruct (newest _ _) as [|r l] eqn:En; simpl; 
        rewrite <-(newest_perm (λ r, lease_issued_at (rec_lease r)) (map_values m)), En; done.
  - destruct (vault_to_vec_pretty _) as [plain|] eqn:Ej; [|done]. destruct (Ticket.io env) as [[]|]; [|done]. intros [= <-].
    destruct (vault_json_object _ _ (or_intror Ej)) as [mid Hmid].
    assert (trim plain = plain) as Ht by (rewrite Hmid; apply trim_solid; by vm_compute).
    rewrite decode_plain by (rewrite ?Hmid, ?trim_solid; by vm_compute).
    rewrite Ht, (vault_json_roundtrip _ _ (or_intror Ej)). split; [by rewrite Hmid|]. eexists. split; [done|]. split; [done|].
    unfold file_records, restored, map_values. simpl. rewrite newest_perm.
    rewrite !map_to_list_fmap, <-!list_fmap_compose. done.
Qed.

(** A restart loses nothing the file may hold: the process that opens the file with
    the same key has the same leases and projects, and with a key the same
    credentials; without a key it has no credentials at all, and hands none out.
    New leases get new identifiers. *)
Theorem vault_restart env env' w w' p :
  vault_path (vault w) = Some p → vault_ok (vault w) → vault_seq (vault w) <= u64_max → Ticket.io env' = Ok tt →
  persist env w = (Ok tt, w') →
  ∃ w2, with_file env' p (vault_key (vault w)) (vault_disk w') = Ok w2 ∧
    projects (vault w2) = projects (vault w) ∧ leases (vault w2) = restored (vault_key (vault w)) (leases (vault w)) ∧
    vault_ok (vault w2) ∧
    (vault_key (vault w) = None → ∀ env2 lid, backend_identity env2 lid w2 = None).
Proof.
  intros Hp [_ Hok] Hseq Hio. unfold persist. rewrite Hp.
  destruct (write_file_locked _ _ _ _) as [data|] eqn:Ew; [|done]. intros [= <-].
  apply wrote in Ew as [Hne (f & Hdec & Hps & Hrec)]. unfold with_file, load_from_disk.
  cbn [vault vault_path vault_disk vault_key]. rewrite Hio, Hne, Hdec.
  set (m := restored (vault_key (vault w)) (leases (vault w))) in *.
  assert (∀ lid r, m !! lid = Some r → record_ok (vault_seq (vault w)) lid r) as Hm.
  { intros lid r. unfold m, restored. destruct (vault_key _); [apply Hok|]. rewrite lookup_fmap.
    destruct (leases _ !! lid) as [r0|] eqn:El; [|done]. intros [= <-]. by destruct (Hok _ _ El) as (? & ? & ?). }
  assert (filed m) as Hf by (intros lid r Hr; by apply Hm in Hr as [? _]).
  pose proof (load_filed m _ 1 Hf Hrec) as El.
  destruct (load_counter (file_records (vault_key (vault w)) f) (vault_seq (vault w)) (∅, 1)) as [Hge Hmi]; [done| |].
  { intros r Hr. rewrite Hrec in Hr. apply list_elem_of_fmap in Hr as ([lid r'] & -> & Hr).
    apply elem_of_map_to_list in Hr. simpl. destruct (Hm _ _ Hr) as (-> & ? & _). done. }
  destruct (foldl _ _ _) as [m2 s2]. cbn [fst snd] in *. subst m2.
  eexists. split; [done|]. simpl. split; [done|]. split; [done|]. split.
  - split; [simpl; lia|]. simpl. intros lid r Hr. destruct (Hm _ _ Hr) as (Hid & _ & Hrv). split; [done|].
    split; [|done]. rewrite <-Hid. apply Hmi. rewrite Hrec. apply list_elem_of_fmap. exists (lid, r).
    split; [done|]. by apply elem_of_map_to_list.
  - intros Hk env2 lid. unfold backend_identity. simpl. unfold m, restored. rewrite Hk, lookup_fmap.
    destruct (leases _ !! lid) as [r|]; [|done]. simpl. by destruct (is_active _ _).
Qed.
End File.

(** ** Concrete stores *)

#[export] Instance ProjectEnv_eq_dec : EqDecision ProjectEnv.
Proof. solve_decision. Defined.
#[export] Instance VaultLease_eq_dec : EqDecision VaultLease.
Proof. solve_decision. Defined.
#[export] Instance LeaseRecord_eq_dec : EqDecision LeaseRecord.
Proof. solve_decision. Defined.
#[export] Instance VaultFile_eq_dec : EqDecision VaultFile.
Proof. solve_decision. Defined.

Definition at_ms (now : Z) : Env := TicketTheorems.toy_env now.

Definition toy_lease_request (project : str) : IssueVaultLeaseRequest := mkLeaseRequest project ($"dev") 600 None.

(** A lease on the endpoint of a service, with its password. *)
Definition toy_issue (now : Z) (service password : str) : vault_op :=
  VIssue (at_ms now) (toy_lease_request service) service ($"ep") ($"mysql") ($"10.0.0.1:3306") None ($"root") password.

Definition toy_lease (now n : Z) (service : str) : VaultLease :=
  fresh_lease now n (toy_lease_request service) service ($"ep") ($"mysql") ($"10.0.0.1:3306") None ($"root").

Definition toy_record (now n : Z) (service password : str) : LeaseRecord :=
  mkRecord (toy_lease now n service) password ($"root").

(** A serializer for the empty file and the files with this lease. *)
Definition toy_files : list (str * VaultFile) :=
  [($"{}", mkFile [] [] []);
   ($"{1}", mkFile [] [] [toy_record 1000 1 ($"orders") ($"secret")]);
   ($"{2}", mkFile [] [toy_lease 1000 1 ($"orders")] [])].

Definition toy_write (f : VaultFile) : result str str :=
  match List.find (λ x, bool_decide (x.2 = f)) toy_files with Some x => Ok x.1 | None => Err ($"unsupported") end.

Definition toy_read (b : str) : result str VaultFile :=
  match List.find (λ x, str_eqb x.1 b) toy_files with Some x => Ok x.2 | None => Err ($"unsupported") end.

#[local] Instance toy_vault_json : VaultJson :=
  {| vault_to_vec := toy_write; vault_to_vec_pretty := toy_write; vault_from_slice := toy_read |}.

Lemma toy_write_some f b : toy_write f = Ok b → (b, f) ∈ toy_files.
Proof.
  unfold toy_write. destruct (List.find _ _) as [[b' f']|] eqn:E; [|done]. apply List.find_some in E as [Hin Hd].
  apply bool_decide_eq_true in Hd. simpl in *. subst. intros [= <-]. by apply list_elem_of_In.
Qed.

#[local] Instance toy_vault_json_laws : VaultJsonLaws.
Proof.
  split; intros f b H; assert ((b, f) ∈ toy_files) as Hin by (destruct H as [H|H]; by apply toy_write_some);
    repeat (apply elem_of_cons in Hin as [[= -> ->]|Hin]); try (by apply elem_of_nil in Hin); try (by vm_compute).
  - by exists [].
  - by exists ["1"%char].
  - by exists ["2"%char].
Qed.

Lemma vault_hides_passwords_witness :
  let run pw := vault_run [toy_issue 1000 ($"orders") pw; VRenew (at_ms 1500) ($"lease-1000-1") 60]
                  (mkVaultWorld (mkVault ∅ [] 1 (Some ($"vault.json")) None) None) in
  (run ($"secret")).1 = (run ($"hunter2")).1 ∧
  vault_disk (run ($"secret")).2 = vault_disk (run ($"hunter2")).2 ∧
  backend_identity (at_ms 2000) ($"lease-1000-1") (run ($"secret")).2 = Some ($"root", $"secret").
Proof.
  intros run. pose proof (vault_hides_passwords
    [toy_issue 1000 ($"orders") ($"secret"); VRenew (at_ms 1500) ($"lease-1000-1") 60]
    [toy_issue 1000 ($"orders") ($"hunter2"); VRenew (at_ms 1500) ($"lease-1000-1") 60]
    (mkVault ∅ [] 1 (Some ($"vault.json")) None) None) as H.
  destruct H as (Ha & _ & _ & _ & Hd); [by repeat constructor|].
  split; [exact Ha|]. split; [by apply Hd|]. vm_compute. reflexivity.
Defined.

(** A lease that is renewed, revoked, and cannot be renewed again. *)
Definition toy_vault : VaultStore := mkVault ∅ [] 1 None None.
Definition toy_before : list vault_op :=
  [toy_issue 1000 ($"orders") ($"secret"); VRenew (at_ms 1500) ($"lease-1000-1") 60].
Definition toy_after : list vault_op :=
  [VRenew (at_ms 1700) ($"lease-1000-1") 60; toy_issue 1800 ($"billing") ($"other"); VPrune (at_ms 1900)].

Lemma revoked_lease_is_dead_witness :
  let w1 := (vault_run toy_before (mkVaultWorld toy_vault None)).2 in
  let w2 := (vault_run toy_after (revoke (at_ms 1600) ($"lease-1000-1") (Some ($"ann")) w1).2).2 in
  get_valid_lease (at_ms 1600) ($"lease-1000-1") w1 ≠ None ∧
  get_valid_lease (at_ms 2000) ($"lease-1000-1") w2 = None ∧
  backend_identity (at_ms 2000) ($"lease-1000-1") w2 = None.
Proof.
  intros w1 w2. split; [by vm_compute|].
  destruct (revoked_lease_is_dead toy_before toy_after (at_ms 1600) ($"lease-1000-1") (Some ($"ann"))
    (revoked_lease (renewed_lease (toy_lease 1000 1 ($"orders")) 1500 60) 1600 (Some ($"ann")))
    toy_vault None) with (env' := at_ms 2000) as (Hv & Hb & _);
    [reflexivity|reflexivity|repeat constructor; by vm_compute|by vm_compute|vm_compute; reflexivity|].
  split; [exact Hv|exact Hb].
Defined.

Lemma token_opens_own_lease_witness :
  let w := (vault_run [toy_issue 1000 ($"orders") ($"secret"); toy_issue 1001 ($"billing") ($"other")]
              (mkVaultWorld toy_vault None)).2 in
  get_valid_lease_by_token (at_ms 1500) (token_of 1001) w = Some (toy_lease 1001 2 ($"billing")).
Proof.
  intros w.
  pose proof (token_opens_own_lease [toy_issue 1000 ($"orders") ($"secret"); toy_issue 1001 ($"billing") ($"other")]
    toy_vault None ($"lease-1001-2") (toy_record 1001 2 ($"billing") ($"other")) (at_ms 1500)) as H.
  specialize (H eq_refl eq_refl). transitivity (get_valid_lease (at_ms 1500) ($"lease-1001-2") w); [|vm_compute; reflexivity].
  apply H; [repeat constructor; by vm_compute|by vm_compute| |vm_compute; reflexivity|reflexivity].
  split; [apply (bool_decide_unpack (NoDup _)); by vm_compute|repeat constructor; by vm_compute].
Defined.

Definition toy_stored (key : option str) : VaultWorld :=
  mkVaultWorld (mkVault {[ $"lease-1000-1" := toy_record 1000 1 ($"orders") ($"secret") ]} [] 2 (Some ($"vault.json")) key) None.

Lemma toy_stored_ok key : vault_ok (vault (toy_stored key)).
Proof.
  split; [simpl; lia|]. intros lid r. simpl. rewrite lookup_singleton_Some. intros [<- <-].
  split_and!; [by vm_compute| |done]. exists 1000, 1. split; [by vm_compute|lia].
Qed.

Lemma vault_restart_witness :
  (∃ w2, with_file (at_ms 2000) ($"vault.json") (Some ($"k")) (vault_disk (persisted (at_ms 1500) (toy_stored (Some ($"k"))))) = Ok w2 ∧
     backend_identity (at_ms 2000) ($"lease-1000-1") w2 = Some ($"root", $"secret")) ∧
  (∃ w2, with_file (at_ms 2000) ($"vault.json") None (vault_disk (persisted (at_ms 1500) (toy_stored None))) = Ok w2 ∧
     get_valid_lease (at_ms 2000) ($"lease-1000-1") w2 = Some (toy_lease 1000 1 ($"orders")) ∧
     backend_identity (at_ms 2000) ($"lease-1000-1") w2 = None).
Proof.
  split.
  - destruct (vault_restart (at_ms 1500) (at_ms 2000) (toy_stored (Some ($"k"))) (persisted (at_ms 1500) (toy_stored (Some ($"k"))))
      ($"vault.json")) as (w2 & Hw & _ & Hl & _); [reflexivity|apply toy_stored_ok|by vm_compute|reflexivity|vm_compute; reflexivity|].
    exists w2. split; [exact Hw|]. unfold backend_identity. rewrite Hl. vm_compute. reflexivity.
  - destruct (vault_restart (at_ms 1500) (at_ms 2000) (toy_stored None) (persisted (at_ms 1500) (toy_stored None))
      ($"vault.json")) as (w2 & Hw & _ & Hl & _ & Hn); [reflexivity|apply toy_stored_ok|by vm_compute|reflexivity|vm_compute; reflexivity|].
    exists w2. split; [exact Hw|]. split; [|by apply Hn]. unfold get_valid_lease. rewrite Hl. vm_compute. reflexivity.
Defined.

(** ** Surprises *)

(** Tokens are made of the clock alone: two leases issued in the same millisecond
    share one, and the lookup by that token finds one of them. *)
Example tokens_collide :
  let w := (vault_run [toy_issue 1000 ($"orders") ($"secret"); toy_issue 1000 ($"billing") ($"other")]
              (mkVaultWorld toy_vault None)).2 in
  (access_token <$> get_lease ($"lease-1000-1") w) = (access_token <$> get_lease ($"lease-1000-2") w) ∧
  (lease_service <$> get_lease ($"lease-1000-1") w) ≠ (lease_service <$> get_lease ($"lease-1000-2") w) ∧
  (∃ l, get_valid_lease_by_token (at_ms 1500) (token_of 1000) w = Some l).
Proof. vm_compute. split_and!; [reflexivity|congruence|eauto]. Qed.

(** Installing the store again (as every reload of the security section does)
    replaces a store in memory by an empty one: live leases are gone and the counter
    starts over. *)
Theorem reinstall_forgets env s d :
  ∃ w, install_vault_store env (Some s) ($"memory") [] [] d = Ok w ∧ leases (vault w) = ∅ ∧ vault_seq (vault w) = 1.
Proof. eexists. split; [reflexivity|done]. Qed.

(** A lease that has expired comes back to life when it is renewed before it is
    pruned. *)
Example renewal_revives :
  let w := (vault_run [toy_issue 1000 ($"orders") ($"secret")] (mkVaultWorld toy_vault None)).2 in
  backend_identity (at_ms 900000) ($"lease-1000-1") w = None ∧
  backend_identity (at_ms 900001) ($"lease-1000-1") (renew (at_ms 900000) ($"lease-1000-1") 60 w).2 = Some ($"root", $"secret").
Proof. split; vm_compute; reflexivity. Qed.

End VaultTheorems.
