(* ===== verification/AdminAuth.v ===== *)
(** * Administration: roles, permissions and tokens

    [gateway/core/src/admin_auth.rs] (roles, the permission a route needs, the
    configuration and its validation), [http/src/http/admin_auth.rs] (bearer
    tokens, the break-glass login) and [http/src/http/jwks.rs] (the cache of
    signing keys).  The [jsonwebtoken] crate, base64 and the download of a key
    set are parameters ([Jwt], [AuthEnv]); the clocks are arguments. *)

From S2P Require Import Prelude RustStr Model.

Module AdminAuth.

(** ** Roles and permissions *)

Inductive AdminRole := Viewer | Operator | Admin.

Inductive AdminPermission :=
| TopologyRead | RuntimeRead | RuntimeRefresh | ListenerControl | ListenerWrite | PolicyWrite | ConfigReload | MetricsRead.

#[export] Instance AdminRole_eq_dec : EqDecision AdminRole.
Proof. solve_decision. Defined.
#[export] Instance AdminPermission_eq_dec : EqDecision AdminPermission.
Proof. solve_decision. Defined.

Definition role_as_str (r : AdminRole) : str :=
  match r with Viewer => $"viewer" | Operator => $"operator" | Admin => $"admin" end.

Definition permission_as_str (p : AdminPermission) : str :=
  match p with
  | TopologyRead => $"topology:read"
  | RuntimeRead => $"runtime:read"
  | RuntimeRefresh => $"runtime:refresh"
  | ListenerControl => $"listener:control"
  | ListenerWrite => $"listener:write"
  | PolicyWrite => $"policy:write"
  | ConfigReload => $"config:reload"
  | MetricsRead => $"metrics:read"
  end.

Definition role_parse (value : str) : option AdminRole :=
  let v := to_ascii_lowercase (trim value) in
  if one_of [$"viewer"; $"view"; $"readonly"; $"read_only"] v then Some Viewer
  else if one_of [$"operator"; $"ops"; $"sre"] v then Some Operator
  else if one_of [$"admin"; $"administrator"; $"root"] v then Some Admin
  else None.

Definition permissions (r : AdminRole) : list AdminPermission :=
  match r with
  | Viewer => [TopologyRead; RuntimeRead; MetricsRead]
  | Operator => [TopologyRead; RuntimeRead; MetricsRead; RuntimeRefresh; ListenerControl]
  | Admin =>
      [TopologyRead; RuntimeRead; MetricsRead; RuntimeRefresh; ListenerControl; ListenerWrite; PolicyWrite; ConfigReload]
  end.

(** ** Configuration *)

Inductive AdminAuthMode := ModeNone | JwtHmac | JwtJwks.

#[export] Instance AdminAuthMode_eq_dec : EqDecision AdminAuthMode.
Proof. solve_decision. Defined.

Record AdminAuthConfig := mkAuthConfig {
  enabled : bool;
  mode : AdminAuthMode;
  jwt_secret : str;
  jwks_url : str;
  jwks_cache_secs : Z;
  issuer : str;
  audience : str;
  leeway_secs : Z;
  role_claim_paths : list str;
  role_bindings : gmap str str;
  public_metrics : bool;
  break_glass_role : str;
  break_glass_password : str;
  token_ttl_secs : Z
}.

Definition default_role_bindings : gmap str str :=
  list_to_map [($"data-nexus-viewers", $"viewer"); ($"data-nexus-operators", $"operator");
               ($"data-nexus-admins", $"admin"); ($"viewer", $"viewer"); ($"operator", $"operator"); ($"admin", $"admin")].

Definition default_auth_config : AdminAuthConfig :=
  mkAuthConfig false ModeNone [] [] 300 [] [] 60 [$"roles"; $"groups"; $"realm_access.roles"] default_role_bindings
    true ($"admin") [] 3600.

Definition break_glass_enabled (c : AdminAuthConfig) : bool :=
  enabled c && negb (is_empty (break_glass_password c)) && negb (is_empty (jwt_secret c))
  && match mode c with ModeNone => false | _ => true end.

Definition break_glass_role_parsed (c : AdminAuthConfig) : AdminRole := default Admin (role_parse (break_glass_role c)).

Definition validate_break_glass_password (c : AdminAuthConfig) : GatewayResult unit :=
  if negb (is_empty (break_glass_password c)) && (length (break_glass_password c) <? 8)%nat
  then Err (Configuration ($"admin_auth.break_glass_password must be at least 8 characters when set"))
  else Ok tt.

Definition config_error {A} (message : str) : GatewayResult A := Err (Configuration message).

Definition validate (c : AdminAuthConfig) : GatewayResult unit :=
  if negb (enabled c) then Ok tt
  else
    match mode c with
    | ModeNone => config_error ($"admin_auth.enabled=true requires mode jwt_hmac or jwt_jwks")
    | JwtHmac =>
        if is_empty (trim (jwt_secret c)) then config_error ($"admin_auth.jwt_secret is required when mode=jwt_hmac")
        else if (length (jwt_secret c) <? 16)%nat
        then config_error ($"admin_auth.jwt_secret must be at least 16 characters")
        else validate_break_glass_password c
    | JwtJwks =>
        if is_empty (trim (jwks_url c)) then config_error ($"admin_auth.jwks_url is required when mode=jwt_jwks")
        else if negb (starts_with (jwks_url c) ($"https://") || starts_with (jwks_url c) ($"http://"))
        then config_error ($"admin_auth.jwks_url must be an http(s) URL")
        else if is_empty (trim (issuer c)) then config_error ($"admin_auth.issuer is required when mode=jwt_jwks")
        else if negb (is_empty (jwt_secret c)) && (length (jwt_secret c) <? 16)%nat
        then config_error ($"admin_auth.jwt_secret must be at least 16 characters when set for break-glass")
        else if break_glass_enabled c && is_empty (jwt_secret c)
        then config_error
               ($"admin_auth.break_glass_password requires jwt_secret (HS256 minting) when mode=jwt_jwks")
        else validate_break_glass_password c
    end.

(** ** Claims to roles *)

(** The roles one claim value stands for. *)
Definition value_roles (c : AdminAuthConfig) (value : str) : list AdminRole :=
  let key := to_ascii_lowercase (trim value) in
  if is_empty key then []
  else
    match role_parse key with
    | Some r => [r]
    | None =>
        omap (λ b, if eq_ignore_ascii_case b.1 key then role_parse b.2 else None) (map_to_list (role_bindings c))
    end.

(** The set of the roles, in the order of the final sort. *)
Definition map_claim_values (c : AdminAuthConfig) (values : list str) : list AdminRole :=
  let found := values ≫= value_roles c in
  filter (λ r, r ∈ found) [Viewer; Operator; Admin].

Definition permissions_for_roles (roles : list AdminRole) : list AdminPermission := remove_dups (roles ≫= permissions).

Record AdminAuthContext := mkContext {
  subject : str;
  roles : list AdminRole;
  ctx_permissions : list AdminPermission;
  auth_method : str
}.

Definition from_roles (subject : str) (roles : list AdminRole) (auth_method : str) : AdminAuthContext :=
  mkContext subject roles (permissions_for_roles roles) auth_method.

Definition allows (ctx : AdminAuthContext) (p : AdminPermission) : bool := bool_decide (p ∈ ctx_permissions ctx).

(** ** The permission of a route *)

(** The arms of the [match], in order: the method, the condition on the path. *)
Definition exactly (p : str) (path : str) : bool := str_eqb path p.
Definition below (prefix : str) (suffixes : list str) (path : str) : bool :=
  starts_with path prefix && existsb (ends_with path) suffixes.

Definition permission_arms : list (str * (str → bool) * AdminPermission) := [
  ($"GET", exactly ($"/admin"), TopologyRead);
  ($"GET", exactly ($"/admin/"), TopologyRead);
  ($"GET", exactly ($"/admin/config"), TopologyRead);
  ($"GET", exactly ($"/config"), TopologyRead);
  ($"GET", exactly ($"/admin/listeners"), TopologyRead);
  ($"GET", exactly ($"/admin/services"), TopologyRead);
  ($"GET", exactly ($"/admin/endpoints"), TopologyRead);
  ($"GET", exactly ($"/admin/security-policies"), TopologyRead);
  ($"GET", exactly ($"/admin/security/cedar"), TopologyRead);
  ($"POST", exactly ($"/admin/security/cedar/reload"), PolicyWrite);
  ($"GET", exactly ($"/admin/audit/events"), RuntimeRead);
  ($"GET", exactly ($"/admin/audit/stats"), RuntimeRead);
  ($"GET", exactly ($"/admin/tickets"), RuntimeRead);
  ($"POST", exactly ($"/admin/tickets"), PolicyWrite);
  ($"POST", below ($"/admin/tickets/") [$"/approve"; $"/reject"], PolicyWrite);
  ($"GET", λ p, starts_with p ($"/admin/tickets/"), RuntimeRead);
  ($"GET", exactly ($"/admin/projects"), TopologyRead);
  ($"GET", exactly ($"/admin/vault/leases"), RuntimeRead);
  ($"POST", exactly ($"/admin/vault/leases"), PolicyWrite);
  ($"POST", below ($"/admin/vault/leases/") [$"/revoke"; $"/renew"], PolicyWrite);
  ($"DELETE", λ p, starts_with p ($"/admin/vault/leases/"), PolicyWrite);
  ($"POST", exactly ($"/admin/vault/leases/prune"), PolicyWrite);
  ($"POST", below ($"/admin/tickets/") [$"/revoke"], PolicyWrite);
  ($"POST", exactly ($"/admin/tickets/prune"), PolicyWrite);
  ($"POST", exactly ($"/admin/portal/query"), RuntimeRead);
  ($"GET", exactly ($"/admin/pools"), RuntimeRead);
  ($"GET", exactly ($"/admin/sessions"), RuntimeRead);
  ($"POST", exactly ($"/admin/reload"), ConfigReload);
  ($"POST", exactly ($"/admin/pools/refresh"), RuntimeRefresh);
  ($"POST", below ($"/admin/pools/") [$"/refresh"], RuntimeRefresh);
  ($"POST", below ($"/admin/listeners/") [$"/stop"], ListenerControl);
  ($"POST", exactly ($"/admin/listeners"), ListenerWrite);
  ($"PUT", λ p, starts_with p ($"/admin/route-policies/"), PolicyWrite);
  ($"GET", exactly ($"/metrics"), MetricsRead)].

Definition slash (c : ascii) : bool := Ascii.eqb c "/".

Definition before_query (path : str) : str := List.hd [] (split "?" path).

Definition required_permission (method path : str) : option AdminPermission :=
  let method := to_ascii_uppercase method in
  let path := before_query (trim_end_matches slash path) in
  if one_of [$"/admin/me"; $"/admin/auth/config"] path then None
  else
    match List.find (λ arm, str_eqb method arm.1.1 && arm.1.2 path) permission_arms with
    | Some arm => Some arm.2
    | None => None
    end.

(** ** Tokens *)

(** [serde_json::Value]; a number is an integer or the text of another number. *)
Inductive Value :=
| VNull
| VBool (b : bool)
| VInt (z : Z)
| VOther (number : str)
| VText (s : str)
| VArray (items : list Value)
| VObject (fields : list (str * Value)).

(** [Value::get] with a key. *)
Definition value_get (key : str) (v : Value) : option Value :=
  match v with
  | VObject fields => snd <$> List.find (λ f, str_eqb f.1 key) fields
  | _ => None
  end.

Inductive Algorithm := HS256 | RS256 | RS384 | RS512 | OtherAlg (name : str).

#[export] Instance Algorithm_eq_dec : EqDecision Algorithm.
Proof. solve_decision. Defined.

Definition alg_debug (a : Algorithm) : str :=
  match a with HS256 => $"HS256" | RS256 => $"RS256" | RS384 => $"RS384" | RS512 => $"RS512" | OtherAlg n => n end.

Inductive DecodingKey := FromSecret (secret : str) | FromRsa (n e : str).

(** The fields of [jsonwebtoken::Validation] the code sets. *)
Record Validation := mkValidation {
  v_algorithm : Algorithm;
  v_leeway : Z;
  v_issuer : option str;
  v_audience : option str;
  v_required : list str
}.

Record IssuedClaims := mkClaims {
  claim_sub : str;
  claim_exp : Z;
  claim_iat : Z;
  claim_nbf : Z;
  claim_roles : list str;
  claim_iss : option str;
  claim_aud : option str
}.

(** The [jsonwebtoken] and [base64] crates: signing with a secret, the header of a
    token, checking a token at a time (in seconds), reading RSA components. *)
Class Jwt := {
  jwt_encode : str → IssuedClaims → result str str;
  decode_header : str → result str (Algorithm * option str);
  jwt_decode : Z → str → DecodingKey → Validation → result str Value;
  rsa_components : str → str → result str unit;
  b64url_nopad_decode : str → option str;
  b64url_decode : str → option str;
  b64url_nopad_encode : str → str
}.

Inductive AdminAuthError := Unauthorized (message : str) | Forbidden (message : str) | Misconfigured (message : str).

Definition error_status (e : AdminAuthError) : Z :=
  match e with Unauthorized _ => 401 | Forbidden _ => 403 | Misconfigured _ => 500 end.
Definition error_code (e : AdminAuthError) : str :=
  match e with
  | Unauthorized _ => $"unauthorized" | Forbidden _ => $"forbidden" | Misconfigured _ => $"auth_misconfigured"
  end.
Definition error_message (e : AdminAuthError) : str :=
  match e with Unauthorized m | Forbidden m | Misconfigured m => m end.

(** *** The key set *)

Record JwkKey := mkJwk {
  kty : str;
  kid : option str;
  jwk_alg : option str;
  jwk_use : option str;
  jwk_n : option str;
  jwk_e : option str
}.

Record CacheEntry := mkEntry {
  fetched_at : Z;
  keys : gmap str (str * str);
  default_key : option (str * str)
}.

(** One request's readings: the wall clock in seconds, the monotonic clock (in
    milliseconds) when the cache is read and when a download ends, and what the
    download of a URL gives. *)
Record AuthEnv := mkAuthEnv {
  now_secs : Z;
  instant : Z;
  instant_fetched : Z;
  fetch_jwks : str → result AdminAuthError (list JwkKey)
}.

Section Tokens.
Context `{Jwt}.

Definition normalize_b64url (value : str) : str :=
  b64url_nopad_encode
    (match b64url_nopad_decode value with
     | Some raw => raw
     | None => match b64url_decode value with Some raw => raw | None => value end
     end).

Definition explicit_other_alg (a : str) : bool :=
  negb (existsb (eq_ignore_ascii_case a) [$"RS256"; $"RS384"; $"RS512"])
  && (starts_with a ($"ES") || starts_with a ($"HS") || starts_with a ($"PS")).

(** The signing key of an entry of the document, if the loop does not skip it. *)
Definition usable_key (k : JwkKey) : option (str * str) :=
  if negb (eq_ignore_ascii_case (kty k) ($"RSA")) then None
  else if match jwk_use k with Some u => negb (eq_ignore_ascii_case u ($"sig")) | None => false end then None
  else if match jwk_alg k with Some a => explicit_other_alg a | None => false end then None
  else
    match jwk_n k, jwk_e k with
    | Some n, Some e => Some (normalize_b64url n, normalize_b64url e)
    | _, _ => None
    end.

Definition add_key (entry : CacheEntry) (k : JwkKey) : CacheEntry :=
  match usable_key k with
  | None => entry
  | Some ne =>
      mkEntry (fetched_at entry) (match kid k with Some i => <[i := ne]> (keys entry) | None => keys entry end)
        (match default_key entry with Some d => Some d | None => Some ne end)
  end.

Definition document_to_entry (now : Z) (doc : list JwkKey) : CacheEntry := foldl add_key (mkEntry now ∅ None) doc.

(** Download the key set of a URL and keep it. *)
Definition refetch (env : AuthEnv) (url : str) (cache : gmap str CacheEntry)
    : result AdminAuthError CacheEntry * gmap str CacheEntry :=
  match fetch_jwks env url with
  | Err e => (Err e, cache)
  | Ok doc =>
      let entry := document_to_entry (instant_fetched env) doc in
      if (size (keys entry) =? 0)%nat && is_none (default_key entry)
      then (Err (Misconfigured ($"JWKS at " ++ url ++ $" has no RSA signature keys")), cache)
      else (Ok entry, <[url := entry]> cache)
  end.

(** The process-wide cache, by URL; [ttl] in milliseconds. *)
Definition get_or_fetch (env : AuthEnv) (url : str) (ttl : Z) (cache : gmap str CacheEntry)
    : result AdminAuthError CacheEntry * gmap str CacheEntry :=
  match cache !! url with
  | Some entry => if instant env - fetched_at entry <? ttl then (Ok entry, cache) else refetch env url cache
  | None => refetch env url cache
  end.

Definition select_key (entry : CacheEntry) (kid : option str) : result AdminAuthError (str * str) :=
  match kid with
  | Some i =>
      match keys entry !! i with
      | Some ne => Ok ne
      | None => ok_or (Unauthorized ($"no JWKS key for kid '" ++ i ++ $"'")) (default_key entry)
      end
  | None => ok_or (Unauthorized ($"JWKS has no usable RSA key")) (default_key entry)
  end.

Definition decoding_key_for (env : AuthEnv) (url : str) (kid : option str) (ttl : Z) (cache : gmap str CacheEntry)
    : result AdminAuthError DecodingKey * gmap str CacheEntry :=
  let '(r, cache) := get_or_fetch env url ttl cache in
  (entry ← r;
   '(n, e) ← select_key entry kid;
   _ ← map_err (λ err, Unauthorized ($"invalid RSA JWK components: " ++ err)) (rsa_components n e);
   Ok (FromRsa n e), cache).

(** *** Role claims *)

(** The strings of a claim: a text, the texts of a list, the [roles] of an object. *)
Fixpoint push_strings (v : Value) : list str :=
  match v with
  | VText s => if is_empty (trim s) then [] else [s]
  | VArray items => concat (map push_strings items)
  | VObject fields =>
      (fix first (l : list (str * Value)) : list str :=
         match l with
         | [] => []
         | (k, x) :: l' => if str_eqb k ($"roles") then push_strings x else first l'
         end) fields
  | _ => []
  end.

Definition dig_claim (v : Value) (path : str) : option Value :=
  foldl (λ cur part, c ← cur; value_get part c) (Some v) (split "." path).

(** The claims of the configured paths and the top-level [roles] and [groups]; the
    order of the set does not matter to its reader. *)
Definition collect_role_strings (claims : Value) (paths : list str) : list str :=
  (paths ≫= λ p, match dig_claim claims p with Some v => push_strings v | None => [] end)
  ++ ([$"roles"; $"groups"] ≫= λ k, match value_get k claims with Some v => push_strings v | None => [] end).

(** *** Checking a token *)

Definition validation_of (c : AdminAuthConfig) (alg : Algorithm) : Validation :=
  mkValidation alg (leeway_secs c)
    (if is_empty (issuer c) then None else Some (issuer c))
    (if is_empty (audience c) then None else Some (audience c))
    ([$"exp"; $"sub"] ++ (if is_empty (issuer c) then [] else [$"iss"])
       ++ (if is_empty (audience c) then [] else [$"aud"])).

Definition text_claim (claims : Value) (key : str) : str :=
  match value_get key claims with Some (VText s) => s | _ => [] end.

Definition validate_with_key (env : AuthEnv) (c : AdminAuthConfig) (token : str) (key : DecodingKey) (alg : Algorithm)
    (auth_method : str) : result AdminAuthError AdminAuthContext :=
  claims ← map_err (λ e, Unauthorized ($"invalid token: " ++ e)) (jwt_decode (now_secs env) token key (validation_of c alg));
  let sub := text_claim claims ($"sub") in
  if is_empty sub then Err (Unauthorized ($"token missing sub"))
  else Ok (from_roles sub (map_claim_values c (collect_role_strings claims (role_claim_paths c))) auth_method).

Definition is_rsa (a : Algorithm) : bool := match a with RS256 | RS384 | RS512 => true | _ => false end.

(** A token signed by a key of the identity provider. *)
Definition validate_jwks (env : AuthEnv) (c : AdminAuthConfig) (token : str) (cache : gmap str CacheEntry)
    : result AdminAuthError AdminAuthContext * gmap str CacheEntry :=
  match decode_header token with
  | Err e => (Err (Unauthorized ($"invalid jwt header: " ++ e)), cache)
  | Ok (alg, kid) =>
      if negb (is_rsa alg) then (Err (Unauthorized ($"unsupported JWT alg for jwks mode: " ++ alg_debug alg)), cache)
      else
        let '(r, cache) := decoding_key_for env (jwks_url c) kid (Z.max (jwks_cache_secs c) 30 * 1000) cache in
        (key ← r; validate_with_key env c token key alg ($"jwt_jwks"), cache)
  end.

Definition validate_token (env : AuthEnv) (c : AdminAuthConfig) (token : str) (cache : gmap str CacheEntry)
    : result AdminAuthError AdminAuthContext * gmap str CacheEntry :=
  match mode c with
  | ModeNone => (Err (Misconfigured ($"admin auth enabled with mode=none")), cache)
  | JwtHmac => (validate_with_key env c token (FromSecret (jwt_secret c)) HS256 ($"jwt_hmac"), cache)
  | JwtJwks =>
      if is_empty (jwt_secret c) then validate_jwks env c token cache
      else
        match validate_with_key env c token (FromSecret (jwt_secret c)) HS256 ($"break_glass") with
        | Ok ctx => (Ok ctx, cache)
        | Err _ => validate_jwks env c token cache
        end
  end.

(** *** Requests *)

Definition bare_path (path : str) : str := trim_end_matches slash (before_query path).
Definition path_is_public_auth_path (path : str) : bool :=
  one_of [$"/admin/auth/config"; $"/admin/auth/login"] (bare_path path).
Definition is_metrics_path (path : str) : bool := str_eqb (bare_path path) ($"/metrics").

Definition extract_bearer (authorization : option str) : option str :=
  value ← authorization;
  let value := trim value in
  token ← (match strip_prefix value ($"Bearer ") with Some t => Some t | None => strip_prefix value ($"bearer ") end);
  let token := trim token in
  if is_empty token then None else Some token.

Definition authenticate_request (env : AuthEnv) (c : AdminAuthConfig) (authorization : option str) (method path : str)
    (cache : gmap str CacheEntry) : result AdminAuthError (option AdminAuthContext) * gmap str CacheEntry :=
  if path_is_public_auth_path path then (Ok None, cache)
  else if negb (enabled c) then (Ok None, cache)
  else if public_metrics c && is_metrics_path path && eq_ignore_ascii_case method ($"GET") then (Ok None, cache)
  else
    match extract_bearer authorization with
    | None => (Err (Unauthorized ($"missing or invalid Authorization Bearer token")), cache)
    | Some token =>
        let '(r, cache) := validate_token env c token cache in
        (ctx ← r;
         _ ← match required_permission method path with
             | Some p => if allows ctx p then Ok tt else Err (Forbidden ($"missing permission " ++ permission_as_str p))
             | None => Ok tt
             end;
         if is_empty (roles ctx) && negb (is_none (required_permission method path))
         then Err (Forbidden ($"no mapped admin role in token claims"))
         else Ok (Some ctx), cache)
    end.

(** *** The break-glass login *)

Definition non_empty (s : str) : option str := if is_empty s then None else Some s.

(** [now + ttl_secs.max(60)] is in [i64]; a release build wraps. *)
Definition issued_claims (env : AuthEnv) (c : AdminAuthConfig) (subject : str) (roles : list AdminRole) (ttl_secs : Z)
    : IssuedClaims :=
  let now := now_secs env in
  mkClaims subject (i64_wrap (now + Z.max ttl_secs 60)) now now (role_as_str <$> roles) (non_empty (issuer c))
    (non_empty (audience c)).

Definition issue_hmac_token (env : AuthEnv) (c : AdminAuthConfig) (subject : str) (roles : list AdminRole) (ttl_secs : Z)
    : result AdminAuthError str :=
  if is_empty (jwt_secret c) then Err (Misconfigured ($"jwt_secret is empty"))
  else map_err (λ e, Misconfigured ($"encode jwt: " ++ e)) (jwt_encode (jwt_secret c) (issued_claims env c subject roles ttl_secs)).

Record AdminLoginResponse := mkLogin {
  access_token : str;
  token_type : str;
  expires_in : Z;
  login_roles : list str
}.

Definition break_glass_login (env : AuthEnv) (c : AdminAuthConfig) (password : str) : result AdminAuthError AdminLoginResponse :=
  if negb (break_glass_enabled c) then Err (Unauthorized ($"break-glass password login is not configured"))
  else if negb (str_eqb password (break_glass_password c)) then Err (Unauthorized ($"invalid password"))
  else
    let role := break_glass_role_parsed c in
    let ttl := Z.max (token_ttl_secs c) 60 in
    token ← issue_hmac_token env c ($"break-glass") [role] (i64_wrap ttl);
    Ok (mkLogin token ($"Bearer") ttl [role_as_str role]).

Record AdminMeResponse := mkMe {
  me_subject : str;
  me_roles : list str;
  me_permissions : list str;
  me_auth_method : str;
  me_auth_enabled : bool
}.

Definition me_response (ctx : option AdminAuthContext) (auth_enabled : bool) : AdminMeResponse :=
  match ctx with
  | Some ctx =>
      mkMe (subject ctx) (role_as_str <$> roles ctx) (permission_as_str <$> ctx_permissions ctx) (auth_method ctx) auth_enabled
  | None =>
      mkMe ($"anonymous") (if auth_enabled then [] else [role_as_str Admin])
        (if auth_enabled then [] else permission_as_str <$> permissions_for_roles [Admin])
        (if auth_enabled then $"none" else $"disabled") auth_enabled
  end.
End Tokens.

End AdminAuth.
