(* ===== verification/AdminAuthTheorems.v ===== *)
(** * Theorems about administration tokens and permissions

    Who gets through [authenticate_request], where the signing keys come from, and
    that a break-glass login gives a token that works.  The model is in
    [AdminAuth]. *)

From S2P Require Import Prelude RustStr Model AdminAuth.
Import AdminAuth.

Module AdminAuthTheorems.

(** ** What the token library documents *)

(** A claim that is the text, or a list that holds it. *)
Definition claim_names (claims : Value) (key value : str) : Prop :=
  value_get key claims = Some (VText value) ∨
  ∃ items, value_get key claims = Some (VArray items) ∧ VText value ∈ items.

(** The token is not past its expiry, if that is an integer. *)
Definition unexpired (now leeway : Z) (claims : Value) : Prop :=
  match value_get ($"exp") claims with
  | Some (VInt e) => now ≤ e + leeway
  | Some (VOther _) => True
  | _ => False
  end.

(** The JSON of the claims, as [serde] derives it. *)
Definition text_field (key : str) (v : option str) : list (str * Value) :=
  match v with Some s => [(key, VText s)] | None => [] end.
Definition claims_value (cl : IssuedClaims) : Value :=
  VObject ([($"sub", VText (claim_sub cl)); ($"exp", VInt (claim_exp cl)); ($"iat", VInt (claim_iat cl));
            ($"nbf", VInt (claim_nbf cl)); ($"roles", VArray (VText <$> claim_roles cl))]
           ++ text_field ($"iss") (claim_iss cl) ++ text_field ($"aud") (claim_aud cl)).

(** [jsonwebtoken]: a token that is accepted carries a signature of the claims by
    the key under the algorithm, is not expired, and has the issuer and audience
    asked for; a token made with a secret is text without white space and is
    accepted under that secret until it expires, when issuer and audience agree. *)
Class JwtLaws `{Jwt} := {
  signed : DecodingKey → Algorithm → str → Value → Prop;
  jwt_checked now token key v claims : jwt_decode now token key v = Ok claims →
    signed key (v_algorithm v) token claims ∧ unexpired now (v_leeway v) claims ∧
    (∀ i, v_issuer v = Some i → claim_names claims ($"iss") i) ∧
    (∀ a, v_audience v = Some a → claim_names claims ($"aud") a);
  jwt_text secret cl token : jwt_encode secret cl = Ok token → token ≠ [] ∧ forallb solid token = true;
  jwt_accepts now secret cl token v : jwt_encode secret cl = Ok token →
    v_algorithm v = HS256 → now ≤ claim_exp cl + v_leeway v → v_issuer v = claim_iss cl → v_audience v = claim_aud cl →
    jwt_decode now token (FromSecret secret) v = Ok (claims_value cl)
}.

(** ** Roles *)

(** The roles are ordered by what they may do. *)
Lemma roles_ordered : permissions Viewer ⊆ permissions Operator ∧ permissions Operator ⊆ permissions Admin.
Proof. split; intros p; vm_compute; set_solver. Qed.

Lemma role_of_claims c values r : r ∈ map_claim_values c values → ∃ v, v ∈ values ∧ r ∈ value_roles c v.
Proof.
  unfold map_claim_values. rewrite list_elem_of_filter. intros [Hr _]. apply list_elem_of_bind in Hr as (v & ? & ?). eauto.
Qed.

Lemma claim_gives_role c values v r : v ∈ values → r ∈ value_roles c v → r ∈ map_claim_values c values.
Proof.
  intros Hv Hr. unfold map_claim_values. rewrite list_elem_of_filter. split; [apply list_elem_of_bind; eauto|].
  destruct r; set_solver.
Qed.

Lemma allows_role subject rs m p : allows (from_roles subject rs m) p = true ↔ ∃ r, r ∈ rs ∧ p ∈ permissions r.
Proof.
  unfold allows. rewrite bool_decide_eq_true. simpl. unfold permissions_for_roles. rewrite elem_of_remove_dups, list_elem_of_bind.
  naive_solver.
Qed.

(** ** Requests that get through *)

Section Granted.
Context `{JwtLaws}.

(** A token the configuration trusts: signed with the shared secret, or with an RSA
    key under the configured URL. *)
Inductive trusted (c : AdminAuthConfig) (token : str) (claims : Value) : Prop :=
| trusted_secret : mode c ≠ ModeNone → signed (FromSecret (jwt_secret c)) HS256 token claims → trusted c token claims
| trusted_key n e alg : mode c = JwtJwks → is_rsa alg = true → signed (FromRsa n e) alg token claims → trusted c token claims.

Definition claims_ok (env : AuthEnv) (c : AdminAuthConfig) (claims : Value) : Prop :=
  unexpired (now_secs env) (leeway_secs c) claims ∧
  (issuer c ≠ [] → claim_names claims ($"iss") (issuer c)) ∧
  (audience c ≠ [] → claim_names claims ($"aud") (audience c)).

Definition context_of (c : AdminAuthConfig) (claims : Value) (ctx : AdminAuthContext) : Prop :=
  subject ctx = text_claim claims ($"sub") ∧ subject ctx ≠ [] ∧
  ∃ m, ctx = from_roles (subject ctx) (map_claim_values c (collect_role_strings claims (role_claim_paths c))) m.

Lemma validated env c token key alg m ctx :
  validate_with_key env c token key alg m = Ok ctx →
  ∃ claims, signed key alg token claims ∧ claims_ok env c claims ∧ context_of c claims ctx.
Proof.
  unfold validate_with_key. destruct (jwt_decode _ _ _ _) as [claims|] eqn:Ed; [|done]. simpl.
  destruct (is_empty (text_claim _ _)) eqn:Es; [done|]. intros [= <-].
  apply jwt_checked in Ed as (Hs & He & Hi & Ha). simpl in *. exists claims. split; [done|]. split; [split_and!; [done|..]|].
  - intros Hn. apply Hi. by destruct (issuer c).
  - intros Hn. apply Ha. by destruct (audience c).
  - split; [done|]. split; [simpl; by destruct (text_claim _ _)|by eexists].
Qed.

Lemma jwks_validated env c token cache cache' ctx :
  validate_jwks env c token cache = (Ok ctx, cache') →
  ∃ n e alg claims, is_rsa alg = true ∧ signed (FromRsa n e) alg token claims ∧ claims_ok env c claims ∧ context_of c claims ctx.
Proof.
  unfold validate_jwks. destruct (decode_header token) as [[alg kid]|]; [|done]. destruct (is_rsa alg) eqn:Er; [|done]. simpl.
  unfold decoding_key_for. destruct (get_or_fetch _ _ _ _) as [[entry|] cache2]; [|done]. simpl.
  destruct (select_key entry kid) as [[n e]|]; [|done]. simpl. destruct (rsa_components n e); [|done]. simpl.
  intros [= Hv _]. apply validated in Hv as (claims & ? & ? & ?). exists n, e, alg, claims. done.
Qed.

(** Nobody gets past a protected route without a right to it: a request that passes
    shows a token that is signed by a key the configuration trusts, is not expired
    and has the configured issuer and audience; it acts as the subject of that token,
    and a permission the route needs is one of a role that a claim of the token
    stands for. *)
Theorem admin_request_granted env c authorization method path cache r cache' :
  enabled c = true → path_is_public_auth_path path = false →
  public_metrics c && is_metrics_path path && eq_ignore_ascii_case method ($"GET") = false →
  authenticate_request env c authorization method path cache = (Ok r, cache') →
  ∃ ctx token claims, r = Some ctx ∧ extract_bearer authorization = Some token ∧
    trusted c token claims ∧ claims_ok env c claims ∧ subject ctx = text_claim claims ($"sub") ∧ subject ctx ≠ [] ∧
    ∀ p, required_permission method path = Some p →
      ∃ value role, value ∈ collect_role_strings claims (role_claim_paths c) ∧ role ∈ value_roles c value ∧
        p ∈ permissions role.
Proof.
  intros He Hp Hm. unfold authenticate_request. rewrite Hp, He, Hm. cbn [negb].
  destruct (extract_bearer authorization) as [token|]; [|done].
  destruct (validate_token env c token cache) as [[ctx|] cache2] eqn:Ev; [|done]. cbn [mbind result_bind].
  assert (∃ claims, trusted c token claims ∧ claims_ok env c claims ∧ context_of c claims ctx) as (claims & Ht & Hok & Hs & Hne & m & Hc).
  { unfold validate_token in Ev. destruct (mode c) eqn:Em; [done| |].
    - injection Ev as Ev _. apply validated in Ev as (claims & ? & ? & ?). exists claims. split; [|done]. left; [congruence|done].
    - assert (validate_jwks env c token cache = (Ok ctx, cache2) →
              ∃ claims, trusted c token claims ∧ claims_ok env c claims ∧ context_of c claims ctx) as Hj.
      { intros Hj. apply jwks_validated in Hj as (n & e & alg & claims & ? & ? & ? & ?). exists claims. split; [|done].
        by eapply trusted_key. }
      destruct (is_empty (jwt_secret c)); [by apply Hj|].
      destruct (validate_with_key _ _ _ _ _ _) as [ctx'|] eqn:Ek; [|by apply Hj]. injection Ev as <- _.
      apply validated in Ek as (claims & ? & ? & ?). exists claims. split; [|done]. left; [congruence|done]. }
  destruct (required_permission method path) as [p|] eqn:Er.
  - destruct (allows ctx p) eqn:Ea; [|done]. cbn [mbind result_bind]. destruct (is_empty (roles ctx) && _); [done|]. intros E. simplify_eq.
    exists ctx, token, claims. split_and!; try done. intros q [= <-]. rewrite Hc in Ea. apply allows_role in Ea as (role & Hr & Hq).
    apply role_of_claims in Hr as (v & ? & ?). eauto.
  - cbn [mbind result_bind]. destruct (is_empty (roles ctx) && _); [done|]. intros E. simplify_eq. by exists ctx, token, claims.
Qed.

(** ** The break-glass login *)

Lemma bearer_of token : token ≠ [] → forallb solid token = true → extract_bearer (Some ($"Bearer " ++ token)) = Some token.
Proof.
  intros Hn Hs. unfold extract_bearer. simpl.
  assert (trim ($"Bearer " ++ token) = $"Bearer " ++ token) as Ht.
  { destruct (exists_last Hn) as (t & d & ->). rewrite app_assoc.
    apply (trim_solid "B" ($"earer " ++ t) d); [by vm_compute|].
    rewrite forallb_app in Hs. apply andb_prop in Hs as [_ Hs]. simpl in Hs. by destruct (solid d). }
  cbn [String.list_ascii_of_string app] in Ht. rewrite Ht. unfold strip_prefix. simpl.
  rewrite trim_all_solid by done. by destruct token.
Qed.

Lemma role_parse_as_str r : role_parse (role_as_str r) = Some r.
Proof. by destruct r; vm_compute. Qed.

Lemma own_role c r paths cl : claim_roles cl = [role_as_str r] →
  map_claim_values c (collect_role_strings (claims_value cl) paths) = [r] ∨
  r ∈ map_claim_values c (collect_role_strings (claims_value cl) paths).
Proof.
  intros Hr. right. eapply (claim_gives_role _ _ (role_as_str r)).
  - unfold collect_role_strings. apply elem_of_app. right. apply list_elem_of_bind. exists ($"roles").
    split; [|left]. assert (value_get ($"roles") (claims_value cl) = Some (VArray [VText (role_as_str r)])) as ->.
    { unfold claims_value, value_get. cbn -[role_as_str String.list_ascii_of_string]. rewrite Hr. done. }
    destruct r; vm_compute; left.
  - unfold value_roles. destruct r; vm_compute; left.
Qed.

(** A break-glass login works: the right password gives a token with which, until
    it expires, the configured role's requests pass under the name [break-glass]. *)
Theorem break_glass_token_works env env' c password resp method path cache :
  0 ≤ now_secs env → now_secs env + Z.max (token_ttl_secs c) 60 < 2 ^ 63 →
  break_glass_login env c password = Ok resp →
  now_secs env' ≤ now_secs env + expires_in resp + leeway_secs c →
  path_is_public_auth_path path = false →
  public_metrics c && is_metrics_path path && eq_ignore_ascii_case method ($"GET") = false →
  (∀ p, required_permission method path = Some p → p ∈ permissions (break_glass_role_parsed c)) →
  ∃ ctx, authenticate_request env' c (Some ($"Bearer " ++ access_token resp)) method path cache = (Ok (Some ctx), cache) ∧
    subject ctx = $"break-glass" ∧ break_glass_role_parsed c ∈ roles ctx ∧ password = break_glass_password c.
Proof.
  intros Hz Hmax Hl Hexp Hp Hm Hperm. unfold break_glass_login in Hl.
  destruct (break_glass_enabled c) eqn:Eb; [|done]. cbn [negb] in Hl.
  destruct (str_eqb password _) eqn:Epw; [|done]. cbn [negb] in Hl. apply str_eqb_eq in Epw. revert Hl.
  set (cl := issued_claims env c ($"break-glass") [break_glass_role_parsed c] (i64_wrap (Z.max (token_ttl_secs c) 60))).
  unfold issue_hmac_token. fold cl.
  unfold break_glass_enabled in Eb. apply andb_prop in Eb as [Eb Emode]. apply andb_prop in Eb as [Eb Esec].
  apply andb_prop in Eb as [Een _]. destruct (is_empty (jwt_secret c)) eqn:Ese; [done|].
  destruct (jwt_encode _ cl) as [token|] eqn:Ej; [|done].
  cbn [map_err mbind result_bind]. intros E. apply Ok_inj in E as <-. cbn [expires_in access_token] in *.
  destruct (jwt_text _ _ _ Ej) as [Hn Hs].
  assert (∀ m, ∃ ctx, validate_with_key env' c token (FromSecret (jwt_secret c)) HS256 m = Ok ctx ∧ subject ctx = $"break-glass" ∧
            break_glass_role_parsed c ∈ roles ctx ∧ ctx = from_roles ($"break-glass") (roles ctx) m) as Hv.
  { intros m. unfold validate_with_key. rewrite (jwt_accepts (now_secs env') (jwt_secret c) cl token (validation_of c HS256)); [|done..| | |].
    - cbn [map_err mbind result_bind]. change (text_claim (claims_value cl) ($"sub")) with ($"break-glass").
      eexists. split; [reflexivity|]. split; [done|]. split; [|done].
      destruct (own_role c (break_glass_role_parsed c) (role_claim_paths c) cl eq_refl) as [E|E]; [|exact E].
      cbn [roles from_roles]. rewrite E. left.
    - unfold cl, issued_claims. cbn [claim_exp validation_of v_leeway].
      rewrite (i64_wrap_small (Z.max _ 60)) by lia. rewrite i64_wrap_small by lia. lia.
    - done.
    - done. }
  assert (∃ ctx, validate_token env' c token cache = (Ok ctx, cache) ∧ subject ctx = $"break-glass" ∧
            break_glass_role_parsed c ∈ roles ctx ∧ ∃ m, ctx = from_roles ($"break-glass") (roles ctx) m) as (ctx & Ev & Hsub & Hrole & m & Hctx).
  { unfold validate_token. destruct (mode c); [done| |].
    - destruct (Hv ($"jwt_hmac")) as (ctx & -> & ? & ? & ?). eauto 6.
    - rewrite Ese. destruct (Hv ($"break_glass")) as (ctx & -> & ? & ? & ?). eauto 6. }
  exists ctx. split; [|done]. unfold authenticate_request. rewrite Hp, Een, Hm, bearer_of by done. cbn [negb]. rewrite Ev.
  cbn [mbind result_bind]. destruct (required_permission method path) as [p|] eqn:Er.
  - assert (allows ctx p = true) as ->.
    { rewrite Hctx. apply allows_role. exists (break_glass_role_parsed c). split; [done|by apply Hperm]. }
    cbn [mbind result_bind]. by destruct (roles ctx); [apply elem_of_nil in Hrole|].
  - cbn [mbind result_bind is_none negb andb]. by rewrite andb_false_r.
Qed.
End Granted.

(** ** Signing keys *)

Section Keys.
Context `{Jwt}.

(** The keys of an entry are the usable keys of its document. *)
Definition entry_of (doc : list JwkKey) (entry : CacheEntry) : Prop :=
  (∀ i ne, keys entry !! i = Some ne → ∃ k, k ∈ doc ∧ kid k = Some i ∧ usable_key k = Some ne) ∧
  (∀ i, keys entry !! i = None → ∀ k, k ∈ doc → kid k = Some i → usable_key k = None) ∧
  (∀ ne, default_key entry = Some ne → ∃ k, k ∈ doc ∧ usable_key k = Some ne).

Lemma add_key_entry doc entry k : entry_of doc entry → entry_of (doc ++ [k]) (add_key entry k).
Proof.
  intros (Hk & Hn & Hd). unfold add_key. destruct (usable_key k) as [ne|] eqn:Eu.
  - split_and!; simpl.
    + intros i ne'. destruct (kid k) as [j|] eqn:Ej; [rewrite lookup_insert; case_decide|].
      * subst. intros [= <-]. exists k. set_solver.
      * intros (k' & ? & ? & ?)%Hk. exists k'. set_solver.
      * intros (k' & ? & ? & ?)%Hk. exists k'. set_solver.
    + intros i Hi k' [Hin|Hin]%elem_of_app Ek.
      * destruct (kid k) as [j|]; [rewrite lookup_insert in Hi; case_decide; [done|]|]; by eapply Hn.
      * apply list_elem_of_singleton in Hin as ->. rewrite Ek, lookup_insert_eq in Hi. done.
    + intros ne'. destruct (default_key entry) as [d|] eqn:Ed.
      * intros [= <-]. destruct (Hd d) as (k' & ? & ?); [done|]. exists k'. set_solver.
      * intros [= <-]. exists k. set_solver.
  - split_and!.
    + intros i ne (k' & ? & ? & ?)%Hk. exists k'. set_solver.
    + intros i Hi k' [Hin|Hin]%elem_of_app Ek; [by eapply Hn|]. by apply list_elem_of_singleton in Hin as ->.
    + intros ne (k' & ? & ?)%Hd. exists k'. set_solver.
Qed.

Lemma document_entry t doc : entry_of doc (document_to_entry t doc) ∧ fetched_at (document_to_entry t doc) = t.
Proof.
  unfold document_to_entry. induction doc as [|k doc IH] using rev_ind; [split; [split_and!; set_solver|done]|].
  rewrite foldl_app. simpl. destruct IH as [IH Ht]. split; [by apply add_key_entry|]. unfold add_key. by destruct (usable_key k).
Qed.

(** What the cache holds was downloaded. *)
Definition cache_ok (cache : gmap str CacheEntry) : Prop :=
  ∀ url entry, cache !! url = Some entry → ∃ doc, entry_of doc entry.

Lemma fetched env url ttl cache entry cache' : cache_ok cache → get_or_fetch env url ttl cache = (Ok entry, cache') →
  cache_ok cache' ∧ cache' !! url = Some entry ∧
  (instant env - fetched_at entry < ttl ∨ (fetched_at entry = instant_fetched env ∧ is_ok (fetch_jwks env url) = true)).
Proof.
  intros Hc. assert (refetch env url cache = (Ok entry, cache') → cache_ok cache' ∧ cache' !! url = Some entry ∧
    (instant env - fetched_at entry < ttl ∨ (fetched_at entry = instant_fetched env ∧ is_ok (fetch_jwks env url) = true))) as Hr.
  { unfold refetch. destruct (fetch_jwks env url) as [doc|]; [|done]. destruct ((_ =? 0)%nat && _); [done|].
    destruct (document_entry (instant_fetched env) doc) as [Hd Ht]. intros [= <- <-].
    split; [|split; [by rewrite lookup_insert_eq|by right]]. intros url' e. rewrite lookup_insert.
    case_decide; [intros [= <-]; by exists doc|apply Hc]. }
  unfold get_or_fetch. destruct (cache !! url) as [e|] eqn:El; [|done]. destruct (Z.ltb_spec (instant env - fetched_at e) ttl); [|done].
  intros [= <- <-]. split; [done|]. split; [done|by left].
Qed.

(** The key a token is checked with is one the identity provider published: a
    signature key (RSA, for signatures, with both components) of a key set of the
    configured URL that was downloaded for this request or less than the cache time
    ago; the one the token names if the set has it. *)
Theorem signing_key_published env url wanted ttl cache key cache' :
  cache_ok cache → decoding_key_for env url wanted ttl cache = (Ok key, cache') →
  cache_ok cache' ∧ ∃ entry doc k n e, cache' !! url = Some entry ∧ entry_of doc entry ∧
    (instant env - fetched_at entry < ttl ∨ (fetched_at entry = instant_fetched env ∧ is_ok (fetch_jwks env url) = true)) ∧
    key = FromRsa n e ∧ k ∈ doc ∧ usable_key k = Some (n, e) ∧
    (∀ i, wanted = Some i → kid k = Some i ∨ ∀ k', k' ∈ doc → kid k' = Some i → usable_key k' = None).
Proof.
  intros Hc. unfold decoding_key_for. destruct (get_or_fetch env url ttl cache) as [[entry|] cache2] eqn:Eg; [|done].
  apply fetched in Eg as (Hc' & Hl & Hage); [|done]. cbn [mbind result_bind].
  destruct (select_key entry wanted) as [[n e]|] eqn:Es; [|done]. cbn [mbind result_bind].
  destruct (rsa_components n e); [|done]. cbn [mbind result_bind map_err]. intros [= <- <-]. split; [done|].
  destruct (Hc' _ _ Hl) as (doc & Hdoc). pose proof Hdoc as (Hk & Hn & Hd). revert Es. unfold select_key.
  destruct wanted as [i|].
  - destruct (keys entry !! i) as [ne|] eqn:Ek.
    + intros [= ->]. destruct (Hk _ _ Ek) as (k & ? & ? & ?). exists entry, doc, k, n, e. split_and!; try done.
      intros j [= <-]. by left.
    + destruct (default_key entry) as [ne|] eqn:Ed; [|done]. intros [= ->]. destruct (Hd _ eq_refl) as (k & ? & ?).
      exists entry, doc, k, n, e. split_and!; try done. intros j [= <-]. right. by apply Hn.
  - destruct (default_key entry) as [ne|] eqn:Ed; [|done]. intros [= ->]. destruct (Hd _ eq_refl) as (k & ? & ?).
    exists entry, doc, k, n, e. by split_and!.
Qed.
End Keys.

(** ** Configuration *)

(** A validated configuration can check tokens: with authentication on there is a
    way to check them, with a secret of at least sixteen bytes or the URL of a key
    set with an issuer, and a break-glass password, if any, has at least eight. *)
Theorem validated_auth c :
  validate c = Ok tt → enabled c = true →
  (mode c = JwtHmac ∧ (16 ≤ length (jwt_secret c))%nat ∨ mode c = JwtJwks ∧ jwks_url c ≠ [] ∧ issuer c ≠ []) ∧
  (jwt_secret c = [] ∨ (16 ≤ length (jwt_secret c))%nat) ∧
  (break_glass_enabled c = true → (8 ≤ length (break_glass_password c))%nat).
Proof.
  unfold validate. intros Hv He. rewrite He in Hv. cbn [negb] in Hv.
  assert (∀ s : str, is_empty (trim s) = false → s ≠ []) as Hne by (by intros [|]).
  assert (validate_break_glass_password c = Ok tt → break_glass_enabled c = true → (8 ≤ length (break_glass_password c))%nat) as Hp.
  { unfold validate_break_glass_password, break_glass_enabled. destruct (is_empty (break_glass_password c)); [by rewrite andb_false_r|].
    destruct (Nat.ltb_spec (length (break_glass_password c)) 8); [done|lia]. }
  destruct (mode c); [done|..].
  - destruct (is_empty (trim (jwt_secret c))); [done|]. destruct (Nat.ltb_spec (length (jwt_secret c)) 16); [done|].
    split_and!; [by left|by right|by apply Hp].
  - destruct (is_empty (trim (jwks_url c))) eqn:Eu; [done|]. destruct (negb _); [done|].
    destruct (is_empty (trim (issuer c))) eqn:Ei; [done|].
    destruct (jwt_secret c) as [|x l] eqn:Es; cbn [is_empty negb andb] in Hv.
    + unfold break_glass_enabled in *. rewrite Es, He in *. cbn [is_empty negb andb] in *. rewrite !andb_false_r in *. simpl in Hv.
      split_and!; [right; split_and!; [done|by apply Hne..]|by left|done].
    + destruct (Nat.ltb_spec (length (x :: l)) 16); [done|]. destruct (break_glass_enabled c && false) eqn:Eb; [done|].
      split_and!; [right; split_and!; [done|by apply Hne..]|by right|by apply Hp].
Qed.

(** The check that a break-glass password comes with a secret never fires: the
    login counts as enabled only when there is a secret. *)
Lemma break_glass_check_dead c : break_glass_enabled c && is_empty (jwt_secret c) = false.
Proof. unfold break_glass_enabled. destruct (is_empty (jwt_secret c)); [by rewrite !andb_false_r|by rewrite andb_false_r]. Qed.

(** ** A concrete token *)

#[export] Instance IssuedClaims_eq_dec : EqDecision IssuedClaims.
Proof. solve_decision. Defined.

Definition toy_auth : AdminAuthConfig :=
  mkAuthConfig true JwtHmac ($"0123456789abcdef") [] 300 ($"idp") [] 60 [$"roles"] default_role_bindings true ($"ops")
    ($"letmein-now") 3600.

Definition toy_auth_env (now : Z) : AuthEnv := mkAuthEnv now 0 0 (λ _, Err (Unauthorized [])).

Definition toy_claims : IssuedClaims :=
  mkClaims ($"break-glass") 4600 1000 1000 [$"operator"] (Some ($"idp")) None.

(** A library that knows one token. *)
#[local] Instance toy_jwt : Jwt := {|
  jwt_encode secret cl :=
    if decide (secret = jwt_secret toy_auth ∧ cl = toy_claims) then Ok ($"tok1") else Err ($"unsupported");
  decode_header token := Err ($"unsupported");
  jwt_decode now token key v :=
    match key with
    | FromSecret s =>
        if decide (s = jwt_secret toy_auth ∧ token = $"tok1" ∧ v_algorithm v = HS256 ∧ now ≤ 4600 + v_leeway v ∧
                   v_issuer v = Some ($"idp") ∧ v_audience v = None)
        then Ok (claims_value toy_claims) else Err ($"InvalidToken")
    | _ => Err ($"InvalidToken")
    end;
  rsa_components n e := Err ($"unsupported");
  b64url_nopad_decode s := Some s;
  b64url_decode s := Some s;
  b64url_nopad_encode s := s
|}.

Definition toy_signed (key : DecodingKey) (alg : Algorithm) (token : str) (claims : Value) : Prop :=
  key = FromSecret (jwt_secret toy_auth) ∧ alg = HS256 ∧ token = $"tok1" ∧ claims = claims_value toy_claims.

#[local] Instance toy_jwt_laws : JwtLaws.
Proof.
  refine (Build_JwtLaws _ toy_signed _ _ _).
  - intros now token key v claims. simpl. destruct key as [s|]; [|done]. destruct (decide _) as [(-> & -> & Ha & Hn & Hi & Hu)|]; [|done].
    intros [= <-]. split; [by repeat split|]. split; [|split].
    + unfold unexpired. simpl. exact Hn.
    + intros i Ei. rewrite Hi in Ei. injection Ei as <-. left. by vm_compute.
    + intros a Ea. by rewrite Hu in Ea.
  - intros secret cl token. simpl. destruct (decide _); [|done]. intros [= <-]. split; [done|by vm_compute].
  - intros now secret cl token v. simpl. destruct (decide _) as [[-> ->]|]; [|done]. intros [= <-] Ha Hn Hi Hu.
    rewrite decide_True; [done|]. by split_and!.
Defined.

Lemma admin_request_granted_witness :
  ∃ ctx, authenticate_request (toy_auth_env 2000) toy_auth (Some ($"Bearer tok1")) ($"POST") ($"/admin/pools/refresh") ∅ =
      (Ok (Some ctx), ∅) ∧
    ∃ value role, role ∈ value_roles toy_auth value ∧ RuntimeRefresh ∈ permissions role.
Proof.
  eexists. split; [vm_compute; reflexivity|].
  destruct (admin_request_granted (toy_auth_env 2000) toy_auth (Some ($"Bearer tok1")) ($"POST") ($"/admin/pools/refresh") ∅
    (Some (from_roles ($"break-glass") [Operator] ($"jwt_hmac"))) ∅)
    as (ctx & token & claims & _ & _ & _ & _ & _ & _ & Hp);
    [reflexivity|vm_compute; reflexivity|vm_compute; reflexivity|vm_compute; reflexivity|].
  destruct (Hp RuntimeRefresh) as (value & role & _ & ? & ?); [vm_compute; reflexivity|]. exists value, role. by split.
Defined.

Lemma break_glass_token_works_witness :
  ∃ ctx, authenticate_request (toy_auth_env 4000) toy_auth (Some ($"Bearer tok1")) ($"post") ($"/admin/listeners/mysql/stop") ∅ =
      (Ok (Some ctx), ∅) ∧ subject ctx = $"break-glass".
Proof.
  destruct (break_glass_token_works (toy_auth_env 1000) (toy_auth_env 4000) toy_auth ($"letmein-now")
    (mkLogin ($"tok1") ($"Bearer") 3600 [$"operator"]) ($"post") ($"/admin/listeners/mysql/stop") ∅) as (ctx & Ha & Hs & _);
    [by vm_compute|by vm_compute|vm_compute; reflexivity|by vm_compute|vm_compute; reflexivity|vm_compute; reflexivity| |].
  - assert (required_permission ($"post") ($"/admin/listeners/mysql/stop") = Some ListenerControl) as -> by (vm_compute; reflexivity).
    intros p [= <-]. vm_compute. set_solver.
  - exists ctx. split; [exact Ha|exact Hs].
Defined.

Definition toy_jwk : JwkKey := mkJwk ($"RSA") (Some ($"k1")) None (Some ($"sig")) (Some ($"n")) (Some ($"e")).

Lemma signing_key_published_witness :
  ∃ k, decoding_key_for (H := {| jwt_encode := λ _ _, Err []; decode_header := λ _, Err []; jwt_decode := λ _ _ _ _, Err [];
         rsa_components := λ _ _, Ok tt; b64url_nopad_decode := Some; b64url_decode := Some; b64url_nopad_encode := λ s, s |})
      (mkAuthEnv 0 5 7 (λ _, Ok [toy_jwk])) ($"u") (Some ($"k1")) 300000 ∅ = (Ok (FromRsa ($"n") ($"e")), k) ∧
    ∃ entry, k !! ($"u") = Some entry ∧ fetched_at entry = 7.
Proof.
  set (lib := {| jwt_encode := _ |}).
  set (r := decoding_key_for _ _ _ _ _).
  destruct (signing_key_published (H := lib) (mkAuthEnv 0 5 7 (λ _, Ok [toy_jwk])) ($"u") (Some ($"k1")) 300000 ∅
    (FromRsa ($"n") ($"e")) r.2) as (_ & entry & doc & k & n & e & Hl & _ & Hage & _);
    [by intros ? ?|vm_compute; reflexivity|].
  exists r.2. split; [vm_compute; reflexivity|]. exists entry. split; [exact Hl|]. revert Hl. vm_compute. by intros [= <-].
Defined.

Lemma validated_auth_witness : (16 ≤ length (jwt_secret toy_auth))%nat ∧ (8 ≤ length (break_glass_password toy_auth))%nat.
Proof.
  destruct (validated_auth toy_auth) as (_ & Hs & Hp); [vm_compute; reflexivity|reflexivity|].
  split; [destruct Hs as [Hs|Hs]; [discriminate Hs|exact Hs]|apply Hp; reflexivity].
Defined.

(** ** Surprises *)

(** A misspelt break-glass role is the administrator's; a claim named [root], which
    no binding mentions, is too; a path with an escaped question mark needs no
    permission. *)
Example admin_auth_surprises :
  break_glass_role_parsed (mkAuthConfig true JwtHmac [] [] 300 [] [] 60 [] ∅ true ($"viewr") [] 60) = Admin ∧
  map_claim_values (mkAuthConfig true JwtHmac [] [] 300 [] [] 60 [] ∅ true [] [] 60) [$"root"] = [Admin] ∧
  required_permission ($"POST") ($"/admin/listeners/a/stop") = Some ListenerControl ∧
  required_permission ($"POST") ($"/admin/listeners/a?b/stop") = None ∧
  required_permission ($"PUT") ($"/admin/route-policies//") = None.
Proof. split_and!; vm_compute; reflexivity. Qed.

End AdminAuthTheorems.
