(* ===== verification/ConfigDiff.v ===== *)
(** * The configuration document and its differences

    [app/config/src/config.rs] (the document of a gateway and its loading) and the
    comparison of two documents in [http/src/http/mod.rs] ([GatewayConfigDiff]), on
    which a reload decides what to do.  The TOML parser is a parameter. *)

From S2P Require Import RuntimePlan Prelude RustStr Model TimeRules Security Translation GatewayConfig PdpStore AdminAuth.
Import AdminAuth.

Module ConfigDiff.

(** ** The document *)

(** [Admin] of [app/api/src/config.rs]. *)
Record AdminSection := mkAdminSection { admin_host : str; admin_port : Z; log_level : str }.

Record GatewayConfigDocument := mkDocument {
  admin : AdminSection;
  admin_auth : AdminAuthConfig;
  gateway : GatewayConfig;
  version : option str
}.

Inductive GatewayConfigLoadError :=
| LoadIo (message : str) | LoadParse (message : str) | LoadValidation (e : GatewayError) | LoadUnsupported (message : str).

Definition load_error_to_string (e : GatewayConfigLoadError) : str :=
  match e with
  | LoadIo m => $"failed to read gateway configuration: " ++ m
  | LoadParse m => $"invalid gateway configuration: " ++ m
  | LoadValidation e => $"invalid gateway configuration: " ++ PdpStore.error_to_string e
  | LoadUnsupported m => $"unsupported gateway configuration source: " ++ m
  end.

Section Load.
Context `{TimeRules.Chrono} (cedar_feature : bool) (toml_parse : str → result str GatewayConfigDocument).

Definition from_toml (input : str) : result GatewayConfigLoadError GatewayConfigDocument :=
  document ← map_err LoadParse (toml_parse input);
  _ ← map_err LoadValidation (validate_gateway cedar_feature (gateway document));
  _ ← map_err LoadValidation (AdminAuth.validate (admin_auth document));
  Ok document.

(** [GatewayConfigSource::load]: [contents] is what reading the file gives. *)
Definition load_source (contents : result str str) : result GatewayConfigLoadError GatewayConfigDocument :=
  text ← map_err LoadIo contents; from_toml text.
End Load.

(** ** Decidable equality of the sections *)

#[export] Instance ListenerConfig_eq_dec : EqDecision ListenerConfig.
Proof. solve_decision. Defined.
#[export] Instance ServiceConfig_eq_dec : EqDecision ServiceConfig.
Proof. solve_decision. Defined.
#[export] Instance EndpointConfig_eq_dec : EqDecision EndpointConfig.
Proof. solve_decision. Defined.
#[export] Instance RoutePolicyConfig_eq_dec : EqDecision RoutePolicyConfig.
Proof. solve_decision. Defined.
#[export] Instance AuthUserConfig_eq_dec : EqDecision AuthUserConfig.
Proof. solve_decision. Defined.
#[export] Instance AuthPolicyConfig_eq_dec : EqDecision AuthPolicyConfig.
Proof. solve_decision. Defined.
#[export] Instance PluginPolicyConfig_eq_dec : EqDecision PluginPolicyConfig.
Proof. solve_decision. Defined.
#[export] Instance AdminSection_eq_dec : EqDecision AdminSection.
Proof. solve_decision. Defined.

#[local] Existing Instance Security.SecurityPolicyConfig_eq_dec.

(** ** Differences of a section *)

Record NamedSectionDiff := mkSectionDiff { added : list str; removed : list str; changed : list str }.

Definition section_has_changes (d : NamedSectionDiff) : bool :=
  negb (is_empty (added d)) || negb (is_empty (removed d)) || negb (is_empty (changed d)).

(** The byte order of strings. *)
Fixpoint str_compare (a b : str) : comparison :=
  match a, b with
  | [], [] => Eq
  | [], _ => Lt
  | _, [] => Gt
  | x :: a, y :: b => match N.compare (N_of_ascii x) (N_of_ascii y) with Eq => str_compare a b | c => c end
  end.

(** A [BTreeMap] with string keys: its entries in the order of their keys. *)
Section BTree.
Context {A : Type}.

Fixpoint btree_insert (k : str) (v : A) (m : list (str * A)) : list (str * A) :=
  match m with
  | [] => [(k, v)]
  | (k', v') :: m' =>
      match str_compare k k' with
      | Lt => (k, v) :: m
      | Eq => (k', v) :: m'
      | Gt => (k', v') :: btree_insert k v m'
      end
  end.

Definition btree_get (k : str) (m : list (str * A)) : option A :=
  snd <$> List.find (λ x, str_eqb x.1 k) m.

(** [iter().map(|item| (name(item), item)).collect::<BTreeMap<_, _>>()]. *)
Definition btree_of (name : A → str) (l : list A) : list (str * A) :=
  foldl (λ m x, btree_insert (name x) x m) [] l.

Definition diff_named_section `{EqDecision A} (name : A → str) (current next : list A) : NamedSectionDiff :=
  let current := btree_of name current in
  let next := btree_of name next in
  mkSectionDiff
    (List.filter (λ k, is_none (btree_get k current)) next.*1)
    (List.filter (λ k, is_none (btree_get k next)) current.*1)
    (omap (λ x, match btree_get x.1 next with
                | Some y => if decide (x.2 = y) then None else Some x.1
                | None => None
                end) current).
End BTree.

(** ** Differences of a document *)

Record GatewayConfigDiff := mkDiff {
  admin_changed : bool;
  version_changed : bool;
  security_changed : bool;
  security_local_hot_reload : bool;
  requires_listener_rebuild : bool;
  d_listeners : NamedSectionDiff;
  d_services : NamedSectionDiff;
  d_endpoints : NamedSectionDiff;
  d_route_policies : NamedSectionDiff;
  d_auth_policies : NamedSectionDiff;
  d_plugin_policies : NamedSectionDiff
}.

(** A change of the security section that needs new listeners marks every listener
    that is not listed yet as changed. *)
Definition mark_listeners (names : list str) (d : NamedSectionDiff) : NamedSectionDiff :=
  foldl (λ d name,
    if one_of (added d) name || one_of (removed d) name || one_of (changed d) name then d
    else mkSectionDiff (added d) (removed d) (changed d ++ [name])) d names.

Definition between (current next : GatewayConfigDocument) : GatewayConfigDiff :=
  let c := gateway current in
  let n := gateway next in
  let security_changed := negb (bool_decide (security c = security n)) in
  let rebuild := security_changed && PdpStore.security_requires_listener_rebuild (security c) (security n) in
  let listeners := diff_named_section l_name (listeners c) (GatewayConfig.listeners n) in
  mkDiff
    (negb (bool_decide (admin current = admin next)))
    (negb (bool_decide (version current = version next)))
    security_changed (security_changed && negb rebuild) rebuild
    (if rebuild then mark_listeners (map l_name (GatewayConfig.listeners n)) listeners else listeners)
    (diff_named_section s_name (services c) (services n))
    (diff_named_section e_name (endpoints c) (endpoints n))
    (diff_named_section rp_name (route_policies c) (route_policies n))
    (diff_named_section ap_name (auth_policies c) (auth_policies n))
    (diff_named_section pp_name (plugin_policies c) (plugin_policies n)).

Definition has_changes (d : GatewayConfigDiff) : bool :=
  admin_changed d || version_changed d || security_changed d
  || section_has_changes (d_listeners d) || section_has_changes (d_services d) || section_has_changes (d_endpoints d)
  || section_has_changes (d_route_policies d) || section_has_changes (d_auth_policies d)
  || section_has_changes (d_plugin_policies d).

(** ** Facts *)

Lemma str_compare_eq a b : str_compare a b = Eq ↔ a = b.
Proof.
  revert b. induction a as [|x a IH]; intros [|y b]; simpl; try done.
  destruct (N.compare_spec (N_of_ascii x) (N_of_ascii y)) as [E|E|E].
  - rewrite IH. apply (f_equal ascii_of_N) in E. rewrite !ascii_N_embedding in E. subst. naive_solver.
  - split; [done|]. intros [= -> _]. lia.
  - split; [done|]. intros [= -> _]. lia.
Qed.

Section Facts.
Context {A : Type} (name : A → str).

Lemma get_cons k k' (v : A) m : btree_get k ((k', v) :: m) = if str_eqb k' k then Some v else btree_get k m.
Proof. unfold btree_get. simpl. by destruct (str_eqb k' k). Qed.

Lemma get_insert k k' (v : A) m : btree_get k (btree_insert k' v m) = if str_eqb k' k then Some v else btree_get k m.
Proof.
  induction m as [|[k2 v2] m IH]; simpl; [by rewrite get_cons|].
  destruct (str_compare k' k2) eqn:Ec; rewrite !get_cons; try done.
  - apply str_compare_eq in Ec as ->. by destruct (str_eqb k2 k).
  - rewrite IH. destruct (str_eqb k2 k) eqn:E2, (str_eqb k' k) eqn:E1; try done.
    apply str_eqb_eq in E1, E2. subst. by rewrite (proj2 (str_compare_eq k k) eq_refl) in Ec.
Qed.

(** The keys of a map built from distinct names are its names. *)
Lemma insert_perm k (v : A) m : k ∉ m.*1 → btree_insert k v m ≡ₚ (k, v) :: m.
Proof.
  induction m as [|[k2 v2] m IH]; simpl; [done|]. intros Hn. destruct (str_compare k k2) eqn:Ec; [|done|].
  - apply str_compare_eq in Ec as ->. set_solver.
  - rewrite IH by set_solver. constructor.
Qed.

Lemma btree_perm l : NoDup (name <$> l) → btree_of name l ≡ₚ (λ x, (name x, x)) <$> l.
Proof.
  unfold btree_of. induction l as [|x l IH] using rev_ind; [done|].
  rewrite fmap_app, foldl_app. simpl. intros Hnd. apply NoDup_app in Hnd as (Hnd & Hd & _).
  specialize (IH Hnd). rewrite insert_perm, IH.
  - rewrite fmap_app. simpl. by rewrite Permutation_app_comm.
  - rewrite IH. rewrite <-list_fmap_compose. change (fst ∘ _) with name. intros Hin. apply (Hd _ Hin). left.
Qed.

Lemma get_some k (m : list (str * A)) v : btree_get k m = Some v → (k, v) ∈ m.
Proof.
  unfold btree_get. destruct (List.find _ m) as [[k' v']|] eqn:E; [|done]. intros [= <-].
  apply List.find_some in E as [Hin Hk]. apply str_eqb_eq in Hk. simpl in *. subst. by apply list_elem_of_In.
Qed.

Lemma get_none k (m : list (str * A)) : btree_get k m = None ↔ k ∉ m.*1.
Proof.
  induction m as [|[k' v] m IH]; [split; [set_solver|done]|]. rewrite get_cons. simpl.
  destruct (str_eqb k' k) eqn:E; [apply str_eqb_eq in E as ->; set_solver|].
  apply str_eqb_neq in E. rewrite IH. set_solver.
Qed.

Lemma get_unique k (m : list (str * A)) v : NoDup m.*1 → (k, v) ∈ m → btree_get k m = Some v.
Proof.
  induction m as [|[k' v'] m IH]; [set_solver|]. simpl. intros [Hn Hnd]%NoDup_cons Hin. rewrite get_cons.
  apply elem_of_cons in Hin as [[= -> ->]|Hin]; [by rewrite str_eqb_refl|].
  destruct (str_eqb k' k) eqn:E; [|by apply IH]. apply str_eqb_eq in E as ->. destruct Hn. apply list_elem_of_fmap. by exists (k, v).
Qed.
End Facts.

(** ** What a difference means *)

Section Meaning.
Context {A : Type} `{EqDecision A} (name : A → str).

Lemma btree_nodup l : NoDup (name <$> l) → NoDup (btree_of name l).*1.
Proof. intros Hl. rewrite btree_perm by done. by rewrite <-list_fmap_compose. Qed.

Lemma btree_elem l k x : NoDup (name <$> l) → (k, x) ∈ btree_of name l ↔ x ∈ l ∧ name x = k.
Proof.
  intros Hl. rewrite btree_perm, list_elem_of_fmap by done. split.
  - intros (y & [= -> ->] & ?). done.
  - intros [? <-]. by exists x.
Qed.

Lemma btree_lookup l x : NoDup (name <$> l) → x ∈ l → btree_get (name x) (btree_of name l) = Some x.
Proof. intros Hl Hx. apply get_unique; [by apply btree_nodup|]. by apply btree_elem. Qed.

Lemma btree_keys l k : NoDup (name <$> l) → k ∈ (btree_of name l).*1 ↔ k ∈ name <$> l.
Proof. intros Hl. rewrite (btree_perm name l Hl). by rewrite <-list_fmap_compose. Qed.

Lemma btree_missing l k : NoDup (name <$> l) → btree_get k (btree_of name l) = None ↔ k ∉ name <$> l.
Proof. intros Hl. rewrite <-(btree_keys l k Hl). apply (get_none name). Qed.

(** A section differs exactly in the items listed. *)
Lemma diff_section_spec current next k : NoDup (name <$> current) → NoDup (name <$> next) →
  let d := diff_named_section name current next in
  (k ∈ added d ↔ k ∈ (name <$> next) ∧ k ∉ (name <$> current)) ∧
  (k ∈ removed d ↔ k ∈ (name <$> current) ∧ k ∉ (name <$> next)) ∧
  (k ∈ changed d ↔ ∃ x y, x ∈ current ∧ y ∈ next ∧ name x = k ∧ name y = k ∧ x ≠ y).
Proof.
  intros Hc Hn. assert (∀ l : list A, NoDup (name <$> l) → ∀ k, is_none (btree_get k (btree_of name l)) = true ↔ k ∉ name <$> l) as Hg.
  { intros l Hl k'. rewrite <-btree_missing by done. by destruct (btree_get _ _). }
  simpl. split_and!.
  - rewrite list_elem_of_In, filter_In, <-list_elem_of_In, btree_keys, Hg by done. done.
  - rewrite list_elem_of_In, filter_In, <-list_elem_of_In, btree_keys, Hg by done. done.
  - rewrite list_elem_of_omap. split.
    + intros ([k' x] & Hx & E). apply btree_elem in Hx as [Hx Hkx]; [|done]. simpl in E.
      destruct (btree_get k' (btree_of name next)) as [y|] eqn:Ey; [|done]. destruct (decide (x = y)); [done|].
      injection E as <-. apply get_some, btree_elem in Ey as [? ?]; [|done]. by exists x, y.
    + intros (x & y & Hx & Hy & <- & Hny & Hne). exists (name x, x). split; [by apply btree_elem|]. simpl.
      rewrite <-Hny, btree_lookup by done. by rewrite decide_False.
Qed.

Lemma section_unchanged d : section_has_changes d = false ↔ (∀ k, (k ∉ added d) ∧ (k ∉ removed d) ∧ (k ∉ changed d)).
Proof.
  unfold section_has_changes. destruct d as [a r c]; simpl. split; [destruct a, r, c; set_solver|]. intros Hx.
  rewrite (elem_of_nil_inv a), (elem_of_nil_inv r), (elem_of_nil_inv c); [done|intros k; apply (Hx k)..].
Qed.

(** Nothing is listed exactly when the sections have the same items, in any order. *)
Lemma no_section_change current next : NoDup (name <$> current) → NoDup (name <$> next) →
  section_has_changes (diff_named_section name current next) = false ↔ current ≡ₚ next.
Proof.
  intros Hc Hn. pose proof (λ k, diff_section_spec current next k Hc Hn) as Hs. simpl in Hs.
  rewrite section_unchanged.
  split.
  - intros Hx. apply NoDup_Permutation; [by eapply NoDup_fmap_1|by eapply NoDup_fmap_1|]. intros x.
    assert (∀ (l1 l2 : list A), NoDup (name <$> l2) → name x ∈ name <$> l2 → x ∈ l1 → (∀ a b, a ∈ l1 → b ∈ l2 → name a = name b → a = b) → x ∈ l2) as Hsame.
    { intros l1 l2 _ Hin Hx1 He. apply list_elem_of_fmap in Hin as (y & Hxy & Hy). by rewrite (He x y). }
    assert (∀ a b, a ∈ current → b ∈ next → name a = name b → a = b) as Heq.
    { intros a b Ha Hb E. destruct (decide (a = b)); [done|]. destruct (Hx (name a)) as (_ & _ & Hch). destruct Hch.
      apply Hs. by exists a, b. }
    split; intros Hin.
    + apply (Hsame current next); try done. destruct (Hx (name x)) as (_ & Hr & _). rewrite (proj1 (proj2 (Hs (name x)))) in Hr.
      destruct (decide (name x ∈ name <$> next)); [done|]. destruct Hr. split; [|done]. apply list_elem_of_fmap. eauto.
    + apply (Hsame next current); try done.
      * destruct (Hx (name x)) as (Ha & _ & _). rewrite (proj1 (Hs (name x))) in Ha.
        destruct (decide (name x ∈ name <$> current)); [done|]. destruct Ha. split; [|done]. apply list_elem_of_fmap. eauto.
      * intros a b Ha Hb E. by symmetry; apply Heq.
  - intros Hp k. destruct (Hs k) as (-> & -> & ->). rewrite Hp. split_and!; [naive_solver..|].
    intros (x & y & Hx & Hy & Hkx & Hky & Hne). rewrite Hp in Hx. destruct Hne.
    rewrite <-Hkx in Hky. clear -Hn Hx Hy Hky. induction next as [|z l IH]; [set_solver|].
    rewrite fmap_cons in Hn. apply NoDup_cons in Hn as [Hz Hn].
    apply elem_of_cons in Hx as [->|Hx], Hy as [->|Hy]; [done|..|by apply IH]; destruct Hz; apply list_elem_of_fmap; eauto.
Qed.
End Meaning.

(** ** What a validated document promises *)

Lemma unique_loop_ok kind names : ∀ seen, unique_loop kind seen names = Ok tt → NoDup names ∧ ∀ n, n ∈ names → n ∉ seen.
Proof.
  induction names as [|n names IH]; intros seen Hu; [split; [constructor|set_solver]|]. cbn [unique_loop] in Hu.
  rewrite !seq_ok, require_ok in Hu. destruct Hu as (_ & Hn & Hu). apply IH in Hu as [Hnd Hout].
  assert (n ∉ seen) as Hns.
  { intros Hin. apply negb_true_iff in Hn. assert (existsb (str_eqb n) seen = true) as Hex; [|congruence].
    apply existsb_exists. exists n. split; [by apply list_elem_of_In|apply str_eqb_refl]. }
  split; [constructor; [|done]; intros Hin; apply (Hout n Hin); left|]. set_solver.
Qed.

Lemma unique_ok kind names : validate_unique kind names = Ok tt → NoDup names.
Proof. intros Hu. by apply (unique_loop_ok kind names []). Qed.

Record unique_names (c : GatewayConfig) : Prop := {
  unique_listeners : NoDup (l_name <$> listeners c);
  unique_services : NoDup (s_name <$> services c);
  unique_endpoints : NoDup (e_name <$> endpoints c);
  unique_routes : NoDup (rp_name <$> route_policies c);
  unique_auths : NoDup (ap_name <$> auth_policies c);
  unique_plugins : NoDup (pp_name <$> plugin_policies c)
}.

Lemma validated_names `{TimeRules.Chrono} cedar c : validate_gateway cedar c = Ok tt → unique_names c.
Proof.
  unfold validate_gateway. rewrite !seq_ok. intros (_ & _ & _ & Hl & Hs & He & Hr & Ha & Hp & _).
  split; by eapply unique_ok.
Qed.

(** Between two validated documents the reload finds no difference exactly when
    the administration section, the version and the security section are equal and
    each of the six named sections has the same items, in any order. *)
Theorem unchanged_reload `{TimeRules.Chrono} cedar current next :
  validate_gateway cedar (gateway current) = Ok tt → validate_gateway cedar (gateway next) = Ok tt →
  has_changes (between current next) = false ↔
  admin current = admin next ∧ version current = version next ∧ security (gateway current) = security (gateway next) ∧
  listeners (gateway current) ≡ₚ listeners (gateway next) ∧ services (gateway current) ≡ₚ services (gateway next) ∧
  endpoints (gateway current) ≡ₚ endpoints (gateway next) ∧ route_policies (gateway current) ≡ₚ route_policies (gateway next) ∧
  auth_policies (gateway current) ≡ₚ auth_policies (gateway next) ∧
  plugin_policies (gateway current) ≡ₚ plugin_policies (gateway next).
Proof.
  intros [? ? ? ? ? ?]%validated_names [? ? ? ? ? ?]%validated_names. unfold has_changes, between.
  cbn [admin_changed version_changed security_changed d_listeners d_services d_endpoints d_route_policies d_auth_policies d_plugin_policies].
  rewrite !orb_false_iff, !negb_false_iff, !bool_decide_eq_true, !no_section_change by done.
  destruct (decide (security (gateway current) = security (gateway next))) as [E|E]; [|naive_solver].
  rewrite (bool_decide_eq_true_2 _ E). cbn [negb andb]. rewrite no_section_change by done. naive_solver.
Qed.

Definition toy_document (l : list EndpointConfig) : GatewayConfigDocument :=
  let g := shop ($"drop") in
  mkDocument (mkAdminSection ($"0.0.0.0") 8082 ($"info")) default_auth_config
    (mkGateway (listeners g) (services g) l (route_policies g) (auth_policies g) (plugin_policies g) (translation_policies g)
       (security g)) (Some ($"2")).

Lemma unchanged_reload_witness :
  has_changes (between (toy_document shop_pair) (toy_document (reverse shop_pair))) = false ∧
  has_changes (between (toy_document shop_pair) (toy_document [node "replica" RoleRead 1; node "primary" RoleReadWrite 5])) = true.
Proof.
  split; [|by vm_compute]. refine (proj2 (@unchanged_reload TimeRules.toy_chrono false (toy_document shop_pair) (toy_document (reverse shop_pair)) _ _) _); [by vm_compute|by vm_compute|].
  split_and!; try reflexivity. simpl. rewrite reverse_Permutation. done.
Defined.

(** A reload whose only change is the authentication of administrators (here a new
    signing secret) is reported as no change and not applied. *)
Definition rotate (secret : str) (d : GatewayConfigDocument) : GatewayConfigDocument :=
  let a := admin_auth d in
  mkDocument (admin d)
    (mkAuthConfig (enabled a) (mode a) secret (jwks_url a) (jwks_cache_secs a) (issuer a) (audience a) (leeway_secs a)
       (role_claim_paths a) (role_bindings a) (public_metrics a) (break_glass_role a) (break_glass_password a) (token_ttl_secs a))
    (gateway d) (version d).

Lemma rotation_unnoticed d secret : has_changes (between d (rotate secret d)) = has_changes (between d d).
Proof. done. Qed.

End ConfigDiff.
