(* ===== verification/Runtime.v ===== *)
(** * The process: shared stores, runtime plans and running listeners

    What the parts of one gateway process share and how a listener comes to run:
    the process-wide stores (tickets, vault, policy decision point, audit pipeline)
    and their installation by [CoreGatewayRuntimePlan::from_config]
    ([runtime/gateway/src/core_engine.rs]); [GatewayRuntime], its pool controls and
    the session registry ([runtime/gateway/src/gateway.rs]); the factory
    ([app/server/src/server.rs], [proxy/src/factory.rs]) and the start of the process
    ([cmd/pisa/src/main.rs]).

    A [ShutdownHandle] is a shared cancellation token, and the controls of a runtime
    are closures over its shared pool and registry: every runtime that is built gets
    a number, and handles and controls are such numbers.  The files of tickets and
    vault are one map from paths to contents, the policy file is on a disk of its
    own with modification times. *)

From S2P Require Import ConnPool AuditEvents AuditIndex AuditPipeline Prelude RustStr Model Session TimeRules StateCrypto Ticket Vault Obligations ObjectSet Security Translation LoadBalance Plugin Pdp PdpStore GatewayConfig RuntimePlan AdminAuth ConfigDiff.
Import ConfigDiff.

Module Runtime.

(** ** Session registry *)

Record SessionEntrySnapshot := mkSessionEntry {
  se_id : Z;
  se_listener : str;
  se_peer_addr : option str;
  se_frontend_protocol : str;
  se_database : option str
}.

Record SessionRegistry := mkRegistry { next_id : Z; sessions : gmap Z SessionEntrySnapshot }.

Definition new_registry : SessionRegistry := mkRegistry 0 ∅.

(** The counter is a [u64]; the result is the registration that removes the entry
    when it is dropped. *)
Definition register (e : SessionEntrySnapshot) (r : SessionRegistry) : Z * SessionRegistry :=
  let sid := u64_wrap (next_id r + 1) in
  (sid, mkRegistry sid
     (<[sid := mkSessionEntry sid (se_listener e) (se_peer_addr e) (se_frontend_protocol e) (se_database e)]> (sessions r))).

Definition remove_session (sid : Z) (r : SessionRegistry) : SessionRegistry := mkRegistry (next_id r) (delete sid (sessions r)).

(** The values of the [BTreeMap], in the order of the keys. *)
Fixpoint insert_entry (e : SessionEntrySnapshot) (l : list SessionEntrySnapshot) : list SessionEntrySnapshot :=
  match l with
  | [] => [e]
  | f :: l' => if se_id e <=? se_id f then e :: l else f :: insert_entry e l'
  end.
Definition registry_snapshot (r : SessionRegistry) : list SessionEntrySnapshot :=
  foldr insert_entry [] (map_to_list (sessions r)).*2.

(** ** Controls of a pool *)

Record PoolEndpointSnapshot := mkPoolEndpoint {
  ps_endpoint : str; ps_configured : bool; ps_factory_registered : bool; ps_idle_connections : nat; ps_capacity : nat
}.
Record PoolSnapshot := mkPoolSnapshot { psn_capacity : nat; psn_endpoints : list PoolEndpointSnapshot }.
Record PoolEndpointRefresh := mkPoolRefresh {
  pr_endpoint : str; pr_configured : bool; pr_factory_registered : bool; pr_idle_connections_closed : nat;
  pr_remaining_idle_connections : nat; pr_capacity : nat
}.

(** [sort] and [dedup] of strings. *)
Fixpoint insert_str (x : str) (l : list str) : list str :=
  match l with
  | [] => [x]
  | y :: l' => match str_compare x y with Gt => y :: insert_str x l' | _ => x :: l end
  end.
Definition sort_strs (l : list str) : list str := foldr insert_str [] l.
Fixpoint dedup (l : list str) : list str :=
  match l with
  | x :: (y :: _) as l' => if str_eqb x y then dedup l' else x :: dedup l'
  | _ => l
  end.

Section Controls.
Context {T : Type}.

Definition known_pool_endpoints (p : Pool T) (configured : list str) : list str :=
  dedup (sort_strs (configured ++ factory_endpoints p ++ pooled_endpoints p)).

Definition build_pool_snapshot (p : Pool T) (configured : list str) : PoolSnapshot :=
  mkPoolSnapshot (ConnPool.capacity p)
    (map (λ e, mkPoolEndpoint e (one_of configured e) (has_factory e p) (ConnPool.len e p) (ConnPool.capacity p))
       (known_pool_endpoints p configured)).

Definition refresh_known (configured : list str) (acc : list PoolEndpointRefresh * Pool T) (e : str)
    : list PoolEndpointRefresh * Pool T :=
  let '(closed, p) := refresh_endpoint e acc.2 in
  (acc.1 ++ [mkPoolRefresh e (one_of configured e) (has_factory e p) closed (ConnPool.len e p) (ConnPool.capacity p)], p).

Definition refresh_pool (p : Pool T) (configured : list str) : list PoolEndpointRefresh * Pool T :=
  foldl (refresh_known configured) ([], p) (known_pool_endpoints p configured).
End Controls.

Definition DEFAULT_CORE_POOL_SIZE : nat := 64.

(** ** The stores of the process *)

Record Stores := mkStores {
  ticket_store : option Ticket.TicketStore;
  vault_store : option Vault.VaultStore;
  files : gmap str str;
  pdp_store : PdpStore.LocalPdpStore;
  policy_disk : PdpStore.Disk;
  audit_pipe : option AuditPipeline
}.

Definition set_audit (p : option AuditPipeline) (s : Stores) : Stores :=
  mkStores (ticket_store s) (vault_store s) (files s) (pdp_store s) (policy_disk s) p.
Definition set_pdp (p : PdpStore.LocalPdpStore) (d : PdpStore.Disk) (s : Stores) : Stores :=
  mkStores (ticket_store s) (vault_store s) (files s) p d (audit_pipe s).

Definition write_file (path content : option str) (m : gmap str str) : gmap str str :=
  match path, content with Some p, Some d => <[p := d]> m | _, _ => m end.

(** [global_ticket_store()] and [global_vault_store()] with the file they are bound to. *)
Definition ticket_world (s : Stores) : Ticket.World :=
  let t := default Ticket.new_store (ticket_store s) in Ticket.mkWorld t (Ticket.path t ≫= λ p, files s !! p).
Definition vault_world (s : Stores) : Vault.VaultWorld :=
  let v := default Vault.new_vault (vault_store s) in Vault.mkVaultWorld v (Vault.vault_path v ≫= λ p, files s !! p).

Definition put_tickets (w : Ticket.World) (s : Stores) : Stores :=
  mkStores (Some (Ticket.store w)) (vault_store s) (write_file (Ticket.path (Ticket.store w)) (Ticket.disk w) (files s))
    (pdp_store s) (policy_disk s) (audit_pipe s).
Definition put_vault (w : Vault.VaultWorld) (s : Stores) : Stores :=
  mkStores (ticket_store s) (Some (Vault.vault w))
    (write_file (Vault.vault_path (Vault.vault w)) (Vault.vault_disk w) (files s)) (pdp_store s) (policy_disk s) (audit_pipe s).

(** The readings of the clocks and files while a plan is built. *)
Record BuildEnv := mkBuildEnv {
  be_tickets : Ticket.Env;
  be_vault : Vault.Env;
  be_index : str → option AuditIndex;
  be_policy : nat → PdpStore.FsEnv;
  be_nanos : nat → Z * Z
}.

Section Process.
Context `{TimeRules.Chrono, StateCrypto.Crypto, Ticket.TicketJson, Vault.VaultJson, PdpStore.CedarLoader, PdpStore.PolicyJson}.
Context {R : Type} `{LoadBalance.Rng R} (dialect_of : ProtocolKind → DialectParser).
Context {T : Type}.

Definition install_audit_pipeline (open : str → option AuditIndex) (c : Security.SecurityAuditConfig) (level : str) (s : Stores)
    : Stores :=
  set_audit (Some match audit_pipe s with
                  | Some p => reconfigure open c level p
                  | None => new_pipeline open c level
                  end) s.

(** An error is logged and leaves the installed store as it is. *)
Definition install_tickets (env : Ticket.Env) (c : Security.SecurityStateConfig) (s : Stores) : Stores :=
  match Ticket.install_ticket_store env (ticket_store s) (Security.state_backend c) (Security.ticket_path c)
          (Security.ticket_encrypt_key c) (files s !! Security.ticket_path c) with
  | Ok w => put_tickets w s
  | Err _ => s
  end.
Definition install_vault (env : Vault.Env) (c : Security.SecurityStateConfig) (s : Stores) : Stores :=
  match Vault.install_vault_store env (vault_store s) (Security.state_backend c) (Security.vault_path c)
          (Security.vault_encrypt_key c) (files s !! Security.vault_path c) with
  | Ok w => put_vault w s
  | Err _ => s
  end.

(** [LocalPdp::from_config]. *)
Definition install_pdp (env : PdpStore.FsEnv) (c : Security.SecurityPolicyConfig) (s : Stores) : Stores :=
  match PdpStore.install_local_pdp env c (policy_disk s) (pdp_store s) with
  | Some (p, d) => set_pdp p d s
  | None => s
  end.

(** The plans are built one after the other until one fails; each installs the
    policy of the document. *)
Fixpoint build_plans (env : BuildEnv) (i : nat) (c : GatewayConfig) (ls : list ListenerConfig) (s : Stores)
    : GatewayResult (list (CoreGatewayListenerPlan R)) * Stores :=
  match ls with
  | [] => (Ok [], s)
  | l :: ls =>
      match listener_from_config dialect_of (be_nanos env i).1 (be_nanos env i).2 c l with
      | Err e => (Err e, s)
      | Ok plan =>
          let '(r, s') := build_plans env (S i) c ls (install_pdp (be_policy env i) (security c) s) in
          (plans ← r; Ok (plan :: plans), s')
      end
  end.

Definition plan_from_config (env : BuildEnv) (c : GatewayConfig) (s : Stores)
    : GatewayResult (list (CoreGatewayListenerPlan R)) * Stores :=
  match validate_gateway PdpStore.cedar_feature c with
  | Err e => (Err e, s)
  | Ok _ =>
      let sec := security c in
      let s := install_audit_pipeline (be_index env) (Security.audit sec) (Security.default_audit_level sec) s in
      let s := install_tickets (be_tickets env) (Security.state sec) s in
      let s := install_vault (be_vault env) (Security.state sec) s in
      build_plans env 0 c (listeners c) s
  end.

Definition plan_listener (plans : list (CoreGatewayListenerPlan R)) (name : str) : option (CoreGatewayListenerPlan R) :=
  List.find (λ p, str_eqb (l_name (pl_listener p)) name) plans.

(** ** A runtime *)

Record GatewayRuntime := mkRuntime {
  pisa_version : str;
  core_plan : list (CoreGatewayListenerPlan R);
  rt_listener : str;
  rt_pool : Pool T;
  rt_sessions : SessionRegistry
}.

Definition from_core_config_for_listener (env : BuildEnv) (c : GatewayConfig) (name : str) (s : Stores)
    : GatewayResult GatewayRuntime * Stores :=
  match plan_from_config env c s with
  | (Err e, s) => (Err e, s)
  | (Ok plans, s) =>
      if is_none (plan_listener plans name)
      then (Err (Configuration ($"gateway config has no listener '" ++ name ++ $"'")), s)
      else (Ok (mkRuntime [] plans name (new_pool DEFAULT_CORE_POOL_SIZE) new_registry), s)
  end.

Definition core_listener_plan (g : GatewayRuntime) : option (CoreGatewayListenerPlan R) :=
  match plan_listener (core_plan g) (rt_listener g) with Some p => Some p | None => head (core_plan g) end.

Definition configured_endpoint_addresses (g : GatewayRuntime) : list str :=
  match core_listener_plan g with Some p => map e_address (pl_endpoints p) | None => [] end.

(** [GatewayFactory::build_native_proxy_instance]; errors are strings. *)
Definition build_native_proxy_instance (env : BuildEnv) (doc : GatewayConfigDocument) (name : str) (s : Stores)
    : result str GatewayRuntime * Stores :=
  let '(r, s) := from_core_config_for_listener env (gateway doc) name s in
  (match r with
   | Ok g => Ok (mkRuntime (default ($"2") (version doc)) (core_plan g) (rt_listener g) (rt_pool g) (rt_sessions g))
   | Err e => Err (PdpStore.error_to_string e)
   end, s).

Definition try_build_proxy_for_listener (env : BuildEnv) (doc : GatewayConfigDocument) (name : str) (s : Stores)
    : result str GatewayRuntime * Stores :=
  match List.find (λ l, str_eqb (l_name l) name) (listeners (gateway doc)) with
  | None => (Err ($"listener '" ++ name ++ $"' is not defined"), s)
  | Some l => build_native_proxy_instance env doc (l_name l) s
  end.

Fixpoint build_instances (env : nat → BuildEnv) (i : nat) (doc : GatewayConfigDocument) (ls : list ListenerConfig) (s : Stores)
    : result str (list GatewayRuntime) * Stores :=
  match ls with
  | [] => (Ok [], s)
  | l :: ls =>
      match build_native_proxy_instance (env i) doc (l_name l) s with
      | (Err e, s) => (Err e, s)
      | (Ok g, s) => let '(r, s) := build_instances env (S i) doc ls s in (gs ← r; Ok (g :: gs), s)
      end
  end.

Definition try_build_proxies (env : nat → BuildEnv) (doc : GatewayConfigDocument) (s : Stores)
    : result str (list GatewayRuntime) * Stores :=
  if is_empty (listeners (gateway doc)) then (Err ($"gateway config has no listeners"), s)
  else build_instances env 0 doc (listeners (gateway doc)) s.
End Process.




#[global] Arguments GatewayRuntime R T : clear implicits.

End Runtime.
