(* ===== verification/AdminApi.v ===== *)
(** * The administration interface

    The handlers of [http/src/http/mod.rs] ([AxumServer]) over the state of the
    process: the configuration document, the registered listeners, and the stores of
    [Runtime.v].  Every handler is one function from a request, the readings of its
    environment and the process to a response and a process; requests are handled one
    at a time (each lock is taken and given back within a handler; the one handler
    that reads the document and writes it later, the reload, is split where it does).

    JSON is a parameter of the transport: the body of a response is the value that is
    serialized.  The routes of the Cedar store, of the metrics text and of the
    dashboard page are not modelled; the portal is in [Portal.v]. *)

From S2P Require Import ConnPool AuditEvents AuditIndex AuditPipeline Prelude RustStr Model Session TimeRules StateCrypto Ticket Vault Obligations ObjectSet Security Translation LoadBalance Plugin Pdp PdpStore GatewayConfig RuntimePlan AdminAuth ConfigDiff Runtime.
Import ConfigDiff Runtime.

Module AdminApi.

(** ** State *)

Record AdminRuntimeState := mkRuntimeState {
  shutdown_handles : gmap str nat;
  pool_snapshotters : gmap str nat;
  pool_refreshers : gmap str nat;
  session_snapshotters : gmap str nat
}.

(** A line of [audit_admin_write]. *)
Record AdminWriteLine := mkAdminWrite {
  aw_subject : str; aw_auth_method : str; aw_method : str; aw_path : str; aw_outcome : str; aw_resource : option str
}.

Record Process (R T : Type) := mkProcess {
  gateway_config : option GatewayConfigDocument;
  config_source : option str;
  runtime_state : option AdminRuntimeState;
  stores : Stores;
  runtimes : gmap nat (GatewayRuntime R T);
  next_runtime : nat;
  cancelled : gset nat;
  spawned : list nat;
  jwks_cache : gmap str AdminAuth.CacheEntry;
  admin_log : list AdminWriteLine
}.
#[global] Arguments mkProcess {R T}.
#[global] Arguments gateway_config {R T}.
#[global] Arguments config_source {R T}.
#[global] Arguments runtime_state {R T}.
#[global] Arguments stores {R T}.
#[global] Arguments runtimes {R T}.
#[global] Arguments next_runtime {R T}.
#[global] Arguments cancelled {R T}.
#[global] Arguments spawned {R T}.
#[global] Arguments jwks_cache {R T}.
#[global] Arguments admin_log {R T}.

(** The readings of one request. *)
Record ReqEnv := mkReqEnv {
  re_auth : AdminAuth.AuthEnv;
  re_tickets : Ticket.Env;
  re_vault : Vault.Env;
  re_send : SendEnv;
  re_index_ok : bool;
  re_build : nat → BuildEnv;
  re_install : BuildEnv;
  re_source : result str str
}.

(** ** Requests and responses *)

Record RejectTicketRequest := mkRejectRequest { rr_rejected_by : option str; rr_reason : option str }.

(** One constructor per route; [option] bodies may be missing. *)
Inductive Request :=
| GetConfig | GetListeners | GetServices | GetEndpoints
| GetAuditEvents (f : AuditQueryFilter) (limit : option Z) | GetAuditStats
| ListTickets (limit : option Z)
| IssueTicket (body : Ticket.IssueTicketRequest)
| ApproveTicket (tid : str) (approved_by : option (option str))
| RejectTicket (tid : str) (body : option RejectTicketRequest)
| RevokeTicket (tid : str) (body : option RejectTicketRequest)
| PruneTickets
| ListProjects | ListVaultLeases
| IssueVaultLease (body : Vault.IssueVaultLeaseRequest)
| RevokeVaultLease (lid : str) (revoked_by : option (option str))
| RenewVaultLease (lid : str) (ttl_secs : option Z)
| PruneVaultLeases
| AddListener (listener : ListenerConfig)
| ReplaceRoutePolicy (name : str) (policy : RoutePolicyConfig)
| GetPools | RefreshPools | RefreshPool (name : str) | GetSessions
| Reload
| StopListener (name : str)
| Me | AuthConfig | Login (password : str).

Definition method_of (r : Request) : str :=
  match r with
  | GetConfig | GetListeners | GetServices | GetEndpoints | GetAuditEvents _ _ | GetAuditStats | ListTickets _
  | ListProjects | ListVaultLeases | GetPools | GetSessions | Me | AuthConfig => $"GET"
  | ReplaceRoutePolicy _ _ => $"PUT"
  | _ => $"POST"
  end.

(** The path each handler passes to [authorize]. *)
Definition path_of_request (r : Request) : str :=
  match r with
  | GetConfig => $"/admin/config"
  | GetListeners | AddListener _ => $"/admin/listeners"
  | GetServices => $"/admin/services"
  | GetEndpoints => $"/admin/endpoints"
  | GetAuditEvents _ _ => $"/admin/audit/events"
  | GetAuditStats => $"/admin/audit/stats"
  | ListTickets _ | IssueTicket _ => $"/admin/tickets"
  | ApproveTicket tid _ => $"/admin/tickets/" ++ tid ++ $"/approve"
  | RejectTicket tid _ => $"/admin/tickets/" ++ tid ++ $"/reject"
  | RevokeTicket tid _ => $"/admin/tickets/" ++ tid ++ $"/revoke"
  | PruneTickets => $"/admin/tickets/prune"
  | ListProjects => $"/admin/projects"
  | ListVaultLeases | IssueVaultLease _ => $"/admin/vault/leases"
  | RevokeVaultLease lid _ => $"/admin/vault/leases/" ++ lid ++ $"/revoke"
  | RenewVaultLease lid _ => $"/admin/vault/leases/" ++ lid ++ $"/renew"
  | PruneVaultLeases => $"/admin/vault/leases/prune"
  | ReplaceRoutePolicy name _ => $"/admin/route-policies/" ++ name
  | GetPools => $"/admin/pools"
  | RefreshPools => $"/admin/pools/refresh"
  | RefreshPool name => $"/admin/pools/" ++ name ++ $"/refresh"
  | GetSessions => $"/admin/sessions"
  | Reload => $"/admin/reload"
  | StopListener name => $"/admin/listeners/" ++ name ++ $"/stop"
  | Me => $"/admin/me"
  | AuthConfig => $"/admin/auth/config"
  | Login _ => $"/admin/auth/login"
  end.

Record ReloadResponse := mkReload {
  rl_status : str; rl_source : str; rl_applied : bool; rl_changed : bool; rl_diff : GatewayConfigDiff
}.

Record AuditPipelineStats := mkStats {
  st_accepted : Z; st_written : Z; st_dropped : Z; st_queue_capacity : Z; st_priority_queue_capacity : Z;
  st_priority_accepted : Z; st_priority_dropped : Z; st_queue_len : Z; st_priority_queue_len : Z; st_recent_len : Z;
  st_rotated : Z; st_pruned : Z; st_index : option (Z * Z * Z * Z)
}.

Record AdminAuthPublicConfig := mkPublicConfig {
  pub_enabled : bool; pub_mode : str; pub_public_metrics : bool; pub_break_glass_login : bool
}.

(** [BPisaConfig] is the legacy document, shown when there is no gateway document. *)
Inductive Body :=
| BText (message : str)
| BPisaConfig
| BError (error message : str)
| BDocument (d : GatewayConfigDocument)
| BListeners (l : list ListenerConfig)
| BServices (l : list ServiceConfig)
| BEndpoints (l : list EndpointConfig)
| BEvents (l : list AuditEvent) (s : option AuditPipelineStats) (source note : option str)
| BStats (s : option AuditPipelineStats)
| BTicket (t : Ticket.Ticket) | BTickets (l : list Ticket.Ticket)
| BProjects (l : list Vault.ProjectEnv)
| BLease (l : Vault.VaultLease) | BLeases (l : list Vault.VaultLease)
| BRemoved (n : Z)
| BAdded (status name listen_addr : str)
| BPolicy (status name kind : str)
| BPools (l : list (str * PoolSnapshot))
| BRefreshes (l : list (str * list PoolEndpointRefresh))
| BRefresh (name : str) (l : list PoolEndpointRefresh)
| BSessions (l : list SessionEntrySnapshot)
| BReload (r : ReloadResponse)
| BStopped (name : str) (shutdown_requested : bool)
| BMe (m : AdminAuth.AdminMeResponse)
| BAuth (c : AdminAuthPublicConfig)
| BLogin (l : AdminAuth.AdminLoginResponse).

Record Response := mkResponse { resp_status : Z; resp_body : Body }.

Definition json_response (b : Body) : Response := mkResponse 200 b.
Definition admin_json_error (code : Z) (error message : str) : Response := mkResponse code (BError error message).
Definition gateway_config_not_available : Response := mkResponse 404 (BText ($"gateway config is not available")).
Definition admin_runtime_not_found (message : str) : Response := mkResponse 404 (BText message).
Definition admin_runtime_unavailable (message : str) : Response :=
  admin_json_error 503 ($"admin runtime unavailable") message.
Definition admin_auth_error_response (e : AdminAuth.AdminAuthError) : Response :=
  admin_json_error (AdminAuth.error_status e) (AdminAuth.error_code e) (AdminAuth.error_message e).
Definition gateway_config_load_error (e : GatewayConfigLoadError) : Response :=
  admin_json_error (match e with LoadIo _ => 500 | LoadParse _ | LoadValidation _ => 400 | LoadUnsupported _ => 501 end)
    ($"gateway config reload failed") (load_error_to_string e).

Definition public_auth_config (c : AdminAuth.AdminAuthConfig) : AdminAuthPublicConfig :=
  mkPublicConfig (AdminAuth.enabled c)
    (match AdminAuth.mode c with
     | AdminAuth.ModeNone => $"none" | AdminAuth.JwtHmac => $"jwt_hmac" | AdminAuth.JwtJwks => $"jwt_jwks"
     end) (AdminAuth.public_metrics c) (AdminAuth.break_glass_enabled c).

(** [AuditPipeline::stats]. *)
Definition pipeline_stats (p : AuditPipeline) : AuditPipelineStats :=
  mkStats (accepted p) (written p) (dropped p) (AuditPipeline.capacity p) (priority_capacity p) (priority_accepted p)
    (priority_dropped p) (Z.of_nat (length (queue (AuditPipeline.state p))))
    (Z.of_nat (length (priority_queue (AuditPipeline.state p)))) (Z.of_nat (length (recent (AuditPipeline.state p))))
    (rotated p) (pruned p)
    ((λ i, (idx_rows i, idx_inserted i, idx_errors i, idx_pruned i)) <$> pipe_index p).

(** ** Assignments *)

Section State.
Context {R T : Type}.
Abbreviation Process := (Process R T).

Definition set_config (d : GatewayConfigDocument) (p : Process) : Process :=
  mkProcess (Some d) (config_source p) (runtime_state p) (stores p) (runtimes p) (next_runtime p) (cancelled p) (spawned p)
    (jwks_cache p) (admin_log p).
Definition set_stores (s : Stores) (p : Process) : Process :=
  mkProcess (gateway_config p) (config_source p) (runtime_state p) s (runtimes p) (next_runtime p) (cancelled p) (spawned p)
    (jwks_cache p) (admin_log p).
Definition set_cache (c : gmap str AdminAuth.CacheEntry) (p : Process) : Process :=
  mkProcess (gateway_config p) (config_source p) (runtime_state p) (stores p) (runtimes p) (next_runtime p) (cancelled p)
    (spawned p) c (admin_log p).
Definition set_registered (rs : AdminRuntimeState) (p : Process) : Process :=
  mkProcess (gateway_config p) (config_source p) (Some rs) (stores p) (runtimes p) (next_runtime p) (cancelled p) (spawned p)
    (jwks_cache p) (admin_log p).
Definition set_runtimes (rt : gmap nat (GatewayRuntime R T)) (p : Process) : Process :=
  mkProcess (gateway_config p) (config_source p) (runtime_state p) (stores p) rt (next_runtime p) (cancelled p) (spawned p)
    (jwks_cache p) (admin_log p).
Definition cancel (h : nat) (p : Process) : Process :=
  mkProcess (gateway_config p) (config_source p) (runtime_state p) (stores p) (runtimes p) (next_runtime p) ({[h]} ∪ cancelled p)
    (spawned p) (jwks_cache p) (admin_log p).
Definition spawn (h : nat) (p : Process) : Process :=
  mkProcess (gateway_config p) (config_source p) (runtime_state p) (stores p) (runtimes p) (next_runtime p) (cancelled p)
    (spawned p ++ [h]) (jwks_cache p) (admin_log p).

Definition audit_admin_write (ctx : option AdminAuth.AdminAuthContext) (method path outcome : str) (resource : option str)
    (p : Process) : Process :=
  let line := mkAdminWrite (match ctx with Some c => AdminAuth.subject c | None => $"anonymous" end)
                (match ctx with Some c => AdminAuth.auth_method c | None => $"none" end) method path outcome resource in
  mkProcess (gateway_config p) (config_source p) (runtime_state p) (stores p) (runtimes p) (next_runtime p) (cancelled p)
    (spawned p) (jwks_cache p) (admin_log p ++ [line]).

(** [gateway_core::try_audit]. *)
Definition try_audit (env : SendEnv) (e : AuditEvent) (p : Process) : Process :=
  set_stores (set_audit (try_send env e <$> audit_pipe (stores p)) (stores p)) p.

(** ** Registered listeners *)

Definition register_listener (name : str) (h : nat) (rs : AdminRuntimeState) : result str AdminRuntimeState :=
  match shutdown_handles rs !! name with
  | Some _ => Err ($"listener runtime '" ++ name ++ $"' is already registered")
  | None =>
      Ok (mkRuntimeState (<[name := h]> (shutdown_handles rs)) (<[name := h]> (pool_snapshotters rs))
            (<[name := h]> (pool_refreshers rs)) (<[name := h]> (session_snapshotters rs)))
  end.

(** The handle stays registered. *)
Definition stop_listener (name : str) (p : Process) : option bool * Process :=
  match rs ← runtime_state p; shutdown_handles rs !! name with
  | None => (None, p)
  | Some h => let p := cancel h p in (Some (bool_decide (h ∈ cancelled p)), p)
  end.

(** [sort_by(name)] of the entries of a map. *)
Fixpoint insert_named {A} (x : str * A) (l : list (str * A)) : list (str * A) :=
  match l with
  | [] => [x]
  | y :: l' => match str_compare x.1 y.1 with Gt => y :: insert_named x l' | _ => x :: l end
  end.
Definition sorted_entries {A} (m : gmap str A) : list (str * A) := foldr insert_named [] (map_to_list m).

(** A control is a closure over the pool of its runtime. *)
Definition refresh_runtime (h : nat) (p : Process) : list PoolEndpointRefresh * Process :=
  match runtimes p !! h with
  | None => ([], p)
  | Some g =>
      let '(r, pool) := refresh_pool (rt_pool g) (configured_endpoint_addresses g) in
      (r, set_runtimes (<[h := mkRuntime (pisa_version g) (core_plan g) (rt_listener g) pool (rt_sessions g)]> (runtimes p)) p)
  end.

Definition pool_statuses (rs : AdminRuntimeState) (p : Process) : list (str * PoolSnapshot) :=
  omap (λ x, (λ g, (x.1, build_pool_snapshot (rt_pool g) (configured_endpoint_addresses g))) <$> runtimes p !! x.2)
    (sorted_entries (pool_snapshotters rs)).

(** The refreshers run in the order of the map; the statuses are sorted. *)
Fixpoint refresh_all (l : list (str * nat)) (p : Process) : list (str * list PoolEndpointRefresh) * Process :=
  match l with
  | [] => ([], p)
  | (name, h) :: l =>
      let '(r, p) := refresh_runtime h p in
      let '(rest, p) := refresh_all l p in ((name, r) :: rest, p)
  end.
Definition refresh_pools (rs : AdminRuntimeState) (p : Process) : list (str * list PoolEndpointRefresh) * Process :=
  let '(l, p) := refresh_all (map_to_list (pool_refreshers rs)) p in (foldr insert_named [] l, p).

Fixpoint insert_session (e : SessionEntrySnapshot) (l : list SessionEntrySnapshot) : list SessionEntrySnapshot :=
  match l with
  | [] => [e]
  | f :: l' =>
      match str_compare (se_listener e) (se_listener f) with
      | Lt => e :: l
      | Eq => if se_id e <=? se_id f then e :: l else f :: insert_session e l'
      | Gt => f :: insert_session e l'
      end
  end.
Definition session_statuses (rs : AdminRuntimeState) (p : Process) : list SessionEntrySnapshot :=
  foldr insert_session []
    ((map_to_list (session_snapshotters rs)).*2 ≫= λ h,
       match runtimes p !! h with Some g => registry_snapshot (rt_sessions g) | None => [] end).

(** A runtime that was built gets the next number. *)
Definition keep_runtime (g : GatewayRuntime R T) (p : Process) : Process :=
  mkProcess (gateway_config p) (config_source p) (runtime_state p) (stores p) (<[next_runtime p := g]> (runtimes p))
    (S (next_runtime p)) (cancelled p) (spawned p) (jwks_cache p) (admin_log p).
End State.

(** ** Handlers *)

Definition clamp (lo hi z : Z) : Z := Z.max lo (Z.min hi z).

Definition with_limit (f : AuditQueryFilter) (n : Z) : AuditQueryFilter :=
  mkFilter (q_decision f) (q_subject_id f) (q_service f) (q_event_id f) (q_audit_level f) (q_outcome f) (q_listener f)
    (q_rule f) (q_action f) (q_from_ms f) (q_to_ms f) n.

(** The events the handlers send. *)
Definition admin_event (subject service : option str) (outcome message : str) (rule : option str) : AuditEvent :=
  mkEvent None None (Some (audit_action_as_str AdminWrite)) (Some (audit_decision_as_str DAllow)) subject None None None
    service None None None None None (Some outcome) None None (Some message) None None (Some ($"L0")) None None rule [] None
    None None None false.

Definition blank (o : option str) : bool := match o with Some s => is_empty (trim s) | None => true end.

(** The acting subject: the body's, or the authenticated one. *)
Definition acting (given : option str) (ctx : option AdminAuth.AdminAuthContext) : option str :=
  if blank given then match ctx with Some c => Some (AdminAuth.subject c) | None => given end else given.
Definition named_actor (o : option str) : option str := s ← trim <$> o; if is_empty s then None else Some s.

Definition issue_by (ctx : option AdminAuth.AdminAuthContext) (b : Ticket.IssueTicketRequest) : Ticket.IssueTicketRequest :=
  match Ticket.req_issued_by b, ctx with
  | None, Some c =>
      Ticket.mkIssue (Ticket.req_subject_id b) (Ticket.req_sql b) (Ticket.req_ticket_type b) (Ticket.req_ttl_secs b)
        (Ticket.req_max_uses b) (Ticket.req_note b) (Some (AdminAuth.subject c)) (Ticket.req_dual_control b)
  | _, _ => b
  end.

Definition lease_by (ctx : option AdminAuth.AdminAuthContext) (b : Vault.IssueVaultLeaseRequest) : Vault.IssueVaultLeaseRequest :=
  match Vault.lr_issued_by b, ctx with
  | None, Some c =>
      Vault.mkLeaseRequest (Vault.lr_project b) (Vault.lr_environment b) (Vault.lr_ttl_secs b) (Some (AdminAuth.subject c))
  | _, _ => b
  end.

Definition set_gateway (g : GatewayConfig) (d : GatewayConfigDocument) : GatewayConfigDocument :=
  mkDocument (admin d) (admin_auth d) g (version d).
Definition push_listener (l : ListenerConfig) (g : GatewayConfig) : GatewayConfig :=
  mkGateway (listeners g ++ [l]) (services g) (endpoints g) (route_policies g) (auth_policies g) (plugin_policies g)
    (translation_policies g) (security g).
Definition put_route_policy (i : nat) (rp : RoutePolicyConfig) (g : GatewayConfig) : GatewayConfig :=
  mkGateway (listeners g) (services g) (endpoints g) (<[i := rp]> (route_policies g)) (auth_policies g) (plugin_policies g)
    (translation_policies g) (security g).

(** [iter().position(..)]. *)
Fixpoint position {A} (f : A → bool) (l : list A) : option nat :=
  match l with [] => None | x :: l => if f x then Some 0%nat else S <$> position f l end.

Section Handlers.
Context `{TimeRules.Chrono, StateCrypto.Crypto, Ticket.TicketJson, Vault.VaultJson, PdpStore.CedarLoader, PdpStore.PolicyJson, AdminAuth.Jwt}.
Context {R : Type} `{LoadBalance.Rng R} (dialect_of : ProtocolKind → DialectParser) {T : Type}.
Context (toml_parse : str → result str GatewayConfigDocument).
Abbreviation Process := (Process R T).
Abbreviation Context_ := (option AdminAuth.AdminAuthContext).

(** A handler may unwind: the response is then lost, the state stays. *)
Definition Handler : Type := ReqEnv → Context_ → Process → exec Response * Process.

Definition admin_auth_config_snapshot (p : Process) : AdminAuth.AdminAuthConfig :=
  match gateway_config p with Some d => admin_auth d | None => AdminAuth.default_auth_config end.

Definition authorize (env : ReqEnv) (authorization : option str) (method path : str) (p : Process)
    : result Response Context_ * Process :=
  let '(r, cache) := AdminAuth.authenticate_request (re_auth env) (admin_auth_config_snapshot p) authorization method path
                       (jwks_cache p) in
  (map_err admin_auth_error_response r, set_cache cache p).

(** *** Reading the document *)

Definition show_config (f : GatewayConfigDocument → Body) (none : Response) (p : Process) : exec Response * Process :=
  (Ret match gateway_config p with Some d => json_response (f d) | None => none end, p).

(** *** Audit *)

Definition admin_audit_events (f : AuditQueryFilter) (limit : option Z) (env : ReqEnv) (p : Process) : exec Response * Process :=
  (Ret match audit_pipe (stores p) with
       | None =>
           json_response (BEvents [] None None
             (Some ($"audit pipeline not installed (gateway not started with security.audit)")))
       | Some pipe =>
           let f := with_limit f (clamp 1 1000 (default 100 limit)) in
           json_response (BEvents (query_filter (re_index_ok env) f pipe) (Some (pipeline_stats pipe))
             (Some (if is_none (pipe_index pipe) then $"recent" else $"index")) None)
       end, p).

(** *** Tickets *)

Definition admin_list_tickets (limit : option Z) (p : Process) : exec Response * Process :=
  (Ret (json_response (BTickets (Ticket.list_tickets (ticket_world (stores p)) (clamp 1 500 (default 50 limit))))), p).

Definition admin_issue_ticket (body : Ticket.IssueTicketRequest) : Handler := λ env ctx p,
  let body := issue_by ctx body in
  if is_empty (trim (Ticket.req_subject_id body)) || is_empty (trim (Ticket.req_sql body))
  then (Ret (admin_json_error 400 ($"invalid_ticket_request") ($"subject_id and sql are required")), p)
  else
    match Ticket.issue (re_tickets env) body (ticket_world (stores p)) with
    | Panic => (Panic, p)
    | Ret (t, w) =>
        let p := set_stores (put_tickets w (stores p)) p in
        let e := admin_event (Ticket.issued_by t) None
                   (if Ticket.dual_control t then $"ticket_pending" else $"ticket_issued")
                   ($"issued " ++ Ticket.id t ++ $" for " ++ Ticket.subject_id t ++ $" status="
                      ++ Ticket.status_as_str (Ticket.status t)) (Some (Ticket.ticket_type t)) in
        (Ret (json_response (BTicket t)), try_audit (re_send env) e p)
    end.

Definition admin_approve_ticket (tid : str) (body : option (option str)) : Handler := λ env ctx p,
  match named_actor (acting (default None body) ctx) with
  | None =>
      (Ret (admin_json_error 400 ($"invalid_approve_request")
              ($"approved_by is required (or authenticate so subject is inferred)")), p)
  | Some approver =>
      let '(r, w) := Ticket.approve (re_tickets env) tid approver (ticket_world (stores p)) in
      let p := set_stores (put_tickets w (stores p)) p in
      match r with
      | Ok t =>
          (Ret (json_response (BTicket t)),
           try_audit (re_send env) (admin_event (Some approver) None ($"ticket_approved") ($"approved " ++ Ticket.id t)
             (Some (Ticket.ticket_type t))) p)
      | Err m => (Ret (admin_json_error 400 ($"ticket_approve_failed") m), p)
      end
  end.

Definition no_reject : RejectTicketRequest := mkRejectRequest None None.

Definition admin_reject_ticket (tid : str) (body : option RejectTicketRequest) : Handler := λ env ctx p,
  let req := default no_reject body in
  match named_actor (acting (rr_rejected_by req) ctx) with
  | None =>
      (Ret (admin_json_error 400 ($"invalid_reject_request")
              ($"rejected_by is required (or authenticate so subject is inferred)")), p)
  | Some rejector =>
      let '(r, w) := Ticket.reject (re_tickets env) tid rejector (rr_reason req) (ticket_world (stores p)) in
      let p := set_stores (put_tickets w (stores p)) p in
      match r with
      | Ok t =>
          (Ret (json_response (BTicket t)),
           try_audit (re_send env) (admin_event (Some rejector) None ($"ticket_rejected") ($"rejected " ++ Ticket.id t)
             (Some (Ticket.ticket_type t))) p)
      | Err m => (Ret (admin_json_error 400 ($"ticket_reject_failed") m), p)
      end
  end.

Definition admin_revoke_ticket (tid : str) (body : option RejectTicketRequest) : Handler := λ env ctx p,
  let req := default no_reject body in
  match named_actor (acting (rr_rejected_by req) ctx) with
  | None =>
      (Ret (admin_json_error 400 ($"invalid_revoke_request")
              ($"rejected_by is required (or authenticate so subject is inferred)")), p)
  | Some rejector =>
      let '(r, w) := Ticket.revoke (re_tickets env) tid rejector (rr_reason req) (ticket_world (stores p)) in
      let p := set_stores (put_tickets w (stores p)) p in
      match r with
      | Ok t => (Ret (json_response (BTicket t)),
                 audit_admin_write ctx ($"POST") ($"/admin/tickets/:id/revoke") ($"revoked") (Some tid) p)
      | Err m => (Ret (admin_json_error 400 ($"ticket_revoke_failed") m), p)
      end
  end.

Definition admin_prune_tickets : Handler := λ env ctx p,
  let '(n, w) := Ticket.prune_expired (re_tickets env) (ticket_world (stores p)) in
  (Ret (json_response (BRemoved n)),
   audit_admin_write ctx ($"POST") ($"/admin/tickets/prune") ($"ok") None (set_stores (put_tickets w (stores p)) p)).

(** *** Projects and leases *)

Definition ensure_projects (d : GatewayConfigDocument) (p : Process) : Process :=
  set_stores (put_vault (Vault.ensure_default_projects_from_services (map s_name (services (gateway d)))
                           (vault_world (stores p))) (stores p)) p.

Definition admin_list_projects (p : Process) : exec Response * Process :=
  let p := match gateway_config p with Some d => ensure_projects d p | None => p end in
  (Ret (json_response (BProjects (Vault.list_projects (vault_world (stores p))))), p).

Definition admin_list_vault_leases (env : ReqEnv) (p : Process) : exec Response * Process :=
  (Ret (json_response (BLeases (Vault.list_leases (re_vault env) 100 (vault_world (stores p))))), p).

(** The service a lease request names: through a project, or directly. *)
Definition lease_service_name (body : Vault.IssueVaultLeaseRequest) (projects : list Vault.ProjectEnv) : str :=
  match List.find (λ q, eq_ignore_ascii_case (Vault.project_name q) (Vault.lr_project body)
                        && eq_ignore_ascii_case (Vault.project_environment q) (Vault.lr_environment body)) projects with
  | Some q => Vault.project_service q
  | None => Vault.lr_project body
  end.

Definition admin_issue_vault_lease (body : Vault.IssueVaultLeaseRequest) : Handler := λ env ctx p,
  let body := lease_by ctx body in
  match gateway_config p with
  | None => (Ret gateway_config_not_available, p)
  | Some d =>
      let p := ensure_projects d p in
      let name := lease_service_name body (Vault.list_projects (vault_world (stores p))) in
      match named s_name name (services (gateway d)) with
      | None => (Ret (admin_json_error 400 ($"unknown_service") ($"service '" ++ name ++ $"' not found")), p)
      | Some svc =>
          match s_endpoints svc with
          | [] => (Ret (admin_json_error 400 ($"no_endpoint") ($"service has no endpoints")), p)
          | en :: _ =>
              match named e_name en (endpoints (gateway d)) with
              | None => (Ret (admin_json_error 400 ($"unknown_endpoint") ($"endpoint '" ++ en ++ $"' missing")), p)
              | Some e =>
                  let '(l, w) := Vault.issue_lease (re_vault env) body (s_name svc) (e_name e)
                                   (ProtocolKind_as_str (e_protocol e)) (e_address e) (e_database e) (e_username e)
                                   (e_password e) (vault_world (stores p)) in
                  let p := set_stores (put_vault w (stores p)) p in
                  (Ret (json_response (BLease l)),
                   try_audit (re_send env)
                     (admin_event (Some (Vault.lease_project l)) (Some (Vault.lease_service l)) ($"vault_lease_issued")
                        ($"lease " ++ Vault.lease_id l ++ $" for " ++ Vault.lease_endpoint l) None) p)
              end
          end
      end
  end.

Definition admin_revoke_vault_lease (lid : str) (body : option (option str)) : Handler := λ env ctx p,
  let by_ := acting (default None body) ctx in
  let '(r, w) := Vault.revoke (re_vault env) lid by_ (vault_world (stores p)) in
  let p := set_stores (put_vault w (stores p)) p in
  match r with
  | Ok l =>
      let p := audit_admin_write ctx ($"POST") ($"/admin/vault/leases/:id/revoke") ($"revoked") (Some lid) p in
      (Ret (json_response (BLease l)),
       try_audit (re_send env) (admin_event by_ None ($"vault_lease_revoked") ($"revoked " ++ lid) None) p)
  | Err m => (Ret (admin_json_error 400 ($"vault_revoke_failed") m), p)
  end.

(** A missing body is [RenewVaultLeaseRequest::default()], whose [ttl_secs] is 0. *)
Definition admin_renew_vault_lease (lid : str) (ttl_secs : option Z) : Handler := λ env ctx p,
  let '(r, w) := Vault.renew (re_vault env) lid (default 0 ttl_secs) (vault_world (stores p)) in
  let p := set_stores (put_vault w (stores p)) p in
  match r with
  | Ok l => (Ret (json_response (BLease l)),
             audit_admin_write ctx ($"POST") ($"/admin/vault/leases/:id/renew") ($"renewed") (Some lid) p)
  | Err m => (Ret (admin_json_error 400 ($"vault_renew_failed") m), p)
  end.

Definition admin_prune_vault_leases : Handler := λ env ctx p,
  let '(n, w) := Vault.prune_expired (re_vault env) (vault_world (stores p)) in
  (Ret (json_response (BRemoved (Z.of_nat n))),
   audit_admin_write ctx ($"POST") ($"/admin/vault/leases/prune") ($"ok") None (set_stores (put_vault w (stores p)) p)).

(** *** Listeners and route policies *)

Definition add_failed (code : Z) (message : str) : Response := admin_json_error code ($"gateway listener add failed") message.

Definition admin_add_listener (l : ListenerConfig) : Handler := λ env ctx p,
  match gateway_config p with
  | None => (Ret gateway_config_not_available, p)
  | Some current =>
  match runtime_state p with
  | None => (Ret (admin_runtime_unavailable ($"admin runtime state is not available")), p)
  | Some rs =>
      let next := set_gateway (push_listener l (gateway current)) current in
      match validate_gateway PdpStore.cedar_feature (gateway next) with
      | Err e => (Ret (add_failed 400 ($"invalid gateway configuration: " ++ PdpStore.error_to_string e)), p)
      | Ok _ =>
          let '(r, s) := try_build_proxy_for_listener dialect_of (T := T) (re_build env 0) next (l_name l) (stores p) in
          let p := set_stores s p in
          match r with
          | Err e => (Ret (add_failed 400 ($"failed to build listener runtime: " ++ e)), p)
          | Ok g =>
              match register_listener (rt_listener g) (next_runtime p) rs with
              | Err e => (Ret (add_failed 400 e), p)
              | Ok rs =>
                  let h := next_runtime p in
                  let p := spawn h (set_config next (set_registered rs (keep_runtime g p))) in
                  (Ret (json_response (BAdded ($"started") (l_name l) (listen_addr l))),
                   audit_admin_write ctx ($"POST") ($"/admin/listeners") ($"ok") (Some (l_name l)) p)
              end
          end
      end
  end end.

Definition replace_failed (code : Z) (message : str) : Response :=
  admin_json_error code ($"gateway route policy replace failed") message.

Definition admin_replace_route_policy (name : str) (rp : RoutePolicyConfig) : Handler := λ env ctx p,
  match gateway_config p with
  | None => (Ret gateway_config_not_available, p)
  | Some current =>
      if negb (str_eqb (rp_name rp) name) then
        (Ret (replace_failed 400 ($"route policy name '" ++ rp_name rp ++ $"' does not match path parameter '"
                ++ name ++ $"'")), p)
      else
        match position (λ q, str_eqb (rp_name q) name) (route_policies (gateway current)) with
        | None => (Ret (replace_failed 404 ($"route policy '" ++ name ++ $"' is not defined")), p)
        | Some i =>
            let next := set_gateway (put_route_policy i rp (gateway current)) current in
            match validate_gateway PdpStore.cedar_feature (gateway next) with
            | Err e => (Ret (replace_failed 400 ($"invalid gateway configuration: " ++ PdpStore.error_to_string e)), p)
            | Ok _ =>
                (Ret (json_response (BPolicy ($"updated") (rp_name rp) (rp_kind rp))),
                 audit_admin_write ctx ($"PUT") ($"/admin/route-policies/" ++ name) ($"ok") (Some (rp_name rp))
                   (set_config next p))
            end
        end
  end.

(** *** Pools and sessions *)

Definition with_runtime (p : Process) (k : AdminRuntimeState → exec Response * Process) : exec Response * Process :=
  match runtime_state p with
  | Some rs => k rs
  | None => (Ret (admin_runtime_not_found ($"admin runtime state is not available")), p)
  end.

Definition admin_refresh_pool (name : str) : Handler := λ env ctx p,
  with_runtime p (λ rs,
    match pool_refreshers rs !! name with
    | None => (Ret (admin_runtime_not_found ($"listener pool refresher is not available")), p)
    | Some h =>
        let '(r, p) := refresh_runtime h p in
        (Ret (json_response (BRefresh name r)),
         audit_admin_write ctx ($"POST") ($"/admin/pools/" ++ name ++ $"/refresh") ($"ok") (Some name) p)
    end).

Definition admin_refresh_pools : Handler := λ env ctx p,
  with_runtime p (λ rs,
    let '(l, p) := refresh_pools rs p in
    (Ret (json_response (BRefreshes l)), audit_admin_write ctx ($"POST") ($"/admin/pools/refresh") ($"ok") None p)).

Definition admin_stop_listener (name : str) : Handler := λ env ctx p,
  with_runtime p (λ _,
    match stop_listener name p with
    | (Some b, p) =>
        (Ret (json_response (BStopped name b)),
         audit_admin_write ctx ($"POST") ($"/admin/listeners/" ++ name ++ $"/stop") ($"ok") (Some name) p)
    | (None, p) => (Ret (admin_runtime_not_found ($"listener runtime control is not available")), p)
    end).

(** *** Reload *)

Definition reload_failed (message : str) : Response := admin_json_error 500 ($"gateway reload failed") message.

Definition stop_all (names : list str) (p : Process) : Process := foldl (λ p n, (stop_listener n p).2) p names.

(** Register the new runtime; when the name is taken, stop and try once more. *)
Definition register_or_replace (name : str) (h : nat) (rt_name : str) (p : Process) : result str unit * Process :=
  match runtime_state p with
  | None => (Ok tt, p)
  | Some rs =>
      match register_listener rt_name h rs with
      | Ok rs => (Ok tt, set_registered rs p)
      | Err _ =>
          let p := (stop_listener name p).2 in
          match register_listener rt_name h rs with
          | Ok rs => (Ok tt, set_registered rs p)
          | Err e => (Err e, p)
          end
      end
  end.

(** The loop over the added and the changed listeners; the first failure ends the
    request. *)
Fixpoint start_listeners (env : ReqEnv) (i : nat) (next : GatewayConfigDocument) (names : list str) (p : Process)
    : result Response unit * Process :=
  match names with
  | [] => (Ok tt, p)
  | name :: names =>
      let '(r, s) := try_build_proxy_for_listener dialect_of (T := T) (re_build env i) next name (stores p) in
      let p := set_stores s p in
      match r with
      | Err e =>
          (Err (reload_failed ($"config applied but failed to build listener '" ++ name ++ $"': " ++ e)), p)
      | Ok g =>
          let h := next_runtime p in
          match register_or_replace name h (rt_listener g) (keep_runtime g p) with
          | (Err e, p) =>
              (Err (reload_failed ($"config applied but failed to register listener '" ++ name ++ $"': " ++ e)), p)
          | (Ok _, p) => start_listeners env (S i) next names (spawn h p)
          end
      end
  end.

Definition maybe_reload_local_pdp (env : PdpStore.FsEnv) (sec : Security.SecurityPolicyConfig) (d : GatewayConfigDiff)
    (s : Stores) : Stores :=
  if negb (Security.enabled sec) || negb (security_changed d) then s
  else match PdpStore.reload_global_local_pdp env sec (policy_disk s) (pdp_store s) with
       | Some (_, st, disk) => set_pdp st disk s
       | None => s
       end.

(** The stores a changed security section reinstalls. *)
Definition reinstall (env : BuildEnv) (sec : Security.SecurityPolicyConfig) (d : GatewayConfigDiff) (s : Stores) : Stores :=
  if security_changed d then
    install_vault (be_vault env) (Security.state sec)
      (install_tickets (be_tickets env) (Security.state sec)
        (install_audit_pipeline (be_index env) (Security.audit sec) (Security.default_audit_level sec) s))
  else s.

Definition reload_runtime (env : ReqEnv) (next : GatewayConfigDocument) (d : GatewayConfigDiff) (p : Process)
    : result Response unit * Process :=
  match runtime_state p with
  | None => (Ok tt, p)
  | Some _ =>
      let p := stop_all (changed (d_listeners d)) (stop_all (removed (d_listeners d)) p) in
      match start_listeners env 0 next (added (d_listeners d) ++ changed (d_listeners d)) p with
      | (Err r, p) => (Err r, p)
      | (Ok _, p) =>
          (Ok tt, if section_has_changes (d_endpoints d)
                  then match runtime_state p with Some rs => (refresh_pools rs p).2 | None => p end
                  else p)
      end
  end.

(** The reload after it took its copy [current] of the document. *)
Definition reload_with (current : GatewayConfigDocument) : Handler := λ env ctx p,
  match config_source p with
  | None => (Ret (admin_runtime_not_found ($"gateway config source is not available")), p)
  | Some source =>
      match load_source PdpStore.cedar_feature toml_parse (re_source env) with
      | Err e => (Ret (gateway_config_load_error e), p)
      | Ok next =>
          let d := between current next in
          if negb (has_changes d) then
            (Ret (json_response (BReload (mkReload ($"validated") source false false d))),
             audit_admin_write ctx ($"POST") ($"/admin/reload") ($"validated") None p)
          else
            match reload_runtime env next d (set_config next p) with
            | (Err r, p) => (Ret r, p)
            | (Ok _, p) =>
                let sec := security (gateway next) in
                let s := reinstall (re_install env) sec d
                           (maybe_reload_local_pdp (be_policy (re_install env) 0) sec d (stores p)) in
                (Ret (json_response (BReload (mkReload ($"applied") source true true d))),
                 audit_admin_write ctx ($"POST") ($"/admin/reload") ($"applied") None (set_stores s p))
            end
      end
  end.

Definition admin_reload : Handler := λ env ctx p,
  match gateway_config p with
  | None => (Ret gateway_config_not_available, p)
  | Some current => reload_with current env ctx p
  end.

(** *** Identity *)

Definition admin_me (env : ReqEnv) (authorization : option str) (p : Process) : exec Response * Process :=
  let auth := admin_auth_config_snapshot p in
  if negb (AdminAuth.enabled auth) then (Ret (json_response (BMe (AdminAuth.me_response None false))), p)
  else
    let '(r, cache) := AdminAuth.authenticate_request (re_auth env) auth authorization ($"GET") ($"/admin/me") (jwks_cache p) in
    (Ret match r with
         | Ok (Some ctx) => json_response (BMe (AdminAuth.me_response (Some ctx) true))
         | Ok None | Err (AdminAuth.Unauthorized _) =>
             admin_auth_error_response (AdminAuth.Unauthorized ($"authentication required"))
         | Err e => admin_auth_error_response e
         end, set_cache cache p).

Definition admin_auth_login (password : str) (env : ReqEnv) (p : Process) : exec Response * Process :=
  (Ret match AdminAuth.break_glass_login (re_auth env) (admin_auth_config_snapshot p) password with
       | Ok l => json_response (BLogin l)
       | Err e => admin_auth_error_response e
       end, p).

(** ** Requests *)

(** What a route does once the request is authorized (the last three routes do not
    get here). *)
Definition dispatch (r : Request) : Handler := λ env ctx p,
  match r with
  | GetConfig => show_config BDocument (json_response BPisaConfig) p
  | GetListeners => show_config (λ d, BListeners (listeners (gateway d))) gateway_config_not_available p
  | GetServices => show_config (λ d, BServices (services (gateway d))) gateway_config_not_available p
  | GetEndpoints => show_config (λ d, BEndpoints (endpoints (gateway d))) gateway_config_not_available p
  | GetAuditEvents f limit => admin_audit_events f limit env p
  | GetAuditStats => (Ret (json_response (BStats (pipeline_stats <$> audit_pipe (stores p)))), p)
  | ListTickets limit => admin_list_tickets limit p
  | IssueTicket body => admin_issue_ticket body env ctx p
  | ApproveTicket tid body => admin_approve_ticket tid body env ctx p
  | RejectTicket tid body => admin_reject_ticket tid body env ctx p
  | RevokeTicket tid body => admin_revoke_ticket tid body env ctx p
  | PruneTickets => admin_prune_tickets env ctx p
  | ListProjects => admin_list_projects p
  | ListVaultLeases => admin_list_vault_leases env p
  | IssueVaultLease body => admin_issue_vault_lease body env ctx p
  | RevokeVaultLease lid body => admin_revoke_vault_lease lid body env ctx p
  | RenewVaultLease lid ttl => admin_renew_vault_lease lid ttl env ctx p
  | PruneVaultLeases => admin_prune_vault_leases env ctx p
  | AddListener l => admin_add_listener l env ctx p
  | ReplaceRoutePolicy name rp => admin_replace_route_policy name rp env ctx p
  | GetPools => with_runtime p (λ rs, (Ret (json_response (BPools (pool_statuses rs p))), p))
  | RefreshPools => admin_refresh_pools env ctx p
  | RefreshPool name => admin_refresh_pool name env ctx p
  | GetSessions => with_runtime p (λ rs, (Ret (json_response (BSessions (session_statuses rs p))), p))
  | Reload => admin_reload env ctx p
  | StopListener name => admin_stop_listener name env ctx p
  | Me | AuthConfig | Login _ => (Ret (admin_runtime_not_found []), p)
  end.

(** One request: the three routes of identity decide for themselves, every other
    route authorizes its method and path first. *)
Definition handle (env : ReqEnv) (authorization : option str) (r : Request) (p : Process) : exec Response * Process :=
  match r with
  | Me => admin_me env authorization p
  | AuthConfig => (Ret (json_response (BAuth (public_auth_config (admin_auth_config_snapshot p)))), p)
  | Login password => admin_auth_login password env p
  | _ =>
      match authorize env authorization (method_of r) (path_of_request r) p with
      | (Err resp, p) => (Ret resp, p)
      | (Ok ctx, p) => dispatch r env ctx p
      end
  end.

(** ** The start of the process *)

Definition register_controls (h : nat) (rs : AdminRuntimeState) (g : GatewayRuntime R T) : AdminRuntimeState :=
  mkRuntimeState (<[rt_listener g := h]> (shutdown_handles rs)) (<[rt_listener g := h]> (pool_snapshotters rs))
    (<[rt_listener g := h]> (pool_refreshers rs)) (<[rt_listener g := h]> (session_snapshotters rs)).

(** [AdminRuntimeState::new_with_runtime_controls]; the runtimes are numbered from [h]. *)
Fixpoint new_with_runtime_controls (h : nat) (gs : list (GatewayRuntime R T)) (rs : AdminRuntimeState) : AdminRuntimeState :=
  match gs with [] => rs | g :: gs => new_with_runtime_controls (S h) gs (register_controls h rs g) end.

Definition empty_stores (fs : gmap str str) (d : PdpStore.Disk) : Stores :=
  mkStores None None fs PdpStore.new_pdp_store d None.

(** [main]: build every listener, register them, start them and the server; [Err]
    ends the process. *)
Definition boot (env : nat → BuildEnv) (source : option str) (contents : result str str) (fs : gmap str str) (d : PdpStore.Disk)
    : result str Process :=
  doc ← map_err load_error_to_string (load_source PdpStore.cedar_feature toml_parse contents);
  let '(r, s) := try_build_proxies dialect_of (T := T) env doc (empty_stores fs d) in
  gs ← r;
  Ok (mkProcess (Some doc) source
        (Some (new_with_runtime_controls 0 gs (mkRuntimeState ∅ ∅ ∅ ∅))) s (map_seq 0 gs) (length gs) ∅ (seq 0 (length gs)) ∅ []).
End Handlers.

End AdminApi.
