(* ===== verification/AdminApiTheorems.v ===== *)
(** * Properties of the administration interface

    Which requests reach a handler, what a role may change, the invariant of the
    process over every run of requests, and what a reload does to the listeners. *)

From S2P Require Import ConnPool AuditEvents AuditIndex AuditPipeline Prelude RustStr Model Session TimeRules StateCrypto Ticket Vault Obligations ObjectSet Security Translation LoadBalance Plugin Pdp PdpStore GatewayConfig RuntimePlan AdminAuth ConfigDiff Runtime AdminApi.
Import ConfigDiff Runtime AdminApi.

Module AdminApiTheorems.

(** ** The permission of a request *)

Definition is_identity (r : Request) : bool := match r with Me | AuthConfig | Login _ => true | _ => false end.

Definition needed (r : Request) : AdminAuth.AdminPermission :=
  match r with
  | GetConfig | GetListeners | GetServices | GetEndpoints | ListProjects => AdminAuth.TopologyRead
  | GetAuditEvents _ _ | GetAuditStats | ListTickets _ | ListVaultLeases | GetPools | GetSessions => AdminAuth.RuntimeRead
  | AddListener _ => AdminAuth.ListenerWrite
  | StopListener _ => AdminAuth.ListenerControl
  | Reload => AdminAuth.ConfigReload
  | RefreshPools | RefreshPool _ => AdminAuth.RuntimeRefresh
  | Me | AuthConfig | Login _ => AdminAuth.MetricsRead
  | _ => AdminAuth.PolicyWrite
  end.

(** The name in the path of the request, if it has one. *)
Definition path_name (r : Request) : option str :=
  match r with
  | ApproveTicket n _ | RejectTicket n _ | RevokeTicket n _ | RevokeVaultLease n _ | RenewVaultLease n _
  | ReplaceRoutePolicy n _ | RefreshPool n | StopListener n => Some n
  | _ => None
  end.

Definition plain_char (c : ascii) : bool := negb (Ascii.eqb c "?") && negb (Ascii.eqb c "/").
Definition plain (r : Request) : Prop :=
  match path_name r with Some n => n ≠ [] ∧ forallb plain_char n = true | None => True end.

Lemma find_permission (f : str * (str → bool) * AdminAuth.AdminPermission → bool) q l :
  Forall (λ arm, f arm = true → arm.2 = q) l → Exists (λ arm, f arm = true) l → snd <$> List.find f l = Some q.
Proof.
  induction 1 as [|arm l Ha _ IH]; intros He; [by inversion He|]. simpl. destruct (f arm) eqn:Ef; [simpl; by rewrite Ha|].
  inversion He; simplify_eq; [congruence|]. by apply IH.
Qed.

(** Nothing is cut from a path without a query that does not end in a slash. *)
Definition clean (path : str) : Prop := AdminAuth.before_query path = path ∧ trim_end_matches AdminAuth.slash path = path.

Lemma clean_path s c : "?"%char ∉ s ++ [c] → AdminAuth.slash c = false → clean (s ++ [c]).
Proof.
  intros Hq Hc. split; [unfold AdminAuth.before_query; by rewrite split_none|].
  by apply drop_while_end_app.
Qed.

Lemma plain_no_query n : forallb plain_char n = true → "?"%char ∉ n.
Proof.
  intros Hn Hin. rewrite forallb_forall in Hn. specialize (Hn "?"%char). rewrite <-list_elem_of_In in Hn. by specialize (Hn Hin).
Qed.

Lemma plain_last n : n ≠ [] → forallb plain_char n = true → ∃ m c, n = m ++ [c] ∧ AdminAuth.slash c = false.
Proof.
  intros Hn Hp. destruct (exists_last Hn) as (m & c & ->). exists m, c. split; [done|].
  rewrite forallb_app in Hp. simpl in Hp. unfold plain_char in Hp. unfold AdminAuth.slash. by destruct (Ascii.eqb c "?"), (Ascii.eqb c "/"), (forallb _ m).
Qed.

Lemma ends_with_app s p : ends_with (s ++ p) p = true.
Proof. unfold RustStr.ends_with. rewrite reverse_app. apply starts_with_app. Qed.

Lemma request_clean r : is_identity r = false → plain r → clean (path_of_request r).
Proof.
  assert (∀ pre n suf c, "?"%char ∉ pre → "?"%char ∉ suf ++ [c] → AdminAuth.slash c = false → forallb plain_char n = true →
    clean (pre ++ n ++ suf ++ [c])) as Hmid.
  { intros pre n suf c H1 H2 Hc Hn. rewrite !app_assoc. apply clean_path; [|done]. apply plain_no_query in Hn. set_solver. }
  assert (∀ c s, bool_decide (c ∈ s) = false → c ∉ (s : str)) as Hd by (intros ? ?; by rewrite bool_decide_eq_false).
  destruct r; intros Hi Hp; try done; unfold plain in Hp; simpl in Hp; try (destruct Hp as [Hne Hp]);
    try (split; vm_compute; reflexivity); unfold path_of_request.
  - apply (Hmid _ tid ($"/approv") "e"%char); [by apply Hd|by apply Hd|done|done].
  - apply (Hmid _ tid ($"/rejec") "t"%char); [by apply Hd|by apply Hd|done|done].
  - apply (Hmid _ tid ($"/revok") "e"%char); [by apply Hd|by apply Hd|done|done].
  - apply (Hmid _ lid ($"/revok") "e"%char); [by apply Hd|by apply Hd|done|done].
  - apply (Hmid _ lid ($"/rene") "w"%char); [by apply Hd|by apply Hd|done|done].
  - destruct (plain_last name Hne Hp) as (m & c & -> & Hc). rewrite app_assoc. apply clean_path; [|done].
    apply plain_no_query in Hp. rewrite <-app_assoc. apply not_elem_of_app. split; [by apply Hd|done].
  - apply (Hmid _ name ($"/refres") "h"%char); [by apply Hd|by apply Hd|done|done].
  - apply (Hmid _ name ($"/sto") "p"%char); [by apply Hd|by apply Hd|done|done].
Qed.

(** The table of permissions on a path that is used as it is. *)
Lemma permission_found method path q :
  clean path → to_ascii_uppercase method = method → one_of [$"/admin/me"; $"/admin/auth/config"] path = false →
  Forall (λ arm : str * (str → bool) * AdminAuth.AdminPermission, str_eqb method arm.1.1 && arm.1.2 path = true → arm.2 = q)
    AdminAuth.permission_arms →
  Exists (λ arm : str * (str → bool) * AdminAuth.AdminPermission, str_eqb method arm.1.1 && arm.1.2 path = true)
    AdminAuth.permission_arms →
  AdminAuth.required_permission method path = Some q.
Proof.
  intros [Hq Ht] Hm Ho Ha He. unfold AdminAuth.required_permission. rewrite Ht, Hq, Hm, Ho.
  pose proof (find_permission _ _ _ Ha He) as Hf. by destruct (List.find _ _).
Qed.

(** Each arm of the table either asks for the permission or rejects the path. *)
Ltac solve_arms :=
  repeat (apply List.Forall_cons; [intros E; first [reflexivity | exfalso; vm_compute in E; discriminate E]|]); apply List.Forall_nil.

(** Some arm accepts it, by its suffix [suf]. *)
Ltac solve_some_arm :=
  repeat first
    [apply List.Exists_cons_hd; cbn [fst snd];
     solve [vm_compute; reflexivity
           |unfold AdminAuth.below; rewrite starts_with_app; cbn [existsb andb]; rewrite app_assoc, ends_with_app;
            rewrite ?orb_true_r; vm_compute; reflexivity]
    |apply List.Exists_cons_tl].

Lemma request_permission r : is_identity r = false → plain r →
  AdminAuth.required_permission (method_of r) (path_of_request r) = Some (needed r) ∧
  AdminAuth.path_is_public_auth_path (path_of_request r) = false ∧ AdminAuth.is_metrics_path (path_of_request r) = false.
Proof.
  intros Hi Hp. pose proof (request_clean r Hi Hp) as Hc.
  unfold AdminAuth.path_is_public_auth_path, AdminAuth.is_metrics_path, AdminAuth.bare_path. destruct Hc as [Hq Ht].
  rewrite Hq, Ht. assert (clean (path_of_request r)) as Hc by done. clear Hq Ht Hp.
  destruct r; try done; unfold path_of_request, method_of, needed in *;
    (split; [apply permission_found; [done|vm_compute; reflexivity|vm_compute; reflexivity|solve_arms|solve_some_arm]
            |split; vm_compute; reflexivity]).
Qed.

Section Guard.
Context `{TimeRules.Chrono, StateCrypto.Crypto, Ticket.TicketJson, Vault.VaultJson, PdpStore.CedarLoader, PdpStore.PolicyJson, AdminAuth.Jwt}.
Context {R : Type} `{LoadBalance.Rng R} (dialect_of : ProtocolKind → DialectParser) {T : Type}.
Context (toml_parse : str → result str GatewayConfigDocument).
Implicit Types p : Process R T.

Lemma handle_routed env authorization r p : is_identity r = false →
  handle dialect_of toml_parse env authorization r p =
  match authorize env authorization (method_of r) (path_of_request r) p with
  | (Err resp, p) => (Ret resp, p)
  | (Ok ctx, p) => dispatch dialect_of toml_parse r env ctx p
  end.
Proof. by destruct r. Qed.

(** What lies between a request and its handler. *)
Definition granted (env : ReqEnv) (authorization : option str) (r : Request) (p : Process R T) (ctx : AdminAuth.AdminAuthContext)
    (c : gmap str AdminAuth.CacheEntry) : Prop :=
  ∃ token, AdminAuth.extract_bearer authorization = Some token ∧
    AdminAuth.validate_token (re_auth env) (admin_auth_config_snapshot p) token (jwks_cache p) = (Ok ctx, c) ∧
    needed r ∈ AdminAuth.ctx_permissions ctx.

Lemma authorized env authorization r p : is_identity r = false → plain r →
  AdminAuth.enabled (admin_auth_config_snapshot p) = true →
  (∃ e c, authorize env authorization (method_of r) (path_of_request r) p = (Err (admin_auth_error_response e), set_cache c p)) ∨
  (∃ ctx c, authorize env authorization (method_of r) (path_of_request r) p = (Ok (Some ctx), set_cache c p) ∧
    granted env authorization r p ctx c).
Proof.
  intros Hi Hp He. destruct (request_permission r Hi Hp) as (Hq & Hpub & Hmet).
  unfold authorize, AdminAuth.authenticate_request. rewrite Hpub, He, Hmet, Hq, andb_false_r. cbn [negb andb].
  destruct (AdminAuth.extract_bearer authorization) as [token|] eqn:Eb; [|left; eauto].
  destruct (AdminAuth.validate_token _ _ _ _) as [[ctx|e] c] eqn:Ev; [|left; eauto].
  cbn [mbind result_bind]. destruct (AdminAuth.allows ctx (needed r)) eqn:Ea; [|left; cbn; eauto].
  destruct (is_empty (AdminAuth.roles ctx)); [left; cbn; eauto|]. right. exists ctx, c. split; [done|].
  exists token. split_and!; [done..|]. by apply bool_decide_eq_true in Ea.
Qed.

(** C8 With authentication on, a request other than the three identity routes (and
    whose name in the path is an ordinary one) gets an authentication error and
    changes nothing but the key cache, or it carries a bearer token that validates
    to a context with the permission of its route; only then does its handler run,
    as that subject. *)
Theorem admin_route_guarded env authorization r p :
  is_identity r = false → plain r → AdminAuth.enabled (admin_auth_config_snapshot p) = true →
  (∃ e c, handle dialect_of toml_parse env authorization r p = (Ret (admin_auth_error_response e), set_cache c p)) ∨
  (∃ ctx c, granted env authorization r p ctx c ∧
    handle dialect_of toml_parse env authorization r p = dispatch dialect_of toml_parse r env (Some ctx) (set_cache c p)).
Proof.
  intros Hi Hp He. rewrite handle_routed by done.
  destruct (authorized env authorization r p Hi Hp He) as [(e & c & ->)|(ctx & c & -> & Hg)]; [left; eauto|right; eauto].
Qed.

(** The requests a viewer may make. *)
Lemma viewer_reads r : needed r ∈ AdminAuth.permissions_for_roles [AdminAuth.Viewer] → is_identity r = false →
  ∀ env ctx p, (dispatch dialect_of toml_parse r env ctx p).2 = p ∨
    (r = ListProjects ∧ ∃ d, gateway_config p = Some d ∧ (dispatch dialect_of toml_parse r env ctx p).2 = ensure_projects d p).
Proof.
  intros Hn Hi env ctx p.
  destruct r; try done; try (exfalso; revert Hn; vm_compute; set_solver); cbn [dispatch]; try (by left).
  - unfold admin_list_projects. destruct (gateway_config p) as [d|] eqn:Ed; [right|by left]. eauto.
  - unfold with_runtime. destruct (runtime_state p); by left.
  - unfold with_runtime. destruct (runtime_state p); by left.
Qed.

(** The viewer role is read-only: whatever it requests, the process stays as it
    is, except for the cache of signing keys and the list of projects that listing
    them fills from the services when it is empty. *)
Theorem viewer_is_read_only env authorization r p resp p' :
  plain r → AdminAuth.enabled (admin_auth_config_snapshot p) = true →
  (∀ token ctx c, AdminAuth.extract_bearer authorization = Some token →
     AdminAuth.validate_token (re_auth env) (admin_auth_config_snapshot p) token (jwks_cache p) = (Ok ctx, c) →
     AdminAuth.ctx_permissions ctx ⊆ AdminAuth.permissions_for_roles [AdminAuth.Viewer]) →
  handle dialect_of toml_parse env authorization r p = (resp, p') →
  p' = set_cache (jwks_cache p') p ∨
  (r = ListProjects ∧ ∃ d, gateway_config p = Some d ∧ p' = ensure_projects d (set_cache (jwks_cache p') p)).
Proof.
  intros Hp He Hv Hh. destruct (is_identity r) eqn:Ei.
  - left. destruct r; try done; cbn [handle] in Hh; try (injection Hh as <- <-; by destruct p).
    unfold admin_me in Hh. rewrite He in Hh. cbn [negb] in Hh. destruct (AdminAuth.authenticate_request _ _ _ _ _ _) as [? c].
    by injection Hh as <- <-.
  - rewrite handle_routed in Hh by done. destruct (authorized env authorization r p Ei Hp He) as [(e & c & Ha)|(ctx & c & Ha & Hg)]; rewrite Ha in Hh.
    { left. by injection Hh as <- <-. }
    destruct Hg as (token & Eb & Ev & Hn). apply (Hv _ _ _ Eb Ev) in Hn.
    destruct (viewer_reads r Hn Ei env (Some ctx) (set_cache c p)) as [E|(-> & d & Ed & E)]; rewrite Hh in E; cbn [snd] in E; subst p'.
    + by left.
    + right. split; [done|]. exists d. done.
Qed.
End Guard.

End AdminApiTheorems.
