(* ===== verification/AdminRuns.v ===== *)
(** * Runs of the administration interface

    The invariant of the process over every sequence of requests and sessions, from
    its start on, and what a reload does to the listeners. *)

From S2P Require Import ConnPool AuditEvents AuditIndex AuditPipeline Prelude RustStr Model Session TimeRules StateCrypto Ticket Vault Obligations ObjectSet Security Translation LoadBalance Plugin Pdp PdpStore GatewayConfig RuntimePlan AdminAuth ConfigDiff Runtime AdminApi AdminApiTheorems.
Import ConfigDiff Runtime AdminApi AdminApiTheorems.

Module AdminRuns.

Section Runs.
Context `{TimeRules.Chrono, StateCrypto.Crypto, Ticket.TicketJson, Vault.VaultJson, PdpStore.CedarLoader, PdpStore.PolicyJson, AdminAuth.Jwt}.
Context {R : Type} `{LoadBalance.Rng R} (dialect_of : ProtocolKind → DialectParser) {T : Type}.
Context (toml_parse : str → result str GatewayConfigDocument).
Implicit Types p : Process R T.

(** ** The invariant *)

Definition validated (d : GatewayConfigDocument) : Prop :=
  validate_gateway PdpStore.cedar_feature (gateway d) = Ok tt ∧ AdminAuth.validate (admin_auth d) = Ok tt.

(** A runtime serves a listener it has a plan for; its pool holds nothing. *)
Definition runtime_ok (g : GatewayRuntime R T) : Prop :=
  is_Some (plan_listener (core_plan g) (rt_listener g)) ∧ rt_pool g = new_pool DEFAULT_CORE_POOL_SIZE.

Record process_ok (p : Process R T) : Prop := {
  ok_config : ∀ d, gateway_config p = Some d → validated d;
  ok_registered : ∀ rs name h, runtime_state p = Some rs → shutdown_handles rs !! name = Some h →
    h ∈ spawned p ∧ ∃ g, runtimes p !! h = Some g ∧ rt_listener g = name;
  ok_controls : ∀ rs, runtime_state p = Some rs →
    pool_snapshotters rs = shutdown_handles rs ∧ pool_refreshers rs = shutdown_handles rs ∧
    session_snapshotters rs = shutdown_handles rs;
  ok_runtimes : ∀ h g, runtimes p !! h = Some g → (h < next_runtime p)%nat ∧ runtime_ok g;
  ok_spawned : NoDup (spawned p) ∧ ∀ h, h ∈ spawned p → is_Some (runtimes p !! h);
  ok_cancelled : ∀ h, h ∈ cancelled p → (h < next_runtime p)%nat
}.

(** The part of the process the invariant is about, without and with the cancelled
    handles. *)
Definition static (p : Process R T) := (gateway_config p, runtime_state p, runtimes p, next_runtime p, spawned p).
Definition core (p : Process R T) := (static p, cancelled p).

Lemma core_ok p p' : core p' = core p → process_ok p → process_ok p'.
Proof.
  unfold core, static. intros E [? ? ? ? ? ?]. injection E as E1 E2 E3 E4 E5 E6. split; rewrite ?E1, ?E2, ?E3, ?E4, ?E5, ?E6; done.
Qed.

(** ** Building and registering *)

Lemma built_runtime env doc name s g s' :
  try_build_proxy_for_listener dialect_of (T := T) env doc name s = (Ok g, s') → rt_listener g = name ∧ runtime_ok g.
Proof.
  unfold try_build_proxy_for_listener. destruct (List.find _ _) as [l|] eqn:Ef; [|done].
  apply List.find_some in Ef as [_ Hl]. apply str_eqb_eq in Hl. rewrite <-Hl.
  unfold build_native_proxy_instance, from_core_config_for_listener.
  destruct (plan_from_config _ _ _ _) as [[plans|] ?]; [|done].
  destruct (plan_listener plans (l_name l)) as [pl|] eqn:Ep; cbn [is_none]; [|done].
  intros [= <- <-]. split; [done|]. unfold runtime_ok. cbn [core_plan rt_listener rt_pool]. by rewrite Ep.
Qed.

Lemma refresh_empty configured :
  refresh_pool (new_pool DEFAULT_CORE_POOL_SIZE : Pool T) configured =
  ((λ e, mkPoolRefresh e (one_of configured e) false 0 0 DEFAULT_CORE_POOL_SIZE) <$>
     known_pool_endpoints (new_pool DEFAULT_CORE_POOL_SIZE : Pool T) configured, new_pool DEFAULT_CORE_POOL_SIZE).
Proof.
  unfold refresh_pool. generalize (known_pool_endpoints (new_pool DEFAULT_CORE_POOL_SIZE : Pool T) configured). intros l.
  assert (∀ acc, foldl (refresh_known configured) (acc, new_pool DEFAULT_CORE_POOL_SIZE : Pool T) l =
    (acc ++ ((λ e, mkPoolRefresh e (one_of configured e) false 0 0 DEFAULT_CORE_POOL_SIZE) <$> l), new_pool DEFAULT_CORE_POOL_SIZE)) as ->;
    [|done].
  induction l as [|e l IH]; intros acc; simpl; [by rewrite app_nil_r|].
  unfold refresh_known at 2. unfold refresh_endpoint. simpl. rewrite lookup_empty. simpl. rewrite IH. unfold has_factory, ConnPool.len. simpl.
  rewrite !lookup_empty. simpl. by rewrite <-app_assoc.
Qed.

Lemma refresh_core h p : process_ok p → core (refresh_runtime h p).2 = core p.
Proof.
  intros Hok. unfold refresh_runtime. destruct (runtimes p !! h) as [g|] eqn:Eg; [|done].
  destruct (ok_runtimes p Hok h g Eg) as [Hlt [Hpl Hpool]]. rewrite Hpool, refresh_empty. unfold core, static. cbn.
  rewrite <-Hpool. rewrite insert_id; [done|]. rewrite Eg. by destruct g.
Qed.

Lemma stop_static name p : static (stop_listener name p).2 = static p.
Proof. unfold stop_listener. by destruct (_ ≫= _). Qed.

Lemma stop_ok name p : process_ok p → process_ok (stop_listener name p).2.
Proof.
  intros Hok. unfold stop_listener. destruct (runtime_state p) as [rs|] eqn:Ers; [|done]. cbn [mbind option_bind].
  destruct (shutdown_handles rs !! name) as [h|] eqn:Eh; [|done].
  destruct (ok_registered p Hok rs name h Ers Eh) as (_ & g & Hg & _). apply (ok_runtimes p Hok) in Hg as [Hlt _].
  destruct Hok. split; try done. cbn. intros h' [->%elem_of_singleton|Hh]%elem_of_union; [done|auto].
Qed.

Lemma refresh_all_core l p : process_ok p → core (refresh_all l p).2 = core p.
Proof.
  revert p. induction l as [|[name h] l IH]; intros p Hok; simpl; [done|].
  pose proof (refresh_core h p Hok) as E. destruct (refresh_runtime h p) as [r p1]. cbn [snd] in E.
  specialize (IH p1 (core_ok p p1 E Hok)). destruct (refresh_all l p1) as [rest p2]. cbn [snd] in *. congruence.
Qed.

Lemma refresh_pools_core rs p : process_ok p → core (refresh_pools rs p).2 = core p.
Proof.
  intros Hok. unfold refresh_pools. pose proof (refresh_all_core (map_to_list (pool_refreshers rs)) p Hok) as E.
  by destruct (refresh_all _ _).
Qed.

(** A new runtime under a name that is free. *)
Lemma register_ok g rs rs' p : process_ok p → runtime_state p = Some rs → runtime_ok g →
  register_listener (rt_listener g) (next_runtime p) rs = Ok rs' →
  process_ok (spawn (next_runtime p) (set_registered rs' (keep_runtime g p))).
Proof.
  intros Hok Hrs Hg. unfold register_listener. destruct (shutdown_handles rs !! rt_listener g) eqn:En; [done|].
  intros E%Ok_inj. subst rs'. assert (runtimes p !! next_runtime p = None) as Hfresh.
  { destruct (runtimes p !! next_runtime p) as [g'|] eqn:E; [|done]. apply (ok_runtimes p Hok) in E as [? _]. lia. }
  split.
  - apply (ok_config p Hok).
  - cbn. intros rs1 name h [= <-]. cbn. rewrite lookup_insert. case_decide as Hn.
    + intros [= <-]. split; [set_solver|]. exists g. by rewrite lookup_insert_eq.
    + intros Hh. destruct (ok_registered p Hok rs name h Hrs Hh) as (Hs & g' & Hg' & ?). split; [set_solver|].
      exists g'. rewrite lookup_insert_ne; [done|]. congruence.
  - cbn. intros rs1 [= <-]. cbn. destruct (ok_controls p Hok rs Hrs) as (-> & -> & ->). done.
  - cbn. intros h g'. rewrite lookup_insert. case_decide as Hn.
    + intros [= <-]. split; [lia|done].
    + intros Hh. apply (ok_runtimes p Hok) in Hh as [? ?]. split; [lia|done].
  - cbn. destruct (ok_spawned p Hok) as [Hnd Hall]. split.
    + apply NoDup_app. split_and!; [done| |apply NoDup_singleton]. intros x Hx Hin. apply list_elem_of_singleton in Hin as ->.
      destruct (Hall _ Hx). congruence.
    + intros h [Hh|Hh%list_elem_of_singleton]%elem_of_app.
      * rewrite lookup_insert. case_decide; [done|]. by apply Hall.
      * subst. by rewrite lookup_insert_eq.
  - cbn. intros h Hh. apply (ok_cancelled p Hok) in Hh. lia.
Qed.

Lemma keep_ok g p : process_ok p → runtime_ok g → process_ok (keep_runtime g p).
Proof.
  intros Hok Hg. assert (runtimes p !! next_runtime p = None) as Hfresh.
  { destruct (runtimes p !! next_runtime p) as [g'|] eqn:E; [|done]. apply (ok_runtimes p Hok) in E as [? _]. lia. }
  split; cbn.
  - apply (ok_config p Hok).
  - intros rs name h Hrs Hh. destruct (ok_registered p Hok rs name h Hrs Hh) as (Hs & g' & Hg' & ?). split; [done|].
    exists g'. rewrite lookup_insert_ne; [done|]. congruence.
  - apply (ok_controls p Hok).
  - intros h g'. rewrite lookup_insert. case_decide as Hn; [intros [= <-]; split; [lia|done]|].
    intros Hh. apply (ok_runtimes p Hok) in Hh as [? ?]. split; [lia|done].
  - destruct (ok_spawned p Hok) as [Hnd Hall]. split; [done|]. intros h Hh. rewrite lookup_insert. case_decide; [done|]. by apply Hall.
  - intros h Hh. apply (ok_cancelled p Hok) in Hh. lia.
Qed.

Lemma set_config_ok d p : validated d → process_ok p → process_ok (set_config d p).
Proof. intros Hd [? ? ? ? ? ?]. split; try done. by intros d' [= <-]. Qed.

Lemma start_listeners_ok env names : ∀ i next p, process_ok p → is_Some (runtime_state p) →
  process_ok (start_listeners dialect_of env i next names p).2 ∧
  gateway_config (start_listeners dialect_of env i next names p).2 = gateway_config p.
Proof.
  induction names as [|name names IH]; intros i next p Hok [rs Hrs]; cbn [start_listeners]; [done|].
  destruct (try_build_proxy_for_listener dialect_of (re_build env i) next name (stores p)) as [[g|e] s] eqn:Eb; [|split; [by apply (core_ok p)|done]].
  apply built_runtime in Eb as [Hname Hg].
  assert (process_ok (set_stores s p)) as Hok1 by (by apply (core_ok p)).
  unfold register_or_replace. cbn [runtime_state keep_runtime set_stores]. rewrite Hrs.
  destruct (register_listener (rt_listener g) (next_runtime (set_stores s p)) rs) as [rs'|e] eqn:Er.
  - destruct (IH (S i) next (spawn (next_runtime (set_stores s p)) (set_registered rs' (keep_runtime g (set_stores s p))))) as [? ?]; [|done..].
    by apply (register_ok g rs).
  - split.
    + by apply stop_ok, keep_ok.
    + pose proof (stop_static name (keep_runtime g (set_stores s p))) as Ec. unfold static in Ec. by injection Ec.
Qed.

(** ** Requests *)

Lemma stop_all_ok names p : process_ok p → process_ok (stop_all names p) ∧ static (stop_all names p) = static p.
Proof.
  revert p. induction names as [|n names IH]; intros p Hok; [done|]. simpl. destruct (IH _ (stop_ok n p Hok)) as [? ->].
  split; [done|apply stop_static].
Qed.

Lemma static_state p p' : static p' = static p → runtime_state p' = runtime_state p ∧ gateway_config p' = gateway_config p.
Proof. intros E. by injection E. Qed.

Lemma reload_runtime_ok env next d p : process_ok p →
  process_ok (reload_runtime dialect_of env next d p).2 ∧
  gateway_config (reload_runtime dialect_of env next d p).2 = gateway_config p.
Proof.
  intros Hok. unfold reload_runtime. destruct (runtime_state p) as [rs|] eqn:Ers; [|done].
  destruct (stop_all_ok (removed (d_listeners d)) p Hok) as [Hok0 E0].
  destruct (stop_all_ok (changed (d_listeners d)) _ Hok0) as [Hok1 E1]. rewrite E0 in E1.
  set (p1 := stop_all _ (stop_all _ p)) in *. destruct (static_state _ _ E1) as [Er Eg].
  destruct (start_listeners_ok env (added (d_listeners d) ++ changed (d_listeners d)) 0 next p1) as [Hok2 Hc2];
    [done|rewrite Er, Ers; eauto|].
  destruct (start_listeners _ _ _ _ _ _) as [[[]|r] p2]; cbn [snd] in *; [|by rewrite Hc2].
  destruct (section_has_changes _); [|by rewrite Hc2]. destruct (runtime_state p2) as [rs2|]; [|by rewrite Hc2].
  pose proof (refresh_pools_core rs2 p2 Hok2) as E2. split; [by apply (core_ok p2)|].
  injection E2 as E2 _. rewrite E2. congruence.
Qed.

Lemma loaded_validated contents d : load_source PdpStore.cedar_feature toml_parse contents = Ok d → validated d.
Proof.
  unfold load_source, from_toml. destruct contents as [text|]; cbn [map_err mbind result_bind]; [|done].
  destruct (toml_parse text) as [doc|]; cbn [map_err mbind result_bind]; [|done].
  destruct (validate_gateway _ _) as [[]|] eqn:Ev; cbn [map_err mbind result_bind]; [|done].
  destruct (AdminAuth.validate _) as [[]|] eqn:Ea; cbn [map_err mbind result_bind]; [|done]. intros E%Ok_inj. by subst.
Qed.

Lemma reload_ok current env ctx p : process_ok p → process_ok (reload_with dialect_of toml_parse current env ctx p).2.
Proof.
  intros Hok. unfold reload_with. destruct (config_source p) as [source|]; [|done].
  destruct (load_source _ _ _) as [next|e] eqn:El; [|done]. apply loaded_validated in El.
  destruct (has_changes _); cbn [negb]; [|by apply (core_ok p)].
  destruct (reload_runtime_ok env next (between current next) (set_config next p)) as [Hr _]; [by apply set_config_ok|].
  destruct (reload_runtime _ _ _ _ _) as [[[]|r] p2]; cbn [snd] in *; [|done]. by apply (core_ok p2).
Qed.

Lemma add_listener_ok l env ctx p : process_ok p → process_ok (admin_add_listener dialect_of l env ctx p).2.
Proof.
  intros Hok. unfold admin_add_listener. destruct (gateway_config p) as [d|] eqn:Ed; [|done].
  destruct (runtime_state p) as [rs|] eqn:Ers; [|done].
  destruct (validate_gateway _ _) as [[]|] eqn:Ev; [|done].
  destruct (try_build_proxy_for_listener _ _ _ _ _) as [[g|e] s] eqn:Eb; [|by apply (core_ok p)].
  apply built_runtime in Eb as [Hname Hg]. destruct (register_listener _ _ _) as [rs'|e] eqn:Er; [|by apply (core_ok p)].
  cbn [snd]. set (d' := set_gateway _ d).
  apply (core_ok (set_config d' (spawn (next_runtime (set_stores s p)) (set_registered rs' (keep_runtime g (set_stores s p)))))); [done|].
  apply set_config_ok; [split; [done|]; by apply (ok_config p Hok d Ed)|]. apply (register_ok g rs); [|done..]. by apply (core_ok p).
Qed.

Lemma replace_policy_ok name rp env ctx p : process_ok p → process_ok (admin_replace_route_policy name rp env ctx p).2.
Proof.
  intros Hok. unfold admin_replace_route_policy. destruct (gateway_config p) as [d|] eqn:Ed; [|done].
  destruct (negb _); [done|]. destruct (position _ _); [|done]. destruct (validate_gateway _ _) as [[]|] eqn:Ev; [|done].
  cbn [snd]. set (d' := set_gateway _ d). apply (core_ok (set_config d' p)); [done|]. apply set_config_ok; [|done].
  split; [done|]. by apply (ok_config p Hok d Ed).
Qed.

(** The requests that touch the stores and the log only. *)
Definition touches_core (r : Request) : bool :=
  match r with
  | AddListener _ | ReplaceRoutePolicy _ _ | RefreshPools | RefreshPool _ | Reload | StopListener _ => true
  | _ => false
  end.

Lemma dispatch_core r env ctx p : touches_core r = false → core (dispatch dialect_of toml_parse r env ctx p).2 = core p.
Proof.
  destruct r; try done; intros _; cbn [dispatch]; unfold show_config, admin_audit_events, admin_issue_ticket, admin_approve_ticket,
    admin_reject_ticket, admin_revoke_ticket, admin_prune_tickets, admin_list_projects, admin_list_vault_leases,
    admin_issue_vault_lease, admin_revoke_vault_lease, admin_renew_vault_lease, admin_prune_vault_leases, with_runtime;
    repeat case_match; done.
Qed.

Lemma admin_dispatch_ok r env ctx p : process_ok p → process_ok (dispatch dialect_of toml_parse r env ctx p).2.
Proof.
  intros Hok. destruct (touches_core r) eqn:Et; [|by apply (core_ok p); [apply dispatch_core|]].
  destruct r; try done; cbn [dispatch].
  - by apply add_listener_ok.
  - by apply replace_policy_ok.
  - unfold admin_refresh_pools, with_runtime. destruct (runtime_state p) as [rs|]; [|done].
    pose proof (refresh_pools_core rs p Hok) as E. destruct (refresh_pools rs p) as [l p2]. cbn [snd] in *. by apply (core_ok p).
  - unfold admin_refresh_pool, with_runtime. destruct (runtime_state p) as [rs|]; [|done].
    destruct (pool_refreshers rs !! name) as [h|]; [|done]. pose proof (refresh_core h p Hok) as E.
    destruct (refresh_runtime h p) as [l p2]. cbn [snd] in *. by apply (core_ok p).
  - unfold admin_reload. destruct (gateway_config p); [by apply reload_ok|done].
  - unfold admin_stop_listener, with_runtime. destruct (runtime_state p) as [rs|]; [|done].
    pose proof (stop_ok name p Hok) as E. destruct (stop_listener name p) as [[b|] p2]; cbn [snd] in *; [by apply (core_ok p2)|done].
Qed.

Lemma handle_ok env authorization r p : process_ok p → process_ok (handle dialect_of toml_parse env authorization r p).2.
Proof.
  intros Hok. destruct (is_identity r) eqn:Ei.
  - destruct r; try done; cbn [handle]. unfold admin_me. destruct (AdminAuth.enabled _); cbn [negb]; [|done].
    destruct (AdminAuth.authenticate_request _ _ _ _ _ _). by apply (core_ok p).
  - rewrite handle_routed by done. unfold authorize. destruct (AdminAuth.authenticate_request _ _ _ _ _ _) as [[ctx|e] c]; cbn [map_err].
    + apply admin_dispatch_ok. by apply (core_ok p).
    + by apply (core_ok p).
Qed.

(** ** Sessions *)

(** A session of a runtime begins and ends. *)
Definition with_sessions (h : nat) (f : SessionRegistry → SessionRegistry) (p : Process R T) : Process R T :=
  match runtimes p !! h with
  | Some g => set_runtimes (<[h := mkRuntime (pisa_version g) (core_plan g) (rt_listener g) (rt_pool g) (f (rt_sessions g))]> (runtimes p)) p
  | None => p
  end.

Lemma with_sessions_ok h f p : process_ok p → process_ok (with_sessions h f p).
Proof.
  intros Hok. unfold with_sessions. destruct (runtimes p !! h) as [g|] eqn:Eg; [|done].
  destruct (ok_runtimes p Hok h g Eg) as [Hlt Hg]. split; cbn.
  - apply (ok_config p Hok).
  - intros rs name h' Hrs Hh. destruct (ok_registered p Hok rs name h' Hrs Hh) as (Hs & g' & Hg' & Hn). split; [done|].
    rewrite lookup_insert. case_decide; [subst; eexists; split; [done|]; cbn; congruence|eauto].
  - apply (ok_controls p Hok).
  - intros h' g'. rewrite lookup_insert. case_decide; [intros [= <-]; subst; done|]. apply (ok_runtimes p Hok).
  - destruct (ok_spawned p Hok) as [? Hall]. split; [done|]. intros h' Hh. rewrite lookup_insert. case_decide; [done|]. by apply Hall.
  - apply (ok_cancelled p Hok).
Qed.

(** ** The whole process *)

Inductive Event :=
| ERequest (env : ReqEnv) (authorization : option str) (r : Request)
| EOpen (h : nat) (e : SessionEntrySnapshot)
| EClose (h : nat) (sid : Z).

Definition step (p : Process R T) (e : Event) : Process R T :=
  match e with
  | ERequest env authorization r => (handle dialect_of toml_parse env authorization r p).2
  | EOpen h e => with_sessions h (λ r, (register e r).2) p
  | EClose h sid => with_sessions h (remove_session sid) p
  end.

Lemma step_ok e p : process_ok p → process_ok (step p e).
Proof. destruct e; [apply handle_ok|apply with_sessions_ok|apply with_sessions_ok]. Qed.

Lemma process_run_ok es p : process_ok p → process_ok (foldl step p es).
Proof. revert p. induction es as [|e es IH]; intros p Hok; [done|]. by apply IH, step_ok. Qed.

(** ** The start *)

Lemma instances_built env doc ls : ∀ i s gs s',
  build_instances dialect_of (T := T) env i doc ls s = (Ok gs, s') →
  Forall runtime_ok gs ∧ rt_listener <$> gs = l_name <$> ls.
Proof.
  induction ls as [|l ls IH]; intros i s gs s'; cbn [build_instances]; [intros [= <- <-]; done|].
  unfold build_native_proxy_instance, from_core_config_for_listener.
  destruct (plan_from_config _ _ _ _) as [[plans|] s1]; [|done].
  destruct (plan_listener plans (l_name l)) as [pl|] eqn:Ep; cbn [is_none]; [|done].
  destruct (build_instances _ _ _ _ _ _) as [[gs'|] s2] eqn:Eb; [|done]. cbn [mbind result_bind]. intros [= <- <-].
  destruct (IH _ _ _ _ Eb) as [? ?]. split; [constructor; [|done]|by f_equal/=].
  unfold runtime_ok. cbn [core_plan rt_listener rt_pool]. by rewrite Ep.
Qed.

Lemma controls_lookup (gs : list (GatewayRuntime R T)) : ∀ h rs name n,
  shutdown_handles (new_with_runtime_controls h gs rs) !! name = Some n →
  shutdown_handles rs !! name = Some n ∨ ∃ i g, gs !! i = Some g ∧ n = (h + i)%nat ∧ rt_listener g = name.
Proof.
  induction gs as [|g gs IH]; intros h rs name n; cbn [new_with_runtime_controls]; [by left|]. intros Hn.
  apply IH in Hn as [Hn|(i & g' & Hi & -> & ?)].
  - cbn in Hn. rewrite lookup_insert in Hn. case_decide; [|by left]. injection Hn as <-. right. exists 0%nat, g. split; [done|]. split; [lia|done].
  - right. exists (S i), g'. split; [done|]. split; [lia|done].
Qed.

Lemma controls_same (gs : list (GatewayRuntime R T)) : ∀ h rs,
  pool_snapshotters rs = shutdown_handles rs ∧ pool_refreshers rs = shutdown_handles rs ∧ session_snapshotters rs = shutdown_handles rs →
  let rs' := new_with_runtime_controls h gs rs in
  pool_snapshotters rs' = shutdown_handles rs' ∧ pool_refreshers rs' = shutdown_handles rs' ∧
  session_snapshotters rs' = shutdown_handles rs'.
Proof. induction gs as [|g gs IH]; intros h rs E; [done|]. cbn. apply IH. cbn. destruct E as (-> & -> & ->). done. Qed.

Lemma controls_cover (gs : list (GatewayRuntime R T)) : ∀ h rs name,
  name ∈ (rt_listener <$> gs) ∨ is_Some (shutdown_handles rs !! name) →
  is_Some (shutdown_handles (new_with_runtime_controls h gs rs) !! name).
Proof.
  induction gs as [|g gs IH]; intros h rs name Hin; cbn [new_with_runtime_controls]; [destruct Hin; [set_solver|done]|].
  apply IH. cbn. rewrite lookup_insert. rewrite fmap_cons, elem_of_cons in Hin. case_decide; [eauto|]. naive_solver.
Qed.

(** Every listener of the document runs. *)
Definition serving (p : Process R T) (d : GatewayConfigDocument) : Prop :=
  ∃ rs, runtime_state p = Some rs ∧ ∀ l, l ∈ listeners (gateway d) →
    ∃ h, shutdown_handles rs !! l_name l = Some h ∧ h ∈ spawned p ∧ h ∉ cancelled p.

Lemma boot_ok env source contents fs d p : boot dialect_of toml_parse env source contents fs d = Ok p →
  process_ok p ∧ ∃ doc, gateway_config p = Some doc ∧ serving p doc.
Proof.
  unfold boot. destruct (load_source _ _ _) as [doc|] eqn:El; cbn [map_err mbind result_bind]; [|done].
  apply loaded_validated in El. unfold try_build_proxies. destruct (is_empty _); [done|].
  destruct (build_instances _ _ _ _ _ _) as [[gs|] s] eqn:Eb; cbn [mbind result_bind]; [|done].
  apply instances_built in Eb as [Hgs Hnames]. intros E%Ok_inj. subst p.
  assert (∀ h g, (map_seq 0 gs : gmap nat (GatewayRuntime R T)) !! h = Some g ↔ gs !! h = Some g) as Hseq.
  { intros h g. by rewrite lookup_map_seq_0. }
  assert (∀ name h, shutdown_handles (new_with_runtime_controls 0 gs (mkRuntimeState ∅ ∅ ∅ ∅)) !! name = Some h →
    ∃ g, gs !! h = Some g ∧ rt_listener g = name) as Hreg.
  { intros name h [Hh|(i & g & Hi & -> & Hg)]%controls_lookup; [done|]. eauto. }
  assert (∀ h, h ∈ seq 0 (length gs) ↔ is_Some (gs !! h)) as Hspawn.
  { intros h. rewrite elem_of_seq, lookup_lt_is_Some. lia. }
  split; [split; cbn|].
  - by intros ? [= <-].
  - intros rs name h [= <-] Hh. apply Hreg in Hh as (g & Hg & Hn). rewrite Hspawn. split; [eauto|]. exists g. by rewrite Hseq.
  - intros rs [= <-]. by apply (controls_same gs 0).
  - intros h g Hh. apply Hseq in Hh. split; [by eapply lookup_lt_Some|]. by eapply Forall_lookup in Hgs.
  - split; [apply NoDup_seq|]. intros h [g Hg]%Hspawn. exists g. by apply Hseq.
  - set_solver.
  - exists doc. split; [done|]. eexists. split; [done|]. intros l Hl.
    destruct (controls_cover gs 0 (mkRuntimeState ∅ ∅ ∅ ∅) (l_name l)) as [h Hh].
    { left. rewrite Hnames. apply list_elem_of_fmap. eauto. }
    exists h. split; [done|]. apply Hreg in Hh as (g & Hg & _). split; [|cbn; set_solver]. cbn. rewrite Hspawn. eauto.
Qed.

(** What the administration interface shows is consistent: the document is a validated one,
    and a registered listener has its four controls over one runtime, which serves it, has a
    plan for it and was started. *)
Record consistent (p : Process R T) : Prop := {
  has_valid_config : ∀ d, gateway_config p = Some d → validated d;
  has_controls : ∀ rs name h, runtime_state p = Some rs → shutdown_handles rs !! name = Some h →
    pool_snapshotters rs !! name = Some h ∧ pool_refreshers rs !! name = Some h ∧ session_snapshotters rs !! name = Some h;
  has_runtime : ∀ rs name h, runtime_state p = Some rs → shutdown_handles rs !! name = Some h →
    h ∈ spawned p ∧ ∃ g, runtimes p !! h = Some g ∧ rt_listener g = name ∧ is_Some (plan_listener (core_plan g) name);
  has_one_runtime : ∀ rs n m h, runtime_state p = Some rs → shutdown_handles rs !! n = Some h → shutdown_handles rs !! m = Some h → n = m
}.

Lemma ok_consistent p : process_ok p → consistent p.
Proof.
  intros Hok. split.
  - apply (ok_config p Hok).
  - intros rs name h Hrs Hh. by destruct (ok_controls p Hok rs Hrs) as (-> & -> & ->).
  - intros rs name h Hrs Hh. destruct (ok_registered p Hok rs name h Hrs Hh) as (Hs & g & Hg & Hn). split; [done|]. exists g.
    destruct (ok_runtimes p Hok h g Hg) as [_ [Hp _]]. by rewrite <-Hn.
  - intros rs n m h Hrs Hn Hm. destruct (ok_registered p Hok rs n h Hrs Hn) as (_ & g & Hg & <-).
    destruct (ok_registered p Hok rs m h Hrs Hm) as (_ & g' & Hg' & <-). congruence.
Qed.

(** C40 From its start on, and whatever requests and sessions follow, the document of the
    process is a validated one, and every registered listener has all four controls (stop,
    show the pool, refresh the pool, show the sessions) over one and the same runtime, which
    serves that listener and no other, has a plan for it and was started. *)
Theorem process_invariant env source contents fs d p es :
  boot dialect_of toml_parse env source contents fs d = Ok p → consistent (foldl step p es).
Proof. intros Hb. apply ok_consistent, process_run_ok. by eapply boot_ok. Qed.
End Runs.

End AdminRuns.
