(* ===== verification/AdminReload.v ===== *)
(** * What a reload does to the listeners

    A reload that is applied leaves every listener of the new document running; one
    that would have to restart a listener fails after it stopped it.

    [AdminExamples]: concrete runs. *)

From S2P Require Import ConnPool AuditEvents AuditIndex AuditPipeline Prelude RustStr Model Session TimeRules StateCrypto Ticket TicketTheorems Vault Obligations ObjectSet Security Translation LoadBalance Plugin Pdp PdpStore GatewayConfig RuntimePlan AdminAuth ConfigDiff Runtime AdminApi AdminApiTheorems AdminRuns.
Import ConfigDiff Runtime AdminApi AdminApiTheorems AdminRuns.

Module AdminReload.

Section Reload.
Context `{TimeRules.Chrono, StateCrypto.Crypto, Ticket.TicketJson, Vault.VaultJson, PdpStore.CedarLoader, PdpStore.PolicyJson, AdminAuth.Jwt}.
Context {R : Type} `{LoadBalance.Rng R} (dialect_of : ProtocolKind → DialectParser) {T : Type}.
Context (toml_parse : str → result str GatewayConfigDocument).
Implicit Types p : Process R T.

(** ** Stopping *)

Lemma stop_cancels rs name p : runtime_state p = Some rs →
  runtime_state (stop_listener name p).2 = Some rs ∧
  ∀ h, h ∈ cancelled (stop_listener name p).2 ↔ h ∈ cancelled p ∨ shutdown_handles rs !! name = Some h.
Proof.
  intros Hrs. unfold stop_listener. rewrite Hrs. cbn [mbind option_bind].
  destruct (shutdown_handles rs !! name) as [h'|] eqn:E; cbn [snd]; (split; [done|]); intros h; [cbn; set_solver|naive_solver].
Qed.

Lemma stop_all_cancels rs names : ∀ p, runtime_state p = Some rs →
  runtime_state (stop_all names p) = Some rs ∧
  ∀ h, h ∈ cancelled (stop_all names p) ↔ h ∈ cancelled p ∨ ∃ n, n ∈ names ∧ shutdown_handles rs !! n = Some h.
Proof.
  induction names as [|n names IH]; intros p Hrs; cbn [stop_all foldl]; [split; [done|]; set_solver|].
  destruct (stop_cancels rs n p Hrs) as [Hr1 Hc1]. destruct (IH _ Hr1) as [Hr2 Hc2]. split; [done|]. intros h.
  rewrite Hc2, Hc1. set_solver.
Qed.

(** ** Starting *)

Definition same_or_more (rs rs' : AdminRuntimeState) : Prop :=
  ∀ n h, shutdown_handles rs !! n = Some h → shutdown_handles rs' !! n = Some h.

Lemma registered_more name h rs rs' : register_listener name h rs = Ok rs' →
  shutdown_handles rs !! name = None ∧ shutdown_handles rs' = <[name := h]> (shutdown_handles rs).
Proof. unfold register_listener. destruct (shutdown_handles rs !! name); [done|]. intros E%Ok_inj. by subst. Qed.

(** The loop succeeds only over names that are free; it cancels nothing. *)
Lemma started env names : ∀ i next p p' rs, process_ok p → runtime_state p = Some rs →
  start_listeners dialect_of env i next names p = (Ok tt, p') →
  cancelled p' = cancelled p ∧ spawned p ⊆ spawned p' ∧ (next_runtime p ≤ next_runtime p')%nat ∧
  ∃ rs', runtime_state p' = Some rs' ∧ same_or_more rs rs' ∧ ∀ n, n ∈ names → shutdown_handles rs !! n = None ∧
    ∃ h, shutdown_handles rs' !! n = Some h ∧ h ∈ spawned p' ∧ (next_runtime p ≤ h)%nat.
Proof.
  induction names as [|name names IH]; intros i next p p' rs Hok Hrs; cbn [start_listeners].
  { intros [= <-]. split_and!; [done..|]. exists rs. split; [done|]. split; [by intros ??|]. intros n Hn. by apply not_elem_of_nil in Hn. }
  destruct (try_build_proxy_for_listener dialect_of (re_build env i) next name (stores p)) as [[g|e] s] eqn:Eb; [|done].
  apply built_runtime in Eb as [Hname Hg]. unfold register_or_replace. cbn [runtime_state keep_runtime set_stores]. rewrite Hrs.
  destruct (register_listener (rt_listener g) (next_runtime (set_stores s p)) rs) as [rs1|e] eqn:Er; [|done].
  set (p1 := spawn (next_runtime (set_stores s p)) (set_registered rs1 (keep_runtime g (set_stores s p)))). intros Hs.
  assert (process_ok p1) as Hok1.
  { apply (register_ok g rs); [|done..]. by apply (core_ok p). }
  apply registered_more in Er as [Hfree Hmore]. rewrite Hname in Hfree, Hmore.
  destruct (IH _ _ _ _ rs1 Hok1 eq_refl Hs) as (Hc & Hsp & Hlt & rs2 & Hr2 & Hm2 & Hall). cbn in Hc, Hsp, Hlt, Hall.
  split_and!; [done|set_solver|lia|]. exists rs2. split; [done|]. split.
  - intros n h Hn. apply Hm2. rewrite Hmore, lookup_insert_ne; [done|]. congruence.
  - intros n [->|Hn]%elem_of_cons.
    + split; [done|]. exists (next_runtime p). split; [apply Hm2; by rewrite Hmore, lookup_insert_eq|]. split; [|lia].
      apply Hsp. set_solver.
    + destruct (Hall n Hn) as (Hnone & h & Hh & Hhs & Hge). split; [|exists h; split_and!; [done|done|lia]].
      rewrite Hmore in Hnone. by apply lookup_insert_None in Hnone as [? _].
Qed.

Lemma start_error env names : ∀ i next p r p',
  start_listeners dialect_of env i next names p = (Err r, p') → ∃ m, r = reload_failed m.
Proof.
  induction names as [|name names IH]; intros i next p r p'; cbn [start_listeners]; [done|].
  destruct (try_build_proxy_for_listener _ _ _ _ _) as [[g|e] s]; [|intros [= <- <-]; eauto].
  destruct (register_or_replace _ _ _ _) as [[[]|e] p1]; [apply IH|intros [= <- <-]; eauto].
Qed.

Lemma start_cancelled env names : ∀ i next p r p' rs, process_ok p → runtime_state p = Some rs →
  start_listeners dialect_of env i next names p = (r, p') → cancelled p ⊆ cancelled p' ∧
  ∃ rs', runtime_state p' = Some rs' ∧ same_or_more rs rs'.
Proof.
  induction names as [|name names IH]; intros i next p r p' rs Hok Hrs; cbn [start_listeners].
  { intros [= <- <-]. split; [done|]. exists rs. split; [done|by intros ??]. }
  destruct (try_build_proxy_for_listener dialect_of (re_build env i) next name (stores p)) as [[g|e] s] eqn:Eb.
  2: { intros [= <- <-]. split; [done|]. exists rs. split; [done|by intros ??]. }
  apply built_runtime in Eb as [Hname Hg]. unfold register_or_replace. cbn [runtime_state keep_runtime set_stores]. rewrite Hrs.
  destruct (register_listener (rt_listener g) (next_runtime (set_stores s p)) rs) as [rs1|e] eqn:Er.
  - set (p1 := spawn (next_runtime (set_stores s p)) (set_registered rs1 (keep_runtime g (set_stores s p)))). intros Hs.
    assert (process_ok p1) as Hok1 by (apply (register_ok g rs); [|done..]; by apply (core_ok p)).
    destruct (IH _ _ _ _ _ rs1 Hok1 eq_refl Hs) as (Hc & rs2 & Hr2 & Hm2). split; [done|]. exists rs2. split; [done|].
    apply registered_more in Er as [Hfree Hmore]. intros n h Hn. apply Hm2. rewrite Hmore, lookup_insert_ne; [done|]. congruence.
  - intros [= <- <-]. destruct (stop_cancels rs name (keep_runtime g (set_stores s p)) Hrs) as [Hr Hc]. split; [|exists rs; split; [done|by intros ??]].
    intros h Hh. apply Hc. by left.
Qed.

(** ** The marked differences *)

Lemma mark_keeps names : ∀ d, added (mark_listeners names d) = added d ∧ removed (mark_listeners names d) = removed d ∧
  changed d ⊆ changed (mark_listeners names d).
Proof.
  induction names as [|n names IH]; intros d; [done|].
  change (mark_listeners (n :: names) d) with (mark_listeners names
    (if one_of (added d) n || one_of (removed d) n || one_of (changed d) n then d
     else mkSectionDiff (added d) (removed d) (changed d ++ [n]))).
  destruct (_ || _); [apply IH|]. destruct (IH (mkSectionDiff (added d) (removed d) (changed d ++ [n]))) as (-> & -> & Hc).
  cbn in *. split_and!; [done..|set_solver].
Qed.

Lemma mark_new names n : ∀ d, n ∈ changed (mark_listeners names d) → n ∈ changed d ∨ n ∈ names ∧ n ∉ added d.
Proof.
  induction names as [|m names IH]; intros d Hn; [by left|].
  change (mark_listeners (m :: names) d) with (mark_listeners names
    (if one_of (added d) m || one_of (removed d) m || one_of (changed d) m then d
     else mkSectionDiff (added d) (removed d) (changed d ++ [m]))) in Hn.
  destruct (one_of (added d) m) eqn:Ea; [apply IH in Hn; set_solver|]. cbn [orb] in Hn.
  destruct (_ || _); [apply IH in Hn; set_solver|]. apply IH in Hn as [Hn|Hn]; cbn in Hn; [|set_solver].
  apply elem_of_app in Hn as [Hn|Hn%list_elem_of_singleton]; [by left|]. subst. right. split; [left|].
  intros Hin. assert (one_of (added d) m = true); [|congruence]. by apply one_of_elem.
Qed.

Lemma listener_diff current next : let d := d_listeners (between current next) in
  let raw := diff_named_section l_name (listeners (gateway current)) (listeners (gateway next)) in
  added d = added raw ∧ removed d = removed raw ∧ changed raw ⊆ changed d.
Proof.
  cbn. destruct (_ && _); [apply mark_keeps|done].
Qed.

(** A listener that counts as changed is in both documents. *)
Lemma changed_in_both current next n : NoDup (l_name <$> listeners (gateway current)) → NoDup (l_name <$> listeners (gateway next)) →
  n ∈ changed (d_listeners (between current next)) → n ∈ (l_name <$> listeners (gateway current)).
Proof.
  intros Hc Hn. destruct (diff_section_spec l_name _ _ n Hc Hn) as (Ha & _ & Hch). cbn.
  set (raw := diff_named_section l_name (listeners (gateway current)) (listeners (gateway next))) in *.
  assert (n ∈ changed raw → n ∈ (l_name <$> listeners (gateway current))) as Hraw.
  { intros (x & y & Hx & _ & <- & _)%Hch. apply list_elem_of_fmap. eauto. }
  destruct (_ && _); [|done]. intros [?|[Hin Hna]]%mark_new; [by apply Hraw|].
  destruct (decide (n ∈ (l_name <$> listeners (gateway current)))); [done|]. destruct Hna. apply Ha. done.
Qed.

(** ** Reload *)

Lemma reinstall_pdp env sec d s : pdp_store (reinstall env sec d s) = pdp_store s.
Proof.
  unfold reinstall. destruct (security_changed d); [|done]. unfold install_vault, install_tickets.
  destruct (Vault.install_vault_store _ _ _ _ _ _); destruct (Ticket.install_ticket_store _ _ _ _ _ _); done.
Qed.

Lemma reloaded_pdp env sec d s : Security.enabled sec = true → security_changed d = true →
  ∃ previous, PdpStore.current (pdp_store (maybe_reload_local_pdp env sec d s)) = PdpStore.from_config_preserving_cedar sec previous.
Proof.
  intros He Hc. unfold maybe_reload_local_pdp. rewrite He, Hc. cbn [negb orb].
  unfold PdpStore.reload_global_local_pdp. rewrite He. cbn [negb].
  exists (PdpStore.current (pdp_store s)). done.
Qed.

Lemma reload_config current env ctx p resp p' source next :
  config_source p = Some source → load_source PdpStore.cedar_feature toml_parse (re_source env) = Ok next →
  has_changes (between current next) = true →
  reload_with dialect_of toml_parse current env ctx p = (resp, p') →
  ∃ r p2, reload_runtime dialect_of env next (between current next) (set_config next p) = (r, p2) ∧ core p' = core p2 ∧
    match r with
    | Err e => resp = Ret e ∧ p' = p2
    | Ok _ => resp = Ret (json_response (BReload (mkReload ($"applied") source true true (between current next)))) ∧
        stores p' = reinstall (re_install env) (security (gateway next)) (between current next)
          (maybe_reload_local_pdp (be_policy (re_install env) 0) (security (gateway next)) (between current next) (stores p2))
    end.
Proof.
  intros Hs Hl Hd. unfold reload_with. rewrite Hs, Hl, Hd. cbn [negb].
  destruct (reload_runtime _ _ _ _ _) as [[[]|r] p2]; intros [= <- <-]; eexists _, p2; done.
Qed.

(** What the runtime part of a reload did when it succeeded. *)
Lemma reloaded_runtime env next d p p2 rs : process_ok p → runtime_state p = Some rs →
  reload_runtime dialect_of env next d p = (Ok tt, p2) →
  (∀ h, h ∈ cancelled p2 ↔ h ∈ cancelled p ∨
     ∃ n, n ∈ removed (d_listeners d) ++ changed (d_listeners d) ∧ shutdown_handles rs !! n = Some h) ∧
  spawned p ⊆ spawned p2 ∧ ∃ rs2, runtime_state p2 = Some rs2 ∧ same_or_more rs rs2 ∧
  ∀ n, n ∈ added (d_listeners d) ++ changed (d_listeners d) → shutdown_handles rs !! n = None ∧
    ∃ h, shutdown_handles rs2 !! n = Some h ∧ h ∈ spawned p2 ∧ (next_runtime p ≤ h)%nat.
Proof.
  intros Hok Hrs. unfold reload_runtime. rewrite Hrs.
  destruct (stop_all_ok (removed (d_listeners d)) p Hok) as [Hok0 E0].
  destruct (stop_all_ok (changed (d_listeners d)) _ Hok0) as [Hok1 E1]. rewrite E0 in E1.
  destruct (stop_all_cancels rs (removed (d_listeners d)) p Hrs) as [Hr0 Hc0].
  destruct (stop_all_cancels rs (changed (d_listeners d)) _ Hr0) as [Hr1 Hc1].
  set (p1 := stop_all (changed _) (stop_all _ p)) in *.
  assert (next_runtime p1 = next_runtime p ∧ spawned p1 = spawned p) as [En Es] by (by injection E1).
  destruct (start_listeners _ _ _ _ _ _) as [[[]|r] p3] eqn:E3; [|done]. intros [= <-].
  assert (process_ok p3) as Hok3.
  { pose proof (start_listeners_ok dialect_of env (added (d_listeners d) ++ changed (d_listeners d)) 0 next p1 Hok1) as Hst. rewrite E3 in Hst. apply Hst. eauto. }
  destruct (started env _ _ _ _ _ rs Hok1 Hr1 E3) as (Hc & Hsp & _ & rs3 & Hr3 & Hm & Hall).
  assert (core (if section_has_changes (d_endpoints d) then match runtime_state p3 with Some rs => (refresh_pools rs p3).2 | None => p3 end else p3)
    = core p3) as Ec.
  { destruct (section_has_changes _); [|done]. rewrite Hr3. by apply refresh_pools_core. }
  set (p4 := if section_has_changes _ then _ else _) in *. unfold core, static in Ec. injection Ec as Eg Er Ert En4 Es4 Ec4.
  rewrite Ec4, Es4, Er, Hc. split; [|split].
  - intros h. rewrite Hc1, Hc0. setoid_rewrite elem_of_app. naive_solver.
  - rewrite <-Es. done.
  - exists rs3. split; [done|]. split; [done|]. intros n Hn. rewrite <-En. by apply Hall.
Qed.

Lemma unique_listener (d : GatewayConfigDocument) : validated d → NoDup (l_name <$> listeners (gateway d)).
Proof. intros [Hv _]. by eapply unique_listeners, validated_names. Qed.

(** A handle belongs to one name. *)
Lemma handle_name rs p n m h : process_ok p → runtime_state p = Some rs →
  shutdown_handles rs !! n = Some h → shutdown_handles rs !! m = Some h → n = m.
Proof.
  intros Hok Hrs Hn Hm. destruct (ok_registered p Hok rs n h Hrs Hn) as (_ & g & Hg & <-).
  destruct (ok_registered p Hok rs m h Hrs Hm) as (_ & g' & Hg' & <-). congruence.
Qed.

Lemma reload_keeps_config env next d p r p2 : process_ok (set_config next p) →
  reload_runtime dialect_of env next d (set_config next p) = (r, p2) → gateway_config p2 = Some next.
Proof. intros Hok E. destruct (reload_runtime_ok dialect_of env next d _ Hok) as [_ Hc]. by rewrite E in Hc. Qed.

(** C9 A reload that reports to be applied installed the document it read: when every
    listener of the old document was running, every listener of the new one is; those that
    were in the old one stay on the runtime they had, the added ones are on a runtime
    that did not exist before; the removed ones are told to shut down, no listener was changed, and a changed security section
    that is enabled is what the policy decision point now decides by. *)
Theorem reload_keeps_serving env ctx p d rl p' :
  process_ok p → gateway_config p = Some d → serving p d →
  dispatch dialect_of toml_parse Reload env ctx p = (Ret (json_response (BReload rl)), p') → rl_applied rl = true →
  ∃ next, load_source PdpStore.cedar_feature toml_parse (re_source env) = Ok next ∧ rl_diff rl = between d next ∧
    gateway_config p' = Some next ∧ serving p' next ∧
    (∀ rs rs' l, runtime_state p = Some rs → runtime_state p' = Some rs' → l ∈ listeners (gateway next) →
       if bool_decide (l_name l ∈ (l_name <$> listeners (gateway d))) then shutdown_handles rs' !! l_name l = shutdown_handles rs !! l_name l
       else ∃ h, shutdown_handles rs' !! l_name l = Some h ∧ runtimes p !! h = None) ∧
    changed (d_listeners (rl_diff rl)) = [] ∧
    (∀ rs l h, runtime_state p = Some rs → l ∈ listeners (gateway d) → shutdown_handles rs !! l_name l = Some h →
       l_name l ∉ (l_name <$> listeners (gateway next)) → h ∈ cancelled p') ∧
    (Security.enabled (security (gateway next)) = true → security (gateway d) ≠ security (gateway next) →
     ∃ previous, PdpStore.current (pdp_store (stores p')) =
       PdpStore.from_config_preserving_cedar (security (gateway next)) previous).
Proof.
  intros Hok Hd (rs & Hrs & Hserve) Hdisp Happ. cbn [dispatch] in Hdisp. unfold admin_reload in Hdisp. rewrite Hd in Hdisp.
  destruct (config_source p) as [source|] eqn:Es; [|unfold reload_with in Hdisp; by rewrite Es in Hdisp].
  destruct (load_source PdpStore.cedar_feature toml_parse (re_source env)) as [next|e] eqn:El.
  2: { unfold reload_with in Hdisp. by rewrite Es, El in Hdisp. }
  destruct (has_changes (between d next)) eqn:Eh.
  2: { unfold reload_with in Hdisp. rewrite Es, El, Eh in Hdisp. cbn in Hdisp. injection Hdisp as <- <-. done. }
  destruct (reload_config d env ctx p _ p' source next Es El Eh Hdisp) as ([[]|e] & p2 & Hrt & Hcore & Hr).
  2: { destruct Hr as [Hr _]. pose proof (start_error env) as Hse. exfalso. unfold reload_runtime in Hrt.
       destruct (runtime_state (set_config next p)); [|done]. destruct (start_listeners _ _ _ _ _ _) as [[[]|r3] p3] eqn:E3; [done|].
       injection Hrt as -> ->. apply Hse in E3 as [m ->]. done. }
  destruct Hr as [Hresp Hst]. injection Hresp as Hrl. subst rl. cbn [rl_diff rl_applied] in *.
  assert (validated next) as Hv by (by eapply loaded_validated).
  assert (process_ok (set_config next p)) as Hok1 by (by apply set_config_ok).
  destruct (reloaded_runtime env next (between d next) (set_config next p) p2 rs Hok1 Hrs Hrt) as (Hc & Hsp & rs2 & Hr2 & Hm & Hall).
  destruct (listener_diff d next) as (Ea & Erm & Hchg).
  set (raw := diff_named_section l_name (listeners (gateway d)) (listeners (gateway next))) in *.
  pose proof (unique_listener d (ok_config p Hok d Hd)) as Hnc. pose proof (unique_listener next Hv) as Hnn.
  pose proof (λ k, diff_section_spec l_name (listeners (gateway d)) (listeners (gateway next)) k Hnc Hnn) as Hspec.
  cbn zeta in Hspec. fold raw in Hspec.
  assert (changed (d_listeners (between d next)) = []) as Hnone.
  { apply elem_of_nil_inv. intros n Hn. destruct (Hall n) as [Hfree _]; [apply elem_of_app; by right|].
    apply changed_in_both in Hn; [|done..]. apply list_elem_of_fmap in Hn as (l & -> & Hl). destruct (Hserve l Hl) as (h & Hh & _). congruence. }
  rewrite Hnone, app_nil_r, Erm in Hc. rewrite Hnone, app_nil_r, Ea in Hall.
  unfold core, static in Hcore. injection Hcore as Hcore1 Hcore2 _ _ Hcore5 Hcore6.
  exists next. split; [done|]. split; [done|]. split; [rewrite Hcore1; by eapply reload_keeps_config|]. split; [|split; [|split; [done|split]]].
  - exists rs2. rewrite Hcore2, Hcore5. split; [done|]. intros l Hl. setoid_rewrite Hcore6.
    destruct (decide (l_name l ∈ (l_name <$> listeners (gateway d)))) as [Hin|Hout].
    + apply list_elem_of_fmap in Hin as (l' & Hll & Hl'). destruct (Hserve l' Hl') as (h & Hh & Hs & Hnc').
      exists h. rewrite Hll. split; [by apply Hm|]. split; [by apply Hsp|]. rewrite Hc. intros [?|(n & Hn & Hh')]; [done|].
      apply Hspec in Hn as [_ Hn]. rewrite (handle_name rs p n (l_name l') h) in Hn; [|done..]. destruct Hn. rewrite <-Hll.
      apply list_elem_of_fmap. eauto.
    + destruct (Hall (l_name l)) as (_ & h & Hh & Hs & Hge).
      { apply Hspec. split; [|done]. apply list_elem_of_fmap. eauto. }
      exists h. split; [done|]. split; [done|]. rewrite Hc. cbn in Hge. intros [Hcn|(n & _ & Hh')].
      * apply (ok_cancelled p Hok) in Hcn. lia.
      * destruct (ok_registered p Hok rs n h Hrs Hh') as (_ & g & Hg & _). apply (ok_runtimes p Hok) in Hg as [? _]. lia.
  - intros rs1 rs' l Hrs1 Hrs' Hl. rewrite Hrs in Hrs1. injection Hrs1 as <-. rewrite Hcore2, Hr2 in Hrs'. injection Hrs' as <-. case_bool_decide as Hin.
    + apply list_elem_of_fmap in Hin as (l' & -> & Hl'). destruct (Hserve l' Hl') as (h & Hh & _). rewrite Hh. by apply Hm.
    + destruct (Hall (l_name l)) as (_ & h & Hh & _ & Hge); [apply Hspec; split; [|done]; apply list_elem_of_fmap; eauto|]. exists h. split; [done|].
      apply eq_None_not_Some. intros [g Hg]. apply (ok_runtimes p Hok) in Hg as [? _]. cbn in Hge. lia.
  - intros rs' l h Hrs' Hl Hh Hout. rewrite Hrs in Hrs'. injection Hrs' as <-. rewrite Hcore6, Hc. right. exists (l_name l).
    split; [|done]. apply Hspec. split; [|done]. apply list_elem_of_fmap. eauto.
  - intros He Hne. rewrite Hst, reinstall_pdp. apply reloaded_pdp; [done|]. cbn. by rewrite bool_decide_eq_false_2.
Qed.

(** A reload that changes a running listener never succeeds: the new document is
    installed and the listener is told to shut down, but its name stays registered to
    the runtime that stops, so the new one cannot be registered and the request ends
    with an error (before the policy decision point and the stores are reloaded). *)
Theorem changed_listener_fails env ctx p d source next n :
  process_ok p → gateway_config p = Some d → serving p d → config_source p = Some source →
  load_source PdpStore.cedar_feature toml_parse (re_source env) = Ok next →
  n ∈ changed (d_listeners (between d next)) →
  ∃ m p' rs h, dispatch dialect_of toml_parse Reload env ctx p = (Ret (reload_failed m), p') ∧ gateway_config p' = Some next ∧
    runtime_state p' = Some rs ∧ shutdown_handles rs !! n = Some h ∧ h ∈ cancelled p'.
Proof.
  intros Hok Hd (rs & Hrs & Hserve) Es El Hn.
  assert (has_changes (between d next) = true) as Eh.
  { unfold has_changes. assert (section_has_changes (d_listeners (between d next)) = true) as ->; [|by rewrite !orb_true_r].
    unfold section_has_changes. by destruct (changed (d_listeners (between d next))); [set_solver|rewrite !orb_true_r]. }
  assert (validated next) as Hv by (by eapply loaded_validated).
  assert (process_ok (set_config next p)) as Hok1 by (by apply set_config_ok).
  assert (∃ h, shutdown_handles rs !! n = Some h) as [h Hh].
  { pose proof (changed_in_both d next n (unique_listener d (ok_config p Hok d Hd)) (unique_listener next Hv) Hn) as Hin.
    apply list_elem_of_fmap in Hin as (l & -> & Hl). destruct (Hserve l Hl) as (h & ? & _). eauto. }
  cbn [dispatch]. unfold admin_reload. rewrite Hd.
  destruct (reload_with dialect_of toml_parse d env ctx p) as [resp p'] eqn:Ew.
  destruct (reload_config d env ctx p _ p' source next Es El Eh Ew) as ([[]|e] & p2 & Hrt & _ & Hr).
  { exfalso. destruct (reloaded_runtime env next (between d next) _ p2 rs Hok1 Hrs Hrt) as (_ & _ & rs2 & _ & _ & Hall).
    destruct (Hall n) as [Hfree _]; [apply elem_of_app; by right|]. congruence. }
  destruct Hr as [-> ->]. pose proof (reload_keeps_config _ _ _ _ _ _ Hok1 Hrt) as Hcfg.
  unfold reload_runtime in Hrt. cbn [runtime_state set_config] in Hrt. rewrite Hrs in Hrt.
  destruct (stop_all_ok (removed (d_listeners (between d next))) _ Hok1) as [Hok2 _].
  destruct (stop_all_ok (changed (d_listeners (between d next))) _ Hok2) as [Hok3 _].
  destruct (stop_all_cancels rs (removed (d_listeners (between d next))) (set_config next p) Hrs) as [Hr0 Hc0].
  destruct (stop_all_cancels rs (changed (d_listeners (between d next))) _ Hr0) as [Hr1 Hc1].
  destruct (start_listeners _ _ _ _ _ _) as [[[]|r] p3] eqn:E3; [done|]. injection Hrt as -> ->.
  destruct (start_error _ _ _ _ _ _ _ E3) as [m ->].
  destruct (start_cancelled _ _ _ _ _ _ _ rs Hok3 Hr1 E3) as (Hsub & rs3 & Hr3 & Hm3).
  exists m, p2, rs3, h. split_and!; [done..|by apply Hm3|]. apply Hsub, Hc1. right. eauto.
Qed.
End Reload.

End AdminReload.

(** ** Runs of the administration interface on a small gateway

    The concrete process on which the properties of [AdminApiTheorems.v],
    [AdminRuns.v] and [AdminReload.v] are applied, and the behaviours of the
    interface that surprise. *)
Import ConfigDiff Runtime AdminApi AdminApiTheorems AdminRuns AdminReload.
Module AdminExamples.

#[local] Existing Instance TimeRules.toy_chrono.
#[local] Existing Instance StateCrypto.toy_crypto.
#[local] Existing Instance TicketTheorems.toy_json.
#[local] Existing Instance PdpStore.toy_loader.
#[local] Existing Instance PdpStore.toy_policy_json.
#[local] Existing Instance LoadBalance.counter_rng.
#[local] Instance no_vault_json : Vault.VaultJson :=
  {| Vault.vault_to_vec _ := Err []; Vault.vault_to_vec_pretty _ := Err []; Vault.vault_from_slice _ := Err [] |}.

(** A token is the name of the role it carries. *)
#[local] Instance role_jwt : AdminAuth.Jwt := {|
  AdminAuth.jwt_encode _ _ := Err [];
  AdminAuth.decode_header _ := Err [];
  AdminAuth.jwt_decode now token key v :=
    Ok (AdminAuth.VObject [($"sub", AdminAuth.VText ($"u-" ++ token)); ($"roles", AdminAuth.VText token)]);
  AdminAuth.rsa_components _ _ := Err [];
  AdminAuth.b64url_nopad_decode s := Some s;
  AdminAuth.b64url_decode s := Some s;
  AdminAuth.b64url_nopad_encode s := s
|}.

Definition demo_auth : AdminAuth.AdminAuthConfig :=
  AdminAuth.mkAuthConfig true AdminAuth.JwtHmac ($"0123456789abcdef") [] 300 [] [] 60 [$"roles"] ∅ true ($"admin") [] 3600.

Definition demo_listener (name addr : string) : ListenerConfig := mkListener ($name) ($addr) MySql ($"orders") None.

(** A document with these listeners and route policies. *)
Definition demo_document (ls : list ListenerConfig) (s : Security.SecurityPolicyConfig) : GatewayConfigDocument :=
  let g := shop ($"drop") in
  mkDocument (mkAdminSection ($"0.0.0.0") 8082 ($"info")) demo_auth
    (mkGateway ls (services g) (endpoints g) (route_policies g) (auth_policies g) (plugin_policies g) (translation_policies g) s)
    (Some ($"2")).

Definition one_listener : GatewayConfigDocument := demo_document [demo_listener "a" ":1"] Security.default_policy.
Definition two_listeners : GatewayConfigDocument :=
  demo_document [demo_listener "a" ":1"; demo_listener "b" ":2"] Security.default_policy.
Definition moved_listener : GatewayConfigDocument := demo_document [demo_listener "a" ":9"] Security.default_policy.

Definition demo_parse (text : str) : result str GatewayConfigDocument :=
  if str_eqb text ($"1") then Ok one_listener
  else if str_eqb text ($"2") then Ok two_listeners
  else if str_eqb text ($"3") then Ok moved_listener
  else Err ($"no document").

Definition demo_ticket_env : Ticket.Env := Ticket.mkEnv 1000 (1, 2) (Ok tt).
Definition demo_build : BuildEnv :=
  mkBuildEnv demo_ticket_env demo_ticket_env (λ _, None) (λ _, PdpStore.mkFsEnv 0 (Ok tt) 0) (λ _, (0, 0)).
Definition demo_env (text : string) : ReqEnv :=
  mkReqEnv (AdminAuth.mkAuthEnv 0 0 0 (λ _, Err (AdminAuth.Unauthorized []))) demo_ticket_env demo_ticket_env
    (mkSendEnv 0 0 0 0) true (λ _, demo_build) demo_build (Ok ($text)).

Definition demo_boot : result str (Process Z unit) :=
  boot default_dialect_parser demo_parse (λ _, demo_build) (Some ($"gateway.toml")) (Ok ($"1")) ∅ ∅.

(** The process after its start, and after these requests. *)
Definition started_process : Process Z unit :=
  match demo_boot with Ok p => p | Err _ => mkProcess None None None (empty_stores ∅ ∅) ∅ 0 ∅ [] ∅ [] end.
Definition after (es : list (Event)) : Process Z unit := foldl (step default_dialect_parser demo_parse) started_process es.
Definition ask (text : string) (role : string) (r : Request) : Event := ERequest (demo_env text) (Some ($"Bearer " ++ $role)) r.
Definition answer (text role : string) (r : Request) (p : Process Z unit) : exec Response :=
  (handle default_dialect_parser demo_parse (demo_env text) (Some ($"Bearer " ++ $role)) r p).1.

Lemma demo_booted : demo_boot = Ok started_process.
Proof.
  unfold started_process. assert (is_ok demo_boot = true) as Ho by (vm_compute; reflexivity).
  destruct demo_boot as [p|]; [reflexivity|discriminate Ho].
Qed.

Definition status_of (x : exec Response) : option Z := match x with Ret r => Some (resp_status r) | Panic => None end.

Lemma process_invariant_witness :
  consistent (after [ask "2" "admin" Reload; ask "3" "admin" Reload; ask "3" "operator" (StopListener ($"b"))]) ∧
  status_of (answer "2" "admin" Reload started_process) = Some 200.
Proof.
  split; [|by vm_compute]. unfold after. eapply process_invariant. apply demo_booted.
Defined.

Lemma admin_route_guarded_witness :
  ∃ ctx c, granted (demo_env "1") (Some ($"Bearer admin")) (StopListener ($"a")) started_process ctx c ∧
    handle default_dialect_parser demo_parse (demo_env "1") (Some ($"Bearer admin")) (StopListener ($"a")) started_process =
    dispatch default_dialect_parser demo_parse (StopListener ($"a")) (demo_env "1") (Some ctx) (set_cache c started_process).
Proof.
  destruct (admin_route_guarded default_dialect_parser demo_parse (demo_env "1") (Some ($"Bearer admin")) (StopListener ($"a"))
    started_process) as [(e & c & E)|Hg]; [done|by split|by vm_compute| |exact Hg].
  exfalso. apply (f_equal fst), (f_equal status_of) in E. cbn [fst] in E.
  assert (status_of (handle default_dialect_parser demo_parse (demo_env "1") (Some ($"Bearer admin")) (StopListener ($"a")) started_process).1
    = Some 200) as E' by (by vm_compute). rewrite E' in E. destruct e; discriminate E.
Defined.

Lemma viewer_is_read_only_witness : ∃ c, (handle default_dialect_parser demo_parse (demo_env "2") (Some ($"Bearer viewer")) Reload started_process).2 =
  set_cache c started_process.
Proof.
  destruct (handle default_dialect_parser demo_parse (demo_env "2") (Some ($"Bearer viewer")) Reload started_process) as [resp p'] eqn:E.
  destruct (viewer_is_read_only default_dialect_parser demo_parse (demo_env "2") (Some ($"Bearer viewer")) Reload started_process resp p')
    as [->|[? _]]; [done|by vm_compute| |done|eauto|done].
  intros token ctx c Et Ev. assert (token = $"viewer") as -> by (assert (Some token = Some ($"viewer")) as [= ->]; [rewrite <-Et; by vm_compute|done]).
  assert (Ok (E := AdminAuth.AdminAuthError) ctx = Ok (AdminAuth.from_roles ($"u-viewer") [AdminAuth.Viewer] ($"jwt_hmac"))) as Hctx.
  { apply (f_equal fst) in Ev. cbn [fst] in Ev. rewrite <-Ev. by vm_compute. }
  apply Ok_inj in Hctx as ->. done.
Defined.

Definition reloaded (x : exec Response) : option ReloadResponse :=
  match x with Ret (mkResponse 200 (BReload rl)) => Some rl | _ => None end.

Lemma reloaded_response x rl : reloaded x = Some rl → x = Ret (json_response (BReload rl)).
Proof.
  unfold reloaded. intros E. repeat (match type of E with context [match ?y with _ => _ end] => destruct y; try discriminate E end).
  by injection E as ->.
Qed.

Lemma demo_serving : process_ok started_process ∧ gateway_config started_process = Some one_listener ∧ serving started_process one_listener.
Proof.
  destruct (boot_ok default_dialect_parser demo_parse _ _ _ _ _ _ demo_booted) as (Hok & d & Hd & Hs). split; [done|].
  assert (Some d = Some one_listener) as [= ->] by (rewrite <-Hd; by vm_compute). done.
Qed.

Lemma reload_keeps_serving_witness : ∃ p' : Process Z unit, gateway_config p' = Some two_listeners ∧ serving p' two_listeners.
Proof.
  destruct demo_serving as (Hok & Hd & Hs).
  destruct (dispatch default_dialect_parser demo_parse Reload (demo_env "2") None started_process) as [x p'] eqn:E.
  assert (rl_applied <$> reloaded (dispatch default_dialect_parser demo_parse Reload (demo_env "2") None started_process).1 = Some true)
    as Ha by (vm_compute; reflexivity). rewrite E in Ha. cbn [fst] in Ha.
  destruct (reloaded x) as [rl|] eqn:Er; [|discriminate Ha]. injection Ha as Ha. apply reloaded_response in Er as ->.
  destruct (reload_keeps_serving default_dialect_parser demo_parse (demo_env "2") None started_process one_listener rl p' Hok Hd Hs E Ha)
    as (next & El & _ & Hn & Hserve & _).
  assert (Ok (E := GatewayConfigLoadError) next = Ok two_listeners) as Hnext by (rewrite <-El; vm_compute; reflexivity).
  apply Ok_inj in Hnext as ->. eauto.
Defined.

Lemma changed_listener_fails_witness : ∃ m p' rs h,
  dispatch default_dialect_parser demo_parse Reload (demo_env "3") None started_process = (Ret (reload_failed m), p') ∧
  gateway_config p' = Some moved_listener ∧ runtime_state p' = Some rs ∧ shutdown_handles rs !! ($"a") = Some h ∧ h ∈ cancelled p'.
Proof.
  destruct demo_serving as (Hok & Hd & Hs).
  apply (changed_listener_fails default_dialect_parser demo_parse (demo_env "3") None started_process one_listener ($"gateway.toml")
    moved_listener ($"a")); [done..|vm_compute; reflexivity|vm_compute; reflexivity|].
  assert (changed (d_listeners (between one_listener moved_listener)) = [$"a"]) as -> by (vm_compute; reflexivity). left.
Defined.

(** ** Surprises *)

Definition demo_ticket (dual : bool) : Request :=
  IssueTicket (Ticket.mkIssue ($"bob") ($"DROP TABLE t") [] 60 1 None None dual).

Definition ticket_of (x : exec Response) : option Ticket.Ticket :=
  match x with Ret (mkResponse _ (BTicket t)) => Some t | _ => None end.
Definition ticket_count (x : exec Response) : option nat :=
  match x with Ret (mkResponse _ (BTickets l)) => Some (length l) | _ => None end.
Definition lease_of (x : exec Response) : option Vault.VaultLease :=
  match x with Ret (mkResponse _ (BLease l)) => Some l | _ => None end.

(** With the state in memory, adding a listener reinstalls the stores: the tickets
    that were issued are gone. *)
Example adding_a_listener_forgets :
  ticket_count (answer "1" "admin" (ListTickets None) (after [ask "1" "admin" (demo_ticket false)])) = Some 1%nat ∧
  ticket_count (answer "1" "admin" (ListTickets None)
    (after [ask "1" "admin" (demo_ticket false); ask "1" "admin" (AddListener (demo_listener "b" ":2"))])) = Some 0%nat.
Proof. split; vm_compute; reflexivity. Qed.

(** The approver is taken from the body: one administrator issues and approves. *)
Example approval_by_body :
  Ticket.status <$> ticket_of (answer "1" "admin" (ApproveTicket ($"tkt-1000-1") (Some (Some ($"carol"))))
    (after [ask "1" "admin" (demo_ticket true)])) = Some Ticket.Active ∧
  status_of (answer "1" "admin" (ApproveTicket ($"tkt-1000-1") None) (after [ask "1" "admin" (demo_ticket true)])) = Some 400.
Proof. split; vm_compute; reflexivity. Qed.

(** A viewer reads the signing secret. *)
Example viewer_reads_secret :
  match answer "1" "viewer" GetConfig started_process with
  | Ret (mkResponse 200 (BDocument d)) => Some (AdminAuth.jwt_secret (admin_auth d))
  | _ => None
  end = Some ($"0123456789abcdef").
Proof. vm_compute. reflexivity. Qed.

(** Renewing a lease without a body leaves it one second. *)
Example renewal_without_body :
  Vault.lease_expires_at <$> lease_of (answer "1" "admin" (IssueVaultLease (Vault.mkLeaseRequest ($"orders") ($"dev") 900 None))
    started_process) = Some 901000 ∧
  Vault.lease_expires_at <$> lease_of (answer "1" "admin" (RenewVaultLease ($"lease-1000-1") None)
    (after [ask "1" "admin" (IssueVaultLease (Vault.mkLeaseRequest ($"orders") ($"dev") 900 None))])) = Some 2000.
Proof. split; vm_compute; reflexivity. Qed.

(** A reload that took its copy of the document before a listener was added writes
    the document without it, and reports no listener as removed: the listener runs on
    but is in no document. *)
Example reload_loses_listener :
  let added := after [ask "1" "admin" (AddListener (demo_listener "b" ":2"))] in
  let p := (reload_with default_dialect_parser demo_parse one_listener (demo_env "3") None added).2 in
  (length ∘ listeners ∘ gateway <$> gateway_config added) = Some 2%nat ∧
  (length ∘ listeners ∘ gateway <$> gateway_config p) = Some 1%nat ∧
  ((λ rs, shutdown_handles rs !! ($"b")) <$> runtime_state p) = Some (Some 1%nat) ∧ bool_decide (1%nat ∈ cancelled p) = false.
Proof. vm_compute. done. Qed.

End AdminExamples.
