(* ===== verification/Portal.v ===== *)
(** * The query portal

    [POST /admin/portal/query] of [http/src/http/mod.rs]: one statement run for an
    administrator against a service, with the result as JSON, CSV or NDJSON.

    The backend connector is built for each query from the endpoints of the service
    (the argument [connect]) and is the class [BackendConnector] of [Engine.v]; object
    extraction, the policy snapshots and the clocks are arguments as there.  The text
    of a JSON value ([serde_json], which does not fail on the values used here), of a
    float and of an unexpected response are arguments.  The body of a response is the
    list of the chunks that are sent; a client that goes away in between is left out,
    and so are the metrics. *)

From S2P Require Import ConnPool AuditEvents AuditIndex AuditPipeline Prelude RustStr Model Session DangerousSql TimeRules StateCrypto Ticket Vault Obligations ObjectSet Security Translation LoadBalance Route Plugin Pdp Authorize PdpStore GatewayConfig RuntimePlan Transport Cursor Engine AdminAuth ConfigDiff Runtime AdminApi.
Import ConfigDiff Runtime AdminApi.

Module Portal.

(** ** Requests and results *)

Inductive PortalFormat := FJson | FCsv | FNdjson.

#[export] Instance PortalFormat_eq_dec : EqDecision PortalFormat.
Proof. solve_decision. Defined.

Definition format_as_str (f : PortalFormat) : str :=
  match f with FJson => $"json" | FCsv => $"csv" | FNdjson => $"ndjson" end.

Definition normalize_portal_format (raw : option str) : option PortalFormat :=
  match (λ s, to_ascii_lowercase (trim s)) <$> raw with
  | None => Some FJson
  | Some s =>
      if one_of [[]; $"json"] s then Some FJson
      else if str_eqb s ($"csv") then Some FCsv
      else if one_of [$"ndjson"; $"jsonl"; $"json-lines"] s then Some FNdjson
      else None
  end.

Definition PORTAL_MAX_ROWS_CAP : Z := 10000.
Definition PORTAL_DEFAULT_EXPORT_MAX_ROWS : Z := 5000.

Definition clamp_portal_max_rows (requested : option Z) (f : PortalFormat) : Z :=
  clamp 1 PORTAL_MAX_ROWS_CAP
    (default (if decide (f = FJson) then 1000 else PORTAL_DEFAULT_EXPORT_MAX_ROWS) requested).

Record AdminPortalQueryRequest := mkPortalRequest {
  pq_service : str;
  pq_sql : str;
  pq_lease_id : option str;
  pq_subject_id : option str;
  pq_max_rows : option Z;
  pq_format : option str;
  pq_download : option bool
}.

Record AdminPortalQueryResponse := mkPortalResponse {
  po_columns : list str;
  po_rows : list (list JsonValue);
  po_row_count : Z;
  po_truncated : bool;
  po_service : str;
  po_decision : str;
  po_message : option str
}.

(** The values that are serialized. *)
Inductive Json := JCell (v : JsonValue) | JArray (l : list Json) | JObject (fields : list (str * Json)).

(** The headers and the chunks of the body. *)
Record PortalHttp := mkPortalHttp {
  ph_content_type : str;
  ph_stream : option str;
  ph_window_rows : option Z;
  ph_filename : option str;
  ph_body : list str
}.

(** A code and a message. *)
Abbreviation PortalError := (str * str)%type.

(** ** CSV *)

Definition comma : ascii := ",".
Definition newline : ascii := "010".
Definition carriage_return : ascii := "013".

(** [s.replace] of each quote by two. *)
Definition double_quotes (s : str) : str := s ≫= λ c, if Ascii.eqb c dquote then [dquote; dquote] else [c].

Definition csv_special (c : ascii) : bool :=
  Ascii.eqb c comma || Ascii.eqb c dquote || Ascii.eqb c newline || Ascii.eqb c carriage_return.

Definition csv_escape (s : str) : str :=
  if existsb csv_special s then dquote :: double_quotes s ++ [dquote] else s.

Definition csv_line (cells : list str) : str := join [comma] (csv_escape <$> cells) ++ [newline].

Definition truncated_line : str := $"# truncated=true" ++ [newline].

Section Encoders.
Context (to_json : Json → str) (f64_is_finite : Z → bool) (f64_to_string json_float : Z → str).

Definition bool_text (b : bool) : str := if b then $"true" else $"false".

Definition gateway_value_to_json (v : GatewayValue) : JsonValue :=
  match v with
  | Null => JNull
  | Boolean b => JBool b
  | Integer i => JInt i
  | UnsignedInteger u => JInt u
  | Float f => if f64_is_finite f then JFloat f else JNull
  | Decimal s | VString s => JString s
  | Bytes b => JString ($"bytes:" ++ dec (Z.of_nat (length b)))
  end.

Definition json_cell_to_string (v : JsonValue) : str :=
  match v with
  | JNull => []
  | JBool b => bool_text b
  | JInt z => dec_signed z
  | JFloat f => json_float f
  | JString s => s
  end.

Definition gateway_value_to_csv_cell (v : GatewayValue) : str :=
  match v with
  | Null => []
  | Boolean b => bool_text b
  | Integer i => dec_signed i
  | UnsignedInteger u => dec u
  | Float f => f64_to_string f
  | Decimal s | VString s => s
  | Bytes b => $"0x" ++ concat (hex_byte <$> b)
  end.

(** [columns.iter().enumerate().map(|(i, _)| row.get(i) ...)]. *)
Definition per_column {A B} (columns : list A) (row : list B) (missing : B) : list B :=
  imap (λ i _, default missing (row !! i)) columns.

Definition csv_json_line (columns : list str) (row : list JsonValue) : str :=
  csv_line (json_cell_to_string <$> per_column columns row JNull).

Definition portal_to_csv (r : AdminPortalQueryResponse) : str :=
  csv_line (po_columns r) ++ concat (csv_json_line (po_columns r) <$> po_rows r)
  ++ (if po_truncated r then truncated_line else []).

Definition portal_csv_encode_rows (columns : list str) (rows : list Row) : str :=
  concat ((λ row, csv_line (gateway_value_to_csv_cell <$> per_column columns row Null)) <$> rows).

(** ** NDJSON *)

Definition text (s : str) : Json := JCell (JString s).

(** The entries of a [serde_json::Map] (a [BTreeMap] of strings). *)
Definition ndjson_object (columns : list str) (row : list JsonValue) : Json :=
  JObject (foldl (λ m x, btree_insert x.1 (JCell x.2) m) [] (zip columns (per_column columns row JNull))).

Definition portal_ndjson_encode_rows (columns : list str) (rows : list (list JsonValue)) : str :=
  concat ((λ row, to_json (ndjson_object columns row) ++ [newline]) <$> rows).

(** The macro [json!] builds the same kind of map. *)
Definition json_object (fields : list (str * Json)) : Json := JObject (foldl (λ m x, btree_insert x.1 x.2 m) [] fields).

Definition portal_ndjson_meta_value (r : AdminPortalQueryResponse) : Json :=
  json_object [($"_meta", JCell (JBool true)); ($"service", text (po_service r)); ($"decision", text (po_decision r));
    ($"row_count", JCell (JInt (po_row_count r))); ($"truncated", JCell (JBool (po_truncated r)));
    ($"columns", JArray (text <$> po_columns r)); ($"stream", text ($"chunked"))].

Definition portal_to_ndjson (r : AdminPortalQueryResponse) : str :=
  to_json (portal_ndjson_meta_value r) ++ [newline] ++ portal_ndjson_encode_rows (po_columns r) (po_rows r).

(** ** JSON *)

Definition quoted (s : string) : str := dquote :: $s ++ [dquote].
Definition field (name : string) (value : str) : str := quoted name ++ $":" ++ value.

Definition json_row (row : list JsonValue) : str := to_json (JArray (JCell <$> row)).

Definition json_prefix (columns : list str) : str :=
  $"{" ++ field "columns" (to_json (JArray (text <$> columns))) ++ $"," ++ quoted "rows" ++ $":[".

Definition json_trailer (count : Z) (truncated : bool) (service : str) (stream : string) (window : Z) : str :=
  $"]," ++ field "row_count" (dec count) ++ $"," ++ field "truncated" (bool_text truncated) ++ $","
  ++ field "service" (to_json (text service)) ++ $"," ++ field "decision" (quoted "allow") ++ $","
  ++ field "stream" (quoted stream) ++ $"," ++ field "window_rows" (dec window) ++ $"}".

(** Rows as an array fragment; the flag says that no row was written before. *)
Fixpoint json_fragment (rows : list (list JsonValue)) (first : bool) : str * bool :=
  match rows with
  | [] => ([], first)
  | row :: rows =>
      let '(rest, first') := json_fragment rows false in
      ((if first then [] else $",") ++ json_row row ++ rest, first')
  end.

Definition portal_json_encode_row_array_fragment (chunk : list Row) (first : bool) : str * bool :=
  json_fragment (map gateway_value_to_json <$> chunk) first.

(** ** A result that is held: chunks of [window] rows *)

(** [loop { batch of up to window rows; if empty, break }]; the fuel is the number of
    rows. *)
Fixpoint batches {A} (fuel window : nat) (rows : list A) : list (list A) :=
  match fuel, rows with
  | S fuel, _ :: _ => take window rows :: batches fuel window (drop window rows)
  | _, _ => []
  end.
Definition row_batches {A} (window : Z) (rows : list A) : list (list A) :=
  batches (length rows) (Z.to_nat (Z.max window 1)) rows.

Definition portal_ndjson_chunked_response (r : AdminPortalQueryResponse) (download : bool) (window_rows : Z) : PortalHttp :=
  let window := Z.max window_rows 1 in
  mkPortalHttp ($"application/x-ndjson; charset=utf-8") (Some ($"chunked")) (Some window)
    (if download then Some ($"portal-export.ndjson") else None)
    ((to_json (portal_ndjson_meta_value r) ++ [newline])
       :: (portal_ndjson_encode_rows (po_columns r) <$> row_batches window (po_rows r))).

Definition portal_csv_chunked_response (r : AdminPortalQueryResponse) (download : bool) (window_rows : Z) : PortalHttp :=
  let window := Z.max window_rows 1 in
  mkPortalHttp ($"text/csv; charset=utf-8") (Some ($"chunked")) (Some window)
    (if download then Some ($"portal-export.csv") else None)
    (csv_line (po_columns r)
       :: ((λ b, concat (csv_json_line (po_columns r) <$> b)) <$> row_batches window (po_rows r))
       ++ (if po_truncated r then [truncated_line] else [])).

(** The fragments of the batches in turn. *)
Fixpoint json_fragments (bs : list (list (list JsonValue))) (first : bool) : list str :=
  match bs with
  | [] => []
  | b :: bs => let '(t, first) := json_fragment b first in t :: json_fragments bs first
  end.

Definition portal_json_chunked_response (r : AdminPortalQueryResponse) (download : bool) (window_rows : Z) : PortalHttp :=
  let window := Z.max window_rows 1 in
  mkPortalHttp ($"application/json; charset=utf-8") (Some ($"chunked")) (Some window)
    (if download then Some ($"portal-export.json") else None)
    (json_prefix (po_columns r) :: json_fragments (row_batches window (po_rows r)) true
       ++ [json_trailer (Z.of_nat (length (po_rows r))) (po_truncated r) (po_service r) "chunked" window]).

(** ** A result that streams *)

(** What the row loop leaves: the chunks with their obligations applied, their rows
    counted, whether the cap was reached, and the error that ended it. *)
Record StreamRows := mkStreamRows {
  sr_chunks : list (list Row);
  sr_total : Z;
  sr_truncated : bool;
  sr_error : option GatewayError
}.

(** [while poll_window(window) is Some]. *)
Definition drain_rest (window : Z) (s : RowStream) : option GatewayError :=
  match drain_stream (S (polls_left s)) window s false with Ok _ => None | Err e => Some e end.

Fixpoint portal_loop (fuel : nat) (window : Z) (max_total : option Z) (finish : list Row → list Row) (total : Z) (s : RowStream)
    : StreamRows :=
  if match max_total with Some max => max <=? total | None => false end
  then mkStreamRows [] total true (drain_rest window s)
  else
    let want := match max_total with Some max => Z.max (Z.min (max - total) window) 1 | None => window end in
    match fuel with
    | O => mkStreamRows [] total false None
    | S fuel =>
        match poll_window want s with
        | (Err e, _) => mkStreamRows [] total false (Some e)
        | (Ok None, _) => mkStreamRows [] total false None
        | (Ok (Some chunk), s) =>
            let r := portal_loop fuel window max_total finish (total + Z.of_nat (length chunk)) s in
            mkStreamRows (finish chunk :: sr_chunks r) (sr_total r) (sr_truncated r) (sr_error r)
        end
    end.

(** The row loop of the watermark here only pads. *)
Definition portal_finish (mask_idx : list (nat * Obligations.MaskSpec)) (watermark : option Obligations.WatermarkSpec)
    (width : nat) (chunk : list Row) : list Row :=
  let chunk := Obligations.apply_masks_to_rows f64_to_string chunk mask_idx in
  match watermark with
  | Some wm => map (pad_row width width (Obligations.wm_token wm)) chunk
  | None => chunk
  end.

(** ** Preparing a query *)

Record PortalPrepared := mkPrepared {
  pp_command : GatewayCommand;
  pp_session : SessionState;
  pp_mode : ExecuteMode;
  pp_obligations : Obligations.Obligations;
  pp_frontend : ProtocolKind;
  pp_backend : ProtocolKind;
  pp_listener : str;
  pp_service : str;
  pp_endpoint : str
}.

(** The columns and rows of a streamed result under the obligations; the caller's cap
    wins over the policy's. *)
Definition streamed (max_rows : option Z) (window : Z) (pp : PortalPrepared) (q : StreamingQuery) : list str * StreamRows :=
  let columns := if protocol_eqb (pp_backend pp) (pp_frontend pp) then q_columns q
                 else map_columns (q_columns q) (pp_backend pp) (pp_frontend pp) in
  let o := pp_obligations pp in
  let mask_idx := Obligations.build_mask_index columns (Obligations.column_masks o) in
  let columns := match Obligations.watermark o with
                 | Some wm => (Obligations.apply_watermark_to_resultset f64_to_string columns [] wm).1
                 | None => columns
                 end in
  let max_total := match max_rows with Some m => Some m | None => Obligations.max_rows o end in
  (column_name <$> columns,
   portal_loop (S (polls_left (q_stream q))) window max_total
     (portal_finish mask_idx (Obligations.watermark o) (length columns)) 0 (q_stream q)).

Definition stream_headers (content_type filename : string) (download : bool) (window : Z) (body : list str) : PortalHttp :=
  mkPortalHttp ($content_type) (Some ($"backend_window")) (Some window) (if download then Some ($filename) else None) body.

Definition ndjson_stream (service : str) (download : bool) (window : Z) (columns : list str) (r : StreamRows) : PortalHttp :=
  stream_headers "application/x-ndjson; charset=utf-8" "portal-export.ndjson" download window
    ((to_json (json_object [($"_meta", JCell (JBool true)); ($"columns", JArray (text <$> columns)); ($"service", text service);
         ($"decision", text ($"allow")); ($"stream", text ($"backend_window")); ($"window_rows", JCell (JInt window))])
        ++ [newline])
       :: ((λ chunk, portal_ndjson_encode_rows columns (map gateway_value_to_json <$> chunk)) <$> sr_chunks r)).

Definition csv_stream (download : bool) (window : Z) (columns : list str) (r : StreamRows) : PortalHttp :=
  stream_headers "text/csv; charset=utf-8" "portal-export.csv" download window
    (csv_line columns :: (portal_csv_encode_rows columns <$> sr_chunks r)
       ++ (if sr_truncated r then [truncated_line] else [])).

(** An empty fragment is not sent. *)
Fixpoint json_stream_fragments (chunks : list (list Row)) (first : bool) : list str :=
  match chunks with
  | [] => []
  | c :: cs =>
      let '(t, first) := portal_json_encode_row_array_fragment c first in
      (if is_empty t then [] else [t]) ++ json_stream_fragments cs first
  end.

Definition json_stream (service : str) (download : bool) (window : Z) (columns : list str) (r : StreamRows) : PortalHttp :=
  stream_headers "application/json; charset=utf-8" "portal-export.json" download window
    (json_prefix columns :: json_stream_fragments (sr_chunks r) true
       ++ [json_trailer (sr_total r) (sr_truncated r) service "backend_window" window]).
End Encoders.

(** ** Running a query *)

(** The readings of one portal query. *)
Record PortalEnv := mkPortalEnv {
  pe_build : BuildEnv;
  pe_policy : PdpStore.FsEnv;
  pe_snapshots : Authorize.Snapshots;
  pe_readings : Authorize.Readings
}.

#[local] Existing Instance Authorize.store_gate.

Section Execute.
Context `{TimeRules.Chrono, StateCrypto.Crypto, Ticket.TicketJson, Vault.VaultJson, PdpStore.CedarLoader, PdpStore.PolicyJson, AdminAuth.Jwt, Pdp.RemoteIO}.
Context {R : Type} `{LoadBalance.Rng R} (dialect_of : ProtocolKind → DialectParser) {T B : Type} `{BackendConnector B}.
Context (connect : ProtocolKind → list EndpointConfig → B) (extract_object_set : str → str → ObjectSet.ObjectSet).
Context (to_json : Json → str) (f64_is_finite : Z → bool) (f64_to_string json_float : Z → str) (debug_response : GatewayResponse → str).

(** The decision of the policy, if there is one: the statement to run and what is owed. *)
Definition portal_decide (env : PortalEnv) (c : GatewayConfig) (service sql subject : str) (frontend : ProtocolKind) (s : Stores)
    : exec (result PortalError (str * Obligations.Obligations)) * Stores :=
  if negb (Security.enabled (security c)) then (Ret (Ok (sql, Obligations.default_obligations)), s)
  else
    let s := install_pdp (pe_policy env) (security c) s in
    match Authorize.authorize_command_with_objects (pe_snapshots env) (pe_readings env)
            (Pdp.from_protocol_user (Some subject) None) service (Query sql) (default_dialect_parser frontend)
            (Some (extract_object_set sql (ProtocolKind_as_str frontend))) (ticket_world s) with
    | Panic => (Panic, s)
    | Ret (d, w) =>
        (Ret match d with
             | Pdp.Deny rule message | Pdp.RequireTicket rule _ message => Err (rule, message)
             | Pdp.Allow o => Ok (sql, o)
             | Pdp.AllowRewrite t o => Ok (t, o)
             end, put_tickets w s)
    end.

Definition portal_translate (c : GatewayConfig) (svc : ServiceConfig) (frontend : ProtocolKind) (command : GatewayCommand)
    : exec (result PortalError GatewayCommand) :=
  match s_translation_policy svc ≫= λ n, named tp_name n (translation_policies c) with
  | None => Ret (Ok command)
  | Some policy =>
      match prepare_cross_protocol_command policy command (default_dialect_parser frontend) with
      | Panic => Panic
      | Ret r => Ret (map_err (λ e, ($"translation", PdpStore.error_to_string e)) r)
      end
  end.

(** [portal_prepare]: building the plan installs the stores of the document again. *)
Definition portal_prepare (env : PortalEnv) (c : GatewayConfig) (service sql subject : str) (max_rows : option Z) (s : Stores)
    : exec (result PortalError (PortalPrepared * B)) * Stores :=
  match plan_from_config dialect_of (pe_build env) c s with
  | (Err e, s) => (Ret (Err ($"plan", PdpStore.error_to_string e)), s)
  | (Ok plans, s) =>
  match List.find (λ l, str_eqb (s_name (pl_service l)) service) plans with
  | None => (Ret (Err ($"no_listener", $"no listener for service '" ++ service ++ $"'")), s)
  | Some plan =>
  match named s_name service (services c) with
  | None => (Ret (Err ($"service", $"missing service")), s)
  | Some svc =>
  let eps := omap (λ n, named e_name n (endpoints c)) (s_endpoints svc) in
  match eps with
  | [] => (Ret (Err ($"endpoint", $"service has no endpoints")), s)
  | e :: _ =>
      let frontend := l_protocol (pl_listener plan) in
      match portal_decide env c service sql subject frontend s with
      | (Panic, s) => (Panic, s)
      | (Ret (Err err), s) => (Ret (Err err), s)
      | (Ret (Ok (sql, o)), s) =>
          match portal_translate c svc frontend (Query sql) with
          | Panic => (Panic, s)
          | Ret (Err err) => (Ret (Err err), s)
          | Ret (Ok command) =>
              let session := mkSession (Some subject) (e_database e) None None None Idle false false false None false None 0
                               false [] false in
              let mode := from_streaming_config (Z.max (Security.window_rows (Security.streaming (security c))) 1)
                            (match max_rows with Some m => Some m | None => Obligations.max_rows o end) in
              (Ret (Ok (mkPrepared command session mode o frontend (backend_protocol svc) (l_name (pl_listener plan)) service
                          (e_name e), connect (backend_protocol svc) eps)), s)
          end
      end
  end end end end.

Definition backend_error (e : GatewayError) : PortalError := ($"backend", PdpStore.error_to_string e).

(** A wire relay is drained and refused. *)
Definition refuse_relay (what : string) (relay : WireRelay) : PortalError :=
  match List.find (λ b, negb (is_ok b)) relay with
  | Some (Err e) => backend_error e
  | _ => ($"unsupported", $what ++ $" does not support wire passthrough relay")
  end.

(** A complete response under the obligations. *)
Definition portal_response (pp : PortalPrepared) (r : GatewayResponse) : GatewayResponse :=
  let r := map_response_types r (pp_backend pp) (pp_frontend pp) in
  if Obligations.has_result_obligations (pp_obligations pp)
  then Obligations.apply_obligations_to_response f64_to_string r (pp_obligations pp) else r.

Definition complete_result (service : str) (limit : option Z) (cut : bool) (columns : list Column) (rows : list Row)
    : AdminPortalQueryResponse :=
  let truncated := match limit with Some m => m <=? Z.of_nat (length rows) | None => false end in
  let rows := match limit with
              | Some m => if cut && (m <? Z.of_nat (length rows)) then take (Z.to_nat m) rows else rows
              | None => rows
              end in
  let json := map (gateway_value_to_json f64_is_finite) <$> rows in
  mkPortalResponse (column_name <$> columns) json (Z.of_nat (length json)) truncated service ($"allow") None.

Definition affected_result (service : str) (n : Z) : AdminPortalQueryResponse :=
  mkPortalResponse [$"affected_rows"] [[JInt n]] 1 false service ($"allow") (Some ($"ok")).

(** The [Complete] arm: the result as a document, or an error.  Only the CSV and JSON
    paths cut the rows at the limit. *)
Definition portal_complete (service : str) (max_rows : option Z) (cut : bool) (pp : PortalPrepared) (r : GatewayResponse)
    : result PortalError AdminPortalQueryResponse :=
  match portal_response pp r with
  | ResultSet columns rows =>
      Ok (complete_result service (match max_rows with Some m => Some m | None => Obligations.max_rows (pp_obligations pp) end)
            cut columns rows)
  | RError code message => Err (code, message)
  | ROk n _ => Ok (affected_result service n)
  | other => Err ($"unsupported", debug_response other)
  end.

(** The backend runs the prepared command. *)
Definition portal_outcome (pp : PortalPrepared) (b : B) : result PortalError ExecuteOutcome :=
  map_err backend_error (execute_outcome (pp_command pp) (pp_session pp) (pp_mode pp) b).1.1.

Definition Ran : Type := exec (result PortalError PortalHttp) * Stores.

(** Prepare, run and hand the outcome on. *)
Definition portal_run {A} (env : PortalEnv) (c : GatewayConfig) (service sql subject : str) (max_rows : option Z) (s : Stores)
    (k : PortalPrepared → ExecuteOutcome → result PortalError A) : exec (result PortalError A) * Stores :=
  match portal_prepare env c service sql subject max_rows s with
  | (Panic, s) => (Panic, s)
  | (Ret (Err e), s) => (Ret (Err e), s)
  | (Ret (Ok (pp, b)), s) => (Ret (outcome ← portal_outcome pp b; k pp outcome), s)
  end.

Definition portal_execute_ndjson_streaming (env : PortalEnv) (c : GatewayConfig) (service sql subject : str)
    (max_rows : option Z) (window_rows : Z) (download : bool) (s : Stores) : Ran :=
  let window := Z.max window_rows 1 in
  portal_run env c service sql subject max_rows s (λ pp outcome,
    match outcome with
    | OWireRelay relay => Err (refuse_relay "portal NDJSON path" relay)
    | OStreaming q =>
        let '(columns, r) := streamed f64_to_string max_rows window pp q in
        Ok (ndjson_stream to_json f64_is_finite service download window columns r)
    | OComplete r =>
        resp ← portal_complete service max_rows false pp r;
        Ok (portal_ndjson_chunked_response to_json resp download window)
    end).

Definition portal_execute_csv_streaming (env : PortalEnv) (c : GatewayConfig) (service sql subject : str)
    (max_rows : option Z) (window_rows : Z) (download : bool) (s : Stores) : Ran :=
  let window := Z.max window_rows 1 in
  portal_run env c service sql subject max_rows s (λ pp outcome,
    match outcome with
    | OWireRelay relay => Err (refuse_relay "portal CSV path" relay)
    | OStreaming q =>
        let '(columns, r) := streamed f64_to_string max_rows window pp q in
        Ok (csv_stream f64_to_string download window columns r)
    | OComplete r =>
        resp ← portal_complete service max_rows true pp r;
        Ok (portal_csv_chunked_response json_float resp download window)
    end).

Definition portal_execute_json_streaming (env : PortalEnv) (c : GatewayConfig) (service sql subject : str)
    (max_rows : option Z) (window_rows : Z) (download : bool) (s : Stores) : Ran :=
  let window := Z.max window_rows 1 in
  portal_run env c service sql subject max_rows s (λ pp outcome,
    match outcome with
    | OWireRelay relay => Err (refuse_relay "portal JSON path" relay)
    | OStreaming q =>
        let '(columns, r) := streamed f64_to_string max_rows window pp q in
        Ok (json_stream to_json f64_is_finite service download window columns r)
    | OComplete r =>
        resp ← portal_complete service max_rows true pp r;
        Ok (portal_json_chunked_response to_json resp download window)
    end).

(** The path that holds the whole result: an error of the stream is reported. *)
Definition portal_execute_logical (env : PortalEnv) (c : GatewayConfig) (service sql subject : str) (max_rows : option Z)
    (s : Stores) : exec (result PortalError AdminPortalQueryResponse) * Stores :=
  portal_run env c service sql subject max_rows s (λ pp outcome,
    match outcome with
    | OWireRelay relay => Err (refuse_relay "portal path" relay)
    | OStreaming q =>
        let '(columns, r) := streamed f64_to_string max_rows (Z.max (default 256 (mode_window_rows (pp_mode pp))) 1) pp q in
        match sr_error r with
        | Some e => Err (backend_error e)
        | None =>
            let json := map (gateway_value_to_json f64_is_finite) <$> concat (sr_chunks r) in
            Ok (mkPortalResponse columns json (Z.of_nat (length json)) (sr_truncated r) service ($"allow") None)
        end
    | OComplete (Wire _) => Err ($"wire", $"portal expects logical result set")
    | OComplete r => portal_complete service max_rows false pp r
    end).

(** ** The handler *)

Inductive PortalAnswer := PortalJson (r : Response) | PortalHttpOk (h : PortalHttp).

Definition portal_event (decision : AuditDecision) (subject service outcome message : str) (code : option str) : AuditEvent :=
  mkEvent None None (Some (audit_action_as_str AQuery)) (Some (audit_decision_as_str decision)) (Some subject) None None None
    (Some service) None None None None None (Some outcome) None code (Some message) None None (Some ($"L0")) None None None []
    None None None None false.

(** A lease, if one is named, must be valid and of the service. *)
Definition lease_problem (env : Vault.Env) (body : AdminPortalQueryRequest) (s : Stores) : option Response :=
  match pq_lease_id body with
  | None => None
  | Some lid =>
      match Vault.get_valid_lease env lid (vault_world s) with
      | Some l =>
          if str_eqb (Vault.lease_service l) (pq_service body) then None
          else Some (admin_json_error 403 ($"lease_service_mismatch") ($"vault lease does not match service"))
      | None => Some (admin_json_error 403 ($"lease_invalid") ($"vault lease missing or expired"))
      end
  end.

Definition portal_subject (body : AdminPortalQueryRequest) (ctx : option AdminAuth.AdminAuthContext) : str :=
  match pq_subject_id body with
  | Some s => s
  | None => match ctx with Some c => AdminAuth.subject c | None => $"portal" end
  end.

Definition portal_message (f : PortalFormat) (window max_rows : Z) : str :=
  $"format=" ++ format_as_str f ++ $" stream=" ++ match f with FNdjson => $"backend_window" | _ => $"backend_window_or_materialized" end
  ++ $" window=" ++ dec window ++ $" max_rows=" ++ dec max_rows.

(** [admin_portal_query] once the request is authorized. *)
Definition admin_portal_query (body : AdminPortalQueryRequest) (penv : PortalEnv) (env : ReqEnv)
    (ctx : option AdminAuth.AdminAuthContext) (p : Process R T) : exec PortalAnswer * Process R T :=
  if is_empty (trim (pq_sql body)) || is_empty (trim (pq_service body))
  then (Ret (PortalJson (admin_json_error 400 ($"invalid_portal_query") ($"service and sql are required"))), p)
  else
  match normalize_portal_format (pq_format body) with
  | None => (Ret (PortalJson (admin_json_error 400 ($"invalid_portal_format") ($"format must be json, csv, or ndjson"))), p)
  | Some f =>
  let download := default false (pq_download body) || negb (bool_decide (f = FJson)) in
  match gateway_config p with
  | None => (Ret (PortalJson gateway_config_not_available), p)
  | Some d =>
  match lease_problem (re_vault env) body (stores p) with
  | Some r => (Ret (PortalJson r), p)
  | None =>
      let c := gateway d in
      let subject := portal_subject body ctx in
      let max_rows := clamp_portal_max_rows (pq_max_rows body) f in
      let window := Z.max (Security.window_rows (Security.streaming (security c))) 1 in
      let run := match f with
                 | FNdjson => portal_execute_ndjson_streaming
                 | FCsv => portal_execute_csv_streaming
                 | FJson => portal_execute_json_streaming
                 end in
      match run penv c (pq_service body) (pq_sql body) subject (Some max_rows) window download (stores p) with
      | (Panic, s) => (Panic, set_stores s p)
      | (Ret (Ok h), s) =>
          (Ret (PortalHttpOk h),
           try_audit (re_send env)
             (portal_event DExecute subject (pq_service body) (if decide (f = FJson) then $"portal_query" else $"portal_export")
                (portal_message f window max_rows) None) (set_stores s p))
      | (Ret (Err (code, message)), s) =>
          (Ret (PortalJson (admin_json_error 403 ($"portal_denied") message)),
           try_audit (re_send env) (portal_event DDeny subject (pq_service body) ($"portal_deny") message (Some code))
             (set_stores s p))
      end
  end end end.

Definition portal_query (body : AdminPortalQueryRequest) (penv : PortalEnv) (env : ReqEnv) (authorization : option str)
    (p : Process R T) : exec PortalAnswer * Process R T :=
  match authorize env authorization ($"POST") ($"/admin/portal/query") p with
  | (Err r, p) => (Ret (PortalJson r), p)
  | (Ok ctx, p) => admin_portal_query body penv env ctx p
  end.
End Execute.

End Portal.
