(* ===== verification/PortalTheorems.v ===== *)
(** * Properties of the query portal

    The export formats: a CSV export is read back by a reader of RFC 4180, a result
    that is sent in windows is the whole document; who may run what, and how the rows
    of the run are shown in the answer.

    [PortalExamples]: concrete requests. *)

From S2P Require Import ConnPool AuditEvents AuditIndex AuditPipeline Prelude RustStr Model Session DangerousSql TimeRules StateCrypto Ticket TicketTheorems Vault Obligations ObligationTheorems ObjectSet Security Translation LoadBalance Route Plugin Pdp Authorize PdpStore AuthorizeTheorems GatewayConfig RuntimePlan Transport Cursor Engine AdminAuth ConfigDiff Runtime AdminApi AdminApiTheorems AdminRuns AdminReload Portal.
Import ConfigDiff Runtime AdminApi AdminApiTheorems Portal.

Module PortalTheorems.

(** ** A reader of CSV *)

(** At the start of a cell, in an open cell, in a quoted one, after a quote in one. *)
Inductive csv_mode := AtStart | InPlain | InQuoted | AfterQuote.

Record csv_reader := mkReader { cr_mode : csv_mode; cr_cell : str; cr_row : list str; cr_rows : list (list str) }.

Definition end_cell (r : csv_reader) : csv_reader := mkReader AtStart [] (cr_row r ++ [cr_cell r]) (cr_rows r).
Definition end_row (r : csv_reader) : csv_reader := mkReader AtStart [] [] (cr_rows r ++ [cr_row r ++ [cr_cell r]]).
Definition add_char (m : csv_mode) (c : ascii) (r : csv_reader) : csv_reader :=
  mkReader m (cr_cell r ++ [c]) (cr_row r) (cr_rows r).
Definition in_mode (m : csv_mode) (r : csv_reader) : csv_reader := mkReader m (cr_cell r) (cr_row r) (cr_rows r).

Definition csv_step (r : csv_reader) (c : ascii) : csv_reader :=
  match cr_mode r with
  | InQuoted => if Ascii.eqb c dquote then in_mode AfterQuote r else add_char InQuoted c r
  | m =>
      if Ascii.eqb c comma then end_cell r
      else if Ascii.eqb c newline then end_row r
      else if Ascii.eqb c dquote then
        match m with
        | AtStart => in_mode InQuoted r
        | AfterQuote => add_char InQuoted c r
        | _ => add_char InPlain c r
        end
      else add_char InPlain c r
  end.

(** The records of a text whose lines all end. *)
Definition csv_read (s : str) : list (list str) := cr_rows (foldl csv_step (mkReader AtStart [] [] []) s).

Lemma read_plain s : ∀ cell row rows, existsb csv_special s = false →
  ∃ m, foldl csv_step (mkReader InPlain cell row rows) s = mkReader m (cell ++ s) row rows ∧ m = InPlain.
Proof.
  induction s as [|c s IH]; intros cell row rows Hs; [rewrite app_nil_r; eauto|]. cbn [existsb] in Hs.
  apply orb_false_iff in Hs as [Hc Hs]. unfold csv_special in Hc. rewrite !orb_false_iff in Hc. destruct Hc as [[[Hc Hq] Hn] Hr].
  cbn [foldl]. unfold csv_step at 2. cbn [cr_mode]. rewrite Hc, Hn, Hq. unfold add_char. cbn [cr_cell cr_row cr_rows].
  destruct (IH (cell ++ [c]) row rows Hs) as (m & -> & ->). rewrite <-app_assoc. eauto.
Qed.

Lemma read_quoted s : ∀ cell row rows,
  foldl csv_step (mkReader InQuoted cell row rows) (double_quotes s) = mkReader InQuoted (cell ++ s) row rows.
Proof.
  induction s as [|c s IH]; intros cell row rows; [by rewrite app_nil_r|].
  change (double_quotes (c :: s)) with ((if Ascii.eqb c dquote then [dquote; dquote] else [c]) ++ double_quotes s).
  rewrite foldl_app. assert (foldl csv_step (mkReader InQuoted cell row rows) (if Ascii.eqb c dquote then [dquote; dquote] else [c])
    = mkReader InQuoted (cell ++ [c]) row rows) as ->.
  { destruct (Ascii.eqb c dquote) eqn:E; [|cbn; unfold csv_step; cbn; by rewrite E]. apply Ascii.eqb_eq in E as ->. done. }
  rewrite IH, <-app_assoc. done.
Qed.

(** A cell, up to what ends it. *)
Lemma read_cell s row rows : ∃ m,
  foldl csv_step (mkReader AtStart [] row rows) (csv_escape s) = mkReader m s row rows ∧ m ≠ InQuoted.
Proof.
  unfold csv_escape. destruct (existsb csv_special s) eqn:Es.
  - exists AfterQuote. split; [|done]. cbn [foldl]. change (csv_step (mkReader AtStart [] row rows) dquote) with (mkReader InQuoted [] row rows).
    rewrite foldl_app, read_quoted. done.
  - destruct s as [|c s]; [exists AtStart; done|]. exists InPlain. split; [|done]. cbn [foldl existsb] in *.
    apply orb_false_iff in Es as [Hc Hs]. unfold csv_special in Hc. rewrite !orb_false_iff in Hc. destruct Hc as [[[Hc Hq] Hn] Hr].
    unfold csv_step at 2. cbn [cr_mode]. rewrite Hc, Hn, Hq. unfold add_char. cbn [cr_cell cr_row cr_rows app].
    destruct (read_plain s [c] row rows Hs) as (m & -> & ->). done.
Qed.

Lemma read_line cells : ∀ row rows, cells ≠ [] →
  foldl csv_step (mkReader AtStart [] row rows) (csv_line cells) = mkReader AtStart [] [] (rows ++ [row ++ cells]).
Proof.
  unfold csv_line. induction cells as [|c cells IH]; intros row rows Hne; [done|].
  destruct (read_cell c row rows) as (m & Hm & Hq). destruct cells as [|d cells].
  - rewrite fmap_cons. cbn [join fmap list_fmap]. rewrite foldl_app, Hm. cbn. unfold csv_step. cbn. destruct m; done.
  - rewrite fmap_cons, fmap_cons.
    change (join [comma] (csv_escape c :: csv_escape d :: (csv_escape <$> cells))) with
      (csv_escape c ++ [comma] ++ join [comma] (csv_escape <$> d :: cells)).
    rewrite <-!app_assoc, foldl_app, Hm, foldl_app.
    assert (foldl csv_step (mkReader m c row rows) [comma] = mkReader AtStart [] (row ++ [c]) rows) as ->.
    { cbn. unfold csv_step. cbn. by destruct m. }
    rewrite IH by done. by rewrite <-app_assoc.
Qed.

Lemma read_lines l : Forall (λ cells, cells ≠ []) l → ∀ rows,
  foldl csv_step (mkReader AtStart [] [] rows) (concat (csv_line <$> l)) = mkReader AtStart [] [] (rows ++ l).
Proof.
  induction 1 as [|cells l Hc Hl IH]; intros rows; [by rewrite app_nil_r|]. rewrite fmap_cons. cbn [concat].
  rewrite foldl_app, read_line by done. cbn [app]. rewrite IH, <-app_assoc. done.
Qed.

Lemma csv_read_lines l : Forall (λ cells, cells ≠ []) l → csv_read (concat (csv_line <$> l)) = l.
Proof. intros Hl. unfold csv_read. by rewrite read_lines. Qed.

(** ** Windows *)

Lemma batches_concat {A} window (l : list A) : (0 < window)%nat → ∀ fuel, (length l ≤ fuel)%nat → concat (batches fuel window l) = l.
Proof.
  intros Hw fuel. revert l. induction fuel as [|fuel IH]; intros [|x l] Hl; cbn [batches]; try done; [cbn in Hl; lia|].
  cbn [concat]. rewrite IH; [apply take_drop|]. rewrite length_drop. cbn [length] in *. lia.
Qed.

Lemma row_batches_concat {A} window (l : list A) : concat (row_batches window l) = l.
Proof. apply batches_concat; lia. Qed.

Lemma concat_fmap_concat {A B} (f : A → list B) (ls : list (list A)) :
  concat ((λ l, concat (f <$> l)) <$> ls) = concat (f <$> concat ls).
Proof. induction ls as [|l ls IH]; [done|]. cbn. rewrite fmap_app, concat_app. by f_equal. Qed.

Section Formats.
Context (to_json : Json → str) (f64_is_finite : Z → bool) (f64_to_string json_float : Z → str).

Lemma fragment_app rows1 rows2 first :
  json_fragment to_json (rows1 ++ rows2) first =
  let '(t1, f1) := json_fragment to_json rows1 first in
  let '(t2, f2) := json_fragment to_json rows2 f1 in (t1 ++ t2, f2).
Proof.
  revert first. induction rows1 as [|r rows1 IH]; intros first; cbn [app json_fragment].
  - by destruct (json_fragment to_json rows2 first).
  - rewrite IH. destruct (json_fragment to_json rows1 false) as [t1 f1]. destruct (json_fragment to_json rows2 f1) as [t2 f2].
    by rewrite <-!app_assoc.
Qed.

Lemma fragments_concat bs : ∀ first, concat (json_fragments to_json bs first) = (json_fragment to_json (concat bs) first).1.
Proof.
  induction bs as [|b bs IH]; intros first; [done|]. cbn [json_fragments concat]. rewrite fragment_app.
  destruct (json_fragment to_json b first) as [t f]. cbn [concat]. rewrite IH. by destruct (json_fragment to_json (concat bs) f).
Qed.

Lemma fragment_join rows : (json_fragment to_json rows true).1 = join ($",") (json_row to_json <$> rows).
Proof.
  assert (∀ rows, (json_fragment to_json rows false).1 = concat ((λ row, $"," ++ json_row to_json row) <$> rows)) as Hrest.
  { induction rows0 as [|r l IH]; [done|]. cbn [json_fragment fmap list_fmap concat]. destruct (json_fragment to_json l false) as [t f].
    cbn [fst] in *. rewrite IH. by rewrite <-app_assoc. }
  destruct rows as [|r l]; [done|]. cbn [json_fragment fmap list_fmap]. pose proof (Hrest l) as Hl.
  destruct (json_fragment to_json l false) as [t f]. cbn [fst app] in *. rewrite Hl. clear. revert r.
  induction l as [|r' l IH]; intros r; [cbn; by rewrite app_nil_r|]. cbn [fmap list_fmap concat join]. f_equal.
  rewrite <-app_assoc. f_equal. apply IH.
Qed.

(** The document of a result: its rows between the opening and the counts. *)
Definition json_document (r : AdminPortalQueryResponse) (window : Z) : str :=
  json_prefix to_json (po_columns r) ++ join ($",") (json_row to_json <$> po_rows r)
  ++ json_trailer to_json (Z.of_nat (length (po_rows r))) (po_truncated r) (po_service r) "chunked" window.

(** A held result that is sent in windows is, in each of the three formats and for
    every window, byte for byte the document that would be built at once: no row is
    lost, repeated or split at the seams, the separators and the counts included. *)
Theorem portal_windows_whole r download window :
  concat (ph_body (portal_csv_chunked_response json_float r download window)) = portal_to_csv json_float r ∧
  concat (ph_body (portal_ndjson_chunked_response to_json r download window)) = portal_to_ndjson to_json r ∧
  concat (ph_body (portal_json_chunked_response to_json r download window)) = json_document r (Z.max window 1).
Proof.
  split; [|split]; cbn [ph_body portal_csv_chunked_response portal_ndjson_chunked_response portal_json_chunked_response concat].
  - rewrite concat_app, concat_fmap_concat, row_batches_concat. unfold portal_to_csv. do 2 f_equal. by destruct (po_truncated r); cbn; rewrite ?app_nil_r.
  - unfold portal_ndjson_encode_rows at 1. rewrite (concat_fmap_concat (λ row, to_json (ndjson_object (po_columns r) row) ++ [newline])).
    rewrite row_batches_concat. unfold portal_to_ndjson. by rewrite <-app_assoc.
  - rewrite concat_app, fragments_concat, row_batches_concat, fragment_join. cbn [concat]. by rewrite app_nil_r.
Qed.

(** ** Streams *)

Lemma loop_clean window max_total finish : ∀ fuel s total, Transport.clean s → (polls_left s < fuel)%nat →
  let r := portal_loop fuel window max_total finish total s in
  ∃ raw, sr_chunks r = finish <$> raw ∧ sr_error r = None ∧ sr_total r = total + Z.of_nat (length (concat raw)) ∧
    if sr_truncated r then ∃ max, max_total = Some max ∧ max ≤ sr_total r ∧ concat raw `prefix_of` content s
    else concat raw = content s.
Proof.
  induction fuel as [|fuel IH]; intros s total Hc Hf; [lia|]. cbn [portal_loop].
  destruct (match max_total with Some max => max <=? total | None => false end) eqn:Em.
  { exists []. cbn [sr_chunks sr_error sr_total sr_truncated concat length]. unfold drain_rest.
    destruct (drain_clean (S (polls_left s)) window s false Hc ltac:(lia)) as [s' ->]. split_and!; [done|done|lia|].
    destruct max_total as [max|]; [|done]. exists max. apply Z.leb_le in Em. split_and!; [done|lia|]. apply prefix_nil. }
  destruct (poll_clean (match max_total with Some max => Z.max (Z.min (max - total) window) 1 | None => window end) s Hc)
    as [(chunk & s' & -> & _ & Hcont & Hc' & Hp)|(s' & -> & Hcont & _)].
  - destruct (IH s' (total + Z.of_nat (length chunk)) Hc' ltac:(lia)) as (raw & Hch & He & Ht & Hr).
    exists (chunk :: raw). cbn [sr_chunks sr_error sr_total sr_truncated concat]. rewrite Hch, He, Ht.
    split; [done|]. split; [done|]. split; [rewrite length_app; lia|].
    destruct (sr_truncated _); [|by rewrite Hr, Hcont]. destruct Hr as (max & -> & Hle & Hpre). exists max. split; [done|]. split; [lia|].
    rewrite Hcont. by apply prefix_app.
  - exists []. cbn. split_and!; [done|done|lia|done].
Qed.

(** The cells of one record. *)
Definition csv_cells (columns : list str) (row : Row) : list str :=
  gateway_value_to_csv_cell f64_to_string <$> per_column columns row Null.

Definition truncated_record : list (list str) := [[$"# truncated=true"]].

Lemma per_column_ne {A B} (columns : list A) (row : list B) d : columns ≠ [] → per_column columns row d ≠ [].
Proof. by destruct columns. Qed.

Lemma finish_rows_map mask_idx wm width (ls : list (list Row)) :
  concat (portal_finish f64_to_string mask_idx wm width <$> ls) = portal_finish f64_to_string mask_idx wm width (concat ls).
Proof.
  induction ls as [|l ls IH]; cbn; [unfold portal_finish, Obligations.apply_masks_to_rows; destruct (is_empty mask_idx), wm; done|].
  rewrite IH. unfold portal_finish, Obligations.apply_masks_to_rows. destruct (is_empty mask_idx), wm; by rewrite ?map_app.
Qed.

(** The CSV export of a streamed result, read by a reader of RFC 4180 (quotes,
    separators and line breaks inside cells included), is the header, one record per
    exported row with the masked cells of its columns, and a last record that marks
    it when the export was cut.  When it is not marked, every row of the result is in
    it; when it is, the rows are the first ones, at least as many as the cap. *)
Theorem portal_csv_reads_back max_rows window download pp q :
  Transport.clean (q_stream q) → q_columns q ≠ [] →
  let o := pp_obligations pp in
  let columns := if protocol_eqb (pp_backend pp) (pp_frontend pp) then q_columns q
                 else map_columns (q_columns q) (pp_backend pp) (pp_frontend pp) in
  let '(names, r) := streamed f64_to_string max_rows window pp q in
  ∃ rows, rows `prefix_of` content (q_stream q) ∧
    (if sr_truncated r then Z.of_nat (length rows) = sr_total r ∧
       (∃ cap, match max_rows with Some m => Some m | None => Obligations.max_rows o end = Some cap ∧ cap ≤ sr_total r)
     else rows = content (q_stream q)) ∧
    csv_read (concat (ph_body (csv_stream f64_to_string download window names r))) =
    names :: (csv_cells names <$> portal_finish f64_to_string (Obligations.build_mask_index columns (Obligations.column_masks o))
                (Obligations.watermark o) (length names) rows)
    ++ (if sr_truncated r then truncated_record else []).
Proof.
  intros Hc Hne o columns. unfold streamed. fold columns. fold o. cbv zeta.
  set (wide := match Obligations.watermark o with Some wm => _ | None => _ end).
  set (fin := portal_finish _ _ _ _).
  assert (wide ≠ []) as Hwide.
  { assert (columns ≠ []) as Hcols by (unfold columns; destruct (protocol_eqb _ _); [done|]; by destruct (q_columns q)).
    unfold wide. destruct (Obligations.watermark o) as [wm|]; [|done]. unfold Obligations.apply_watermark_to_resultset.
    destruct (Obligations.wm_mode wm); [|done]. destruct (existsb _ _); [done|]. by destruct columns. }
  assert (column_name <$> wide ≠ []) as Hn by (by destruct wide).
  set (cap := match max_rows with Some m => Some m | None => _ end).
  destruct (loop_clean window cap fin (S (polls_left (q_stream q))) (q_stream q) 0 Hc ltac:(lia)) as (raw & Hch & _ & Ht & Hr).
  set (r := portal_loop _ _ _ _ _ _) in *. exists (concat raw). split; [|split].
  - destruct (sr_truncated r); [by destruct Hr as (? & _ & _ & ?)|by rewrite Hr].
  - destruct (sr_truncated r); [|done]. destruct Hr as (m & Hm & Hle & _). split; [lia|eauto].
  - cbn [ph_body csv_stream stream_headers concat]. rewrite concat_app. unfold portal_csv_encode_rows at 1.
    rewrite (concat_fmap_concat (λ row, csv_line (gateway_value_to_csv_cell f64_to_string <$> per_column (column_name <$> wide) row Null))).
    rewrite Hch. rewrite length_fmap. unfold fin. rewrite finish_rows_map.
    set (out := portal_finish _ _ _ _ (concat raw)).
    assert ((λ row, csv_line (gateway_value_to_csv_cell f64_to_string <$> per_column (column_name <$> wide) row Null)) <$> out
      = csv_line <$> (csv_cells (column_name <$> wide) <$> out)) as -> by (by rewrite <-list_fmap_compose).
    assert (concat (if sr_truncated r then [truncated_line] else []) = concat (csv_line <$> (if sr_truncated r then truncated_record else [])))
      as -> by (by destruct (sr_truncated r)).
    rewrite <-concat_app, <-fmap_app.
    change (csv_line (column_name <$> wide) ++ concat (csv_line <$> ?l)) with (concat (csv_line <$> ((column_name <$> wide) :: l))).
    rewrite csv_read_lines; [done|]. constructor; [done|]. apply Forall_app. split; [|by destruct (sr_truncated r); repeat constructor].
    apply Forall_fmap, Forall_forall. intros row _. cbn. unfold csv_cells. pose proof (per_column_ne (column_name <$> wide) row Null Hn).
    by destruct (per_column _ _ _).
Qed.
End Formats.

(** ** What an answer shows *)

(** Windows that were polled from a stream, one after the other. *)
Inductive polled : RowStream → list (list Row) → Prop :=
| polled_none s : polled s []
| polled_window n s chunk s' raw : poll_window n s = (Ok (Some chunk), s') → polled s' raw → polled s (chunk :: raw).

Section Shown.
Context (to_json : Json → str) (f64_is_finite : Z → bool) (f64_to_string json_float : Z → str).

(** The cells of [raw], those of masked columns masked; more may follow. *)
Definition masked_row (columns : list Column) (masks : list Obligations.MaskSpec) (raw row : Row) : Prop :=
  ∀ j v, raw !! j = Some v →
    row !! j = Some (match ObligationTheorems.column_mask columns masks j with
                     | Some spec => Obligations.mask_gateway_value f64_to_string v spec
                     | None => v
                     end).

(** The columns as the frontend's protocol names their types. *)
Definition client_columns (pp : PortalPrepared) (columns : list Column) : list Column :=
  if protocol_eqb (pp_backend pp) (pp_frontend pp) then columns else map_columns columns (pp_backend pp) (pp_frontend pp).

Definition stream_as (f : PortalFormat) (service : str) (download : bool) (window : Z) (names : list str) (r : StreamRows) : PortalHttp :=
  match f with
  | FNdjson => ndjson_stream to_json f64_is_finite service download window names r
  | FCsv => csv_stream f64_to_string download window names r
  | FJson => json_stream to_json f64_is_finite service download window names r
  end.
Definition held_as (f : PortalFormat) (resp : AdminPortalQueryResponse) (download : bool) (window : Z) : PortalHttp :=
  match f with
  | FNdjson => portal_ndjson_chunked_response to_json resp download window
  | FCsv => portal_csv_chunked_response json_float resp download window
  | FJson => portal_json_chunked_response to_json resp download window
  end.

(** The answer [h] to an outcome of the backend: the rows that were polled, masked; or the
    first rows of a complete result, masked and then watermarked; or a count. *)
Inductive shows (pp : PortalPrepared) (f : PortalFormat) (h : PortalHttp) : ExecuteOutcome → Prop :=
| shows_stream q service download window names raw r :
    (column_name <$> client_columns pp (q_columns q)) `prefix_of` names → polled (q_stream q) raw →
    Forall2 (Forall2 (masked_row (client_columns pp (q_columns q)) (Obligations.column_masks (pp_obligations pp)))) raw (sr_chunks r) →
    h = stream_as f service download window names r → shows pp f h (OStreaming q)
| shows_rows columns rows n rows' cs rs m resp download window :
    Forall2 (masked_row (client_columns pp columns) (Obligations.column_masks (pp_obligations pp))) (take n rows) rows' →
    Obligations.watermarked f64_to_string (pp_obligations pp) (client_columns pp columns) rows' = (cs, rs) →
    po_columns resp = column_name <$> cs → po_rows resp = map (gateway_value_to_json f64_is_finite) <$> take m rs →
    h = held_as f resp download window → shows pp f h (OComplete (ResultSet columns rows))
| shows_count n id service download window :
    h = held_as f (affected_result service n) download window → shows pp f h (OComplete (ROk n id)).

Lemma masked_fold columns masks row : masked_row columns masks row (foldl (Obligations.mask_cell f64_to_string) row (Obligations.build_mask_index columns masks)).
Proof. intros j v Hv. rewrite ObligationTheorems.mask_row_lookup, Hv. by case_match. Qed.

Lemma pad_prefix width token fuel : ∀ row, row `prefix_of` pad_row fuel width token row.
Proof.
  induction fuel as [|fuel IH]; intros row; [done|]. cbn [pad_row]. destruct (_ <? _)%nat; [|done].
  etrans; [|apply IH]. by apply prefix_app_r.
Qed.

Lemma finish_masks columns masks wm width chunk :
  Forall2 (masked_row columns masks) chunk (portal_finish f64_to_string (Obligations.build_mask_index columns masks) wm width chunk).
Proof.
  unfold portal_finish. rewrite ObligationTheorems.apply_masks_map. assert (∀ row row', masked_row columns masks row row' →
    masked_row columns masks row (match wm with Some wm => pad_row width width (Obligations.wm_token wm) row' | None => row' end)) as Hpad.
  { intros row row' Hm j v Hv. destruct wm as [wm|]; [|by apply Hm]. eapply prefix_lookup_Some; [by apply Hm|apply pad_prefix]. }
  induction chunk as [|row chunk IH]; [by destruct wm|]. destruct wm as [wm|]; cbn [map]; constructor; auto using masked_fold.
Qed.

Lemma loop_polled window cap finish fuel : ∀ total s,
  ∃ raw, polled s raw ∧ sr_chunks (portal_loop fuel window cap finish total s) = finish <$> raw.
Proof.
  induction fuel as [|fuel IH]; intros total s; cbn [portal_loop].
  - exists []. split; [constructor|]. by case_match.
  - case_match; [exists []; split; [constructor|done]|].
    destruct (poll_window _ s) as [[[chunk|]|] s'] eqn:E; [|exists []; split; [constructor|done]..].
    destruct (IH (total + Z.of_nat (length chunk)) s') as (raw & Hp & Hr). exists (chunk :: raw). split; [by econstructor|]. cbn [sr_chunks]. by rewrite Hr.
Qed.

Lemma streamed_shows pp max_rows window f service download q names r :
  streamed f64_to_string max_rows window pp q = (names, r) → shows pp f (stream_as f service download window names r) (OStreaming q).
Proof.
  unfold streamed. fold (client_columns pp (q_columns q)). cbv zeta.
  set (wide := match Obligations.watermark _ with Some _ => _ | None => _ end). set (finish := portal_finish _ _ _ _).
  destruct (loop_polled window (match max_rows with Some m => Some m | None => Obligations.max_rows (pp_obligations pp) end) finish
    (S (polls_left (q_stream q))) 0 (q_stream q)) as (raw & Hp & Hr). revert Hr. generalize (portal_loop (S (polls_left (q_stream q)))
    window (match max_rows with Some m => Some m | None => Obligations.max_rows (pp_obligations pp) end) finish 0 (q_stream q)).
  intros r0 Hr [= <- <-].
  econstructor; [|exact Hp| |done].
  - unfold wide. destruct (Obligations.watermark _) as [wm|]; [|done]. unfold Obligations.apply_watermark_to_resultset.
    destruct (Obligations.wm_mode wm); [|done]. destruct (existsb _ _); [done|]. cbn [fst]. rewrite fmap_app. by apply prefix_app_r.
  - rewrite Hr. clear. induction raw as [|chunk raw IH]; [constructor|]. constructor; [apply finish_masks|done].
Qed.

Lemma masked_same columns rows : Forall2 (masked_row columns []) rows rows.
Proof.
  induction rows as [|row rows IH]; constructor; [|done]. intros j v Hv. rewrite Hv. unfold ObligationTheorems.column_mask. by destruct (columns !! j).
Qed.

Lemma response_masked pp columns rows : ∃ n rows' cs rs,
  Forall2 (masked_row (client_columns pp columns) (Obligations.column_masks (pp_obligations pp))) (take n rows) rows' ∧
  Obligations.watermarked f64_to_string (pp_obligations pp) (client_columns pp columns) rows' = (cs, rs) ∧
  portal_response f64_to_string pp (ResultSet columns rows) = ResultSet cs rs.
Proof.
  set (o := pp_obligations pp). unfold portal_response. fold o.
  assert (map_response_types (ResultSet columns rows) (pp_backend pp) (pp_frontend pp) = ResultSet (client_columns pp columns) rows) as ->.
  { unfold map_response_types, client_columns. by destruct (protocol_eqb _ _). }
  unfold Obligations.apply_obligations_to_response. destruct (Obligations.has_result_obligations o) eqn:Eh; cbn [negb].
  - unfold Obligations.apply_to_resultset. rewrite ObligationTheorems.apply_masks_map, ObligationTheorems.truncate_map.
    set (kept := Obligations.truncate_rows _ rows). set (rows' := map _ kept).
    destruct (Obligations.watermarked f64_to_string o (client_columns pp columns) rows') as [cs rs] eqn:Ew.
    assert (∃ n, take n rows = kept) as [n Hn].
    { unfold kept, Obligations.truncate_rows. destruct (Obligations.max_rows o) as [m|]; [|exists (length rows); by apply take_ge].
      destruct (m <? _); [eauto|exists (length rows); by apply take_ge]. }
    exists n, rows', cs, rs. rewrite Hn. split; [|done]. unfold rows'. clear. induction kept as [|row kept IH]; constructor; [apply masked_fold|exact IH].
  - unfold Obligations.has_result_obligations in Eh. bool_hyps. exists (length rows), rows, (client_columns pp columns), rows.
    rewrite take_ge by done. unfold Obligations.watermarked. destruct (Obligations.watermark o); [done|]. split; [|done].
    destruct (Obligations.column_masks o); [apply masked_same|done].
Qed.

Lemma complete_shows debug_response pp f service max_rows cut download window r resp :
  portal_complete f64_is_finite f64_to_string debug_response service max_rows cut pp r = Ok resp → shows pp f (held_as f resp download window) (OComplete r).
Proof.
  unfold portal_complete. destruct r; try (intros Hc; exfalso; revert Hc; unfold portal_response, map_response_types, Obligations.apply_obligations_to_response, Obligations.apply_to_resultset;
    repeat first [case_match|progress intros]; simplify_eq; done).
  - intros Hc. assert (portal_response f64_to_string pp (ROk affected_rows last_insert_id) = ROk affected_rows last_insert_id) as E.
    { unfold portal_response, map_response_types, Obligations.apply_obligations_to_response. by repeat case_match. }
    rewrite E in Hc. injection Hc as <-. by econstructor.
  - destruct (response_masked pp columns rows) as (n & rows' & cs & rs & Hm & Hw & ->). intros [= <-].
    set (limit := match max_rows with Some m => Some m | None => _ end).
    assert (∃ m, po_rows (complete_result f64_is_finite service limit cut cs rs) = map (gateway_value_to_json f64_is_finite) <$> take m rs) as [m Hr].
    { unfold complete_result. cbn [po_rows]. destruct limit as [k|]; [destruct (cut && _); [eauto|]|];
        (exists (length rs); by rewrite (take_ge rs) by done). }
    exact (shows_rows pp f _ columns rows n rows' cs rs m (complete_result f64_is_finite service limit cut cs rs) download window Hm Hw eq_refl Hr eq_refl).
Qed.
End Shown.

(** ** Who may run what *)

#[local] Existing Instance Authorize.store_gate.

Section Guard.
Context `{TimeRules.Chrono, StateCrypto.Crypto, Ticket.TicketJson, Vault.VaultJson, PdpStore.CedarLoader, PdpStore.PolicyJson, AdminAuth.Jwt, Pdp.RemoteIO}.
Context {R : Type} `{LoadBalance.Rng R} (dialect_of : ProtocolKind → DialectParser) {T B : Type} `{BackendConnector B}.
Context (connect : ProtocolKind → list EndpointConfig → B) (extract_object_set : str → str → ObjectSet.ObjectSet).
Context (to_json : Json → str) (f64_is_finite : Z → bool) (f64_to_string json_float : Z → str) (debug_response : GatewayResponse → str).
Implicit Types p : Process R T.

Abbreviation query := (portal_query dialect_of connect extract_object_set to_json f64_is_finite f64_to_string json_float debug_response).

(** The decision on the statement of the request. *)
Definition decided (body : AdminPortalQueryRequest) (penv : PortalEnv) (ctx : option AdminAuth.AdminAuthContext) (frontend : ProtocolKind)
    (decision : Pdp.SecurityDecision) : Prop :=
  ∃ w w', Authorize.authorize_command_with_objects (pe_snapshots penv) (pe_readings penv)
    (Pdp.from_protocol_user (Some (portal_subject body ctx)) None) (pq_service body) (Query (pq_sql body))
    (default_dialect_parser frontend) (Some (extract_object_set (pq_sql body) (ProtocolKind_as_str frontend))) w =
    Ret (decision, w').

Lemma prepared_allowed penv c service sql subject max_rows s pp b s' : Security.enabled (security c) = true →
  portal_prepare dialect_of connect extract_object_set penv c service sql subject max_rows s = (Ret (Ok (pp, b)), s') →
  ∃ svc w w' decision sql', Authorize.authorize_command_with_objects (pe_snapshots penv) (pe_readings penv)
      (Pdp.from_protocol_user (Some subject) None) service (Query sql) (default_dialect_parser (pp_frontend pp))
      (Some (extract_object_set sql (ProtocolKind_as_str (pp_frontend pp)))) w = Ret (decision, w') ∧
    (decision = Pdp.Allow (pp_obligations pp) ∧ sql' = sql ∨ decision = Pdp.AllowRewrite sql' (pp_obligations pp)) ∧
    named s_name service (services c) = Some svc ∧
    portal_translate c svc (pp_frontend pp) (Query sql') = Ret (Ok (pp_command pp)).
Proof.
  intros He. unfold portal_prepare. destruct (plan_from_config _ _ _ _) as [[plans|] s1]; [|done].
  destruct (List.find _ plans) as [plan|]; [|done]. destruct (named s_name service (services c)) as [svc|]; [|done].
  destruct (omap _ _) as [|e eps]; [done|]. unfold portal_decide. rewrite He. cbn [negb].
  set (w := ticket_world _). set (auth := Authorize.authorize_command_with_objects _ _ _ _ _ _ _ _).
  destruct auth as [[decision w']|] eqn:Ea; [|done].
  destruct decision as [o|t o|rule ty m|rule m]; cbn [fst snd]; try done.
  - destruct (portal_translate _ _ _ _) as [[command|]|] eqn:Et; [|done..]. intros E. injection E as <- <- <-.
    exists svc, w, w', (Pdp.Allow o), sql. split_and!; [done|by left|done|done].
  - destruct (portal_translate _ _ _ _) as [[command|]|] eqn:Et; [|done..]. intros E. injection E as <- <- <-.
    exists svc, w, w', (Pdp.AllowRewrite t o), t. split_and!; [done|by right|done|done].
Qed.

(** The handler gets its result from a prepared query that ran. *)
Lemma portal_ran {A} penv c service sql subject max_rows s (k : PortalPrepared → ExecuteOutcome → result PortalError A) a s' :
  portal_run dialect_of connect extract_object_set penv c service sql subject max_rows s k = (Ret (Ok a), s') →
  ∃ pp b outcome, portal_prepare dialect_of connect extract_object_set penv c service sql subject max_rows s = (Ret (Ok (pp, b)), s') ∧
    portal_outcome pp b = Ok outcome ∧ k pp outcome = Ok a.
Proof.
  unfold portal_run. destruct (portal_prepare _ _ _ _ _ _ _ _ _ _) as [[[[pp b]|]|] s1]; [|done..].
  destruct (portal_outcome pp b) as [outcome|] eqn:Eo; cbn [mbind result_bind]; [|done]. intros E. injection E as E <-. eauto 8.
Qed.

(** The three exports show the rows of the outcome. *)
Lemma run_shows f penv c service sql subject max_rows window download s h s' :
  (match f with
   | FNdjson => portal_execute_ndjson_streaming dialect_of connect extract_object_set to_json f64_is_finite f64_to_string debug_response
   | FCsv => portal_execute_csv_streaming dialect_of connect extract_object_set f64_is_finite f64_to_string json_float debug_response
   | FJson => portal_execute_json_streaming dialect_of connect extract_object_set to_json f64_is_finite f64_to_string debug_response
   end) penv c service sql subject max_rows window download s = (Ret (Ok h), s') →
  ∃ pp b outcome s1, portal_prepare dialect_of connect extract_object_set penv c service sql subject max_rows s = (Ret (Ok (pp, b)), s1) ∧
    portal_outcome pp b = Ok outcome ∧ shows to_json f64_is_finite f64_to_string json_float pp f h outcome.
Proof.
  intros Hrun. assert (∃ pp b outcome, portal_prepare dialect_of connect extract_object_set penv c service sql subject max_rows s = (Ret (Ok (pp, b)), s') ∧
    portal_outcome pp b = Ok outcome ∧
    match outcome with
    | OWireRelay _ => False
    | OStreaming q => ∃ names r, streamed f64_to_string max_rows (Z.max window 1) pp q = (names, r) ∧
        h = stream_as to_json f64_is_finite f64_to_string f service download (Z.max window 1) names r
    | OComplete r => ∃ cut resp, portal_complete f64_is_finite f64_to_string debug_response service max_rows cut pp r = Ok resp ∧
        h = held_as to_json json_float f resp download (Z.max window 1)
    end) as (pp & b & outcome & Hp & Ho & Hk).
  { destruct f; apply portal_ran in Hrun as (pp & b & outcome & Hp & Ho & Hk); exists pp, b, outcome; (split; [done|]); (split; [done|]);
      (destruct outcome as [r|q|relay]; [|destruct (streamed _ _ _ _ _) as [names r] eqn:Es; injection Hk as <-; by exists names, r|done]);
      destruct (portal_complete _ _ _ _ _ _ _ _) as [resp|] eqn:Ec; [|done| |done| |done]; injection Hk as <-; by eexists _, resp. }
  exists pp, b, outcome, s'. split; [done|]. split; [done|]. destruct outcome as [r|q|relay]; [|destruct Hk as (names & r & Es & ->); by eapply streamed_shows|done].
  destruct Hk as (cut & resp & Ec & ->). by eapply complete_shows.
Qed.

End Guard.

End PortalTheorems.

(** ** Portal queries on a small gateway

    The concrete queries on which the properties of [PortalTheorems.v] are applied,
    and the behaviours of the portal that surprise. *)
Import ConfigDiff Runtime AdminApi AdminApiTheorems AdminRuns AdminExamples Portal PortalTheorems.
Module PortalExamples.

#[local] Existing Instance TimeRules.toy_chrono.
#[local] Existing Instance StateCrypto.toy_crypto.
#[local] Existing Instance TicketTheorems.toy_json.
#[local] Existing Instance PdpStore.toy_loader.
#[local] Existing Instance PdpStore.toy_policy_json.
#[local] Existing Instance LoadBalance.counter_rng.
#[local] Existing Instance AdminExamples.no_vault_json.
#[local] Existing Instance AdminExamples.role_jwt.
#[local] Existing Instance Authorize.store_gate.
#[local] Existing Instance AuthorizeTheorems.toy_remote.

Definition people : list Column := [mkColumn ($"id") ($"int"); mkColumn ($"mail") ($"varchar")].
Definition person (i : Z) (mail : string) : Row := [Integer i; VString ($mail)].

(** Two rows, one of them with a separator in a cell. *)
Definition two_people : list Row := [person 1 "a@b"; person 2 "c,d"].

(** A backend that answers every statement with these rows, one per poll. *)
Definition Rows : Type := list Row.
#[local] Instance rows_backend : BackendConnector Rows := {
  be_protocol _ := MySql;
  check_session_health b := (Ok tt, b);
  execute_outcome command session mode b :=
    (Ok (OStreaming (mkStreaming people (BackendRows ((λ r, Ok [r]) <$> b)))), session, b)
}.

Definition show (j : Json) : str := $"{}".

Definition mail_mask : Obligations.MaskSpec := Obligations.mkMask ($"mail") Obligations.Replace ($"***") 0 0 ($"m").

(** A prepared query under these obligations. *)
Definition prepared (o : Obligations.Obligations) : PortalPrepared :=
  mkPrepared (Query ($"q")) default_session (Streaming 1 None) o MySql MySql ($"a") ($"orders") ($"primary").

Definition no_float (f : Z) : str := [].

Lemma portal_csv_reads_back_witness :
  let '(names, r) := streamed no_float (Some 10) 1 (prepared (Obligations.mkObligations [mail_mask] None None None None))
                       (mkStreaming people (BackendRows [Ok [person 1 "a@b"]; Ok [person 2 "c,d"]])) in
  ∃ rows, rows = two_people ∧
    csv_read (concat (ph_body (csv_stream no_float true 1 names r))) =
      names :: (csv_cells no_float names <$> portal_finish no_float [(1%nat, mail_mask)] None 2 rows).
Proof.
  assert ((streamed no_float (Some 10) 1 (prepared (Obligations.mkObligations [mail_mask] None None None None))
    (mkStreaming people (BackendRows [Ok [person 1 "a@b"]; Ok [person 2 "c,d"]]))).1 = [$"id"; $"mail"]) as En by (by vm_compute).
  assert (sr_truncated (streamed no_float (Some 10) 1 (prepared (Obligations.mkObligations [mail_mask] None None None None))
    (mkStreaming people (BackendRows [Ok [person 1 "a@b"]; Ok [person 2 "c,d"]]))).2 = false) as Et by (by vm_compute).
  pose proof (portal_csv_reads_back no_float (Some 10) 1 true (prepared (Obligations.mkObligations [mail_mask] None None None None))
    (mkStreaming people (BackendRows [Ok [person 1 "a@b"]; Ok [person 2 "c,d"]]))) as Hr.
  cbv zeta in Hr. destruct (streamed _ _ _ _ _) as [names r]. cbn [fst snd] in *. subst names.
  specialize (Hr ltac:(repeat constructor; done) ltac:(done)). rewrite Et in Hr. destruct Hr as (rows & _ & Hrows & Hread).
  exists rows. split; [exact Hrows|].
  rewrite Hread, app_nil_r. done.
Defined.

(** *** A query from request to rows *)

Definition secure_policy : Security.SecurityPolicyConfig :=
  Security.mkPolicy true false ($"allow") ($"L0") Security.default_subject Security.default_pdp Security.default_streaming
    Security.default_audit [] [] [] [] [] Security.default_watermark Security.default_state.

Definition portal_inner : Pdp.LocalPdpInner := PdpStore.from_config secure_policy.
Definition portal_env : PortalEnv :=
  mkPortalEnv demo_build (PdpStore.mkFsEnv 0 (Ok tt) 0)
    (Authorize.mkSnapshots portal_inner portal_inner portal_inner portal_inner portal_inner portal_inner portal_inner portal_inner
       portal_inner portal_inner portal_inner) (Authorize.mkReadings 0 demo_ticket_env demo_ticket_env 0).

Definition secure_document : GatewayConfigDocument := demo_document [demo_listener "a" ":1"] secure_policy.
Definition portal_parse (t : str) : result str GatewayConfigDocument :=
  if str_eqb t ($"s") then Ok secure_document else demo_parse t.

Definition portal_process (t : string) : Process Z unit :=
  match boot default_dialect_parser portal_parse (λ _, demo_build) None (Ok ($t)) ∅ ∅ with
  | Ok p => p
  | Err _ => started_process
  end.

Definition run_portal (b : Rows) (role : string) (body : AdminPortalQueryRequest) (p : Process Z unit) : exec PortalAnswer * Process Z unit :=
  portal_query default_dialect_parser (λ _ _, b) (λ _ _, ObjectSet.empty_objects) show (λ _, true) no_float no_float (λ _, [])
    body portal_env (demo_env "1") (Some ($"Bearer " ++ $role)) p.

Definition ask_portal (sql format : string) : AdminPortalQueryRequest :=
  mkPortalRequest ($"orders") ($sql) None None None (Some ($format)) None.

Definition body_of (x : exec PortalAnswer) : option str :=
  match x with Ret (PortalHttpOk h) => Some (concat (ph_body h)) | _ => None end.

(** The answer carries rows. *)
Definition answered_rows (x : exec PortalAnswer) : bool := match x with Ret (PortalHttpOk _) => true | _ => false end.


(** ** What surprises *)

(** The portal builds the whole plan anew for every query, and with it the stores:
    with the state in memory one query of a viewer forgets every ticket. *)
Example portal_forgets :
  let issued := (step default_dialect_parser portal_parse (portal_process "s") (ask "s" "admin" (demo_ticket false))) in
  ticket_count (answer "s" "admin" (ListTickets None) issued) = Some 1%nat ∧
  ticket_count (answer "s" "admin" (ListTickets None) (run_portal two_people "viewer" (ask_portal "select 1" "csv") issued).2) = Some 0%nat.
Proof. split; vm_compute; reflexivity. Qed.

(** The row cap of the request replaces the one the policy sets. *)
Example portal_cap_overrides :
  let q := mkStreaming people (BackendRows ((λ r, Ok [r]) <$> two_people)) in
  let o := Obligations.mkObligations [] None (Some 1) None None in
  sr_total (streamed no_float (Some 10) 256 (prepared o) q).2 = 2 ∧ sr_total (streamed no_float None 256 (prepared o) q).2 = 1.
Proof. split; vm_compute; reflexivity. Qed.

(** A stream that fails after its first rows is exported as a whole result. *)
Example portal_failure_unseen :
  let '(names, r) := streamed no_float None 1 (prepared (Obligations.mkObligations [] None None None None))
                       (mkStreaming people (BackendRows [Ok [person 1 "a"]; Err (Backend ($"gone"))])) in
  sr_truncated r = false ∧ csv_read (concat (ph_body (csv_stream no_float false 1 names r))) = [[$"id"; $"mail"]; [$"1"; $"a"]].
Proof. split; vm_compute; reflexivity. Qed.

(** A watermark that is to be a suffix of the cells is not in the exported rows. *)
Example portal_suffix_lost :
  let o := Obligations.mkObligations [] None None None (Some (Obligations.mkWatermark Obligations.WmSuffix ($"_wm") ($"tok"))) in
  concat (sr_chunks (streamed no_float None 256 (prepared o) (mkStreaming people (BackendRows [Ok two_people]))).2) = two_people.
Proof. vm_compute. reflexivity. Qed.

(** The same bytes are two texts, by the way they are exported, and of two columns of
    one name a row of NDJSON keeps the second. *)
Example portal_cells :
  gateway_value_to_csv_cell no_float (Bytes ($"AB")) = $"0x4142" ∧
  json_cell_to_string no_float (Portal.gateway_value_to_json (λ _, true) (Bytes ($"AB"))) = $"bytes:2" ∧
  ndjson_object [$"a"; $"a"] [JInt 1; JInt 2] = JObject [($"a", JCell (JInt 2))].
Proof. vm_compute. done. Qed.

(** The statement classes the sessions refuse are not looked at: a viewer exports to a
    file of the database server. *)
Example portal_dangerous :
  negb (is_none (DangerousSql.classify_dangerous_sql ($"select 1 into outfile '/tmp/x'") MySql)) = true ∧
  answered_rows (run_portal two_people "viewer" (ask_portal "select 1 into outfile '/tmp/x'" "csv") (portal_process "s")).1 = true.
Proof. split; vm_compute; reflexivity. Qed.
End PortalExamples.
