(* ===== verification/MyProtocol.v ===== *)
(** * The MySQL wire protocol

    [protocol/mysql/src/util.rs] (length-encoded integers and strings, the native
    password hash), [column.rs] (column definitions), [mysql_const.rs] (column types)
    and [server/codec.rs] (packets and their numbers).

    A byte string is a [str]; integers are little-endian.  The readers of [Buf] panic
    at the end of the buffer: a reader is a [buf]. *)

From S2P Require Import Prelude RustStr PgProtocol.

Module MyProtocol.

(** ** Bytes *)

Definition byte (v : Z) : ascii := ascii_of_N (Z.to_N (v mod 256)).

(** [v.to_le_bytes()] of [k] bytes, and back. *)
Fixpoint le_bytes (k : nat) (v : Z) : str :=
  match k with O => [] | S k => byte v :: le_bytes k (v / 256) end.
Fixpoint le_val (l : str) : Z := match l with [] => 0 | c :: l => byte_val c + 256 * le_val l end.

(** [bytes::Buf]: what is read is taken off the front; a short buffer panics. *)
Definition buf (A : Type) : Type := str → exec (A * str).
#[export] Instance buf_ret : MRet buf := λ A a b, Ret (a, b).
#[export] Instance buf_bind : MBind buf := λ A B k m b,
  match m b with Ret (a, b) => k a b | Panic => Panic end.

Definition get_u8 : buf Z := λ b, match b with c :: b => Ret (byte_val c, b) | [] => Panic end.
Definition split_to (n : Z) : buf str := λ b,
  if len b <? n then Panic else Ret (take (Z.to_nat n) b, drop (Z.to_nat n) b).
Definition get_uint_le (n : Z) : buf Z := l ← split_to n; mret (le_val l).
Definition advance (n : Z) : buf unit := _ ← split_to n; mret tt.
Definition has_remaining : buf bool := λ b, Ret (negb (is_empty b), b).

(** ** Length-encoded integers and strings ([util.rs]) *)

Definition get_lenc_int : buf (Z * bool * Z) :=
  first ← get_u8;
  if first =? 251 then mret (0, true, 1)
  else if first =? 252 then v ← get_uint_le 2; mret (v, false, 3)
  else if first =? 253 then v ← get_uint_le 3; mret (v, false, 4)
  else if first =? 254 then v ← get_uint_le 8; mret (v, false, 9)
  else mret (first, false, 1).

(** [reader().read(&mut data)] fills what it can; the rest stays zero. *)
Definition read_into (n : Z) : buf str := λ b,
  let got := take (Z.to_nat n) b in
  Ret (got ++ replicate (Z.to_nat n - length got) nul, drop (Z.to_nat n) b).

Definition get_lenc_str_bytes : buf (str * bool) :=
  x ← get_lenc_int;
  let '(length, is_null, _) := x in
  more ← has_remaining;
  if (length <? 1) || is_null || negb more then mret ([nul], true)
  else λ b, if i64_max <? length then Panic else (data ← read_into length; mret (data, is_null)) b.

Definition skip_lenc_length : buf unit := x ← get_lenc_int; advance x.1.1.

Definition put_lenc_int (n : Z) (is_num : bool) : str :=
  if n =? 0 then [if is_num then byte 0 else byte 251]
  else if n <=? 250 then [byte n]
  else if n <=? 65535 then byte 252 :: le_bytes 2 n
  else if n <=? 16777215 then byte 253 :: le_bytes 3 n
  else byte 254 :: le_bytes 8 n.

Definition length_encoded_string : buf (str * bool) :=
  x ← get_lenc_int;
  let '(num, is_null, _) := x in
  if num <? 1 then mret ([byte 251], is_null)
  else more ← has_remaining;
       if negb more then mret ([], false) else s ← split_to num; mret (s, false).

Definition get_length (b : str) : Z := le_val (take 3 b).

(** The code compares pairwise, then the lengths. *)
Definition compare (a b : str) : bool :=
  forallb (λ x, Ascii.eqb x.1 x.2) (zip a b) && (length a =? length b)%nat.

(** SHA-1 is a parameter; a digest has 20 bytes. *)
Class Sha1 := sha1 : str → str.
Class Sha1Laws `{Sha1} := sha1_length s : length (sha1 s) = 20%nat.

Definition byte_xor (a b : ascii) : ascii := byte (Z.lxor (byte_val a) (byte_val b)).

Definition calc_password `{Sha1} (scramble password : str) : str :=
  if is_empty password then []
  else
    let stage1 := sha1 password in
    let hash := sha1 stage1 in
    zip_with byte_xor (sha1 (scramble ++ hash)) stage1.

(** ** Column definitions ([column.rs]) *)

Inductive ColumnType :=
| MYSQL_TYPE_DECIMAL | MYSQL_TYPE_TINY | MYSQL_TYPE_SHORT | MYSQL_TYPE_LONG | MYSQL_TYPE_FLOAT | MYSQL_TYPE_DOUBLE
| MYSQL_TYPE_NULL | MYSQL_TYPE_TIMESTAMP | MYSQL_TYPE_LONGLONG | MYSQL_TYPE_INT24 | MYSQL_TYPE_DATE | MYSQL_TYPE_TIME
| MYSQL_TYPE_DATETIME | MYSQL_TYPE_YEAR | MYSQL_TYPE_NEWDATE | MYSQL_TYPE_VARCHAR | MYSQL_TYPE_BIT
| MYSQL_TYPE_NEWDECIMAL | MYSQL_TYPE_ENUM | MYSQL_TYPE_SET | MYSQL_TYPE_TINY_BLOB | MYSQL_TYPE_MEDIUM_BLOB
| MYSQL_TYPE_LONG_BLOB | MYSQL_TYPE_BLOB | MYSQL_TYPE_VAR_STRING | MYSQL_TYPE_STRING | MYSQL_TYPE_GEOMETRY.

#[export] Instance ColumnType_eq_dec : EqDecision ColumnType.
Proof. solve_decision. Defined.

(** [column_type as u8]. *)
Definition type_byte (t : ColumnType) : Z :=
  match t with
  | MYSQL_TYPE_DECIMAL => 0 | MYSQL_TYPE_TINY => 1 | MYSQL_TYPE_SHORT => 2 | MYSQL_TYPE_LONG => 3 | MYSQL_TYPE_FLOAT => 4
  | MYSQL_TYPE_DOUBLE => 5 | MYSQL_TYPE_NULL => 6 | MYSQL_TYPE_TIMESTAMP => 7 | MYSQL_TYPE_LONGLONG => 8
  | MYSQL_TYPE_INT24 => 9 | MYSQL_TYPE_DATE => 10 | MYSQL_TYPE_TIME => 11 | MYSQL_TYPE_DATETIME => 12
  | MYSQL_TYPE_YEAR => 13 | MYSQL_TYPE_NEWDATE => 14 | MYSQL_TYPE_VARCHAR => 15 | MYSQL_TYPE_BIT => 16
  | MYSQL_TYPE_NEWDECIMAL => 246 | MYSQL_TYPE_ENUM => 247 | MYSQL_TYPE_SET => 248 | MYSQL_TYPE_TINY_BLOB => 249
  | MYSQL_TYPE_MEDIUM_BLOB => 250 | MYSQL_TYPE_LONG_BLOB => 251 | MYSQL_TYPE_BLOB => 252 | MYSQL_TYPE_VAR_STRING => 253
  | MYSQL_TYPE_STRING => 254 | MYSQL_TYPE_GEOMETRY => 255
  end.

Definition all_types : list ColumnType :=
  [MYSQL_TYPE_DECIMAL; MYSQL_TYPE_TINY; MYSQL_TYPE_SHORT; MYSQL_TYPE_LONG; MYSQL_TYPE_FLOAT; MYSQL_TYPE_DOUBLE;
   MYSQL_TYPE_NULL; MYSQL_TYPE_TIMESTAMP; MYSQL_TYPE_LONGLONG; MYSQL_TYPE_INT24; MYSQL_TYPE_DATE; MYSQL_TYPE_TIME;
   MYSQL_TYPE_DATETIME; MYSQL_TYPE_YEAR; MYSQL_TYPE_NEWDATE; MYSQL_TYPE_VARCHAR; MYSQL_TYPE_BIT; MYSQL_TYPE_NEWDECIMAL;
   MYSQL_TYPE_ENUM; MYSQL_TYPE_SET; MYSQL_TYPE_TINY_BLOB; MYSQL_TYPE_MEDIUM_BLOB; MYSQL_TYPE_LONG_BLOB; MYSQL_TYPE_BLOB;
   MYSQL_TYPE_VAR_STRING; MYSQL_TYPE_STRING; MYSQL_TYPE_GEOMETRY].

(** The type of a wire byte, if there is one.  [ColumnType::from] transmutes: on a
    byte of no type the behaviour is undefined, here a panic. *)
Definition type_of_byte (v : Z) : option ColumnType := List.find (λ t, type_byte t =? v) all_types.
Definition column_type_from (v : Z) : exec ColumnType :=
  match type_of_byte v with Some t => Ret t | None => Panic end.

Record ColumnInfo := mkColumnInfo {
  ci_schema : option str;
  ci_table_name : option str;
  ci_column_name : str;
  ci_charset : Z;
  ci_column_length : Z;
  ci_column_type : ColumnType;
  ci_column_flag : Z;
  ci_decimals : Z
}.

(** [String::from_utf8(bytes).unwrap()]. *)
Definition utf8_or_panic (s : str) : buf str := λ b, if is_utf8 s then Ret (s, b) else Panic.
Definition get_name : buf (option str) :=
  x ← get_lenc_str_bytes;
  if x.2 : bool then mret None else s ← utf8_or_panic x.1; mret (Some s).

Definition decode_column : buf ColumnInfo :=
  _ ← skip_lenc_length;
  schema ← get_name;
  table_name ← get_name;
  _ ← skip_lenc_length;
  x ← get_lenc_str_bytes;
  column_name ← utf8_or_panic x.1;
  _ ← skip_lenc_length;
  _ ← get_u8;
  charset ← get_u8;
  _ ← get_u8;
  column_length ← get_uint_le 4;
  t ← get_u8;
  column_type ← (λ b, match column_type_from t with Ret t => Ret (t, b) | Panic => Panic end) : buf ColumnType;
  column_flag ← get_uint_le 2;
  decimals ← get_u8;
  _ ← get_uint_le 2;
  mret (mkColumnInfo schema table_name column_name charset column_length column_type column_flag decimals).

Definition put_name (n : option str) : str :=
  match n with Some s => put_lenc_int (len s) false ++ s | None => put_lenc_int 0 true end.

Definition encode_column (c : ColumnInfo) : str :=
  put_lenc_int 3 false ++ $"def" ++ put_name (ci_schema c) ++ put_name (ci_table_name c) ++ put_lenc_int 0 true
  ++ put_lenc_int (len (ci_column_name c)) false ++ ci_column_name c ++ put_lenc_int 0 true
  ++ [byte 12; byte (ci_charset c); byte 0] ++ le_bytes 4 (ci_column_length c) ++ [byte (type_byte (ci_column_type c))]
  ++ le_bytes 2 (ci_column_flag c) ++ [byte (ci_decimals c)] ++ le_bytes 2 0.

(** ** Packets ([server/codec.rs]) *)

Definition MAX_PAYLOAD_LEN : Z := 16777215.

Record PacketCodec := mkCodec { pc_buf : str; pc_is_max : bool; pc_seq : Z }.
Definition new_codec : PacketCodec := mkCodec [] false 0.

Definition next_seq (c : PacketCodec) : PacketCodec := mkCodec (pc_buf c) (pc_is_max c) ((pc_seq c + 1) mod 256).
Definition reset_seq (c : PacketCodec) : PacketCodec := mkCodec (pc_buf c) (pc_is_max c) 0.

(** Writes over the four bytes at [offset]. *)
Definition make_packet_header (length : Z) (data : str) (offset : nat) (c : PacketCodec) : str * PacketCodec :=
  (list_inserts offset (le_bytes 3 length ++ [byte (pc_seq c)]) data, next_seq c).

Fixpoint encode_full (num : nat) (item dst : str) (offset : nat) (c : PacketCodec) : str * nat * str * PacketCodec :=
  match num with
  | O => (dst, offset, item, c)
  | S num =>
      let m := Z.to_nat MAX_PAYLOAD_LEN in
      let '(dst, c) := make_packet_header MAX_PAYLOAD_LEN (dst ++ replicate 4 nul ++ take m item) offset c in
      encode_full num (drop m item) dst (offset + (m + 4)) c
  end.

Definition encode_packet_offset (item dst : str) (offset : nat) (c : PacketCodec) : str * PacketCodec :=
  let num := len item / MAX_PAYLOAD_LEN in
  let remain := len item mod MAX_PAYLOAD_LEN in
  let '(dst, offset, rest, c) := encode_full (Z.to_nat num) item dst offset c in
  make_packet_header remain (dst ++ replicate 4 nul ++ rest) offset c.

Definition encode_packet (item dst : str) (c : PacketCodec) : str * PacketCodec := encode_packet_offset item dst 0 c.

(** [decode]: one more packet per call of itself; the fuel is the length of the
    buffer. *)
Fixpoint decode_packet (fuel : nat) (c : PacketCodec) (src : str) : option str * PacketCodec * str :=
  match fuel with
  | O => (None, c, src)
  | S fuel =>
      if (length src <? 3)%nat then (None, c, src)
      else
        let n := get_length src in
        if len src <? 4 + n then (None, c, src)
        else
          let is_max := pc_is_max c || (n =? MAX_PAYLOAD_LEN) in
          let body := drop 4 src in
          let c := mkCodec (pc_buf c ++ take (Z.to_nat n) body) is_max ((pc_seq c + 1) mod 256) in
          let src := drop (Z.to_nat n) body in
          if n <? MAX_PAYLOAD_LEN then (Some (pc_buf c), mkCodec [] is_max (pc_seq c), src)
          else decode_packet fuel c src
  end.
Definition codec_decode (c : PacketCodec) (src : str) : option str * PacketCodec * str :=
  decode_packet (S (length src)) c src.

(** [Framed] of tokio-util: decode what is buffered, read more when that is not
    enough ([chunks] are what the reads return), end with the stream.  The result: the
    frame, the codec, the buffer and the reads that are left. *)
Fixpoint framed_next (chunks : list str) (c : PacketCodec) (src : str) : option (str * PacketCodec * str * list str) :=
  match codec_decode c src with
  | (Some frame, c, src) => Some (frame, c, src, chunks)
  | (None, c, src) =>
      match chunks with
      | [] => None
      | chunk :: chunks => framed_next chunks c (src ++ chunk)
      end
  end.

(** The fixed packets; the code drops their four header bytes. *)
Definition eof_payload : str := byte 254 :: [byte 0; byte 0; byte 2; byte 0].
Definition ok_payload : str := [byte 0; byte 0; byte 0; byte 2; byte 0; byte 0; byte 0].

Record MySQLError := mkMySQLError { my_code : Z; my_state : str; my_msg : str }.
Definition err_payload (e : MySQLError) : str :=
  [byte 255; byte (my_code e); byte (my_code e / 256)] ++ $"#" ++ my_state e ++ $" " ++ my_msg e.
Definition make_err_packet (e : MySQLError) : str := replicate 4 nul ++ err_payload e.
End MyProtocol.
