(* ===== verification/MyProtocolTheorems.v ===== *)
(** * Properties of the MySQL wire protocol

    Length-encoded integers, column definitions and packets are read back as they
    were written, wherever the bytes are cut. *)

From S2P Require Import Prelude RustStr PgProtocol MyProtocol.
Import MyProtocol.

Module MyProtocolTheorems.

(** ** Bytes and buffers *)

Lemma byte_val_byte v : byte_val (byte v) = v mod 256.
Proof. apply byte_val_mod. Qed.

Lemma byte_val_small v : 0 ≤ v < 256 → byte_val (byte v) = v.
Proof. intros Hv. by rewrite byte_val_byte, Z.mod_small. Qed.

Lemma byte_byte_val c : byte (byte_val c) = c.
Proof.
  unfold byte, byte_val. pose proof (N_ascii_bounded c). rewrite Z.mod_small by lia. by rewrite N2Z.id, ascii_N_embedding.
Qed.

Lemma byte_val_range c : 0 ≤ byte_val c < 256.
Proof. unfold byte_val. pose proof (N_ascii_bounded c). lia. Qed.

Lemma le_bytes_length k v : length (le_bytes k v) = k.
Proof. revert v. induction k as [|k IH]; intros v; [done|]. cbn [le_bytes length]. by rewrite IH. Qed.

Lemma le_val_bytes k v : le_val (le_bytes k v) = v mod 256 ^ Z.of_nat k.
Proof.
  revert v. induction k as [|k IH]; intros v; [by rewrite Z.mod_1_r|]. cbn [le_bytes le_val].
  rewrite IH, byte_val_byte, Nat2Z.inj_succ, Z.pow_succ_r, Z.rem_mul_r by lia. lia.
Qed.

Lemma le_val_bytes_small k v : 0 ≤ v < 256 ^ Z.of_nat k → le_val (le_bytes k v) = v.
Proof. intros Hv. by rewrite le_val_bytes, Z.mod_small. Qed.

Lemma le_val_range l : 0 ≤ le_val l < 256 ^ len l.
Proof.
  induction l as [|c l IH]; [done|]. cbn [le_val length]. pose proof (byte_val_range c).
  rewrite Nat2Z.inj_succ, Z.pow_succ_r by lia. lia.
Qed.

Lemma split_to_app n s r : n = len s → split_to n (s ++ r) = Ret (s, r).
Proof.
  intros ->. unfold split_to. rewrite length_app, (proj2 (Z.ltb_ge _ _)) by lia.
  by rewrite Nat2Z.id, take_app_length, drop_app_length.
Qed.

Lemma get_uint_le_app n s r : n = len s → get_uint_le n (s ++ r) = Ret (le_val s, r).
Proof. intros. unfold get_uint_le, mbind, buf_bind. by rewrite split_to_app. Qed.

Lemma get_u8_byte v r : 0 ≤ v < 256 → get_u8 (byte v :: r) = Ret (v, r).
Proof. intros Hv. unfold get_u8. by rewrite byte_val_small. Qed.

(** Running a reader step by step. *)
Lemma bind_step {A B} (m : buf A) (k : A → buf B) b a b' : m b = Ret (a, b') → (m ≫= k) b = k a b'.
Proof. intros Hm. unfold mbind, buf_bind. by rewrite Hm. Qed.

(** ** Length-encoded integers *)

(** How many bytes the encoding of [n] takes. *)
Definition lenc_size (n : Z) : Z := if n <=? 250 then 1 else if n <=? 65535 then 3 else if n <=? 16777215 then 4 else 9.

Lemma put_lenc_length n b : 0 ≤ n → len (put_lenc_int n b) = lenc_size n.
Proof.
  intros Hn. unfold put_lenc_int, lenc_size. destruct (Z.eqb_spec n 0) as [->|]; [done|]. repeat case_match; try lia; cbn; lia.
Qed.

(** A number below 2^64 is read back, and only its bytes are taken. *)
Theorem lenc_roundtrip n b r : 0 ≤ n < 2 ^ 64 → b = true ∨ n ≠ 0 →
  get_lenc_int (put_lenc_int n b ++ r) = Ret (n, false, lenc_size n, r).
Proof.
  intros Hn Hb. unfold put_lenc_int, lenc_size, get_lenc_int.
  destruct (Z.eqb_spec n 0) as [->|Hz].
  { destruct Hb as [->|Hb]; [|done]. cbn [app]. erewrite bind_step by (by apply get_u8_byte). done. }
  destruct (Z.leb_spec n 250).
  { cbn [app]. erewrite bind_step by (apply get_u8_byte; lia). rewrite !(proj2 (Z.eqb_neq n _)) by lia. done. }
  destruct (Z.leb_spec n 65535).
  { cbn [app]. erewrite bind_step by (by apply get_u8_byte). cbn [Z.eqb Pos.eqb].
    erewrite bind_step by (apply get_uint_le_app; by rewrite le_bytes_length). by rewrite le_val_bytes_small by lia. }
  destruct (Z.leb_spec n 16777215).
  { cbn [app]. erewrite bind_step by (by apply get_u8_byte). cbn [Z.eqb Pos.eqb].
    erewrite bind_step by (apply get_uint_le_app; by rewrite le_bytes_length). by rewrite le_val_bytes_small by lia. }
  cbn [app]. erewrite bind_step by (by apply get_u8_byte). cbn [Z.eqb Pos.eqb].
  erewrite bind_step by (apply get_uint_le_app; by rewrite le_bytes_length). rewrite le_val_bytes_small; [done|]. cbn; lia.
Qed.

(** ** Column definitions *)

Lemma lenc_str_app s r : s ≠ [] → len s < 2 ^ 63 →
  get_lenc_str_bytes (put_lenc_int (len s) false ++ s ++ r) = Ret (s, false, r).
Proof.
  intros Hs Hl. assert (len s ≠ 0) as Hz by (destruct s; [done|cbn; lia]). unfold get_lenc_str_bytes.
  erewrite bind_step by (apply lenc_roundtrip; [lia|by right]). cbv beta iota. erewrite bind_step by reflexivity.
  rewrite (proj2 (Z.ltb_ge _ 1)) by lia. assert (is_empty (s ++ r) = false) as -> by (by destruct s).
  cbn [orb negb]. unfold i64_max. rewrite (proj2 (Z.ltb_ge _ _)) by lia. unfold read_into, mbind, buf_bind, mret, buf_ret.
  cbv zeta.
  by rewrite Nat2Z.id, take_app_length, drop_app_length, Nat.sub_diag, app_nil_r.
Qed.

Lemma skip_lenc_app s r b : b = true ∨ s ≠ [] → len s < 2 ^ 64 → skip_lenc_length (put_lenc_int (len s) b ++ s ++ r) = Ret (tt, r).
Proof.
  intros Hb Hl. unfold skip_lenc_length. erewrite bind_step by (apply lenc_roundtrip; [lia|]; destruct Hb; [by left|right; by destruct s]).
  unfold advance. by erewrite bind_step by (by apply split_to_app).
Qed.

Lemma skip_lenc_zero r : skip_lenc_length (put_lenc_int 0 true ++ r) = Ret (tt, r).
Proof. apply (skip_lenc_app []); [by left|done]. Qed.

(** A name that can be sent: [None], or text that is not empty. *)
Definition sendable_name (n : str) : Prop := n ≠ [] ∧ is_utf8 n = true ∧ len n < 2 ^ 63.

Lemma utf8_or_panic_ok s r : is_utf8 s = true → utf8_or_panic s r = Ret (s, r).
Proof. intros Hs. unfold utf8_or_panic. by rewrite Hs. Qed.

Lemma get_name_app n r : from_option sendable_name True n → r ≠ [] → get_name (put_name n ++ r) = Ret (n, r).
Proof.
  intros Hn Hr. destruct n as [s|]; cbn [put_name].
  - destruct Hn as (Hs & Hu & Hl). rewrite <-app_assoc. unfold get_name. erewrite bind_step by (by apply lenc_str_app).
    cbn [fst snd]. erewrite bind_step by (by apply utf8_or_panic_ok). done.
  - unfold get_name, get_lenc_str_bytes. erewrite bind_step; [|erewrite bind_step by (by apply (lenc_roundtrip 0 true); [lia|left]); reflexivity].
    done.
Qed.

Definition sendable_column (c : ColumnInfo) : Prop :=
  from_option sendable_name True (ci_schema c) ∧ from_option sendable_name True (ci_table_name c) ∧
  sendable_name (ci_column_name c) ∧ 0 ≤ ci_charset c < 256 ∧ 0 ≤ ci_column_length c < 2 ^ 32 ∧
  0 ≤ ci_column_flag c < 65536 ∧ 0 ≤ ci_decimals c < 256.

Lemma type_of_type_byte t : type_of_byte (type_byte t) = Some t.
Proof. by destruct t. Qed.

Lemma type_byte_range t : 0 ≤ type_byte t < 256.
Proof. destruct t; cbn; lia. Qed.

(** The column definition that a server sends: it also names the table and the column
    themselves, when the statement gives them other names, and the character set has two bytes. *)
Definition server_column (org_table org_name : str) (high : Z) (c : ColumnInfo) : str :=
  put_lenc_int 3 false ++ $"def" ++ put_name (ci_schema c) ++ put_name (ci_table_name c) ++ put_lenc_int (len org_table) true ++ org_table
  ++ put_lenc_int (len (ci_column_name c)) false ++ ci_column_name c ++ put_lenc_int (len org_name) true ++ org_name
  ++ [byte 12; byte (ci_charset c); byte high] ++ le_bytes 4 (ci_column_length c) ++ [byte (type_byte (ci_column_type c))]
  ++ le_bytes 2 (ci_column_flag c) ++ [byte (ci_decimals c)] ++ le_bytes 2 0.

Lemma put_lenc_cons n x : put_lenc_int n true ++ x ≠ [].
Proof. unfold put_lenc_int. by repeat case_match. Qed.

(** A column definition of a server is read, and exactly its bytes are taken. *)
Lemma server_column_read org_table org_name high c r :
  sendable_column c → len org_table < 2 ^ 64 → len org_name < 2 ^ 64 → 0 ≤ high < 256 →
  decode_column (server_column org_table org_name high c ++ r) = Ret (c, r).
Proof.
  intros (Hs & Ht & (Hn & Hu & Hl) & Hcs & Hcl & Hf & Hd) Hot Hon Hh. unfold server_column, decode_column. rewrite <-!app_assoc.
  erewrite bind_step by (apply (skip_lenc_app ($"def")); [by right|done]).
  erewrite bind_step by (apply get_name_app; [done|]; intros [_ He]%app_eq_nil; by apply put_lenc_cons in He).
  erewrite bind_step by (apply get_name_app; [done|apply put_lenc_cons]).
  erewrite bind_step by (apply skip_lenc_app; [by left|done]).
  erewrite bind_step by (by apply lenc_str_app). cbn [fst].
  erewrite bind_step by (by apply utf8_or_panic_ok).
  erewrite bind_step by (apply skip_lenc_app; [by left|done]). cbn [app].
  erewrite bind_step by (by apply get_u8_byte). erewrite bind_step by (by apply get_u8_byte).
  erewrite bind_step by (by apply get_u8_byte).
  erewrite bind_step by (apply get_uint_le_app; by rewrite le_bytes_length). rewrite le_val_bytes_small by done. cbn [app].
  erewrite bind_step by (apply get_u8_byte, type_byte_range).
  erewrite bind_step by (unfold column_type_from; by rewrite type_of_type_byte).
  erewrite bind_step by (apply get_uint_le_app; by rewrite le_bytes_length). rewrite le_val_bytes_small by done. cbn [app].
  erewrite bind_step by (by apply get_u8_byte).
  erewrite bind_step by (apply (get_uint_le_app 2 (le_bytes 2 0)); done). by destruct c.
Qed.

(** A column definition whose names are texts and not empty is read back, and
    exactly its bytes are taken. *)
Theorem column_roundtrip c r : sendable_column c → decode_column (encode_column c ++ r) = Ret (c, r).
Proof.
  intros Hc. exact (server_column_read [] [] 0 c r Hc eq_refl eq_refl (conj (Z.le_refl 0) eq_refl)).
Qed.

(** ** Packets *)

Definition header (n seq : Z) : str := le_bytes 3 n ++ [byte seq].

(** The packets of a payload: full ones, then one that is not full, numbered. *)
Fixpoint wire_full (num : nat) (seq : Z) (p : str) : str :=
  match num with
  | O => header (len p) seq ++ p
  | S num =>
      header MAX_PAYLOAD_LEN seq ++ take (Z.to_nat MAX_PAYLOAD_LEN) p
      ++ wire_full num ((seq + 1) mod 256) (drop (Z.to_nat MAX_PAYLOAD_LEN) p)
  end.
Definition full_packets (p : str) : nat := Z.to_nat (len p / MAX_PAYLOAD_LEN).
Definition wire (seq : Z) (p : str) : str := wire_full (full_packets p) seq p.

Lemma header_length n seq : length (header n seq) = 4%nat.
Proof. done. Qed.

Lemma put_header dst n c x :
  make_packet_header n (dst ++ replicate 4 nul ++ x) (length dst) c = (dst ++ header n (pc_seq c) ++ x, next_seq c).
Proof.
  unfold make_packet_header. f_equal. rewrite <-(Nat.add_0_r (length dst)), list_inserts_app_r. done.
Qed.

Lemma encode_full_spec num : ∀ item dst c, MAX_PAYLOAD_LEN * Z.of_nat num ≤ len item →
  let '(dst', offset, rest, c') := encode_full num item dst (length dst) c in
  offset = length dst' ∧ pc_buf c' = pc_buf c ∧ pc_is_max c' = pc_is_max c ∧
  dst' ++ wire_full 0 (pc_seq c') rest = dst ++ wire_full num (pc_seq c) item ∧
  len rest = len item - MAX_PAYLOAD_LEN * Z.of_nat num.
Proof.
  induction num as [|num IH]; intros item dst c Hl; [cbn; split_and!; [done..|lia]|]. cbn [encode_full]. rewrite put_header.
  set (m := Z.to_nat MAX_PAYLOAD_LEN) in *.
  assert (length (take m item) = m) as Hm by (rewrite length_take; unfold m, MAX_PAYLOAD_LEN in *; lia).
  assert (length dst + (m + 4) = length (dst ++ header MAX_PAYLOAD_LEN (pc_seq c) ++ take m item))%nat as ->
    by (rewrite !length_app, header_length, Hm; lia).
  specialize (IH (drop m item) (dst ++ header MAX_PAYLOAD_LEN (pc_seq c) ++ take m item) (next_seq c)).
  destruct (encode_full num _ _ _ _) as [[[dst' offset] rest] c'].
  destruct IH as (Ho & Hb & Hx & Hw & Hr); [rewrite length_drop; unfold m, MAX_PAYLOAD_LEN in *; lia|].
  split_and!; [done..| |rewrite Hr, length_drop; unfold m, MAX_PAYLOAD_LEN in *; lia].
  rewrite Hw. cbn [wire_full pc_seq next_seq]. by rewrite <-!app_assoc.
Qed.

(** Encoding at the end of the buffer appends the packets of the payload. *)
Theorem encode_packet_wire item dst c :
  ∃ c', encode_packet_offset item dst (length dst) c = (dst ++ wire (pc_seq c) item, c') ∧ pc_buf c' = pc_buf c ∧ pc_is_max c' = pc_is_max c.
Proof.
  unfold encode_packet_offset. cbv zeta. pose proof (encode_full_spec (full_packets item) item dst c) as He.
  unfold full_packets in He. destruct (encode_full _ _ _ _ _) as [[[dst' offset] rest] c1].
  assert (0 ≤ len item / MAX_PAYLOAD_LEN) by (apply Z.div_pos; [lia|done]).
  pose proof (Z.mul_div_le (len item) MAX_PAYLOAD_LEN ltac:(done)) as Hle.
  destruct He as (-> & Hb & Hx & Hw & Hr); [rewrite Z2Nat.id; [lia|done]|]. rewrite put_header. exists (next_seq c1). split; [|done].
  f_equal. unfold wire, full_packets. rewrite <-Hw. cbn [wire_full].
  by rewrite Hr, Z2Nat.id, <-Z.mod_eq by done.
Qed.

(** The fuel of the decoder does not matter. *)
Lemma decode_fuel f1 : ∀ f2 c src, (length src < f1)%nat → (length src < f2)%nat → decode_packet f1 c src = decode_packet f2 c src.
Proof.
  induction f1 as [|f1 IH]; intros [|f2] c src H1 H2; try lia. cbn [decode_packet].
  destruct (Nat.ltb_spec (length src) 3); [done|]. destruct (Z.ltb_spec (len src) (4 + get_length src)); [done|].
  destruct (Z.ltb_spec (get_length src) MAX_PAYLOAD_LEN); [done|]. apply IH; rewrite !length_drop; lia.
Qed.

(** A decoder that has seen less goes on as if it had seen all. *)
Lemma decode_more f : ∀ c src t, (length src < f)%nat →
  codec_decode c (src ++ t) =
  match decode_packet f c src with
  | (Some p, c, src) => (Some p, c, src ++ t)
  | (None, c, src) => codec_decode c (src ++ t)
  end.
Proof.
  induction f as [|f IH]; intros c src t Hf; [lia|]. cbn [decode_packet].
  destruct (Nat.ltb_spec (length src) 3); [done|].
  destruct (Z.ltb_spec (len src) (4 + get_length src)) as [|Hlen]; [done|].
  assert (0 ≤ get_length src) as Hpos by apply le_val_range.
  assert (get_length (src ++ t) = get_length src) as Eg by (unfold get_length; by rewrite take_app_le by lia).
  unfold codec_decode at 1. cbn [decode_packet]. rewrite length_app, (proj2 (Nat.ltb_ge _ 3)), Eg, (proj2 (Z.ltb_ge _ _)) by lia.
  cbv zeta. rewrite !drop_app_le by (rewrite ?length_drop; lia). rewrite !take_app_le by (rewrite ?length_drop; lia).
  destruct (Z.ltb_spec (get_length src) MAX_PAYLOAD_LEN); [done|].
  rewrite <-IH by (rewrite !length_drop; lia). unfold codec_decode. apply decode_fuel; rewrite !length_app, !length_drop; lia.
Qed.

(** However the stream is cut into reads, the frames are those of the whole. *)
Theorem framed_next_whole chunks : ∀ c src,
  match codec_decode c (src ++ concat chunks) with
  | (Some p, c', rest) => ∃ src' chunks', framed_next chunks c src = Some (p, c', src', chunks') ∧ src' ++ concat chunks' = rest
  | (None, _, _) => framed_next chunks c src = None
  end.
Proof.
  induction chunks as [|x chunks IH]; intros c src; cbn [framed_next concat].
  - rewrite app_nil_r. destruct (codec_decode c src) as [[[p|] c'] rest]; [|done]. exists rest, []. by rewrite app_nil_r.
  - rewrite (decode_more (S (length src))) by lia. fold (codec_decode c src).
    destruct (codec_decode c src) as [[[p|] c'] rest]; [by eauto|]. specialize (IH c' (rest ++ x)). by rewrite <-app_assoc in IH.
Qed.

Lemma get_length_header n seq r : 0 ≤ n < 2 ^ 24 → get_length (header n seq ++ r) = n.
Proof. intros Hn. unfold get_length, header. rewrite <-app_assoc, take_app_le by done. by rewrite take_ge, le_val_bytes_small by done. Qed.

Lemma decode_wire num : ∀ f c seq p rest, len p = MAX_PAYLOAD_LEN * Z.of_nat num + len p mod MAX_PAYLOAD_LEN →
  (length (wire_full num seq p ++ rest) < f)%nat →
  ∃ c', decode_packet f c (wire_full num seq p ++ rest) = (Some (pc_buf c ++ p), c', rest) ∧ pc_buf c' = [] ∧
    pc_seq c' = (pc_seq c + Z.of_nat num + 1) mod 256.
Proof.
  pose proof (Z.mod_pos_bound) as Hmod.
  induction num as [|num IH]; intros [|f] c seq p rest Hp Hf; [lia| |lia|]; cbn [wire_full decode_packet] in *;
    rewrite <-!app_assoc in *; pose proof (Hmod (len p) MAX_PAYLOAD_LEN ltac:(done)).
  - rewrite !length_app, header_length, get_length_header by (unfold MAX_PAYLOAD_LEN in *; lia).
    rewrite (proj2 (Nat.ltb_ge _ 3)), (proj2 (Z.ltb_ge _ _)) by lia. rewrite (proj2 (Z.ltb_lt _ MAX_PAYLOAD_LEN)) by lia. cbv zeta.
    rewrite drop_app_length' by done. rewrite Nat2Z.id, take_app_length, drop_app_length. eexists. split; [done|]. split; [done|]. cbn. f_equal. lia.
  - set (m := Z.to_nat MAX_PAYLOAD_LEN) in *.
    assert (length (take m p) = m) as Hm by (rewrite length_take; unfold m, MAX_PAYLOAD_LEN in *; lia).
    rewrite !length_app, header_length, get_length_header by done.
    rewrite (proj2 (Nat.ltb_ge _ 3)), (proj2 (Z.ltb_ge _ _)) by (unfold m in *; lia). rewrite Z.ltb_irrefl. cbv zeta.
    rewrite drop_app_length' by done. fold m. rewrite (take_app_length' (take m p)), (drop_app_length' (take m p)) by (by rewrite Hm).
    edestruct (IH f) as (c' & Hd & Hb & Hs); [| |erewrite Hd; exists c'; split; [|split; [done|]]].
    + rewrite length_drop. replace (Z.of_nat (length p - m)) with (len p + (-1) * MAX_PAYLOAD_LEN) by (unfold m, MAX_PAYLOAD_LEN in *; lia).
      rewrite Z.mod_add by done. lia.
    + rewrite !length_app, header_length in Hf. rewrite length_app. lia.
    + cbn [pc_buf]. by rewrite <-app_assoc, take_drop.
    + rewrite Hs. cbn [pc_seq]. rewrite <-(Z.add_assoc (_ mod _)), Z.add_mod_idemp_l by done. f_equal. lia.
Qed.

(** The payload of the packets that come first, whatever follows them. *)
Theorem decode_first_payload c seq p rest : pc_buf c = [] →
  ∃ c', codec_decode c (wire seq p ++ rest) = (Some p, c', rest) ∧ pc_buf c' = [] ∧ pc_seq c' = (pc_seq c + Z.of_nat (full_packets p) + 1) mod 256.
Proof.
  intros Hb. unfold codec_decode, wire. destruct (decode_wire (full_packets p) (S (length (wire_full (full_packets p) seq p ++ rest))) c seq p rest)
    as (c' & -> & Hc & Hs); [|lia|rewrite Hb; eauto]. unfold full_packets. rewrite Z2Nat.id by (apply Z.div_pos; [lia|done]).
  by apply Z.div_mod.
Qed.
End MyProtocolTheorems.
