(* ===== verification/MyHandshake.v ===== *)
(** * The handshake with a MySQL client

    [protocol/mysql/src/server/auth.rs]: the codec that greets a client, reads its
    response (over TLS if the client asks for it), asks for the native password
    plugin if the client names another one, and compares the hash of the password;
    and the loop that drives it.

    The bytes of the client come in reads ([chunks]); those after the switch to TLS
    are the decrypted ones.  A [send] may fail.  The text [{:?}] of a string is a
    parameter ([str_debug]).  The [u8] packet number wraps, as in a release build. *)

From S2P Require Import Prelude RustStr PgProtocol MyCharset MyProtocol.
Import MyCharset MyProtocol.

Module MyHandshake.

Inductive ServerHandshakeStatus :=
| WriteInitial | ReadResponseFirst | ReadResponse | SwitchToTLS | WriteAutoSwitch | ReadAutoSwitchResponse
| CompareAuthData | Complete.

#[export] Instance ServerHandshakeStatus_eq_dec : EqDecision ServerHandshakeStatus.
Proof. solve_decision. Defined.

(** Capability flags ([mysql_const.rs]). *)
Definition CLIENT_LONG_PASSWORD : Z := 1.
Definition CLIENT_FOUND_ROWS : Z := 2.
Definition CLIENT_LONG_FLAG : Z := 4.
Definition CLIENT_CONNECT_WITH_DB : Z := 8.
Definition CLIENT_LOCAL_FILES : Z := 128.
Definition CLIENT_PROTOCOL_41 : Z := 512.
Definition CLIENT_INTERACTIVE : Z := 1024.
Definition CLIENT_SSL : Z := 2048.
Definition CLIENT_TRANSACTIONS : Z := 8192.
Definition CLIENT_SECURE_CONNECTION : Z := 32768.
Definition CLIENT_MULTI_STATEMENTS : Z := 65536.
Definition CLIENT_PS_MULTI_RESULTS : Z := 262144.
Definition CLIENT_PLUGIN_AUTH : Z := 524288.
Definition CLIENT_CONNECT_ATTRS : Z := 1048576.
Definition CLIENT_PLUGIN_AUTH_LENENC_CLIENT_DATA : Z := 2097152.

Definition DEFAULT_CAPABILITY : Z :=
  foldr Z.lor 0
    [CLIENT_LONG_PASSWORD; CLIENT_LONG_FLAG; CLIENT_CONNECT_WITH_DB; CLIENT_PROTOCOL_41; CLIENT_TRANSACTIONS;
     CLIENT_SECURE_CONNECTION; CLIENT_SSL; CLIENT_FOUND_ROWS; CLIENT_MULTI_STATEMENTS; CLIENT_PS_MULTI_RESULTS;
     CLIENT_LOCAL_FILES; CLIENT_CONNECT_ATTRS; CLIENT_PLUGIN_AUTH; CLIENT_INTERACTIVE;
     CLIENT_PLUGIN_AUTH_LENENC_CLIENT_DATA].

Definition AUTH_NATIVE_PASSWORD : str := $"mysql_native_password".
Definition SERVER_STATUS_AUTOCOMMIT : Z := 2.

Record ServerHandshakeCodec := mkHandshake {
  hs_seq : Z;
  hs_server_version : str;
  hs_connection_id : Z;
  hs_capability : Z;
  hs_charset : str;
  hs_salt : str;
  hs_status : Z;
  hs_user : str;
  hs_db : str;
  hs_password : str;
  hs_auth_data : str;
  hs_plugin : str;
  hs_autocommit : option str;
  hs_next : ServerHandshakeStatus
}.

(** The number of the connection and the random salt are given. *)
Definition new_handshake (connection_id : Z) (salt user password db server_version : str) : ServerHandshakeCodec :=
  mkHandshake 0 server_version connection_id 0 DEFAULT_CHARSET_NAME salt SERVER_STATUS_AUTOCOMMIT user db password [] []
    None ReadResponseFirst.

Definition set_seq (v : Z) (c : ServerHandshakeCodec) : ServerHandshakeCodec :=
  mkHandshake v (hs_server_version c) (hs_connection_id c) (hs_capability c) (hs_charset c) (hs_salt c) (hs_status c)
    (hs_user c) (hs_db c) (hs_password c) (hs_auth_data c) (hs_plugin c) (hs_autocommit c) (hs_next c).
Definition set_capability (v : Z) (c : ServerHandshakeCodec) : ServerHandshakeCodec :=
  mkHandshake (hs_seq c) (hs_server_version c) (hs_connection_id c) v (hs_charset c) (hs_salt c) (hs_status c)
    (hs_user c) (hs_db c) (hs_password c) (hs_auth_data c) (hs_plugin c) (hs_autocommit c) (hs_next c).
Definition set_user (v : str) (c : ServerHandshakeCodec) : ServerHandshakeCodec :=
  mkHandshake (hs_seq c) (hs_server_version c) (hs_connection_id c) (hs_capability c) (hs_charset c) (hs_salt c) (hs_status c)
    v (hs_db c) (hs_password c) (hs_auth_data c) (hs_plugin c) (hs_autocommit c) (hs_next c).
Definition set_hs_db (v : str) (c : ServerHandshakeCodec) : ServerHandshakeCodec :=
  mkHandshake (hs_seq c) (hs_server_version c) (hs_connection_id c) (hs_capability c) (hs_charset c) (hs_salt c) (hs_status c)
    (hs_user c) v (hs_password c) (hs_auth_data c) (hs_plugin c) (hs_autocommit c) (hs_next c).
Definition set_auth_data (v : str) (c : ServerHandshakeCodec) : ServerHandshakeCodec :=
  mkHandshake (hs_seq c) (hs_server_version c) (hs_connection_id c) (hs_capability c) (hs_charset c) (hs_salt c) (hs_status c)
    (hs_user c) (hs_db c) (hs_password c) v (hs_plugin c) (hs_autocommit c) (hs_next c).
Definition set_plugin (v : str) (c : ServerHandshakeCodec) : ServerHandshakeCodec :=
  mkHandshake (hs_seq c) (hs_server_version c) (hs_connection_id c) (hs_capability c) (hs_charset c) (hs_salt c) (hs_status c)
    (hs_user c) (hs_db c) (hs_password c) (hs_auth_data c) v (hs_autocommit c) (hs_next c).
Definition set_next (v : ServerHandshakeStatus) (c : ServerHandshakeCodec) : ServerHandshakeCodec :=
  mkHandshake (hs_seq c) (hs_server_version c) (hs_connection_id c) (hs_capability c) (hs_charset c) (hs_salt c) (hs_status c)
    (hs_user c) (hs_db c) (hs_password c) (hs_auth_data c) (hs_plugin c) (hs_autocommit c) v.

(** [self.capability & flag > 0]. *)
Definition has_cap (c : ServerHandshakeCodec) (flag : Z) : bool := 0 <? Z.land (hs_capability c) flag.

Definition encode_initial_handshake (c : ServerHandshakeCodec) : exec str :=
  match COLLATION_NAME_ID_MYSQL5 (hs_charset c) with
  | Panic => Panic
  | Ret collation =>
      if (length (hs_salt c) <? 8)%nat then Panic
      else Ret
        (replicate 4 nul ++ [byte 10] ++ hs_server_version c ++ [nul] ++ le_bytes 4 (hs_connection_id c)
         ++ take 8 (hs_salt c) ++ [nul] ++ [byte DEFAULT_CAPABILITY; byte (DEFAULT_CAPABILITY / 256)] ++ [byte collation]
         ++ [byte (hs_status c); byte (hs_status c / 256)]
         ++ [byte (DEFAULT_CAPABILITY / 65536); byte (DEFAULT_CAPABILITY / 16777216)] ++ [byte 21] ++ replicate 10 nul
         ++ drop 8 (hs_salt c) ++ [nul] ++ AUTH_NATIVE_PASSWORD ++ [nul])
  end.

Definition generate_auth_switch_request (c : ServerHandshakeCodec) : str :=
  replicate 4 nul ++ [byte 254] ++ hs_plugin c ++ [nul] ++ hs_salt c ++ [nul].

(** ** Reading *)

(** [data.split_to(data.iter().position(|&x| x == 0).unwrap())]: the zero stays. *)
Definition split_nul : buf str := λ b,
  match find_null b with Some i => Ret (take i b, drop i b) | None => Panic end.
(** Up to a zero, as text, and over the zero. *)
Definition take_text : buf str := s ← split_nul; utf8_or_panic s.

(** A step of the codec on its buffer: a panic, a refusal (the error packet), or a
    value. *)
Definition hs (A : Type) : Type := ServerHandshakeCodec → str → exec (result str A * ServerHandshakeCodec * str).
#[export] Instance hs_ret : MRet hs := λ A a c b, Ret (Ok a, c, b).
#[export] Instance hs_bind : MBind hs := λ A B k m c b,
  match m c b with
  | Ret (Ok a, c, b) => k a c b
  | Ret (Err e, c, b) => Ret (Err e, c, b)
  | Panic => Panic
  end.
Definition read {A} (m : buf A) : hs A := λ c b, match m b with Ret (a, b) => Ret (Ok a, c, b) | Panic => Panic end.
Definition update (f : ServerHandshakeCodec → ServerHandshakeCodec) : hs unit := λ c b, Ret (Ok tt, f c, b).
Definition refuse_with (f : ServerHandshakeCodec → str) : hs unit := λ c b, Ret (Err (f c), c, b).
Definition self : hs ServerHandshakeCodec := λ c b, Ret (Ok c, c, b).
Definition clear : hs unit := λ c b, Ret (Ok tt, c, []).

Section Handshake.
Context `{Sha1} (str_debug : str → str).

Definition make_auth_err_info (c : ServerHandshakeCodec) : str :=
  make_err_packet (mkMySQLError 1045 ($"28000") ($"Access denied for user " ++ str_debug (hs_user c) ++ $", (using password: Yes)")).
Definition make_schema_err_info (c : ServerHandshakeCodec) : str :=
  make_err_packet (mkMySQLError 1049 ($"42000") ($"Unknown database " ++ str_debug (hs_db c))).
Definition make_auth_plugin_err_info (c : ServerHandshakeCodec) : str :=
  make_err_packet (mkMySQLError 1045 ($"28000") ($"unsupport authentication plugin name " ++ str_debug (hs_plugin c))).
Definition make_auth_lenc_err_info (c : ServerHandshakeCodec) : str :=
  make_err_packet (mkMySQLError 1045 ($"28000") ($"auth data is null")).

(** The hash the client sends, in the form its capabilities say. *)
Definition read_auth_data : hs unit :=
  c ← self;
  if has_cap c CLIENT_PLUGIN_AUTH_LENENC_CLIENT_DATA then
    x ← read length_encoded_string;
    if x.2 : bool then refuse_with make_auth_lenc_err_info else update (set_auth_data x.1)
  else if has_cap c CLIENT_SECURE_CONNECTION then
    n ← read get_u8; d ← read (split_to n); update (set_auth_data d)
  else d ← read split_nul; _ ← update (set_auth_data d); _ ← read get_u8; mret tt.

Definition read_database : hs unit :=
  c ← self;
  more ← read has_remaining;
  if has_cap c CLIENT_CONNECT_WITH_DB && more then
    db ← read take_text;
    if str_eqb (hs_db c) db then _ ← read get_u8; mret tt
    else _ ← update (set_hs_db db); refuse_with make_schema_err_info
  else mret tt.

Definition read_plugin : hs unit :=
  c ← self;
  if has_cap c CLIENT_PLUGIN_AUTH then
    p ← read take_text; _ ← update (set_plugin p); _ ← read get_u8; mret tt
  else update (set_plugin AUTH_NATIVE_PASSWORD).

Definition decode_handshake_response : hs unit :=
  user ← read take_text;
  c ← self;
  if negb (str_eqb user (hs_user c)) then _ ← update (set_user user); refuse_with make_auth_err_info
  else
    _ ← read get_u8;
    _ ← read_auth_data;
    _ ← read_database;
    _ ← read_plugin;
    _ ← clear;
    c ← self;
    if negb (str_eqb (hs_plugin c) AUTH_NATIVE_PASSWORD)
    then update (λ c, set_next WriteAutoSwitch (set_plugin AUTH_NATIVE_PASSWORD c))
    else update (set_next CompareAuthData).

Definition decode_first : hs bool :=
  cap ← read (get_uint_le 4);
  _ ← update (set_capability cap);
  _ ← read (get_uint_le 4);
  _ ← read get_u8;
  _ ← read (split_to 23);
  more ← read has_remaining;
  mret (negb more).

Definition expected_hash (c : ServerHandshakeCodec) : str := calc_password (hs_salt c) (hs_password c).

Definition compare_auth_data : hs unit :=
  _ ← update (set_next Complete);
  c ← self;
  if str_eqb (hs_plugin c) AUTH_NATIVE_PASSWORD then
    if negb (compare (hs_auth_data c) (expected_hash c)) then refuse_with make_auth_err_info else mret tt
  else refuse_with make_auth_plugin_err_info.

(** The whole of the buffer is compared, and stays there. *)
Definition compare_buffer : hs unit := λ c data,
  if negb (compare (expected_hash c) data) then Ret (Err (make_auth_err_info c), c, data) else Ret (Ok tt, c, data).
Definition handle_auth_switch_response : hs unit :=
  _ ← update (set_next Complete);
  c ← self;
  if str_eqb (hs_plugin c) AUTH_NATIVE_PASSWORD then compare_buffer
  else refuse_with make_auth_plugin_err_info.

Definition respond : hs unit :=
  _ ← decode_handshake_response;
  c ← self;
  if decide (hs_next c = CompareAuthData) then compare_auth_data else mret tt.

(** [Decoder::decode]: [None] asks for more bytes. *)
Definition hs_decode (c : ServerHandshakeCodec) (src : str) : exec (result str (option unit) * ServerHandshakeCodec * str) :=
  if (length src <? 3)%nat then Ret (Ok None, c, src)
  else if len src <? 4 + get_length src then Ret (Ok None, c, src)
  else
    (match hs_next c with
     | ReadResponseFirst =>
         empty ← decode_first;
         if empty : bool then _ ← update (set_next SwitchToTLS); mret (Some tt) else _ ← respond; mret (Some tt)
     | ReadResponse => _ ← decode_first; _ ← respond; mret (Some tt)
     | ReadAutoSwitchResponse => _ ← handle_auth_switch_response; mret (Some tt)
     | _ => mret (Some tt)
     end : hs (option unit)) (set_seq ((hs_seq c + 1) mod 256) c) (drop 4 src).

(** [Encoder::encode] into an empty buffer: the header is written over the first
    four bytes. *)
Definition hs_encode (item : str) (c : ServerHandshakeCodec) : str * ServerHandshakeCodec :=
  let c := if decide (hs_next c = WriteAutoSwitch) then set_next ReadAutoSwitchResponse c else c in
  (list_inserts 0 (le_bytes 3 (len item - 4) ++ [byte (hs_seq c)]) item, set_seq ((hs_seq c + 1) mod 256) c).

(** ** The loop *)

Context {Wr : Type} (send : str → Wr → bool * Wr).

Definition hs_send (item : str) (c : ServerHandshakeCodec) (w : Wr) : bool * ServerHandshakeCodec * Wr :=
  let '(bytes, c) := hs_encode item c in
  let '(ok, w) := send bytes w in (ok, c, w).

(** [framed.next().await.unwrap()]: the end of the stream panics (bytes that are left
    give an error, which the loop passes over, and then the end). *)
Fixpoint hs_read (chunks : list str) (c : ServerHandshakeCodec) (src : str)
    : exec (option str * ServerHandshakeCodec * str * list str) :=
  match hs_decode c src with
  | Panic => Panic
  | Ret (Err e, c, src) => Ret (Some e, c, src, chunks)
  | Ret (Ok (Some _), c, src) => Ret (None, c, src, chunks)
  | Ret (Ok None, c, src) =>
      match chunks with
      | [] => Panic
      | chunk :: chunks => hs_read chunks c (src ++ chunk)
      end
  end.

Inductive handshake_end := Authenticated | Refused | Failed | OutOfFuel.

Fixpoint handshake_loop (fuel : nat) (tls : option (list str)) (chunks : list str) (c : ServerHandshakeCodec) (src : str) (w : Wr)
    : exec (handshake_end * ServerHandshakeCodec * Wr) :=
  match fuel with
  | O => Ret (OutOfFuel, c, w)
  | S fuel =>
      match hs_read chunks c src with
      | Panic => Panic
      | Ret (Some e, c, src, chunks) =>
          let '(ok, c, w) := hs_send e c w in Ret (if ok then Refused else Failed, c, w)
      | Ret (None, c, src, chunks) =>
          match hs_next c with
          | SwitchToTLS =>
              match tls with
              | None => Ret (Failed, c, w)
              | Some secured => handshake_loop fuel None secured (set_next ReadResponse c) src w
              end
          | WriteAutoSwitch =>
              let '(ok, c, w) := hs_send (generate_auth_switch_request c) c w in
              if ok then handshake_loop fuel tls chunks c src w else Ret (Failed, c, w)
          | Complete =>
              let '(ok, c, w) := hs_send (replicate 4 nul ++ ok_payload) c w in
              Ret (if ok then Authenticated else Failed, c, w)
          | _ => handshake_loop fuel tls chunks c src w
          end
      end
  end.

(** [handshake]; [tls] is what comes over TLS, if accepting it works.  Three turns are
    enough: the response, the response over TLS, the answer to the switch. *)
Definition handshake (tls : option (list str)) (chunks : list str) (c : ServerHandshakeCodec) (w : Wr)
    : exec (handshake_end * ServerHandshakeCodec * Wr) :=
  match encode_initial_handshake c with
  | Panic => Panic
  | Ret greeting =>
      let '(ok, c, w) := hs_send greeting c w in
      if ok then handshake_loop 4 tls chunks c [] w else Ret (Failed, c, w)
  end.
End Handshake.
End MyHandshake.
