(* ===== verification/MyHandshakeTheorems.v ===== *)
(** * Properties of the MySQL handshake

    Nobody is let in without the hash of the password; who sends it is let in,
    however the bytes are cut into reads; and the loop ends. *)

From S2P Require Import Prelude RustStr PgProtocol MyCharset MyProtocol MyProtocolTheorems MyHandshake.
Import MyCharset MyProtocol MyProtocolTheorems MyHandshake.

Module MyHandshakeTheorems.

Lemma hs_bind_ok {A B} (m : hs A) (k : A → hs B) c b a c' b' :
  (m ≫= k) c b = Ret (Ok a, c', b') → ∃ x c1 b1, m c b = Ret (Ok x, c1, b1) ∧ k x c1 b1 = Ret (Ok a, c', b').
Proof. unfold mbind, hs_bind. destruct (m c b) as [[[[x|e] c1] b1]|]; [|done..]. eauto. Qed.

Lemma buf_bind_ok {A B} (m : buf A) (k : A → buf B) b a b' :
  (m ≫= k) b = Ret (a, b') → ∃ x b1, m b = Ret (x, b1) ∧ k x b1 = Ret (a, b').
Proof. unfold mbind, buf_bind. destruct (m b) as [[x b1]|]; [|done]. eauto. Qed.

Lemma read_ok {A} (m : buf A) c b x c' b' : read m c b = Ret (Ok x, c', b') → m b = Ret (x, b') ∧ c' = c.
Proof. unfold read. destruct (m b) as [[y b1]|]; [|done]. by intros [= -> <- <-]. Qed.

(** Take the first step of a run that went well. *)
Ltac step_ok H :=
  let x := fresh "x" in let c1 := fresh "c" in let b1 := fresh "b" in let H1 := fresh "Hs" in
  apply hs_bind_ok in H as (x & c1 & b1 & H1 & H);
  first [ apply read_ok in H1 as [H1 ->]
        | match type of H1 with self _ _ = _ => injection H1 as <- <- <- end
        | match type of H1 with update _ _ _ = _ => injection H1 as <- <- <- end
        | match type of H1 with clear _ _ = _ => injection H1 as <- <- <- end
        | idtac ].

(** [x] occurs in [s]. *)
Definition infix (x s : str) : Prop := ∃ a b, s = a ++ x ++ b.

Lemma infix_app_l x s t : infix x t → infix x (s ++ t).
Proof. intros (a & b & ->). exists (s ++ a), b. by rewrite <-app_assoc. Qed.
Lemma infix_app_r x s t : infix x s → infix x (s ++ t).
Proof. intros (a & b & ->). exists a, (b ++ t). by rewrite <-!app_assoc. Qed.
Lemma infix_mid x a b : infix x (a ++ x ++ b).
Proof. by exists a, b. Qed.

Lemma split_nul_ok b s b' : split_nul b = Ret (s, b') → b = s ++ b' ∧ ∃ r, b' = nul :: r.
Proof.
  unfold split_nul, find_null. destruct (position is_nul b) as [i|] eqn:E; [|done]. intros [= <- <-].
  split; [by rewrite take_drop|]. apply position_spec in E as [(x & Hx & Hn) _]. exists (drop (S i) b).
  rewrite (drop_S _ _ _ Hx). apply Ascii.eqb_eq in Hn as ->. done.
Qed.

Lemma split_to_ok n b s b' : split_to n b = Ret (s, b') → b = s ++ b'.
Proof. unfold split_to. case_match; [done|]. intros [= <- <-]. by rewrite take_drop. Qed.

Lemma get_u8_ok b v b' : get_u8 b = Ret (v, b') → ∃ x, b = x :: b'.
Proof. destruct b as [|x b]; [done|]. intros [= <- <-]. eauto. Qed.

Lemma take_text_ok b s b' : take_text b = Ret (s, b') → b = s ++ b' ∧ (∃ r, b' = nul :: r) ∧ is_utf8 s = true.
Proof.
  intros (x & b1 & Hs & Hu)%buf_bind_ok. unfold utf8_or_panic in Hu. destruct (is_utf8 x) eqn:E; [|done]. injection Hu as <- <-.
  apply split_nul_ok in Hs as [-> Hr]. done.
Qed.

(** A suffix of the buffer is left. *)
Lemma get_lenc_int_ok b x b' : get_lenc_int b = Ret (x, b') → ∃ p, b = p ++ b'.
Proof.
  intros (v & b1 & Hv & H)%buf_bind_ok. apply get_u8_ok in Hv as [y ->].
  repeat case_match; try (apply buf_bind_ok in H as (z & b2 & Hz & H); apply buf_bind_ok in Hz as (q & b3 & Hq & Hz);
    apply split_to_ok in Hq as ->; injection Hz as _ ->; injection H as _ ->; by exists (y :: q)).
  all: injection H as _ ->; by exists [y].
Qed.

(** What comes as a length-encoded string is in the buffer, or stands for an empty
    one. *)
Lemma lenc_string_ok b s z b' : length_encoded_string b = Ret (s, z, b') → s = [byte 251] ∨ infix s b.
Proof.
  intros ([[num isnull] k] & b1 & Hi & H)%buf_bind_ok. apply get_lenc_int_ok in Hi as [p ->].
  destruct (num <? 1); [injection H as <- _ _; by left|]. right. apply infix_app_l.
  apply buf_bind_ok in H as (more & b2 & Hm & H). unfold has_remaining in Hm. injection Hm as <- <-.
  destruct (is_empty b1); cbn [negb] in H; [injection H as <- _ _; by exists [], b1|].
  apply buf_bind_ok in H as (q & b3 & Hq & H). injection H as <- _ _. apply split_to_ok in Hq as ->. by exists [], b3.
Qed.

(** The parts of the codec that a response does not change. *)
Record kept (c c' : ServerHandshakeCodec) : Prop := {
  k_salt : hs_salt c' = hs_salt c;
  k_password : hs_password c' = hs_password c;
  k_user : hs_user c' = hs_user c;
  k_db : hs_db c' = hs_db c
}.
Lemma kept_refl c : kept c c.
Proof. done. Qed.
Lemma kept_trans a b c : kept a b → kept b c → kept a c.
Proof. intros [] []. split; congruence. Qed.
#[local] Hint Resolve kept_refl : core.

Section Handshake.
Context `{Sha1} (str_debug : str → str) {Wr : Type} (send : str → Wr → bool * Wr).

Lemma read_auth_ok c b u c' b' : read_auth_data c b = Ret (Ok u, c', b') →
  kept c c' ∧ (hs_auth_data c' = [byte 251] ∨ infix (hs_auth_data c') b).
Proof.
  unfold read_auth_data. intros Hr. step_ok Hr. destruct (has_cap c _).
  { step_ok Hr. destruct x as [s z]. cbn [fst snd] in Hr. destruct z; [done|]. injection Hr as _ <- <-. split; [done|]. by eapply lenc_string_ok. }
  destruct (has_cap c _).
  - step_ok Hr. step_ok Hr. injection Hr as _ <- <-. split; [done|]. right. cbn. apply get_u8_ok in Hs as [y ->]. apply split_to_ok in Hs0 as ->.
    by apply (infix_mid _ [y]).
  - step_ok Hr. step_ok Hr. step_ok Hr. injection Hr as _ <- <-. split; [done|]. right. apply split_nul_ok in Hs as [-> _]. by eexists [], _.
Qed.

Lemma read_database_ok c b u c' b' : read_database str_debug c b = Ret (Ok u, c', b') → c' = c.
Proof.
  unfold read_database. intros Hr. step_ok Hr. step_ok Hr. destruct (has_cap c _ && x); [|by injection Hr as _ <- <-].
  step_ok Hr. destruct (str_eqb _ _); step_ok Hr; [by injection Hr as _ <- <-|done].
Qed.

Lemma read_plugin_ok c b u c' b' : read_plugin c b = Ret (Ok u, c', b') →
  kept c c' ∧ hs_auth_data c' = hs_auth_data c.
Proof.
  unfold read_plugin. intros Hr. step_ok Hr. destruct (has_cap c _); [|by injection Hr as _ <- <-].
  step_ok Hr. step_ok Hr. step_ok Hr. by injection Hr as _ <- <-.
Qed.

Lemma compare_eq a b : compare a b = true ↔ a = b.
Proof.
  unfold compare. split.
  - intros [Hf Hl%Nat.eqb_eq]%andb_true_iff. revert b Hf Hl. induction a as [|x a IH]; intros [|y b] Hf Hl; try done.
    cbn in Hf, Hl. apply andb_true_iff in Hf as [->%Ascii.eqb_eq Hf]. f_equal. apply IH; [done|lia].
  - intros <-. rewrite Nat.eqb_refl, andb_true_r. apply forallb_forall. intros [x y] Hxy.
    induction a as [|z a IH]; [done|]. destruct Hxy as [[= <- <-]|Hxy]; [by apply Ascii.eqb_refl|by apply IH].
Qed.

(** A response that is taken names the user; it ends the handshake only with the hash
    of the password. *)
Lemma respond_ok c b c' b' : respond str_debug c b = Ret (Ok tt, c', b') →
  kept c c' ∧ b' = [] ∧ infix (hs_user c ++ [nul]) b ∧
  (hs_next c' = WriteAutoSwitch ∨
   hs_next c' = Complete ∧ (expected_hash c = [byte 251] ∨ infix (expected_hash c) b)).
Proof.
  unfold respond. intros Hr. apply hs_bind_ok in Hr as (? & c1 & b1 & Hd & Hr). step_ok Hr.
  unfold decode_handshake_response in Hd. step_ok Hd. step_ok Hd. apply take_text_ok in Hs as (-> & [r ->] & _).
  destruct (str_eqb x0 (hs_user c)) eqn:Eu; cbn [negb] in Hd; [|by step_ok Hd]. apply str_eqb_eq in Eu as ->. step_ok Hd. injection Hs as _ <-.
  step_ok Hd. apply read_auth_ok in Hs as [Hk1 Ha]. step_ok Hd. apply read_database_ok in Hs as ->.
  step_ok Hd. apply read_plugin_ok in Hs as [Hk2 Ea]. step_ok Hd. step_ok Hd.
  assert (infix (hs_user c ++ [nul]) (hs_user c ++ nul :: r)) as Hi by (exists [], r; by rewrite <-app_assoc).
  pose proof (kept_trans _ _ _ Hk1 Hk2) as Hk.
  destruct (negb _) eqn:Ep in Hd; injection Hd as <- <-; cbn [hs_next set_next] in Hr.
  { rewrite decide_False in Hr by done. injection Hr as <- <-. split_and!; [by destruct Hk|done|done|by left]. }
  rewrite decide_True in Hr by done. unfold compare_auth_data in Hr. step_ok Hr. step_ok Hr. cbn [hs_plugin set_next] in Hr.
  apply negb_false_iff in Ep. rewrite Ep in Hr. destruct (compare _ _) eqn:Ec in Hr; [|done]. injection Hr as <- <-.
  apply compare_eq in Ec. cbn [hs_auth_data set_next] in Ec. unfold expected_hash in Ec. cbn [hs_salt hs_password set_next] in Ec.
  split_and!; [by destruct Hk|done|done|]. right. split; [done|]. unfold expected_hash.
  rewrite <-(k_salt _ _ Hk), <-(k_password _ _ Hk), <-Ec, Ea. destruct Ha as [Ha|Ha]; [by left|right].
  apply infix_app_l. by apply (infix_app_l _ [nul]).
Qed.

Lemma decode_first_ok c b x c' b' : decode_first c b = Ret (Ok x, c', b') →
  kept c c' ∧ hs_next c' = hs_next c ∧ (∃ p, b = p ++ b') ∧ (x = true → b' = []).
Proof.
  unfold decode_first. intros Hr. step_ok Hr. step_ok Hr. step_ok Hr. step_ok Hr. step_ok Hr. step_ok Hr. injection Hr as <- <- <-.
  apply buf_bind_ok in Hs as (p & d1 & Hp & Hs). injection Hs as _ <-. apply split_to_ok in Hp as ->.
  apply buf_bind_ok in Hs0 as (q & d2 & Hq & Hs). injection Hs as _ <-. apply split_to_ok in Hq as ->.
  apply get_u8_ok in Hs1 as [y ->]. apply split_to_ok in Hs2 as ->. injection Hs3 as <- <-.
  split_and!; [done|done| |].
  { match goal with |- ∃ p', ?p ++ ?q ++ ?y :: ?z ++ ?r = p' ++ ?r => exists (p ++ q ++ y :: z) end. by rewrite <-!app_assoc. }
  intros Hx. match goal with |- ?l = [] => by destruct l end.
Qed.

(** What a response that was taken says. *)
Definition responded (c c' : ServerHandshakeCodec) (src src' : str) : Prop :=
  infix (hs_user c ++ [nul]) src ∧ src' = [] ∧
  (hs_next c' = WriteAutoSwitch ∨ hs_next c' = Complete ∧ (expected_hash c = [byte 251] ∨ infix (expected_hash c) src)).

Lemma respond_after c c1 c' b p src src' : kept c c1 → src = p ++ b → respond str_debug c1 b = Ret (Ok tt, c', src') →
  kept c c' ∧ responded c c' src src'.
Proof.
  intros Hk -> (Hk' & -> & Hu & Hn)%respond_ok. pose proof (kept_trans _ _ _ Hk Hk') as Hkk. destruct Hk as [Es Ep Eu Ed].
  unfold responded, expected_hash in *. rewrite Es, Ep, Eu in *. split_and!; [done|by apply infix_app_l|done|].
  destruct Hn as [?|[? Hn]]; [by left|right]. split; [done|]. destruct Hn; [by left|right; by apply infix_app_l].
Qed.

Lemma hs_decode_ok c src r c' src' : hs_decode str_debug c src = Ret (Ok r, c', src') →
  match r with
  | None => c' = c ∧ src' = src
  | Some _ => kept c c' ∧
      match hs_next c with
      | ReadResponseFirst => hs_next c' = SwitchToTLS ∧ src' = [] ∨ responded c c' src src'
      | ReadResponse => responded c c' src src'
      | ReadAutoSwitchResponse => hs_next c' = Complete ∧ infix (expected_hash c) src
      | st => hs_next c' = st
      end
  end.
Proof.
  unfold hs_decode. destruct (length src <? 3)%nat; [by intros [= <- <- <-]|]. destruct (len src <? _); [by intros [= <- <- <-]|].
  set (c0 := set_seq _ c). assert (kept c c0) as Hk0 by done. assert (src = take 4 src ++ drop 4 src) as Hsrc by (by rewrite take_drop).
  assert (hs_next c0 = hs_next c) as Hn0 by done.
  destruct (hs_next c) eqn:En; intros Hr; try (by injection Hr as <- <- <-).
  - step_ok Hr. apply decode_first_ok in Hs as (Hk & Hn & [p Hp] & Hx). rewrite Hp, app_assoc in Hsrc. destruct x.
    + step_ok Hr. injection Hr as <- <- <-. split; [by destruct Hk|left]. by rewrite Hx.
    + apply hs_bind_ok in Hr as ([] & c2 & b2 & Hr & Hr2). injection Hr2 as <- <- <-.
      eapply (respond_after c) in Hr as [? ?]; [|by eapply kept_trans|exact Hsrc]. split; [done|by right].
  - step_ok Hr. apply decode_first_ok in Hs as (Hk & Hn & [p Hp] & Hx). rewrite Hp, app_assoc in Hsrc.
    apply hs_bind_ok in Hr as ([] & c2 & b2 & Hr & Hr2). injection Hr2 as <- <- <-.
    eapply (respond_after c) in Hr as [? ?]; [|by eapply kept_trans|exact Hsrc]. done.
  - apply hs_bind_ok in Hr as ([] & c2 & b2 & Hr & Hr2). injection Hr2 as <- <- <-.
    unfold handle_auth_switch_response in Hr. step_ok Hr. step_ok Hr. destruct (str_eqb _ _); [|done].
    unfold compare_buffer in Hr. destruct (compare _ _) eqn:Ec; [|done]. injection Hr as <- <-. apply compare_eq in Ec.
    split; [done|]. split; [done|]. change (expected_hash c0) with (expected_hash c) in Ec.
    change (expected_hash (set_next Complete c0)) with (expected_hash c) in Ec. rewrite Ec. rewrite Hsrc at 2. by apply infix_app_l; exists [], []; rewrite app_nil_r.
Qed.

(** A read ends with a decoded packet of the stream. *)
Lemma hs_read_ok chunks : ∀ c src c' src' chunks', hs_read str_debug chunks c src = Ret (None, c', src', chunks') →
  ∃ b, hs_decode str_debug c b = Ret (Ok (Some tt), c', src') ∧ b ++ concat chunks' = src ++ concat chunks.
Proof.
  induction chunks as [|x chunks IH]; intros c src c' src' chunks'; cbn [hs_read];
    (destruct (hs_decode str_debug c src) as [[[[[[]|]|e] c1] s1]|] eqn:Ed; try done).
  - intros [= <- <- <-]. by exists src.
  - intros [= <- <- <-]. by exists src.
  - intros Hr. apply hs_decode_ok in Ed as [-> ->]. apply IH in Hr as (b & Hb & E). exists b. split; [done|]. by rewrite E, <-app_assoc.
Qed.

Lemma hs_send_spec item c w : ∃ ok c' w', hs_send send item c w = (ok, c', w') ∧ kept c c' ∧
  hs_next c' = (if decide (hs_next c = WriteAutoSwitch) then ReadAutoSwitchResponse else hs_next c).
Proof. unfold hs_send, hs_encode. destruct (decide _); destruct (send _ w) as [ok w'] eqn:E; eexists _, _, _; cbn; by rewrite ?E. Qed.

(** What was heard of the client: an infix of one of its two streams. *)
Lemma loop_authenticated fuel (heard : str → Prop) : ∀ tls chunks c src w c' w',
  (∀ x, infix x (src ++ concat chunks) → heard x) → (∀ l x, tls = Some l → infix x (concat l) → heard x) →
  hs_next c = ReadResponseFirst ∨ hs_next c = ReadResponse ∨ hs_next c = ReadAutoSwitchResponse ∧ heard (hs_user c ++ [nul]) →
  handshake_loop str_debug send fuel tls chunks c src w = Ret (Authenticated, c', w') →
  kept c c' ∧ heard (hs_user c ++ [nul]) ∧ (expected_hash c = [byte 251] ∨ heard (expected_hash c)).
Proof.
  induction fuel as [|fuel IH]; intros tls chunks c src w c' w' Hh Ht Hst Hl; [done|]. cbn [handshake_loop] in Hl.
  destruct (hs_read str_debug chunks c src) as [[[[[e|] c1] src1] chunks1]|] eqn:Er; [|  |done].
  { destruct (hs_send_spec e c1 w) as (ok & c2 & w2 & E & _). rewrite E in Hl. by destruct ok. }
  apply hs_read_ok in Er as (b & Hd & Eb). apply hs_decode_ok in Hd as [Hk Hd].
  assert (∀ x, infix x b → heard x) as Hb by (intros x Hx; apply Hh; rewrite <-Eb; by apply infix_app_r).
  assert (∀ x, infix x (concat chunks1) → heard x) as Hc by (intros x Hx; apply Hh; rewrite <-Eb; by apply infix_app_l).
  assert (∀ c2, kept c1 c2 → kept c c2 ∧ hs_user c2 = hs_user c ∧ expected_hash c2 = expected_hash c) as Hkk.
  { intros c2 Hk2. pose proof (kept_trans _ _ _ Hk Hk2) as Hk3. destruct Hk3 as [E1 E2 E3 E4]. split; [done|]. unfold expected_hash. by rewrite E1, E2. }
  assert (∀ tls', (tls' = tls ∨ tls' = None) → ∀ l x, tls' = Some l → infix x (concat l) → heard x) as Ht'
    by (intros tls' [->| ->]; [exact Ht|done]).
  assert (hs_next c1 = Complete → (expected_hash c = [byte 251] ∨ heard (expected_hash c)) → heard (hs_user c ++ [nul]) →
    kept c c' ∧ heard (hs_user c ++ [nul]) ∧ (expected_hash c = [byte 251] ∨ heard (expected_hash c))) as Hfin.
  { intros En Hx Hu. rewrite En in Hl. destruct (hs_send_spec (replicate 4 nul ++ ok_payload) c1 w) as (ok & c2 & w2 & E & Hk2 & _).
    rewrite E in Hl. destruct ok; [|done]. injection Hl as <- <-. split; [by apply Hkk|done]. }
  assert (responded c c1 b src1 → kept c c' ∧ heard (hs_user c ++ [nul]) ∧ (expected_hash c = [byte 251] ∨ heard (expected_hash c))) as Hresp.
  { intros (Hu & -> & [En|[En Hx]]); [|apply Hfin; [done|destruct Hx; [by left|right; by apply Hb]|by apply Hb]].
    rewrite En in Hl. destruct (hs_send_spec (generate_auth_switch_request c1) c1 w) as (ok & c2 & w2 & E & Hk2 & En2).
    rewrite E in Hl. destruct ok; [|done]. rewrite En, decide_True in En2 by done. destruct (Hkk c2 Hk2) as (Hk3 & Eu & Ex).
    apply IH in Hl as (Hk4 & Hu4 & Hx4); [|exact Hc|by apply Ht'; left|right; right; rewrite Eu; auto].
    rewrite Eu in Hu4. rewrite Ex in Hx4. split; [by eapply kept_trans|done]. }
  destruct Hst as [Hst|[Hst|[Hst Hu]]]; rewrite Hst in Hd; [|by apply Hresp|].
  - destruct Hd as [[En ->]|Hd]; [|by apply Hresp]. rewrite En in Hl. destruct tls as [l|]; [|done].
    destruct (Hkk (set_next ReadResponse c1)) as (Hk3 & Eu & Ex); [done|].
    apply IH in Hl as (Hk4 & Hu4 & Hx4); [|intros x Hx; by apply (Ht l)|done|by right; left].
    rewrite Eu in Hu4. rewrite Ex in Hx4. split; [by eapply kept_trans|done].
  - destruct Hd as [En Hx]. apply Hfin; [done|right; by apply Hb|done].
Qed.

Lemma calc_password_length `{!Sha1Laws} salt password : password ≠ [] → length (calc_password salt password) = 20%nat.
Proof. intros Hp. unfold calc_password. destruct password; [done|]. cbn [is_empty]. by rewrite length_zip_with, !sha1_length. Qed.

(** C27 A client is let in only if, in the bytes it sent (in the clear or over TLS), it
    named the user of the listener and gave the hash of the user's password with the
    salt of this connection; the session then has that user and the database of the
    listener. *)
Theorem mysql_login_proves_password `{!Sha1Laws} tls chunks cid salt user password db version w c' w' :
  handshake str_debug send tls chunks (new_handshake cid salt user password db version) w = Ret (Authenticated, c', w') →
  let heard x := infix x (concat chunks) ∨ ∃ l, tls = Some l ∧ infix x (concat l) in
  heard (user ++ [nul]) ∧ heard (calc_password salt password) ∧ hs_user c' = user ∧ hs_db c' = db.
Proof.
  intros Hh heard. unfold handshake in Hh. destruct (encode_initial_handshake _) as [greeting|]; [|done].
  destruct (hs_send_spec greeting (new_handshake cid salt user password db version) w) as (ok & c1 & w1 & E & Hk & En). rewrite E in Hh.
  destruct ok; [|done]. destruct Hk as [Es Ep Eu Ed]. cbn in Es, Ep, Eu, Ed, En.
  destruct (loop_authenticated 4 heard tls chunks c1 [] w1 c' w') as ([_ _ Eu' Ed'] & Hu & Hx);
    [intros x Hx; by left|intros l x Hl Hx; right; by exists l|by left|exact Hh|].
  unfold expected_hash in Hx. rewrite Es, Ep in Hx. rewrite Eu in *. rewrite Ed in Ed'. split_and!; [done| |done|done].
  destruct Hx as [Hx|Hx]; [|done]. exfalso. destruct password as [|x l]; [discriminate Hx|].
  assert (length (calc_password salt (x :: l)) = 20%nat) as Hl by (by apply calc_password_length). rewrite Hx in Hl. discriminate Hl.
Qed.

(** *** The loop ends *)

(** How many more turns a status can take. *)
Definition turns (s : ServerHandshakeStatus) : nat :=
  match s with ReadResponseFirst => 3 | ReadResponse => 2 | ReadAutoSwitchResponse => 1 | _ => 4 end.

Lemma loop_ends fuel : ∀ tls chunks c src w c' w', (turns (hs_next c) ≤ fuel)%nat → (turns (hs_next c) ≤ 3)%nat →
  handshake_loop str_debug send fuel tls chunks c src w ≠ Ret (OutOfFuel, c', w').
Proof.
  induction fuel as [|fuel IH]; intros tls chunks c src w c' w' Hf Hs; [destruct (hs_next c); cbn in Hf; lia|]. cbn [handshake_loop].
  destruct (hs_read str_debug chunks c src) as [[[[[e|] c1] src1] chunks1]|] eqn:Er; [| |done].
  { destruct (hs_send_spec e c1 w) as (ok & c2 & w2 & -> & _). by destruct ok. }
  apply hs_read_ok in Er as (b & Hd & _). apply hs_decode_ok in Hd as [_ Hd].
  assert (hs_next c1 = WriteAutoSwitch → (2 ≤ S fuel)%nat →
    (let '(ok, c, w) := hs_send send (generate_auth_switch_request c1) c1 w in
     if ok : bool then handshake_loop str_debug send fuel tls chunks1 c src1 w else Ret (Failed, c, w)) ≠ Ret (OutOfFuel, c', w')) as Hsw.
  { intros En Hge. destruct (hs_send_spec (generate_auth_switch_request c1) c1 w) as (ok & c2 & w2 & -> & _ & En2).
    rewrite En, decide_True in En2 by done. destruct ok; [|done]. apply IH; rewrite En2; cbn; lia. }
  assert (hs_next c1 = Complete →
    (let '(ok, c, w) := hs_send send (replicate 4 nul ++ ok_payload) c1 w in
     Ret (if ok : bool then Authenticated else Failed, c, w)) ≠ Ret (OutOfFuel, c', w')) as Hco.
  { intros _. destruct (hs_send_spec (replicate 4 nul ++ ok_payload) c1 w) as (ok & c2 & w2 & -> & _). by destruct ok. }
  revert Hf Hs Hd. destruct (hs_next c) eqn:En; intros Hf Hs Hd; cbn [turns] in *; try lia.
  - destruct Hd as [[-> _]|(_ & _ & [En1|[En1 _]])]; [|rewrite En1; apply Hsw; [done|lia]|rewrite En1; by apply Hco].
    destruct tls as [l|]; [|done]. apply IH; cbn; lia.
  - destruct Hd as (_ & _ & [En1|[En1 _]]); rewrite En1; [apply Hsw; [done|lia]|by apply Hco].
  - destruct Hd as [En1 _]. rewrite En1. by apply Hco.
Qed.

(** The handshake ends after at most three packets of the client, whatever it sends. *)
Theorem mysql_handshake_ends tls chunks cid salt user password db version w c' w' :
  handshake str_debug send tls chunks (new_handshake cid salt user password db version) w ≠ Ret (OutOfFuel, c', w').
Proof.
  unfold handshake. destruct (encode_initial_handshake _) as [greeting|]; [|done].
  destruct (hs_send_spec greeting (new_handshake cid salt user password db version) w) as (ok & c1 & w1 & -> & _ & En).
  change (hs_next c1 = ReadResponseFirst) in En. destruct ok; [|done]. apply loop_ends; rewrite En; cbn; lia.
Qed.

(** *** The right client is let in *)

Lemma hs_step {A B} (m : hs A) (k : A → hs B) c b a c' b' : m c b = Ret (Ok a, c', b') → (m ≫= k) c b = k a c' b'.
Proof. intros Hm. unfold mbind, hs_bind. by rewrite Hm. Qed.

Lemma read_step {A} (m : buf A) c b a b' : m b = Ret (a, b') → read m c b = Ret (Ok a, c, b').
Proof. intros Hm. unfold read. by rewrite Hm. Qed.

Ltac fwd tac := (erewrite hs_step by tac); cbv beta iota; cbn [fst snd].
Ltac fwd_read tac := fwd ltac:(apply read_step; tac).

(** A text that can be sent up to a zero. *)
Definition texty (s : str) : Prop := (nul ∉ s) ∧ is_utf8 s = true.

Lemma take_text_app s r : texty s → take_text (s ++ nul :: r) = Ret (s, nul :: r).
Proof.
  intros [Hn Hu]. unfold take_text. erewrite bind_step; [by apply utf8_or_panic_ok|]. unfold split_nul. rewrite find_null_app by done.
  by rewrite take_app_length, drop_app_length.
Qed.

(** The response of a client: its capabilities, the name, the hash as the
    capabilities say, and what they announce. *)
Definition flag (cap f : Z) : bool := 0 <? Z.land cap f.
Definition client_auth (cap : Z) (auth : str) : str :=
  if flag cap CLIENT_PLUGIN_AUTH_LENENC_CLIENT_DATA then put_lenc_int (len auth) true ++ auth
  else byte (len auth) :: auth.
Definition client_response (cap max charset : Z) (user auth db plugin attrs : str) : str :=
  le_bytes 4 cap ++ le_bytes 4 max ++ [byte charset] ++ replicate 23 nul ++ user ++ nul :: client_auth cap auth
  ++ (if flag cap CLIENT_CONNECT_WITH_DB then db ++ [nul] else [])
  ++ (if flag cap CLIENT_PLUGIN_AUTH then plugin ++ [nul] else []) ++ attrs.

Lemma decode_first_app cap max charset r c : 0 ≤ cap < 2 ^ 32 → r ≠ [] →
  decode_first c (le_bytes 4 cap ++ le_bytes 4 max ++ [byte charset] ++ replicate 23 nul ++ r) = Ret (Ok false, set_capability cap c, r).
Proof.
  intros Hc Hr. unfold decode_first. fwd_read ltac:(apply get_uint_le_app; by rewrite le_bytes_length). rewrite le_val_bytes_small by done.
  fwd ltac:(reflexivity). fwd_read ltac:(apply get_uint_le_app; by rewrite le_bytes_length). fwd_read ltac:(reflexivity).
  fwd_read ltac:(by apply split_to_app). fwd_read ltac:(reflexivity). by destruct r.
Qed.

(** The capabilities under which a response names the hash in a form that can carry
    it. *)
Definition can_log_in (cap : Z) : Prop :=
  flag cap CLIENT_PLUGIN_AUTH_LENENC_CLIENT_DATA = true ∨ flag cap CLIENT_SECURE_CONNECTION = true.

Lemma read_auth_app c auth r : can_log_in (hs_capability c) → auth ≠ [] → len auth ≤ 250 →
  read_auth_data c (client_auth (hs_capability c) auth ++ r) = Ret (Ok tt, set_auth_data auth c, r).
Proof.
  intros Hc Ha Hl. assert (len auth ≠ 0) as Hz by (destruct auth; [done|cbn; lia]).
  unfold read_auth_data, client_auth. fwd ltac:(reflexivity). unfold has_cap. unfold can_log_in, flag in *.
  destruct (0 <? Z.land _ CLIENT_PLUGIN_AUTH_LENENC_CLIENT_DATA) eqn:El.
  - assert (length_encoded_string ((put_lenc_int (len auth) true ++ auth) ++ r) = Ret (auth, false, r)) as Hd.
    { unfold length_encoded_string. rewrite <-app_assoc. erewrite bind_step by (apply lenc_roundtrip; [lia|by right]). cbv beta iota.
      rewrite (proj2 (Z.ltb_ge _ 1)) by lia. erewrite bind_step by reflexivity. assert (is_empty (auth ++ r) = false) as -> by (by destruct auth).
      cbn [negb]. by erewrite bind_step by (by apply split_to_app). }
    fwd_read ltac:(exact Hd). done.
  - destruct Hc as [?| ->]; [done|]. cbn [app]. fwd_read ltac:(apply get_u8_byte; lia). fwd_read ltac:(by apply split_to_app). done.
Qed.

Lemma respond_app c user auth db plugin attrs :
  texty user → texty db → texty plugin → can_log_in (hs_capability c) → auth ≠ [] → len auth ≤ 250 →
  hs_user c = user → hs_db c = db → plugin = AUTH_NATIVE_PASSWORD → auth = expected_hash c →
  ∃ c', respond str_debug c (user ++ nul :: client_auth (hs_capability c) auth
      ++ (if flag (hs_capability c) CLIENT_CONNECT_WITH_DB then db ++ [nul] else [])
      ++ (if flag (hs_capability c) CLIENT_PLUGIN_AUTH then plugin ++ [nul] else []) ++ attrs) = Ret (Ok tt, c', []) ∧
    hs_next c' = Complete ∧ kept c c'.
Proof.
  intros Hu Hdb Hpl Hcap Ha Hl Eu Ed Ep Ex. unfold respond, decode_handshake_response.
  set (rest := (if flag _ CLIENT_PLUGIN_AUTH then _ else _) ++ attrs).
  assert (∃ c1, decode_handshake_response str_debug c (user ++ nul :: client_auth (hs_capability c) auth
      ++ (if flag (hs_capability c) CLIENT_CONNECT_WITH_DB then db ++ [nul] else []) ++ rest) = Ret (Ok tt, c1, []) ∧
    hs_next c1 = CompareAuthData ∧ kept c c1 ∧ hs_plugin c1 = AUTH_NATIVE_PASSWORD ∧ hs_auth_data c1 = auth)
    as (c1 & Hd & Hn & Hk & Hp & Had).
  { unfold decode_handshake_response. fwd_read ltac:(by apply take_text_app). fwd ltac:(reflexivity). rewrite Eu, str_eqb_refl. cbn [negb].
    fwd_read ltac:(reflexivity). fwd ltac:(by apply read_auth_app).
    assert (read_database str_debug (set_auth_data auth c)
      ((if flag (hs_capability c) CLIENT_CONNECT_WITH_DB then db ++ [nul] else []) ++ rest) = Ret (Ok tt, set_auth_data auth c, rest)) as Hrd.
    { unfold read_database. fwd ltac:(reflexivity). fwd_read ltac:(reflexivity). unfold has_cap, flag. cbn [hs_capability set_auth_data].
      destruct (0 <? _); [|by destruct (is_empty _)]. assert (is_empty ((db ++ [nul]) ++ rest) = false) as -> by (by destruct db).
      cbn [negb andb]. rewrite <-app_assoc. fwd_read ltac:(by apply take_text_app). cbn [hs_db set_auth_data]. rewrite Ed, str_eqb_refl.
      fwd_read ltac:(reflexivity). done. }
    fwd ltac:(exact Hrd).
    assert (∃ b, read_plugin (set_auth_data auth c) rest = Ret (Ok tt, set_plugin AUTH_NATIVE_PASSWORD (set_auth_data auth c), b)) as [b Hrp].
    { unfold read_plugin, rest. fwd ltac:(reflexivity). unfold has_cap, flag. cbn [hs_capability set_auth_data].
      destruct (0 <? _); [|by eauto]. rewrite <-app_assoc. fwd_read ltac:(by apply take_text_app). rewrite Ep.
      fwd ltac:(reflexivity). fwd_read ltac:(reflexivity). eauto. }
    fwd ltac:(exact Hrp). fwd ltac:(reflexivity). fwd ltac:(reflexivity). cbn [hs_plugin set_plugin]. rewrite str_eqb_refl. cbn [negb].
    eexists. split; [reflexivity|]. done. }
  erewrite hs_step by exact Hd. fwd ltac:(reflexivity). rewrite decide_True by done. unfold compare_auth_data.
  fwd ltac:(reflexivity). fwd ltac:(reflexivity). cbn [hs_plugin set_next]. rewrite Hp, str_eqb_refl. cbn [hs_auth_data set_next].
  rewrite Had. assert (compare auth (expected_hash (set_next Complete c1)) = true) as ->.
  { apply compare_eq. rewrite Ex. destruct Hk as [Es Epw _ _]. unfold expected_hash. cbn [hs_salt hs_password set_next]. by rewrite Es, Epw. }
  eexists. split; [reflexivity|]. split; [done|]. by destruct Hk.
Qed.

(** A packet is decoded when all of it has come, and not before. *)
Lemma hs_read_packet p seq chunks : len p < 2 ^ 24 → ∀ c src c' src',
  src ++ concat chunks = header (len p) seq ++ p → hs_decode str_debug c (header (len p) seq ++ p) = Ret (Ok (Some tt), c', src') →
  ∃ chunks', hs_read str_debug chunks c src = Ret (None, c', src', chunks').
Proof.
  intros Hp. induction chunks as [|x chunks IH]; intros c src c' src' E Hd; cbn [hs_read].
  - cbn [concat] in E. rewrite app_nil_r in E. rewrite E, Hd. eauto.
  - destruct (decide (length src < length (header (len p) seq ++ p))%nat) as [Hlt|Hge].
    + assert (hs_decode str_debug c src = Ret (Ok None, c, src)) as ->.
      { unfold hs_decode. destruct (Nat.ltb_spec (length src) 3) as [|H3]; [done|].
        assert (get_length src = len p) as ->.
        { unfold get_length. rewrite <-(take_app_le src (concat (x :: chunks)) 3) by done. rewrite E. apply get_length_header. lia. }
        rewrite (proj2 (Z.ltb_lt _ _)); [done|]. rewrite length_app, header_length in Hlt. lia. }
      apply (IH _ _ c'); [|done]. rewrite <-E. cbn [concat]. by rewrite app_assoc.
    + assert (src = header (len p) seq ++ p) as ->.
      { pose proof (f_equal length E) as El. rewrite length_app in El. rewrite <-E in Hge. rewrite length_app in Hge.
        assert (concat (x :: chunks) = []) as E0 by (apply nil_length_inv; lia). by rewrite E0, app_nil_r in E. }
      rewrite Hd. eauto.
Qed.

(** C31 A client that names the user of the listener, gives the hash of the password, which is
    not empty, with the 20-byte salt of the greeting (length-encoded or with a one-byte
    length, whichever its capabilities announce: one of them is needed), and names the
    listener's database if any, and the native plugin if any, is let in, wherever its packet is
    cut into reads.  The names of user and database are UTF-8 without NUL bytes, the packet is
    shorter than 16 MB, and writes to the client succeed.  (With an empty password, a client
    that sends it length-encoded is refused: [handshake_runs].) *)
Theorem mysql_login_works `{!Sha1Laws} tls chunks seq cap max charset attrs cid salt user password db version w :
  (∀ x w, ∃ w', send x w = (true, w')) → password ≠ [] → length salt = 20%nat → texty user → texty db →
  0 ≤ cap < 2 ^ 32 → can_log_in cap →
  let p := client_response cap max charset user (calc_password salt password) db AUTH_NATIVE_PASSWORD attrs in
  len p < 2 ^ 24 → concat chunks = header (len p) seq ++ p →
  ∃ c' w', handshake str_debug send tls chunks (new_handshake cid salt user password db version) w = Ret (Authenticated, c', w') ∧
    hs_user c' = user ∧ hs_db c' = db.
Proof.
  intros Hsend Hpw Hsalt Hu Hdb Hcap Hcan p Hp Hch. unfold handshake.
  destruct (encode_initial_handshake (new_handshake cid salt user password db version)) as [greeting|] eqn:Eg.
  2:{ unfold encode_initial_handshake in Eg. cbn [hs_salt new_handshake] in Eg. rewrite Hsalt in Eg. by vm_compute in Eg. }
  set (c0 := new_handshake cid salt user password db version).
  unfold hs_send at 1. destruct (hs_encode greeting c0) as [bytes c1] eqn:Ee. destruct (Hsend bytes w) as [w1 ->].
  assert (c1 = set_seq 1 c0) as -> by (unfold hs_encode in Ee; injection Ee as _ <-; reflexivity). clear Ee.
  set (c1 := set_seq 1 c0). set (c2 := set_capability cap (set_seq 2 c0)).
  pose proof (calc_password_length salt password Hpw) as Hlen.
  destruct (respond_app c2 user (calc_password salt password) db AUTH_NATIVE_PASSWORD attrs) as (c3 & Hr & Hn & Hk); try done.
  { split; [by apply contains_char_false|by vm_compute]. } { by intros E; rewrite E in Hlen. } { lia. }
  assert (hs_decode str_debug c1 (header (len p) seq ++ p) = Ret (Ok (Some tt), c3, [])) as Hd.
  { unfold hs_decode. rewrite get_length_header by lia. rewrite !length_app, header_length, (proj2 (Nat.ltb_ge _ 3)), (proj2 (Z.ltb_ge _ _)) by lia.
    rewrite drop_app_length' by done. change (hs_next c1) with ReadResponseFirst. cbv iota. unfold p at 1, client_response.
    fwd ltac:(apply decode_first_app; [done|]; by destruct user). fwd ltac:(exact Hr). done. }
  destruct (hs_read_packet p seq chunks Hp c1 [] c3 [] Hch Hd) as [chunks' Hrd]. cbn [handshake_loop]. rewrite Hrd, Hn.
  unfold hs_send. destruct (hs_encode _ c3) as [bytes2 c4] eqn:Ee. destruct (Hsend bytes2 w1) as [w2 ->].
  eexists _, _. split; [reflexivity|]. unfold hs_encode in Ee. rewrite Hn, decide_False in Ee by done. injection Ee as _ <-.
  destruct Hk as [_ _ E1 E2]. cbn. by rewrite E1, E2.
Qed.
End Handshake.

(** ** At concrete inputs *)

(** A digest of 20 bytes. *)
#[local] Instance toy_sha1 : Sha1 := λ s, take 20 (s ++ replicate 20 nul).
#[local] Instance toy_sha1_laws : Sha1Laws.
Proof. intros s. unfold sha1, toy_sha1. rewrite length_take, length_app, length_replicate. lia. Qed.

Definition toy_salt : str := replicate 20 "s"%char.
Definition toy_codec (password : string) : ServerHandshakeCodec := new_handshake 1 toy_salt ($"app") ($password) ($"shop") ($"8.0.36").
Definition toy_send (x : str) (w : nat) : bool * nat := (true, S w).
Definition toy_debug (s : str) : str := s.

(** The capabilities of a modern client: database, plugin, length-encoded hash. *)
Definition modern_cap : Z := Z.lor CLIENT_CONNECT_WITH_DB (Z.lor CLIENT_PLUGIN_AUTH CLIENT_PLUGIN_AUTH_LENENC_CLIENT_DATA).
Definition toy_packet (auth plugin : str) : str :=
  let p := client_response modern_cap 0 45 ($"app") auth ($"shop") plugin [] in header (len p) 1 ++ p.
Definition run_handshake (password : string) (chunks : list str) : exec (handshake_end * nat) :=
  match handshake toy_debug toy_send None chunks (toy_codec password) 0%nat with Ret (r, _, w) => Ret (r, w) | Panic => Panic end.

(** The right hash lets in over two reads. *)
Lemma mysql_login_works_witness : ∃ c' w',
  handshake toy_debug toy_send None
    [take 10 (toy_packet (calc_password toy_salt ($"pw")) AUTH_NATIVE_PASSWORD);
     drop 10 (toy_packet (calc_password toy_salt ($"pw")) AUTH_NATIVE_PASSWORD)] (toy_codec "pw") 0%nat = Ret (Authenticated, c', w') ∧
  hs_user c' = $"app" ∧ hs_db c' = $"shop".
Proof.
  apply (mysql_login_works toy_debug toy_send None _ 1 modern_cap 0 45 [] 1 toy_salt ($"app") ($"pw") ($"shop") ($"8.0.36") 0%nat);
    try done; try (split; [by apply contains_char_false|by vm_compute]); try (by vm_compute).
  - intros x w. by exists (S w).
  - left. by vm_compute.
Defined.

Lemma mysql_login_proves_password_witness : infix ($"app" ++ [nul]) (toy_packet (calc_password toy_salt ($"pw")) AUTH_NATIVE_PASSWORD) ∧
  infix (calc_password toy_salt ($"pw")) (toy_packet (calc_password toy_salt ($"pw")) AUTH_NATIVE_PASSWORD).
Proof.
  destruct (handshake toy_debug toy_send None [toy_packet (calc_password toy_salt ($"pw")) AUTH_NATIVE_PASSWORD] (toy_codec "pw") 0%nat)
    as [[[r c'] w']|] eqn:E; [|by vm_compute in E].
  assert (r = Authenticated) as ->.
  { apply (f_equal (λ x, match x with Ret (r, _, _) => Some r | Panic => None end)) in E. by vm_compute in E; injection E as <-. }
  destruct (mysql_login_proves_password toy_debug toy_send _ _ _ _ _ _ _ _ _ _ _ E) as ([H1|(l & ? & _)] & [H2|(l' & ? & _)] & _); [|done..].
  cbn [concat] in H1, H2. rewrite app_nil_r in H1, H2. done.
Defined.

(** A client with another plugin is asked for the native hash and then let in; a wrong
    hash is refused; a user without a password is refused by a modern client's
    response (an empty length-encoded hash is read as one byte); a packet that is too
    short ends the task. *)
Example handshake_runs :
  run_handshake "pw" [toy_packet ($"x") ($"caching_sha2_password"); header 20 3 ++ calc_password toy_salt ($"pw")] = Ret (Authenticated, 3%nat) ∧
  run_handshake "pw" [toy_packet ($"x") AUTH_NATIVE_PASSWORD] = Ret (Refused, 2%nat) ∧
  run_handshake "" [toy_packet [] AUTH_NATIVE_PASSWORD] = Ret (Refused, 2%nat) ∧
  run_handshake "pw" [header 3 1 ++ $"abc"] = Panic ∧ run_handshake "pw" [] = Panic.
Proof. split_and!; vm_compute; reflexivity. Qed.
End MyHandshakeTheorems.
