(* ===== verification/MyFrontend.v ===== *)
(** * The MySQL frontend

    [runtime/gateway/src/frontend/mysql.rs]: the commands of a client (text queries,
    prepared statements with binary parameters) as gateway commands, and responses as
    MySQL packets, in the text and in the binary protocol.

    Floats are their bits; their conversions and their text are parameters.  A
    length that overflows [usize] makes the code slice out of range: such readers are
    in [exec (option _)]. *)

From S2P Require Import Prelude RustStr Model Session Obligations Transport PgProtocol PgText MyProtocol.
Import MyProtocol.

Module MyFrontend.

Record MyFrontend := mkMyFrontend {
  my_user : str;
  my_password : str;
  my_database : str;
  my_server_version : str;
  suppress_next_response : bool
}.

Definition new_my_frontend (user password database server_version : str) : MyFrontend :=
  mkMyFrontend user password database server_version false.
Definition set_suppress (b : bool) (f : MyFrontend) : MyFrontend :=
  mkMyFrontend (my_user f) (my_password f) (my_database f) (my_server_version f) b.

Definition COM_QUIT : Z := 1.
Definition COM_INIT_DB : Z := 2.
Definition COM_QUERY : Z := 3.
Definition COM_PING : Z := 14.
Definition COM_STMT_PREPARE : Z := 22.
Definition COM_STMT_EXECUTE : Z := 23.
Definition COM_STMT_CLOSE : Z := 25.
Definition COM_STMT_RESET : Z := 26.

(** ** Text commands *)

Definition decode_text_payload (payload : str) : GatewayResult str :=
  match utf8_error 0 payload with
  | Some e => Err (Protocol ($"invalid mysql utf8 payload: " ++ utf8_error_to_string e))
  | None => Ok (trim_matches nul payload)
  end.

(** [split_ascii_whitespace]. *)
Fixpoint split_ascii_aux (s cur : str) : list str :=
  match s with
  | [] => if is_empty cur then [] else [cur]
  | c :: s => if is_ascii_whitespace c then (if is_empty cur then [] else [cur]) ++ split_ascii_aux s [] else split_ascii_aux s (cur ++ [c])
  end.
Definition split_ascii_whitespace (s : str) : list str := split_ascii_aux s [].

Definition is_quote (c : ascii) : bool := Ascii.eqb c "'" || Ascii.eqb c dquote.
Definition unquote (s : str) : str := drop_while_end is_quote (drop_while is_quote s).

Definition parse_set_names (sql : str) : option str :=
  match split_ascii_whitespace (trim_end_matches (Ascii.eqb ";") (trim sql)) with
  | set :: names :: rest =>
      if negb (eq_ignore_ascii_case set ($"set")) || negb (eq_ignore_ascii_case names ($"names")) then None
      else
        match rest with
        | [] => None
        | charset :: rest =>
            let charset := unquote charset in
            x ← (if str_eqb charset ($"=") then match rest with [] => None | c :: rest => Some (unquote c, rest) end
                 else Some (charset, rest));
            if is_empty x.1 || negb (is_empty x.2) then None else Some x.1
        end
  | _ => None
  end.

Definition with_charset (cs : option str) (s : SessionState) : SessionState :=
  mkSession (user s) (database s) cs (autocommit s) (backend_endpoint s) (transaction_state s)
    (prefer_binary_result s) (pg_extended_query s) (pg_extended_error s) (pg_execute_max_rows s)
    (result_truncated s) (pg_portal_name s) (pg_portal_skip_rows s) (pg_drop_portal_hold s)
    (pg_client_extended_frames s) (pg_ext_tcp_hold s).
Definition with_database (db : option str) (s : SessionState) : SessionState :=
  mkSession (user s) db (charset s) (autocommit s) (backend_endpoint s) (transaction_state s)
    (prefer_binary_result s) (pg_extended_query s) (pg_extended_error s) (pg_execute_max_rows s)
    (result_truncated s) (pg_portal_name s) (pg_portal_skip_rows s) (pg_drop_portal_hold s)
    (pg_client_extended_frames s) (pg_ext_tcp_hold s).

(** [trimmed.strip_suffix(';').unwrap_or(trimmed)]. *)
Definition strip_semicolon (s : str) : str :=
  if ends_with s ($";") then take (length s - 1) s else s.

Definition decode_query_command (payload : str) (s : SessionState) : GatewayResult GatewayCommand * SessionState :=
  match decode_text_payload payload with
  | Err e => (Err e, s)
  | Ok sql =>
      let normalized := to_ascii_lowercase (trim_end (strip_semicolon (trim sql))) in
      if one_of [$"begin"; $"start transaction"] normalized then (Ok Begin, with_transaction Active s)
      else if str_eqb normalized ($"commit") then (Ok Commit, with_transaction Idle s)
      else if str_eqb normalized ($"rollback") then (Ok Rollback, with_transaction Idle s)
      else (Ok (Query sql), match parse_set_names sql with Some cs => with_charset (Some cs) s | None => s end)
  end.

Definition decode_statement_id (payload : str) : GatewayResult str :=
  if (length payload <? 4)%nat then Err (Protocol ($"mysql statement command payload is missing statement id"))
  else Ok (dec (le_val (take 4 payload))).

(** ** Binary parameters *)

(** A panic, no match, or a value. *)
Definition eo (A : Type) : Type := exec (option A).
#[export] Instance eo_ret : MRet eo := λ A a, Ret (Some a).
#[export] Instance eo_bind : MBind eo := λ A B k m, match m with Ret (Some a) => k a | Ret None => Ret None | Panic => Panic end.
Definition nothing {A} : eo A := Ret None.
Definition of_option {A} (o : option A) : eo A := Ret o.

(** [hdr + len] wraps; then the slice [hdr..hdr + len] panics. *)
Definition lenc_slice (data : str) (n hdr : Z) : eo (str * Z) :=
  if 2 ^ 64 <=? hdr + n then Panic
  else if len data <? hdr + n then nothing
  else mret (take (Z.to_nat n) (drop (Z.to_nat hdr) data), hdr + n).

Definition read_lenc_bytes (data : str) : eo (str * Z) :=
  match data with
  | [] => nothing
  | c :: rest =>
      let v := byte_val c in
      if v =? 252 then (if (length data <? 3)%nat then nothing else lenc_slice data (le_val (take 2 rest)) 3)
      else if v =? 253 then (if (length data <? 4)%nat then nothing else lenc_slice data (le_val (take 3 rest)) 4)
      else if v =? 254 then (if (length data <? 9)%nat then nothing else lenc_slice data (le_val (take 8 rest)) 9)
      else if v =? 251 then mret ([], 1)
      else lenc_slice data v 1
  end.

Definition read_lenc_string (data : str) : eo (str * Z) :=
  x ← read_lenc_bytes data; mret (if is_utf8 x.1 then x.1 else Obligations.from_utf8_lossy x.1, x.2).

(** [format!("{n:0k}")]. *)
Definition zero_pad (k : nat) (n : Z) : str := replicate (k - length (dec n)) "0"%char ++ dec n.

Definition date_text (p : str) : str :=
  zero_pad 4 (le_val (take 2 p)) ++ $"-" ++ zero_pad 2 (le_val (take 1 (drop 2 p))) ++ $"-" ++ zero_pad 2 (le_val (take 1 (drop 3 p))).
Definition hms_text (p : str) : str :=
  zero_pad 2 (le_val (take 1 p)) ++ $":" ++ zero_pad 2 (le_val (take 1 (drop 1 p))) ++ $":" ++ zero_pad 2 (le_val (take 1 (drop 2 p))).
Definition micro_text (p : str) : str := $"." ++ zero_pad 6 (le_val (take 4 p)).

Definition decode_mysql_binary_date_text (p : str) : option str :=
  if is_empty p then Some ($"0000-00-00") else if (length p <? 4)%nat then None else Some (date_text p).

Definition decode_mysql_binary_datetime_text (p : str) : option str :=
  if is_empty p then Some ($"0000-00-00 00:00:00")
  else if (length p <? 4)%nat then None
  else if (length p =? 4)%nat then Some (date_text p ++ $" 00:00:00")
  else if (length p <? 7)%nat then None
  else if (length p =? 7)%nat then Some (date_text p ++ $" " ++ hms_text (drop 4 p))
  else if (length p <? 11)%nat then None
  else Some (date_text p ++ $" " ++ hms_text (drop 4 p) ++ micro_text (drop 7 p)).

Definition decode_mysql_binary_time_text (p : str) : option str :=
  if is_empty p then Some ($"00:00:00")
  else if (length p <? 8)%nat then None
  else
    let days := le_val (take 4 (drop 1 p)) in
    micro ← (if (12 <=? length p)%nat then Some (Some (le_val (take 4 (drop 8 p))))
             else if (length p =? 8)%nat then Some None else None);
    Some ((if le_val (take 1 p) =? 0 then [] else $"-")
          ++ (if 0 <? days then dec days ++ $" " else [])
          ++ hms_text (drop 5 p)
          ++ match micro with Some us => if us =? 0 then [] else $"." ++ zero_pad 6 us | None => [] end).

(** [mysql_column_type_from_wire] lists the numbers of all types. *)
Definition mysql_column_type_from_wire (v : Z) : option ColumnType := type_of_byte v.

Definition fixed (n : nat) (data : str) (f : Z → GatewayValue) : eo (GatewayValue * Z) :=
  if (length data <? n)%nat then nothing else mret (f (le_val (take n data)), Z.of_nat n).
(** A value after one byte with its length. *)
Definition prefixed (data : str) (f : str → option str) : eo (GatewayValue * Z) :=
  match data with
  | [] => nothing
  | c :: rest =>
      if len rest <? byte_val c then nothing
      else t ← of_option (f (take (Z.to_nat (byte_val c)) rest)); mret (VString t, 1 + byte_val c)
  end.

Section Values.
Context (f32_to_f64_bits f64_to_f32_bits : Z → Z) (f64_to_string : Z → str).

Definition decode_binary_param_value (data : str) (type_byte : Z) : eo (GatewayValue * Z) :=
  ty ← of_option (mysql_column_type_from_wire type_byte);
  match ty with
  | MYSQL_TYPE_TINY => fixed 1 data (λ v, Integer (to_signed 8 v))
  | MYSQL_TYPE_SHORT | MYSQL_TYPE_YEAR => fixed 2 data (λ v, Integer (to_signed 16 v))
  | MYSQL_TYPE_LONG | MYSQL_TYPE_INT24 => fixed 4 data (λ v, Integer (to_signed 32 v))
  | MYSQL_TYPE_LONGLONG => fixed 8 data (λ v, Integer (to_signed 64 v))
  | MYSQL_TYPE_FLOAT => fixed 4 data (λ v, Float (f32_to_f64_bits v))
  | MYSQL_TYPE_DOUBLE => fixed 8 data Float
  | MYSQL_TYPE_NULL => mret (Null, 0)
  | MYSQL_TYPE_DATE | MYSQL_TYPE_NEWDATE => prefixed data decode_mysql_binary_date_text
  | MYSQL_TYPE_DATETIME | MYSQL_TYPE_TIMESTAMP => prefixed data decode_mysql_binary_datetime_text
  | MYSQL_TYPE_TIME => prefixed data decode_mysql_binary_time_text
  | MYSQL_TYPE_BLOB | MYSQL_TYPE_TINY_BLOB | MYSQL_TYPE_MEDIUM_BLOB | MYSQL_TYPE_LONG_BLOB =>
      x ← read_lenc_bytes data; mret (Bytes x.1, x.2)
  | MYSQL_TYPE_STRING | MYSQL_TYPE_VAR_STRING | MYSQL_TYPE_VARCHAR =>
      x ← read_lenc_bytes data; mret (if is_utf8 x.1 then VString x.1 else Bytes x.1, x.2)
  | MYSQL_TYPE_DECIMAL | MYSQL_TYPE_NEWDECIMAL | MYSQL_TYPE_ENUM | MYSQL_TYPE_SET | MYSQL_TYPE_BIT | MYSQL_TYPE_GEOMETRY =>
      x ← read_lenc_string data; mret (VString x.1, x.2)
  end.

(** The values of the parameters [i..] with these types, and what is left. *)
Fixpoint read_values (null_bitmap : str) (i : nat) (types : list Z) (data : str) : eo (list GatewayValue * str) :=
  match types with
  | [] => mret ([], data)
  | t :: types =>
      let null := Z.testbit (le_val (take 1 (drop (i / 8) null_bitmap))) (Z.of_nat (i mod 8)) in
      x ← (if null then mret (Null, 0) else decode_binary_param_value data t);
      y ← read_values null_bitmap (S i) types (drop (Z.to_nat x.2) data);
      mret (x.1 :: y.1, y.2)
  end.

Definition type_table (n : nat) (data : str) : list Z := (λ i, le_val (take 1 (drop (i * 2) data))) <$> seq 0 n.

Definition try_decode_params_with_count (rest : str) (n : nat) : eo (list GatewayValue) :=
  if (n =? 0)%nat then
    if is_empty rest || str_eqb rest [nul] then mret [] else nothing
  else
    let null_len := ((n + 7) / 8)%nat in
    if (length rest <? null_len + 1)%nat then nothing
    else if negb (le_val (take 1 (drop null_len rest)) =? 1) then nothing
    else if (length rest <? null_len + 1 + n * 2)%nat then nothing
    else
      x ← read_values (take null_len rest) 0 (type_table n (drop (null_len + 1) rest)) (drop (null_len + 1 + n * 2) rest);
      if is_empty x.2 then mret x.1 else nothing.

(** [for n in 0..=64]: the first count that matches. *)
Fixpoint first_count (k n : nat) (rest : str) : eo (list GatewayValue) :=
  match k with
  | O => nothing
  | S k =>
      match try_decode_params_with_count rest n with
      | Ret None => first_count k (S n) rest
      | r => r
      end
  end.

Definition decode_stmt_execute_params (rest : str) : exec (GatewayResult (list GatewayValue)) :=
  if is_empty rest then Ret (Ok [])
  else match first_count 65 0 rest with
       | Panic => Panic
       | Ret (Some ps) => Ret (Ok ps)
       | Ret None => Ret (Err (Protocol ($"mysql COM_STMT_EXECUTE: unable to decode bound parameters")))
       end.

Definition decode_stmt_execute (payload : str) : exec (GatewayResult GatewayCommand) :=
  if (length payload <? 9)%nat then Ret (Err (Protocol ($"mysql COM_STMT_EXECUTE payload too short")))
  else
    let statement_id := dec (le_val (take 4 payload)) in
    match decode_stmt_execute_params (drop 9 payload) with
    | Panic => Panic
    | Ret (Err e) => Ret (Err e)
    | Ret (Ok ps) => Ret (Ok (Execute statement_id ps))
    end.

(** ** [decode] *)

Definition my_decode (frame : str) (s : SessionState) (f : MyFrontend) : exec (GatewayResult (list GatewayCommand) * SessionState * MyFrontend) :=
  match frame with
  | [] => Ret (Err (Protocol ($"empty mysql command frame")), s, f)
  | c :: payload =>
      let command := byte_val c in
      let one (r : GatewayResult GatewayCommand) := x ← r; Ok [x] in
      if command =? COM_QUIT then Ret (Ok [Quit], s, f)
      else if command =? COM_INIT_DB then
        match decode_text_payload payload with
        | Err e => Ret (Err e, s, f)
        | Ok db => Ret (Ok [UseDatabase db], with_database (Some db) s, f)
        end
      else if command =? COM_QUERY then let '(r, s) := decode_query_command payload s in Ret (one r, s, f)
      else if command =? COM_PING then Ret (Ok [Ping], s, f)
      else if command =? COM_STMT_PREPARE then Ret (sql ← decode_text_payload payload; Ok [Prepare sql], s, f)
      else if command =? COM_STMT_EXECUTE then
        match decode_stmt_execute payload with
        | Panic => Panic
        | Ret r => Ret (one r, with_binary true s, f)
        end
      else if command =? COM_STMT_CLOSE then
        Ret (sid ← decode_statement_id payload; Ok [CloseStatement sid], s, set_suppress true f)
      else if command =? COM_STMT_RESET then Ret (Ok [Ping], s, f)
      else Ret (Err (Unsupported ($"unsupported mysql command byte " ++ dec command)), s, f)
  end.

(** ** Dates and times of the binary protocol *)

Definition parse_u8 : str → option Z := parse_unsigned 255.
Definition parse_u16 : str → option Z := parse_unsigned 65535.
Definition parse_u32 : str → option Z := parse_unsigned 4294967295.

Definition parse_mysql_date (s : str) : option (Z * Z * Z) :=
  match split "-" (trim s) with
  | [y; m; d] => y ← parse_u16 y; m ← parse_u8 m; d ← parse_u8 d; Some (y, m, d)
  | _ => None
  end.

(** The digits of the fraction, filled up or cut to six. *)
Definition micro_of (b : str) : option Z :=
  let frac := filter (λ c, is_ascii_digit c = true) b in
  parse_u32 (take 6 (frac ++ replicate (6 - length frac) "0"%char)).

Definition parse_hms_micro (s : str) : option (Z * Z * Z * Z) :=
  x ← match split_once "." s with
      | Some (a, b) => us ← micro_of b; Some (a, us)
      | None => Some (s, 0)
      end;
  match split ":" x.1 with
  | [h; m; sec] => h ← parse_u8 h; m ← parse_u8 m; sec ← parse_u8 sec; Some (h, m, sec, x.2)
  | _ => None
  end.

Definition parse_mysql_datetime (s : str) : option (Z * Z * Z * (Z * Z * Z * Z)) :=
  let s := map (λ c, if Ascii.eqb c "T" then " "%char else c) (trim s) in
  x ← split_once " " s;
  d ← parse_mysql_date x.1;
  t ← parse_hms_micro x.2;
  Some (d, t).

(** Days and a time of day, or a time of day. *)
Definition parse_days_time (rest : str) : option (Z * (Z * Z * Z * Z)) :=
  x ← match split_once " " rest with
      | Some (d, t) => days ← parse_u32 d; Some (days, t)
      | None => Some (0, rest)
      end;
  t ← parse_hms_micro x.2;
  Some (x.1, t).

Definition parse_mysql_time (s : str) : option (bool * Z * (Z * Z * Z * Z)) :=
  let s := trim s in
  let '(neg, rest) := match strip_prefix s ($"-") with Some r => (true, trim r) | None => (false, s) end in
  x ← parse_days_time rest;
  Some (neg, x.1, x.2).

Definition invalid_value (kind : string) (s : str) : GatewayError :=
  Protocol ($"invalid mysql " ++ $kind ++ $" value '" ++ s ++ $"'").

Definition date_bytes (d : Z * Z * Z) : str := let '(y, m, d) := d in le_bytes 2 y ++ [byte m; byte d].

Definition encode_mysql_binary_date (s : str) : GatewayResult str :=
  match parse_mysql_date s with
  | None => Err (invalid_value "DATE" s)
  | Some d => Ok (byte 4 :: date_bytes d)
  end.

Definition encode_mysql_binary_datetime (s : str) : GatewayResult str :=
  match parse_mysql_datetime s with
  | None => Err (invalid_value "DATETIME" s)
  | Some (d, (h, mi, sec, micro)) =>
      Ok (if micro =? 0 then byte 7 :: date_bytes d ++ [byte h; byte mi; byte sec]
          else byte 11 :: date_bytes d ++ [byte h; byte mi; byte sec] ++ le_bytes 4 micro)
  end.

Definition encode_mysql_binary_time (s : str) : GatewayResult str :=
  match parse_mysql_time s with
  | None => Err (invalid_value "TIME" s)
  | Some (neg, days, (h, m, sec, micro)) =>
      let body := (if neg : bool then byte 1 else byte 0) :: le_bytes 4 days ++ [byte h; byte m; byte sec] in
      Ok (if micro =? 0 then byte 8 :: body else byte 12 :: body ++ le_bytes 4 micro)
  end.

(** ** Rows *)

Definition lenc_bytes (s : str) : str := put_lenc_int (len s) true ++ s.

Definition encode_binary_value (v : GatewayValue) (data_type : str) : GatewayResult str :=
  let dt := to_ascii_lowercase data_type in
  match v with
  | Null => Ok []
  | Boolean b => Ok [if b then byte 1 else byte 0]
  | Integer i =>
      Ok (if one_of [$"tiny"; $"int1"; $"bool"; $"boolean"] dt then le_bytes 1 i
          else if one_of [$"short"; $"int2"; $"smallint"; $"year"] dt then le_bytes 2 i
          else if one_of [$"longlong"; $"int8"; $"bigint"] dt then le_bytes 8 i
          else le_bytes 4 i)
  | UnsignedInteger u =>
      Ok (if one_of [$"tiny"; $"int1"] dt then le_bytes 1 u
          else if one_of [$"short"; $"int2"; $"smallint"] dt then le_bytes 2 u
          else if one_of [$"longlong"; $"int8"; $"bigint"] dt then le_bytes 8 u
          else le_bytes 4 u)
  | Float f => Ok (if one_of [$"double"; $"float8"] dt then le_bytes 8 f else le_bytes 4 (f64_to_f32_bits f))
  | Decimal s | VString s =>
      if str_eqb dt ($"date") then encode_mysql_binary_date s
      else if one_of [$"datetime"; $"timestamp"; $"timestamptz"] dt then encode_mysql_binary_datetime s
      else if str_eqb dt ($"time") then encode_mysql_binary_time s
      else Ok (lenc_bytes s)
  | Bytes b => Ok (lenc_bytes b)
  end.

Definition is_null (v : GatewayValue) : bool := match v with Null => true | _ => false end.

(** The bits of the [i]-th byte of the bitmap: those of the values [8 i - 2 ..]. *)
Definition bitmap_byte (row : list GatewayValue) (i : nat) : ascii :=
  byte (foldr (λ j a, a + (if (2 <=? 8 * i + j)%nat && default false (is_null <$> row !! (8 * i + j - 2)%nat) then 2 ^ Z.of_nat j else 0)) 0 (seq 0 8)).
Definition null_bitmap (row : list GatewayValue) : str := bitmap_byte row <$> seq 0 ((length row + 7 + 2) / 8).

Fixpoint binary_values (row : list GatewayValue) (columns : list Column) : GatewayResult str :=
  match row, columns with
  | v :: row, c :: columns =>
      x ← (if is_null v then Ok [] else encode_binary_value v (data_type c));
      rest ← binary_values row columns;
      Ok (x ++ rest)
  | _, _ => Ok []
  end.

Definition row_mismatch (kind : string) (row : list GatewayValue) (columns : list Column) : GatewayError :=
  Protocol ($"mysql " ++ $kind ++ $"resultset row has " ++ dec (len row) ++ $" values for " ++ dec (len columns) ++ $" columns").

Definition encode_binary_row (row : list GatewayValue) (columns : list Column) : GatewayResult str :=
  if negb (length row =? length columns)%nat then Err (row_mismatch "binary " row columns)
  else vs ← binary_values row columns; Ok (byte 0 :: null_bitmap row ++ vs).

Definition gateway_value_to_text (v : GatewayValue) : option str :=
  match v with
  | Null => None
  | Boolean b => Some (if b then $"1" else $"0")
  | Integer i => Some (dec_signed i)
  | UnsignedInteger u => Some (dec u)
  | Float f => Some (f64_to_string f)
  | Decimal s | VString s => Some s
  | Bytes b => Some b
  end.

Definition text_cell (o : option str) : str := match o with Some s => lenc_bytes s | None => [byte 251] end.

Definition encode_text_row (row : list GatewayValue) (columns : list Column) : GatewayResult str :=
  if negb (length row =? length columns)%nat then Err (row_mismatch "" row columns)
  else Ok (concat ((λ v, text_cell (gateway_value_to_text v)) <$> row)).

(** ** Result sets *)

Definition mysql_column_type (data_type : str) : ColumnType :=
  let dt := to_ascii_lowercase data_type in
  if one_of [$"tiny"; $"int1"; $"bool"; $"boolean"] dt then MYSQL_TYPE_TINY
  else if one_of [$"short"; $"int2"; $"smallint"] dt then MYSQL_TYPE_SHORT
  else if one_of [$"long"; $"int"; $"int4"; $"integer"] dt then MYSQL_TYPE_LONG
  else if one_of [$"longlong"; $"int8"; $"bigint"] dt then MYSQL_TYPE_LONGLONG
  else if one_of [$"float"; $"float4"] dt then MYSQL_TYPE_FLOAT
  else if one_of [$"double"; $"float8"] dt then MYSQL_TYPE_DOUBLE
  else if one_of [$"decimal"; $"numeric"; $"new_decimal"] dt then MYSQL_TYPE_NEWDECIMAL
  else if str_eqb dt ($"date") then MYSQL_TYPE_DATE
  else if str_eqb dt ($"time") then MYSQL_TYPE_TIME
  else if str_eqb dt ($"datetime") then MYSQL_TYPE_DATETIME
  else if one_of [$"timestamp"; $"timestamptz"] dt then MYSQL_TYPE_TIMESTAMP
  else if one_of [$"blob"; $"bytea"; $"bytes"; $"binary"; $"varbinary"] dt then MYSQL_TYPE_BLOB
  else MYSQL_TYPE_VAR_STRING.

Definition column_info (name : str) (t : ColumnType) : ColumnInfo := mkColumnInfo None None name 33 1024 t 0 0.
Definition gateway_column_to_mysql_column (c : Column) : ColumnInfo := column_info (column_name c) (mysql_column_type (data_type c)).

Definition encode_mysql_resultset_header (columns : list Column) : list str :=
  put_lenc_int (len columns) true :: ((λ c, encode_column (gateway_column_to_mysql_column c)) <$> columns) ++ [eof_payload].

Fixpoint each_row {A} (f : A → GatewayResult str) (rows : list A) : GatewayResult (list str) :=
  match rows with
  | [] => Ok []
  | r :: rows => x ← f r; rest ← each_row f rows; Ok (x :: rest)
  end.
Definition encode_mysql_resultset_rows (columns : list Column) (rows : list Row) : GatewayResult (list str) :=
  each_row (λ r, encode_text_row r columns) rows.
Definition encode_mysql_binary_resultset_rows (columns : list Column) (rows : list Row) : GatewayResult (list str) :=
  each_row (λ r, encode_binary_row r columns) rows.

Definition encode_text_resultset (columns : list Column) (rows : list Row) : GatewayResult (list str) :=
  ps ← encode_mysql_resultset_rows columns rows; Ok (encode_mysql_resultset_header columns ++ ps ++ [eof_payload]).
Definition encode_binary_resultset (columns : list Column) (rows : list Row) : GatewayResult (list str) :=
  ps ← encode_mysql_binary_resultset_rows columns rows; Ok (encode_mysql_resultset_header columns ++ ps ++ [eof_payload]).

Definition encode_mysql_prepare_ok (statement_id : str) (parameter_count result_column_count : Z) : GatewayResult str :=
  match parse_u32 statement_id with
  | None => Err (Protocol ($"mysql prepared statement_id '" ++ statement_id ++ $"' is not a u32"))
  | Some sid =>
      Ok (byte 0 :: le_bytes 4 sid ++ le_bytes 2 result_column_count ++ le_bytes 2 parameter_count ++ [byte 0] ++ le_bytes 2 0)
  end.

Definition encode_mysql_prepare_response (statement_id : str) (parameter_count : Z) (columns : list Column) : GatewayResult (list str) :=
  let n_result := len columns mod 65536 in
  ok ← encode_mysql_prepare_ok statement_id parameter_count n_result;
  Ok (ok
      :: (if 0 <? parameter_count
          then ((λ i, encode_column (column_info ($"?" ++ dec (Z.of_nat (S i))) MYSQL_TYPE_VAR_STRING)) <$> seq 0 (Z.to_nat parameter_count))
               ++ [eof_payload]
          else [])
      ++ (if 0 <? n_result
          then ((λ c, encode_column (gateway_column_to_mysql_column c)) <$> columns) ++ [eof_payload]
          else [])).

Definition ok_response_payload (affected_rows : Z) (last_insert_id : option Z) (s : SessionState) : str :=
  [byte 0] ++ put_lenc_int affected_rows true ++ put_lenc_int (default 0 last_insert_id) true
  ++ le_bytes 2 (Z.lor 2 (if bool_decide (transaction_state s = Idle) then 0 else 1)) ++ le_bytes 2 0.

(** ** [encode] *)

Definition my_encode (r : GatewayResponse) (s : SessionState) (f : MyFrontend) : GatewayResult (list str) * MyFrontend :=
  if suppress_next_response f then (Ok [], set_suppress false f)
  else
    (match r with
     | ROk affected last => Ok [ok_response_payload affected last s]
     | CommandComplete _ | Pong => Ok [ok_response_payload 0 None s]
     | Bye => Ok [ok_payload]
     | RError code message => Ok [err_payload (mkMySQLError (default 1105 (parse_u16 code)) ($"HY000") message)]
     | ResultSet columns rows | TaggedResultSet columns rows _ =>
         if prefer_binary_result s then encode_binary_resultset columns rows else encode_text_resultset columns rows
     | Wire packets => Ok packets
     | Prepared sid n columns => encode_mysql_prepare_response sid n columns
     | RowDescription _ => Ok []
     end, f).

Definition my_header (columns : list Column) (s : SessionState) (f : MyFrontend) : GatewayResult (list str) * MyFrontend :=
  (Ok (encode_mysql_resultset_header columns), f).
Definition my_rows (columns : list Column) (rows : list Row) (s : SessionState) (f : MyFrontend) : GatewayResult (list str) * MyFrontend :=
  (if prefer_binary_result s then encode_mysql_binary_resultset_rows columns rows else encode_mysql_resultset_rows columns rows, f).
Definition my_footer (columns : list Column) (total : Z) (s : SessionState) (truncated : bool) (f : MyFrontend)
    : GatewayResult (list str) * MyFrontend := (Ok [eof_payload], f).

#[export] Instance my_frontend : FrontendProtocolAdapter MyFrontend := {
  fe_protocol _ := MySql;
  fe_decode := my_decode;
  fe_encode := my_encode;
  fe_header := my_header;
  fe_rows := my_rows;
  fe_footer := my_footer
}.
End Values.
End MyFrontend.
