(* ===== verification/MyFrontendTheorems.v ===== *)
(** * Properties of the MySQL frontend

    What a client reads back: cells of text rows, values of binary rows, dates and
    times; and the parameters the frontend reads from a client. *)

From S2P Require Import Prelude RustStr Model Session Obligations Transport PgProtocol PgText MyProtocol MyProtocolTheorems MyFrontend.
Import MyProtocol MyProtocolTheorems MyFrontend.

Module MyFrontendTheorems.

Lemma eo_step {A B} (m : eo A) (k : A → eo B) a : m = Ret (Some a) → (m ≫= k) = k a.
Proof. by intros ->. Qed.

Lemma bind_Ok {E A B} (m : result E A) (k : A → result E B) b : m ≫= k = Ok b → ∃ a, m = Ok a ∧ k a = Ok b.
Proof. destruct m as [a|]; [by exists a|done]. Qed.

(** ** Length-encoded bytes *)

Lemma lenc_slice_app h n s r : n = len s → len h + n < 2 ^ 64 → lenc_slice (h ++ s ++ r) n (len h) = Ret (Some (s, len h + n)).
Proof.
  intros -> Hl. unfold lenc_slice. rewrite (proj2 (Z.leb_gt _ _)) by lia. rewrite !length_app, (proj2 (Z.ltb_ge _ _)) by lia.
  by rewrite !Nat2Z.id, drop_app_length, take_app_length.
Qed.

(** What [lenc_bytes] wrote is read, and only that. *)
Lemma read_lenc_app s r : len s < 2 ^ 63 → read_lenc_bytes (lenc_bytes s ++ r) = Ret (Some (s, len (lenc_bytes s))).
Proof.
  intros Hl. unfold lenc_bytes. rewrite length_app, Nat2Z.inj_add, put_lenc_length, <-app_assoc by lia. unfold put_lenc_int, lenc_size.
  assert (∀ h, lenc_size (len s) = len h → read_lenc_bytes (h ++ s ++ r) = lenc_slice (h ++ s ++ r) (len s) (len h) →
    read_lenc_bytes (h ++ s ++ r) = Ret (Some (s, len h + len s))) as Hgo.
  { intros h Eh ->. apply lenc_slice_app; [done|]. rewrite <-Eh. unfold lenc_size. repeat case_match; lia. }
  destruct (Z.eqb_spec (len s) 0) as [E0|Hz].
  { assert (s = []) as -> by (apply nil_length_inv; lia). by apply (Hgo [byte 0]). }
  destruct (Z.leb_spec (len s) 250).
  { apply (Hgo [byte (len s)]); [unfold lenc_size; cbn; case_match; lia|]. unfold read_lenc_bytes. cbn [app].
    rewrite byte_val_small by lia. rewrite !(proj2 (Z.eqb_neq (len s) _)) by lia. done. }
  assert (∀ k : nat, 0 ≤ len s < 256 ^ Z.of_nat k → le_val (take k (le_bytes k (len s) ++ s ++ r)) = len s) as Hle.
  { intros k Hk. rewrite take_app_length' by (by rewrite le_bytes_length). by apply le_val_bytes_small. }
  destruct (Z.leb_spec (len s) 65535).
  { apply (Hgo (byte 252 :: le_bytes 2 (len s))); [unfold lenc_size; cbn; repeat case_match; lia|]. unfold read_lenc_bytes. cbn [app].
    rewrite byte_val_small by done. cbn [Z.eqb Pos.eqb]. rewrite Hle by (cbn; lia).
    rewrite (proj2 (Nat.ltb_ge _ 3)); [done|]. cbn [length]. rewrite length_app, le_bytes_length. lia. }
  destruct (Z.leb_spec (len s) 16777215).
  { apply (Hgo (byte 253 :: le_bytes 3 (len s))); [unfold lenc_size; cbn; repeat case_match; lia|]. unfold read_lenc_bytes. cbn [app].
    rewrite byte_val_small by done. cbn [Z.eqb Pos.eqb]. rewrite Hle by (cbn; lia).
    rewrite (proj2 (Nat.ltb_ge _ 4)); [done|]. cbn [length]. rewrite length_app, le_bytes_length. lia. }
  apply (Hgo (byte 254 :: le_bytes 8 (len s))); [unfold lenc_size; cbn; repeat case_match; lia|]. unfold read_lenc_bytes. cbn [app].
  rewrite byte_val_small by done. cbn [Z.eqb Pos.eqb]. rewrite Hle by (cbn; lia).
  rewrite (proj2 (Nat.ltb_ge _ 9)); [done|]. cbn [length]. rewrite length_app, le_bytes_length. lia.
Qed.

(** ** Text rows *)

(** How a client reads [n] cells: [None] is a null. *)
Fixpoint client_text_row (n : nat) (b : str) : option (list (option str)) :=
  match n with
  | O => if is_empty b then Some [] else None
  | S n =>
      match b with
      | [] => None
      | c :: rest =>
          if byte_val c =? 251 then (None ::.) <$> client_text_row n rest
          else match read_lenc_bytes b with
               | Ret (Some (s, k)) => (Some s ::.) <$> client_text_row n (drop (Z.to_nat k) b)
               | _ => None
               end
      end
  end.

Lemma client_cell_some n s r : len s < 2 ^ 63 → client_text_row (S n) (lenc_bytes s ++ r) = (Some s ::.) <$> client_text_row n r.
Proof.
  intros Hl. cbn [client_text_row]. destruct (lenc_bytes s ++ r) as [|c rest] eqn:E.
  { exfalso. apply (f_equal length) in E. unfold lenc_bytes in E. rewrite !length_app in E.
    pose proof (put_lenc_length (len s) true ltac:(lia)) as Hp. unfold lenc_size in Hp. cbn in E. repeat case_match; lia. }
  assert (byte_val c ≠ 251) as Hc.
  { unfold lenc_bytes, put_lenc_int in E. destruct (Z.eqb_spec (len s) 0); [injection E as <- _; by rewrite byte_val_small|].
    destruct (Z.leb_spec (len s) 250); [injection E as <- _; rewrite byte_val_small by lia; lia|].
    repeat case_match; injection E as <- _; by rewrite byte_val_small. }
  rewrite (proj2 (Z.eqb_neq _ _)) by done. rewrite <-E, read_lenc_app by done. by rewrite Nat2Z.id, drop_app_length.
Qed.

(** ** Dates and times *)

Lemma digits_zeros k s : digits_val 0 (replicate k "0"%char ++ s) = digits_val 0 s.
Proof. induction k as [|k IH]; [done|]. cbn [replicate app digits_val]. done. Qed.

Lemma pad_digits k n : 0 ≤ n → forallb is_ascii_digit (zero_pad k n) = true.
Proof.
  intros Hn. unfold zero_pad. rewrite forallb_app, dec_digits, andb_true_r by done. induction (k - length (dec n))%nat; [done|]. by cbn.
Qed.

Lemma pad_nonempty k n : zero_pad k n ≠ [].
Proof. unfold zero_pad. intros [_ ?]%app_eq_nil. by apply (dec_nonempty n). Qed.

Lemma digit_not_plus c : is_ascii_digit c = true → Ascii.eqb c "+" = false.
Proof. intros Hc. destruct (Ascii.eqb_spec c "+") as [->|]; [discriminate Hc|done]. Qed.

Lemma parse_pad max k n : 0 ≤ n ≤ max → parse_unsigned max (zero_pad k n) = Some n.
Proof.
  intros Hn. pose proof (pad_digits k n ltac:(lia)) as Hd. pose proof (pad_nonempty k n). unfold parse_unsigned.
  destruct (zero_pad k n) as [|c s] eqn:E; [done|]. cbn [forallb] in Hd. apply andb_true_iff in Hd as [Hc _]. rewrite digit_not_plus by done.
  cbn [is_empty]. rewrite <-E. unfold zero_pad. rewrite digits_zeros, digits_val_dec by lia. by rewrite (proj2 (Z.leb_le _ _)) by lia.
Qed.

Lemma dec_aux_length fuel : ∀ n acc (k : nat), n < 10 ^ Z.of_nat (S k) → (length (dec_aux fuel n acc) ≤ S k + length acc)%nat.
Proof.
  induction fuel as [|fuel IH]; intros n acc k Hn; cbn [dec_aux]; [lia|]. destruct (Z.ltb_spec n 10); [cbn; lia|].
  destruct k as [|k]; [cbn in Hn; lia|]. specialize (IH (n / 10) (digit_char (n mod 10) :: acc) k). cbn [length] in IH.
  rewrite Nat2Z.inj_succ, Z.pow_succ_r in Hn by lia. assert (n / 10 < 10 ^ Z.of_nat (S k)) by (apply Z.div_lt_upper_bound; lia). lia.
Qed.

Lemma pad_length (k : nat) n : n < 10 ^ Z.of_nat (S k) → length (zero_pad (S k) n) = S k.
Proof.
  intros Hn. unfold zero_pad. rewrite length_app, length_replicate.
  pose proof (dec_aux_length (S (Z.to_nat (Z.log2 n))) n [] k Hn) as Hl. unfold dec in *. cbn [length] in Hl. lia.
Qed.

Lemma digits_notin c s : is_ascii_digit c = false → forallb is_ascii_digit s = true → c ∉ s.
Proof. intros Hc Hs Hin. rewrite forallb_forall in Hs. apply list_elem_of_In, Hs in Hin. congruence. Qed.

(** The characters of dates and times. *)
Definition plain (c : ascii) : bool := is_ascii_digit c || existsb (Ascii.eqb c) ["-"; ":"; "."]%char.

Lemma digits_plain s : forallb is_ascii_digit s = true → forallb plain s = true.
Proof. rewrite !forallb_forall. intros Hs c Hc. unfold plain. by rewrite Hs. Qed.
Lemma plain_solid s : forallb plain s = true → forallb solid s = true.
Proof.
  rewrite !forallb_forall. intros Hs c Hc. specialize (Hs c Hc). unfold plain in Hs. apply orb_true_iff in Hs as [Hd|Hs]; [by apply digit_solid|].
  apply existsb_exists in Hs as (d & Hd & ->%Ascii.eqb_eq). by destruct Hd as [<-|[<-|[<-|[]]]].
Qed.
Lemma plain_notin c s : plain c = false → forallb plain s = true → c ∉ s.
Proof. intros Hc Hs Hin. rewrite forallb_forall in Hs. apply list_elem_of_In, Hs in Hin. congruence. Qed.

Lemma split_once_at c a b : c ∉ a → split_once c (a ++ c :: b) = Some (a, b).
Proof.
  intros Hc. unfold split_once. assert (position (Ascii.eqb c) (a ++ c :: b) = Some (length a)) as ->.
  { induction a as [|x a IH]; cbn [app position]; [by rewrite Ascii.eqb_refl|]. apply not_elem_of_cons in Hc as [Hx Hc].
    rewrite (proj2 (Ascii.eqb_neq c x)) by done. by rewrite IH. }
  cbn [fmap option_fmap option_map]. rewrite take_app_length. f_equal. f_equal. change (c :: b) with ([c] ++ b). rewrite app_assoc. apply drop_app_length'. by rewrite length_app, Nat.add_1_r.
Qed.

Lemma split_once_none c a : c ∉ a → split_once c a = None.
Proof.
  intros Hc. unfold split_once. induction a as [|x a IH]; [done|]. cbn [position]. apply not_elem_of_cons in Hc as [Hx Hc].
  rewrite (proj2 (Ascii.eqb_neq c x)) by done. specialize (IH Hc). by destruct (position _ a).
Qed.

(** Text between two solid parts is not trimmed. *)
Lemma trim_between a m b : a ≠ [] → b ≠ [] → forallb solid a = true → forallb solid b = true → trim (a ++ m ++ b) = a ++ m ++ b.
Proof.
  intros Ha Hb Hsa Hsb. destruct a as [|c a]; [done|]. destruct (exists_last Hb) as (b' & d & ->).
  rewrite forallb_app in Hsb. cbn in Hsa, Hsb. rewrite andb_true_iff in Hsa. rewrite !andb_true_iff in Hsb.
  replace ((c :: a) ++ m ++ b' ++ [d]) with (c :: (a ++ m ++ b') ++ [d]) by (cbn; by rewrite <-!app_assoc). apply trim_solid; tauto.
Qed.

(** The three numbers of a date or a time of day, as text. *)
Lemma split_three c k x y z :
  is_ascii_digit c = false → 0 ≤ x → 0 ≤ y → 0 ≤ z →
  split c (zero_pad k x ++ [c] ++ zero_pad 2 y ++ [c] ++ zero_pad 2 z) = [zero_pad k x; zero_pad 2 y; zero_pad 2 z].
Proof.
  intros Hc Hx Hy Hz. cbn [app]. rewrite !split_app by (apply digits_notin; [done|]; by apply pad_digits). do 2 f_equal.
  apply split_none, digits_notin; [done|]. by apply pad_digits.
Qed.

Lemma three_plain c k x y z :
  plain c = true → 0 ≤ x → 0 ≤ y → 0 ≤ z → forallb plain (zero_pad k x ++ [c] ++ zero_pad 2 y ++ [c] ++ zero_pad 2 z) = true.
Proof. intros Hc Hx Hy Hz. by rewrite !forallb_app, !(digits_plain (zero_pad _ _)), (andb_true_intro (conj Hc eq_refl) : forallb plain [c] = true) by (by apply pad_digits). Qed.

Lemma date_parses y m d :
  0 ≤ y ≤ 65535 → 0 ≤ m ≤ 255 → 0 ≤ d ≤ 255 →
  parse_mysql_date (zero_pad 4 y ++ $"-" ++ zero_pad 2 m ++ $"-" ++ zero_pad 2 d) = Some (y, m, d).
Proof.
  intros Hy Hm Hd. unfold parse_mysql_date. rewrite trim_all_solid by (apply plain_solid, three_plain; [done|lia..]).
  rewrite split_three by (done || lia). unfold parse_u16, parse_u8. by rewrite !parse_pad by lia.
Qed.

(** The fraction of a second is written only when there is one. *)
Definition fraction (us : Z) : str := if us =? 0 then [] else $"." ++ zero_pad 6 us.

Lemma filter_digits s : forallb is_ascii_digit s = true → filter (λ c, is_ascii_digit c = true) s = s.
Proof.
  induction s as [|c s IH]; [done|]. cbn [forallb]. intros [Hc Hs]%andb_true_iff. rewrite filter_cons_True by done. by rewrite IH.
Qed.

Lemma micro_parses us : 0 ≤ us < 10 ^ 6 → micro_of (zero_pad 6 us) = Some us.
Proof.
  intros Hu. unfold micro_of. rewrite filter_digits by (apply pad_digits; lia). rewrite (pad_length 5 us) by (cbn; lia).
  rewrite Nat.sub_diag, app_nil_r, take_ge by (rewrite (pad_length 5 us); [lia|cbn; lia]). apply parse_pad. lia.
Qed.

Lemma hms_parses h m s us :
  0 ≤ h ≤ 255 → 0 ≤ m ≤ 255 → 0 ≤ s ≤ 255 → 0 ≤ us < 10 ^ 6 →
  parse_hms_micro ((zero_pad 2 h ++ $":" ++ zero_pad 2 m ++ $":" ++ zero_pad 2 s) ++ fraction us) = Some (h, m, s, us).
Proof.
  intros Hh Hm Hs Hu. unfold parse_hms_micro. set (t := zero_pad 2 h ++ _).
  assert ("."%char ∉ t) as Hdot.
  { subst t. rewrite !not_elem_of_app. repeat split; first [apply digits_notin; [done|apply pad_digits; lia]|by intros Hin%list_elem_of_singleton]. }
  assert (match split ":" t with
    | [h; m; sec] => h ← parse_u8 h; m ← parse_u8 m; sec ← parse_u8 sec; Some (h, m, sec, us)
    | _ => None end = Some (h, m, s, us)) as Ht.
  { subst t. rewrite split_three by (done || lia). unfold parse_u8. by rewrite !parse_pad by lia. }
  unfold fraction. destruct (Z.eqb_spec us 0) as [->|Hz].
  - rewrite app_nil_r, split_once_none by done. exact Ht.
  - change ($"." ++ zero_pad 6 us) with ("."%char :: zero_pad 6 us). rewrite (split_once_at _ t) by done. rewrite micro_parses by done. exact Ht.
Qed.

Lemma le_bytes_val l : le_bytes (length l) (le_val l) = l.
Proof.
  induction l as [|c l IH]; [done|]. cbn [length le_bytes le_val].
  pose proof (byte_val_range c). rewrite (Z.mul_comm 256), Z.div_add, Z.div_small, Z.add_0_l, IH by lia. f_equal.
  rewrite <-(byte_byte_val c) at 2. unfold byte. by rewrite Z.mod_add by lia.
Qed.

(** The payloads a client binds a date, a date with a time, or a time with: those
    in the shortest form and with less than a second of microseconds. *)
Definition date_payload (p : str) : Prop := length p = 4%nat.
Definition datetime_payload (p : str) : Prop := length p = 7%nat ∨ length p = 11%nat ∧ 0 < le_val (drop 7 p) < 10 ^ 6.
Definition time_payload (p : str) : Prop :=
  le_val (take 1 p) ≤ 1 ∧ (length p = 8%nat ∨ length p = 12%nat ∧ 0 < le_val (drop 8 p) < 10 ^ 6).

Lemma le_val_one c : 0 ≤ le_val [c] ≤ 255 ∧ byte (le_val [c]) = c.
Proof. pose proof (byte_val_range c). cbn [le_val]. rewrite Z.mul_0_r, Z.add_0_r. split; [lia|apply byte_byte_val]. Qed.
Lemma le_val_two c d : 0 ≤ le_val [c; d] ≤ 65535.
Proof. pose proof (byte_val_range c). pose proof (byte_val_range d). cbn [le_val]. lia. Qed.

Lemma date_text_parses p :
  (4 ≤ length p)%nat → ∃ d, parse_mysql_date (date_text p) = Some d ∧ date_bytes d = take 4 p ∧ forallb plain (date_text p) = true.
Proof.
  intros Hl. destruct p as [|a [|b [|m [|d p]]]]; cbn [length] in Hl; [lia..|]. exists (le_val [a; b], le_val [m], le_val [d]).
  pose proof (le_val_two a b) as Ha. destruct (le_val_one m) as [Hm Em], (le_val_one d) as [Hd Ed].
  split; [exact (date_parses _ _ _ Ha Hm Hd)|]. split; [|exact (three_plain "-" 4 _ _ _ eq_refl (proj1 Ha) (proj1 Hm) (proj1 Hd))].
  unfold date_bytes. rewrite Em, Ed. pose proof (le_bytes_val [a; b]) as E1. cbn [length] in E1. by rewrite E1.
Qed.

Lemma hms_text_parses p us :
  (3 ≤ length p)%nat → 0 ≤ us < 10 ^ 6 →
  ∃ h m s, parse_hms_micro (hms_text p ++ fraction us) = Some (h, m, s, us) ∧ [byte h; byte m; byte s] = take 3 p
    ∧ forallb plain (hms_text p ++ fraction us) = true ∧ hms_text p ≠ [].
Proof.
  intros Hl Hu. destruct p as [|h [|m [|s p]]]; cbn [length] in Hl; [lia..|]. exists (le_val [h]), (le_val [m]), (le_val [s]).
  destruct (le_val_one h) as [Hh Eh], (le_val_one m) as [Hm Em], (le_val_one s) as [Hs Es].
  split; [exact (hms_parses _ _ _ _ Hh Hm Hs Hu)|]. split; [by rewrite Eh, Em, Es|]. split.
  - rewrite forallb_app, andb_true_iff. split; [exact (three_plain ":" 2 _ _ _ eq_refl (proj1 Hh) (proj1 Hm) (proj1 Hs))|].
    unfold fraction. case_match; [done|]. rewrite forallb_app, (digits_plain (zero_pad 6 us)) by (apply pad_digits; lia). done.
  - unfold hms_text. intros [He _]%app_eq_nil. by apply pad_nonempty in He.
Qed.

Lemma date_roundtrip p t : date_payload p → decode_mysql_binary_date_text p = Some t → encode_mysql_binary_date t = Ok (byte (len p) :: p).
Proof.
  unfold date_payload. intros Hp. unfold decode_mysql_binary_date_text. rewrite Hp. destruct p as [|c p']; [done|].
  set (p := c :: p') in *. cbn [is_empty p]. intros [= <-]. destruct (date_text_parses p ltac:(lia)) as (d & E & Ed & _).
  unfold encode_mysql_binary_date. rewrite E, Ed, take_ge by lia. done.
Qed.

Lemma nonempty_le (p : str) k : (S k ≤ length p)%nat → is_empty p = false.
Proof. destruct p; [cbn; lia|done]. Qed.

Lemma map_no_T s : "T"%char ∉ s → map (λ c, if Ascii.eqb c "T" then " "%char else c) s = s.
Proof.
  induction s as [|c s IH]; [done|]. intros [Hc Hs]%not_elem_of_cons. cbn [map]. by rewrite IH, (proj2 (Ascii.eqb_neq c "T")) by done.
Qed.

Lemma datetime_text_parses p us :
  (7 ≤ length p)%nat → 0 ≤ us < 10 ^ 6 →
  ∃ d h m s, parse_mysql_datetime (date_text p ++ $" " ++ hms_text (drop 4 p) ++ fraction us) = Some (d, (h, m, s, us))
    ∧ date_bytes d ++ [byte h; byte m; byte s] = take 7 p.
Proof.
  intros Hl Hu. destruct (date_text_parses p ltac:(lia)) as (d & Ed & Hd & Pd).
  destruct (hms_text_parses (drop 4 p) us ltac:(rewrite length_drop; lia) Hu) as (h & m & s & Et & Ht & Pt & Nt).
  exists d, h, m, s. split; [|rewrite Hd, Ht; apply (take_take_drop p 4 3)]. unfold parse_mysql_datetime.
  assert (date_text p ≠ []) as Nd by (unfold date_text; intros [He _]%app_eq_nil; by apply pad_nonempty in He).
  rewrite trim_between; [|done|by intros [? _]%app_eq_nil|by apply plain_solid..]. rewrite map_no_T.
  - change ($" " ++ ?x) with (" "%char :: x). rewrite (split_once_at " " (date_text p)) by (by apply plain_notin). cbn [mbind option_bind fst snd]. by rewrite Ed, Et.
  - rewrite !not_elem_of_app. split; [by apply plain_notin|]. split; [by intros Hin%list_elem_of_singleton|].
    rewrite <-not_elem_of_app. by apply plain_notin.
Qed.

Lemma datetime_roundtrip p t :
  datetime_payload p → decode_mysql_binary_datetime_text p = Some t → encode_mysql_binary_datetime t = Ok (byte (len p) :: p).
Proof.
  intros Hp Ht. assert (∃ us, t = date_text p ++ $" " ++ hms_text (drop 4 p) ++ fraction us ∧ 0 ≤ us < 10 ^ 6
    ∧ ((us = 0 ∧ length p = 7%nat) ∨ (0 < us ∧ length p = 11%nat ∧ us = le_val (drop 7 p)))) as (us & -> & Hu & Hc).
  { unfold decode_mysql_binary_datetime_text in Ht. destruct Hp as [E|[E Hus]]; rewrite E, (nonempty_le p 6) in Ht by lia; injection Ht as <-.
    - exists 0. unfold fraction. cbn [Z.eqb]. rewrite app_nil_r. eauto with lia.
    - exists (le_val (drop 7 p)). unfold fraction. rewrite (proj2 (Z.eqb_neq _ 0)) by lia. unfold micro_text.
      rewrite (take_ge (drop 7 _)) by (rewrite length_drop; lia). split; [done|]. split; [lia|]. right. split; [lia|done]. }
  destruct (datetime_text_parses p us ltac:(lia) Hu) as (d & h & m & s & E & Ep). unfold encode_mysql_binary_datetime. rewrite E.
  destruct Hc as [[-> El]|(Hz & El & Eu)].
  - cbn [Z.eqb]. rewrite Ep, take_ge, El by lia. done.
  - rewrite (proj2 (Z.eqb_neq us 0)) by lia. rewrite app_assoc, Ep, Eu.
    assert (le_bytes 4 (le_val (drop 7 p)) = drop 7 p) as ->. { rewrite <-(le_bytes_val (drop 7 p)) at 2. by rewrite length_drop, El. }
    by rewrite take_drop, El.
Qed.

(** The text of a time: sign, days and the time of day. *)
Definition days_text (days : Z) (hms : str) : str := (if 0 <? days then dec days ++ $" " else []) ++ hms.
Definition sign (neg : bool) : str := if neg then $"-" else [].

Lemma days_parse days hms t :
  0 ≤ days < 2 ^ 32 → forallb plain hms = true → parse_hms_micro hms = Some t → parse_days_time (days_text days hms) = Some (days, t).
Proof.
  intros Hd Pt Et. unfold parse_days_time, days_text. destruct (Z.ltb_spec 0 days).
  - pose proof (digits_plain _ (dec_digits days ltac:(lia))). rewrite <-app_assoc. change ($" " ++ ?x) with (" "%char :: x).
    rewrite split_once_at by (by apply plain_notin). unfold parse_u32. rewrite parse_dec by lia. cbn [mbind option_bind fst snd]. by rewrite Et.
  - rewrite app_nil_l, split_once_none by (by apply plain_notin). cbn [mbind option_bind fst snd]. rewrite Et. cbn. do 2 f_equal. lia.
Qed.

(** It starts with a digit, and is not trimmed. *)
Lemma days_text_shape days hms :
  0 ≤ days → forallb plain hms = true → from_option is_ascii_digit false (head hms) = true →
  from_option is_ascii_digit false (head (days_text days hms)) = true ∧ ∀ neg, trim (sign neg ++ days_text days hms) = sign neg ++ days_text days hms.
Proof.
  intros Hd Pt Hh. assert (hms ≠ []) by (by intros ->). unfold days_text. destruct (0 <? days).
  - pose proof (dec_digits days Hd) as Hdig. pose proof (dec_nonempty days) as Nd. split.
    + destruct (dec days) as [|c w]; [done|]. by apply andb_true_iff in Hdig as [Hc _].
    + intros neg. replace (sign neg ++ (dec days ++ $" ") ++ hms) with ((sign neg ++ dec days) ++ $" " ++ hms) by (by rewrite <-!app_assoc).
      apply trim_between; [by intros [_ ?]%app_eq_nil|done| |by apply plain_solid]. rewrite forallb_app, (plain_solid (dec days)) by (by apply digits_plain).
      by destruct neg.
  - split; [done|]. intros neg. apply trim_all_solid. rewrite app_nil_l, forallb_app, (plain_solid hms) by done. by destruct neg.
Qed.

Lemma time_text_parses neg days p us :
  0 ≤ days < 2 ^ 32 → (3 ≤ length p)%nat → 0 ≤ us < 10 ^ 6 →
  ∃ h m s, parse_mysql_time (sign neg ++ days_text days (hms_text p ++ fraction us)) = Some (neg, days, (h, m, s, us))
    ∧ [byte h; byte m; byte s] = take 3 p.
Proof.
  intros Hd Hl Hu. destruct (hms_text_parses p us Hl Hu) as (h & m & s & Et & Ht & Pt & Nt). exists h, m, s. split; [|done].
  assert (from_option is_ascii_digit false (head (hms_text p ++ fraction us)) = true) as Hh.
  { pose proof (pad_digits 2 (le_val (take 1 p)) ltac:(apply le_val_range)) as Hdig. pose proof (pad_nonempty 2 (le_val (take 1 p))).
    unfold hms_text. destruct (zero_pad 2 (le_val (take 1 p))) as [|c w]; [done|]. by apply andb_true_iff in Hdig as [Hc _]. }
  destruct (days_text_shape days _ ltac:(lia) Pt Hh) as [Hc Htr]. unfold parse_mysql_time. rewrite Htr.
  pose proof (days_parse days _ _ Hd Pt Et) as Ep. set (r := days_text _ _) in *. destruct neg; cbn [sign app].
  - change (strip_prefix _ _) with (Some r). cbv beta iota. pose proof (Htr false : trim r = r) as ->. by rewrite Ep.
  - assert (strip_prefix r ($"-") = None) as ->; [|by rewrite Ep]. destruct r as [|c r']; [done|]. cbn [head from_option] in Hc.
    unfold strip_prefix. change (starts_with _ _) with (Ascii.eqb c "-" && true). by destruct (Ascii.eqb_spec c "-") as [->|].
Qed.

Lemma time_roundtrip p t : time_payload p → decode_mysql_binary_time_text p = Some t → encode_mysql_binary_time t = Ok (byte (len p) :: p).
Proof.
  intros [Hs Hp] Ht. assert (∃ us, t = sign (negb (le_val (take 1 p) =? 0)) ++ days_text (le_val (take 4 (drop 1 p))) (hms_text (drop 5 p) ++ fraction us)
    ∧ 0 ≤ us < 10 ^ 6 ∧ ((us = 0 ∧ length p = 8%nat) ∨ (0 < us ∧ length p = 12%nat ∧ us = le_val (drop 8 p)))) as (us & -> & Hu & Hc).
  { unfold decode_mysql_binary_time_text in Ht. unfold days_text, sign. rewrite if_negb.
    destruct Hp as [E|[E Hus]]; rewrite E, (nonempty_le p 7) in Ht by lia; injection Ht as <-.
    - exists 0. unfold fraction. cbn [Z.eqb]. rewrite app_nil_r. eauto with lia.
    - exists (le_val (drop 8 p)). unfold fraction. rewrite (take_ge (drop 8 _)) by (rewrite length_drop; lia).
      split; [done|]. split; [lia|]. right. split; [lia|done]. }
  pose proof (le_val_range (take 4 (drop 1 p))) as Hd. rewrite length_take, length_drop in Hd.
  destruct (time_text_parses (negb (le_val (take 1 p) =? 0)) (le_val (take 4 (drop 1 p))) (drop 5 p) us) as (h & m & s & E & Ep).
  { replace (4 `min` (length p - 1))%nat with 4%nat in Hd by lia. exact Hd. }
  { rewrite length_drop. lia. }
  { done. }
  unfold encode_mysql_binary_time. rewrite E.
  assert ((if negb (le_val (take 1 p) =? 0) then byte 1 else byte 0) :: le_bytes 4 (le_val (take 4 (drop 1 p))) ++ [byte h; byte m; byte s] = take 8 p) as ->.
  { rewrite Ep. replace (le_bytes 4 (le_val (take 4 (drop 1 p)))) with (take 4 (drop 1 p)).
    2: { rewrite <-(le_bytes_val (take 4 (drop 1 p))) at 1. f_equal. rewrite length_take, length_drop. lia. }
    destruct p as [|c p']; [cbn in Hc; lia|].
    change (drop 1 (c :: p')) with p'. change (drop 5 (c :: p')) with (drop 4 p'). change (take 8 (c :: p')) with (c :: take 7 p').
    change (take 1 (c :: p')) with [c] in *. rewrite (take_take_drop p' 4 3 : _ = take 7 p'). f_equal.
    destruct (le_val_one c) as [Hr Ec]. cbn [take] in Hs. rewrite <-Ec at 2. destruct (Z.eqb_spec (le_val [c]) 0) as [->|]; cbn [negb]; [done|]. f_equal. lia. }
  destruct Hc as [[-> El]|(Hz & El & Eu)].
  - cbn [Z.eqb]. rewrite take_ge, El by lia. done.
  - rewrite (proj2 (Z.eqb_neq us 0)) by lia. rewrite Eu.
    assert (le_bytes 4 (le_val (drop 8 p)) = drop 8 p) as ->. { rewrite <-(le_bytes_val (drop 8 p)) at 2. by rewrite length_drop, El. }
    by rewrite take_drop, El.
Qed.

Section Values.
Context (f32_to_f64_bits f64_to_f32_bits : Z → Z) (f64_to_string : Z → str).

Abbreviation cell_text := (gateway_value_to_text f64_to_string).

(** A text row is read back cell by cell: the nulls are the nulls, and every other
    cell is the text of its value, whatever bytes it has. *)
Theorem mysql_text_row_reads_back row columns p :
  Forall (λ v, from_option (λ s, len s) 0 (cell_text v) < 2 ^ 63) row → encode_text_row f64_to_string row columns = Ok p →
  length row = length columns ∧ client_text_row (length columns) p = Some (cell_text <$> row).
Proof.
  intros Hf. unfold encode_text_row. destruct (Nat.eqb_spec (length row) (length columns)) as [El|]; [|done]. cbn [negb].
  intros [= <-]. split; [done|]. rewrite <-El. clear El. induction Hf as [|v row Hv _ IH]; [done|].
  rewrite fmap_cons. cbn [concat length]. destruct (cell_text v) as [s|] eqn:Ev; cbn [text_cell].
  - rewrite client_cell_some by done. rewrite IH. cbn. by rewrite Ev.
  - cbn [client_text_row app]. rewrite byte_val_small by done. rewrite Z.eqb_refl, IH. cbn. by rewrite Ev.
Qed.

(** The types of dates and times with their names in result sets. *)
Inductive temporal : ColumnType → str → str → Prop :=
  | temporal_date p : date_payload p → temporal MYSQL_TYPE_DATE ($"date") p
  | temporal_datetime p : datetime_payload p → temporal MYSQL_TYPE_DATETIME ($"datetime") p
  | temporal_timestamp p : datetime_payload p → temporal MYSQL_TYPE_TIMESTAMP ($"timestamp") p
  | temporal_time p : time_payload p → temporal MYSQL_TYPE_TIME ($"time") p.

Lemma prefixed_app p rest f t : len p < 256 → f p = Some t → prefixed (byte (len p) :: p ++ rest) f = Ret (Some (VString t, 1 + len p)).
Proof.
  intros Hl Hf. unfold prefixed. rewrite byte_val_small, length_app, (proj2 (Z.ltb_ge _ _)), Nat2Z.id, take_app_length by lia. by rewrite Hf.
Qed.

(** A date or a time that a client binds is read as a text, and the text as a value
    of a binary row is the client's bytes again. *)
Theorem mysql_temporal_roundtrip ty name p rest :
  temporal ty name p →
  ∃ t, decode_binary_param_value f32_to_f64_bits (byte (len p) :: p ++ rest) (type_byte ty) = Ret (Some (VString t, 1 + len p))
     ∧ encode_binary_value f64_to_f32_bits (VString t) name = Ok (byte (len p) :: p).
Proof.
  intros Ht. assert (is_Some (match ty with
    | MYSQL_TYPE_DATE => decode_mysql_binary_date_text p
    | MYSQL_TYPE_TIME => decode_mysql_binary_time_text p
    | _ => decode_mysql_binary_datetime_text p end)) as [t Et].
  { destruct Ht as [p Hp|p Hp|p Hp|p [_ Hp]]; [| | |];
      unfold decode_mysql_binary_date_text, decode_mysql_binary_datetime_text, decode_mysql_binary_time_text;
      [rewrite Hp|destruct Hp as [Hp|[Hp _]]; rewrite Hp..]; by case_match. }
  exists t. split.
  - destruct Ht as [p Hp|p Hp|p Hp|p [_ Hp]]; apply (prefixed_app p rest _ t); [|done| |done| |done| |done]; try (destruct Hp as [Hp|[Hp _]]); unfold date_payload in *; lia.
  - destruct Ht as [p Hp|p Hp|p Hp|p Hp].
    + exact (date_roundtrip _ _ Hp Et).
    + exact (datetime_roundtrip _ _ Hp Et).
    + exact (datetime_roundtrip _ _ Hp Et).
    + exact (time_roundtrip _ _ Hp Et).
Qed.
(** ** Bound parameters *)

(** The numbers: how many bytes they have, and the value of the bytes. *)
Definition number (ty : ColumnType) (v : Z) : option (nat * GatewayValue) :=
  match ty with
  | MYSQL_TYPE_TINY => Some (1%nat, Integer (to_signed 8 v))
  | MYSQL_TYPE_SHORT | MYSQL_TYPE_YEAR => Some (2%nat, Integer (to_signed 16 v))
  | MYSQL_TYPE_LONG | MYSQL_TYPE_INT24 => Some (4%nat, Integer (to_signed 32 v))
  | MYSQL_TYPE_LONGLONG => Some (8%nat, Integer (to_signed 64 v))
  | MYSQL_TYPE_FLOAT => Some (4%nat, Float (f32_to_f64_bits v))
  | MYSQL_TYPE_DOUBLE => Some (8%nat, Float v)
  | _ => None
  end.

(** A parameter: its type, the unsigned flag and its bytes. *)
Definition param : Type := ColumnType * Z * str.
Definition is_number (p : param) : Prop := from_option fst 0%nat (number p.1.1 (le_val p.2)) = length p.2 ∧ p.2 ≠ [].
Definition param_value (p : param) : GatewayValue := from_option snd Null (number p.1.1 (le_val p.2)).

(** What a client sends after the statement's id, the flags and the count: no nulls,
    new types, the types and the values. *)
Definition param_types (ps : list param) : str := concat ((λ p : param, [byte (type_byte p.1.1); byte p.1.2]) <$> ps).
Definition param_bytes (ps : list param) : str := concat (snd <$> ps).
Definition client_params (ps : list param) : str :=
  replicate ((length ps + 7) / 8) nul ++ [byte 1] ++ param_types ps ++ param_bytes ps.

Lemma param_types_length ps : length (param_types ps) = (length ps * 2)%nat.
Proof. unfold param_types. induction ps as [|p ps IH]; [done|]. rewrite fmap_cons. cbn [concat length]. rewrite length_app, IH. cbn. lia. Qed.

Lemma param_type_at ps r i p : ps !! i = Some p → le_val (take 1 (drop (i * 2) (param_types ps ++ r))) = type_byte p.1.1.
Proof.
  revert i. induction ps as [|q ps IH]; intros i Hi; [done|]. destruct i as [|i]; cbn [lookup list_lookup] in Hi.
  - injection Hi as ->. cbn -[byte_val byte]. rewrite byte_val_small by apply type_byte_range. lia.
  - exact (IH i Hi).
Qed.

Lemma type_table_take m ps r : (m ≤ length ps)%nat → type_table m (param_types ps ++ r) = (λ p : param, type_byte p.1.1) <$> take m ps.
Proof.
  intros Hm. apply list_eq. intros i. unfold type_table. rewrite !list_lookup_fmap. destruct (decide (i < m)%nat) as [Hi|Hi].
  - rewrite lookup_seq_lt, lookup_take_lt by done. destruct (lookup_lt_is_Some_2 ps i ltac:(lia)) as [p Hp]. rewrite Hp. cbn [fmap option_fmap option_map].
    f_equal. by apply param_type_at.
  - rewrite lookup_seq_ge, lookup_take_ge by lia. done.
Qed.

Lemma no_null_bit k i : Z.testbit (le_val (take 1 (drop (i / 8) (replicate k nul)))) (Z.of_nat (i mod 8)) = false.
Proof.
  rewrite drop_replicate. destruct (k - i / 8)%nat; cbn [replicate take le_val]; [apply Z.testbit_0_l|].
  change (byte_val nul + 256 * 0) with 0. apply Z.testbit_0_l.
Qed.

Lemma number_read ty v n g data :
  number ty v = Some (n, g) → decode_binary_param_value f32_to_f64_bits data (type_byte ty)
    = (if (length data <? n)%nat then Ret None else Ret (Some (from_option snd Null (number ty (le_val (take n data))), Z.of_nat n))).
Proof. unfold decode_binary_param_value, mysql_column_type_from_wire. rewrite type_of_type_byte. destruct ty; cbn [number]; intros [= <- <-]; done. Qed.

(** The numbers of a list are read in order; what follows them does not matter. *)
Lemma read_numbers k ps i r :
  Forall is_number ps →
  read_values f32_to_f64_bits (replicate k nul) i ((λ p : param, type_byte p.1.1) <$> ps) (param_bytes ps ++ r) = Ret (Some (param_value <$> ps, r)).
Proof.
  intros Hps. revert i. induction Hps as [|p ps [Hn Hne] _ IH]; intros i; [done|]. rewrite !fmap_cons. cbn [read_values]. rewrite no_null_bit.
  unfold param_bytes. rewrite fmap_cons. cbn [concat]. fold (param_bytes ps). rewrite <-app_assoc. destruct p as [[ty fl] w]. cbn [fst snd] in *.
  unfold param_value at 1. cbn [fst snd]. destruct (number ty (le_val w)) as [[n g]|] eqn:E; cbn in Hn; [|by destruct w].
  erewrite number_read by exact E. rewrite Hn, length_app, (proj2 (Nat.ltb_ge _ _)) by lia.
  rewrite take_app_length, E. cbn [mbind eo_bind fst snd from_option]. by rewrite Nat2Z.id, drop_app_length, IH.
Qed.

(** On other bytes, if they are enough, some values are read, and the rest is left. *)
Lemma read_numbers_misplaced k ps i data :
  Forall is_number ps → (length (param_bytes ps) ≤ length data)%nat →
  ∃ vs, read_values f32_to_f64_bits (replicate k nul) i ((λ p : param, type_byte p.1.1) <$> ps) data = Ret (Some (vs, drop (length (param_bytes ps)) data)).
Proof.
  intros Hps. revert i data. induction Hps as [|p ps [Hn Hne] _ IH]; intros i data Hd; [by exists []|]. rewrite !fmap_cons. cbn [read_values]. rewrite no_null_bit.
  unfold param_bytes in *. rewrite fmap_cons in *. cbn [concat] in *. rewrite length_app in *. destruct p as [[ty fl] w]. cbn [fst snd] in *.
  destruct (number ty (le_val w)) as [[n g]|] eqn:E; cbn in Hn; [|by destruct w].
  erewrite number_read by exact E. rewrite Hn, (proj2 (Nat.ltb_ge _ _)) by lia. cbn [mbind eo_bind fst snd]. rewrite Nat2Z.id.
  destruct (IH (S i) (drop (length w) data)) as [vs ->]; [rewrite length_drop; lia|]. cbn [fst snd]. rewrite drop_drop. eauto.
Qed.

Lemma param_types_app ps qs : param_types (ps ++ qs) = param_types ps ++ param_types qs.
Proof. unfold param_types. by rewrite fmap_app, concat_app. Qed.
Lemma param_bytes_app ps qs : param_bytes (ps ++ qs) = param_bytes ps ++ param_bytes qs.
Proof. unfold param_bytes. by rewrite fmap_app, concat_app. Qed.

(** A count with the right length of the null bitmap reads the first types, and takes
    the other types for values. *)
Lemma try_same_bitmap ps m :
  (1 ≤ m ≤ length ps)%nat → ((m + 7) / 8 = (length ps + 7) / 8)%nat →
  try_decode_params_with_count f32_to_f64_bits (client_params ps) m
    = (x ← read_values f32_to_f64_bits (replicate ((m + 7) / 8) nul) 0 ((λ p : param, type_byte p.1.1) <$> take m ps)
             (param_types (drop m ps) ++ param_bytes ps);
       if is_empty x.2 then mret x.1 else nothing).
Proof.
  intros Hm Ek. unfold try_decode_params_with_count. rewrite (proj2 (Nat.eqb_neq m 0)) by lia. unfold client_params. rewrite <-Ek.
  set (k := ((m + 7) / 8)%nat). rewrite !length_app, length_replicate, param_types_length. cbn [length].
  rewrite !(proj2 (Nat.ltb_ge _ _)) by lia. rewrite (drop_app_length' (replicate k nul)), (take_app_length' (replicate k nul)) by (by rewrite length_replicate).
  cbn [app take le_val]. rewrite byte_val_small by done. cbn [Z.eqb Z.mul Z.add Pos.eqb negb].
  replace (drop (k + 1) _) with (param_types ps ++ param_bytes ps).
  2: { rewrite <-drop_drop, drop_app_length' by (by rewrite length_replicate). done. }
  replace (drop (k + 1 + m * 2) _) with (param_types (drop m ps) ++ param_bytes ps).
  2: { rewrite <-!drop_drop, drop_app_length' by (by rewrite length_replicate). change (drop 1 (byte 1 :: ?x)) with x.
       replace (param_types ps) with (param_types (take m ps) ++ param_types (drop m ps)) by (by rewrite <-param_types_app, take_drop).
       rewrite <-app_assoc, drop_app_length'; [done|]. rewrite param_types_length, length_take. lia. }
  by rewrite type_table_take by lia.
Qed.

Lemma try_fewer ps m :
  Forall is_number ps → (1 ≤ m < length ps)%nat → try_decode_params_with_count f32_to_f64_bits (client_params ps) m = Ret None.
Proof.
  intros Hps Hm. destruct (decide ((m + 7) / 8 = (length ps + 7) / 8)%nat) as [Ek|Hne].
  - rewrite try_same_bitmap by (done || lia). pose proof (f_equal length (param_bytes_app (take m ps) (drop m ps))) as El. rewrite take_drop, length_app in El.
    destruct (read_numbers_misplaced ((m + 7) / 8) (take m ps) 0 (param_types (drop m ps) ++ param_bytes ps)) as [vs ->].
    { by apply Forall_take. }
    { rewrite length_app. lia. }
    cbn [mbind eo_bind snd]. rewrite (nonempty_le _ 0); [done|]. rewrite length_drop, length_app, param_types_length, length_drop. lia.
  - unfold try_decode_params_with_count. rewrite (proj2 (Nat.eqb_neq m 0)) by lia. case_match; [done|]. unfold client_params.
    assert ((m + 7) / 8 ≤ (length ps + 7) / 8)%nat by (apply Nat.Div0.div_le_mono; lia).
    rewrite drop_app_le, drop_replicate by (rewrite length_replicate; lia). destruct (_ - _)%nat eqn:E; [lia|]. done.
Qed.

Lemma try_exact ps :
  Forall is_number ps → ps ≠ [] → try_decode_params_with_count f32_to_f64_bits (client_params ps) (length ps) = Ret (Some (param_value <$> ps)).
Proof.
  intros Hps Hne. assert (length ps ≠ 0%nat) by (by destruct ps). rewrite try_same_bitmap by (done || lia). rewrite firstn_all, drop_all. cbn [param_types fmap list_fmap concat app].
  rewrite <-(app_nil_r (param_bytes ps)), read_numbers by done. done.
Qed.

Lemma first_count_at n : ∀ k m rest ps,
  (m ≤ n < m + k)%nat → (∀ j, (m ≤ j < n)%nat → try_decode_params_with_count f32_to_f64_bits rest j = Ret None) →
  try_decode_params_with_count f32_to_f64_bits rest n = Ret (Some ps) → first_count f32_to_f64_bits k m rest = Ret (Some ps).
Proof.
  induction k as [|k IH]; intros m rest ps Hk Hj Hn; [lia|]. cbn [first_count]. destruct (decide (m = n)) as [->|]; [by rewrite Hn|].
  rewrite Hj by lia. apply IH; [lia| |done]. intros j ?. apply Hj. lia.
Qed.

(** The numbers a client binds to a statement, at most 64 and none null, are the
    numbers of the command, in their order; the count is not sent and is found. *)
Theorem mysql_parameters_decoded statement_id flags iterations ps :
  0 ≤ statement_id < 2 ^ 32 → (1 ≤ length ps ≤ 64)%nat → Forall is_number ps →
  decode_stmt_execute f32_to_f64_bits (le_bytes 4 statement_id ++ [byte flags] ++ le_bytes 4 iterations ++ client_params ps)
    = Ret (Ok (Execute (dec statement_id) (param_value <$> ps))).
Proof.
  intros Hs Hl Hps. unfold decode_stmt_execute. rewrite !length_app, !le_bytes_length. cbn [length]. rewrite (proj2 (Nat.ltb_ge _ _)) by lia.
  rewrite take_app_length' by (by rewrite le_bytes_length). rewrite le_val_bytes_small by done.
  replace (drop 9 _) with (client_params ps) by (by rewrite !app_assoc, drop_app_length' by (by rewrite !length_app, !le_bytes_length)).
  assert (ps ≠ []) as Hne by (intros ->; cbn in Hl; lia). assert (is_empty (client_params ps) = false ∧ client_params ps ≠ [nul]) as [He Hnul].
  { assert (2 ≤ length (client_params ps))%nat as Hc.
    { unfold client_params. rewrite !length_app, param_types_length. cbn [length]. lia. }
    split; [by eapply nonempty_le|]. intros E. rewrite E in Hc. cbn in Hc. lia. }
  unfold decode_stmt_execute_params. rewrite He. rewrite (first_count_at (length ps) 65 0 _ (param_value <$> ps)); [done|lia| |by apply try_exact].
  intros j Hj. destruct j as [|j]; [|by apply try_fewer; [|lia]]. unfold try_decode_params_with_count. cbn [Nat.eqb]. rewrite He.
  by rewrite (proj2 (str_eqb_neq _ _)).
Qed.

(** ** Binary rows *)

(** The values a column can carry in the binary protocol: the bytes written are those
    of the type the column is declared with. *)
Definition fits (v : GatewayValue) (data_type : str) : Prop :=
  match v with
  | Null => True
  | Integer i =>
      match mysql_column_type data_type with
      | MYSQL_TYPE_TINY => - 2 ^ 7 ≤ i < 2 ^ 7
      | MYSQL_TYPE_SHORT => - 2 ^ 15 ≤ i < 2 ^ 15
      | MYSQL_TYPE_LONG => - 2 ^ 31 ≤ i < 2 ^ 31
      | MYSQL_TYPE_LONGLONG => - 2 ^ 63 ≤ i < 2 ^ 63
      | _ => False
      end
  | Float f => mysql_column_type data_type = MYSQL_TYPE_DOUBLE ∧ 0 ≤ f < 2 ^ 64
  | VString s => mysql_column_type data_type = MYSQL_TYPE_VAR_STRING ∧ is_utf8 s = true ∧ len s < 2 ^ 63
  | Bytes b => mysql_column_type data_type = MYSQL_TYPE_BLOB ∧ len b < 2 ^ 63
  | _ => False
  end.

Lemma bits_of (b : nat → bool) j :
  (j < 8)%nat →
  Z.testbit (byte_val (byte (foldr (λ j a, a + (if b j then 2 ^ Z.of_nat j else 0)) 0 (seq 0 8)))) (Z.of_nat j) = b j.
Proof.
  intros Hj. cbn [seq foldr].
  do 8 (destruct j as [|j];
    [generalize (b 0%nat) (b 1%nat) (b 2%nat) (b 3%nat) (b 4%nat) (b 5%nat) (b 6%nat) (b 7%nat); by intros [] [] [] [] [] [] [] []|]). lia.
Qed.

Lemma null_bit row i v : row !! i = Some v →
  Z.testbit (le_val (take 1 (drop ((i + 2) / 8) (null_bitmap row)))) (Z.of_nat ((i + 2) mod 8)) = is_null v.
Proof.
  intros Hi. pose proof (lookup_lt_Some _ _ _ Hi) as Hlt. pose proof (Nat.div_mod_eq (i + 2) 8) as Hdm.
  pose proof (Nat.mod_upper_bound (i + 2) 8 ltac:(lia)) as Hj. set (q := ((i + 2) / 8)%nat) in *. set (j := ((i + 2) mod 8)%nat) in *.
  assert (q < (length row + 7 + 2) / 8)%nat as Hq by (apply Nat.div_le_lower_bound; lia).
  assert (null_bitmap row !! q = Some (bitmap_byte row q)) as Hb.
  { unfold null_bitmap. rewrite list_lookup_fmap, lookup_seq_lt by done. done. }
  rewrite (drop_S _ _ _ Hb). cbn [take le_val]. rewrite Z.mul_0_r, Z.add_0_r. unfold bitmap_byte. rewrite bits_of by done.
  replace (8 * q + j)%nat with (i + 2)%nat by lia. rewrite Nat.add_sub, Hi, (proj2 (Nat.leb_le _ _)) by lia. done.
Qed.

Lemma fixed_signed k bits i r :
  bits = 8 * Z.of_nat k → 0 < bits → - 2 ^ (bits - 1) ≤ i < 2 ^ (bits - 1) →
  fixed k (le_bytes k i ++ r) (λ v, Integer (to_signed bits v)) = Ret (Some (Integer i, len (le_bytes k i))).
Proof.
  intros -> Hb Hi. unfold fixed. rewrite length_app, le_bytes_length, (proj2 (Nat.ltb_ge _ _)) by lia.
  rewrite take_app_length' by (by rewrite le_bytes_length). rewrite le_val_bytes. change 256 with (2 ^ 8).
  rewrite <-Z.pow_mul_r, to_signed_mod by lia. done.
Qed.

(** A name that one of the tests recognises is one of the names tested. *)
Ltac each_name H :=
  match type of H with
  | one_of _ _ = true => apply one_of_elem in H; rewrite !elem_of_cons, elem_of_nil in H; destruct_or! H
  | str_eqb _ _ = true => apply str_eqb_eq in H
  end.

Lemma integer_reads i name w r :
  fits (Integer i) name → encode_binary_value f64_to_f32_bits (Integer i) name = Ok w →
  decode_binary_param_value f32_to_f64_bits (w ++ r) (type_byte (mysql_column_type name)) = Ret (Some (Integer i, len w)).
Proof.
  unfold fits, encode_binary_value, mysql_column_type. set (dt := to_ascii_lowercase name). clearbody dt. intros Hf Hw.
  destruct (one_of [$"tiny"; _; _; _] dt) eqn:E1. { injection Hw as <-. by apply (fixed_signed 1 8). }
  destruct (one_of [$"short"; $"int2"; $"smallint"] dt) eqn:E2.
  { each_name E2; subst dt; injection Hw as <-; by apply (fixed_signed 2 16). }
  destruct (one_of [$"long"; _; _; _] dt) eqn:E3.
  { each_name E3; subst dt; injection Hw as <-; by apply (fixed_signed 4 32). }
  destruct (one_of [$"longlong"; _; _] dt) eqn:E4; [|by repeat case_match].
  each_name E4; subst dt; injection Hw as <-; by apply (fixed_signed 8 64).
Qed.

Lemma value_reads v name w r :
  fits v name → v ≠ Null → encode_binary_value f64_to_f32_bits v name = Ok w →
  decode_binary_param_value f32_to_f64_bits (w ++ r) (type_byte (mysql_column_type name)) = Ret (Some (v, len w)).
Proof.
  intros Hf Hn. destruct v as [|b|i|u|f|d|s|b]; try done; [by apply integer_reads|..].
  - destruct Hf as [Ht Hf]. rewrite Ht. unfold encode_binary_value. unfold mysql_column_type in Ht. set (dt := to_ascii_lowercase name) in *. clearbody dt.
    destruct (one_of [$"double"; $"float8"] dt) eqn:E; [|by repeat case_match]. intros <-%Ok_inj. unfold decode_binary_param_value, mysql_column_type_from_wire.
    rewrite type_of_type_byte. cbn [mbind eo_bind of_option]. unfold fixed. rewrite length_app, le_bytes_length, (proj2 (Nat.ltb_ge _ _)) by lia.
    rewrite take_app_length' by (by rewrite le_bytes_length). by rewrite le_val_bytes_small.
  - destruct Hf as (Ht & Hu & Hl). rewrite Ht. unfold encode_binary_value. unfold mysql_column_type in Ht. set (dt := to_ascii_lowercase name) in *. clearbody dt.
    destruct (str_eqb dt ($"date")) eqn:E1; [by repeat case_match|]. destruct (one_of [$"datetime"; _; _] dt) eqn:E2; [each_name E2; by subst dt|].
    destruct (str_eqb dt ($"time")) eqn:E3; [by repeat case_match|]. intros [= <-]. unfold decode_binary_param_value, mysql_column_type_from_wire.
    rewrite type_of_type_byte. cbn [mbind eo_bind of_option]. rewrite read_lenc_app by done. cbn [mbind eo_bind fst snd]. by rewrite Hu.
  - destruct Hf as [Ht Hl]. rewrite Ht. intros [= <-]. unfold decode_binary_param_value, mysql_column_type_from_wire.
    rewrite type_of_type_byte. cbn [mbind eo_bind of_option]. by rewrite read_lenc_app.
Qed.

(** The values of the columns from [i] on, read at the bits of the whole row. *)
Lemma binary_values_read row : ∀ i vs columns p,
  (∀ j, row !! (i + j)%nat = vs !! j) → Forall2 fits vs (data_type <$> columns) → binary_values f64_to_f32_bits vs columns = Ok p →
  read_values f32_to_f64_bits (null_bitmap row) (i + 2) ((λ c, type_byte (mysql_column_type (data_type c))) <$> columns) p = Ret (Some (vs, [])).
Proof.
  intros i vs columns. revert i vs. induction columns as [|c columns IH]; intros i vs p Hrow Hf Hp.
  { apply Forall2_nil_inv_r in Hf as ->. by injection Hp as <-. }
  rewrite fmap_cons in Hf. apply Forall2_cons_inv_r in Hf as (v & vs' & Hv & Hf & ->). rewrite fmap_cons. cbn [read_values binary_values] in *.
  rewrite (null_bit row i v) by (rewrite <-(Nat.add_0_r i); apply (Hrow 0%nat)).
  apply bind_Ok in Hp as (w & Ew & (rest & Er & <-%Ok_inj)%bind_Ok).
  assert (∀ j, row !! (S i + j)%nat = vs' !! j) as Hrow' by (intros j; rewrite Nat.add_succ_comm; apply (Hrow (S j))).
  specialize (IH (S i) vs' rest Hrow' Hf Er). destruct v; cbn [is_null] in Ew |- *.
  { apply Ok_inj in Ew as <-. cbn [app mbind eo_bind fst snd mret eo_ret]. change (drop (Z.to_nat 0) rest) with rest. cbn [Nat.add] in IH. by rewrite IH. }
  all: erewrite value_reads by done; cbn [mbind eo_bind fst snd]; rewrite Nat2Z.id, drop_app_length; cbn [Nat.add] in IH; by rewrite IH.
Qed.

(** C30 A binary row whose values fit their columns is read back value by value: a client
    that reads it with the types of the columns has the row. *)
Theorem mysql_binary_row_reads_back row columns p :
  Forall2 fits row (data_type <$> columns) → encode_binary_row f64_to_f32_bits row columns = Ok p →
  ∃ bitmap values, p = byte 0 :: bitmap ++ values ∧ length bitmap = ((length columns + 9) / 8)%nat ∧
    read_values f32_to_f64_bits bitmap 2 ((λ c, type_byte (mysql_column_type (data_type c))) <$> columns) values = Ret (Some (row, [])).
Proof.
  intros Hf. unfold encode_binary_row. pose proof (Forall2_length _ _ _ Hf) as El. rewrite length_fmap in El. rewrite El, Nat.eqb_refl. cbn [negb].
  intros (vs & Ev & <-%Ok_inj)%bind_Ok. exists (null_bitmap row), vs. split; [done|]. split.
  - unfold null_bitmap. rewrite length_fmap, length_seq, El. f_equal. lia.
  - by apply (binary_values_read row 0 row columns vs).
Qed.
End Values.

(** ** Concrete runs *)

Definition plain_bits (v : Z) : Z := v.
Definition two_columns : list Column := [mkColumn ($"id") ($"INT"); mkColumn ($"name") ($"varchar")].

Lemma mysql_text_row_reads_back_witness :
  client_text_row 2 (concat [[byte 1; "7"%char]; [byte 251]]) = Some [Some ($"7"); None].
Proof. apply (mysql_text_row_reads_back dec [Integer 7; Null] two_columns); [by repeat constructor|reflexivity]. Defined.

Lemma mysql_temporal_roundtrip_witness :
  ∃ t, decode_binary_param_value plain_bits ([byte 7; byte 232; byte 7; byte 2; byte 29; byte 23; byte 59; byte 58] ++ $"rest") 12 = Ret (Some (VString t, 8))
     ∧ encode_binary_value plain_bits (VString t) ($"datetime") = Ok [byte 7; byte 232; byte 7; byte 2; byte 29; byte 23; byte 59; byte 58].
Proof.
  apply (mysql_temporal_roundtrip plain_bits plain_bits MYSQL_TYPE_DATETIME ($"datetime") [byte 232; byte 7; byte 2; byte 29; byte 23; byte 59; byte 58] ($"rest")).
  apply temporal_datetime. by left.
Defined.

Lemma mysql_parameters_decoded_witness :
  decode_stmt_execute plain_bits
    (le_bytes 4 5 ++ [byte 0] ++ le_bytes 4 1 ++ client_params [(MYSQL_TYPE_LONG, 0, le_bytes 4 (-2)); (MYSQL_TYPE_TINY, 0, le_bytes 1 7)])
    = Ret (Ok (Execute ($"5") [Integer (-2); Integer 7])).
Proof.
  apply (mysql_parameters_decoded plain_bits 5 0 1 [(MYSQL_TYPE_LONG, 0, le_bytes 4 (-2)); (MYSQL_TYPE_TINY, 0, le_bytes 1 7)]); [done|cbn; lia|].
  by repeat constructor.
Defined.

Lemma mysql_binary_row_reads_back_witness :
  ∃ bitmap values, [byte 0; byte 8; byte 254; byte 255; byte 255; byte 255] = byte 0 :: bitmap ++ values ∧ length bitmap = 1%nat ∧
    read_values plain_bits bitmap 2 [3; 253] values = Ret (Some ([Integer (-2); Null], [])).
Proof. apply (mysql_binary_row_reads_back plain_bits plain_bits [Integer (-2); Null] two_columns); [by repeat constructor|reflexivity]. Defined.

(** The count of parameters is guessed.  Two parameters, a text and a null whose type
    is [NULL], are read as one text that starts with the second type. *)
Example execute_misread :
  decode_stmt_execute_params plain_bits ([byte 2; byte 1] ++ [byte 253; byte 0; byte 6; byte 0] ++ lenc_bytes ($"abcd"))
  = Ret (Ok [VString (nul :: byte 4 :: $"abcd")]).
Proof. vm_compute. reflexivity. Qed.

(** Values whose bytes are not those of the declared type: a number in a text column
    is a length to the client, a boolean in an integer column is three bytes short,
    and a large unsigned number is a negative one. *)
Example binary_misfits :
  encode_binary_row plain_bits [Integer 7] [mkColumn ($"y") ($"year")] = Ok [byte 0; byte 0; byte 7; byte 0]
  ∧ mysql_column_type ($"year") = MYSQL_TYPE_VAR_STRING
  ∧ encode_binary_row plain_bits [Boolean true] [mkColumn ($"b") ($"int")] = Ok [byte 0; byte 0; byte 1]
  ∧ mysql_column_type ($"int") = MYSQL_TYPE_LONG
  ∧ (w ← encode_binary_value plain_bits (UnsignedInteger (2 ^ 64 - 1)) ($"bigint"); Ok (decode_binary_param_value plain_bits w 8))
    = Ok (Ret (Some (Integer (-1), 8))).
Proof. vm_compute. repeat split. Qed.
End MyFrontendTheorems.
