(* ===== verification/MySession.v ===== *)
(** * A MySQL session

    [run_mysql_core_session] of [runtime/gateway/src/gateway.rs] with its socket
    writer: the bytes of a client, in the chunks the reads return, decoded into commands
    for the connection engine with the frontend of [MyFrontend], and the response
    packets numbered and written.

    The codec of a connection is shared by its reads and its writes.  A write uses only
    the sequence number ([encode_seq]), which is kept with the sink; the buffer of the
    decoder is kept by the loop. *)

From S2P Require Import Prelude RustStr Model Session TimeRules Pdp Authorize LoadBalance Route Plugin Transport Obligations ObjectSet AuditEvents PdpStore PgProtocol PgText MyProtocol MyProtocolTheorems MyHandshake MyFrontend Engine EngineTheorems.
Import MyProtocol MyProtocolTheorems MyHandshake MyFrontend.

Module MySession.

Definition MAX_MYSQL_FRONTEND_PAYLOAD_LEN : Z := 16 * 1024 * 1024.

(** A socket: what [poll_flush] of the bytes does, with the text of an error. *)
Class Sink (S : Type) := { sink_write : str → S → option str * S }.

Record MySqlSocket (S : Type) := mkMySocket { ms_seq : Z; ms_sink : S }.
Arguments mkMySocket {S} _ _.
Arguments ms_seq {S} _.
Arguments ms_sink {S} _.

Section Socket.
Context {S : Type} `{Sink S}.

Definition set_ms_seq (n : Z) (w : MySqlSocket S) : MySqlSocket S := mkMySocket n (ms_sink w).

(** [framed.send(PacketSend::Encode(packet))]. *)
Definition socket_send (packet : str) (w : MySqlSocket S) : option str * MySqlSocket S :=
  let '(bytes, c) := encode_packet packet [] (mkCodec [] false (ms_seq w)) in
  let '(r, sink) := sink_write bytes (ms_sink w) in
  (r, mkMySocket (pc_seq c) sink).

Fixpoint socket_write_packets (packets : list str) (w : MySqlSocket S) : GatewayResult unit * MySqlSocket S :=
  match packets with
  | [] => (Ok tt, w)
  | packet :: packets =>
      match socket_send packet w with
      | (Some e, w) => (Err (Protocol ($"mysql response write error: " ++ e)), w)
      | (None, w) => socket_write_packets packets w
      end
  end.

#[export] Instance mysql_socket_writer : ResponseWriter (MySqlSocket S) := { write_packets := socket_write_packets }.
End Socket.

Section MySession.
Context {S B W R : Type} `{Sink S} `{BackendConnector B}.
Context `{Authorize.TicketGate W} `{Pdp.RemoteIO} `{TimeRules.Chrono} `{LoadBalance.Rng R} `{RegexFlags}.
Context (f32_to_f64_bits f64_to_f32_bits : Z → Z) (f64_to_string : Z → str) (f64_is_finite : Z → bool)
  (sample_json : list str → list (list JsonValue) → bool → str)
  (extract_object_set : str → str → ObjectSet.ObjectSet).

#[local] Instance my_session_frontend : FrontendProtocolAdapter MyFrontend := my_frontend f32_to_f64_bits f64_to_f32_bits f64_to_string.

Abbreviation C := (Conn (F := MyFrontend) (Wr := MySqlSocket S) (B := B) (W := W) (R := R)).
Abbreviation my_handle_frame := (handle_frame_inner f64_to_string f64_is_finite sample_json extract_object_set).

Definition set_writer (f : MySqlSocket S → MySqlSocket S) (c : C) : C := set_io (c_frontend c) (f (c_writer c)) c.

(** The body of the loop on a frame: the connection, and whether to go on.  An error
    is answered with an error packet, whose own failure is only logged. *)
Definition my_session_turn (cfg : ConnConfig) (rd : nat → CommandReadings) (frame : str) (c : C) : fueled (C * bool) :=
  if MAX_MYSQL_FRONTEND_PAYLOAD_LEN <? len frame then Some (Ret (c, false))
  else
    let terminate := bool_decide (byte_val <$> head frame = Some COM_QUIT) in
    match my_handle_frame cfg rd frame c with
    | None => None
    | Some Panic => Some Panic
    | Some (Ret (Err e, c)) =>
        let err_info := make_err_packet (mkMySQLError 1105 ($"HY000") (PdpStore.error_to_string e)) in
        let c := set_writer (λ w, (socket_send (drop 4 err_info) w).2) c in
        Some (Ret (set_writer (set_ms_seq 0) c, true))
    | Some (Ret (Ok _, c)) => Some (Ret (set_writer (set_ms_seq 0) c, negb terminate))
    end.

(** [rc] is the decoder, [src] what it has not decoded, [chunks] what the reads will
    return; a broken end of the stream ends the loop as the end does. *)
Fixpoint my_session_loop (fuel : nat) (cfg : ConnConfig) (rd : nat → nat → CommandReadings) (i : nat)
    (chunks : list str) (rc : PacketCodec) (src : str) (c : C) : fueled C :=
  match fuel with
  | O => None
  | Datatypes.S fuel =>
      match framed_next chunks (mkCodec (pc_buf rc) (pc_is_max rc) (ms_seq (c_writer c))) src with
      | None => Some (Ret c)
      | Some (frame, rc, src, chunks) =>
          match my_session_turn cfg (rd i) frame (set_writer (set_ms_seq (pc_seq rc)) c) with
          | None => None
          | Some Panic => Some Panic
          | Some (Ret (c, true)) => my_session_loop fuel cfg rd (Datatypes.S i) chunks rc src c
          | Some (Ret (c, false)) => Some (Ret c)
          end
      end
  end.

(** The session with what the handshake learned; a new codec is numbered from 0. *)
Definition start_my_session (auth_user : str) (hs : ServerHandshakeCodec) (c : C) : C :=
  let s := c_session c in
  set_writer (set_ms_seq 0) (set_session
    (mkSession (if is_empty auth_user then user s else Some auth_user)
       (if is_empty (hs_db hs) then database s else Some (hs_db hs))
       (Some (hs_charset hs))
       (match hs_autocommit hs with
        | Some a => Some (str_eqb a ($"1") || eq_ignore_ascii_case a ($"true"))
        | None => autocommit s
        end)
       (backend_endpoint s) (transaction_state s) (prefer_binary_result s) (pg_extended_query s)
       (pg_extended_error s) (pg_execute_max_rows s) (result_truncated s) (pg_portal_name s) (pg_portal_skip_rows s)
       (pg_drop_portal_hold s) (pg_client_extended_frames s) (pg_ext_tcp_hold s)) c).

(** What the handshake had buffered is dropped with its codec: the session starts
    with the next read. *)
Definition run_mysql_core_session (cfg : ConnConfig) (rd : nat → nat → CommandReadings) (auth_user : str)
    (hs : ServerHandshakeCodec) (chunks : list str) (c : C) : fueled C :=
  my_session_loop (Datatypes.S (length (concat chunks))) cfg rd 0 chunks new_codec [] (start_my_session auth_user hs c).

(** ** Framing *)

(** The loop on commands that were decoded already; each is numbered when it is read. *)
Fixpoint my_session_frames (cfg : ConnConfig) (rd : nat → nat → CommandReadings) (i : nat) (frames : list str) (c : C)
    : fueled C :=
  match frames with
  | [] => Some (Ret c)
  | frame :: frames =>
      match my_session_turn cfg (rd i) frame (set_writer (λ w, set_ms_seq ((ms_seq w + Z.of_nat (full_packets frame) + 1) mod 256) w) c) with
      | None => None
      | Some Panic => Some Panic
      | Some (Ret (c, true)) => my_session_frames cfg rd (Datatypes.S i) frames c
      | Some (Ret (c, false)) => Some (Ret c)
      end
  end.

(** The first bytes of a command, not all of them. *)
Definition cut_short (rest : str) : Prop := ∃ seq p t, wire seq p = rest ++ t ∧ t ≠ [].

(** What would be decoded from a command that is cut is what is decoded from all of it, and
    nothing of that is left over. *)
Lemma decode_cut c rest : pc_buf c = [] → cut_short rest → (codec_decode c rest).1.1 = None.
Proof.
  intros Hb (seq & p & t & Hw & Ht). destruct (decode_first_payload c seq p [] Hb) as (c' & Hd & _). rewrite app_nil_r, Hw in Hd.
  rewrite (decode_more (Datatypes.S (length rest))) in Hd by lia. fold (codec_decode c rest) in Hd.
  destruct (codec_decode c rest) as [[[q|] c1] left]; [|done]. injection Hd as _ _ Hl. by apply app_eq_nil in Hl as [_ ->].
Qed.

Lemma my_loop_frames fuel cfg rd : ∀ i frames rest chunks rc src c,
  src ++ concat chunks = concat ((λ x, wire x.1 x.2) <$> frames) ++ rest → cut_short rest → (length frames < fuel)%nat → pc_buf rc = [] →
  my_session_loop fuel cfg rd i chunks rc src c = my_session_frames cfg rd i (snd <$> frames) c.
Proof.
  induction fuel as [|fuel IH]; intros i frames rest chunks rc src c Hs Hr Hf Hb; [lia|]. cbn [my_session_loop].
  set (rc0 := mkCodec _ _ _). pose proof (framed_next_whole chunks rc0 src) as Hn. rewrite Hs in Hn.
  destruct frames as [|[seq p] frames]; cbn [fmap list_fmap concat app fst snd my_session_frames] in *.
  { pose proof (decode_cut rc0 rest Hb Hr) as Hc. destruct (codec_decode rc0 rest) as [[[q|] c1] left]; [done|]. by rewrite Hn. }
  rewrite <-app_assoc in Hn.
  destruct (decode_first_payload rc0 seq p (concat ((λ x, wire x.1 x.2) <$> frames) ++ rest) Hb) as (rc' & Hd & Hb' & Hq).
  cbn [fmap list_fmap] in Hd. rewrite Hd in Hn. destruct Hn as (src' & chunks' & -> & Hs'). rewrite Hq. cbn [pc_seq rc0].
  change (set_writer (set_ms_seq _) c) with (set_writer (λ w, set_ms_seq ((ms_seq w + Z.of_nat (full_packets p) + 1) mod 256) w) c).
  destruct (my_session_turn _ _ _ _) as [[[c1 []]|]|]; try done. apply (IH _ _ rest); [done..|cbn in Hf; lia|done].
Qed.

Lemma wire_length seq p : (4 ≤ length (wire seq p))%nat.
Proof. unfold wire. destruct (full_packets p); cbn [wire_full]; rewrite length_app, header_length; lia. Qed.

Lemma wires_length frames : (length frames ≤ length (concat ((λ x, wire x.1 x.2) <$> frames)))%nat.
Proof. induction frames as [|[seq p] frames IH]; [done|]. cbn [fmap list_fmap concat length fst snd] in *. rewrite length_app. pose proof (wire_length seq p). lia. Qed.

(** C28 A session handles exactly the commands its client sent, in order, however the
    network cut the stream and whatever the commands contain: payloads of more than
    one packet are put together, a command that the end of the stream cuts short, in a header
    or in a payload, is not handled, and the loop ends. *)
Theorem mysql_session_handles_commands cfg rd auth_user hs frames rest chunks c :
  concat chunks = concat ((λ x, wire x.1 x.2) <$> frames) ++ rest → cut_short rest →
  run_mysql_core_session cfg rd auth_user hs chunks c =
  my_session_frames cfg rd 0 (snd <$> frames) (start_my_session auth_user hs c).
Proof.
  intros Hc Hr. unfold run_mysql_core_session. apply (my_loop_frames _ _ _ _ _ rest); [done..| |done].
  pose proof (wires_length frames). rewrite Hc, length_app. lia.
Qed.
End MySession.

(** ** Writing *)

Lemma encode_full_seq num : ∀ item dst offset c,
  let '(d1, o1, r1, c1) := encode_full num item dst offset c in
  let '(d2, o2, r2, c2) := encode_full num item dst offset (mkCodec [] false (pc_seq c)) in
  d1 = d2 ∧ o1 = o2 ∧ r1 = r2 ∧ pc_seq c1 = pc_seq c2.
Proof.
  induction num as [|num IH]; intros item dst offset c; [done|]. cbn [encode_full make_packet_header next_seq pc_seq pc_buf pc_is_max].
  apply (IH _ _ _ (mkCodec (pc_buf c) (pc_is_max c) _)).
Qed.

(** A packet is written from the payload and the sequence number alone. *)
Lemma encode_seq item c :
  (encode_packet item [] c).1 = (encode_packet item [] (mkCodec [] false (pc_seq c))).1 ∧
  pc_seq (encode_packet item [] c).2 = pc_seq (encode_packet item [] (mkCodec [] false (pc_seq c))).2.
Proof.
  unfold encode_packet, encode_packet_offset. pose proof (encode_full_seq (Z.to_nat (len item / MAX_PAYLOAD_LEN)) item [] 0 c) as He.
  destruct (encode_full _ _ _ _ c) as [[[d1 o1] r1] c1], (encode_full _ _ _ _ (mkCodec _ _ _)) as [[[d2 o2] r2] c2].
  destruct He as (-> & -> & -> & Hs). unfold make_packet_header. cbn. by rewrite Hs.
Qed.

(** A sink that takes everything. *)
#[export] Instance byte_sink : Sink str := { sink_write bytes s := (None, s ++ bytes) }.

(** The packets of a response are on the wire one after the other, each with its
    header and its number, starting with the number after the command's. *)
Theorem mysql_responses_framed packets (w : MySqlSocket str) :
  ∃ seqs w', write_packets packets w = (Ok tt, w') ∧ length seqs = length packets ∧ head (seqs ++ [ms_seq w']) = Some (ms_seq w) ∧
    ms_sink w' = ms_sink w ++ concat (zip_with wire seqs packets).
Proof.
  revert w. induction packets as [|p packets IH]; intros w; [exists [], w; by rewrite app_nil_r|].
  cbn [write_packets mysql_socket_writer socket_write_packets] in *. unfold socket_send, encode_packet.
  destruct (encode_packet_wire p [] (mkCodec [] false (ms_seq w))) as (c' & E & _). cbn [length app pc_seq] in E. rewrite E. cbn [sink_write byte_sink].
  destruct (IH (mkMySocket (pc_seq c') (ms_sink w ++ wire (ms_seq w) p))) as (seqs & w' & Hw & Hl & _ & Hs).
  exists (ms_seq w :: seqs), w'. split; [done|]. split; [cbn; by rewrite Hl|]. split; [done|]. rewrite Hs. cbn. by rewrite <-app_assoc.
Qed.
End MySession.
