(* ===== verification/MySessionRuns.v ===== *)
(** * Runs of MySQL sessions

    [MySession] at concrete clients: the theorem on sessions is applied to one, and two
    runs show what a command that fails to decode leaves behind. *)

From S2P Require Import Prelude RustStr Model Session DangerousSql TimeRules StateCrypto Ticket TicketTheorems Obligations ObjectSet Security Pdp Authorize AuthorizeTheorems LoadBalance Route Plugin AuditEvents Transport PgProtocol PgText MyProtocol MyProtocolTheorems MyHandshake MyFrontend RuntimePlan Cursor PdpStore Engine EngineTheorems EngineRuns MySession.
Import MyProtocol MyProtocolTheorems MyHandshake MyFrontend MySession.

#[local] Existing Instance AuthorizeTheorems.toy_remote.
#[local] Existing Instance TimeRules.toy_chrono.
#[local] Existing Instance StateCrypto.toy_crypto.
#[local] Existing Instance TicketTheorems.toy_json.
#[local] Existing Instance Authorize.store_gate.
#[local] Existing Instance LoadBalance.counter_rng.
#[local] Existing Instance Route.prefix_regex.
#[local] Instance run_flags3 : RegexFlags := { regex_build := λ _ p, Some p }.

(** A backend that answers every query with three names. *)
Definition MyRecorder : Type := list str.

#[local] Instance my_recorder : BackendConnector MyRecorder := {
  be_protocol _ := MySql;
  check_session_health b := (Ok tt, b);
  execute_outcome command s mode b :=
    match command with
    | Query sql => (Ok (OStreaming (mkStreaming name_column (VecRowStream three_names))), s, b ++ [sql])
    | Ping => (Ok (OComplete Pong), s, b)
    | _ => (Ok (OComplete (ROk 0 None)), s, b)
    end
}.

Abbreviation my_conn := (Conn (F := MyFrontend) (Wr := MySqlSocket str) (B := MyRecorder) (W := Ticket.World) (R := Z)).

Definition my_start : my_conn :=
  mkConn (new_my_frontend ($"root") ($"pw") [] ($"5.7")) (mkMySocket 7 []) [] default_session None None None None ∅
    AuthorizeTheorems.no_tickets [].

Definition root_hs : ServerHandshakeCodec := new_handshake 1 ($"saltsaltsaltsaltsalt") ($"root") ($"pw") ($"shop") ($"5.7").

Abbreviation my_run chunks :=
  (run_mysql_core_session (λ x, x) (λ x, x) (λ _, []) (λ _, true) (λ _ _ _, []) last_table run_config
     (λ _ _, readings (AuthorizeTheorems.with_rules [])) ($"root") root_hs chunks my_start).

(** The bytes written, and what the backend ran. *)
Definition my_seen (r : fueled my_conn) : option (str * list str) :=
  match r with Some (Ret c) => Some (ms_sink (c_writer c), c_backend c) | _ => None end.

Definition names_query : str := byte 3 :: $"SELECT name FROM people".
Definition ping : str := [byte 14].
Definition sent (frames : list str) : str := concat (wire 0 <$> frames).

Definition pong : str := wire 1 (ok_response_payload 0 None default_session).
Definition error_packet (message : string) : str := wire 1 (err_payload (mkMySQLError 1105 ($"HY000") ($message))).

Lemma mysql_session_handles_commands_witness :
  my_seen (my_run [take 5 (sent [names_query; ping]); drop 5 (sent [names_query; ping]) ++ take 9 (wire 0 names_query)]) =
  my_seen (my_session_frames (λ x, x) (λ x, x) (λ _, []) (λ _, true) (λ _ _ _, []) last_table run_config
    (λ _ _, readings (AuthorizeTheorems.with_rules [])) 0 [names_query; ping] (start_my_session ($"root") root_hs my_start)).
Proof.
  rewrite (mysql_session_handles_commands (λ x, x) (λ x, x) (λ _, []) (λ _, true) (λ _ _ _, []) last_table run_config
    (λ _ _, readings (AuthorizeTheorems.with_rules [])) ($"root") root_hs [(0, names_query); (0, ping)] (take 9 (wire 0 names_query))); [reflexivity|vm_compute; reflexivity|].
  exists 0, names_query, (drop 9 (wire 0 names_query)). split; [by rewrite take_drop|]. vm_compute. congruence.
Defined.

(** The packets of a query's result, numbered from 1; then the answer to the ping. *)
Example session_answers :
  my_seen (my_run [sent [names_query; ping]]) =
  Some (concat [wire 1 [byte 1]; wire 2 (encode_column (gateway_column_to_mysql_column (mkColumn ($"name") ($"text"))));
                wire 3 eof_payload; wire 4 (byte 3 :: $"ann"); wire 5 (byte 3 :: $"bob"); wire 6 (byte 3 :: $"cyd"); wire 7 eof_payload; pong],
        [$"SELECT name FROM people"]).
Proof. vm_compute. reflexivity. Qed.

(** [COM_STMT_CLOSE] without a whole statement id is answered with an error, and the
    answer to the next command is lost: of two pings one is answered. *)
Example close_silences_next :
  my_seen (my_run [sent [[byte 25; byte 0]; ping; ping]]) =
  Some (error_packet "protocol error: mysql statement command payload is missing statement id" ++ pong, []).
Proof. vm_compute. reflexivity. Qed.

(** After a [COM_STMT_EXECUTE] that cannot be decoded, the rows of the next text query
    are binary rows, which the client of a text query does not expect. *)
Example execute_leaves_binary :
  my_seen (my_run [sent [[byte 23; byte 0]; names_query]]) =
  Some (error_packet "protocol error: mysql COM_STMT_EXECUTE payload too short" ++
        concat [wire 1 [byte 1]; wire 2 (encode_column (gateway_column_to_mysql_column (mkColumn ($"name") ($"text"))));
                wire 3 eof_payload; wire 4 (byte 0 :: byte 0 :: byte 3 :: $"ann"); wire 5 (byte 0 :: byte 0 :: byte 3 :: $"bob");
                wire 6 (byte 0 :: byte 0 :: byte 3 :: $"cyd"); wire 7 eof_payload],
        [$"SELECT name FROM people"]).
Proof. vm_compute. reflexivity. Qed.
