(* ===== verification/MyClient.v ===== *)
(** * The client side of the MySQL protocol

    [data-proxy/protocol/mysql/src/client/]: the codecs that read the answers of a MySQL
    server ([resultset.rs], [stmt.rs], [codec.rs]) and the connection that sends the
    commands ([conn.rs]).

    A server is the class [MyServer]: it takes the bytes written on a connection and
    gives the chunks that can be read after them.  Connecting ([auth.rs]) is an operation of
    the class.  The end of the chunks is the end of the stream.  An unchecked access
    out of range is undefined behaviour in the code and [Panic] here; texts of errors of
    the standard library are parameters. *)

From S2P Require Import Prelude RustStr PgProtocol MyProtocol.
Import MyProtocol.

Module MyClient.

Definition OK_HEADER : Z := 0.
Definition EOF_HEADER : Z := 254.
Definition ERR_HEADER : Z := 255.

(** [data[4]]: the first byte of the payload. *)
Definition fifth (data : str) : exec Z := match data !! 4%nat with Some c => Ret (byte_val c) | None => Panic end.

Definition is_eof (data : str) : exec bool :=
  if (9 <? length data)%nat then Ret false else x ← fifth data; Ret (x =? EOF_HEADER).
Definition is_ok_packet (data : str) : exec bool :=
  if (length data <=? 7)%nat then Ret false else x ← fifth data; Ret (x =? OK_HEADER).
Definition is_ok_header (b : Z) : bool := b =? OK_HEADER.

(** The length of the command is cut to three bytes. *)
Definition write_command_binary (command : Z) (payload : str) : str :=
  le_bytes 3 (len payload + 1) ++ [byte 0; byte command] ++ payload.

(** ** Result sets *)

Inductive DecodeResultsetState := ColumnCount | ColumnDefs | Rows | RowBinary | Complete.

#[export] Instance resultset_state_eq_dec : EqDecision DecodeResultsetState.
Proof. solve_decision. Defined.

Record ResultsetCodec := mkResultset { rs_next : DecodeResultsetState; rs_col : Z; is_binary : bool; rs_seq : Z }.
Definition new_resultset : ResultsetCodec := mkResultset ColumnCount 0 false 0.
Definition with_rs_binary (b : bool) (c : ResultsetCodec) : ResultsetCodec := mkResultset (rs_next c) (rs_col c) b (rs_seq c).
Definition set_rs_next (s : DecodeResultsetState) (c : ResultsetCodec) : ResultsetCodec := mkResultset s (rs_col c) (is_binary c) (rs_seq c).

(** The packet, the codec and the bytes that follow. *)
Definition decode_column_count (n : nat) (data : str) (c : ResultsetCodec) : exec (str * ResultsetCodec * str) :=
  x ← fifth data;
  if x =? ERR_HEADER then Ret (data, set_rs_next Complete c, [])
  else
    ok ← is_ok_packet data;
    if ok : bool then Ret (take (4 + n) data, set_rs_next Complete c, drop (4 + n) data)
    else
      r ← get_lenc_int (drop 4 (take (4 + n) data));
      Ret (take (4 + n) data, mkResultset ColumnDefs r.1.1.1 (is_binary c) (rs_seq c), drop (4 + n) data).

Definition decode_column_eof (c : ResultsetCodec) : ResultsetCodec := set_rs_next (if is_binary c then RowBinary else Rows) c.

Definition decode_column_info (n : nat) (data : str) (c : ResultsetCodec) : exec (str * ResultsetCodec * str) :=
  let payload := take (4 + n) data in
  let data := drop (4 + n) data in
  eof ← is_eof payload;
  ok ← (if eof : bool then Ret true else is_ok_packet payload);
  Ret (payload, if ok : bool then (if is_empty data then set_rs_next Rows c else decode_column_eof c) else set_rs_next ColumnDefs c, data).

Definition decode_row (n : nat) (data : str) (c : ResultsetCodec) : exec (str * ResultsetCodec * str) :=
  let payload := take (4 + n) data in
  eof ← is_eof payload;
  Ret (payload, set_rs_next (if eof : bool then Complete else Rows) c, drop (4 + n) data).

Definition rs_decode (c : ResultsetCodec) (src : str) : exec (option str * ResultsetCodec * str) :=
  if (length src <? 3)%nat then Ret (None, c, src)
  else
    let n := Z.to_nat (get_length src) in
    if (length src <? 4 + n)%nat then Ret (None, c, src)
    else
      let c := mkResultset (rs_next c) (rs_col c) (is_binary c) (le_val (take 1 (drop 3 src))) in
      match rs_next c with
      | ColumnCount => '(p, c, src) ← decode_column_count n src c; Ret (Some p, c, src)
      | ColumnDefs => '(p, c, src) ← decode_column_info n src c; Ret (Some p, c, src)
      | Rows | RowBinary => '(p, c, src) ← decode_row n src c; Ret (Some p, c, src)
      | Complete => Ret (None, c, src)
      end.

Definition in_rows (s : DecodeResultsetState) : bool := match s with Rows | RowBinary => true | _ => false end.

(** ** Prepared statements *)

Inductive DecodeStmtState := PrepareFirst | PrepareCols | PrepareParams | PrepareComplete.

Record Stmt := mkStmt {
  stmt_id : Z;
  cols_count : Z;
  params_count : Z;
  params_data : list str;
  cols_data : list str;
  st_next : DecodeStmtState
}.
Definition new_stmt : Stmt := mkStmt 0 0 0 [] [] PrepareFirst.
Definition set_st_next (s : DecodeStmtState) (c : Stmt) : Stmt :=
  mkStmt (stmt_id c) (cols_count c) (params_count c) (params_data c) (cols_data c) s.
Definition stmt_is_complete (c : Stmt) : bool := match st_next c with PrepareComplete => true | _ => false end.

(** The packet itself if it is an error. *)
Definition decode_prepare_return (data : str) (c : Stmt) : exec (option str * Stmt) :=
  x ← fifth data;
  if x =? ERR_HEADER then Ret (Some data, c)
  else
    r ← (sid ← get_uint_le 4; cols ← get_uint_le 2; params ← get_uint_le 2; _ ← advance 3; mret (sid, cols, params) : buf _) (drop 5 data);
    let '(sid, cols, params) := r.1 in
    Ret (None, mkStmt sid cols params (params_data c) (cols_data c)
                 (if params =? 0 then if cols =? 0 then PrepareComplete else PrepareCols else PrepareParams)).

Definition decode_prepare_params (data : str) (c : Stmt) : exec Stmt :=
  x ← fifth data;
  Ret (if x =? EOF_HEADER then set_st_next (if 0 <? cols_count c then PrepareCols else PrepareComplete) c
       else mkStmt (stmt_id c) (cols_count c) (params_count c) (params_data c ++ [data]) (cols_data c) (st_next c)).

Definition decode_prepare_cols (data : str) (c : Stmt) : exec Stmt :=
  x ← fifth data;
  Ret (if x =? EOF_HEADER then set_st_next PrepareComplete c
       else mkStmt (stmt_id c) (cols_count c) (params_count c) (params_data c) (cols_data c ++ [data]) (st_next c)).

Definition stmt_decode (c : Stmt) (src : str) : exec (option (option str) * Stmt * str) :=
  if (length src <=? 3)%nat then Ret (None, c, src)
  else
    let n := Z.to_nat (get_length src) in
    if (length src <? n + 4)%nat then Ret (None, c, src)
    else
      let data := take (n + 4) src in
      match st_next c with
      | PrepareFirst => '(r, c) ← decode_prepare_return data c; Ret (Some r, c, drop (n + 4) src)
      | PrepareParams => c ← decode_prepare_params data c; Ret (Some None, c, drop (n + 4) src)
      | PrepareCols => c ← decode_prepare_cols data c; Ret (Some None, c, drop (n + 4) src)
      | PrepareComplete => Ret (Some None, c, src)
      end.

(** ** Other commands *)

(** [src[3]] panics when fewer than four bytes have arrived. *)
Definition common_decode (src : str) : exec (option str * str) :=
  if is_empty src then Ret (None, src)
  else if (length src <? 4)%nat then Panic
  else
    let n := Z.to_nat (get_length src) in
    Ret (if (length src <? 4 + n)%nat then (None, src) else (Some (take (4 + n) src), drop (4 + n) src)).

(** ** Connections *)

(** An open connection: its number, what the gateway believes of its session, the
    codec of the result being read, the bytes read and those to come. *)
Record Framed := mkFramed {
  fr_id : nat;
  fr_db : str;
  fr_charset : str;
  fr_autocommit : option str;
  fr_rs : ResultsetCodec;
  fr_buf : str;
  fr_in : list str
}.

Definition set_io_state (rs : ResultsetCodec) (buf : str) (chunks : list str) (f : Framed) : Framed :=
  mkFramed (fr_id f) (fr_db f) (fr_charset f) (fr_autocommit f) rs buf chunks.
Definition set_fr_db (db : str) (f : Framed) : Framed :=
  mkFramed (fr_id f) db (fr_charset f) (fr_autocommit f) (fr_rs f) (fr_buf f) (fr_in f).
Definition set_charset (name : str) (f : Framed) : Framed :=
  mkFramed (fr_id f) (fr_db f) name (fr_autocommit f) (fr_rs f) (fr_buf f) (fr_in f).
Definition set_autocommit (status : str) (f : Framed) : Framed :=
  mkFramed (fr_id f) (fr_db f) (fr_charset f) (Some status) (fr_rs f) (fr_buf f) (fr_in f).

(** [answer]: an error of the write, or what can be read after it.  [open_link]:
    connect and log in. *)
Class MyServer (Sv : Type) := {
  answer : nat → str → Sv → result str (list str) * Sv;
  open_link : str → str → str → Sv → result str Framed * Sv
}.

Inductive SessionAttr := AttrDB (db : option str) | AttrCharset (name : str) | AttrAutocommit (status : option str).

(** [{data:?}] of a [Vec<u8>]. *)
Definition debug_bytes (data : str) : str := $"[" ++ join ($", ") ((λ c, dec (byte_val c)) <$> data) ++ $"]".

Section Client.
Context {Sv : Type} `{MyServer Sv} (remaining_text : str).

(** [ClientConn::framed], taken by every command: [None] panics. *)
Abbreviation ClientConn := (option Framed).

(** Send a command.  When the write fails, [framed] is gone. *)
Definition send_with (rs : ResultsetCodec) (command : Z) (payload : str) (k : ClientConn) (sv : Sv) : exec (result str unit * ClientConn * Sv) :=
  match k with
  | None => Panic
  | Some f =>
      let '(r, sv) := answer (fr_id f) (write_command_binary command payload) sv in
      Ret (match r with
           | Err e => (Err e, None, sv)
           | Ok chunks => (Ok tt, Some (set_io_state rs (fr_buf f) (fr_in f ++ chunks) f), sv)
           end)
  end.

Definition send_query (sql : str) : ClientConn → Sv → exec (result str unit * ClientConn * Sv) := send_with new_resultset 3 sql.
Definition send_execute (payload : str) : ClientConn → Sv → exec (result str unit * ClientConn * Sv) :=
  send_with (with_rs_binary true new_resultset) 23 payload.

(** [ResultsetStream::poll_next] until it is ready: a packet, an error or the end. *)
Fixpoint rs_read (chunks : list str) (c : ResultsetCodec) (src : str) : exec (option (result str str) * ResultsetCodec * str * list str) :=
  let before := rs_next c in
  match rs_decode c src with
  | Panic => Panic
  | Ret (Some p, c, src) =>
      eof ← (if in_rows before then is_eof p else Ret false);
      Ret (if eof : bool then None else Some (Ok p), c, src, chunks)
  | Ret (None, c, src) =>
      if decide (before = Complete) then Ret (None, c, src, chunks)
      else match chunks with
           | [] => Ret (if is_empty src then None else Some (Err remaining_text), c, src, [])
           | chunk :: chunks => rs_read chunks c (src ++ chunk)
           end
  end.

Definition stream_next (f : Framed) : exec (option (result str str) * Framed) :=
  '(r, rs, buf, chunks) ← rs_read (fr_in f) (fr_rs f) (fr_buf f);
  Ret (r, set_io_state rs buf chunks f).

(** The loop of [send_prepare].  The end of the stream is ignored: with nothing left to
    read, the loop never ends. *)
Fixpoint prepare_loop (fuel : nat) (c : Stmt) (src : str) (chunks : list str) : fueled (result str Stmt * str * list str) :=
  match fuel with
  | O => None
  | S fuel =>
      if stmt_is_complete c then Some (Ret (Ok c, src, chunks))
      else
        match stmt_decode c src with
        | Panic => Some Panic
        | Ret (Some (Some data), c, src) =>
            if is_empty data then prepare_loop fuel c src chunks
            else Some (Ret (Err ($"prepare stmt return error: " ++ debug_bytes data), src, chunks))
        | Ret (Some None, c, src) => prepare_loop fuel c src chunks
        | Ret (None, c, src) =>
            match chunks with
            | [] => if is_empty src then prepare_loop fuel c src [] else Some (Ret (Err remaining_text, src, []))
            | chunk :: chunks => prepare_loop fuel c (src ++ chunk) chunks
            end
        end
  end.

(** One turn per packet and per read is enough. *)
Definition prepare_fuel (src : str) (chunks : list str) : nat := S (length src + length (concat chunks) + length chunks).

Definition send_prepare (sql : str) (k : ClientConn) (sv : Sv) : fueled (result str Stmt * ClientConn * Sv) :=
  match send_with new_resultset 22 sql k sv with
  | Panic => Some Panic
  | Ret (Err e, k, sv) => Some (Ret (Err e, k, sv))
  | Ret (Ok _, None, sv) => Some Panic
  | Ret (Ok _, Some f, sv) =>
      match prepare_loop (prepare_fuel (fr_buf f) (fr_in f)) new_stmt (fr_buf f) (fr_in f) with
      | None => None
      | Some Panic => Some Panic
      | Some (Ret (r, buf, chunks)) => Some (Ret (r, Some (set_io_state (fr_rs f) buf chunks f), sv))
      end
  end.

(** [common_codec.next()]: [None] at the end. *)
Fixpoint common_read (chunks : list str) (src : str) : exec (option (result str str) * str * list str) :=
  match common_decode src with
  | Panic => Panic
  | Ret (Some p, src) => Ret (Some (Ok p), src, chunks)
  | Ret (None, src) =>
      match chunks with
      | [] => Ret (if is_empty src then None else Some (Err remaining_text), src, [])
      | chunk :: chunks => common_read chunks (src ++ chunk)
      end
  end.

(** Send a command with the codec of packets and read one. *)
Definition common_exchange (command : Z) (payload : str) (k : ClientConn) (sv : Sv)
    : exec (result str (option (result str str)) * ClientConn * Sv) :=
  match send_with new_resultset command payload k sv with
  | Panic => Panic
  | Ret (Err e, k, sv) => Ret (Err e, k, sv)
  | Ret (Ok _, None, sv) => Panic
  | Ret (Ok _, Some f, sv) =>
      '(r, buf, chunks) ← common_read (fr_in f) (fr_buf f);
      Ret (Ok r, Some (set_io_state (fr_rs f) buf chunks f), sv)
  end.

Definition send_use_db (db : str) (k : ClientConn) (sv : Sv) : exec (result str bool * ClientConn * Sv) :=
  match common_exchange 2 db k sv with
  | Panic => Panic
  | Ret (Err e, k, sv) => Ret (Err e, k, sv)
  | Ret (Ok None, _, _) => Panic
  | Ret (Ok (Some (Err e)), k, sv) => Ret (Err e, k, sv)
  | Ret (Ok (Some (Ok p)), k, sv) =>
      x ← fifth p;
      Ret (if is_ok_header x then (Ok true, set_fr_db db <$> k, sv) else (Ok false, k, sv))
  end.

Definition send_ping (k : ClientConn) (sv : Sv) : exec (result str bool * ClientConn * Sv) :=
  match common_exchange 14 [] k sv with
  | Panic => Panic
  | Ret (Err e, k, sv) => Ret (Err e, k, sv)
  | Ret (Ok None, k, sv) => Ret (Ok false, k, sv)
  | Ret (Ok (Some (Err e)), k, sv) => Ret (Err e, k, sv)
  | Ret (Ok (Some (Ok p)), k, sv) => x ← fifth p; Ret (Ok (is_ok_header x), k, sv)
  end.

(** [while stream.next().await.is_some() {}]: packets until one leaves the buffer empty;
    then nothing is waited for. *)
Fixpoint discard (fuel : nat) (chunks : list str) (src : str) : exec (str * list str) :=
  match fuel with
  | O => Ret (src, chunks)
  | S fuel =>
      '(r, src, chunks) ← common_read chunks src;
      match r with
      | Some (Ok _) => if is_empty src then Ret (src, chunks) else discard fuel chunks src
      | _ => Ret (src, chunks)
      end
  end.

Definition send_query_discard_result (sql : str) (k : ClientConn) (sv : Sv) : exec (result str unit * ClientConn * Sv) :=
  match send_with new_resultset 3 sql k sv with
  | Panic => Panic
  | Ret (Err e, k, sv) => Ret (Err e, k, sv)
  | Ret (Ok _, None, sv) => Panic
  | Ret (Ok _, Some f, sv) =>
      '(buf, chunks) ← discard (S (length (fr_buf f) + length (concat (fr_in f)))) (fr_in f) (fr_buf f);
      Ret (Ok tt, Some (set_io_state (fr_rs f) buf chunks f), sv)
  end.

Definition get_db (k : ClientConn) : option str := f ← k; if is_empty (fr_db f) then None else Some (fr_db f).
Definition get_charset (k : ClientConn) : option str := fr_charset <$> k.
Definition get_autocommit (k : ClientConn) : option str := f ← k; fr_autocommit f.

(** [self.framed.as_mut().unwrap()]. *)
Definition on_framed (g : Framed → Framed) (k : ClientConn) : exec ClientConn :=
  match k with None => Panic | Some f => Ret (Some (g f)) end.

(** Failures are ignored. *)
Definition init_attr (attr : SessionAttr) (k : ClientConn) (sv : Sv) : exec (ClientConn * Sv) :=
  match attr with
  | AttrDB val =>
      if decide (val = get_db k) then Ret (k, sv)
      else match val with
           | Some db => '(_, k, sv) ← send_use_db db k sv; Ret (k, sv)
           | None => Ret (k, sv)
           end
  | AttrCharset val =>
      if decide (Some val = get_charset k) then Ret (k, sv)
      else k ← on_framed (set_charset val) k; '(_, k, sv) ← send_query_discard_result ($"SET NAMES " ++ val) k sv; Ret (k, sv)
  | AttrAutocommit val =>
      if decide (val = get_autocommit k) then Ret (k, sv)
      else match val with
           | Some v => k ← on_framed (set_autocommit v) k; '(_, k, sv) ← send_query_discard_result ($"SET AUTOCOMMIT = " ++ v) k sv; Ret (k, sv)
           | None => Ret (k, sv)
           end
  end.

Fixpoint client_init (attrs : list SessionAttr) (k : ClientConn) (sv : Sv) : exec (ClientConn * Sv) :=
  match attrs with
  | [] => Ret (k, sv)
  | attr :: attrs => '(k, sv) ← init_attr attr k sv; client_init attrs k sv
  end.
End Client.
End MyClient.
