(* ===== verification/MyBackend.v ===== *)
(** * The MySQL backend: values, statements, connections

    The first part of [runtime/gateway/src/backend/mysql.rs]: the registry of prepared
    statements, the binary encoding of parameters, the decoding of results, and a
    connection with its cache of statements, over the client of [MyClient].

    Floats are their bits; their conversions and their parsing are parameters. *)

From S2P Require Import Prelude RustStr Model GatewayConfig Session Obligations Transport PgProtocol PgText MyProtocol MyClient MyFrontend.
Import MyProtocol MyClient.

Module MyBackend.

(** ** The registry of prepared statements *)

Record PreparedRegistry := mkRegistry { next_id : Z; sql_by_id : gmap str str }.
Definition default_registry : PreparedRegistry := mkRegistry 0 ∅.

Definition quote : ascii := "'".

(** The [?] outside of single-quoted literals; a doubled quote does not end one. *)
Fixpoint placeholders (in_str : bool) (s : str) : Z :=
  match s with
  | [] => 0
  | c :: s =>
      if Ascii.eqb c quote then
        if in_str then
          match s with
          | d :: s' => if Ascii.eqb d quote then placeholders true s' else placeholders false s
          | [] => 0
          end
        else placeholders true s
      else (if negb in_str && Ascii.eqb c "?" then 1 else 0) + placeholders in_str s
  end.
Definition count_mysql_placeholders (sql : str) : Z := Z.min 65535 (placeholders false sql).

Definition registry_prepare (sql : str) (r : PreparedRegistry) : str * Z * PreparedRegistry :=
  let id := (next_id r + 1) mod 2 ^ 32 in
  (dec id, count_mysql_placeholders sql, mkRegistry id (<[dec id := sql]> (sql_by_id r))).
Definition take_sql (sid : str) (r : PreparedRegistry) : option str := sql_by_id r !! sid.
Definition registry_close (sid : str) (r : PreparedRegistry) : PreparedRegistry := mkRegistry (next_id r) (delete sid (sql_by_id r)).
Definition registry_clear (r : PreparedRegistry) : PreparedRegistry := mkRegistry (next_id r) ∅.

(** ** Parameters *)

Inductive MySqlTemporalKind := KDate | KDateTime | KTime.

Definition parse_u8 : str → option Z := parse_unsigned 255.
Definition parse_u16 : str → option Z := parse_unsigned 65535.
Definition parse_u32 : str → option Z := parse_unsigned 4294967295.
Definition within (lo hi v : Z) : bool := (lo <=? v) && (v <=? hi).

Definition parse_mysql_param_date (s : str) : option (Z * Z * Z) :=
  match split "-" (trim s) with
  | [y; m; d] =>
      y ← parse_u16 y; m ← parse_u8 m; d ← parse_u8 d;
      if negb (within 1 12 m) || negb (within 1 31 d) then None else Some (y, m, d)
  | _ => None
  end.

(** The time without its fraction, and the microseconds. *)
Definition split_fraction (s : str) : option (str * Z) :=
  match split_once "." s with
  | Some (hms, frac) =>
      let digits := filter (λ c, is_ascii_digit c = true) frac in
      if is_empty digits || (6 <? length digits)%nat then None
      else us ← parse_u32 (digits ++ replicate (6 - length digits) "0"%char); Some (hms, us)
  | None => Some (s, 0)
  end.

Definition parse_mysql_param_hms_micro (s : str) : option (Z * Z * Z * Z) :=
  x ← split_fraction (trim s);
  match split ":" x.1 with
  | [h; m; sec] =>
      h ← parse_u8 h; m ← parse_u8 m; sec ← parse_u8 sec;
      if (23 <? h) || (59 <? m) || (59 <? sec) then None else Some (h, m, sec, x.2)
  | _ => None
  end.

Definition parse_mysql_param_datetime (s : str) : option (Z * Z * Z * (Z * Z * Z * Z)) :=
  let s := map (λ c, if Ascii.eqb c "T" then " "%char else c) (trim s) in
  x ← split_once " " s;
  d ← parse_mysql_param_date x.1;
  t ← parse_mysql_param_hms_micro x.2;
  Some (d, t).

(** Hours beyond a day are folded into the days. *)
Definition parse_mysql_param_time (s : str) : option (bool * Z * (Z * Z * Z * Z)) :=
  let s := trim s in
  if contains_char s "-" && negb (contains_char s ":") then None
  else
    let '(neg, rest) := match strip_prefix s ($"-") with Some r => (true, trim r) | None => (false, s) end in
    x ← match split_once " " rest with
        | Some (d, t) => days ← parse_u32 d; Some (days, trim t)
        | None => Some (0, rest)
        end;
    y ← split_fraction (trim x.2);
    match split ":" y.1 with
    | [h; m; sec] =>
        h ← parse_u32 h; m ← parse_u8 m; sec ← parse_u8 sec;
        if (59 <? m) || (59 <? sec) || (838 <? h) then None
        else Some (neg, Z.min 4294967295 (x.1 + h / 24), (h mod 24, m, sec, y.2))
    | _ => None
    end.

Definition classify_mysql_temporal_string (s : str) : option MySqlTemporalKind :=
  let t := trim s in
  if is_empty t then None
  else if negb (is_none (parse_mysql_param_datetime t)) then Some KDateTime
  else if negb (is_none (parse_mysql_param_date t)) then Some KDate
  else if negb (is_none (parse_mysql_param_time t)) then Some KTime
  else None.

Definition invalid_param (kind : string) (s : str) : GatewayError :=
  Protocol ($"invalid mysql " ++ $kind ++ $" param '" ++ s ++ $"'").

Definition encode_mysql_binary_date_param (s : str) : GatewayResult str :=
  match parse_mysql_param_date s with
  | None => Err (invalid_param "DATE" s)
  | Some d => Ok (byte 4 :: MyFrontend.date_bytes d)
  end.

Definition encode_mysql_binary_datetime_param (s : str) : GatewayResult str :=
  match parse_mysql_param_datetime s with
  | None => Err (invalid_param "DATETIME" s)
  | Some (d, (h, mi, sec, micro)) =>
      Ok (if micro =? 0 then byte 7 :: MyFrontend.date_bytes d ++ [byte h; byte mi; byte sec]
          else byte 11 :: MyFrontend.date_bytes d ++ [byte h; byte mi; byte sec] ++ le_bytes 4 micro)
  end.

Definition encode_mysql_binary_time_param (s : str) : GatewayResult str :=
  match parse_mysql_param_time s with
  | None => Err (invalid_param "TIME" s)
  | Some (neg, days, (h, m, sec, micro)) =>
      let body := (if neg : bool then byte 1 else byte 0) :: le_bytes 4 days ++ [byte h; byte m; byte sec] in
      Ok (if micro =? 0 then byte 8 :: body else byte 12 :: body ++ le_bytes 4 micro)
  end.

Definition encode_lenc_bytes (data : str) : str :=
  let n := len data in
  (if n <? 251 then [byte n]
   else if n <? 65536 then byte 252 :: le_bytes 2 n
   else if n <? 16777216 then byte 253 :: le_bytes 3 n
   else byte 254 :: le_bytes 8 n) ++ data.

(** The type and whether it is unsigned. *)
Definition gateway_value_mysql_param_type (v : GatewayValue) : ColumnType * bool :=
  match v with
  | Null => (MYSQL_TYPE_NULL, false)
  | Boolean _ => (MYSQL_TYPE_TINY, false)
  | Integer _ => (MYSQL_TYPE_LONGLONG, false)
  | UnsignedInteger _ => (MYSQL_TYPE_LONGLONG, true)
  | Float _ => (MYSQL_TYPE_DOUBLE, false)
  | Decimal _ => (MYSQL_TYPE_NEWDECIMAL, false)
  | VString s =>
      (match classify_mysql_temporal_string s with
       | Some KDate => MYSQL_TYPE_DATE
       | Some KDateTime => MYSQL_TYPE_DATETIME
       | Some KTime => MYSQL_TYPE_TIME
       | None => MYSQL_TYPE_VAR_STRING
       end, false)
  | Bytes _ => (MYSQL_TYPE_BLOB, false)
  end.

Definition encode_binary_param_value (v : GatewayValue) : GatewayResult str :=
  match v with
  | Null => Ok []
  | Boolean b => Ok [if b then byte 1 else byte 0]
  | Integer i => Ok (le_bytes 8 i)
  | UnsignedInteger u => Ok (le_bytes 8 u)
  | Float f => Ok (le_bytes 8 f)
  | Decimal s => Ok (encode_lenc_bytes s)
  | VString s =>
      match classify_mysql_temporal_string s with
      | Some KDate => encode_mysql_binary_date_param s
      | Some KDateTime => encode_mysql_binary_datetime_param s
      | Some KTime => encode_mysql_binary_time_param s
      | None => Ok (encode_lenc_bytes s)
      end
  | Bytes b => Ok (encode_lenc_bytes b)
  end.

Definition param_bitmap_byte (ps : list GatewayValue) (i : nat) : ascii :=
  byte (foldr (λ j a, a + (if default false (MyFrontend.is_null <$> ps !! (8 * i + j)%nat) then 2 ^ Z.of_nat j else 0)) 0 (seq 0 8)).

Fixpoint encode_values (ps : list GatewayValue) : GatewayResult str :=
  match ps with
  | [] => Ok []
  | p :: ps => x ← encode_binary_param_value p; rest ← encode_values ps; Ok (x ++ rest)
  end.

Definition encode_stmt_execute_payload (sid : Z) (ps : list GatewayValue) : GatewayResult str :=
  let head := le_bytes 4 sid ++ [byte 0] ++ le_bytes 4 1 in
  if is_empty ps then Ok head
  else
    vs ← encode_values ps;
    Ok (head ++ (param_bitmap_byte ps <$> seq 0 ((length ps + 7) / 8)) ++ [byte 1]
        ++ concat ((λ p, let t := gateway_value_mysql_param_type p in [byte (type_byte t.1); if t.2 then byte 128 else byte 0]) <$> ps) ++ vs).

(** ** Decoding *)

Definition UNSIGNED_FLAG : Z := 32.
Definition is_unsigned (c : ColumnInfo) : bool := 0 <? Z.land (ci_column_flag c) UNSIGNED_FLAG.

(** [ColumnType::as_ref]. *)
Definition type_name (t : ColumnType) : str :=
  match t with
  | MYSQL_TYPE_DECIMAL => $"decimal" | MYSQL_TYPE_TINY => $"tiny" | MYSQL_TYPE_SHORT => $"short" | MYSQL_TYPE_LONG => $"long"
  | MYSQL_TYPE_FLOAT => $"float" | MYSQL_TYPE_DOUBLE => $"double" | MYSQL_TYPE_NULL => $"null"
  | MYSQL_TYPE_TIMESTAMP => $"timestamp" | MYSQL_TYPE_LONGLONG => $"longlong" | MYSQL_TYPE_INT24 => $"int24"
  | MYSQL_TYPE_DATE => $"date" | MYSQL_TYPE_TIME => $"time" | MYSQL_TYPE_DATETIME => $"datetime" | MYSQL_TYPE_YEAR => $"year"
  | MYSQL_TYPE_NEWDATE => $"newdate" | MYSQL_TYPE_VARCHAR => $"varchar" | MYSQL_TYPE_BIT => $"bit"
  | MYSQL_TYPE_NEWDECIMAL => $"new_decimal" | MYSQL_TYPE_ENUM => $"enum" | MYSQL_TYPE_SET => $"set"
  | MYSQL_TYPE_TINY_BLOB => $"tiny_blob" | MYSQL_TYPE_MEDIUM_BLOB => $"medium_blob" | MYSQL_TYPE_LONG_BLOB => $"long_blob"
  | MYSQL_TYPE_BLOB => $"tiny_blob" | MYSQL_TYPE_VAR_STRING => $"var" | MYSQL_TYPE_STRING => $"string"
  | MYSQL_TYPE_GEOMETRY => $"geometry"
  end.
Definition mysql_column_to_gateway_column (c : ColumnInfo) : Column := mkColumn (ci_column_name c) (type_name (ci_column_type c)).

Definition protocol {A} (s : string) : GatewayResult A := Err (Protocol ($s)).

Definition packet_payload (context : string) (packet : str) : GatewayResult str :=
  if (length packet <? 4)%nat then Err (Protocol ($context ++ $" mysql packet is shorter than the 4-byte header"))
  else Ok (drop 4 packet).

Definition decode_fixed_lenc_int (data : str) (context : string) (value_len total_len : nat) : GatewayResult (Z * bool * nat) :=
  if (length data <? total_len)%nat
  then Err (Protocol ($context ++ $" length-encoded integer is shorter than " ++ dec (Z.of_nat total_len) ++ $" bytes"))
  else Ok (le_val (take value_len (drop 1 data)), false, total_len).

Definition decode_lenc_int (data : str) (context : string) : GatewayResult (Z * bool * nat) :=
  match data with
  | [] => Err (Protocol ($context ++ $" is missing"))
  | c :: _ =>
      let v := byte_val c in
      if v =? 251 then Ok (0, true, 1%nat)
      else if v =? 252 then decode_fixed_lenc_int data context 2 3
      else if v =? 253 then decode_fixed_lenc_int data context 3 4
      else if v =? 254 then decode_fixed_lenc_int data context 8 9
      else Ok (v, false, 1%nat)
  end.

Definition ok_packet_to_gateway_response (payload : str) : GatewayResult GatewayResponse :=
  x ← decode_lenc_int (drop 1 payload) "mysql OK affected rows";
  let id :=
    if (length payload <? 1 + x.2)%nat then None
    else match decode_lenc_int (drop (1 + x.2) payload) "mysql OK last insert id" with
         | Ok y => if 0 <? y.1.1 then Some y.1.1 else None
         | Err _ => None
         end in
  Ok (ROk x.1.1 id).

Definition err_packet_to_gateway_response (payload : str) : GatewayResponse :=
  let code := if (length payload <? 3)%nat then $"HY000" else dec (le_val (take 2 (drop 1 payload))) in
  let offset := if bool_decide (payload !! 3%nat = Some "#"%char) && (9 <=? length payload)%nat then 9%nat else 3%nat in
  let message := if (length payload <? offset)%nat then [] else trim_start (Obligations.from_utf8_lossy (drop offset payload)) in
  RError code (if is_empty message then $"mysql backend error" else message).

Section Values.
Context (f32_to_f64_bits : Z → Z) (f64_parse : str → option Z).

Definition mysql_text_value_to_gateway_value (c : ColumnInfo) (value : str) : GatewayValue :=
  let text := Obligations.from_utf8_lossy value in
  match ci_column_type c with
  | MYSQL_TYPE_TINY | MYSQL_TYPE_SHORT | MYSQL_TYPE_LONG | MYSQL_TYPE_LONGLONG | MYSQL_TYPE_INT24 | MYSQL_TYPE_YEAR =>
      if is_unsigned c then match parse_unsigned (2 ^ 64 - 1) text with Some u => UnsignedInteger u | None => VString text end
      else match parse_signed (2 ^ 63 - 1) text with Some i => Integer i | None => VString text end
  | MYSQL_TYPE_FLOAT | MYSQL_TYPE_DOUBLE => match f64_parse text with Some f => Float f | None => VString text end
  | MYSQL_TYPE_DECIMAL | MYSQL_TYPE_NEWDECIMAL => Decimal text
  | MYSQL_TYPE_BLOB | MYSQL_TYPE_TINY_BLOB | MYSQL_TYPE_MEDIUM_BLOB | MYSQL_TYPE_LONG_BLOB => Bytes value
  | _ => VString text
  end.

(** The row from [cursor] on; [n] is the number of result columns, for the message.
    An end beyond [usize] wraps around and the slice panics. *)
Fixpoint text_values (n cursor : Z) (row : str) (columns : list ColumnInfo) : exec (GatewayResult (list GatewayValue)) :=
  match columns with
  | [] => Ret (if is_empty row then Ok [] else protocol "mysql row has more values than the result column metadata")
  | c :: columns =>
      if is_empty row then Ret (Err (Protocol ($"mysql row has fewer values than the " ++ dec n ++ $" result columns")))
      else
        match decode_lenc_int row "mysql text row value length" with
        | Err e => Ret (Err e)
        | Ok (length, null, pos) =>
            let row := drop pos row in
            let cursor := cursor + Z.of_nat pos in
            if null : bool then r ← text_values n cursor row columns; Ret (vs ← r; Ok (Null :: vs))
            else if 2 ^ 64 <=? cursor + length then Panic
            else if len row <? length then Ret (protocol "mysql text row value length exceeds packet payload")
            else
              r ← text_values n (cursor + length) (drop (Z.to_nat length) row) columns;
              Ret (vs ← r; Ok (mysql_text_value_to_gateway_value c (take (Z.to_nat length) row) :: vs))
        end
  end.
Definition text_row_to_gateway_values (row : str) (columns : list ColumnInfo) : exec (GatewayResult (list GatewayValue)) :=
  text_values (len columns) 0 row columns.

(** An end beyond [usize] wraps around and the slice panics. *)
Definition decode_lenc_bytes (data : str) : exec (GatewayResult (str * nat)) :=
  let slice (n : Z) (hdr : nat) : exec (GatewayResult (str * nat)) :=
    if 2 ^ 64 <=? Z.of_nat hdr + n then Panic
    else if len data <? Z.of_nat hdr + n then Ret (protocol "mysql lenc value exceeds packet")
    else Ret (Ok (take (Z.to_nat n) (drop hdr data), (hdr + Z.to_nat n)%nat)) in
  match data with
  | [] => Ret (protocol "mysql lenc empty")
  | c :: rest =>
      let v := byte_val c in
      if v =? 251 then Ret (Ok ([], 1%nat))
      else if v <? 251 then slice v 1%nat
      else if v =? 252 then if (length data <? 3)%nat then Ret (protocol "mysql lenc 0xfc truncated") else slice (le_val (take 2 rest)) 3%nat
      else if v =? 253 then if (length data <? 4)%nat then Ret (protocol "mysql lenc 0xfd truncated") else slice (le_val (take 3 rest)) 4%nat
      else if v =? 254 then if (length data <? 9)%nat then Ret (protocol "mysql lenc 0xfe truncated") else slice (le_val (take 8 rest)) 9%nat
      else Ret (protocol "mysql lenc unexpected prefix 0xff")
  end.

Definition bad_length (kind : string) (p : str) (need : string) : GatewayError :=
  Protocol ($"mysql binary " ++ $kind ++ $" payload len " ++ dec (len p) ++ $" (need " ++ $need ++ $")").

Definition decode_mysql_binary_date_text (p : str) : GatewayResult str :=
  if is_empty p then Ok ($"0000-00-00")
  else if (length p <? 4)%nat then Err (Protocol ($"mysql binary DATE payload len " ++ dec (len p) ++ $" (need 0 or " ++ [byte 226; byte 137; byte 165] ++ $"4)"))
  else Ok (MyFrontend.date_text p).

Definition decode_mysql_binary_datetime_text (p : str) : GatewayResult str :=
  if is_empty p then Ok ($"0000-00-00 00:00:00")
  else if (length p <? 4)%nat then Err (bad_length "DATETIME" p "0/4/7/11")
  else if (length p =? 4)%nat then Ok (MyFrontend.date_text p ++ $" 00:00:00")
  else if (length p <? 7)%nat then Err (bad_length "DATETIME" p "0/4/7/11")
  else if (length p =? 7)%nat then Ok (MyFrontend.date_text p ++ $" " ++ MyFrontend.hms_text (drop 4 p))
  else if (length p <? 11)%nat then Err (Protocol ($"mysql binary DATETIME micros truncated (len " ++ dec (len p) ++ $")"))
  else Ok (MyFrontend.date_text p ++ $" " ++ MyFrontend.hms_text (drop 4 p) ++ MyFrontend.micro_text (drop 7 p)).

Definition decode_mysql_binary_time_text (p : str) : GatewayResult str :=
  if is_empty p then Ok ($"00:00:00")
  else if (length p <? 8)%nat then Err (bad_length "TIME" p "0/8/12")
  else
    let days := le_val (take 4 (drop 1 p)) in
    micro ← (if (12 <=? length p)%nat then Ok (Some (le_val (take 4 (drop 8 p))))
             else if (length p =? 8)%nat then Ok None
             else Err (Protocol ($"mysql binary TIME unexpected len " ++ dec (len p))));
    Ok ((if le_val (take 1 p) =? 0 then [] else $"-")
        ++ (if 0 <? days then dec days ++ $" " else [])
        ++ MyFrontend.hms_text (drop 5 p)
        ++ match micro with Some us => if us =? 0 then [] else $"." ++ MyFrontend.zero_pad 6 us | None => [] end).

(** An integer of [k] bytes, with or without sign. *)
Definition binary_integer (k : nat) (kind : string) (data : str) (c : ColumnInfo) : GatewayResult (GatewayValue * nat) :=
  if (length data <? k)%nat then Err (Protocol ($"mysql binary " ++ $kind ++ $" truncated"))
  else
    let v := le_val (take k data) in
    Ok (if is_unsigned c then UnsignedInteger v else Integer (to_signed (8 * Z.of_nat k) v), k).

Definition decode_binary_result_value (data : str) (c : ColumnInfo) : exec (GatewayResult (GatewayValue * nat)) :=
  match ci_column_type c with
  | MYSQL_TYPE_TINY => Ret (binary_integer 1 "TINY" data c)
  | MYSQL_TYPE_SHORT | MYSQL_TYPE_YEAR => Ret (binary_integer 2 "SHORT" data c)
  | MYSQL_TYPE_LONG | MYSQL_TYPE_INT24 => Ret (binary_integer 4 "LONG" data c)
  | MYSQL_TYPE_LONGLONG => Ret (binary_integer 8 "LONGLONG" data c)
  | MYSQL_TYPE_FLOAT =>
      Ret (if (length data <? 4)%nat then protocol "mysql binary FLOAT truncated" else Ok (Float (f32_to_f64_bits (le_val (take 4 data))), 4%nat))
  | MYSQL_TYPE_DOUBLE =>
      Ret (if (length data <? 8)%nat then protocol "mysql binary DOUBLE truncated" else Ok (Float (le_val (take 8 data)), 8%nat))
  | MYSQL_TYPE_DATE | MYSQL_TYPE_DATETIME | MYSQL_TYPE_TIMESTAMP | MYSQL_TYPE_TIME | MYSQL_TYPE_NEWDATE =>
      Ret match data with
          | [] => protocol "mysql binary date/time truncated"
          | n :: rest =>
              let n := Z.to_nat (byte_val n) in
              if (length rest <? n)%nat then protocol "mysql binary date/time length exceeds packet"
              else
                let p := take n rest in
                text ← match ci_column_type c with
                       | MYSQL_TYPE_TIME => decode_mysql_binary_time_text p
                       | MYSQL_TYPE_DATE | MYSQL_TYPE_NEWDATE => decode_mysql_binary_date_text p
                       | _ => decode_mysql_binary_datetime_text p
                       end;
                Ok (VString text, S n)
          end
  | _ =>
      r ← decode_lenc_bytes data;
      Ret (x ← r;
           Ok (match ci_column_type c with
               | MYSQL_TYPE_BLOB | MYSQL_TYPE_TINY_BLOB | MYSQL_TYPE_MEDIUM_BLOB | MYSQL_TYPE_LONG_BLOB => Bytes x.1
               | MYSQL_TYPE_DECIMAL | MYSQL_TYPE_NEWDECIMAL => Decimal (Obligations.from_utf8_lossy x.1)
               | _ => VString (Obligations.from_utf8_lossy x.1)
               end, x.2))
  end.

(** The values of the columns from the [i]-th on; what is left is ignored. *)
Fixpoint binary_row_values (null_bitmap : str) (i : nat) (columns : list ColumnInfo) (data : str) : exec (GatewayResult (list GatewayValue)) :=
  match columns with
  | [] => Ret (Ok [])
  | c :: columns =>
      if Z.testbit (le_val (take 1 (drop ((i + 2) / 8) null_bitmap))) (Z.of_nat ((i + 2) mod 8)) then
        r ← binary_row_values null_bitmap (S i) columns data; Ret (vs ← r; Ok (Null :: vs))
      else
        r ← decode_binary_result_value data c;
        match r with
        | Err e => Ret (Err e)
        | Ok (v, n) => r ← binary_row_values null_bitmap (S i) columns (drop n data); Ret (vs ← r; Ok (v :: vs))
        end
  end.

Definition binary_row_to_gateway_values (row : str) (columns : list ColumnInfo) : exec (GatewayResult (list GatewayValue)) :=
  match row with
  | [] => Ret (protocol "mysql binary row payload is empty")
  | c :: rest =>
      let null_len := ((length columns + 7 + 2) / 8)%nat in
      if (length rest <? null_len)%nat then Ret (protocol "mysql binary row shorter than null bitmap")
      else if negb (byte_val c =? 0) then
        Ret (Err (Protocol ($"mysql binary row header expected 0x00, got 0x" ++ hex_digits 2 (byte_val c) [])))
      else binary_row_values (take null_len rest) 0 columns (drop null_len rest)
  end.
End Values.
End MyBackend.
