(* ===== verification/MyConn.v ===== *)
(** * Connections of the MySQL backend

    [runtime/gateway/src/backend/mysql.rs]: reading the answer to a query (as rows, as raw
    packets), and [MySqlBackendConnection] with its cache of prepared statements, over the client of
    [MyClient]. *)

From S2P Require Import Prelude RustStr Model GatewayConfig Session Obligations Transport PgProtocol PgText MyProtocol MyClient MyFrontend MyBackend.
Import MyProtocol MyClient MyBackend.

Module MyConn.

Record BackendPrepared := mkPrepared { bp_stmt_id : Z; bp_param_count : Z; bp_columns : list Column }.
Definition MAX_MYSQL_STMT_CACHE_PER_CONN : nat := 64.

(** [client] is [None] in a factory; its connection is [None] after a failed write. *)
Record MySqlBackendConnection := mkBackendConn {
  mb_endpoint : EndpointConfig;
  mb_pool_key : str;
  mb_database : str;
  mb_client : option (option Framed);
  mb_cache : gmap str BackendPrepared
}.

Definition mysql_pool_key (e : EndpointConfig) (database : str) : str :=
  if is_empty database then e_address e else e_address e ++ $"|" ++ database.
Definition conn_factory (e : EndpointConfig) (database : str) : MySqlBackendConnection :=
  mkBackendConn e (mysql_pool_key e database) database None ∅.

Definition set_client (k : option Framed) (c : MySqlBackendConnection) : MySqlBackendConnection :=
  mkBackendConn (mb_endpoint c) (mb_pool_key c) (mb_database c) (Some k) (mb_cache c).
Definition set_cache (m : gmap str BackendPrepared) (c : MySqlBackendConnection) : MySqlBackendConnection :=
  mkBackendConn (mb_endpoint c) (mb_pool_key c) (mb_database c) (mb_client c) m.

Definition not_open : GatewayError := Backend ($"mysql backend connection is not open").

(** What the header of an answer says.  A failure tells whether the caller still has
    the connection when it returns it. *)
Inductive header_result := HComplete (r : GatewayResponse) | HColumns (l : list ColumnInfo) | HFail (keeps : bool) (e : GatewayError).

Section Conn.
Context {Sv : Type} `{MyServer Sv} (remaining_text : str) (f32_to_f64_bits : Z → Z) (f64_parse : str → option Z).

Abbreviation next := (stream_next remaining_text).

(** ** Packets *)

Definition read_optional_mysql_result_packet (f : Framed) : exec (GatewayResult (option str) * Framed) :=
  '(r, f) ← next f;
  Ret (match r with
       | Some (Ok p) => Ok (Some p)
       | Some (Err e) => Err (Backend ($"read mysql result packet: " ++ e))
       | None => Ok None
       end, f).

Definition read_mysql_result_packet (context : string) (f : Framed) : exec (GatewayResult str * Framed) :=
  '(r, f) ← read_optional_mysql_result_packet f;
  Ret (match r with
       | Ok (Some p) => Ok p
       | Ok None => Err (Backend ($"mysql backend closed while reading " ++ $context))
       | Err e => Err e
       end, f).

(** A packet without its header. *)
Definition read_payload (context : string) (f : Framed) : exec (GatewayResult str * Framed) :=
  '(r, f) ← read_mysql_result_packet context f; Ret (p ← r; packet_payload context p, f).

Fixpoint read_columns (n : nat) (f : Framed) : exec (GatewayResult (list ColumnInfo) * Framed) :=
  match n with
  | O => Ret (Ok [], f)
  | S n =>
      '(r, f) ← read_payload "mysql column definition" f;
      match r with
      | Err e => Ret (Err e, f)
      | Ok p =>
          c ← decode_column p;
          '(r, f) ← read_columns n f;
          Ret (l ← r; Ok (c.1 :: l), f)
      end
  end.

(** The header of an answer, the columns and the packet that ends them.  With
    [careful] the connection is kept on most failures (the prepared path). *)
Definition read_header (careful : bool) (context : string) (f : Framed) : exec (header_result * Framed) :=
  '(r, f) ← read_payload context f;
  match r with
  | Err e => Ret (HFail careful e, f)
  | Ok payload =>
      match payload with
      | [] => Ret (HFail true (Protocol ($context ++ $" packet has empty payload")), f)
      | c :: _ =>
          if byte_val c =? OK_HEADER then
            Ret (match ok_packet_to_gateway_response payload with Ok r => HComplete r | Err e => HFail false e end, f)
          else if byte_val c =? ERR_HEADER then Ret (HComplete (err_packet_to_gateway_response payload), f)
          else
            match decode_lenc_int payload "mysql column count" with
            | Err e => Ret (HFail careful e, f)
            | Ok (n, null, _) =>
                if null : bool then Ret (HFail true (Protocol ($"mysql result set column count cannot be NULL")), f)
                else
                  '(r, f) ← read_columns (Z.to_nat n) f;
                  match r with
                  | Err e => Ret (HFail careful e, f)
                  | Ok infos =>
                      '(r, f) ← read_mysql_result_packet "mysql column eof" f;
                      Ret (match r with Ok _ => HColumns infos | Err e => HFail careful e end, f)
                  end
            end
      end
  end.

(** ** Rows *)

(** [while read_optional_mysql_result_packet(..)?.is_some() {}]. *)
Fixpoint drain_packets (fuel : nat) (f : Framed) : fueled (GatewayResult unit * Framed) :=
  match fuel with
  | O => None
  | S fuel =>
      match read_optional_mysql_result_packet f with
      | Panic => Some Panic
      | Ret (Err e, f) => Some (Ret (Err e, f))
      | Ret (Ok None, f) => Some (Ret (Ok tt, f))
      | Ret (Ok (Some _), f) => drain_packets fuel f
      end
  end.

(** The loop over the rows: the windows that were filled (or left at the end) and taken, and how
    the loop ended.  Past [max] the packets are read and dropped.  [room] is the number of windows
    the receiver takes before it goes away ([None]: it stays); after that the
    packets are drained. *)
Fixpoint row_loop (fuel : nat) (decode : str → exec (GatewayResult Row)) (context : string) (max : option Z) (window : Z) (room : option nat)
    (f : Framed) (total : Z) (truncated : bool) (buf : list Row) : fueled (list (list Row) * GatewayResult unit * Framed) :=
  match fuel with
  | O => None
  | S fuel =>
      match read_optional_mysql_result_packet f with
      | Panic => Some Panic
      | Ret (Err e, f) => Some (Ret ([], Err e, f))
      | Ret (Ok None, f) => Some (Ret (if is_empty buf || bool_decide (room = Some O) then [] else [buf], Ok tt, f))
      | Ret (Ok (Some p), f) =>
          if truncated then row_loop fuel decode context max window room f total true buf
          else
            match packet_payload context p with
            | Err e => Some (Ret ([], Err e, f))
            | Ok payload =>
                if match max with Some m => m <=? total | None => false end
                then row_loop fuel decode context max window room f total true buf
                else
                  match decode payload with
                  | Panic => Some Panic
                  | Ret (Err e) => Some (Ret ([], Err e, f))
                  | Ret (Ok row) =>
                      let buf := buf ++ [row] in
                      if window <=? len buf
                      then if decide (room = Some O)
                           then ebind (drain_packets fuel f) (λ '(r, f), Some (Ret ([], r, f)))
                           else ebind (row_loop fuel decode context max window (pred <$> room) f (total + 1) false [])
                                  (λ '(ws, r, f), Some (Ret (buf :: ws, r, f)))
                      else row_loop fuel decode context max window room f (total + 1) false buf
                  end
            end
      end
  end.

(** One turn per packet; a packet has four bytes at least. *)
Definition row_fuel (f : Framed) : nat := S (length (fr_buf f) + length (concat (fr_in f))).

Definition row_decoder (binary : bool) (infos : list ColumnInfo) (p : str) : exec (GatewayResult Row) :=
  if binary then binary_row_to_gateway_values f32_to_f64_bits p infos else text_row_to_gateway_values f64_parse p infos.
Definition row_context (binary : bool) : string := if binary then "mysql binary row" else "mysql row".
Definition header_context (binary : bool) : string := if binary then "mysql binary query header" else "mysql query header".

(** [read_mysql_query_response] and, for prepared statements, its binary twin. *)
Definition read_mysql_query_response (binary : bool) (mode : ExecuteMode) (f : Framed) : fueled (GatewayResult GatewayResponse * Framed) :=
  match read_header binary (header_context binary) f with
  | Panic => Some Panic
  | Ret (HFail _ e, f) => Some (Ret (Err e, f))
  | Ret (HComplete r, f) => Some (Ret (Ok r, f))
  | Ret (HColumns infos, f) =>
      let max := effective_max_rows mode in
      ebind (row_loop (row_fuel f) (row_decoder binary infos) (row_context binary) max
               (Z.max 1 (default (2 ^ 64 - 1) (mode_window_rows mode))) None f 0 false [])
        (λ '(ws, r, f),
           Some (Ret (_ ← r;
                      Ok (ResultSet (mysql_column_to_gateway_column <$> infos)
                            (match max with Some m => take (Z.to_nat m) (concat ws) | None => concat ws end)), f)))
  end.

Fixpoint read_payloads (n : nat) (context : string) (f : Framed) : exec (GatewayResult (list str) * Framed) :=
  match n with
  | O => Ret (Ok [], f)
  | S n =>
      '(r, f) ← read_payload context f;
      match r with
      | Err e => Ret (Err e, f)
      | Ok p => '(r, f) ← read_payloads n context f; Ret (l ← r; Ok (p :: l), f)
      end
  end.

Fixpoint rest_payloads (fuel : nat) (f : Framed) : fueled (GatewayResult (list str) * Framed) :=
  match fuel with
  | O => None
  | S fuel =>
      match read_optional_mysql_result_packet f with
      | Panic => Some Panic
      | Ret (Err e, f) => Some (Ret (Err e, f))
      | Ret (Ok None, f) => Some (Ret (Ok [], f))
      | Ret (Ok (Some p), f) =>
          match packet_payload "mysql row/eof" p with
          | Err e => Some (Ret (Err e, f))
          | Ok p => ebind (rest_payloads fuel f) (λ '(r, f), Some (Ret (l ← r; Ok (p :: l), f)))
          end
      end
  end.

(** The stream ends before the packet that ends the rows: it is added. *)
Definition with_eof (packets : list str) : list str :=
  match List.last packets [] with
  | c :: _ => if byte_val c =? EOF_HEADER then packets else packets ++ [[byte 254; byte 0; byte 0; byte 0; byte 0]]
  | [] => packets ++ [[byte 254; byte 0; byte 0; byte 0; byte 0]]
  end.

Definition read_mysql_query_passthrough (f : Framed) : fueled (GatewayResult GatewayResponse * Framed) :=
  match read_payload "mysql query header" f with
  | Panic => Some Panic
  | Ret (Err e, f) => Some (Ret (Err e, f))
  | Ret (Ok [], f) => Some (Ret (protocol "mysql query header packet has empty payload", f))
  | Ret (Ok (c :: _ as payload), f) =>
      if (byte_val c =? OK_HEADER) || (byte_val c =? ERR_HEADER) then Some (Ret (Ok (Wire [payload]), f))
      else
        match decode_lenc_int payload "mysql column count" with
        | Err e => Some (Ret (Err e, f))
        | Ok (n, null, _) =>
            if null : bool then Some (Ret (protocol "mysql result set column count cannot be NULL", f))
            else
              match read_payloads (Z.to_nat n) "mysql column definition" f with
              | Panic => Some Panic
              | Ret (Err e, f) => Some (Ret (Err e, f))
              | Ret (Ok columns, f) =>
                  match read_payload "mysql column eof" f with
                  | Panic => Some Panic
                  | Ret (Err e, f) => Some (Ret (Err e, f))
                  | Ret (Ok eof, f) =>
                      ebind (rest_payloads (row_fuel f) f)
                        (λ '(r, f), Some (Ret (rows ← r; Ok (Wire (with_eof (payload :: columns ++ [eof] ++ rows))), f)))
                  end
              end
        end
  end.

(** ** The connection *)

Abbreviation conn_op A := (MySqlBackendConnection → Sv → fueled (GatewayResult A * MySqlBackendConnection * Sv)).

Definition prepared_columns (l : list str) : exec (list Column) :=
  foldr (λ p r, r ← r; if (length p <=? 4)%nat then Ret r else c ← decode_column (drop 4 p); Ret (mysql_column_to_gateway_column c.1 :: r)) (Ret []) l.

Definition get_or_prepare (sql : str) : conn_op BackendPrepared := λ c sv,
  match mb_cache c !! sql with
  | Some p => Some (Ret (Ok p, c, sv))
  | None =>
      match mb_client c with
      | None => Some (Ret (Err not_open, c, sv))
      | Some k =>
          ebind (send_prepare remaining_text sql k sv)
            (λ '(r, k, sv),
               let c := set_client k c in
               match r with
               | Err e => Some (Ret (Err (Backend ($"mysql COM_STMT_PREPARE: " ++ e)), c, sv))
               | Ok stmt =>
                   match prepared_columns (cols_data stmt) with
                   | Panic => Some Panic
                   | Ret columns =>
                       let p := mkPrepared (stmt_id stmt) (params_count stmt) columns in
                       let cache := if (MAX_MYSQL_STMT_CACHE_PER_CONN <=? size (mb_cache c))%nat then ∅ else mb_cache c in
                       Some (Ret (Ok p, set_cache (<[sql := p]> cache) c, sv))
                   end
               end)
      end
  end.

Definition prepare_result_columns (sql : str) : conn_op (list Column) := λ c sv,
  ebind (get_or_prepare sql (set_cache (delete sql (mb_cache c)) c) sv) (λ '(r, c, sv), Some (Ret (bp_columns <$> r, c, sv))).

(** Send, and read the answer from the open connection. *)
Definition exchange {A} (what : string) (send : option Framed → Sv → exec (result str unit * option Framed * Sv))
    (receive : Framed → fueled (GatewayResult A * Framed)) : conn_op A := λ c sv,
  match mb_client c with
  | None => Some (Ret (Err not_open, c, sv))
  | Some k =>
      match send k sv with
      | Panic => Some Panic
      | Ret (Err e, k, sv) => Some (Ret (Err (Backend ($what ++ $": " ++ e)), set_client k c, sv))
      | Ret (Ok _, None, sv) => Some Panic
      | Ret (Ok _, Some f, sv) => ebind (receive f) (λ '(r, f), Some (Ret (r, set_client (Some f) c, sv)))
      end
  end.

Definition simple_query (sql : str) (mode : ExecuteMode) : conn_op GatewayResponse :=
  exchange "write mysql query" (send_query sql)
    (match mode with Passthrough => read_mysql_query_passthrough | _ => read_mysql_query_response false mode end).

Definition param_mismatch (need : Z) (ps : list GatewayValue) : GatewayError :=
  Protocol ($"mysql backend prepare expects " ++ dec need ++ $" parameters, got " ++ dec (len ps)).

(** Prepare, check the number of parameters and encode them. *)
Definition prepare_execute (sql : str) (ps : list GatewayValue) : conn_op str := λ c sv,
  ebind (get_or_prepare sql c sv)
    (λ '(r, c, sv),
       Some (Ret (p ← r; if bp_param_count p =? len ps then encode_stmt_execute_payload (bp_stmt_id p) ps else Err (param_mismatch (bp_param_count p) ps), c, sv))).

Definition execute_prepared (sql : str) (ps : list GatewayValue) (mode : ExecuteMode) : conn_op GatewayResponse := λ c sv,
  ebind (prepare_execute sql ps c sv)
    (λ '(r, c, sv),
       match r with
       | Err e => Some (Ret (Err e, c, sv))
       | Ok payload => exchange "mysql COM_STMT_EXECUTE" (send_execute payload) (read_mysql_query_response true mode) c sv
       end).

(** ** What the pool does with a connection *)

(** [open_link] connects; then the database is selected. *)
Definition build_mysql_conn (c : MySqlBackendConnection) (sv : Sv) : exec (GatewayResult MySqlBackendConnection * Sv) :=
  let e := mb_endpoint c in
  let '(r, sv) := open_link (e_username e) (e_password e) (e_address e) sv in
  match r with
  | Err t => Ret (Err (Backend ($"connect mysql backend: " ++ t)), sv)
  | Ok f =>
      let built k := mkBackendConn e (mb_pool_key c) (mb_database c) (Some k) ∅ in
      if is_empty (mb_database c) then Ret (Ok (built (Some f)), sv)
      else
        '(r, k, sv) ← send_use_db remaining_text (mb_database c) (Some f) sv;
        Ret (match r with
             | Err t => Err (Backend ($"select mysql database: " ++ t))
             | Ok true => Ok (built k)
             | Ok false => Err (Backend ($"mysql backend rejected database '" ++ mb_database c ++ $"'"))
             end, sv)
  end.

Definition ping_mysql_conn (c : MySqlBackendConnection) (sv : Sv) : exec (GatewayResult unit * MySqlBackendConnection * Sv) :=
  match mb_client c with
  | None => Ret (Err not_open, c, sv)
  | Some k =>
      '(r, k, sv) ← send_ping remaining_text k sv;
      Ret (match r with Ok _ => Ok tt | Err t => Err (Backend ($"mysql ping failed: " ++ t)) end, set_client k c, sv)
  end.

Definition attr_db (attr : SessionAttr) : option (option str) := match attr with AttrDB d => Some d | _ => None end.

Definition init_mysql_conn (attrs : list SessionAttr) (c : MySqlBackendConnection) (sv : Sv) : exec (MySqlBackendConnection * Sv) :=
  match mb_client c with
  | None => Ret (c, sv)
  | Some k =>
      '(k, sv) ← client_init remaining_text attrs k sv;
      let c := set_client k c in
      Ret (match List.find (λ a, negb (is_none (attr_db a))) attrs with
           | Some (AttrDB (Some db)) => mkBackendConn (mb_endpoint c) (mysql_pool_key (mb_endpoint c) db) db (mb_client c) (mb_cache c)
           | _ => c
           end, sv)
  end.
End Conn.
End MyConn.
