(* ===== verification/MyConnector.v ===== *)
(** * The MySQL backend connector

    [MySqlBackendConnector] of [runtime/gateway/src/backend/mysql.rs]: the pool of
    connections, the connection held for a transaction (the lease), the registry of
    prepared statements, and the commands.

    A connector is one per client session.  The tasks that read rows behind the client's
    back are kept in the state ([cn_tasks]) and run by [settle]; the world of the pool
    is the server and a flag that tells that a connection panicked. *)

From S2P Require Import ConnPool.
From S2P Require Import Prelude RustStr Model GatewayConfig Session Obligations Transport PgProtocol PgText MyProtocol MyClient MyFrontend MyBackend MyConn.
Import MyProtocol MyClient MyBackend MyConn.

Module MyConnector.

Abbreviation MyPool := (Pool MySqlBackendConnection).
Abbreviation MyPoolConn := (PoolConn MySqlBackendConnection).

(** A task that reads the rows of a result: [leased] if the connection goes back to the
    transaction. *)
Record Producer := mkProducer {
  pr_conn : MyPoolConn;
  pr_infos : list ColumnInfo;
  pr_binary : bool;
  pr_window : Z;
  pr_max : option Z;
  pr_leased : bool
}.

Record Connector {Sv : Type} := mkConnector {
  cn_endpoints : list EndpointConfig;
  cn_pool : MyPool;
  txn_lease : option MyPoolConn;
  cn_prepared : PreparedRegistry;
  cn_tasks : list Producer;
  cn_server : Sv
}.
Arguments Connector : clear implicits.

Inductive Outcome := Done (r : GatewayResponse) | Windows (columns : list Column).

Definition DEFAULT_MYSQL_POOL_SIZE : nat := 16.

Definition effective_database (e : EndpointConfig) (s : SessionState) : str :=
  default [] (match database s with Some d => Some d | None => e_database e end).

Definition mysql_session_attrs (s : SessionState) : list SessionAttr :=
  match database s with Some d => [AttrDB (Some d)] | None => [] end
  ++ match charset s with Some n => [AttrCharset n] | None => [] end
  ++ match autocommit s with Some b => [AttrAutocommit (Some (if b then $"1" else $"0"))] | None => [] end.

(** [rsplit_once]: at the last occurrence. *)
Fixpoint rsplit_once (c : ascii) (s : str) : option (str * str) :=
  match s with
  | [] => None
  | d :: s =>
      match rsplit_once c s with
      | Some (a, b) => Some (d :: a, b)
      | None => if Ascii.eqb d c then Some ([], s) else None
      end
  end.

Definition register_endpoint_factory (e : EndpointConfig) (database : str) (p : MyPool) : MyPool :=
  set_factory (mysql_pool_key e database) (conn_factory e database) p.

Definition no_rows : GatewayResponse := ROk 0 None.
Definition is_rok (r : GatewayResponse) : bool := match r with ROk _ _ => true | _ => false end.

(** [database.replace('`', "``")]. *)
Definition double_backquotes (s : str) : str := concat ((λ c, if Ascii.eqb c "`" then $"``" else [c]) <$> s).

Section Connector.
(** Texts of the standard library: bytes left on a stream, a port that does not parse,
    [{:?}] of a response; and the conversions of floats. *)
Context {Sv : Type} `{MyServer Sv} (remaining_text : str) (port_text : str → str) (debug_response : GatewayResponse → str)
  (f32_to_f64_bits : Z → Z) (f64_parse : str → option Z).

#[local] Instance mysql_conn_like : ConnLike MySqlBackendConnection GatewayError SessionAttr (Sv * bool) := {
  build_conn := λ f '(sv, b), match build_mysql_conn remaining_text f sv with Ret (r, sv) => (r, (sv, b)) | Panic => (Err not_open, (sv, true)) end;
  ping := λ c '(sv, b), match ping_mysql_conn remaining_text c sv with Ret (r, c, sv) => (r, c, (sv, b)) | Panic => (Err not_open, c, (sv, true)) end;
  init_conn := λ c attrs '(sv, b), match init_mysql_conn remaining_text attrs c sv with Ret (c, sv) => (c, (sv, b)) | Panic => (c, (sv, true)) end;
  get_endpoint := mb_pool_key
}.

Abbreviation Conn := (Connector Sv).

Definition with_pool_size (endpoints : list EndpointConfig) (n : nat) (sv : Sv) : Conn :=
  mkConnector Sv endpoints
    (foldl (λ p e, register_endpoint_factory e (default [] (e_database e)) p) (new_pool n) endpoints)
    None default_registry [] sv.
Definition with_endpoints (endpoints : list EndpointConfig) (sv : Sv) : Conn := with_pool_size endpoints DEFAULT_MYSQL_POOL_SIZE sv.

Definition set_pool (p : MyPool) (c : Conn) : Conn := mkConnector Sv (cn_endpoints c) p (txn_lease c) (cn_prepared c) (cn_tasks c) (cn_server c).
Definition set_lease (l : option MyPoolConn) (c : Conn) : Conn := mkConnector Sv (cn_endpoints c) (cn_pool c) l (cn_prepared c) (cn_tasks c) (cn_server c).
Definition set_prepared (r : PreparedRegistry) (c : Conn) : Conn := mkConnector Sv (cn_endpoints c) (cn_pool c) (txn_lease c) r (cn_tasks c) (cn_server c).
Definition set_tasks (l : list Producer) (c : Conn) : Conn := mkConnector Sv (cn_endpoints c) (cn_pool c) (txn_lease c) (cn_prepared c) l (cn_server c).
Definition set_server (sv : Sv) (c : Conn) : Conn := mkConnector Sv (cn_endpoints c) (cn_pool c) (txn_lease c) (cn_prepared c) (cn_tasks c) sv.

(** Code that changes the connector and may fail. *)
Definition cop (A : Type) : Type := Conn → fueled (GatewayResult A * Conn).
Definition cret {A} (a : A) : cop A := λ c, Some (Ret (Ok a, c)).
Definition throw {A} (e : GatewayError) : cop A := λ c, Some (Ret (Err e, c)).
Definition cbind {A B} (m : cop A) (k : A → cop B) : cop B := λ c,
  ebind (m c) (λ '(r, c), match r with Ok a => k a c | Err e => Some (Ret (Err e, c)) end).
Definition lift {A} (r : GatewayResult A) : cop A := λ c, Some (Ret (r, c)).
Definition modify (f : Conn → Conn) : cop unit := λ c, Some (Ret (Ok tt, f c)).
Definition reads {A} (f : Conn → A) : cop A := λ c, Some (Ret (Ok (f c), c)).
#[local] Notation "x <~ m ; k" := (cbind m (λ x, k)) (at level 20, m at level 100, k at level 200, right associativity).
#[local] Notation "' p <~ m ; k" := (cbind m (λ x, match x with p => k end)) (at level 20, p pattern, m at level 100, k at level 200, right associativity).

(** ** Connections and the lease *)

Definition missing_endpoint (name : str) : GatewayError :=
  Configuration ($"mysql backend connector has no configured endpoint '" ++ name ++ $"'").
Definition select_endpoint (s : SessionState) (c : Conn) : GatewayResult EndpointConfig :=
  match backend_endpoint s with
  | Some name => ok_or (missing_endpoint name) (List.find (λ e, bool_decide (e_name e = name)) (cn_endpoints c))
  | None => ok_or (Configuration ($"mysql backend connector has no configured endpoints")) (head (cn_endpoints c))
  end.
Definition selected (s : SessionState) : cop EndpointConfig := λ c, Some (Ret (select_endpoint s c, c)).

Definition parse_endpoint_address (address : str) : GatewayResult (str * Z) :=
  x ← ok_or (Configuration ($"mysql endpoint address '" ++ address ++ $"' must be host:port")) (rsplit_once ":" address);
  port ← ok_or (Configuration ($"mysql endpoint address '" ++ address ++ $"' has invalid port: " ++ port_text x.2)) (parse_unsigned 65535 x.2);
  if is_empty x.1 then Err (Configuration ($"mysql endpoint host must not be empty")) else Ok (x.1, port).

Definition ensure_pool_factory_for_session (e : EndpointConfig) (s : SessionState) : cop str :=
  _ <~ lift (parse_endpoint_address (e_address e));
  let db := effective_database e s in
  let key := mysql_pool_key e db in
  _ <~ modify (λ c, if has_factory key (cn_pool c) then c else set_pool (register_endpoint_factory e db (cn_pool c)) c);
  cret key.

Definition acquire_conn (e : EndpointConfig) (s : SessionState) : cop MyPoolConn :=
  key <~ ensure_pool_factory_for_session e s;
  λ c,
    match get_conn_with_endpoint_session key (mysql_session_attrs s) (cn_pool c) (cn_server c, false) with
    | Panic => Some Panic
    | Ret (r, p, (sv, panicked), _) => if panicked : bool then Some Panic else Some (Ret (r, set_server sv (set_pool p c)))
    end.

(** A [PoolConn] that goes out of scope. *)
Definition dropped (pc : MyPoolConn) : cop unit := modify (λ c, set_pool (drop_conn pc (cn_pool c)) c).

(** [*self.txn_lease.lock() = l]: what was there is dropped. *)
Definition assign_lease (l : option MyPoolConn) (c : Conn) : Conn :=
  set_lease l (match txn_lease c with Some old => set_pool (drop_conn old (cn_pool c)) c | None => c end).
Definition store_lease (pc : MyPoolConn) : cop unit := modify (assign_lease (Some pc)).
Definition release_lease : cop unit := modify (assign_lease None).
Definition keep (in_txn : bool) (pc : MyPoolConn) : cop unit := if in_txn then store_lease pc else dropped pc.

Definition take_or_acquire_lease (e : EndpointConfig) (s : SessionState) : cop MyPoolConn := λ c,
  match txn_lease c with
  | Some pc => Some (Ret (Ok pc, set_lease None c))
  | None => acquire_conn e s c
  end.

(** An operation on the connection; its failure is a value. *)
Definition on_conn {A} (op : MySqlBackendConnection → Sv → fueled (GatewayResult A * MySqlBackendConnection * Sv)) (pc : MyPoolConn)
    : cop (GatewayResult A * MyPoolConn) := λ c,
  match pc_conn pc with
  | None => Some Panic
  | Some b => ebind (op b (cn_server c)) (λ '(r, b, sv), Some (Ret (Ok (r, mk_pool_conn (Some b) (pc_generation pc)), set_server sv c)))
  end.
Definition execute_on_conn (sql : str) (mode : ExecuteMode) : MyPoolConn → cop (GatewayResult GatewayResponse * MyPoolConn) :=
  on_conn (simple_query remaining_text f32_to_f64_bits f64_parse sql mode).

Definition active (s : SessionState) : bool := bool_decide (transaction_state s = Active).
Definition has_transaction_lease (c : Conn) : bool := negb (is_none (txn_lease c)).
Definition in_transaction (s : SessionState) (c : Conn) : bool := active s || has_transaction_lease c.

(** The connection of the transaction, with [BEGIN] if it is new; the answer to
    [BEGIN] when that is not OK. *)
Definition begin_lease (e : EndpointConfig) (s : SessionState) : cop (GatewayResponse + MyPoolConn) :=
  leased <~ reads has_transaction_lease;
  pc <~ take_or_acquire_lease e s;
  if leased : bool then cret (inr pc)
  else
    '(r, pc) <~ execute_on_conn ($"BEGIN") Materialized pc;
    match r with
    | Err err => _ <~ dropped pc; throw err
    | Ok r => if is_rok r then cret (inr pc) else _ <~ store_lease pc; cret (inl r)
    end.
Definition conn_for (in_txn : bool) (e : EndpointConfig) (s : SessionState) : cop (GatewayResponse + MyPoolConn) :=
  if in_txn then begin_lease e s else pc <~ acquire_conn e s; cret (inr pc).

(** ** Statements *)

Definition describe_sql_columns (e : EndpointConfig) (sql : str) (s : SessionState) : cop (list Column) :=
  in_txn <~ reads (in_transaction s);
  pc <~ (if in_txn : bool then take_or_acquire_lease e s else acquire_conn e s);
  '(r, pc) <~ on_conn (prepare_result_columns remaining_text sql) pc;
  _ <~ keep in_txn pc;
  lift r.

Definition execute_simple_query (e : EndpointConfig) (sql : str) (s : SessionState) (mode : ExecuteMode) : cop GatewayResponse :=
  x <~ conn_for (active s) e s;
  match x with
  | inl begin => cret begin
  | inr pc => '(r, pc) <~ execute_on_conn sql mode pc; _ <~ keep (active s) pc; lift r
  end.

Definition arity_error (need : Z) (ps : list GatewayValue) : GatewayError :=
  Protocol ($"mysql prepared Execute expects " ++ dec need ++ $" parameters, got " ++ dec (len ps)).
Definition check_arity (sql : str) (ps : list GatewayValue) : cop unit :=
  let need := count_mysql_placeholders sql in if need =? len ps then cret tt else throw (arity_error need ps).

Definition execute_param_query (e : EndpointConfig) (sql : str) (ps : list GatewayValue) (s : SessionState) (mode : ExecuteMode) : cop GatewayResponse :=
  _ <~ check_arity sql ps;
  if is_empty ps then execute_simple_query e sql s mode
  else
    in_txn <~ reads (in_transaction s);
    x <~ conn_for in_txn e s;
    match x with
    | inl begin => cret begin
    | inr pc =>
        '(r, pc) <~ on_conn (execute_prepared remaining_text f32_to_f64_bits f64_parse sql ps mode) pc;
        _ <~ keep in_txn pc;
        lift r
    end.

(** Write, and read the header and the columns on the same task. *)
Definition open_stream (binary : bool) (what : string) (send : option Framed → Sv → exec (result str unit * option Framed * Sv))
    : MySqlBackendConnection → Sv → fueled (GatewayResult header_result * MySqlBackendConnection * Sv) :=
  exchange what send (λ f, match read_header remaining_text binary (header_context binary) f with Panic => Some Panic | Ret (h, f) => Some (Ret (Ok h, f)) end).

Definition window_of (mode : ExecuteMode) : Z := Z.max 1 (default 256 (mode_window_rows mode)).

Definition after_header (binary : bool) (mode : ExecuteMode) (in_txn : bool) (h : header_result) (pc : MyPoolConn) : cop Outcome :=
  match h with
  | HComplete r => _ <~ keep in_txn pc; cret (Done r)
  | HFail keeps err => _ <~ keep (in_txn && keeps) pc; throw err
  | HColumns infos =>
      _ <~ modify (λ c, set_tasks (cn_tasks c ++ [mkProducer pc infos binary (window_of mode) (effective_max_rows mode) in_txn]) c);
      cret (Windows (mysql_column_to_gateway_column <$> infos))
  end.

Definition execute_simple_query_streaming (e : EndpointConfig) (sql : str) (s : SessionState) (mode : ExecuteMode) (in_txn : bool) : cop Outcome :=
  x <~ conn_for in_txn e s;
  match x with
  | inl begin => cret (Done begin)
  | inr pc =>
      '(r, pc) <~ on_conn (open_stream false "write mysql query" (send_query sql)) pc;
      match r with
      | Err err => _ <~ dropped pc; throw err
      | Ok h => after_header false mode in_txn h pc
      end
  end.

Definition execute_param_query_streaming (e : EndpointConfig) (sql : str) (ps : list GatewayValue) (s : SessionState) (mode : ExecuteMode) (in_txn : bool)
    : cop Outcome :=
  _ <~ check_arity sql ps;
  if is_empty ps then execute_simple_query_streaming e sql s mode in_txn
  else
    x <~ conn_for in_txn e s;
    match x with
    | inl begin => cret (Done begin)
    | inr pc =>
        '(r, pc) <~ on_conn (prepare_execute remaining_text sql ps) pc;
        match r with
        | Err err => _ <~ keep in_txn pc; throw err
        | Ok payload =>
            '(r, pc) <~ on_conn (open_stream true "mysql COM_STMT_EXECUTE" (send_execute payload)) pc;
            match r with
            | Err err => _ <~ keep in_txn pc; throw err
            | Ok h => after_header true mode in_txn h pc
            end
        end
    end.

(** The task of the [i]-th result, once the client has taken [room] windows (all, when
    [None]): the windows it sent; the connection goes back to the transaction or to the
    pool, whatever happened. *)
Definition settle (i : nat) (room : option nat) : cop (list (list Row)) := λ c,
  match cn_tasks c !! i with
  | None => Some (Ret (Ok [], c))
  | Some t =>
      let c := set_tasks (delete i (cn_tasks c)) c in
      let back pc := (_ <~ keep (pr_leased t) pc; cret tt) in
      match pc_conn (pr_conn t) with
      | None => Some Panic
      | Some b =>
          match mb_client b with
          | None => ebind (back (pr_conn t) c) (λ '(_, c), Some (Ret (Ok [], c)))
          | Some None => Some Panic
          | Some (Some f) =>
              ebind (row_loop remaining_text (row_fuel f) (row_decoder f32_to_f64_bits f64_parse (pr_binary t) (pr_infos t))
                       (row_context (pr_binary t)) (pr_max t) (pr_window t) room f 0 false [])
                (λ '(ws, _, f),
                   ebind (back (mk_pool_conn (Some (set_client (Some f) b)) (pc_generation (pr_conn t))) c)
                     (λ '(_, c), Some (Ret (Ok ws, c))))
          end
      end
  end.

(** ** Transactions *)

Definition control_result (r : GatewayResult GatewayResponse) : GatewayResult GatewayResponse :=
  match r with
  | Ok (ROk n i) => Ok (ROk n i)
  | Ok (RError code message) => Err (Backend ($"mysql " ++ code ++ $": " ++ message))
  | Ok other => Err (Backend ($"mysql control statement expected OK response, got " ++ debug_response other))
  | Err e => Err e
  end.

Definition finish_transaction (sql : str) : cop GatewayResponse := λ c,
  match txn_lease c with
  | None => Some (Ret (Ok no_rows, c))
  | Some pc => ('(r, pc) <~ execute_on_conn sql Materialized pc; _ <~ dropped pc; lift (control_result r)) (set_lease None c)
  end.

Definition execute_control_sql (e : EndpointConfig) (sql : str) (s : SessionState) (keep_lease release : bool) : cop GatewayResponse :=
  leased <~ reads has_transaction_lease;
  r <~ (if keep_lease || leased then
          pc <~ take_or_acquire_lease e s;
          '(r, pc) <~ execute_on_conn sql Materialized pc;
          _ <~ (if release then dropped pc else store_lease pc);
          lift r
        else execute_simple_query e sql s Materialized);
  _ <~ (if release then release_lease else cret tt);
  lift (control_result (Ok r)).

(** ** Commands *)

Definition use_database (db : str) (s : SessionState) : cop unit := λ c,
  if has_transaction_lease c then
    match select_endpoint s c with
    | Ok e => (_ <~ execute_control_sql e ($"USE `" ++ double_backquotes db ++ $"`") s true false; cret tt) c
    | Err _ => Some (Ret (Ok tt, c))
    end
  else Some (Ret (Ok tt, c)).

Definition with_database (db : option str) (s : SessionState) : SessionState :=
  mkSession (user s) db (charset s) (autocommit s) (backend_endpoint s) (transaction_state s)
    (prefer_binary_result s) (pg_extended_query s) (pg_extended_error s) (pg_execute_max_rows s)
    (result_truncated s) (pg_portal_name s) (pg_portal_skip_rows s) (pg_drop_portal_hold s)
    (pg_client_extended_frames s) (pg_ext_tcp_hold s).

(** The SQL of a statement, its parameters counted, and the endpoint. *)
Definition registered (sid : str) (ps : list GatewayValue) (s : SessionState) : cop (EndpointConfig * str) :=
  sql <~ reads (λ c, take_sql sid (cn_prepared c));
  match sql with
  | None => throw (Backend ($"unknown mysql prepared statement id '" ++ sid ++ $"'"))
  | Some sql => _ <~ check_arity sql ps; e <~ selected s; cret (e, sql)
  end.

(** A failure of the description is swallowed. *)
Definition described (sql : str) (s : SessionState) : cop (list Column) := λ c,
  match select_endpoint s c with
  | Err _ => Some (Ret (Ok [], c))
  | Ok e => ebind (describe_sql_columns e sql s c) (λ '(r, c), Some (Ret (Ok (match r with Ok l => l | Err _ => [] end), c)))
  end.

Definition execute_with_mode (command : GatewayCommand) (s : SessionState) (mode : ExecuteMode) : cop (GatewayResponse * SessionState) :=
  let same (m : cop GatewayResponse) := (r <~ m; cret (r, s)) in
  match command with
  | Ping => cret (Pong, s)
  | Quit => _ <~ release_lease; _ <~ modify (λ c, set_prepared (registry_clear (cn_prepared c)) c); cret (Bye, s)
  | UseDatabase db => _ <~ use_database db s; cret (no_rows, with_database (Some db) s)
  | Begin => cret (no_rows, with_transaction Active s)
  | Commit => r <~ finish_transaction ($"COMMIT"); cret (r, with_transaction Idle s)
  | Rollback => r <~ finish_transaction ($"ROLLBACK"); cret (r, with_transaction Idle s)
  | Query sql => same (e <~ selected s; execute_simple_query e sql s mode)
  | QueryParams sql ps => same (e <~ selected s; execute_param_query e sql ps s mode)
  | Prepare sql =>
      same (x <~ reads (λ c, registry_prepare sql (cn_prepared c));
            _ <~ modify (set_prepared x.2);
            columns <~ described sql s;
            cret (Prepared x.1.1 x.1.2 columns))
  | Execute sid ps => same ('(e, sql) <~ registered sid ps s; execute_param_query e sql ps s mode)
  | CloseStatement sid => _ <~ modify (λ c, set_prepared (registry_close sid (cn_prepared c)) c); cret (no_rows, s)
  | DescribeSql sql => same (e <~ selected s; columns <~ describe_sql_columns e sql s; cret (RowDescription columns))
  | ClientWire packets => cret (Wire packets, s)
  | PgBackendSync => throw (Unsupported ($"mysql backend does not support PgBackendSync"))
  end.

Definition returns_rows (command : GatewayCommand) : bool :=
  match command with Query _ | QueryParams _ _ | Execute _ _ => true | _ => false end.
Definition has_parameters (command : GatewayCommand) : bool :=
  match command with QueryParams _ _ | Execute _ _ => true | _ => false end.

(** A command that returns rows is streamed; passed through only without parameters. *)
Definition outcome_mode (command : GatewayCommand) (mode : ExecuteMode) : ExecuteMode :=
  let mode := if returns_rows command then promote_row_stream mode else mode in
  match mode with
  | Passthrough => if has_parameters command then from_streaming_config 256 (effective_max_rows mode) else mode
  | _ => mode
  end.
Definition is_streaming (mode : ExecuteMode) : bool := match mode with Streaming _ _ => true | _ => false end.

Definition execute_outcome (command : GatewayCommand) (s : SessionState) (mode : ExecuteMode) : cop (Outcome * SessionState) :=
  let mode := outcome_mode command mode in
  in_txn <~ reads (in_transaction s);
  let whole := ('(r, s) <~ execute_with_mode command s mode; cret (Done r, s)) in
  let same (m : cop Outcome) := (o <~ m; cret (o, s)) in
  if is_streaming mode then
    match command with
    | Query sql => same (e <~ selected s; execute_simple_query_streaming e sql s mode in_txn)
    | QueryParams sql ps => same (e <~ selected s; execute_param_query_streaming e sql ps s mode in_txn)
    | Execute sid ps => same ('(e, sql) <~ registered sid ps s; execute_param_query_streaming e sql ps s mode in_txn)
    | _ => whole
    end
  else whole.
End Connector.
End MyConnector.
