(* ===== verification/MyBackendTheorems.v ===== *)
(** * Properties of the MySQL backend: parameters

    The parameters that the gateway binds on a MySQL server, read the way the protocol
    says, are the parameters of the client. *)

From S2P Require Import Prelude RustStr Model Session Obligations Transport PgProtocol PgText MyProtocol MyProtocolTheorems MyClient MyFrontend MyFrontendTheorems MyBackend.
Import MyProtocol MyProtocolTheorems MyClient MyFrontend MyFrontendTheorems MyBackend.

Module MyBackendTheorems.

(** ** Texts of dates and times *)

Definition date_of (d : Z * Z * Z) : str := let '(y, m, d) := d in zero_pad 4 y ++ $"-" ++ zero_pad 2 m ++ $"-" ++ zero_pad 2 d.
Definition hms_of (t : Z * Z * Z * Z) : str :=
  let '(h, m, s, us) := t in (zero_pad 2 h ++ $":" ++ zero_pad 2 m ++ $":" ++ zero_pad 2 s) ++ fraction us.

(** The text that a string is read back as: the usual text of the date or time that it
    looks like, or the string itself. *)
Definition canonical (s : str) : str :=
  match classify_mysql_temporal_string s with
  | Some KDate => from_option date_of s (parse_mysql_param_date s)
  | Some KDateTime => from_option (λ x, date_of x.1 ++ $" " ++ hms_of x.2) s (parse_mysql_param_datetime s)
  | Some KTime => from_option (λ x, sign x.1.1 ++ days_text x.1.2 (hms_of x.2)) s (parse_mysql_param_time s)
  | None => s
  end.

Lemma is_none_false {A} (o : option A) : negb (is_none o) = true → ∃ a, o = Some a.
Proof. destruct o; [eauto|done]. Qed.

Lemma param_date_trim s : parse_mysql_param_date (trim s) = parse_mysql_param_date s.
Proof. unfold parse_mysql_param_date. by rewrite trim_trim. Qed.
Lemma param_datetime_trim s : parse_mysql_param_datetime (trim s) = parse_mysql_param_datetime s.
Proof. unfold parse_mysql_param_datetime. by rewrite trim_trim. Qed.
Lemma param_time_trim s : parse_mysql_param_time (trim s) = parse_mysql_param_time s.
Proof. unfold parse_mysql_param_time. by rewrite trim_trim. Qed.

(** What a string is classified as, it parses as. *)
Lemma classified s k : classify_mysql_temporal_string s = Some k →
  match k with
  | KDate => ∃ d, parse_mysql_param_date s = Some d
  | KDateTime => ∃ x, parse_mysql_param_datetime s = Some x
  | KTime => ∃ x, parse_mysql_param_time s = Some x
  end.
Proof.
  unfold classify_mysql_temporal_string. rewrite param_date_trim, param_datetime_trim, param_time_trim.
  destruct (is_empty (trim s)); [done|].
  destruct (negb (is_none (parse_mysql_param_datetime s))) eqn:E1; [intros [= <-]; by apply is_none_false|].
  destruct (negb (is_none (parse_mysql_param_date s))) eqn:E2; [intros [= <-]; by apply is_none_false|].
  destruct (negb (is_none (parse_mysql_param_time s))) eqn:E3; [intros [= <-]; by apply is_none_false|done].
Qed.

(** *** Ranges of what was parsed *)

Definition date_range (d : Z * Z * Z) : Prop := let '(y, m, d) := d in 0 ≤ y ≤ 65535 ∧ 0 ≤ m ≤ 255 ∧ 0 ≤ d ≤ 255.
Definition hms_range (t : Z * Z * Z * Z) : Prop :=
  let '(h, m, s, us) := t in 0 ≤ h ≤ 255 ∧ 0 ≤ m ≤ 255 ∧ 0 ≤ s ≤ 255 ∧ 0 ≤ us ≤ 4294967295.

Lemma bind_Some_inv {A B} (m : option A) (k : A → option B) b : m ≫= k = Some b → ∃ a, m = Some a ∧ k a = Some b.
Proof. destruct m as [a|]; [|done]. intros E. by exists a. Qed.

Lemma param_date_range s d : parse_mysql_param_date s = Some d → date_range d.
Proof.
  unfold parse_mysql_param_date. destruct (split "-" (trim s)) as [|a [|b [|c [|]]]]; try done.
  intros (y & Hy & (m & Hm & (e & He & E)%bind_Some_inv)%bind_Some_inv)%bind_Some_inv.
  apply parse_unsigned_bound in Hy, Hm, He. case_match; [done|]. injection E as <-. cbn. lia.
Qed.

Lemma split_fraction_range s x : split_fraction s = Some x → 0 ≤ x.2 ≤ 4294967295.
Proof.
  unfold split_fraction. destruct (split_once "." s) as [[hms frac]|]; [|intros [= <-]; cbn; lia].
  cbv zeta. case_match; [done|]. intros (us & Hu & [= <-])%bind_Some_inv. by apply parse_unsigned_bound in Hu.
Qed.

Lemma param_hms_range s t : parse_mysql_param_hms_micro s = Some t → hms_range t.
Proof.
  unfold parse_mysql_param_hms_micro. intros (x & Hx & E)%bind_Some_inv. apply split_fraction_range in Hx.
  destruct (split ":" x.1) as [|a [|b [|c [|]]]]; try done.
  apply bind_Some_inv in E as (h & Hh & (m & Hm & (e & He & E)%bind_Some_inv)%bind_Some_inv).
  apply parse_unsigned_bound in Hh, Hm, He. case_match; [done|]. injection E as <-. cbn. lia.
Qed.

Lemma param_time_range s neg days t : parse_mysql_param_time s = Some (neg, days, t) → 0 ≤ days ≤ 4294967295 ∧ hms_range t.
Proof.
  unfold parse_mysql_param_time. cbv zeta. case_match; [done|]. destruct (match strip_prefix _ _ with Some _ => _ | None => _ end) as [n rest].
  intros (x & Hx & (y & Hy & E)%bind_Some_inv)%bind_Some_inv. apply split_fraction_range in Hy.
  assert (0 ≤ x.1) as Hd. { destruct (split_once " " rest) as [[d r]|]; [|injection Hx as <-; cbn; lia].
    apply bind_Some_inv in Hx as (v & Hv & [= <-]). by apply parse_unsigned_bound in Hv as []. }
  destruct (split ":" y.1) as [|a [|b [|c [|]]]]; try done.
  apply bind_Some_inv in E as (h & Hh & (m & Hm & (e & He & E)%bind_Some_inv)%bind_Some_inv).
  apply parse_unsigned_bound in Hh, Hm, He. destruct (_ || _); [done|]. injection E as <- <- <-.
  pose proof (Z.mod_pos_bound h 24 ltac:(lia)). pose proof (Z.div_pos h 24 ltac:(lia) ltac:(lia)). cbn. lia.
Qed.

(** *** Payloads *)

Lemma le_prefix k v r : 0 ≤ v < 256 ^ Z.of_nat k → le_val (take k (le_bytes k v ++ r)) = v.
Proof. intros Hv. rewrite take_app_length' by (by rewrite le_bytes_length). by apply le_val_bytes_small. Qed.
Lemma le_one v r : 0 ≤ v ≤ 255 → le_val (take 1 (byte v :: r)) = v.
Proof. intros Hv. cbn [take le_val]. rewrite byte_val_small by lia. change (le_val (take 0 r)) with 0. lia. Qed.

Lemma date_text_bytes d r : date_range d → date_text (date_bytes d ++ r) = date_of d.
Proof.
  destruct d as [[y m] d]. cbn [date_range]. intros (Hy & Hm & Hd). unfold date_text, date_bytes, date_of. rewrite <-app_assoc, le_prefix by (change (256 ^ Z.of_nat 2) with 65536; lia).
  change (drop 2 (le_bytes 2 y ++ [byte m; byte d] ++ r)) with (byte m :: byte d :: r).
  change (drop 3 (le_bytes 2 y ++ [byte m; byte d] ++ r)) with (byte d :: r). by rewrite !le_one by lia.
Qed.

Lemma hms_text_bytes h m s r : 0 ≤ h ≤ 255 → 0 ≤ m ≤ 255 → 0 ≤ s ≤ 255 →
  hms_text (byte h :: byte m :: byte s :: r) = zero_pad 2 h ++ $":" ++ zero_pad 2 m ++ $":" ++ zero_pad 2 s.
Proof. intros Hh Hm Hs. unfold hms_text. cbn [drop]. by rewrite !le_one by lia. Qed.

Lemma date_bytes_length d : length (date_bytes d) = 4%nat.
Proof. by destruct d as [[y m] d]. Qed.
Lemma le_four v r : 0 ≤ v ≤ 4294967295 → le_val (take 4 (le_bytes 4 v ++ r)) = v.
Proof. intros Hv. apply le_prefix. change (256 ^ Z.of_nat 4) with 4294967296. lia. Qed.

Section Parameters.
Context (f32_to_f64_bits : Z → Z).

(** The bytes [p] are those of a value of type [t], and are read as [v]. *)
Definition reads_as (t : ColumnType) (p : str) (v : GatewayValue) : Prop :=
  ∀ r, decode_binary_param_value f32_to_f64_bits (p ++ r) (type_byte t) = Ret (Some (v, len p)).

Lemma reads_prefixed t p text f :
  (∀ data, decode_binary_param_value f32_to_f64_bits data (type_byte t) = prefixed data f) → len p < 256 → f p = Some text →
  reads_as t (byte (len p) :: p) (VString text).
Proof. intros Ht Hl Hf r. cbn [app]. rewrite Ht, (prefixed_app p r f text) by done. cbn [length]. do 3 f_equal. lia. Qed.

Lemma date_sent s d : parse_mysql_param_date s = Some d →
  ∃ p, encode_mysql_binary_date_param s = Ok p ∧ reads_as MYSQL_TYPE_DATE p (VString (date_of d)).
Proof.
  intros Hd. unfold encode_mysql_binary_date_param. rewrite Hd. eexists. split; [done|]. pose proof (date_bytes_length d) as El.
  replace (byte 4) with (byte (len (date_bytes d))) by (by rewrite El).
  apply (reads_prefixed _ _ _ MyFrontend.decode_mysql_binary_date_text); [done|lia|]. unfold MyFrontend.decode_mysql_binary_date_text.
  rewrite (nonempty_le _ 3), El by lia. rewrite <-(app_nil_r (date_bytes d)), date_text_bytes by (by eapply param_date_range). done.
Qed.

Lemma datetime_sent s d t : parse_mysql_param_datetime s = Some (d, t) →
  ∃ p, encode_mysql_binary_datetime_param s = Ok p ∧ reads_as MYSQL_TYPE_DATETIME p (VString (date_of d ++ $" " ++ hms_of t)).
Proof.
  intros Hs. unfold encode_mysql_binary_datetime_param. rewrite Hs. destruct t as [[[h m] s'] us]. eexists. split; [done|].
  unfold parse_mysql_param_datetime in Hs. apply bind_Some_inv in Hs as (x & _ & (d' & Hd & (t' & Ht & [= -> ->])%bind_Some_inv)%bind_Some_inv).
  apply param_date_range in Hd. apply param_hms_range in Ht. cbn [hms_range] in Ht. pose proof (date_bytes_length d) as El.
  unfold hms_of, fraction. destruct (Z.eqb_spec us 0) as [->|Hz].
  - set (p := date_bytes d ++ _). assert (length p = 7%nat) as Ep by (unfold p; by rewrite length_app, El).
    replace (byte 7) with (byte (len p)) by (by rewrite Ep). apply (reads_prefixed _ _ _ MyFrontend.decode_mysql_binary_datetime_text); [done|lia|].
    unfold MyFrontend.decode_mysql_binary_datetime_text. rewrite (nonempty_le _ 6), Ep by lia. cbv beta iota zeta delta [Nat.ltb Nat.leb Nat.eqb].
    unfold p. rewrite date_text_bytes, drop_app_length', hms_text_bytes, app_nil_r by (done || lia). done.
  - set (p := date_bytes d ++ _). assert (length p = 11%nat) as Ep by (unfold p; by rewrite !length_app, El, le_bytes_length).
    replace (byte 11) with (byte (len p)) by (by rewrite Ep). apply (reads_prefixed _ _ _ MyFrontend.decode_mysql_binary_datetime_text); [done|lia|].
    unfold MyFrontend.decode_mysql_binary_datetime_text. rewrite (nonempty_le _ 10), Ep by lia. cbv beta iota zeta delta [Nat.ltb Nat.leb Nat.eqb].
    unfold p. rewrite date_text_bytes by done. rewrite (drop_app_length' (date_bytes d)) by lia. cbn [app]. rewrite hms_text_bytes by lia.
    unfold micro_text. replace (drop 7 _) with (le_bytes 4 us).
    + rewrite <-(app_nil_r (le_bytes 4 us)), le_four by lia. done.
    + by rewrite <-(drop_drop _ 3 4), drop_app_length' by lia.
Qed.

Lemma time_sent s neg days t : parse_mysql_param_time s = Some (neg, days, t) →
  ∃ p, encode_mysql_binary_time_param s = Ok p ∧ reads_as MYSQL_TYPE_TIME p (VString (sign neg ++ days_text days (hms_of t))).
Proof.
  intros Hs. unfold encode_mysql_binary_time_param. rewrite Hs. destruct t as [[[h m] s'] us]. eexists. split; [done|].
  apply param_time_range in Hs as [Hd Ht]. cbn [hms_range] in Ht. cbv zeta. set (b := if neg then byte 1 else byte 0).
  assert (∀ r, (le_val (take 1 (b :: r)) =? 0) = negb neg) as Hneg by (intros r; unfold b; by destruct neg; rewrite le_one by lia).
  assert (∀ r, le_val (take 4 (drop 1 (b :: le_bytes 4 days ++ r))) = days) as Hdays by (intros r; cbn [drop]; by apply le_four).
  assert (∀ r, hms_text (drop 5 (b :: le_bytes 4 days ++ byte h :: byte m :: byte s' :: r)) = zero_pad 2 h ++ $":" ++ zero_pad 2 m ++ $":" ++ zero_pad 2 s') as Hh.
  { intros r. rewrite (skipn_cons 4), drop_app_length' by (by rewrite le_bytes_length). apply hms_text_bytes; lia. }
  unfold hms_of, fraction. destruct (Z.eqb_spec us 0) as [->|Hz].
  - set (p := b :: _). assert (length p = 8%nat) as Ep by done.
    change (byte 8) with (byte (len p)). apply (reads_prefixed _ _ _ MyFrontend.decode_mysql_binary_time_text); [done|lia|].
    unfold MyFrontend.decode_mysql_binary_time_text. rewrite (nonempty_le _ 7), Ep by lia. cbv beta iota zeta delta [Nat.ltb Nat.leb Nat.eqb mbind option_bind].
    unfold p. cbn [app]. rewrite Hneg, Hdays, Hh, !app_nil_r. unfold days_text, sign. by destruct neg.
  - set (p := (b :: _) ++ _). assert (length p = 12%nat) as Ep by done.
    change (byte 12) with (byte (len p)). apply (reads_prefixed _ _ _ MyFrontend.decode_mysql_binary_time_text); [done|lia|].
    unfold MyFrontend.decode_mysql_binary_time_text. rewrite (nonempty_le _ 11), Ep by lia. cbv beta iota zeta delta [Nat.ltb Nat.leb Nat.eqb mbind option_bind].
    unfold p. cbn [app]. rewrite <-!app_assoc. cbn [app]. rewrite Hneg, Hdays, Hh.
    replace (le_val (take 4 (drop 8 _))) with us.
    + rewrite (proj2 (Z.eqb_neq us 0)) by done. unfold days_text, sign. rewrite <-!app_assoc. by destruct neg.
    + change (drop 8 (b :: le_bytes 4 days ++ byte h :: byte m :: byte s' :: le_bytes 4 us)) with (le_bytes 4 us).
      by rewrite <-(app_nil_r (le_bytes 4 us)), le_four by lia.
Qed.

(** ** The parameters of a statement *)

(** What the reader of the frontend makes of a parameter, which has no regard to the flag of
    unsigned numbers and takes decimals for texts. *)
Definition plainly (v : GatewayValue) : GatewayValue :=
  match v with
  | Boolean b => Integer (if b then 1 else 0)
  | UnsignedInteger u => Integer (to_signed 64 u)
  | Decimal s => VString s
  | VString s => VString (canonical s)
  | v => v
  end.

(** A server takes the type and the flag of a parameter into account: 128 marks an unsigned
    number. *)
Definition by_type (ty flag : Z) (v : GatewayValue) : GatewayValue :=
  match v with
  | Integer i => if flag =? 128 then UnsignedInteger (i mod 2 ^ 64) else Integer i
  | VString s => if ty =? type_byte MYSQL_TYPE_NEWDECIMAL then Decimal s else VString s
  | v => v
  end.
Definition flag_table (n : nat) (rest : str) : list Z := (λ i, le_val (take 1 (drop (i * 2 + 1) rest))) <$> seq 0 n.

(** The parameters of [COM_STMT_EXECUTE] as a server reads them. *)
Definition server_reads (payload : str) (n : nat) : eo (list GatewayValue) :=
  let table := drop ((n + 7) / 8 + 1) (drop 9 payload) in
  vs ← try_decode_params_with_count f32_to_f64_bits (drop 9 payload) n;
  mret (zip_with (λ x v, by_type x.1 x.2 v) (zip (type_table n table) (flag_table n table)) vs).

(** What arrives: the protocol has no booleans; a string that looks like a date or a time
    becomes one. *)
Definition received (v : GatewayValue) : GatewayValue :=
  match v with
  | Boolean b => Integer (if b then 1 else 0)
  | VString s => VString (canonical s)
  | v => v
  end.

(** Numbers within their range, texts in UTF-8, no value of 2^63 bytes. *)
Definition rust_value (v : GatewayValue) : Prop :=
  match v with
  | Null | Boolean _ => True
  | Integer i => - 2 ^ 63 ≤ i < 2 ^ 63
  | UnsignedInteger u => 0 ≤ u < 2 ^ 64
  | Float f => 0 ≤ f < 2 ^ 64
  | Decimal s | VString s => is_utf8 s = true ∧ len s < 2 ^ 63
  | Bytes b => len b < 2 ^ 63
  end.

Lemma lenc_same s : len s < 2 ^ 63 → encode_lenc_bytes s = lenc_bytes s.
Proof.
  intros Hl. unfold encode_lenc_bytes, lenc_bytes, put_lenc_int. cbv zeta. f_equal.
  repeat (case_match; rewrite ?Z.ltb_lt, ?Z.ltb_ge, ?Z.eqb_eq, ?Z.eqb_neq, ?Z.leb_le, ?Z.leb_gt in *; try lia; try done).
  by replace (len s) with 0 by lia.
Qed.

Lemma reads_lenc t s v :
  (∀ data, decode_binary_param_value f32_to_f64_bits data (type_byte t) = (x ← read_lenc_bytes data; mret (v x.1, x.2))) → len s < 2 ^ 63 →
  reads_as t (encode_lenc_bytes s) (v s).
Proof. intros Ht Hl r. rewrite Ht, lenc_same, read_lenc_app by done. done. Qed.

Lemma value_sent v : rust_value v → v ≠ Null →
  ∃ p, encode_binary_param_value v = Ok p ∧ reads_as (gateway_value_mysql_param_type v).1 p (plainly v).
Proof.
  intros Hv Hn. destruct v as [|b|i|u|fl|s|s|b]; [done|..]; cbn [rust_value plainly gateway_value_mysql_param_type encode_binary_param_value] in *.
  - eexists. split; [done|]. intros r. by destruct b.
  - eexists. split; [done|]. intros r. exact (fixed_signed 8 64 i r eq_refl eq_refl Hv).
  - eexists. split; [done|]. intros r. transitivity (fixed 8 (le_bytes 8 u ++ r) (λ v, Integer (to_signed 64 v))); [done|].
    unfold fixed. rewrite length_app, le_bytes_length, (proj2 (Nat.ltb_ge _ _)), le_prefix by (done || lia). done.
  - eexists. split; [done|]. intros r. transitivity (fixed 8 (le_bytes 8 fl ++ r) Float); [done|].
    unfold fixed. rewrite length_app, le_bytes_length, (proj2 (Nat.ltb_ge _ _)), le_prefix by (done || lia). done.
  - eexists. split; [done|]. destruct Hv as [Hu Hl]. intros r. transitivity (x ← read_lenc_string (encode_lenc_bytes s ++ r); mret (VString x.1, x.2) : eo _); [done|].
    unfold read_lenc_string. rewrite lenc_same, read_lenc_app by done. cbn. by rewrite Hu.
  - unfold canonical. destruct Hv as [Hu Hl]. destruct (classify_mysql_temporal_string s) as [k|] eqn:E.
    + pose proof (classified s k E) as Hc. destruct k.
      * destruct Hc as [d Hd]. rewrite Hd. by apply date_sent.
      * destruct Hc as [[d t] Hd]. rewrite Hd. by apply datetime_sent.
      * destruct Hc as [[[n d] t] Hd]. rewrite Hd. by apply time_sent.
    + eexists. split; [done|]. intros r. cbn [fst]. rewrite (reads_lenc _ s (λ x, if is_utf8 x then VString x else Bytes x)) by done. by rewrite Hu.
  - eexists. split; [done|]. by apply (reads_lenc _ b Bytes).
Qed.

Lemma param_null_bit ps i v : ps !! i = Some v →
  Z.testbit (le_val (take 1 (drop (i / 8) (param_bitmap_byte ps <$> seq 0 ((length ps + 7) / 8))))) (Z.of_nat (i mod 8)) = is_null v.
Proof.
  intros Hi. pose proof (lookup_lt_Some _ _ _ Hi) as Hlt. pose proof (Nat.div_mod_eq i 8) as Hdm.
  pose proof (Nat.mod_upper_bound i 8 ltac:(lia)) as Hj. set (q := (i / 8)%nat) in *. set (j := (i mod 8)%nat) in *.
  assert (q < (length ps + 7) / 8)%nat as Hq by (apply Nat.div_le_lower_bound; lia).
  assert ((param_bitmap_byte ps <$> seq 0 ((length ps + 7) / 8)) !! q = Some (param_bitmap_byte ps q)) as Hb.
  { rewrite list_lookup_fmap, lookup_seq_lt by done. done. }
  rewrite (drop_S _ _ _ Hb). cbn [take le_val]. rewrite Z.mul_0_r, Z.add_0_r. unfold param_bitmap_byte. rewrite bits_of by done.
  replace (8 * q + j)%nat with i by lia. by rewrite Hi.
Qed.

Lemma values_read nulls r ps : ∀ i,
  Forall rust_value ps →
  (∀ j v, ps !! j = Some v → Z.testbit (le_val (take 1 (drop ((i + j) / 8) nulls))) (Z.of_nat ((i + j) mod 8)) = is_null v) →
  ∃ vs, encode_values ps = Ok vs ∧
    read_values f32_to_f64_bits nulls i ((λ v, type_byte (gateway_value_mysql_param_type v).1) <$> ps) (vs ++ r) = Ret (Some (plainly <$> ps, r)).
Proof.
  induction ps as [|v ps IH]; intros i Hps Hb; [by exists []|]. apply Forall_cons in Hps as [Hv Hps].
  destruct (IH (S i) Hps) as (vs & Ev & Er). { intros j w Hj. replace (S i + j)%nat with (i + S j)%nat by lia. by apply Hb. }
  pose proof (Hb 0%nat v eq_refl) as Hbit. rewrite Nat.add_0_r in Hbit. destruct (decide (v = Null)) as [->|Hne].
  - exists vs. cbn [encode_values encode_binary_param_value]. rewrite Ev. split; [done|]. rewrite !fmap_cons. cbn [read_values]. rewrite Hbit. cbn [is_null].
    erewrite eo_step by reflexivity. cbn [snd Z.to_nat]. rewrite drop_0. erewrite eo_step by exact Er. done.
  - destruct (value_sent v Hv Hne) as (p & Ep & Hr). exists (p ++ vs). cbn [encode_values]. rewrite Ep, Ev. split; [done|].
    rewrite !fmap_cons. cbn [read_values]. rewrite Hbit. assert (is_null v = false) as -> by (by destruct v).
    rewrite <-app_assoc. erewrite eo_step by exact (Hr _). cbn [snd]. rewrite Nat2Z.id, drop_app_length. erewrite eo_step by exact Er. done.
Qed.

(** The type and the flag that a value is sent with. *)
Definition sent_as (v : GatewayValue) : param := ((gateway_value_mysql_param_type v).1, if (gateway_value_mysql_param_type v).2 then 128 else 0, []).

Lemma flag_at (qs : list param) r i q : Forall (λ q : param, 0 ≤ q.1.2 < 256) qs → qs !! i = Some q →
  le_val (take 1 (drop (i * 2 + 1) (param_types qs ++ r))) = q.1.2.
Proof.
  intros Hq. revert i. induction Hq as [|q0 qs Hq0 _ IH]; intros i Hi; [done|]. destruct i as [|i]; cbn [lookup list_lookup] in Hi.
  - injection Hi as ->. cbn -[byte_val byte]. rewrite byte_val_small by done. rewrite take_0. cbn [le_val]. lia.
  - exact (IH i Hi).
Qed.

Lemma by_type_received v : rust_value v → by_type (type_byte (sent_as v).1.1) (sent_as v).1.2 (plainly v) = received v.
Proof.
  intros Hv. destruct v as [|b|i|u|fl|s|s|b]; try done; cbn [rust_value] in Hv.
  - cbn. f_equal. unfold to_signed. change (2 ^ (64 - 1)) with (2 ^ 63).
    destruct (Z.ltb_spec u (2 ^ 63)); [by apply Z.mod_small|]. symmetry. apply (Z.mod_unique _ _ (-1)); lia.
  - cbn. by destruct (classify_mysql_temporal_string s) as [[]|].
Qed.

Lemma plainly_read sid ps :
  0 ≤ sid < 2 ^ 32 → ps ≠ [] → Forall rust_value ps →
  ∃ payload vs, encode_stmt_execute_payload sid ps = Ok payload ∧ le_val (take 4 payload) = sid
    ∧ drop ((length ps + 7) / 8 + 1) (drop 9 payload) = param_types (sent_as <$> ps) ++ vs
    ∧ try_decode_params_with_count f32_to_f64_bits (drop 9 payload) (length ps) = Ret (Some (plainly <$> ps)).
Proof.
  intros Hs Hne Hps. destruct (values_read (param_bitmap_byte ps <$> seq 0 ((length ps + 7) / 8)) [] ps 0 Hps) as (vs & Ev & Er).
  { intros j v Hj. by apply param_null_bit. }
  unfold encode_stmt_execute_payload. assert (is_empty ps = false) as -> by (by destruct ps). rewrite Ev. eexists _, vs. split; [done|]. split.
  { rewrite <-!app_assoc, le_prefix; [done|]. change (256 ^ Z.of_nat 4) with (2 ^ 32). lia. }
  set (nulls := param_bitmap_byte ps <$> _) in *. rewrite (drop_app_length' (_ ++ _ ++ le_bytes 4 1)) by (by rewrite !length_app, !le_bytes_length).
  assert (length nulls = ((length ps + 7) / 8)%nat) as El by (unfold nulls; by rewrite length_fmap, length_seq).
  set (qs := sent_as <$> ps).
  replace (concat _) with (param_types qs).
  2: { unfold param_types, qs. rewrite <-list_fmap_compose. f_equal. apply list_fmap_ext. intros i v _. unfold sent_as. cbn. by destruct (gateway_value_mysql_param_type v).2. }
  assert (length qs = length ps) as Eq by (unfold qs; by rewrite length_fmap).
  split; [by rewrite <-El, <-drop_drop, drop_app_length|]. unfold try_decode_params_with_count.
  rewrite (proj2 (Nat.eqb_neq _ 0)) by (by destruct ps). rewrite <-El, !length_app, param_types_length. cbn [length]. rewrite Eq, !(proj2 (Nat.ltb_ge _ _)) by lia.
  rewrite (drop_app_length nulls), (take_app_length nulls). cbn [app]. rewrite le_one by lia. cbn [Z.eqb Pos.eqb negb].
  replace (drop (length nulls + 1) _) with (param_types qs ++ vs) by (by rewrite <-drop_drop, drop_app_length).
  replace (drop (length nulls + 1 + _) _) with vs.
  2: { rewrite <-!drop_drop, drop_app_length. change (drop 1 (byte 1 :: ?x)) with x. rewrite drop_app_length'; [done|]. rewrite param_types_length. lia. }
  rewrite type_table_take, take_ge by lia. unfold qs. rewrite <-list_fmap_compose. rewrite app_nil_r in Er.
  erewrite eo_step by exact Er. done.
Qed.
(** C29 The parameters of [COM_STMT_EXECUTE], nulls included, are read back by a server that
    goes by the types and the unsigned flags of the packet: the statement
    that was prepared, and every value, numbers of either sign with their
    signedness, floats, decimals, texts and bytes.  A boolean arrives as the number 0 or 1, and
    a string that looks like a date or a time in the usual form of that date or time
    ([lookalikes_change]). *)
Theorem backend_parameters_arrive sid ps :
  0 ≤ sid < 2 ^ 32 → ps ≠ [] → Forall rust_value ps →
  ∃ payload, encode_stmt_execute_payload sid ps = Ok payload ∧ le_val (take 4 payload) = sid
    ∧ server_reads payload (length ps) = Ret (Some (received <$> ps)).
Proof.
  intros Hs Hne Hps. destruct (plainly_read sid ps Hs Hne Hps) as (payload & vs & E & Hsid & Ht & Hr). exists payload. split; [done|]. split; [done|].
  unfold server_reads. rewrite Ht. erewrite eo_step by exact Hr.
  assert (type_table (length ps) (param_types (sent_as <$> ps) ++ vs) = (λ v, type_byte (sent_as v).1.1) <$> ps) as ->.
  { rewrite type_table_take, take_ge by (by rewrite length_fmap). by rewrite <-list_fmap_compose. }
  assert (flag_table (length ps) (param_types (sent_as <$> ps) ++ vs) = (λ v, (sent_as v).1.2) <$> ps) as ->.
  { apply list_eq. intros i. unfold flag_table. rewrite !list_lookup_fmap. destruct (decide (i < length ps)%nat) as [Hi|Hi].
    - rewrite lookup_seq_lt by done. destruct (lookup_lt_is_Some_2 ps i Hi) as [v Hv]. rewrite Hv. cbn [fmap option_fmap option_map]. f_equal.
      rewrite (flag_at _ _ i (sent_as v)); [done| |by rewrite list_lookup_fmap, Hv].
      apply Forall_fmap, list.Forall_forall. intros w _. cbn. by destruct (gateway_value_mysql_param_type w).2.
    - rewrite lookup_seq_ge, (lookup_ge_None_2 ps i) by lia. done. }
  enough (zip_with (λ x v, by_type x.1 x.2 v) (zip ((λ v, type_byte (sent_as v).1.1) <$> ps) ((λ v, (sent_as v).1.2) <$> ps)) (plainly <$> ps)
    = received <$> ps) as -> by done.
  clear -Hps. induction Hps as [|v ps Hv _ IH]; [done|]. cbn [fmap list_fmap zip_with]. f_equal; [by apply by_type_received|exact IH].
Qed.
End Parameters.

Definition five_values : list GatewayValue :=
  [UnsignedInteger (2 ^ 64 - 7); Null; Decimal ($"1.50"); Boolean true; VString ($"2024-05-17 08:30:00")].

Lemma backend_parameters_arrive_witness :
  ∃ payload, encode_stmt_execute_payload 3 five_values = Ok payload ∧ le_val (take 4 payload) = 3
    ∧ server_reads plain_bits payload 5 = Ret (Some (received <$> five_values)).
Proof.
  apply (backend_parameters_arrive plain_bits 3 five_values); [lia|done|].
  repeat constructor; cbn [rust_value]; try lia; by vm_compute.
Defined.

(** A text that only looks like a date or a time, an account number say, is not sent as
    the text that the client bound. *)
Example lookalikes_change :
  canonical ($"2024-1-5") = $"2024-01-05" ∧ canonical ($"1:2:3") = $"01:02:03" ∧ canonical ($"99:00:00") = $"4 03:00:00"
  ∧ (gateway_value_mysql_param_type (VString ($"1:2:3"))).1 = MYSQL_TYPE_TIME.
Proof. by vm_compute. Qed.
End MyBackendTheorems.
