(* ===== verification/MyReadTheorems.v ===== *)
(** * Reading the answers of a MySQL server

    A result set is read whole, wherever the network cuts it, and leaves the connection
    clean; reading terminates on every input. *)

From S2P Require Import Prelude RustStr Model GatewayConfig Session Obligations Transport PgProtocol PgText MyProtocol MyProtocolTheorems MyClient MyFrontend MyBackend MyBackendTheorems MyConn.
Import MyProtocol MyProtocolTheorems MyClient MyBackend MyBackendTheorems MyConn.

Module MyReadTheorems.

(** ** Packets *)

Definition packet (p : ascii * str) : str := le_bytes 3 (len p.2) ++ p.1 :: p.2.
Definition wire_of (l : list (ascii * str)) : str := concat (packet <$> l).

(** A payload that one packet carries. *)
Definition carried (p : str) : Prop := p ≠ [] ∧ len p < 2 ^ 24 - 1.
Definition first_byte (p : str) : Z := le_val (take 1 p).
(** The packets that the client takes for the end of the rows. *)
Definition eof_like (p : str) : bool := (len p <=? 5) && (first_byte p =? EOF_HEADER).

(** The bytes still to be read. *)
Definition pending (f : Framed) : str := fr_buf f ++ concat (fr_in f).

Lemma packet_length p : length (packet p) = (4 + length p.2)%nat.
Proof. unfold packet. rewrite length_app, le_bytes_length. cbn [length]. lia. Qed.

Lemma packet_get_length p r : len p.2 < 2 ^ 24 → get_length (packet p ++ r) = len p.2.
Proof. intros Hl. unfold get_length, packet. rewrite <-app_assoc. apply le_prefix. change (256 ^ Z.of_nat 3) with (2 ^ 24). lia. Qed.

Lemma packet_take p r : take (4 + length p.2) (packet p ++ r) = packet p.
Proof. apply take_app_length'. by rewrite packet_length. Qed.
Lemma packet_drop p r : drop (4 + length p.2) (packet p ++ r) = r.
Proof. apply drop_app_length'. by rewrite packet_length. Qed.
Lemma packet_payload_ok context p : packet_payload context (packet p) = Ok p.2.
Proof.
  unfold packet_payload. rewrite packet_length, (proj2 (Nat.ltb_ge _ _)) by lia. by destruct p as [s p].
Qed.

Lemma fifth_packet p r : p.2 ≠ [] → fifth (packet p ++ r) = Ret (first_byte p.2).
Proof.
  destruct p as [s [|c p]]; [done|]. intros _. unfold fifth, packet, first_byte. cbn [fst snd].
  change ((le_bytes 3 (len (c :: p)) ++ s :: c :: p) ++ r) with (le_bytes 3 (len (c :: p)) ++ s :: c :: p ++ r).
  rewrite lookup_app_r by (rewrite le_bytes_length; lia). rewrite le_bytes_length. cbn [Nat.sub lookup list_lookup take le_val].
  f_equal. change (le_val (take 0 p)) with 0. lia.
Qed.

Lemma is_eof_packet p : p.2 ≠ [] → is_eof (packet p) = Ret (eof_like p.2).
Proof.
  intros Hp. unfold is_eof, eof_like. rewrite packet_length. destruct (Nat.ltb_spec 9 (4 + length p.2)).
  - by rewrite (proj2 (Z.leb_gt _ _)) by lia.
  - rewrite (proj2 (Z.leb_le _ _)) by lia. rewrite <-(app_nil_r (packet p)), fifth_packet by done. done.
Qed.

Lemma is_ok_other p : p.2 ≠ [] → first_byte p.2 ≠ OK_HEADER → is_ok_packet (packet p) = Ret false.
Proof.
  intros Hp H0. unfold is_ok_packet. case_match; [done|]. rewrite <-(app_nil_r (packet p)), fifth_packet by done.
  cbn. by rewrite (proj2 (Z.eqb_neq _ _)).
Qed.

Section Reading.
Context (remaining_text : str).

(** Reads until the packet is there; until then the codec does not move. *)
Lemma rs_read_gather c p rest : ∀ chunks src,
  rs_next c ≠ Complete → len p.2 < 2 ^ 24 → src ++ concat chunks = packet p ++ rest →
  ∃ more chunks', more ++ concat chunks' = rest ∧ rs_read remaining_text chunks c src = rs_read remaining_text chunks' c (packet p ++ more).
Proof.
  intros chunks. induction chunks as [|x chunks IH]; intros src Hc Hl E.
  { exists rest, []. cbn [concat] in E. rewrite app_nil_r in E. by rewrite app_nil_r, E. }
  destruct (decide (length (packet p) ≤ length src)%nat) as [Hle|Hgt].
  { exists (drop (length (packet p)) src), (x :: chunks).
    assert (src = packet p ++ drop (length (packet p)) src) as Es.
    { rewrite <-(take_drop (length (packet p)) src) at 1. f_equal. rewrite <-(take_app_le _ (concat (x :: chunks))) by done. rewrite E. apply take_app_length. }
    rewrite <-Es. split; [|done]. apply (app_inv_head (packet p)). rewrite app_assoc, <-Es. exact E. }
  destruct (IH (src ++ x) Hc Hl) as (more & chunks' & Em & Er). { rewrite <-app_assoc. exact E. }
  exists more, chunks'. split; [done|]. rewrite <-Er. cbn [rs_read].
  assert (rs_decode c src = Ret (None, c, src)) as ->; [|by rewrite decide_False].
  unfold rs_decode. destruct (Nat.ltb_spec (length src) 3); [done|].
  assert (get_length src = len p.2) as ->.
  { unfold get_length. rewrite <-(take_app_le src (concat (x :: chunks))) by done. rewrite E. by apply packet_get_length. }
  rewrite Nat2Z.id. rewrite packet_length in Hgt. by rewrite (proj2 (Nat.ltb_lt _ _)) by lia.
Qed.

(** With the packet in the buffer, the state decides. *)
Lemma rs_decode_packet c p more : len p.2 < 2 ^ 24 →
  rs_decode c (packet p ++ more) =
    (let n := length p.2 in
     let c := mkResultset (rs_next c) (rs_col c) (is_binary c) (byte_val p.1) in
     match rs_next c with
     | ColumnCount => '(q, c, src) ← decode_column_count n (packet p ++ more) c; Ret (Some q, c, src)
     | ColumnDefs => '(q, c, src) ← decode_column_info n (packet p ++ more) c; Ret (Some q, c, src)
     | Rows | RowBinary => '(q, c, src) ← decode_row n (packet p ++ more) c; Ret (Some q, c, src)
     | Complete => Ret (None, c, packet p ++ more)
     end).
Proof.
  intros Hl. unfold rs_decode. rewrite !length_app, packet_length, packet_get_length, Nat2Z.id by done.
  rewrite !(proj2 (Nat.ltb_ge _ _)) by lia.
  replace (le_val (take 1 (drop 3 (packet p ++ more)))) with (byte_val p.1); [done|].
  unfold packet. rewrite <-app_assoc, drop_app_length' by (by rewrite le_bytes_length). cbn [app take le_val]. change (le_val (take 0 (p.2 ++ more))) with 0. lia.
Qed.

(** What [stream_next] leaves of the connection. *)
Definition moved (f f' : Framed) : Prop := f' = set_io_state (fr_rs f') (fr_buf f') (fr_in f') f.
Lemma moved_refl f : moved f f.
Proof. by destruct f. Qed.
Lemma moved_trans f g h : moved f g → moved g h → moved f h.
Proof. unfold moved. intros -> ->. done. Qed.

Lemma next_row f p rest :
  in_rows (rs_next (fr_rs f)) = true → carried p.2 → pending f = packet p ++ rest →
  ∃ f', stream_next remaining_text f = Ret (if eof_like p.2 then None else Some (Ok (packet p)), f') ∧ moved f f' ∧ pending f' = rest
    ∧ rs_next (fr_rs f') = if eof_like p.2 then Complete else Rows.
Proof.
  intros Hs [Hp Hl] E. destruct (rs_read_gather (fr_rs f) p rest (fr_in f) (fr_buf f)) as (more & chunks & Em & Er); [by intros Hc; rewrite Hc in Hs|lia|done|].
  set (c := mkResultset (if eof_like p.2 then Complete else Rows) (rs_col (fr_rs f)) (is_binary (fr_rs f)) (byte_val p.1)).
  exists (set_io_state c more chunks f). split; [|by destruct f]. unfold stream_next. rewrite Er.
  assert (rs_decode (fr_rs f) (packet p ++ more) = Ret (Some (packet p), c, more)) as Ed.
  { rewrite rs_decode_packet by lia. unfold decode_row. cbv zeta. rewrite packet_take, packet_drop, is_eof_packet by done.
    destruct (fr_rs f) as [s ? ? ?]. cbn in Hs |- *. by destruct s. }
  assert (rs_read remaining_text chunks (fr_rs f) (packet p ++ more) = Ret (if eof_like p.2 then None else Some (Ok (packet p)), c, more, chunks)) as ->; [|done].
  destruct chunks; cbn [rs_read]; rewrite Ed, Hs, is_eof_packet by done; cbn; by destruct (eof_like p.2).
Qed.

Lemma next_column f p rest :
  rs_next (fr_rs f) = ColumnDefs → carried p.2 → first_byte p.2 ≠ OK_HEADER → pending f = packet p ++ rest →
  ∃ f', stream_next remaining_text f = Ret (Some (Ok (packet p)), f') ∧ moved f f' ∧ pending f' = rest
    ∧ if eof_like p.2 then in_rows (rs_next (fr_rs f')) = true else rs_next (fr_rs f') = ColumnDefs.
Proof.
  intros Hs [Hp Hl] H0 E. destruct (rs_read_gather (fr_rs f) p rest (fr_in f) (fr_buf f)) as (more & chunks & Em & Er); [by rewrite Hs|lia|done|].
  assert (∃ c, rs_decode (fr_rs f) (packet p ++ more) = Ret (Some (packet p), c, more)
    ∧ if eof_like p.2 then in_rows (rs_next c) = true else rs_next c = ColumnDefs) as (c & Ed & Hc).
  { rewrite rs_decode_packet by lia. cbv zeta. cbn [rs_next]. rewrite Hs. unfold decode_column_info. rewrite packet_take, packet_drop, is_eof_packet by done.
    destruct (eof_like p.2); cbn [mbind exec_bind]; [|rewrite is_ok_other by done; cbn [mbind exec_bind]; eauto]. eexists. split; [done|]. unfold decode_column_eof. by repeat case_match. }
  exists (set_io_state c more chunks f). split; [|by destruct f]. unfold stream_next. rewrite Er.
  assert (rs_read remaining_text chunks (fr_rs f) (packet p ++ more) = Ret (Some (Ok (packet p)), c, more, chunks)) as ->; [|done].
  destruct chunks; cbn [rs_read]; rewrite Ed, Hs; done.
Qed.

Lemma next_count f n s rest :
  rs_next (fr_rs f) = ColumnCount → 0 < n < 2 ^ 16 → pending f = packet (s, put_lenc_int n true) ++ rest →
  ∃ f', stream_next remaining_text f = Ret (Some (Ok (packet (s, put_lenc_int n true))), f') ∧ moved f f' ∧ pending f' = rest
    ∧ rs_next (fr_rs f') = ColumnDefs.
Proof.
  intros Hs Hn E. set (p := (s, put_lenc_int n true)) in *.
  assert (carried p.2 ∧ first_byte p.2 ≠ OK_HEADER ∧ first_byte p.2 ≠ ERR_HEADER) as ([Hp Hl] & H0 & H1).
  { cbn [p snd]. unfold carried, first_byte, put_lenc_int, OK_HEADER, ERR_HEADER. rewrite (proj2 (Z.eqb_neq n 0)) by lia.
    destruct (Z.leb_spec n 250); [|rewrite (proj2 (Z.leb_le _ _)) by lia]; (split; [done|]); rewrite le_one by lia; lia. }
  destruct (rs_read_gather (fr_rs f) p rest (fr_in f) (fr_buf f)) as (more & chunks & Em & Er); [by rewrite Hs|lia|done|].
  assert (∃ c, rs_decode (fr_rs f) (packet p ++ more) = Ret (Some (packet p), c, more) ∧ rs_next c = ColumnDefs) as (c & Ed & Hc).
  { rewrite rs_decode_packet by lia. cbv zeta. cbn [rs_next]. rewrite Hs. unfold decode_column_count. rewrite packet_take, packet_drop, fifth_packet by done.
    cbn [mbind exec_bind]. rewrite (proj2 (Z.eqb_neq _ ERR_HEADER)) by done.
    assert (is_ok_packet (packet p ++ more) = Ret false) as ->.
    { unfold is_ok_packet. case_match; [done|]. rewrite fifth_packet by done. cbn. by rewrite (proj2 (Z.eqb_neq _ _)). }
    cbn [mbind exec_bind]. change (drop 4 (packet p)) with p.2. cbn [p snd]. rewrite <-(app_nil_r (put_lenc_int n true)), lenc_roundtrip; [|lia|by left].
    cbn [mbind exec_bind]. eauto. }
  exists (set_io_state c more chunks f). split; [|by destruct f]. unfold stream_next. rewrite Er.
  assert (rs_read remaining_text chunks (fr_rs f) (packet p ++ more) = Ret (Some (Ok (packet p)), c, more, chunks)) as ->; [|done].
  destruct chunks; cbn [rs_read]; rewrite Ed, Hs; done.
Qed.

Lemma packet_read context f f' p :
  stream_next remaining_text f = Ret (Some (Ok (packet p)), f') →
  read_payload remaining_text context f = Ret (Ok p.2, f') ∧ read_mysql_result_packet remaining_text context f = Ret (Ok (packet p), f')
  ∧ read_optional_mysql_result_packet remaining_text f = Ret (Ok (Some (packet p)), f').
Proof.
  intros E. assert (read_optional_mysql_result_packet remaining_text f = Ret (Ok (Some (packet p)), f')) as Er by (unfold read_optional_mysql_result_packet; by rewrite E).
  unfold read_payload, read_mysql_result_packet. rewrite Er. cbn [mbind exec_bind result_bind]. by rewrite packet_payload_ok.
Qed.

(** ** The columns *)

(** Every column definition is a packet of its own; the server may name the table and the
    column themselves in it. *)
Definition column_packet (c : ColumnInfo) (p : ascii * str) : Prop :=
  sendable_column c ∧ ∃ org_table org_name high, 0 ≤ high < 256 ∧ p.2 = server_column org_table org_name high c ∧ len p.2 < 2 ^ 24 - 1.
Definition column_packets : list ColumnInfo → list (ascii * str) → Prop := Forall2 column_packet.

Lemma column_first org_table org_name high c : first_byte (server_column org_table org_name high c) = 3.
Proof. done. Qed.

Lemma org_lengths org_table org_name high c :
  len org_table ≤ len (server_column org_table org_name high c) ∧ len org_name ≤ len (server_column org_table org_name high c).
Proof. unfold server_column. rewrite !length_app. lia. Qed.

Lemma columns_read infos : ∀ l f rest, column_packets infos l →
  rs_next (fr_rs f) = ColumnDefs → pending f = wire_of l ++ rest →
  ∃ f', read_columns remaining_text (length infos) f = Ret (Ok infos, f') ∧ moved f f' ∧ pending f' = rest ∧ rs_next (fr_rs f') = ColumnDefs.
Proof.
  intros l f rest Hl. revert f. induction Hl as [|c p infos l (Hc & ot & on & high & Hh & Hp & Hlen) Hl IH]; intros f Hs E.
  { exists f. split; [done|]. split; [apply moved_refl|done]. }
  unfold wire_of in E. rewrite fmap_cons in E. cbn [concat] in E. rewrite <-app_assoc in E.
  pose proof (column_first ot on high c) as Hfst. destruct (org_lengths ot on high c) as [Hot Hon]. rewrite <-Hp in Hot, Hon, Hfst.
  destruct (next_column f p (wire_of l ++ rest) Hs) as (f1 & E1 & M1 & P1 & S1); [|by rewrite Hfst|exact E|].
  { split; [|done]. intros He. by rewrite He in Hfst. }
  assert (eof_like p.2 = false) as Heof by (unfold eof_like; by rewrite Hfst, andb_false_r). rewrite Heof in S1.
  destruct (IH f1 S1 P1) as (f2 & E2 & M2 & P2 & S2). exists f2. split; [|split; [by eapply moved_trans|done]].
  cbn [length read_columns]. destruct (packet_read "mysql column definition" f f1 p E1) as (-> & _). cbn [mbind exec_bind]. rewrite Hp.
  rewrite <-(app_nil_r (server_column ot on high c)), server_column_read by (done || lia). cbn [mbind exec_bind]. rewrite E2. done.
Qed.

(** ** The rows *)

(** The rows that are kept, [total] having been kept before. *)
Definition kept (truncated : bool) (max : option Z) (total : Z) (rows : list Row) : list Row :=
  if truncated then [] else match max with Some m => take (Z.to_nat (m - total)) rows | None => rows end.

Definition row_packet (decode : str → exec (GatewayResult Row)) (p : ascii * str) (row : Row) : Prop :=
  carried p.2 ∧ eof_like p.2 = false ∧ decode p.2 = Ret (Ok row).

Lemma kept_done max total rows m : max = Some m → m ≤ total → kept false max total rows = [].
Proof. intros -> Hm. cbn. by replace (Z.to_nat (m - total)) with 0%nat by lia. Qed.

Lemma kept_more max total row rows :
  match max with Some m => m <=? total | None => false end = false → kept false max total (row :: rows) = row :: kept false max (total + 1) rows.
Proof. destruct max as [m|]; cbn; [|done]. intros Hm%Z.leb_gt. replace (Z.to_nat (m - total)) with (S (Z.to_nat (m - (total + 1)))) by lia. done. Qed.

Lemma next_end f p rest :
  in_rows (rs_next (fr_rs f)) = true → carried p.2 → eof_like p.2 = true → pending f = packet p ++ rest →
  ∃ f', read_optional_mysql_result_packet remaining_text f = Ret (Ok None, f') ∧ moved f f' ∧ pending f' = rest ∧ rs_next (fr_rs f') = Complete.
Proof.
  intros Hs Hp He E. destruct (next_row f p rest Hs Hp E) as (f' & E1 & M & P & S). rewrite He in *. exists f'.
  unfold read_optional_mysql_result_packet. by rewrite E1.
Qed.

Lemma rows_read decode context max window e rest l rows :
  Forall2 (row_packet decode) l rows → carried e.2 → eof_like e.2 = true →
  ∀ f fuel total truncated buf,
  in_rows (rs_next (fr_rs f)) = true → pending f = wire_of l ++ packet e ++ rest → (length l < fuel)%nat →
  ∃ ws f', row_loop remaining_text fuel decode context max window None f total truncated buf = Some (Ret (ws, Ok tt, f'))
    ∧ concat ws = buf ++ kept truncated max total rows ∧ moved f f' ∧ pending f' = rest ∧ rs_next (fr_rs f') = Complete.
Proof.
  intros Hrows He Heof. induction Hrows as [|p row l rows (Hp & Hpe & Hd) Hrows IH]; intros f fuel total truncated buf Hs E Hf;
    (destruct fuel as [|fuel]; [cbn in Hf; lia|]).
  - destruct (next_end f e rest Hs He Heof E) as (f' & E1 & M & P & S). exists (if is_empty buf then [] else [buf]), f'. cbn [row_loop]. rewrite E1.
    cbn [bool_decide]. rewrite bool_decide_false, orb_false_r by done. split; [done|]. split; [|done].
    unfold kept. replace (if truncated then [] else _) with (@nil Row) by (destruct truncated, max; by rewrite ?take_nil). by destruct buf; cbn; rewrite ?app_nil_r.
  - unfold wire_of in E. rewrite fmap_cons in E. cbn [concat] in E. rewrite <-app_assoc in E. fold (wire_of l) in E.
    destruct (next_row f p _ Hs Hp E) as (f1 & E1 & M1 & P1 & S1). rewrite Hpe in *. cbn [length] in Hf.
    assert (in_rows (rs_next (fr_rs f1)) = true) as Hs1 by (by rewrite S1).
    assert (∀ total truncated buf, ∃ ws f', row_loop remaining_text fuel decode context max window None f1 total truncated buf = Some (Ret (ws, Ok tt, f'))
      ∧ concat ws = buf ++ kept truncated max total rows ∧ moved f f' ∧ pending f' = rest ∧ rs_next (fr_rs f') = Complete) as Hgo.
    { intros total' truncated' buf'. destruct (IH f1 fuel total' truncated' buf' Hs1 P1 ltac:(lia)) as (ws & f' & H1 & H2 & H3 & H4).
      exists ws, f'. split; [done|]. split; [done|]. split; [by eapply moved_trans|done]. }
    cbn [row_loop]. destruct (packet_read context f f1 p E1) as (_ & _ & ->). destruct truncated; [exact (Hgo total true buf)|]. rewrite packet_payload_ok.
    destruct (match max with Some m => m <=? total | None => false end) eqn:Em.
    { destruct (Hgo total true buf) as (ws & f' & H1 & H2 & H3). exists ws, f'. split; [done|]. split; [|done]. rewrite H2. destruct max as [m|]; [|done].
      apply Z.leb_le in Em. by rewrite (kept_done _ _ (row :: rows) m). }
    rewrite Hd, (kept_more _ _ _ _ Em). destruct (window <=? len (buf ++ [row])).
    + rewrite decide_False by done. destruct (Hgo (total + 1) false []) as (ws & f' & H1 & H2 & H3). exists ((buf ++ [row]) :: ws), f'. cbn [fmap option_fmap option_map]. rewrite H1.
      split; [done|]. split; [|done]. cbn [concat]. rewrite H2. cbn [app]. by rewrite <-app_assoc.
    + destruct (Hgo (total + 1) false (buf ++ [row])) as (ws & f' & H1 & H2 & H3). exists ws, f'. split; [done|]. split; [|done]. rewrite H2. by rewrite <-app_assoc.
Qed.

(** ** A result set *)

Lemma lenc_int_read n context : 0 < n < 2 ^ 16 →
  ∃ c r k, put_lenc_int n true = c :: r ∧ byte_val c ≠ OK_HEADER ∧ byte_val c ≠ ERR_HEADER ∧ decode_lenc_int (c :: r) context = Ok (n, false, k).
Proof.
  intros Hn. unfold put_lenc_int, OK_HEADER, ERR_HEADER. rewrite (proj2 (Z.eqb_neq n 0)) by lia. destruct (Z.leb_spec n 250).
  - eexists _, _, _. split; [done|]. rewrite byte_val_small by lia. split; [lia|]. split; [lia|]. unfold decode_lenc_int. rewrite byte_val_small by lia.
    rewrite !(proj2 (Z.eqb_neq n _)) by lia. done.
  - rewrite (proj2 (Z.leb_le _ _)) by lia. eexists _, _, _. split; [done|]. split; [done|]. split; [done|]. unfold decode_lenc_int. rewrite byte_val_small by lia.
    cbn [Z.eqb Pos.eqb]. unfold decode_fixed_lenc_int. cbn [length]. rewrite le_bytes_length. cbn [Nat.ltb Nat.leb].
    change (drop 1 (byte 252 :: le_bytes 2 n)) with (le_bytes 2 n). rewrite <-(app_nil_r (le_bytes 2 n)), le_prefix by (change (256 ^ Z.of_nat 2) with 65536; lia). done.
Qed.

Lemma header_read careful context f infos s cols e rest :
  rs_next (fr_rs f) = ColumnCount → 0 < len infos < 2 ^ 16 → column_packets infos cols → carried e.2 → eof_like e.2 = true →
  pending f = packet (s, put_lenc_int (len infos) true) ++ wire_of cols ++ packet e ++ rest →
  ∃ f', read_header remaining_text careful context f = Ret (HColumns infos, f') ∧ moved f f' ∧ pending f' = rest ∧ in_rows (rs_next (fr_rs f')) = true.
Proof.
  intros Hs Hn Hc He Heof E. destruct (next_count f _ s _ Hs Hn E) as (f1 & E1 & M1 & P1 & S1).
  destruct (columns_read infos cols f1 _ Hc S1 P1) as (f2 & E2 & M2 & P2 & S2).
  assert (first_byte e.2 ≠ OK_HEADER) as H0 by (unfold eof_like in Heof; apply andb_true_iff in Heof as [_ ->%Z.eqb_eq]; done).
  destruct (next_column f2 e rest S2 He H0 P2) as (f3 & E3 & M3 & P3 & S3). rewrite Heof in S3. exists f3.
  split; [|split; [by eapply moved_trans; [|eapply moved_trans]|done]]. unfold read_header.
  destruct (packet_read context f f1 _ E1) as (-> & _). cbn [mbind exec_bind snd].
  destruct (lenc_int_read (len infos) "mysql column count" Hn) as (c & r & k & -> & Hok & Herr & ->).
  rewrite (proj2 (Z.eqb_neq _ OK_HEADER)), (proj2 (Z.eqb_neq _ ERR_HEADER)) by done. rewrite Nat2Z.id, E2. cbn [mbind exec_bind].
  destruct (packet_read "mysql column eof" f2 f3 e E3) as (_ & -> & _). done.
Qed.

Lemma packets_length l : (length l ≤ length (wire_of l))%nat.
Proof.
  unfold wire_of. induction l as [|p l IH]; [done|]. rewrite fmap_cons. cbn [concat length]. rewrite length_app, packet_length. lia.
Qed.

Lemma wire_app l k : wire_of (l ++ k) = wire_of l ++ wire_of k.
Proof. unfold wire_of. by rewrite fmap_app, concat_app. Qed.

Context (f32_to_f64_bits : Z → Z) (f64_parse : str → option Z).

(** The packets of a result set with these columns and rows: their number, the columns,
    a packet that ends them, the rows and a packet that ends them. *)
Inductive result_packets (binary : bool) (infos : list ColumnInfo) (rows : list Row) : list (ascii * str) → Prop :=
| result_packets_intro s cols e1 l e2 :
    0 < len infos < 2 ^ 16 → column_packets infos cols → carried e1.2 → eof_like e1.2 = true →
    Forall2 (row_packet (row_decoder f32_to_f64_bits f64_parse binary infos)) l rows → carried e2.2 → eof_like e2.2 = true →
    result_packets binary infos rows ((s, put_lenc_int (len infos) true) :: cols ++ e1 :: l ++ [e2]).

Lemma response_read binary mode f infos rows packets rest :
  result_packets binary infos rows packets → rs_next (fr_rs f) = ColumnCount → pending f = wire_of packets ++ rest →
  ∃ f', read_mysql_query_response remaining_text f32_to_f64_bits f64_parse binary mode f
      = Some (Ret (Ok (ResultSet (mysql_column_to_gateway_column <$> infos) (kept false (effective_max_rows mode) 0 rows)), f'))
    ∧ moved f f' ∧ pending f' = rest.
Proof.
  intros [s cols e1 l e2 Hi Hc He1 Ee1 Hl He2 Ee2] Hs E.
  assert (pending f = packet (s, put_lenc_int (len infos) true) ++ wire_of cols ++ packet e1 ++ wire_of l ++ packet e2 ++ rest) as E'.
  { rewrite E. unfold wire_of. rewrite fmap_cons, !fmap_app, fmap_cons, fmap_app. cbn [concat]. rewrite !concat_app. cbn [concat]. rewrite concat_app. cbn [fmap list_fmap concat].
    rewrite app_nil_r, <-!app_assoc. done. }
  destruct (header_read binary (header_context binary) f infos s cols e1 _ Hs Hi Hc He1 Ee1 E') as (f1 & E1 & M1 & P1 & S1).
  unfold read_mysql_query_response. rewrite E1.
  destruct (rows_read (row_decoder f32_to_f64_bits f64_parse binary infos) (row_context binary) (effective_max_rows mode)
    (Z.max 1 (default (2 ^ 64 - 1) (mode_window_rows mode))) e2 rest l rows Hl He2 Ee2 f1 (row_fuel f1) 0 false [] S1 P1) as (ws & f2 & E2 & W & M2 & P2 & _).
  { unfold row_fuel. rewrite <-length_app. fold (pending f1). rewrite P1, length_app. pose proof (packets_length l). lia. }
  exists f2. cbv zeta. rewrite E2. split; [|split; [by eapply moved_trans|done]]. cbn [ebind]. rewrite W. cbn [app]. do 4 f_equal.
  unfold kept. destruct (effective_max_rows mode) as [m|]; [|done]. rewrite Z.sub_0_r. cbn. by rewrite take_take, Nat.min_id.
Qed.

(** ** Termination *)

Lemma exec_bind_inv {A B} (m : exec A) (k : A → exec B) b : m ≫= k = Ret b → ∃ a, m = Ret a ∧ k a = Ret b.
Proof. destruct m as [a|]; [|done]. intros E. by exists a. Qed.

Ltac exec_inv E := repeat (apply exec_bind_inv in E as (? & ? & E)).

(** What a packet leaves in the buffer. *)
Lemma count_leaves n data c q c' rest : decode_column_count n data c = Ret (q, c', rest) → rest = [] ∨ rest = drop (4 + n) data.
Proof.
  unfold decode_column_count. intros E. exec_inv E. case_match; [simplify_eq; by left|]. exec_inv E. case_match; [simplify_eq; by right|].
  exec_inv E. simplify_eq. by right.
Qed.
Lemma info_leaves n data c q c' rest : decode_column_info n data c = Ret (q, c', rest) → rest = drop (4 + n) data.
Proof. unfold decode_column_info. intros E. exec_inv E. by simplify_eq. Qed.
Lemma row_leaves n data c q c' rest : decode_row n data c = Ret (q, c', rest) → rest = drop (4 + n) data.
Proof. unfold decode_row. intros E. exec_inv E. by simplify_eq. Qed.

(** A packet that is taken from the buffer is not there any more; without one, the
    buffer stays. *)
Lemma rs_decode_shrinks c src p c' src' :
  rs_decode c src = Ret (p, c', src') → match p with Some _ => (length src' < length src)%nat | None => src' = src end.
Proof.
  unfold rs_decode. destruct (Nat.ltb_spec (length src) 3) as [|H3]; [by intros [= <- <- <-]|]. cbv zeta.
  destruct (Nat.ltb_spec (length src) (4 + Z.to_nat (get_length src))) as [|Hn]; [by intros [= <- <- <-]|].
  set (n := Z.to_nat (get_length src)) in *. assert (length (drop (4 + n) src) < length src)%nat as Hd by (rewrite length_drop; lia).
  destruct (rs_next _); intros E; [..|by simplify_eq]; apply exec_bind_inv in E as ([[q c1] rest] & E & Er); simplify_eq.
  - apply count_leaves in E as [-> | ->]; [cbn [length]; lia|done].
  - by apply info_leaves in E as ->.
  - by apply row_leaves in E as ->.
  - by apply row_leaves in E as ->.
Qed.

Lemma rs_read_shrinks : ∀ chunks c src p c' src' chunks',
  rs_read remaining_text chunks c src = Ret (Some (Ok p), c', src', chunks') → (length (src' ++ concat chunks') < length (src ++ concat chunks))%nat.
Proof.
  induction chunks as [|x chunks IH]; intros c src p c' src' chunks'; cbn [rs_read];
    (destruct (rs_decode c src) as [[[[q|] c1] src1]|] eqn:Ed; [| |done]); pose proof (rs_decode_shrinks _ _ _ _ _ Ed) as Hs; cbv beta iota in Hs.
  1, 3: destruct (if in_rows (rs_next c) then is_eof q else Ret false) as [[]|]; cbn [mbind exec_bind]; try done; intros [= <- <- <- <-];
    rewrite !length_app; lia.
  - by repeat case_match.
  - subst src1. destruct (decide _); [done|]. intros E%IH. cbn [concat]. rewrite app_assoc. exact E.
Qed.

Lemma packet_shrinks f p f' :
  read_optional_mysql_result_packet remaining_text f = Ret (Ok (Some p), f') → (length (pending f') < length (pending f))%nat.
Proof.
  unfold read_optional_mysql_result_packet, stream_next. destruct (rs_read remaining_text (fr_in f) (fr_rs f) (fr_buf f)) as [[[[r rs] buf] chunks]|] eqn:E; [|done].
  cbn [mbind exec_bind]. destruct r as [[q|]|]; [|done..]. intros [= -> <-]. by apply rs_read_shrinks in E.
Qed.

Lemma drain_packets_ends fuel : ∀ f, (length (pending f) < fuel)%nat → drain_packets remaining_text fuel f ≠ None.
Proof.
  induction fuel as [|fuel IH]; intros f Hf; [lia|]. cbn [drain_packets].
  destruct (read_optional_mysql_result_packet remaining_text f) as [[[[p|]|] f']|] eqn:E; try done. apply IH. apply packet_shrinks in E. lia.
Qed.

Lemma row_loop_ends decode context max window fuel : ∀ room f total truncated buf,
  (length (pending f) < fuel)%nat → row_loop remaining_text fuel decode context max window room f total truncated buf ≠ None.
Proof.
  induction fuel as [|fuel IH]; intros room f total truncated buf Hf; [lia|]. cbn [row_loop].
  destruct (read_optional_mysql_result_packet remaining_text f) as [[[[p|]|] f']|] eqn:E; try done.
  apply packet_shrinks in E. assert (length (pending f') < fuel)%nat as Hf' by lia. pose proof (λ room total truncated buf, IH room f' total truncated buf Hf') as Hgo.
  destruct truncated; [apply Hgo|]. destruct (packet_payload context p) as [payload|]; [|done]. destruct (match max with Some m => m <=? total | None => false end); [apply Hgo|].
  destruct (decode payload) as [[row|]|]; try done. destruct (window <=? _); [|apply Hgo]. destruct (decide _).
  - pose proof (drain_packets_ends fuel f' Hf'). by destruct (drain_packets remaining_text fuel f') as [[[]|]|].
  - specialize (Hgo (pred <$> room) (total + 1) false []). by destruct (row_loop _ _ _ _ _ _ _ _ _ _ _) as [[[[]]|]|].
Qed.

Lemma rest_payloads_ends fuel : ∀ f, (length (pending f) < fuel)%nat → rest_payloads remaining_text fuel f ≠ None.
Proof.
  induction fuel as [|fuel IH]; intros f Hf; [lia|]. cbn [rest_payloads].
  destruct (read_optional_mysql_result_packet remaining_text f) as [[[[p|]|] f']|] eqn:E; try done. apply packet_shrinks in E.
  destruct (packet_payload _ p); [|done]. specialize (IH f' ltac:(lia)). by destruct (rest_payloads remaining_text fuel f') as [[[]|]|].
Qed.

Lemma row_fuel_enough f : (length (pending f) < row_fuel f)%nat.
Proof. unfold row_fuel, pending. rewrite length_app. lia. Qed.

Lemma response_ends binary mode f : read_mysql_query_response remaining_text f32_to_f64_bits f64_parse binary mode f ≠ None.
Proof.
  unfold read_mysql_query_response. destruct (read_header _ _ _ f) as [[[] f1]|]; try done. cbv zeta.
  pose proof (row_loop_ends (row_decoder f32_to_f64_bits f64_parse binary l) (row_context binary) (effective_max_rows mode)
    (Z.max 1 (default (2 ^ 64 - 1) (mode_window_rows mode))) (row_fuel f1) None f1 0 false [] (row_fuel_enough f1)) as Hr.
  by destruct (row_loop _ _ _ _ _ _ _ _ _ _ _) as [[[[]]|]|].
Qed.

Lemma passthrough_ends f : read_mysql_query_passthrough remaining_text f ≠ None.
Proof.
  unfold read_mysql_query_passthrough. destruct (read_payload _ _ f) as [[[[|c p]|] f1]|]; try done. case_match; [done|].
  destruct (decode_lenc_int _ _) as [[[n null] k]|]; [|done]. destruct null; [done|]. destruct (read_payloads _ _ _ f1) as [[[cols|] f2]|]; try done.
  destruct (read_payload _ _ f2) as [[[eof|] f3]|]; try done. pose proof (rest_payloads_ends (row_fuel f3) f3 (row_fuel_enough f3)).
  by destruct (rest_payloads _ _ f3) as [[[]|]|].
Qed.
End Reading.

Section Queries.
Context {Sv : Type} `{MyServer Sv} (remaining_text : str) (f32_to_f64_bits : Z → Z) (f64_parse : str → option Z).


(** Whatever the server sends, the answer to a query is read in finitely many steps. *)
Theorem mysql_query_terminates c sql mode sv : simple_query remaining_text f32_to_f64_bits f64_parse sql mode c sv ≠ None.
Proof.
  unfold simple_query, exchange. destruct (mb_client c) as [k|]; [|done]. destruct (send_query sql k sv) as [[[[|] [f|]] sv']|]; try done.
  set (receive := match mode with Passthrough => _ | _ => _ end).
  assert (receive f ≠ None) as Hr by (unfold receive; destruct mode; first [apply response_ends|apply passthrough_ends]).
  by destruct (receive f) as [[[]|]|].
Qed.

(** [COM_STMT_PREPARE] does not: once the stream has ended, the loop has no end. *)
Lemma prepare_spins fuel c : stmt_is_complete c = false → prepare_loop remaining_text fuel c [] [] = None.
Proof. intros Hc. induction fuel as [|fuel IH]; [done|]. cbn [prepare_loop]. rewrite Hc. exact IH. Qed.
End Queries.
(** ** A server that answers every query with two rows *)

Definition id_column : ColumnInfo := MyFrontend.column_info ($"id") MYSQL_TYPE_LONG.
Definition eof_packet (n : Z) : ascii * str := (byte n, [byte 254; byte 0; byte 0; byte 2; byte 0]).
Definition text_packet (n : Z) (s : str) : ascii * str := (byte n, encode_lenc_bytes s).
(** The column is an alias. *)
Definition id_definition : str := server_column ($"t") ($"ident") 0 id_column.
Definition two_rows : list (ascii * str) :=
  [(byte 1, put_lenc_int 1 true); (byte 2, id_definition); eof_packet 3; text_packet 4 ($"7"); text_packet 5 ($"-1"); eof_packet 6].
(** Cut after each byte. *)
Definition byte_by_byte (s : str) : list str := (λ c, [c]) <$> s.

#[local] Instance two_row_server : MyServer unit := {
  answer := λ _ _ _, (Ok (byte_by_byte (wire_of two_rows)), tt);
  open_link := λ _ _ _ _, (Err [], tt)
}.

Definition no_float (s : str) : option Z := None.
Definition clean_link : Framed := mkFramed 4 [] [] None new_resultset [] [].
Definition some_endpoint : EndpointConfig := mkEndpointConfig ($"primary") MySql ($"db:3306") None RoleReadWrite ($"app") ($"pw") 1 SslDisable None false.
Definition clean_conn : MySqlBackendConnection := mkBackendConn some_endpoint ($"db:3306") [] (Some (Some clean_link)) ∅.


(** A column without a name, as the result of SELECT with an empty text, is named by a NUL byte. *)
Example empty_name_read :
  match decode_column (put_lenc_int 3 false ++ $"def" ++ concat (replicate 5 [byte 0]) ++ [byte 12; byte 33; byte 0] ++ le_bytes 4 0 ++ [byte 253] ++ replicate 5 (byte 0)) with
  | Ret (c, _) => Some (ci_column_name c)
  | Panic => None
  end = Some [nul].
Proof. by vm_compute. Qed.
End MyReadTheorems.
