(* ===== verification/MyConnectorTheorems.v ===== *)
(** * Transactions of the MySQL backend

    Every statement of a transaction goes to the connection that the transaction holds; a
    statement whose rows are streamed is not answered with raw packets.

    [MyConnectorRuns]: concrete runs. *)

From S2P Require Import ConnPool.
From S2P Require Import Prelude RustStr Model GatewayConfig Session Obligations Transport PgProtocol PgText MyProtocol MyClient MyFrontend MyBackend MyConn MyReadTheorems MyConnector MyProtocolTheorems.
Import MyProtocol MyClient MyBackend MyConn MyReadTheorems MyConnector.

Module MyConnectorTheorems.

Lemma ebind_inv {A B} (m : fueled A) (k : A → fueled B) b : ebind m k = Some (Ret b) → ∃ a, m = Some (Ret a) ∧ k a = Some (Ret b).
Proof. destruct m as [[a|]|]; [|done..]. intros E. by exists a. Qed.

Section Pinned.
Context {Sv : Type} `{MyServer Sv} (remaining_text : str) (port_text : str → str) (debug_response : GatewayResponse → str)
  (f32_to_f64_bits : Z → Z) (f64_parse : str → option Z).

(** ** One connection *)

(** The server hears something on connection [k], and nothing else. *)
Definition talks (k : nat) (sv sv' : Sv) : Prop := ∃ m, sv' = (answer k m sv).2.

(** Connection [k], or one that cannot be used any more. *)
Definition conn_of (k : nat) (b : MySqlBackendConnection) : Prop :=
  match mb_client b with Some (Some f) => fr_id f = k | _ => True end.

(** An operation that stays on its connection. *)
Definition stays {A} (op : MySqlBackendConnection → Sv → fueled (GatewayResult A * MySqlBackendConnection * Sv)) : Prop :=
  ∀ k b sv r b' sv', conn_of k b → op b sv = Some (Ret (r, b', sv')) → conn_of k b' ∧ rtc (talks k) sv sv'.

(** Reading keeps the connection's number. *)
Lemma next_id f r f' : stream_next remaining_text f = Ret (r, f') → fr_id f' = fr_id f.
Proof. unfold stream_next. intros ([[[r1 rs] buf] chunks] & _ & [= <- <-])%exec_bind_inv. done. Qed.
Lemma optional_id f r f' : read_optional_mysql_result_packet remaining_text f = Ret (r, f') → fr_id f' = fr_id f.
Proof. unfold read_optional_mysql_result_packet. intros ([r1 f1] & E & [= <- <-])%exec_bind_inv. by eapply next_id. Qed.
Lemma packet_id context f r f' : read_mysql_result_packet remaining_text context f = Ret (r, f') → fr_id f' = fr_id f.
Proof. unfold read_mysql_result_packet. intros ([r1 f1] & E & [= <- <-])%exec_bind_inv. by eapply optional_id. Qed.
Lemma payload_id context f r f' : read_payload remaining_text context f = Ret (r, f') → fr_id f' = fr_id f.
Proof. unfold read_payload. intros ([r1 f1] & E & [= <- <-])%exec_bind_inv. by eapply packet_id. Qed.

Lemma columns_id n : ∀ f r f', read_columns remaining_text n f = Ret (r, f') → fr_id f' = fr_id f.
Proof.
  induction n as [|n IH]; intros f r f'; cbn [read_columns]; [by intros [= <- <-]|]. intros ([r1 f1] & E1 & E)%exec_bind_inv. apply payload_id in E1.
  destruct r1; [|by simplify_eq]. apply exec_bind_inv in E as (c & _ & ([r2 f2] & E2 & [= <- <-])%exec_bind_inv). rewrite <-E1. by eapply IH.
Qed.

Lemma payloads_id context n : ∀ f r f', read_payloads remaining_text n context f = Ret (r, f') → fr_id f' = fr_id f.
Proof.
  induction n as [|n IH]; intros f r f'; cbn [read_payloads]; [by intros [= <- <-]|]. intros ([r1 f1] & E1 & E)%exec_bind_inv. apply payload_id in E1.
  destruct r1; [|by simplify_eq]. apply exec_bind_inv in E as ([r2 f2] & E2 & [= <- <-]). rewrite <-E1. by eapply IH.
Qed.

Lemma header_id careful context f r f' : read_header remaining_text careful context f = Ret (r, f') → fr_id f' = fr_id f.
Proof.
  unfold read_header. intros ([r1 f1] & E1 & E)%exec_bind_inv. apply payload_id in E1. destruct r1 as [[|c p]|]; [by simplify_eq| |by simplify_eq].
  repeat (case_match; [by simplify_eq|]). destruct (decode_lenc_int _ _) as [[[n null] k]|]; [|by simplify_eq]. destruct null; [by simplify_eq|].
  apply exec_bind_inv in E as ([r2 f2] & E2 & E). apply columns_id in E2. destruct r2; [|simplify_eq; congruence].
  apply exec_bind_inv in E as ([r3 f3] & E3 & [= <- <-]). apply packet_id in E3. congruence.
Qed.

Lemma drain_id fuel : ∀ f r f', drain_packets remaining_text fuel f = Some (Ret (r, f')) → fr_id f' = fr_id f.
Proof.
  induction fuel as [|fuel IH]; [done|]. intros f r f'. cbn [drain_packets].
  destruct (read_optional_mysql_result_packet remaining_text f) as [[[[p|]|] f1]|] eqn:E; [..|done]; apply optional_id in E; [|by intros [= <- <-]..].
  intros E1%IH. congruence.
Qed.

Lemma loop_id decode context max window fuel : ∀ room f total truncated buf r f',
  row_loop remaining_text fuel decode context max window room f total truncated buf = Some (Ret (r, f')) → fr_id f' = fr_id f.
Proof.
  induction fuel as [|fuel IH]; [done|]. intros room f total truncated buf r f'. cbn [row_loop].
  destruct (read_optional_mysql_result_packet remaining_text f) as [[[[p|]|] f1]|] eqn:E; [..|done]; apply optional_id in E; [|by intros [= <- <-]..].
  assert (∀ room total truncated buf, row_loop remaining_text fuel decode context max window room f1 total truncated buf = Some (Ret (r, f')) → fr_id f' = fr_id f) as Hgo
    by (intros ???? E1%IH; congruence).
  destruct truncated; [apply Hgo|]. destruct (packet_payload context p); [|by intros [= <- <-]]. destruct (match max with Some m => m <=? total | None => false end); [apply Hgo|].
  destruct (decode _) as [[row|]|]; [|by intros [= <- <-]|done]. destruct (window <=? _); [|apply Hgo]. destruct (decide _).
  - intros ([r1 f2] & E1 & [= <- <-])%ebind_inv. apply drain_id in E1. congruence.
  - intros ([[ws r1] f2] & E1 & [= <- <-])%ebind_inv. apply IH in E1. congruence.
Qed.

Lemma rest_id fuel : ∀ f r f', rest_payloads remaining_text fuel f = Some (Ret (r, f')) → fr_id f' = fr_id f.
Proof.
  induction fuel as [|fuel IH]; [done|]. intros f r f'. cbn [rest_payloads].
  destruct (read_optional_mysql_result_packet remaining_text f) as [[[[p|]|] f1]|] eqn:E; [..|done]; apply optional_id in E; [|by intros [= <- <-]..].
  destruct (packet_payload _ p); [|by intros [= <- <-]]. intros ([r1 f2] & E1 & [= <- <-])%ebind_inv. apply IH in E1. congruence.
Qed.

Lemma response_id binary mode f r f' :
  read_mysql_query_response remaining_text f32_to_f64_bits f64_parse binary mode f = Some (Ret (r, f')) → fr_id f' = fr_id f.
Proof.
  unfold read_mysql_query_response. destruct (read_header _ _ _ f) as [[h f1]|] eqn:E; [|done]. apply header_id in E. destruct h; [by intros [= <- <-]| |by intros [= <- <-]].
  cbv zeta. intros ([[ws r1] f2] & E1 & [= <- <-])%ebind_inv. apply loop_id in E1. congruence.
Qed.

Lemma passthrough_id f r f' : read_mysql_query_passthrough remaining_text f = Some (Ret (r, f')) → fr_id f' = fr_id f.
Proof.
  unfold read_mysql_query_passthrough. destruct (read_payload _ _ f) as [[[[|c p]|] f1]|] eqn:E; [..|done]; apply payload_id in E; [by intros [= <- <-]| |by intros [= <- <-]].
  case_match; [by intros [= <- <-]|]. destruct (decode_lenc_int _ _) as [[[n null] k]|]; [|by intros [= <- <-]]. destruct null; [by intros [= <- <-]|].
  destruct (read_payloads _ _ _ f1) as [[[cols|] f2]|] eqn:E2; [..|done]; apply payloads_id in E2; [|intros [= <- <-]; congruence].
  destruct (read_payload _ _ f2) as [[[eof|] f3]|] eqn:E3; [..|done]; apply payload_id in E3; [|intros [= <- <-]; congruence].
  intros ([r1 f4] & E4 & [= <- <-])%ebind_inv. apply rest_id in E4. congruence.
Qed.

Lemma answer_talks k m sv r sv' : answer k m sv = (r, sv') → rtc (talks k) sv sv'.
Proof. intros E. apply rtc_once. exists m. by rewrite E. Qed.

Lemma exchange_stays {A} what rs command payload (receive : Framed → fueled (GatewayResult A * Framed)) :
  (∀ f r f', receive f = Some (Ret (r, f')) → fr_id f' = fr_id f) → stays (exchange what (send_with rs command payload) receive).
Proof.
  intros Hr k b sv r b' sv' Hb. unfold exchange. unfold conn_of in Hb. destruct (mb_client b) as [[f|]|] eqn:Eb; [|done|].
  - unfold send_with. destruct (answer (fr_id f) _ sv) as [[chunks|e] sv1] eqn:Ea; rewrite Hb in Ea; apply answer_talks in Ea.
    + intros ([r1 f1] & E & [= <- <- <-])%ebind_inv. apply Hr in E. split; [|done]. unfold conn_of. cbn. by rewrite E.
    + by intros [= <- <- <-].
  - intros [= <- <- <-]. split; [|done]. unfold conn_of. by rewrite Eb.
Qed.

(** When an exchange succeeds, its command was sent, once. *)
Lemma exchange_sent {A} what rs command payload (receive : Framed → fueled (GatewayResult A * Framed)) k b sv a b' sv' :
  conn_of k b → exchange what (send_with rs command payload) receive b sv = Some (Ret (Ok a, b', sv')) →
  sv' = (answer k (write_command_binary command payload) sv).2.
Proof.
  intros Hb. unfold exchange. unfold conn_of in Hb. destruct (mb_client b) as [[f|]|]; [|done..].
  unfold send_with. destruct (answer (fr_id f) _ sv) as [[chunks|e] sv1] eqn:Ea; rewrite Hb in Ea; [|done].
  intros ([r1 f1] & _ & [= _ _ <-])%ebind_inv. by rewrite Ea.
Qed.

Lemma simple_query_stays sql mode : stays (simple_query remaining_text f32_to_f64_bits f64_parse sql mode).
Proof. apply exchange_stays. intros f r f'. destruct mode; first [apply passthrough_id|apply response_id]. Qed.

Lemma open_stream_stays binary what rs command payload : stays (open_stream remaining_text binary what (send_with rs command payload)).
Proof. apply exchange_stays. intros f r f'. destruct (read_header _ _ _ f) as [[h f1]|] eqn:E; [|done]. intros [= <- <-]. by eapply header_id. Qed.

Lemma get_or_prepare_stays sql : stays (get_or_prepare remaining_text sql).
Proof.
  intros k b sv r b' sv' Hb. unfold get_or_prepare. destruct (mb_cache b !! sql); [by intros [= <- <- <-]|].
  unfold conn_of in Hb. destruct (mb_client b) as [kc|] eqn:Eb; [|intros [= <- <- <-]; split; [unfold conn_of; by rewrite Eb|done]].
  intros ([[r1 kc1] sv1] & E & Er)%ebind_inv.
  assert (conn_of k (set_client kc1 b) ∧ rtc (talks k) sv sv1) as [H1 H2].
  { clear Er. unfold send_prepare, send_with in E. destruct kc as [f|]; [|done]. destruct (answer (fr_id f) _ sv) as [[chunks|e] sv2] eqn:Ea; rewrite Hb in Ea; apply answer_talks in Ea.
    - destruct (prepare_loop _ _ _ _ _) as [[[[]]|]|]; [|done..]. injection E as <- <- <-. done.
    - by injection E as <- <- <-. }
  destruct r1; [|by injection Er as <- <- <-]. destruct (prepared_columns _); [|done]. by injection Er as <- <- <-.
Qed.

Lemma prepare_columns_stays sql : stays (prepare_result_columns remaining_text sql).
Proof.
  intros k b sv r b' sv' Hb. unfold prepare_result_columns. intros ([[r1 b1] sv1] & E & [= <- <- <-])%ebind_inv. by eapply get_or_prepare_stays in E.
Qed.

Lemma prepare_execute_stays sql ps : stays (prepare_execute remaining_text sql ps).
Proof. intros k b sv r b' sv' Hb. unfold prepare_execute. intros ([[r1 b1] sv1] & E & [= <- <- <-])%ebind_inv. by eapply get_or_prepare_stays in E. Qed.

(** ** The connection of the transaction *)

Definition on_link (k : nat) (pc : MyPoolConn) : Prop := ∃ b, pc_conn pc = Some b ∧ conn_of k b.

(** The connector holds connection [k] for a transaction, and no result is being read. *)
Definition pinned (k : nat) (c : Connector Sv) : Prop := (∃ pc, txn_lease c = Some pc ∧ on_link k pc) ∧ cn_tasks c = [].

(** The connection is in the hands of the code. *)
Definition in_hand (k : nat) (pc : MyPoolConn) (c : Connector Sv) : Prop := on_link k pc ∧ txn_lease c = None ∧ cn_tasks c = [].

Lemma cbind_inv {A B} (m : cop (Sv := Sv) A) (f : A → cop B) c r c' :
  cbind m f c = Some (Ret (r, c')) →
  (∃ a c1, m c = Some (Ret (Ok a, c1)) ∧ f a c1 = Some (Ret (r, c'))) ∨ (∃ e, m c = Some (Ret (Err e, c')) ∧ r = Err e).
Proof. unfold cbind. intros ([[a|e] c1] & E & E1)%ebind_inv; [left; eauto|right]. injection E1 as <- <-. eauto. Qed.

Lemma on_conn_stays {A} op k pc c (x : GatewayResult (GatewayResult A * MyPoolConn)) c' :
  stays op → in_hand k pc c → on_conn op pc c = Some (Ret (x, c')) →
  ∃ r pc', x = Ok (r, pc') ∧ in_hand k pc' c' ∧ rtc (talks k) (cn_server c) (cn_server c').
Proof.
  intros Hs ((b & Eb & Hb) & Hl & Ht) E. unfold on_conn in E. rewrite Eb in E. apply ebind_inv in E as ([[r b1] sv1] & E & [= <- <-]).
  destruct (Hs _ _ _ _ _ _ Hb E) as [Hb1 Htalk]. exists r, (mk_pool_conn (Some b1) (pc_generation pc)). split; [done|]. split; [|done]. split; [by exists b1|done].
Qed.

(** What a successful operation sent. *)
Definition sends {A} (m : str) (op : MySqlBackendConnection → Sv → fueled (GatewayResult A * MySqlBackendConnection * Sv)) : Prop :=
  ∀ k b sv a b' sv', conn_of k b → op b sv = Some (Ret (Ok a, b', sv')) → sv' = (answer k m sv).2.

Lemma on_conn_sends {A} op m k pc c (a : A) pc' c' :
  sends m op → in_hand k pc c → on_conn op pc c = Some (Ret (Ok (Ok a, pc'), c')) → cn_server c' = (answer k m (cn_server c)).2.
Proof.
  intros Hs ((b & Eb & Hb) & _) E. unfold on_conn in E. rewrite Eb in E. apply ebind_inv in E as ([[r b1] sv1] & E & [= -> _ <-]). by eapply Hs.
Qed.

Lemma stored k pc c : in_hand k pc c → pinned k (assign_lease remaining_text (Some pc) c) ∧ cn_server (assign_lease remaining_text (Some pc) c) = cn_server c.
Proof. intros (Hk & Hl & Ht). unfold assign_lease. rewrite Hl. split; [|done]. split; [by exists pc|done]. Qed.

Lemma taken e s k c : pinned k c →
  ∃ pc c', take_or_acquire_lease remaining_text port_text e s c = Some (Ret (Ok pc, c')) ∧ in_hand k pc c' ∧ cn_server c' = cn_server c.
Proof. intros [(pc & El & Hk) Ht]. unfold take_or_acquire_lease. rewrite El. exists pc, (set_lease None c). done. Qed.

Lemma pinned_lease k c : pinned k c → has_transaction_lease c = true.
Proof. intros [(pc & El & _) _]. unfold has_transaction_lease. by rewrite El. Qed.

Lemma begun e s k c : pinned k c →
  ∃ pc c', conn_for remaining_text port_text f32_to_f64_bits f64_parse true e s c = Some (Ret (Ok (inr pc), c')) ∧ in_hand k pc c' ∧ cn_server c' = cn_server c.
Proof.
  intros Hp. destruct (taken e s k c Hp) as (pc & c1 & E & Hh & Hs). exists pc, c1. split; [|done].
  unfold conn_for, begin_lease, cbind, reads. cbn [ebind]. rewrite (pinned_lease k c Hp), E. done.
Qed.

(** Whatever [m] returns, the connector is left with the lease on [k]. *)
Definition keeps {A} (k : nat) (m : cop (Sv := Sv) A) : Prop :=
  ∀ c r c', pinned k c → m c = Some (Ret (r, c')) → pinned k c' ∧ rtc (talks k) (cn_server c) (cn_server c').

(** Run an operation on the connection in hand, and store the connection. *)
Lemma run_and_store {A B} (op : MySqlBackendConnection → Sv → fueled (GatewayResult A * MySqlBackendConnection * Sv)) (f : GatewayResult A → cop (Sv := Sv) B) k pc c r c' :
  stays op → (∀ a c r c', f a c = Some (Ret (r, c')) → c' = c) → in_hand k pc c →
  cbind (on_conn op pc) (λ x, match x with (a, pc) => cbind (store_lease remaining_text pc) (λ _, f a) end) c = Some (Ret (r, c')) →
  pinned k c' ∧ rtc (talks k) (cn_server c) (cn_server c').
Proof.
  intros Hs Hf Hh [(x & c1 & E1 & E2)|(e & E1 & _)]%cbind_inv; destruct (on_conn_stays op k pc c _ _ Hs Hh E1) as (a & pc1 & Ex & Hh1 & Ht); [|done].
  injection Ex as ->. destruct (stored k pc1 c1 Hh1) as [Hp Es]. apply Hf in E2 as ->. split; [done|]. by rewrite Es.
Qed.

Lemma lift_same {A} (r : GatewayResult A) (c : Connector Sv) r' c' : lift r c = Some (Ret (r', c')) → c' = c.
Proof. by intros [= <- <-]. Qed.

Lemma describe_keeps e sql s k : active s = true → keeps k (describe_sql_columns remaining_text port_text e sql s).
Proof.
  intros Ha c r c' Hp. unfold describe_sql_columns. intros [(x & c1 & [= <- <-] & E)|(? & [=] & _)]%cbind_inv.
  unfold in_transaction in E. rewrite Ha in E. cbn [orb] in E. destruct (taken e s k c Hp) as (pc & c2 & Et & Hh & Es).
  apply cbind_inv in E as [(x & c3 & E3 & E)|(? & E3 & _)]; rewrite Et in E3; [|done]. injection E3 as <- <-. rewrite <-Es.
  eapply (run_and_store (prepare_result_columns remaining_text sql) (λ r, lift r)); [apply prepare_columns_stays|by intros ???? ?%lift_same|done|exact E].
Qed.

Lemma control_keeps e sql s k : keeps k (execute_control_sql remaining_text port_text debug_response f32_to_f64_bits f64_parse e sql s true false).
Proof.
  intros c r c' Hp. unfold execute_control_sql. intros [(x & c1 & [= <- <-] & E)|(? & [=] & _)]%cbind_inv. cbn [orb] in E.
  destruct (taken e s k c Hp) as (pc & c2 & Et & Hh & Es). rewrite <-Es.
  assert (∀ r1 c1, cbind (take_or_acquire_lease remaining_text port_text e s) (λ pc, cbind (execute_on_conn remaining_text f32_to_f64_bits f64_parse sql Materialized pc)
      (λ x, match x with (r, pc) => cbind (store_lease remaining_text pc) (λ _, lift r) end)) c = Some (Ret (r1, c1)) →
    pinned k c1 ∧ rtc (talks k) (cn_server c2) (cn_server c1)) as Hgo.
  { intros r1 c1 [(x & c3 & E3 & E1)|(? & E3 & _)]%cbind_inv; rewrite Et in E3; [|done]. injection E3 as <- <-.
    eapply (run_and_store (simple_query remaining_text f32_to_f64_bits f64_parse sql Materialized) (λ r, lift r)); [apply simple_query_stays|by intros ???? ?%lift_same|done|exact E1]. }
  apply cbind_inv in E as [(x & c3 & E3 & E)|(? & E3 & _)]; [|by apply (Hgo _ _ E3)]. apply (Hgo (Ok x) c3) in E3.
  apply cbind_inv in E as [(y & c4 & [= <- <-] & E)|(? & [=] & _)]. by apply lift_same in E as ->.
Qed.

(** ** What the server is told *)

Definition com_query (sql : str) : str := write_command_binary 3 sql.
Definition com_stmt_execute (payload : str) : str := write_command_binary 23 payload.

(** The message that carries out a command: its statement, with its parameters if there are any. *)
Definition asks (command : GatewayCommand) (m : str) : Prop :=
  let bound ps := ∃ sid payload, encode_stmt_execute_payload sid ps = Ok payload ∧ m = com_stmt_execute payload in
  match command with
  | Query sql => m = com_query sql
  | QueryParams sql ps => if is_empty ps then m = com_query sql else bound ps
  | Execute _ ps => if is_empty ps then ∃ sql, m = com_query sql else bound ps
  | Commit => m = com_query ($"COMMIT")
  | Rollback => m = com_query ($"ROLLBACK")
  | _ => False
  end.
Definition told (command : GatewayCommand) : bool := match command with Query _ | QueryParams _ _ | Execute _ _ | Commit | Rollback => true | _ => false end.

(** Talk on [k] that ends with [m]. *)
Definition asked (k : nat) (m : str) (sv sv' : Sv) : Prop := ∃ sv1, rtc (talks k) sv sv1 ∧ sv' = (answer k m sv1).2.

(** The talk on [k] for one command: it ends with the message that carries the command out. *)
Definition says (k : nat) (command : GatewayCommand) (sv sv' : Sv) : Prop :=
  if told command then ∃ m, asks command m ∧ asked k m sv sv' else rtc (talks k) sv sv'.

(** The talk on [k] that carries out the commands, in their order; nothing is said elsewhere. *)
Fixpoint transcript (k : nat) (cs : list GatewayCommand) (sv sv' : Sv) : Prop :=
  match cs with
  | [] => sv' = sv
  | c :: cs => ∃ sv1, says k c sv sv1 ∧ transcript k cs sv1 sv'
  end.
Lemma transcript_app k cs1 cs2 sv sv1 sv2 : transcript k cs1 sv sv1 → transcript k cs2 sv1 sv2 → transcript k (cs1 ++ cs2) sv sv2.
Proof. revert sv. induction cs1 as [|c cs1 IH]; cbn; intros sv; [by intros ->|]. intros (sv0 & Hc & H1) H2. exists sv0. auto. Qed.

(** A result is being read from the connection of the transaction. *)
Definition reading (k : nat) (c : Connector Sv) : Prop :=
  txn_lease c = None ∧ ∃ t, cn_tasks c = [t] ∧ pr_leased t = true ∧ on_link k (pr_conn t).

Definition outcome_state (k : nat) (o : Outcome) (c : Connector Sv) : Prop :=
  match o with Done _ => pinned k c | Windows _ => reading k c end.

Lemma header_outcome binary mode h k pc c o c' :
  in_hand k pc c → after_header remaining_text binary mode true h pc c = Some (Ret (Ok o, c')) → outcome_state k o c' ∧ cn_server c' = cn_server c.
Proof.
  intros Hh. destruct h as [r|infos|keeps err]; cbn [after_header].
  - intros [(x & c1 & [= <- <-] & [= <- <-])|(? & [=] & _)]%cbind_inv. by apply stored.
  - intros [(x & c1 & [= <- <-] & [= <- <-])|(? & [=] & _)]%cbind_inv. destruct Hh as (Hk & Hl & Ht). split; [|done]. split; [done|]. eexists. split; [cbn; by rewrite Ht|done].
  - by intros [(x & c1 & _ & [=])|(? & _ & [=])]%cbind_inv.
Qed.

Lemma simple_streaming e sql s mode k c o c' :
  pinned k c → execute_simple_query_streaming remaining_text port_text f32_to_f64_bits f64_parse e sql s mode true c = Some (Ret (Ok o, c')) →
  outcome_state k o c' ∧ asked k (com_query sql) (cn_server c) (cn_server c').
Proof.
  intros Hp. destruct (begun e s k c Hp) as (pc & c1 & E1 & Hh & Es). unfold execute_simple_query_streaming.
  intros [(x & c2 & E2 & E)|(? & _ & [=])]%cbind_inv. rewrite E1 in E2. injection E2 as <- <-.
  apply cbind_inv in E as [(x & c3 & E3 & E)|(? & _ & [=])]. destruct (on_conn_stays _ k pc c1 _ _ (open_stream_stays _ _ _ _ _) Hh E3) as (r & pc1 & [= ->] & Hh1 & Ht).
  rewrite <-Es. destruct r as [h|err]; [|by apply cbind_inv in E as [(? & ? & _ & [=])|(? & _ & [=])]].
  destruct (header_outcome _ _ _ _ _ _ _ _ Hh1 E) as [Ho ->]. split; [done|]. exists (cn_server c1). split; [done|].
  exact (on_conn_sends _ (com_query sql) k pc c1 h pc1 c3 (λ k b sv a b' sv', exchange_sent _ _ _ _ _ k b sv a b' sv') Hh E3).
Qed.

Lemma arity_same (sql : str) ps (c : Connector Sv) r c' : check_arity sql ps c = Some (Ret (r, c')) → c' = c.
Proof. unfold check_arity. case_match; by intros [= <- <-]. Qed.

Lemma prepared_payload sql ps pc c payload pc' c' :
  on_conn (prepare_execute remaining_text sql ps) pc c = Some (Ret (Ok (Ok payload, pc'), c')) →
  ∃ sid payload', encode_stmt_execute_payload sid ps = Ok payload' ∧ com_stmt_execute payload = com_stmt_execute payload'.
Proof.
  unfold on_conn. destruct (pc_conn pc) as [b|]; [|done]. intros ([[r b1] sv1] & E & [= -> _ _])%ebind_inv. unfold prepare_execute in E.
  apply ebind_inv in E as ([[[p|err] b2] sv2] & _ & E); [|done]. injection E as E _ _.
  change ((if bp_param_count p =? len ps then encode_stmt_execute_payload (bp_stmt_id p) ps else Err (param_mismatch (bp_param_count p) ps)) = Ok payload) in E.
  case_match; [|done]. eauto.
Qed.

Lemma param_streaming e sql ps s mode k c o c' :
  pinned k c → execute_param_query_streaming remaining_text port_text f32_to_f64_bits f64_parse e sql ps s mode true c = Some (Ret (Ok o, c')) →
  outcome_state k o c' ∧ ∃ m, asks (QueryParams sql ps) m ∧ asked k m (cn_server c) (cn_server c').
Proof.
  intros Hp. unfold execute_param_query_streaming. intros [(u & c0 & E0 & E)|(? & _ & [=])]%cbind_inv. apply arity_same in E0 as ->.
  cbn [asks]. destruct (is_empty ps); [destruct (simple_streaming _ _ _ _ _ _ _ _ Hp E); eauto|]. destruct (begun e s k c Hp) as (pc & c1 & E1 & Hh & Es).
  apply cbind_inv in E as [(x & c2 & E2 & E)|(? & _ & [=])]. rewrite E1 in E2. injection E2 as <- <-.
  apply cbind_inv in E as [(x & c3 & E3 & E)|(? & _ & [=])]. destruct (on_conn_stays _ k pc c1 _ _ (prepare_execute_stays _ _) Hh E3) as (r & pc1 & [= ->] & Hh1 & Ht).
  rewrite <-Es. destruct r as [payload|err]; [|by apply cbind_inv in E as [(? & ? & _ & [=])|(? & _ & [=])]].
  apply cbind_inv in E as [(x & c4 & E4 & E)|(? & _ & [=])]. destruct (on_conn_stays _ k pc1 c3 _ _ (open_stream_stays _ _ _ _ _) Hh1 E4) as (r & pc2 & [= ->] & Hh2 & Ht2).
  destruct r as [h|err]; [|by apply cbind_inv in E as [(? & ? & _ & [=])|(? & _ & [=])]].
  destruct (header_outcome _ _ _ _ _ _ _ _ Hh2 E) as [Ho ->]. split; [done|]. exists (com_stmt_execute payload).
  split; [by eapply prepared_payload|]. exists (cn_server c3). split; [done|].
  exact (on_conn_sends _ (com_stmt_execute payload) k pc1 c3 h pc2 c4 (λ k b sv a b' sv', exchange_sent _ _ _ _ _ k b sv a b' sv') Hh1 E4).
Qed.

Lemma settle_pins room k c r c' :
  reading k c → settle remaining_text f32_to_f64_bits f64_parse 0 room c = Some (Ret (r, c')) → pinned k c' ∧ cn_server c' = cn_server c.
Proof.
  intros (Hl & t & Et & Hle & (b & Eb & Hb)). unfold settle. rewrite Et. cbn [lookup list_lookup]. rewrite Eb, Hle.
  assert (∀ pc r1 c1, on_link k pc → (cbind (keep remaining_text true pc) (λ _, cret tt)) (set_tasks (delete 0%nat [t]) c) = Some (Ret (r1, c1)) →
    pinned k c1 ∧ cn_server c1 = cn_server c) as Hback.
  { intros pc r1 c1 Hk [= <- <-]. unfold assign_lease. cbn. rewrite Hl. split; [|done]. split; [by exists pc|done]. }
  unfold conn_of in Hb. destruct (mb_client b) as [[f|]|] eqn:Ec; [|done|].
  - intros ([[ws r1] f1] & E & ([r2 c2] & E2 & [= <- <-])%ebind_inv)%ebind_inv. apply loop_id in E. eapply Hback; [|exact E2].
    exists (set_client (Some f1) b). split; [done|]. unfold conn_of. cbn. by rewrite E.
  - intros ([r2 c2] & E2 & [= <- <-])%ebind_inv. eapply Hback; [|exact E2]. exists b. split; [done|]. unfold conn_of. by rewrite Ec.
Qed.

(** ** Commands *)

Lemma bind_ok {A B} (m : cop (Sv := Sv) A) (f : A → cop B) c b c' :
  cbind m f c = Some (Ret (Ok b, c')) → ∃ a c1, m c = Some (Ret (Ok a, c1)) ∧ f a c1 = Some (Ret (Ok b, c')).
Proof. intros [(a & c1 & E1 & E2)|(e & _ & [=])]%cbind_inv. eauto. Qed.

Lemma selected_same s (c : Connector Sv) e c' : selected s c = Some (Ret (Ok e, c')) → c' = c.
Proof. by intros [= _ <-]. Qed.

Lemma registered_same sid ps s (c : Connector Sv) x c' : registered sid ps s c = Some (Ret (Ok x, c')) → c' = c.
Proof.
  unfold registered. intros (o & c1 & [= <- <-] & E)%bind_ok. destruct (take_sql _ _); [|done].
  apply bind_ok in E as (u & c2 & ->%arity_same & (e & c3 & ->%selected_same & [= _ <-])%bind_ok). done.
Qed.

Lemma simple_query_keeps e sql s mode k : active s = true → keeps k (execute_simple_query remaining_text port_text f32_to_f64_bits f64_parse e sql s mode).
Proof.
  intros Ha c r c' Hp. unfold execute_simple_query. rewrite Ha. destruct (begun e s k c Hp) as (pc & c1 & E1 & Hh & Es). rewrite <-Es.
  intros [(x & c2 & E2 & E)|(? & E2 & _)]%cbind_inv; rewrite E1 in E2; [|done]. injection E2 as <- <-.
  eapply (run_and_store (simple_query remaining_text f32_to_f64_bits f64_parse sql mode) (λ r, lift r)); [apply simple_query_stays|by intros ???? ?%lift_same|done|exact E].
Qed.

Lemma simple_query_asked e sql s mode k c r c' :
  active s = true → pinned k c → execute_simple_query remaining_text port_text f32_to_f64_bits f64_parse e sql s mode c = Some (Ret (Ok r, c')) →
  asked k (com_query sql) (cn_server c) (cn_server c').
Proof.
  intros Ha Hp. unfold execute_simple_query. rewrite Ha. destruct (begun e s k c Hp) as (pc & c1 & E1 & Hh & Es). rewrite <-Es.
  intros (x & c2 & E2 & E)%bind_ok. rewrite E1 in E2. injection E2 as <- <-.
  apply bind_ok in E as ([r1 pc1] & c3 & E3 & (u & c4 & [= <- <-] & [= -> <-])%bind_ok). exists (cn_server c1). split; [done|].
  pose proof (on_conn_sends _ (com_query sql) k pc c1 r pc1 c3 (λ k b sv a b' sv', exchange_sent _ _ _ _ _ k b sv a b' sv') Hh E3) as Hq.
  destruct (on_conn_stays _ k pc c1 _ _ (simple_query_stays _ _) Hh E3) as (r2 & pc2 & [= _ <-] & Hh1 & _). destruct (stored k pc1 c3 Hh1) as [_ ->]. exact Hq.
Qed.

Lemma described_keeps sql s k : active s = true → keeps k (described remaining_text port_text sql s).
Proof.
  intros Ha c r c' Hp. unfold described. destruct (select_endpoint s c) as [e|]; [|by intros [= <- <-]].
  intros ([r1 c1] & E & [= <- <-])%ebind_inv. by eapply describe_keeps in E.
Qed.

Lemma use_database_keeps db s k : keeps k (use_database remaining_text port_text debug_response f32_to_f64_bits f64_parse db s).
Proof.
  intros c r c' Hp. unfold use_database. rewrite (pinned_lease k c Hp). destruct (select_endpoint s c) as [e|]; [|by intros [= <- <-]].
  intros [(x & c1 & E1 & [= <- <-])|(err & E1 & _)]%cbind_inv; by eapply control_keeps in E1.
Qed.

(** Commands that do not end the transaction. *)
Definition inside (command : GatewayCommand) : bool := match command with Commit | Rollback | Quit => false | _ => true end.

Lemma whole_pinned command s mode k c r s' c' :
  active s = true → inside command = true → has_parameters command = false → pinned k c →
  execute_with_mode remaining_text port_text debug_response f32_to_f64_bits f64_parse command s mode c = Some (Ret (Ok (r, s'), c')) →
  active s' = true ∧ pinned k c' ∧ says k command (cn_server c) (cn_server c').
Proof.
  intros Ha Hi Hn Hp. destruct command as [sql|sql ps|sql|sid ps|sid|sql|packets| |db| | | | |]; unfold says; cbn [execute_with_mode inside has_parameters told] in *; try done.
  - intros (x & c1 & (e & c2 & ->%selected_same & E)%bind_ok & [= <- <- <-])%bind_ok. split; [done|]. split; [by eapply (simple_query_keeps e sql s mode k Ha c) in E as [? _]|].
    eexists. split; [done|]. by eapply simple_query_asked.
  - intros (x & c1 & E & [= <- <- <-])%bind_ok. split; [done|]. apply bind_ok in E as (y & c2 & [= <- <-] & (u & c3 & [= <- <-] & (cols & c4 & E & [= <- <-])%bind_ok)%bind_ok).
    exact (described_keeps _ _ k Ha (set_prepared _ c) _ _ Hp E).
  - intros (x & c1 & [= <- <-] & [= <- <- <-])%bind_ok. split; [done|]. split; [exact Hp|apply rtc_refl].
  - intros (x & c1 & (e & c2 & ->%selected_same & (cols & c3 & E & [= <- <-])%bind_ok)%bind_ok & [= <- <- <-])%bind_ok. split; [done|]. by eapply describe_keeps in E.
  - intros [= <- <- <-]. split; [done|]. split; [exact Hp|apply rtc_refl].
  - intros (x & c1 & E & [= <- <- <-])%bind_ok. split; [done|]. by eapply use_database_keeps in E.
  - intros [= <- <- <-]. split; [done|]. split; [exact Hp|apply rtc_refl].
  - intros [= <- <- <-]. split; [done|]. split; [exact Hp|apply rtc_refl].
Qed.

Lemma outcome_pinned command s mode k c o s' c' :
  active s = true → inside command = true → pinned k c →
  execute_outcome remaining_text port_text debug_response f32_to_f64_bits f64_parse command s mode c = Some (Ret (Ok (o, s'), c')) →
  active s' = true ∧ outcome_state k o c' ∧ says k command (cn_server c) (cn_server c').
Proof.
  intros Ha Hi Hp. unfold execute_outcome. intros (in_txn & c0 & [= <- <-] & E)%bind_ok. unfold in_transaction in E. rewrite Ha in E. cbn [orb] in E.
  assert (has_parameters command = false → cbind (execute_with_mode remaining_text port_text debug_response f32_to_f64_bits f64_parse command s (outcome_mode command mode))
      (λ x, match x with (r, s) => cret (Done r, s) end) c = Some (Ret (Ok (o, s'), c')) → active s' = true ∧ outcome_state k o c' ∧ says k command (cn_server c) (cn_server c')) as Hwhole.
  { intros Hn ([r s1] & c1 & E1 & [= <- <- <-])%bind_ok. by eapply whole_pinned in E1. }
  destruct (is_streaming (outcome_mode command mode)) eqn:Es; [|apply Hwhole; [destruct command, mode; done|exact E]].
  destruct command as [sql|sql ps| |sid ps| | | | | | | | | |]; try (by apply Hwhole); apply bind_ok in E as (o1 & c1 & E & [= <- <- <-]); (split; [done|]).
  - apply bind_ok in E as (e & c2 & ->%selected_same & E). destruct (simple_streaming _ _ _ _ _ _ _ _ Hp E). split; [done|]. eexists. by split.
  - apply bind_ok in E as (e & c2 & ->%selected_same & E). by apply (param_streaming _ _ _ _ _ _ _ _ _ Hp) in E as [Ho Hq].
  - apply bind_ok in E as ([e sql] & c2 & ->%registered_same & E). eapply param_streaming in E as (Ho & m & Hm & Hq); [|done]. split; [done|].
    exists m. split; [|done]. cbn [asks] in *. destruct (is_empty ps); eauto.
Qed.

(** ** Statements are not answered with raw packets *)

Definition not_wire (r : GatewayResponse) : Prop := match r with Wire _ => False | _ => True end.

(** What succeeds satisfies [P]. *)
Definition yields {A} (P : A → Prop) (m : cop (Sv := Sv) A) : Prop := ∀ c a c', m c = Some (Ret (Ok a, c')) → P a.

Lemma yields_bind {A B} (Q : A → Prop) (P : B → Prop) m (f : A → cop (Sv := Sv) B) : yields Q m → (∀ a, Q a → yields P (f a)) → yields P (cbind m f).
Proof. intros Hm Hf c b c' (a & c1 & E1 & E2)%bind_ok. eapply Hf; [by eapply Hm|exact E2]. Qed.
Lemma yields_then {A B} (P : B → Prop) m (f : A → cop (Sv := Sv) B) : (∀ a, yields P (f a)) → yields P (cbind m f).
Proof. intros Hf. eapply (yields_bind (λ _, True)); [done|auto]. Qed.
Lemma yields_ret {A} (P : A → Prop) a : P a → yields P (cret a).
Proof. by intros Ha c a' c' [= <- <-]. Qed.
Lemma yields_throw {A} (P : A → Prop) e : yields P (throw e).
Proof. by intros c a' c' [=]. Qed.
Lemma yields_on_conn {A} (Q : A → Prop) op pc :
  (∀ b sv a b' sv', op b sv = Some (Ret (Ok a, b', sv')) → Q a) →
  yields (λ x, match x.1 with Ok a => Q a | Err _ => True end) (on_conn (Sv := Sv) op pc).
Proof.
  intros Hop c x c'. unfold on_conn. destruct (pc_conn pc) as [b|]; [|done]. intros ([[r b1] sv1] & E & [= <- <-])%ebind_inv.
  cbn. destruct r; [|done]. by eapply Hop.
Qed.

Lemma exchange_yields {A} (Q : A → Prop) what send (receive : Framed → fueled (GatewayResult A * Framed)) b (sv : Sv) a b' sv' :
  (∀ f a f', receive f = Some (Ret (Ok a, f')) → Q a) → exchange what send receive b sv = Some (Ret (Ok a, b', sv')) → Q a.
Proof.
  intros Hr. unfold exchange. destruct (mb_client b); [|done]. destruct (send _ sv) as [[[[|] [f|]] sv1]|]; [|done..].
  intros ([r f1] & E & [= -> _ _])%ebind_inv. by eapply Hr.
Qed.

(** What follows a command is an OK, an error, or columns. *)
Lemma header_complete careful context f r f' : read_header remaining_text careful context f = Ret (HComplete r, f') → not_wire r.
Proof.
  unfold read_header. intros ([r1 f1] & _ & E)%exec_bind_inv. destruct r1 as [[|c p]|]; [done| |done].
  case_match. { destruct (ok_packet_to_gateway_response _) as [r1|] eqn:Eo; [|done]. injection E as <- _.
    unfold ok_packet_to_gateway_response in Eo. destruct (decode_lenc_int _ _); [|done]. by injection Eo as <-. }
  case_match; [by injection E as <- _|]. destruct (decode_lenc_int _ _) as [[[n null] k]|]; [|done]. destruct null; [done|].
  apply exec_bind_inv in E as ([r2 f2] & _ & E). destruct r2; [|done]. apply exec_bind_inv in E as ([[] f3] & _ & [=]).
Qed.

Lemma response_rows binary mode f r f' : read_mysql_query_response remaining_text f32_to_f64_bits f64_parse binary mode f = Some (Ret (Ok r, f')) → not_wire r.
Proof.
  unfold read_mysql_query_response. destruct (read_header _ _ _ f) as [[h f1]|] eqn:E; [|done]. destruct h as [r1|infos|keeps err]; [| |done].
  - intros [= <- <-]. by eapply header_complete.
  - cbv zeta. intros ([[ws r1] f2] & _ & E2)%ebind_inv. destruct r1; [|done]. by injection E2 as <- _.
Qed.

Lemma conn_for_rows in_txn e s :
  yields (λ x, match x with inl r => not_wire r | inr _ => True end) (conn_for remaining_text port_text f32_to_f64_bits f64_parse in_txn e s).
Proof.
  unfold conn_for, begin_lease. destruct in_txn; [|by apply yields_then; intros; apply yields_ret].
  apply yields_then. intros leased. apply yields_then. intros pc. destruct leased; [by apply yields_ret|].
  eapply yields_bind; [apply (yields_on_conn not_wire); intros b sv a b' sv'; apply exchange_yields; intros ???; apply response_rows|].
  intros [[r|] pc1] Hr; [|apply yields_then; intros; apply yields_throw]. destruct (is_rok r); [by apply yields_ret|]. by apply yields_then; intros; apply yields_ret.
Qed.

Definition not_raw (o : Outcome) : Prop := match o with Done r => not_wire r | Windows _ => True end.

Lemma opened_rows binary what send mode in_txn pc (fail : GatewayError → MyPoolConn → cop (Sv := Sv) Outcome) :
  (∀ e pc, yields not_raw (fail e pc)) →
  yields not_raw (cbind (on_conn (open_stream remaining_text binary what send) pc)
    (λ x, match x with (r, pc) => match r with Err err => fail err pc | Ok h => after_header remaining_text binary mode in_txn h pc end end)).
Proof.
  intros Hfail. eapply yields_bind.
  - apply (yields_on_conn (λ h, match h with HComplete r => not_wire r | _ => True end)). intros b sv a b' sv'.
    apply (exchange_yields (λ h, match h with HComplete r => not_wire r | _ => True end)). intros f h f'.
    destruct (read_header _ _ _ f) as [[h1 f1]|] eqn:E; [|done]. intros [= <- <-]. destruct h1; [|done..]. by eapply header_complete.
  - intros [[h|err] pc1] Hh; [|apply Hfail]. destruct h; cbn [after_header].
    + apply yields_then. intros. by apply yields_ret.
    + apply yields_then. intros. by apply yields_ret.
    + apply yields_then. intros. apply yields_throw.
Qed.

Lemma simple_rows e sql s mode in_txn : yields not_raw (execute_simple_query_streaming remaining_text port_text f32_to_f64_bits f64_parse e sql s mode in_txn).
Proof.
  eapply yields_bind; [apply conn_for_rows|]. intros [r|pc] Hr; [by apply yields_ret|].
  apply opened_rows. intros. apply yields_then. intros. apply yields_throw.
Qed.

Lemma param_rows e sql ps s mode in_txn : yields not_raw (execute_param_query_streaming remaining_text port_text f32_to_f64_bits f64_parse e sql ps s mode in_txn).
Proof.
  apply yields_then. intros _. destruct (is_empty ps); [apply simple_rows|]. eapply yields_bind; [apply conn_for_rows|]. intros [r|pc] Hr; [by apply yields_ret|].
  apply yields_then. intros [[payload|err] pc1]; [|apply yields_then; intros; apply yields_throw].
  apply opened_rows. intros. apply yields_then. intros. apply yields_throw.
Qed.

(** A query, a prepared statement that is executed, a statement to prepare or to describe,
    with its rows in windows: the answer is not raw packets. *)
Lemma my_rows command s n m :
  (returns_rows command || match command with Prepare _ | DescribeSql _ => true | _ => false end) = true →
  yields (λ x, not_raw x.1) (execute_outcome remaining_text port_text debug_response f32_to_f64_bits f64_parse command s (Streaming n m)).
Proof.
  assert (∀ o : cop Outcome, yields not_raw o → yields (λ x, not_raw x.1) (cbind o (λ o, cret (o, s)))) as Hsame.
  { intros o Ho. eapply yields_bind; [exact Ho|]. intros. by apply yields_ret. }
  intros Hc. unfold execute_outcome. apply yields_then. intros in_txn.
  destruct command as [sql|sql ps|sql|sid ps|sid|sql|packets| |db| | | | |]; cbn in Hc; try done; cbn [outcome_mode returns_rows has_parameters promote_row_stream is_streaming].
  - apply Hsame, yields_then. intros. apply simple_rows.
  - apply Hsame, yields_then. intros. apply param_rows.
  - cbn [execute_with_mode]. eapply (yields_bind (λ x, not_wire x.1)); [|intros [r s'] Hr; by apply yields_ret].
    eapply (yields_bind not_wire); [|intros; by apply yields_ret]. do 3 (apply yields_then; intros). by apply yields_ret.
  - apply Hsame, yields_then. intros [e sql]. apply param_rows.
  - cbn [execute_with_mode]. eapply (yields_bind (λ x, not_wire x.1)); [|intros [r s'] Hr; by apply yields_ret].
    eapply (yields_bind not_wire); [|intros; by apply yields_ret]. do 2 (apply yields_then; intros). by apply yields_ret.
Qed.

(** ** A transaction *)

(** A command of the session, and its rows read by the client: [room] windows, or
    all of them. *)
Definition statement (x : GatewayCommand * ExecuteMode * option nat) (s : SessionState) : cop (Sv := Sv) SessionState :=
  let '(command, mode, room) := x in
  cbind (execute_outcome remaining_text port_text debug_response f32_to_f64_bits f64_parse command s mode)
    (λ '(o, s), match o with
                | Windows _ => cbind (settle remaining_text f32_to_f64_bits f64_parse 0 room) (λ _, cret s)
                | Done _ => cret s
                end).

Fixpoint statements (l : list (GatewayCommand * ExecuteMode * option nat)) (s : SessionState) : cop (Sv := Sv) SessionState :=
  match l with [] => cret s | x :: l => cbind (statement x s) (statements l) end.

Lemma statement_pinned x s k c s' c' :
  active s = true → inside x.1.1 = true → pinned k c → statement x s c = Some (Ret (Ok s', c')) →
  active s' = true ∧ pinned k c' ∧ says k x.1.1 (cn_server c) (cn_server c').
Proof.
  destruct x as [[command mode] room]. cbn [fst]. intros Ha Hi Hp ([o s1] & c1 & E1 & E)%bind_ok.
  destruct (outcome_pinned _ _ _ _ _ _ _ _ Ha Hi Hp E1) as (Ha1 & Ho & Ht). destruct o; [by injection E as <- <-|].
  apply bind_ok in E as (ws & c2 & E2 & [= <- <-]). destruct (settle_pins _ _ _ _ _ Ho E2) as [Hp2 ->]. done.
Qed.

Lemma statements_said l : ∀ s k c s' c',
  active s = true → pinned k c → forallb (λ x, inside x.1.1) l = true → statements l s c = Some (Ret (Ok s', c')) →
  active s' = true ∧ pinned k c' ∧ transcript k ((λ x, x.1.1) <$> l) (cn_server c) (cn_server c').
Proof.
  induction l as [|x l IH]; intros s k c s' c' Ha Hp Hl E; [by injection E as <- <-|]. cbn [forallb] in Hl. apply andb_true_iff in Hl as [Hx Hl].
  apply bind_ok in E as (s1 & c1 & E1 & E). destruct (statement_pinned _ _ _ _ _ _ Ha Hx Hp E1) as (Ha1 & Hp1 & Ht1).
  destruct (IH _ _ _ _ _ Ha1 Hp1 Hl E) as (Ha2 & Hp2 & Ht2). split; [done|]. split; [done|]. eexists. by split.
Qed.

(** The [COMMIT] or [ROLLBACK] that succeeds was sent on the connection held, which is given up. *)
Lemma finish_said sql k c r c' :
  pinned k c → finish_transaction remaining_text debug_response f32_to_f64_bits f64_parse sql c = Some (Ret (Ok r, c')) →
  cn_server c' = (answer k (com_query sql) (cn_server c)).2 ∧ txn_lease c' = None.
Proof.
  intros [(pc & El & Hk) Htk]. unfold finish_transaction. rewrite El. intros ([r1 pc1] & c1 & E1 & (u & c2 & [= <- <-] & [= Er <-])%bind_ok)%bind_ok.
  assert (in_hand k pc (set_lease None c)) as Hh by done. destruct r1 as [r1|]; [|done].
  pose proof (on_conn_sends _ (com_query sql) k pc _ r1 pc1 c1 (λ k b sv a b' sv', exchange_sent _ _ _ _ _ k b sv a b' sv') Hh E1) as Hq.
  destruct (on_conn_stays _ k pc _ _ _ (simple_query_stays _ _) Hh E1) as (r2 & pc2 & [= _ <-] & (_ & Hl & _) & _). split; [exact Hq|exact Hl].
Qed.

End Pinned.
End MyConnectorTheorems.

(** ** Runs of the MySQL backend

    A server that logs what it hears on each connection, a transaction against it, and
    what happens to transactions and results when the server fails. *)
Import MyProtocol MyClient MyBackend MyConn MyReadTheorems MyConnector MyConnectorTheorems.
Module MyConnectorRuns.

(** The connections that were opened, and what was heard, last first. *)
Record Log := mkLog { opened : nat; heard : list (nat * str) }.

Definition ok_wire : str := packet (byte 1, [byte 0; byte 0; byte 0; byte 2; byte 0; byte 0; byte 0]).
Definition err_wire (m : str) : str := packet (byte 1, byte 255 :: le_bytes 2 1213 ++ $"#40001" ++ m).

(** What a server answers to a command, given what it heard before; [None]: the link is broken. *)
Definition behaviour : Type := list (nat * str) → str → option str.

Definition logging (f : behaviour) : MyServer Log := {|
  answer := λ k m sv, (match f (heard sv) (drop 4 m) with Some s => Ok (byte_by_byte s) | None => Err ($"broken pipe") end, mkLog (opened sv) ((k, drop 4 m) :: heard sv));
  open_link := λ _ _ _ sv, (Ok (mkFramed (opened sv) [] ($"utf8mb4") None new_resultset [] []), mkLog (S (opened sv)) (heard sv))
|}.

(** [COM_QUERY], [COM_STMT_PREPARE] and [COM_PING]. *)
Definition q (sql : str) : str := byte 3 :: sql.
Definition prepare_wire : str := packet (byte 1, byte 0 :: le_bytes 4 1 ++ replicate 7 (byte 0)).
Definition is_prepare (m : str) : bool := match m with c :: _ => byte_val c =? 22 | [] => false end.

Definition select : str := $"SELECT id FROM t".
Definition update : str := $"UPDATE t SET id = 8".
Definition good : behaviour := λ _ m, Some (if is_prepare m then prepare_wire else if str_eqb m (q select) then wire_of two_rows else ok_wire).

Definition start : Connector Log := with_endpoints [some_endpoint] (mkLog 0 []).
Definition in_txn : SessionState := with_transaction Active default_session.
Definition no_debug (r : GatewayResponse) : str := [].
Definition no_text (s : str) : str := [].

(** A command against a server; the outcome is dropped, the state kept. *)
Definition after (f : behaviour) (l : list (GatewayCommand * ExecuteMode * option nat)) (c : Connector Log) : Connector Log :=
  match @statements Log (logging f) [] no_text no_debug id no_float l in_txn c with Some (Ret (_, c)) => c | _ => c end.
Definition outcome (f : behaviour) (command : GatewayCommand) (s : SessionState) (c : Connector Log) : option (exec (GatewayResult (Outcome * SessionState) * Connector Log)) :=
  @execute_outcome Log (logging f) [] no_text no_debug id no_float command s Materialized c.
Definition result (f : behaviour) (command : GatewayCommand) (s : SessionState) (c : Connector Log) : option (GatewayResult Outcome) :=
  match outcome f command s c with Some (Ret (r, _)) => Some (fst <$> r) | _ => None end.
Definition state_after (f : behaviour) (command : GatewayCommand) (s : SessionState) (c : Connector Log) : Connector Log :=
  match outcome f command s c with Some (Ret (_, c)) => c | _ => c end.

Definition query (sql : str) : GatewayCommand * ExecuteMode * option nat := (Query sql, Materialized, None).
Definition begun_txn : Connector Log := after good [query update] start.
Definition rest_of_txn : list (GatewayCommand * ExecuteMode * option nat) :=
  [(Query select, Streaming 1 None, None); query update; (Prepare select, Materialized, None); (UseDatabase ($"app"), Materialized, None); (Query select, Streaming 1 None, Some 1%nat)].
Definition committed_txn : Connector Log := after good (rest_of_txn ++ [(Commit, Materialized, None)]) begun_txn.
Definition committed_session : SessionState := with_transaction Idle (with_database (Some ($"app")) in_txn).

(** The transaction as the server heard it. *)
Example transaction_heard :
  reverse (heard (cn_server committed_txn))
    = [(0%nat, q ($"BEGIN")); (0%nat, q update); (0%nat, q select); (0%nat, q update); (0%nat, byte 22 :: select); (0%nat, q ($"USE `app`")); (0%nat, q select); (0%nat, q ($"COMMIT"))].
Proof. by vm_compute. Qed.

(** ** Failures *)

(** The server goes away after the first row: the stream has ended where a packet ends, and
    one row of two is a complete result. *)
Definition dies_in_rows : behaviour := λ _ m, Some (if str_eqb m (q select) then wire_of (take 4 two_rows) else ok_wire).
Example cut_result_complete :
  match @simple_query Log (logging dies_in_rows) [] id no_float select Materialized clean_conn (mkLog 0 []) with
  | Some (Ret (r, _, _)) => r
  | _ => Err (Backend [])
  end = Ok (ResultSet [mkColumn ($"id") ($"long")] [[Integer 7]]).
Proof. by vm_compute. Qed.

(** The server ends the rows with an error (a deadlock, a timeout): the task that reads them
    only logs it, and the client gets the end of the result; the row before the error
    is lost too. *)
Definition error_in_rows : behaviour := λ _ m, Some (if str_eqb m (q select) then wire_of (take 4 two_rows) ++ err_wire ($"Deadlock") else ok_wire).
Definition streamed (f : behaviour) : option (list (list Row)) :=
  match @settle Log (logging f) [] id no_float 0 None (state_after f (Query select) default_session start) with
  | Some (Ret (Ok ws, _)) => Some ws
  | _ => None
  end.
Example error_in_rows_dropped : streamed good = Some [[[Integer 7]; [Integer (-1)]]] ∧ streamed error_in_rows = Some [].
Proof. by vm_compute. Qed.

(** A [BEGIN] that the server refuses is answered to the client, but the connection is kept
    for the transaction: the next statement runs on it without a transaction. *)
Definition refuses_begin : behaviour := λ _ m, Some (if str_eqb m (q ($"BEGIN")) then err_wire ($"no") else ok_wire).
Example refused_begin_forgotten :
  let c := state_after refuses_begin (Query update) in_txn start in
  result refuses_begin (Query update) in_txn start = Some (Ok (Done (RError ($"1213") ($"no"))))
  ∧ result refuses_begin (Query update) in_txn c = Some (Ok (Done no_rows))
  ∧ heard (cn_server (state_after refuses_begin (Query update) in_txn c)) = [(0%nat, q update); (0%nat, q ($"BEGIN"))].
Proof. by vm_compute. Qed.

(** The server closes the connection in the middle of a transaction: the statement fails,
    and [COMMIT] succeeds without having been sent. *)
Definition closes : behaviour := λ _ m, Some (if str_eqb m (q select) then [] else ok_wire).
Example lost_transaction_commits :
  let c := state_after closes (Query select) in_txn begun_txn in
  result closes (Query select) in_txn begun_txn = Some (Err (Backend ($"mysql backend closed while reading mysql query header")))
  ∧ result closes Commit in_txn c = Some (Ok (Done no_rows))
  ∧ heard (cn_server (state_after closes Commit in_txn c)) = heard (cn_server c).
Proof. by vm_compute. Qed.

(** After a write that failed, the connection goes back to the pool without its link; the
    next statement takes it from there and panics. *)
Definition breaks : behaviour := λ _ m, if str_eqb m (q select) then None else Some ok_wire.
Example broken_link_panics :
  result breaks (Query select) default_session start = Some (Err (Backend ($"write mysql query: broken pipe")))
  ∧ outcome good (Query update) default_session (state_after breaks (Query select) default_session start) = Some Panic.
Proof. by vm_compute. Qed.

(** Rows of a transaction that the client has not read to the end keep the connection: the
    next statement of the transaction opens another one, and another transaction. *)
Example unread_rows_split :
  let c := state_after good (Query select) in_txn begun_txn in
  take 3 (heard (cn_server (state_after good (Query update) in_txn c))) = [(1%nat, q update); (1%nat, q ($"BEGIN")); (0%nat, q select)].
Proof. by vm_compute. Qed.

(** A statement that is prepared first in a transaction is described on a connection that is
    kept for the transaction, without [BEGIN]; what follows is not in a transaction. *)
Example prepared_first_not_begun :
  reverse (heard (cn_server (after good [(Prepare update, Materialized, None); query update; (Rollback, Materialized, None)] start)))
    = [(0%nat, byte 22 :: update); (0%nat, q update); (0%nat, q ($"ROLLBACK"))].
Proof. by vm_compute. Qed.
End MyConnectorRuns.
