(* ===== verification/ShardingMeta.v ===== *)
(** * Sharding: rules and the metadata of a statement

    [data-proxy/proxy/strategy/src/]: the sharding rules of [config.rs], what they say of
    columns, counts and data nodes ([sharding_rewrite/generic_meta.rs]), and the metadata
    that the rewriter collects while the tree of a statement is walked
    ([sharding_rewrite/meta.rs]).

    The tree belongs to the parser.  A walk is the sequence of calls the visitor makes
    ([trans] on entering a node, [complete] on leaving it), each with what the code reads
    of the node. *)

From S2P Require Import Prelude RustStr LoadBalance.
Import LoadBalance.

Module ShardingMeta.

(** [Option::unwrap], indexing a slice. *)
Definition unwrap {A} (o : option A) : exec A := match o with Some a => Ret a | None => Panic end.
Definition index {A} (l : list A) (i : Z) : exec A := if i <? 0 then Panic else unwrap (l !! Z.to_nat i).

(** [IndexMap]: the entries in the order of their insertion. *)
Fixpoint im_get {K V} `{EqDecision K} (k : K) (m : list (K * V)) : option V :=
  match m with [] => None | (k', v) :: m => if decide (k = k') then Some v else im_get k m end.
Fixpoint im_insert {K V} `{EqDecision K} (k : K) (v : V) (m : list (K * V)) : list (K * V) :=
  match m with [] => [(k, v)] | (k', w) :: m => if decide (k = k') then (k', v) :: m else (k', w) :: im_insert k v m end.
(** [entry(k).or_insert(d)], then the entry changed by [f]. *)
Definition im_entry {K V} `{EqDecision K} (k : K) (d : V) (f : V → V) (m : list (K * V)) : list (K * V) :=
  im_insert k (f (default d (im_get k m))) m.
Definition im_push {K V} `{EqDecision K} (k : K) (v : V) (m : list (K * list V)) : list (K * list V) := im_entry k [] (λ l, l ++ [v]) m.

(** ** Rules ([config.rs]) *)

Inductive ShardingAlgorithmName := Mod | CRC32Mod.
Record DatabaseStrategyConfig := mkDatabaseStrategy { ds_algo : ShardingAlgorithmName; ds_column : str }.
Record TableStrategyConfig := mkTableStrategy { ts_algo : ShardingAlgorithmName; ts_column : str; ts_count : Z }.
Record DatabaseTableStrategyConfig := mkDatabaseTableStrategy {
  dt_db_algo : ShardingAlgorithmName; dt_db_column : str; dt_table_algo : ShardingAlgorithmName; dt_table_column : str; dt_count : Z }.
Record StrategyInline := mkInline { algorithm_expression : str; allow_range_query_with_inline_sharding : bool }.

Inductive StrategyType :=
| DatabaseTableStrategy (c : DatabaseTableStrategyConfig)
| DatabaseStrategy (c : DatabaseStrategyConfig)
| TableStrategy (c : TableStrategyConfig)
| DatabaseInline (c : StrategyInline)
| TableInline (c : StrategyInline).

(** [binding_tables] and [broadcast_tables] are not read. *)
Record Sharding := mkSharding {
  table_name : str;
  actual_datanodes : list str;
  database_strategy : option StrategyType;
  table_strategy : option StrategyType;
  database_table_strategy : option StrategyType
}.

(** ** What a rule says ([generic_meta.rs]) *)

Inductive StrategyTyp := TypDatabaseTable | TypDatabase | TypTable.

Definition strategy_column (t : StrategyType) : option str * option str :=
  match t with
  | DatabaseStrategy c => (Some (ds_column c), None)
  | DatabaseTableStrategy c => (Some (dt_db_column c), Some (dt_table_column c))
  | TableStrategy c => (None, Some (ts_column c))
  | _ => (None, None)
  end.
Definition strategy_algo (t : StrategyType) : option ShardingAlgorithmName * option ShardingAlgorithmName :=
  match t with
  | DatabaseStrategy c => (Some (ds_algo c), None)
  | DatabaseTableStrategy c => (Some (dt_db_algo c), Some (dt_table_algo c))
  | TableStrategy c => (None, Some (ts_algo c))
  | _ => (None, None)
  end.
(** [unimplemented!()] for databases. *)
Definition strategy_count (t : StrategyType) : exec (option Z * option Z) :=
  match t with
  | DatabaseStrategy _ => Panic
  | DatabaseTableStrategy c => Ret (None, Some (dt_count c))
  | TableStrategy c => Ret (None, Some (ts_count c))
  | _ => Ret (None, None)
  end.

(** The first strategy that a rule has. *)
Definition first_strategy (r : Sharding) : option StrategyType :=
  match database_strategy r, table_strategy r with
  | Some t, _ => Some t
  | None, Some t => Some t
  | None, None => database_table_strategy r
  end.
Definition get_sharding_column (r : Sharding) : option str * option str := from_option strategy_column (None, None) (first_strategy r).
Definition get_algo (r : Sharding) : option ShardingAlgorithmName * option ShardingAlgorithmName := from_option strategy_algo (None, None) (first_strategy r).
Definition get_sharding_count (r : Sharding) : exec (option Z * option Z) :=
  let nodes := Z.of_nat (length (actual_datanodes r)) mod 2 ^ 32 in
  match database_strategy r, table_strategy r, database_table_strategy r with
  | Some _, _, _ => Ret (Some nodes, None)
  | None, Some t, _ => c ← strategy_count t; Ret (None, c.2)
  | None, None, Some t => c ← strategy_count t; Ret (Some nodes, c.2)
  | None, None, None => Ret (None, None)
  end.

Definition named_endpoint (endpoints : list Endpoint) (n : str) : option Endpoint := List.find (λ e, bool_decide (name e = n)) endpoints.

(** The index is evaluated once per endpoint: without endpoints it cannot panic. *)
Definition node_endpoint (endpoints : list Endpoint) (r : Sharding) (idx : Z) : exec (option Endpoint) :=
  if is_empty endpoints then Ret None else n ← index (actual_datanodes r) idx; Ret (named_endpoint endpoints n).

Definition get_actual_schema (endpoints : list Endpoint) (idx : Z) (r : Sharding) : exec (option str) :=
  if negb (is_none (database_strategy r)) || negb (is_none (database_table_strategy r))
  then fmap (M := option) db <$> node_endpoint endpoints r idx else Ret None.
Definition get_endpoint (endpoints : list Endpoint) (idx : Z) (r : Sharding) : exec (option Endpoint) :=
  node_endpoint endpoints r (if is_none (table_strategy r) then idx else 0).
Definition get_strategy_typ (r : Sharding) : StrategyTyp :=
  if negb (is_none (database_strategy r)) then TypDatabase else if negb (is_none (table_strategy r)) then TypTable else TypDatabaseTable.

(** ** Metadata ([meta.rs]) *)

(** A span of bytes of the statement. *)
Record Span := mkSpan { sp_start : nat; sp_end : nat }.
Definition sp_len (s : Span) : nat := sp_end s - sp_start s.

Record TableIdent := mkTable { ti_span : Span; ti_schema : option str; ti_name : str }.

Inductive FieldAggFunc := Avg (avg_field_name field_name : str) (span : Span) | Min | Max | Count | Sum | NoAgg.
Record FieldMetaIdent := mkField { fi_span : Span; fi_name : str; agg_func : FieldAggFunc }.
Inductive FieldMeta := FIdent (f : FieldMetaIdent) | FTableWild (text : str).

Inductive OrderDirection := Asc | Desc.
Record OrderMeta := mkOrder { om_span : Span; om_name : str; direction : OrderDirection }.
Record GroupMeta := mkGroup { gm_span : Span; gm_name : str }.
Record LimitMeta := mkLimit { lm_span : Span; lm_name : str }.
Inductive WhereMetaRightDataType := WString (s : str) | WNum (s : str) | WSignedNum (s : str) | WFloatNum (s : str).
Record WhereMeta := mkWhere { wm_left : str; wm_right : WhereMetaRightDataType }.
Record OnCond := mkOnCond { oc_span : Span; oc_name : str }.
Record JoinOnCond := mkJoin { jo_left : OnCond; jo_right : OnCond }.
Record InsertValue := mkValue { iv_span : Span; iv_value : str }.
Record InsertValsMeta := mkRow { row_values : list InsertValue; row_span : Span }.
Record QueryRequire := mkRequire { qr_query : Z; expr_token : option str; require_query_id : Z }.

Inductive ScanState := ScanEmpty | ScanTableName | ScanField | ScanOrder (d : OrderDirection) | ScanGroup | ScanOnCond (l : list OnCond) | ScanInsertRow (l : list InsertValue).

Record RewriteMetaData := mkMeta {
  tables : list (Z * list TableIdent);
  fields : list (Z * list FieldMeta);
  orders : list (Z * list OrderMeta);
  groups : list (Z * list GroupMeta);
  limits : list (Z * list LimitMeta);
  wheres : list (Z * list WhereMeta);
  on_conds : list (Z * list JoinOnCond);
  inserts : list (Z * list InsertValsMeta);
  queries : list (Z * Span);
  field_blocks : list (Z * Span);
  query_id : Z;
  scan_state : ScanState;
  requires : list QueryRequire;
  prev_expr_type : option str;
  meta_input : str
}.

Definition new_meta (input : str) : RewriteMetaData := mkMeta [] [] [] [] [] [] [] [] [] [] 0 ScanEmpty [] None input.

(** What the code reads of the expressions it meets. *)
Inductive AvgArg := AvgOf (value : str) | AvgOther | AvgNotInSum.
Inductive AggCall := CallAvg (a : AvgArg) | CallMax | CallMin | CallCount | CallSum | CallOther.
Inductive ItemKind := ItemIdent | ItemAgg (c : AggCall) | ItemOther.
Inductive ExprNode :=
| ExIdent (span : Span) (value : str)
| ExTableIdent (span : Span) (text : str)
| ExSimpleOther
| ExBinary (operator : str) (ident : option str) (number : option (bool * str))
| ExIn
| ExSubQuery
| ExNum (span : Span) (value : str)
| ExText (span : Span) (value : str)
| ExLiteralOther
| ExOther.

(** The nodes, and the walk below a subquery. *)
Inductive Node :=
| NQuery (span : Span)
| NSubQuery (walk : list Call)
| NUpdate (span : Span)
| NDelete (span : Span) (table : option TableIdent)
| NSingleTable (table : TableIdent)
| NFromClause
| NTableRef
| NItems (span : Span) (wilds : list str)
| NItemExpr (span : Span) (alias : option str) (kind : ItemKind)
| NOrderExpr (direction : option str)
| NGroupClause
| NLimitClause (opts : list LimitMeta)
| NInsert (table : TableIdent)
| NRowValue (span : Span)
| NInsertIdent (span : Span) (value : str) (quoted : bool)
| NInsertWild (text : str)
| NExpr (e : ExprNode)
| NOther
with Call := CTrans (n : Node) | CComplete (n : Node).

Definition unquote_name (s : str) : str := filter (λ c, Ascii.eqb c "`" = false) s.

(** The pushes, under the current query. *)
Definition push_table (t : TableIdent) (m : RewriteMetaData) : RewriteMetaData :=
  mkMeta (im_push (query_id m) t (tables m)) (fields m) (orders m) (groups m) (limits m) (wheres m) (on_conds m) (inserts m) (queries m) (field_blocks m) (query_id m) (scan_state m) (requires m) (prev_expr_type m) (meta_input m).
Definition push_field (f : FieldMeta) (m : RewriteMetaData) : RewriteMetaData :=
  mkMeta (tables m) (im_push (query_id m) f (fields m)) (orders m) (groups m) (limits m) (wheres m) (on_conds m) (inserts m) (queries m) (field_blocks m) (query_id m) (scan_state m) (requires m) (prev_expr_type m) (meta_input m).
Definition push_order (o : OrderMeta) (m : RewriteMetaData) : RewriteMetaData :=
  mkMeta (tables m) (fields m) (im_push (query_id m) o (orders m)) (groups m) (limits m) (wheres m) (on_conds m) (inserts m) (queries m) (field_blocks m) (query_id m) (scan_state m) (requires m) (prev_expr_type m) (meta_input m).
Definition push_group (g : GroupMeta) (m : RewriteMetaData) : RewriteMetaData :=
  mkMeta (tables m) (fields m) (orders m) (im_push (query_id m) g (groups m)) (limits m) (wheres m) (on_conds m) (inserts m) (queries m) (field_blocks m) (query_id m) (scan_state m) (requires m) (prev_expr_type m) (meta_input m).
Definition push_limit (l : LimitMeta) (m : RewriteMetaData) : RewriteMetaData :=
  mkMeta (tables m) (fields m) (orders m) (groups m) (im_push (query_id m) l (limits m)) (wheres m) (on_conds m) (inserts m) (queries m) (field_blocks m) (query_id m) (scan_state m) (requires m) (prev_expr_type m) (meta_input m).
Definition push_where (w : WhereMeta) (m : RewriteMetaData) : RewriteMetaData :=
  mkMeta (tables m) (fields m) (orders m) (groups m) (limits m) (im_push (query_id m) w (wheres m)) (on_conds m) (inserts m) (queries m) (field_blocks m) (query_id m) (scan_state m) (requires m) (prev_expr_type m) (meta_input m).
Definition push_on_cond (j : JoinOnCond) (m : RewriteMetaData) : RewriteMetaData :=
  mkMeta (tables m) (fields m) (orders m) (groups m) (limits m) (wheres m) (im_push (query_id m) j (on_conds m)) (inserts m) (queries m) (field_blocks m) (query_id m) (scan_state m) (requires m) (prev_expr_type m) (meta_input m).
Definition push_insert_value (r : InsertValsMeta) (m : RewriteMetaData) : RewriteMetaData :=
  mkMeta (tables m) (fields m) (orders m) (groups m) (limits m) (wheres m) (on_conds m) (im_push (query_id m) r (inserts m)) (queries m) (field_blocks m) (query_id m) (scan_state m) (requires m) (prev_expr_type m) (meta_input m).
Definition push_field_block (s : Span) (m : RewriteMetaData) : RewriteMetaData :=
  mkMeta (tables m) (fields m) (orders m) (groups m) (limits m) (wheres m) (on_conds m) (inserts m) (queries m) (im_insert (query_id m) s (field_blocks m)) (query_id m) (scan_state m) (requires m) (prev_expr_type m) (meta_input m).
Definition set_scan (st : ScanState) (m : RewriteMetaData) : RewriteMetaData :=
  mkMeta (tables m) (fields m) (orders m) (groups m) (limits m) (wheres m) (on_conds m) (inserts m) (queries m) (field_blocks m) (query_id m) st (requires m) (prev_expr_type m) (meta_input m).
Definition set_query_id (q : Z) (m : RewriteMetaData) : RewriteMetaData :=
  mkMeta (tables m) (fields m) (orders m) (groups m) (limits m) (wheres m) (on_conds m) (inserts m) (queries m) (field_blocks m) (q mod 256) (scan_state m) (requires m) (prev_expr_type m) (meta_input m).
Definition set_requires (l : list QueryRequire) (prev : option str) (m : RewriteMetaData) : RewriteMetaData :=
  mkMeta (tables m) (fields m) (orders m) (groups m) (limits m) (wheres m) (on_conds m) (inserts m) (queries m) (field_blocks m) (query_id m) (scan_state m) l prev (meta_input m).

(** [query_id += 1; push_query(..)]. *)
Definition enter_query (s : Span) (m : RewriteMetaData) : RewriteMetaData :=
  let m := set_query_id (query_id m + 1) m in
  mkMeta (tables m) (fields m) (orders m) (groups m) (limits m) (wheres m) (on_conds m) (inserts m) (im_insert (query_id m) s (queries m)) (field_blocks m) (query_id m) (scan_state m) (requires m) (prev_expr_type m) (meta_input m).

Definition get_field_name (input : str) (s : Span) (alias : option str) : exec str :=
  match alias with Some n => Ret n | None => slice input (sp_start s) (sp_end s) end.

Definition agg_of (c : AggCall) (n : str) (s : Span) : exec FieldAggFunc :=
  match c with
  | CallAvg (AvgOf value) => Ret (Avg n value s)
  | CallAvg AvgOther => Ret NoAgg
  | CallAvg AvgNotInSum => Panic
  | CallMax => Ret Max
  | CallMin => Ret Min
  | CallCount => Ret Count
  | CallSum => Ret Sum
  | CallOther => Ret NoAgg
  end.

(** [Node::Expr]. *)
Definition trans_expr (e : ExprNode) (m : RewriteMetaData) : RewriteMetaData :=
  match e with
  | ExIdent s v =>
      match scan_state m with
      | ScanOrder d => push_order (mkOrder s v d) m
      | ScanGroup => push_group (mkGroup s v) m
      | _ => m
      end
  | ExTableIdent s text =>
      match scan_state m with
      | ScanOnCond [] => set_scan (ScanOnCond [mkOnCond s text]) m
      | ScanOnCond (a :: _) => set_scan ScanEmpty (push_on_cond (mkJoin a (mkOnCond s text)) m)
      | _ => m
      end
  | ExBinary op ident number =>
      if str_eqb op ($"=") then
        match ident, number with
        | Some i, Some (signed, v) => push_where (mkWhere i (if signed : bool then WSignedNum v else WNum v)) m
        | _, _ => m
        end
      else m
  | ExIn => set_requires (requires m) (Some ($"In")) m
  | ExSubQuery => set_requires (requires m ++ [mkRequire (query_id m) (prev_expr_type m) ((query_id m + 1) mod 256)]) None m
  | ExNum s v | ExText s v =>
      match scan_state m with ScanInsertRow l => set_scan (ScanInsertRow (l ++ [mkValue s v])) m | _ => m end
  | ExSimpleOther | ExLiteralOther | ExOther => m
  end.

(** Leaving a node: a row that is complete is kept. *)
Definition complete (n : Node) (m : RewriteMetaData) : RewriteMetaData :=
  match scan_state m with
  | ScanInsertRow l =>
      let m := set_scan (ScanInsertRow []) m in
      match n with NRowValue s => push_insert_value (mkRow l s) m | _ => m end
  | _ => m
  end.

(** Entering a node.  The answer to the visitor, whether it may go below the node, is
    part of the walk. *)
Fixpoint trans (n : Node) (m : RewriteMetaData) {struct n} : exec RewriteMetaData :=
  match n with
  | NQuery s | NUpdate s => Ret (enter_query s m)
  | NSubQuery walk =>
      m ← (fix go (l : list Call) (m : RewriteMetaData) : exec RewriteMetaData :=
             match l with
             | [] => Ret m
             | c :: l => m ← match c with CTrans n => trans n m | CComplete n => Ret (complete n m) end; go l m
             end) walk m;
      Ret (set_query_id (query_id m - 1) m)
  | NDelete s t => let m := enter_query s m in Ret (match t with Some t => push_table t m | None => m end)
  | NSingleTable t | NInsert t => Ret (push_table t m)
  | NFromClause => Ret (set_scan ScanTableName m)
  | NTableRef => Ret (set_scan (ScanOnCond []) m)
  | NItems s wilds => Ret (foldl (λ m w, push_field (FTableWild w) m) (set_scan ScanField (push_field_block s m)) wilds)
  | NItemExpr s alias kind =>
      n ← get_field_name (meta_input m) s alias;
      match kind with
      | ItemIdent => Ret (push_field (FIdent (mkField s n NoAgg)) m)
      | ItemAgg c => a ← agg_of c n s; Ret (push_field (FIdent (mkField s n a)) m)
      | ItemOther => Ret m
      end
  | NOrderExpr d => Ret (set_scan (ScanOrder (if bool_decide (d = Some ($"DESC")) then Desc else Asc)) m)
  | NGroupClause => Ret (set_scan ScanGroup m)
  | NLimitClause opts => Ret (foldl (λ m l, push_limit l m) m opts)
  | NRowValue _ => Ret (match scan_state m with ScanInsertRow _ => m | _ => set_scan (ScanInsertRow []) m end)
  | NInsertIdent s v quoted => Ret (push_field (FIdent (mkField s (if quoted : bool then unquote_name v else v) NoAgg)) m)
  | NInsertWild text => Ret (push_field (FTableWild text) m)
  | NExpr e => Ret (trans_expr e m)
  | NOther => Ret m
  end.

Definition call (c : Call) (m : RewriteMetaData) : exec RewriteMetaData :=
  match c with CTrans n => trans n m | CComplete n => Ret (complete n m) end.

(** [ast.visit(&mut meta)]. *)
Fixpoint visit (walk : list Call) (m : RewriteMetaData) : exec RewriteMetaData :=
  match walk with [] => Ret m | c :: walk => m ← call c m; visit walk m end.

Definition get_meta (raw_sql : str) (walk : list Call) : exec RewriteMetaData := visit walk (new_meta raw_sql).
End ShardingMeta.
