(* ===== verification/Sharding.v ===== *)
(** * Sharding: the rewriter

    [data-proxy/proxy/strategy/src/sharding_rewrite/mod.rs]: which shards a statement goes to
    and what each of them is sent.

    The CRC of the third-party crate and the arithmetic of floats are parameters.
    [usize] arithmetic wraps, as it does in a release build. *)

From S2P Require Import Prelude RustStr LoadBalance PgProtocol MyFrontend ShardingMeta.
Import LoadBalance ShardingMeta.

Module Sharding.

Inductive ShardingRewriteError :=
| ShardingColumnNotFound | ParseIntError | ParseFloatError | CalcShardingIdxError | EndpointNotFound | FieldsIsEmpty | DatabaseNotFound.

(** Code that may fail or panic. *)
Definition er (A : Type) : Type := exec (result ShardingRewriteError A).
#[export] Instance er_ret : MRet er := λ A a, Ret (Ok a).
#[export] Instance er_bind : MBind er := λ A B k m, match m with Ret (Ok a) => k a | Ret (Err e) => Ret (Err e) | Panic => Panic end.
Definition er_fail {A} (e : ShardingRewriteError) : er A := Ret (Err e).
Definition er_run {A} (m : exec A) : er A := match m with Ret a => Ret (Ok a) | Panic => Panic end.
Definition or_fail {A} (e : ShardingRewriteError) (o : option A) : er A := match o with Some a => mret a | None => er_fail e end.
(** Every result, or the first failure. *)
Fixpoint er_each {A B} (f : A → er B) (l : list A) : er (list B) :=
  match l with [] => mret [] | a :: l => b ← f a; r ← er_each f l; mret (b :: r) end.

Inductive DataSource := DsEndpoint (e : Endpoint) | DsNodeGroup (n : str) | DsNone.
Record ShardingIdx := mkIdx { idx_database : option Z; idx_table : option Z }.
Record ShardingColumn := mkColumns { col_database : option str; col_table : option str }.
Record DataSourceShardingIdx := mkDsIdx { di_ds : DataSource; di_idx : ShardingIdx; di_column : ShardingColumn }.

#[export] Instance DataSource_eq_dec : EqDecision DataSource.
Proof. solve_decision. Defined.
#[export] Instance ShardingIdx_eq_dec : EqDecision ShardingIdx.
Proof. solve_decision. Defined.
#[export] Instance ShardingColumn_eq_dec : EqDecision ShardingColumn.
Proof. solve_decision. Defined.
#[export] Instance DataSourceShardingIdx_eq_dec : EqDecision DataSourceShardingIdx.
Proof. solve_decision. Defined.

Inductive ChangePlanAction := PAdd | PReplace.
Inductive ChangePlanTyp := PField | PTable.
#[export] Instance ChangePlanAction_eq_dec : EqDecision ChangePlanAction.
Proof. solve_decision. Defined.
#[export] Instance ChangePlanTyp_eq_dec : EqDecision ChangePlanTyp.
Proof. solve_decision. Defined.

Record AvgChange := mkAvg { count_field : str; sum_field : str; ori_field : str }.
Inductive ChangeTargetMeta := TargetTable (s : str) | TargetAvg (a : AvgChange) | TargetOrderGroup (order_fields group_fields : list str).

Record ChangePlan := mkPlan {
  cp_query : Z;
  cp_target : str;
  cp_span : Span;
  cp_action : ChangePlanAction;
  cp_typ : ChangePlanTyp;
  cp_meta : ChangeTargetMeta
}.

Record ShardingRewriteResult := mkResult { r_ds : DataSourceShardingIdx; r_changes : list (Z * list ChangeTargetMeta); target_sql : str }.
Record ShardingRewriteOutput := mkOutput { results : list ShardingRewriteResult; agg_fields : list (Z * list FieldMetaIdent) }.
Definition default_output : ShardingRewriteOutput := mkOutput [] [].

(** [node_group_config] by the names of its members. *)
Record ShardingRewrite := mkRewrite {
  rules : list Sharding;
  raw_sql : str;
  endpoints : list Endpoint;
  has_rw : bool;
  node_group_config : option (list str);
  default_db : option str;
  query_metas : list (Z * Span);
  field_block_metas : list (Z * Span);
  change_plans : list (DataSourceShardingIdx * list ChangePlan)
}.

Definition new_rewrite (rules : list Sharding) (endpoints : list Endpoint) (node_group_config : option (list str)) (has_rw : bool) : ShardingRewrite :=
  mkRewrite rules [] endpoints has_rw node_group_config None [] [] [].
Definition set_plans (l : list (DataSourceShardingIdx * list ChangePlan)) (w : ShardingRewrite) : ShardingRewrite :=
  mkRewrite (rules w) (raw_sql w) (endpoints w) (has_rw w) (node_group_config w) (default_db w) (query_metas w) (field_block_metas w) l.
Definition push_plan (k : DataSourceShardingIdx) (p : ChangePlan) (w : ShardingRewrite) : ShardingRewrite := set_plans (im_push k p (change_plans w)) w.

Inductive DatabaseTableStrategyPart := PartDatabase (i : Z) | PartTable (i : Z) | PartDatabaseTable (d t : Z) | PartAll.

(** The tables that are sharded, with the query and the rule. *)
Abbreviation try_table := (Z * Sharding * TableIdent)%type.

Definition ORDER_BY_DERIVED : str := $"ORDER_BY_DERIVED".
Definition GROUP_BY_DERIVED : str := $"GROUP_BY_DERIVED".
Definition AVG_DERIVED_COUNT : str := $"AVG_DERIVED_COUNT".
Definition AVG_DERIVED_SUM : str := $"AVG_DERIVED_SUM".
Definition pad5 (n : Z) : str := MyFrontend.zero_pad 5 n.

Section Rewriter.
Context (crc32 : str → Z) (f64_parse : str → option Z) (f64_mod_round : Z → Z → Z).

(** ** The index of a value *)

Definition calc_u64 (v : Z) (algo : ShardingAlgorithmName) (count : Z) : exec Z :=
  if count =? 0 then Panic
  else Ret (match algo with Mod => v mod count | CRC32Mod => crc32 (be_bytes 8 v []) mod count end).
(** [as u64] of a remainder that has the sign of the value. *)
Definition calc_i64 (v : Z) (algo : ShardingAlgorithmName) (count : Z) : exec Z :=
  if count =? 0 then Panic
  else Ret (u64_wrap (match algo with Mod => Z.rem v count | CRC32Mod => Z.rem (crc32 (be_bytes 8 (v mod 2 ^ 64) [])) count end)).
Definition calc_f64 (v : Z) (algo : ShardingAlgorithmName) (count : Z) : exec Z :=
  match algo with
  | Mod => Ret (f64_mod_round v count)
  | CRC32Mod => if count =? 0 then Panic else Ret (crc32 (be_bytes 8 v []) mod count)
  end.

Definition parse_where (rhs : WhereMetaRightDataType) (count : Z) (algo : ShardingAlgorithmName) : er (option Z) :=
  match rhs with
  | WNum s => v ← or_fail ParseIntError (parse_unsigned (2 ^ 64 - 1) s); i ← er_run (calc_u64 v algo count); mret (Some i)
  | WSignedNum s => v ← or_fail ParseIntError (parse_signed (2 ^ 63 - 1) s); i ← er_run (calc_i64 v algo count); mret (Some i)
  | WFloatNum s => v ← or_fail ParseFloatError (f64_parse s); i ← er_run (calc_f64 v algo count); mret (Some i)
  | WString _ => mret None
  end.

Definition get_where_match_right (metas : list WhereMeta) (column : str) : option WhereMetaRightDataType :=
  wm_right <$> List.find (λ w, bool_decide (unquote_name (wm_left w) = column)) metas.

(** ** The tables *)

(** [iter.find(..)]: what was looked at is gone from the iterator. *)
Fixpoint iter_find {A} (p : A → bool) (l : list A) : bool * list A :=
  match l with [] => (false, []) | a :: l => if p a then (true, l) else iter_find p l end.

(** Whether one of the nodes is an endpoint of the default database; all searches share
    one iterator over the endpoints. *)
Fixpoint node_in_default (nodes : list str) (default : str) (it : list Endpoint) : bool * list Endpoint :=
  match nodes with
  | [] => (false, it)
  | n :: nodes =>
      let '(found, it) := iter_find (λ e, bool_decide (name e = n) && bool_decide (default = db e)) it in
      if found then (true, it) else node_in_default nodes default it
  end.

Definition has_default_db (w : ShardingRewrite) (r : Sharding) (it : list Endpoint) : exec (bool * list Endpoint) :=
  match default_db w with
  | None => Ret (false, it)
  | Some d =>
      if has_rw w then
        members ← unwrap (node_group_config w);
        Ret (existsb (λ n, existsb (λ g, bool_decide (g = n)) members) (actual_datanodes r), it)
      else Ret (node_in_default (actual_datanodes r) d it)
  end.

Definition rule_of (w : ShardingRewrite) (t : TableIdent) : option Sharding :=
  List.find (λ r, bool_decide (table_name r = unquote_name (ti_name t))) (rules w).

Fixpoint find_tables (w : ShardingRewrite) (q : Z) (l : list TableIdent) (it : list Endpoint) : exec (list try_table * list Endpoint) :=
  match l with
  | [] => Ret ([], it)
  | t :: l =>
      match rule_of w t with
      | None => find_tables w q l it
      | Some r =>
          '(here, it) ← has_default_db w r it;
          '(rest, it) ← find_tables w q l it;
          Ret (if negb (is_none (ti_schema t)) || here then (q, r, t) :: rest else rest, it)
      end
  end.

Fixpoint find_table (w : ShardingRewrite) (l : list (Z * list TableIdent)) (it : list Endpoint) : exec (list try_table) :=
  match l with
  | [] => Ret []
  | (q, ts) :: l => '(here, it) ← find_tables w q ts it; rest ← find_table w l it; Ret (here ++ rest)
  end.
Definition find_table_rule (l : list (Z * list TableIdent)) (w : ShardingRewrite) : exec (list try_table) := find_table w l (endpoints w).

(** ** Conditions *)

Definition rule_for (q : Z) (ts : list try_table) : exec Sharding := t ← unwrap (List.find (λ t : try_table, t.1.1 =? q) ts); Ret t.1.2.

(** The index that the conditions of a query give for a column. *)
Definition where_idx (metas : list WhereMeta) (column : option str) (count : option Z) (algo : option ShardingAlgorithmName) : er (option (option Z)) :=
  column ← er_run (unwrap column);
  match get_where_match_right metas column with
  | None => mret None
  | Some rhs => count ← er_run (unwrap count); algo ← er_run (unwrap algo); i ← parse_where rhs count algo; mret (Some i)
  end.

Fixpoint find_try_where (typ : StrategyTyp) (ts : list try_table) (l : list (Z * list WhereMeta)) : er (list (Z * list (option Z))) :=
  match l with
  | [] => mret []
  | (q, metas) :: l =>
      r ← er_run (rule_for q ts);
      count ← er_run (get_sharding_count r);
      let column := get_sharding_column r in
      let algo := get_algo r in
      here ← match typ with
             | TypDatabase => i ← where_idx metas column.1 count.1 algo.1; mret (match i with Some i => [(q, [i])] | None => [] end)
             | TypTable => i ← where_idx metas column.2 count.2 algo.2; mret (match i with Some i => [(q, [i])] | None => [] end)
             | TypDatabaseTable =>
                 _ ← er_run (unwrap column.2);
                 d ← where_idx metas column.1 count.1 algo.1;
                 t ← where_idx metas column.2 count.2 algo.2;
                 mret [(q, [default None d; default None t])]
             end;
      rest ← find_try_where typ ts l;
      mret (here ++ rest)
  end.

(** ** Changing the text *)

Definition change_table (w : ShardingRewrite) (t : TableIdent) (actual_db : str) (table_idx : Z) : exec str :=
  d ← match ti_schema t with Some s => Ret s | None => unwrap (default_db w) end;
  Ret (if is_empty actual_db then
         $"`" ++ d ++ $"`." ++
         (if contains_char (ti_name t) "`" then $"`" ++ unquote_name (ti_name t) ++ $"_" ++ pad5 table_idx ++ $"`"
          else ti_name t ++ $"_" ++ pad5 table_idx)
       else (if contains_char d "`" then $"`" ++ actual_db ++ $"`" else actual_db) ++ $"." ++ ti_name t).

(** [String::remove]: one character, of one byte or more. *)
Definition remove_char (i : Z) (s : str) : exec str :=
  if (i <? 0) || (len s <=? i) then Panic
  else
    rest ← slice_from s (Z.to_nat i);
    match chars rest with
    | [] => Panic
    | _ :: cs => Ret (take (Z.to_nat i) s ++ concat cs)
    end.
Fixpoint remove_chars (n : nat) (i : Z) (s : str) : exec str :=
  match n with O => Ret s | S n => s ← remove_char i s; remove_chars n i s end.
Definition insert_at (i : Z) (t : str) (s : str) : exec str :=
  if (i <? 0) || (len s <? i) || negb (is_char_boundary s (Z.to_nat i)) then Panic
  else Ret (take (Z.to_nat i) s ++ t ++ drop (Z.to_nat i) s).

Definition change_sql (s : str) (span : Span) (target : str) (offset : Z) : exec str :=
  let i := u64_wrap (Z.of_nat (sp_start span) + offset) in
  s ← remove_chars (sp_len span) i s;
  insert_at i target s.

(** ** Plans *)

Definition field_exists (n : str) (fs : list FieldMeta) : bool :=
  existsb (λ f, match f with FIdent f => bool_decide (unquote_name (fi_name f) = unquote_name n) | FTableWild _ => false end) fs.

(** The name of a derived column, and the column. *)
Definition derived (n suffix : str) (table : option Z) : exec (str * str) :=
  t ← unwrap table;
  let as_name := to_ascii_uppercase (unquote_name n) ++ $"_" ++ suffix ++ $"_" ++ pad5 t in
  Ret (n ++ $" AS " ++ as_name, as_name).
Fixpoint derive_all (ns : list str) (suffix : str) (table : option Z) : exec (list (str * str)) :=
  match ns with [] => Ret [] | n :: ns => d ← derived n suffix table; r ← derive_all ns suffix table; Ret (d :: r) end.

(** Columns of [ORDER BY] and [GROUP BY] that are not selected are added. *)
Definition change_order_group (q : Z) (os : option (list OrderMeta)) (gs : option (list GroupMeta)) (fs : option (list FieldMeta))
    (k : DataSourceShardingIdx) (w : ShardingRewrite) : exec ShardingRewrite :=
  if is_none os && is_none gs then Ret w
  else
    let fs := default [] fs in
    block ← unwrap (im_get q (field_block_metas w));
    let missing (ns : list str) := filter (λ n, field_exists n fs = false) ns in
    os ← derive_all (missing (om_name <$> default [] os)) ORDER_BY_DERIVED (idx_table (di_idx k));
    gs ← derive_all (missing (gm_name <$> default [] gs)) GROUP_BY_DERIVED (idx_table (di_idx k));
    if is_empty (os ++ gs) then Ret w
    else Ret (push_plan k (mkPlan q ($", " ++ join ($", ") (os ++ gs).*1) block PAdd PField (TargetOrderGroup os.*2 gs.*2)) w).

(** An average is computed from counts and sums. *)
Definition avg_plan (q : Z) (f : FieldMeta) (k : DataSourceShardingIdx) : exec (option ChangePlan) :=
  match f with
  | FIdent (mkField _ _ (Avg avg_name n span)) =>
      t ← unwrap (idx_table (di_idx k));
      let count_as := to_ascii_uppercase n ++ $"_" ++ AVG_DERIVED_COUNT ++ $"_" ++ pad5 t in
      let sum_as := to_ascii_uppercase n ++ $"_" ++ AVG_DERIVED_SUM ++ $"_" ++ pad5 t in
      Ret (Some (mkPlan q ($"COUNT(" ++ n ++ $") AS " ++ count_as ++ $", SUM(" ++ n ++ $") AS " ++ sum_as) span PReplace PField
                   (TargetAvg (mkAvg count_as sum_as avg_name))))
  | _ => Ret None
  end.
Fixpoint change_avg (q : Z) (fs : list FieldMeta) (k : DataSourceShardingIdx) (w : ShardingRewrite) : exec ShardingRewrite :=
  match fs with
  | [] => Ret w
  | f :: fs => p ← avg_plan q f k; change_avg q fs k (match p with Some p => push_plan k p w | None => w end)
  end.

(** *** Applying them *)

Fixpoint insert_by_start (p : ChangePlan) (l : list ChangePlan) : list ChangePlan :=
  match l with
  | [] => [p]
  | p' :: l' => if (sp_start (cp_span p) <? sp_start (cp_span p'))%nat then p :: l else p' :: insert_by_start p l'
  end.
(** [sort_by_cached_key]: stable. *)
Definition sort_plans (l : list ChangePlan) : list ChangePlan := foldl (λ l p, insert_by_start p l) [] l.
Definition select_plans (q : Z) (a : ChangePlanAction) (t : ChangePlanTyp) (l : list ChangePlan) : list ChangePlan :=
  sort_plans (filter (λ p, cp_query p = q ∧ cp_action p = a ∧ cp_typ p = t) l).

(** The text, the offset and the changes so far. *)
Definition apply_state : Type := str * Z * list (Z * list ChangeTargetMeta).

Definition apply_plan (q : Z) (p : ChangePlan) (st : apply_state) : exec apply_state :=
  let '(s, offset, changes) := st in
  let changes := im_push q (cp_meta p) changes in
  match cp_action p with
  | PReplace =>
      s ← change_sql s (cp_span p) (cp_target p) offset;
      Ret (s, u64_wrap (offset + (len (cp_target p) - Z.of_nat (sp_len (cp_span p)))), changes)
  | PAdd =>
      s ← insert_at (u64_wrap (Z.of_nat (sp_end (cp_span p)) + offset)) (cp_target p) s;
      Ret (s, u64_wrap (offset + len (cp_target p)), changes)
  end.
Fixpoint apply_plans (q : Z) (l : list ChangePlan) (st : apply_state) : exec apply_state :=
  match l with [] => Ret st | p :: l => st ← apply_plan q p st; apply_plans q l st end.

(** The queries from the last to the first, each with offsets of its own. *)
Fixpoint apply_queries (qs : list Z) (plans : list ChangePlan) (s : str) (changes : list (Z * list ChangeTargetMeta)) : exec (str * list (Z * list ChangeTargetMeta)) :=
  match qs with
  | [] => Ret (s, changes)
  | q :: qs =>
      '(s, _, changes) ← apply_plans q (select_plans q PReplace PField plans ++ select_plans q PAdd PField plans ++ select_plans q PReplace PTable plans) (s, 0, changes);
      apply_queries qs plans s changes
  end.

(** [(1..query_length + 1).rev()] on [u8]. *)
Definition query_ids (w : ShardingRewrite) : list Z :=
  let hi := (len (query_metas w) mod 256 + 1) mod 256 in
  reverse (Z.of_nat <$> seq 1 (Z.to_nat (hi - 1))).

Fixpoint apply_all (w : ShardingRewrite) (l : list (DataSourceShardingIdx * list ChangePlan)) : exec (list ShardingRewriteResult) :=
  match l with
  | [] => Ret []
  | (k, plans) :: l =>
      '(s, changes) ← apply_queries (query_ids w) plans (raw_sql w) [];
      rest ← apply_all w l;
      Ret (mkResult k changes s :: rest)
  end.

Definition is_agg (f : FieldMeta) : option FieldMetaIdent :=
  match f with FIdent f => match agg_func f with NoAgg => None | _ => Some f end | FTableWild _ => None end.
Definition get_agg_field1 (fs : list (Z * list FieldMeta)) : list (Z * list FieldMetaIdent) :=
  omap (λ '(q, l), let aggs := omap is_agg l in if is_empty aggs then None else Some (q, aggs)) fs.

Definition change_plan_apply (fs : list (Z * list FieldMeta)) (w : ShardingRewrite) : exec ShardingRewriteOutput :=
  rs ← apply_all w (change_plans w); Ret (mkOutput rs (get_agg_field1 fs)).

(** ** The shards of a statement *)

Definition gen_data_source (w : ShardingRewrite) (r : Sharding) (idx : Z) : er DataSource :=
  if has_rw w then n ← er_run (index (actual_datanodes r) 0); mret (DsNodeGroup n)
  else e ← er_run (get_endpoint (endpoints w) idx r); e ← or_fail EndpointNotFound e; mret (DsEndpoint e).
(** [.unwrap()] of a result. *)
Definition unwrap_ok {A} (m : er A) : exec A := match m with Ret (Ok a) => Ret a | _ => Panic end.

(** One shard of one table: its plans. *)
Definition plan_shard (meta : RewriteMetaData) (q : Z) (t : TableIdent) (target : str) (k : DataSourceShardingIdx) (w : ShardingRewrite) : exec ShardingRewrite :=
  let w := push_plan k (mkPlan q target (ti_span t) PReplace PTable (TargetTable target)) w in
  w ← change_order_group q (im_get q (orders meta)) (im_get q (groups meta)) (im_get q (fields meta)) k w;
  change_avg q (default [] (im_get q (fields meta))) k w.

Fixpoint fold_exec {A S} (f : A → S → exec S) (l : list A) (s : S) : exec S := match l with [] => Ret s | a :: l => s ← f a s; fold_exec f l s end.

Definition range (n : Z) : list Z := Z.of_nat <$> seq 0 (Z.to_nat n).

(** The nodes of a part with their indexes, and the tables. *)
Definition part_nodes (part : DatabaseTableStrategyPart) (r : Sharding) : exec (list (Z * str)) :=
  match part with
  | PartDatabase i | PartDatabaseTable i _ => n ← index (actual_datanodes r) i; Ret [(i, n)]
  | _ => Ret (imap (λ i n, (Z.of_nat i, n)) (actual_datanodes r))
  end.
(** [idx..idx + 1], empty where the sum wraps. *)
Definition part_tables (part : DatabaseTableStrategyPart) (count : Z) : list Z :=
  match part with
  | PartTable i | PartDatabaseTable _ i => if i <? u64_wrap (i + 1) then [i] else []
  | _ => range count
  end.

Definition database_table_strategy_iproduct (part : DatabaseTableStrategyPart) (ts : list try_table) (meta : RewriteMetaData) (w : ShardingRewrite) : exec ShardingRewrite :=
  fold_exec (λ '(q, r, t) w,
    count ← get_sharding_count r; count ← unwrap count.2;
    nodes ← part_nodes part r;
    fold_exec (λ '(i, n) w,
      e ← unwrap (named_endpoint (endpoints w) n);
      _ ← change_table w t (db e) 0;
      ds ← unwrap_ok (gen_data_source w r i);
      fold_exec (λ j w,
        target ← change_table w (mkTable (ti_span t) (Some (db e)) (ti_name t)) [] j;
        plan_shard meta q t target (mkDsIdx ds (mkIdx (Some i) (Some j)) (mkColumns (get_sharding_column r).1 (get_sharding_column r).2)) w)
        (part_tables part count) w) nodes w) ts w.

(** The number in the index is that of the loop: 0 for a single node. *)
Definition database_strategy_iproduct (part : DatabaseTableStrategyPart) (ts : list try_table) (meta : RewriteMetaData) (w : ShardingRewrite) : exec ShardingRewrite :=
  fold_exec (λ '(q, r, t) w,
    column ← unwrap (get_sharding_column r).1;
    nodes ← part_nodes part r;
    fold_exec (λ '(loop_idx, (i, n)) w,
      e ← unwrap (named_endpoint (endpoints w) n);
      target ← change_table w t (db e) 0;
      ds ← unwrap_ok (gen_data_source w r i);
      plan_shard meta q t target (mkDsIdx ds (mkIdx (Some loop_idx) None) (mkColumns (Some column) None)) w)
      (imap (λ j x, (Z.of_nat j, x)) nodes) w) ts w.

Definition table_strategy_iproduct (part : DatabaseTableStrategyPart) (ts : list try_table) (meta : RewriteMetaData) (w : ShardingRewrite) : exec ShardingRewrite :=
  fold_exec (λ '(q, r, t) w,
    ds ← unwrap_ok (gen_data_source w r 0);
    column ← unwrap (get_sharding_column r).2;
    count ← get_sharding_count r; count ← unwrap count.2;
    fold_exec (λ j w,
      target ← change_table w t [] j;
      plan_shard meta q t target (mkDsIdx ds (mkIdx None (Some j)) (mkColumns None (Some column))) w)
      (part_tables part count) w) ts w.

Definition iproduct (typ : StrategyTyp) : DatabaseTableStrategyPart → list try_table → RewriteMetaData → ShardingRewrite → exec ShardingRewrite :=
  match typ with TypDatabase => database_strategy_iproduct | TypTable => table_strategy_iproduct | TypDatabaseTable => database_table_strategy_iproduct end.
Definition planned (typ : StrategyTyp) (part : DatabaseTableStrategyPart) (ts : list try_table) (meta : RewriteMetaData) (w : ShardingRewrite) : er ShardingRewriteOutput :=
  er_run (w ← iproduct typ part ts meta w; change_plan_apply (fields meta) w).

(** ** Inserts *)

Record ShardingMetaBaseInfo := mkBase { mb_column : option str * option str; mb_count : option Z * option Z; mb_algo : option ShardingAlgorithmName * option ShardingAlgorithmName }.

Definition base_info (r : Sharding) : exec ShardingMetaBaseInfo :=
  count ← get_sharding_count r;
  let column := get_sharding_column r in
  let algo := get_algo r in
  Ret (if negb (is_none (table_strategy r)) then mkBase (column.2, None) (count.2, None) (algo.2, None)
       else if negb (is_none (database_strategy r)) then mkBase (column.1, None) (count.1, None) (algo.1, None)
       else mkBase column count algo).

(** The position of the column among the fields. *)
Fixpoint find_insert_field_idx (fs : list FieldMeta) (column : option str) (i : nat) : er nat :=
  match fs with
  | [] => er_fail ShardingColumnNotFound
  | FIdent f :: fs => c ← er_run (unwrap column); if decide (fi_name f = c) then mret i else find_insert_field_idx fs column (S i)
  | FTableWild _ :: fs => find_insert_field_idx fs column (S i)
  end.

Definition value_at (i : nat) (r : InsertValsMeta) : exec str := v ← unwrap (row_values r !! i); Ret (iv_value v).

(** The shard of a value: [parse::<u64>()], then the algorithm. *)
Definition shard_of (value : str) (algo : ShardingAlgorithmName) (count : Z) : er Z :=
  v ← or_fail ParseIntError (parse_unsigned (2 ^ 64 - 1) value); er_run (calc_u64 v algo count).
Definition calc_database_or_table_sharding_idx (value : str) (b : ShardingMetaBaseInfo) : er Z :=
  algo ← er_run (unwrap (mb_algo b).1);
  count ← er_run (unwrap (mb_count b).1);
  shard_of value algo count.
Definition calc_database_and_table_sharding_idx (d t : str) (b : ShardingMetaBaseInfo) : er (Z * Z) :=
  algo1 ← er_run (unwrap (mb_algo b).1);
  algo2 ← er_run (unwrap (mb_algo b).2);
  count1 ← er_run (unwrap (mb_count b).1);
  count2 ← er_run (unwrap (mb_count b).2);
  i ← shard_of d algo1 count1;
  j ← shard_of t algo2 count2;
  mret (i, j).

Record InsertRowValueIdx := mkRowIdx { ri_idx : ShardingIdx; ri_span : Span }.

(** The shard of every row.  All values are read before the first is parsed. *)
Definition change_insert (typ : StrategyTyp) (rows : list InsertValsMeta) (fs : list FieldMeta) (b : ShardingMetaBaseInfo) : er (list InsertRowValueIdx) :=
  match typ with
  | TypDatabaseTable =>
      i ← find_insert_field_idx fs (mb_column b).1 0;
      j ← find_insert_field_idx fs (mb_column b).2 0;
      values ← er_each (λ r, d ← er_run (value_at i r); t ← er_run (value_at j r); mret (d, t, row_span r)) rows;
      er_each (λ '(d, t, span),
        '(i, j) ← calc_database_and_table_sharding_idx d t b;
        mret (mkRowIdx (mkIdx (Some i) (Some j)) span)) values
  | _ =>
      i ← find_insert_field_idx fs (mb_column b).1 0;
      values ← er_each (λ r, v ← er_run (value_at i r); mret (v, row_span r)) rows;
      er_each (λ '(v, span),
        x ← calc_database_or_table_sharding_idx v b;
        mret (mkRowIdx (match typ with TypDatabase => mkIdx (Some x) None | _ => mkIdx None (Some x) end) span)) values
  end.

(** The statement up to the rows with its table replaced, and the row. *)
Definition get_change_insert_row (w : ShardingRewrite) (prefix target : str) (t : TableIdent) (c : InsertRowValueIdx) : exec (str * str) :=
  prefix ← change_sql prefix (ti_span t) target 0;
  row ← slice (raw_sql w) (sp_start (ri_span c)) (sp_end (ri_span c));
  Ret (prefix, row ++ $", ").

(** The table of a shard. *)
Definition insert_target (w : ShardingRewrite) (r : Sharding) (t : TableIdent) (typ : StrategyTyp) (idx : ShardingIdx) : exec str :=
  match typ with
  | TypTable => i ← unwrap (idx_table idx); change_table w t [] i
  | TypDatabase =>
      i ← unwrap (idx_database idx);
      schema ← get_actual_schema (endpoints w) i r;
      change_table w t (default [] schema) i
  | TypDatabaseTable =>
      i ← unwrap (idx_database idx);
      schema ← get_actual_schema (endpoints w) i r;
      _ ← change_table w t (default [] schema) i;
      j ← unwrap (idx_table idx);
      change_table w (mkTable (ti_span t) (Some (default [] schema)) (ti_name t)) [] j
  end.

(** The statements under construction, by shard. *)
Definition add_insert_row (w : ShardingRewrite) (r : Sharding) (t : TableIdent) (typ : StrategyTyp) (prefix : str) (c : InsertRowValueIdx) (sqls : list (ShardingIdx * str))
    : exec (list (ShardingIdx * str)) :=
  target ← insert_target w r t typ (ri_idx c);
  '(prefix, row) ← get_change_insert_row w prefix target t c;
  Ret (im_entry (ri_idx c) prefix (λ s, s ++ row) sqls).

(** [trim_end_matches(", ")]. *)
Fixpoint trim_end_comma (fuel : nat) (s : str) : str :=
  match fuel with
  | O => s
  | S fuel => if ends_with s ($", ") then trim_end_comma fuel (take (length s - 2) s) else s
  end.

Definition insert_result (w : ShardingRewrite) (r : Sharding) (b : ShardingMetaBaseInfo) (x : ShardingIdx * str) : er ShardingRewriteResult :=
  ds ← gen_data_source w r (default 0 (idx_database x.1));
  mret (mkResult (mkDsIdx ds x.1 (mkColumns (mb_column b).1 (mb_column b).2)) [] (trim_end_comma (length x.2) x.2)).

Definition change_insert_sql_inner (w : ShardingRewrite) (r : Sharding) (t : TableIdent) (rows : list InsertValsMeta) (fs : list FieldMeta) (b : ShardingMetaBaseInfo)
    : er (list ShardingRewriteResult) :=
  let typ := get_strategy_typ r in
  changes ← change_insert typ rows fs b;
  first ← er_run (unwrap (head changes));
  prefix ← er_run (slice (raw_sql w) 0 (sp_start (ri_span first)));
  sqls ← er_run (fold_exec (add_insert_row w r t typ prefix) changes []);
  er_each (insert_result w r b) sqls.

Definition change_insert_sql (ts : list try_table) (meta : RewriteMetaData) (w : ShardingRewrite) : er ShardingRewriteOutput :=
  rs ← er_each (λ '(q, r, t),
    b ← er_run (base_info r);
    rows ← er_run (unwrap (im_get q (inserts meta)));
    fs ← er_run (unwrap (im_get q (fields meta)));
    change_insert_sql_inner w r t rows fs b) ts;
  mret (mkOutput (concat rs) []).

(** ** The strategies *)

Definition first_idx (l : list (Z * list (option Z))) (i : nat) : exec (option Z) := x ← unwrap (head l); unwrap (x.2 !! i).

(** The first index times their number against their sum: whether they are equal. *)
Fixpoint sum_first (l : list (Z * list (option Z))) : exec Z :=
  match l with [] => Ret 0 | x :: l => i ← unwrap (x.2 !! 0%nat); i ← unwrap i; s ← sum_first l; Ret (u64_wrap (i + s)) end.

(** [database_strategy] and [table_strategy]. *)
Definition one_strategy (typ : StrategyTyp) (meta : RewriteMetaData) (ts : list try_table) (w : ShardingRewrite) : er ShardingRewriteOutput :=
  if negb (is_empty (inserts meta)) then if is_empty (fields meta) then er_fail FieldsIsEmpty else change_insert_sql ts meta w
  else if is_empty (wheres meta) then planned typ PartAll ts meta w
  else
    l ← find_try_where typ ts (wheres meta);
    if is_empty l then planned typ PartAll ts meta w
    else
      i ← er_run (first_idx l 0);
      i ← er_run (unwrap i);
      sum ← er_run (sum_first l);
      planned typ (if u64_wrap (i * len l) =? sum then match typ with TypDatabase => PartDatabase i | _ => PartTable i end else PartAll) ts meta w.

Definition database_table_strategy_rewrite (meta : RewriteMetaData) (ts : list try_table) (w : ShardingRewrite) : er ShardingRewriteOutput :=
  if negb (is_empty (inserts meta)) then if is_empty (fields meta) then er_fail FieldsIsEmpty else change_insert_sql ts meta w
  else if is_empty (wheres meta) then planned TypDatabaseTable PartAll ts meta w
  else
    l ← find_try_where TypDatabaseTable ts (wheres meta);
    if is_empty l then planned TypDatabaseTable PartAll ts meta w
    else
      d ← er_run (first_idx l 0);
      t ← er_run (first_idx l 1);
      part ← er_run match d, t with
             | None, None => Panic
             | None, Some t => Ret (PartTable t)
             | Some d, None => Ret (PartDatabase d)
             | Some d, Some t => Ret (PartDatabaseTable d t)
             end;
      planned TypDatabaseTable part ts meta w.

(** [rewrite]: the state is the one the plans are made in. *)
Definition rewrite (raw_sql : str) (walk : list Call) (default_db : option str) (w : ShardingRewrite) : er ShardingRewriteOutput :=
  meta ← er_run (get_meta raw_sql walk);
  let w := mkRewrite (rules w) raw_sql (endpoints w) (has_rw w) (node_group_config w) default_db (queries meta) (field_blocks meta) (change_plans w) in
  ts ← er_run (find_table_rule (tables meta) w);
  match ts with
  | [] => mret default_output
  | (_, r, _) :: _ =>
      let w := set_plans [] w in
      if negb (is_none (database_strategy r)) then one_strategy TypDatabase meta ts w
      else if negb (is_none (table_strategy r)) then one_strategy TypTable meta ts w
      else if negb (is_none (database_table_strategy r)) then database_table_strategy_rewrite meta ts w
      else mret default_output
  end.
End Rewriter.
End Sharding.
