(* ===== verification/ShardingTheorems.v ===== *)
(** * Sharding: where a statement goes and what each shard is sent

    [ShardingText]: the edits of a text amount to a simultaneous substitution;
    [ShardingPlans]: every shard gets plans of its own; [ShardingTheorems]: the shards of a
    statement; [ShardingInserts]: the rows of an insert. *)

From S2P Require Import Prelude RustStr LoadBalance PgProtocol MyFrontend ShardingMeta Sharding.
Import LoadBalance ShardingMeta Sharding.

(** ** Sharding: the text that a shard is sent

    The rewriter removes and inserts character by character at positions it shifts by a
    running offset.  For plans in the order of the statement this is the simultaneous
    substitution [splice]: everything outside the spans is kept, byte for byte. *)
Module ShardingText.

(** ** The reference *)

(** Where the text that a plan replaces begins. *)
Definition cut_start (p : ChangePlan) : nat := match cp_action p with PReplace => sp_start (cp_span p) | PAdd => sp_end (cp_span p) end.

Fixpoint splice (raw : str) (at_ : nat) (l : list ChangePlan) : str :=
  match l with
  | [] => drop at_ raw
  | p :: l => take (cut_start p - at_) (drop at_ raw) ++ cp_target p ++ splice raw (sp_end (cp_span p)) l
  end.

(** The spans follow one another within the statement. *)
Fixpoint in_order (n at_ : nat) (l : list ChangePlan) : bool :=
  match l with
  | [] => (at_ <=? n)%nat
  | p :: l => (at_ <=? cut_start p)%nat && (cut_start p <=? sp_end (cp_span p))%nat && (sp_start (cp_span p) <=? sp_end (cp_span p))%nat
              && in_order n (sp_end (cp_span p)) l
  end.

Definition targets_length (l : list ChangePlan) : nat := sum_list (length ∘ cp_target <$> l).
Definition pushed (q : Z) (l : list ChangePlan) (changes : list (Z * list ChangeTargetMeta)) : list (Z * list ChangeTargetMeta) :=
  foldl (λ c p, im_push q (cp_meta p) c) changes l.

(** ** One step *)

Lemma boundary_app (s t : str) : ascii_only t → is_char_boundary (s ++ t) (length s) = true.
Proof.
  intros Ht. unfold is_char_boundary. destruct (length s) as [|n] eqn:E; [done|].
  rewrite lookup_app_r, E, Nat.sub_diag by lia. destruct t as [|c t]; cbn [lookup list_lookup].
  - apply Nat.eqb_eq. rewrite length_app. simpl. lia.
  - apply list.Forall_cons in Ht as [Hc _]. cbv beta iota. rewrite is_ascii_not_cont; done.
Qed.

Lemma boundary_end (s : str) : is_char_boundary s (length s) = true.
Proof. rewrite <-(app_nil_r s) at 1. apply boundary_app. constructor. Qed.

Lemma remove_char_app s c t : ascii_only (c :: t) → remove_char (len s) (s ++ c :: t) = Ret (s ++ t).
Proof.
  intros Ht. unfold remove_char. rewrite Nat2Z.id, length_app. cbn [length].
  rewrite (proj2 (Z.ltb_ge _ _)), (proj2 (Z.leb_gt _ _)) by lia. cbn [orb].
  unfold slice_from, slice. rewrite boundary_app, boundary_end by done.
  rewrite Nat.leb_refl, (proj2 (Nat.leb_le (length s) _)) by (rewrite length_app; lia). cbn [andb].
  rewrite drop_app_length, (take_ge (c :: t)) by (rewrite length_app; cbn [length]; lia).
  change (Ret ?a ≫= ?f) with (f a). cbn beta.
  pose proof Ht as [Hc Ht']%list.Forall_cons.
  rewrite chars_ascii by done. cbn [map]. rewrite take_app_length. do 2 f_equal.
  clear. induction t as [|c t IH]; [done|]. cbn [map concat app]. by rewrite IH.
Qed.

Lemma remove_chars_app cut s t : ascii_only (cut ++ t) → remove_chars (length cut) (len s) (s ++ cut ++ t) = Ret (s ++ t).
Proof.
  induction cut as [|c cut IH]; intros Ht; [done|]. cbn [length remove_chars app].
  rewrite remove_char_app by done. change (Ret ?a ≫= ?f) with (f a). apply IH. by apply list.Forall_cons in Ht as [_ ?].
Qed.

Lemma insert_str_app s t u : ascii_only u → insert_at (len s) t (s ++ u) = Ret (s ++ t ++ u).
Proof.
  intros Hu. unfold insert_at. rewrite Nat2Z.id, boundary_app by done.
  rewrite (proj2 (Z.ltb_ge _ _)), (proj2 (Z.ltb_ge _ _)) by (rewrite ?length_app; lia).
  cbn [orb negb]. by rewrite take_app_length, drop_app_length.
Qed.

Lemma ascii_take n s : ascii_only s → ascii_only (take n s).
Proof. apply list.Forall_take. Qed.
Lemma ascii_drop n s : ascii_only s → ascii_only (drop n s).
Proof. apply list.Forall_drop. Qed.

(** The offset says how far the text behind [at_] has moved. *)
Lemma moved (s : str) (at_ n : nat) : (at_ ≤ n)%nat → len s + Z.of_nat (n - at_) < 2 ^ 64 →
  u64_wrap (Z.of_nat n + u64_wrap (len s - Z.of_nat at_)) = len s + Z.of_nat (n - at_).
Proof.
  intros Hn Hs. unfold u64_wrap. rewrite Zplus_mod_idemp_r.
  replace (Z.of_nat n + (len s - Z.of_nat at_)) with (len s + Z.of_nat (n - at_)) by lia.
  apply Z.mod_small. lia.
Qed.

Lemma moved_on (s t : str) (at_ a b : nat) x : (at_ ≤ a)%nat → x = len t - Z.of_nat (b - a) → (a ≤ b)%nat →
  u64_wrap (u64_wrap (len s - Z.of_nat at_) + x) = u64_wrap (len s + Z.of_nat (a - at_) + len t - Z.of_nat b).
Proof. intros Ha -> Hb. unfold u64_wrap. rewrite Zplus_mod_idemp_l. f_equal. lia. Qed.

(** A text cut at two positions. *)
Lemma cut_twice (raw : str) (at_ a b : nat) : (at_ ≤ a ≤ b)%nat →
  drop at_ raw = take (a - at_) (drop at_ raw) ++ take (b - a) (drop a raw) ++ drop b raw.
Proof.
  intros Hab. replace (drop b raw) with (drop (b - a) (drop a raw)) by (rewrite drop_drop; f_equal; lia).
  rewrite (take_drop (b - a)). replace (drop a raw) with (drop (a - at_) (drop at_ raw)) by (rewrite drop_drop; f_equal; lia).
  by rewrite take_drop.
Qed.

Lemma cut_before (s raw : str) (at_ a b : nat) : (at_ ≤ a ≤ b)%nat →
  s ++ drop at_ raw = (s ++ take (a - at_) (drop at_ raw)) ++ take (b - a) (drop a raw) ++ drop b raw.
Proof. intros. by rewrite <-app_assoc, <-cut_twice. Qed.

Lemma in_order_cons n at_ p l : in_order n at_ (p :: l) = true →
  (at_ ≤ cut_start p ≤ sp_end (cp_span p))%nat ∧ (sp_start (cp_span p) ≤ sp_end (cp_span p))%nat ∧ in_order n (sp_end (cp_span p)) l = true.
Proof. cbn [in_order]. rewrite !andb_true_iff, !Nat.leb_le. tauto. Qed.

Lemma in_order_end n at_ l : in_order n at_ l = true → (at_ ≤ n)%nat.
Proof.
  revert at_. induction l as [|p l IH]; intros at_ H; [by apply Nat.leb_le in H|].
  apply in_order_cons in H as (? & ? & H). apply IH in H. lia.
Qed.

Lemma targets_cons p l : targets_length (p :: l) = (length (cp_target p) + targets_length l)%nat.
Proof. done. Qed.

Section Splice.
Context (raw : str) (Hraw : ascii_only raw).

Lemma apply_plan_splice q p s at_ changes :
  (at_ ≤ cut_start p ≤ sp_end (cp_span p))%nat → (sp_start (cp_span p) ≤ sp_end (cp_span p) ≤ length raw)%nat →
  len s + Z.of_nat (length raw - at_) < 2 ^ 64 →
  let s' := s ++ take (cut_start p - at_) (drop at_ raw) ++ cp_target p in
  apply_plan q p (s ++ drop at_ raw, u64_wrap (len s - Z.of_nat at_), changes) =
    Ret (s' ++ drop (sp_end (cp_span p)) raw, u64_wrap (len s' - Z.of_nat (sp_end (cp_span p))), im_push q (cp_meta p) changes).
Proof.
  destruct p as [cq target [a b] action typ meta]. unfold apply_plan, cut_start. cbn [cp_action cp_span cp_target cp_meta sp_start sp_end].
  intros Hat Hab Hlen.
  assert (∀ n, (at_ ≤ n ≤ length raw)%nat → length (take (n - at_) (drop at_ raw)) = (n - at_)%nat) as Hpre
    by (intros n ?; rewrite length_take, length_drop; lia).
  destruct action; cbn beta iota.
  - rewrite moved, (cut_before s raw at_ b b) by lia. rewrite Nat.sub_diag, take_0. cbn [app].
    replace (len s + Z.of_nat (b - at_)) with (len (s ++ take (b - at_) (drop at_ raw))) by (rewrite length_app, Hpre; lia).
    rewrite insert_str_app by by apply ascii_drop. change (Ret ?x ≫= ?f) with (f x). cbn beta.
    rewrite (moved_on s target at_ b b) by lia. rewrite !length_app, Hpre by lia. do 3 f_equal; [by rewrite <-!app_assoc|f_equal; lia].
  - unfold change_sql, sp_len. cbn [sp_start sp_end].
    rewrite moved, (cut_before s raw at_ a b) by lia.
    replace (len s + Z.of_nat (a - at_)) with (len (s ++ take (a - at_) (drop at_ raw))) by (rewrite length_app, Hpre; lia).
    replace (b - a)%nat with (length (take (b - a) (drop a raw))) at 1 by (rewrite length_take, length_drop; lia).
    rewrite remove_chars_app; [|apply list.Forall_app; split; by repeat apply ascii_take || apply ascii_drop].
    change (Ret ?x ≫= ?f) with (f x). cbn beta.
    rewrite insert_str_app by by apply ascii_drop. change (Ret ?x ≫= ?f) with (f x). cbn beta.
    rewrite (moved_on s target at_ a b) by lia. rewrite !length_app, Hpre by lia. do 3 f_equal; [by rewrite <-!app_assoc|f_equal; lia].
Qed.

Lemma apply_plans_splice q l s at_ changes :
  in_order (length raw) at_ l = true →
  len s + Z.of_nat (length raw - at_) + Z.of_nat (targets_length l) < 2 ^ 64 →
  ∃ o, apply_plans q l (s ++ drop at_ raw, u64_wrap (len s - Z.of_nat at_), changes) = Ret (s ++ splice raw at_ l, o, pushed q l changes).
Proof.
  revert s at_ changes. induction l as [|p l IH]; intros s at_ changes Hl Hlen; cbn [apply_plans splice]; [eauto|].
  apply in_order_cons in Hl as (? & ? & Hl). pose proof (in_order_end _ _ _ Hl).
  rewrite targets_cons in Hlen.
  rewrite apply_plan_splice by lia. change (Ret ?x ≫= ?f) with (f x). cbn beta.
  edestruct (IH (s ++ take (cut_start p - at_) (drop at_ raw) ++ cp_target p)) as [o ->]; [done| |].
  { rewrite !length_app, length_take, length_drop. lia. }
  exists o. by rewrite <-!app_assoc.
Qed.

(** The plans of the only query of a statement. *)
Definition ordered_plans (plans : list ChangePlan) : list ChangePlan :=
  select_plans 1 PReplace PField plans ++ select_plans 1 PAdd PField plans ++ select_plans 1 PReplace PTable plans.

Lemma apply_queries_splice plans :
  in_order (length raw) 0 (ordered_plans plans) = true → len raw + Z.of_nat (targets_length (ordered_plans plans)) < 2 ^ 64 →
  apply_queries [1] plans raw [] = Ret (splice raw 0 (ordered_plans plans), pushed 1 (ordered_plans plans) []).
Proof.
  intros Hl Hlen. cbn [apply_queries]. fold (ordered_plans plans).
  destruct (apply_plans_splice 1 (ordered_plans plans) [] 0 [] Hl) as [o Ho]; [cbn [length]; rewrite Nat.sub_0_r; lia|].
  cbn [app] in Ho. rewrite drop_0 in Ho. change (u64_wrap _) with 0 in Ho. by rewrite Ho.
Qed.
End Splice.

Lemma query_ids_one w : length (query_metas w) = 1%nat → query_ids w = [1].
Proof. intros H. unfold query_ids. by rewrite H. Qed.

(** What the plans of a shard become. *)
Definition spliced (raw : str) (x : DataSourceShardingIdx * list ChangePlan) : ShardingRewriteResult :=
  mkResult x.1 (pushed 1 (ordered_plans x.2) []) (splice raw 0 (ordered_plans x.2)).
Definition well_placed (raw : str) (plans : list ChangePlan) : Prop :=
  in_order (length raw) 0 (ordered_plans plans) = true ∧ len raw + Z.of_nat (targets_length (ordered_plans plans)) < 2 ^ 64.

Lemma apply_all_spliced w l : ascii_only (raw_sql w) → length (query_metas w) = 1%nat → Forall (λ x, well_placed (raw_sql w) x.2) l →
  apply_all w l = Ret (spliced (raw_sql w) <$> l).
Proof.
  intros Hraw Hq. induction 1 as [|[k plans] l [Ho Hlen] _ IH]; [done|]. cbn [apply_all fmap list_fmap].
  rewrite query_ids_one, apply_queries_splice by done. change (Ret ?x ≫= ?f) with (f x). cbn beta iota.
  fold (fmap (M := list) (spliced (raw_sql w))). by rewrite IH.
Qed.
End ShardingText.
Import ShardingText.

(** ** Sharding: the plans of a statement

    Every shard of a table gets plans of its own: the table replaced by that of the shard,
    the columns of [ORDER BY] and [GROUP BY] added, the averages replaced. *)
Module ShardingPlans.

(** ** Maps *)

Section Maps.
Context {K V : Type} `{EqDecision K}.

Lemma im_get_fresh (k : K) (m : list (K * V)) : k ∉ m.*1 → im_get k m = None.
Proof.
  induction m as [|[k' v] m IH]; [done|]. cbn [fmap list_fmap fst im_get]. intros [Hk Hm]%not_elem_of_cons.
  by rewrite decide_False, IH.
Qed.
Lemma im_insert_fresh (k : K) (v : V) m : k ∉ m.*1 → im_insert k v m = m ++ [(k, v)].
Proof.
  induction m as [|[k' x] m IH]; [done|]. cbn [fmap list_fmap fst im_insert app]. intros [Hk Hm]%not_elem_of_cons.
  by rewrite decide_False, IH.
Qed.
Lemma im_get_last (k : K) (v : V) m : k ∉ m.*1 → im_get k (m ++ [(k, v)]) = Some v.
Proof.
  induction m as [|[k' x] m IH]; cbn [fmap list_fmap fst im_get app]; [by rewrite decide_True|]. intros [Hk Hm]%not_elem_of_cons.
  by rewrite decide_False, IH.
Qed.
Lemma im_insert_last (k : K) (v x : V) m : k ∉ m.*1 → im_insert k v (m ++ [(k, x)]) = m ++ [(k, v)].
Proof.
  induction m as [|[k' y] m IH]; cbn [fmap list_fmap fst im_insert app]; [by rewrite decide_True|]. intros [Hk Hm]%not_elem_of_cons.
  by rewrite decide_False, IH.
Qed.
End Maps.

Lemma im_push_fresh {K V} `{EqDecision K} (k : K) (v : V) m : k ∉ m.*1 → im_push k v m = m ++ [(k, [v])].
Proof. intros Hk. unfold im_push, im_entry. by rewrite im_get_fresh, im_insert_fresh. Qed.
Lemma im_push_last {K V} `{EqDecision K} (k : K) (v : V) l m : k ∉ m.*1 → im_push k v (m ++ [(k, l)]) = m ++ [(k, l ++ [v])].
Proof. intros Hk. unfold im_push, im_entry. by rewrite im_get_last, im_insert_last. Qed.

(** ** The plans of one shard *)

Definition push_all (k : DataSourceShardingIdx) (ps : list ChangePlan) (w : ShardingRewrite) : ShardingRewrite := foldl (λ w p, push_plan k p w) w ps.

Lemma push_all_cons k p ps m w : push_all k (p :: ps) (set_plans m w) = push_all k ps (set_plans (im_push k p m) w).
Proof. done. Qed.
Lemma push_all_last k ps l m w : k ∉ m.*1 → push_all k ps (set_plans (m ++ [(k, l)]) w) = set_plans (m ++ [(k, l ++ ps)]) w.
Proof.
  intros Hk. revert l. induction ps as [|p ps IH]; intros l; [by rewrite app_nil_r|].
  by rewrite push_all_cons, im_push_last, IH, <-app_assoc.
Qed.
Lemma push_all_fresh k p ps m w : k ∉ m.*1 → push_all k (p :: ps) (set_plans m w) = set_plans (m ++ [(k, p :: ps)]) w.
Proof. intros Hk. by rewrite push_all_cons, im_push_fresh, push_all_last. Qed.

Section Shard.
Context (meta : RewriteMetaData) (q : Z) (t : TableIdent) (block : Span).

Definition derived_name (j : Z) (suffix n : str) : str := to_ascii_uppercase (unquote_name n) ++ $"_" ++ suffix ++ $"_" ++ pad5 j.
Definition with_name (j : Z) (suffix n : str) : str * str := (n ++ $" AS " ++ derived_name j suffix n, derived_name j suffix n).

Lemma derive_all_some ns suffix j : derive_all ns suffix (Some j) = Ret (with_name j suffix <$> ns).
Proof. induction ns as [|n ns IH]; [done|]. cbn [derive_all]. by rewrite IH. Qed.

Definition unselected (ns : list str) : list str := filter (λ n, field_exists n (default [] (im_get q (fields meta))) = false) ns.
Definition added (j : Z) : list (str * str) * list (str * str) :=
  (with_name j ORDER_BY_DERIVED <$> unselected (om_name <$> default [] (im_get q (orders meta))),
   with_name j GROUP_BY_DERIVED <$> unselected (gm_name <$> default [] (im_get q (groups meta)))).
Definition column_plans (j : Z) : list ChangePlan :=
  let '(os, gs) := added j in
  if is_none (im_get q (orders meta)) && is_none (im_get q (groups meta)) || is_empty (os ++ gs) then []
  else [mkPlan q ($", " ++ join ($", ") (os ++ gs).*1) block PAdd PField (TargetOrderGroup os.*2 gs.*2)].

Definition avg_of (j : Z) (f : FieldMeta) : option ChangePlan :=
  match f with
  | FIdent (mkField _ _ (Avg avg_name n span)) =>
      let count_as := to_ascii_uppercase n ++ $"_" ++ AVG_DERIVED_COUNT ++ $"_" ++ pad5 j in
      let sum_as := to_ascii_uppercase n ++ $"_" ++ AVG_DERIVED_SUM ++ $"_" ++ pad5 j in
      Some (mkPlan q ($"COUNT(" ++ n ++ $") AS " ++ count_as ++ $", SUM(" ++ n ++ $") AS " ++ sum_as) span PReplace PField
              (TargetAvg (mkAvg count_as sum_as avg_name)))
  | _ => None
  end.
Definition avg_plans (j : Z) : list ChangePlan := omap (avg_of j) (default [] (im_get q (fields meta))).

Definition shard_plans (target : str) (j : Z) : list ChangePlan :=
  mkPlan q target (ti_span t) PReplace PTable (TargetTable target) :: column_plans j ++ avg_plans j.

(** The select list is known where columns may have to be added to it. *)
Definition block_known (w : ShardingRewrite) : Prop :=
  im_get q (orders meta) = None ∧ im_get q (groups meta) = None ∨ im_get q (field_block_metas w) = Some block.

Lemma change_order_group_plans k j w : block_known w → idx_table (di_idx k) = Some j →
  change_order_group q (im_get q (orders meta)) (im_get q (groups meta)) (im_get q (fields meta)) k w = Ret (push_all k (column_plans j) w).
Proof.
  intros Hb Hj. unfold change_order_group, column_plans. rewrite Hj.
  destruct (is_none (im_get q (orders meta)) && is_none (im_get q (groups meta))) eqn:E; [done|].
  destruct Hb as [[Ho Hg]|Hb]; [by rewrite Ho, Hg in E|]. rewrite Hb. cbn [unwrap]. change (Ret ?x ≫= ?f) with (f x). cbn beta.
  rewrite !derive_all_some. do 2 (change (Ret ?x ≫= ?f) with (f x); cbn beta). cbn [orb added].
  fold (unselected (om_name <$> default [] (im_get q (orders meta)))) (unselected (gm_name <$> default [] (im_get q (groups meta)))).
  by destruct (is_empty _).
Qed.

Lemma change_avg_plans k j fs w : idx_table (di_idx k) = Some j → change_avg q fs k w = Ret (push_all k (omap (avg_of j) fs) w).
Proof.
  intros Hj. revert w. induction fs as [|f fs IH]; intros w; [done|]. cbn [change_avg].
  assert (avg_plan q f k = Ret (avg_of j f)) as ->.
  { destruct f as [[s n [avg_name x span| | | | |]]|]; try done. cbn [avg_plan]. by rewrite Hj. }
  change (Ret ?x ≫= ?f) with (f x). cbn beta. rewrite IH. cbn [omap list_omap]. by destruct (avg_of j f).
Qed.

Lemma block_known_push k ps w : block_known w → block_known (push_all k ps w).
Proof. revert w. induction ps as [|p ps IH]; intros w Hb; [done|]. by apply (IH (push_plan k p w)). Qed.

Lemma plan_shard_plans target k j m w : block_known w → idx_table (di_idx k) = Some j → k ∉ m.*1 →
  plan_shard meta q t target k (set_plans m w) = Ret (set_plans (m ++ [(k, shard_plans target j)]) w).
Proof.
  intros Hb Hj Hk. unfold plan_shard. set (p := mkPlan q target _ _ _ _).
  rewrite (change_order_group_plans k j) by done. change (Ret ?x ≫= ?f) with (f x). cbn beta.
  rewrite (change_avg_plans k j) by done. fold (avg_plans j).
  replace (push_all k (avg_plans j) _) with (push_all k (p :: column_plans j ++ avg_plans j) (set_plans m w))
    by (unfold push_all; cbn [foldl]; by rewrite foldl_app).
  by rewrite push_all_fresh.
Qed.
End Shard.

(** ** Many shards *)

Abbreviation entry := (DataSourceShardingIdx * list ChangePlan)%type.

Lemma fold_entries {A} (step : A → ShardingRewrite → exec ShardingRewrite) (entries : A → list entry) w xs m :
  (∀ x m, x ∈ xs → NoDup (m ++ entries x).*1 → step x (set_plans m w) = Ret (set_plans (m ++ entries x) w)) →
  NoDup (m ++ concat (entries <$> xs)).*1 →
  fold_exec step xs (set_plans m w) = Ret (set_plans (m ++ concat (entries <$> xs)) w).
Proof.
  revert m. induction xs as [|x xs IH]; intros m Hstep Hnd; cbn [fold_exec fmap list_fmap concat]; [by rewrite app_nil_r|].
  cbn [fmap list_fmap concat] in Hnd. fold (fmap (M := list) entries) in *. rewrite app_assoc in Hnd.
  rewrite Hstep; [|left|by rewrite fmap_app in Hnd; apply NoDup_app in Hnd as [? _]].
  change (Ret ?x ≫= ?f) with (f x). cbn beta. rewrite IH; [by rewrite <-app_assoc| |done].
  intros y m' Hy. apply Hstep. by right.
Qed.
End ShardingPlans.
Import ShardingPlans.

(** ** Sharding: where a statement goes

    A statement on a table that is sharded by tables goes to the shard of the value it
    asks for, or to every shard once; an insert is split so that every row is in the one
    statement of the shard of its value. *)
Module ShardingTheorems.

Section Algorithms.
Context (crc32 : str → Z) (f64_parse : str → option Z) (f64_mod_round : Z → Z → Z).

(** ** The shard of a value *)

Lemma shard_of_bound value algo count i : 0 ≤ count → shard_of crc32 value algo count = Ret (Ok i) → 0 ≤ i < count.
Proof.
  intros Hc. unfold shard_of. destruct (parse_unsigned _ value) as [v|]; [|done]. cbn. unfold calc_u64.
  destruct (Z.eqb_spec count 0); [done|]. intros [= <-]. destruct algo; apply Z.mod_pos_bound; lia.
Qed.

(** ** Selects *)

(** The table that a value of the sharding column belongs to: its remainder, or that of the
    CRC-32 of its eight bytes. *)
Definition table_index (c : TableStrategyConfig) (n : Z) : Z :=
  match ts_algo c with Mod => n mod ts_count c | CRC32Mod => crc32 (be_bytes 8 n []) mod ts_count c end.

Lemma shard_of_index c value n : 0 < ts_count c → parse_unsigned (2 ^ 64 - 1) value = Some n →
  shard_of crc32 value (ts_algo c) (ts_count c) = Ret (Ok (table_index c n)).
Proof. intros Hc Hv. unfold shard_of. rewrite Hv. cbn. unfold calc_u64. by rewrite (proj2 (Z.eqb_neq _ _)) by lia. Qed.

(** The tables that the rows of a statement may be in, by its conditions: without a condition
    on the sharding column all of them; with the one condition that this column equals a
    number, the table of the number. *)
Inductive asked (c : TableStrategyConfig) : list (Z * list WhereMeta) → list Z → Prop :=
| asked_all : asked c [] (range (ts_count c))
| asked_other metas : Forall (λ m, unquote_name (wm_left m) ≠ ts_column c) metas → asked c [(1, metas)] (range (ts_count c))
| asked_value left value n :
    unquote_name left = ts_column c → parse_unsigned (2 ^ 64 - 1) value = Some n →
    asked c [(1, [mkWhere left (WNum value)])] [table_index c n].

Lemma no_match metas column : Forall (λ m, unquote_name (wm_left m) ≠ column) metas → get_where_match_right metas column = None.
Proof.
  unfold get_where_match_right. induction 1 as [|m metas Hm _ IH]; [done|]. cbn [List.find]. by rewrite bool_decide_eq_false_2.
Qed.

(** The table of a shard. *)
Definition table_target (d : str) (t : TableIdent) (j : Z) : str :=
  $"`" ++ d ++ $"`." ++
  (if contains_char (ti_name t) "`" then $"`" ++ unquote_name (ti_name t) ++ $"_" ++ pad5 j ++ $"`" else ti_name t ++ $"_" ++ pad5 j).
Definition table_key (ds : DataSource) (c : TableStrategyConfig) (j : Z) : DataSourceShardingIdx :=
  mkDsIdx ds (mkIdx None (Some j)) (mkColumns None (Some (ts_column c))).
Definition schema_known (t : TableIdent) (db : option str) : option str := match ti_schema t with Some s => Some s | None => db end.

Lemma change_table_target w t d j : schema_known t (default_db w) = Some d → change_table w t [] j = Ret (table_target d t j).
Proof. unfold schema_known, change_table. destruct (ti_schema t); [by intros [= ->]|]. by intros ->. Qed.

(** What the rewriter knows when the plans are made. *)
Definition opened (w : ShardingRewrite) (raw : str) (db : option str) (meta : RewriteMetaData) : ShardingRewrite :=
  mkRewrite (rules w) raw (endpoints w) (has_rw w) (node_group_config w) db (queries meta) (field_blocks meta) (change_plans w).

Section Table.
Context (meta : RewriteMetaData) (r : Sharding) (t : TableIdent) (c : TableStrategyConfig) (ds : DataSource) (block : Span) (d : str).
Context (Hdb : database_strategy r = None) (Htable : table_strategy r = Some (TableStrategy c)) (Hcount : 0 < ts_count c < 2 ^ 32).

Definition table_entry (j : Z) : entry := (table_key ds c j, shard_plans meta 1 t block (table_target d t j) j).

Lemma table_rule : get_sharding_column r = (None, Some (ts_column c)) ∧ get_algo r = (None, Some (ts_algo c)) ∧
  get_sharding_count r = Ret (None, Some (ts_count c)).
Proof. unfold get_sharding_column, get_algo, get_sharding_count, first_strategy. by rewrite Hdb, Htable. Qed.

Lemma table_keys_distinct js : NoDup js → NoDup ([] ++ concat ((λ j, [table_entry j]) <$> js)).*1.
Proof.
  intros Hjs. cbn [app]. replace (concat _) with (table_entry <$> js) by (clear; induction js as [|j js IH]; [done|]; cbn; by f_equal).
  rewrite <-list_fmap_compose. apply NoDup_fmap_2; [|done]. intros a b. cbn. by intros [= ->].
Qed.

Lemma table_iproduct part w : gen_data_source w r 0 = Ret (Ok ds) → block_known meta 1 block w → schema_known t (default_db w) = Some d →
  NoDup (part_tables part (ts_count c)) →
  table_strategy_iproduct part [(1, r, t)] meta (set_plans [] w) = Ret (set_plans (table_entry <$> part_tables part (ts_count c)) w).
Proof.
  intros Hds Hb Hd Hnd. unfold table_strategy_iproduct. cbn [fold_exec].
  change (gen_data_source (set_plans [] w) r 0) with (gen_data_source w r 0). rewrite Hds. cbn [unwrap_ok].
  destruct table_rule as (-> & _ & ->). cbn [unwrap snd]. do 4 (change (Ret ?x ≫= ?f) with (f x); cbn beta). cbn [snd unwrap].
  change (Ret ?x ≫= ?f) with (f x). cbn beta.
  rewrite (fold_entries _ (λ j, [table_entry j])); [|..|by apply table_keys_distinct].
  - change (Ret ?x ≫= ?f) with (f x). cbn beta. do 2 f_equal. cbn [app].
    clear. induction (part_tables part (ts_count c)) as [|j js IH]; [done|]. cbn. by f_equal.
  - intros j m _ Hm. rewrite (change_table_target _ t d) by done. change (Ret ?x ≫= ?f) with (f x). cbn beta.
    apply plan_shard_plans; [done..|]. rewrite fmap_app in Hm. apply NoDup_app in Hm as (_ & Hm & _).
    intros Hin. by apply (Hm _ Hin), list_elem_of_here.
Qed.

Lemma table_planned part w : gen_data_source w r 0 = Ret (Ok ds) → block_known meta 1 block w → schema_known t (default_db w) = Some d →
  NoDup (part_tables part (ts_count c)) → ascii_only (raw_sql w) → length (query_metas w) = 1%nat →
  Forall (λ j, well_placed (raw_sql w) (table_entry j).2) (part_tables part (ts_count c)) →
  planned TypTable part [(1, r, t)] meta (set_plans [] w) =
    Ret (Ok (mkOutput (spliced (raw_sql w) <$> (table_entry <$> part_tables part (ts_count c))) (get_agg_field1 (fields meta)))).
Proof.
  intros Hds Hb Hd Hnd Hraw Hq Hw. unfold planned. cbn [iproduct]. rewrite table_iproduct by done.
  change (Ret ?x ≫= ?f) with (f x). cbn beta. unfold change_plan_apply. cbn [change_plans set_plans].
  rewrite apply_all_spliced; [done..|]. by apply Forall_fmap.
Qed.

Lemma part_table_one i : 0 ≤ i < ts_count c → part_tables (PartTable i) (ts_count c) = [i].
Proof.
  intros Hi. cbn [part_tables]. rewrite u64_wrap_small by lia. by rewrite (proj2 (Z.ltb_lt i (i + 1))) by lia.
Qed.
Lemma range_NoDup n : NoDup (range n).
Proof. apply NoDup_fmap_2; [apply _|]. apply NoDup_seq. Qed.

(** The part that conditions ask for. *)
Lemma asked_part shards w : asked c (wheres meta) shards → inserts meta = [] →
  ∃ part, part_tables part (ts_count c) = shards ∧ NoDup shards ∧
    one_strategy crc32 f64_parse f64_mod_round TypTable meta [(1, r, t)] w = planned TypTable part [(1, r, t)] meta w.
Proof.
  intros Hasked Hins. unfold one_strategy. rewrite Hins. cbn [is_empty negb].
  destruct table_rule as (Hcol & Halgo & Hn).
  inversion Hasked as [Hw|metas Hnone%no_match Hw|left value n Hl Hv Hw].
  - exists PartAll. split_and!; [done|apply range_NoDup|done].
  - exists PartAll. split_and!; [done|apply range_NoDup|]. cbn. rewrite Hn. cbn. rewrite Hcol. cbn. by rewrite Hnone.
  - pose proof (shard_of_index c value n ltac:(lia) Hv) as Hi. set (i := table_index c n) in *.
    pose proof (shard_of_bound value (ts_algo c) (ts_count c) i ltac:(lia) Hi).
    exists (PartTable i). split_and!; [by apply part_table_one|apply NoDup_singleton|].
    cbn [is_empty find_try_where]. cbn. rewrite Hn. cbn. rewrite Hcol, Halgo. cbn. unfold get_where_match_right. cbn.
    rewrite bool_decide_eq_true_2 by done. cbn. unfold shard_of in Hi. rewrite Hv in Hi |- *. cbn in Hi |- *.
    destruct (calc_u64 crc32 n (ts_algo c) (ts_count c)) as [i'|]; [|done]. injection Hi as [= ->]. cbn.
    by rewrite Z.mul_1_r, Z.add_0_r, Z.eqb_refl.
Qed.
End Table.

(** C18 A statement of one query on one table that is sharded by tables, in ASCII, goes to
    every shard, each once, when it has no condition on the sharding column, and, when its one
    condition is that this column equals an unsigned number, only to the shard of that number
    (its remainder modulo the number of tables, or that of the CRC-32 of its eight bytes).
    Each shard is sent the statement with [`schema`.table_0000n] for the name of the
    table, its averages as counts and sums, and the columns it is sorted and grouped by
    added; it is otherwise untouched.  The parts to replace lie apart inside the
    statement.  (Conditions are those that the walk over the statement collects, with no
    regard to what connects them: alternatives lose rows, [or_loses_rows]; a schema in quotes
    is quoted again, [schema_quoted_twice].) *)
Theorem table_select_routed w raw walk db meta r t c ds block d shards :
  get_meta raw walk = Ret meta →
  find_table_rule (tables meta) (opened w raw db meta) = Ret [(1, r, t)] →
  database_strategy r = None → table_strategy r = Some (TableStrategy c) → 0 < ts_count c < 2 ^ 32 →
  inserts meta = [] → length (queries meta) = 1%nat → asked c (wheres meta) shards →
  gen_data_source (opened w raw db meta) r 0 = Ret (Ok ds) → block_known meta 1 block (opened w raw db meta) → schema_known t db = Some d →
  ascii_only raw → Forall (λ j, well_placed raw (table_entry meta t c ds block d j).2) shards →
  rewrite crc32 f64_parse f64_mod_round raw walk db w =
    Ret (Ok (mkOutput (spliced raw <$> (table_entry meta t c ds block d <$> shards)) (get_agg_field1 (fields meta)))).
Proof.
  intros Hmeta Hfind Hdb Htable Hcount Hins Hq Hasked Hds Hb Hd Hraw Hw. unfold rewrite. rewrite Hmeta. cbn [er_run].
  change (Ret (Ok ?x) ≫= ?f) with (f x). cbn beta zeta. fold (opened w raw db meta). rewrite Hfind. cbn [er_run].
  change (Ret (Ok ?x) ≫= ?f) with (f x). cbn beta iota. rewrite Hdb, Htable. cbn [is_none negb].
  destruct (asked_part meta r t c Hdb Htable Hcount shards (set_plans [] (opened w raw db meta)) Hasked Hins) as (part & Hpart & Hnd & ->).
  subst shards. by apply table_planned.
Qed.
End Algorithms.
End ShardingTheorems.

(** ** Sharding: inserts

    An insert of several rows becomes one insert for every shard that a row belongs to.
    Every row is in exactly one of them, that of the shard of its values, and the rows of a
    shard keep their order. *)
Module ShardingInserts.
Import ShardingTheorems.

(** ** Grouping *)

(** The elements in the order of their first occurrence. *)
Definition firsts {K} `{EqDecision K} (l : list K) : list K := foldl (λ acc x, if decide (x ∈ acc) then acc else acc ++ [x]) [] l.

Section Firsts.
Context {K : Type} `{EqDecision K}.

Lemma firsts_snoc (l : list K) x : firsts (l ++ [x]) = if decide (x ∈ firsts l) then firsts l else firsts l ++ [x].
Proof. unfold firsts. by rewrite foldl_snoc. Qed.
Lemma elem_of_firsts (l : list K) x : x ∈ firsts l ↔ x ∈ l.
Proof.
  induction l as [|y l IH] using rev_ind; [done|]. rewrite firsts_snoc.
  case_decide as Hy; set_solver.
Qed.
Lemma firsts_NoDup (l : list K) : NoDup (firsts l).
Proof.
  induction l as [|y l IH] using rev_ind; [constructor|]. rewrite firsts_snoc. case_decide; [done|].
  apply NoDup_app. split_and!; [done| |apply NoDup_singleton]. set_solver.
Qed.

(** The groups hold every element once. *)
Lemma groups_permutation {A} (key : A → K) (l : list A) ks : NoDup ks → (∀ a, a ∈ l → key a ∈ ks) →
  concat ((λ k, filter (λ a, key a = k) l) <$> ks) ≡ₚ l.
Proof.
  revert l. induction ks as [|k ks IH]; intros l Hnd Hl; cbn [fmap list_fmap concat].
  - destruct l as [|a l]; [done|]. exfalso. apply (not_elem_of_nil (key a)), Hl. left.
  - apply NoDup_cons in Hnd as [Hk Hnd]. etrans; [|apply (filter_app_complement (λ a, key a = k))]. apply Permutation_app_head.
    etrans; [|apply (IH (filter (λ a, ¬ key a = k) l)); [done|]].
    + apply reflexive_eq. f_equal. apply list_fmap_ext. intros i k' Hi%list_elem_of_lookup_2. symmetry.
      apply list_filter_filter_l. intros a ->. set_solver.
    + intros a [Ha Hin%Hl]%list_elem_of_filter. set_solver.
Qed.
End Firsts.

(** [entry(x).or_insert(d)] in a map that is given by a function. *)
Lemma im_get_fmap {K V} `{EqDecision K} (f : K → V) ks x : im_get x ((λ k, (k, f k)) <$> ks) = if decide (x ∈ ks) then Some (f x) else None.
Proof.
  induction ks as [|k ks IH]; [done|]. cbn [fmap list_fmap im_get]. fold (fmap (M := list) (λ k, (k, f k))). rewrite IH.
  repeat case_decide; set_solver.
Qed.
Lemma im_insert_fmap {K V} `{EqDecision K} (f : K → V) ks x v : NoDup ks → x ∈ ks →
  im_insert x v ((λ k, (k, f k)) <$> ks) = (λ k, (k, if decide (k = x) then v else f k)) <$> ks.
Proof.
  induction ks as [|k ks IH]; intros Hnd Hx; [set_solver|]. apply NoDup_cons in Hnd as [Hk Hnd]. cbn [fmap list_fmap im_insert].
  fold (fmap (M := list) (λ k, (k, f k))). fold (fmap (M := list) (λ k, (k, if decide (k = x) then v else f k))).
  destruct (decide (x = k)) as [<-|Hne].
  - rewrite decide_True by done. f_equal. apply list_fmap_ext. intros i k Hi%list_elem_of_lookup_2. rewrite decide_False; [done|]. by intros ->.
  - rewrite (decide_False (P := k = x)) by done. f_equal. apply IH; [done|]. set_solver.
Qed.
Lemma fold_exec_snoc {A S} (f : A → S → exec S) l a s : fold_exec f (l ++ [a]) s = s ← fold_exec f l s; f a s.
Proof.
  revert s. induction l as [|b l IH]; intros s; cbn [fold_exec app]; [change (Ret ?x ≫= ?g) with (g x); cbn beta; by destruct (f a s)|].
  destruct (f b s) as [s'|]; [|done]. change (Ret ?x ≫= ?f) with (f x). apply IH.
Qed.

(** ** The text of an insert *)

Lemma change_sql_at s a b target : ascii_only s → (a ≤ b ≤ length s)%nat → len s < 2 ^ 64 →
  change_sql s (mkSpan a b) target 0 = Ret (take a s ++ target ++ drop b s).
Proof.
  intros Hs Hab Hlen. unfold change_sql, sp_len. cbn [sp_start sp_end]. rewrite Z.add_0_r, u64_wrap_small by lia.
  replace (Z.of_nat a) with (len (take a s)) by (rewrite length_take; lia).
  assert (s = take a s ++ take (b - a) (drop a s) ++ drop b s) as Hcut.
  { rewrite <-(drop_0 s) at 1 2. rewrite (cut_twice s 0 a b) at 1 by lia. by rewrite Nat.sub_0_r. }
  rewrite Hcut at 2. replace (b - a)%nat with (length (take (b - a) (drop a s))) at 1 by (rewrite length_take, length_drop; lia).
  rewrite remove_chars_app by (apply list.Forall_app; split; by repeat apply ascii_take || apply ascii_drop).
  change (Ret ?x ≫= ?f) with (f x). cbn beta. by rewrite insert_str_app by by apply ascii_drop.
Qed.

(** Rows that end in a parenthesis, joined. *)
Lemma ends_with_paren s : last s = Some ")"%char → ends_with s ($", ") = false.
Proof.
  intros Hs. unfold ends_with. rewrite <-(reverse_involutive s), last_reverse in Hs.
  destruct (reverse s) as [|c l]; [done|]. cbn in Hs. injection Hs as ->. done.
Qed.
Lemma ends_with_comma s : ends_with (s ++ $", ") ($", ") = true.
Proof. unfold ends_with. rewrite reverse_app. apply starts_with_app. Qed.

Lemma trim_end_once n s : last s = Some ")"%char → trim_end_comma (S n) (s ++ $", ") = s.
Proof.
  intros Hs. cbn [trim_end_comma]. rewrite ends_with_comma, length_app. change (length ($", ")) with 2%nat.
  rewrite Nat.add_sub, take_app_length. destruct n as [|n]; [done|]. cbn [trim_end_comma]. by rewrite ends_with_paren.
Qed.

Lemma rows_joined (texts : list str) : texts ≠ [] → concat ((λ s, s ++ $", ") <$> texts) = join ($", ") texts ++ $", ".
Proof.
  induction texts as [|s l IH]; [done|]. intros _. destruct l as [|s' l]; [cbn [fmap list_fmap concat join]; by rewrite app_nil_r|].
  cbn [fmap list_fmap concat] in IH |- *. rewrite IH by done. change (join ?x (s :: s' :: l)) with (s ++ x ++ join x (s' :: l)).
  by rewrite <-!app_assoc.
Qed.
Lemma join_last (texts : list str) : texts ≠ [] → Forall (λ s, last s = Some ")"%char) texts → last (join ($", ") texts) = Some ")"%char.
Proof.
  induction texts as [|s l IH]; [done|]. intros _ [Hs Hl]%list.Forall_cons. destruct l as [|s' l]; [done|].
  change (join ?x (s :: s' :: l)) with (s ++ x ++ join x (s' :: l)). rewrite !last_app, IH by done. done.
Qed.
Section Insert.
Context (w : ShardingRewrite) (r : Sharding) (t : TableIdent) (target : ShardingIdx → str) (ds : ShardingIdx → DataSource).
Context (Hraw : ascii_only (raw_sql w)) (Hlen : len (raw_sql w) < 2 ^ 64).

Definition row_text (c : InsertRowValueIdx) : str := take (sp_end (ri_span c) - sp_start (ri_span c)) (drop (sp_start (ri_span c)) (raw_sql w)).
Definition rows_of (x : ShardingIdx) (changes : list InsertRowValueIdx) : list InsertRowValueIdx := filter (λ c, ri_idx c = x) changes.
(** The statement before its rows with the table of a shard. *)
Definition insert_head (n : nat) (x : ShardingIdx) : str :=
  take (sp_start (ti_span t)) (raw_sql w) ++ target x ++ drop (sp_end (ti_span t)) (take n (raw_sql w)).
Definition insert_text (n : nat) (changes : list InsertRowValueIdx) (x : ShardingIdx) : str :=
  insert_head n x ++ join ($", ") (row_text <$> rows_of x changes).

Definition row_inside (c : InsertRowValueIdx) : Prop :=
  (sp_start (ri_span c) ≤ sp_end (ri_span c) ≤ length (raw_sql w))%nat ∧ last (row_text c) = Some ")"%char.

Section Fold.
Context (n : nat) (Hn : (sp_start (ti_span t) ≤ sp_end (ti_span t) ≤ n)%nat) (Hnl : (n ≤ length (raw_sql w))%nat).

Lemma insert_row_entry c sqls : row_inside c → insert_target w r t (get_strategy_typ r) (ri_idx c) = Ret (target (ri_idx c)) →
  add_insert_row w r t (get_strategy_typ r) (take n (raw_sql w)) c sqls =
    Ret (im_entry (ri_idx c) (insert_head n (ri_idx c)) (λ s, s ++ row_text c ++ $", ") sqls).
Proof.
  intros [Hc _] Ht. unfold add_insert_row. rewrite Ht. change (Ret ?x ≫= ?f) with (f x). cbn beta.
  unfold get_change_insert_row. destruct (ti_span t) as [a b] eqn:E. cbn [sp_start sp_end] in Hn.
  rewrite change_sql_at; [|by apply ascii_take|rewrite length_take; lia..]. change (Ret ?x ≫= ?f) with (f x). cbn beta.
  rewrite slice_ascii by (done || lia). change (Ret ?x ≫= ?f) with (f x). cbn beta iota. change (Ret ?x ≫= ?f) with (f x). cbn beta iota.
  unfold insert_head. rewrite E. cbn [sp_start sp_end]. by rewrite take_take, Nat.min_l by lia.
Qed.

Lemma insert_rows_grouped changes : Forall row_inside changes →
  (∀ c, c ∈ changes → insert_target w r t (get_strategy_typ r) (ri_idx c) = Ret (target (ri_idx c))) →
  fold_exec (add_insert_row w r t (get_strategy_typ r) (take n (raw_sql w))) changes [] =
    Ret ((λ x, (x, insert_head n x ++ concat ((λ s, s ++ $", ") <$> (row_text <$> rows_of x changes)))) <$> firsts (ri_idx <$> changes)).
Proof.
  induction changes as [|c l IH] using rev_ind; intros Hin Ht; [done|]. apply list.Forall_app in Hin as [Hl [Hc _]%list.Forall_cons].
  rewrite fold_exec_snoc, IH by (try done; intros; apply Ht; set_solver). change (Ret ?x ≫= ?f) with (f x).
  rewrite insert_row_entry by (try done; apply Ht; set_solver). f_equal. rewrite fmap_app. cbn [fmap list_fmap].
  rewrite firsts_snoc. unfold im_entry. rewrite im_get_fmap.
  assert (∀ x, rows_of x (l ++ [c]) = rows_of x l ++ if decide (ri_idx c = x) then [c] else []) as Hrows
    by (intros x; unfold rows_of; rewrite filter_app; by destruct (decide (ri_idx c = x)); [rewrite filter_cons_True|rewrite filter_cons_False]).
  case_decide as Hx; cbn [from_option id].
  - rewrite im_insert_fmap by (try done; apply firsts_NoDup). apply list_fmap_ext. intros i x _. f_equal. rewrite Hrows.
    destruct (decide (x = ri_idx c)) as [->|Hne]; [|by rewrite decide_False, app_nil_r].
    rewrite decide_True, !fmap_app, concat_app by done. cbn [fmap list_fmap concat]. by rewrite app_nil_r, <-app_assoc.
  - rewrite im_insert_fresh by (rewrite <-list_fmap_compose; by rewrite list_fmap_id). rewrite fmap_app. f_equal.
    + apply list_fmap_ext. intros i x Hi%list_elem_of_lookup_2. rewrite Hrows, decide_False, app_nil_r; [done|]. by intros <-.
    + cbn [fmap list_fmap]. rewrite Hrows, decide_True by done.
      replace (rows_of (ri_idx c) l) with (@nil InsertRowValueIdx); [cbn [app fmap list_fmap concat]; by rewrite app_nil_r|].
      destruct (rows_of (ri_idx c) l) as [|c' rest] eqn:E; [done|]. destruct Hx. apply elem_of_firsts.
      assert (c' ∈ rows_of (ri_idx c) l) as [<- ?]%list_elem_of_filter by (rewrite E; left). by apply list_elem_of_fmap_2.
Qed.
End Fold.

Lemma rows_of_nonempty x changes : x ∈ firsts (ri_idx <$> changes) → rows_of x changes ≠ [].
Proof.
  rewrite elem_of_firsts. intros (c & -> & Hc)%list_elem_of_fmap Hnil.
  apply (not_elem_of_nil c). rewrite <-Hnil. by apply list_elem_of_filter.
Qed.

Lemma insert_result_text n b changes x : Forall row_inside changes → x ∈ firsts (ri_idx <$> changes) →
  gen_data_source w r (default 0 (idx_database x)) = Ret (Ok (ds x)) →
  insert_result w r b (x, insert_head n x ++ concat ((λ s, s ++ $", ") <$> (row_text <$> rows_of x changes))) =
    Ret (Ok (mkResult (mkDsIdx (ds x) x (mkColumns (mb_column b).1 (mb_column b).2)) [] (insert_text n changes x))).
Proof.
  intros Hin Hx Hds. unfold insert_result. cbn [fst snd]. rewrite Hds. change (Ret (Ok ?x) ≫= ?f) with (f x). cbn beta.
  pose proof (rows_of_nonempty _ _ Hx) as Hne. rewrite rows_joined by (by destruct (rows_of x changes)).
  rewrite (app_assoc (insert_head n x)). set (text := insert_head n x ++ _).
  assert (last text = Some ")"%char) as Hlast.
  { unfold text. rewrite last_app, join_last; [done|by destruct (rows_of x changes)|].
    apply Forall_fmap, list.Forall_forall. intros c [_ Hc]%list_elem_of_filter.
    by apply (proj1 (list.Forall_forall _ _) Hin). }
  destruct (length (text ++ $", ")) as [|m] eqn:E; [rewrite length_app in E; cbn in E; lia|].
  by rewrite trim_end_once.
Qed.

Lemma each_fmap {A B C} (f : A → B) (g : B → er C) (h : A → C) l : (∀ a, a ∈ l → g (f a) = Ret (Ok (h a))) → er_each g (f <$> l) = Ret (Ok (h <$> l)).
Proof.
  induction l as [|a l IH]; intros H; [done|]. cbn [fmap list_fmap er_each]. rewrite H by left. change (Ret (Ok ?x) ≫= ?f) with (f x). cbn beta.
  fold (fmap (M := list) f). rewrite IH by (intros; apply H; by right). done.
Qed.
End Insert.

(** ** The shards of the rows *)

Section Shards.
Context (crc32 : str → Z).

(** The first field with the name of the column. *)
Definition field_at (fs : list FieldMeta) (column : str) (i : nat) : Prop :=
  (∃ f, fs !! i = Some (FIdent f) ∧ fi_name f = column) ∧ ∀ j f, (j < i)%nat → fs !! j = Some (FIdent f) → fi_name f ≠ column.

Lemma field_found column fs : ∀ i k, field_at fs column i → find_insert_field_idx fs (Some column) k = Ret (Ok (k + i)%nat).
Proof.
  induction fs as [|f fs IH]; intros i k [(g & Hg & Hn) Hfirst]; [done|]. destruct i as [|i].
  - injection Hg as ->. cbn. rewrite decide_True by done. by rewrite Nat.add_0_r.
  - assert (field_at fs column i) as Hi by (split; [by exists g|intros j h Hj; apply (Hfirst (S j)); lia]).
    destruct f as [f|x]; cbn; [rewrite decide_False by (apply (Hfirst 0%nat); [lia|done])|]; rewrite (IH i) by done; by rewrite Nat.add_succ_comm.
Qed.

(** The table of a row: that of the number at the position of the sharding column. *)
Definition row_table (c : TableStrategyConfig) (i : nat) (row : InsertValsMeta) (x : Z) : Prop :=
  ∃ v n, row_values row !! i = Some v ∧ parse_unsigned (2 ^ 64 - 1) (iv_value v) = Some n ∧ x = table_index crc32 c n.
(** The rows with their tables. *)
Definition placed : list InsertValsMeta → list Z → list InsertRowValueIdx := zip_with (λ row x, mkRowIdx (mkIdx None (Some x)) (row_span row)).
Definition table_base (c : TableStrategyConfig) : ShardingMetaBaseInfo := mkBase (Some (ts_column c), None) (Some (ts_count c), None) (Some (ts_algo c), None).

Lemma rows_placed c fs i rows xs : 0 < ts_count c → field_at fs (ts_column c) i → Forall2 (row_table c i) rows xs →
  change_insert crc32 TypTable rows fs (table_base c) = Ret (Ok (placed rows xs)).
Proof.
  intros Hc Hi Hrows. cbn [change_insert table_base mb_column fst]. rewrite (field_found _ _ _ _ Hi). change (Ret (Ok ?x) ≫= ?f) with (f x). cbn beta.
  rewrite Nat.add_0_l. match goal with |- er_each ?f rows ≫= ?g = _ => set (read := f); set (calc := g) end.
  assert (∃ vs, er_each read rows = Ret (Ok vs) ∧ calc vs = Ret (Ok (placed rows xs))) as (vs & -> & <-); [|done].
  unfold read, calc. clear read calc Hi. induction Hrows as [|row x rows xs (v & n & Hv & Hn & ->) _ (vs & Hvs & Hch)]; [by exists []|].
  exists ((iv_value v, row_span row) :: vs). cbn [er_each]. rewrite Hvs, Hch. unfold value_at. rewrite Hv. split; [done|].
  unfold calc_database_or_table_sharding_idx. cbn [table_base mb_algo mb_count fst unwrap er_run]. do 2 (change (Ret (Ok ?x) ≫= ?f) with (f x); cbn beta).
  rewrite (shard_of_index crc32 c _ n Hc Hn). done.
Qed.

Definition target_of (d : str) (t : TableIdent) (x : ShardingIdx) : str := table_target d t (default 0 (idx_table x)).

Lemma rows_inserted w r t c rows fs i xs n d ds :
  ascii_only (raw_sql w) → len (raw_sql w) < 2 ^ 64 → database_strategy r = None → table_strategy r = Some (TableStrategy c) → 0 < ts_count c →
  field_at fs (ts_column c) i → Forall2 (row_table c i) rows xs →
  (sp_start ∘ ri_span <$> head (placed rows xs)) = Some n → (sp_start (ti_span t) ≤ sp_end (ti_span t) ≤ n)%nat →
  Forall (row_inside w) (placed rows xs) → schema_known t (default_db w) = Some d → gen_data_source w r 0 = Ret (Ok ds) →
  change_insert_sql_inner crc32 w r t rows fs (table_base c) =
    Ret (Ok ((λ x, mkResult (mkDsIdx ds x (mkColumns (Some (ts_column c)) None)) [] (insert_text w t (target_of d t) n (placed rows xs) x))
             <$> firsts (ri_idx <$> placed rows xs))).
Proof.
  intros Hraw Hlen Hdb Htable Hc Hi Hrows Hn Ht Hin Hd Hds. pose proof (rows_placed c fs i rows xs Hc Hi Hrows) as Hch.
  assert (get_strategy_typ r = TypTable) as Htyp by (unfold get_strategy_typ; by rewrite Hdb, Htable).
  assert (∀ ch, ch ∈ placed rows xs → insert_target w r t (get_strategy_typ r) (ri_idx ch) = Ret (target_of d t (ri_idx ch)) ∧
    gen_data_source w r (default 0 (idx_database (ri_idx ch))) = Ret (Ok ds)) as Hok.
  { intros ch (k & Hk)%list_elem_of_lookup. unfold placed in Hk. apply lookup_zip_with_Some in Hk as (row & x & -> & _). rewrite Htyp.
    cbn [insert_target ri_idx idx_table idx_database unwrap default]. split; [|done]. by apply (change_table_target _ t d). }
  unfold change_insert_sql_inner. rewrite Htyp, Hch, <-Htyp. change (Ret (Ok ?x) ≫= ?f) with (f x). cbn beta.
  destruct (placed rows xs) as [|ch l]; [done|]. cbn in Hn. injection Hn as Hn. cbn [head unwrap er_run]. change (Ret (Ok ?x) ≫= ?f) with (f x). cbn beta.
  pose proof Hin as [[Hpos _] _]%list.Forall_cons. rewrite Hn, slice_ascii by (done || lia). rewrite drop_0, Nat.sub_0_r.
  cbn [er_run]. change (Ret (Ok ?x) ≫= ?f) with (f x). cbn beta.
  rewrite (insert_rows_grouped w r t (target_of d t) Hraw Hlen n) by (try done; try lia; intros; by apply Hok). cbn [er_run].
  change (Ret (Ok ?x) ≫= ?f) with (f x). cbn beta.
  apply each_fmap. intros x Hx. apply (insert_result_text w r t (target_of d t) (λ _, ds)); [done..|].
  apply elem_of_firsts, list_elem_of_fmap in Hx as (c' & -> & Hc'). by apply Hok.
Qed.

Context (f64_parse : str → option Z) (f64_mod_round : Z → Z → Z).

(** C39 An [INSERT] into a table that is sharded by tables, in ASCII, whose rows have an
    unsigned number for the sharding column: it becomes one statement for every table that a
    row belongs to, in the order of the first rows.  The table of a row is that of the number
    at the position of the sharding column (its remainder, or that of its CRC-32).  The
    statement of a table is the text up to the first row with [`schema`.table_0000n] for the
    name of the table, and the rows of that table as they were written (each ends with a
    parenthesis), in their order; every row is in exactly one of the statements.  (Values are
    those that the walk over the statement collects, which leaves out [NULL]:
    [null_shifts_values]; what follows the rows is not sent: [tail_dropped].) *)
Theorem insert_rows_partitioned w raw walk db meta q r t c rows fs i xs n d ds :
  get_meta raw walk = Ret meta → find_table_rule (tables meta) (opened w raw db meta) = Ret [(q, r, t)] →
  im_get q (inserts meta) = Some rows → im_get q (fields meta) = Some fs →
  ascii_only raw → len raw < 2 ^ 64 → database_strategy r = None → table_strategy r = Some (TableStrategy c) → 0 < ts_count c →
  field_at fs (ts_column c) i → Forall2 (row_table c i) rows xs →
  (sp_start ∘ ri_span <$> head (placed rows xs)) = Some n → (sp_start (ti_span t) ≤ sp_end (ti_span t) ≤ n)%nat →
  Forall (row_inside (opened w raw db meta)) (placed rows xs) → schema_known t db = Some d → gen_data_source (opened w raw db meta) r 0 = Ret (Ok ds) →
  rewrite crc32 f64_parse f64_mod_round raw walk db w =
    Ret (Ok (mkOutput ((λ x, mkResult (mkDsIdx ds x (mkColumns (Some (ts_column c)) None)) []
                                (insert_text (opened w raw db meta) t (target_of d t) n (placed rows xs) x))
                       <$> firsts (ri_idx <$> placed rows xs)) [])) ∧
  concat ((λ x, rows_of x (placed rows xs)) <$> firsts (ri_idx <$> placed rows xs)) ≡ₚ placed rows xs.
Proof.
  intros Hmeta Hfind Hins Hfs Hraw Hlen Hdb Htable Hc Hi Hrows Hn Ht Hin Hd Hds. split.
  - unfold rewrite. rewrite Hmeta. cbn [er_run]. change (Ret (Ok ?x) ≫= ?f) with (f x). cbn beta zeta. fold (opened w raw db meta). rewrite Hfind. cbn [er_run].
    change (Ret (Ok ?x) ≫= ?f) with (f x). cbn beta iota. rewrite Hdb, Htable. cbn [is_none negb]. unfold one_strategy.
    assert (is_empty (inserts meta) = false) as -> by (by destruct (inserts meta)).
    assert (is_empty (fields meta) = false) as -> by (by destruct (fields meta)). cbn [negb].
    unfold change_insert_sql. cbn [er_each]. destruct (table_rule r c Hdb Htable) as (Hcol & Halgo & Hcnt).
    assert (base_info r = Ret (table_base c)) as -> by (unfold base_info; by rewrite Hcnt, Hcol, Halgo, Htable).
    rewrite Hins, Hfs. cbn [unwrap er_run]. do 3 (change (Ret (Ok ?x) ≫= ?f) with (f x); cbn beta).
    rewrite (rows_inserted (set_plans [] (opened w raw db meta)) r t c rows fs i xs n d ds) by done.
    match goal with |- (Ret (Ok ?l) ≫= _) ≫= _ = _ => change (Ret (Ok (mkOutput (l ++ []) [])) = Ret (Ok (E := ShardingRewriteError) (mkOutput l []))) end.
    by rewrite app_nil_r.
  - apply groups_permutation; [apply firsts_NoDup|]. intros ch Hch. by apply elem_of_firsts, list_elem_of_fmap_2.
Qed.
End Shards.
End ShardingInserts.
