(* ===== verification/ShardingRuns.v ===== *)
(** * Sharding: statements

    The theorems at statements of the tests, and statements that the rewriter gets wrong.
    A walk lists the calls that the visitor of the parser makes for the statement. *)

From S2P Require Import Prelude RustStr LoadBalance PgProtocol MyFrontend ShardingMeta Sharding ShardingTheorems.
Import LoadBalance ShardingMeta Sharding ShardingText ShardingPlans ShardingTheorems ShardingInserts.

Module ShardingRuns.

(** ** The set-up *)

Lemma ascii_text s : forallb is_ascii s = true → ascii_only s.
Proof. induction s as [|c s IH]; [constructor|]. cbn [forallb]. intros [Hc Hs]%andb_true_iff. constructor; [done|by apply IH]. Qed.

(** No statement here uses CRCs or floats. *)
Definition no_crc (s : str) : Z := 0.
Definition no_float (s : str) : option Z := None.
Definition no_round (a b : Z) : Z := 0.
Definition rewritten : str → list Call → option str → ShardingRewrite → er ShardingRewriteOutput := rewrite no_crc no_float no_round.

Definition node (n d : str) : Endpoint := mkEndpoint [] 1 n d [] [] [].
Definition ds0 : Endpoint := node ($"ds0") ($"db").
Definition tables4 : TableStrategyConfig := mkTableStrategy Mod ($"idx") 4.
Definition sharded (n : str) : Sharding := mkSharding n [$"ds0"] None (Some (TableStrategy tables4)) None.
Definition by_table : ShardingRewrite := new_rewrite [sharded ($"tshard")] [ds0] None false.
Definition two_nodes : list Endpoint := [node ($"ds0") ($"db0"); node ($"ds1") ($"db1")].
Definition by_database : ShardingRewrite :=
  new_rewrite [mkSharding ($"tshard") [$"ds0"; $"ds1"] (Some (DatabaseStrategy (mkDatabaseStrategy Mod ($"idx")))) None None] two_nodes None false.
Definition by_both : ShardingRewrite :=
  new_rewrite [mkSharding ($"tshard") [$"ds0"; $"ds1"] None None (Some (DatabaseTableStrategy (mkDatabaseTableStrategy Mod ($"didx") Mod ($"idx") 4)))]
    two_nodes None false.

(** Where a text first is. *)
Definition at_text (raw sub : str) : Span := let i := default 0%nat (find raw sub) in mkSpan i (i + length sub).
Definition table_at (raw : str) (schema : option str) (n : str) : TableIdent :=
  mkTable (at_text raw (match schema with Some s => s ++ $"." ++ n | None => n end)) schema n.

Definition column_item (raw n : str) : list Call :=
  [CTrans NOther; CTrans (NItemExpr (at_text raw n) None ItemIdent); CComplete (NItemExpr (at_text raw n) None ItemIdent)].
Definition avg_item (raw text n : str) : list Call := [CTrans NOther; CTrans (NItemExpr (at_text raw text) None (ItemAgg (CallAvg (AvgOf n))))].
(** A list of items, a table. *)
Definition select_walk (raw block : str) (items : list Call) (t : TableIdent) (rest : list Call) : list Call :=
  let q := NQuery (mkSpan 0 (length raw)) in
  [CTrans q; CTrans (NItems (at_text raw block) [])] ++ items ++
  [CTrans NFromClause; CTrans NTableRef; CTrans NOther; CTrans (NSingleTable t)] ++ rest ++ [CComplete q].
Definition equal (raw column value : str) : list Call :=
  [CTrans (NExpr (ExBinary ($"=") (Some column) (Some (false, value)))); CTrans (NExpr (ExIdent (at_text raw column) column));
   CTrans (NExpr (ExNum (at_text raw value) value))].
(** [a OR b]: the operation, its sides, what is below them. *)
Definition either (raw c1 v1 c2 v2 : str) : list Call :=
  [CTrans (NExpr (ExBinary ($"OR") None None))] ++ take 1 (equal raw c1 v1) ++ take 1 (equal raw c2 v2) ++ drop 1 (equal raw c1 v1) ++ drop 1 (equal raw c2 v2).
Definition order_by (raw n : str) : list Call := [CTrans NOther; CTrans (NOrderExpr None); CTrans (NExpr (ExIdent (at_text raw n) n))].

Definition insert_row_walk (raw row : str) (values : list ExprNode) : list Call :=
  [CTrans (NRowValue (at_text raw row))] ++ (CTrans ∘ NExpr <$> values) ++ [CComplete (NRowValue (at_text raw row))].
Definition insert_walk (raw : str) (t : TableIdent) (columns : list str) (rows : list Call) : list Call :=
  [CTrans (NInsert t); CTrans NOther] ++ ((λ c, CTrans (NInsertIdent (at_text raw c) c false)) <$> columns) ++ [CTrans NOther] ++ rows.
Definition number (raw v : str) : ExprNode := ExNum (at_text raw v) v.

(** The texts with their shards. *)
Definition sent (o : er ShardingRewriteOutput) : er (list (option Z * option Z * str)) :=
  o ← o; mret ((λ x, (idx_database (di_idx (r_ds x)), idx_table (di_idx (r_ds x)), target_sql x)) <$> results o).

(** ** Selects *)

Definition point_sql : str := $"SELECT AVG(price), idx FROM tshard WHERE idx = 5 ORDER BY name".
Definition point_walk : list Call :=
  select_walk point_sql ($"AVG(price), idx") (avg_item point_sql ($"AVG(price)") ($"price") ++ column_item point_sql ($"idx"))
    (table_at point_sql None ($"tshard")) ([CTrans NOther] ++ equal point_sql ($"idx") ($"5") ++ order_by point_sql ($"name")).

Example point_sent : sent (rewritten point_sql point_walk (Some ($"db")) by_table) =
  Ret (Ok [(None, Some 1, $"SELECT COUNT(price) AS PRICE_AVG_DERIVED_COUNT_00001, SUM(price) AS PRICE_AVG_DERIVED_SUM_00001, idx, name AS NAME_ORDER_BY_DERIVED_00001 FROM `db`.tshard_00001 WHERE idx = 5 ORDER BY name")]).
Proof. vm_compute. reflexivity. Qed.

Definition point_meta : RewriteMetaData := match get_meta point_sql point_walk with Ret m => m | Panic => new_meta [] end.

Lemma table_select_routed_witness :
  rewrite no_crc no_float no_round point_sql point_walk (Some ($"db")) by_table =
    Ret (Ok (mkOutput (spliced point_sql <$> (table_entry point_meta (table_at point_sql None ($"tshard")) tables4 (DsEndpoint ds0)
                                                (at_text point_sql ($"AVG(price), idx")) ($"db") <$> [1]))
               (get_agg_field1 (fields point_meta)))).
Proof.
  apply (table_select_routed no_crc no_float no_round by_table point_sql point_walk (Some ($"db")) point_meta (sharded ($"tshard"))
    (table_at point_sql None ($"tshard")) tables4 (DsEndpoint ds0) (at_text point_sql ($"AVG(price), idx")) ($"db") [1]).
  1-4, 6-7: vm_compute; reflexivity.
  - cbn. lia.
  - replace (wheres point_meta) with [(1, [mkWhere ($"idx") (WNum ($"5"))])] by (vm_compute; reflexivity).
    change [1] with [table_index no_crc tables4 5]. apply asked_value; vm_compute; reflexivity.
  - vm_compute. reflexivity.
  - right. vm_compute. reflexivity.
  - reflexivity.
  - apply ascii_text. vm_compute. reflexivity.
  - constructor; [|constructor]. split; vm_compute; reflexivity.
Defined.

(** Statements of the tests. *)
Definition all_sql : str := $"SELECT idx FROM tshard".
Definition all_walk : list Call := select_walk all_sql ($"idx") (column_item all_sql ($"idx")) (table_at all_sql None ($"tshard")) [].
Example all_sent : sent (rewritten all_sql all_walk (Some ($"db")) by_table) =
  Ret (Ok [(None, Some 0, $"SELECT idx FROM `db`.tshard_00000"); (None, Some 1, $"SELECT idx FROM `db`.tshard_00001");
           (None, Some 2, $"SELECT idx FROM `db`.tshard_00002"); (None, Some 3, $"SELECT idx FROM `db`.tshard_00003")]).
Proof. vm_compute. reflexivity. Qed.
(** ** Inserts *)

Definition rows_sql : str := $"INSERT INTO tshard(idx) VALUES (12), (13), (16)".
Definition rows_table : TableIdent := table_at rows_sql None ($"tshard").
Definition rows_walk : list Call :=
  insert_walk rows_sql rows_table [$"idx"]
    (concat ((λ v, insert_row_walk rows_sql ($"(" ++ v ++ $")") [number rows_sql v]) <$> [$"12"; $"13"; $"16"])).

Example rows_sent : sent (rewritten rows_sql rows_walk (Some ($"db")) by_table) =
  Ret (Ok [(None, Some 0, $"INSERT INTO `db`.tshard_00000(idx) VALUES (12), (16)"); (None, Some 1, $"INSERT INTO `db`.tshard_00001(idx) VALUES (13)")]).
Proof. vm_compute. reflexivity. Qed.

Definition rows_meta : RewriteMetaData := match get_meta rows_sql rows_walk with Ret m => m | Panic => new_meta [] end.
Definition rows_values : list InsertValsMeta := default [] (im_get 0 (inserts rows_meta)).
Definition rows_state : ShardingRewrite := opened by_table rows_sql (Some ($"db")) rows_meta.
Definition rows_changes : list InsertRowValueIdx :=
  [mkRowIdx (mkIdx None (Some 0)) (at_text rows_sql ($"(12)")); mkRowIdx (mkIdx None (Some 1)) (at_text rows_sql ($"(13)"));
   mkRowIdx (mkIdx None (Some 0)) (at_text rows_sql ($"(16)"))].

Lemma insert_rows_partitioned_witness :
  placed rows_values [0; 1; 0] = rows_changes ∧
  rewrite no_crc no_float no_round rows_sql rows_walk (Some ($"db")) by_table =
    Ret (Ok (mkOutput ((λ x, mkResult (mkDsIdx (DsEndpoint ds0) x (mkColumns (Some ($"idx")) None)) []
                                (insert_text rows_state rows_table (target_of ($"db") rows_table) 31 (placed rows_values [0; 1; 0]) x))
                       <$> firsts (ri_idx <$> placed rows_values [0; 1; 0])) [])).
Proof.
  split; [vm_compute; reflexivity|].
  refine (proj1 (insert_rows_partitioned no_crc no_float no_round by_table rows_sql rows_walk (Some ($"db")) rows_meta 0 (sharded ($"tshard")) rows_table tables4
    rows_values (default [] (im_get 0 (fields rows_meta))) 0 [0; 1; 0] 31 ($"db") (DsEndpoint ds0) _ _ _ _ _ _ _ _ _ _ _ _ _ _ _ _)).
  1-4, 6-8, 12, 15-16: vm_compute; reflexivity.
  - apply ascii_text. vm_compute. reflexivity.
  - cbn. lia.
  - split; [vm_compute; eexists; split; reflexivity|intros j f Hj; lia].
  - let l := eval vm_compute in rows_values in replace rows_values with l by (vm_compute; reflexivity).
    do 3 (constructor; [eexists _, _; split; [reflexivity|]; split; vm_compute; reflexivity|]). constructor.
  - vm_compute. lia.
  - replace (placed rows_values [0; 1; 0]) with rows_changes by (vm_compute; reflexivity). repeat constructor; vm_compute; try reflexivity; lia.
Defined.

(** ** What goes wrong *)

(** Conditions are read wherever they are: the rows of the second alternative are not found. *)
Definition or_sql : str := $"SELECT idx FROM tshard WHERE idx = 1 OR idx = 2".
Example or_loses_rows :
  sent (rewritten or_sql (select_walk or_sql ($"idx") (column_item or_sql ($"idx")) (table_at or_sql None ($"tshard"))
                            ([CTrans NOther] ++ either or_sql ($"idx") ($"1") ($"idx") ($"2"))) (Some ($"db")) by_table) =
  Ret (Ok [(None, Some 1, $"SELECT idx FROM `db`.tshard_00001 WHERE idx = 1 OR idx = 2")]).
Proof. vm_compute. reflexivity. Qed.

(** With two sharding columns, a comparison of another column. *)
Definition other_sql : str := $"SELECT idx FROM db.tshard WHERE price = 3".
Example other_column_panics :
  rewritten other_sql (select_walk other_sql ($"idx") (column_item other_sql ($"idx")) (table_at other_sql (Some ($"db")) ($"tshard"))
                         ([CTrans NOther] ++ equal other_sql ($"price") ($"3"))) None by_both = Panic.
Proof. vm_compute. reflexivity. Qed.

(** Averages over databases. *)
Definition avg_sql : str := $"SELECT AVG(price) FROM db.tshard".
Example average_by_database_panics :
  rewritten avg_sql (select_walk avg_sql ($"AVG(price)") (avg_item avg_sql ($"AVG(price)") ($"price")) (table_at avg_sql (Some ($"db")) ($"tshard")) [])
    None by_database = Panic.
Proof. vm_compute. reflexivity. Qed.

(** A [DELETE] has no select list to add columns to. *)
Definition delete_sql : str := $"DELETE FROM tshard WHERE idx = 1 ORDER BY name LIMIT 1".
Example ordered_delete_panics :
  rewritten delete_sql ([CTrans (NDelete (mkSpan 0 (length delete_sql)) (Some (table_at delete_sql None ($"tshard")))); CTrans NOther] ++
                        equal delete_sql ($"idx") ($"1") ++ order_by delete_sql ($"name")) (Some ($"db")) by_table = Panic.
Proof. vm_compute. reflexivity. Qed.

(** The search for the second table starts where that for the first ended. *)
Definition join_sql : str := $"SELECT idx FROM tshard, tother".
Definition two_tables : ShardingRewrite := new_rewrite [sharded ($"tshard"); sharded ($"tother")] [ds0] None false.
Example second_table_unsharded :
  sent (rewritten join_sql (select_walk join_sql ($"idx") (column_item join_sql ($"idx")) (table_at join_sql None ($"tshard"))
                              [CTrans NTableRef; CTrans NOther; CTrans (NSingleTable (table_at join_sql None ($"tother")))]) (Some ($"db")) two_tables) =
  Ret (Ok ((λ j, (None, Some j, $"SELECT idx FROM `db`.tshard_" ++ pad5 j ++ $", tother")) <$> [0; 1; 2; 3])).
Proof. vm_compute. reflexivity. Qed.

(** Values that are not numbers or texts leave no trace: the shard is that of the next column. *)
Definition null_sql : str := $"INSERT INTO tshard(name, idx, price) VALUES (NULL, 5, 7)".
Example null_shifts_values :
  sent (rewritten null_sql (insert_walk null_sql (table_at null_sql None ($"tshard")) [$"name"; $"idx"; $"price"]
                              (insert_row_walk null_sql ($"(NULL, 5, 7)") [ExLiteralOther; number null_sql ($"5"); number null_sql ($"7")]))
          (Some ($"db")) by_table) =
  Ret (Ok [(None, Some 3, $"INSERT INTO `db`.tshard_00003(name, idx, price) VALUES (NULL, 5, 7)")]).
Proof. vm_compute. reflexivity. Qed.

(** What follows the rows is dropped. *)
Definition upsert_sql : str := $"INSERT INTO tshard(idx) VALUES (5) ON DUPLICATE KEY UPDATE price = 7".
Example tail_dropped :
  sent (rewritten upsert_sql (insert_walk upsert_sql (table_at upsert_sql None ($"tshard")) [$"idx"]
                                (insert_row_walk upsert_sql ($"(5)") [number upsert_sql ($"5")] ++ [CTrans NOther])) (Some ($"db")) by_table) =
  Ret (Ok [(None, Some 1, $"INSERT INTO `db`.tshard_00001(idx) VALUES (5)")]).
Proof. vm_compute. reflexivity. Qed.

(** Without rows an insert is sent as it is, once per shard. *)
Definition set_sql : str := $"INSERT INTO tshard SET idx = 5".
Example insert_set_repeated :
  sent (rewritten set_sql [CTrans (NInsert (table_at set_sql None ($"tshard"))); CTrans NOther; CTrans NOther; CTrans (NExpr (number set_sql ($"5")))]
          (Some ($"db")) by_table) =
  Ret (Ok ((λ j, (None, Some j, set_sql)) <$> [0; 1; 2; 3])).
Proof. vm_compute. reflexivity. Qed.

(** Characters are removed for the bytes of a span. *)
Definition umlaut : str := ["t"%char; ascii_of_nat 195; ascii_of_nat 164].
Definition umlaut_sql : str := $"SELECT idx FROM " ++ umlaut ++ $" WHERE idx = 1".
Example bytes_counted_as_characters :
  sent (rewritten umlaut_sql (select_walk umlaut_sql ($"idx") (column_item umlaut_sql ($"idx")) (table_at umlaut_sql None umlaut)
                                ([CTrans NOther] ++ equal umlaut_sql ($"idx") ($"1"))) (Some ($"db")) (new_rewrite [sharded umlaut] [ds0] None false)) =
  Ret (Ok [(None, Some 1, $"SELECT idx FROM `db`." ++ umlaut ++ $"_00001WHERE idx = 1")]).
Proof. vm_compute. reflexivity. Qed.

(** A schema that is quoted is quoted again. *)
Definition quoted_sql : str := $"SELECT idx FROM `db`.tshard WHERE idx = 1".
Example schema_quoted_twice :
  sent (rewritten quoted_sql (select_walk quoted_sql ($"idx") (column_item quoted_sql ($"idx")) (table_at quoted_sql (Some ($"`db`")) ($"tshard"))
                                ([CTrans NOther] ++ equal quoted_sql ($"idx") ($"1"))) None by_table) =
  Ret (Ok [(None, Some 1, $"SELECT idx FROM ``db``.tshard_00001 WHERE idx = 1")]).
Proof. vm_compute. reflexivity. Qed.

(** The only database of a statement is number 0 whichever it is. *)
Definition database_sql : str := $"SELECT idx FROM db.tshard WHERE idx = 3".
Example database_labelled_zero :
  sent (rewritten database_sql (select_walk database_sql ($"idx") (column_item database_sql ($"idx")) (table_at database_sql (Some ($"db")) ($"tshard"))
                                  ([CTrans NOther] ++ equal database_sql ($"idx") ($"3"))) None by_database) =
  Ret (Ok [(Some 0, None, $"SELECT idx FROM db1.tshard WHERE idx = 3")]).
Proof. vm_compute. reflexivity. Qed.

(** Three tables that differ: their sum is that of three equal ones. *)
Definition nested_sql : str :=
  $"SELECT idx FROM db.tshard WHERE idx = 1 AND a = (SELECT b FROM db.tshard WHERE idx = 0 AND c = (SELECT d FROM db.tshard WHERE idx = 2))".
Definition table_in (before : str) : TableIdent :=
  let s := at_text nested_sql (before ++ $" FROM db.tshard") in mkTable (mkSpan (sp_end s - 9) (sp_end s)) (Some ($"db")) ($"tshard").
Definition nested_walk : list Call :=
  select_walk nested_sql ($"idx") (column_item nested_sql ($"idx")) (table_in ($"SELECT idx"))
    ([CTrans NOther] ++ equal nested_sql ($"idx") ($"1") ++
     [CTrans (NSubQuery (select_walk nested_sql ($"b") (column_item nested_sql ($"b")) (table_in ($"SELECT b"))
       ([CTrans NOther] ++ equal nested_sql ($"idx") ($"0") ++
        [CTrans (NSubQuery (select_walk nested_sql ($"d") (column_item nested_sql ($"d")) (table_in ($"SELECT d"))
          ([CTrans NOther] ++ equal nested_sql ($"idx") ($"2"))))])))]).
Example sums_taken_for_equality :
  sent (rewritten nested_sql nested_walk None by_table) =
  Ret (Ok [(None, Some 1, $"SELECT idx FROM `db`.tshard_00001 WHERE idx = 1 AND a = (SELECT b FROM `db`.tshard_00001 WHERE idx = 0 AND c = (SELECT d FROM `db`.tshard_00001 WHERE idx = 2))")]).
Proof. vm_compute. reflexivity. Qed.
End ShardingRuns.
