(* ===== verification/PgTcp.v ===== *)
(** * The PostgreSQL frame relay

    [data-proxy/runtime/gateway/src/backend/pg_tcp_relay.rs]: backend connections whose
    frames are passed on as they are, the pool of idle ones, and the streams that end at
    [ReadyForQuery] or, for a unit that is held open, at the end of a command.

    The encoders of the [postgres-protocol] crate are the class [PgMessages]; the network is
    the class [PgNet]: dialling (with TLS and authentication), the chunks that can be read
    after bytes were written, the clock, and whether a probe is answered in time.  The
    end of the chunks is the end of the stream. *)

From S2P Require Import Prelude RustStr Model Obligations GatewayConfig Session Transport PgProtocol.

Module PgTcp.

Definition DEFAULT_TCP_IDLE_MAX_PER_KEY : nat := 4.
(** Milliseconds. *)
Definition DEFAULT_TCP_IDLE_TTL : Z := 30000.

(** [query], [parse], [bind] (text formats), [describe], [execute], [sync], [flush]. *)
Class PgMessages := {
  msg_query : str → result str str;
  msg_parse : str → str → result str str;
  msg_bind : str → str → list (option str) → option str;
  msg_describe : ascii → str → result str str;
  msg_execute : str → Z → result str str;
  msg_sync : str;
  msg_flush : str
}.

Record PgTcpSession := mkTcp { tcp_link : nat; tcp_chunks : list str; read_buf : str }.

Class PgNet (Sv : Type) := {
  dial : EndpointConfig → str → Sv → GatewayResult PgTcpSession * Sv;
  respond : nat → str → Sv → result str (list str) * Sv;
  probe_in_time : nat → Sv → bool;
  instant : Sv → Z
}.

(** ** The pool of idle sessions *)

Record IdleEntry := mkIdle { idle_session : PgTcpSession; idle_since : Z }.
Record PgTcpIdlePool := mkIdlePool { max_per_key : nat; idle_ttl : Z; health_probe : bool; idle : gmap str (list IdleEntry) }.

Definition with_ttl (n : nat) (ttl : Z) : PgTcpIdlePool := mkIdlePool (Nat.max n 1) ttl true ∅.
Definition with_default_cap : PgTcpIdlePool := with_ttl DEFAULT_TCP_IDLE_MAX_PER_KEY DEFAULT_TCP_IDLE_TTL.
Definition set_idle (m : gmap str (list IdleEntry)) (p : PgTcpIdlePool) : PgTcpIdlePool := mkIdlePool (max_per_key p) (idle_ttl p) (health_probe p) m.
Definition idle_pool_key (e : EndpointConfig) (database : str) : str := e_address e ++ $"|" ++ database ++ $"|" ++ e_username e.
Definition idle_len (p : PgTcpIdlePool) : nat := map_fold (λ _ q n, (length q + n)%nat) 0%nat (idle p).

(** [now.duration_since(since) <= idle_ttl]; the difference saturates at zero. *)
Definition fresh (p : PgTcpIdlePool) (now : Z) (e : IdleEntry) : bool := Z.max 0 (now - idle_since e) <=? idle_ttl p.

Fixpoint pop_fresh (p : PgTcpIdlePool) (now : Z) (q : list IdleEntry) : option PgTcpSession * list IdleEntry :=
  match q with
  | [] => (None, [])
  | e :: q => if fresh p now e then (Some (idle_session e), q) else pop_fresh p now q
  end.
Definition idle_take (key : str) (now : Z) (p : PgTcpIdlePool) : option PgTcpSession * PgTcpIdlePool :=
  match idle p !! key with
  | None => (None, p)
  | Some q => let '(s, q) := pop_fresh p now q in (s, set_idle (if is_empty q then delete key (idle p) else <[key := q]> (idle p)) p)
  end.

Fixpoint drop_expired (p : PgTcpIdlePool) (now : Z) (q : list IdleEntry) : list IdleEntry :=
  match q with e :: q' => if fresh p now e then q else drop_expired p now q' | [] => [] end.
Definition put_at (key : str) (s : PgTcpSession) (since now : Z) (p : PgTcpIdlePool) : PgTcpIdlePool :=
  let q := drop_expired p now (default [] (idle p !! key)) in
  let q := if (max_per_key p <=? length q)%nat then tail q else q in
  set_idle (<[key := q ++ [mkIdle s since]]> (idle p)) p.
Definition idle_put (key : str) (s : PgTcpSession) (now : Z) (p : PgTcpIdlePool) : PgTcpIdlePool := put_at key s now now p.

Definition purge_expired (now : Z) (p : PgTcpIdlePool) : nat * PgTcpIdlePool :=
  let kept := omap (λ q, let q := filter (λ e, fresh p now e = true) q in if is_empty q then None else Some q) (idle p) in
  let p' := set_idle kept p in ((idle_len p - idle_len p')%nat, p').

(** ** Frames *)

(** One message, and what follows it. *)
Definition try_split_frame (buf : str) : GatewayResult (option (str * str)) :=
  if (length buf <? 5)%nat then Ok None
  else
    let n := be_unsigned (take 4 (drop 1 buf)) in
    if n <? 4 then Err (Protocol ($"pg frame: invalid length " ++ dec n))
    else
      let total := S (Z.to_nat n) in
      if (length buf <? total)%nat then Ok None else Ok (Some (take total buf, drop total buf)).

Definition closed_mid_message : GatewayError := Backend ($"pg tcp: connection closed mid-message").

(** A read of nothing is the end. *)
Fixpoint next_frame (chunks : list str) (buf : str) : GatewayResult (option str) * list str * str :=
  match try_split_frame buf with
  | Err e => (Err e, chunks, buf)
  | Ok (Some (f, buf)) => (Ok (Some f), chunks, buf)
  | Ok None =>
      let ended := if is_empty buf then Ok None else Err closed_mid_message in
      match chunks with
      | [] => (ended, [], buf)
      | c :: chunks => if is_empty c then (ended, chunks, buf) else next_frame chunks (buf ++ c)
      end
  end.
Definition next_raw_frame (s : PgTcpSession) : GatewayResult (option str) * PgTcpSession :=
  let '(r, chunks, buf) := next_frame (tcp_chunks s) (read_buf s) in (r, mkTcp (tcp_link s) chunks buf).

(** ** Streams *)

(** Where the session goes: nowhere, to the slot of the transaction, to the pool, to
    one of both, to the slot of the unit held open. *)
Inductive SessionReturn := ReturnDrop | ReturnTxn | ReturnIdle (key : str) | ReturnIdleOrTxn (key : str) | ReturnHold.

(** The slots that streams and connector share. *)
Record Slots := mkSlots { tcp_txn : option PgTcpSession; tcp_idle : PgTcpIdlePool; tcp_ext_hold : option PgTcpSession }.
Definition set_txn (o : option PgTcpSession) (sl : Slots) : Slots := mkSlots o (tcp_idle sl) (tcp_ext_hold sl).
Definition set_idle_pool (p : PgTcpIdlePool) (sl : Slots) : Slots := mkSlots (tcp_txn sl) p (tcp_ext_hold sl).
Definition set_hold (o : option PgTcpSession) (sl : Slots) : Slots := mkSlots (tcp_txn sl) (tcp_idle sl) o.

Record PgTcpWireStream := mkStream {
  ws_session : option PgTcpSession;
  return_to : SessionReturn;
  ws_done : bool;
  stop_before_ready : bool;
  ws_ready : option ascii
}.
Definition new_stream (s : PgTcpSession) (r : SessionReturn) (stop : bool) : PgTcpWireStream := mkStream (Some s) r false stop None.

Definition finish_session (now : Z) (st : PgTcpWireStream) (sl : Slots) : PgTcpWireStream * Slots :=
  match ws_session st with
  | None => (st, sl)
  | Some s =>
      (mkStream None (return_to st) (ws_done st) (stop_before_ready st) (ws_ready st),
       match return_to st with
       | ReturnDrop => sl
       | ReturnTxn => set_txn (Some s) sl
       | ReturnHold => set_hold (Some s) sl
       | ReturnIdle key => set_idle_pool (idle_put key s now (tcp_idle sl)) sl
       | ReturnIdleOrTxn key =>
           match ws_ready st with
           | Some "I"%char => set_idle_pool (idle_put key s now (tcp_idle sl)) sl
           | Some "T"%char | Some "E"%char => set_txn (Some s) sl
           | _ => sl
           end
       end)
  end.
(** [Drop]. *)
Definition drop_stream (now : Z) (st : PgTcpWireStream) (sl : Slots) : Slots := (finish_session now st sl).2.

(** Whether a frame ends the unit. *)
Definition ends_unit (stop : bool) (frame : str) : bool :=
  match head frame with
  | Some c => Ascii.eqb c "Z" || stop && (Ascii.eqb c "C" || Ascii.eqb c "s" || Ascii.eqb c "E")
  | None => false
  end.
Definition ready_of (frame : str) (old : option ascii) : option ascii :=
  if bool_decide (head frame = Some "Z"%char) && (6 <=? length frame)%nat then frame !! 5%nat else old.

(** At most [n] more frames for the batch. *)
Fixpoint fill (n : nat) (now : Z) (s : PgTcpSession) (batch : list str) (st : PgTcpWireStream) (sl : Slots) : GatewayResult (list str) * PgTcpWireStream * Slots :=
  let keep s ready done := mkStream (Some s) (return_to st) done (stop_before_ready st) ready in
  match n with
  | O => (Ok batch, keep s (ws_ready st) (ws_done st), sl)
  | S n =>
      match next_raw_frame s with
      | (Err e, s) => (Err e, keep s (ws_ready st) (ws_done st), sl)
      | (Ok None, s) => let '(st, sl) := finish_session now (keep s (ws_ready st) true) sl in (Ok batch, st, sl)
      | (Ok (Some frame), s) =>
          let ready := ready_of frame (ws_ready st) in
          if ends_unit (stop_before_ready st) frame then let '(st, sl) := finish_session now (keep s ready true) sl in (Ok (batch ++ [frame]), st, sl)
          else fill n now s (batch ++ [frame]) (keep s ready (ws_done st)) sl
      end
  end.

Definition poll_packets (max_packets : nat) (now : Z) (st : PgTcpWireStream) (sl : Slots) : GatewayResult (option (list str)) * PgTcpWireStream * Slots :=
  if ws_done st then (Ok None, st, sl)
  else
    match ws_session st with
    | None => (Err (Backend ($"pg relay session missing")), st, sl)
    | Some s =>
        let '(r, st, sl) := fill (Nat.max max_packets 1) now s [] st sl in
        (match r with Err e => Err e | Ok batch => Ok (if is_empty batch then None else Some batch) end, st, sl)
    end.

(** Polled until it ends: the batches; the stream is dropped then. *)
Fixpoint drain (fuel : nat) (max_packets : nat) (now : Z) (st : PgTcpWireStream) (sl : Slots) : option (list (GatewayResult (list str)) * Slots) :=
  match fuel with
  | O => None
  | S fuel =>
      match poll_packets max_packets now st sl with
      | (Ok None, st, sl) => Some ([], drop_stream now st sl)
      | (Err e, st, sl) => Some ([Err e], drop_stream now st sl)
      | (Ok (Some batch), st, sl) => '(rest, sl) ← drain fuel max_packets now st sl; Some (Ok batch :: rest, sl)
      end
  end.
(** Enough: every batch has a frame. *)
Definition pending_bytes (st : PgTcpWireStream) : nat :=
  match ws_session st with Some s => length (concat (tcp_chunks s)) + length (read_buf s) | None => 0 end.
Definition drain_fuel (st : PgTcpWireStream) : nat := S (S (pending_bytes st)).

(** ** Sessions *)

Section Sessions.
Context {Sv : Type} `{PgNet Sv} `{PgMessages}.

Definition tcp_write (what : string) (bytes : str) (s : PgTcpSession) (sv : Sv) : GatewayResult PgTcpSession * Sv :=
  match respond (tcp_link s) bytes sv with
  | (Err e, sv) => (Err (Backend ($what ++ $": " ++ e)), sv)
  | (Ok chunks, sv) => (Ok (mkTcp (tcp_link s) (tcp_chunks s ++ chunks) (read_buf s)), sv)
  end.
Definition encoded (what : string) (r : result str str) : GatewayResult str := map_err (λ e, Backend ($what ++ $": " ++ e)) r.

(** Bytes are written, and a stream reads the answer. *)
Definition relay_into (what : string) (bytes : GatewayResult str) (ret : SessionReturn) (stop : bool) (s : PgTcpSession) (sv : Sv)
    : GatewayResult PgTcpWireStream * Sv :=
  match bytes with
  | Err e => (Err e, sv)
  | Ok bytes => let '(r, sv) := tcp_write what bytes s sv in (s ← r; Ok (new_stream s ret stop), sv)
  end.
Definition simple_query_relay_into (sql : str) (ret : SessionReturn) : PgTcpSession → Sv → GatewayResult PgTcpWireStream * Sv :=
  relay_into "pg query write" (encoded "pg query encode" (msg_query sql)) ret false.

Definition simple_query_relay (sql : str) : PgTcpSession → Sv → GatewayResult PgTcpWireStream * Sv := simple_query_relay_into sql ReturnDrop.

(** The portal that a [Bind] binds. *)
Definition portal_of (f : str) : option str :=
  if bool_decide (head f = Some "B"%char) && (5 <? length f)%nat then
    let body := drop 5 f in
    if contains_char body "000" then Some (Obligations.from_utf8_lossy (take_while (λ c, negb (Ascii.eqb c "000")) body)) else None
  else None.
Definition inject_describe (portal : option str) : GatewayResult str :=
  encoded "pg client-frame describe inject" (msg_describe "P" (default [] portal)).

(** The frames, with a [Describe] before the first [Execute] of a portal that was bound
    and not described. *)
Fixpoint client_unit (frames : list str) (described : bool) (bound : option str) : GatewayResult str :=
  match frames with
  | [] => if negb (is_none bound) && negb described then inject_describe bound else Ok []
  | f :: frames =>
      let described := described || bool_decide (head f = Some "D"%char) in
      let bound := match portal_of f with Some p => Some p | None => bound end in
      if negb (is_none bound) && negb described && bool_decide (head f = Some "E"%char) then
        d ← inject_describe bound; rest ← client_unit frames true bound; Ok (d ++ f ++ rest)
      else rest ← client_unit frames described bound; Ok (f ++ rest)
  end.

(** The unit and a [Sync]. *)
Definition client_frames_relay_into (frames : list str) (ret : SessionReturn) : PgTcpSession → Sv → GatewayResult PgTcpWireStream * Sv :=
  relay_into "pg client frame write"
    (if is_empty frames then Err (Backend ($"pg client frame relay: empty frame list")) else b ← client_unit frames false None; Ok (b ++ msg_sync)) ret false.
(** The unit is written, then a [Flush]; the stream ends with the command. *)
Definition client_frames_relay_hold_into (frames : list str) (ret : SessionReturn) (s : PgTcpSession) (sv : Sv) : GatewayResult PgTcpWireStream * Sv :=
  if is_empty frames then (Err (Backend ($"pg client frame hold relay: empty frame list")), sv)
  else
    match client_unit frames false None with
    | Err e => (Err e, sv)
    | Ok bytes =>
        match tcp_write "pg client frame hold write" bytes s sv with
        | (Err e, sv) => (Err e, sv)
        | (Ok s, sv) => let '(r, sv) := tcp_write "pg client frame hold flush" msg_flush s sv in (s ← r; Ok (new_stream s ret true), sv)
        end
    end.
Definition client_execute_relay_hold_into (frames : list str) (ret : SessionReturn) : PgTcpSession → Sv → GatewayResult PgTcpWireStream * Sv :=
  relay_into "pg client execute write"
    (if is_empty frames then Err (Backend ($"pg client execute hold relay: empty")) else Ok (concat frames ++ msg_flush)) ret true.
Definition client_sync_relay_into (ret : SessionReturn) : PgTcpSession → Sv → GatewayResult PgTcpWireStream * Sv :=
  relay_into "pg client sync write" (Ok msg_sync) ret false.

(** [Parse], [Bind] in text, [Describe], [Execute], [Sync] of the unnamed statement. *)
Definition text_bind_unit (sql : str) (params : list (option str)) : GatewayResult str :=
  p ← encoded "pg extended parse encode" (msg_parse [] sql);
  b ← match msg_bind [] [] params with Some b => Ok b | None => Err (Backend ($"pg extended bind encode failed")) end;
  d ← encoded "pg extended describe encode" (msg_describe "P" []);
  e ← encoded "pg extended execute encode" (msg_execute [] 0);
  Ok (p ++ b ++ d ++ e ++ msg_sync).
Definition extended_text_bind_relay_into (sql : str) (params : list (option str)) (ret : SessionReturn) : PgTcpSession → Sv → GatewayResult PgTcpWireStream * Sv :=
  relay_into "pg extended write" (text_bind_unit sql params) ret false.

(** The frames of all batches, or the failure. *)
Fixpoint collect (batches : list (GatewayResult (list str))) : GatewayResult (list str) :=
  match batches with [] => Ok [] | b :: bs => b ← b; rest ← collect bs; Ok (b ++ rest) end.

(** The session comes back through a slot of its own. *)
Definition simple_query_collect_reuse (sql : str) (s : PgTcpSession) (sv : Sv) : option (GatewayResult (PgTcpSession * list str) * Sv) :=
  let '(r, sv) := simple_query_relay_into sql ReturnTxn s sv in
  match r with
  | Err e => Some (Err e, sv)
  | Ok st =>
      '(batches, sl) ← drain (drain_fuel st) 64 (instant sv) st (mkSlots None with_default_cap None);
      Some (packets ← collect batches;
            match tcp_txn sl with
            | Some s => Ok (s, packets)
            | None => Err (Backend ($"pg tcp collect_reuse: session not returned"))
            end, sv)
  end.

(** ** The probe of an idle session *)

Fixpoint health_frames (fuel : nat) (s : PgTcpSession) : option (GatewayResult unit * PgTcpSession) :=
  match fuel with
  | O => None
  | S fuel =>
      match next_raw_frame s with
      | (Err e, s) => Some (Err e, s)
      | (Ok None, s) => Some (Err (Backend ($"pg tcp health probe: closed before ReadyForQuery")), s)
      | (Ok (Some f), s) =>
          match head f with
          | Some "E"%char => Some (Err (Backend ($"pg tcp health probe: ErrorResponse")), s)
          | Some "Z"%char => Some (Ok tt, s)
          | Some _ => health_frames fuel s
          | None => Some (Err (Backend ($"pg tcp health probe: empty frame")), s)
          end
      end
  end.
Definition health_check (s : PgTcpSession) (sv : Sv) : option (GatewayResult PgTcpSession * Sv) :=
  match encoded "pg health query encode" (msg_query ($"SELECT 1")) with
  | Err e => Some (Err e, sv)
  | Ok bytes =>
      match tcp_write "pg health query write" bytes s sv with
      | (Err e, sv) => Some (Err e, sv)
      | (Ok s, sv) =>
          if negb (probe_in_time (tcp_link s) sv) then Some (Err (Backend ($"pg tcp health probe timed out")), sv)
          else '(r, s) ← health_frames (S (length (concat (tcp_chunks s)) + length (read_buf s))) s; Some (_ ← r; Ok s, sv)
      end
  end.

Fixpoint take_healthy (n : nat) (key : str) (p : PgTcpIdlePool) (sv : Sv) : option (option PgTcpSession * PgTcpIdlePool * Sv) :=
  match n with
  | O => Some (None, p, sv)
  | S n =>
      match idle_take key (instant sv) p with
      | (None, p) => Some (None, p, sv)
      | (Some s, p) =>
          if health_probe p then
            '(r, sv) ← health_check s sv;
            match r with Ok s => Some (Some s, p, sv) | Err _ => take_healthy n key p sv end
          else Some (Some s, p, sv)
      end
  end.
Definition take_or_connect (e : EndpointConfig) (database : str) (p : PgTcpIdlePool) (sv : Sv) : option (GatewayResult PgTcpSession * PgTcpIdlePool * Sv) :=
  '(s, p, sv) ← take_healthy (max_per_key p) (idle_pool_key e database) p sv;
  match s with
  | Some s => Some (Ok s, p, sv)
  | None => let '(r, sv) := dial e database sv in Some (r, p, sv)
  end.
End Sessions.
End PgTcp.
