(* ===== verification/PgBackend.v ===== *)
(** * The PostgreSQL backend

    [data-proxy/runtime/gateway/src/backend/postgresql.rs]: parameters and results (Module
    [PgValues]), and the connector (Module [PgConnector]): a pool of [tokio-postgres]
    connections, the connection held for a transaction (the lease), the relay sessions of
    [PgTcp] with a slot of their own for a transaction, and the commands.

    Dates and times of [chrono] are represented by their text; floats are their bits. *)

From S2P Require Import ConnPool.
From S2P Require Import Prelude RustStr Model GatewayConfig Session Obligations Transport AuditEvents PgProtocol PgText MyFrontend MyConnector PdpStore PgTcp.
Import PgTcp.

Module PgValues.

(** ** Prepared statements and placeholders *)

Record PgRegistry := mkPgRegistry { pg_next_id : Z; pg_sql_by_id : gmap str str }.
Definition pg_default_registry : PgRegistry := mkPgRegistry 0 ∅.

Definition count_pg_placeholders (sql : str) : Z := max_placeholder 65535 sql 0.
Definition pg_registry_prepare (sql : str) (r : PgRegistry) : str * Z * PgRegistry :=
  let id := (pg_next_id r + 1) mod 2 ^ 32 in (dec id, count_pg_placeholders sql, mkPgRegistry id (<[dec id := sql]> (pg_sql_by_id r))).
Definition pg_take_sql (sid : str) (r : PgRegistry) : option str := pg_sql_by_id r !! sid.
Definition pg_registry_close (sid : str) (r : PgRegistry) : PgRegistry := mkPgRegistry (pg_next_id r) (delete sid (pg_sql_by_id r)).
Definition pg_registry_clear (r : PgRegistry) : PgRegistry := mkPgRegistry (pg_next_id r) ∅.

(** [str::replace]: [skip] bytes of an occurrence are still to be passed over. *)
Fixpoint replace_all (skip : nat) (p t s : str) : str :=
  match s with
  | [] => []
  | c :: s' =>
      match skip with
      | S k => replace_all k p t s'
      | O => if starts_with s p then t ++ replace_all (length p - 1) p t s' else c :: replace_all 0 p t s'
      end
  end.
Definition double_quotes_of (s : str) : str := replace_all 0 ($"'") ($"''") s.

Section Values.
Context (f64_is_finite : Z → bool) (f64_to_string : Z → str) (f64_parse : str → option Z).

Definition hex_text (b : str) : str := concat (hex_byte <$> b).

Definition gateway_value_sql_literal (v : GatewayValue) : str :=
  match v with
  | Null => $"NULL"
  | Boolean b => if b then $"TRUE" else $"FALSE"
  | Integer i => dec_signed i
  | UnsignedInteger u => dec u
  | Float f => if f64_is_finite f then f64_to_string f else $"NULL"
  | Decimal s => s
  | VString s => $"'" ++ double_quotes_of s ++ $"'"
  | Bytes b => $"E'\\x" ++ hex_text b ++ $"'"
  end.

Definition pg_arity_error (need : Z) (ps : list GatewayValue) : GatewayError :=
  Protocol ($"postgresql prepared Execute expects " ++ dec need ++ $" parameters, got " ++ dec (Z.of_nat (length ps))).
(** From the last placeholder to the first. *)
Fixpoint substitute (n : nat) (ps : list GatewayValue) (sql : str) : str :=
  match n with
  | O => sql
  | S k => substitute k ps (replace_all 0 ($"$" ++ dec (Z.of_nat n)) (gateway_value_sql_literal (default Null (ps !! k))) sql)
  end.
Definition bind_pg_placeholders (sql : str) (ps : list GatewayValue) : GatewayResult str :=
  let need := count_pg_placeholders sql in
  if negb (need =? Z.of_nat (length ps)) then Err (pg_arity_error need ps) else Ok (substitute (length ps) ps sql).

Definition pg_text_param (v : GatewayValue) : option str :=
  match v with
  | Null => None
  | Boolean b => Some (if b then $"t" else $"f")
  | Integer i => Some (dec_signed i)
  | UnsignedInteger u => Some (dec u)
  | Float f => if f64_is_finite f then Some (f64_to_string f) else None
  | Decimal s | VString s => Some s
  | Bytes b => Some ($"\x" ++ hex_text b)
  end.
Definition gateway_values_to_pg_text_params (ps : list GatewayValue) : list (option str) := pg_text_param <$> ps.

(** ** Character sets *)

Definition map_charset_to_postgresql_encoding (charset : str) : str :=
  let base := hd [] (split "_" (to_ascii_lowercase charset)) in
  if one_of [$"utf8mb4"; $"utf8mb3"; $"utf8"; $"utf-8"] base then $"UTF8"
  else if one_of [$"latin1"; $"iso-8859-1"; $"iso88591"] base then $"LATIN1"
  else if one_of [$"latin9"; $"iso-8859-15"] base then $"LATIN9"
  else if one_of [$"ascii"; $"us-ascii"] base then $"SQL_ASCII"
  else if one_of [$"gbk"] base then $"GBK"
  else if one_of [$"gb18030"] base then $"GB18030"
  else if one_of [$"big5"] base then $"BIG5"
  else if one_of [$"ujis"; $"eucjpms"] base then $"EUC_JP"
  else if one_of [$"euckr"] base then $"EUC_KR"
  else if one_of [$"binary"] base then $"SQL_ASCII"
  else if one_of [$"default"] base then $"DEFAULT"
  else if forallb (λ c, is_ascii_alphanumeric c || Ascii.eqb c "_") base then to_ascii_uppercase base
  else $"UTF8".
Definition postgresql_client_encoding_statement (e : str) : str :=
  if eq_ignore_ascii_case e ($"default") then $"SET client_encoding TO DEFAULT" else $"SET client_encoding TO '" ++ double_quotes_of e ++ $"'".

(** ** NUMERIC *)

Definition zeros (n : nat) : str := replicate n "0"%char.
Definition to_boundary (n : nat) : nat := ((4 - n mod 4) mod 4)%nat.
Definition is_zero (c : ascii) : bool := Ascii.eqb c "0".
Fixpoint groups_of (fuel : nat) (s : str) : list Z :=
  match fuel with
  | O => []
  | S fuel => if is_empty s then [] else default 0 (parse_unsigned 65535 (take 4 s)) :: groups_of fuel (drop 4 s)
  end.
Definition be16 (v : Z) : str := be_bytes 2 (v mod 65536) [].

Definition numeric_to_wire (text : str) : option str :=
  let raw := trim text in
  let negative := starts_with raw ($"-") in
  let unsigned := trim_start_matches (λ c, Ascii.eqb c "-" || Ascii.eqb c "+") raw in
  let '(int_part, frac_part) := default (unsigned, []) (PgText.split_once "." unsigned) in
  if is_empty int_part && is_empty frac_part then None
  else if negb (forallb is_ascii_digit int_part) || negb (forallb is_ascii_digit frac_part) then None
  else
    let significant := trim_start_matches is_zero (int_part ++ frac_part ++ zeros (to_boundary (length frac_part))) in
    if is_empty significant then Some []
    else
      let aligned := zeros (to_boundary (length significant)) ++ significant in
      let groups := groups_of (length aligned) aligned in
      let weight := Z.of_nat (length aligned / 4) - 1 - (if (0 <? to_boundary (length frac_part))%nat then 1 else 0) in
      Some (be16 (Z.of_nat (length groups)) ++ be16 (if negative then 16384 else 0) ++ be16 weight ++ be16 (Z.of_nat (length frac_part))
            ++ concat (be16 <$> groups)).

Definition word_at (buf : str) (i : nat) : Z := be_unsigned (take 2 (drop i buf)).
Definition pad4 (g : Z) : str := MyFrontend.zero_pad 4 g.

(** The groups before the point: the first without leading zeros, those that are missing
    as zeros. *)
Definition int_text (digits : list Z) (n : nat) : str :=
  concat (imap (λ i _, match digits !! i with Some g => if (i =? 0)%nat then dec g else pad4 g | None => $"0000" end) (replicate n tt)).

Definition pg_numeric_to_text (buf : str) : option str :=
  if (length buf <? 8)%nat then None
  else
    let ndigits := Z.to_nat (word_at buf 0) in
    let weight := to_signed 16 (word_at buf 4) in
    let sign := word_at buf 2 in
    let scale := Z.to_nat (word_at buf 6) in
    if (length buf <? 8 + ndigits * 2)%nat then None
    else if negb (sign =? 16384) && negb (sign =? 0) then None
    else
      let digits := (λ i, word_at buf (8 + i * 2)%nat) <$> seq 0 ndigits in
      let point := if (0 <? scale)%nat then $"." else [] in
      if is_empty digits then Some ($"0" ++ point ++ zeros scale)
      else
        let n := Z.to_nat (weight + 1) in
        let int_part := int_text digits n in
        let frac_part := concat (pad4 <$> drop n digits) in
        let frac_part := take scale (frac_part ++ zeros (scale - length frac_part)) in
        Some ((if sign =? 16384 then $"-" else []) ++ (if is_empty int_part then $"0" else int_part) ++ point ++ frac_part).

(** ** Slots *)

(** The types that matter, and all others by name. *)
Inductive PgType := INT2 | INT4 | INT8 | FLOAT8 | NUMERIC | BOOL | DATE | TIME | TIMESTAMP | VARCHAR | TEXT | BPCHAR | NAME | UNKNOWN | OtherType (n : str).
#[export] Instance PgType_eq_dec : EqDecision PgType.
Proof. solve_decision. Defined.

Inductive PgParamSlot :=
| SNumeric (text : str)
| SNull
| SBool (b : bool)
| SI32 (i : Z)
| SI64 (i : Z)
| SF64 (bits : Z)
| SText (t : str)
| SDate (t : str)
| STimestamp (t : str)
| STime (t : str).

(** [NaiveDate::parse_from_str] and its kin with a format; [NaiveDateTime::date]. *)
Context (chrono_date chrono_datetime chrono_time : str → str → option str) (date_of : str → str).

Fixpoint first_format (parse : str → str → option str) (formats : list str) (s : str) : option str :=
  match formats with [] => None | f :: fs => match parse f s with Some t => Some t | None => first_format parse fs s end end.
Definition parse_pg_param_date (s : str) : option str := chrono_date ($"%Y-%m-%d") s.
Definition parse_pg_param_datetime (s : str) : option str :=
  first_format chrono_datetime [$"%Y-%m-%d %H:%M:%S%.f"; $"%Y-%m-%d %H:%M:%S"; $"%Y-%m-%d %H:%M"] (replace_all 0 ($"T") ($" ") (trim s)).
Definition parse_pg_param_time (s : str) : option str :=
  if contains_char s "-" && negb (contains_char s ":") then None
  else first_format chrono_time [$"%H:%M:%S%.f"; $"%H:%M:%S"; $"%H:%M"] s.

Definition fits_i32 (i : Z) : bool := (- 2 ^ 31 <=? i) && (i <=? 2 ^ 31 - 1).
Definition parse_i32 : str → option Z := parse_signed (2 ^ 31 - 1).
Definition parse_i64 : str → option Z := parse_signed (2 ^ 63 - 1).

Definition classify_pg_string_param (s : str) : PgParamSlot :=
  let t := trim s in
  let number := if negb (contains_char t "-") && negb (contains_char t "+") && negb (contains_char t ".") && negb (contains_char t ":") && negb (is_empty t)
                then match parse_i32 t with Some i => Some (SI32 i) | None => SI64 <$> parse_i64 t end else None in
  match number with
  | Some x => x
  | None =>
      match parse_pg_param_datetime t, parse_pg_param_date t, parse_pg_param_time t with
      | Some ts, _, _ => STimestamp ts
      | None, Some d, _ => SDate d
      | None, None, Some tm => STime tm
      | None, None, None =>
          if eq_ignore_ascii_case t ($"true") || str_eqb t ($"t") then SBool true
          else if eq_ignore_ascii_case t ($"false") || str_eqb t ($"f") then SBool false
          else SText s
      end
  end.

Definition slot_of (v : GatewayValue) : PgParamSlot :=
  match v with
  | Null => SNull
  | Boolean b => SBool b
  | Integer i => if fits_i32 i then SI32 i else SI64 i
  | UnsignedInteger u => if u <=? 2 ^ 31 - 1 then SI32 u else if u <=? 2 ^ 63 - 1 then SI64 u else SText (dec u)
  | Float f => SF64 f
  | Decimal s => SText s
  | VString s => classify_pg_string_param s
  | Bytes b => SText ($"\x" ++ hex_text b)
  end.
Definition from_values (ps : list GatewayValue) : list PgParamSlot := slot_of <$> ps.

Definition to_text_literal (x : PgParamSlot) : str :=
  match x with
  | SNull => []
  | SBool b => if b then $"t" else $"f"
  | SI32 i | SI64 i => dec_signed i
  | SF64 f => f64_to_string f
  | SNumeric t | SText t | SDate t | STimestamp t | STime t => t
  end.

Definition retyped (ty : PgType) (x : PgParamSlot) : PgParamSlot :=
  match x with
  | SI32 i => if decide (ty = INT8) then SI64 i else x
  | SI64 i => if bool_decide (ty = INT4) && fits_i32 i then SI32 i else x
  | SText t =>
      if bool_decide (ty ∈ [INT4; INT8; INT2]) then
        match parse_i64 t with Some v => if bool_decide (ty = INT8) || negb (fits_i32 v) then SI64 v else SI32 v | None => x end
      else if decide (ty = FLOAT8) then match f64_parse t with Some v => SF64 v | None => x end
      else if decide (ty = NUMERIC) then match numeric_to_wire t with Some _ => SNumeric t | None => x end
      else x
  | STimestamp ts => if decide (ty = DATE) then SDate (date_of ts) else x
  | _ => x
  end.
Definition covered (ty : PgType) (x : PgParamSlot) : bool :=
  match x with
  | SNull => true
  | SNumeric _ => bool_decide (ty = NUMERIC)
  | SBool _ => bool_decide (ty = BOOL)
  | SI32 _ => bool_decide (ty = INT4)
  | SI64 _ => bool_decide (ty = INT8)
  | SF64 _ => bool_decide (ty = FLOAT8)
  | SDate _ => bool_decide (ty = DATE)
  | STime _ => bool_decide (ty = TIME)
  | STimestamp _ => bool_decide (ty = TIMESTAMP)
  | SText _ => bool_decide (ty ∈ [VARCHAR; TEXT; BPCHAR; NAME; UNKNOWN])
  end.

(** The slots for the declared types, and the positions that are bound as text. *)
Fixpoint conform_pg_param_slots (slots : list PgParamSlot) (declared : list PgType) (i : nat) : list PgParamSlot * list nat :=
  match slots, declared with
  | x :: slots, ty :: declared =>
      let x := retyped ty x in
      let '(rest, text) := conform_pg_param_slots slots declared (S i) in
      if covered ty x then (x :: rest, text) else (SText (to_text_literal x) :: rest, i :: text)
  | _, _ => (slots, [])
  end.
End Values.

(** ** Rows *)

(** [row.try_get::<Option<T>>]: the value as the source converts it, NUMERIC as its bytes. *)
Inductive PgGet := GetBool | GetI16 | GetI32 | GetI64 | GetF32 | GetF64 | GetNumeric | GetString.
Record PgRow := mkPgRow { row_columns : list (str * str); row_get : nat → PgGet → result str (option GatewayValue) }.

Definition pg_columns (cs : list (str * str)) : list Column := (λ c, mkColumn c.1 c.2) <$> cs.
Definition get_error (i : nat) (ty e : str) : GatewayError := Backend ($"postgresql row get col " ++ dec (Z.of_nat i) ++ $" (" ++ ty ++ $"): " ++ e).

Definition get_as (g : PgGet) (r : PgRow) (i : nat) (ty : str) : GatewayResult GatewayValue :=
  match row_get r i g with Ok v => Ok (default Null v) | Err e => Err (get_error i ty e) end.
Definition get_numeric (r : PgRow) (i : nat) (ty : str) : GatewayResult GatewayValue :=
  match row_get r i GetNumeric with
  | Err e => Err (get_error i ty e)
  | Ok None => Ok Null
  | Ok (Some (Bytes b)) => match pg_numeric_to_text b with Some t => Ok (VString t) | None => Err (get_error i ty ($"malformed numeric")) end
  | Ok (Some v) => Ok v
  end.
Fixpoint get_first (gs : list PgGet) (r : PgRow) (i : nat) (ty : str) : GatewayResult GatewayValue :=
  match gs with
  | [] => Err (get_error i ty ($"unsupported binary type"))
  | g :: gs => match row_get r i g with Ok v => Ok (default Null v) | Err _ => get_first gs r i ty end
  end.
Definition typed_value (r : PgRow) (i : nat) (ty : str) : GatewayResult GatewayValue :=
  if str_eqb ty ($"bool") then get_as GetBool r i ty
  else if str_eqb ty ($"int2") then get_as GetI16 r i ty
  else if str_eqb ty ($"int4") then get_as GetI32 r i ty
  else if str_eqb ty ($"int8") then get_as GetI64 r i ty
  else if str_eqb ty ($"float4") then get_as GetF32 r i ty
  else if str_eqb ty ($"float8") then get_as GetF64 r i ty
  else if str_eqb ty ($"numeric") then get_numeric r i ty
  else get_first [GetString; GetI64; GetI32; GetF64; GetBool] r i ty.
Fixpoint typed_values (r : PgRow) (i : nat) (cs : list (str * str)) : GatewayResult (list GatewayValue) :=
  match cs with [] => Ok [] | c :: cs => v ← typed_value r i c.2; vs ← typed_values r (S i) cs; Ok (v :: vs) end.
Definition typed_row_to_gateway_values (r : PgRow) : GatewayResult (list GatewayValue) := typed_values r 0 (row_columns r).

Fixpoint converted (rows : list PgRow) (max : option Z) (n : Z) : GatewayResult (list (list GatewayValue)) :=
  match rows with
  | [] => Ok []
  | r :: rows =>
      if match max with Some m => m <=? n | None => false end then Ok []
      else v ← typed_row_to_gateway_values r; vs ← converted rows max (n + 1); Ok (v :: vs)
  end.
Definition rows_to_gateway_response (rows : list PgRow) (mode : ExecuteMode) : GatewayResult GatewayResponse :=
  match rows with
  | [] => Ok (ResultSet [] [])
  | r :: _ => vs ← converted rows (effective_max_rows mode) 0; Ok (ResultSet (pg_columns (row_columns r)) vs)
  end.

Inductive SimpleQueryMessage := SqRowDescription (names : list str) | SqRow (names : list str) (values : list (option str)) | SqComplete (count : Z) | SqOther.

Definition text_columns (names : list str) : list Column := (λ n, mkColumn n ($"text")) <$> names.
Definition simple_query_row_to_gateway_values (values : list (option str)) : list GatewayValue :=
  (λ v, match v with Some t => VString t | None => Null end) <$> values.

Fixpoint simple_messages (ms : list SimpleQueryMessage) (max : option Z) (columns : list Column) (rows : list (list GatewayValue)) (affected : Z) : GatewayResponse :=
  match ms with
  | [] => if is_empty columns then ROk affected None else ResultSet columns rows
  | SqRow names values :: ms =>
      if match max with Some m => m <=? Z.of_nat (length rows) | None => false end then simple_messages ms max columns rows affected
      else simple_messages ms max (if is_empty columns then text_columns names else columns) (rows ++ [simple_query_row_to_gateway_values values]) affected
  | SqComplete n :: ms => simple_messages ms max columns rows n
  | _ :: ms => simple_messages ms max columns rows affected
  end.
Definition simple_query_messages_to_gateway_response (ms : list SimpleQueryMessage) (mode : ExecuteMode) : GatewayResponse :=
  simple_messages ms (effective_max_rows mode) [] [] 0.
End PgValues.

Module PgConnector.
Import PgValues.

(** A prepared [Statement]. *)
Record Statement := mkStatement { st_id : nat; st_params : list PgType; st_columns : list (str * str) }.

(** The client of [tokio-postgres]; the texts are those of its errors. *)
Class PgClient (Sv : Type) := {
  pg_connect : EndpointConfig → str → Sv → GatewayResult nat * Sv;
  pg_simple_query : nat → str → Sv → result str (list SimpleQueryMessage) * Sv;
  pg_simple_query_raw : nat → str → Sv → result str (list (result str SimpleQueryMessage)) * Sv;
  pg_prepare : nat → str → option (list PgType) → Sv → result str Statement * Sv;
  pg_query : nat → Statement → list PgParamSlot → Sv → result str (list PgRow) * Sv;
  pg_query_raw : nat → Statement → list PgParamSlot → Sv → result str (list (result str PgRow)) * Sv;
  pg_execute : nat → Statement → list PgParamSlot → Sv → result str Z * Sv
}.

Definition MAX_STMT_CACHE_PER_CONN : nat := 64.
Definition DEFAULT_POSTGRESQL_POOL_SIZE : nat := 16.

Record PgConnection := mkPgConnection {
  pgc_endpoint : EndpointConfig;
  pgc_pool_key : str;
  pgc_database : str;
  pgc_encoding : option str;
  pgc_client : option nat;
  pgc_stmts : gmap str Statement
}.
Definition postgresql_pool_key (e : EndpointConfig) (db : str) : str := e_address e ++ $"|" ++ db.
Definition pg_conn_factory (e : EndpointConfig) (db : str) : PgConnection := mkPgConnection e (postgresql_pool_key e db) db None None ∅.
Definition set_pg_stmts (m : gmap str Statement) (c : PgConnection) : PgConnection :=
  mkPgConnection (pgc_endpoint c) (pgc_pool_key c) (pgc_database c) (pgc_encoding c) (pgc_client c) m.
Definition set_pg_encoding (e : str) (c : PgConnection) : PgConnection :=
  mkPgConnection (pgc_endpoint c) (pgc_pool_key c) (pgc_database c) (Some e) (pgc_client c) (pgc_stmts c).

Abbreviation PgPool := (Pool PgConnection).
Abbreviation PgPoolConn := (PoolConn PgConnection).

(** A task that passes rows on: the messages still to come, and of each the row that it is
    (or the failure to convert it). *)
Abbreviation PgItem := (GatewayResult (option (GatewayResult (list GatewayValue)))).
Record PgProducer := mkPgProducer {
  pp_conn : PgPoolConn;
  pp_items : list PgItem;
  pp_window : Z;
  pp_max : option Z;
  pp_leased : bool
}.

Record PgConn {Sv : Type} := mkPgConn {
  pg_endpoints : list EndpointConfig;
  pg_pool : PgPool;
  pg_lease : option PgPoolConn;
  pg_slots : Slots;
  pg_prepared : PgRegistry;
  pg_tasks : list PgProducer;
  pg_server : Sv
}.
Arguments PgConn : clear implicits.

(** A relay is polled later, by the transport ([pg_drain_relay]). *)
Inductive PgOutcome := PgDone (r : GatewayResponse) | PgWindows (columns : list Column) | PgRelay (st : PgTcpWireStream).

Definition pg_not_open : GatewayError := Backend ($"postgresql backend connection is not open").
Definition pg_error {A} (r : result str A) : GatewayResult A := map_err Backend r.

Definition pg_effective_database (e : EndpointConfig) (s : SessionState) : GatewayResult str :=
  match database s with
  | Some d => Ok d
  | None => match e_database e with Some d => Ok d | None => Err (Configuration ($"postgresql backend connector requires a database to be selected")) end
  end.
Definition postgresql_session_attrs (s : SessionState) : list str :=
  match charset s with Some c => [map_charset_to_postgresql_encoding c] | None => [] end.

Definition pg_register_endpoint_factory (e : EndpointConfig) (db : str) (p : PgPool) : PgPool := set_factory (postgresql_pool_key e db) (pg_conn_factory e db) p.

Section Connector.
Context {Sv : Type} `{PgNet Sv} `{PgMessages} `{PgClient Sv}.
(** A port that does not parse, [{:?}] of a response; floats and dates as in [PgValues]. *)
Context (port_text : str → str) (debug_response : GatewayResponse → str)
  (f64_is_finite : Z → bool) (f64_to_string : Z → str) (f64_parse : str → option Z)
  (chrono_date chrono_datetime chrono_time : str → str → option str) (date_of : str → str).

(** ** Connections *)

Definition with_client {A} (c : PgConnection) (sv : Sv) (f : nat → GatewayResult A * Sv) : GatewayResult A * Sv :=
  match pgc_client c with Some n => f n | None => (Err pg_not_open, sv) end.
Definition pg_conn_simple_query (sql : str) (c : PgConnection) (sv : Sv) : GatewayResult (list SimpleQueryMessage) * Sv :=
  with_client c sv (λ n, let '(r, sv) := pg_simple_query n sql sv in (pg_error r, sv)).

Definition set_client_encoding (e : str) (c : PgConnection) (sv : Sv) : PgConnection * Sv :=
  if bool_decide (pgc_encoding c = Some e) then (c, sv)
  else
    match pg_conn_simple_query (postgresql_client_encoding_statement e) c sv with
    | (Ok _, sv) => (set_pg_encoding e c, sv)
    | (Err _, sv) => (c, sv)
    end.
Fixpoint pg_conn_init (attrs : list str) (c : PgConnection) (sv : Sv) : PgConnection * Sv :=
  match attrs with [] => (c, sv) | e :: attrs => let '(c, sv) := set_client_encoding e c sv in pg_conn_init attrs c sv end.
Definition pg_build_conn (f : PgConnection) (sv : Sv) : GatewayResult PgConnection * Sv :=
  let '(r, sv) := pg_connect (pgc_endpoint f) (pgc_database f) sv in
  (n ← r; Ok (mkPgConnection (pgc_endpoint f) (pgc_pool_key f) (pgc_database f) None (Some n) ∅), sv).

#[local] Instance pg_conn_like : ConnLike PgConnection GatewayError str Sv := {
  build_conn := pg_build_conn;
  ping := λ c sv, let '(r, sv) := pg_conn_simple_query ($"SELECT 1") c sv in (_ ← r; Ok tt, c, sv);
  init_conn := λ c attrs sv, pg_conn_init attrs c sv;
  get_endpoint := pgc_pool_key
}.

(** Prepared once per connection; a full cache is emptied. *)
Definition pg_get_or_prepare (sql : str) (c : PgConnection) (sv : Sv) : GatewayResult Statement * PgConnection * Sv :=
  match pgc_stmts c !! sql with
  | Some st => (Ok st, c, sv)
  | None =>
      match with_client c sv (λ n, let '(r, sv) := pg_prepare n sql None sv in (pg_error r, sv)) with
      | (Err e, sv) => (Err e, c, sv)
      | (Ok st, sv) => (Ok st, set_pg_stmts (<[sql := st]> (if (MAX_STMT_CACHE_PER_CONN <=? size (pgc_stmts c))%nat then ∅ else pgc_stmts c)) c, sv)
      end
  end.

(** The statement and the slots to bind; positions without a slot of the declared type
    are prepared again as text. *)
Definition conformed_param_statement (sql : str) (ps : list GatewayValue) (c : PgConnection) (sv : Sv) : GatewayResult (list PgParamSlot * Statement) * PgConnection * Sv :=
  let '(r, c, sv) := pg_get_or_prepare sql c sv in
  match r with
  | Err e => (Err e, c, sv)
  | Ok st =>
      let '(slots, text) := conform_pg_param_slots f64_to_string f64_parse date_of
        (from_values chrono_date chrono_datetime chrono_time ps) (st_params st) 0 in
      if is_empty text then (Ok (slots, st), c, sv)
      else
        let types := imap (λ i ty, if bool_decide (i ∈ text) then TEXT else ty) (st_params st) in
        let '(r, sv) := with_client c sv (λ n, let '(r, sv) := pg_prepare n sql (Some types) sv in (pg_error r, sv)) in
        (st ← r; Ok (slots, st), c, sv)
  end.

Definition says_no_rows (e : str) : bool := contains e ($"does not return rows") || contains e ($"no field") || contains e ($"statement that returns").
Definition says_stale (e : str) : bool := contains e ($"cached plan") || contains e ($"prepared statement") || contains e ($"does not exist").
Definition executed (n : nat) (st : Statement) (slots : list PgParamSlot) (sv : Sv) : GatewayResult GatewayResponse * Sv :=
  let '(r, sv) := pg_execute n st slots sv in (k ← pg_error r; Ok (ROk k None), sv).

(** Once more when the statement is stale. *)
Fixpoint pg_execute_param (retries : nat) (sql : str) (ps : list GatewayValue) (mode : ExecuteMode) (c : PgConnection) (sv : Sv)
    : GatewayResult GatewayResponse * PgConnection * Sv :=
  let '(r, c, sv) := conformed_param_statement sql ps c sv in
  match r with
  | Err e => (Err e, c, sv)
  | Ok (slots, st) =>
      match pgc_client c with
      | None => (Err pg_not_open, c, sv)
      | Some n =>
          match pg_query n st slots sv with
          | (Ok rows, sv) => (rows_to_gateway_response rows mode, c, sv)
          | (Err e, sv) =>
              if says_no_rows e then let '(r, sv) := executed n st slots sv in (r, c, sv)
              else
                match retries with
                | S retries => if says_stale e then pg_execute_param retries sql ps mode (set_pg_stmts (delete sql (pgc_stmts c)) c) sv else (Err (Backend e), c, sv)
                | O => (Err (Backend e), c, sv)
                end
          end
      end
  end.
Definition pg_execute_param_on_conn : str → list GatewayValue → ExecuteMode → PgConnection → Sv → GatewayResult GatewayResponse * PgConnection * Sv := pg_execute_param 1.

(** ** The connector *)

Abbreviation PConn := (PgConn Sv).
Definition pg_with_pool_size (endpoints : list EndpointConfig) (n : nat) (sv : Sv) : PConn :=
  mkPgConn Sv endpoints
    (foldl (λ p e, match e_database e with Some db => pg_register_endpoint_factory e db p | None => p end) (new_pool n) endpoints)
    None (mkSlots None with_default_cap None) pg_default_registry [] sv.
Definition pg_with_endpoints (endpoints : list EndpointConfig) (sv : Sv) : PConn := pg_with_pool_size endpoints DEFAULT_POSTGRESQL_POOL_SIZE sv.

Definition pg_set_pool (p : PgPool) (c : PConn) : PConn := mkPgConn Sv (pg_endpoints c) p (pg_lease c) (pg_slots c) (pg_prepared c) (pg_tasks c) (pg_server c).
Definition pg_set_lease (l : option PgPoolConn) (c : PConn) : PConn := mkPgConn Sv (pg_endpoints c) (pg_pool c) l (pg_slots c) (pg_prepared c) (pg_tasks c) (pg_server c).
Definition pg_set_slots (sl : Slots) (c : PConn) : PConn := mkPgConn Sv (pg_endpoints c) (pg_pool c) (pg_lease c) sl (pg_prepared c) (pg_tasks c) (pg_server c).
Definition pg_set_prepared (r : PgRegistry) (c : PConn) : PConn := mkPgConn Sv (pg_endpoints c) (pg_pool c) (pg_lease c) (pg_slots c) r (pg_tasks c) (pg_server c).
Definition pg_set_tasks (l : list PgProducer) (c : PConn) : PConn := mkPgConn Sv (pg_endpoints c) (pg_pool c) (pg_lease c) (pg_slots c) (pg_prepared c) l (pg_server c).
Definition pg_set_server (sv : Sv) (c : PConn) : PConn := mkPgConn Sv (pg_endpoints c) (pg_pool c) (pg_lease c) (pg_slots c) (pg_prepared c) (pg_tasks c) sv.

(** Code that changes the connector and the session, and may fail. *)
Definition pst : Type := PConn * SessionState.
Definition pop (A : Type) : Type := pst → fueled (GatewayResult A * pst).
Definition pret {A} (a : A) : pop A := λ x, Some (Ret (Ok a, x)).
Definition pthrow {A} (e : GatewayError) : pop A := λ x, Some (Ret (Err e, x)).
Definition plift {A} (r : GatewayResult A) : pop A := λ x, Some (Ret (r, x)).
Definition pbind {A B} (m : pop A) (k : A → pop B) : pop B := λ x,
  ebind (m x) (λ '(r, x), match r with Ok a => k a x | Err e => Some (Ret (Err e, x)) end).
Definition pmodify (f : PConn → PConn) : pop unit := λ '(c, s), Some (Ret (Ok tt, (f c, s))).
Definition preads {A} (f : PConn → A) : pop A := λ x, Some (Ret (Ok (f x.1), x)).
Definition psession : pop SessionState := λ x, Some (Ret (Ok x.2, x)).
Definition pupdate (f : SessionState → SessionState) : pop unit := λ '(c, s), Some (Ret (Ok tt, (c, f s))).
(** [match … { Ok … Err … }]: the failure as a value. *)
Definition ptry {A} (m : pop A) : pop (GatewayResult A) := λ x, ebind (m x) (λ '(r, x), Some (Ret (Ok r, x))).
#[local] Notation "x <~ m ; k" := (pbind m (λ x, k)) (at level 20, m at level 100, k at level 200, right associativity).
#[local] Notation "' p <~ m ; k" := (pbind m (λ x, match x with p => k end)) (at level 20, p pattern, m at level 100, k at level 200, right associativity).

(** ** Pooled connections and the lease *)

Definition pg_missing_endpoint (name : str) : GatewayError :=
  Configuration ($"postgresql backend connector has no configured endpoint '" ++ name ++ $"'").
Definition pg_select_endpoint : pop EndpointConfig := λ '(c, s),
  Some (Ret (match backend_endpoint s with
             | Some name => ok_or (pg_missing_endpoint name) (List.find (λ e, bool_decide (e_name e = name)) (pg_endpoints c))
             | None => ok_or (Configuration ($"postgresql backend connector has no configured endpoints")) (head (pg_endpoints c))
             end, (c, s))).

Definition pg_parse_endpoint_address (address : str) : GatewayResult (str * Z) :=
  x ← ok_or (Configuration ($"postgresql endpoint address '" ++ address ++ $"' must be host:port")) (MyConnector.rsplit_once ":" address);
  port ← ok_or (Configuration ($"postgresql endpoint address '" ++ address ++ $"' has invalid port: " ++ port_text x.2)) (parse_unsigned 65535 x.2);
  if is_empty x.1 then Err (Configuration ($"postgresql endpoint host must not be empty")) else Ok (x.1, port).

Definition pg_ensure_pool_factory_for_session (e : EndpointConfig) : pop str :=
  _ <~ plift (pg_parse_endpoint_address (e_address e));
  s <~ psession;
  db <~ plift (pg_effective_database e s);
  let key := postgresql_pool_key e db in
  _ <~ pmodify (λ c, if has_factory key (pg_pool c) then c else pg_set_pool (pg_register_endpoint_factory e db (pg_pool c)) c);
  pret key.

Definition pg_acquire_conn (e : EndpointConfig) : pop PgPoolConn :=
  key <~ pg_ensure_pool_factory_for_session e;
  λ '(c, s),
    match get_conn_with_endpoint_session key (postgresql_session_attrs s) (pg_pool c) (pg_server c) with
    | Panic => Some Panic
    | Ret (r, p, sv, _) => Some (Ret (r, (pg_set_server sv (pg_set_pool p c), s)))
    end.

(** A [PoolConn] that goes out of scope. *)
Definition pg_dropped (pc : PgPoolConn) : pop unit := pmodify (λ c, pg_set_pool (drop_conn pc (pg_pool c)) c).
(** [*self.txn_lease.lock() = l]: what was there is dropped. *)
Definition pg_assign_lease (l : option PgPoolConn) (c : PConn) : PConn :=
  pg_set_lease l (match pg_lease c with Some old => pg_set_pool (drop_conn old (pg_pool c)) c | None => c end).
Definition pg_store_lease (pc : PgPoolConn) : pop unit := pmodify (pg_assign_lease (Some pc)).
Definition pg_keep (in_txn : bool) (pc : PgPoolConn) : pop unit := if in_txn then pg_store_lease pc else pg_dropped pc.
Definition pg_take_or_acquire_lease (e : EndpointConfig) : pop PgPoolConn := λ '(c, s),
  match pg_lease c with
  | Some pc => Some (Ret (Ok pc, (pg_set_lease None c, s)))
  | None => pg_acquire_conn e (c, s)
  end.

(** An operation on the connection; its failure is a value. *)
Definition pg_on_conn {A} (op : PgConnection → Sv → GatewayResult A * PgConnection * Sv) (pc : PgPoolConn) : pop (GatewayResult A * PgPoolConn) := λ '(c, s),
  match pc_conn pc with
  | None => Some Panic
  | Some b => let '(r, b, sv) := op b (pg_server c) in Some (Ret (Ok (r, mk_pool_conn (Some b) (pc_generation pc)), (pg_set_server sv c, s)))
  end.
Definition pg_execute_on_conn (sql : str) (mode : ExecuteMode) : PgPoolConn → pop (GatewayResult GatewayResponse * PgPoolConn) :=
  pg_on_conn (λ b sv, let '(r, sv) := pg_conn_simple_query sql b sv in (ms ← r; Ok (simple_query_messages_to_gateway_response ms mode), b, sv)).

Definition pg_active (s : SessionState) : bool := bool_decide (transaction_state s = Active).
Definition pg_has_transaction_lease (c : PConn) : bool := negb (is_none (pg_lease c)).
Definition pg_has_tcp_txn (c : PConn) : bool := negb (is_none (tcp_txn (pg_slots c))).

(** The connection of the transaction, with [BEGIN] if it is new; the answer to
    [BEGIN] when that is not OK. *)
Definition pg_begin_lease (e : EndpointConfig) : pop (GatewayResponse + PgPoolConn) :=
  leased <~ preads pg_has_transaction_lease;
  pc <~ pg_take_or_acquire_lease e;
  if leased : bool then pret (inr pc)
  else
    '(r, pc) <~ pg_execute_on_conn ($"BEGIN") Materialized pc;
    match r with
    | Err err => _ <~ pg_dropped pc; pthrow err
    | Ok r => if MyConnector.is_rok r then pret (inr pc) else _ <~ pg_store_lease pc; pret (inl r)
    end.
Definition pg_conn_for (in_txn : bool) (e : EndpointConfig) : pop (GatewayResponse + PgPoolConn) :=
  if in_txn then pg_begin_lease e else pc <~ pg_acquire_conn e; pret (inr pc).

Definition pg_execute_simple_query (e : EndpointConfig) (sql : str) (mode : ExecuteMode) : pop GatewayResponse :=
  s <~ psession;
  x <~ pg_conn_for (pg_active s) e;
  match x with
  | inl begin => pret begin
  | inr pc => '(r, pc) <~ pg_execute_on_conn sql mode pc; _ <~ pg_keep (pg_active s) pc; plift r
  end.

(** ** The frame relay *)

Definition tcp_io {A} (f : Sv → GatewayResult A * Sv) : pop A := λ '(c, s),
  let '(r, sv) := f (pg_server c) in Some (Ret (r, (pg_set_server sv c, s))).
Definition tcp_io_fuel {A} (f : Sv → option (GatewayResult A * Sv)) : pop A := λ '(c, s),
  match f (pg_server c) with None => None | Some (r, sv) => Some (Ret (r, (pg_set_server sv c, s))) end.

Definition pg_idle_session (e : EndpointConfig) (db : str) : pop PgTcpSession := λ '(c, s),
  match take_or_connect e db (tcp_idle (pg_slots c)) (pg_server c) with
  | None => None
  | Some (r, p, sv) => Some (Ret (r, (pg_set_server sv (pg_set_slots (set_idle_pool p (pg_slots c)) c), s)))
  end.
(** [true] if the session is new. *)
Definition take_or_open_tcp_txn (e : EndpointConfig) : pop (PgTcpSession * bool) := λ '(c, s),
  match tcp_txn (pg_slots c) with
  | Some t => Some (Ret (Ok (t, false), (pg_set_slots (set_txn None (pg_slots c)) c, s)))
  | None => (db <~ plift (pg_effective_database e s); t <~ tcp_io (dial e db); pret (t, true)) (c, s)
  end.
Definition set_tcp_txn (o : option PgTcpSession) : pop unit := pmodify (λ c, pg_set_slots (set_txn o (pg_slots c)) c).

Definition is_e_frame (p : str) : bool := bool_decide (head p = Some "E"%char).
(** The session of the transaction, with [BEGIN] if it is new; the answer to [BEGIN]
    when that has an error (the session is dropped then). *)
Definition begin_tcp (e : EndpointConfig) : pop (list str + PgTcpSession) :=
  '(t, is_new) <~ take_or_open_tcp_txn e;
  if is_new : bool then
    '(t, packets) <~ tcp_io_fuel (simple_query_collect_reuse ($"BEGIN") t);
    pret (if existsb is_e_frame packets then inl packets else inr t)
  else pret (inr t).

(** A relay is polled to its end, [n] packets at a time, and dropped. *)
Definition pg_drain_relay (n : nat) (st : PgTcpWireStream) : pop WireRelay := λ '(c, s),
  match drain (drain_fuel st) n (instant (pg_server c)) st (pg_slots c) with
  | None => None
  | Some (batches, sl) => Some (Ret (Ok batches, (pg_set_slots sl c, s)))
  end.

Definition execute_simple_query_tcp_relay (e : EndpointConfig) (sql : str) : pop PgTcpWireStream :=
  s <~ psession;
  db <~ plift (pg_effective_database e s);
  t <~ pg_idle_session e db;
  tcp_io (simple_query_relay_into sql (ReturnIdleOrTxn (idle_pool_key e db)) t).
Definition execute_simple_query_tcp_relay_collect (e : EndpointConfig) (sql : str) : pop GatewayResponse :=
  st <~ execute_simple_query_tcp_relay e sql;
  batches <~ pg_drain_relay 64 st;
  packets <~ plift (collect batches);
  pret (Wire packets).

Definition execute_simple_query_tcp_relay_txn_collect (e : EndpointConfig) (sql : str) : pop GatewayResponse :=
  x <~ begin_tcp e;
  match x with
  | inl packets => pret (Wire packets)
  | inr t => '(t, packets) <~ tcp_io_fuel (simple_query_collect_reuse sql t); _ <~ set_tcp_txn (Some t); pret (Wire packets)
  end.
Definition execute_simple_query_tcp_relay_txn (e : EndpointConfig) (sql : str) : pop PgOutcome :=
  x <~ begin_tcp e;
  match x with
  | inl packets => pret (PgDone (Wire packets))
  | inr t => st <~ tcp_io (simple_query_relay_into sql ReturnTxn t); pret (PgRelay st)
  end.

Definition execute_simple_query_wire (e : EndpointConfig) (sql : str) : pop GatewayResponse :=
  s <~ psession;
  in_txn <~ preads (λ c, pg_active s || pg_has_tcp_txn c || pg_has_transaction_lease c);
  if in_txn : bool then execute_simple_query_tcp_relay_txn_collect e sql else execute_simple_query_tcp_relay_collect e sql.

Definition execute_extended_text_bind_tcp_relay (e : EndpointConfig) (sql : str) (ps : list GatewayValue) (in_txn : bool) : pop PgOutcome :=
  let params := gateway_values_to_pg_text_params f64_is_finite f64_to_string ps in
  s <~ psession;
  db <~ plift (pg_effective_database e s);
  if in_txn then
    x <~ begin_tcp e;
    match x with
    | inl packets => pret (PgDone (Wire packets))
    | inr t => st <~ tcp_io (extended_text_bind_relay_into sql params ReturnTxn t); pret (PgRelay st)
    end
  else
    t <~ pg_idle_session e db;
    st <~ tcp_io (extended_text_bind_relay_into sql params (ReturnIdle (idle_pool_key e db)) t);
    pret (PgRelay st).

(** [mem::take(&mut session.pg_client_extended_frames)], and what is put back. *)
Definition set_frames (l : list str) : pop unit := pupdate (λ s, with_frames l (pg_ext_tcp_hold s) s).
Definition set_held (b : bool) : pop unit := pupdate (λ s, with_frames (pg_client_extended_frames s) b s).
Definition take_hold (missing : string) : pop PgTcpSession := λ '(c, s),
  match tcp_ext_hold (pg_slots c) with
  | Some t => Some (Ret (Ok t, (pg_set_slots (set_hold None (pg_slots c)) c, s)))
  | None => Some (Ret (Err (Backend ($missing)), (c, s)))
  end.

Definition open_unit_session (e : EndpointConfig) (db : str) (in_txn : bool) : pop PgTcpSession :=
  if in_txn then
    x <~ begin_tcp e;
    match x with inl _ => pthrow (Backend ($"pg client-frame relay: BEGIN failed")) | inr t => pret t end
  else pg_idle_session e db.

Definition execute_client_extended_frames_tcp_relay (e : EndpointConfig) (in_txn : bool) : pop PgOutcome :=
  s <~ psession;
  let frames := pg_client_extended_frames s in
  if is_empty frames then pthrow (Backend ($"pg client extended frames empty"))
  else
    _ <~ set_frames [];
    if forallb is_e_frame frames && pg_ext_tcp_hold s then
      t <~ take_hold "pg ext hold session missing";
      st <~ tcp_io (client_execute_relay_hold_into frames ReturnHold t);
      _ <~ set_held true;
      pret (PgRelay st)
    else
      db <~ plift (pg_effective_database e s);
      r <~ ptry (open_unit_session e db in_txn);
      match r with
      | Err err => _ <~ set_frames frames; pthrow err
      | Ok t =>
          r <~ ptry (tcp_io (client_frames_relay_hold_into frames ReturnHold t));
          match r with
          | Ok st => _ <~ set_held true; pret (PgRelay st)
          | Err err => _ <~ set_frames frames; _ <~ set_held false; pthrow err
          end
      end.

Definition execute_pg_backend_sync : pop PgOutcome :=
  t <~ take_hold "pg backend sync: no held extended TCP session";
  _ <~ set_held false;
  _ <~ set_frames [];
  st <~ tcp_io (client_sync_relay_into ReturnTxn t);
  pret (PgRelay st).

(** ** Parameters *)

Definition pg_check_arity (sql : str) (ps : list GatewayValue) : pop unit :=
  let need := count_pg_placeholders sql in if need =? Z.of_nat (length ps) then pret tt else pthrow (pg_arity_error need ps).

Definition pg_execute_param_query (e : EndpointConfig) (sql : str) (ps : list GatewayValue) (mode : ExecuteMode) : pop GatewayResponse :=
  _ <~ pg_check_arity sql ps;
  if is_empty ps then
    match mode with Passthrough => execute_simple_query_wire e sql | _ => pg_execute_simple_query e sql mode end
  else
    s <~ psession;
    in_txn <~ preads (λ c, pg_active s || pg_has_transaction_lease c);
    x <~ pg_conn_for in_txn e;
    match x with
    | inl begin => pret begin
    | inr pc => '(r, pc) <~ pg_on_conn (pg_execute_param_on_conn sql ps mode) pc; _ <~ pg_keep in_txn pc; plift r
    end.

(** ** Streaming *)

Definition pg_window_of (mode : ExecuteMode) : Z := Z.max 1 (default 256 (mode_window_rows mode)).

(** What a statement starts with: a whole answer, or columns and the messages that follow. *)
Abbreviation PgStart := (GatewayResponse + list Column * list PgItem)%type.

Definition message_item (m : result str SimpleQueryMessage) : PgItem :=
  match m with
  | Err e => Err (Backend e)
  | Ok (SqRow _ values) => Ok (Some (Ok (simple_query_row_to_gateway_values values)))
  | Ok _ => Ok None
  end.
Fixpoint raw_start (ms : list (result str SimpleQueryMessage)) : GatewayResult PgStart :=
  match ms with
  | [] => Ok (inl (ROk 0 None))
  | Err e :: _ => Err (Backend e)
  | Ok (SqRowDescription names) :: ms => Ok (inr (text_columns names, message_item <$> ms))
  | Ok (SqComplete n) :: _ => Ok (inl (ROk n None))
  | Ok (SqRow _ _) :: _ => Err (Protocol ($"postgresql simple_query_raw delivered DataRow before RowDescription"))
  | Ok SqOther :: ms => raw_start ms
  end.
Definition open_raw (sql : str) (b : PgConnection) (sv : Sv) : GatewayResult (list (result str SimpleQueryMessage)) * PgConnection * Sv :=
  let '(r, sv) := with_client b sv (λ n, let '(r, sv) := pg_simple_query_raw n sql sv in (pg_error r, sv)) in (r, b, sv).

(** The rows are left to a task; a whole answer gives the connection back. *)
Definition pg_started (mode : ExecuteMode) (in_txn : bool) (r : GatewayResult PgStart) (pc : PgPoolConn) : pop PgOutcome :=
  match r with
  | Err err => _ <~ pg_keep in_txn pc; pthrow err
  | Ok (inl response) => _ <~ pg_keep in_txn pc; pret (PgDone response)
  | Ok (inr (columns, items)) =>
      _ <~ pmodify (λ c, pg_set_tasks (pg_tasks c ++ [mkPgProducer pc items (pg_window_of mode) (effective_max_rows mode) in_txn]) c);
      pret (PgWindows columns)
  end.

Definition pg_execute_simple_query_streaming (e : EndpointConfig) (sql : str) (mode : ExecuteMode) (in_txn : bool) : pop PgOutcome :=
  x <~ pg_conn_for in_txn e;
  match x with
  | inl begin => pret (PgDone begin)
  | inr pc =>
      '(r, pc) <~ pg_on_conn (open_raw sql) pc;
      match r with
      | Err err => _ <~ pg_dropped pc; pthrow err
      | Ok ms => pg_started mode in_txn (raw_start ms) pc
      end
  end.

(** The first row tells the columns. *)
Definition row_item (m : result str PgRow) : PgItem :=
  match m with Err e => Err (Backend e) | Ok row => Ok (Some (typed_row_to_gateway_values row)) end.
Definition rows_start (ms : list (result str PgRow)) : GatewayResult PgStart :=
  match ms with
  | [] => Ok (inl (ResultSet [] []))
  | Err e :: _ => Err (Backend e)
  | Ok row :: _ => _ ← typed_row_to_gateway_values row; Ok (inr (pg_columns (row_columns row), row_item <$> ms))
  end.
Definition open_rows (sql : str) (ps : list GatewayValue) (b : PgConnection) (sv : Sv) : GatewayResult PgStart * PgConnection * Sv :=
  let '(r, b, sv) := conformed_param_statement sql ps b sv in
  match r with
  | Err e => (Err e, b, sv)
  | Ok (slots, st) =>
      match pgc_client b with
      | None => (Err pg_not_open, b, sv)
      | Some n =>
          if is_empty (st_columns st) then let '(r, sv) := executed n st slots sv in (inl <$> r, b, sv)
          else
            match pg_query_raw n st slots sv with
            | (Ok ms, sv) => (rows_start ms, b, sv)
            | (Err e, sv) => if says_no_rows e then let '(r, sv) := executed n st slots sv in (inl <$> r, b, sv) else (Err (Backend e), b, sv)
            end
      end
  end.

Definition pg_execute_param_query_streaming (e : EndpointConfig) (sql : str) (ps : list GatewayValue) (mode : ExecuteMode) (in_txn : bool) : pop PgOutcome :=
  _ <~ pg_check_arity sql ps;
  if is_empty ps then pg_execute_simple_query_streaming e sql mode in_txn
  else
    x <~ pg_conn_for in_txn e;
    match x with
    | inl begin => pret (PgDone begin)
    | inr pc => '(r, pc) <~ pg_on_conn (open_rows sql ps) pc; pg_started mode in_txn r pc
    end.

(** The windows that a task sends; [room] as in [MyConn.row_loop].  A failure loses the
    rows of the window that is not full. *)
Fixpoint produce (max : option Z) (window : Z) (room : option nat) (items : list PgItem) (total : Z) (truncated : bool) (buf : list Row) : list (list Row) :=
  match items with
  | [] => if is_empty buf || bool_decide (room = Some O) then [] else [buf]
  | Err _ :: _ => []
  | Ok None :: items => produce max window room items total truncated buf
  | Ok (Some row) :: items =>
      if truncated || match max with Some m => m <=? total | None => false end then produce max window room items total true buf
      else
        match row with
        | Err _ => []
        | Ok row =>
            let buf := buf ++ [row] in
            if window <=? Z.of_nat (length buf)
            then if decide (room = Some O) then [] else buf :: produce max window (pred <$> room) items (total + 1) false []
            else produce max window room items (total + 1) false buf
        end
  end.
(** The task of the [i]-th result runs; the connection goes back whatever happened. *)
Definition pg_settle (i : nat) (room : option nat) : pop (list (list Row)) := λ '(c, s),
  match pg_tasks c !! i with
  | None => Some (Ret (Ok [], (c, s)))
  | Some t =>
      (_ <~ pg_keep (pp_leased t) (pp_conn t); pret (produce (pp_max t) (pp_window t) room (pp_items t) 0 false []))
        (pg_set_tasks (delete i (pg_tasks c)) c, s)
  end.

(** ** Transactions *)

Definition pg_control_result (sql : str) (r : GatewayResult GatewayResponse) : GatewayResult GatewayResponse :=
  match r with
  | Ok (ROk _ _) => Ok (CommandComplete sql)
  | Ok (ResultSet columns rows) => Ok (ResultSet columns rows)
  | Ok (RError code message) => Err (Backend ($"postgresql " ++ code ++ $": " ++ message))
  | Ok other => Err (Backend ($"postgresql control statement unexpected response " ++ debug_response other))
  | Err e => Err e
  end.
Definition pg_finish_transaction (sql : str) : pop GatewayResponse := λ '(c, s),
  match tcp_txn (pg_slots c) with
  | Some t =>
      ('(_, packets) <~ tcp_io_fuel (simple_query_collect_reuse sql t); _ <~ pmodify (pg_assign_lease None); pret (Wire packets))
        (pg_set_slots (set_txn None (pg_slots c)) c, s)
  | None =>
      match pg_lease c with
      | None => Some (Ret (Ok (CommandComplete sql), (c, s)))
      | Some pc => ('(r, pc) <~ pg_execute_on_conn sql Materialized pc; _ <~ pg_dropped pc; plift (pg_control_result sql r)) (pg_set_lease None c, s)
      end
  end.

Definition pg_check_session_health : pop unit := λ '(c, s),
  match pg_lease c with
  | None => Some (Ret (Ok tt, (c, s)))
  | Some pc =>
      ('(r, pc) <~ pg_on_conn (λ b sv, let '(r, sv) := pg_conn_simple_query ($"SELECT 1") b sv in (r, b, sv)) pc;
       match r with
       | Ok _ => pg_store_lease pc
       | Err e => _ <~ pg_dropped pc; pthrow (Backend ($"postgresql transaction connection is closed: " ++ PdpStore.error_to_string e))
       end) (pg_set_lease None c, s)
  end.

(** ** Commands *)

(** The SQL of a statement, its parameters counted, and the endpoint. *)
Definition pg_registered (sid : str) (ps : list GatewayValue) : pop (EndpointConfig * str) :=
  sql <~ preads (λ c, pg_take_sql sid (pg_prepared c));
  match sql with
  | None => pthrow (Backend ($"unknown postgresql prepared statement id '" ++ sid ++ $"'"))
  | Some sql => _ <~ pg_check_arity sql ps; e <~ pg_select_endpoint; pret (e, sql)
  end.

Definition pg_describe_sql (e : EndpointConfig) (sql : str) : pop GatewayResponse :=
  s <~ psession;
  in_txn <~ preads (λ c, pg_active s || pg_has_transaction_lease c);
  pc <~ (if in_txn : bool then pg_take_or_acquire_lease e else pg_acquire_conn e);
  '(r, pc) <~ pg_on_conn (pg_get_or_prepare sql) pc;
  _ <~ pg_keep in_txn pc;
  plift (st ← r; Ok (RowDescription (pg_columns (st_columns st)))).

Definition pg_execute_with_mode (command : GatewayCommand) (mode : ExecuteMode) : pop GatewayResponse :=
  match command with
  | Ping => pret Pong
  | Quit =>
      _ <~ pmodify (pg_assign_lease None); _ <~ set_tcp_txn None;
      _ <~ pmodify (λ c, pg_set_prepared (pg_registry_clear (pg_prepared c)) c); pret Bye
  | UseDatabase db => _ <~ pupdate (MyConnector.with_database (Some db)); pret (ROk 0 None)
  | Begin => _ <~ pupdate (with_transaction Active); pret (CommandComplete ($"BEGIN"))
  | Commit => r <~ pg_finish_transaction ($"COMMIT"); _ <~ pupdate (with_transaction Idle); pret r
  | Rollback => r <~ pg_finish_transaction ($"ROLLBACK"); _ <~ pupdate (with_transaction Idle); pret r
  | Query sql =>
      e <~ pg_select_endpoint;
      match mode with Passthrough => execute_simple_query_wire e sql | _ => pg_execute_simple_query e sql mode end
  | QueryParams sql ps => e <~ pg_select_endpoint; pg_execute_param_query e sql ps mode
  | Prepare sql =>
      x <~ preads (λ c, pg_registry_prepare sql (pg_prepared c));
      _ <~ pmodify (pg_set_prepared x.2);
      pret (Prepared x.1.1 x.1.2 [])
  | Execute sid ps => '(e, sql) <~ pg_registered sid ps; pg_execute_param_query e sql ps mode
  | CloseStatement sid => _ <~ pmodify (λ c, pg_set_prepared (pg_registry_close sid (pg_prepared c)) c); pret (ROk 0 None)
  | DescribeSql sql => e <~ pg_select_endpoint; pg_describe_sql e sql
  | ClientWire packets => pret (Wire packets)
  | PgBackendSync => pthrow (Unsupported ($"use execute_outcome for PgBackendSync"))
  end.

Definition is_passthrough (mode : ExecuteMode) : bool := match mode with Passthrough => true | _ => false end.

(** A relay of the client's own frames, when the frontend kept them. *)
Definition relay_frames (in_txn : bool) : pop (option PgOutcome) :=
  s <~ psession;
  if is_empty (pg_client_extended_frames s) then pret None
  else
    e <~ pg_select_endpoint;
    r <~ ptry (execute_client_extended_frames_tcp_relay e in_txn);
    pret (match r with Ok o => Some o | Err _ => None end).
(** A relay of the statement with its parameters in text. *)
Definition relay_params (command : GatewayCommand) (in_txn : bool) : pop (option PgOutcome) :=
  x <~ preads (λ c, match command with
                    | QueryParams sql ps => Some (sql, ps)
                    | Execute sid ps => (λ sql, (sql, ps)) <$> pg_take_sql sid (pg_prepared c)
                    | _ => None
                    end);
  match x with
  | None => pret None
  | Some (sql, ps) =>
      e <~ pg_select_endpoint;
      r <~ ptry (execute_extended_text_bind_tcp_relay e sql ps in_txn);
      pret (match r with Ok o => Some o | Err _ => None end)
  end.

(** Rows in windows, or the whole answer. *)
Definition stream_or_whole (command : GatewayCommand) (mode : ExecuteMode) (in_txn : bool) : pop PgOutcome :=
  let whole := (r <~ pg_execute_with_mode command mode; pret (PgDone r)) in
  if MyConnector.is_streaming mode then
    match command with
    | Query sql => e <~ pg_select_endpoint; pg_execute_simple_query_streaming e sql mode in_txn
    | QueryParams sql ps => e <~ pg_select_endpoint; pg_execute_param_query_streaming e sql ps mode in_txn
    | Execute sid ps => '(e, sql) <~ pg_registered sid ps; pg_execute_param_query_streaming e sql ps mode in_txn
    | _ => whole
    end
  else whole.

Definition pg_execute_outcome (command : GatewayCommand) (mode : ExecuteMode) : pop PgOutcome :=
  match command with
  | PgBackendSync => execute_pg_backend_sync
  | _ =>
      let mode := if MyConnector.returns_rows command then promote_row_stream mode else mode in
      s <~ psession;
      in_txn <~ preads (λ c, pg_active s || pg_has_transaction_lease c || pg_has_tcp_txn c);
      if is_passthrough mode && MyConnector.returns_rows command then
        match command, pg_client_extended_frames s with
        | Query sql, [] =>
            e <~ pg_select_endpoint;
            if in_txn : bool then execute_simple_query_tcp_relay_txn e sql else st <~ execute_simple_query_tcp_relay e sql; pret (PgRelay st)
        | _, _ =>
            o <~ relay_frames in_txn;
            match o with
            | Some o => pret o
            | None =>
                o <~ relay_params command in_txn;
                match o with
                | Some o => pret o
                | None =>
                    let mode := if MyConnector.has_parameters command then from_streaming_config 256 (effective_max_rows mode) else mode in
                    stream_or_whole command mode in_txn
                end
            end
        end
      else stream_or_whole command mode in_txn
  end.
End Connector.
End PgConnector.
