(* ===== verification/PgBackendTheorems.v ===== *)
(** * The PostgreSQL backend: theorems and runs

    [PgRelayTheorems]: a relay passes on the frames of a unit however they are cut into
    chunks and batches, and gives the session back with what follows the unit; sessions of
    the idle pool are fresh, and few.  [PgBackendTheorems]: parameters are bound with the
    declared type or as text, the end of a transaction, and what a relay of the client's
    frames depends on.  [GatewayBackends]: both backends, as the engine sees them, answer a
    statement with rows when they are told to stream.  [PgBackendRuns]: concrete runs. *)

From S2P Require Import ConnPool.
From S2P Require Import Prelude RustStr Model Session DangerousSql TimeRules StateCrypto Ticket TicketTheorems Obligations ObjectSet Security Pdp Authorize AuthorizeTheorems LoadBalance Route Plugin Transport PgFrontend PgFrontendTheorems RuntimePlan Cursor PdpStore Engine EngineTheorems EngineRuns PgSession PgSessionRuns.
From S2P Require Import GatewayConfig PgProtocol PgText MyClient MyConn MyConnector MyConnectorTheorems PgTcp PgBackend.
Import PgTcp.

Module PgRelayTheorems.

(** ** Frames *)

(** A tag, a length that counts itself, and the body. *)
Definition whole_frame (f : str) : Prop := (5 ≤ length f)%nat ∧ be_unsigned (take 4 (drop 1 f)) = Z.of_nat (length f) - 1.

Lemma prefix_length f rest : whole_frame f → take 4 (drop 1 (f ++ rest)) = take 4 (drop 1 f).
Proof. intros [L _]. rewrite drop_app_le by lia. apply take_app_le. rewrite length_drop. lia. Qed.

Lemma split_whole f rest : whole_frame f → try_split_frame (f ++ rest) = Ok (Some (f, rest)).
Proof.
  intros F. pose proof F as [L B]. unfold try_split_frame. rewrite (prefix_length f rest F), B, length_app.
  replace (length f + length rest <? 5)%nat with false by (symmetry; apply Nat.ltb_ge; lia).
  replace (Z.of_nat (length f) - 1 <? 4) with false by lia.
  replace (S (Z.to_nat (Z.of_nat (length f) - 1))) with (length f) by lia.
  replace (length f + length rest <? length f)%nat with false by (symmetry; apply Nat.ltb_ge; lia).
  by rewrite take_app_length, drop_app_length.
Qed.

Lemma split_part b more : whole_frame (b ++ more) → more ≠ [] → try_split_frame b = Ok None.
Proof.
  intros [L B] M. assert (0 < length more)%nat by (destruct more; [done|cbn; lia]). unfold try_split_frame.
  destruct (length b <? 5)%nat eqn:E; [done|]. apply Nat.ltb_ge in E.
  rewrite length_app in B, L. rewrite drop_app_le in B by lia. rewrite take_app_le in B by (rewrite length_drop; lia). rewrite B.
  destruct (Z.ltb_spec (Z.of_nat (length b + length more) - 1) 4) as [N|N]; [lia|].
  destruct (Nat.ltb_spec (length b) (S (Z.to_nat (Z.of_nat (length b + length more) - 1)))); [done|lia].
Qed.

(** The bytes of a session that were not passed on yet. *)
Definition unread (s : PgTcpSession) : str := read_buf s ++ concat (tcp_chunks s).
(** An empty chunk would be the end. *)
Definition live (s : PgTcpSession) : Prop := Forall (λ c, c ≠ []) (tcp_chunks s).

Lemma next_frame_whole f tail chunks : ∀ buf,
  whole_frame f → Forall (λ c, c ≠ []) chunks → buf ++ concat chunks = f ++ tail →
  ∃ chunks' buf', next_frame chunks buf = (Ok (Some f), chunks', buf') ∧ buf' ++ concat chunks' = tail ∧ Forall (λ c, c ≠ []) chunks'.
Proof.
  induction chunks as [|c chunks IH]; intros buf F NE E.
  - cbn [concat] in E. rewrite app_nil_r in E. subst buf. cbn [next_frame]. rewrite (split_whole f tail F).
    exists [], tail. by rewrite app_nil_r.
  - destruct (decide (length f ≤ length buf)%nat) as [L|L].
    + apply app_eq_inv in E as [(k & E1 & E2)|(k & E1 & E2)].
      * subst buf. cbn [next_frame]. rewrite (split_whole f k F). exists (c :: chunks), k. auto.
      * subst f. rewrite length_app in L. assert (k = []) as -> by (apply length_zero_iff_nil; lia).
        rewrite app_nil_r in *. cbn [app] in E2. subst tail. cbn [next_frame].
        pose proof (split_whole buf [] F) as S. rewrite app_nil_r in S. rewrite S. exists (c :: chunks), []. auto.
    + apply app_eq_inv in E as [(k & E1 & E2)|(k & E1 & E2)]; [subst buf; rewrite length_app in L; lia|].
      assert (k ≠ []) by (intros ->; subst f; rewrite app_nil_r in L; lia).
      apply list.Forall_cons in NE as [NC NE]. cbn [next_frame]. subst f. rewrite (split_part buf k) by done.
      destruct (is_empty c) eqn:Ec; [by destruct c|]. apply IH; [done..|]. rewrite <-!(assoc_L (++)). f_equal. exact E2.
Qed.

Lemma next_raw_whole f tail s :
  whole_frame f → live s → unread s = f ++ tail →
  ∃ s', next_raw_frame s = (Ok (Some f), s') ∧ unread s' = tail ∧ live s' ∧ tcp_link s' = tcp_link s.
Proof.
  intros F L E. destruct (next_frame_whole f tail (tcp_chunks s) (read_buf s) F L E) as (cs & b & E1 & E2 & E3).
  exists (mkTcp (tcp_link s) cs b). unfold next_raw_frame. rewrite E1. auto.
Qed.

(** ** Units *)

(** [ReadyForQuery]; in a unit that is held open also [CommandComplete], [PortalSuspended]
    and [ErrorResponse]. *)
Definition closing (stop : bool) (f : str) : bool :=
  bool_decide (head f = Some "Z"%char) || stop && bool_decide (head f ∈ [Some "C"%char; Some "s"%char; Some "E"%char]).
(** Frames of which the last one, and no other, ends the unit. *)
Fixpoint is_unit (stop : bool) (frames : list str) : bool :=
  match frames with
  | [] => false
  | [f] => closing stop f
  | f :: fs => negb (closing stop f) && is_unit stop fs
  end.
Lemma closing_ends stop f : closing stop f = ends_unit stop f.
Proof.
  unfold closing, ends_unit. destruct (head f) as [c|]; [|by destruct stop].
  f_equal; [|f_equal]; apply eq_bool_prop_intro; rewrite bool_decide_spec, ?orb_True, !Is_true_true, !Ascii.eqb_eq; set_solver.
Qed.
(** The status that the frames leave. *)
Definition status_after (frames : list str) (old : option ascii) : option ascii := foldl (λ o f, ready_of f o) old frames.

(** [s] in the place of the stream's session. *)
Definition reading (s : PgTcpSession) (done : bool) (ready : option ascii) (st : PgTcpWireStream) : PgTcpWireStream :=
  mkStream (Some s) (return_to st) done (stop_before_ready st) ready.

Definition filled (n : nat) (now : Z) (s : PgTcpSession) (frames batch : list str) (st : PgTcpWireStream) (sl : Slots)
    : GatewayResult (list str) * PgTcpWireStream * Slots :=
  if (length frames <=? n)%nat
  then let '(st, sl) := finish_session now (reading s true (status_after frames (ws_ready st)) st) sl in (Ok (batch ++ frames), st, sl)
  else (Ok (batch ++ take n frames), reading s (ws_done st) (status_after (take n frames) (ws_ready st)) st, sl).

Lemma fill_unit now rest frames : ∀ n s batch st sl,
  Forall whole_frame frames → is_unit (stop_before_ready st) frames = true → live s → unread s = concat frames ++ rest →
  ∃ s', live s' ∧ unread s' = concat (drop n frames) ++ rest ∧ tcp_link s' = tcp_link s ∧
    fill n now s batch st sl = filled n now s' frames batch st sl.
Proof.
  induction frames as [|f fs IH]; intros n s batch st sl F U L E; [done|].
  apply list.Forall_cons in F as [Ff Fs]. destruct n as [|n].
  { exists s. split_and!; [done..|]. cbn [fill]. unfold filled. cbn [length Nat.leb take status_after foldl]. by rewrite app_nil_r. }
  cbn [concat] in E. rewrite <-(assoc_L (++)) in E. destruct (next_raw_whole f _ s Ff L E) as (s1 & E1 & E2 & L1 & K1).
  cbn [fill]. rewrite E1. destruct fs as [|g gs].
  - exists s1. cbn [is_unit] in U. rewrite closing_ends in U. rewrite U. cbn [drop concat] in *. split_and!; [done|by rewrite drop_nil|done|]. unfold filled. reflexivity.
  - cbn [is_unit] in U. apply andb_true_iff in U as [N%negb_true_iff U]. rewrite closing_ends in N. rewrite N.
    destruct (IH n s1 (batch ++ [f]) (reading s1 (ws_done st) (ready_of f (ws_ready st)) st) sl Fs U L1 E2) as (s2 & L2 & E3 & K2 & E4).
    exists s2. split_and!; [done..|congruence|]. etransitivity; [exact E4|]. unfold filled, reading. cbn [return_to ws_done ws_ready stop_before_ready].
    change (length (f :: g :: gs) <=? S n)%nat with (length (g :: gs) <=? n)%nat. by rewrite <-!(assoc_L (++)).
Qed.

(** ** A relay passes on its unit *)

Lemma unit_drop stop frames : ∀ n, (n < length frames)%nat → is_unit stop frames = true → is_unit stop (drop n frames) = true.
Proof.
  induction frames as [|f fs IH]; intros [|n] L U; cbn [length drop] in *; [lia..|done|]. destruct fs as [|g gs]; [cbn in L; lia|].
  cbn [is_unit] in U. apply andb_true_iff in U as [_ U]. apply IH; [lia|done].
Qed.
Lemma status_app l1 l2 old : status_after (l1 ++ l2) old = status_after l2 (status_after l1 old).
Proof. apply foldl_app. Qed.

Lemma drain_unit n now rest fuel : ∀ frames st s sl,
  (S (length frames) ≤ fuel)%nat → ws_session st = Some s → ws_done st = false →
  Forall whole_frame frames → is_unit (stop_before_ready st) frames = true → live s → unread s = concat frames ++ rest →
  ∃ batches s', drain fuel n now st sl = Some (batches, drop_stream now (reading s' true (status_after frames (ws_ready st)) st) sl)
    ∧ collect batches = Ok frames ∧ unread s' = rest ∧ live s' ∧ tcp_link s' = tcp_link s.
Proof.
  induction fuel as [|fuel IH]; intros frames st s sl Fu S D F U L E; [lia|]. cbn [drain]. unfold poll_packets. rewrite D, S.
  set (k := Nat.max n 1). destruct (fill_unit now rest frames k s [] st sl F U L E) as (s1 & L1 & E1 & K1 & ->). unfold filled.
  assert (0 < length frames)%nat by (destruct frames; [done|cbn; lia]).
  destruct (Nat.leb_spec (length frames) k) as [Le|Gt].
  - destruct (finish_session now (reading s1 true (status_after frames (ws_ready st)) st) sl) as [st2 sl2] eqn:Ef.
    assert (ws_session st2 = None ∧ ws_done st2 = true) as [N2 D2] by (unfold finish_session, reading in Ef; cbn [ws_session] in Ef; by injection Ef as <- <-).
    cbn [app]. destruct (is_empty frames) eqn:Ee; [by destruct frames; cbn in *; [lia|]|]. destruct fuel as [|fuel]; [lia|]. cbn [drain]. unfold poll_packets. rewrite D2.
    exists [Ok frames], s1. unfold drop_stream at 2. rewrite Ef. unfold drop_stream, finish_session at 1. rewrite N2.
    rewrite drop_ge in E1 by lia. cbn [collect]. change (Ok frames ≫= ?f) with (f frames). change (Ok [] ≫= ?f) with (f []).
    split_and!; [done| |done..]. cbn beta. by rewrite app_nil_r.
  - cbn [app]. destruct (is_empty (take k frames)) eqn:Ee; [destruct frames; [cbn in *; lia|]; subst k; by destruct n|].
    destruct (IH (drop k frames) (reading s1 (ws_done st) (status_after (take k frames) (ws_ready st)) st) s1 sl) as (bs & s2 & Ed & Ec & Er & L2 & K2);
      [rewrite length_drop; lia|done|done|by apply Forall_drop|by apply unit_drop|done..|].
    exists (Ok (take k frames) :: bs), s2. rewrite Ed. split_and!; [|cbn [collect]; rewrite Ec|done..|congruence].
    + change (Some ?x ≫= ?f) with (f x). cbn. rewrite <-status_app, take_drop. done.
    + change (Ok (take k frames) ≫= ?f) with (f (take k frames)). cbn. by rewrite take_drop.
Qed.

Lemma whole_frames_length frames : Forall whole_frame frames → (length frames ≤ length (concat frames))%nat.
Proof. induction 1 as [|f fs [L _] _ IH]; cbn [concat length]; [lia|]. rewrite length_app. lia. Qed.

Lemma relay_unit n now rest frames st s sl :
  ws_session st = Some s → ws_done st = false → live s →
  Forall whole_frame frames → is_unit (stop_before_ready st) frames = true → unread s = concat frames ++ rest →
  ∃ batches s', drain (drain_fuel st) n now st sl = Some (batches, drop_stream now (reading s' true (status_after frames (ws_ready st)) st) sl)
    ∧ collect batches = Ok frames ∧ unread s' = rest ∧ live s' ∧ tcp_link s' = tcp_link s.
Proof.
  intros S D L F U E. eapply drain_unit; [|done..]. unfold drain_fuel, pending_bytes. rewrite S.
  apply (f_equal length) in E. unfold unread in E. rewrite !length_app in E. pose proof (whole_frames_length frames F). lia.
Qed.

(** A statement whose answer is collected: its frames, and the session on the same link. *)
Lemma collect_reuse_unit {Sv} `{PgNet Sv} `{PgMessages} sql bytes chunks frames rest s sv sv' :
  msg_query sql = Ok bytes → respond (tcp_link s) bytes sv = (Ok chunks, sv') → live s → Forall (λ c, c ≠ []) chunks →
  Forall whole_frame frames → is_unit false frames = true → unread s ++ concat chunks = concat frames ++ rest →
  ∃ s', simple_query_collect_reuse sql s sv = Some (Ok (s', frames), sv') ∧ unread s' = rest ∧ tcp_link s' = tcp_link s.
Proof.
  intros Q R L Lc F U E. unfold simple_query_collect_reuse, simple_query_relay_into, relay_into, tcp_write, encoded. rewrite Q. cbn [map_err]. rewrite R.
  change (Ok ?x ≫= ?f) with (f x). cbn beta iota.
  set (s1 := mkTcp (tcp_link s) (tcp_chunks s ++ chunks) (read_buf s)).
  assert (unread s1 = concat frames ++ rest) as E1 by (rewrite <-E; unfold unread, s1; cbn [read_buf tcp_chunks]; by rewrite concat_app, <-(assoc_L (++))).
  destruct (relay_unit 64 (instant sv') rest frames (new_stream s1 ReturnTxn false) s1 (mkSlots None with_default_cap None)) as (bs & s2 & Ed & Ec & Er & _ & K);
    [done|done|by apply list.Forall_app|done..|].
  exists s2. rewrite Ed. change (Some ?x ≫= ?f) with (f x). cbn beta iota. rewrite Ec. done.
Qed.

(** ** The idle pool *)

(** No key has more sessions than allowed. *)
Definition bounded (p : PgTcpIdlePool) : Prop := ∀ key q, idle p !! key = Some q → (length q ≤ max_per_key p)%nat.

Lemma drop_expired_length p now q : (length (drop_expired p now q) ≤ length q)%nat.
Proof. induction q as [|e q IH]; cbn [drop_expired]; [done|]. case_match; cbn [length] in *; lia. Qed.
Lemma pop_fresh_spec p now q s q' : pop_fresh p now q = (Some s, q') → (length q' < length q)%nat ∧ ∃ e, e ∈ q ∧ fresh p now e = true ∧ idle_session e = s.
Proof.
  induction q as [|e q IH]; cbn [pop_fresh]; [done|]. destruct (fresh p now e) eqn:Fr.
  - intros [= <- <-]. split; [cbn; lia|]. exists e. split_and!; [left|done..].
  - intros E. destruct (IH E) as (L & e' & I & ?). split; [cbn; lia|]. exists e'. split; [by right|done].
Qed.
Lemma pop_fresh_none p now q q' : pop_fresh p now q = (None, q') → q' = [] ∧ ∀ e, e ∈ q → fresh p now e = false.
Proof.
  revert q'. induction q as [|e q IH]; intros q'; cbn [pop_fresh]; [intros [= <-]; split; [done|]; by intros e ?%not_elem_of_nil|].
  destruct (fresh p now e) eqn:Fr; [done|]. intros E. destruct (IH _ E) as [-> N]. split; [done|]. intros e' [->|I]%elem_of_cons; auto.
Qed.

(** What [put_at] leaves under a key. *)
Definition queue_after (s : PgTcpSession) (since now : Z) (p : PgTcpIdlePool) (q : list IdleEntry) : list IdleEntry :=
  let q := drop_expired p now q in (if (max_per_key p <=? length q)%nat then tail q else q) ++ [mkIdle s since].
Lemma queue_after_length s since now p q : (1 ≤ max_per_key p)%nat → (length q ≤ max_per_key p)%nat → (length (queue_after s since now p q) ≤ max_per_key p)%nat.
Proof.
  intros P L. unfold queue_after. pose proof (drop_expired_length p now q). rewrite length_app. cbn [length].
  destruct (Nat.leb_spec (max_per_key p) (length (drop_expired p now q))); [|lia].
  destruct (drop_expired p now q); cbn [tail length] in *; lia.
Qed.

Theorem idle_pool_bounded key s since now p :
  (1 ≤ max_per_key p)%nat → bounded p → bounded (put_at key s since now p) ∧ bounded (idle_take key now p).2.
Proof.
  intros P B. split.
  - intros k q. unfold put_at, set_idle. cbn [idle max_per_key]. intros [[<- <-]|[N E]]%lookup_insert_Some; [|by apply (B k)].
    apply (queue_after_length s since now p (default [] (idle p !! key))); [done|]. destruct (idle p !! key) eqn:E; cbn; [by apply (B key)|lia].
  - unfold idle_take. destruct (idle p !! key) as [q0|] eqn:E0; [|exact B]. destruct (pop_fresh p now q0) as [o q1] eqn:E1. cbn [snd].
    intros k q. unfold set_idle. cbn [idle max_per_key]. destruct (is_empty q1).
    + intros [_ E]%lookup_delete_Some. by apply (B k).
    + intros [[<- <-]|[_ E]]%lookup_insert_Some; [|by apply (B k)]. pose proof (B _ _ E0). destruct o as [s'|].
      * apply pop_fresh_spec in E1 as [L _]. lia.
      * apply pop_fresh_none in E1 as [-> _]. cbn. lia.
Qed.

(** A session that is taken was put back no longer than the allowed time ago. *)
Lemma idle_take_fresh key now p s p' :
  idle_take key now p = (Some s, p') → ∃ q e, idle p !! key = Some q ∧ e ∈ q ∧ idle_session e = s ∧ now - idle_since e ≤ idle_ttl p.
Proof.
  unfold idle_take. destruct (idle p !! key) as [q|] eqn:E; [|done]. destruct (pop_fresh p now q) as [o q'] eqn:E1. intros [= -> <-].
  apply pop_fresh_spec in E1 as (_ & e & I & Fr & Es). exists q, e. split_and!; [done..|]. unfold fresh in Fr. lia.
Qed.
End PgRelayTheorems.

Module PgBackendTheorems.
Import PgValues PgConnector PgRelayTheorems.

(** ** Parameters *)

Section Slots.
Context (f64_to_string : Z → str) (f64_parse : str → option Z) (date_of : str → str).

(** The type that a position is bound with. *)
Definition bound_type (text : list nat) (i : nat) (ty : PgType) : PgType := if bool_decide (i ∈ text) then TEXT else ty.

Lemma conform_positions declared : ∀ slots i slots' text,
  conform_pg_param_slots f64_to_string f64_parse date_of slots declared i = (slots', text) → ∀ j, j ∈ text → (i ≤ j)%nat.
Proof.
  induction declared as [|ty declared IH]; intros [|x slots] i slots' text; cbn [conform_pg_param_slots];
    [intros [= <- <-] j Hj; by apply not_elem_of_nil in Hj..|].
  destruct (conform_pg_param_slots _ _ _ slots declared (S i)) as [rest text1] eqn:E. pose proof (IH _ _ _ _ E) as P.
  case_match; intros [= <- <-] j; [intros Hj%P; lia|]. intros [->|Hj%P]%elem_of_cons; lia.
Qed.

Lemma conform_covered declared : ∀ slots i slots' text,
  conform_pg_param_slots f64_to_string f64_parse date_of slots declared i = (slots', text) →
  ∀ j ty x, declared !! j = Some ty → slots' !! j = Some x → covered (bound_type text (i + j) ty) x = true.
Proof.
  induction declared as [|ty0 declared IH]; intros slots i slots' text E j ty x Ht Hx; [done|].
  destruct slots as [|x0 slots]; cbn [conform_pg_param_slots] in E; [by injection E as <- <-|].
  destruct (conform_pg_param_slots _ _ _ slots declared (S i)) as [rest text1] eqn:E1.
  pose proof (IH _ _ _ _ E1) as C. pose proof (conform_positions _ _ _ _ _ E1) as P. unfold bound_type in *.
  destruct (covered ty0 _) eqn:Co; injection E as <- <-; destruct j as [|j]; cbn in Ht, Hx; simplify_eq.
  - rewrite Nat.add_0_r, bool_decide_false; [done|]. intros ?%P. lia.
  - rewrite Nat.add_succ_r, <-Nat.add_succ_l. eauto.
  - rewrite Nat.add_0_r, bool_decide_true by left. done.
  - rewrite Nat.add_succ_r, <-Nat.add_succ_l. pose proof (C j ty x Ht Hx) as C'.
    rewrite (bool_decide_ext _ (S i + j ∈ text1)%nat); [done|]. rewrite elem_of_cons. intuition lia.
Qed.
End Slots.

Section Backend.
Context {Sv : Type} `{PgNet Sv} `{PgMessages} `{PgClient Sv}.
Context (port_text : str → str) (debug_response : GatewayResponse → str)
  (f64_is_finite : Z → bool) (f64_to_string : Z → str) (f64_parse : str → option Z)
  (chrono_date chrono_datetime chrono_time : str → str → option str) (date_of : str → str).

Abbreviation statement_for := (conformed_param_statement f64_to_string f64_parse chrono_date chrono_datetime chrono_time date_of).
Abbreviation outcome_of := (pg_execute_outcome port_text debug_response f64_is_finite f64_to_string f64_parse chrono_date chrono_datetime chrono_time date_of).
Abbreviation response_of := (pg_execute_with_mode port_text debug_response f64_to_string f64_parse chrono_date chrono_datetime chrono_time date_of).

Theorem bound_slots_covered sql ps b sv slots st b' sv' :
  (∀ n types sv st sv', pg_prepare n sql (Some types) sv = (Ok st, sv') → st_params st = types) →
  statement_for sql ps b sv = (Ok (slots, st), b', sv') →
  ∀ j ty x, st_params st !! j = Some ty → slots !! j = Some x → covered ty x = true.
Proof.
  intros Typed E j ty x. unfold conformed_param_statement in E. destruct (pg_get_or_prepare sql b sv) as [[[st0|] b0] sv0]; [|done].
  destruct (conform_pg_param_slots _ _ _ _ (st_params st0) 0) as [slots0 text] eqn:Ec. pose proof (conform_covered _ _ _ _ _ _ _ _ Ec) as C.
  destruct (is_empty text) eqn:Et.
  { injection E as <- <- <- <-. destruct text; [|done]. intros Ht Hx. exact (C j ty x Ht Hx). }
  unfold with_client in E. destruct (pgc_client b0) as [n|]; [|done]. destruct (pg_prepare n sql _ sv0) as [[st1|] sv1] eqn:Ep; [|done].
  change (Ok st1 ≫= ?f) with (f st1) in E. injection E as <- <- <- <-. apply Typed in Ep. rewrite Ep, list_lookup_imap.
  intros Ht Hx. destruct (st_params st0 !! j) as [ty0|] eqn:E0; [|done]. injection Ht as <-. exact (C j ty0 x E0 Hx).
Qed.

(** ** Rows in windows *)

Definition row_of_item (i : PgItem) : option Row := match i with Ok (Some (Ok r)) => Some r | _ => None end.
Definition good_item (i : PgItem) : Prop := match i with Ok (Some (Err _)) | Err _ => False | _ => True end.
Definition at_most (max : option Z) (n : Z) (rows : list Row) : list Row := match max with Some m => take (Z.to_nat (m - n)) rows | None => rows end.

Lemma produce_rows max window items : 0 < window → Forall good_item items → ∀ total truncated buf,
  concat (produce max window None items total truncated buf) = buf ++ (if truncated then [] else at_most max total (omap row_of_item items)).
Proof.
  intros W. induction 1 as [|i items G _ IH]; intros total truncated buf; cbn [produce omap list_omap].
  - destruct buf; cbn [is_empty orb]; rewrite ?bool_decide_false by done; cbn [concat]; destruct truncated, max; cbn [at_most]; by rewrite ?take_nil, ?app_nil_r.
  - destruct i as [[[row|]|]|]; cbn [good_item row_of_item] in *; [|done|apply IH|done].
    destruct truncated; cbn [orb]; [by rewrite IH|]. unfold at_most at 1. destruct max as [m|].
    + destruct (Z.leb_spec m total) as [Lm|Lm].
      * rewrite IH. by replace (Z.to_nat (m - total)) with 0%nat by lia.
      * replace (Z.to_nat (m - total)) with (S (Z.to_nat (m - (total + 1)))) by lia. cbn [take].
        case_match; [case_decide; [done|]; cbn [concat fmap option_fmap option_map]|]; rewrite IH; unfold at_most; by rewrite <-?(assoc_L (++)).
    + case_match; [case_decide; [done|]; cbn [concat fmap option_fmap option_map]|]; rewrite IH; unfold at_most; by rewrite <-?(assoc_L (++)).
Qed.

(** ** The end of a transaction *)

Lemma pbind_inv {A B} (m : @pop Sv A) (k : A → pop B) x r x' : pbind m k x = Some (Ret (Ok r, x')) → ∃ a x1, m x = Some (Ret (Ok a, x1)) ∧ k a x1 = Some (Ret (Ok r, x')).
Proof. unfold pbind, ebind. destruct (m x) as [[[[a|e] x1]|]|]; [|done..]. eauto. Qed.

Definition no_transaction (c : PgConn Sv) : Prop := pg_lease c = None ∧ tcp_txn (pg_slots c) = None.

Lemma finish_clean sql c s r c' s' : pg_finish_transaction debug_response sql (c, s) = Some (Ret (Ok r, (c', s'))) → no_transaction c' ∧ s' = s.
Proof.
  unfold pg_finish_transaction. destruct (tcp_txn (pg_slots c)) as [t|] eqn:Et.
  - intros ([t' packets] & [c1 s1] & E1 & E)%pbind_inv. unfold tcp_io_fuel in E1. cbn beta iota zeta in E1.
    destruct (simple_query_collect_reuse _ _ _) as [[r1 sv1]|]; [|done]. injection E1 as -> <- <-.
    apply pbind_inv in E as ([] & x2 & E2 & E3). injection E2 as <-. injection E3 as <- <- <-. split; [|done].
    split; [done|]. unfold pg_assign_lease. by case_match.
  - destruct (pg_lease c) as [pc|] eqn:El; [|intros [= <- <- <-]; done].
    intros ([r1 pc1] & [c1 s1] & E1 & E)%pbind_inv. unfold pg_execute_on_conn, pg_on_conn in E1. destruct (pc_conn pc) as [b|]; [|done].
    destruct (pg_conn_simple_query _ _ _) as [r2 sv2]. injection E1 as <- <- <- <-.
    apply pbind_inv in E as ([] & x2 & E2 & E3). injection E2 as <-. injection E3 as E3 <- <-. done.
Qed.

Theorem transaction_end_clean command c s mode r c' s' :
  command = Commit ∨ command = Rollback → response_of command mode (c, s) = Some (Ret (Ok r, (c', s'))) →
  no_transaction c' ∧ transaction_state s' = Idle.
Proof.
  intros [-> | ->]; cbn [pg_execute_with_mode]; intros (r1 & [c1 s1] & [N ->]%finish_clean & E)%pbind_inv;
    apply pbind_inv in E as ([] & x2 & E2 & E3); injection E2 as <-; injection E3 as <- <- <-; done.
Qed.

(** ** Relays *)

Definition in_pg_transaction (c : PgConn Sv) (s : SessionState) : bool := pg_active s || pg_has_transaction_lease c || pg_has_tcp_txn c.

(** The first steps of a command that is passed through. *)
Ltac start_outcome :=
  unfold pg_execute_outcome; cbn [MyConnector.returns_rows promote_row_stream is_passthrough andb];
  change (pbind psession ?k (?c, ?s)) with (k s (c, s)); cbv beta;
  change (pbind (preads ?f) ?k (?c, ?s)) with (k (f c) (c, s)); cbv beta.

(** Nothing of the command reaches the server but the frames that the frontend kept. *)
Theorem client_frames_relayed command c s o x :
  MyConnector.returns_rows command = true → pg_client_extended_frames s ≠ [] →
  relay_frames (in_pg_transaction c s) (c, s) = Some (Ret (Ok (Some o), x)) →
  outcome_of command Passthrough (c, s) = Some (Ret (Ok o, x)).
Proof.
  intros R F E. destruct (pg_client_extended_frames s) as [|f fs] eqn:Ef; [done|]. unfold in_pg_transaction in E.
  destruct command; cbn [MyConnector.returns_rows] in R; try done; start_outcome; rewrite ?Ef; unfold pbind at 1; rewrite E; done.
Qed.

(** C36 A simple query that is passed through (no frames of the extended protocol are
    buffered) while the relay session of a transaction is open, alive and has nothing unread,
    is written to that session as one query message.  When the server answers with a unit of
    whole frames up to [ReadyForQuery], the client gets exactly these frames, in order, however
    the network cuts them into chunks; the session, with nothing left unread, is kept for the
    rest of the transaction.  (An extended unit is relayed as its own frames:
    [client_frames_relayed].) *)
Theorem transaction_statement_relayed e sql bytes chunks frames c s t sv' :
  pg_select_endpoint (c, s) = Some (Ret (Ok e, (c, s))) → pg_client_extended_frames s = [] →
  tcp_txn (pg_slots c) = Some t → live t → unread t = [] →
  msg_query sql = Ok bytes → respond (tcp_link t) bytes (pg_server c) = (Ok chunks, sv') →
  Forall (λ c, c ≠ []) chunks → concat chunks = concat frames → Forall whole_frame frames → is_unit false frames = true →
  ∃ st x batches t', outcome_of (Query sql) Passthrough (c, s) = Some (Ret (Ok (PgRelay st), x))
    ∧ pg_drain_relay 32 st x = Some (Ret (Ok batches, (pg_set_server sv' (pg_set_slots (set_txn (Some t') (pg_slots c)) c), s)))
    ∧ collect batches = Ok frames ∧ tcp_link t' = tcp_link t ∧ unread t' = [].
Proof.
  intros Sel Fr T L Un Q R Lc Ec F U. set (t1 := mkTcp (tcp_link t) (tcp_chunks t ++ chunks) (read_buf t)).
  assert (unread t1 = concat frames ++ []) as E1.
  { rewrite app_nil_r, <-Ec. unfold unread, t1. cbn [read_buf tcp_chunks]. rewrite concat_app, (assoc_L (++)). unfold unread in Un. by rewrite Un. }
  set (sl1 := set_txn None (pg_slots c)).
  destruct (relay_unit 32 (instant sv') [] frames (new_stream t1 ReturnTxn false) t1 sl1) as (bs & t2 & Ed & Eb & Er & _ & K);
    [done|done|by apply list.Forall_app|done..|].
  exists (new_stream t1 ReturnTxn false), (pg_set_server sv' (pg_set_slots sl1 c), s), bs, t2. split_and!; [|unfold pg_drain_relay|done..].
  - start_outcome. rewrite Fr. unfold pbind at 1. rewrite Sel. cbn [ebind]. unfold pg_has_tcp_txn. rewrite T. cbn [is_none negb]. rewrite orb_true_r.
    unfold execute_simple_query_tcp_relay_txn, begin_tcp, take_or_open_tcp_txn, pbind. rewrite T. cbn [ebind pret].
    unfold tcp_io, simple_query_relay_into, relay_into, tcp_write, encoded. rewrite Q. cbn [map_err pg_server pg_set_slots]. rewrite R. done.
  - cbn [pg_server pg_set_server pg_slots pg_set_slots]. rewrite Ed. done.
Qed.
(** ** Statements are not answered with raw frames when their rows are streamed *)

Definition pg_not_wire (r : GatewayResponse) : Prop := match r with Wire _ => False | _ => True end.
Definition pg_not_raw (o : PgOutcome) : Prop := match o with PgDone r => pg_not_wire r | PgWindows _ => True | PgRelay _ => False end.

(** What succeeds satisfies [P]. *)
Definition pg_yields {A} (P : A → Prop) (m : @pop Sv A) : Prop := ∀ x a x', m x = Some (Ret (Ok a, x')) → P a.

Lemma pg_yields_bind {A B} (Q : A → Prop) (P : B → Prop) m (f : A → @pop Sv B) : pg_yields Q m → (∀ a, Q a → pg_yields P (f a)) → pg_yields P (pbind m f).
Proof. intros Hm Hf c b c' (a & c1 & E1 & E2)%pbind_inv. eapply Hf; [by eapply Hm|exact E2]. Qed.
Lemma pg_yields_then {A B} (P : B → Prop) m (f : A → @pop Sv B) : (∀ a, pg_yields P (f a)) → pg_yields P (pbind m f).
Proof. intros Hf. eapply (pg_yields_bind (λ _, True)); [done|auto]. Qed.
Lemma pg_yields_ret {A} (P : A → Prop) a : P a → pg_yields P (pret a).
Proof. by intros Ha c a' c' [= <- <-]. Qed.
Lemma pg_yields_throw {A} (P : A → Prop) e : pg_yields P (pthrow e).
Proof. by intros c a' c' [=]. Qed.
Lemma pg_yields_lift {A} (P : A → Prop) r : (∀ a, r = Ok a → P a) → pg_yields P (plift r).
Proof. intros Hr c a c' [= -> _]. by apply Hr. Qed.
Lemma pg_yields_on_conn {A} (Q : A → Prop) (op : PgConnection → Sv → GatewayResult A * PgConnection * Sv) pc :
  (∀ b sv a b' sv', op b sv = (Ok a, b', sv') → Q a) → pg_yields (λ x, match x.1 with Ok a => Q a | Err _ => True end) (pg_on_conn op pc).
Proof.
  intros Hop [c s] x x'. unfold pg_on_conn. destruct (pc_conn pc) as [b|]; [|done]. destruct (op b (pg_server c)) as [[r b1] sv1] eqn:E. intros [= <- _].
  cbn. destruct r; [|done]. by eapply Hop.
Qed.

Lemma messages_not_wire max ms : ∀ columns rows n, pg_not_wire (simple_messages ms max columns rows n).
Proof. induction ms as [|[] ms IH]; intros; cbn [simple_messages]; repeat case_match; auto; done. Qed.

Lemma pg_conn_for_rows in_txn e : pg_yields (λ x, match x with inl r => pg_not_wire r | inr _ => True end) (pg_conn_for port_text in_txn e).
Proof.
  unfold pg_conn_for, pg_begin_lease. destruct in_txn; [|by apply pg_yields_then; intros; apply pg_yields_ret].
  apply pg_yields_then. intros leased. apply pg_yields_then. intros pc. destruct leased; [by apply pg_yields_ret|]. eapply pg_yields_bind.
  { apply (pg_yields_on_conn pg_not_wire). intros b sv a b' sv'. destruct (pg_conn_simple_query _ _ _) as [[ms|] sv1]; [|done].
    intros [= <- _ _]. apply messages_not_wire. }
  intros [[r|] pc1] Hr; [|apply pg_yields_then; intros; apply pg_yields_throw].
  destruct (MyConnector.is_rok r); [by apply pg_yields_ret|]. by apply pg_yields_then; intros; apply pg_yields_ret.
Qed.

Definition start_not_wire (x : GatewayResponse + list Column * list PgItem) : Prop := match x with inl r => pg_not_wire r | inr _ => True end.
Lemma raw_start_rows ms x : raw_start ms = Ok x → start_not_wire x.
Proof. induction ms as [|[[]|] ms IH]; cbn [raw_start]; intros E; simplify_eq; try done; auto. Qed.
Lemma executed_rows n st slots (sv : Sv) r sv' : executed n st slots sv = (Ok r, sv') → pg_not_wire r.
Proof. unfold executed. destruct (pg_execute _ _ _ _) as [[k|] sv1]; [|done]. by intros [= <- _]. Qed.
Lemma open_rows_rows sql ps b (sv : Sv) x b' sv' :
  open_rows f64_to_string f64_parse chrono_date chrono_datetime chrono_time date_of sql ps b sv = (Ok x, b', sv') → start_not_wire x.
Proof.
  unfold open_rows. destruct (conformed_param_statement _ _ _ _ _ _ _ _ _ _) as [[[[slots st]|] b1] sv1]; [|done]. destruct (pgc_client b1) as [n|]; [|done].
  assert (∀ sv, (let '(r, sv) := executed n st slots sv in (inl <$> r, b1, sv)) = (Ok x, b', sv') → start_not_wire x) as Hex.
  { intros sv2. destruct (executed _ _ _ _) as [[r|] sv3] eqn:E; [|done]. intros [= <- _ _]. by eapply executed_rows. }
  destruct (is_empty _); [apply Hex|]. destruct (pg_query_raw _ _ _ _) as [[ms|err] sv2]; [|case_match; [apply Hex|done]].
  destruct ms as [|[row|] ms]; cbn [rows_start]; [by intros [= <- _ _]| |done]. destruct (typed_row_to_gateway_values row); [|done]. by intros [= <- _ _].
Qed.

Lemma started_rows mode in_txn r pc : (∀ x, r = Ok x → start_not_wire x) → pg_yields pg_not_raw (pg_started mode in_txn r pc).
Proof.
  intros Hr. destruct r as [[response|[columns items]]|]; cbn [pg_started]; apply pg_yields_then; intros; [apply pg_yields_ret, (Hr _ eq_refl)|by apply pg_yields_ret|apply pg_yields_throw].
Qed.

Lemma pg_simple_rows e sql mode in_txn : pg_yields pg_not_raw (pg_execute_simple_query_streaming port_text e sql mode in_txn).
Proof.
  eapply pg_yields_bind; [apply pg_conn_for_rows|]. intros [r|pc] Hr; [by apply pg_yields_ret|]. apply pg_yields_then.
  intros [[ms|err] pc1]; [apply started_rows; intros x; apply raw_start_rows|]. apply pg_yields_then. intros. apply pg_yields_throw.
Qed.
Lemma pg_param_rows e sql ps mode in_txn :
  pg_yields pg_not_raw (pg_execute_param_query_streaming port_text f64_to_string f64_parse chrono_date chrono_datetime chrono_time date_of e sql ps mode in_txn).
Proof.
  apply pg_yields_then. intros _. destruct (is_empty ps); [apply pg_simple_rows|]. eapply pg_yields_bind; [apply pg_conn_for_rows|].
  intros [r|pc] Hr; [by apply pg_yields_ret|]. eapply pg_yields_bind; [apply (pg_yields_on_conn start_not_wire); intros ?????; apply open_rows_rows|].
  intros [r pc1] Hr1. apply started_rows. intros x ->. exact Hr1.
Qed.

(** A query, a prepared statement that is executed, a statement to prepare or to describe,
    with its rows in windows. *)
Lemma pg_rows command n m : is_statement command = true → pg_yields pg_not_raw (outcome_of command (Streaming n m)).
Proof.
  intros Hc. destruct command as [sql|sql ps|sql|sid ps|sid|sql|packets| |db| | | | |]; cbn in Hc; try done;
    unfold pg_execute_outcome; cbn [MyConnector.returns_rows promote_row_stream is_passthrough andb];
    apply pg_yields_then; intros s; apply pg_yields_then; intros in_txn; unfold stream_or_whole; cbn [MyConnector.is_streaming].
  - apply pg_yields_then. intros. apply pg_simple_rows.
  - apply pg_yields_then. intros. apply pg_param_rows.
  - eapply (pg_yields_bind pg_not_wire); [|intros; by apply pg_yields_ret]. cbn [pg_execute_with_mode]. do 2 (apply pg_yields_then; intros). by apply pg_yields_ret.
  - apply pg_yields_then. intros [e sql]. apply pg_param_rows.
  - eapply (pg_yields_bind pg_not_wire); [|intros; by apply pg_yields_ret]. cbn [pg_execute_with_mode]. unfold pg_describe_sql.
    do 4 (apply pg_yields_then; intros). apply pg_yields_then. intros [r pc]. apply pg_yields_then. intros. apply pg_yields_lift.
    intros x. destruct r; [|done]. by intros [= <-].
Qed.
End Backend.
End PgBackendTheorems.

(** The backends as the sessions use them: the rows that are left to a task, or to a relay,
    are fetched to the end. *)
Module GatewayBackends.
Import PgValues PgConnector PgBackendTheorems.

Section MySql.
Context {Sv : Type} `{MyClient.MyServer Sv} (remaining_text : str) (port_text : str → str) (debug_response : GatewayResponse → str)
  (f32_to_f64_bits : Z → Z) (f64_parse : str → option Z).

Definition my_step (command : GatewayCommand) (mode : ExecuteMode) (s : SessionState) (c : MyConnector.Connector Sv)
    : GatewayResult ExecuteOutcome * SessionState * MyConnector.Connector Sv :=
  match MyConnector.execute_outcome remaining_text port_text debug_response f32_to_f64_bits f64_parse command s mode c with
  | Some (Ret (Ok (MyConnector.Done r, s), c)) => (Ok (OComplete r), s, c)
  | Some (Ret (Ok (MyConnector.Windows columns, s), c)) =>
      match MyConnector.settle remaining_text f32_to_f64_bits f64_parse (length (MyConnector.cn_tasks c) - 1) None c with
      | Some (Ret (ws, c)) => ((λ ws, OStreaming (mkStreaming columns (VecRowStream (concat ws)))) <$> ws, s, c)
      | _ => (Err MyConn.not_open, s, c)
      end
  | Some (Ret (Err e, c)) => (Err e, s, c)
  | _ => (Err MyConn.not_open, s, c)
  end.
#[local] Instance my_backend : BackendConnector (MyConnector.Connector Sv) := {
  be_protocol _ := MySql;
  check_session_health c := (Ok tt, c);
  execute_outcome command s mode c := my_step command mode s c
}.

(** What [obligations_enforced] asks of a backend. *)
Lemma my_streams_statements : streams_statements (B := MyConnector.Connector Sv).
Proof.
  intros command s n m c out s' c' Hst. cbn [execute_outcome my_backend]. unfold my_step.
  destruct (MyConnector.execute_outcome _ _ _ _ _ _ _ _ _) as [[[[[o s1]|] c1]|]|] eqn:E; [|done..].
  apply MyConnectorTheorems.my_rows in E; [|by destruct command]. destruct o as [r|columns].
  - intros [= <- _ _]. by destruct r.
  - destruct (MyConnector.settle _ _ _ _ _ _) as [[[[ws|] c2]|]|]; [|done..]. by intros [= <- _ _].
Qed.
End MySql.

Section PostgreSql.
Context {Sv : Type} `{PgNet Sv} `{PgMessages} `{PgClient Sv}.
Context (port_text : str → str) (debug_response : GatewayResponse → str)
  (f64_is_finite : Z → bool) (f64_to_string : Z → str) (f64_parse : str → option Z)
  (chrono_date chrono_datetime chrono_time : str → str → option str) (date_of : str → str).

Definition finished (x : fueled (GatewayResult PgOutcome * pst)) : fueled (GatewayResult ExecuteOutcome * @pst Sv) :=
  ebind x (λ '(r, x),
    match r with
    | Err e => Some (Ret (Err e, x))
    | Ok (PgDone r) => Some (Ret (Ok (OComplete r), x))
    | Ok (PgRelay st) => ebind (pg_drain_relay 32 st x) (λ '(r, x), Some (Ret (OWireRelay <$> r, x)))
    | Ok (PgWindows columns) => ebind (pg_settle (length (pg_tasks x.1) - 1) None x) (λ '(ws, x), Some (Ret ((λ ws, OStreaming (mkStreaming columns (VecRowStream (concat ws)))) <$> ws, x)))
    end).
Definition pg_step (command : GatewayCommand) (mode : ExecuteMode) (x : @pst Sv) : GatewayResult ExecuteOutcome * @pst Sv :=
  match finished (pg_execute_outcome port_text debug_response f64_is_finite f64_to_string f64_parse chrono_date chrono_datetime chrono_time date_of command mode x) with
  | Some (Ret x) => x
  | _ => (Err pg_not_open, x)
  end.
Definition pg_backend : BackendConnector (PgConn Sv) := {|
  be_protocol _ := PostgreSql;
  check_session_health c :=
    match pg_check_session_health (c, default_session) with Some (Ret (r, (c, _))) => (r, c) | _ => (Err pg_not_open, c) end;
  execute_outcome command s mode c := let '(r, (c, s)) := pg_step command mode (c, s) in (r, s, c)
|}.
#[local] Existing Instance pg_backend.

Lemma pg_streams_statements : streams_statements (B := PgConn Sv).
Proof.
  intros command s n m c out s' c' Hst. cbn [execute_outcome pg_backend]. unfold pg_step.
  destruct (pg_execute_outcome _ _ _ _ _ _ _ _ _ _ _ _) as [[[[o|] [c1 s1]]|]|] eqn:E; [|done..].
  apply (pg_rows _ _ _ _ _ _ _ _ _ command n m Hst) in E. unfold finished. cbn [ebind]. destruct o as [r|columns|st]; [| |done].
  - intros [= <- _ _]. by destruct r.
  - destruct (pg_settle _ _ _) as [[[[ws|] [c2 s2]]|]|]; [|done..]. by intros [= <- _ _].
Qed.
End PostgreSql.
End GatewayBackends.

Module PgBackendRuns.
Import PgValues PgConnector PgRelayTheorems PgBackendTheorems GatewayBackends.

(** ** A server *)

(** The connections opened, and what was heard, last first. *)
Record PgLog := mkPgLog { pg_opened : nat; pg_heard : list (nat * str) }.
Definition hears (k : nat) (m : str) (sv : PgLog) : PgLog := mkPgLog (pg_opened sv) ((k, m) :: pg_heard sv).

#[local] Instance run_messages : PgMessages := {
  msg_query sql := Ok (encode_query_message sql);
  msg_parse name sql := Ok (client_message (FParse name sql []));
  msg_bind _ _ _ := None;
  msg_describe kind name := Ok (encode_message "D" (kind :: cstring name));
  msg_execute name n := Ok (client_message (FExecute name n));
  msg_sync := encode_sync_message;
  msg_flush := encode_message "H" []
}.

(** The text of a simple query, or the bytes. *)
Definition text_heard (m : str) : str := match m with "Q"%char :: m => removelast (drop 4 m) | _ => m end.
Fixpoint open_on (k : nat) (l : list (nat * str)) : bool :=
  match l with
  | [] => false
  | (j, m) :: l =>
      if negb (j =? k)%nat then open_on k l
      else if str_eqb (text_heard m) ($"BEGIN") then true
      else if one_of [$"COMMIT"; $"ROLLBACK"] (text_heard m) then false
      else open_on k l
  end.
Definition ready_frame (k : nat) (l : list (nat * str)) : str := encode_ready_for_query (if open_on k l then StInTransaction else StIdle).

(** Every query is answered byte by byte; a [Flush] or an [Execute] with one row. *)
Definition answers (k : nat) (bytes : str) (sv : PgLog) : str :=
  match bytes with
  | "Q"%char :: _ => encode_command_complete ($"OK") ++ ready_frame k (pg_heard sv)
  | "S"%char :: _ => ready_frame k (pg_heard sv)
  | "H"%char :: _ => encode_parse_complete ++ encode_bind_complete ++ data ($"x") ++ encode_command_complete ($"SELECT 1")
  | "E"%char :: _ => data ($"x") ++ encode_command_complete ($"SELECT 1")
  | _ => []
  end.
#[local] Instance run_net : PgNet PgLog := {
  dial := λ _ _ sv, (Ok (mkTcp (pg_opened sv) [] []), mkPgLog (S (pg_opened sv)) (pg_heard sv));
  respond := λ k bytes sv, let sv := hears k bytes sv in (Ok ((λ c, [c]) <$> answers k bytes sv), sv);
  probe_in_time := λ _ _, true;
  instant := λ _, 0
}.

(** [tokio-postgres]: a query whose text begins with [fail] fails before its rows, one
    with [broken] in them. *)
Definition some_columns : list (str * str) := [($"name", $"text")].
Definition raw_answer (sql : str) : result str (list (result str SimpleQueryMessage)) :=
  if starts_with sql ($"fail") then Err ($"closed")
  else if starts_with sql ($"select") then Ok [Ok (SqRowDescription [$"name"]); Ok (SqRow [$"name"] [Some ($"x")]); Ok (SqComplete 1)]
  else if starts_with sql ($"broken") then Ok [Ok (SqRowDescription [$"name"]); Ok (SqRow [$"name"] [Some ($"x")]); Err ($"deadlock")]
  else Ok [Ok (SqComplete 1)].
#[local] Instance run_client : PgClient PgLog := {
  pg_connect := λ _ _ sv, (Ok (pg_opened sv), mkPgLog (S (pg_opened sv)) (pg_heard sv));
  pg_simple_query := λ k sql sv, (Ok [SqComplete 1], hears k sql sv);
  pg_simple_query_raw := λ k sql sv, (raw_answer sql, hears k sql sv);
  pg_prepare := λ k sql types sv, (Ok (mkStatement 0 (default [INT4] types) some_columns), hears k ($"PREPARE " ++ sql) sv);
  pg_query := λ k st _ sv, (Ok [], sv);
  pg_query_raw := λ k st _ sv, (Ok [], sv);
  pg_execute := λ k st _ sv, (Ok 1, sv)
}.

Definition no_texts (s : str) : str := [].
Definition no_debug_text (r : GatewayResponse) : str := [].
Definition no_format (f s : str) : option str := None.
Abbreviation run_outcome := (pg_execute_outcome no_texts no_debug_text (λ _, true) (λ _, []) (λ _, None) no_format no_format no_format id).

Definition pg_endpoint : EndpointConfig := mkEndpointConfig ($"primary") PostgreSql ($"db:5432") (Some ($"app")) RoleReadWrite ($"app") ($"pw") 1 SslDisable None false.
Definition pg_connector : PgConn PgLog := pg_with_endpoints [pg_endpoint] (mkPgLog 0 []).

(** A command, and what is left to do for its rows. *)
Abbreviation step := (pg_step no_texts no_debug_text (λ _, true) (λ _, []) (λ _, None) no_format no_format no_format id).
Definition steps (l : list (GatewayCommand * ExecuteMode)) (x : @pst PgLog) : @pst PgLog := foldl (λ x '(command, mode), (step command mode x).2) x l.
Definition heard_by (x : @pst PgLog) : list (nat * str) := reverse (prod_map id text_heard <$> pg_heard (pg_server x.1)).
Definition pg_begun : @pst PgLog := (pg_connector, with_transaction Active default_session).

(** ** Transactions *)

(** A statement that is relayed and one whose rows are streamed are on different connections,
    each in a transaction of its own; [COMMIT] goes to the first.  The second is returned to
    the pool with its transaction open, and takes the statements that follow. *)
Example split_transaction :
  heard_by (steps [(Query ($"insert 1"), Passthrough); (Query ($"insert 2"), Streaming 256 None); (Commit, Materialized); (Query ($"insert 3"), Streaming 256 None)] pg_begun)
  = [(0%nat, $"BEGIN"); (0%nat, $"insert 1"); (1%nat, $"BEGIN"); (1%nat, $"insert 2"); (0%nat, $"COMMIT"); (1%nat, $"SELECT 1"); (1%nat, $"insert 3")].
Proof. by vm_compute. Qed.

(** A description that comes first takes the connection of the transaction without a
    [BEGIN], and none is sent later. *)
Example described_first_not_begun :
  heard_by (steps [(DescribeSql ($"insert 1"), Materialized); (Query ($"insert 2"), Streaming 256 None); (Rollback, Materialized)] pg_begun)
  = [(0%nat, $"PREPARE insert 1"); (0%nat, $"insert 2"); (0%nat, $"ROLLBACK")].
Proof. by vm_compute. Qed.

(** A unit of the client's frames leaves its session in the slot of the transaction, also when there
    is none.  A statement whose rows are streamed is taken to be in a transaction then: [BEGIN]
    is sent for it, and nothing ends it. *)
Definition with_unit (ms : list FrontendMessage) (x : @pst PgLog) : @pst PgLog := (x.1, with_frames (client_message <$> ms) false x.2).
Example relayed_unit_begins_transaction :
  let x := steps [(Query ($"insert 1"), Passthrough); (PgBackendSync, Passthrough)]
             (with_unit [FParse [] ($"insert 1") []; FBind [] [] [] []; FExecute [] 0] (pg_connector, default_session)) in
  pg_has_tcp_txn x.1 = true ∧ transaction_state x.2 = Idle
  ∧ drop 3 (heard_by (steps [(Query ($"insert 2"), Streaming 256 None)] x)) = [(1%nat, $"BEGIN"); (1%nat, $"insert 2")]
  ∧ pg_has_transaction_lease (steps [(Query ($"insert 2"), Streaming 256 None); (Query ($"insert 3"), Streaming 256 None)] x).1 = true.
Proof. by vm_compute. Qed.

(** An error after the first row is logged; the client gets a complete, empty result. *)
Example error_in_pg_rows_dropped :
  (step (Query ($"broken")) (Streaming 256 None) (pg_connector, default_session)).1 = Ok (OStreaming (mkStreaming [mkColumn ($"name") ($"text")] (VecRowStream []))).
Proof. by vm_compute. Qed.

(** The second statement of a relayed transaction. *)
Definition relayed_once : @pst PgLog := steps [(Query ($"insert 1"), Passthrough)] pg_begun.
Definition txn_session : PgTcpSession := default (mkTcp 9 [] []) (tcp_txn (pg_slots relayed_once.1)).
Definition second_answer : list str := [encode_command_complete ($"OK"); encode_ready_for_query StInTransaction].
Definition second_heard : PgLog := hears (tcp_link txn_session) (encode_query_message ($"insert 2")) (pg_server relayed_once.1).
Lemma transaction_statement_relayed_witness :
  ∃ st x batches t', run_outcome (Query ($"insert 2")) Passthrough relayed_once = Some (Ret (Ok (PgRelay st), x))
    ∧ pg_drain_relay 32 st x = Some (Ret (Ok batches, (pg_set_server second_heard (pg_set_slots (set_txn (Some t') (pg_slots relayed_once.1)) relayed_once.1), relayed_once.2)))
    ∧ collect batches = Ok second_answer ∧ tcp_link t' = tcp_link txn_session ∧ unread t' = [].
Proof.
  apply (transaction_statement_relayed no_texts no_debug_text (λ _, true) (λ _, []) (λ _, None) no_format no_format no_format id
    pg_endpoint ($"insert 2") (encode_query_message ($"insert 2")) ((λ c, [c]) <$> concat second_answer) second_answer relayed_once.1 relayed_once.2 txn_session second_heard).
  - vm_compute. reflexivity.
  - reflexivity.
  - vm_compute. reflexivity.
  - apply Forall_nil. exact I.
  - vm_compute. reflexivity.
  - reflexivity.
  - vm_compute. reflexivity.
  - apply Forall_fmap, list.Forall_true. done.
  - vm_compute. reflexivity.
  - repeat (apply Forall_cons; split; [split; [apply Nat.leb_le; reflexivity|reflexivity]|]). by apply Forall_nil.
  - reflexivity.
Defined.

(** ** NUMERIC *)

Definition wire_and_back (t : str) : option str := numeric_to_wire t ≫= pg_numeric_to_text.
(** Four digits after the point, or more, move the point; zero has no wire form that can be
    read; small fractions change their value. *)
Example numeric_changes_values :
  wire_and_back ($"123456.78") = Some ($"123456.78") ∧ wire_and_back ($"1.2345") = Some ($"12345.0000")
  ∧ wire_and_back ($"0") = None ∧ wire_and_back ($"0.00001") = Some ($"0.10000").
Proof. by vm_compute. Qed.
(** 12345 as the server sends it: digits, weight, sign, scale, groups.  The weight is read
    as the sign, and the value is malformed. *)
Example server_numeric_refused : pg_numeric_to_text (be16 2 ++ be16 1 ++ be16 0 ++ be16 0 ++ be16 1 ++ be16 2345) = None.
Proof. by vm_compute. Qed.

(** A parameter that contains a placeholder is substituted again. *)
Example placeholder_in_parameter :
  bind_pg_placeholders (λ _, true) (λ _, []) ($"select $1, $2") [VString ($"secret"); VString ($"$1")] = Ok ($"select 'secret', ''secret''").
Proof. by vm_compute. Qed.

(** ** A session with a row filter *)

#[local] Existing Instance AuthorizeTheorems.toy_remote.
#[local] Existing Instance TimeRules.toy_chrono.
#[local] Existing Instance StateCrypto.toy_crypto.
#[local] Existing Instance TicketTheorems.toy_json.
#[local] Existing Instance Authorize.store_gate.
#[local] Existing Instance LoadBalance.counter_rng.
#[local] Existing Instance Route.prefix_regex.
#[local] Existing Instance run_flags2.

#[local] Instance run_backend : BackendConnector (PgConn PgLog) := pg_backend no_texts no_debug_text (λ _, true) (λ _, []) (λ _, None) no_format no_format no_format id.

(** The defaults of the configuration: what needs no change is passed through. *)
Definition pass_config : ConnConfig :=
  mkConnConfig ($"l1") ($"svc") None (HeuristicDialectParser PostgreSql) true ($"L1") false 0 0 (Streaming 256 None) true.
Definition tenant_policy : Pdp.LocalPdpInner := AuthorizeTheorems.with_rules [AuthorizeTheorems.tenant_rule].
Definition pass_start : Engine.Conn (F := PgFrontend) (Wr := CollectingWriter) (B := PgConn PgLog) (W := Ticket.World) (R := Z) :=
  mkConn (new_pg_frontend ($"14")) (mkCollecting []) pg_connector default_session None None None None ∅ AuthorizeTheorems.no_tickets [].
Definition pass_run (policy : Pdp.LocalPdpInner) (ms : list FrontendMessage) : option (list str * list (nat * str)) :=
  match run_postgresql_core_session (λ _, []) (λ x, x) (λ _, true) (λ _ _ _, []) words_objects ($"early eof") pass_config
          (λ _ _, readings policy) bob_session (concat (map client_message ms)) pass_start with
  | Some (Ret c) => Some (packets (c_writer c), heard_by (c_backend c, default_session))
  | _ => None
  end.

Definition heard_in (x : option (list str * list (nat * str))) : list (nat * str) := match x with Some (_, l) => l | None => [] end.
Definition unit_of (sql portal statement : str) : list FrontendMessage := [FParse statement sql []; FBind portal statement [] []].
Definition orders : str := $"select name from orders".
(** The bytes of messages, with the [Describe] that the relay adds. *)
Definition bytes_of (ms : list FrontendMessage) : str := concat (map client_message ms).
Definition described_unit (before : list FrontendMessage) (portal : str) : str :=
  bytes_of before ++ encode_message "D" ("P"%char :: cstring portal) ++ bytes_of [FExecute portal 0].

(** A simple query is sent with the filter of the policy.  The same statement in an extended
    unit is authorized and rewritten too, and then the client's own frames are sent: the
    filter is lost. *)
Example row_filter_lost :
  heard_in (pass_run tenant_policy [FQuery orders]) = [(0%nat, orders ++ $" WHERE (tenant_id = 1)")]
  ∧ heard_in (pass_run tenant_policy (unit_of orders [] [] ++ [FExecute [] 0; FSync]))
    = [(0%nat, described_unit (unit_of orders [] []) []); (0%nat, encode_message "H" []); (0%nat, encode_sync_message)].
Proof. by vm_compute. Qed.

Definition secret : str := $"select name from secrets".
Definition harmless : str := $"select id from numbers".
Definition secrets_denied : Pdp.LocalPdpInner := AuthorizeTheorems.with_rules [AuthorizeTheorems.deny_secrets].
Definition smuggled : list FrontendMessage :=
  unit_of secret ($"x") ($"s1") ++ unit_of harmless ($"y") ($"s2") ++ [FExecute ($"y") 0]
  ++ unit_of harmless ($"x") ($"s3") ++ [FExecute ($"x") 0; FSync].

(** A denied statement is executed.  Its [Parse] and [Bind] (portal [x]) travel in the unit
    of another, allowed [Execute]; then [x] is bound again, to an allowed statement: that
    [Bind] is never sent, since the unit is held open, but it is what the next [Execute]
    is authorized for.  The server runs the portal it knows. *)
Example denied_statement_executed :
  heard_in (pass_run secrets_denied (unit_of secret ($"x") ($"s1") ++ [FExecute ($"x") 0; FSync])) = []
  ∧ pass_run secrets_denied smuggled
    = Some ([encode_parse_complete; encode_bind_complete; encode_parse_complete; encode_bind_complete;
             data ($"x"); encode_command_complete ($"SELECT 1"); encode_parse_complete; encode_bind_complete;
             data ($"x"); encode_command_complete ($"SELECT 1"); encode_ready_for_query StIdle],
            [(0%nat, described_unit (unit_of secret ($"x") ($"s1") ++ unit_of harmless ($"y") ($"s2")) ($"y"));
             (0%nat, encode_message "H" []);
             (0%nat, bytes_of [FExecute ($"x") 0] ++ encode_message "H" []);
             (0%nat, encode_sync_message)]).
Proof. by vm_compute. Qed.

End PgBackendRuns.
